(* ===== verification/_CoqProject ===== *)
-Q . S2P
Prelude.v
SoftFloat.v
BsonTypes.v
StringView.v
Decimal128.v
BsonCompare.v
BsonOrder.v
RefBid.v
BsonRefine.v
BsonHash.v
BsonArith.v
Traversal.v
PgbsonElement.v
Dedup.v
QueryCache.v
BsonWire.v
BsonWriter.v
IndexTerm.v
IndexOrder.v
IndexLimit.v
DollarMatch.v
DollarOperators.v
DollarSets.v
OrderBy.v
SortUtils.v
ExprEval.v
GinOptions.v
GinTerms.v
GinReach.v
GinQuery.v
GinScan.v
UpdateOperators.v
UpdateTree.v
UpdateWorkflow.v
UpdateRef.v
AggData.v
AggOperators.v
AggEval.v
AggParse.v
AggGet.v
AggTable.v
AggMeaning.v
AggTyping.v
AggOutcome.v
AggHandlers.v
AggTrees.v
AggSound.v
AggRows.v
AggExamples.v
ProjTree.v
Project.v
ProjMeaning.v
ProjPlans.v
ProjApply.v
ProjPlain.v
ProjBuild.v
ProjSound.v
ProjExamples.v
ProjLens.v
Unwind.v
UnwindSound.v
UnwindExamples.v
ProjectStages.v
StagesSound.v
StagesExamples.v
QueryValues.v
UpdateDocument.v
GinExamples.v
UpdatePaths.v
UpdateBuild.v
UpdateApply.v
UpdateOutcomes.v
UpdatePush.v
UpdateExamples.v
QuerySound.v
QueryAsks.v
UpdateDocSound.v
UpdatePipeline.v
UpsertQuery.v
UpdateDocExamples.v
