(* ===== verification/Prelude.v ===== *)
(** * SequoiaDB-aidoc: a verification library for the BSON core

    SequoiaDB-aidoc is a document database on PostgreSQL.  Its extension is
    written in C, in two parts:

    - [src/pg_documentdb_core/src]: the [bson] datatype.  Documents arrive as
      serialized BSON; the core decodes them through libbson's iterator,
      compares and hashes their values (the btree and hash operator classes of
      PostgreSQL call it for every sort, index scan, unique check and grouping),
      does arithmetic on the numeric types, follows dotted paths through nested
      documents and arrays, and reads single-element documents directly from
      their bytes.
    - [src/pg_documentdb/src]: the document API on top of it: query, update and
      aggregation operators, index terms, commands, and the PISA integration
      with its query result cache.

    This library models the core, and of the document API the operators of the
    query language that compare, test and sort fields, the update operators with
    the tree that applies them, updates of documents by operators, replacements and
    pipelines, the expressions of aggregation from their parser to the SQL functions
    that evaluate them on rows, the projections of aggregation stages, the terms that
    are stored in indexes and how an index scan finds and rechecks them, the field
    deduplication and the query result cache.

    ** Files

    - [Prelude]: errors as values ([res], one constructor per [ereport] code the
      models reach), machine integers ([wrap_s], [wrap_u]), byte strings and the
      C functions on them ([memcmp], [strcmp], [strncmp], [strlen]), the orders
      a three-way comparison computes ([same_sign], [anti2], [trans3], [lexz]),
      and the hint databases.
    - [SoftFloat]: [double] as its 64-bit pattern and x87 [long double], on the
      Standard Library's IEEE-754 semantics; the exact value [sf_ext] of a float
      and the facts on rounding the comparison needs.
    - [BsonTypes]: [bson_type_t], [bson_value_t] and the type tables of
      [io/pgbson_utils.c] ([BsonTypeName], [BsonTypeFromName],
      [TryGetTypeFromInt64], ...).
    - [StringView]: [utils/string_view.h], [types/string_view.c] and the string
      lists of [utils/list_utils.c].
    - [Decimal128]: [types/decimal128.c], the wrappers around Intel's decimal
      library.
    - [BsonCompare]: [query/bson_compare.c], conversions between numeric types,
      the type order and the recursive comparison, up to the SQL operators.
    - [BsonOrder], [BsonRefine]: the abstract order of BSON values and the proof
      that [bson_compare.c] implements it.
    - [RefBid]: a concrete decimal library, libbson and collation, with the laws
      the other files assume proved of them.
    - [BsonHash]: [query/bson_hash.c].
    - [BsonArith]: the arithmetic and bitwise operations of
      [io/pgbson_utils.c].
    - [Traversal]: [TraverseBson] and the key search of [io/pgbson_utils.c].
    - [PgbsonElement]: [io/pgbsonelement.c], including the byte-level parser
      [FillPgbsonElementUnsafe].
    - [Dedup]: [io/bson_deduplicate.c].
    - [QueryCache]: [pisa_integration/query_cache.c].
    - [BsonWire]: the BSON format itself, sizes of values and documents, an
      encoder and a decoder, as an instance of the laws the index terms rely on.
    - [IndexTerm]: [opclass/gin_index_term.c], truncation, serialization and
      comparison of index terms; [IndexOrder] and [IndexLimit]: its theorems.
    - [DollarMatch]: the tests of one value in [query/bson_dollar_operators.c]
      ([$eq] to [$lte], [$exists], [$type], [$size], [$mod], [$regex] and the
      bitwise operators).
    - [DollarOperators]: the same operators on a path of a document, through the
      callbacks given to [TraverseBson].
    - [DollarSets]: [$in], [$nin] and [$range], with the hash set of values of
      [utils/hashset_utils.c].
    - [OrderBy]: the sort keys of a document, in [query/bson_dollar_operators.c] and
      [opclass/bson_text_gin.c].
    - [BsonWriter]: the document, array and element writers of [io/pgbson.c].
    - [SortUtils]: [utils/sort_utils.c], the comparator for array elements.
    - [ExprEval]: the loops of [query/bson_expr_eval.c] over arrays.
    - [GinOptions]: the options of the single path and wildcard operator classes and
      their serialized form ([opclass/bson_gin_core.c], [bson_gin_index_mgmt.h]).
    - [GinTerms]: generation of the terms of a document ([GenerateTerms] and its
      callbacks); [GinReach]: which terms it generates.
    - [GinQuery]: the keys an operator asks of the index, the partial match of a key
      against a stored term and the consistency test, with the class
      [AccessMethod] that states what the operator class promises to the index.
    - [GinScan], [GinExamples]: the theorems on index scans.
    - [UpdateOperators]: [update/bson_update_operators.c], the operators of an update,
      each on the value of one field.
    - [UpdateTree]: the tree of an update specification, [aggregation/bson_tree.c] and
      the first half of [update/bson_update_operators_workflow.c], with positional
      operators and array filters.
    - [UpdateWorkflow]: the application of the tree to a document, the second half
      of that file.
    - [UpdateRef]: reference instances of the libraries the update files call.
    - [UpdateBuild], [UpdatePaths], [UpdateApply], [UpdateOutcomes], [UpdatePush],
      [UpdateExamples]: the theorems on updates.
    - [AggData]: the parsed form of an aggregation expression, contexts of variables,
      results and field paths ([operators/bson_expression.h], [bson_expression.c],
      [aggregation/bson_tree.h]).
    - [AggOperators]: what the boolean, comparison and arithmetic operators compute
      from values ([operators/bson_expression_boolean_operators.c],
      [bson_expression_comparison_operators.c], [bson_expression_arithmetic_operators.c]).
    - [AggEval]: evaluation ([bson_expression.c], [aggregation/bson_tree_write.c] and
      the handlers of the operators, with those of
      [bson_expression_conditional_operators.c]).
    - [AggParse]: the parser with its constant folding, the table of operators and
      the parsers of their arguments ([bson_expression.c],
      [aggregation/bson_projection_tree.c]).
    - [AggGet]: the SQL functions [bson_expression_get] and its relatives, and the
      variables of a command.
    - [AggTable]: the binary search in the table of operators; [AggTyping]: types of
      results.
    - [AggMeaning]: a reference semantics of expressions; [AggOutcome], [AggHandlers],
      [AggTrees], [AggSound], [AggRows]: the proof that the code implements it;
      [AggExamples]: concrete expressions.
    - [ProjTree]: the tree of a projection ([aggregation/bson_tree.c],
      [bson_projection_tree.c]); [Project]: its application to documents and the
      stages [$project], [$addFields], [$set] and [$unset] ([bson_project.c],
      [bson_tree_write.c]).
    - [ProjMeaning]: projections as plans, lists of paths with what happens to them,
      and what a plan makes of a document; [ProjPlans], [ProjBuild], [ProjApply],
      [ProjSound]: the proof that the code implements it; [ProjPlain]: the values of a
      projected document; [ProjLens]: what a plan does to the value of a path;
      [ProjExamples].
    - [Unwind]: [aggregation/bson_unwind.c], with [UnwindSound] and [UnwindExamples].
    - [ProjectStages]: [$replaceRoot], [$redact], [$facet] and the functions of [$lookup] in
      [bson_project.c], with [StagesSound] and [StagesExamples].
    - [QueryValues]: the values that a query determines and the [_id] that it asks for
      ([aggregation/bson_query.c]); [QuerySound]: the traversal as a list of events;
      [QueryAsks]: what a query asks for.
    - [UpdateDocument]: the kinds of updates, replacements, pipelines and the document of
      an upsert ([update/bson_update.c], [update/bson_update_aggregation.c], and
      [RewriteDocumentAddObjectId] of [commands/commands_common.c]); [UpdateDocSound],
      [UpdatePipeline], [UpsertQuery], [UpdateDocExamples]: its theorems.

    ** How the models correspond to the code

    A definition has the name of the C function it translates.  A function that
    may raise an error returns [res]; an out parameter is a further component of
    the result; an in-place update returns the updated value.  Callbacks over a
    [void *] state are state-passing functions over an arbitrary state type.  The
    static variables of the query cache are the record [QueryCache.cache], and
    each operation takes the time where the source asks for the current time.
    Integers are [Z] with the wrap-around of their C type written out; signed
    overflow wraps because the extension is compiled, like PostgreSQL, with
    [-fwrapv].  A document is the list of the (key, value) pairs libbson's iterator
    yields, except in [PgbsonElement], where it is the buffer the code reads.

    Code outside the repository is an argument of the definitions that call it,
    as a class of operations, with its documented behaviour as a class of laws:
    [BidLib]/[BidLaws] (Intel's decimal library), [LibBson]/[LibBsonLaws]
    (decoding, object ids, ICU collation), [PgHash] (PostgreSQL's hash
    primitives), [PgCache]/[PgCacheLaws] (datum sizes, list sorting), [BsonWireLaws]
    (a decoder inverts the encoding), [Pcre2] (regular expressions), [IcuSortKey]
    (sort keys of a collation), [LibBsonDoc]/[LibBsonDocLaws] and [LibBsonNew]
    (appending a value, finding a field, validation, new object ids),
    [PgSort]/[PgSortLaws] ([qsort_arg]), [ExprEngine] and [PositionalQuery] (compiled
    query expressions), [AccessMethod]/[AccessMethodLaws] (PostgreSQL's GIN scan), [LibM]
    ([exp] and [log]), [toast_compress_datum], [EvaluateMetaTextScore] and the clock.
    The expression operators whose files are not modelled are two functions,
    [parse_other] and [handle_other], over an arbitrary type of parsed arguments.
    The hash tables of variables of an expression are numbered, and the evaluation
    is a function of the state [AggData.tables] that knows which were destroyed.
    [ValueMemory], [UnionView] and [uninitialized_type] give what the code sees
    where it reads a union member of another type, the address of a pointer or a
    variable that was not assigned.  Theorems hold for every instance
    that satisfies the laws; [RefBid] and the [Witnesses] sections instantiate
    them.

    ** What the theorems show

    Each theorem states its conditions; the ones that recur are named here.  Values
    are well-formed ([BsonTypes.value_ok], what libbson yields for a validated document).
    [supported] is the fragment of expressions on which the code follows the reference
    semantics, [indexable] the documents whose index terms are written whole under regular
    names, [UpdateBuild.spec_ok] the update specifications without positional paths, [$rename],
    [$setOnInsert] and paths of the [_id], [number_safe] the numbers whose hash agrees with
    their comparison.  The examples and findings show what the code does beyond them.

    - Comparison ([BsonRefine]): on well-formed values the recursive comparison
      raises no error and returns the sign of the abstract order
      ([CompareBsonValueAndTypeWithCollation_refines]), which is a total preorder
      for every collation ICU can apply; int32, int64, double and boolean operands are
      compared by their exact values, also where a double or a 64-bit integer is
      not representable in the other's format ([CompareNumbers_exact]); a double that is
      compared with a decimal is first rounded to 34 digits, and the results over any
      mix of numeric types are still those of one total preorder
      ([CompareNumbers_mixed_preorder]); the byte-equality shortcut of
      [ComparePgbson] is sound and the SQL operators are the relations of one
      order.
    - Hashing ([BsonHash]): values that compare equal have equal hashes on the
      stated domain, the hash is total, and concrete pairs show where equal
      values hash differently.
    - Arithmetic ([BsonArith]): on integers the result is the exact sum,
      difference or product in the narrowest type the code promises, or a double
      with the overflow flag; the exact inputs that escape the overflow test of
      multiplication and subtraction are excluded and shown separately.
    - Traversal ([Traversal]): the traversal visits exactly the values that a
      reference semantics of dotted paths gives, in order ([TraverseBson_visits]), and
      the optimization that skips array indexes does not change its result.
    - Parsing ([PgbsonElement]): the byte-level parser inverts the BSON encoding
      for every type but timestamps, database pointers and code with scope, whose
      behaviour is stated as it is.
    - Deduplication ([Dedup]): the result has the last value of every field at the
      place of its first occurrence, at every depth, and deduplication is
      idempotent.
    - Query cache ([QueryCache]): a lookup returns the last stored, unexpired
      result (a simulation by a map from keys to stored results along arbitrary
      sequences of operations), eviction removes the least recently used entries,
      the size stays bounded, and the counters keep their relations.
    - Query operators ([DollarMatch], [DollarOperators]): with a filter that is not
      treated as null, an operator matches a document exactly when its test holds of a
      value the path reaches or of an element of an array it reaches; a null filter also
      matches when the path is missing, and there the order of elements counts
      ([bson_dollar_eq_null_order]); with other filters [$eq] and the four comparisons are
      the relations of the abstract order between values of one type class; [$mod] and the bitwise operators compute on integers what
      their definitions say.
    - [$in] and [$range] ([DollarSets]): on scalar entries other than null and regular
      expressions and numbers that are [number_safe], without collation, the hash set of
      [$in] finds a value exactly when some entry compares equal to it; on a path without
      arrays on the way [$range] matches a value between its
      bounds, or an array with an element for each bound.
    - Sort keys ([OrderBy]): the key of a document is a least (or greatest) of its
      candidates: the values its path reaches, and null for elements of arrays on the way
      that lack the path; the SQL operators order the keys.
    - Index terms ([IndexOrder], [IndexLimit]): parsing inverts serialization, for
      composite terms as well; the comparison of terms is a total preorder; terms
      of strings are ordered as the strings are, truncated or not; with the truncation
      of nested objects enabled the serialized term of a [truncatable] value is at most a
      byte over the size limit, and values for which a term is longer or refused are shown.
    - Index scans ([GinScan]): for [$eq], [$gt], [$gte], [$lt], [$lte], filters on null,
      [$in] and [$exists], over [indexable] documents and without collation, what a scan
      of the index answers without recheck is the operator's answer, and with recheck no
      matching document is left out, so that scan and recheck together return exactly
      the documents the operator matches ([index_answers_comparisons] and its companions); a path specification is read back
      as it was written ([path_specs_roundtrip]).
    - Updates: the tree of a specification that is [spec_ok] has exactly its paths as
      leaves, and paths of which one is a prefix of another are refused ([UpdateBuild]);
      applied to a document in which the paths lead through documents, every operator
      sees and sets its own path and the rest of the document is kept ([UpdatePaths], by a reference semantics of trees that the
      traversal is shown to implement, and [UpdateApply] for the two together);
      what [$set], [$unset], [$min], [$max], [$inc], [$addToSet], [$pull], [$pullAll],
      [$pop] and [$push] make of a value ([UpdateOutcomes], [UpdatePush]).
    - Aggregation expressions: an expression of the fragment [supported] that was parsed
      once gives, for every row, the value or error that the reference semantics gives
      to the expression ([bson_expression_get_rows_mean]), so that
      constant folding, the variables of [$let] and the writers change nothing; where
      a [$let] binds several variables a row may instead search a hash table that was
      destroyed before ([bson_expression_get_row_sound], which shows that nothing else
      can go wrong).  A field path yields what following its segments gives
      ([AggMeaning]), the binary search finds every operator of the table
      ([AggTable]), and the types that the arithmetic operators give follow from the
      values of their operands ([AggTyping]).
    - Projections ([ProjSound]): a [$project] or [$addFields] that was read, with
      expressions of that fragment, gives, for
      every document of a query, the document that the plan of its specification
      makes, or the first error of its expressions ([dollar_project_rows],
      [dollar_add_fields_rows]; the lemma [unset_state_sound] for [$unset]); a
      specification that mixes inclusions and exclusions is refused
      ([mixed_projection_refused]).
    - Stages: a row of [$unwind] of an array reached through documents has the element at the path of the array, its position at
      the path of the index, and every other path as it was ([UnwindSound],
      [unwind_array_rows]); the filter of [$lookup] has the values of [distinct]
      ([lookup_filter_values]); the matches of [$lookup] are put at their path
      ([lookup_project_matches]), [$replaceRoot] gives the value of its expression
      ([replace_root_value]) and [$redact] leaves out what its expression prunes
      ([redact_drops_pruned]) ([StagesSound]).
    - Updates of documents: an update of any kind that is no upsert keeps the [_id] and the
      size limit ([update_keeps_id]); a replacement has the [_id] of the document first and
      then the new fields ([replacement_keeps_id]), an upsert by a replacement the [_id]
      in its order of precedence ([upsert_by_replacement]) ([UpdateDocSound]).  A pipeline
      applies the meaning of its stages, each to the document that the one before it
      gives ([pipeline_update_meaning] in [UpdatePipeline], from the theorems on
      projections and expressions).  The document that an upsert starts from has every
      value that the query asks for, and is refused exactly when one path leads to
      another ([upsert_document_values] in [UpsertQuery]); the [_id] of a query is the value
      that all conditions on it agree on ([query_id_agreed] in [QuerySound]).
    - Strings and types ([StringView], [BsonTypes]): functional specifications of
      parsing, searching, splitting and counting, and round trips of the tables.

    ** Bounds and fuel

    [TraverseBson] runs [TraverseBsonCore] with the length of the path plus one:
    every recursive call consumes a separator, and the lemma [TraverseBson_total]
    shows that this never runs out.  [StringView.multibyte_loop] has one unit per byte and
    every character takes at least one.  [RefBid] searches exponents over a range
    of 660, which covers those of the binary64 and decimal formats it converts
    between.  [IndexTerm.compare_terms] and [composite_terms] have one unit per byte
    of the buffer and every term takes at least its length prefix; the decoder of
    [BsonWire] has one unit per byte.  [TraverseDottedPathAndGetNode] has one unit more
    than the bytes of the path, and every call consumes a segment; so has the evaluation
    of a field path.  The parser and the evaluators of aggregation expressions take the
    depth of the stack the server allows, one for parsing and one for evaluation; the
    theorems hold whenever the parser's depth suffices, for every evaluation depth from
    some depth on.  The fuel of [AggMeaning.meaning] is the nesting depth of the
    expression.  All other recursion is structural.

    ** What is not modelled

    Memory contexts, stack-depth checks, logging and lock acquisition; printing and
    parsing of extended JSON, which is libbson's, and the errors libbson raises for
    documents over its size limit; [$all], [$elemMatch], [$expr], [$text] and the
    geospatial operators; the hooks of updates for change streams and update
    trackers, and operators that other extensions register; the date, array, string, set, object, type, bitwise and
    trigonometric expression operators, which the parser and the evaluator know only
    by their place in the table; the stages of aggregation pipelines other than the
    projections, [$unwind], [$replaceRoot], [$redact] and parts of [$lookup], and the
    projection operators of [find]; composite and
    hashed indexes; the lifetime of what an expression keeps in memory, but for the
    hash tables of its variables; building of PostgreSQL expression trees, catalogs, SQL and planner hooks; the Rust
    gateway; calls into Citus.

    ** What remains

    Of the parts with logic of their own: [$all] and [$elemMatch]; document sequences;
    parsing of collation documents; bounds of composite index scans; the expression
    operators named above; retryable writes; the scheduling algorithms of the PISA
    integration. *)

From Stdlib Require Import ZArith List Lia Bool.
From Stdlib Require Import Strings.Byte.
Import ListNotations.
Local Open Scope Z_scope.

(** ** Errors: [ereport(ERROR, ...)] as a value *)

Inductive errcode : Set :=
| ERRCODE_INTERNAL_ERROR               (* ereport(ERROR, errmsg(..)) without errcode *)
| ERRCODE_FEATURE_NOT_SUPPORTED
| ERRCODE_CHECK_VIOLATION
| ERRCODE_FLOATING_POINT_EXCEPTION     (* SIGFPE, reported by the server's signal handler *)
| ERRCODE_DOCUMENTDB_INTERNALERROR
| ERRCODE_DOCUMENTDB_BADVALUE
| ERRCODE_DOCUMENTDB_COMMANDNOTSUPPORTED
| ERRCODE_DOCUMENTDB_CONVERSIONFAILURE
| ERRCODE_DOCUMENTDB_LOCATION16004
| ERRCODE_DOCUMENTDB_LOCATION16006
| ERRCODE_DOCUMENTDB_FAILEDTOPARSE
| ERRCODE_DOCUMENTDB_LOCATION31109
| ERRCODE_DOCUMENTDB_LOCATION31138
| ERRCODE_DOCUMENTDB_LOCATION5429414
| ERRCODE_DOCUMENTDB_LOCATION5429513
| ERRCODE_DOCUMENTDB_LOCATION51091
| ERRCODE_DOCUMENTDB_LOCATION51156
| ERRCODE_DOCUMENTDB_EXCEEDEDMEMORYLIMIT
| ERRCODE_DOCUMENTDB_TYPEMISMATCH
| ERRCODE_DOCUMENTDB_CONFLICTINGUPDATEOPERATORS
| ERRCODE_DOCUMENTDB_IMMUTABLEFIELD
| ERRCODE_DOCUMENTDB_PATHNOTVIABLE
| ERRCODE_DOCUMENTDB_EMPTYFIELDNAME
| ERRCODE_DOCUMENTDB_CANNOTBACKFILLARRAY
| ERRCODE_DOCUMENTDB_DOLLARPREFIXEDFIELDNAME
| ERRCODE_DOCUMENTDB_NOTSINGLEVALUEFIELD
| ERRCODE_DOCUMENTDB_NOTEXACTVALUEFIELD
| ERRCODE_DOCUMENTDB_DOCUMENTTOUPSERTLARGERTHANMAXSIZE
| ERRCODE_DOCUMENTDB_DOCUMENTAFTERUPDATELARGERTHANMAXSIZE
| ERRCODE_DOCUMENTDB_LOCATION16410
| ERRCODE_DOCUMENTDB_LOCATION31249
| ERRCODE_DOCUMENTDB_LOCATION31250
| ERRCODE_DOCUMENTDB_DOTTEDFIELDNAME
| ERRCODE_DOCUMENTDB_HASHEDINDEXDONOTSUPPORTARRAYVALUES
| ERRCODE_DOCUMENTDB_LOCATION10065
| ERRCODE_DOCUMENTDB_LOCATION16020
| ERRCODE_DOCUMENTDB_LOCATION16411
| ERRCODE_DOCUMENTDB_LOCATION16874
| ERRCODE_DOCUMENTDB_LOCATION16875
| ERRCODE_DOCUMENTDB_LOCATION16876
| ERRCODE_DOCUMENTDB_LOCATION17276
| ERRCODE_DOCUMENTDB_LOCATION28765
| ERRCODE_DOCUMENTDB_LOCATION31325
| ERRCODE_DOCUMENTDB_LOCATION40181
| ERRCODE_DOCUMENTDB_LOCATION4890500
| ERRCODE_DOCUMENTDB_OVERFLOW
| ERRCODE_DOCUMENTDB_RANGEARGUMENTEXPRESSIONARGSOUTOFRANGE
| ERRCODE_DOCUMENTDB_DOLLARIFNULLREQUIRESATLEASTTWOARGS
| ERRCODE_DOCUMENTDB_DOLLARCONDBADPARAMETER
| ERRCODE_DOCUMENTDB_DOLLARCONDMISSINGIFPARAMETER
| ERRCODE_DOCUMENTDB_DOLLARCONDMISSINGTHENPARAMETER
| ERRCODE_DOCUMENTDB_DOLLARCONDMISSINGELSEPARAMETER
| ERRCODE_DOCUMENTDB_DOLLARSWITCHREQUIRESOBJECT
| ERRCODE_DOCUMENTDB_DOLLARSWITCHREQUIRESARRAYFORBRANCHES
| ERRCODE_DOCUMENTDB_DOLLARSWITCHBADARGUMENT
| ERRCODE_DOCUMENTDB_DOLLARSWITCHREQUIRESATLEASTONEBRANCH
| ERRCODE_DOCUMENTDB_DOLLARSWITCHNOMATCHINGBRANCHANDNODEFAULT
| ERRCODE_DOCUMENTDB_DOLLARSWITCHREQUIRESOBJECTFOREACHBRANCH
| ERRCODE_DOCUMENTDB_DOLLARSWITCHUNKNOWNARGUMENTFORBRANCH
| ERRCODE_DOCUMENTDB_DOLLARSWITCHREQUIRESCASEEXPRESSIONFORBRANCH
| ERRCODE_DOCUMENTDB_DOLLARSWITCHREQUIRESTHENEXPRESSIONFORBRANCH
| ERRCODE_DOCUMENTDB_DOLLARADDONLYONEDATE
| ERRCODE_DOCUMENTDB_DOLLARADDNUMERICORDATETYPES
| ERRCODE_DOCUMENTDB_DOLLARMODONLYNUMERIC
| ERRCODE_DOCUMENTDB_DOLLARMODBYZEROPROHIBITED
| ERRCODE_DOCUMENTDB_DOLLARSQRTGREATEROREQUALTOZERO
| ERRCODE_DOCUMENTDB_DOLLARLOG10MUSTBEPOSITIVENUMBER
| ERRCODE_DOCUMENTDB_DOLLARLNMUSTBEPOSITIVENUMBER
| ERRCODE_DOCUMENTDB_DOLLARLOGARGUMENTMUSTBENUMERIC
| ERRCODE_DOCUMENTDB_DOLLARLOGBASEMUSTBENUMERIC
| ERRCODE_DOCUMENTDB_DOLLARLOGNUMBERMUSTBEPOSITIVE
| ERRCODE_DOCUMENTDB_DOLLARLOGBASEMUSTBEGREATERTHANONE
| ERRCODE_DOCUMENTDB_DOLLARPOWBASEMUSTBENUMERIC
| ERRCODE_DOCUMENTDB_DOLLARPOWEXPONENTMUSTBENUMERIC
| ERRCODE_DOCUMENTDB_DOLLARPOWEXPONENTINVALIDFORZEROBASE
| ERRCODE_DOCUMENTDB_DOLLARROUNDFIRSTARGMUSTBENUMERIC
| ERRCODE_DOCUMENTDB_DOLLARROUNDPRECISIONMUSTBEINTEGRAL
| ERRCODE_DOCUMENTDB_DOLLARROUNDPRECISIONOUTOFRANGE
| ERRCODE_DOCUMENTDB_DOLLARROUNDOVERFLOWINT64
| ERRCODE_DOCUMENTDB_DOLLARABSCANTTAKELONGMINVALUE
| ERRCODE_INVALID_PARAMETER_VALUE
| ERRCODE_INVALID_TEXT_REPRESENTATION
| ERRCODE_DOCUMENTDB_LOCATION31254
| ERRCODE_DOCUMENTDB_LOCATION40228
| ERRCODE_DOCUMENTDB_LOCATION17053
| ERRCODE_DOCUMENTDB_LOCATION40414
| ERRCODE_DOCUMENTDB_UNKNOWNBSONFIELD
| ERRCODE_DOCUMENTDB_LOCATION31120
| ERRCODE_DOCUMENTDB_LOCATION31002
| ERRCODE_DOCUMENTDB_LOCATION40272
| ERRCODE_DOCUMENTDB_LOCATION40229
| ERRCODE_DOCUMENTDB_INVALIDOPTIONS
| ERRCODE_DOCUMENTDB_QUERYFEATURENOTALLOWED
| ERRCODE_DOCUMENTDB_BSONOBJECTTOOLARGE
| ERRCODE_STATEMENT_TOO_COMPLEX        (* check_stack_depth *)
| USE_AFTER_FREE                       (* freed memory is read *)
| NULL_DEREFERENCE                     (* a NULL pointer is read: the server process dies *)
| READ_BEYOND_BUFFER                   (* bytes behind a buffer are read *)
| ASSERTION_FAILED.                    (* Assert, in builds that check it *)

Inductive res (A : Type) : Type :=
| Ok (a : A)
| Err (e : errcode).
Arguments Ok {A} a.
Arguments Err {A} e.

Definition res_bind {A B} (r : res A) (k : A -> res B) : res B :=
  match r with Ok a => k a | Err e => Err e end.

Declare Scope res_scope.
Delimit Scope res_scope with res.
Notation "'let*' x ':=' e 'in' k" := (res_bind e (fun x => k))
  (at level 10, x name, e at level 100, k at level 200) : res_scope.
Notation "'let*' ' p ':=' e 'in' k" := (res_bind e (fun p => k))
  (at level 10, p strict pattern, e at level 100, k at level 200) : res_scope.

Lemma res_bind_Ok {A B} (a : A) (k : A -> res B) : res_bind (Ok a) k = k a.
Proof. reflexivity. Qed.

(** ** Machine integers *)

Definition wrap_u (w z : Z) : Z := z mod 2 ^ w.
Definition wrap_s (w z : Z) : Z := (z + 2 ^ (w - 1)) mod 2 ^ w - 2 ^ (w - 1).

Definition INT32_MAX : Z := 2147483647.
Definition INT32_MIN : Z := -2147483648.
Definition INT64_MAX : Z := 9223372036854775807.
Definition INT64_MIN : Z := -9223372036854775808.

Definition int32_ok (z : Z) : Prop := INT32_MIN <= z <= INT32_MAX.
Definition int64_ok (z : Z) : Prop := INT64_MIN <= z <= INT64_MAX.
Definition uint32_ok (z : Z) : Prop := 0 <= z < 2 ^ 32.
Definition uint64_ok (z : Z) : Prop := 0 <= z < 2 ^ 64.

Definition b2z (b : bool) : Z := if b then 1 else 0.

Create HintDb bson_db.

Ltac zbounds :=
  unfold int32_ok, int64_ok, uint32_ok, uint64_ok,
    INT32_MAX, INT32_MIN, INT64_MAX, INT64_MIN in *;
  change (2 ^ 31) with 2147483648 in *;
  change (2 ^ 32) with 4294967296 in *;
  change (2 ^ 63) with 9223372036854775808 in *;
  change (2 ^ 64) with 18446744073709551616 in *.

Lemma wrap_s32_id z : int32_ok z -> wrap_s 32 z = z.
Proof.
  intros H. unfold wrap_s. change (32 - 1) with 31. zbounds.
  rewrite Z.mod_small; lia.
Qed.

Lemma wrap_s64_id z : int64_ok z -> wrap_s 64 z = z.
Proof.
  intros H. unfold wrap_s. change (64 - 1) with 63. zbounds.
  rewrite Z.mod_small; lia.
Qed.

Lemma wrap_s32_ok z : int32_ok (wrap_s 32 z).
Proof.
  unfold wrap_s. change (32 - 1) with 31. zbounds.
  pose proof (Z.mod_pos_bound (z + 2147483648) 4294967296). lia.
Qed.

Lemma wrap_s64_ok z : int64_ok (wrap_s 64 z).
Proof.
  unfold wrap_s. change (64 - 1) with 63. zbounds.
  pose proof (Z.mod_pos_bound (z + 9223372036854775808) 18446744073709551616). lia.
Qed.

#[export] Hint Resolve wrap_s32_ok wrap_s64_ok : bson_db.

(** ** Three-way comparison results

    The C comparators return an [int] of which callers look only at the sign.
    [trans3 ab bc ac] says that the three results of comparing [a] with [b],
    [b] with [c] and [a] with [c] are those of one total preorder;
    [lexz] is "first difference wins". *)

Definition cmpz (a b : Z) : Z := if a >? b then 1 else if a =? b then 0 else -1.

Definition lexz (x y : Z) : Z := if x =? 0 then y else x.

Definition trans3 (ab bc ac : Z) : Prop :=
  (ab <= 0 -> bc <= 0 -> ac <= 0 /\ (ac = 0 -> ab = 0 /\ bc = 0)) /\
  (0 <= ab -> 0 <= bc -> 0 <= ac /\ (ac = 0 -> ab = 0 /\ bc = 0)).

Definition anti2 (ab ba : Z) : Prop := Z.sgn ab = - Z.sgn ba.

(** Two comparison results that callers cannot tell apart. *)
Definition same_sign (x y : Z) : Prop := Z.sgn x = Z.sgn y.

Lemma trans3_zero : trans3 0 0 0.
Proof. unfold trans3. lia. Qed.

Lemma anti2_zero : anti2 0 0.
Proof. reflexivity. Qed.

Lemma anti2_self x : anti2 x x -> x = 0.
Proof. unfold anti2. lia. Qed.

Lemma trans3_sub a b c : trans3 (a - b) (b - c) (a - c).
Proof. unfold trans3. lia. Qed.

Lemma anti2_sub a b : anti2 (a - b) (b - a).
Proof. unfold anti2. lia. Qed.

Lemma cmpz_sign a b : same_sign (cmpz a b) (a - b).
Proof.
  unfold same_sign, cmpz.
  destruct (a >? b) eqn:E1; [|destruct (a =? b) eqn:E2]; lia.
Qed.

Lemma same_sign_refl x : same_sign x x.
Proof. reflexivity. Qed.

Lemma same_sign_sym x y : same_sign x y -> same_sign y x.
Proof. unfold same_sign. congruence. Qed.

Lemma same_sign_trans x y z : same_sign x y -> same_sign y z -> same_sign x z.
Proof. unfold same_sign. congruence. Qed.

Lemma trans3_same_sign x y z x' y' z' :
  same_sign x x' -> same_sign y y' -> same_sign z z' ->
  trans3 x' y' z' -> trans3 x y z.
Proof. unfold same_sign, trans3. lia. Qed.

Lemma anti2_same_sign x y x' y' :
  same_sign x x' -> same_sign y y' -> anti2 x' y' -> anti2 x y.
Proof. unfold same_sign, anti2. congruence. Qed.

Lemma lexz_same_sign x y x' y' :
  same_sign x x' -> same_sign y y' -> same_sign (lexz x y) (lexz x' y').
Proof.
  unfold same_sign, lexz. intros.
  destruct (x =? 0) eqn:E, (x' =? 0) eqn:E'; lia.
Qed.

Lemma trans3_lexz x y z x' y' z' :
  trans3 x y z ->
  (x = 0 -> y = 0 -> z = 0 -> trans3 x' y' z') ->
  trans3 (lexz x x') (lexz y y') (lexz z z').
Proof.
  unfold trans3, lexz. intros [H1 H2] H.
  destruct (Z.eqb_spec x 0), (Z.eqb_spec y 0), (Z.eqb_spec z 0); subst;
    try specialize (H eq_refl eq_refl eq_refl); lia.
Qed.

Lemma anti2_lexz x y x' y' :
  anti2 x y -> (x = 0 -> y = 0 -> anti2 x' y') ->
  anti2 (lexz x x') (lexz y y').
Proof.
  unfold anti2, lexz. intros H1 H.
  destruct (Z.eqb_spec x 0), (Z.eqb_spec y 0); subst;
    try specialize (H eq_refl eq_refl); lia.
Qed.

Lemma trans3_cmpz a b c : trans3 (cmpz a b) (cmpz b c) (cmpz a c).
Proof.
  eapply trans3_same_sign; try apply cmpz_sign. apply trans3_sub.
Qed.

Lemma anti2_cmpz a b : anti2 (cmpz a b) (cmpz b a).
Proof. eapply anti2_same_sign; try apply cmpz_sign. apply anti2_sub. Qed.

Lemma cmpz_0 a b : cmpz a b = 0 <-> a = b.
Proof. pose proof (cmpz_sign a b) as H. unfold same_sign in H. lia. Qed.

#[export] Hint Resolve trans3_zero trans3_sub trans3_cmpz anti2_zero anti2_sub
  anti2_cmpz same_sign_refl cmpz_sign : bson_db.

(** ** Bytes, C strings and memory comparison *)

Abbreviation bytes := (list byte).

Definition byte_z (b : byte) : Z := Z.of_N (Byte.to_N b).

Definition byte_of_z (z : Z) : byte :=
  match Byte.of_N (Z.to_N (z mod 256)) with Some b => b | None => x00 end.

Definition blen (l : bytes) : Z := Z.of_nat (length l).

Lemma byte_z_range b : 0 <= byte_z b < 256.
Proof.
  unfold byte_z. pose proof (Byte.to_N_bounded b). lia.
Qed.

Lemma byte_z_inj a b : byte_z a = byte_z b -> a = b.
Proof.
  unfold byte_z. intros H%N2Z.inj.
  pose proof (Byte.of_to_N a) as Ha. pose proof (Byte.of_to_N b) as Hb.
  congruence.
Qed.

Lemma byte_z_of_z z : byte_z (byte_of_z z) = z mod 256.
Proof.
  unfold byte_of_z, byte_z.
  pose proof (Z.mod_pos_bound z 256 ltac:(lia)) as Hb.
  destruct (Byte.of_N (Z.to_N (z mod 256))) eqn:E.
  - apply Byte.to_of_N in E. rewrite E. lia.
  - apply Byte.of_N_None_iff in E. lia.
Qed.

Lemma byte_of_z_z b : byte_of_z (byte_z b) = b.
Proof.
  apply byte_z_inj. rewrite byte_z_of_z.
  apply Z.mod_small, byte_z_range.
Qed.

(** [memcmp(l, r, n)]: the C standard fixes only the sign of the result. *)
Fixpoint memcmp (l r : bytes) (n : nat) : Z :=
  match n, l, r with
  | S n', a :: l', b :: r' => lexz (cmpz (byte_z a) (byte_z b)) (memcmp l' r' n')
  | _, _, _ => 0
  end.

(** [strncmp(l, r, n)]: as [memcmp], but stops at the first NUL of both; a
    string that ends before [n] characters reads as a NUL there. *)
Fixpoint strncmp (l r : bytes) (n : nat) : Z :=
  match n with
  | O => 0
  | S n' =>
    match l, r with
    | [], [] => 0
    | [], b :: _ => cmpz 0 (byte_z b)
    | a :: _, [] => cmpz (byte_z a) 0
    | a :: l', b :: r' =>
      lexz (cmpz (byte_z a) (byte_z b))
           (if byte_z a =? 0 then 0 else strncmp l' r' n')
    end
  end.

(** [strcmp] on NUL-terminated strings, given without their terminator. *)
Definition strcmp (l r : bytes) : Z := strncmp l r (S (Nat.max (length l) (length r))).

(** The reference order on byte strings: lexicographic, a proper prefix first. *)
Fixpoint cmp_bytes (l r : bytes) : Z :=
  match l, r with
  | [], [] => 0
  | [], _ :: _ => -1
  | _ :: _, [] => 1
  | a :: l', b :: r' => lexz (cmpz (byte_z a) (byte_z b)) (cmp_bytes l' r')
  end.

Lemma trans3_cmp_bytes a b c :
  trans3 (cmp_bytes a b) (cmp_bytes b c) (cmp_bytes a c).
Proof.
  revert b c; induction a as [|x a IH]; intros [|y b] [|z c]; simpl;
    try (unfold trans3; lia).
  apply trans3_lexz; auto with bson_db.
Qed.

Lemma anti2_cmp_bytes a b : anti2 (cmp_bytes a b) (cmp_bytes b a).
Proof.
  revert b; induction a as [|x a IH]; intros [|y b]; simpl; try reflexivity.
  apply anti2_lexz; auto with bson_db.
Qed.

Lemma cmp_bytes_0 a b : cmp_bytes a b = 0 <-> a = b.
Proof.
  revert b; induction a as [|x a IH]; intros [|y b]; simpl; try (split; [lia|congruence]).
  - tauto.
  - unfold lexz. destruct (cmpz (byte_z x) (byte_z y) =? 0) eqn:E.
    + rewrite IH. apply Z.eqb_eq, cmpz_0, byte_z_inj in E. subst.
      split; congruence.
    + split; [lia|]. intros H; injection H as -> ->.
      assert (cmpz (byte_z y) (byte_z y) = 0) by now apply cmpz_0. lia.
Qed.

Lemma cmp_bytes_refl a : cmp_bytes a a = 0.
Proof. now apply cmp_bytes_0. Qed.

#[export] Hint Resolve trans3_cmp_bytes anti2_cmp_bytes cmp_bytes_refl : bson_db.

(** Comparing the common prefix and then the lengths is lexicographic order. *)
Lemma memcmp_min_then_length l r :
  same_sign (lexz (memcmp l r (Nat.min (length l) (length r))) (blen l - blen r))
            (cmp_bytes l r).
Proof.
  unfold blen. revert r; induction l as [|a l IH]; intros [|b r];
    cbn [length Nat.min memcmp cmp_bytes]; try easy.
  specialize (IH r). unfold same_sign, lexz in *.
  destruct (cmpz (byte_z a) (byte_z b) =? 0) eqn:E; [|rewrite E; reflexivity].
  rewrite <- IH. destruct (memcmp l r _ =? 0); lia.
Qed.

Lemma memcmp_0_firstn l r n :
  (n <= length l)%nat -> (n <= length r)%nat ->
  memcmp l r n = 0 -> firstn n l = firstn n r.
Proof.
  revert l r; induction n as [|n IH]; intros [|a l] [|b r] Hl Hr; simpl in *;
    try easy; try lia.
  unfold lexz. destruct (cmpz (byte_z a) (byte_z b) =? 0) eqn:E; [|lia].
  intros H. apply Z.eqb_eq, cmpz_0, byte_z_inj in E. subst. f_equal.
  apply IH; auto; lia.
Qed.

(** Strings without an embedded NUL. *)
Definition no_nul (l : bytes) : Prop := Forall (fun b => byte_z b <> 0) l.

Lemma strncmp_min_memcmp l r n :
  (n <= length l)%nat -> (n <= length r)%nat -> no_nul l ->
  strncmp l r n = memcmp l r n.
Proof.
  revert l r; induction n as [|n IH]; intros [|a l] [|b r] Hl Hr HN;
    simpl in *; try easy; try lia.
  inversion_clear HN as [|? ? Ha HN'].
  destruct (Z.eqb_spec (byte_z a) 0); [easy|].
  rewrite IH; auto; lia.
Qed.

(** [strcmp] is the reference order on strings without embedded NULs. *)
Lemma strcmp_cmp_bytes l r :
  no_nul l -> no_nul r -> same_sign (strcmp l r) (cmp_bytes l r).
Proof.
  unfold strcmp. revert r; induction l as [|a l IH]; intros [|b r] HL HR;
    try reflexivity.
  - inversion_clear HR. pose proof (byte_z_range b).
    unfold same_sign, cmpz. simpl. unfold cmpz.
    destruct (0 >? byte_z b) eqn:?, (0 =? byte_z b) eqn:?; lia.
  - inversion_clear HL. pose proof (byte_z_range a).
    unfold same_sign. simpl. unfold cmpz.
    destruct (byte_z a >? 0) eqn:?, (byte_z a =? 0) eqn:?; lia.
  - inversion_clear HL. inversion_clear HR.
    cbn [length Nat.max strncmp cmp_bytes].
    destruct (Z.eqb_spec (byte_z a) 0); [easy|].
    apply lexz_same_sign; auto with bson_db.
Qed.

(** ** Little-endian encodings *)

Fixpoint le_bytes (n : nat) (z : Z) : bytes :=
  match n with
  | O => []
  | S n' => byte_of_z z :: le_bytes n' (z / 256)
  end.

Fixpoint le_Z (l : bytes) : Z :=
  match l with
  | [] => 0
  | b :: l' => byte_z b + 256 * le_Z l'
  end.

Lemma length_le_bytes n z : length (le_bytes n z) = n.
Proof. revert z; induction n; simpl; auto. Qed.

Lemma le_Z_le_bytes n z : le_Z (le_bytes n z) = z mod 256 ^ Z.of_nat n.
Proof.
  revert z; induction n as [|n IH]; intros z.
  - simpl. symmetry. apply Z.mod_1_r.
  - cbn [le_bytes le_Z]. rewrite byte_z_of_z, IH, Nat2Z.inj_succ, Z.pow_succ_r by lia.
    rewrite Z.rem_mul_r; lia.
Qed.

Lemma le_Z_range l : 0 <= le_Z l < 256 ^ blen l.
Proof.
  unfold blen. induction l as [|b l IH]; cbn [length le_Z]; [cbn; lia|].
  rewrite Nat2Z.inj_succ, Z.pow_succ_r by lia.
  pose proof (byte_z_range b). nia.
Qed.

Lemma le_bytes_le_Z l : le_bytes (length l) (le_Z l) = l.
Proof.
  induction l as [|b l IH]; [reflexivity|]. cbn [length le_Z le_bytes].
  pose proof (byte_z_range b).
  assert (E : (byte_z b + 256 * le_Z l) / 256 = le_Z l).
  { rewrite (Z.mul_comm 256), Z.div_add by lia. rewrite Z.div_small; lia. }
  rewrite E, IH. f_equal. apply byte_z_inj. rewrite byte_z_of_z.
  rewrite (Z.mul_comm 256), Z.mod_add by lia. apply Z.mod_small. lia.
Qed.
