(* ===== verification/SoftFloat.v ===== *)
(** * C [double] and [long double] values

    A [double] is kept as its 64-bit pattern (a [Z] in [0, 2^64)), which is what
    a BSON document stores and what the hash functions read.  Arithmetic goes
    through the Standard Library's executable IEEE-754 semantics ([SpecFloat]):
    [sf_of_bits] decodes a pattern, [bits_of_sf] encodes one.  [long double] is
    the 80-bit x87 format (64-bit significand) the comments of
    [bson_compare.c] refer to.  [sf_ext] is the exact value of a float. *)

From Stdlib Require Import ZArith QArith Qpower List Lia Lqa Bool SpecFloat.
From S2P Require Import Prelude.
Local Open Scope Z_scope.

(** ** Exact values: the extended rationals, with NaN below everything *)

Inductive ext : Set :=
| ENaN
| ENegInf
| EFin (q : Q)
| EPosInf.

Definition ext_rank (x : ext) : Z :=
  match x with ENaN => 0 | ENegInf => 1 | EFin _ => 2 | EPosInf => 3 end.

Definition z_of_comparison (c : comparison) : Z :=
  match c with Eq => 0 | Lt => -1 | Gt => 1 end.

Definition qcmp (p q : Q) : Z := z_of_comparison (Qcompare p q).

Definition ext_cmp (x y : ext) : Z :=
  match x, y with
  | EFin p, EFin q => qcmp p q
  | _, _ => cmpz (ext_rank x) (ext_rank y)
  end.

Definition is_ENaN (x : ext) : bool := match x with ENaN => true | _ => false end.

Lemma qcmp_cases p q :
  (qcmp p q = -1 /\ (p < q)%Q) \/ (qcmp p q = 0 /\ (p == q)%Q) \/
  (qcmp p q = 1 /\ (q < p)%Q).
Proof.
  unfold qcmp. destruct (Qcompare_spec p q); simpl; auto.
Qed.

Lemma trans3_qcmp p q r : trans3 (qcmp p q) (qcmp q r) (qcmp p r).
Proof.
  destruct (qcmp_cases p q) as [[-> H1]|[[-> H1]|[-> H1]]],
    (qcmp_cases q r) as [[-> H2]|[[-> H2]|[-> H2]]],
    (qcmp_cases p r) as [[-> H3]|[[-> H3]|[-> H3]]];
    unfold trans3; try lia; exfalso; lra.
Qed.

Lemma anti2_qcmp p q : anti2 (qcmp p q) (qcmp q p).
Proof.
  destruct (qcmp_cases p q) as [[-> H1]|[[-> H1]|[-> H1]]],
    (qcmp_cases q p) as [[-> H2]|[[-> H2]|[-> H2]]];
    try reflexivity; exfalso; lra.
Qed.

#[export] Hint Resolve trans3_qcmp anti2_qcmp : bson_db.

Lemma trans3_ext_cmp x y z : trans3 (ext_cmp x y) (ext_cmp y z) (ext_cmp x z).
Proof.
  destruct x, y, z; simpl; auto with bson_db; unfold cmpz; simpl; unfold trans3; lia.
Qed.

Lemma anti2_ext_cmp x y : anti2 (ext_cmp x y) (ext_cmp y x).
Proof. destruct x, y; simpl; auto with bson_db; reflexivity. Qed.

Lemma ext_cmp_refl x : ext_cmp x x = 0.
Proof.
  destruct x; try reflexivity. simpl. unfold qcmp.
  now rewrite (proj1 (Qeq_alt q q) (Qeq_refl q)).
Qed.

#[export] Hint Resolve trans3_ext_cmp anti2_ext_cmp ext_cmp_refl : bson_db.

Definition ext_eq (x y : ext) : Prop :=
  match x, y with
  | EFin p, EFin q => (p == q)%Q
  | ENaN, ENaN | ENegInf, ENegInf | EPosInf, EPosInf => True
  | _, _ => False
  end.

Lemma ext_eq_refl x : ext_eq x x.
Proof. destruct x; simpl; auto; apply Qeq_refl. Qed.

Lemma ext_cmp_0 x y : ext_cmp x y = 0 <-> ext_eq x y.
Proof.
  destruct x, y; simpl; unfold cmpz; simpl; try (split; [lia|easy]); try easy.
  destruct (qcmp_cases q q0) as [[-> H]|[[-> H]|[-> H]]]; split; try easy; lra.
Qed.

Lemma ext_cmp_compat x x' y y' :
  ext_eq x x' -> ext_eq y y' -> ext_cmp x y = ext_cmp x' y'.
Proof.
  destruct x, x'; simpl; try easy; destruct y, y'; simpl; try easy.
  intros H1 H2. unfold qcmp. now rewrite H1, H2.
Qed.

(** ** Scaled integers [m * b^e] *)

Definition qscale (b m e : Z) : Q := (inject_Z m * (inject_Z b) ^ e)%Q.

Section Scale.
Variable b : Z.
Hypothesis b_gt1 : 1 < b.

Lemma qpow_pos e : (0 < (inject_Z b) ^ e)%Q.
Proof.
  apply Qpower_0_lt. unfold Qlt, inject_Z; simpl. lia.
Qed.

Lemma qpow_plus e f : ((inject_Z b) ^ (e + f) == (inject_Z b) ^ e * (inject_Z b) ^ f)%Q.
Proof.
  apply Qpower_plus. unfold Qeq, inject_Z; simpl. lia.
Qed.

Lemma qpow_Z e : 0 <= e -> ((inject_Z b) ^ e == inject_Z (b ^ e))%Q.
Proof. intros He. symmetry. now apply Zpower_Qpower. Qed.

Lemma qscale_shift m e k : 0 <= k -> (qscale b (m * b ^ k) e == qscale b m (e + k))%Q.
Proof.
  intros Hk. unfold qscale. rewrite inject_Z_mult, <- qpow_Z, qpow_plus by auto. ring.
Qed.

Lemma qscale_lt m n e : m < n -> (qscale b m e < qscale b n e)%Q.
Proof.
  intros H. unfold qscale. apply Qmult_lt_compat_r; [apply qpow_pos|].
  now rewrite <- Zlt_Qlt.
Qed.

(** Comparison of scaled integers, at a common exponent. *)
Lemma qcmp_qscale_same m n e : qcmp (qscale b m e) (qscale b n e) = z_of_comparison (m ?= n).
Proof.
  unfold qcmp. f_equal. destruct (Z.compare_spec m n) as [->|H|H].
  - now apply Qeq_alt.
  - now apply Qlt_alt, qscale_lt.
  - now apply Qgt_alt, qscale_lt.
Qed.

Lemma qcmp_qscale_le m n e f : e <= f ->
  qcmp (qscale b m e) (qscale b n f) = z_of_comparison (m ?= n * b ^ (f - e)).
Proof.
  intros H. rewrite <- (qcmp_qscale_same m (n * b ^ (f - e)) e).
  unfold qcmp. rewrite qscale_shift by lia. now replace (e + (f - e)) with f by lia.
Qed.
End Scale.

(** ** Decoding and encoding of [double] *)

Definition sf_of_bits (b : Z) : spec_float :=
  let s := Z.testbit b 63 in
  let e := (b / 2 ^ 52) mod 2 ^ 11 in
  let m := b mod 2 ^ 52 in
  if e =? 0 then
    match m with Zpos p => S754_finite s p (-1074) | _ => S754_zero s end
  else if e =? 2047 then
    (if m =? 0 then S754_infinity s else S754_nan)
  else
    match m + 2 ^ 52 with Zpos p => S754_finite s p (e - 1075) | _ => S754_nan end.

Definition sign_bit (s : bool) : Z := if s then 2 ^ 63 else 0.

(** The NaN that operations produce is the default quiet NaN. *)
Definition bits_of_sf (f : spec_float) : Z :=
  match f with
  | S754_zero s => sign_bit s
  | S754_infinity s => sign_bit s + 2047 * 2 ^ 52
  | S754_nan => 2047 * 2 ^ 52 + 2 ^ 51
  | S754_finite s m e =>
    if Zpos m <? 2 ^ 52 then sign_bit s + Zpos m
    else sign_bit s + (e + 1075) * 2 ^ 52 + (Zpos m - 2 ^ 52)
  end.

Definition sf_ext (f : spec_float) : ext :=
  match f with
  | S754_zero _ => EFin 0
  | S754_infinity s => if s then ENegInf else EPosInf
  | S754_nan => ENaN
  | S754_finite s m e => EFin (qscale 2 (cond_Zopp s (Zpos m)) e)
  end.

Definition double_ext (b : Z) : ext := sf_ext (sf_of_bits b).

Lemma digits2_pos_log2 m : Zpos (digits2_pos m) = Z.log2 (Zpos m) + 1.
Proof.
  induction m as [m IH|m IH|]; simpl digits2_pos.
  - rewrite Pos2Z.inj_succ, IH. rewrite Pos2Z.inj_xI, Z.log2_succ_double; lia.
  - rewrite Pos2Z.inj_succ, IH. rewrite Pos2Z.inj_xO, Z.log2_double; lia.
  - reflexivity.
Qed.

Lemma digits2_pos_bounds m :
  2 ^ (Zpos (digits2_pos m) - 1) <= Zpos m < 2 ^ Zpos (digits2_pos m).
Proof.
  rewrite digits2_pos_log2. replace (Z.log2 (Z.pos m) + 1 - 1) with (Z.log2 (Z.pos m)) by lia.
  change (Z.log2 (Z.pos m) + 1) with (Z.succ (Z.log2 (Z.pos m))).
  apply Z.log2_spec. lia.
Qed.

(** Any integer significand below [2^k] has at most [k] digits. *)
Lemma digits2_pos_le m k : 0 <= k -> Zpos m < 2 ^ k -> Zpos (digits2_pos m) <= k.
Proof.
  intros Hk H. pose proof (digits2_pos_bounds m) as [Hl _].
  destruct (Z_le_gt_dec (Zpos (digits2_pos m)) k); [assumption|].
  assert (2 ^ k <= 2 ^ (Zpos (digits2_pos m) - 1)) by (apply Z.pow_le_mono_r; lia). lia.
Qed.

Lemma digits2_pos_eq m k : 0 < k -> 2 ^ (k - 1) <= Zpos m < 2 ^ k ->
  Zpos (digits2_pos m) = k.
Proof.
  intros Hk [H1 H2]. pose proof (digits2_pos_le m k ltac:(lia) H2).
  pose proof (digits2_pos_bounds m) as [_ Hu].
  destruct (Z_lt_ge_dec (Zpos (digits2_pos m)) k); [|lia].
  assert (2 ^ Zpos (digits2_pos m) <= 2 ^ (k - 1)) by (apply Z.pow_le_mono_r; lia). lia.
Qed.

Lemma sf_of_bits_valid b : valid_binary 53 1024 (sf_of_bits b) = true.
Proof.
  unfold sf_of_bits.
  pose proof (Z.mod_pos_bound (b / 2 ^ 52) (2 ^ 11) ltac:(lia)) as He.
  pose proof (Z.mod_pos_bound b (2 ^ 52) ltac:(lia)) as Hm.
  set (e := (b / 2 ^ 52) mod 2 ^ 11) in *. set (m := b mod 2 ^ 52) in *.
  clearbody e m. unfold valid_binary, bounded, canonical_mantissa, fexp, emin.
  destruct (Z.eqb_spec e 0).
  - destruct m as [|p|p]; try reflexivity.
    pose proof (digits2_pos_le p 52 ltac:(lia) ltac:(lia)).
    apply andb_true_intro; split; [apply Z.eqb_eq|apply Z.leb_le]; lia.
  - destruct (Z.eqb_spec e 2047); [now destruct (m =? 0)|].
    destruct (m + 2 ^ 52) as [|p|p] eqn:Ep; try reflexivity.
    pose proof (digits2_pos_eq p 53 ltac:(lia) ltac:(change (53 - 1) with 52; lia)).
    apply andb_true_intro; split; [apply Z.eqb_eq|apply Z.leb_le]; lia.
Qed.

(** ** [SFcompare] is the order of the exact values *)

Lemma cond_Zopp_mul s x y : cond_Zopp s x * y = cond_Zopp s (x * y).
Proof. destruct s; simpl; lia. Qed.

(** Canonical significands: a larger exponent means a larger magnitude. *)
Lemma bounded_exp_lt prec emax m1 e1 m2 e2 :
  1 < prec -> bounded prec emax m1 e1 = true -> bounded prec emax m2 e2 = true ->
  e1 < e2 -> Zpos m1 < Zpos m2 * 2 ^ (e2 - e1).
Proof.
  unfold bounded, canonical_mantissa, fexp. intros Hp H1 H2 He.
  apply andb_prop in H1 as [H1 _]. apply andb_prop in H2 as [H2 _].
  apply Z.eqb_eq in H1, H2.
  pose proof (digits2_pos_bounds m1) as [_ U1].
  pose proof (digits2_pos_bounds m2) as [L2 _].
  assert (D2 : Zpos (digits2_pos m2) = prec) by lia.
  assert (D1 : Zpos (digits2_pos m1) <= prec) by lia.
  rewrite D2 in L2.
  assert (P1 : 2 ^ Zpos (digits2_pos m1) <= 2 ^ prec) by (apply Z.pow_le_mono_r; lia).
  assert (P2 : 2 <= 2 ^ (e2 - e1)) by (change 2 with (2 ^ 1) at 1; apply Z.pow_le_mono_r; lia).
  assert (P3 : 2 ^ prec = 2 * 2 ^ (prec - 1)).
  { rewrite <- Z.pow_succ_r by lia. f_equal. lia. }
  nia.
Qed.

Lemma z_of_CompOpp c : z_of_comparison (CompOpp c) = - z_of_comparison c.
Proof. now destruct c. Qed.

Definition mag_compare (m1 : positive) (e1 : Z) (m2 : positive) (e2 : Z) : comparison :=
  match e1 ?= e2 with Lt => Lt | Gt => Gt | Eq => Pos.compare_cont Eq m1 m2 end.

Lemma mag_compare_qcmp prec emax m1 e1 m2 e2 :
  1 < prec -> bounded prec emax m1 e1 = true -> bounded prec emax m2 e2 = true ->
  z_of_comparison (mag_compare m1 e1 m2 e2) = qcmp (qscale 2 (Zpos m1) e1) (qscale 2 (Zpos m2) e2).
Proof.
  intros Hp B1 B2. unfold mag_compare. destruct (Z.compare_spec e1 e2) as [->|He|He].
  - now rewrite (qcmp_qscale_same 2) by lia.
  - rewrite (qcmp_qscale_le 2) by lia.
    now rewrite (proj2 (Z.compare_lt_iff _ _) (bounded_exp_lt _ _ _ _ _ _ Hp B1 B2 He)).
  - pose proof (bounded_exp_lt _ _ _ _ _ _ Hp B2 B1 He) as L.
    destruct (qcmp_cases (qscale 2 (Zpos m1) e1) (qscale 2 (Zpos m2) e2)) as [[_ C]|[[_ C]|[-> _]]];
      [exfalso..|reflexivity];
      pose proof (qcmp_qscale_le 2 ltac:(lia) (Zpos m2) (Zpos m1) e2 e1 ltac:(lia)) as E;
      rewrite (proj2 (Z.compare_lt_iff _ _) L) in E;
      destruct (qcmp_cases (qscale 2 (Zpos m2) e2) (qscale 2 (Zpos m1) e1)) as [[E' D]|[[E' D]|[E' D]]];
      rewrite E' in E; simpl in E; try lia; lra.
Qed.

Lemma qcmp_opp p q : qcmp (- p) (- q) = - qcmp p q.
Proof.
  destruct (qcmp_cases p q) as [[-> H]|[[-> H]|[-> H]]],
    (qcmp_cases (- p) (- q)) as [[-> H']|[[-> H']|[-> H']]]; try reflexivity; exfalso; lra.
Qed.

Lemma qscale_opp m e : (qscale 2 (- m) e == - qscale 2 m e)%Q.
Proof. unfold qscale. rewrite inject_Z_opp. ring. Qed.

Lemma qscale_pos m e : (0 < qscale 2 (Zpos m) e)%Q.
Proof.
  setoid_replace 0%Q with (qscale 2 0 e) by (unfold qscale; ring).
  now apply qscale_lt.
Qed.

Theorem SFcompare_ext prec emax f g :
  1 < prec -> valid_binary prec emax f = true -> valid_binary prec emax g = true ->
  f <> S754_nan -> g <> S754_nan ->
  exists c, SFcompare f g = Some c /\ ext_cmp (sf_ext f) (sf_ext g) = z_of_comparison c.
Proof.
  intros Hp Vf Vg Nf Ng.
  destruct f as [s1|s1| |s1 m1 e1], g as [s2|s2| |s2 m2 e2]; try congruence;
    try (eexists; split; [reflexivity|];
         repeat match goal with s : bool |- _ => destruct s end; reflexivity).
  - eexists; split; [reflexivity|]. simpl.
    pose proof (qscale_pos m2 e2) as P. pose proof (qscale_opp (Zpos m2) e2) as O.
    destruct s2; simpl in *;
      match goal with |- qcmp 0 ?q = _ => destruct (qcmp_cases 0 q) as [[-> H]|[[-> H]|[-> H]]] end;
      simpl in *; try reflexivity; exfalso; lra.
  - eexists; split; [reflexivity|]. simpl.
    pose proof (qscale_pos m1 e1) as P. pose proof (qscale_opp (Zpos m1) e1) as O.
    destruct s1; simpl in *;
      match goal with |- qcmp ?q 0 = _ => destruct (qcmp_cases q 0) as [[-> H]|[[-> H]|[-> H]]] end;
      simpl in *; try reflexivity; exfalso; lra.
  - pose proof (mag_compare_qcmp prec emax m1 e1 m2 e2 Hp Vf Vg) as M.
    pose proof (qscale_pos m1 e1) as P1. pose proof (qscale_opp (Zpos m1) e1) as O1.
    pose proof (qscale_pos m2 e2) as P2. pose proof (qscale_opp (Zpos m2) e2) as O2.
    eexists; split; [reflexivity|]. destruct s1, s2; simpl.
    + change (Z.neg m1) with (- Z.pos m1). change (Z.neg m2) with (- Z.pos m2).
      unfold qcmp. rewrite O1, O2. fold (qcmp (- qscale 2 (Z.pos m1) e1) (- qscale 2 (Z.pos m2) e2)).
      rewrite qcmp_opp, <- M, <- z_of_CompOpp. unfold mag_compare. now destruct (e1 ?= e2).
    + change (Z.neg m1) with (- Z.pos m1).
      match goal with |- qcmp ?p ?q = _ => destruct (qcmp_cases p q) as [[-> H]|[[-> H]|[-> H]]] end;
        try reflexivity; exfalso; lra.
    + change (Z.neg m2) with (- Z.pos m2).
      match goal with |- qcmp ?p ?q = _ => destruct (qcmp_cases p q) as [[-> H]|[[-> H]|[-> H]]] end;
        try reflexivity; exfalso; lra.
    + rewrite <- M. unfold mag_compare. now destruct (e1 ?= e2).
Qed.

(** ** Rounding is exact when the significand fits *)

Lemma pos_iter_xO m d : Zpos (Pos.iter xO m d) = Zpos m * 2 ^ Zpos d.
Proof.
  revert m. induction d as [|d IH] using Pos.peano_ind; intros m.
  - simpl Pos.iter. change (2 ^ 1) with 2. lia.
  - rewrite Pos.iter_succ, Pos2Z.inj_xO, IH, Pos2Z.inj_succ, Z.pow_succ_r by lia. lia.
Qed.

Lemma digits2_pos_shift m k m' : 0 <= k -> Zpos m' = Zpos m * 2 ^ k ->
  Zpos (digits2_pos m') = Zpos (digits2_pos m) + k.
Proof.
  intros Hk E. rewrite !digits2_pos_log2, E, Z.log2_mul_pow2 by lia. lia.
Qed.

Lemma shl_align_spec mx ex ex' : ex' <= ex ->
  Zpos (fst (shl_align mx ex ex')) = Zpos mx * 2 ^ (ex - ex') /\
  snd (shl_align mx ex ex') = ex'.
Proof.
  intros H. unfold shl_align. destruct (ex' - ex) as [|d|d] eqn:E; try lia.
  - replace (ex - ex') with 0 by lia. simpl. lia.
  - simpl fst; simpl snd. rewrite pos_iter_xO. replace (ex - ex') with (Zpos d) by lia. lia.
Qed.

Section RoundExact.
Variables prec emax : Z.
Hypothesis prec_gt1 : 1 < prec.

Lemma binary_round_aux_exact s m e :
  bounded prec emax m e = true ->
  binary_round_aux prec emax s (Zpos m) e loc_Exact = S754_finite s m e.
Proof.
  unfold bounded, canonical_mantissa. intros H. apply andb_prop in H as [H1 H2].
  apply Z.eqb_eq in H1.
  assert (S : shr_fexp prec emax (Zpos m) e loc_Exact = (Build_shr_record (Zpos m) false false, e)).
  { unfold shr_fexp. simpl Zdigits2. rewrite H1, Z.sub_diag. reflexivity. }
  unfold binary_round_aux. rewrite S. simpl. rewrite S. simpl. now rewrite H2.
Qed.

Lemma binary_round_exact s m e :
  Zpos (digits2_pos m) <= prec -> emin prec emax <= e ->
  Zpos (digits2_pos m) + e <= emax -> emin prec emax <= emax - prec ->
  exists m' e', binary_round prec emax s m e = S754_finite s m' e' /\
    bounded prec emax m' e' = true /\ e' <= e /\ Zpos m' = Zpos m * 2 ^ (e - e').
Proof.
  intros Hd He Hmax Hmin. unfold binary_round.
  set (ex' := fexp prec emax (Z.pos (digits2_pos m) + e)).
  assert (L : ex' <= e) by (unfold ex', fexp; lia).
  destruct (shl_align_spec m e ex' L) as [E1 E2].
  destruct (shl_align m e ex') as [mz ez]. cbn [fst snd] in E1, E2. subst ez.
  assert (B : bounded prec emax mz ex' = true).
  { unfold bounded, canonical_mantissa.
    rewrite (digits2_pos_shift m (e - ex') mz) by (assumption || lia).
    replace (Z.pos (digits2_pos m) + (e - ex') + ex') with (Z.pos (digits2_pos m) + e) by lia.
    fold ex'. apply andb_true_intro; split; [apply Z.eqb_refl|].
    apply Z.leb_le. unfold ex', fexp. lia. }
  exists mz, ex'. rewrite binary_round_aux_exact by assumption. auto.
Qed.

(** The rounded value is the exact value. *)
Lemma binary_round_exact_ext s m e :
  Zpos (digits2_pos m) <= prec -> emin prec emax <= e ->
  Zpos (digits2_pos m) + e <= emax -> emin prec emax <= emax - prec ->
  valid_binary prec emax (binary_round prec emax s m e) = true /\
  ext_eq (sf_ext (binary_round prec emax s m e)) (EFin (qscale 2 (cond_Zopp s (Zpos m)) e)).
Proof.
  intros H1 H2 H3 H4. destruct (binary_round_exact s m e H1 H2 H3 H4) as (m' & e' & -> & B & L & E).
  split; [exact B|]. simpl. rewrite E, <- cond_Zopp_mul, (qscale_shift 2) by lia.
  replace (e' + (e - e')) with e by lia. apply Qeq_refl.
Qed.

Lemma binary_normalize_exact_ext z :
  Z.abs z < 2 ^ prec -> emin prec emax <= 0 -> prec <= emax -> emin prec emax <= emax - prec ->
  valid_binary prec emax (binary_normalize prec emax z 0 false) = true /\
  ext_eq (sf_ext (binary_normalize prec emax z 0 false)) (EFin (inject_Z z)).
Proof.
  intros Hz H1 H2 H3.
  assert (Q1 : forall x, (qscale 2 x 0 == inject_Z x)%Q).
  { intros x. unfold qscale. change (inject_Z 2 ^ 0)%Q with 1%Q. ring. }
  destruct z as [|p|p]; simpl binary_normalize.
  - split; [reflexivity|]. simpl. reflexivity.
  - pose proof (digits2_pos_le p prec ltac:(lia) ltac:(lia)).
    destruct (binary_round_exact_ext false p 0) as [V E]; try lia.
    split; [exact V|]. destruct (sf_ext _); simpl in *; try easy.
    rewrite E. apply Q1.
  - pose proof (digits2_pos_le p prec ltac:(lia) ltac:(lia)).
    destruct (binary_round_exact_ext true p 0) as [V E]; try lia.
    split; [exact V|]. destruct (sf_ext _); simpl in *; try easy.
    rewrite E. apply (Q1 (Z.neg p)).
Qed.
End RoundExact.

(** ** Conversions the C code uses *)

(** [(double) z] for an integer [z]. *)
Definition double_of_int (z : Z) : Z := bits_of_sf (binary_normalize 53 1024 z 0 false).

(** [(long double) z] and [(long double) d]. *)
Definition ld_of_int (z : Z) : spec_float := binary_normalize 64 16384 z 0 false.
Definition ld_of_double (b : Z) : spec_float :=
  match sf_of_bits b with
  | S754_finite s m e => binary_round 64 16384 s m e
  | f => f
  end.

Lemma ld_of_int_exact z : int64_ok z ->
  valid_binary 64 16384 (ld_of_int z) = true /\ ext_eq (sf_ext (ld_of_int z)) (EFin (inject_Z z)).
Proof.
  intros H. unfold ld_of_int.
  apply binary_normalize_exact_ext; unfold emin; zbounds; lia.
Qed.

Lemma ld_of_double_exact b :
  valid_binary 64 16384 (ld_of_double b) = true /\
  ext_eq (sf_ext (ld_of_double b)) (double_ext b).
Proof.
  unfold ld_of_double, double_ext. pose proof (sf_of_bits_valid b) as V.
  destruct (sf_of_bits b) as [s|s| |s m e]; try (split; [reflexivity|apply ext_eq_refl]).
  unfold valid_binary, bounded, canonical_mantissa, fexp, emin in V.
  apply andb_prop in V as [V1 V2]. apply Z.eqb_eq in V1. apply Z.leb_le in V2.
  apply binary_round_exact_ext; unfold emin; lia.
Qed.

(** [isnan], and the C relational operators on floats. *)
Definition sf_isnan (f : spec_float) : bool :=
  match f with S754_nan => true | _ => false end.

Definition sf_gtb (f g : spec_float) : bool := SFltb g f.

(** Truncation toward zero, [floor] and [round] (ties away from zero) of a
    finite float, as integers. *)
Definition sf_trunc_Z (s : bool) (m : positive) (e : Z) : Z :=
  cond_Zopp s (if 0 <=? e then Zpos m * 2 ^ e else Zpos m / 2 ^ (- e)).

Definition sf_floor_Z (s : bool) (m : positive) (e : Z) : Z :=
  if 0 <=? e then cond_Zopp s (Zpos m * 2 ^ e) else cond_Zopp s (Zpos m) / 2 ^ (- e).

Definition sf_round_Z (s : bool) (m : positive) (e : Z) : Z :=
  cond_Zopp s (if 0 <=? e then Zpos m * 2 ^ e
               else (2 * Zpos m + 2 ^ (- e)) / (2 * 2 ^ (- e))).

(** [floor(d)] and [round(d)] as doubles. *)
Definition sf_floor (f : spec_float) : spec_float :=
  match f with
  | S754_finite s m e => if 0 <=? e then f else binary_normalize 53 1024 (sf_floor_Z s m e) 0 s
  | _ => f
  end.

Definition sf_round (f : spec_float) : spec_float :=
  match f with
  | S754_finite s m e => if 0 <=? e then f else binary_normalize 53 1024 (sf_round_Z s m e) 0 s
  | _ => f
  end.

Definition sf_ceil (f : spec_float) : spec_float :=
  SFopp (sf_floor (SFopp f)).

(** [(int64_t) d] and [(int32_t) d]: truncation; outside the range the x86-64
    conversion instruction yields the minimum. *)
Definition sf_to_int (min max : Z) (f : spec_float) : Z :=
  match f with
  | S754_zero _ => 0
  | S754_finite s m e =>
    let z := sf_trunc_Z s m e in
    if (min <=? z) && (z <=? max) then z else min
  | _ => min
  end.

Definition sf_to_int64 := sf_to_int INT64_MIN INT64_MAX.
Definition sf_to_int32 := sf_to_int INT32_MIN INT32_MAX.

(** Arithmetic on patterns. *)
Definition double_add (a b : Z) : Z := bits_of_sf (SFadd 53 1024 (sf_of_bits a) (sf_of_bits b)).
Definition double_mul (a b : Z) : Z := bits_of_sf (SFmul 53 1024 (sf_of_bits a) (sf_of_bits b)).
Definition double_div (a b : Z) : Z := bits_of_sf (SFdiv 53 1024 (sf_of_bits a) (sf_of_bits b)).
Definition double_neg (a : Z) : Z := bits_of_sf (SFopp (sf_of_bits a)).

(** ** Encoding round trip and injectivity of the value *)

Lemma bits_split b : uint64_ok b ->
  b = sign_bit (Z.testbit b 63) + ((b / 2 ^ 52) mod 2 ^ 11) * 2 ^ 52 + b mod 2 ^ 52.
Proof.
  intros Hb. unfold uint64_ok in Hb.
  assert (T : Z.testbit b 63 = (2 ^ 63 <=? b)).
  { rewrite Z.testbit_eqb by lia. destruct (Z.leb_spec (2 ^ 63) b) as [H|H].
    - apply Z.eqb_eq.
      rewrite <- (Z.div_unique_pos b (2 ^ 63) 1 (b - 2 ^ 63)); [reflexivity|lia|lia].
    - apply Z.eqb_neq. rewrite Z.div_small by lia. easy. }
  rewrite T. pose proof (Z_div_mod_eq_full b (2 ^ 52)) as E1.
  pose proof (Z_div_mod_eq_full (b / 2 ^ 52) (2 ^ 11)) as E2.
  rewrite Z.div_div in E2 by lia. change (2 ^ 52 * 2 ^ 11) with (2 ^ 63) in E2.
  assert (E3 : b / 2 ^ 63 = if 2 ^ 63 <=? b then 1 else 0).
  { destruct (Z.leb_spec (2 ^ 63) b) as [H|H]; [|rewrite Z.div_small; lia].
    symmetry. apply (Z.div_unique_pos b (2 ^ 63) 1 (b - 2 ^ 63)); lia. }
  unfold sign_bit. destruct (2 ^ 63 <=? b); rewrite E3 in E2; lia.
Qed.

Lemma bits_of_sf_of_bits b : uint64_ok b -> sf_of_bits b <> S754_nan ->
  bits_of_sf (sf_of_bits b) = b.
Proof.
  intros Hb HN. pose proof (bits_split b Hb) as E. unfold sf_of_bits in *.
  pose proof (Z.mod_pos_bound b (2 ^ 52) ltac:(lia)) as Hm.
  set (e := (b / 2 ^ 52) mod 2 ^ 11) in *. set (m := b mod 2 ^ 52) in *.
  set (s := Z.testbit b 63) in *. clearbody e m s.
  destruct (Z.eqb_spec e 0) as [He|He].
  - clear HN. subst e. destruct m as [|p|p]; cbn [bits_of_sf]; [lia| |lia].
    destruct (Z.ltb_spec (Zpos p) (2 ^ 52)); lia.
  - destruct (Z.eqb_spec e 2047) as [He'|He'].
    + destruct (Z.eqb_spec m 0) as [Hm0|Hm0]; [|congruence]. clear HN. cbn [bits_of_sf]. lia.
    + clear HN. destruct (m + 2 ^ 52) as [|p|p] eqn:Ep; [lia| |lia]. cbn [bits_of_sf].
      destruct (Z.ltb_spec (Zpos p) (2 ^ 52)); lia.
Qed.

Lemma sf_ext_inj prec emax f g :
  1 < prec -> valid_binary prec emax f = true -> valid_binary prec emax g = true ->
  f <> S754_nan -> ext_eq (sf_ext f) (sf_ext g) ->
  f = g \/ (exists s t, f = S754_zero s /\ g = S754_zero t).
Proof.
  intros Hp Vf Vg Nf E.
  assert (Ng : g <> S754_nan) by (destruct f as [|[]| |], g; easy).
  destruct (SFcompare_ext prec emax f g Hp Vf Vg Nf Ng) as (c & Hc & Hx).
  apply ext_cmp_0 in E. rewrite E in Hx.
  destruct c; try discriminate Hx.
  destruct f as [s|s| |s m e], g as [t|t| |t n k]; try easy; simpl in Hc;
    try (now destruct s); try (now destruct t).
  - right. eauto.
  - left. destruct s, t; try discriminate; reflexivity.
  - left. destruct s, t; try discriminate;
      destruct (Z.compare_spec e k); try discriminate; subst; injection Hc as Hc.
    + change (Pos.compare_cont Eq m n) with (m ?= n)%positive in Hc.
      destruct (Pos.compare_spec m n); try discriminate; now subst.
    + change (Pos.compare_cont Eq m n) with (m ?= n)%positive in Hc.
      apply Pos.compare_eq_iff in Hc. now subst.
Qed.

(** Two doubles with the same (non-NaN) value are the same pattern, zeros apart. *)
Lemma double_ext_inj a b : uint64_ok a -> uint64_ok b ->
  double_ext a <> ENaN -> ext_eq (double_ext a) (double_ext b) ->
  a = b \/ (ext_eq (double_ext a) (EFin 0) /\ ext_eq (double_ext b) (EFin 0)).
Proof.
  unfold double_ext. intros Ha Hb Hn E.
  assert (Na : sf_of_bits a <> S754_nan) by (intros X; now rewrite X in Hn).
  destruct (sf_ext_inj 53 1024 (sf_of_bits a) (sf_of_bits b)) as [X|(s & t & X & Y)];
    auto using sf_of_bits_valid; try lia.
  - left. pose proof (bits_of_sf_of_bits a Ha Na) as Ea.
    rewrite X in Na. pose proof (bits_of_sf_of_bits b Hb Na) as Eb.
    rewrite <- Ea, X. exact Eb.
  - right. rewrite X, Y. now split.
Qed.

(** Every finite double is an integer of at most 53 bits, scaled. *)
Lemma double_ext_scaled b q : double_ext b = EFin q ->
  exists m e, Z.abs m < 2 ^ 64 /\ (q == qscale 2 m e)%Q.
Proof.
  unfold double_ext. pose proof (sf_of_bits_valid b) as V.
  destruct (sf_of_bits b) as [s|s| |s m e]; try easy; try (destruct s; easy); simpl.
  - intros E; injection E as <-. exists 0, 0. split; [lia|reflexivity].
  - intros E; injection E as <-. exists (cond_Zopp s (Zpos m)), e. split; [|reflexivity].
    unfold valid_binary, bounded, canonical_mantissa, fexp, emin in V.
    apply andb_prop in V as [V _]. apply Z.eqb_eq in V.
    pose proof (digits2_pos_bounds m) as [_ U].
    assert (2 ^ Zpos (digits2_pos m) <= 2 ^ 53) by (apply Z.pow_le_mono_r; lia).
    destruct s; simpl; lia.
Qed.
