(* ===== verification/BsonTypes.v ===== *)
(** * BSON types and values

    [bson_type_t] and [bson_value_t] of libbson as the extension uses them, the
    type-name tables of [pgbson_utils.c] and the numeric-type predicates.

    A document or array value is the list of its (key, value) elements in
    iteration order, which is what [bson_iter_init_from_data],
    [bson_iter_next], [bson_iter_key] and [bson_iter_value] expose.  Strings
    and keys are byte lists; their [length] is the C length field. *)

From Stdlib Require Import ZArith Lia Bool String List.
From Stdlib Require Import Strings.Byte.
From S2P Require Import Prelude.
Import ListNotations.
Local Open Scope Z_scope.

Inductive bson_type_t : Set :=
| BSON_TYPE_EOD | BSON_TYPE_DOUBLE | BSON_TYPE_UTF8 | BSON_TYPE_DOCUMENT
| BSON_TYPE_ARRAY | BSON_TYPE_BINARY | BSON_TYPE_UNDEFINED | BSON_TYPE_OID
| BSON_TYPE_BOOL | BSON_TYPE_DATE_TIME | BSON_TYPE_NULL | BSON_TYPE_REGEX
| BSON_TYPE_DBPOINTER | BSON_TYPE_CODE | BSON_TYPE_SYMBOL | BSON_TYPE_CODEWSCOPE
| BSON_TYPE_INT32 | BSON_TYPE_TIMESTAMP | BSON_TYPE_INT64 | BSON_TYPE_DECIMAL128
| BSON_TYPE_MAXKEY | BSON_TYPE_MINKEY.

Definition bson_type_eq_dec (a b : bson_type_t) : {a = b} + {a <> b}.
Proof. decide equality. Defined.

Definition type_eqb (a b : bson_type_t) : bool :=
  if bson_type_eq_dec a b then true else false.

(** The numeric codes of the enumeration, which are also the wire format's. *)
Definition type_code (t : bson_type_t) : Z :=
  match t with
  | BSON_TYPE_EOD => 0 | BSON_TYPE_DOUBLE => 1 | BSON_TYPE_UTF8 => 2
  | BSON_TYPE_DOCUMENT => 3 | BSON_TYPE_ARRAY => 4 | BSON_TYPE_BINARY => 5
  | BSON_TYPE_UNDEFINED => 6 | BSON_TYPE_OID => 7 | BSON_TYPE_BOOL => 8
  | BSON_TYPE_DATE_TIME => 9 | BSON_TYPE_NULL => 10 | BSON_TYPE_REGEX => 11
  | BSON_TYPE_DBPOINTER => 12 | BSON_TYPE_CODE => 13 | BSON_TYPE_SYMBOL => 14
  | BSON_TYPE_CODEWSCOPE => 15 | BSON_TYPE_INT32 => 16 | BSON_TYPE_TIMESTAMP => 17
  | BSON_TYPE_INT64 => 18 | BSON_TYPE_DECIMAL128 => 19
  | BSON_TYPE_MAXKEY => 127 | BSON_TYPE_MINKEY => 255
  end.

Definition all_types : list bson_type_t :=
  [BSON_TYPE_EOD; BSON_TYPE_DOUBLE; BSON_TYPE_UTF8; BSON_TYPE_DOCUMENT;
   BSON_TYPE_ARRAY; BSON_TYPE_BINARY; BSON_TYPE_UNDEFINED; BSON_TYPE_OID;
   BSON_TYPE_BOOL; BSON_TYPE_DATE_TIME; BSON_TYPE_NULL; BSON_TYPE_REGEX;
   BSON_TYPE_DBPOINTER; BSON_TYPE_CODE; BSON_TYPE_SYMBOL; BSON_TYPE_CODEWSCOPE;
   BSON_TYPE_INT32; BSON_TYPE_TIMESTAMP; BSON_TYPE_INT64; BSON_TYPE_DECIMAL128;
   BSON_TYPE_MAXKEY; BSON_TYPE_MINKEY].

Definition type_of_code (c : Z) : option bson_type_t :=
  find (fun t => type_code t =? c) all_types.

Lemma type_of_code_code t : type_of_code (type_code t) = Some t.
Proof. now destruct t. Qed.

Lemma type_of_code_Some c t : type_of_code c = Some t -> type_code t = c.
Proof.
  unfold type_of_code. intros H%find_some. destruct H as [_ H]. now apply Z.eqb_eq.
Qed.

(** ** Values *)

Record decimal128 : Set := Dec128 { dec_high : Z; dec_low : Z }.

Definition decimal128_ok (d : decimal128) : Prop :=
  uint64_ok (dec_high d) /\ uint64_ok (dec_low d).

Unset Elimination Schemes.
Inductive bson_value : Set :=
| VEod
| VDouble (bits : Z)
| VUtf8 (str : bytes)
| VDocument (d : list (bytes * bson_value))
| VArray (d : list (bytes * bson_value))
| VBinary (subtype : Z) (data : bytes)
| VUndefined
| VOid (oid : bytes)
| VBool (b : bool)
| VDateTime (ms : Z)
| VNull
| VRegex (regex options : option bytes)
| VDbPointer (collection oid : bytes)
| VCode (code : bytes)
| VSymbol (symbol : bytes)
| VCodeWScope (code : bytes) (scope : list (bytes * bson_value))
| VInt32 (z : Z)
| VTimestamp (timestamp increment : Z)
| VInt64 (z : Z)
| VDecimal128 (d : decimal128)
| VMaxKey
| VMinKey.
Set Elimination Schemes.

Abbreviation fields := (list (bytes * bson_value)).

Section ValueInd.
Variable P : bson_value -> Prop.
Hypothesis HEod : P VEod.
Hypothesis HDouble : forall b, P (VDouble b).
Hypothesis HUtf8 : forall s, P (VUtf8 s).
Hypothesis HDocument : forall d, Forall (fun kv => P (snd kv)) d -> P (VDocument d).
Hypothesis HArray : forall d, Forall (fun kv => P (snd kv)) d -> P (VArray d).
Hypothesis HBinary : forall t d, P (VBinary t d).
Hypothesis HUndefined : P VUndefined.
Hypothesis HOid : forall o, P (VOid o).
Hypothesis HBool : forall b, P (VBool b).
Hypothesis HDateTime : forall z, P (VDateTime z).
Hypothesis HNull : P VNull.
Hypothesis HRegex : forall r o, P (VRegex r o).
Hypothesis HDbPointer : forall c o, P (VDbPointer c o).
Hypothesis HCode : forall c, P (VCode c).
Hypothesis HSymbol : forall s, P (VSymbol s).
Hypothesis HCodeWScope : forall c d, Forall (fun kv => P (snd kv)) d -> P (VCodeWScope c d).
Hypothesis HInt32 : forall z, P (VInt32 z).
Hypothesis HTimestamp : forall t i, P (VTimestamp t i).
Hypothesis HInt64 : forall z, P (VInt64 z).
Hypothesis HDecimal128 : forall d, P (VDecimal128 d).
Hypothesis HMaxKey : P VMaxKey.
Hypothesis HMinKey : P VMinKey.

(** Induction over values with the hypothesis for every nested element. *)
Fixpoint bson_value_nested_ind (v : bson_value) : P v :=
  let fix all (d : fields) : Forall (fun kv => P (snd kv)) d :=
    match d with
    | [] => Forall_nil _
    | kv :: d' => @Forall_cons _ (fun kv => P (snd kv)) kv d'
                    (bson_value_nested_ind (snd kv)) (all d')
    end in
  match v with
  | VEod => HEod | VDouble b => HDouble b | VUtf8 s => HUtf8 s
  | VDocument d => HDocument d (all d) | VArray d => HArray d (all d)
  | VBinary t d => HBinary t d | VUndefined => HUndefined | VOid o => HOid o
  | VBool b => HBool b | VDateTime z => HDateTime z | VNull => HNull
  | VRegex r o => HRegex r o | VDbPointer c o => HDbPointer c o
  | VCode c => HCode c | VSymbol s => HSymbol s
  | VCodeWScope c d => HCodeWScope c d (all d) | VInt32 z => HInt32 z
  | VTimestamp t i => HTimestamp t i | VInt64 z => HInt64 z
  | VDecimal128 d => HDecimal128 d | VMaxKey => HMaxKey | VMinKey => HMinKey
  end.
End ValueInd.

Definition value_type (v : bson_value) : bson_type_t :=
  match v with
  | VEod => BSON_TYPE_EOD | VDouble _ => BSON_TYPE_DOUBLE | VUtf8 _ => BSON_TYPE_UTF8
  | VDocument _ => BSON_TYPE_DOCUMENT | VArray _ => BSON_TYPE_ARRAY
  | VBinary _ _ => BSON_TYPE_BINARY | VUndefined => BSON_TYPE_UNDEFINED
  | VOid _ => BSON_TYPE_OID | VBool _ => BSON_TYPE_BOOL
  | VDateTime _ => BSON_TYPE_DATE_TIME | VNull => BSON_TYPE_NULL
  | VRegex _ _ => BSON_TYPE_REGEX | VDbPointer _ _ => BSON_TYPE_DBPOINTER
  | VCode _ => BSON_TYPE_CODE | VSymbol _ => BSON_TYPE_SYMBOL
  | VCodeWScope _ _ => BSON_TYPE_CODEWSCOPE | VInt32 _ => BSON_TYPE_INT32
  | VTimestamp _ _ => BSON_TYPE_TIMESTAMP | VInt64 _ => BSON_TYPE_INT64
  | VDecimal128 _ => BSON_TYPE_DECIMAL128 | VMaxKey => BSON_TYPE_MAXKEY
  | VMinKey => BSON_TYPE_MINKEY
  end.

(** A property of all nested elements. *)
Definition fields_all (P : bytes -> bson_value -> Prop) : fields -> Prop :=
  fix all (d : fields) : Prop :=
    match d with
    | [] => True
    | (k, v) :: d' => P k v /\ all d'
    end.

(** Lengths are 32-bit in BSON and a document is below 2 GiB. *)
Definition len_ok (s : bytes) : Prop := blen s < 2 ^ 31.
Definition cstr_ok (s : bytes) : Prop := len_ok s /\ no_nul s.
Definition opt_ok (P : bytes -> Prop) (o : option bytes) : Prop :=
  match o with Some s => P s | None => False end.

(** Well-formed values: what libbson yields for a validated document. *)
Fixpoint value_ok (v : bson_value) : Prop :=
  match v with
  | VDouble b => uint64_ok b
  | VUtf8 s | VCode s | VSymbol s => len_ok s
  | VDocument d | VArray d => fields_all (fun k v => cstr_ok k /\ value_ok v) d
  | VBinary t d => 0 <= t < 256 /\ len_ok d
  | VOid o => List.length o = 12%nat
  | VDateTime z | VInt64 z => int64_ok z
  | VRegex r o => opt_ok cstr_ok r /\ opt_ok cstr_ok o
  | VDbPointer c o => len_ok c /\ List.length o = 12%nat
  | VCodeWScope c d => len_ok c /\ fields_all (fun k v => cstr_ok k /\ value_ok v) d
  | VInt32 z => int32_ok z
  | VTimestamp t i => uint32_ok t /\ uint32_ok i
  | VDecimal128 d => decimal128_ok d
  | VEod | VUndefined | VBool _ | VNull | VMaxKey | VMinKey => True
  end.

Definition doc_ok (d : fields) : Prop :=
  fields_all (fun k v => cstr_ok k /\ value_ok v) d.

(** ** Type predicates *)

Definition BsonTypeIsNumber (t : bson_type_t) : bool :=
  match t with
  | BSON_TYPE_DOUBLE | BSON_TYPE_INT64 | BSON_TYPE_INT32 | BSON_TYPE_DECIMAL128 => true
  | _ => false
  end.

Definition BsonTypeIsNumberOrBool (t : bson_type_t) : bool :=
  match t with
  | BSON_TYPE_BOOL | BSON_TYPE_DOUBLE | BSON_TYPE_INT64 | BSON_TYPE_INT32
  | BSON_TYPE_DECIMAL128 => true
  | _ => false
  end.

Definition BsonValueIsNumber (v : bson_value) : bool := BsonTypeIsNumber (value_type v).
Definition BsonValueIsNumberOrBool (v : bson_value) : bool :=
  BsonTypeIsNumberOrBool (value_type v).

Lemma number_or_bool v : BsonValueIsNumber v = true -> BsonValueIsNumberOrBool v = true.
Proof. now destruct v. Qed.

Definition IsBsonValueDateTimeFormat (t : bson_type_t) : bool :=
  match t with
  | BSON_TYPE_DATE_TIME | BSON_TYPE_TIMESTAMP | BSON_TYPE_OID => true
  | _ => false
  end.

(** ** Type names *)

Definition str (s : string) : bytes := list_byte_of_string s.

Definition BsonTypeName (t : bson_type_t) : res bytes :=
  match t with
  | BSON_TYPE_NULL => Ok (str "null")
  | BSON_TYPE_UNDEFINED => Ok (str "undefined")
  | BSON_TYPE_MINKEY => Ok (str "minKey")
  | BSON_TYPE_MAXKEY => Ok (str "maxKey")
  | BSON_TYPE_BOOL => Ok (str "bool")
  | BSON_TYPE_INT32 => Ok (str "int")
  | BSON_TYPE_INT64 => Ok (str "long")
  | BSON_TYPE_DOUBLE => Ok (str "double")
  | BSON_TYPE_DATE_TIME => Ok (str "date")
  | BSON_TYPE_TIMESTAMP => Ok (str "timestamp")
  | BSON_TYPE_OID => Ok (str "objectId")
  | BSON_TYPE_DECIMAL128 => Ok (str "decimal")
  | BSON_TYPE_UTF8 => Ok (str "string")
  | BSON_TYPE_ARRAY => Ok (str "array")
  | BSON_TYPE_DOCUMENT => Ok (str "object")
  | BSON_TYPE_SYMBOL => Ok (str "symbol")
  | BSON_TYPE_BINARY => Ok (str "binData")
  | BSON_TYPE_REGEX => Ok (str "regex")
  | BSON_TYPE_DBPOINTER => Ok (str "dbPointer")
  | BSON_TYPE_CODE => Ok (str "javascript")
  | BSON_TYPE_CODEWSCOPE => Ok (str "javascriptWithScope")
  | BSON_TYPE_EOD => Err ERRCODE_FEATURE_NOT_SUPPORTED
  end.

Definition BsonTypeFromName (name : bytes) : res bson_type_t :=
  if strcmp name (str "null") =? 0 then Ok BSON_TYPE_NULL
  else if strcmp name (str "undefined") =? 0 then Ok BSON_TYPE_UNDEFINED
  else if strcmp name (str "minKey") =? 0 then Ok BSON_TYPE_MINKEY
  else if strcmp name (str "maxKey") =? 0 then Ok BSON_TYPE_MAXKEY
  else if strcmp name (str "bool") =? 0 then Ok BSON_TYPE_BOOL
  else if strcmp name (str "int") =? 0 then Ok BSON_TYPE_INT32
  else if strcmp name (str "long") =? 0 then Ok BSON_TYPE_INT64
  else if strcmp name (str "double") =? 0 then Ok BSON_TYPE_DOUBLE
  else if strcmp name (str "date") =? 0 then Ok BSON_TYPE_DATE_TIME
  else if strcmp name (str "timestamp") =? 0 then Ok BSON_TYPE_TIMESTAMP
  else if strcmp name (str "objectId") =? 0 then Ok BSON_TYPE_OID
  else if strcmp name (str "decimal") =? 0 then Ok BSON_TYPE_DECIMAL128
  else if strcmp name (str "string") =? 0 then Ok BSON_TYPE_UTF8
  else if strcmp name (str "array") =? 0 then Ok BSON_TYPE_ARRAY
  else if strcmp name (str "object") =? 0 then Ok BSON_TYPE_DOCUMENT
  else if strcmp name (str "symbol") =? 0 then Ok BSON_TYPE_SYMBOL
  else if strcmp name (str "binData") =? 0 then Ok BSON_TYPE_BINARY
  else if strcmp name (str "regex") =? 0 then Ok BSON_TYPE_REGEX
  else if strcmp name (str "dbPointer") =? 0 then Ok BSON_TYPE_DBPOINTER
  else if strcmp name (str "javascript") =? 0 then Ok BSON_TYPE_CODE
  else if strcmp name (str "javascriptWithScope") =? 0 then Ok BSON_TYPE_CODEWSCOPE
  else Err ERRCODE_DOCUMENTDB_BADVALUE.

(** [(bson_type_t) typeCode] keeps the low 32 bits of the 64-bit argument; the
    enumerators are non-negative, so the enum is an unsigned 32-bit integer.
    The result is the code stored in the out parameter. *)
Definition TryGetTypeFromInt64 (typeCode : Z) : option Z :=
  let type := wrap_u 32 typeCode in
  if ((type_code BSON_TYPE_EOD <=? type) && (type <=? type_code BSON_TYPE_DECIMAL128))
     || (type =? type_code BSON_TYPE_MAXKEY) || (typeCode =? -1)
  then Some (if typeCode =? -1 then type_code BSON_TYPE_MINKEY else type)
  else None.

(** ** Properties of the name tables *)

Lemma strcmp_0 l r : no_nul l -> no_nul r -> (strcmp l r =? 0) = true <-> l = r.
Proof.
  intros Hl Hr. rewrite Z.eqb_eq, <- cmp_bytes_0.
  pose proof (strcmp_cmp_bytes l r Hl Hr) as S. unfold same_sign in S. lia.
Qed.

Definition no_nulb (s : bytes) : bool := forallb (fun b => negb (byte_z b =? 0)) s.

Lemma no_nulb_ok s : no_nulb s = true -> no_nul s.
Proof.
  unfold no_nulb, no_nul. rewrite forallb_forall, Forall_forall.
  intros H b Hb. specialize (H b Hb). destruct (Z.eqb_spec (byte_z b) 0); easy.
Qed.

(** The type-name tables are inverse to each other: every name
    [BsonTypeFromName] accepts is the name of the type it returns, and the name
    of every type except the end-of-document marker parses back to that type. *)
Theorem BsonTypeName_roundtrip (name : bytes) (t : bson_type_t) :
  no_nul name ->
  BsonTypeFromName name = Ok t <-> BsonTypeName t = Ok name.
Proof.
  intros Hn. split.
  - unfold BsonTypeFromName.
    repeat match goal with
      | |- context [strcmp name (str ?s) =? 0] =>
        destruct (strcmp name (str s) =? 0) eqn:?E;
          [ apply (strcmp_0 name (str s) Hn (no_nulb_ok (str s) eq_refl)) in E;
            intros H; injection H as <-; now rewrite E
          | clear E ]
      end; easy.
  - intros H. destruct t; simpl in H; try discriminate;
      injection H as <-; vm_compute; reflexivity.
Qed.

Lemma BsonTypeName_roundtrip_witness :
  no_nul (str "binData") /\
  (BsonTypeFromName (str "binData") = Ok BSON_TYPE_BINARY <->
   BsonTypeName BSON_TYPE_BINARY = Ok (str "binData")).
Proof.
  assert (H : no_nul (str "binData")) by (now apply no_nulb_ok).
  split; [exact H|]. apply BsonTypeName_roundtrip. exact H.
Defined.

(** [TryGetTypeFromInt64] accepts exactly the codes whose low 32 bits are a
    type code other than 255, and -1, which it maps to the minimum key. *)
Lemma TryGetTypeFromInt64_spec (c r : Z) :
  TryGetTypeFromInt64 c = Some r <->
  (c = -1 /\ r = 255) \/
  (c <> -1 /\ r = c mod 2 ^ 32 /\ (r <= 19 \/ r = 127)).
Proof.
  unfold TryGetTypeFromInt64, wrap_u, type_code.
  pose proof (Z.mod_pos_bound c (2 ^ 32) ltac:(lia)) as Hb.
  set (m := c mod 2 ^ 32) in *. clearbody m.
  destruct (Z.eqb_spec c (-1)) as [->|Hc].
  - rewrite orb_true_r. split.
    + intros H; injection H as <-. auto.
    + intros [[_ ->]|[H _]]; easy.
  - rewrite orb_false_r.
    destruct (((0 <=? m) && (m <=? 19)) || (m =? 127)) eqn:E; split.
    + intros H; injection H as <-. right. lia.
    + intros [[H _]|[_ [-> _]]]; [lia|reflexivity].
    + discriminate.
    + intros [[H _]|[_ [-> H]]]; lia.
Qed.
