(* ===== verification/StringView.v ===== *)
(** * String views ([string_view.h], [string_view.c]) and string lists
      ([list_utils.c])

    A [StringView] is a pointer and a length.  [option bytes] models it: [None]
    is the view [{ NULL, 0 }] the search functions return for "not found",
    [Some s] a view of the bytes [s].  A [StringView *] that may be NULL is one
    more [option]. *)

From Stdlib Require Import ZArith Lia Bool String List.
From Stdlib Require Import Strings.Byte.
From S2P Require Import Prelude BsonTypes.
Import ListNotations.
Local Open Scope Z_scope.

(** ** Operations *)

Definition byte_eqb (a b : byte) : bool := byte_z a =? byte_z b.

(** [memchr(view->string, c, view->length)] as an offset. *)
Fixpoint memchr (s : bytes) (c : byte) : option nat :=
  match s with
  | [] => None
  | b :: s' => if byte_eqb b c then Some O else option_map S (memchr s' c)
  end.

Definition StringViewFindPrefix (view : bytes) (c : byte) : option bytes :=
  match memchr view c with
  | Some off => if Z.of_nat off <? blen view then Some (firstn off view) else None
  | None => None
  end.

Definition StringViewFindSuffix (view : bytes) (c : byte) : option bytes :=
  match memchr view c with
  | Some off =>
    if Z.of_nat off <? blen view then
      let rest := skipn (S off) view in
      if 0 <? blen rest then Some rest else None
    else None
  | None => None
  end.

Definition StringViewSubstring (source : bytes) (offset : Z) : res bytes :=
  if offset >? blen source then Err ERRCODE_INTERNAL_ERROR
  else Ok (skipn (Z.to_nat offset) source).

Definition StringViewStartsWith (source : option bytes) (c : byte) : bool :=
  match source with
  | Some (b :: _) => byte_eqb b c
  | _ => false
  end.

Definition StringViewStartsWithStringView (source : option bytes) (string : bytes) : bool :=
  match source with
  | Some s => (blen s >=? blen string) && (strncmp s string (List.length string) =? 0)
  | None => false
  end.

Definition StringViewEndsWith (source : option bytes) (c : byte) : bool :=
  match source with
  | Some s => (0 <? blen s) && byte_eqb (nth (List.length s - 1) s x00) c
  | None => false
  end.

(** The loop of [StringViewEndsWithString] runs both indices down from the last
    character; [n] is [stringIndex + 1]. *)
Fixpoint ends_with_loop (source target : bytes) (sourceIndex : Z) (n : nat) : bool :=
  match n with
  | O => true
  | S stringIndex =>
    if byte_eqb (nth (Z.to_nat sourceIndex) source x00) (nth stringIndex target x00)
    then ends_with_loop source target (sourceIndex - 1) stringIndex
    else false
  end.

Definition StringViewEndsWithString (source target : bytes) : bool :=
  let sourceIndex := wrap_s 32 (blen source - 1) in
  let stringIndex := wrap_s 32 (blen target - 1) in
  if sourceIndex <? stringIndex then false
  else ends_with_loop source target sourceIndex (Z.to_nat (stringIndex + 1)).

Definition StringViewEquals (left right : option bytes) : bool :=
  match left, right with
  | None, None => true
  | Some l, Some r => (blen l =? blen r) && (strncmp l r (List.length l) =? 0)
  | _, _ => false
  end.

(** [left] is a view pointer whose [string] may itself be NULL. *)
Definition StringViewEqualsCString (left : option (option bytes)) (right : option bytes) : bool :=
  match left, right with
  | None, None => true
  | Some None, None => true
  | Some (Some _), None | Some None, Some _ => false
  | None, Some _ => false
  | Some (Some l), Some r => (blen l =? blen r) && (strncmp l r (List.length l) =? 0)
  end.

Definition StringViewContains (source : option bytes) (c : byte) : bool :=
  match source with
  | Some s => (0 <? blen s) && match memchr s c with Some _ => true | None => false end
  | None => false
  end.

Definition CompareStringView (left right : bytes) : Z :=
  let minLength := Nat.min (List.length left) (List.length right) in
  let cmp := if Nat.eqb minLength 0 then 0 else strncmp left right minLength in
  if cmp =? 0 then wrap_s 32 (blen left - blen right) else cmp.

(** The loop of [StringViewToPositiveInteger] on 32-bit integers. *)
Fixpoint to_positive_integer_loop (finalValue : Z) (s : bytes) : Z :=
  match s with
  | [] => finalValue
  | c :: s' =>
    if (byte_z c <? 48) || (byte_z c >? 57) then -1
    else
      let finalValue := wrap_s 32 (finalValue * 10 + (byte_z c - 48)) in
      if finalValue <? 0 then -1 else to_positive_integer_loop finalValue s'
  end.

Definition StringViewToPositiveInteger (view : option bytes) : Z :=
  match view with
  | None | Some [] => -1
  | Some s => to_positive_integer_loop 0 s
  end.

(** [(int) str[i]] for a signed [char]. *)
Definition char_int (b : byte) : Z := if byte_z b <? 128 then byte_z b else byte_z b - 256.

Definition utf8_char_size (c : Z) : option nat :=
  if (c >=? 0) && (c <=? 127) then Some 1%nat
  else if Z.land c 0xE0 =? 0xC0 then Some 2%nat
  else if Z.land c 0xF0 =? 0xE0 then Some 3%nat
  else if Z.land c 0xF8 =? 0xF0 then Some 4%nat
  else None.

(** The loop of [StringViewMultiByteCharStrlen]: [fuel] bounds the number of
    iterations by the number of bytes, since every step advances. *)
Fixpoint multibyte_loop (fuel : nat) (s : bytes) (len : Z) : res Z :=
  match s, fuel with
  | [], _ => Ok len
  | _, O => Ok len
  | b :: _, S fuel' =>
    match utf8_char_size (char_int b) with
    | Some charSize => multibyte_loop fuel' (skipn charSize s) (len + 1)
    | None => Err ERRCODE_INTERNAL_ERROR
    end
  end.

Definition StringViewMultiByteCharStrlen (view : bytes) : res Z :=
  multibyte_loop (List.length view) view 0.

(** ** String lists ([list_utils.c]) *)

Definition StringListJoin (stringList : list bytes) (delim : bytes) : bytes :=
  fst (fold_left
         (fun '(acc, firstWritten) s =>
            (acc ++ (if firstWritten : bool then delim else []) ++ s, true))
         stringList ([], false)).

Fixpoint lists_equal_loop (l r : list bytes) : bool :=
  match l, r with
  | a :: l', b :: r' => if strcmp a b =? 0 then lists_equal_loop l' r' else false
  | _, _ => true
  end.

Definition StringListsAreEqual (left right : list bytes) : bool :=
  if Nat.eqb (List.length left) (List.length right) then lists_equal_loop left right
  else false.

(** ** Searching *)

Lemma byte_eqb_eq a b : byte_eqb a b = true <-> a = b.
Proof.
  unfold byte_eqb. rewrite Z.eqb_eq. split; [apply byte_z_inj|congruence].
Qed.

Lemma byte_eqb_refl a : byte_eqb a a = true.
Proof. now apply byte_eqb_eq. Qed.

Lemma memchr_app p c q : ~ In c p -> memchr (p ++ c :: q) c = Some (List.length p).
Proof.
  induction p as [|b p IH]; simpl; intros H; [now rewrite byte_eqb_refl|].
  destruct (byte_eqb b c) eqn:E; [apply byte_eqb_eq in E; tauto|].
  rewrite IH by tauto. reflexivity.
Qed.

Lemma memchr_inv s c :
  match memchr s c with
  | Some n => exists p q, s = p ++ c :: q /\ List.length p = n /\ ~ In c p
  | None => ~ In c s
  end.
Proof.
  induction s as [|b s IH]; simpl; [tauto|].
  destruct (byte_eqb b c) eqn:E.
  - apply byte_eqb_eq in E as ->. exists [], s. simpl. tauto.
  - assert (b <> c) by (intros ->; now rewrite byte_eqb_refl in E).
    destruct (memchr s c) as [n|]; simpl; [|tauto].
    destruct IH as (p & q & -> & <- & Hn). exists (b :: p), q. simpl. tauto.
Qed.

Lemma app_sep_prefix_lt (p : bytes) c q : (Z.of_nat (List.length p) <? blen (p ++ c :: q)) = true.
Proof. unfold blen. rewrite length_app. cbn [List.length]. apply Z.ltb_lt. lia. Qed.

(** The prefix found is the part before the first separator, and it is found
    exactly when the separator occurs. *)
Lemma StringViewFindPrefix_Some view c p :
  StringViewFindPrefix view c = Some p <->
  exists q, view = p ++ c :: q /\ ~ In c p.
Proof.
  unfold StringViewFindPrefix. split.
  - pose proof (memchr_inv view c) as M. destruct (memchr view c) as [n|]; [|easy].
    destruct M as (p' & q & -> & <- & Hn). rewrite app_sep_prefix_lt.
    rewrite firstn_app, Nat.sub_diag, firstn_all, app_nil_r.
    intros H; injection H as <-. eauto.
  - intros (q & -> & Hn). rewrite (memchr_app p c q Hn), app_sep_prefix_lt.
    now rewrite firstn_app, Nat.sub_diag, firstn_all, app_nil_r.
Qed.

Lemma StringViewFindPrefix_None view c :
  StringViewFindPrefix view c = None <-> ~ In c view.
Proof.
  unfold StringViewFindPrefix. pose proof (memchr_inv view c) as M.
  destruct (memchr view c) as [n|]; [|tauto].
  destruct M as (p' & q & -> & <- & Hn). rewrite app_sep_prefix_lt.
  split; [easy|]. intros H; elim H. apply in_or_app. simpl; auto.
Qed.

(** Prefix, separator and suffix give back the view; an empty suffix is
    reported as the NULL view. *)
Theorem StringView_split (view : bytes) (c : byte) (p : bytes) :
  StringViewFindPrefix view c = Some p ->
  view = p ++ c :: match StringViewFindSuffix view c with Some q => q | None => [] end.
Proof.
  intros H. apply StringViewFindPrefix_Some in H as (q & -> & Hn).
  unfold StringViewFindSuffix. rewrite (memchr_app p c q Hn), app_sep_prefix_lt.
  replace (skipn (S (List.length p)) (p ++ c :: q)) with q.
  - destruct q as [|b q]; [reflexivity|]. cbv zeta.
    now destruct (Z.ltb_spec 0 (blen (b :: q))); [|unfold blen in *; cbn in *; lia].
  - rewrite skipn_app, skipn_all2 by lia.
    now replace (S (List.length p) - List.length p)%nat with 1%nat by lia.
Qed.

Lemma StringView_split_witness :
  StringViewFindPrefix (str "a.b.c") "."%byte = Some (str "a") /\
  str "a.b.c" = str "a" ++ "."%byte ::
    match StringViewFindSuffix (str "a.b.c") "."%byte with Some q => q | None => [] end.
Proof.
  assert (H : StringViewFindPrefix (str "a.b.c") "."%byte = Some (str "a")) by reflexivity.
  split; [exact H|]. apply StringView_split. exact H.
Defined.

(** ** Comparison and equality *)

Lemma strncmp_same_length l r :
  no_nul l -> List.length l = List.length r ->
  strncmp l r (List.length l) = 0 <-> l = r.
Proof.
  intros Hn HL. rewrite strncmp_min_memcmp by (assumption || lia). split.
  - intros H. apply memcmp_0_firstn in H; [|lia..].
    rewrite firstn_all in H. now rewrite HL, firstn_all in H.
  - intros ->. clear Hn HL. induction r as [|b r IH]; [reflexivity|]. simpl.
    now rewrite (proj2 (cmpz_0 _ _) eq_refl).
Qed.

(** On views without an embedded NUL, [StringViewEquals] is equality. *)
Theorem StringViewEquals_iff (l r : bytes) :
  no_nul l -> StringViewEquals (Some l) (Some r) = true <-> l = r.
Proof.
  intros Hn. unfold StringViewEquals, blen. rewrite andb_true_iff, !Z.eqb_eq. split.
  - intros [HL H]. apply Nat2Z.inj in HL. now apply strncmp_same_length in H.
  - intros <-. split; [reflexivity|]. now apply strncmp_same_length.
Qed.

Lemma StringViewEquals_iff_witness :
  no_nul (str "ab") /\ (StringViewEquals (Some (str "ab")) (Some (str "ab")) = true <-> str "ab" = str "ab").
Proof.
  assert (H : no_nul (str "ab")) by (now apply no_nulb_ok).
  split; [exact H|]. apply StringViewEquals_iff. exact H.
Defined.

(** The exclusion is needed: [strncmp] stops at a NUL, so two different views
    with the same bytes up to a NUL are reported equal. *)
Theorem StringViewEquals_embedded_nul :
  let l := ["a"%byte; x00; "b"%byte] in
  let r := ["a"%byte; x00; "c"%byte] in
  StringViewEquals (Some l) (Some r) = true /\ CompareStringView l r = 0 /\ l <> r.
Proof. repeat split; try reflexivity. discriminate. Qed.

(** [CompareStringView] is lexicographic byte order, shorter first. *)
Theorem CompareStringView_order (l r : bytes) :
  len_ok l -> len_ok r -> no_nul l ->
  same_sign (CompareStringView l r) (cmp_bytes l r).
Proof.
  intros Hl Hr Hn. eapply same_sign_trans; [|apply memcmp_min_then_length].
  unfold CompareStringView. unfold len_ok in *.
  set (n := Nat.min (List.length l) (List.length r)).
  assert (E : (if Nat.eqb n 0 then 0 else strncmp l r n) = memcmp l r n).
  { destruct (Nat.eqb_spec n 0) as [->|_]; [now destruct l|].
    apply strncmp_min_memcmp; auto; unfold n; lia. }
  rewrite E. unfold lexz. destruct (memcmp l r n =? 0); [|apply same_sign_refl].
  rewrite wrap_s32_id; [apply same_sign_refl|]. zbounds. unfold blen in *. lia.
Qed.

Lemma CompareStringView_order_witness :
  same_sign (CompareStringView (str "ab") (str "abc")) (cmp_bytes (str "ab") (str "abc")).
Proof.
  apply CompareStringView_order; [reflexivity|reflexivity|now apply no_nulb_ok].
Defined.

(** ** Array indexes *)

Definition is_digit (c : byte) : bool := (48 <=? byte_z c) && (byte_z c <=? 57).

(** The number a digit string denotes. *)
Definition decimal_value (s : bytes) : Z :=
  fold_left (fun acc c => acc * 10 + (byte_z c - 48)) s 0.

Definition decimal_from (v : Z) (s : bytes) : Z :=
  fold_left (fun acc c => acc * 10 + (byte_z c - 48)) s v.

Lemma decimal_from_mono s v : forallb is_digit s = true -> 0 <= v -> v <= decimal_from v s.
Proof.
  revert v; induction s as [|c s IH]; intros v; simpl; [lia|].
  unfold is_digit at 1. intros [Hc Hs]%andb_prop Hv.
  specialize (IH (v * 10 + (byte_z c - 48)) Hs). lia.
Qed.

Lemma to_positive_integer_loop_ok s v :
  forallb is_digit s = true -> 0 <= v -> decimal_from v s <= INT32_MAX ->
  to_positive_integer_loop v s = decimal_from v s.
Proof.
  revert v; induction s as [|c s IH]; intros v; simpl; [reflexivity|].
  unfold is_digit at 1. intros [Hc Hs]%andb_prop Hv Hmax.
  pose proof (decimal_from_mono s (v * 10 + (byte_z c - 48)) Hs ltac:(lia)) as Hm.
  destruct ((byte_z c <? 48) || (byte_z c >? 57)) eqn:E; [lia|].
  fold (decimal_from (v * 10 + (byte_z c - 48)) s) in *.
  rewrite wrap_s32_id by (zbounds; lia).
  destruct (Z.ltb_spec (v * 10 + (byte_z c - 48)) 0); [lia|]. apply IH; auto; lia.
Qed.

Lemma to_positive_integer_loop_bad s v :
  forallb is_digit s = false -> to_positive_integer_loop v s = -1.
Proof.
  revert v; induction s as [|c s IH]; intros v; simpl; [easy|].
  unfold is_digit at 1. intros H.
  destruct ((byte_z c <? 48) || (byte_z c >? 57)) eqn:E; [reflexivity|].
  destruct (_ <? 0); [reflexivity|]. apply IH.
  destruct (forallb is_digit s); [|reflexivity]. rewrite andb_true_r in H. lia.
Qed.

(** [StringViewToPositiveInteger] on every string whose number fits an [int32]:
    a digit string gives its number, anything else -1. *)
Theorem StringViewToPositiveInteger_spec (s : bytes) :
  decimal_value s <= INT32_MAX ->
  StringViewToPositiveInteger (Some s) =
  if negb (Nat.eqb (List.length s) 0) && forallb is_digit s then decimal_value s else -1.
Proof.
  intros H. unfold StringViewToPositiveInteger. destruct s as [|c s]; [reflexivity|].
  simpl Nat.eqb. cbn [negb andb]. destruct (forallb is_digit (c :: s)) eqn:E.
  - now apply to_positive_integer_loop_ok.
  - now apply to_positive_integer_loop_bad.
Qed.

Lemma StringViewToPositiveInteger_spec_witness :
  decimal_value (str "1205") <= INT32_MAX /\
  StringViewToPositiveInteger (Some (str "1205")) = 1205.
Proof.
  assert (H : decimal_value (str "1205") <= INT32_MAX) by (vm_compute; discriminate).
  split; [exact H|]. rewrite (StringViewToPositiveInteger_spec (str "1205") H). reflexivity.
Defined.

(** Out of range the overflow test [finalValue < 0] is not enough: a number
    that wraps around to a non-negative [int32] is accepted, so the path
    component [4294967296] is read as array index 0. *)
Theorem StringViewToPositiveInteger_overflow :
  StringViewToPositiveInteger (Some (str "4294967296")) = 0 /\
  StringViewToPositiveInteger (Some (str "4294967301")) = 5.
Proof. split; reflexivity. Qed.

(** ** Multi-byte length *)

(** A chunk that is one UTF-8 character by its lead byte and size. *)
Definition utf8_chunk (s : bytes) : Prop :=
  match s with
  | [] => False
  | b :: _ => utf8_char_size (char_int b) = Some (List.length s)
  end.

Lemma multibyte_loop_chunks chunks : Forall utf8_chunk chunks ->
  forall fuel len, (List.length (concat chunks) <= fuel)%nat ->
  multibyte_loop fuel (concat chunks) len = Ok (len + Z.of_nat (List.length chunks)).
Proof.
  induction 1 as [|ch chunks Hc _ IH]; intros fuel len Hf.
  - simpl. rewrite Z.add_0_r. now destruct fuel.
  - destruct ch as [|b ch]; [easy|]. simpl in Hc. cbn [concat List.app] in *.
    destruct fuel as [|fuel]; [simpl in Hf; lia|]. cbn [multibyte_loop].
    rewrite Hc. simpl skipn. rewrite skipn_app, Nat.sub_diag, skipn_all. simpl List.app.
    rewrite IH by (simpl in Hf; rewrite length_app in Hf; lia).
    cbn [List.length]. f_equal. lia.
Qed.

(** A well-formed UTF-8 string is measured in characters, not bytes. *)
Theorem StringViewMultiByteCharStrlen_chars (chunks : list bytes) :
  Forall utf8_chunk chunks ->
  StringViewMultiByteCharStrlen (concat chunks) = Ok (Z.of_nat (List.length chunks)).
Proof. intros H. unfold StringViewMultiByteCharStrlen. now rewrite multibyte_loop_chunks. Qed.

Lemma StringViewMultiByteCharStrlen_chars_witness :
  StringViewMultiByteCharStrlen (concat [["a"%byte]; [xc3; xa9]; [xe2; x82; xac]]) = Ok 3.
Proof.
  apply (StringViewMultiByteCharStrlen_chars [["a"%byte]; [xc3; xa9]; [xe2; x82; xac]]).
  repeat constructor.
Defined.

(** ** Lists *)

Lemma join_loop (l : list bytes) (delim acc : bytes) :
  fst (fold_left (fun '(acc, firstWritten) s =>
            (acc ++ (if firstWritten : bool then delim else []) ++ s, true)) l (acc, true)) =
  acc ++ concat (map (fun s => delim ++ s) l).
Proof.
  revert acc; induction l as [|s l IH]; intros acc; simpl; [now rewrite app_nil_r|].
  rewrite IH. now rewrite <- !app_assoc.
Qed.

(** The joined string is the first element followed by delimiter-prefixed ones. *)
Lemma StringListJoin_cons (s : bytes) (l : list bytes) (delim : bytes) :
  StringListJoin (s :: l) delim = s ++ concat (map (fun s => delim ++ s) l).
Proof. unfold StringListJoin. simpl. now rewrite join_loop. Qed.

(** [StringListsAreEqual] decides equality of lists of C strings. *)
Theorem StringListsAreEqual_iff (l r : list bytes) :
  Forall no_nul l -> Forall no_nul r ->
  StringListsAreEqual l r = true <-> l = r.
Proof.
  intros Hl Hr. unfold StringListsAreEqual. split.
  - destruct (Nat.eqb_spec (List.length l) (List.length r)) as [E|_]; [|easy].
    revert r Hr E; induction Hl as [|a l Ha Hl IH]; intros [|b r] Hr E; simpl in *; try easy.
    inversion_clear Hr. destruct (strcmp a b =? 0) eqn:S; [|easy].
    apply strcmp_0 in S as ->; auto. intros HT. f_equal. apply IH; auto.
  - intros <-. rewrite Nat.eqb_refl. clear Hr.
    induction Hl as [|a l Ha Hl IH]; simpl; [reflexivity|].
    now rewrite (proj2 (strcmp_0 a a Ha Ha) eq_refl).
Qed.

Lemma StringListsAreEqual_iff_witness :
  StringListsAreEqual [str "a"; str "b"] [str "a"; str "b"] = true <->
  [str "a"; str "b"] = [str "a"; str "b"].
Proof.
  apply StringListsAreEqual_iff; repeat constructor; discriminate.
Defined.
