(* ===== verification/Decimal128.v ===== *)
(** * Decimal128 support ([decimal128.c])

    The arithmetic itself is Intel's decimal floating-point library, which is
    not part of the repository: it is the class [BidLib], an argument of every
    definition that calls it.  Each library call that reports exceptions returns
    its result with the exception flags it raises.  [BidLaws] states the
    documented behaviour the comparison and conversion code relies on, in terms
    of [dec_ext], the value of a decimal128 in the BID encoding of IEEE 754.
    Server-log calls ([LogWith1Operand], [LogWith2Operands]) have no effect on
    results and are left out. *)

From Stdlib Require Import ZArith QArith Qpower Qround Qabs List Lia Bool SpecFloat.
From S2P Require Import Prelude SoftFloat BsonTypes.
Import ListNotations.
Local Open Scope Z_scope.

(** ** Constants and enumerations *)

Definition BID128_EXP_BIAS : Z := 6176.
Definition BID128_EXP_BITS_OFFSET : Z := 49.
Definition INFINITY_MASK64 : Z := 0x7800000000000000.
Definition SINFINITY_MASK64 : Z := 0xf800000000000000.
Definition NAN_MASK64 : Z := 0x7c00000000000000.

Inductive Decimal128RoundingMode : Set :=
| Decimal128RoundingMode_NearestEven
| Decimal128RoundingMode_Downward
| Decimal128RoundingMode_Upward
| Decimal128RoundingMode_TowardZero
| Decimal128RoundingMode_NearestAway.

Definition Decimal128RoundingMode_Default := Decimal128RoundingMode_NearestEven.

Inductive ConversionRoundingMode : Set :=
| ConversionRoundingMode_Floor
| ConversionRoundingMode_NearestEven.

Inductive Decimal128MathOperation : Set :=
| Decimal128MathOperation_Add | Decimal128MathOperation_Subtract
| Decimal128MathOperation_Multiply | Decimal128MathOperation_Divide
| Decimal128MathOperation_Mod | Decimal128MathOperation_Ceil
| Decimal128MathOperation_Floor | Decimal128MathOperation_Exp
| Decimal128MathOperation_Sqrt | Decimal128MathOperation_Abs
| Decimal128MathOperation_Log10 | Decimal128MathOperation_NaturalLogarithm
| Decimal128MathOperation_Log | Decimal128MathOperation_Pow
| Decimal128MathOperation_Round | Decimal128MathOperation_Trunc
| Decimal128MathOperation_Sin | Decimal128MathOperation_Cos
| Decimal128MathOperation_Tan | Decimal128MathOperation_Sinh
| Decimal128MathOperation_Cosh | Decimal128MathOperation_Tanh
| Decimal128MathOperation_Asin | Decimal128MathOperation_Acos
| Decimal128MathOperation_Atan | Decimal128MathOperation_Atan2
| Decimal128MathOperation_Asinh | Decimal128MathOperation_Acosh
| Decimal128MathOperation_Atanh.

Inductive Decimal128Result : Set :=
| Decimal128Result_Success | Decimal128Result_Invalid | Decimal128Result_Overflow
| Decimal128Result_Underflow | Decimal128Result_DivideByZero
| Decimal128Result_Inexact | Decimal128Result_Denormal | Decimal128Result_Unknown.

(** The library's exception flags. *)
Definition BID_INVALID_EXCEPTION : Z := 0x01.
Definition BID_DENORMAL_EXCEPTION : Z := 0x02.
Definition BID_ZERO_DIVIDE_EXCEPTION : Z := 0x04.
Definition BID_OVERFLOW_EXCEPTION : Z := 0x08.
Definition BID_UNDERFLOW_EXCEPTION : Z := 0x10.
Definition BID_INEXACT_EXCEPTION : Z := 0x20.

Definition IsOperationInvalid (x : Z) : bool := Z.land x BID_INVALID_EXCEPTION =? BID_INVALID_EXCEPTION.
Definition IsOperationOverflow (x : Z) : bool := Z.land x BID_OVERFLOW_EXCEPTION =? BID_OVERFLOW_EXCEPTION.
Definition IsOperationUnderflow (x : Z) : bool := Z.land x BID_UNDERFLOW_EXCEPTION =? BID_UNDERFLOW_EXCEPTION.
Definition IsOperationSuccess (x : Z) : bool := x =? 0.

(** ** The library *)

(** Names of the one-operand transcendental functions. *)
Inductive bid_function : Set :=
| bid128_exp | bid128_sqrt | bid128_log10 | bid128_log | bid128_sin | bid128_cos
| bid128_tan | bid128_sinh | bid128_cosh | bid128_tanh | bid128_asin
| bid128_acos | bid128_atan | bid128_asinh | bid128_acosh | bid128_atanh.

(** Names of the two-operand functions. *)
Inductive bid_function2 : Set :=
| bid128_add | bid128_sub | bid128_mul | bid128_div | bid128_pow | bid128_atan2.

Class BidLib : Type := {
  bid128_isNaN : decimal128 -> bool;
  bid128_isInf : decimal128 -> bool;
  bid128_isFinite : decimal128 -> bool;
  bid128_isZero : decimal128 -> bool;
  bid128_quiet_equal : decimal128 -> decimal128 -> bool * Z;
  bid128_quiet_greater : decimal128 -> decimal128 -> bool * Z;
  bid128_from_int32 : Z -> decimal128;
  bid128_from_int64 : Z -> decimal128;
  bid128_to_int32_xint : decimal128 -> Z * Z;
  bid128_to_int32_xrnint : decimal128 -> Z * Z;
  bid128_to_int32_xceil : decimal128 -> Z * Z;
  bid128_to_int64_xint : decimal128 -> Z * Z;
  bid128_to_int64_xrnint : decimal128 -> Z * Z;
  bid128_to_int64_floor : decimal128 -> Z * Z;
  bid128_to_binary64 : decimal128 -> Decimal128RoundingMode -> Z * Z;
  bid128_to_binary80 : decimal128 -> Decimal128RoundingMode -> spec_float * Z;
  binary64_to_bid128 : Z -> Decimal128RoundingMode -> decimal128 * Z;
  bid128_quantize : decimal128 -> decimal128 -> Decimal128RoundingMode -> decimal128 * Z;
  bid128_abs : decimal128 -> decimal128;
  bid128_fmod : decimal128 -> decimal128 -> decimal128 * Z;
  bid128_round_integral_exact : decimal128 -> Decimal128RoundingMode -> decimal128 * Z;
  bid128_round_integral_positive : decimal128 -> decimal128 * Z;
  bid128_round_integral_negative : decimal128 -> decimal128 * Z;
  bid_call : bid_function -> decimal128 -> Decimal128RoundingMode -> decimal128 * Z;
  bid_call2 : bid_function2 -> decimal128 -> decimal128 -> Decimal128RoundingMode -> decimal128 * Z;
  (* the C library's log10 on doubles *)
  libm_log10 : Z -> Z;
  (* libbson's parser *)
  bson_decimal128_from_string : bytes -> decimal128
}.

Section Operations.
Context {BL : BidLib}.
Local Open Scope res_scope.

(** ** Access *)

Definition CheckDecimal128Type (value : bson_value) : res unit :=
  match value with
  | VDecimal128 _ => Ok tt
  | _ => Err ERRCODE_INTERNAL_ERROR
  end.

Definition GetBIDUINT128FromBsonValue (value : bson_value) : res decimal128 :=
  let* _ := CheckDecimal128Type value in
  match value with
  | VDecimal128 d => Ok d
  | _ => Err ERRCODE_INTERNAL_ERROR
  end.

(** ** Conversions to machine types *)

Definition ThrowConversionFailureError {A} (value : decimal128) : res A :=
  if bid128_isInf value then Err ERRCODE_DOCUMENTDB_CONVERSIONFAILURE
  else if bid128_isNaN value then Err ERRCODE_DOCUMENTDB_CONVERSIONFAILURE
  else Err ERRCODE_DOCUMENTDB_CONVERSIONFAILURE.

Definition GetBsonDecimal128AsInt32 (value : bson_value) (mode : ConversionRoundingMode) : res Z :=
  let* bidValue := GetBIDUINT128FromBsonValue value in
  let '(returnValue, flags) :=
    match mode with
    | ConversionRoundingMode_NearestEven => bid128_to_int32_xrnint bidValue
    | _ => bid128_to_int32_xint bidValue
    end in
  if negb (IsOperationSuccess flags) && IsOperationInvalid flags
  then ThrowConversionFailureError bidValue
  else Ok returnValue.

Definition GetBsonDecimal128AsInt64 (value : bson_value) (mode : ConversionRoundingMode) : res Z :=
  let* bidValue := GetBIDUINT128FromBsonValue value in
  let '(returnValue, flags) :=
    match mode with
    | ConversionRoundingMode_NearestEven => bid128_to_int64_xrnint bidValue
    | _ => bid128_to_int64_xint bidValue
    end in
  if negb (IsOperationSuccess flags) then
    if IsOperationInvalid flags then ThrowConversionFailureError bidValue
    else Ok returnValue
  else Ok returnValue.

Definition GetBsonDecimal128AsDouble (value : bson_value) : res Z :=
  let* bidValue := GetBIDUINT128FromBsonValue value in
  let '(returnValue, flags) := bid128_to_binary64 bidValue Decimal128RoundingMode_Default in
  if negb (IsOperationSuccess flags) && (IsOperationOverflow flags || IsOperationUnderflow flags)
  then Err ERRCODE_DOCUMENTDB_CONVERSIONFAILURE
  else Ok returnValue.

Definition GetBsonDecimal128AsDoubleQuiet (value : bson_value) : res Z :=
  let* bidValue := GetBIDUINT128FromBsonValue value in
  Ok (fst (bid128_to_binary64 bidValue Decimal128RoundingMode_Default)).

Definition GetBsonDecimal128AsLongDouble (value : bson_value) : res spec_float :=
  let* bidValue := GetBIDUINT128FromBsonValue value in
  let '(returnValue, flags) := bid128_to_binary80 bidValue Decimal128RoundingMode_Default in
  if negb (IsOperationSuccess flags) && (IsOperationOverflow flags || IsOperationUnderflow flags)
  then Err ERRCODE_DOCUMENTDB_CONVERSIONFAILURE
  else Ok returnValue.

Definition GetBsonDecimal128AsBool (value : bson_value) : res bool :=
  let* bidValue := GetBIDUINT128FromBsonValue value in
  Ok (negb (bid128_isZero bidValue)).

(** ** Classification *)

Definition IsDecimal128NaN (value : bson_value) : res bool :=
  let* bid := GetBIDUINT128FromBsonValue value in Ok (bid128_isNaN bid).

(** The result and, for an infinity, whether it is positive. *)
Definition IsDecimal128Infinity (value : bson_value) : res (bool * bool) :=
  let* bid := GetBIDUINT128FromBsonValue value in
  let result := bid128_isInf bid in
  Ok (result, result && negb (dec_high bid =? SINFINITY_MASK64)).

Definition IsDecimal128Finite (value : bson_value) : res bool :=
  let* bid := GetBIDUINT128FromBsonValue value in Ok (bid128_isFinite bid).

Definition IsDecimal128Zero (value : bson_value) : res bool :=
  let* bid := GetBIDUINT128FromBsonValue value in Ok (bid128_isZero bid).

Definition SetDecimal128NaN : decimal128 := Dec128 NAN_MASK64 0.
Definition SetDecimal128NegativeInfinity : decimal128 := Dec128 SINFINITY_MASK64 0.
Definition SetDecimal128PositiveInfinity : decimal128 := Dec128 INFINITY_MASK64 0.
Definition SetDecimal128Zero : decimal128 :=
  Dec128 (wrap_u 64 (Z.shiftl BID128_EXP_BIAS BID128_EXP_BITS_OFFSET)) 0.

Definition IsDecimal128InInt64Range (value : bson_value) : res bool :=
  let* finite := IsDecimal128Finite value in
  if negb finite then Ok false
  else
    let* bid := GetBIDUINT128FromBsonValue value in
    let '(_, flag) := bid128_to_int64_xint bid in
    if IsOperationInvalid flag then Ok false else Ok true.

Definition IsDecimal128InInt32Range (value : bson_value) : res bool :=
  let* finite := IsDecimal128Finite value in
  if negb finite then Ok false
  else
    let* bid := GetBIDUINT128FromBsonValue value in
    let '(_, flag) := bid128_to_int32_xint bid in
    if IsOperationInvalid flag then Ok false else Ok true.

Definition IsDecimal128InDoubleRange (value : bson_value) : res bool :=
  let* bidValue := GetBIDUINT128FromBsonValue value in
  let '(_, flags) := bid128_to_binary64 bidValue Decimal128RoundingMode_Default in
  if IsOperationInvalid flags || IsOperationOverflow flags || IsOperationUnderflow flags
  then Ok false else Ok true.

(** ** Comparison *)

(** The result and the updated flags. *)
Definition BIDUINT128SignalingEqual (x y : decimal128) (exceptionFlag : Z) : bool * Z :=
  let isXNaN := bid128_isNaN x in
  let isYNaN := bid128_isNaN y in
  if isXNaN && isYNaN then (true, exceptionFlag)
  else if isXNaN || isYNaN then (false, Z.lor exceptionFlag BID_INVALID_EXCEPTION)
  else let '(r, f) := bid128_quiet_equal x y in (r, Z.lor exceptionFlag f).

(** The comparison result and [isComparisonValid]. *)
Definition CompareBsonDecimal128 (left right : bson_value) : res (Z * bool) :=
  let* leftBid := GetBIDUINT128FromBsonValue left in
  let* rightBid := GetBIDUINT128FromBsonValue right in
  let '(isEqual, flags) := BIDUINT128SignalingEqual leftBid rightBid 0 in
  if IsOperationInvalid flags then
    let* leftNaN := IsDecimal128NaN left in
    Ok (if leftNaN then -1 else 1, false)
  else if isEqual then Ok (0, true)
  else
    let '(result, _) := bid128_quiet_greater leftBid rightBid in
    Ok (if result then 1 else -1, true).

(** [Decimal128ToInt64Floor]: the value and the overflow indication. *)
Definition Decimal128ToInt64Floor (value : bson_value) : res (Z * bool) :=
  let* bid := GetBIDUINT128FromBsonValue value in
  let '(int64Value, flag) := bid128_to_int64_floor bid in
  if IsOperationInvalid flag then Ok (0, true) else Ok (int64Value, false).

Definition GetDecimal128FromInt64 (value : Z) : decimal128 := bid128_from_int64 value.

Definition IsDecimal128AFixedInteger (value : bson_value) : res bool :=
  match value with
  | VDecimal128 _ =>
    let* '(intval, isOverFlow) := Decimal128ToInt64Floor value in
    if isOverFlow : bool then Ok false
    else
      let* '(cmp, _) := CompareBsonDecimal128 value (VDecimal128 (GetDecimal128FromInt64 intval)) in
      Ok (cmp =? 0)
  | _ => Ok false
  end.

(** ** Conversion from other types *)

(** A decimal128 with coefficient 1 and the given exponent, on 64-bit words. *)
Definition quantum_word (exponent : Z) : decimal128 :=
  Dec128 (wrap_u 64 (Z.shiftl (wrap_u 64 (BID128_EXP_BIAS + exponent)) BID128_EXP_BITS_OFFSET)) 1.

Definition double_fabs (bits : Z) : Z := bits mod 2 ^ 63.

(** [(doubleVal == 0.0) ? 0 : (int) ceil(log10(fabs(doubleVal)))]. *)
Definition double_decimal_exponent (bits : Z) : Z :=
  if SFeqb (sf_of_bits bits) (S754_zero false) then 0
  else sf_to_int32 (sf_ceil (sf_of_bits (libm_log10 (double_fabs bits)))).

(** The quantization steps of the BSON_TYPE_DOUBLE case. *)
Definition quantize_double (bits : Z) (inexact : decimal128) : decimal128 :=
  let exp := double_decimal_exponent bits in
  let '(bidValue, _) :=
    bid128_quantize inexact (quantum_word (exp - 15)) Decimal128RoundingMode_Default in
  (* the unsigned low word is compared as a double with 1E15 - 1 *)
  if sf_gtb (binary_normalize 53 1024 (dec_low bidValue) 0 false)
            (binary_normalize 53 1024 999999999999999 0 false)
  then fst (bid128_quantize inexact (quantum_word (exp - 14)) Decimal128RoundingMode_Default)
  else bidValue.

Definition GetBsonValueAsDecimal128Core (value : bson_value) (shouldQuantizeDouble : bool)
  : res decimal128 :=
  if negb (BsonValueIsNumberOrBool value) && negb (type_eqb (value_type value) BSON_TYPE_DATE_TIME)
  then Err ERRCODE_INTERNAL_ERROR
  else
    match value with
    | VInt32 z => Ok (bid128_from_int32 z)
    | VInt64 z => Ok (bid128_from_int64 z)
    | VBool b =>
      Ok (Dec128 (wrap_u 64 (Z.shiftl BID128_EXP_BIAS BID128_EXP_BITS_OFFSET)) (b2z b))
    | VDouble bits =>
      let '(bid128Inexact, _) := binary64_to_bid128 bits Decimal128RoundingMode_Default in
      if bid128_isInf bid128Inexact || bid128_isNaN bid128Inexact || negb shouldQuantizeDouble
      then Ok bid128Inexact
      else Ok (quantize_double bits bid128Inexact)
    | VDateTime z => Ok (bid128_from_int64 z)
    | VDecimal128 d => Ok d
    | VUtf8 s => Ok (bson_decimal128_from_string s)
    | _ => Err ERRCODE_DOCUMENTDB_BADVALUE
    end.

Definition GetBsonValueAsDecimal128Quantized (value : bson_value) : res decimal128 :=
  GetBsonValueAsDecimal128Core value true.

Definition GetBsonValueAsDecimal128 (value : bson_value) : res decimal128 :=
  GetBsonValueAsDecimal128Core value false.

(** ** Mathematics *)

Definition GetDecimal128ResultFromFlag (flag : Z) : Decimal128Result :=
  let flag :=
    if negb (Z.land flag BID_INEXACT_EXCEPTION =? 0) && negb (Z.lxor flag BID_INEXACT_EXCEPTION =? 0)
    then Z.land flag (wrap_u 32 (Z.lnot BID_INEXACT_EXCEPTION)) else flag in
  if flag =? 0 then Decimal128Result_Success
  else if flag =? BID_INVALID_EXCEPTION then Decimal128Result_Invalid
  else if flag =? BID_INEXACT_EXCEPTION then Decimal128Result_Inexact
  else if flag =? BID_OVERFLOW_EXCEPTION then Decimal128Result_Overflow
  else if flag =? BID_UNDERFLOW_EXCEPTION then Decimal128Result_Underflow
  else if flag =? BID_ZERO_DIVIDE_EXCEPTION then Decimal128Result_DivideByZero
  else if flag =? BID_DENORMAL_EXCEPTION then Decimal128Result_Denormal
  else Decimal128Result_Unknown.

(** Each of the operations returns the value stored in [result] and the result code. *)
Definition math_outcome (r : decimal128 * Z) : bson_value * Decimal128Result :=
  (VDecimal128 (fst r), GetDecimal128ResultFromFlag (snd r)).

(** [powerBid + 0] accumulates the flags of both calls. *)
Definition bid_pow_normalized (x y : decimal128) : decimal128 * Z :=
  let '(powerBid, f1) := bid_call2 bid128_pow x y Decimal128RoundingMode_Downward in
  let '(z, f2) := bid_call2 bid128_add powerBid (Dec128 0 0) Decimal128RoundingMode_NearestEven in
  (z, Z.lor f1 f2).

Definition Decimal128MathematicalOperation2Operands (x y : bson_value)
  (operation : Decimal128MathOperation) : res (bson_value * Decimal128Result) :=
  let* xBid := GetBIDUINT128FromBsonValue x in
  let* yBid := GetBIDUINT128FromBsonValue y in
  let rne := Decimal128RoundingMode_NearestEven in
  match operation with
  | Decimal128MathOperation_Add => Ok (math_outcome (bid_call2 bid128_add xBid yBid rne))
  | Decimal128MathOperation_Subtract => Ok (math_outcome (bid_call2 bid128_sub xBid yBid rne))
  | Decimal128MathOperation_Multiply => Ok (math_outcome (bid_call2 bid128_mul xBid yBid rne))
  | Decimal128MathOperation_Divide => Ok (math_outcome (bid_call2 bid128_div xBid yBid rne))
  | Decimal128MathOperation_Mod => Ok (math_outcome (bid128_fmod xBid yBid))
  | Decimal128MathOperation_Log =>
    let '(log10NumberBid, _) := bid_call bid128_log10 xBid rne in
    let '(log10BaseBid, _) := bid_call bid128_log10 yBid rne in
    Ok (math_outcome (bid_call2 bid128_div log10NumberBid log10BaseBid rne))
  | Decimal128MathOperation_Pow => Ok (math_outcome (bid_pow_normalized xBid yBid))
  | Decimal128MathOperation_Atan2 => Ok (math_outcome (bid_call2 bid128_atan2 xBid yBid rne))
  | _ => Err ERRCODE_INTERNAL_ERROR
  end.

(** The library function of a one-operand operation, where it is a plain call. *)
Definition bid_function_of (operation : Decimal128MathOperation) : option bid_function :=
  match operation with
  | Decimal128MathOperation_Exp => Some bid128_exp
  | Decimal128MathOperation_Sqrt => Some bid128_sqrt
  | Decimal128MathOperation_Log10 => Some bid128_log10
  | Decimal128MathOperation_NaturalLogarithm => Some bid128_log
  | Decimal128MathOperation_Sin => Some bid128_sin
  | Decimal128MathOperation_Cos => Some bid128_cos
  | Decimal128MathOperation_Tan => Some bid128_tan
  | Decimal128MathOperation_Sinh => Some bid128_sinh
  | Decimal128MathOperation_Cosh => Some bid128_cosh
  | Decimal128MathOperation_Tanh => Some bid128_tanh
  | Decimal128MathOperation_Asin => Some bid128_asin
  | Decimal128MathOperation_Acos => Some bid128_acos
  | Decimal128MathOperation_Atan => Some bid128_atan
  | Decimal128MathOperation_Asinh => Some bid128_asinh
  | Decimal128MathOperation_Acosh => Some bid128_acosh
  | Decimal128MathOperation_Atanh => Some bid128_atanh
  | _ => None
  end.

Definition Decimal128MathematicalOperation1Operand (value : bson_value)
  (operation : Decimal128MathOperation) : res (bson_value * Decimal128Result) :=
  let* valueBid := GetBIDUINT128FromBsonValue value in
  match operation with
  | Decimal128MathOperation_Ceil => Ok (math_outcome (bid128_round_integral_positive valueBid))
  | Decimal128MathOperation_Floor => Ok (math_outcome (bid128_round_integral_negative valueBid))
  | Decimal128MathOperation_Abs => Ok (math_outcome (bid128_abs valueBid, 0))
  | _ =>
    match bid_function_of operation with
    | Some f => Ok (math_outcome (bid_call f valueBid Decimal128RoundingMode_NearestEven))
    | None => Err ERRCODE_INTERNAL_ERROR
    end
  end.

Definition RoundOrTruncateDecimal128Number (number : bson_value) (precision : Z)
  (operation : Decimal128MathOperation) : res (bson_value * Decimal128Result) :=
  let* numberBid := GetBIDUINT128FromBsonValue number in
  let roundMode := match operation with
                   | Decimal128MathOperation_Round => Decimal128RoundingMode_NearestEven
                   | _ => Decimal128RoundingMode_TowardZero
                   end in
  if bid128_isInf numberBid || bid128_isNaN numberBid then Ok (math_outcome (numberBid, 0))
  else if precision =? 0 then
    Ok (math_outcome (bid128_round_integral_exact numberBid roundMode))
  else
    let precision :=
      if negb (bid128_isZero numberBid) then
        let '(log10Bid, _) := bid_call bid128_log10 (bid128_abs numberBid)
                                Decimal128RoundingMode_NearestEven in
        let '(exp, _) := bid128_to_int32_xceil log10Bid in
        if wrap_s 64 (exp + precision) >? 34 then 34 - exp else precision
      else precision in
    Ok (math_outcome (bid128_quantize numberBid (quantum_word (- precision)) roundMode)).

(** ** The exported operations *)

Definition CeilDecimal128Number (value : bson_value) :=
  Decimal128MathematicalOperation1Operand value Decimal128MathOperation_Ceil.
Definition FloorDecimal128Number (value : bson_value) :=
  Decimal128MathematicalOperation1Operand value Decimal128MathOperation_Floor.
Definition EulerExpDecimal128 (value : bson_value) :=
  Decimal128MathematicalOperation1Operand value Decimal128MathOperation_Exp.
Definition SqrtDecimal128Number (value : bson_value) :=
  Decimal128MathematicalOperation1Operand value Decimal128MathOperation_Sqrt.
Definition AbsDecimal128Number (value : bson_value) :=
  Decimal128MathematicalOperation1Operand value Decimal128MathOperation_Abs.
Definition Log10Decimal128Number (value : bson_value) :=
  Decimal128MathematicalOperation1Operand value Decimal128MathOperation_Log10.
Definition NaturalLogarithmDecimal128Number (value : bson_value) :=
  Decimal128MathematicalOperation1Operand value Decimal128MathOperation_NaturalLogarithm.
Definition AcosDecimal128Number (value : bson_value) :=
  Decimal128MathematicalOperation1Operand value Decimal128MathOperation_Acos.
Definition AcoshDecimal128Number (value : bson_value) :=
  Decimal128MathematicalOperation1Operand value Decimal128MathOperation_Acosh.
Definition AsinDecimal128Number (value : bson_value) :=
  Decimal128MathematicalOperation1Operand value Decimal128MathOperation_Asin.
Definition AsinhDecimal128Number (value : bson_value) :=
  Decimal128MathematicalOperation1Operand value Decimal128MathOperation_Asinh.
Definition AtanDecimal128Number (value : bson_value) :=
  Decimal128MathematicalOperation1Operand value Decimal128MathOperation_Atan.
Definition AtanhDecimal128Number (value : bson_value) :=
  Decimal128MathematicalOperation1Operand value Decimal128MathOperation_Atanh.
Definition CosDecimal128Number (value : bson_value) :=
  Decimal128MathematicalOperation1Operand value Decimal128MathOperation_Cos.
Definition CoshDecimal128Number (value : bson_value) :=
  Decimal128MathematicalOperation1Operand value Decimal128MathOperation_Cosh.
Definition SinDecimal128Number (value : bson_value) :=
  Decimal128MathematicalOperation1Operand value Decimal128MathOperation_Sin.
Definition SinhDecimal128Number (value : bson_value) :=
  Decimal128MathematicalOperation1Operand value Decimal128MathOperation_Sinh.
Definition TanDecimal128Number (value : bson_value) :=
  Decimal128MathematicalOperation1Operand value Decimal128MathOperation_Tan.
Definition TanhDecimal128Number (value : bson_value) :=
  Decimal128MathematicalOperation1Operand value Decimal128MathOperation_Tanh.
Definition LogDecimal128Number (x y : bson_value) :=
  Decimal128MathematicalOperation2Operands x y Decimal128MathOperation_Log.
Definition PowDecimal128Number (x y : bson_value) :=
  Decimal128MathematicalOperation2Operands x y Decimal128MathOperation_Pow.
Definition MultiplyDecimal128Numbers (x y : bson_value) :=
  Decimal128MathematicalOperation2Operands x y Decimal128MathOperation_Multiply.
Definition AddDecimal128Numbers (x y : bson_value) :=
  Decimal128MathematicalOperation2Operands x y Decimal128MathOperation_Add.
Definition SubtractDecimal128Numbers (x y : bson_value) :=
  Decimal128MathematicalOperation2Operands x y Decimal128MathOperation_Subtract.
Definition DivideDecimal128Numbers (x y : bson_value) :=
  Decimal128MathematicalOperation2Operands x y Decimal128MathOperation_Divide.
Definition ModDecimal128Numbers (x y : bson_value) :=
  Decimal128MathematicalOperation2Operands x y Decimal128MathOperation_Mod.
Definition Atan2Decimal128Numbers (x y : bson_value) :=
  Decimal128MathematicalOperation2Operands x y Decimal128MathOperation_Atan2.
Definition RoundDecimal128Number (number : bson_value) (precision : Z) :=
  RoundOrTruncateDecimal128Number number precision Decimal128MathOperation_Round.
Definition TruncDecimal128Number (number : bson_value) (precision : Z) :=
  RoundOrTruncateDecimal128Number number precision Decimal128MathOperation_Trunc.

End Operations.

(** ** The value of a decimal128

    IEEE 754 decimal128 in the binary-integer-decimal encoding: a sign bit, a
    14-bit biased exponent and a coefficient below 10^34; larger coefficients
    and the other large-form encodings denote zero. *)

Definition dec_sign (d : decimal128) : bool := Z.testbit (dec_high d) 63.

Definition dec_ext (d : decimal128) : ext :=
  let h := dec_high d in
  if Z.land h NAN_MASK64 =? NAN_MASK64 then ENaN
  else if Z.land h INFINITY_MASK64 =? INFINITY_MASK64 then
    (if dec_sign d then ENegInf else EPosInf)
  else if Z.land h 0x6000000000000000 =? 0x6000000000000000 then EFin 0
  else
    let c := (h mod 2 ^ 49) * 2 ^ 64 + dec_low d in
    let e := (h / 2 ^ 49) mod 2 ^ 14 - BID128_EXP_BIAS in
    if c <? 10 ^ 34 then EFin (qscale 10 (cond_Zopp (dec_sign d) c) e) else EFin 0.

Definition no_invalid (flags : Z) : Prop := IsOperationInvalid flags = false.

(** Truncation of a rational toward zero. *)
Definition Qtrunc (q : Q) : Z := Z.quot (Qnum q) (Zpos (Qden q)).

(** A conversion to an integer type succeeds exactly on the values that fit. *)
Definition converts_to (ok : Z -> Prop) (z : Z) (r : Z * Z) : Prop :=
  (ok z -> fst r = z /\ no_invalid (snd r)) /\ (~ ok z -> IsOperationInvalid (snd r) = true).

(** The documented behaviour of the library the extension relies on. *)
Class BidLaws (BL : BidLib) : Prop := {
  isNaN_law : forall x, decimal128_ok x -> bid128_isNaN x = is_ENaN (dec_ext x);
  isInf_law : forall x, decimal128_ok x ->
    bid128_isInf x = match dec_ext x with EPosInf | ENegInf => true | _ => false end;
  isFinite_law : forall x, decimal128_ok x ->
    bid128_isFinite x = match dec_ext x with EFin _ => true | _ => false end;
  isZero_law : forall x, decimal128_ok x ->
    bid128_isZero x = match dec_ext x with EFin q => Qeq_bool q 0 | _ => false end;
  quiet_equal_law : forall x y, decimal128_ok x -> decimal128_ok y ->
    dec_ext x <> ENaN -> dec_ext y <> ENaN ->
    fst (bid128_quiet_equal x y) = (ext_cmp (dec_ext x) (dec_ext y) =? 0) /\
    no_invalid (snd (bid128_quiet_equal x y));
  quiet_greater_law : forall x y, decimal128_ok x -> decimal128_ok y ->
    dec_ext x <> ENaN -> dec_ext y <> ENaN ->
    fst (bid128_quiet_greater x y) = (ext_cmp (dec_ext x) (dec_ext y) >? 0);
  from_int32_law : forall z, int32_ok z ->
    decimal128_ok (bid128_from_int32 z) /\ ext_eq (dec_ext (bid128_from_int32 z)) (EFin (inject_Z z));
  from_int64_law : forall z, int64_ok z ->
    decimal128_ok (bid128_from_int64 z) /\ ext_eq (dec_ext (bid128_from_int64 z)) (EFin (inject_Z z));
  to_int64_xint_law : forall x q, decimal128_ok x -> dec_ext x = EFin q ->
    converts_to int64_ok (Qtrunc q) (bid128_to_int64_xint x);
  to_int64_floor_law : forall x q, decimal128_ok x -> dec_ext x = EFin q ->
    converts_to int64_ok (Qfloor q) (bid128_to_int64_floor x);
  to_int64_floor_special : forall x, decimal128_ok x ->
    match dec_ext x with EFin _ => True | _ => IsOperationInvalid (snd (bid128_to_int64_floor x)) = true end;
  (* the nearest decimal with 34 digits: relative error at most 10^-33 *)
  binary64_law : forall b r, uint64_ok b ->
    let d := fst (binary64_to_bid128 b r) in
    decimal128_ok d /\
    match double_ext b, dec_ext d with
    | EFin p, EFin q => (Qabs (q - p) * inject_Z (10 ^ 33) <= Qabs p)%Q
    | x, y => x = y
    end;
  (* conversion of an integer of at most 34 digits is exact *)
  binary64_exact_law : forall b r n, uint64_ok b -> Z.abs n < 10 ^ 34 ->
    ext_eq (double_ext b) (EFin (inject_Z n)) ->
    ext_eq (dec_ext (fst (binary64_to_bid128 b r))) (EFin (inject_Z n))
}.

(** ** Consequences of the laws *)

Section Facts.
Context {BL : BidLib} {Laws : BidLaws BL}.

Lemma GetBID_dec d : GetBIDUINT128FromBsonValue (VDecimal128 d) = Ok d.
Proof. reflexivity. Qed.

Lemma ext_cmp_ENaN_l x : x <> ENaN -> ext_cmp ENaN x = -1.
Proof. now destruct x. Qed.

Lemma ext_cmp_ENaN_r x : x <> ENaN -> ext_cmp x ENaN = 1.
Proof. now destruct x. Qed.

Lemma ext_cmp_values x y : ext_cmp x y = -1 \/ ext_cmp x y = 0 \/ ext_cmp x y = 1.
Proof.
  destruct x, y; simpl; unfold cmpz; simpl; auto.
  destruct (qcmp_cases q q0) as [[-> _]|[[-> _]|[-> _]]]; auto.
Qed.

Lemma is_ENaN_iff x : is_ENaN x = true <-> x = ENaN.
Proof. now destruct x. Qed.

(** [CompareBsonDecimal128] is the order of the values, NaN first, and reports a
    valid comparison unless exactly one side is NaN. *)
Lemma CompareBsonDecimal128_ext l r : decimal128_ok l -> decimal128_ok r ->
  CompareBsonDecimal128 (VDecimal128 l) (VDecimal128 r) =
  Ok (ext_cmp (dec_ext l) (dec_ext r), eqb (is_ENaN (dec_ext l)) (is_ENaN (dec_ext r))).
Proof.
  intros Hl Hr. unfold CompareBsonDecimal128, BIDUINT128SignalingEqual, IsDecimal128NaN.
  rewrite !GetBID_dec, !res_bind_Ok, !isNaN_law by assumption.
  destruct (is_ENaN (dec_ext l)) eqn:El, (is_ENaN (dec_ext r)) eqn:Er; simpl.
  - apply is_ENaN_iff in El, Er. now rewrite El, Er.
  - apply is_ENaN_iff in El. rewrite El, ext_cmp_ENaN_l; [reflexivity|].
    intros E; now rewrite E in Er.
  - apply is_ENaN_iff in Er. rewrite Er, ext_cmp_ENaN_r; [reflexivity|].
    intros E; now rewrite E in El.
  - assert (Nl : dec_ext l <> ENaN) by (intros E; now rewrite E in El).
    assert (Nr : dec_ext r <> ENaN) by (intros E; now rewrite E in Er).
    destruct (quiet_equal_law l r Hl Hr Nl Nr) as [E1 F1].
    pose proof (quiet_greater_law l r Hl Hr Nl Nr) as E2.
    destruct (bid128_quiet_equal l r) as [eq f]. cbn [fst snd] in *. subst eq.
    replace (match f with 0 => 0 | _ => f end) with f by now destruct f.
    unfold no_invalid in F1. rewrite F1.
    destruct (bid128_quiet_greater l r) as [g fg]. cbn [fst] in E2. subst g.
    destruct (ext_cmp_values (dec_ext l) (dec_ext r)) as [E|[E|E]]; rewrite E; reflexivity.
Qed.

(** The value of an integer stored with exponent 0. *)
Lemma dec_ext_small b : ext_eq (dec_ext (Dec128 (wrap_u 64 (Z.shiftl BID128_EXP_BIAS BID128_EXP_BITS_OFFSET)) (b2z b)))
  (EFin (inject_Z (b2z b))).
Proof. destruct b; vm_compute; reflexivity. Qed.

End Facts.
