(* ===== verification/BsonCompare.v ===== *)
(** * Comparison of BSON values ([bson_compare.c])

    The conversions of numeric values, the type order, and the recursive
    comparison that backs every sort, range filter, unique check and btree
    operator class.  [CompareBsonValue] and [CompareBsonIter] call each other in
    the source; here [CompareBsonIter] takes the value comparison as argument.
    Results are the C [int] and, where the source has the out parameter,
    [isComparisonValid].  The stack-depth check is not modelled. *)

From Stdlib Require Import ZArith QArith Qround Qabs Lqa Lia Bool SpecFloat List.
From S2P Require Import Prelude SoftFloat BsonTypes Decimal128.
Import ListNotations.
Local Open Scope Z_scope.

(** ** Code outside the repository: libbson and ICU *)

Class LibBson : Type := {
  (* the elements bson_iter_next yields for the bytes of a document *)
  bson_decode : bytes -> fields;
  bson_oid_compare : bytes -> bytes -> Z;
  bson_oid_get_time_t : bytes -> Z;
  (* ucol_strcollUTF8 for a collation string: the result, or a failure status *)
  ucol_strcollUTF8 : bytes -> bytes -> bytes -> option Z
}.

Class LibBsonLaws (LB : LibBson) : Prop := {
  oid_compare_law : forall a b, length a = 12%nat -> length b = 12%nat ->
    same_sign (bson_oid_compare a b) (memcmp a b 12);
  (* ICU collation is a total preorder on strings, whose least element is empty *)
  strcoll_anti : forall c a b x y,
    ucol_strcollUTF8 c a b = Some x -> ucol_strcollUTF8 c b a = Some y -> anti2 x y;
  strcoll_trans : forall c a b d x y z,
    ucol_strcollUTF8 c a b = Some x -> ucol_strcollUTF8 c b d = Some y ->
    ucol_strcollUTF8 c a d = Some z -> trans3 x y z
}.

Section Compare.
Context {BL : BidLib} {LB : LibBson}.
Local Open Scope res_scope.

(** ** Numeric conversions *)

Definition BsonValueAsDoubleCore (value : bson_value) (quiet : bool) : res Z :=
  match value with
  | VBool b => Ok (double_of_int (b2z b))
  | VDouble bits => Ok bits
  | VInt32 z => Ok (double_of_int z)
  | VInt64 z => Ok (double_of_int z)
  | VDecimal128 _ =>
    if quiet then GetBsonDecimal128AsDoubleQuiet value else GetBsonDecimal128AsDouble value
  | VDateTime z => Ok (double_of_int z)
  | _ => Ok 0
  end.

Definition BsonValueAsDouble (value : bson_value) : res Z := BsonValueAsDoubleCore value false.
Definition BsonValueAsDoubleQuiet (value : bson_value) : res Z := BsonValueAsDoubleCore value true.

Definition IsBsonValue64BitIntegerCore (value : bson_value)
  (checkFixedInteger quantizeDoubleValue : bool) : res bool :=
  match value with
  | VInt32 _ | VInt64 _ => Ok true
  | VDouble _ =>
    let* d := (if quantizeDoubleValue then GetBsonValueAsDecimal128Quantized value
               else GetBsonValueAsDecimal128 value) in
    let dec128Val := VDecimal128 d in
    let* inRange := IsDecimal128InInt64Range dec128Val in
    if inRange then
      (if negb checkFixedInteger then Ok true else IsDecimal128AFixedInteger dec128Val)
    else Ok false
  | VDecimal128 _ =>
    let* inRange := IsDecimal128InInt64Range value in
    if inRange then
      (if negb checkFixedInteger then Ok true else IsDecimal128AFixedInteger value)
    else Ok false
  | _ => Ok false
  end.

Definition IsBsonValue64BitInteger (value : bson_value) (checkFixedInteger : bool) : res bool :=
  IsBsonValue64BitIntegerCore value checkFixedInteger true.

Definition IsBsonValueUnquantized64BitInteger (value : bson_value) (checkFixedInteger : bool) : res bool :=
  IsBsonValue64BitIntegerCore value checkFixedInteger false.

Definition IsBsonValue32BitInteger (value : bson_value) (checkFixedInteger : bool) : res bool :=
  match value with
  | VInt32 _ => Ok true
  | VDouble bits =>
    let doubleVal := sf_of_bits bits in
    Ok (SFleb doubleVal (binary_normalize 53 1024 INT32_MAX 0 false) &&
        SFleb (binary_normalize 53 1024 INT32_MIN 0 false) doubleVal &&
        (negb checkFixedInteger || SFeqb (sf_floor doubleVal) doubleVal))
  | VInt64 z => Ok (wrap_s 32 z =? z)
  | VDecimal128 _ =>
    let* inRange := IsDecimal128InInt32Range value in
    if inRange then
      (if negb checkFixedInteger then Ok true else IsDecimal128AFixedInteger value)
    else Ok false
  | _ => Ok false
  end.

Definition BsonValueAsInt64WithRoundingMode (value : bson_value)
  (roundingMode : ConversionRoundingMode) (throwIfFailed : bool) : res Z :=
  let* _ :=
    (if throwIfFailed then
       if negb (BsonValueIsNumber value) then Err ERRCODE_DOCUMENTDB_LOCATION16004
       else
         let* fits := IsBsonValue64BitInteger value false in
         if negb fits then Err ERRCODE_DOCUMENTDB_LOCATION31109 else Ok tt
     else Ok tt) in
  match value with
  | VBool b => Ok (b2z b)
  | VDouble bits =>
    match roundingMode with
    | ConversionRoundingMode_NearestEven => Ok (sf_to_int64 (sf_round (sf_of_bits bits)))
    | _ => Ok (sf_to_int64 (sf_of_bits bits))
    end
  | VInt64 z => Ok z
  | VDateTime z => Ok z
  | VInt32 z => Ok z
  | VDecimal128 _ => GetBsonDecimal128AsInt64 value roundingMode
  | _ => Ok 0
  end.

Definition BsonValueAsInt64 (value : bson_value) : res Z :=
  BsonValueAsInt64WithRoundingMode value ConversionRoundingMode_Floor false.

Definition BsonValueAsInt32WithRoundingMode (value : bson_value)
  (roundingMode : ConversionRoundingMode) : res Z :=
  match value with
  | VBool b => Ok (b2z b)
  | VDouble bits =>
    match roundingMode with
    | ConversionRoundingMode_NearestEven => Ok (sf_to_int32 (sf_round (sf_of_bits bits)))
    | _ => Ok (sf_to_int32 (sf_of_bits bits))
    end
  | VInt64 z => Ok (wrap_s 32 z)
  | VInt32 z => Ok z
  | VDecimal128 _ => GetBsonDecimal128AsInt32 value roundingMode
  | _ => Ok 0
  end.

Definition BsonValueAsInt32 (value : bson_value) : res Z :=
  BsonValueAsInt32WithRoundingMode value ConversionRoundingMode_Floor.

Definition BsonValueAsBool (value : bson_value) : res bool :=
  match value with
  | VBool b => Ok b
  | VDouble bits => Ok (negb (SFeqb (sf_of_bits bits) (S754_zero false)))
  | VInt32 z => Ok (negb (z =? 0))
  | VInt64 z => Ok (negb (z =? 0))
  | VDecimal128 _ => let* z := IsDecimal128Zero value in Ok (negb z)
  | VNull | VEod | VUndefined => Ok false
  | _ => Ok true
  end.

Definition MillisecondsInSecond : Z := 1000.

Definition BsonValueAsDateTime (value : bson_value) : res Z :=
  match value with
  | VDateTime ms => Ok ms
  | VTimestamp timestamp _ => Ok (wrap_s 64 (timestamp * MillisecondsInSecond))
  | VOid oid => Ok (wrap_s 64 (bson_oid_get_time_t oid * MillisecondsInSecond))
  | _ => Err ERRCODE_DOCUMENTDB_LOCATION16006
  end.

Definition IsBsonValueFixedInteger (value : bson_value) : res bool :=
  match value with
  | VInt32 _ | VInt64 _ => Ok true
  | VDouble _ | VDecimal128 _ =>
    let* d := GetBsonValueAsDecimal128 value in
    IsDecimal128AFixedInteger (VDecimal128 d)
  | _ => Ok false
  end.

(** [high & (((int64) 1) << 63)] is computed on [uint64] and is positive when
    the sign bit is set. *)
Definition IsBsonValueNegativeNumber (value : bson_value) : bool :=
  if negb (BsonTypeIsNumber (value_type value)) then false
  else
    match value with
    | VInt32 z => z <? 0
    | VInt64 z => z <? 0
    | VDouble bits => SFltb (sf_of_bits bits) (S754_zero false)
    | VDecimal128 d => Z.land (dec_high d) (2 ^ 63) >? 0
    | _ => false
    end.

Definition IsBsonValueNaN (value : bson_value) : res bool :=
  match value with
  | VDecimal128 _ => IsDecimal128NaN value
  | VDouble _ => let* d := BsonValueAsDouble value in Ok (sf_isnan (sf_of_bits d))
  | _ => Ok false
  end.

Definition IsBsonValueInfinity (value : bson_value) : res Z :=
  match value with
  | VDecimal128 _ =>
    let* '(isInf, isPositive) := IsDecimal128Infinity value in
    Ok (if isInf : bool then (if isPositive : bool then 1 else -1) else 0)
  | VDouble _ =>
    let* d := BsonValueAsDouble value in
    Ok (if SFeqb (sf_of_bits d) (S754_infinity false) then 1
        else if SFeqb (sf_of_bits d) (S754_infinity true) then -1 else 0)
  | _ => Ok 0
  end.

(** ** Type order *)

Definition GetSortOrderType (type : bson_type_t) : Z :=
  match type with
  | BSON_TYPE_EOD | BSON_TYPE_MINKEY => 0x0
  | BSON_TYPE_UNDEFINED | BSON_TYPE_NULL => 0x1
  | BSON_TYPE_DOUBLE | BSON_TYPE_INT32 | BSON_TYPE_INT64 | BSON_TYPE_DECIMAL128 => 0x2
  | BSON_TYPE_UTF8 | BSON_TYPE_SYMBOL => 0x3
  | BSON_TYPE_DOCUMENT => 0x4
  | BSON_TYPE_ARRAY => 0x5
  | BSON_TYPE_BINARY => 0x6
  | BSON_TYPE_OID => 0x7
  | BSON_TYPE_BOOL => 0x8
  | BSON_TYPE_DATE_TIME => 0x9
  | BSON_TYPE_TIMESTAMP => 0xA
  | BSON_TYPE_REGEX => 0xB
  | BSON_TYPE_DBPOINTER => 0xC
  | BSON_TYPE_CODE => 0xD
  | BSON_TYPE_CODEWSCOPE => 0xE
  | BSON_TYPE_MAXKEY => 0xF
  end.

Definition CompareSortOrderType (left right : bson_type_t) : Z :=
  GetSortOrderType left - GetSortOrderType right.

Definition CompareBsonSortOrderType (left right : bson_value) : Z :=
  CompareSortOrderType (value_type left) (value_type right).

(** ** Strings *)

Definition StringCompareWithCollation (left right collation : bytes) : res Z :=
  match ucol_strcollUTF8 collation left right with
  | Some result => Ok result
  | None => Err ERRCODE_DOCUMENTDB_INTERNALERROR
  end.

Definition CompareStrings (left right : bytes) (collation : option bytes) : res Z :=
  let minLength := Nat.min (length left) (length right) in
  if Nat.eqb minLength 0 then Ok (wrap_s 32 (blen left - blen right))
  else
    let* cmp := match collation with
                | None => Ok (memcmp left right minLength)
                | Some c => StringCompareWithCollation left right c
                end in
    if negb (cmp =? 0) then Ok cmp else Ok (wrap_s 32 (blen left - blen right)).

(** ** Numbers *)

Definition BsonNumberAsLongDouble (value : bson_value) : res spec_float :=
  match value with
  | VBool b => Ok (ld_of_int (b2z b))
  | VDouble bits => Ok (ld_of_double bits)
  | VInt32 z => Ok (ld_of_int z)
  | VInt64 z => Ok (ld_of_int z)
  | VDecimal128 _ => GetBsonDecimal128AsLongDouble value
  | _ => Ok (S754_zero false)
  end.

Definition is_decimal (v : bson_value) : bool := type_eqb (value_type v) BSON_TYPE_DECIMAL128.
Definition is_double (v : bson_value) : bool := type_eqb (value_type v) BSON_TYPE_DOUBLE.

(** The [long double] branch of [CompareNumbers]. *)
Definition compare_long_doubles (leftVal rightVal : spec_float) : Z * bool :=
  if sf_isnan leftVal || sf_isnan rightVal then
    if sf_isnan leftVal && sf_isnan rightVal then (0, true)
    else if sf_isnan leftVal then (-1, false) else (1, false)
  else
    (if sf_gtb leftVal rightVal then 1 else if SFeqb leftVal rightVal then 0 else -1, true).

Definition CompareNumbers (left right : bson_value) : res (Z * bool) :=
  if is_decimal left || is_decimal right then
    let* leftDecimal := GetBsonValueAsDecimal128 left in
    let* rightDecimal := GetBsonValueAsDecimal128 right in
    CompareBsonDecimal128 (VDecimal128 leftDecimal) (VDecimal128 rightDecimal)
  else if is_double left || is_double right then
    let* leftVal := BsonNumberAsLongDouble left in
    let* rightVal := BsonNumberAsLongDouble right in
    Ok (compare_long_doubles leftVal rightVal)
  else
    let* leftVal := BsonValueAsInt64 left in
    let* rightVal := BsonValueAsInt64 right in
    Ok (cmpz leftVal rightVal, true).

(** ** Documents *)

Section Iter.
Variable CompareBsonValue : bson_value -> bson_value -> res (Z * bool).

Fixpoint CompareBsonIter (leftIter rightIter : fields) (compareFields : bool) : res Z :=
  match leftIter, rightIter with
  | [], [] => Ok 0
  | _ :: _, [] => Ok 1
  | [], _ :: _ => Ok (-1)
  | (leftKey, leftValue) :: leftIter', (rightKey, rightValue) :: rightIter' =>
    let leftKey := if compareFields then leftKey else [] in
    let rightKey := if compareFields then rightKey else [] in
    let cmp := CompareBsonSortOrderType leftValue rightValue in
    if negb (cmp =? 0) then Ok cmp
    else
      let* cmp := CompareStrings leftKey rightKey None in
      if negb (cmp =? 0) then Ok cmp
      else
        let* '(cmp, _) := CompareBsonValue leftValue rightValue in
        if negb (cmp =? 0) then Ok cmp
        else CompareBsonIter leftIter' rightIter' compareFields
  end.
End Iter.

(** The string payload of the types that share the layout of [v_utf8]. *)
Definition string_payload (v : bson_value) : bytes :=
  match v with VUtf8 s | VSymbol s | VCode s => s | _ => [] end.

(** [regex] comparison: [strcmp], with the NULL pointers ordered explicitly. *)
Definition compare_nullable_cstr (l r : option bytes) : Z :=
  match l, r with
  | Some l, Some r => strcmp l r
  | Some _, None => 1
  | None, _ => -1
  end.

Definition compare_regex (lr lo rr ro : option bytes) : Z :=
  match lr, rr with
  | Some l, Some r =>
    let cmp := strcmp l r in
    if negb (cmp =? 0) then cmp else compare_nullable_cstr lo ro
  | _, _ => compare_nullable_cstr lr rr
  end.

Definition compare_binary (lt : Z) (l : bytes) (rt : Z) (r : bytes) : Z :=
  if negb (blen l =? blen r) then wrap_s 32 (blen l - blen r)
  else if negb (lt =? rt) then lt - rt
  else memcmp l r (length l).

Definition compare_timestamp (lt li rt ri : Z) : Z :=
  if negb (lt =? rt) then (if lt >? rt then 1 else -1) else cmpz li ri.

Definition plain (r : res Z) : res (Z * bool) := let* cmp := r in Ok (cmp, true).

Fixpoint CompareBsonValue (collation : option bytes) (left right : bson_value) {struct left}
  : res (Z * bool) :=
  if negb (CompareBsonSortOrderType left right =? 0) then Err ERRCODE_INTERNAL_ERROR
  else
    match left, right with
    | (VEod | VMinKey | VUndefined | VNull | VMaxKey), _ => Ok (0, true)
    | (VDouble _ | VInt32 _ | VInt64 _ | VDecimal128 _ | VBool _), _ => CompareNumbers left right
    | (VUtf8 s | VSymbol s), _ => plain (CompareStrings s (string_payload right) collation)
    | VDocument l, VDocument r | VArray l, VArray r =>
      plain (CompareBsonIter (CompareBsonValue collation) l r true)
    | VBinary lt l, VBinary rt r => Ok (compare_binary lt l rt r, true)
    | VOid l, VOid r => Ok (bson_oid_compare l r, true)
    | VDateTime l, VDateTime r => Ok (cmpz l r, true)
    | VTimestamp lt li, VTimestamp rt ri => Ok (compare_timestamp lt li rt ri, true)
    | VRegex lr lo, VRegex rr ro => Ok (compare_regex lr lo rr ro, true)
    | VCode s, _ => plain (CompareStrings s (string_payload right) collation)
    | VCodeWScope lc l, VCodeWScope rc r =>
      let* cmp := CompareStrings lc rc collation in
      if negb (cmp =? 0) then Ok (cmp, true)
      else plain (CompareBsonIter (CompareBsonValue collation) l r true)
    | VDbPointer lc lo, VDbPointer rc ro =>
      let* cmp := CompareStrings lc rc collation in
      if negb (cmp =? 0) then Ok (cmp, true) else Ok (bson_oid_compare lo ro, true)
    | _, _ => Err ERRCODE_INTERNAL_ERROR
    end.

(** ** The exported comparisons *)

Definition CompareBsonValueAndTypeWithCollation (left right : bson_value)
  (collation : option bytes) : res (Z * bool) :=
  let cmp := CompareBsonSortOrderType left right in
  if negb (cmp =? 0) then Ok (cmp, true) else CompareBsonValue collation left right.

Definition CompareBsonValueAndType (left right : bson_value) : res (Z * bool) :=
  let cmp := CompareBsonSortOrderType left right in
  if negb (cmp =? 0) then Ok (cmp, true) else CompareBsonValue None left right.

Definition BsonValueEqualsWithCollation (left right : bson_value) (collation : option bytes) : res bool :=
  let* '(cmp, _) := CompareBsonValueAndTypeWithCollation left right collation in Ok (cmp =? 0).

Definition BsonValueEquals (left right : bson_value) : res bool :=
  let* '(cmp, _) := CompareBsonValueAndType left right in Ok (cmp =? 0).

(** Value pointers may be NULL. *)
Definition BsonValueEqualsStrictWithCollation (left right : option bson_value)
  (collation : option bytes) : res bool :=
  match left, right with
  | Some l, Some r =>
    if negb (type_eqb (value_type l) (value_type r)) then Ok false
    else
      let* '(cmp, isComparisonValid) := CompareBsonValue collation l r in
      Ok (isComparisonValid && (cmp =? 0))
  | None, None => Ok true
  | _, _ => Ok false
  end.

Definition BsonValueEqualsStrict (left right : option bson_value) : res bool :=
  match left, right with
  | Some l, Some r =>
    if negb (type_eqb (value_type l) (value_type r)) then Ok false
    else BsonValueEqualsStrictWithCollation left right None
  | None, None => Ok true
  | _, _ => Ok false
  end.

(** [PgbsonEquals] on two non-NULL documents, given as their serialized bytes. *)
Definition PgbsonEquals (left right : bytes) : bool :=
  (blen left =? blen right) && (memcmp left right (length left) =? 0).

Definition ComparePgbson (left right : bytes) : res Z :=
  if PgbsonEquals left right then Ok 0
  else CompareBsonIter (CompareBsonValue None) (bson_decode left) (bson_decode right) true.

(** [samePointer] is the outcome of [leftBson == rightBson] for non-NULL pointers. *)
Definition CompareNullablePgbson (samePointer : bool) (left right : option bytes) : res Z :=
  match left, right with
  | None, None => Ok 0
  | None, Some _ => Ok (-1)
  | Some _, None => Ok 1
  | Some l, Some r => if samePointer then Ok 0 else ComparePgbson l r
  end.

Definition extension_bson_compare := ComparePgbson.
Definition extension_bson_equal (l r : bytes) : res bool := let* c := ComparePgbson l r in Ok (c =? 0).
Definition extension_bson_not_equal (l r : bytes) : res bool := let* c := ComparePgbson l r in Ok (negb (c =? 0)).
Definition extension_bson_lt (l r : bytes) : res bool := let* c := ComparePgbson l r in Ok (c <? 0).
Definition extension_bson_lte (l r : bytes) : res bool := let* c := ComparePgbson l r in Ok (c <=? 0).
Definition extension_bson_gt (l r : bytes) : res bool := let* c := ComparePgbson l r in Ok (c >? 0).
Definition extension_bson_gte (l r : bytes) : res bool := let* c := ComparePgbson l r in Ok (c >=? 0).

End Compare.
