(* ===== verification/BsonOrder.v ===== *)
(** * The order of BSON values

    [CompareNumbers] compares through decimal128, [long double] or [int64]
    depending on the operand types.  [num_key] is one ordering key for all
    numeric values, and [CompareNumbers_key] shows that every branch computes
    the order of the keys; the recursive comparison is then shown to be a total
    preorder on well-formed values, with no error reachable. *)

From Stdlib Require Import ZArith QArith Qround Qabs Lqa Lia Bool SpecFloat List.
From S2P Require Import Prelude SoftFloat BsonTypes Decimal128 BsonCompare.
Import ListNotations.
Local Open Scope Z_scope.

Section Numbers.
Context {BL : BidLib} {Laws : BidLaws BL} {LB : LibBson}.

(** ** Exact values and keys *)

(** The exact value of a number (or of a boolean as 0 or 1). *)
Definition num_ext (v : bson_value) : ext :=
  match v with
  | VBool b => EFin (inject_Z (b2z b))
  | VInt32 z | VInt64 z => EFin (inject_Z z)
  | VDouble bits => double_ext bits
  | VDecimal128 d => dec_ext d
  | _ => ENaN
  end.

(** The key: the value after promotion to decimal128. *)
Definition num_key (v : bson_value) : ext :=
  match GetBsonValueAsDecimal128 v with Ok d => dec_ext d | Err _ => ENaN end.

Definition approx (x y : ext) : Prop :=
  match x, y with
  | EFin p, EFin q => (Qabs (q - p) * inject_Z (10 ^ 33) <= Qabs p)%Q
  | _, _ => x = y
  end.

Lemma approx_of_ext_eq x y : ext_eq y x -> approx x y.
Proof.
  unfold approx, ext_eq. destruct x as [| |p|], y as [| |q|]; try easy. intros E.
  assert (D : (q - p == 0)%Q) by lra. rewrite D.
  pose proof (Qabs_nonneg p). change (Qabs 0) with 0%Q. lra.
Qed.

Lemma num_conversion v : value_ok v -> BsonValueIsNumberOrBool v = true ->
  exists d, GetBsonValueAsDecimal128 v = Ok d /\ decimal128_ok d /\ approx (num_ext v) (dec_ext d).
Proof.
  intros Hv Hn. unfold GetBsonValueAsDecimal128, GetBsonValueAsDecimal128Core.
  rewrite Hn. cbn [negb andb].
  destruct v; try discriminate; cbn [num_ext].
  - pose proof (binary64_law bits Decimal128RoundingMode_Default Hv) as [Hd Ha].
    destruct (binary64_to_bid128 bits Decimal128RoundingMode_Default) as [d f].
    cbn [fst] in *. rewrite orb_true_r. exists d. repeat split; try apply Hd.
    unfold approx. destruct (double_ext bits), (dec_ext d); auto.
  - eexists; split; [reflexivity|]. split.
    + split; destruct b; vm_compute; split; congruence.
    + apply approx_of_ext_eq, dec_ext_small.
  - destruct (from_int32_law z Hv). eauto using approx_of_ext_eq.
  - destruct (from_int64_law z Hv). eauto using approx_of_ext_eq.
  - exists d. split; [reflexivity|]. split; [exact Hv|]. apply approx_of_ext_eq, ext_eq_refl.
Qed.

Lemma num_key_approx v : value_ok v -> BsonValueIsNumberOrBool v = true ->
  approx (num_ext v) (num_key v).
Proof.
  intros Hv Hn. destruct (num_conversion v Hv Hn) as (d & E & _ & A).
  unfold num_key. now rewrite E.
Qed.

(** ** The promotion to decimal128 preserves the order of the other types *)

(** Two different scaled 64-bit integers are far apart compared with their size. *)
Lemma scaled_gap_le m e n f p q :
  e <= f -> Z.abs m < 2 ^ 64 -> (p == qscale 2 m e)%Q -> (q == qscale 2 n f)%Q ->
  ~ (p == q)%Q -> (Qabs p <= Qabs (p - q) * inject_Z (2 ^ 64))%Q.
Proof.
  intros He Hm Hp Hq Hne. pose proof (qpow_pos 2 ltac:(lia) e) as P.
  set (k := m - n * 2 ^ (f - e)).
  assert (Eq : (q == qscale 2 (n * 2 ^ (f - e)) e)%Q).
  { rewrite Hq, qscale_shift by lia. now replace (e + (f - e)) with f by lia. }
  assert (Ed : (p - q == inject_Z k * inject_Z 2 ^ e)%Q).
  { rewrite Hp, Eq. replace k with (m + - (n * 2 ^ (f - e))) by (unfold k; lia).
    unfold qscale. rewrite inject_Z_plus, inject_Z_opp. ring. }
  assert (Kne : k <> 0).
  { intros K. apply Hne. rewrite K in Ed. change (inject_Z 0) with 0%Q in Ed. lra. }
  rewrite Ed, Hp. unfold qscale. rewrite !Qabs_Qmult.
  rewrite (Qabs_pos (inject_Z 2 ^ e)) by lra.
  change (Qabs (inject_Z m)) with (inject_Z (Z.abs m)).
  change (Qabs (inject_Z k)) with (inject_Z (Z.abs k)).
  assert (B : (inject_Z (Z.abs m) <= inject_Z (Z.abs k) * inject_Z (2 ^ 64))%Q).
  { rewrite <- inject_Z_mult, <- Zle_Qle. nia. }
  nra.
Qed.

Lemma scaled_gap m e n f p q :
  Z.abs m < 2 ^ 64 -> Z.abs n < 2 ^ 64 -> (p == qscale 2 m e)%Q -> (q == qscale 2 n f)%Q ->
  ~ (p == q)%Q ->
  (Qabs p <= Qabs (p - q) * inject_Z (2 ^ 65) /\ Qabs q <= Qabs (p - q) * inject_Z (2 ^ 65))%Q.
Proof.
  intros Hm Hn Hp Hq Hne.
  assert (C : inject_Z (2 ^ 65) == 2 * inject_Z (2 ^ 64)) by reflexivity.
  assert (T : (1 <= inject_Z (2 ^ 64))%Q) by (vm_compute; congruence).
  pose proof (Qabs_nonneg (p - q)) as D.
  assert (S1 : (Qabs q <= Qabs p + Qabs (p - q))%Q).
  { setoid_replace q with (p + - (p - q))%Q at 1 by ring.
    rewrite <- (Qabs_opp (p - q)). apply Qabs_triangle. }
  assert (S2 : (Qabs p <= Qabs q + Qabs (p - q))%Q).
  { setoid_replace p with (q + (p - q))%Q at 1 by ring. apply Qabs_triangle. }
  destruct (Z.le_ge_cases e f) as [L|L].
  - pose proof (scaled_gap_le m e n f p q L Hm Hp Hq Hne). rewrite C. split; nra.
  - assert (Hne' : ~ (q == p)%Q) by (intros E; apply Hne; now rewrite E).
    pose proof (scaled_gap_le n f m e q p L Hn Hq Hp Hne') as G.
    rewrite (Qabs_Qminus q p) in G. rewrite C. split; nra.
Qed.

(** A small relative perturbation of far-apart numbers keeps their order. *)
Lemma approx_lt p q p' q' :
  (p < q)%Q ->
  (Qabs p <= Qabs (p - q) * inject_Z (2 ^ 65))%Q -> (Qabs q <= Qabs (p - q) * inject_Z (2 ^ 65))%Q ->
  (Qabs (p' - p) * inject_Z (10 ^ 33) <= Qabs p)%Q ->
  (Qabs (q' - q) * inject_Z (10 ^ 33) <= Qabs q)%Q -> (p' < q')%Q.
Proof.
  intros H Gp Gq Ap Aq.
  assert (D : (Qabs (p - q) == q - p)%Q).
  { rewrite Qabs_neg by lra. ring. }
  rewrite D in *. pose proof (Qle_Qabs (p' - p)) as U1.
  pose proof (Qle_Qabs (- (q' - q))) as U2. rewrite Qabs_opp in U2.
  change (inject_Z (10 ^ 33)) with (1000000000000000000000000000000000 # 1)%Q in *.
  change (inject_Z (2 ^ 65)) with (36893488147419103232 # 1)%Q in *.
  lra.
Qed.

Lemma approx_order p q p' q' m e n f :
  Z.abs m < 2 ^ 64 -> Z.abs n < 2 ^ 64 -> (p == qscale 2 m e)%Q -> (q == qscale 2 n f)%Q ->
  (Qabs (p' - p) * inject_Z (10 ^ 33) <= Qabs p)%Q ->
  (Qabs (q' - q) * inject_Z (10 ^ 33) <= Qabs q)%Q ->
  ((p == q)%Q -> (p' == q')%Q) -> qcmp p q = qcmp p' q'.
Proof.
  intros Hm Hn Hp Hq Ap Aq He.
  destruct (qcmp_cases p q) as [[-> H]|[[-> H]|[-> H]]].
  - destruct (scaled_gap m e n f p q) as [G1 G2]; auto; [intros E; lra|].
    pose proof (approx_lt p q p' q' H G1 G2 Ap Aq) as L.
    destruct (qcmp_cases p' q') as [[-> K]|[[-> K]|[-> K]]]; auto; lra.
  - specialize (He H). destruct (qcmp_cases p' q') as [[-> K]|[[-> K]|[-> K]]]; auto; lra.
  - destruct (scaled_gap n f m e q p) as [G1 G2]; auto; [intros E; lra|].
    pose proof (approx_lt q p q' p' H G1 G2 Aq Ap) as L.
    destruct (qcmp_cases p' q') as [[-> K]|[[-> K]|[-> K]]]; auto; lra.
Qed.

Lemma ext_eq_sym x y : ext_eq x y -> ext_eq y x.
Proof. destruct x, y; simpl; easy. Qed.

Lemma ext_eq_trans x y z : ext_eq x y -> ext_eq y z -> ext_eq x z.
Proof. destruct x, y, z; simpl; try easy. intros H1 H2. now rewrite H1. Qed.

(** A value of an integral type, or a double that happens to be integral, has
    that integer as key. *)
Lemma num_key_integer v n : value_ok v -> BsonValueIsNumberOrBool v = true -> is_decimal v = false ->
  Z.abs n < 10 ^ 34 -> ext_eq (num_ext v) (EFin (inject_Z n)) ->
  ext_eq (num_key v) (EFin (inject_Z n)).
Proof.
  intros Hv Hn Hd Hb E. unfold num_key, GetBsonValueAsDecimal128, GetBsonValueAsDecimal128Core.
  rewrite Hn. cbn [negb andb].
  destruct v; try discriminate; cbn [num_ext] in E.
  - pose proof (binary64_exact_law bits Decimal128RoundingMode_Default n Hv Hb E) as X.
    destruct (binary64_to_bid128 _ _) as [d f]. rewrite orb_true_r. exact X.
  - eapply ext_eq_trans; [apply dec_ext_small|exact E].
  - eapply ext_eq_trans; [apply (from_int32_law z Hv)|exact E].
  - eapply ext_eq_trans; [apply (from_int64_law z Hv)|exact E].
Qed.

Lemma num_integral_cases v : value_ok v -> BsonValueIsNumberOrBool v = true -> is_decimal v = false ->
  (exists n, Z.abs n < 2 ^ 64 /\ num_ext v = EFin (inject_Z n)) \/ (exists bits, v = VDouble bits).
Proof.
  intros Hv Hn Hd. destruct v; try discriminate; cbn [num_ext value_ok] in *; eauto; left.
  - exists (b2z b). split; [destruct b; simpl; lia|reflexivity].
  - exists z. split; [zbounds; lia|reflexivity].
  - exists z. split; [zbounds; lia|reflexivity].
Qed.

Lemma num_key_eq l r :
  value_ok l -> BsonValueIsNumberOrBool l = true -> is_decimal l = false ->
  value_ok r -> BsonValueIsNumberOrBool r = true -> is_decimal r = false ->
  num_ext l <> ENaN -> ext_eq (num_ext l) (num_ext r) -> ext_eq (num_key l) (num_key r).
Proof.
  intros Hl Nl Dl Hr Nr Dr HN E.
  assert (I : forall n, Z.abs n < 2 ^ 64 -> ext_eq (num_ext l) (EFin (inject_Z n)) ->
              ext_eq (num_key l) (num_key r)).
  { intros n Hn X. eapply ext_eq_trans; [apply (num_key_integer l n); auto; lia|].
    apply ext_eq_sym, (num_key_integer r n); auto; try lia.
    eapply ext_eq_trans; [apply ext_eq_sym, E|exact X]. }
  destruct (num_integral_cases l Hl Nl Dl) as [(n & Hn & X)|(a & ->)].
  { apply (I n Hn). rewrite X. apply ext_eq_refl. }
  destruct (num_integral_cases r Hr Nr Dr) as [(n & Hn & X)|(b & ->)].
  { apply (I n Hn). rewrite <- X. exact E. }
  destruct (double_ext_inj a b Hl Hr HN E) as [->|[Z _]]; [apply ext_eq_refl|].
  apply (I 0); [lia|exact Z].
Qed.

Lemma num_scaled v q : value_ok v -> BsonValueIsNumberOrBool v = true -> is_decimal v = false ->
  num_ext v = EFin q -> exists m e, Z.abs m < 2 ^ 64 /\ (q == qscale 2 m e)%Q.
Proof.
  intros Hv Hn Hd E. destruct (num_integral_cases v Hv Hn Hd) as [(n & B & X)|(b & ->)].
  - rewrite X in E. injection E as <-. exists n, 0. split; [exact B|].
    unfold qscale. change (inject_Z 2 ^ 0)%Q with 1%Q. ring.
  - now apply double_ext_scaled in E.
Qed.

(** Promotion to decimal128 keeps the exact order of the other numeric types. *)
Lemma num_key_order l r :
  value_ok l -> BsonValueIsNumberOrBool l = true -> is_decimal l = false ->
  value_ok r -> BsonValueIsNumberOrBool r = true -> is_decimal r = false ->
  ext_cmp (num_ext l) (num_ext r) = ext_cmp (num_key l) (num_key r).
Proof.
  intros Hl Nl Dl Hr Nr Dr.
  pose proof (num_key_approx l Hl Nl) as Al. pose proof (num_key_approx r Hr Nr) as Ar.
  pose proof (num_key_eq l r Hl Nl Dl Hr Nr Dr) as He.
  pose proof (num_scaled l) as Sl. pose proof (num_scaled r) as Sr.
  destruct (num_ext l) as [| |p|], (num_key l) as [| |p'|]; try discriminate Al;
    destruct (num_ext r) as [| |q|], (num_key r) as [| |q'|]; try discriminate Ar; try reflexivity.
  destruct (Sl p) as (m & e & Bm & Em); auto. destruct (Sr q) as (n & f & Bn & En); auto.
  cbn [ext_cmp]. apply (approx_order p q p' q' m e n f Bm Bn Em En Al Ar).
  intros H. apply He; [discriminate|exact H].
Qed.

(** ** Every branch of [CompareNumbers] computes the order of the keys *)

Lemma num_long_double v : value_ok v -> BsonValueIsNumberOrBool v = true -> is_decimal v = false ->
  exists f, BsonNumberAsLongDouble v = Ok f /\ valid_binary 64 16384 f = true /\
    ext_eq (sf_ext f) (num_ext v).
Proof.
  intros Hv Hn Hd. destruct v; try discriminate; cbn [BsonNumberAsLongDouble num_ext value_ok] in *.
  - destruct (ld_of_double_exact bits). eauto.
  - destruct (ld_of_int_exact (b2z b)); [destruct b; zbounds; simpl; lia|]. eauto.
  - destruct (ld_of_int_exact z); [zbounds; lia|]. eauto.
  - destruct (ld_of_int_exact z Hv). eauto.
Qed.

Lemma sf_isnan_ext f : sf_isnan f = is_ENaN (sf_ext f).
Proof. now destruct f as [|[]| |]. Qed.

Lemma compare_long_doubles_ext f g :
  valid_binary 64 16384 f = true -> valid_binary 64 16384 g = true ->
  compare_long_doubles f g =
  (ext_cmp (sf_ext f) (sf_ext g), eqb (is_ENaN (sf_ext f)) (is_ENaN (sf_ext g))).
Proof.
  intros Vf Vg. unfold compare_long_doubles. rewrite !sf_isnan_ext.
  destruct (is_ENaN (sf_ext f)) eqn:Ef, (is_ENaN (sf_ext g)) eqn:Eg; cbn [orb andb eqb].
  - apply is_ENaN_iff in Ef, Eg. now rewrite Ef, Eg.
  - apply is_ENaN_iff in Ef. rewrite Ef, ext_cmp_ENaN_l; [reflexivity|].
    intros E; now rewrite E in Eg.
  - apply is_ENaN_iff in Eg. rewrite Eg, ext_cmp_ENaN_r; [reflexivity|].
    intros E; now rewrite E in Ef.
  - assert (Nf : f <> S754_nan) by (intros ->; discriminate).
    assert (Ng : g <> S754_nan) by (intros ->; discriminate).
    destruct (SFcompare_ext 64 16384 f g ltac:(lia) Vf Vg Nf Ng) as (c & Hc & Hx).
    destruct (SFcompare_ext 64 16384 g f ltac:(lia) Vg Vf Ng Nf) as (c' & Hc' & Hx').
    pose proof (anti2_ext_cmp (sf_ext f) (sf_ext g)) as A. unfold anti2 in A.
    unfold sf_gtb, SFltb, SFeqb. rewrite Hc, Hc', Hx in *. rewrite Hx' in A.
    destruct c, c'; simpl in A; try discriminate; reflexivity.
Qed.

Lemma num_int64 v : value_ok v -> BsonValueIsNumberOrBool v = true ->
  is_decimal v = false -> is_double v = false ->
  exists z, BsonValueAsInt64 v = Ok z /\ num_ext v = EFin (inject_Z z).
Proof.
  intros Hv Hn Hd Hf. destruct v; try discriminate; cbn; eauto.
Qed.

Lemma qcmp_inject a b : qcmp (inject_Z a) (inject_Z b) = cmpz a b.
Proof.
  assert (L : forall x y, (inject_Z x < inject_Z y)%Q -> x < y) by (intros x y H; now rewrite Zlt_Qlt).
  assert (E : forall x y, (inject_Z x == inject_Z y)%Q -> x = y) by (intros x y H; now apply inject_Z_injective).
  unfold cmpz. destruct (qcmp_cases (inject_Z a) (inject_Z b)) as [[-> H]|[[-> H]|[-> H]]];
    [apply L in H|apply E in H|apply L in H];
    destruct (Z.gtb_spec a b), (Z.eqb_spec a b); lia.
Qed.

Lemma approx_nan x y : approx x y -> is_ENaN x = is_ENaN y.
Proof. destruct x, y; simpl; easy. Qed.

Theorem CompareNumbers_key (l r : bson_value) :
  value_ok l -> value_ok r ->
  BsonValueIsNumberOrBool l = true -> BsonValueIsNumberOrBool r = true ->
  CompareNumbers l r =
  Ok (ext_cmp (num_key l) (num_key r), eqb (is_ENaN (num_key l)) (is_ENaN (num_key r))).
Proof.
  intros Hl Hr Nl Nr. unfold CompareNumbers.
  destruct (is_decimal l || is_decimal r) eqn:Ed.
  - destruct (num_conversion l Hl Nl) as (dl & El & Ol & _).
    destruct (num_conversion r Hr Nr) as (dr & Er & Or & _).
    unfold num_key. rewrite El, Er. cbn [res_bind].
    now apply CompareBsonDecimal128_ext.
  - apply orb_false_elim in Ed as [Dl Dr].
    rewrite <- (num_key_order l r), <- (approx_nan _ _ (num_key_approx l Hl Nl)),
      <- (approx_nan _ _ (num_key_approx r Hr Nr)) by assumption.
    destruct (is_double l || is_double r) eqn:Ef.
    + destruct (num_long_double l Hl Nl Dl) as (f & -> & Vf & Xf).
      destruct (num_long_double r Hr Nr Dr) as (g & -> & Vg & Xg).
      cbn [res_bind]. rewrite compare_long_doubles_ext by assumption.
      rewrite (ext_cmp_compat _ _ _ _ Xf Xg). f_equal. f_equal.
      f_equal; [destruct (sf_ext f), (num_ext l)|destruct (sf_ext g), (num_ext r)]; easy.
    + apply orb_false_elim in Ef as [Fl Fr].
      destruct (num_int64 l Hl Nl Dl Fl) as (zl & -> & ->).
      destruct (num_int64 r Hr Nr Dr Fr) as (zr & -> & ->).
      cbn [res_bind ext_cmp is_ENaN eqb]. now rewrite qcmp_inject.
Qed.

End Numbers.

(** ** The specified order *)

Section Order.
Context {BL : BidLib} {Laws : BidLaws BL} {LB : LibBson} {LBLaws : LibBsonLaws LB}.
Variable collation : option bytes.

(** Strings: bytes, or the collation's order refined by length. *)
Definition string_order (l r : bytes) : Z :=
  match collation with
  | None => cmp_bytes l r
  | Some c =>
    if Nat.eqb (Nat.min (length l) (length r)) 0 then blen l - blen r
    else lexz (match ucol_strcollUTF8 c l r with Some x => x | None => 0 end) (blen l - blen r)
  end.

Definition opt_order (l r : option bytes) : Z :=
  match l, r with
  | Some l, Some r => cmp_bytes l r
  | None, None => 0
  | None, Some _ => -1
  | Some _, None => 1
  end.

Section Fields.
Variable vorder : bson_value -> bson_value -> Z.

(** Documents: element by element, by type, then key, then value; a document
    that is a prefix of another one comes first. *)
Fixpoint fields_order (l r : fields) : Z :=
  match l, r with
  | [], [] => 0
  | [], _ :: _ => -1
  | _ :: _, [] => 1
  | (lk, lv) :: l', (rk, rv) :: r' =>
    lexz (CompareBsonSortOrderType lv rv)
      (lexz (cmp_bytes lk rk) (lexz (vorder lv rv) (fields_order l' r')))
  end.
End Fields.

(** Values: by type class, then by content. *)
Fixpoint value_order (l r : bson_value) {struct l} : Z :=
  lexz (CompareBsonSortOrderType l r)
    match l, r with
    | (VDouble _ | VInt32 _ | VInt64 _ | VDecimal128 _ | VBool _), _ =>
      ext_cmp (num_key l) (num_key r)
    | (VUtf8 s | VSymbol s | VCode s), _ => string_order s (string_payload r)
    | VDocument l, VDocument r | VArray l, VArray r => fields_order value_order l r
    | VBinary lt l, VBinary rt r => lexz (blen l - blen r) (lexz (lt - rt) (cmp_bytes l r))
    | VOid l, VOid r => cmp_bytes l r
    | VDateTime l, VDateTime r => cmpz l r
    | VTimestamp lt li, VTimestamp rt ri => lexz (cmpz lt rt) (cmpz li ri)
    | VRegex lr lo, VRegex rr ro => lexz (opt_order lr rr) (opt_order lo ro)
    | VCodeWScope lc l, VCodeWScope rc r => lexz (string_order lc rc) (fields_order value_order l r)
    | VDbPointer lc lo, VDbPointer rc ro => lexz (string_order lc rc) (cmp_bytes lo ro)
    | _, _ => 0
    end.

(** ICU compares any two strings in the collation at hand. *)
Definition collation_total : Prop :=
  forall c a b, collation = Some c -> ucol_strcollUTF8 c a b <> None.
Hypothesis total : collation_total.

Lemma trans3_string_order a b c :
  trans3 (string_order a b) (string_order b c) (string_order a c).
Proof.
  unfold string_order. destruct collation as [k|] eqn:Ek; [|auto with bson_db].
  assert (T : forall x y, exists z, ucol_strcollUTF8 k x y = Some z).
  { intros x y. pose proof (total k x y Ek). destruct (ucol_strcollUTF8 k x y); [eauto|easy]. }
  destruct (T a b) as [x Ex], (T b c) as [y Ey], (T a c) as [z Ez].
  rewrite Ex, Ey, Ez. pose proof (strcoll_trans k a b c x y z Ex Ey Ez) as S.
  assert (L : trans3 (lexz x (blen a - blen b)) (lexz y (blen b - blen c)) (lexz z (blen a - blen c))).
  { apply trans3_lexz; auto with bson_db. }
  unfold blen in *.
  destruct (Nat.eqb_spec (Nat.min (length a) (length b)) 0),
    (Nat.eqb_spec (Nat.min (length b) (length c)) 0),
    (Nat.eqb_spec (Nat.min (length a) (length c)) 0);
    try exact L; clear S L T Ex Ey Ez; unfold trans3; lia.
Qed.

Lemma anti2_string_order a b : anti2 (string_order a b) (string_order b a).
Proof.
  unfold string_order. destruct collation as [k|] eqn:Ek; [|auto with bson_db].
  pose proof (total k a b Ek). pose proof (total k b a Ek).
  destruct (ucol_strcollUTF8 k a b) as [x|] eqn:Ex; [|easy].
  destruct (ucol_strcollUTF8 k b a) as [y|] eqn:Ey; [|easy].
  pose proof (strcoll_anti k a b x y Ex Ey). rewrite Nat.min_comm.
  destruct (Nat.eqb_spec (Nat.min (length b) (length a)) 0); auto with bson_db.
  apply anti2_lexz; auto with bson_db.
Qed.

Lemma trans3_opt_order a b c : trans3 (opt_order a b) (opt_order b c) (opt_order a c).
Proof.
  destruct a, b, c; simpl; auto with bson_db; unfold trans3; try lia.
Qed.

Lemma anti2_opt_order a b : anti2 (opt_order a b) (opt_order b a).
Proof. destruct a, b; simpl; auto with bson_db; reflexivity. Qed.

Lemma opt_order_0 a b : opt_order a b = 0 -> a = b.
Proof.
  destruct a, b; simpl; try discriminate; [|reflexivity].
  intros E. apply cmp_bytes_0 in E. now subst.
Qed.

#[local] Hint Resolve trans3_string_order anti2_string_order trans3_opt_order anti2_opt_order
  trans3_lexz anti2_lexz : bson_db.

Lemma trans3_fields_order l :
  Forall (fun kv => forall b c, trans3 (value_order (snd kv) b) (value_order b c) (value_order (snd kv) c)) l ->
  forall m n, trans3 (fields_order value_order l m) (fields_order value_order m n)
                     (fields_order value_order l n).
Proof.
  induction 1 as [|[k v] l Hv _ IH]; intros [|[k1 v1] m] [|[k2 v2] n]; simpl;
    try (unfold trans3; lia).
  apply trans3_lexz; [apply trans3_sub|]. intros _ _ _. auto 7 with bson_db.
Qed.

Lemma anti2_fields_order l :
  Forall (fun kv => forall b, anti2 (value_order (snd kv) b) (value_order b (snd kv))) l ->
  forall m, anti2 (fields_order value_order l m) (fields_order value_order m l).
Proof.
  induction 1 as [|[k v] l Hv _ IH]; intros [|[k1 v1] m]; simpl; try reflexivity.
  apply anti2_lexz; [apply anti2_sub|]. intros _ _. auto 7 with bson_db.
Qed.

Theorem trans3_value_order a b c :
  trans3 (value_order a b) (value_order b c) (value_order a c).
Proof.
  revert b c. induction a using bson_value_nested_ind; intros b2 c2;
    destruct b2, c2; cbn [value_order];
    (apply trans3_lexz; [apply trans3_sub|]);
    unfold CompareBsonSortOrderType, CompareSortOrderType; cbn [value_type GetSortOrderType string_payload];
    try (intros; discriminate); intros _ _ _;
    auto using trans3_fields_order with bson_db.
Qed.

Theorem anti2_value_order a b : anti2 (value_order a b) (value_order b a).
Proof.
  revert b. induction a using bson_value_nested_ind; intros b2;
    destruct b2; cbn [value_order];
    (apply anti2_lexz; [apply anti2_sub|]);
    unfold CompareBsonSortOrderType, CompareSortOrderType; cbn [value_type GetSortOrderType string_payload];
    try (intros; discriminate); intros _ _;
    auto using anti2_fields_order with bson_db.
Qed.

End Order.
