(* ===== verification/RefBid.v ===== *)
(** * A reference instance of the code outside the repository

    The theorems on comparison are proved for every decimal library that
    satisfies [BidLaws] and every libbson/ICU that satisfies [LibBsonLaws].
    This file builds one instance of each and proves the laws, so that the
    hypotheses are known to be satisfiable and the theorems can be applied to
    concrete inputs.  Quantization and [log10] are
    executable as well; the transcendental functions and the conversions to
    binary formats are filled in arbitrarily and appear in no theorem about this
    instance. *)

From Stdlib Require Import ZArith QArith Qround Qabs Qpower Lqa Lia Bool SpecFloat List.
From S2P Require Import Prelude SoftFloat BsonTypes Decimal128 BsonCompare.
Import ListNotations.
Local Open Scope Z_scope.

(** ** Encoding a decimal *)

Definition bid_encode (s : bool) (c e : Z) : decimal128 :=
  Dec128 (sign_bit s + (e + BID128_EXP_BIAS) * 2 ^ 49 + c / 2 ^ 64) (c mod 2 ^ 64).

Lemma land_mask_bit h mask i : Z.land h mask = mask -> Z.testbit mask i = true ->
  Z.testbit h i = true.
Proof.
  intros E H. rewrite <- E, Z.land_spec in H. now apply andb_prop in H as [H _].
Qed.

Lemma two_top_bits s k : 0 <= k < 3 * 2 ^ 61 ->
  Z.testbit (sign_bit s + k) 61 = true -> Z.testbit (sign_bit s + k) 62 = true -> False.
Proof.
  intros Hk H1 H2. apply Z.testbit_true in H1; [|lia]. apply Z.testbit_true in H2; [|lia].
  change (2 ^ 61) with 2305843009213693952 in *. change (2 ^ 62) with 4611686018427387904 in *.
  assert (S : sign_bit s = 9223372036854775808 \/ sign_bit s = 0) by (destruct s; [now left|now right]).
  Z.div_mod_to_equations. lia.
Qed.

Lemma mask_differs s k mask : 0 <= k < 3 * 2 ^ 61 ->
  Z.testbit mask 61 = true -> Z.testbit mask 62 = true ->
  (Z.land (sign_bit s + k) mask =? mask) = false.
Proof.
  intros Hk H1 H2. apply Z.eqb_neq. intros E.
  eapply two_top_bits; eauto using land_mask_bit.
Qed.

Lemma bid_encode_ext s c e : 0 <= c < 10 ^ 34 -> -6176 <= e <= 6111 ->
  decimal128_ok (bid_encode s c e) /\
  dec_ext (bid_encode s c e) = EFin (qscale 10 (cond_Zopp s c) e).
Proof.
  intros Hc He. pose proof (Z.mod_pos_bound c (2 ^ 64) ltac:(lia)) as Hlo.
  assert (Hhi : 0 <= c / 2 ^ 64 < 2 ^ 49).
  { split; [apply Z.div_pos; lia|]. apply Z.div_lt_upper_bound; lia. }
  assert (Hk : 0 <= (e + BID128_EXP_BIAS) * 2 ^ 49 + c / 2 ^ 64 < 3 * 2 ^ 61).
  { unfold BID128_EXP_BIAS. lia. }
  assert (Hs : 0 <= sign_bit s <= 2 ^ 63) by (destruct s; simpl; lia).
  split.
  { split; cbn [bid_encode dec_high dec_low]; unfold uint64_ok; lia. }
  unfold dec_ext, dec_sign, bid_encode. cbn [dec_high dec_low]. rewrite <- Z.add_assoc.
  rewrite !mask_differs by (assumption || reflexivity).
  assert (Sb : Z.testbit (sign_bit s + ((e + BID128_EXP_BIAS) * 2 ^ 49 + c / 2 ^ 64)) 63 = s).
  { rewrite Z.testbit_eqb by lia. destruct s; unfold sign_bit.
    - replace (2 ^ 63 + _) with (((e + BID128_EXP_BIAS) * 2 ^ 49 + c / 2 ^ 64) + 1 * 2 ^ 63) by lia.
      rewrite Z.div_add, Z.div_small by lia. reflexivity.
    - rewrite Z.add_0_l, Z.div_small by lia. reflexivity. }
  rewrite Sb.
  assert (D : sign_bit s = b2z s * 2 ^ 14 * 2 ^ 49) by (destruct s; reflexivity).
  rewrite D.
  assert (M : (b2z s * 2 ^ 14 * 2 ^ 49 + ((e + BID128_EXP_BIAS) * 2 ^ 49 + c / 2 ^ 64)) mod 2 ^ 49 = c / 2 ^ 64).
  { rewrite Z.add_comm, Z.mod_add by lia. rewrite Z.add_comm, Z.mod_add by lia. now apply Z.mod_small. }
  assert (V : (b2z s * 2 ^ 14 * 2 ^ 49 + ((e + BID128_EXP_BIAS) * 2 ^ 49 + c / 2 ^ 64)) / 2 ^ 49 mod 2 ^ 14
              = e + BID128_EXP_BIAS).
  { replace (b2z s * 2 ^ 14 * 2 ^ 49 + ((e + BID128_EXP_BIAS) * 2 ^ 49 + c / 2 ^ 64))
      with (c / 2 ^ 64 + (e + BID128_EXP_BIAS + b2z s * 2 ^ 14) * 2 ^ 49) by lia.
    rewrite Z.div_add, (Z.div_small (c / 2 ^ 64)) by lia. rewrite Z.add_0_l, Z.mod_add by lia.
    apply Z.mod_small. unfold BID128_EXP_BIAS. lia. }
  rewrite M, V. replace (c / 2 ^ 64 * 2 ^ 64 + c mod 2 ^ 64) with c by (pose proof (Z.div_mod c (2 ^ 64)); lia).
  replace (c <? 10 ^ 34) with true by lia. now rewrite Z.add_simpl_r.
Qed.

(** ** From doubles *)

(** The magnitude [m * 2^e] as a fraction in units of [10^k]. *)
Definition scaled_num (m : positive) (e k : Z) : Z := Zpos m * 2 ^ Z.max e 0 * 10 ^ Z.max (- k) 0.
Definition scaled_den (e k : Z) : Z := 2 ^ Z.max (- e) 0 * 10 ^ Z.max k 0.

Definition fits34 (m : positive) (e k : Z) : bool := scaled_num m e k <? 10 ^ 34 * scaled_den e k.

(** The least exponent at which the integral part has at most 34 digits, between
    one at which it has more and one at which it has not. *)
Fixpoint find_exponent (n : nat) (m : positive) (e lo hi : Z) : Z :=
  match n with
  | O => hi
  | S n' =>
    let mid := (lo + hi) / 2 in
    if fits34 m e mid then find_exponent n' m e lo mid else find_exponent n' m e mid hi
  end.

Definition bid_of_sf (f : spec_float) : decimal128 :=
  match f with
  | S754_nan => SetDecimal128NaN
  | S754_infinity s => if s then SetDecimal128NegativeInfinity else SetDecimal128PositiveInfinity
  | S754_zero s => bid_encode s 0 0
  | S754_finite s m e =>
    if (scaled_num m e 0 mod scaled_den e 0 =? 0) && (scaled_num m e 0 / scaled_den e 0 <? 10 ^ 34)
    then bid_encode s (scaled_num m e 0 / scaled_den e 0) 0
    else
      let k := find_exponent 10 m e (-360) 301 in
      bid_encode s (scaled_num m e k / scaled_den e k) k
  end.

Lemma find_exponent_spec m e n : forall lo hi,
  fits34 m e lo = false -> fits34 m e hi = true -> hi - lo <= 2 ^ Z.of_nat n -> lo < hi ->
  let r := find_exponent n m e lo hi in
  fits34 m e r = true /\ fits34 m e (r - 1) = false /\ lo < r <= hi.
Proof.
  induction n as [|n IH]; intros lo hi Hl Hu D O; cbn [find_exponent].
  - change (2 ^ Z.of_nat 0) with 1 in D. replace (hi - 1) with lo by lia. repeat split; auto; lia.
  - rewrite Nat2Z.inj_succ, Z.pow_succ_r in D by lia. pose proof (Z.div_mod (lo + hi) 2 ltac:(lia)) as M.
    pose proof (Z.mod_pos_bound (lo + hi) 2 ltac:(lia)) as B.
    destruct (fits34 m e ((lo + hi) / 2)) eqn:E.
    + assert ((lo + hi) / 2 <> lo) by congruence.
      destruct (IH lo ((lo + hi) / 2)) as (H1 & H2 & H3); [assumption..|lia|lia|]. repeat split; auto; lia.
    + destruct (IH ((lo + hi) / 2) hi) as (H1 & H2 & H3); [assumption..|lia|lia|]. repeat split; auto; lia.
Qed.

Lemma scaled_den_pos e k : 0 < scaled_den e k.
Proof. unfold scaled_den. apply Z.mul_pos_pos; apply Z.pow_pos_nonneg; lia. Qed.

Lemma scaled_num_pos m e k : 0 < scaled_num m e k.
Proof. unfold scaled_num. repeat apply Z.mul_pos_pos; try apply Z.pow_pos_nonneg; lia. Qed.

Lemma fits34_div m e k : fits34 m e k = (scaled_num m e k / scaled_den e k <? 10 ^ 34).
Proof.
  unfold fits34. pose proof (scaled_den_pos e k) as Hd.
  pose proof (Z.div_mod (scaled_num m e k) (scaled_den e k)) as D.
  pose proof (Z.mod_pos_bound (scaled_num m e k) (scaled_den e k) Hd) as B.
  set (n := scaled_num m e k) in *. set (d := scaled_den e k) in *. clearbody n d.
  destruct (Z.ltb_spec (n / d) (10 ^ 34)), (Z.ltb_spec n (10 ^ 34 * d)); try reflexivity; exfalso; nia.
Qed.

(** One exponent less means one digit more. *)
Lemma not_fits_pred m e k : fits34 m e (k - 1) = false -> 10 ^ 33 * scaled_den e k <= scaled_num m e k.
Proof.
  unfold fits34. intros H%Z.ltb_ge. unfold scaled_num, scaled_den in *.
  destruct (Z_le_gt_dec k 0) as [L|L].
  - replace (Z.max (- (k - 1)) 0) with (Z.succ (Z.max (- k) 0)) in H by lia.
    rewrite Z.pow_succ_r in H by lia. replace (Z.max (k - 1) 0) with (Z.max k 0) in H by lia. lia.
  - replace (Z.max k 0) with (Z.succ (Z.max (k - 1) 0)) by lia. rewrite Z.pow_succ_r by lia.
    replace (Z.max (- (k - 1)) 0) with (Z.max (- k) 0) in H by lia. lia.
Qed.

Lemma fits34_bounds m e : Zpos m < 2 ^ 53 -> -1074 <= e <= 971 ->
  fits34 m e (-360) = false /\ fits34 m e 301 = true.
Proof.
  intros Hm He. unfold fits34, scaled_num, scaled_den.
  change (Z.max (- -360) 0) with 360. change (Z.max (-360) 0) with 0.
  change (Z.max (- (301)) 0) with 0. change (Z.max 301 0) with 301.
  rewrite !Z.pow_0_r, !Z.mul_1_r.
  assert (P1 : 1 <= 2 ^ Z.max e 0) by (apply (Z.pow_le_mono_r 2 0); lia).
  assert (P2 : 2 ^ Z.max e 0 <= 2 ^ 971) by (apply Z.pow_le_mono_r; lia).
  assert (P3 : 1 <= 2 ^ Z.max (- e) 0) by (apply (Z.pow_le_mono_r 2 0); lia).
  assert (P4 : 2 ^ Z.max (- e) 0 <= 2 ^ 1074) by (apply Z.pow_le_mono_r; lia).
  assert (C1 : 10 ^ 34 * 2 ^ 1074 <= 10 ^ 360) by (apply Z.leb_le; vm_compute; reflexivity).
  assert (C2 : 2 ^ 53 * 2 ^ 971 <= 10 ^ 34 * 10 ^ 301) by (apply Z.leb_le; vm_compute; reflexivity).
  split; [apply Z.ltb_ge|apply Z.ltb_lt].
  - transitivity (10 ^ 34 * 2 ^ 1074); [apply Z.mul_le_mono_nonneg_l; lia|].
    transitivity (10 ^ 360); [exact C1|].
    transitivity (1 * 10 ^ 360); [lia|]. apply Z.mul_le_mono_nonneg_r; [lia|nia].
  - apply Z.lt_le_trans with (2 ^ 53 * 2 ^ 971).
    + apply Z.lt_le_trans with (2 ^ 53 * 2 ^ Z.max e 0);
        [apply Z.mul_lt_mono_pos_r; lia|apply Z.mul_le_mono_nonneg_l; lia].
    + transitivity (10 ^ 34 * 10 ^ 301); [exact C2|].
      rewrite Z.mul_assoc. apply Z.mul_le_mono_nonneg_r; [lia|nia].
Qed.

Lemma qpow_max b e : 1 < b ->
  (inject_Z b ^ e * inject_Z (b ^ Z.max (- e) 0) == inject_Z (b ^ Z.max e 0))%Q.
Proof.
  intros Hb. rewrite <- !qpow_Z, <- qpow_plus by lia. now replace (e + Z.max (- e) 0) with (Z.max e 0) by lia.
Qed.

Lemma scaled_value m e k :
  (qscale 2 (Zpos m) e * inject_Z (scaled_den e k) == inject_Z (scaled_num m e k) * inject_Z 10 ^ k)%Q.
Proof.
  unfold qscale, scaled_den, scaled_num. rewrite !inject_Z_mult.
  pose proof (qpow_max 2 e ltac:(lia)) as E2. pose proof (qpow_max 10 k ltac:(lia)) as E10.
  rewrite <- E2, <- E10. ring.
Qed.

Lemma qscale_cond b s c e : (qscale b (cond_Zopp s c) e == if s then - qscale b c e else qscale b c e)%Q.
Proof. destruct s; [|reflexivity]. unfold qscale, cond_Zopp. rewrite inject_Z_opp. ring. Qed.

Lemma cancel_den d x y : 0 < d -> (x * inject_Z d <= y * inject_Z d)%Q -> (x <= y)%Q.
Proof.
  intros Hd H. apply Qmult_le_r with (inject_Z d); [|exact H].
  change 0%Q with (inject_Z 0). now rewrite <- Zlt_Qlt.
Qed.

(** The truncated coefficient is off by less than one unit. *)
Lemma truncated_error m e k s :
  let c := scaled_num m e k / scaled_den e k in
  let r := scaled_num m e k mod scaled_den e k in
  (Qabs (qscale 10 (cond_Zopp s c) k - qscale 2 (cond_Zopp s (Zpos m)) e) * inject_Z (scaled_den e k)
   == inject_Z r * inject_Z 10 ^ k)%Q.
Proof.
  intros c r. pose proof (scaled_den_pos e k) as Hd. pose proof (scaled_value m e k) as V.
  pose proof (Z.mod_pos_bound (scaled_num m e k) (scaled_den e k) Hd) as Br. fold r in Br.
  pose proof (Z.div_mod (scaled_num m e k) (scaled_den e k) ltac:(lia)) as D. fold c r in D.
  set (n := scaled_num m e k) in *. set (d := scaled_den e k) in *.
  pose proof (qpow_pos 10 ltac:(lia) k) as Pu.
  assert (E : ((qscale 2 (Zpos m) e - qscale 10 c k) * inject_Z d == inject_Z r * inject_Z 10 ^ k)%Q).
  { unfold Qminus. rewrite Qmult_plus_distr_l, V, D. unfold qscale. rewrite inject_Z_plus, inject_Z_mult. ring. }
  assert (P : (0 <= inject_Z r * inject_Z 10 ^ k)%Q).
  { apply Qmult_le_0_compat; [|lra]. change 0%Q with (inject_Z 0). rewrite <- Zle_Qle. lia. }
  rewrite <- (Qabs_pos _ P), <- E, Qabs_Qmult.
  assert (Pd : (0 <= inject_Z d)%Q) by (change 0%Q with (inject_Z 0); rewrite <- Zle_Qle; lia).
  rewrite (Qabs_pos (inject_Z d)) by exact Pd.
  apply Qmult_comp; [|reflexivity]. rewrite !qscale_cond. destruct s.
  - setoid_replace (- qscale 10 c k - - qscale 2 (Zpos m) e)%Q with (qscale 2 (Zpos m) e - qscale 10 c k)%Q by ring.
    reflexivity.
  - now rewrite Qabs_Qminus.
Qed.

Lemma magnitude m e k s :
  (Qabs (qscale 2 (cond_Zopp s (Zpos m)) e) * inject_Z (scaled_den e k)
   == inject_Z (scaled_num m e k) * inject_Z 10 ^ k)%Q.
Proof.
  rewrite <- scaled_value. apply Qmult_comp; [|reflexivity].
  pose proof (qscale_pos m e) as P. rewrite qscale_cond. destruct s.
  - rewrite Qabs_opp, Qabs_pos by lra. reflexivity.
  - rewrite Qabs_pos by lra. reflexivity.
Qed.

(** A coefficient of 34 digits, or no remainder, keeps the relative error below 10^-33. *)
Lemma relative_error m e k s :
  let c := scaled_num m e k / scaled_den e k in
  (scaled_num m e k mod scaled_den e k) * 10 ^ 33 <= scaled_num m e k ->
  (Qabs (qscale 10 (cond_Zopp s c) k - qscale 2 (cond_Zopp s (Zpos m)) e) * inject_Z (10 ^ 33)
   <= Qabs (qscale 2 (cond_Zopp s (Zpos m)) e))%Q.
Proof.
  intros c H. apply (cancel_den (scaled_den e k)); [apply scaled_den_pos|].
  rewrite magnitude. pose proof (truncated_error m e k s) as T. cbv zeta in T. fold c in T.
  setoid_replace (Qabs (qscale 10 (cond_Zopp s c) k - qscale 2 (cond_Zopp s (Zpos m)) e) *
    inject_Z (10 ^ 33) * inject_Z (scaled_den e k))%Q with
    ((Qabs (qscale 10 (cond_Zopp s c) k - qscale 2 (cond_Zopp s (Zpos m)) e) *
      inject_Z (scaled_den e k)) * inject_Z (10 ^ 33))%Q by ring.
  rewrite T. pose proof (qpow_pos 10 ltac:(lia) k) as Pu.
  set (r := scaled_num m e k mod scaled_den e k) in *.
  setoid_replace (inject_Z r * inject_Z 10 ^ k * inject_Z (10 ^ 33))%Q
    with (inject_Z (r * 10 ^ 33) * inject_Z 10 ^ k)%Q by (rewrite inject_Z_mult; ring).
  apply Qmult_le_compat_r; [|lra]. now rewrite <- Zle_Qle.
Qed.

Lemma exact_value m e k s :
  let c := scaled_num m e k / scaled_den e k in
  scaled_num m e k mod scaled_den e k = 0 ->
  (qscale 10 (cond_Zopp s c) k == qscale 2 (cond_Zopp s (Zpos m)) e)%Q.
Proof.
  intros c H. pose proof (truncated_error m e k s) as T. cbv zeta in T. fold c in T. rewrite H in T.
  setoid_replace (inject_Z 0 * inject_Z 10 ^ k)%Q with 0%Q in T by (change (inject_Z 0) with 0%Q; ring).
  apply Qmult_integral in T. destruct T as [T|T].
  - set (x := (qscale 10 (cond_Zopp s c) k - qscale 2 (cond_Zopp s (Z.pos m)) e)%Q) in *.
    assert (Z0 : (x == 0)%Q).
    { pose proof (Qle_Qabs x) as U. pose proof (Qle_Qabs (- x)) as L. rewrite Qabs_opp in L.
      rewrite T in U, L. lra. }
    unfold x in Z0. lra.
  - pose proof (scaled_den_pos e k) as P.
    apply (proj1 (inject_Z_injective (scaled_den e k) 0)) in T. lia.
Qed.

Definition double_range (f : spec_float) : Prop :=
  match f with S754_finite _ m e => Zpos m < 2 ^ 53 /\ -1074 <= e <= 971 | _ => True end.

Lemma sf_of_bits_range b : double_range (sf_of_bits b).
Proof.
  pose proof (sf_of_bits_valid b) as V. destruct (sf_of_bits b) as [| | |s m e]; simpl; auto.
  unfold valid_binary, bounded, canonical_mantissa, fexp, emin in V.
  apply andb_prop in V as [V1 V2]. apply Z.eqb_eq in V1. apply Z.leb_le in V2.
  pose proof (digits2_pos_bounds m) as [_ B].
  assert (Zpos (digits2_pos m) <= 53) by lia.
  assert (2 ^ Zpos (digits2_pos m) <= 2 ^ 53) by (apply Z.pow_le_mono_r; lia). lia.
Qed.

Lemma bid_of_sf_law f : double_range f ->
  decimal128_ok (bid_of_sf f) /\
  match sf_ext f, dec_ext (bid_of_sf f) with
  | EFin p, EFin q => (Qabs (q - p) * inject_Z (10 ^ 33) <= Qabs p)%Q
  | x, y => x = y
  end.
Proof.
  destruct f as [s|[]| |s m e]; cbn [bid_of_sf double_range sf_ext]; intros R.
  2-4: split; [split; vm_compute; split; congruence|reflexivity].
  - destruct (bid_encode_ext s 0 0) as [Ho ->]; [lia..|]. split; [exact Ho|].
    destruct s; vm_compute; congruence.
  - destruct R as [Hm He]. destruct (fits34_bounds m e Hm He) as [Fl Fu].
    destruct (_ && _) eqn:Ex.
    + apply andb_prop in Ex as [E1 E2]. apply Z.eqb_eq in E1. apply Z.ltb_lt in E2.
      pose proof (scaled_num_pos m e 0). pose proof (scaled_den_pos e 0).
      destruct (bid_encode_ext s (scaled_num m e 0 / scaled_den e 0) 0) as [Ho ->];
        [split; [apply Z.div_pos; lia|lia]|lia|].
      split; [exact Ho|]. apply relative_error. lia.
    + destruct (find_exponent_spec m e 10 (-360) 301) as (H1 & H2 & H3); [exact Fl|exact Fu|lia|lia|].
      set (k := find_exponent 10 m e (-360) 301) in *. clearbody k.
      pose proof (scaled_num_pos m e k). pose proof (scaled_den_pos e k).
      destruct (bid_encode_ext s (scaled_num m e k / scaled_den e k) k) as [Ho ->];
        [split; [apply Z.div_pos; lia|rewrite fits34_div in H1; now apply Z.ltb_lt]|lia|].
      split; [exact Ho|]. apply relative_error.
      apply not_fits_pred in H2. pose proof (Z.mod_pos_bound (scaled_num m e k) (scaled_den e k)). lia.
Qed.

(** An integral double has no remainder in units of 1. *)
Lemma integral_no_remainder s m e n : Z.abs n < 10 ^ 34 ->
  (qscale 2 (cond_Zopp s (Zpos m)) e == inject_Z n)%Q ->
  scaled_num m e 0 mod scaled_den e 0 = 0 /\ scaled_num m e 0 / scaled_den e 0 < 10 ^ 34.
Proof.
  intros Hn E. pose proof (magnitude m e 0 s) as M. rewrite E in M.
  change (inject_Z 10 ^ 0)%Q with 1%Q in M. rewrite Qmult_1_r in M.
  change (Qabs (inject_Z n)) with (inject_Z (Z.abs n)) in M.
  rewrite <- inject_Z_mult in M. apply (proj1 (inject_Z_injective _ _)) in M.
  rewrite <- M. pose proof (scaled_den_pos e 0). rewrite Z.mod_mul, Z.div_mul by lia. lia.
Qed.

Lemma bid_of_sf_exact f n : Z.abs n < 10 ^ 34 -> ext_eq (sf_ext f) (EFin (inject_Z n)) ->
  ext_eq (dec_ext (bid_of_sf f)) (EFin (inject_Z n)).
Proof.
  intros Hn. destruct f as [s|[]| |s m e]; cbn [bid_of_sf sf_ext]; try easy.
  - intros E. destruct (bid_encode_ext s 0 0) as [_ ->]; [lia..|].
    cbn [ext_eq] in *. rewrite <- E. destruct s; reflexivity.
  - intros E. destruct (integral_no_remainder s m e n Hn E) as [E1 E2].
    rewrite E1. replace (_ <? _) with true by lia. cbn [Z.eqb andb].
    pose proof (scaled_num_pos m e 0). pose proof (scaled_den_pos e 0).
    destruct (bid_encode_ext s (scaled_num m e 0 / scaled_den e 0) 0) as [_ ->];
      [split; [apply Z.div_pos; lia|lia]|lia|].
    cbn [ext_eq] in *. rewrite <- E. now apply exact_value.
Qed.

Definition bid_of_int (z : Z) : decimal128 := bid_encode (z <? 0) (Z.abs z) 0.

Lemma bid_of_int_ext z : int64_ok z ->
  decimal128_ok (bid_of_int z) /\ ext_eq (dec_ext (bid_of_int z)) (EFin (inject_Z z)).
Proof.
  intros H. destruct (bid_encode_ext (z <? 0) (Z.abs z) 0) as [Ho E]; [zbounds; lia|lia|].
  split; [exact Ho|]. unfold bid_of_int. rewrite E. cbn [ext_eq]. unfold qscale.
  change (inject_Z 10 ^ 0)%Q with 1%Q. rewrite Qmult_1_r.
  replace (cond_Zopp (z <? 0) (Z.abs z)) with z; [reflexivity|].
  destruct (Z.ltb_spec z 0); simpl; lia.
Qed.

(** ** The instance *)

Definition to_int (min max : Z) (round : Q -> Z) (d : decimal128) : Z * Z :=
  match dec_ext d with
  | EFin q => let z := round q in if (min <=? z) && (z <=? max) then (z, 0) else (min, 1)
  | _ => (min, 1)
  end.

(** Quantization: the value at the exponent of the second operand, ties to even. *)
Definition round_half_even (n d : Z) : Z :=
  let q := n / d in
  match 2 * (n mod d) ?= d with
  | Lt => q
  | Gt => q + 1
  | Eq => if Z.even q then q else q + 1
  end.

Definition bid_exponent (d : decimal128) : Z := (dec_high d / 2 ^ 49) mod 2 ^ 14 - BID128_EXP_BIAS.
Definition bid_coefficient (d : decimal128) : Z := (dec_high d mod 2 ^ 49) * 2 ^ 64 + dec_low d.

Definition bid_quantize (x y : decimal128) : decimal128 :=
  let e := bid_exponent y in
  let k := bid_exponent x - e in
  let c := if 0 <=? k then bid_coefficient x * 10 ^ k
           else round_half_even (bid_coefficient x) (10 ^ (- k)) in
  if c <? 10 ^ 34 then bid_encode (dec_sign x) c e else SetDecimal128NaN.

(** The logarithm rounded up to an integer, which is all the callers use of it. *)
Fixpoint least_power (n : nat) (m : positive) (e k : Z) : Z :=
  match n with
  | O => k
  | S n' => if scaled_num m e k <=? scaled_den e k then k else least_power n' m e (k + 1)
  end.

Definition double_log10_ceil (b : Z) : Z :=
  match sf_of_bits b with
  | S754_finite _ m e => double_of_int (least_power 700 m e (-330))
  | _ => 0
  end.

Definition RefBidLib : BidLib := {|
  bid128_isNaN d := is_ENaN (dec_ext d);
  bid128_isInf d := match dec_ext d with EPosInf | ENegInf => true | _ => false end;
  bid128_isFinite d := match dec_ext d with EFin _ => true | _ => false end;
  bid128_isZero d := match dec_ext d with EFin q => Qeq_bool q 0 | _ => false end;
  bid128_quiet_equal x y := (ext_cmp (dec_ext x) (dec_ext y) =? 0, 0);
  bid128_quiet_greater x y := (ext_cmp (dec_ext x) (dec_ext y) >? 0, 0);
  bid128_from_int32 := bid_of_int;
  bid128_from_int64 := bid_of_int;
  bid128_to_int32_xint := to_int INT32_MIN INT32_MAX Qtrunc;
  bid128_to_int32_xrnint := to_int INT32_MIN INT32_MAX Qtrunc;
  bid128_to_int32_xceil := to_int INT32_MIN INT32_MAX Qceiling;
  bid128_to_int64_xint := to_int INT64_MIN INT64_MAX Qtrunc;
  bid128_to_int64_xrnint := to_int INT64_MIN INT64_MAX Qtrunc;
  bid128_to_int64_floor := to_int INT64_MIN INT64_MAX Qfloor;
  bid128_to_binary64 _ _ := (0, 0);
  bid128_to_binary80 _ _ := (S754_zero false, 0);
  binary64_to_bid128 b _ := (bid_of_sf (sf_of_bits b), 0);
  bid128_quantize x y _ := (bid_quantize x y, 0);
  bid128_abs x := x;
  bid128_fmod x _ := (x, 0);
  bid128_round_integral_exact x _ := (x, 0);
  bid128_round_integral_positive x := (x, 0);
  bid128_round_integral_negative x := (x, 0);
  bid_call _ x _ := (x, 0);
  bid_call2 _ x _ _ := (x, 0);
  libm_log10 := double_log10_ceil;
  bson_decimal128_from_string _ := SetDecimal128Zero
|}.

Lemma to_int64_converts round d q : dec_ext d = EFin q ->
  converts_to int64_ok (round q) (to_int INT64_MIN INT64_MAX round d).
Proof.
  intros E. unfold to_int. rewrite E. unfold converts_to, int64_ok.
  destruct ((INT64_MIN <=? round q) && (round q <=? INT64_MAX)) eqn:B; split; intros H.
  - now split.
  - lia.
  - lia.
  - reflexivity.
Qed.

Lemma RefBidLaws : BidLaws RefBidLib.
Proof.
  split; try reflexivity; try (intros; split; reflexivity).
  - intros z H. apply bid_of_int_ext. zbounds. lia.
  - intros z H. now apply bid_of_int_ext.
  - intros x q _ E. exact (to_int64_converts Qtrunc x q E).
  - intros x q _ E. exact (to_int64_converts Qfloor x q E).
  - intros x _. cbn [bid128_to_int64_floor RefBidLib]. unfold to_int. now destruct (dec_ext x).
  - intros b r _. apply bid_of_sf_law, sf_of_bits_range.
  - intros b r n _ Hn E. now apply bid_of_sf_exact.
Qed.

(** libbson: object identifiers compare bytewise; every byte string decodes to
    the document [{ "" : <the bytes as a string> }]; ICU is the byte order. *)
Definition RefLibBson : LibBson := {|
  bson_decode b := [([], VUtf8 b)];
  bson_oid_compare a b := memcmp a b 12;
  bson_oid_get_time_t _ := 0;
  ucol_strcollUTF8 _ a b := Some (cmp_bytes a b)
|}.

Lemma RefLibBsonLaws : LibBsonLaws RefLibBson.
Proof.
  split; cbn.
  - intros a b _ _. apply same_sign_refl.
  - intros _ a b x y E1 E2. injection E1 as <-. injection E2 as <-. auto with bson_db.
  - intros _ a b d x y z E1 E2 E3. injection E1 as <-. injection E2 as <-. injection E3 as <-.
    auto with bson_db.
Qed.
