(* ===== verification/BsonRefine.v ===== *)
(** * [bson_compare.c] implements the order of [BsonOrder]

    Functional refinement: on well-formed values the comparison never reaches an
    error and returns the sign of [value_order]; the laws of a total preorder
    and the soundness of the byte-equality shortcut follow for the exported
    functions. *)

From Stdlib Require Import ZArith QArith Lia Bool SpecFloat String List.
From S2P Require Import Prelude SoftFloat BsonTypes Decimal128 BsonCompare BsonOrder RefBid.
Import ListNotations.
Local Open Scope Z_scope.

Section Order.
Context {BL : BidLib} {Laws : BidLaws BL} {LB : LibBson} {LBLaws : LibBsonLaws LB}.
Variable collation : option bytes.
Hypothesis total : collation_total collation.

Local Abbreviation string_order := (string_order collation).
Local Abbreviation value_order := (value_order collation).

(** ** [CompareBsonValue] implements the order *)

Lemma length_difference l r : len_ok l -> len_ok r ->
  wrap_s 32 (blen l - blen r) = blen l - blen r.
Proof. intros Hl Hr. apply wrap_s32_id. unfold len_ok, blen in *. zbounds. lia. Qed.

(** Without a collation, strings are compared as byte strings. *)
Lemma CompareStrings_bytes l r : len_ok l -> len_ok r ->
  exists c, CompareStrings l r None = Ok c /\ same_sign c (cmp_bytes l r).
Proof.
  intros Hl Hr. unfold CompareStrings. rewrite length_difference by assumption.
  pose proof (memcmp_min_then_length l r) as M.
  destruct (Nat.eqb_spec (Nat.min (length l) (length r)) 0) as [E|E].
  - exists (blen l - blen r). split; [reflexivity|]. rewrite E in M. now destruct l.
  - cbn [res_bind]. unfold lexz in M.
    destruct (memcmp l r _ =? 0); eexists; (split; [reflexivity|exact M]).
Qed.

Lemma CompareStrings_order l r : len_ok l -> len_ok r ->
  exists c, CompareStrings l r collation = Ok c /\ same_sign c (string_order l r).
Proof.
  intros Hl Hr. destruct collation as [k|] eqn:Ek; [|now apply CompareStrings_bytes].
  unfold CompareStrings, BsonOrder.string_order. rewrite length_difference by assumption.
  destruct (Nat.eqb_spec (Nat.min (length l) (length r)) 0);
    [eexists; split; [reflexivity|apply same_sign_refl]|].
  pose proof (total k l r eq_refl). unfold StringCompareWithCollation.
  destruct (ucol_strcollUTF8 k l r) as [x|]; [|easy]. cbn [res_bind]. unfold lexz.
  destruct (x =? 0); eexists; (split; [reflexivity|apply same_sign_refl]).
Qed.

Lemma len_ok_cstr s : cstr_ok s -> len_ok s.
Proof. now intros []. Qed.

Lemma memcmp_equal_length l r : length l = length r ->
  same_sign (memcmp l r (length l)) (cmp_bytes l r).
Proof.
  intros E. eapply same_sign_trans; [|apply memcmp_min_then_length].
  rewrite <- E, Nat.min_id. unfold lexz, blen. rewrite E, Z.sub_diag.
  destruct (Z.eqb_spec (memcmp l r (length r)) 0) as [->|]; reflexivity.
Qed.

Lemma oid_compare_order l r : length l = 12%nat -> length r = 12%nat ->
  same_sign (bson_oid_compare l r) (cmp_bytes l r).
Proof.
  intros Hl Hr. eapply same_sign_trans; [now apply oid_compare_law|].
  rewrite <- Hl. apply memcmp_equal_length. congruence.
Qed.

Lemma compare_regex_order lr lo rr ro :
  opt_ok cstr_ok lr -> opt_ok cstr_ok lo -> opt_ok cstr_ok rr -> opt_ok cstr_ok ro ->
  same_sign (compare_regex lr lo rr ro) (lexz (opt_order lr rr) (opt_order lo ro)).
Proof.
  destruct lr as [lr|], lo as [lo|], rr as [rr|], ro as [ro|]; simpl; try easy.
  intros [_ H1] [_ H2] [_ H3] [_ H4].
  pose proof (strcmp_cmp_bytes lr rr H1 H3) as S1. pose proof (strcmp_cmp_bytes lo ro H2 H4) as S2.
  change (same_sign (if negb (strcmp lr rr =? 0) then strcmp lr rr else strcmp lo ro)
            (lexz (cmp_bytes lr rr) (cmp_bytes lo ro))).
  replace (if negb (strcmp lr rr =? 0) then strcmp lr rr else strcmp lo ro)
    with (lexz (strcmp lr rr) (strcmp lo ro)) by (unfold lexz; now destruct (strcmp lr rr =? 0)).
  now apply lexz_same_sign.
Qed.

Lemma compare_binary_order lt l rt r : len_ok l -> len_ok r ->
  same_sign (compare_binary lt l rt r) (lexz (blen l - blen r) (lexz (lt - rt) (cmp_bytes l r))).
Proof.
  intros Hl Hr. unfold compare_binary, lexz.
  destruct (Z.eqb_spec (blen l) (blen r)) as [E|E]; cbn [negb].
  - rewrite E, Z.sub_diag. cbn [Z.eqb].
    destruct (Z.eqb_spec lt rt) as [->|N]; cbn [negb].
    + rewrite Z.sub_diag. apply memcmp_equal_length. unfold blen in E. lia.
    + destruct (Z.eqb_spec (lt - rt) 0); [lia|reflexivity].
  - rewrite wrap_s32_id by (unfold len_ok, blen in *; zbounds; lia).
    destruct (Z.eqb_spec (blen l - blen r) 0); [lia|reflexivity].
Qed.

Lemma compare_timestamp_order lt li rt ri :
  compare_timestamp lt li rt ri = lexz (cmpz lt rt) (cmpz li ri).
Proof.
  unfold compare_timestamp, lexz. destruct (Z.eqb_spec lt rt) as [->|N]; cbn [negb].
  - now rewrite (proj2 (cmpz_0 rt rt) eq_refl).
  - unfold cmpz. destruct (Z.eqb_spec lt rt); [easy|]. now destruct (Z.gtb_spec lt rt).
Qed.

(** A comparison returns without an error, with the sign of [o]; it reports an
    invalid comparison (of a NaN with a number) only together with a difference. *)
Definition answers (r : res (Z * bool)) (o : Z) : Prop :=
  exists c valid, r = Ok (c, valid) /\ same_sign c o /\ (valid = false -> c <> 0).

(** What the refinement says of one pair of values of the same type class. *)
Definition implements (l r : bson_value) : Prop :=
  CompareBsonSortOrderType l r = 0 -> answers (CompareBsonValue collation l r) (value_order l r).

Lemma lexz_nonzero_sign x c y : same_sign x c -> x <> 0 -> same_sign x (lexz c y).
Proof. unfold same_sign, lexz. intros E N. destruct (Z.eqb_spec c 0); lia. Qed.

Lemma lexz_zero_sign x c y z : same_sign x c -> x = 0 -> same_sign z y -> same_sign z (lexz c y).
Proof. unfold same_sign, lexz. intros E -> H. destruct (Z.eqb_spec c 0); lia. Qed.

Lemma CompareBsonIter_order l :
  Forall (fun kv => forall r, value_ok (snd kv) -> value_ok r -> implements (snd kv) r) l ->
  forall r, doc_ok l -> doc_ok r ->
  exists c, CompareBsonIter (CompareBsonValue collation) l r true = Ok c /\
    same_sign c (fields_order value_order l r).
Proof.
  induction 1 as [|[lk lv] l Hv _ IH]; intros [|[rk rv] r]; cbn [CompareBsonIter fields_order];
    try (intros; eexists; split; [reflexivity|apply same_sign_refl]).
  intros [[Hlk Hlv] Hl] [[Hrk Hrv] Hr]. cbn [snd] in Hv.
  destruct (Z.eqb_spec (CompareBsonSortOrderType lv rv) 0) as [E|N]; cbn [negb].
  2:{ eexists; split; [reflexivity|]. apply lexz_nonzero_sign; auto with bson_db. }
  destruct (CompareStrings_bytes lk rk) as (ck & -> & Sk); try now apply len_ok_cstr.
  destruct (Hv rv Hlv Hrv E) as (cv & valid & -> & Sv & _).
  destruct (IH r Hl Hr) as (ct & -> & St).
  rewrite E. cbn [res_bind]. unfold lexz at 1. cbn [Z.eqb].
  destruct (Z.eqb_spec ck 0) as [E1|N1]; cbn [negb].
  2:{ eexists; split; [reflexivity|]. now apply lexz_nonzero_sign. }
  destruct (Z.eqb_spec cv 0) as [E2|N2]; cbn [negb].
  2:{ eexists; split; [reflexivity|]. eapply lexz_zero_sign; eauto. now apply lexz_nonzero_sign. }
  exists ct. split; [reflexivity|]. eapply lexz_zero_sign; eauto. eapply lexz_zero_sign; eauto.
Qed.

Lemma number_implements l r : value_ok l -> value_ok r ->
  BsonValueIsNumberOrBool l = true -> BsonValueIsNumberOrBool r = true ->
  value_order l r = lexz (CompareBsonSortOrderType l r) (ext_cmp (num_key l) (num_key r)) ->
  CompareBsonValue collation l r =
    (if negb (CompareBsonSortOrderType l r =? 0) then Err ERRCODE_INTERNAL_ERROR else CompareNumbers l r) ->
  implements l r.
Proof.
  intros Hl Hr Nl Nr Eo Ec E. rewrite Ec, Eo, E, CompareNumbers_key by assumption.
  do 2 eexists. split; [reflexivity|]. split; [apply same_sign_refl|].
  intros V X. apply ext_cmp_0 in X. destruct (num_key l), (num_key r); easy.
Qed.

Lemma plain_same_sign c x o : c = Ok x -> same_sign x o -> answers (plain c) o.
Proof. intros -> H. do 2 eexists. split; [reflexivity|]. now split. Qed.

(** Sequencing a second comparison behind a first one. *)
Lemma lexz_sequence (x : Z) (k : res (Z * bool)) c1 c2 :
  same_sign x c1 -> answers k c2 ->
  answers (if negb (x =? 0) then Ok (x, true) else k) (lexz c1 c2).
Proof.
  intros S (c & valid & E & Sc & V). destruct (Z.eqb_spec x 0) as [E0|N]; cbn [negb].
  - do 2 eexists. split; [exact E|]. split; [eapply lexz_zero_sign; eauto|exact V].
  - do 2 eexists. split; [reflexivity|]. split; [now apply lexz_nonzero_sign|easy].
Qed.

Lemma done_same_sign x o : same_sign x o -> answers (Ok (x, true)) o.
Proof. intros H. do 2 eexists. split; [reflexivity|]. now split. Qed.

Lemma strings_then s t k o : len_ok s -> len_ok t -> answers k o ->
  answers (res_bind (CompareStrings s t collation)
             (fun cmp => if negb (cmp =? 0) then Ok (cmp, true) else k))
    (lexz (string_order s t) o).
Proof.
  intros Hs Ht Hk. destruct (CompareStrings_order s t Hs Ht) as (x & -> & Sx).
  cbn [res_bind]. now apply lexz_sequence.
Qed.

Lemma strings_plain s t : len_ok s -> len_ok t ->
  answers (plain (CompareStrings s t collation)) (string_order s t).
Proof.
  intros Hs Ht. destruct (CompareStrings_order s t Hs Ht) as (x & E & Sx).
  now apply (plain_same_sign _ x).
Qed.

Lemma iter_plain l r :
  Forall (fun kv => forall r, value_ok (snd kv) -> value_ok r -> implements (snd kv) r) l ->
  doc_ok l -> doc_ok r ->
  answers (plain (CompareBsonIter (CompareBsonValue collation) l r true))
    (fields_order value_order l r).
Proof.
  intros H Hl Hr. destruct (CompareBsonIter_order l H r Hl Hr) as (x & E & Sx).
  now apply (plain_same_sign _ x).
Qed.

Ltac same_class E :=
  unfold CompareBsonSortOrderType, CompareSortOrderType in E;
  cbn [value_type GetSortOrderType] in E; try discriminate E.

Lemma CompareBsonValue_implements l r : value_ok l -> value_ok r -> implements l r.
Proof.
  revert r. induction l using bson_value_nested_ind; intros w Hl Hr E;
    destruct w; same_class E;
    try (apply number_implements; auto; fail);
    clear E; cbn [value_ok] in Hl, Hr;
    cbn [CompareBsonValue BsonOrder.value_order string_payload];
    unfold CompareBsonSortOrderType, CompareSortOrderType;
    cbn [value_type GetSortOrderType]; rewrite Z.sub_diag;
    change (negb (0 =? 0)) with false; cbv iota; unfold lexz at 1; change (0 =? 0) with true; cbv iota;
    repeat match goal with H : _ /\ _ |- _ => destruct H end;
    try (apply strings_plain; assumption); try (apply iter_plain; assumption);
    try (apply strings_then; auto using iter_plain, done_same_sign, oid_compare_order; fail);
    apply done_same_sign;
    rewrite ?compare_timestamp_order;
    auto using same_sign_refl, compare_binary_order, oid_compare_order, compare_regex_order.
Qed.


Lemma CompareBsonValueAndType_answers l r : value_ok l -> value_ok r ->
  answers (CompareBsonValueAndTypeWithCollation l r collation) (value_order l r).
Proof.
  intros Hl Hr. unfold CompareBsonValueAndTypeWithCollation.
  destruct (Z.eqb_spec (CompareBsonSortOrderType l r) 0) as [E|N]; cbn [negb].
  - now apply CompareBsonValue_implements.
  - apply done_same_sign.
    assert (X : exists o, value_order l r = lexz (CompareBsonSortOrderType l r) o)
      by (destruct l; eexists; reflexivity).
    destruct X as [o ->]. apply lexz_nonzero_sign; auto with bson_db.
Qed.

Lemma CompareBsonIter_documents l r : doc_ok l -> doc_ok r ->
  exists c, CompareBsonIter (CompareBsonValue collation) l r true = Ok c /\
    same_sign c (fields_order value_order l r).
Proof.
  apply CompareBsonIter_order, Forall_forall. intros kv _ v. apply CompareBsonValue_implements.
Qed.

End Order.

(** ** Properties of the exported comparison *)

Section Exported.
Context {BL : BidLib} {Laws : BidLaws BL} {LB : LibBson} {LBLaws : LibBsonLaws LB}.

(** Numbers of every type, and booleans, are compared consistently although the
    operands are promoted to [int64], [long double] or decimal128 depending on
    both types: no comparison fails and the results over any mix of types are
    those of one total preorder. *)
Theorem CompareNumbers_mixed_preorder (a b c : bson_value) :
  value_ok a -> value_ok b -> value_ok c -> BsonValueIsNumberOrBool a = true ->
  BsonValueIsNumberOrBool b = true -> BsonValueIsNumberOrBool c = true ->
  exists ab ba bc ac : Z * bool,
    CompareNumbers a b = Ok ab /\ CompareNumbers b a = Ok ba /\
    CompareNumbers b c = Ok bc /\ CompareNumbers a c = Ok ac /\
    anti2 (fst ab) (fst ba) /\ snd ab = snd ba /\ trans3 (fst ab) (fst bc) (fst ac).
Proof.
  intros Ha Hb Hc Na Nb Nc. rewrite !CompareNumbers_key by assumption.
  do 4 eexists. do 4 (split; [reflexivity|]). cbn [fst snd].
  split; [auto with bson_db|]. split; [|auto with bson_db].
  now destruct (is_ENaN (num_key a)), (is_ENaN (num_key b)).
Qed.

(** C3: For doubles, integers and booleans the comparison is exact: it is the order
    of the mathematical values (NaN first, zeros equal), with no rounding of
    64-bit integers to doubles, and is valid unless exactly one side is NaN. *)
Theorem CompareNumbers_exact (l r : bson_value) :
  value_ok l -> value_ok r ->
  BsonValueIsNumberOrBool l = true -> BsonValueIsNumberOrBool r = true ->
  is_decimal l = false -> is_decimal r = false ->
  CompareNumbers l r =
  Ok (ext_cmp (num_ext l) (num_ext r), Bool.eqb (is_ENaN (num_ext l)) (is_ENaN (num_ext r))).
Proof.
  intros Hl Hr Nl Nr Dl Dr. rewrite CompareNumbers_key by assumption.
  now rewrite (num_key_order l r), <- (approx_nan _ _ (num_key_approx l Hl Nl)),
    <- (approx_nan _ _ (num_key_approx r Hr Nr)) by assumption.
Qed.

(** C1: On well-formed values, and for a collation ICU can apply, the exported
    comparison returns without an error, with the sign of the specified order;
    it reports the comparison as invalid only together with a difference. *)
Theorem CompareBsonValueAndTypeWithCollation_refines
  (collation : option bytes) (l r : bson_value) :
  collation_total collation -> value_ok l -> value_ok r ->
  exists c valid,
    CompareBsonValueAndTypeWithCollation l r collation = Ok (c, valid) /\
    same_sign c (value_order collation l r) /\ (valid = false -> c <> 0).
Proof. intros T Hl Hr. now apply CompareBsonValueAndType_answers. Qed.

(** C2: The exported comparison is a total preorder on well-formed values: every
    comparison succeeds, a value equals itself, swapping the operands swaps the
    sign, and the results are transitive. *)
Theorem CompareBsonValueAndTypeWithCollation_preorder
  (collation : option bytes) (a b c : bson_value) :
  collation_total collation -> value_ok a -> value_ok b -> value_ok c ->
  exists aa ab ba bc ac : Z * bool,
    CompareBsonValueAndTypeWithCollation a a collation = Ok aa /\
    CompareBsonValueAndTypeWithCollation a b collation = Ok ab /\
    CompareBsonValueAndTypeWithCollation b a collation = Ok ba /\
    CompareBsonValueAndTypeWithCollation b c collation = Ok bc /\
    CompareBsonValueAndTypeWithCollation a c collation = Ok ac /\
    fst aa = 0 /\ anti2 (fst ab) (fst ba) /\ trans3 (fst ab) (fst bc) (fst ac).
Proof.
  intros T Ha Hb Hc.
  destruct (CompareBsonValueAndType_answers _ T a a Ha Ha) as (xaa & vaa & Eaa & Saa & _).
  destruct (CompareBsonValueAndType_answers _ T a b Ha Hb) as (xab & vab & Eab & Sab & _).
  destruct (CompareBsonValueAndType_answers _ T b a Hb Ha) as (xba & vba & Eba & Sba & _).
  destruct (CompareBsonValueAndType_answers _ T b c Hb Hc) as (xbc & vbc & Ebc & Sbc & _).
  destruct (CompareBsonValueAndType_answers _ T a c Ha Hc) as (xac & vac & Eac & Sac & _).
  exists (xaa, vaa), (xab, vab), (xba, vba), (xbc, vbc), (xac, vac).
  repeat (split; [assumption|]). cbn [fst]. split; [|split].
  - pose proof (anti2_value_order _ T a a) as X. clear - X Saa. apply anti2_self in X.
    unfold same_sign in Saa. rewrite X in Saa. now apply Z.sgn_null_iff.
  - eapply anti2_same_sign; eauto. now apply anti2_value_order.
  - eapply trans3_same_sign; eauto. now apply trans3_value_order.
Qed.

(** ** Documents and the operator class *)

Lemma no_collation : collation_total None.
Proof. intros c a b E. discriminate E. Qed.

(** The order of documents: no collation. *)
Definition doc_order : fields -> fields -> Z := fields_order (value_order None).

Lemma anti2_doc_order l r : anti2 (doc_order l r) (doc_order r l).
Proof. apply anti2_fields_order, Forall_forall. intros kv _ b. apply anti2_value_order, no_collation. Qed.

Lemma trans3_doc_order a b c : trans3 (doc_order a b) (doc_order b c) (doc_order a c).
Proof.
  apply trans3_fields_order, Forall_forall. intros kv _ x y. apply trans3_value_order, no_collation.
Qed.

Lemma PgbsonEquals_eq l r : PgbsonEquals l r = true -> l = r.
Proof.
  unfold PgbsonEquals, blen. intros H. apply andb_prop in H as [Hl Hm].
  assert (E : length l = length r) by lia. apply Z.eqb_eq in Hm.
  apply memcmp_0_firstn in Hm; [|lia..]. rewrite firstn_all, E, firstn_all in Hm. exact Hm.
Qed.

(** A document as the comparison functions accept it. *)
Definition pgbson_ok (b : bytes) : Prop := doc_ok (bson_decode b).

Lemma ComparePgbson_decode l r : pgbson_ok l -> pgbson_ok r ->
  exists c, ComparePgbson l r = Ok c /\ same_sign c (doc_order (bson_decode l) (bson_decode r)).
Proof.
  intros Hl Hr. unfold ComparePgbson. destruct (PgbsonEquals l r) eqn:E.
  - apply PgbsonEquals_eq in E. subst r. exists 0. split; [reflexivity|].
    rewrite (anti2_self _ (anti2_doc_order (bson_decode l) (bson_decode l))). reflexivity.
  - now apply CompareBsonIter_documents; [apply no_collation|..].
Qed.

(** C5: [ComparePgbson] computes the document order: comparing the bytes first is
    only a shortcut, which never changes the answer. *)
Theorem ComparePgbson_refines (l r : bytes) : pgbson_ok l -> pgbson_ok r ->
  exists c, ComparePgbson l r = Ok c /\ same_sign c (doc_order (bson_decode l) (bson_decode r)).
Proof. apply ComparePgbson_decode. Qed.

(** C4: The comparison operators of the btree operator class are total on
    well-formed documents and fit together: exactly one of [<], [=], [>] holds,
    [<=], [>=] and [<>] are the corresponding combinations, [>] is the converse
    of [<], and [<=] and [=] are transitive. *)
Theorem extension_bson_operators (a b c : bytes) :
  pgbson_ok a -> pgbson_ok b -> pgbson_ok c ->
  exists lt eq gt : bool,
    extension_bson_lt a b = Ok lt /\ extension_bson_equal a b = Ok eq /\
    extension_bson_gt a b = Ok gt /\
    ((lt = true /\ eq = false /\ gt = false) \/ (lt = false /\ eq = true /\ gt = false) \/
     (lt = false /\ eq = false /\ gt = true)) /\
    extension_bson_lte a b = Ok (lt || eq) /\ extension_bson_gte a b = Ok (gt || eq) /\
    extension_bson_not_equal a b = Ok (negb eq) /\ extension_bson_gt b a = Ok lt /\
    (extension_bson_lte a b = Ok true -> extension_bson_lte b c = Ok true ->
     extension_bson_lte a c = Ok true) /\
    (extension_bson_equal a b = Ok true -> extension_bson_equal b c = Ok true ->
     extension_bson_equal a c = Ok true).
Proof.
  intros Ha Hb Hc.
  destruct (ComparePgbson_decode a b Ha Hb) as (ab & Eab & Sab).
  destruct (ComparePgbson_decode b a Hb Ha) as (ba & Eba & Sba).
  destruct (ComparePgbson_decode b c Hb Hc) as (bc & Ebc & Sbc).
  destruct (ComparePgbson_decode a c Ha Hc) as (ac & Eac & Sac).
  assert (A : anti2 ab ba) by (eapply anti2_same_sign; eauto; apply anti2_doc_order).
  assert (T : trans3 ab bc ac) by (eapply trans3_same_sign; eauto; apply trans3_doc_order).
  unfold extension_bson_lt, extension_bson_equal, extension_bson_gt, extension_bson_lte,
    extension_bson_gte, extension_bson_not_equal.
  rewrite Eab, Eba, Ebc, Eac. cbn [res_bind].
  exists (ab <? 0), (ab =? 0), (ab >? 0). unfold anti2, trans3 in *. clear - A T.
  do 3 (split; [reflexivity|]). split; [lia|].
  do 4 (split; [f_equal; lia|]).
  split; intros H1 H2; injection H1 as H1; injection H2 as H2; f_equal; lia.
Qed.

(** [BsonValueEqualsStrict] on two values: the same BSON type and no difference
    in the order; NaN is equal to NaN. *)
Theorem BsonValueEqualsStrict_spec (l r : bson_value) : value_ok l -> value_ok r ->
  BsonValueEqualsStrict (Some l) (Some r) =
  Ok (type_eqb (value_type l) (value_type r) && (value_order None l r =? 0)).
Proof.
  intros Hl Hr. unfold BsonValueEqualsStrict, BsonValueEqualsStrictWithCollation.
  destruct (type_eqb (value_type l) (value_type r)) eqn:E; cbn [negb]; [|reflexivity].
  assert (S : CompareBsonSortOrderType l r = 0).
  { unfold type_eqb in E. destruct (bson_type_eq_dec _ _) as [Et|]; [|discriminate].
    unfold CompareBsonSortOrderType, CompareSortOrderType. rewrite Et. lia. }
  destruct (CompareBsonValue_implements None no_collation l r Hl Hr S)
    as (c & valid & -> & Sc & V). cbn [res_bind andb]. f_equal. unfold same_sign in Sc.
  destruct valid; cbn [andb]; [lia|]. specialize (V eq_refl). lia.
Qed.

End Exported.

(** ** Instances on concrete values *)

Section Witnesses.
#[local] Existing Instance RefBidLib.
#[local] Existing Instance RefBidLaws.
#[local] Existing Instance RefLibBson.
#[local] Existing Instance RefLibBsonLaws.

Definition sample_a : bson_value :=
  VDocument [(str "a", VInt64 5); (str "b", VArray [(str "0", VDouble 4617878467915022336)])].
Definition sample_b : bson_value :=
  VDocument [(str "a", VDecimal128 (Dec128 3476778912330022912 5)); (str "b", VArray [(str "0", VInt32 6)])].
Definition sample_c : bson_value := VArray [].

Ltac sample_ok := repeat split; try (apply no_nulb_ok; reflexivity); vm_compute; congruence.

Lemma sample_a_ok : value_ok sample_a.
Proof. sample_ok. Qed.
Lemma sample_b_ok : value_ok sample_b.
Proof. sample_ok. Qed.
Lemma sample_c_ok : value_ok sample_c.
Proof. exact I. Qed.

Lemma ref_collation_total c : collation_total (Some c).
Proof. intros k a b _. discriminate. Qed.

(** 2^53 and 2^53 + 1 are told apart, as [int64] and as a double. *)
Lemma CompareNumbers_exact_witness :
  CompareNumbers (VInt64 9007199254740993) (VDouble 4845873199050653696) =
  Ok (ext_cmp (num_ext (VInt64 9007199254740993)) (num_ext (VDouble 4845873199050653696)), true) /\
  ext_cmp (num_ext (VInt64 9007199254740993)) (num_ext (VDouble 4845873199050653696)) = 1.
Proof.
  split; [|vm_compute; reflexivity].
  apply (CompareNumbers_exact (VInt64 9007199254740993) (VDouble 4845873199050653696));
    first [reflexivity | vm_compute; split; congruence].
Defined.

Lemma CompareNumbers_mixed_preorder_witness :
  exists ab ba bc ac : Z * bool,
    CompareNumbers (VInt32 5) (VDouble 4617878467915022336) = Ok ab /\
    CompareNumbers (VDouble 4617878467915022336) (VInt32 5) = Ok ba /\
    CompareNumbers (VDouble 4617878467915022336) (VDecimal128 SetDecimal128PositiveInfinity) = Ok bc /\
    CompareNumbers (VInt32 5) (VDecimal128 SetDecimal128PositiveInfinity) = Ok ac /\
    anti2 (fst ab) (fst ba) /\ snd ab = snd ba /\ trans3 (fst ab) (fst bc) (fst ac).
Proof.
  apply (CompareNumbers_mixed_preorder (VInt32 5) (VDouble 4617878467915022336)
           (VDecimal128 SetDecimal128PositiveInfinity));
    first [reflexivity | repeat split; vm_compute; congruence].
Defined.

Lemma CompareBsonValueAndTypeWithCollation_refines_witness :
  value_order (Some (str "en")) sample_a sample_b = -1 /\
  exists c valid,
    CompareBsonValueAndTypeWithCollation sample_a sample_b (Some (str "en")) = Ok (c, valid) /\
    same_sign c (value_order (Some (str "en")) sample_a sample_b) /\ (valid = false -> c <> 0).
Proof.
  split; [vm_compute; reflexivity|].
  exact (CompareBsonValueAndTypeWithCollation_refines (Some (str "en")) sample_a sample_b
           (ref_collation_total _) sample_a_ok sample_b_ok).
Defined.

Lemma CompareBsonValueAndTypeWithCollation_preorder_witness :
  exists aa ab ba bc ac : Z * bool,
    CompareBsonValueAndTypeWithCollation sample_a sample_a None = Ok aa /\
    CompareBsonValueAndTypeWithCollation sample_a sample_b None = Ok ab /\
    CompareBsonValueAndTypeWithCollation sample_b sample_a None = Ok ba /\
    CompareBsonValueAndTypeWithCollation sample_b sample_c None = Ok bc /\
    CompareBsonValueAndTypeWithCollation sample_a sample_c None = Ok ac /\
    fst aa = 0 /\ anti2 (fst ab) (fst ba) /\ trans3 (fst ab) (fst bc) (fst ac).
Proof.
  exact (CompareBsonValueAndTypeWithCollation_preorder None sample_a sample_b sample_c
           no_collation sample_a_ok sample_b_ok sample_c_ok).
Defined.

Lemma ref_pgbson_ok b : (blen b <? 2 ^ 31) = true -> pgbson_ok b.
Proof. intros H. repeat split; [apply Forall_nil|now apply Z.ltb_lt]. Qed.

Lemma ComparePgbson_refines_witness :
  exists c, ComparePgbson (str "xy") (str "xz") = Ok c /\
    same_sign c (doc_order (bson_decode (str "xy")) (bson_decode (str "xz"))).
Proof.
  exact (ComparePgbson_refines (str "xy") (str "xz") (ref_pgbson_ok (str "xy") eq_refl)
           (ref_pgbson_ok (str "xz") eq_refl)).
Defined.

Lemma extension_bson_operators_witness :
  extension_bson_lt (str "xy") (str "xz") = Ok true /\
  exists lt eq gt : bool,
    extension_bson_lt (str "xy") (str "xz") = Ok lt /\
    extension_bson_equal (str "xy") (str "xz") = Ok eq /\
    extension_bson_gt (str "xy") (str "xz") = Ok gt.
Proof.
  split; [vm_compute; reflexivity|].
  destruct (extension_bson_operators (str "xy") (str "xz") (str "y") (ref_pgbson_ok (str "xy") eq_refl)
              (ref_pgbson_ok (str "xz") eq_refl) (ref_pgbson_ok (str "y") eq_refl)) as (lt & eq & gt & H1 & H2 & H3 & _).
  exists lt, eq, gt. auto.
Defined.

Lemma BsonValueEqualsStrict_spec_witness :
  BsonValueEqualsStrict (Some sample_a) (Some sample_b) =
  Ok (type_eqb (value_type sample_a) (value_type sample_b) && (value_order None sample_a sample_b =? 0)).
Proof. exact (BsonValueEqualsStrict_spec sample_a sample_b sample_a_ok sample_b_ok). Defined.

End Witnesses.
