(* ===== verification/BsonHash.v ===== *)
(** * Hashing of BSON values ([bson_hash.c])

    Three hash functions: [BsonValueHash] (shard keys and hashed indexes),
    [BsonValueHashUint32] (in-memory hash sets) and [HashBsonValueCompare] (the
    hash operator class, which has to agree with [CompareBsonValue]).
    PostgreSQL's hash primitives are the class [PgHash].  What a field access
    reads when the source uses a union member of another type, or the address
    of a pointer, depends on the address space: those bytes are the class
    [ValueMemory]. *)

From Stdlib Require Import ZArith QArith Qround Lqa Lia Bool SpecFloat String List.
From Stdlib Require Import Strings.Byte.
From S2P Require Import Prelude SoftFloat BsonTypes Decimal128 BsonCompare BsonOrder RefBid BsonRefine.
Import ListNotations.
Local Open Scope Z_scope.

(** PostgreSQL's [common/hashfn.h]. *)
Class PgHash : Type := {
  hash_bytes : bytes -> Z;
  hash_bytes_extended : bytes -> Z -> Z;
  hash_bytes_uint32_extended : Z -> Z -> Z;
  hash_combine : Z -> Z -> Z;
  hash_combine64 : Z -> Z -> Z
}.

Class ValueMemory : Type := {
  (* the serialized form v_doc.data of a document or array value *)
  v_doc_data : fields -> bytes;
  (* v_code.code with v_code.code_len bytes, read from a value whose active
     member is v_codewscope: code_len overlaps the scope_data pointer *)
  v_code_of_codewscope : bytes -> fields -> bytes;
  (* strlen(regex) bytes read at the address of the field v_regex.regex *)
  at_regex_field : bytes -> option bytes -> bytes
}.

Section Hash.
Context {BL : BidLib} {LB : LibBson} {PG : PgHash} {VM : ValueMemory}.
Local Open Scope res_scope.

(** ** Object representations *)

Definition int_bytes (z : Z) : bytes := le_bytes 4 z.
Definition int64_bytes (z : Z) : bytes := le_bytes 8 z.
Definition bool_bytes (b : bool) : bytes := [byte_of_z (b2z b)].
Definition timestamp_bytes (timestamp increment : Z) : bytes := le_bytes 4 timestamp ++ le_bytes 4 increment.
Definition decimal_bytes (d : decimal128) : bytes := le_bytes 8 (dec_low d) ++ le_bytes 8 (dec_high d).

(** [strlen] bytes of a C string; a NULL pointer is not read by callers. *)
Definition cstring (s : option bytes) : bytes := match s with Some s => s | None => [] end.

(** ** [BsonValueHash] *)

(** Results are converted to [int64]; the seed of a further call is that [int64]. *)
Definition HashNumber (number : Z) (seed : Z) : Z := hash_bytes_extended (int64_bytes number) seed.

Definition BsonValueHash (value : bson_value) (seed : Z) : Z :=
  let hashType := match value with
                  | VInt32 _ | VInt64 _ => BSON_TYPE_DOUBLE
                  | _ => value_type value
                  end in
  let hashValue := wrap_s 64 (hash_bytes_uint32_extended (type_code hashType) seed) in
  let field b := wrap_s 64 (hash_bytes_extended b hashValue) in
  match value with
  | VEod | VMinKey | VUndefined | VNull | VMaxKey => hashValue
  | VBool b => wrap_s 64 (hash_bytes_uint32_extended (b2z b) hashValue)
  | VInt32 z => wrap_s 64 (HashNumber (double_of_int z) hashValue)
  | VInt64 z => wrap_s 64 (HashNumber (double_of_int z) hashValue)
  | VDouble bits => wrap_s 64 (HashNumber bits hashValue)
  | VDateTime ms => field (int64_bytes ms)
  | VTimestamp t i => field (timestamp_bytes t i)
  | VOid oid => field oid
  | VDecimal128 d => field (decimal_bytes d)
  | VUtf8 s => field s
  | VArray d | VDocument d => field (v_doc_data d)
  | VSymbol s => field s
  | VBinary _ data => field data
  | VRegex regex _ => field (cstring regex)
  | VDbPointer collection _ => field collection
  | VCode code => field code
  | VCodeWScope code _ => field code
  end.

(** ** [BsonValueHashUint32] *)

(** The common treatment of doubles and decimals: an integer hashes as [int64]. *)
Definition hash_if_int64 (value : bson_value) (otherwise : bytes) : res Z :=
  let* isInt := IsBsonValue64BitInteger value true in
  if isInt then let* v := BsonValueAsInt64 value in Ok (hash_bytes (int64_bytes v))
  else Ok (hash_bytes otherwise).

Definition BsonValueHashUint32 (value : bson_value) : res Z :=
  match value with
  | VBool b => Ok (hash_bytes (bool_bytes b))
  | VInt32 _ | VInt64 _ => let* v := BsonValueAsInt64 value in Ok (hash_bytes (int64_bytes v))
  | VDouble bits =>
    if sf_isnan (sf_of_bits bits) then Ok 1 else hash_if_int64 value (int64_bytes bits)
  | VDecimal128 d =>
    let* nan := IsDecimal128NaN value in
    if nan then Ok 1
    else hash_if_int64 value (firstn 4 (decimal_bytes d))   (* sizeof(v_utf8.len) *)
  | VUtf8 s => Ok (hash_bytes s)
  | VDocument d | VArray d => Ok (hash_bytes (v_doc_data d))
  | VBinary _ data => Ok (hash_bytes data)
  | VDateTime ms => Ok (hash_bytes (int64_bytes ms))
  | VTimestamp t i => Ok (hash_bytes (timestamp_bytes t i))
  | VOid oid => Ok (hash_bytes oid)
  | VRegex regex options => Ok (hash_bytes (at_regex_field (cstring regex) options))
  | VCode code => Ok (hash_bytes code)
  | VCodeWScope code scope => Ok (hash_bytes (v_code_of_codewscope code scope))
  | VSymbol s => Ok (hash_bytes s)
  | VDbPointer collection _ => Ok (hash_bytes collection)
  | VUndefined | VNull | VEod | VMinKey | VMaxKey => Ok 0
  end.

(** ** The hash that agrees with comparison *)

Definition HashBytesUint32AsUint64 (b : bytes) (seed : Z) : Z := hash_bytes b.
Definition HashCombineUint32AsUint64 (left right : Z) : Z :=
  hash_combine (wrap_u 32 left) (wrap_u 32 right).
Definition HashBytesUint64 (b : bytes) (seed : Z) : Z := hash_bytes_extended b seed.

Section Generic.
Variable hash_bytes_func : bytes -> Z -> Z.
Variable hash_combine_func : Z -> Z -> Z.
Variable seed : Z.

Section Iter.
Variable HashBsonValueCompare : bson_value -> res Z.

Fixpoint BsonHashCompare (iter : fields) (hashValue : Z) : res Z :=
  match iter with
  | [] => Ok hashValue
  | (path, value) :: iter' =>
    let pathHash := hash_bytes_func path seed in
    let hashValue := hash_combine_func hashValue pathHash in
    let* valueHash := HashBsonValueCompare value in
    BsonHashCompare iter' (hash_combine_func hashValue valueHash)
  end.
End Iter.

Definition hash_type (t : bson_type_t) : Z := hash_bytes_func (int_bytes (type_code t)) seed.

(** Type code and payload. *)
Definition hash_typed (t : bson_type_t) (payload : bytes) : Z :=
  hash_combine_func (hash_type t) (hash_bytes_func payload seed).

Definition hash_int64 (value : bson_value) : res Z :=
  let* int64Value := BsonValueAsInt64 value in
  Ok (hash_typed BSON_TYPE_INT64 (int64_bytes int64Value)).

Definition hash_optional (hashValue : Z) (s : option bytes) : Z :=
  match s with
  | Some s => hash_combine_func hashValue (hash_bytes_func s seed)
  | None => hashValue
  end.

Fixpoint HashBsonValueCompare (value : bson_value) : res Z :=
  match value with
  | VEod | VMinKey => Ok (hash_type BSON_TYPE_MINKEY)
  | VUndefined | VNull => Ok (hash_type BSON_TYPE_UNDEFINED)
  | VInt32 _ | VInt64 _ => hash_int64 value
  | VDouble _ | VDecimal128 _ =>
    let* isInt := IsBsonValue64BitInteger value true in
    if isInt then hash_int64 value
    else
      let* decimalValue := GetBsonValueAsDecimal128 value in
      Ok (hash_typed BSON_TYPE_INT64 (decimal_bytes decimalValue))
  | VUtf8 s | VSymbol s => Ok (hash_typed BSON_TYPE_UTF8 s)
  | VDocument d | VArray d =>
    let* inner := BsonHashCompare HashBsonValueCompare d 0 in
    Ok (hash_combine_func (hash_type (value_type value)) inner)
  | VBinary subtype data =>
    Ok (hash_combine_func (hash_typed BSON_TYPE_BINARY (int_bytes subtype)) (hash_bytes_func data seed))
  | VOid oid => Ok (hash_typed BSON_TYPE_OID oid)
  | VBool b => Ok (hash_typed BSON_TYPE_BOOL (bool_bytes b))
  | VDateTime ms => Ok (hash_typed BSON_TYPE_DATE_TIME (int64_bytes ms))
  | VTimestamp t i =>
    Ok (hash_combine_func (hash_typed BSON_TYPE_TIMESTAMP (le_bytes 4 i)) (hash_bytes_func (le_bytes 4 t) seed))
  | VRegex regex options =>
    Ok (hash_optional (hash_optional (hash_type BSON_TYPE_REGEX) regex) options)
  | VDbPointer collection oid =>
    Ok (hash_combine_func (hash_typed BSON_TYPE_DBPOINTER collection) (hash_bytes_func oid seed))
  | VCode code => Ok (hash_typed BSON_TYPE_CODE code)
  | VCodeWScope code scope =>
    let codeHash := hash_typed BSON_TYPE_CODEWSCOPE (v_code_of_codewscope code scope) in
    let* inner := BsonHashCompare HashBsonValueCompare scope 0 in
    Ok (hash_combine_func codeHash inner)
  | VMaxKey => Ok (hash_type BSON_TYPE_MAXKEY)
  end.
End Generic.

Definition HashBsonValueComparableExtended (value : bson_value) (seed : Z) : res Z :=
  HashBsonValueCompare HashBytesUint64 hash_combine64 seed value.

Definition HashBsonValueComparable (value : bson_value) (seed : Z) : res Z :=
  let* h := HashBsonValueCompare HashBytesUint32AsUint64 HashCombineUint32AsUint64 seed value in
  Ok (wrap_u 32 h).

Definition HashBsonComparableExtended (iter : fields) (seed : Z) : res Z :=
  BsonHashCompare HashBytesUint64 hash_combine64 seed
    (HashBsonValueCompare HashBytesUint64 hash_combine64 seed) iter 0.

Definition HashBsonComparable (iter : fields) (seed : Z) : res Z :=
  let* h := BsonHashCompare HashBytesUint32AsUint64 HashCombineUint32AsUint64 seed
    (HashBsonValueCompare HashBytesUint32AsUint64 HashCombineUint32AsUint64 seed) iter 0 in
  Ok (wrap_u 32 h).

Definition extension_bson_hash_int4 (b : bytes) : res Z := HashBsonComparable (bson_decode b) 0.
Definition extension_bson_hash_int8 (b : bytes) (seed : Z) : res Z :=
  HashBsonComparableExtended (bson_decode b) seed.

End Hash.

(** ** Equal values have equal hashes *)

Section Agreement.
Context {BL : BidLib} {Laws : BidLaws BL} {LB : LibBson} {LBLaws : LibBsonLaws LB}
  {PG : PgHash} {VM : ValueMemory}.

(** The exact value of a number is an integer that fits [int64]. *)
Definition is_int64 (v : bson_value) (n : Z) : Prop :=
  int64_ok n /\ ext_eq (num_ext v) (EFin (inject_Z n)).

(** The values on which hashing is meant to agree with comparison: doubles are
    not NaN and are recognized as integers when they are one; decimals are
    64-bit integers; no JavaScript code with a scope. *)
Fixpoint hash_safe (v : bson_value) : Prop :=
  match v with
  | VDouble b => double_ext b <> ENaN /\
      (forall n, is_int64 v n -> IsBsonValue64BitInteger v true = Ok true)
  | VDecimal128 _ => exists n, is_int64 v n
  | VDocument d | VArray d => fields_all (fun _ v => hash_safe v) d
  | VCodeWScope _ _ => False
  | _ => True
  end.

Lemma Qtrunc_integer q n : (q == inject_Z n)%Q -> Qtrunc q = n.
Proof.
  unfold Qtrunc, Qeq. cbn [inject_Z Qnum Qden]. rewrite Z.mul_1_r. intros ->.
  apply Z.quot_mul. lia.
Qed.

Lemma Qfloor_integer q n : (q == inject_Z n)%Q -> Qfloor q = n.
Proof. intros ->. apply Qfloor_Z. Qed.

Lemma decimal_is_int64 d n : decimal128_ok d -> is_int64 (VDecimal128 d) n ->
  IsBsonValue64BitInteger (VDecimal128 d) true = Ok true /\ BsonValueAsInt64 (VDecimal128 d) = Ok n.
Proof.
  intros Hd [Hn E]. cbn [num_ext] in E. destruct (dec_ext d) as [| |q|] eqn:Eq; try easy.
  cbn [ext_eq] in E.
  destruct (to_int64_xint_law d q Hd Eq) as [X _]. rewrite (Qtrunc_integer q n E) in X.
  destruct (to_int64_floor_law d q Hd Eq) as [F _]. rewrite (Qfloor_integer q n E) in F.
  destruct (X Hn) as [X1 X2], (F Hn) as [F1 F2]. unfold no_invalid in X2, F2.
  destruct (from_int64_law n Hn) as [On En].
  split.
  - cbn [IsBsonValue64BitInteger IsBsonValue64BitIntegerCore].
    unfold IsBsonValue64BitInteger, IsBsonValue64BitIntegerCore, IsDecimal128InInt64Range,
      IsDecimal128Finite, IsDecimal128AFixedInteger, Decimal128ToInt64Floor.
    rewrite !GetBID_dec. cbn [res_bind]. rewrite isFinite_law, Eq by assumption.
    cbn [negb]. destruct (bid128_to_int64_xint d) as [z f]. cbn [fst snd] in *. rewrite X2. cbn [res_bind negb].
    destruct (bid128_to_int64_floor d) as [z' f']. cbn [fst snd] in *. subst z'. rewrite F2. cbn [res_bind].
    unfold GetDecimal128FromInt64. rewrite CompareBsonDecimal128_ext by assumption. cbn [res_bind].
    f_equal. apply Z.eqb_eq, ext_cmp_0. rewrite Eq. apply ext_eq_sym.
    eapply ext_eq_trans; [exact En|]. cbn [ext_eq]. lra.
  - unfold BsonValueAsInt64, BsonValueAsInt64WithRoundingMode, GetBsonDecimal128AsInt64.
    rewrite GetBID_dec. cbn [res_bind]. destruct (bid128_to_int64_xint d) as [z f].
    cbn [fst snd] in *. subst z. rewrite X2. now destruct (negb (IsOperationSuccess f)).
Qed.

Lemma sf_trunc_integer s m e n :
  (qscale 2 (cond_Zopp s (Zpos m)) e == inject_Z n)%Q -> sf_trunc_Z s m e = n.
Proof.
  unfold sf_trunc_Z, qscale. intros E. destruct (Z.leb_spec 0 e) as [H|H].
  - rewrite qpow_Z, <- inject_Z_mult in E by lia.
    apply (proj1 (inject_Z_injective _ _)) in E. now rewrite <- cond_Zopp_mul.
  - assert (P : (inject_Z 2 ^ e * inject_Z (2 ^ (- e)) == 1)%Q).
    { rewrite <- qpow_Z, <- qpow_plus by lia. replace (e + - e) with 0 by lia. reflexivity. }
    assert (M : (inject_Z (cond_Zopp s (Zpos m)) == inject_Z (n * 2 ^ (- e)))%Q).
    { rewrite inject_Z_mult, <- E, <- Qmult_assoc, P. ring. }
    apply (proj1 (inject_Z_injective _ _)) in M. pose proof (Z.pow_pos_nonneg 2 (- e)).
    destruct s; simpl cond_Zopp in *.
    + replace (Zpos m) with (- n * 2 ^ (- e)) by lia. rewrite Z.div_mul by lia. lia.
    + rewrite M. now rewrite Z.div_mul by lia.
Qed.

Lemma double_as_int64 b n : is_int64 (VDouble b) n -> BsonValueAsInt64 (VDouble b) = Ok n.
Proof.
  intros [Hn E]. cbn [num_ext] in E. unfold double_ext in E.
  unfold BsonValueAsInt64, BsonValueAsInt64WithRoundingMode. cbn [res_bind].
  destruct (sf_of_bits b) as [s|[]| |s m e]; try easy; cbn [sf_ext ext_eq sf_to_int64 sf_to_int] in *;
    f_equal.
  - unfold sf_to_int64, sf_to_int. symmetry. apply (proj1 (inject_Z_injective n 0)). now rewrite <- E.
  - unfold sf_to_int64, sf_to_int. apply sf_trunc_integer in E. rewrite E. unfold int64_ok in Hn.
    replace ((INT64_MIN <=? n) && (n <=? INT64_MAX)) with true by lia. reflexivity.
Qed.

(** The key of a number tells whether it is a 64-bit integer. *)
Lemma key_is_int64 v n : value_ok v -> BsonValueIsNumberOrBool v = true -> int64_ok n ->
  ext_eq (num_key v) (EFin (inject_Z n)) -> is_int64 v n.
Proof.
  intros Hv Nv Hn E. split; [exact Hn|]. destruct (is_decimal v) eqn:Dv.
  { destruct v; try discriminate. exact E. }
  apply ext_cmp_0. change (EFin (inject_Z n)) with (num_ext (VInt64 n)).
  rewrite num_key_order by (assumption || reflexivity).
  apply ext_cmp_0. eapply ext_eq_trans; [exact E|]. apply ext_eq_sym.
  apply num_key_integer; try reflexivity; [exact Hn|zbounds; lia].
Qed.

Lemma is_int64_key v n : value_ok v -> BsonValueIsNumberOrBool v = true -> is_int64 v n ->
  ext_eq (num_key v) (EFin (inject_Z n)).
Proof.
  intros Hv Nv [Hn E]. destruct (is_decimal v) eqn:Dv.
  - destruct v; try discriminate. exact E.
  - apply num_key_integer; auto. zbounds. lia.
Qed.

(** A safe number is a double or a 64-bit integer. *)
Lemma safe_number_cases v : value_ok v -> BsonValueIsNumber v = true -> hash_safe v ->
  (exists n, is_int64 v n) \/ (exists b, v = VDouble b /\ double_ext b <> ENaN).
Proof.
  intros Hv Hn Hs. destruct v; try discriminate; cbn [hash_safe value_ok] in *.
  - right. exists bits. tauto.
  - left. exists z. split; [zbounds; lia|reflexivity].
  - left. exists z. split; [exact Hv|reflexivity].
  - now left.
Qed.

(** A hash that agrees on the representations of 64-bit integers agrees on safe
    numbers. *)
Lemma safe_numbers_agree {A} (h : bson_value -> A) (g : Z -> A) :
  (forall v n, value_ok v -> BsonValueIsNumber v = true -> hash_safe v -> is_int64 v n -> h v = g n) ->
  forall l r, value_ok l -> value_ok r -> hash_safe l -> hash_safe r ->
  BsonValueIsNumber l = true -> BsonValueIsNumber r = true ->
  ext_eq (num_key l) (num_key r) -> h l = h r.
Proof.
  intros Hg l r Hl Hr Sl Sr Nl Nr E.
  pose proof (number_or_bool l Nl) as Bl. pose proof (number_or_bool r Nr) as Br.
  assert (I : forall n, is_int64 l n -> h l = h r).
  { intros n Hi. rewrite (Hg l n) by assumption. symmetry. apply Hg; auto.
    apply key_is_int64; auto; [apply Hi|].
    eapply ext_eq_trans; [apply ext_eq_sym, E|]. now apply is_int64_key. }
  destruct (safe_number_cases l Hl Nl Sl) as [[n Hi]|(a & -> & Na)]; [eauto|].
  destruct (safe_number_cases r Hr Nr Sr) as [[n Hi]|(b & -> & Nb)].
  { apply (I n). apply key_is_int64; auto; [apply Hi|].
    eapply ext_eq_trans; [exact E|]. now apply is_int64_key. }
  apply ext_cmp_0 in E. rewrite <- num_key_order in E by (assumption || reflexivity).
  apply ext_cmp_0 in E. destruct (double_ext_inj a b Hl Hr Na E) as [->|[Z _]]; [reflexivity|].
  apply (I 0). split; [zbounds; lia|exact Z].
Qed.

Section Hashing.
Variables (hash_bytes_func : bytes -> Z -> Z) (hash_combine_func : Z -> Z -> Z) (seed : Z).

Local Abbreviation HashValue := (HashBsonValueCompare hash_bytes_func hash_combine_func seed).
Local Abbreviation HashFields := (BsonHashCompare hash_bytes_func hash_combine_func seed HashValue).
Local Abbreviation hash_typed := (hash_typed hash_bytes_func hash_combine_func seed).

(** A safe number that is a 64-bit integer hashes as that integer. *)
Lemma hash_integer v n : value_ok v -> BsonValueIsNumber v = true -> hash_safe v -> is_int64 v n ->
  HashValue v = Ok (hash_typed BSON_TYPE_INT64 (int64_bytes n)).
Proof.
  intros Hv Hn Hs Hi. destruct v; try discriminate; cbn [HashBsonValueCompare hash_safe] in *.
  - destruct Hs as [_ Hs]. rewrite (Hs n Hi). cbn [res_bind]. unfold hash_int64.
    now rewrite (double_as_int64 _ _ Hi).
  - destruct Hi as [_ E]. apply (proj1 (inject_Z_injective _ _)) in E. now subst.
  - destruct Hi as [_ E]. apply (proj1 (inject_Z_injective _ _)) in E. now subst.
  - destruct (decimal_is_int64 d n Hv Hi) as [-> E]. cbn [res_bind]. unfold hash_int64. now rewrite E.
Qed.

Lemma hash_numbers l r : value_ok l -> value_ok r -> hash_safe l -> hash_safe r ->
  BsonValueIsNumber l = true -> BsonValueIsNumber r = true ->
  ext_eq (num_key l) (num_key r) -> HashValue l = HashValue r.
Proof. exact (safe_numbers_agree HashValue _ hash_integer l r). Qed.

Lemma lexz_0 x y : lexz x y = 0 -> x = 0 /\ y = 0.
Proof. unfold lexz. destruct (Z.eqb_spec x 0); lia. Qed.

Lemma BsonHashCompare_fields l :
  Forall (fun kv => forall r, value_ok (snd kv) -> value_ok r -> hash_safe (snd kv) -> hash_safe r ->
    value_order None (snd kv) r = 0 -> HashValue (snd kv) = HashValue r) l ->
  forall r h, doc_ok l -> doc_ok r ->
  fields_all (fun _ v => hash_safe v) l -> fields_all (fun _ v => hash_safe v) r ->
  doc_order l r = 0 -> HashFields l h = HashFields r h.
Proof.
  unfold doc_order.
  induction 1 as [|[lk lv] l Hv _ IH]; intros [|[rk rv] r] h; cbn [fields_order BsonHashCompare];
    try discriminate; [reflexivity|].
  intros [[_ Hlv] Hl] [[_ Hrv] Hr] [Slv Sl] [Srv Sr] E. cbn [snd] in Hv.
  apply lexz_0 in E as [_ E]. apply lexz_0 in E as [Ek E]. apply lexz_0 in E as [Ev E].
  apply cmp_bytes_0 in Ek. subst rk. rewrite (Hv rv) by assumption.
  destruct (HashValue rv); cbn [res_bind]; [|reflexivity]. now apply IH.
Qed.

Ltac hash_equal_parts :=
  repeat match goal with
    | H : lexz _ _ = 0 |- _ => apply lexz_0 in H as [? ?]
    | H : cmp_bytes _ _ = 0 |- _ => apply (proj1 (cmp_bytes_0 _ _)) in H; subst
    | H : opt_order _ _ = 0 |- _ => apply opt_order_0 in H; subst
    | H : cmpz _ _ = 0 |- _ => apply (proj1 (cmpz_0 _ _)) in H; subst
    | H : _ /\ _ |- _ => destruct H
    end.

Lemma VBool_key_inj a b : ext_eq (num_key (VBool a)) (num_key (VBool b)) -> a = b.
Proof. destruct a, b; vm_compute; congruence. Qed.

Lemma value_order_same_class l r : value_order None l r = 0 -> CompareBsonSortOrderType l r = 0.
Proof. intros E. destruct l; cbn [value_order] in E; now apply lexz_0 in E as [E _]. Qed.

Lemma HashBsonValueCompare_order l : forall r, value_ok l -> value_ok r -> hash_safe l -> hash_safe r ->
  value_order None l r = 0 -> HashValue l = HashValue r.
Proof.
  induction l using bson_value_nested_ind; intros w Hl Hr Sl Sr E;
    pose proof (value_order_same_class _ _ E) as C; destruct w;
    unfold CompareBsonSortOrderType, CompareSortOrderType in C;
    cbn [value_type GetSortOrderType] in C; try discriminate C; clear C;
    cbn [value_order string_payload] in E; apply lexz_0 in E as [_ E];
    try (apply hash_numbers; auto; now apply ext_cmp_0);
    unfold string_order in E; cbn [hash_safe value_ok] in *; hash_equal_parts; try contradiction;
    cbn [HashBsonValueCompare];
    try (erewrite BsonHashCompare_fields by eassumption);
    try reflexivity.
  - replace subtype with t by lia. reflexivity.
  - apply ext_cmp_0, VBool_key_inj in E. now subst.
Qed.

End Hashing.

Lemma compare_0_order l r valid : value_ok l -> value_ok r ->
  CompareBsonValueAndType l r = Ok (0, valid) -> value_order None l r = 0.
Proof.
  intros Hl Hr E. destruct (CompareBsonValueAndType_answers None no_collation l r Hl Hr)
    as (c & v & E' & S & _).
  change (CompareBsonValueAndTypeWithCollation l r None) with (CompareBsonValueAndType l r) in E'.
  rewrite E in E'. injection E' as <- _. unfold same_sign in S. now apply Z.sgn_null_iff.
Qed.

(** C31: Values that the comparison calls equal have the same hash, for both widths
    and every seed, on the fragment [hash_safe]: integers of every numeric type,
    finite doubles, strings and symbols, and any nesting of documents and arrays
    over them. *)
Theorem HashBsonValueComparable_respects_equality (l r : bson_value) (valid : bool) (seed : Z) :
  value_ok l -> value_ok r -> hash_safe l -> hash_safe r ->
  CompareBsonValueAndType l r = Ok (0, valid) ->
  HashBsonValueComparableExtended l seed = HashBsonValueComparableExtended r seed /\
  HashBsonValueComparable l seed = HashBsonValueComparable r seed.
Proof.
  intros Hl Hr Sl Sr E. apply compare_0_order in E; auto.
  unfold HashBsonValueComparableExtended, HashBsonValueComparable.
  now rewrite (HashBsonValueCompare_order HashBytesUint64 hash_combine64 seed l r),
    (HashBsonValueCompare_order HashBytesUint32AsUint64 HashCombineUint32AsUint64 seed l r).
Qed.

Lemma document_hash_order f c seed l r h : doc_ok l -> doc_ok r ->
  fields_all (fun _ v => hash_safe v) l -> fields_all (fun _ v => hash_safe v) r ->
  doc_order l r = 0 ->
  BsonHashCompare f c seed (HashBsonValueCompare f c seed) l h =
  BsonHashCompare f c seed (HashBsonValueCompare f c seed) r h.
Proof.
  intros. apply BsonHashCompare_fields; auto. apply Forall_forall. intros kv _ w ? ? ? ? ?.
  now apply HashBsonValueCompare_order.
Qed.

(** The hash operator class agrees with the equality operator on documents. *)
Theorem extension_bson_hash_respects_equal (a b : bytes) (seed : Z) :
  pgbson_ok a -> pgbson_ok b ->
  fields_all (fun _ v => hash_safe v) (bson_decode a) ->
  fields_all (fun _ v => hash_safe v) (bson_decode b) ->
  extension_bson_equal a b = Ok true ->
  extension_bson_hash_int4 a = extension_bson_hash_int4 b /\
  extension_bson_hash_int8 a seed = extension_bson_hash_int8 b seed.
Proof.
  intros Ha Hb Sa Sb E. unfold extension_bson_equal in E.
  destruct (ComparePgbson_decode a b Ha Hb) as (c & E' & S). rewrite E' in E. cbn [res_bind] in E.
  injection E as E. apply Z.eqb_eq in E. subst c.
  assert (O : doc_order (bson_decode a) (bson_decode b) = 0).
  { unfold same_sign in S. now apply Z.sgn_null_iff. }
  unfold extension_bson_hash_int4, extension_bson_hash_int8, HashBsonComparable, HashBsonComparableExtended.
  now rewrite (document_hash_order HashBytesUint64 hash_combine64 seed (bson_decode a) (bson_decode b)),
    (document_hash_order HashBytesUint32AsUint64 HashCombineUint32AsUint64 0 (bson_decode a) (bson_decode b)).
Qed.

End Agreement.

(** ** Hashing never fails *)

Section Total.
Context {BL : BidLib} {LB : LibBson} {PG : PgHash} {VM : ValueMemory}.

Lemma CompareBsonDecimal128_total a b : exists r, CompareBsonDecimal128 (VDecimal128 a) (VDecimal128 b) = Ok r.
Proof.
  unfold CompareBsonDecimal128, IsDecimal128NaN. rewrite !GetBID_dec. cbn [res_bind].
  destruct (BIDUINT128SignalingEqual a b 0) as [e f]. destruct (IsOperationInvalid f); [eauto|].
  destruct e; [eauto|]. destruct (bid128_quiet_greater a b). eauto.
Qed.

Lemma IsDecimal128AFixedInteger_total d : exists b, IsDecimal128AFixedInteger (VDecimal128 d) = Ok b.
Proof.
  unfold IsDecimal128AFixedInteger, Decimal128ToInt64Floor. rewrite GetBID_dec. cbn [res_bind].
  destruct (bid128_to_int64_floor d) as [z f]. destruct (IsOperationInvalid f); cbn [res_bind]; [eauto|].
  destruct (CompareBsonDecimal128_total d (GetDecimal128FromInt64 z)) as [[c v] ->]. cbn [res_bind]. eauto.
Qed.

(** The range check and the conversion look at the same library call. *)
Lemma decimal_int64_total d :
  exists b, IsBsonValue64BitInteger (VDecimal128 d) true = Ok b /\
    (b = true -> exists z, BsonValueAsInt64 (VDecimal128 d) = Ok z).
Proof.
  unfold IsBsonValue64BitInteger, IsBsonValue64BitIntegerCore, IsDecimal128InInt64Range,
    IsDecimal128Finite, BsonValueAsInt64, BsonValueAsInt64WithRoundingMode, GetBsonDecimal128AsInt64.
  rewrite !GetBID_dec. cbn [res_bind].
  destruct (bid128_isFinite d); cbn [negb res_bind]; [|exists false; now split].
  destruct (bid128_to_int64_xint d) as [z f].
  destruct (IsOperationInvalid f); cbn [negb res_bind]; [exists false; now split|].
  destruct (IsDecimal128AFixedInteger_total d) as [b ->]. exists b. split; [reflexivity|].
  intros _. exists z. now destruct (negb (IsOperationSuccess f)).
Qed.

Lemma double_int64_total b : exists r, IsBsonValue64BitInteger (VDouble b) true = Ok r.
Proof.
  unfold IsBsonValue64BitInteger, IsBsonValue64BitIntegerCore. cbn [GetBsonValueAsDecimal128Quantized].
  assert (D : exists d, GetBsonValueAsDecimal128Quantized (VDouble b) = Ok d).
  { unfold GetBsonValueAsDecimal128Quantized, GetBsonValueAsDecimal128Core. cbn.
    destruct (binary64_to_bid128 b _) as [d f]. destruct (_ || _ || _); eauto. }
  destruct D as [d ->]. cbn [res_bind].
  unfold IsDecimal128InInt64Range, IsDecimal128Finite. rewrite !GetBID_dec. cbn [res_bind].
  destruct (bid128_isFinite d); cbn [negb res_bind]; [|eauto].
  destruct (bid128_to_int64_xint d) as [z f].
  destruct (IsOperationInvalid f); cbn [negb res_bind]; [eauto|]. apply IsDecimal128AFixedInteger_total.
Qed.

Lemma BsonHashCompare_total f c seed hv l :
  Forall (fun kv => exists h, hv (snd kv) = Ok h) l ->
  forall a, exists h, BsonHashCompare f c seed hv l a = Ok h.
Proof.
  induction 1 as [|[k v] l [h Hv] _ IH]; intros a; cbn [BsonHashCompare]; [eauto|].
  cbn [snd] in Hv. rewrite Hv. cbn [res_bind]. apply IH.
Qed.

Lemma HashBsonValueCompare_total f c seed v : exists h, HashBsonValueCompare f c seed v = Ok h.
Proof.
  induction v using bson_value_nested_ind; cbn [HashBsonValueCompare]; try (eexists; reflexivity);
    try (edestruct BsonHashCompare_total as [x ->]; [eassumption|]; eexists; reflexivity).
  - destruct (double_int64_total b) as [[] ->]; cbn [res_bind]; [eexists; reflexivity|].
    unfold GetBsonValueAsDecimal128, GetBsonValueAsDecimal128Core. cbn.
    destruct (binary64_to_bid128 b _) as [d fl]. rewrite orb_true_r. eexists; reflexivity.
  - destruct (decimal_int64_total d) as (x & -> & H). cbn [res_bind]. destruct x; [|eexists; reflexivity].
    destruct (H eq_refl) as [z E]. unfold hash_int64. rewrite E. eexists; reflexivity.
Qed.

(** The comparable hash returns for every value, well-formed or not: the
    conversions it performs are guarded so that none of them reports an error. *)
Theorem HashBsonValueComparable_total (v : bson_value) (seed : Z) :
  (exists h, HashBsonValueComparable v seed = Ok h) /\
  (exists h, HashBsonValueComparableExtended v seed = Ok h).
Proof.
  unfold HashBsonValueComparable, HashBsonValueComparableExtended. split.
  - destruct (HashBsonValueCompare_total HashBytesUint32AsUint64 HashCombineUint32AsUint64 seed v) as [h ->].
    eexists; reflexivity.
  - apply HashBsonValueCompare_total.
Qed.

End Total.

(** ** Concrete values *)

Section Witnesses.
#[local] Existing Instance RefBidLib.
#[local] Existing Instance RefBidLaws.
#[local] Existing Instance RefLibBson.
#[local] Existing Instance RefLibBsonLaws.

(** An injective stand-in for the hash primitives. *)
#[local] Instance RefPgHash : PgHash := {|
  hash_bytes b := le_Z (b ++ [x01]);
  hash_bytes_extended b _ := le_Z (b ++ [x01]);
  hash_bytes_uint32_extended z _ := z;
  hash_combine a b := a * 2 ^ 300 + b;
  hash_combine64 a b := a * 2 ^ 300 + b
|}.

#[local] Instance RefMemory : ValueMemory := {|
  v_doc_data _ := [];
  v_code_of_codewscope code _ := code;
  at_regex_field s _ := s
|}.

Definition five_int : bson_value := VDocument [(str "a", VInt32 5); (str "b", VUtf8 (str "x"))].
Definition five_double : bson_value := VDocument [(str "a", VDouble 4617315517961601024); (str "b", VSymbol (str "x"))].

Lemma HashBsonValueComparable_respects_equality_witness :
  HashBsonValueComparableExtended five_int 7 = HashBsonValueComparableExtended five_double 7 /\
  HashBsonValueComparable five_int 7 = HashBsonValueComparable five_double 7.
Proof.
  apply (HashBsonValueComparable_respects_equality five_int five_double true 7).
  - repeat split; try (apply no_nulb_ok; reflexivity); vm_compute; congruence.
  - repeat split; try (apply no_nulb_ok; reflexivity); vm_compute; congruence.
  - repeat split.
  - split; [|now repeat split]. split; [vm_compute; congruence|]. intros n _. vm_compute. reflexivity.
  - vm_compute. reflexivity.
Defined.

Lemma extension_bson_hash_respects_equal_witness :
  extension_bson_hash_int4 (str "ab") = extension_bson_hash_int4 (str "ab") /\
  extension_bson_hash_int8 (str "ab") 3 = extension_bson_hash_int8 (str "ab") 3.
Proof.
  assert (H : pgbson_ok (str "ab")) by (repeat split; try apply Forall_nil; vm_compute; reflexivity).
  apply (extension_bson_hash_respects_equal (str "ab") (str "ab") 3 H H);
    [repeat split|repeat split|vm_compute; reflexivity].
Defined.

(** Two representations of one decimal, 1.1 and 1.10, compare equal; the hash
    takes the bits of the representation, so they have different hashes. *)
Theorem HashBsonValueComparable_decimal_cohort :
  let a := VDecimal128 (bid_encode false 11 (-1)) in
  let b := VDecimal128 (bid_encode false 110 (-2)) in
  CompareBsonValueAndType a b = Ok (0, true) /\
  HashBsonValueComparableExtended a 0 <> HashBsonValueComparableExtended b 0.
Proof. split; [vm_compute; reflexivity|]. vm_compute. congruence. Qed.

(** The double -2^63 and the [int64] -2^63 compare equal; quantizing the double
    to 15 digits takes it out of the [int64] range, so that it is not recognized
    as an integer and gets another hash. *)
Theorem HashBsonValueComparable_int64_min :
  let a := VDouble 14114281232179134464 in
  CompareBsonValueAndType a (VInt64 INT64_MIN) = Ok (0, true) /\
  IsBsonValue64BitInteger a true = Ok false /\
  HashBsonValueComparableExtended a 0 <> HashBsonValueComparableExtended (VInt64 INT64_MIN) 0.
Proof. split; [vm_compute; reflexivity|]. split; [vm_compute; reflexivity|]. vm_compute. congruence. Qed.

(** Negative zero compares equal to zero; the shard-key hash takes the bits of
    the double and tells them apart. *)
Theorem BsonValueHash_negative_zero :
  CompareBsonValueAndType (VDouble (2 ^ 63)) (VInt32 0) = Ok (0, true) /\
  BsonValueHash (VDouble (2 ^ 63)) 0 <> BsonValueHash (VInt32 0) 0.
Proof. split; [vm_compute; reflexivity|]. vm_compute. congruence. Qed.

(** Of a decimal that is not an integer, the 32-bit hash takes the low 4 bytes
    of the coefficient only: decimals that differ in the exponent collide. *)
Theorem BsonValueHashUint32_decimal_prefix :
  let a := VDecimal128 (bid_encode false 11 (-1)) in
  let b := VDecimal128 (bid_encode false 11 (-2)) in
  CompareBsonValueAndType a b = Ok (1, true) /\ BsonValueHashUint32 a = BsonValueHashUint32 b.
Proof. split; vm_compute; reflexivity. Qed.

End Witnesses.
