(* ===== verification/BsonArith.v ===== *)
(** * Arithmetic on BSON numbers ([pgbson_utils.c])

    The accumulators of [$sum], [$inc], [$mul], [$bit], [$divide] and window
    ranges.  Each operation updates its first operand; the updated operand is
    part of the result, as are the returned boolean and the out parameter
    [overflowedFromInt64] (given the value it has before the call).  Signed
    overflow wraps, as the extension is compiled like PostgreSQL itself. *)

From Stdlib Require Import ZArith QArith Lia Bool SpecFloat String List.
From S2P Require Import Prelude SoftFloat BsonTypes Decimal128 BsonCompare BsonOrder RefBid.
Import ListNotations.
Local Open Scope Z_scope.

(** [value.v_int32] of a value whose active member is another one. *)
Class UnionView : Type := { v_int32_of_other : bson_value -> Z }.

Section Arith.
Context {BL : BidLib} {LB : LibBson} {UV : UnionView}.
Local Open Scope res_scope.

(** libbson's [BSON_ITER_HOLDS_NUMBER]: not the decimals. *)
Definition BSON_ITER_HOLDS_NUMBER (v : bson_value) : bool :=
  match v with VInt32 _ | VInt64 _ | VDouble _ => true | _ => false end.

(** The number of leading numbers, and whether they are all the elements. *)
Fixpoint count_numbers (iter : fields) (numElements : Z) : bool * Z :=
  match iter with
  | [] => (true, numElements)
  | (_, v) :: iter' =>
    if negb (BSON_ITER_HOLDS_NUMBER v) then (false, numElements)
    else count_numbers iter' (wrap_s 32 (numElements + 1))
  end.

Definition BsonValueHoldsNumberArray (currentValue : bson_value) : res (bool * Z) :=
  match currentValue with
  | VArray d => Ok (count_numbers d 0)
  | _ => Err ERRCODE_DOCUMENTDB_BADVALUE
  end.

(** The value part of an operation that ignores the decimal exception flags. *)
Definition result_value (r : res (bson_value * Decimal128Result)) : res bson_value :=
  let* '(v, _) := r in Ok v.

Definition AddDoubleToValue (current : bson_value) (value : Z) : res bson_value :=
  match current with
  | VDecimal128 _ =>
    let* d := GetBsonValueAsDecimal128Quantized (VDouble value) in
    result_value (AddDecimal128Numbers current (VDecimal128 d))
  | _ =>
    let* currentValue := BsonValueAsDouble current in
    Ok (VDouble (double_add currentValue value))
  end.

Definition AddInt64ToValue (current : bson_value) (value : Z) : res (bson_value * bool) :=
  match current with
  | VDouble _ => let* v := AddDoubleToValue current (double_of_int value) in Ok (v, false)
  | VDecimal128 _ =>
    let* d := GetBsonValueAsDecimal128Quantized (VInt64 value) in
    let* v := result_value (AddDecimal128Numbers current (VDecimal128 d)) in
    Ok (v, false)
  | _ =>
    let* currentSum := BsonValueAsInt64 current in
    if ((value >? 0) && (currentSum >? wrap_s 64 (INT64_MAX - value))) ||
       ((value <? 0) && (currentSum <? wrap_s 64 (INT64_MIN - value)))
    then let* v := AddDoubleToValue current (double_of_int value) in Ok (v, true)
    else Ok (VInt64 (wrap_s 64 (currentSum + value)), false)
  end.

(** [overflowedFromInt64] keeps its value [overflowed] on the branches that do not set it. *)
Definition AddInt32ToValue (current : bson_value) (value : Z) (overflowed : bool)
  : res (bson_value * bool) :=
  match current with
  | VDouble _ => let* v := AddDoubleToValue current (double_of_int value) in Ok (v, overflowed)
  | VInt64 _ => AddInt64ToValue current value
  | VDecimal128 _ =>
    let* d := GetBsonValueAsDecimal128Quantized (VInt32 value) in
    let* v := result_value (AddDecimal128Numbers current (VDecimal128 d)) in
    Ok (v, overflowed)
  | _ =>
    let* currentValue := BsonValueAsInt64 current in
    let currentValue := wrap_s 64 (currentValue + value) in
    if (currentValue >? INT32_MAX) || (currentValue <? INT32_MIN)
    then Ok (VInt64 currentValue, overflowed)
    else Ok (VInt32 (wrap_s 32 currentValue), overflowed)
  end.

Definition AddDecimal128ToValue (current value : bson_value) : res bson_value :=
  let* currentValue := GetBsonValueAsDecimal128Quantized current in
  result_value (AddDecimal128Numbers (VDecimal128 currentValue) value).

Definition SubtractDecimal128FromValue (current value : bson_value) : res bson_value :=
  let* currentValue := GetBsonValueAsDecimal128Quantized current in
  result_value (SubtractDecimal128Numbers (VDecimal128 currentValue) value).

(** The result of an update: the returned boolean, the updated first operand
    and the overflow indication. *)
Record update : Set := Update { returned : bool; updated : bson_value; overflow : bool }.

Definition finish (r : res (bson_value * bool)) : res update :=
  let* '(v, o) := r in Ok (Update true v o).

Definition keep_flag (overflowed : bool) (r : res bson_value) : res (bson_value * bool) :=
  let* v := r in Ok (v, overflowed).

Definition AddNumberToBsonValue (state number : bson_value) (overflowed : bool) : res update :=
  if negb (BsonValueIsNumberOrBool state) then Ok (Update false state overflowed)
  else
    match number with
    | VInt64 z => finish (AddInt64ToValue state z)
    | VInt32 z => finish (AddInt32ToValue state z overflowed)
    | VDouble b => finish (keep_flag overflowed (AddDoubleToValue state b))
    | VDecimal128 _ => finish (keep_flag overflowed (AddDecimal128ToValue state number))
    | _ => Ok (Update false state overflowed)
    end.

Definition SubtractNumberFromBsonValue (state subtrahend : bson_value) (overflowed : bool) : res update :=
  if negb (BsonValueIsNumberOrBool state) then Ok (Update false state overflowed)
  else
    match subtrahend with
    | VInt64 z => finish (AddInt64ToValue state (wrap_s 64 (- z)))
    | VInt32 z => finish (AddInt32ToValue state (wrap_s 32 (- z)) overflowed)
    | VDouble b => finish (keep_flag overflowed (AddDoubleToValue state (double_neg b)))
    | VDecimal128 _ => finish (keep_flag overflowed (SubtractDecimal128FromValue state subtrahend))
    | _ => Ok (Update false state overflowed)
    end.

Definition divide_decimals (dividend divisor : bson_value) : res (bool * bson_value) :=
  let* dividend128 := (if is_decimal divisor
    then let* d := GetBsonValueAsDecimal128Quantized dividend in Ok (VDecimal128 d)
    else Ok dividend) in
  let* divisor128 := (if is_decimal divisor then Ok divisor
    else let* d := GetBsonValueAsDecimal128Quantized divisor in Ok (VDecimal128 d)) in
  let* zero := IsDecimal128Zero divisor128 in
  if zero then Err ERRCODE_DOCUMENTDB_BADVALUE
  else
    let* v := result_value (DivideDecimal128Numbers dividend128 divisor128) in
    Ok (true, v).

Definition DivideBsonValueNumbers (dividend divisor : bson_value) : res (bool * bson_value) :=
  if negb (BsonValueIsNumberOrBool dividend) || negb (BsonValueIsNumberOrBool divisor)
  then Ok (false, dividend)
  else if is_decimal dividend || is_decimal divisor then divide_decimals dividend divisor
  else
    let* dividendDouble := BsonValueAsDouble dividend in
    let* divisorDouble := BsonValueAsDouble divisor in
    if SFeqb (sf_of_bits divisorDouble) (S754_zero false) then Err ERRCODE_DOCUMENTDB_BADVALUE
    else Ok (true, VDouble (double_div dividendDouble divisorDouble)).

Definition v_int32 (v : bson_value) : Z :=
  match v with VInt32 z => z | _ => v_int32_of_other v end.

Definition is_int64_type (v : bson_value) : bool := type_eqb (value_type v) BSON_TYPE_INT64.

(** The three [$bit] operations differ in the operator only. *)
Definition bitwise (op : Z -> Z -> Z) (state number : bson_value) : res bson_value :=
  if is_int64_type state || is_int64_type number then
    let* a := BsonValueAsInt64 state in
    let* b := BsonValueAsInt64 number in
    Ok (VInt64 (op a b))
  else Ok (VInt32 (op (v_int32 state) (v_int32 number))).

Definition BitwiseAndToBsonValue := bitwise Z.land.
Definition BitwiseOrToBsonValue := bitwise Z.lor.
Definition BitwiseXorToBsonValue := bitwise Z.lxor.

(** C's [product / factor] on [int64]: the quotient that does not fit raises SIGFPE. *)
Definition int64_div (a b : Z) : res Z :=
  if (b =? 0) || ((a =? INT64_MIN) && (b =? -1)) then Err ERRCODE_FLOATING_POINT_EXCEPTION
  else Ok (Z.quot a b).

Definition multiply_int64 (state factor : bson_value) (convertInt64OverflowToDouble : bool)
  : res (bool * bson_value) :=
  let* a := BsonValueAsInt64 state in
  let* b := BsonValueAsInt64 factor in
  let product := wrap_s 64 (a * b) in
  let* overflowed := (if product =? 0 then Ok false
                      else let* q := int64_div product b in Ok (negb (a =? q))) in
  if overflowed then
    if convertInt64OverflowToDouble then
      let* x := BsonValueAsDouble state in
      let* y := BsonValueAsDouble factor in
      Ok (true, VDouble (double_mul x y))
    else Ok (false, state)
  else Ok (true, VInt64 product).

Definition multiply_int32 (state factor : bson_value) : res (bool * bson_value) :=
  let* a := BsonValueAsInt64 state in
  let* b := BsonValueAsInt64 factor in
  let product := wrap_s 64 (a * b) in
  if (product <? INT32_MIN) || (product >? INT32_MAX) then Ok (true, VInt64 product)
  else Ok (true, VInt32 (wrap_s 32 product)).

Definition MultiplyWithFactorAndUpdate (state factor : bson_value) (convertInt64OverflowToDouble : bool)
  : res (bool * bson_value) :=
  if negb (BsonValueIsNumber state) || negb (BsonValueIsNumber factor) then Ok (false, state)
  else if is_decimal state || is_decimal factor then
    let* s := GetBsonValueAsDecimal128Quantized state in
    let* f := GetBsonValueAsDecimal128Quantized factor in
    let* v := result_value (MultiplyDecimal128Numbers (VDecimal128 s) (VDecimal128 f)) in
    Ok (true, v)
  else if is_double state || is_double factor then
    let* x := BsonValueAsDouble state in
    let* y := BsonValueAsDouble factor in
    Ok (true, VDouble (double_mul x y))
  else if is_int64_type state || is_int64_type factor then
    multiply_int64 state factor convertInt64OverflowToDouble
  else multiply_int32 state factor.

(** The three arguments are documents with a single element; [None] stands for
    the failure of [TryGetSinglePgbsonElementFromPgbson]. *)
Definition bson_in_range_numeric (val base offset : option bson_value) (less : bool) : res bool :=
  match val, base, offset with
  | Some val, Some base, Some offset =>
    if negb (BsonTypeIsNumber (value_type val)) || negb (BsonTypeIsNumber (value_type base))
    then Err ERRCODE_DOCUMENTDB_LOCATION5429414
    else
      let* sum := AddNumberToBsonValue base offset false in
      let* '(result, _) := CompareBsonValue None val (updated sum) in
      Ok (if less then result <=? 0 else result >=? 0)
  | _, _, _ => Err ERRCODE_DOCUMENTDB_INTERNALERROR
  end.

End Arith.

(** ** Integers *)

(** The integer held by a value of an integral type or a boolean. *)
Definition int_value (v : bson_value) : option Z :=
  match v with
  | VBool b => Some (b2z b)
  | VInt32 z | VInt64 z => Some z
  | _ => None
  end.

Lemma int_value_ok v z : value_ok v -> int_value v = Some z -> int64_ok z.
Proof.
  destruct v; cbn; try discriminate; intros H E; injection E as <-; auto.
  - destruct b; zbounds; simpl; lia.
  - zbounds. lia.
Qed.

(** Bitwise operations stay in the range of their operands' width. *)
Lemma shiftr_range a n : 0 <= n -> (- 2 ^ n <= a < 2 ^ n <-> Z.shiftr a n = 0 \/ Z.shiftr a n = -1).
Proof.
  intros Hn. rewrite Z.shiftr_div_pow2 by lia. pose proof (Z.pow_pos_nonneg 2 n).
  pose proof (Z.div_mod a (2 ^ n)). pose proof (Z.mod_pos_bound a (2 ^ n)). split; nia.
Qed.

(** An operator on single bits, lifted to integers. *)
Class BitOp (op : Z -> Z -> Z) : Prop := {
  bitop_shiftr : forall a b n, Z.shiftr (op a b) n = op (Z.shiftr a n) (Z.shiftr b n);
  bitop_signs : forall a b, a = 0 \/ a = -1 -> b = 0 \/ b = -1 -> op a b = 0 \/ op a b = -1
}.

#[export] Instance BitOp_land : BitOp Z.land.
Proof. split; [intros; apply Z.shiftr_land|]. intros a b [->| ->] [->| ->]; cbn; auto. Qed.
#[export] Instance BitOp_lor : BitOp Z.lor.
Proof. split; [intros; apply Z.shiftr_lor|]. intros a b [->| ->] [->| ->]; cbn; auto. Qed.
#[export] Instance BitOp_lxor : BitOp Z.lxor.
Proof. split; [intros; apply Z.shiftr_lxor|]. intros a b [->| ->] [->| ->]; cbn; auto. Qed.

Lemma bitop_range op `{BitOp op} n a b : 0 <= n ->
  - 2 ^ n <= a < 2 ^ n -> - 2 ^ n <= b < 2 ^ n -> - 2 ^ n <= op a b < 2 ^ n.
Proof. intros Hn. rewrite !shiftr_range, bitop_shiftr by exact Hn. apply bitop_signs. Qed.

Lemma bitop_int32 op `{BitOp op} a b : int32_ok a -> int32_ok b -> int32_ok (op a b).
Proof. intros Ha Hb. pose proof (bitop_range op 31 a b). zbounds. lia. Qed.

Lemma bitop_int64 op `{BitOp op} a b : int64_ok a -> int64_ok b -> int64_ok (op a b).
Proof. intros Ha Hb. pose proof (bitop_range op 63 a b). zbounds. lia. Qed.

Section ArithFacts.
Context {BL : BidLib} {LB : LibBson} {UV : UnionView}.

Lemma BsonValueAsInt64_int v z : int_value v = Some z -> BsonValueAsInt64 v = Ok z.
Proof. destruct v; cbn; try discriminate; congruence. Qed.

Lemma BsonValueAsDouble_int v z : int_value v = Some z -> BsonValueAsDouble v = Ok (double_of_int z).
Proof. destruct v; cbn; try discriminate; congruence. Qed.

Lemma AddInt64ToValue_int state s n : int_value state = Some s -> int64_ok s -> int64_ok n ->
  AddInt64ToValue state n =
  if (INT64_MIN <=? s + n) && (s + n <=? INT64_MAX) then Ok (VInt64 (s + n), false)
  else Ok (VDouble (double_add (double_of_int s) (double_of_int n)), true).
Proof.
  intros E Hs Hn.
  assert (A : AddInt64ToValue state n =
    if ((n >? 0) && (s >? wrap_s 64 (INT64_MAX - n))) || ((n <? 0) && (s <? wrap_s 64 (INT64_MIN - n)))
    then Ok (VDouble (double_add (double_of_int s) (double_of_int n)), true)
    else Ok (VInt64 (wrap_s 64 (s + n)), false)).
  { unfold AddInt64ToValue, AddDoubleToValue.
    destruct state; try discriminate; injection E as <-; reflexivity. }
  rewrite A. clear A E.
  destruct ((INT64_MIN <=? s + n) && (s + n <=? INT64_MAX)) eqn:B.
  - rewrite (wrap_s64_id (s + n)) by (unfold int64_ok; lia).
    replace (_ || _) with false; [reflexivity|]. symmetry. apply orb_false_intro.
    + destruct (Z.gtb_spec n 0); [|reflexivity]. rewrite wrap_s64_id by (zbounds; lia). lia.
    + destruct (Z.ltb_spec n 0); [|reflexivity]. rewrite wrap_s64_id by (zbounds; lia). lia.
  - replace (_ || _) with true; [reflexivity|]. symmetry. apply orb_true_iff.
    destruct (Z.lt_trichotomy n 0) as [H|[H|H]].
    + right. rewrite wrap_s64_id by (zbounds; lia). zbounds. lia.
    + zbounds. lia.
    + left. rewrite wrap_s64_id by (zbounds; lia). zbounds. lia.
Qed.

Lemma AddInt32ToValue_int state s n o : int_value state = Some s -> is_int64_type state = false ->
  int32_ok s -> int32_ok n ->
  AddInt32ToValue state n o =
  Ok (if (INT32_MIN <=? s + n) && (s + n <=? INT32_MAX) then VInt32 (s + n) else VInt64 (s + n), o).
Proof.
  intros E T Hs Hn.
  assert (A : AddInt32ToValue state n o =
    if (wrap_s 64 (s + n) >? INT32_MAX) || (wrap_s 64 (s + n) <? INT32_MIN)
    then Ok (VInt64 (wrap_s 64 (s + n)), o) else Ok (VInt32 (wrap_s 32 (wrap_s 64 (s + n))), o)).
  { unfold AddInt32ToValue. destruct state; try discriminate; injection E as <-; reflexivity. }
  rewrite A. clear A E. rewrite wrap_s64_id by (zbounds; lia).
  destruct ((INT32_MIN <=? s + n) && (s + n <=? INT32_MAX)) eqn:B.
  - rewrite (wrap_s32_id (s + n)) by (unfold int32_ok; lia).
    replace (_ || _) with false by lia. reflexivity.
  - replace (_ || _) with true by lia. reflexivity.
Qed.

(** The type an integer sum is computed in. *)
Definition wide (state number : bson_value) : bool := is_int64_type state || is_int64_type number.

(** The sum of two integers: as [int32] when both operands are at most 32 bits
    wide and the sum fits, else as [int64], else as a double, and only the last
    case is reported as an overflow. *)
Definition integer_sum (wide : bool) (s n : Z) (overflowed : bool) : update :=
  if wide then
    if (INT64_MIN <=? s + n) && (s + n <=? INT64_MAX) then Update true (VInt64 (s + n)) false
    else Update true (VDouble (double_add (double_of_int s) (double_of_int n))) true
  else
    Update true (if (INT32_MIN <=? s + n) && (s + n <=? INT32_MAX) then VInt32 (s + n) else VInt64 (s + n))
      overflowed.

Lemma narrow_ok v z : value_ok v -> int_value v = Some z -> is_int64_type v = false -> int32_ok z.
Proof.
  destruct v; cbn; try discriminate; intros H E T; injection E as <-; auto.
  destruct b; zbounds; simpl; lia.
Qed.

Lemma add_integer state s : int_value state = Some s -> value_ok state -> forall o,
  (forall n, int64_ok n -> finish (AddInt64ToValue state n) = Ok (integer_sum true s n o)) /\
  (forall n, int32_ok n -> finish (AddInt32ToValue state n o) = Ok (integer_sum (is_int64_type state) s n o)).
Proof.
  intros E Hs o.
  assert (A : forall n, int64_ok n -> finish (AddInt64ToValue state n) = Ok (integer_sum true s n o)).
  { intros n Hn. rewrite (AddInt64ToValue_int state s n E (int_value_ok _ _ Hs E) Hn).
    unfold integer_sum. destruct (_ && _); reflexivity. }
  split; [exact A|]. intros n Hn. destruct (is_int64_type state) eqn:T.
  - destruct state; try discriminate. apply A. zbounds. lia.
  - rewrite (AddInt32ToValue_int state s n o E T (narrow_ok _ _ Hs E T) Hn). reflexivity.
Qed.

(** [AddNumberToBsonValue] on integers (the accumulator may be a boolean):
    exact unless the sum leaves the [int64] range, in which case it continues in
    double precision and reports the overflow. *)
Theorem AddNumberToBsonValue_integers (state number : bson_value) (s n : Z) (overflowed : bool) :
  value_ok state -> value_ok number -> int_value state = Some s -> int_value number = Some n ->
  BsonValueIsNumber number = true ->
  AddNumberToBsonValue state number overflowed = Ok (integer_sum (wide state number) s n overflowed).
Proof.
  intros Hs Hn Es En Nn. unfold AddNumberToBsonValue, wide.
  replace (BsonValueIsNumberOrBool state) with true by (destruct state; easy). cbn [negb].
  destruct (add_integer state s Es Hs overflowed) as [A64 A32].
  destruct number; try discriminate; injection En as <-; cbn [value_ok] in Hn.
  - rewrite orb_false_r. now apply A32.
  - rewrite orb_true_r. now apply A64.
Qed.

(** Subtraction of an integer is exact in the same sense, provided that the
    subtrahend is not the minimum of its type. *)
Theorem SubtractNumberFromBsonValue_integers (state number : bson_value) (s n : Z) (overflowed : bool) :
  value_ok state -> value_ok number -> int_value state = Some s -> int_value number = Some n ->
  BsonValueIsNumber number = true ->
  n <> (if is_int64_type number then INT64_MIN else INT32_MIN) ->
  SubtractNumberFromBsonValue state number overflowed =
  Ok (integer_sum (wide state number) s (- n) overflowed).
Proof.
  intros Hs Hn Es En Nn N. unfold SubtractNumberFromBsonValue, wide.
  replace (BsonValueIsNumberOrBool state) with true by (destruct state; easy). cbn [negb].
  destruct (add_integer state s Es Hs overflowed) as [A64 A32].
  destruct number; try discriminate; injection En as <-; cbn [value_ok is_int64_type] in *.
  - change (z <> INT32_MIN) in N.
    rewrite wrap_s32_id, orb_false_r by (zbounds; lia). apply A32. zbounds. lia.
  - change (z <> INT64_MIN) in N.
    rewrite wrap_s64_id, orb_true_r by (zbounds; lia). apply A64. zbounds. lia.
Qed.

(** [$bit] on integers: the bitwise result, in the wider of the two types, and
    always in the range of that type. *)
Theorem bitwise_integers (op : Z -> Z -> Z) `{BitOp op} (state number : bson_value) (a b : Z) :
  value_ok state -> value_ok number -> BsonValueIsNumber state = true -> BsonValueIsNumber number = true ->
  int_value state = Some a -> int_value number = Some b ->
  exists r, bitwise op state number = Ok r /\ value_ok r /\ int_value r = Some (op a b) /\
    is_int64_type r = wide state number.
Proof.
  intros Hs Hn Ns Nn Ea Eb.
  pose proof (bitop_int64 op a b (int_value_ok _ _ Hs Ea) (int_value_ok _ _ Hn Eb)) as H64.
  unfold bitwise, wide. destruct (is_int64_type state || is_int64_type number) eqn:W.
  - rewrite (BsonValueAsInt64_int _ _ Ea), (BsonValueAsInt64_int _ _ Eb). cbn [res_bind].
    eexists; repeat split; try apply H64.
  - destruct state; try discriminate; destruct number; try discriminate.
    injection Ea as <-. injection Eb as <-.
    pose proof (bitop_int32 op z z0 Hs Hn) as H32.
    eexists; repeat split; apply H32.
Qed.


(** ** Multiplication *)

Lemma wrap_s64_congruent z : exists k, wrap_s 64 z = z + k * 2 ^ 64.
Proof.
  unfold wrap_s. change (64 - 1) with 63. exists (- ((z + 2 ^ 63) / 2 ^ 64)).
  pose proof (Z.div_mod (z + 2 ^ 63) (2 ^ 64)). lia.
Qed.

(** Dividing the wrapped product gives back the first factor exactly when the
    product did not wrap. *)
Lemma wrapped_quotient a b : int64_ok a -> int64_ok b -> b <> 0 ->
  (a = Z.quot (wrap_s 64 (a * b)) b <-> int64_ok (a * b)).
Proof.
  intros Ha Hb Nb. split; intros H.
  - destruct (wrap_s64_congruent (a * b)) as [k Ek]. pose proof (wrap_s64_ok (a * b)) as Hw.
    set (p := wrap_s 64 (a * b)) in *. pose proof (Z.quot_rem p b Nb) as D.
    pose proof (Z.rem_bound_abs p b Nb) as R. rewrite <- H in D.
    assert (K : k * 2 ^ 64 = Z.rem p b) by lia.
    assert (k = 0) by (zbounds; lia). subst k. rewrite Z.mul_0_l, Z.add_0_r in Ek. now rewrite <- Ek.
  - rewrite wrap_s64_id by exact H. now rewrite Z.quot_mul.
Qed.

(** The product of two integers: as [int32] or [int64] when it fits, else as a
    double or as a failure. *)
Definition integer_product (wide convert : bool) (state : bson_value) (a b : Z) : bool * bson_value :=
  if wide then
    if (INT64_MIN <=? a * b) && (a * b <=? INT64_MAX) then (true, VInt64 (a * b))
    else if convert then (true, VDouble (double_mul (double_of_int a) (double_of_int b))) else (false, state)
  else (true, if (INT32_MIN <=? a * b) && (a * b <=? INT32_MAX) then VInt32 (a * b) else VInt64 (a * b)).

Lemma multiply_int64_exact state factor a b convert :
  value_ok state -> value_ok factor -> int_value state = Some a -> int_value factor = Some b ->
  ~ (a = INT64_MIN /\ b = -1) -> (a * b = 0 \/ (a * b) mod 2 ^ 64 <> 0) ->
  multiply_int64 state factor convert = Ok (integer_product true convert state a b).
Proof.
  intros Hs Hf Ea Eb N M. pose proof (int_value_ok _ _ Hs Ea) as Ha. pose proof (int_value_ok _ _ Hf Eb) as Hb.
  unfold multiply_int64. rewrite (BsonValueAsInt64_int _ _ Ea), (BsonValueAsInt64_int _ _ Eb). cbn [res_bind].
  rewrite (BsonValueAsDouble_int _ _ Ea), (BsonValueAsDouble_int _ _ Eb).
  destruct (wrap_s64_congruent (a * b)) as [k Ek].
  destruct (Z.eqb_spec (wrap_s 64 (a * b)) 0) as [E0|N0].
  - assert (P0 : a * b = 0).
    { destruct M as [M|M]; [exact M|]. exfalso. apply M. rewrite E0 in Ek.
      replace (a * b) with ((- k) * 2 ^ 64) by lia. apply Z.mod_mul. lia. }
    cbn [res_bind]. rewrite E0. unfold integer_product. rewrite P0. reflexivity.
  - assert (Nb : b <> 0) by (intros ->; rewrite Z.mul_0_r in N0; now apply N0).
    unfold int64_div. replace (b =? 0) with false by lia.
    replace ((wrap_s 64 (a * b) =? INT64_MIN) && (b =? -1)) with false.
    2:{ symmetry. apply andb_false_iff. destruct (Z.eqb_spec b (-1)) as [->|]; [left|now right].
        apply Z.eqb_neq. rewrite wrap_s64_id by (zbounds; lia). zbounds. lia. }
    cbn [orb res_bind]. pose proof (wrapped_quotient a b Ha Hb Nb) as Q. unfold integer_product.
    destruct ((INT64_MIN <=? a * b) && (a * b <=? INT64_MAX)) eqn:R.
    + assert (O : int64_ok (a * b)) by (unfold int64_ok; lia). pose proof (proj2 Q O) as E.
      rewrite <- E, Z.eqb_refl, wrap_s64_id by exact O. reflexivity.
    + assert (X : (a =? Z.quot (wrap_s 64 (a * b)) b) = false).
      { apply Z.eqb_neq. intros E. apply Q in E. unfold int64_ok in E. lia. }
      rewrite X. cbn [negb]. now destruct convert.
Qed.

(** [MultiplyWithFactorAndUpdate] on integers: the overflow check is exact
    unless the true product is a non-zero multiple of 2^64, or is 2^63 computed
    as the product of the minimum with -1. *)
Theorem MultiplyWithFactorAndUpdate_integers (state factor : bson_value) (a b : Z) (convert : bool) :
  value_ok state -> value_ok factor ->
  BsonValueIsNumber state = true -> BsonValueIsNumber factor = true ->
  int_value state = Some a -> int_value factor = Some b ->
  ~ (a = INT64_MIN /\ b = -1) -> (a * b = 0 \/ (a * b) mod 2 ^ 64 <> 0) ->
  MultiplyWithFactorAndUpdate state factor convert =
  Ok (integer_product (wide state factor) convert state a b).
Proof.
  intros Hs Hf Ns Nf Ea Eb N M. unfold MultiplyWithFactorAndUpdate. rewrite Ns, Nf. cbn [negb orb].
  replace (is_decimal state || is_decimal factor) with false by (destruct state, factor; easy).
  replace (is_double state || is_double factor) with false by (destruct state, factor; easy).
  unfold wide. destruct (is_int64_type state || is_int64_type factor) eqn:W; [now apply multiply_int64_exact|].
  destruct state; try discriminate; destruct factor; try discriminate.
  injection Ea as <-. injection Eb as <-. cbn [value_ok] in *.
  unfold multiply_int32, integer_product. cbn [BsonValueAsInt64].
  change (BsonValueAsInt64 (VInt32 z)) with (@Ok Z z). change (BsonValueAsInt64 (VInt32 z0)) with (@Ok Z z0).
  cbn [res_bind]. assert (P : int64_ok (z * z0)) by (zbounds; nia).
  rewrite (wrap_s64_id _ P).
  destruct ((INT32_MIN <=? z * z0) && (z * z0 <=? INT32_MAX)) eqn:R.
  - replace (_ || _) with false by lia. rewrite wrap_s32_id by (unfold int32_ok; lia). reflexivity.
  - replace (_ || _) with true by lia. reflexivity.
Qed.

(** A product that wraps to zero is not recognized as an overflow:
    2^32 times 2^32 is 0, whatever the caller asks for. *)
Theorem MultiplyWithFactorAndUpdate_wraps_to_zero (convert : bool) :
  MultiplyWithFactorAndUpdate (VInt64 (2 ^ 32)) (VInt64 (2 ^ 32)) convert = Ok (true, VInt64 0).
Proof. reflexivity. Qed.

(** The overflow check itself divides the wrapped minimum by -1, which raises SIGFPE. *)
Theorem MultiplyWithFactorAndUpdate_min_times_minus_one (convert : bool) :
  MultiplyWithFactorAndUpdate (VInt64 INT64_MIN) (VInt64 (-1)) convert = Err ERRCODE_FLOATING_POINT_EXCEPTION.
Proof. reflexivity. Qed.

(** Subtracting the minimum adds the minimum: -1 - (-2^63) is 2^63 - 1, which
    fits, but the code reports an overflow and returns the double -2^63; and
    0 - (-2^63) is the integer -2^63. *)
Theorem SubtractNumberFromBsonValue_min (overflowed : bool) :
  SubtractNumberFromBsonValue (VInt64 (-1)) (VInt64 INT64_MIN) overflowed =
    Ok (Update true (VDouble (double_of_int INT64_MIN)) true) /\
  SubtractNumberFromBsonValue (VInt64 0) (VInt64 INT64_MIN) overflowed =
    Ok (Update true (VInt64 INT64_MIN) false).
Proof. split; vm_compute; reflexivity. Qed.

(** ** Division *)

(** Outside the decimals, division fails with an error exactly for a zero
    divisor, leaves operands that are not numbers alone, and otherwise is
    performed in double precision whatever the integer types. *)
Theorem DivideBsonValueNumbers_binary (dividend divisor : bson_value) (x y : Z) :
  is_decimal dividend = false -> is_decimal divisor = false ->
  BsonValueAsDouble dividend = Ok x -> BsonValueAsDouble divisor = Ok y ->
  DivideBsonValueNumbers dividend divisor =
  if BsonValueIsNumberOrBool dividend && BsonValueIsNumberOrBool divisor then
    match sf_of_bits y with
    | S754_zero _ => Err ERRCODE_DOCUMENTDB_BADVALUE
    | _ => Ok (true, VDouble (double_div x y))
    end
  else Ok (false, dividend).
Proof.
  intros D1 D2 Ex Ey. unfold DivideBsonValueNumbers.
  rewrite Ex, Ey, D1, D2. cbn [orb res_bind].
  destruct (BsonValueIsNumberOrBool dividend), (BsonValueIsNumberOrBool divisor); try reflexivity.
  cbn [negb orb andb]. now destruct (sf_of_bits y) as [[]|[]| |[] m e].
Qed.

(** ** Window ranges *)

(** [bson_in_range_numeric] over integers decides [val <= base + offset] or
    [val >= base + offset] on the exact sum, as long as that fits [int64]. *)
Theorem bson_in_range_numeric_integers (val base offset : bson_value) (v b o : Z) (less : bool) :
  value_ok base -> value_ok offset ->
  BsonValueIsNumber val = true -> BsonValueIsNumber base = true -> BsonValueIsNumber offset = true ->
  int_value val = Some v -> int_value base = Some b -> int_value offset = Some o -> int64_ok (b + o) ->
  bson_in_range_numeric (Some val) (Some base) (Some offset) less =
  Ok (if less then v <=? b + o else b + o <=? v).
Proof.
  intros Hb Ho Nv Nb No Ev Eb Eo R. unfold bson_in_range_numeric.
  change (BsonTypeIsNumber (value_type val)) with (BsonValueIsNumber val).
  change (BsonTypeIsNumber (value_type base)) with (BsonValueIsNumber base).
  rewrite Nv, Nb. cbn [negb orb].
  assert (S : exists u sum, AddNumberToBsonValue base offset false = Ok u /\ updated u = sum /\
            int_value sum = Some (b + o) /\ BsonValueIsNumber sum = true).
  { unfold AddNumberToBsonValue. rewrite number_or_bool by exact Nb. cbn [negb].
    destruct (add_integer base b Eb Hb false) as [A64 A32]. unfold int64_ok in R.
    destruct offset; try discriminate; injection Eo as <-; [rewrite A32 by exact Ho|rewrite A64 by exact Ho];
      do 2 eexists; (split; [reflexivity|]); (split; [reflexivity|]); unfold integer_sum;
      [destruct (is_int64_type base)|];
      try (replace ((INT64_MIN <=? b + z) && (b + z <=? INT64_MAX)) with true by lia; now split).
    now destruct ((INT32_MIN <=? b + z) && (b + z <=? INT32_MAX)). }
  destruct S as (u & sum & Eu & Es & Ei & Ns). rewrite Eu. cbn [res_bind]. rewrite Es.
  assert (C : CompareBsonValue None val sum = Ok (cmpz v (b + o), true)).
  { destruct val; try discriminate; destruct sum; try discriminate; injection Ev as <-; injection Ei as <-; reflexivity. }
  rewrite C. cbn [res_bind]. f_equal. unfold cmpz.
  destruct less, (Z.gtb_spec v (b + o)), (Z.eqb_spec v (b + o)); lia.
Qed.

End ArithFacts.

(** ** Concrete values *)

Section Witnesses.
#[local] Existing Instance RefBidLib.
#[local] Existing Instance RefLibBson.
#[local] Instance RefUnion : UnionView := {| v_int32_of_other _ := 0 |}.

Ltac by_computation := first [reflexivity | vm_compute; split; congruence | vm_compute; congruence].

Lemma AddNumberToBsonValue_integers_witness :
  AddNumberToBsonValue (VInt64 INT64_MAX) (VInt32 1) false =
  Ok (integer_sum (wide (VInt64 INT64_MAX) (VInt32 1)) INT64_MAX 1 false).
Proof. apply (AddNumberToBsonValue_integers (VInt64 INT64_MAX) (VInt32 1)); by_computation. Defined.

Lemma SubtractNumberFromBsonValue_integers_witness :
  SubtractNumberFromBsonValue (VInt32 INT32_MIN) (VInt32 1) false =
  Ok (integer_sum (wide (VInt32 INT32_MIN) (VInt32 1)) INT32_MIN (- 1) false).
Proof. apply (SubtractNumberFromBsonValue_integers (VInt32 INT32_MIN) (VInt32 1) INT32_MIN 1); by_computation. Defined.

Lemma bitwise_integers_witness :
  exists r, BitwiseXorToBsonValue (VInt32 (-1)) (VInt64 5) = Ok r /\ value_ok r /\
    int_value r = Some (-6) /\ is_int64_type r = true.
Proof. apply (bitwise_integers Z.lxor (VInt32 (-1)) (VInt64 5) (-1) 5); by_computation. Defined.

Lemma MultiplyWithFactorAndUpdate_integers_witness :
  MultiplyWithFactorAndUpdate (VInt64 (2 ^ 40)) (VInt64 (2 ^ 23 + 1)) false =
  Ok (integer_product true false (VInt64 (2 ^ 40)) (2 ^ 40) (2 ^ 23 + 1)).
Proof.
  apply (MultiplyWithFactorAndUpdate_integers (VInt64 (2 ^ 40)) (VInt64 (2 ^ 23 + 1))); try by_computation.
  - intros [H _]. vm_compute in H. discriminate H.
  - right. vm_compute. congruence.
Defined.

Lemma DivideBsonValueNumbers_binary_witness :
  DivideBsonValueNumbers (VInt32 7) (VBool false) = Err ERRCODE_DOCUMENTDB_BADVALUE.
Proof. exact (DivideBsonValueNumbers_binary (VInt32 7) (VBool false) _ _ eq_refl eq_refl eq_refl eq_refl). Defined.

Lemma bson_in_range_numeric_integers_witness :
  bson_in_range_numeric (Some (VInt32 7)) (Some (VInt64 5)) (Some (VInt32 (-2))) true =
  Ok (7 <=? 5 + -2).
Proof. apply (bson_in_range_numeric_integers (VInt32 7) (VInt64 5) (VInt32 (-2)) 7 5 (-2) true); by_computation. Defined.

End Witnesses.
