(* ===== verification/Traversal.v ===== *)
(** * Traversal of dotted paths ([TraverseBson] in [pgbson_utils.c])

    The callbacks of [TraverseBsonExecutionFuncs] are state-passing functions
    over an arbitrary state; the optional ones are options.  The recursion of
    [TraverseBsonCore] follows the segments of the path; its fuel is the length
    of the path plus one, which [TraverseBson_total] shows to be enough. *)

From Stdlib Require Import ZArith Lia Bool String List.
From Stdlib Require Import Strings.Byte.
From S2P Require Import Prelude BsonTypes StringView.
Import ListNotations.
Local Open Scope Z_scope.

Definition dot : byte := x2e.

Inductive TraverseBsonResult : Set :=
| TraverseBsonResult_PathNotFound
| TraverseBsonResult_TypeMismatch.

Abbreviation pgbsonelement := (bytes * bson_value)%type.

Record TraverseBsonExecutionFuncs (St : Type) : Type := {
  SetTraverseResult : option (TraverseBsonResult -> St -> St);
  VisitTopLevelField : pgbsonelement -> bytes -> St -> bool * St;
  VisitArrayField : option (pgbsonelement -> bytes -> Z -> St -> bool * St);
  ContinueProcessIntermediateArray : bson_value -> St -> bool * St;
  SetIntermediateArrayIndex : option (Z -> St -> St);
  HandleIntermediateArrayPathNotFound : option (Z -> bytes -> St -> St);
  SetIntermediateArrayStartEnd : option (bool -> St -> St)
}.
Arguments SetTraverseResult {St}.
Arguments VisitTopLevelField {St}.
Arguments VisitArrayField {St}.
Arguments ContinueProcessIntermediateArray {St}.
Arguments SetIntermediateArrayIndex {St}.
Arguments HandleIntermediateArrayPathNotFound {St}.
Arguments SetIntermediateArrayStartEnd {St}.

(** [bson_iter_find_string_view] from the start of a document. *)
Fixpoint bson_iter_find_string_view (iter : fields) (view : bytes) : option pgbsonelement :=
  match iter with
  | [] => None
  | (k, v) :: iter' =>
    if (blen k =? blen view) && (strncmp k view (List.length view) =? 0) then Some (k, v)
    else bson_iter_find_string_view iter' view
  end.

Section Traverse.
Context {St : Type}.
Variable executionFunctions : TraverseBsonExecutionFuncs St.
(** The setting [SkipBsonArrayTraverseOptimization]. *)
Variable SkipBsonArrayTraverseOptimization : bool.
Local Open Scope res_scope.

Definition notify {A} (f : option (A -> St -> St)) (a : A) (st : St) : St :=
  match f with Some f => f a st | None => st end.

Definition not_found (index : Z) (remainingPath : bytes) (st : St) : St :=
  match HandleIntermediateArrayPathNotFound executionFunctions with
  | Some f => f index remainingPath st
  | None => st
  end.

(** The elements of an array at the end of the path; [false] when a callback
    stops the traversal. *)
Fixpoint visit_array_elements (f : pgbsonelement -> bytes -> Z -> St -> bool * St)
  (iter : fields) (path : bytes) (arrayIndex : Z) (st : St) : bool * St :=
  match iter with
  | [] => (true, st)
  | e :: iter' =>
    let '(shouldContinue, st) := f e path arrayIndex st in
    if negb shouldContinue then (false, st)
    else visit_array_elements f iter' path (wrap_s 32 (arrayIndex + 1)) st
  end.

(** The field named by a path without a dot. *)
Definition traverse_leaf (doc : fields) (traversePath : bytes) (inArrayContext : bool) (st : St)
  : bool * St :=
  match bson_iter_find_string_view doc traversePath with
  | None => (true, notify (SetTraverseResult executionFunctions) TraverseBsonResult_PathNotFound st)
  | Some e =>
    let '(shouldContinue, st) := VisitTopLevelField executionFunctions e traversePath st in
    if negb shouldContinue then (false, st)
    else
      let '(shouldContinue, st) :=
        match snd e, VisitArrayField executionFunctions with
        | VArray items, Some f =>
          if negb inArrayContext then visit_array_elements f items traversePath 0 st else (true, st)
        | _, _ => (true, st)
        end in
      if negb shouldContinue then (false, st)
      else (false, notify (SetTraverseResult executionFunctions) TraverseBsonResult_TypeMismatch st)
  end.

(** The documents among the elements of an intermediate array.  The result says
    whether the scan ran to the end, and whether some document lacks the path. *)
Fixpoint scan_array (core : fields -> St -> res (bool * St)) (iter : fields) (remainingPath : bytes)
  (index : Z) (hasPathNotFound : bool) (st : St) : res (bool * bool * St) :=
  match iter with
  | [] => Ok (true, hasPathNotFound, st)
  | (_, v) :: iter' =>
    match v with
    | VDocument d =>
      let st := notify (SetIntermediateArrayIndex executionFunctions) index st in
      let* '(elementPathNotFound, st) := core d st in
      let '(shouldContinue, st) := ContinueProcessIntermediateArray executionFunctions v st in
      if negb shouldContinue then Ok (false, hasPathNotFound, st)
      else
        let st := if elementPathNotFound : bool then not_found index remainingPath st else st in
        scan_array core iter' remainingPath (wrap_s 32 (index + 1))
          (hasPathNotFound || elementPathNotFound) st
    | _ =>
      scan_array core iter' remainingPath (wrap_s 32 (index + 1)) hasPathNotFound
        (not_found index remainingPath st)
    end
  end.

(** Whether the next path segment can be an array index. *)
Definition tries_index (remainingPath : bytes) : bool :=
  SkipBsonArrayTraverseOptimization ||
  match remainingPath with c :: _ => (byte_z c >=? 48) && (byte_z c <=? 57) | [] => false end.

(** An array in the middle of the path, first by index, then element by element. *)
Definition traverse_array (core : bool -> fields -> St -> res (bool * St))
  (array : bson_value) (items : fields) (remainingPath : bytes) (st : St) : res (bool * St) :=
  let* '(proceed, hasPathNotFound, st) :=
    (if tries_index remainingPath then
       let* '(hasPathNotFound, st) := core true items st in
       let '(shouldContinue, st) := ContinueProcessIntermediateArray executionFunctions array st in
       Ok (shouldContinue, hasPathNotFound : bool, st)
     else Ok (true, true, st)) in
  if negb proceed then Ok (false, st)
  else
    let st := notify (SetIntermediateArrayStartEnd executionFunctions) true st in
    let* '(proceed, arrayElementsHasPathNotFound, st) :=
      scan_array (core false) items remainingPath 0 false st in
    if negb proceed then Ok (false, st)
    else
      let st := notify (SetIntermediateArrayStartEnd executionFunctions) false st in
      if hasPathNotFound && arrayElementsHasPathNotFound
      then Ok (true, notify (SetTraverseResult executionFunctions) TraverseBsonResult_PathNotFound st)
      else Ok (false, notify (SetTraverseResult executionFunctions) TraverseBsonResult_TypeMismatch st).

(** The result is [true] when the path was not found. *)
Fixpoint TraverseBsonCore (fuel : nat) (traversePath : bytes) (inArrayContext : bool) (doc : fields)
  (st : St) : res (bool * St) :=
  match fuel with
  | O => Err ERRCODE_INTERNAL_ERROR
  | S fuel' =>
    match StringViewFindPrefix traversePath dot with
    | None => Ok (traverse_leaf doc traversePath inArrayContext st)
    | Some dotKeyStr =>
      match bson_iter_find_string_view doc dotKeyStr with
      | None => Ok (true, notify (SetTraverseResult executionFunctions) TraverseBsonResult_PathNotFound st)
      | Some (_, v) =>
        let* remainingPath := StringViewSubstring traversePath (blen dotKeyStr + 1) in
        match v with
        | VDocument d => TraverseBsonCore fuel' remainingPath false d st
        | VArray d => traverse_array (TraverseBsonCore fuel' remainingPath) v d remainingPath st
        | _ => Ok (false, notify (SetTraverseResult executionFunctions) TraverseBsonResult_PathNotFound st)
        end
      end
    end
  end.

Definition TraverseBson (doc : fields) (traversalPath : bytes) (st : St) : res St :=
  let* '(_, st) := TraverseBsonCore (S (List.length traversalPath)) traversalPath false doc st in Ok st.

Definition TraverseBsonPathStringView (doc : fields) (traversePathView : bytes) (st : St) : res St :=
  let* '(_, st) := TraverseBsonCore (S (List.length traversePathView)) traversePathView false doc st in Ok st.
End Traverse.

(** ** Searching a key at any depth *)

Section Search.
Variable key : bytes.

Section Iter.
Variable search_value : bson_value -> bool.
Fixpoint search_fields (iter : fields) : bool :=
  match iter with
  | [] => false
  | (currentKey, v) :: iter' =>
    if strcmp currentKey key =? 0 then true
    else if search_value v then true
    else search_fields iter'
  end.
End Iter.

(** The nested search into documents and arrays. *)
Fixpoint search_value (v : bson_value) : bool :=
  match v with
  | VDocument d | VArray d => search_fields search_value d
  | _ => false
  end.
End Search.

Definition BsonIterSearchKeyRecursive (iter : fields) (key : bytes) : bool :=
  search_fields key (search_value key) iter.

(** ** Totality *)

Lemma substring_after_dot p q : StringViewSubstring (p ++ dot :: q) (blen p + 1) = Ok q.
Proof.
  unfold StringViewSubstring, blen. rewrite length_app. cbn [List.length].
  destruct (Z.gtb_spec (Z.of_nat (List.length p) + 1) (Z.of_nat (List.length p + S (List.length q)))); [lia|].
  replace (Z.to_nat (Z.of_nat (List.length p) + 1)) with (S (List.length p)) by lia.
  f_equal. rewrite skipn_app, skipn_all2 by lia.
  replace (S (List.length p) - List.length p)%nat with 1%nat by lia. reflexivity.
Qed.

Section Facts.
Context {St : Type} (funcs : TraverseBsonExecutionFuncs St) (skip : bool).

Lemma scan_array_total core iter rem : (forall d st, exists r, core d st = Ok r) ->
  forall i b st, exists r, scan_array funcs core iter rem i b st = Ok r.
Proof.
  intros Hc. induction iter as [|[k v] iter IH]; intros i b st; cbn [scan_array]; [eauto|].
  destruct v; try apply IH. destruct (Hc d (notify (SetIntermediateArrayIndex funcs) i st)) as [[pnf st'] ->].
  cbn [res_bind]. destruct (ContinueProcessIntermediateArray funcs (VDocument d) st') as [[] st'']; cbn [negb];
    [apply IH|eauto].
Qed.

Lemma traverse_array_total core v d rem : (forall ctx d st, exists r, core ctx d st = Ok r) ->
  forall st, exists r, traverse_array funcs skip core v d rem st = Ok r.
Proof.
  intros Hc st. unfold traverse_array.
  assert (P : exists x, (if tries_index skip rem then
       res_bind (core true d st) (fun '(h, st) =>
         let '(c, st) := ContinueProcessIntermediateArray funcs v st in Ok (c, h : bool, st))
     else Ok (true, true, st)) = Ok x).
  { destruct (tries_index skip rem); [|eauto]. destruct (Hc true d st) as [[h st'] ->]. cbn [res_bind].
    destruct (ContinueProcessIntermediateArray funcs v st'). eauto. }
  destruct P as [[[proceed h] st'] ->]. cbn [res_bind]. destruct proceed; cbn [negb]; [|eauto].
  edestruct (scan_array_total (core false) d rem (Hc false)) as [[[proceed b] st''] ->]. cbn [res_bind].
  destruct proceed; cbn [negb]; [|eauto]. destruct (h && b); eauto.
Qed.

Lemma TraverseBsonCore_total fuel : forall path ctx doc st, (List.length path < fuel)%nat ->
  exists r, TraverseBsonCore funcs skip fuel path ctx doc st = Ok r.
Proof.
  induction fuel as [|fuel IH]; intros path ctx doc st H; [lia|]. cbn [TraverseBsonCore].
  destruct (StringViewFindPrefix path dot) as [p|] eqn:E; [|eauto].
  apply StringViewFindPrefix_Some in E as (q & -> & _).
  destruct (bson_iter_find_string_view doc p) as [[k v]|]; [|eauto].
  rewrite substring_after_dot. cbn [res_bind]. rewrite length_app in H. cbn [List.length] in H.
  destruct v; try (eexists; reflexivity).
  - apply IH. lia.
  - apply traverse_array_total. intros ctx' d' st'. apply IH. lia.
Qed.

End Facts.

(** A traversal returns for every document, path, state and set of callbacks. *)
Lemma TraverseBson_total {St} (funcs : TraverseBsonExecutionFuncs St) (skip : bool)
  (doc : fields) (path : bytes) (st : St) :
  exists st', TraverseBson funcs skip doc path st = Ok st'.
Proof.
  unfold TraverseBson. destruct (TraverseBsonCore_total funcs skip (S (List.length path)) path false doc st)
    as [[b st'] ->]; [lia|]. eexists; reflexivity.
Qed.

(** ** What a traversal visits *)

(** A callback's view of the traversal: a field at the end of the path, or an
    element of an array there. *)
Inductive visit : Set :=
| VisitedField (v : bson_value)
| VisitedElement (index : Z) (v : bson_value).

(** Callbacks that record the visits and never stop. *)
Definition recorder : TraverseBsonExecutionFuncs (list visit) := {|
  SetTraverseResult := None;
  VisitTopLevelField e _ st := (true, st ++ [VisitedField (snd e)]);
  VisitArrayField := Some (fun e _ i st => (true, st ++ [VisitedElement i (snd e)]));
  ContinueProcessIntermediateArray _ st := (true, st);
  SetIntermediateArrayIndex := None;
  HandleIntermediateArrayPathNotFound := None;
  SetIntermediateArrayStartEnd := None
|}.

(** The value of the first element with a given key. *)
Definition lookup (d : fields) (key : bytes) : option bson_value :=
  option_map snd (find (fun kv => cmp_bytes (fst kv) key =? 0) d).

(** The elements of an array with their index, a C [int]. *)
Fixpoint numbered (i : Z) (items : fields) : list visit :=
  match items with
  | [] => []
  | (_, v) :: items' => VisitedElement i v :: numbered (wrap_s 32 (i + 1)) items'
  end.

Definition documents (items : fields) : list fields :=
  flat_map (fun kv => match snd kv with VDocument d => [d] | _ => [] end) items.

Section Reach.
Variable skip : bool.

(** The reference semantics of a path given as its segments: a document is
    entered by key; an array is entered by index, when the next segment may be
    one, and through each of its documents; at the end of the path the field
    is visited and then the elements of an array, unless the field itself was
    reached by an index. *)
Fixpoint reach (segs : list bytes) (byIndex : bool) (d : fields) : list visit :=
  match segs with
  | [] => []
  | key :: rest =>
    match rest with
    | [] =>
      match lookup d key with
      | Some v => VisitedField v ::
          match v with VArray items => if byIndex then [] else numbered 0 items | _ => [] end
      | None => []
      end
    | next :: _ =>
      match lookup d key with
      | Some (VDocument d') => reach rest false d'
      | Some (VArray items) =>
        (if tries_index skip next then reach rest true items else []) ++
        flat_map (reach rest false) (documents items)
      | _ => []
      end
    end
  end.
End Reach.

(** Segments joined by dots. *)
Fixpoint join_path (segs : list bytes) : bytes :=
  match segs with
  | [] => []
  | [s] => s
  | s :: rest => s ++ dot :: join_path rest
  end.

Lemma strncmp_eq_right l r : List.length l = List.length r -> no_nul r ->
  (strncmp l r (List.length r) =? 0) = (cmp_bytes l r =? 0).
Proof.
  revert r; induction l as [|a l IH]; intros [|b r] E Hn; try discriminate; [reflexivity|].
  cbn [List.length strncmp cmp_bytes]. inversion_clear Hn as [|? ? Hb Hr]. unfold lexz.
  destruct (Z.eqb_spec (cmpz (byte_z a) (byte_z b)) 0) as [C|C].
  - apply (proj1 (cmpz_0 _ _)) in C. destruct (Z.eqb_spec (byte_z a) 0); [congruence|].
    apply IH; [now injection E|exact Hr].
  - reflexivity.
Qed.

Lemma key_matches k view : no_nul view ->
  ((blen k =? blen view) && (strncmp k view (List.length view) =? 0)) = (cmp_bytes k view =? 0).
Proof.
  intros Hn. destruct (Z.eqb_spec (blen k) (blen view)) as [E|E]; cbn [andb].
  - apply strncmp_eq_right; auto. unfold blen in E. lia.
  - symmetry. apply Z.eqb_neq. intros C. apply (proj1 (cmp_bytes_0 _ _)) in C. now subst.
Qed.

Lemma find_lookup d key : no_nul key ->
  option_map snd (bson_iter_find_string_view d key) = lookup d key.
Proof.
  intros Hn. unfold lookup. induction d as [|[k v] d IH]; [reflexivity|].
  cbn [bson_iter_find_string_view find fst]. rewrite key_matches by exact Hn.
  now destruct (cmp_bytes k key =? 0).
Qed.

Lemma find_Some d key k v : no_nul key ->
  bson_iter_find_string_view d key = Some (k, v) -> lookup d key = Some v.
Proof. intros Hn E. rewrite <- find_lookup, E by exact Hn. reflexivity. Qed.

Lemma find_None d key : no_nul key ->
  bson_iter_find_string_view d key = None -> lookup d key = None.
Proof. intros Hn E. rewrite <- find_lookup, E by exact Hn. reflexivity. Qed.

Lemma tries_index_join skip next rest : tries_index skip (join_path (next :: rest)) = tries_index skip next.
Proof. destruct next as [|c next], rest as [|s rest]; reflexivity. Qed.

Lemma visit_array_elements_recorder items path i st :
  visit_array_elements (fun e _ i st => (true, st ++ [VisitedElement i (snd e)])) items path i st =
  (true, st ++ numbered i items).
Proof.
  revert i st; induction items as [|[k v] items IH]; intros i st; cbn [visit_array_elements numbered].
  - now rewrite app_nil_r.
  - cbn [negb]. rewrite IH, <- app_assoc. reflexivity.
Qed.

Lemma traverse_leaf_recorder d key ctx st : no_nul key ->
  snd (traverse_leaf recorder d key ctx st) = st ++ reach false [key] ctx d.
Proof.
  intros Hn. unfold traverse_leaf. cbn [reach].
  destruct (bson_iter_find_string_view d key) as [[k v]|] eqn:E.
  - rewrite (find_Some _ _ _ _ Hn E). cbn [recorder VisitTopLevelField VisitArrayField snd negb].
    destruct v; try reflexivity. destruct ctx; cbn [negb]; [reflexivity|].
    rewrite visit_array_elements_recorder. cbn [negb snd notify SetTraverseResult recorder].
    now rewrite <- app_assoc.
  - rewrite (find_None _ _ Hn E). cbn. now rewrite app_nil_r.
Qed.

Lemma scan_array_recorder core f items rem :
  (forall d st, exists b, core d st = Ok (b, st ++ f d)) ->
  forall i b st, exists c, scan_array recorder core items rem i b st =
    Ok (true, c, st ++ flat_map f (documents items)).
Proof.
  intros Hc. induction items as [|[k v] items IH]; intros i b st; cbn [scan_array].
  - exists b. cbn. now rewrite app_nil_r.
  - destruct v; try apply IH. cbn [notify recorder SetIntermediateArrayIndex].
    destruct (Hc d st) as [b' ->]. cbn [res_bind recorder ContinueProcessIntermediateArray negb].
    unfold not_found. cbn [recorder HandleIntermediateArrayPathNotFound].
    destruct (IH (wrap_s 32 (i + 1)) (b || b') (st ++ f d)) as [c E]. exists c.
    replace (if b' then st ++ f d else st ++ f d) with (st ++ f d) by now destruct b'.
    rewrite E. unfold documents. cbn [flat_map snd app]. now rewrite app_assoc.
Qed.

Lemma traverse_array_recorder skip core f v items rem :
  (forall ctx d st, exists b, core ctx d st = Ok (b, st ++ f ctx d)) -> forall st,
  exists b, traverse_array recorder skip core v items rem st =
    Ok (b, st ++ (if tries_index skip rem then f true items else []) ++
           flat_map (f false) (documents items)).
Proof.
  intros Hc st. unfold traverse_array.
  assert (S : forall st', exists b, scan_array recorder (core false) items rem 0 false st' =
     Ok (true, b, st' ++ flat_map (f false) (documents items))).
  { intros st'. apply scan_array_recorder. apply Hc. }
  destruct (tries_index skip rem).
  - destruct (Hc true items st) as [h ->]. cbn [res_bind recorder ContinueProcessIntermediateArray negb notify
      SetIntermediateArrayStartEnd]. destruct (S (st ++ f true items)) as [b ->]. cbn [res_bind negb].
    rewrite app_assoc. destruct (h && b); eexists; reflexivity.
  - cbn [res_bind negb notify recorder SetIntermediateArrayStartEnd app].
    destruct (S st) as [b ->]. cbn [res_bind negb andb]. destruct b; eexists; reflexivity.
Qed.

Lemma TraverseBsonCore_recorder skip segs : forall fuel ctx d st,
  segs <> [] -> Forall (fun s => ~ In dot s) segs -> Forall no_nul segs -> (List.length segs <= fuel)%nat ->
  exists b, TraverseBsonCore recorder skip fuel (join_path segs) ctx d st =
    Ok (b, st ++ reach skip segs ctx d).
Proof.
  induction segs as [|key [|next rest] IH]; intros fuel ctx d st Hne Hd Hn Hf; [easy|..];
    (destruct fuel as [|fuel]; [cbn in Hf; lia|]); inversion_clear Hd as [|? ? Hdot Hd'];
    inversion_clear Hn as [|? ? Hnul Hn']; cbn [TraverseBsonCore].
  - change (join_path [key]) with key. rewrite (proj2 (StringViewFindPrefix_None key dot) Hdot).
    pose proof (traverse_leaf_recorder d key ctx st Hnul) as L.
    destruct (traverse_leaf recorder d key ctx st) as [b st']. cbn [snd] in L. subst st'. eexists; reflexivity.
  - change (join_path (key :: next :: rest)) with (key ++ dot :: join_path (next :: rest)).
    set (tail := next :: rest) in *.
    assert (F : StringViewFindPrefix (key ++ dot :: join_path tail) dot = Some key)
      by (apply StringViewFindPrefix_Some; eauto).
    rewrite F, substring_after_dot. cbn [res_bind].
    assert (R : forall ctx d st, exists b, TraverseBsonCore recorder skip fuel (join_path tail) ctx d st =
              Ok (b, st ++ reach skip tail ctx d)).
    { intros. apply IH; auto; [discriminate|cbn in Hf |- *; lia]. }
    change (reach skip (key :: tail) ctx d) with
      (match lookup d key with
       | Some (VDocument d') => reach skip tail false d'
       | Some (VArray items) => (if tries_index skip next then reach skip tail true items else []) ++
                                flat_map (reach skip tail false) (documents items)
       | _ => [] end).
    destruct (bson_iter_find_string_view d key) as [[k v]|] eqn:E.
    2:{ rewrite (find_None _ _ Hnul E), app_nil_r. eexists; reflexivity. }
    rewrite (find_Some _ _ _ _ Hnul E).
    destruct v; try (rewrite app_nil_r; eexists; reflexivity); [apply R|].
    rewrite <- (tries_index_join skip next rest). now apply traverse_array_recorder.
Qed.

Lemma length_join segs : segs <> [] -> (List.length segs <= S (List.length (join_path segs)))%nat.
Proof.
  induction segs as [|s [|t rest] IH]; intros H; [easy|cbn; lia|].
  change (join_path (s :: t :: rest)) with (s ++ dot :: join_path (t :: rest)).
  rewrite length_app. cbn [List.length] in *. specialize (IH ltac:(discriminate)). lia.
Qed.

(** C29: [TraverseBson] visits exactly the fields and array elements that the
    reference semantics gives for the path, in that order. *)
Theorem TraverseBson_visits (skip : bool) (segs : list bytes) (doc : fields) :
  segs <> [] -> Forall (fun s => ~ In dot s) segs -> Forall no_nul segs ->
  TraverseBson recorder skip doc (join_path segs) [] = Ok (reach skip segs false doc).
Proof.
  intros Hne Hd Hn. unfold TraverseBson.
  destruct (TraverseBsonCore_recorder skip segs (S (List.length (join_path segs))) false doc [] Hne Hd Hn)
    as [b ->]; [now apply length_join|]. reflexivity.
Qed.

(** ** Callbacks that fold over the visits *)

(** What a client's callbacks promise the traversal: a [view] of the state is
    updated by a [step] on every visit, no other callback changes it, and the
    traversal is stopped exactly when the view says so. *)
Class VisitFold {St A : Type} (funcs : TraverseBsonExecutionFuncs St) (view : St -> A)
  (stopped : A -> bool) (step : visit -> A -> A) : Prop := {
  fold_field : forall e path st, stopped (view st) = false ->
    let '(continue, st') := VisitTopLevelField funcs e path st in
    view st' = step (VisitedField (snd e)) (view st) /\ continue = negb (stopped (view st'));
  fold_element : forall e path i st, stopped (view st) = false ->
    match VisitArrayField funcs with
    | Some f => let '(continue, st') := f e path i st in
                view st' = step (VisitedElement i (snd e)) (view st) /\ continue = negb (stopped (view st'))
    | None => step (VisitedElement i (snd e)) (view st) = view st
    end;
  fold_continue : forall v st, ContinueProcessIntermediateArray funcs v st = (negb (stopped (view st)), st);
  fold_result : forall r st, stopped (view st) = false -> view (notify (SetTraverseResult funcs) r st) = view st;
  fold_index : forall i st, stopped (view st) = false ->
    view (notify (SetIntermediateArrayIndex funcs) i st) = view st;
  fold_start_end : forall b st, stopped (view st) = false ->
    view (notify (SetIntermediateArrayStartEnd funcs) b st) = view st;
  fold_not_found : forall i path st, stopped (view st) = false -> view (not_found funcs i path st) = view st
}.

Section Fold.
Context {St A : Type} {funcs : TraverseBsonExecutionFuncs St} {view : St -> A} {stopped : A -> bool}
  {step : visit -> A -> A} {F : VisitFold funcs view stopped step}.

Definition fold_visits (visits : list visit) (a : A) : A :=
  fold_left (fun a x => if stopped a then a else step x a) visits a.

Lemma fold_visits_stopped visits a : stopped a = true -> fold_visits visits a = a.
Proof. intros H. induction visits as [|x visits IH]; [reflexivity|]. cbn. now rewrite H. Qed.

Lemma fold_visits_app l r a : fold_visits (l ++ r) a = fold_visits r (fold_visits l a).
Proof. apply fold_left_app. Qed.

(** The outcome of a part of the traversal that makes the given visits. *)
Definition folded (visits : list visit) (st st' : St) : Prop := view st' = fold_visits visits (view st).

Lemma visit_array_elements_fold f items path : VisitArrayField funcs = Some f ->
  forall i st, stopped (view st) = false ->
  let '(continue, st') := visit_array_elements f items path i st in
  folded (numbered i items) st st' /\ continue = negb (stopped (view st')).
Proof.
  intros Hf. induction items as [|[k v] items IH]; intros i st Hs; cbn [visit_array_elements numbered].
  - split; [reflexivity|]. now rewrite Hs.
  - pose proof (fold_element (k, v) path i st Hs) as E. rewrite Hf in E.
    destruct (f (k, v) path i st) as [continue st1]. destruct E as [V ->]. cbn [snd] in V.
    unfold folded, fold_visits. cbn [fold_left]. rewrite Hs, <- V.
    destruct (stopped (view st1)) eqn:S; cbn [negb].
    + split; [|now rewrite S]. symmetry. now apply fold_visits_stopped.
    + apply IH. exact S.
Qed.

(** Without a callback for array elements their visits have no effect. *)
Lemma numbered_ignored items : VisitArrayField funcs = None ->
  forall i st, stopped (view st) = false -> fold_visits (numbered i items) (view st) = view st.
Proof.
  intros Hf. induction items as [|[k v] items IH]; intros i st Hs; [reflexivity|].
  unfold fold_visits. cbn [numbered fold_left]. rewrite Hs.
  pose proof (fold_element (k, v) [] i st Hs) as E. rewrite Hf in E. cbn [snd] in E. rewrite E. now apply IH.
Qed.

Lemma traverse_leaf_fold d key ctx st : no_nul key -> stopped (view st) = false ->
  folded (reach false [key] ctx d) st (snd (traverse_leaf funcs d key ctx st)).
Proof.
  intros Hn Hs. unfold traverse_leaf, folded. cbn [reach].
  destruct (bson_iter_find_string_view d key) as [[k v]|] eqn:E.
  2:{ rewrite (find_None _ _ Hn E). exact (fold_result TraverseBsonResult_PathNotFound st Hs). }
  rewrite (find_Some _ _ _ _ Hn E). pose proof (fold_field (k, v) key st Hs) as T.
  destruct (VisitTopLevelField funcs (k, v) key st) as [continue st1]. destruct T as [V ->]. cbn [snd] in *.
  unfold fold_visits. cbn [fold_left]. rewrite Hs, <- V. fold (fold_visits).
  destruct (stopped (view st1)) eqn:S1; cbn [negb snd].
  { symmetry. now apply fold_visits_stopped. }
  assert (Rest : forall visits st2, fold_visits visits (view st1) = view st2 -> stopped (view st2) = false ->
    view (snd (false, notify (SetTraverseResult funcs) TraverseBsonResult_TypeMismatch st2)) =
    fold_visits visits (view st1)) by (intros visits st2 -> S2; exact (fold_result TraverseBsonResult_TypeMismatch st2 S2)).
  destruct v; try (now apply (Rest [])).
  destruct ctx; cbn [negb]; [destruct (VisitArrayField funcs); now apply (Rest [])|].
  destruct (VisitArrayField funcs) as [f|] eqn:Hf; cbn [negb].
  - pose proof (visit_array_elements_fold f d0 key Hf 0 st1 S1) as X.
    destruct (visit_array_elements f d0 key 0 st1) as [continue st2]. destruct X as [V2 ->].
    destruct (stopped (view st2)) eqn:S2; cbn [negb snd]; [exact V2|]. now apply Rest.
  - apply Rest; [|exact S1]. now apply numbered_ignored.
Qed.

Lemma scan_array_fold core f items rem :
  (forall d st, stopped (view st) = false -> exists b st', core d st = Ok (b, st') /\ folded (f d) st st') ->
  forall i b st, stopped (view st) = false -> exists c st',
    scan_array funcs core items rem i b st = Ok (negb (stopped (view st')), c, st') /\
    folded (flat_map f (documents items)) st st'.
Proof.
  intros Hc. induction items as [|[k v] items IH]; intros i b st Hs; cbn [scan_array].
  - exists b, st. rewrite Hs. split; reflexivity.
  - assert (Other : exists c st', scan_array funcs core items rem (wrap_s 32 (i + 1)) b (not_found funcs i rem st) =
      Ok (negb (stopped (view st')), c, st') /\ folded (flat_map f (documents items)) st st').
    { pose proof (fold_not_found i rem st Hs) as N.
      destruct (IH (wrap_s 32 (i + 1)) b (not_found funcs i rem st)) as (c & st' & E & V); [now rewrite N|].
      exists c, st'. split; [exact E|]. unfold folded in *. now rewrite V, N. }
    destruct v; try exact Other. clear Other. pose proof (fold_index i st Hs) as I.
    destruct (Hc d (notify (SetIntermediateArrayIndex funcs) i st)) as (pnf & st1 & -> & V); [now rewrite I|].
    cbn [res_bind]. rewrite fold_continue. unfold documents. cbn [flat_map snd app].
    unfold folded in *. rewrite fold_visits_app. rewrite I in V. rewrite <- V.
    destruct (stopped (view st1)) eqn:S; cbn [negb].
    + exists b, st1. rewrite S. split; [reflexivity|]. symmetry. now apply fold_visits_stopped.
    + assert (N : view (if pnf then not_found funcs i rem st1 else st1) = view st1)
        by (destruct pnf; [now apply fold_not_found|reflexivity]).
      destruct (IH (wrap_s 32 (i + 1)) (b || pnf) (if pnf then not_found funcs i rem st1 else st1))
        as (c & st' & E & V'); [now rewrite N|]. exists c, st'. rewrite N in V'. now split.
Qed.

Lemma traverse_array_fold skip core f v items rem :
  (forall ctx d st, stopped (view st) = false ->
     exists b st', core ctx d st = Ok (b, st') /\ folded (f ctx d) st st') ->
  forall st, stopped (view st) = false ->
  exists b st', traverse_array funcs skip core v items rem st = Ok (b, st') /\
    folded ((if tries_index skip rem then f true items else []) ++ flat_map (f false) (documents items)) st st'.
Proof.
  intros Hc. assert (Scan : forall h st, stopped (view st) = false -> exists b st',
    res_bind (scan_array funcs (core false) items rem 0 false (notify (SetIntermediateArrayStartEnd funcs) true st))
      (fun '(proceed, arr, st) => if negb proceed then Ok (false, st) else
         let st := notify (SetIntermediateArrayStartEnd funcs) false st in
         if h && arr then Ok (true, notify (SetTraverseResult funcs) TraverseBsonResult_PathNotFound st)
         else Ok (false, notify (SetTraverseResult funcs) TraverseBsonResult_TypeMismatch st)) = Ok (b, st') /\
    folded (flat_map (f false) (documents items)) st st').
  { intros h st Hs. pose proof (fold_start_end true st Hs) as B.
    destruct (scan_array_fold (core false) (f false) items rem (Hc false) 0 false
      (notify (SetIntermediateArrayStartEnd funcs) true st)) as (c & st1 & -> & V); [now rewrite B|].
    cbn [res_bind]. rewrite negb_involutive. unfold folded in *. rewrite B in V.
    destruct (stopped (view st1)) eqn:S; [do 2 eexists; split; [reflexivity|exact V]|].
    pose proof (fold_start_end false st1 S) as C.
    destruct (h && c); do 2 eexists; (split; [reflexivity|]); now rewrite fold_result, C by now rewrite C. }
  intros st Hs. unfold traverse_array. destruct (tries_index skip rem); [|cbn [res_bind negb app]; now apply Scan].
  destruct (Hc true items st Hs) as (h & st1 & -> & V). cbn [res_bind]. rewrite fold_continue. cbn [res_bind].
  rewrite negb_involutive. unfold folded in *. rewrite fold_visits_app, <- V.
  destruct (stopped (view st1)) eqn:S; [|now apply Scan].
  do 2 eexists. split; [reflexivity|]. symmetry. now apply fold_visits_stopped.
Qed.

Lemma TraverseBsonCore_fold skip segs : forall fuel ctx d st,
  segs <> [] -> Forall (fun s => ~ In dot s) segs -> Forall no_nul segs -> (List.length segs <= fuel)%nat ->
  stopped (view st) = false ->
  exists b st', TraverseBsonCore funcs skip fuel (join_path segs) ctx d st = Ok (b, st') /\
    folded (reach skip segs ctx d) st st'.
Proof.
  induction segs as [|key [|next rest] IH]; intros fuel ctx d st Hne Hd Hn Hf Hs; [easy|..];
    (destruct fuel as [|fuel]; [cbn in Hf; lia|]); inversion_clear Hd as [|? ? Hdot Hd'];
    inversion_clear Hn as [|? ? Hnul Hn']; cbn [TraverseBsonCore].
  - change (join_path [key]) with key. rewrite (proj2 (StringViewFindPrefix_None key dot) Hdot).
    pose proof (traverse_leaf_fold d key ctx st Hnul Hs) as L.
    destruct (traverse_leaf funcs d key ctx st) as [b st']. do 2 eexists. split; [reflexivity|exact L].
  - change (join_path (key :: next :: rest)) with (key ++ dot :: join_path (next :: rest)).
    set (tail := next :: rest) in *.
    assert (P : StringViewFindPrefix (key ++ dot :: join_path tail) dot = Some key)
      by (apply StringViewFindPrefix_Some; eauto).
    rewrite P, substring_after_dot. cbn [res_bind].
    assert (R : forall ctx d st, stopped (view st) = false -> exists b st',
      TraverseBsonCore funcs skip fuel (join_path tail) ctx d st = Ok (b, st') /\ folded (reach skip tail ctx d) st st').
    { intros. apply IH; auto; [discriminate|cbn in Hf |- *; lia]. }
    change (reach skip (key :: tail) ctx d) with
      (match lookup d key with
       | Some (VDocument d') => reach skip tail false d'
       | Some (VArray items) => (if tries_index skip next then reach skip tail true items else []) ++
                                flat_map (reach skip tail false) (documents items)
       | _ => [] end).
    assert (Miss : forall b r, exists b' st',
      @Ok (bool * St) (b, notify (SetTraverseResult funcs) r st) = Ok (b', st') /\ folded [] st st')
      by (intros; do 2 eexists; split; [reflexivity|exact (fold_result r st Hs)]).
    destruct (bson_iter_find_string_view d key) as [[k v]|] eqn:E; [|rewrite (find_None _ _ Hnul E); apply Miss].
    rewrite (find_Some _ _ _ _ Hnul E).
    destruct v; try apply Miss; [now apply R|].
    rewrite <- (tries_index_join skip next rest). now apply traverse_array_fold.
Qed.

(** A traversal with such callbacks folds over the visits of the reference
    semantics, in their order, up to the one that stops it. *)
Lemma TraverseBson_fold skip segs doc st :
  segs <> [] -> Forall (fun s => ~ In dot s) segs -> Forall no_nul segs -> stopped (view st) = false ->
  exists st', TraverseBson funcs skip doc (join_path segs) st = Ok st' /\
    view st' = fold_visits (reach skip segs false doc) (view st).
Proof.
  intros Hne Hd Hn Hs. unfold TraverseBson.
  destruct (TraverseBsonCore_fold skip segs (S (List.length (join_path segs))) false doc st Hne Hd Hn)
    as (b & st' & -> & V); [now apply length_join|exact Hs|]. exists st'. now split.
Qed.
End Fold.
Arguments fold_visits {A} stopped step visits a.

(** ** The array-index shortcut *)

(** The keys of an array are its indexes in decimal. *)
Definition starts_with_digit (k : bytes) : bool := tries_index false k.

Fixpoint arrays_indexed (v : bson_value) : Prop :=
  match v with
  | VDocument d => fields_all (fun _ v => arrays_indexed v) d
  | VArray d => fields_all (fun k v => starts_with_digit k = true /\ arrays_indexed v) d
  | _ => True
  end.

Lemma lookup_fields_all (P : bytes -> bson_value -> Prop) d key v :
  fields_all P d -> lookup d key = Some v -> P key v.
Proof.
  unfold lookup. induction d as [|[k w] d IH]; cbn [find fields_all fst]; [easy|]. intros [Hw Hd].
  destruct (Z.eqb_spec (cmp_bytes k key) 0) as [E|E]; [|now apply IH].
  cbn. intros H. injection H as <-. apply (proj1 (cmp_bytes_0 _ _)) in E. now subst.
Qed.

Lemma fields_all_impl (P Q : bytes -> bson_value -> Prop) d :
  (forall k v, P k v -> Q k v) -> fields_all P d -> fields_all Q d.
Proof. intros H. induction d as [|[k v] d IH]; cbn; [easy|]. intros [? ?]. auto. Qed.

Lemma documents_indexed d : fields_all (fun _ v => arrays_indexed v) d ->
  Forall (fields_all (fun _ v => arrays_indexed v)) (documents d).
Proof.
  induction d as [|[k v] d IH]; cbn; intros H; [constructor|]. destruct H as [Hv Hd].
  unfold documents in *. cbn [flat_map snd].
  destruct v; cbn [app]; auto.
Qed.

Lemma reach_skip segs : forall ctx d, fields_all (fun _ v => arrays_indexed v) d ->
  reach true segs ctx d = reach false segs ctx d.
Proof.
  induction segs as [|key [|next rest] IH]; intros ctx d Hd; [reflexivity..|].
  set (tail := next :: rest) in *.
  cbn [reach]. unfold tail. fold tail.
  destruct (lookup d key) as [v|] eqn:E; [|reflexivity].
  apply (lookup_fields_all _ _ _ _ Hd) in E. destruct v; try reflexivity; cbn [arrays_indexed] in E.
  - now apply IH.
  - assert (Hi : fields_all (fun _ v => arrays_indexed v) d0)
      by (revert E; apply fields_all_impl; tauto).
    f_equal.
    + change (tries_index true next) with true. cbv iota. rewrite IH by exact Hi.
      destruct (tries_index false next) eqn:T; [reflexivity|].
      assert (N : lookup d0 next = None).
      { destruct (lookup d0 next) as [w|] eqn:L; [|reflexivity].
        apply (lookup_fields_all _ _ _ _ E) in L as [D _]. unfold starts_with_digit in D. congruence. }
      unfold tail. cbn [reach]. rewrite N. now destruct rest.
    + pose proof (documents_indexed d0 Hi) as F. induction F as [|x l Hx _ IHl]; [reflexivity|].
      cbn [flat_map]. now rewrite IHl, IH.
Qed.

(** Skipping the array-index attempt for a path segment that does not start
    with a digit changes nothing that is visited, on documents whose array keys
    are indexes. *)
Theorem SkipBsonArrayTraverseOptimization_equivalent (segs : list bytes) (doc : fields) :
  segs <> [] -> Forall (fun s => ~ In dot s) segs -> Forall no_nul segs ->
  fields_all (fun _ v => arrays_indexed v) doc ->
  TraverseBson recorder true doc (join_path segs) [] =
  TraverseBson recorder false doc (join_path segs) [].
Proof.
  intros Hne Hd Hn Hi. unfold TraverseBson.
  destruct (TraverseBsonCore_recorder true segs (S (List.length (join_path segs))) false doc [] Hne Hd Hn)
    as [b ->]; [now apply length_join|].
  destruct (TraverseBsonCore_recorder false segs (S (List.length (join_path segs))) false doc [] Hne Hd Hn)
    as [b' ->]; [now apply length_join|].
  cbn [res_bind app]. now rewrite reach_skip.
Qed.

(** ** Key search *)

(** A key occurs in a document or in one nested in it. *)
Inductive occurs (key : bytes) : fields -> Prop :=
| occurs_here v d : occurs key ((key, v) :: d)
| occurs_document k inner d : occurs key inner -> occurs key ((k, VDocument inner) :: d)
| occurs_array k inner d : occurs key inner -> occurs key ((k, VArray inner) :: d)
| occurs_later kv d : occurs key d -> occurs key (kv :: d).

Definition nested (v : bson_value) : fields := match v with VDocument d | VArray d => d | _ => [] end.

Lemma search_fields_occurs key d : no_nul key ->
  Forall (fun kv => value_ok (snd kv) -> (search_value key (snd kv) = true <-> occurs key (nested (snd kv)))) d ->
  doc_ok d -> (search_fields key (search_value key) d = true <-> occurs key d).
Proof.
  intros Hk H. induction H as [|[k v] d Hv _ IH]; cbn [search_fields]; intros Hd.
  - split; [discriminate|]. intros O; inversion O.
  - destruct Hd as [[[_ Hkn] Hvo] Hd]. cbn [snd] in Hv. specialize (Hv Hvo). specialize (IH Hd).
    destruct (strcmp k key =? 0) eqn:E.
    { apply (strcmp_0 k key Hkn Hk) in E. subst. split; [intros _; constructor|reflexivity]. }
    assert (N : k <> key).
    { intros ->. rewrite (proj2 (strcmp_0 key key Hkn Hk) eq_refl) in E. discriminate. }
    destruct (search_value key v) eqn:S.
    + split; [|reflexivity]. intros _. apply proj1 in Hv. specialize (Hv eq_refl).
      destruct v; try now inversion Hv; now constructor.
    + rewrite IH. split; [now constructor|]. intros O. inversion O; subst; try easy;
        exfalso; apply Hv in H0; discriminate.
Qed.

Lemma search_value_occurs key v : no_nul key -> value_ok v ->
  (search_value key v = true <-> occurs key (nested v)).
Proof.
  intros Hk. induction v using bson_value_nested_ind; intros Hv;
    try (split; [discriminate|intros O; inversion O]); now apply search_fields_occurs.
Qed.

(** [BsonIterSearchKeyRecursive] finds a key exactly when it occurs at some
    depth of the documents and arrays below the iterator. *)
Theorem BsonIterSearchKeyRecursive_iff (doc : fields) (key : bytes) :
  doc_ok doc -> no_nul key -> (BsonIterSearchKeyRecursive doc key = true <-> occurs key doc).
Proof.
  intros Hd Hk. apply search_fields_occurs; auto.
  apply Forall_forall. intros kv _ H. now apply search_value_occurs.
Qed.

(** ** Concrete documents *)

Definition sample_segs : list bytes := [str "a"; str "1"; str "b"].
Definition sample_doc : fields :=
  [(str "a", VArray [(str "0", VInt32 1);
                     (str "1", VDocument [(str "b", VArray [(str "0", VInt32 7)]);
                                          (str "1", VDocument [(str "b", VBool true)])])])].

Ltac segs_ok :=
  repeat (constructor; [first [now apply no_nulb_ok | vm_compute; intuition discriminate]|]);
  constructor.

Lemma sample_segs_plain : Forall (fun s => ~ In dot s) sample_segs.
Proof. segs_ok. Qed.
Lemma sample_segs_no_nul : Forall no_nul sample_segs.
Proof. segs_ok. Qed.

Lemma TraverseBson_visits_witness :
  TraverseBson recorder false sample_doc (str "a.1.b") [] =
    Ok (reach false sample_segs false sample_doc) /\
  reach false sample_segs false sample_doc =
    [VisitedField (VArray [(str "0", VInt32 7)]); VisitedElement 0 (VInt32 7); VisitedField (VBool true)].
Proof.
  split; [|reflexivity].
  apply (TraverseBson_visits false sample_segs sample_doc ltac:(discriminate) sample_segs_plain sample_segs_no_nul).
Defined.

Lemma SkipBsonArrayTraverseOptimization_equivalent_witness :
  TraverseBson recorder true sample_doc (str "a.1.b") [] = TraverseBson recorder false sample_doc (str "a.1.b") [].
Proof.
  apply (SkipBsonArrayTraverseOptimization_equivalent sample_segs sample_doc ltac:(discriminate)
           sample_segs_plain sample_segs_no_nul).
  repeat split.
Defined.

Lemma BsonIterSearchKeyRecursive_iff_witness :
  BsonIterSearchKeyRecursive sample_doc (str "b") = true <-> occurs (str "b") sample_doc.
Proof.
  apply (BsonIterSearchKeyRecursive_iff sample_doc (str "b")).
  - repeat split; try (apply no_nulb_ok; reflexivity); vm_compute; congruence.
  - now apply no_nulb_ok.
Defined.
