(* ===== verification/PgbsonElement.v ===== *)
(** * Single-element documents ([pgbsonelement.c])

    [BsonIterToSinglePgbsonElement] and its variants work on the elements that
    libbson's iterator yields.  [FillPgbsonElementUnsafe] parses the bytes of a
    document itself; it is modelled on the buffer, with reads past the end of
    the buffer as an outcome of their own, on a little-endian machine. *)

From Stdlib Require Import ZArith Lia Bool String List.
From Stdlib Require Import Strings.Byte.
From S2P Require Import Prelude BsonTypes.
Import ListNotations.
Local Open Scope Z_scope.

(** ** Iterator-based functions *)

Section Elements.
(** The setting [EnableCollation]. *)
Variable EnableCollation : bool.
Abbreviation pgbsonelement := (bytes * bson_value)%type.

Definition is_collation_key (k : bytes) : bool := strcmp k (str "collation") =? 0.

Definition BsonIterToSinglePgbsonElement (iterator : fields) : res pgbsonelement :=
  match iterator with
  | [] => Err ERRCODE_DOCUMENTDB_BADVALUE
  | [element] => Ok element
  | element :: (k, _) :: _ =>
    if negb (EnableCollation && is_collation_key k) then Err ERRCODE_DOCUMENTDB_BADVALUE else Ok element
  end.

(** [bson_iter_utf8] yields NULL for a value that is not a string. *)
Definition bson_iter_utf8 (v : bson_value) : option bytes :=
  match v with VUtf8 s => Some s | _ => None end.

Definition PgbsonToSinglePgbsonElementWithCollation (iter : fields) : res (pgbsonelement * option bytes) :=
  match iter with
  | [] => Err ERRCODE_DOCUMENTDB_BADVALUE
  | [element] => Ok (element, None)
  | element :: (k, v) :: rest =>
    if is_collation_key k then
      match rest with
      | [] => Ok (element, bson_iter_utf8 v)
      | _ :: _ => Err ERRCODE_DOCUMENTDB_BADVALUE
      end
    else Err ERRCODE_DOCUMENTDB_BADVALUE
  end.

Definition TryGetSinglePgbsonElementFromBsonIterator (iterator : fields) : option pgbsonelement :=
  match iterator with
  | [element] => Some element
  | _ => None
  end.

(** The argument is what [bson_iter_init_from_data] makes of [v_doc]: the elements,
    or [None] when it cannot initialize the iterator. *)
Definition BsonValueToPgbsonElement (v_doc : option fields) : res pgbsonelement :=
  match v_doc with
  | None => Err ERRCODE_DOCUMENTDB_BADVALUE
  | Some [] => Err ERRCODE_INTERNAL_ERROR
  | Some (element :: _) => Ok element
  end.

Definition TryGetBsonValueToPgbsonElement (v_doc : option fields) : option pgbsonelement :=
  match v_doc with
  | Some (element :: _) => Some element
  | _ => None
  end.

(** Agreement of the three readings of a single-element document. *)
Theorem single_element_agreement (iter : fields) (e : pgbsonelement) :
  TryGetSinglePgbsonElementFromBsonIterator iter = Some e ->
  BsonIterToSinglePgbsonElement iter = Ok e /\
  PgbsonToSinglePgbsonElementWithCollation iter = Ok (e, None).
Proof. destruct iter as [|e' [|[k v] rest]]; simpl; try discriminate. intros H. injection H as <-. now split. Qed.
End Elements.

Lemma single_element_agreement_witness :
  let e := (str "a", VInt32 1) in
  BsonIterToSinglePgbsonElement false [e] = Ok e /\ PgbsonToSinglePgbsonElementWithCollation [e] = Ok (e, None).
Proof. apply (single_element_agreement false [(str "a", VInt32 1)]). reflexivity. Defined.

(** ** The byte-level parser *)

Inductive outcome (A : Type) : Type :=
| Done (a : A)
| ReturnFalse
| BeyondBuffer.
Arguments Done {A} a.
Arguments ReturnFalse {A}.
Arguments BeyondBuffer {A}.

Definition outcome_bind {A B} (o : outcome A) (k : A -> outcome B) : outcome B :=
  match o with Done a => k a | ReturnFalse => ReturnFalse | BeyondBuffer => BeyondBuffer end.

Declare Scope outcome_scope.
Notation "'let?' x ':=' e 'in' k" := (outcome_bind e (fun x => k))
  (at level 10, x name, e at level 100, k at level 200) : outcome_scope.
Local Open Scope outcome_scope.

(** Values of an element: nested documents stay bytes. *)
Inductive raw_value : Set :=
| RDouble (bits : Z) | RUtf8 (s : bytes) | RDocument (data : bytes) | RArray (data : bytes)
| RBinary (subtype : Z) (data : bytes) | RUndefined | ROid (oid : bytes) | RBool (b : bool)
| RDateTime (ms : Z) | RNull | RRegex (regex options : bytes)
| RDbPointer (collection oid : bytes) | RCode (code : bytes) | RSymbol (symbol : bytes)
| RCodeWScope (code scope : bytes) | RInt32 (z : Z) | RTimestamp (timestamp increment : Z)
| RInt64 (z : Z) | RDecimal128 (d : decimal128) | RMaxKey | RMinKey.

(** The first [n] bytes at a pointer, and the pointer moved by [n]. *)
Definition view (data : bytes) (n : Z) : outcome bytes :=
  if (0 <=? n) && (n <=? blen data) then Done (firstn (Z.to_nat n) data) else BeyondBuffer.
Definition advance (data : bytes) (n : Z) : outcome bytes :=
  if (0 <=? n) && (n <=? blen data) then Done (skipn (Z.to_nat n) data) else BeyondBuffer.

Definition read_u (n : Z) (data : bytes) : outcome Z := let? b := view data n in Done (le_Z b).
Definition read_i32 (data : bytes) : outcome Z := let? z := read_u 4 data in Done (wrap_s 32 z).
Definition read_i64 (data : bytes) : outcome Z := let? z := read_u 8 data in Done (wrap_s 64 z).

(** A NUL-terminated string at a pointer. *)
Fixpoint cstr_at (data : bytes) : outcome bytes :=
  match data with
  | [] => BeyondBuffer
  | b :: data' => if byte_z b =? 0 then Done [] else let? s := cstr_at data' in Done (b :: s)
  end.

(** [if (lengthLeft < n) return false]. *)
Definition require {A} (lengthLeft n : Z) (k : outcome A) : outcome A :=
  if lengthLeft <? n then ReturnFalse else k.

(** CODE, SYMBOL and UTF8: a length that counts the terminator, and the bytes. *)
Definition read_string (lengthLeft : Z) (data : bytes) : outcome bytes :=
  require lengthLeft 4
    (let? len := read_i32 data in
     let? data := advance data 4 in
     require lengthLeft (wrap_s 32 (len + 4)) (view data (wrap_u 32 (len - 1)))).

Definition read_document (lengthLeft : Z) (data : bytes) : outcome bytes :=
  require lengthLeft 4
    (let? docLength := read_i32 data in
     require lengthLeft docLength (view data (wrap_u 32 docLength))).

Definition BSON_SUBTYPE_BINARY_DEPRECATED : Z := 2.

Definition read_binary (lengthLeft : Z) (data : bytes) : outcome raw_value :=
  require lengthLeft 4
    (let? binaryLength := read_i32 data in
     let? data := advance data 4 in
     require lengthLeft (wrap_s 32 (4 + binaryLength + 1))
       (let? subtype := read_u 1 data in
        let? data := advance data 1 in
        if subtype =? BSON_SUBTYPE_BINARY_DEPRECATED then
          let? data := advance data 4 in
          let? d := view data (wrap_u 32 (wrap_s 32 (binaryLength - 4))) in
          Done (RBinary subtype d)
        else
          let? d := view data (wrap_u 32 binaryLength) in
          Done (RBinary subtype d))).

Definition read_regex (lengthLeft : Z) (data : bytes) : outcome raw_value :=
  require lengthLeft 2
    (let? regex := cstr_at data in
     require lengthLeft (wrap_s 32 (blen regex + 2))
       (let? data := advance data (blen regex + 1) in
        let? options := cstr_at data in
        Done (RRegex regex options))).

Definition read_dbpointer (lengthLeft : Z) (data : bytes) : outcome raw_value :=
  require lengthLeft 4
    (let? utf8Length := read_i32 data in
     let? data := advance data 4 in
     require lengthLeft (wrap_s 32 (utf8Length + 4))
       (let? collection := view data (wrap_u 32 (utf8Length - 1)) in
        require lengthLeft (wrap_s 32 (utf8Length + 4 + 12))
          (let? oid := view data 12 in
           Done (RDbPointer collection oid)))).

Definition read_codewscope (lengthLeft : Z) (data : bytes) : outcome raw_value :=
  require lengthLeft 4
    (let? totalcodeLength := read_i32 data in
     let? data := advance data 4 in
     require lengthLeft (wrap_s 32 (totalcodeLength + 4))
       (let? codeLength := read_i32 data in
        let? data := advance data 4 in
        require totalcodeLength codeLength
          (let? code := view data (wrap_u 32 codeLength) in
           let? data := advance data (wrap_s 32 (codeLength + 1)) in
           let? docLength := read_i32 data in
           require totalcodeLength docLength
             (let? scope := view data (wrap_u 32 docLength) in
              Done (RCodeWScope code scope))))).

(** The [switch] on the type. *)
Definition read_value (type : bson_type_t) (lengthLeft : Z) (data : bytes) : outcome raw_value :=
  match type with
  | BSON_TYPE_DATE_TIME => require lengthLeft 8 (let? z := read_i64 data in Done (RDateTime z))
  | BSON_TYPE_DOUBLE => require lengthLeft 8 (let? z := read_u 8 data in Done (RDouble z))
  | BSON_TYPE_INT64 => require lengthLeft 8 (let? z := read_i64 data in Done (RInt64 z))
  | BSON_TYPE_TIMESTAMP =>
    require lengthLeft 8
      (let? timestamp := read_u 4 data in
       let? data := advance data 4 in
       let? increment := read_u 4 data in
       Done (RTimestamp timestamp increment))
  | BSON_TYPE_CODE => let? s := read_string lengthLeft data in Done (RCode s)
  | BSON_TYPE_SYMBOL => let? s := read_string lengthLeft data in Done (RSymbol s)
  | BSON_TYPE_UTF8 => let? s := read_string lengthLeft data in Done (RUtf8 s)
  | BSON_TYPE_BINARY => read_binary lengthLeft data
  | BSON_TYPE_ARRAY => let? d := read_document lengthLeft data in Done (RArray d)
  | BSON_TYPE_DOCUMENT => let? d := read_document lengthLeft data in Done (RDocument d)
  | BSON_TYPE_OID => require lengthLeft 12 (let? oid := view data 12 in Done (ROid oid))
  | BSON_TYPE_BOOL => require lengthLeft 1 (let? b := read_u 1 data in Done (RBool (negb (b =? 0))))
  | BSON_TYPE_REGEX => read_regex lengthLeft data
  | BSON_TYPE_DBPOINTER => read_dbpointer lengthLeft data
  | BSON_TYPE_CODEWSCOPE => read_codewscope lengthLeft data
  | BSON_TYPE_INT32 => require lengthLeft 4 (let? z := read_i32 data in Done (RInt32 z))
  | BSON_TYPE_DECIMAL128 =>
    require lengthLeft 16
      (let? low := read_u 8 data in
       let? data := advance data 8 in
       let? high := read_u 8 data in
       Done (RDecimal128 (Dec128 high low)))
  | BSON_TYPE_MAXKEY => Done RMaxKey
  | BSON_TYPE_MINKEY => Done RMinKey
  | BSON_TYPE_NULL => Done RNull
  | BSON_TYPE_UNDEFINED => Done RUndefined
  | BSON_TYPE_EOD => ReturnFalse
  end.

Definition FillPgbsonElementUnsafe (data : bytes) : res (outcome (bytes * raw_value)) :=
  if blen data <? 5 then Err ERRCODE_INTERNAL_ERROR
  else Ok
    (let? length := read_u 4 data in
     let? data := advance data 4 in
     let? type := read_u 1 data in
     let? data := advance data 1 in
     let? path := cstr_at data in
     let? data := advance data (blen path + 1) in
     let lengthLeft := wrap_s 32 (length - blen path - 5) in
     match type_of_code type with
     | Some t => let? v := read_value t lengthLeft data in Done (path, v)
     | None => ReturnFalse
     end).

Definition BsonValueToPgbsonElementUnsafe (type : bson_type_t) (data : bytes)
  : res (outcome (bytes * raw_value)) :=
  if negb (type_eqb type BSON_TYPE_DOCUMENT) then Err ERRCODE_DOCUMENTDB_BADVALUE
  else
    match FillPgbsonElementUnsafe data with
    | Ok ReturnFalse => Err ERRCODE_DOCUMENTDB_BADVALUE
    | r => r
    end.

(** ** The wire format

    The encoding of a one-element document after the BSON specification. *)

Definition encode_string (s : bytes) : bytes := le_bytes 4 (blen s + 1) ++ s ++ [x00].

Definition raw_type (v : raw_value) : bson_type_t :=
  match v with
  | RDouble _ => BSON_TYPE_DOUBLE | RUtf8 _ => BSON_TYPE_UTF8 | RDocument _ => BSON_TYPE_DOCUMENT
  | RArray _ => BSON_TYPE_ARRAY | RBinary _ _ => BSON_TYPE_BINARY | RUndefined => BSON_TYPE_UNDEFINED
  | ROid _ => BSON_TYPE_OID | RBool _ => BSON_TYPE_BOOL | RDateTime _ => BSON_TYPE_DATE_TIME
  | RNull => BSON_TYPE_NULL | RRegex _ _ => BSON_TYPE_REGEX | RDbPointer _ _ => BSON_TYPE_DBPOINTER
  | RCode _ => BSON_TYPE_CODE | RSymbol _ => BSON_TYPE_SYMBOL | RCodeWScope _ _ => BSON_TYPE_CODEWSCOPE
  | RInt32 _ => BSON_TYPE_INT32 | RTimestamp _ _ => BSON_TYPE_TIMESTAMP | RInt64 _ => BSON_TYPE_INT64
  | RDecimal128 _ => BSON_TYPE_DECIMAL128 | RMaxKey => BSON_TYPE_MAXKEY | RMinKey => BSON_TYPE_MINKEY
  end.

Definition encode_value (v : raw_value) : bytes :=
  match v with
  | RDouble z | RDateTime z | RInt64 z => le_bytes 8 z
  | RUtf8 s | RCode s | RSymbol s => encode_string s
  | RDocument d | RArray d => d
  | RBinary t d =>
    if t =? BSON_SUBTYPE_BINARY_DEPRECATED
    then le_bytes 4 (blen d + 4) ++ [byte_of_z t] ++ le_bytes 4 (blen d) ++ d
    else le_bytes 4 (blen d) ++ [byte_of_z t] ++ d
  | ROid oid => oid
  | RBool b => [byte_of_z (b2z b)]
  | RRegex r o => r ++ [x00] ++ o ++ [x00]
  | RDbPointer c oid => encode_string c ++ oid
  | RCodeWScope c scope => le_bytes 4 (blen c + 9 + blen scope) ++ encode_string c ++ scope
  | RInt32 z => le_bytes 4 z
  | RTimestamp t i => le_bytes 4 i ++ le_bytes 4 t
  | RDecimal128 d => le_bytes 8 (dec_low d) ++ le_bytes 8 (dec_high d)
  | RUndefined | RNull | RMaxKey | RMinKey => []
  end.

Definition encode_body (key : bytes) (v : raw_value) : bytes :=
  byte_of_z (type_code (raw_type v)) :: key ++ x00 :: encode_value v ++ [x00].

Definition encode_single (key : bytes) (v : raw_value) : bytes :=
  le_bytes 4 (blen (encode_body key v) + 4) ++ encode_body key v.

(** Nested documents carry their own length. *)
Definition raw_ok (v : raw_value) : Prop :=
  match v with
  | RDouble b => uint64_ok b
  | RDocument d | RArray d => exists rest, d = le_bytes 4 (blen d) ++ rest
  | RBinary t _ => 0 <= t < 256
  | ROid oid => List.length oid = 12%nat
  | RDateTime z | RInt64 z => int64_ok z
  | RRegex r o => no_nul r /\ no_nul o
  | RDbPointer _ oid => List.length oid = 12%nat
  | RCodeWScope _ scope => exists rest, scope = le_bytes 4 (blen scope) ++ rest
  | RInt32 z => int32_ok z
  | RTimestamp t i => uint32_ok t /\ uint32_ok i
  | RDecimal128 d => decimal128_ok d
  | _ => True
  end.

(** ** Reading what was written *)

Lemma blen_app a b : blen (a ++ b) = blen a + blen b.
Proof. unfold blen. rewrite length_app. lia. Qed.

Lemma blen_cons b l : blen (b :: l) = 1 + blen l.
Proof. unfold blen. cbn [List.length]. lia. Qed.

Lemma blen_nonneg l : 0 <= blen l.
Proof. unfold blen. lia. Qed.

Lemma view_app a b n : n = blen a -> view (a ++ b) n = Done a.
Proof.
  intros ->. unfold view. rewrite blen_app. pose proof (blen_nonneg a). pose proof (blen_nonneg b).
  replace ((0 <=? blen a) && (blen a <=? blen a + blen b)) with true by lia.
  unfold blen. rewrite Nat2Z.id, firstn_app, Nat.sub_diag, firstn_all, app_nil_r. reflexivity.
Qed.

Lemma advance_app a b n : n = blen a -> advance (a ++ b) n = Done b.
Proof.
  intros ->. unfold advance. rewrite blen_app. pose proof (blen_nonneg a). pose proof (blen_nonneg b).
  replace ((0 <=? blen a) && (blen a <=? blen a + blen b)) with true by lia.
  unfold blen. now rewrite Nat2Z.id, skipn_app, Nat.sub_diag, skipn_all.
Qed.

Lemma blen_le_bytes n z : blen (le_bytes n z) = Z.of_nat n.
Proof. unfold blen. now rewrite length_le_bytes. Qed.

Lemma read_u_le n z rest : 0 <= z < 256 ^ Z.of_nat n -> read_u (Z.of_nat n) (le_bytes n z ++ rest) = Done z.
Proof.
  intros H. unfold read_u. rewrite view_app by (symmetry; apply blen_le_bytes). cbn [outcome_bind].
  now rewrite le_Z_le_bytes, Z.mod_small.
Qed.

Lemma read_u4_le z rest : uint32_ok z -> read_u 4 (le_bytes 4 z ++ rest) = Done z.
Proof. exact (read_u_le 4 z rest). Qed.

Lemma read_u8_le z rest : uint64_ok z -> read_u 8 (le_bytes 8 z ++ rest) = Done z.
Proof. exact (read_u_le 8 z rest). Qed.

Lemma wrap_s_mod32 z : wrap_s 32 (z mod 2 ^ 32) = wrap_s 32 z.
Proof. unfold wrap_s. now rewrite Zplus_mod_idemp_l. Qed.

Lemma wrap_s_mod64 z : wrap_s 64 (z mod 2 ^ 64) = wrap_s 64 z.
Proof. unfold wrap_s. now rewrite Zplus_mod_idemp_l. Qed.

Lemma read_i32_le z rest : int32_ok z -> read_i32 (le_bytes 4 z ++ rest) = Done z.
Proof.
  intros H. unfold read_i32, read_u. rewrite view_app by reflexivity. cbn [outcome_bind].
  rewrite le_Z_le_bytes. change (256 ^ Z.of_nat 4) with (2 ^ 32). now rewrite wrap_s_mod32, wrap_s32_id.
Qed.

Lemma read_i64_le z rest : int64_ok z -> read_i64 (le_bytes 8 z ++ rest) = Done z.
Proof.
  intros H. unfold read_i64, read_u. rewrite view_app by reflexivity. cbn [outcome_bind].
  rewrite le_Z_le_bytes. change (256 ^ Z.of_nat 8) with (2 ^ 64). now rewrite wrap_s_mod64, wrap_s64_id.
Qed.

Lemma read_byte z rest : 0 <= z < 256 -> read_u 1 (byte_of_z z :: rest) = Done z.
Proof. intros H. exact (read_u_le 1 z rest H). Qed.

Lemma advance_1 b rest : advance (b :: rest) 1 = Done rest.
Proof. exact (advance_app [b] rest 1 eq_refl). Qed.

Lemma cstr_at_nul s rest : no_nul s -> cstr_at (s ++ x00 :: rest) = Done s.
Proof.
  induction 1 as [|b s Hb _ IH]; [reflexivity|]. cbn [app cstr_at].
  destruct (Z.eqb_spec (byte_z b) 0); [easy|]. now rewrite IH.
Qed.

Lemma advance_cstr s b rest : advance (s ++ b :: rest) (blen s + 1) = Done rest.
Proof.
  change (b :: rest) with ([b] ++ rest). rewrite app_assoc. apply advance_app. rewrite blen_app. reflexivity.
Qed.

Lemma require_ok {A} left n (k : outcome A) : n <= left -> require left n k = k.
Proof. intros H. unfold require. now replace (left <? n) with false by lia. Qed.

Lemma require_short {A} left n (k : outcome A) : left < n -> require left n k = ReturnFalse.
Proof. intros H. unfold require. now replace (left <? n) with true by lia. Qed.

Lemma wrap_u32_small z : 0 <= z < 2 ^ 32 -> wrap_u 32 z = z.
Proof. apply Z.mod_small. Qed.

(** A document size that fits the length field. *)
Definition size_ok (key : bytes) (v : raw_value) : Prop := blen (encode_single key v) <= INT32_MAX.

Lemma encode_size key v : blen (encode_single key v) = blen key + blen (encode_value v) + 7.
Proof.
  unfold encode_single, encode_body.
  rewrite blen_app, blen_le_bytes, blen_cons, blen_app, blen_cons, blen_app.
  change (blen [x00]) with 1. lia.
Qed.

(** The header is read back; the parser then believes that one byte more is
    left than there is. *)
Lemma fill_header key v : no_nul key -> size_ok key v ->
  FillPgbsonElementUnsafe (encode_single key v) =
  Ok (let? x := read_value (raw_type v) (blen (encode_value v) + 2) (encode_value v ++ [x00]) in
      Done (key, x)).
Proof.
  intros Hk Hs. unfold size_ok in Hs. rewrite encode_size in Hs.
  pose proof (blen_nonneg key) as Bk. pose proof (blen_nonneg (encode_value v)) as Bv.
  unfold FillPgbsonElementUnsafe. rewrite encode_size.
  replace (blen key + blen (encode_value v) + 7 <? 5) with false by lia. f_equal.
  assert (L : blen (encode_body key v) + 4 = blen key + blen (encode_value v) + 7).
  { rewrite <- encode_size. unfold encode_single. rewrite blen_app, blen_le_bytes. lia. }
  unfold encode_single. rewrite L.
  rewrite read_u4_le by (zbounds; lia). cbn [outcome_bind].
  rewrite advance_app by (now rewrite blen_le_bytes). cbn [outcome_bind]. unfold encode_body.
  rewrite read_byte by (destruct v; cbn; lia). cbn [outcome_bind]. rewrite advance_1. cbn [outcome_bind].
  rewrite cstr_at_nul by exact Hk. cbn [outcome_bind]. rewrite advance_cstr. cbn [outcome_bind].
  rewrite type_of_code_code. f_equal. f_equal. rewrite wrap_s32_id by (zbounds; lia). lia.
Qed.

(** The types that [FillPgbsonElementUnsafe] reads as the specification writes them. *)
Definition plain_type (v : raw_value) : bool :=
  match v with RTimestamp _ _ | RDbPointer _ _ | RCodeWScope _ _ => false | _ => true end.

Lemma blen_encode_string s : blen (encode_string s) = blen s + 5.
Proof. unfold encode_string. rewrite !blen_app, blen_le_bytes. change (blen [x00]) with 1. lia. Qed.

Lemma read_string_encode s rest left : blen s + 5 <= left <= INT32_MAX ->
  read_string left (encode_string s ++ rest) = Done s.
Proof.
  intros H. pose proof (blen_nonneg s) as B. unfold read_string, encode_string. rewrite require_ok by lia.
  rewrite <- !app_assoc, read_i32_le by (zbounds; lia). cbn [outcome_bind].
  rewrite advance_app by reflexivity. cbn [outcome_bind].
  rewrite wrap_s32_id, require_ok by (zbounds; lia).
  apply view_app. rewrite wrap_u32_small by (zbounds; lia). lia.
Qed.

Lemma read_document_encode d rest left : (exists tail, d = le_bytes 4 (blen d) ++ tail) ->
  blen d <= left <= INT32_MAX -> read_document left (d ++ rest) = Done d.
Proof.
  intros [tail E] H. pose proof (blen_nonneg d) as B.
  assert (4 <= blen d) by (rewrite E, blen_app, blen_le_bytes; pose proof (blen_nonneg tail); lia).
  unfold read_document. rewrite require_ok by lia.
  rewrite E at 1. rewrite <- app_assoc, read_i32_le by (zbounds; lia). cbn [outcome_bind].
  rewrite require_ok by lia. apply view_app. now rewrite wrap_u32_small by (zbounds; lia).
Qed.

Lemma read_binary_encode t d rest : 0 <= t < 256 -> blen (encode_value (RBinary t d)) + 2 <= INT32_MAX ->
  read_binary (blen (encode_value (RBinary t d)) + 2) (encode_value (RBinary t d) ++ rest) = Done (RBinary t d).
Proof.
  intros Ht. cbn [encode_value]. pose proof (blen_nonneg d) as B. unfold read_binary.
  destruct (Z.eqb_spec t BSON_SUBTYPE_BINARY_DEPRECATED) as [E|E];
    rewrite ?blen_app, ?blen_le_bytes; change (blen [byte_of_z t]) with 1; intros H;
    rewrite require_ok by lia; rewrite <- !app_assoc, read_i32_le by (zbounds; lia); cbn [outcome_bind];
    rewrite advance_app by reflexivity; cbn [outcome_bind app];
    rewrite wrap_s32_id, require_ok by (zbounds; lia);
    rewrite read_byte by lia; cbn [outcome_bind]; rewrite advance_1; cbn [outcome_bind].
  - rewrite (proj2 (Z.eqb_eq _ _) E). rewrite advance_app by reflexivity. cbn [outcome_bind].
    rewrite Z.add_simpl_r, wrap_s32_id, wrap_u32_small, view_app by (zbounds; lia || reflexivity).
    reflexivity.
  - rewrite (proj2 (Z.eqb_neq _ _) E). rewrite wrap_u32_small, view_app by (zbounds; lia || reflexivity).
    reflexivity.
Qed.

Lemma read_regex_encode r o rest : no_nul r -> no_nul o ->
  blen (encode_value (RRegex r o)) + 2 <= INT32_MAX ->
  read_regex (blen (encode_value (RRegex r o)) + 2) (encode_value (RRegex r o) ++ rest) = Done (RRegex r o).
Proof.
  intros Hr Ho. cbn [encode_value]. pose proof (blen_nonneg r). pose proof (blen_nonneg o).
  rewrite !blen_app. change (blen [x00]) with 1. intros H1. unfold read_regex.
  rewrite require_ok by lia. rewrite <- !app_assoc. cbn [app]. rewrite cstr_at_nul by exact Hr. cbn [outcome_bind].
  rewrite wrap_s32_id, require_ok by (zbounds; lia). rewrite advance_cstr. cbn [outcome_bind].
  now rewrite cstr_at_nul.
Qed.

Lemma read_value_encode v : raw_ok v -> plain_type v = true -> blen (encode_value v) + 2 <= INT32_MAX ->
  read_value (raw_type v) (blen (encode_value v) + 2) (encode_value v ++ [x00]) = Done v.
Proof.
  intros Hv Hp Hs.
  destruct v; try discriminate; try reflexivity; cbn [raw_ok raw_type read_value] in *;
    try (rewrite read_document_encode; [reflexivity|exact Hv|revert Hs; cbn [encode_value]; lia]);
    try (apply read_binary_encode; assumption);
    try (apply read_regex_encode; tauto);
    cbn [encode_value] in *;
    try (rewrite blen_encode_string in *; rewrite read_string_encode by lia; reflexivity);
    rewrite ?blen_app, ?blen_le_bytes in *;
    try (rewrite require_ok by (unfold blen; cbn; lia)).
  - rewrite read_u8_le by exact Hv. reflexivity.
  - rewrite view_app by (unfold blen; now rewrite Hv). reflexivity.
  - now destruct b.
  - rewrite read_i64_le by exact Hv. reflexivity.
  - rewrite read_i32_le by exact Hv. reflexivity.
  - rewrite read_i64_le by exact Hv. reflexivity.
  - destruct d as [h l], Hv as [Hh Hl]. cbn [dec_high dec_low] in *. rewrite <- app_assoc.
    rewrite read_u8_le by exact Hl. cbn [outcome_bind].
    rewrite advance_app by reflexivity. cbn [outcome_bind]. rewrite read_u8_le by exact Hh. reflexivity.
Qed.

Lemma fill_encode key v : no_nul key -> raw_ok v -> plain_type v = true -> size_ok key v ->
  FillPgbsonElementUnsafe (encode_single key v) = Ok (Done (key, v)).
Proof.
  intros Hk Hv Hp Hs. rewrite fill_header by assumption. unfold size_ok in Hs. rewrite encode_size in Hs.
  pose proof (blen_nonneg key). rewrite read_value_encode by (assumption || lia). reflexivity.
Qed.

(** C30: Reading a one-element document back gives its key and value, for every type
    except timestamps, database pointers and code with scope. *)
Theorem FillPgbsonElementUnsafe_roundtrip (key : bytes) (v : raw_value) :
  no_nul key -> raw_ok v -> plain_type v = true -> size_ok key v ->
  FillPgbsonElementUnsafe (encode_single key v) = Ok (Done (key, v)).
Proof. apply fill_encode. Qed.

(** A timestamp is read with its two halves exchanged: the wire format has the
    increment first. *)
Theorem FillPgbsonElementUnsafe_timestamp (key : bytes) (t i : Z) :
  no_nul key -> uint32_ok t -> uint32_ok i -> size_ok key (RTimestamp t i) ->
  FillPgbsonElementUnsafe (encode_single key (RTimestamp t i)) = Ok (Done (key, RTimestamp i t)).
Proof.
  intros Hk Ht Hi Hs. rewrite fill_header by assumption. cbn [raw_type read_value encode_value].
  rewrite require_ok by (rewrite blen_app, !blen_le_bytes; lia). rewrite <- app_assoc.
  rewrite read_u4_le by exact Hi. cbn [outcome_bind].
  rewrite advance_app by reflexivity. cbn [outcome_bind]. rewrite read_u4_le by exact Ht. reflexivity.
Qed.

(** Every well-formed code-with-scope value is rejected: its own length field
    counts the four bytes that the check adds again. *)
Theorem FillPgbsonElementUnsafe_codewscope (key code scope : bytes) :
  no_nul key -> size_ok key (RCodeWScope code scope) ->
  FillPgbsonElementUnsafe (encode_single key (RCodeWScope code scope)) = Ok ReturnFalse.
Proof.
  intros Hk Hs. pose proof Hs as Hb. unfold size_ok in Hb. rewrite encode_size in Hb.
  rewrite fill_header by assumption. revert Hb. cbn [raw_type read_value encode_value]. unfold encode_string.
  pose proof (blen_nonneg code). pose proof (blen_nonneg scope). pose proof (blen_nonneg key).
  rewrite !blen_app, !blen_le_bytes. change (blen [x00]) with 1. intros Hb. unfold read_codewscope.
  rewrite require_ok by lia. rewrite <- app_assoc, read_i32_le by (zbounds; lia). cbn [outcome_bind].
  rewrite advance_app by reflexivity. cbn [outcome_bind].
  rewrite (wrap_s32_id (_ + 4)), require_short by (zbounds; lia). reflexivity.
Qed.

(** The object id of a database pointer is read from the start of the
    collection name instead of from behind it. *)
Theorem FillPgbsonElementUnsafe_dbpointer :
  let coll := str "database.coll" in
  let oid := str "0123456789ab" in
  FillPgbsonElementUnsafe (encode_single (str "p") (RDbPointer coll oid)) =
  Ok (Done (str "p", RDbPointer coll (str "database.col"))).
Proof. reflexivity. Qed.

(** The empty document passes the check against empty documents, and the
    parser goes on to look for a key behind its end. *)
Theorem FillPgbsonElementUnsafe_empty :
  FillPgbsonElementUnsafe (le_bytes 4 5 ++ [x00]) = Ok BeyondBuffer.
Proof. reflexivity. Qed.

(** ** Concrete elements *)

Lemma FillPgbsonElementUnsafe_roundtrip_witness :
  FillPgbsonElementUnsafe (encode_single (str "key") (RBinary 2 (str "data"))) =
  Ok (Done (str "key", RBinary 2 (str "data"))).
Proof.
  apply FillPgbsonElementUnsafe_roundtrip;
    [now apply no_nulb_ok|split; [discriminate|reflexivity]|reflexivity|vm_compute; discriminate].
Defined.

Lemma FillPgbsonElementUnsafe_timestamp_witness :
  FillPgbsonElementUnsafe (encode_single (str "ts") (RTimestamp 1700000000 3)) =
  Ok (Done (str "ts", RTimestamp 3 1700000000)).
Proof.
  apply FillPgbsonElementUnsafe_timestamp;
    [now apply no_nulb_ok|split; [discriminate|reflexivity]..|vm_compute; discriminate].
Defined.

Lemma FillPgbsonElementUnsafe_codewscope_witness :
  FillPgbsonElementUnsafe (encode_single (str "f") (RCodeWScope (str "x+1") (le_bytes 4 5 ++ [x00]))) =
  Ok ReturnFalse.
Proof.
  apply FillPgbsonElementUnsafe_codewscope; [now apply no_nulb_ok|vm_compute; discriminate].
Defined.
