(* ===== verification/Dedup.v ===== *)
(** * Field deduplication ([bson_deduplicate.c])

    A hash table keyed by field name (the element hash set of
    [hashset_utils.c]) holds one entry per name; [hashEntryList] points to the
    entries in the order of their creation.  The model is that list of entries,
    which [hash_search] finds by the set's match callback and which the loop
    overwrites in place.  The document writer is libbson's; array elements get
    their decimal index as key. *)

From Stdlib Require Import ZArith Lia Bool String List.
From Stdlib Require Import Strings.Byte Numbers.DecimalString.
From S2P Require Import Prelude BsonTypes.
Import ListNotations.
Local Open Scope Z_scope.

(** The match callback of the element hash set, on the paths of two elements. *)
Definition PgbsonElementHashEntryCompareFunc (path1 path2 : bytes) : Z :=
  let minLength := Nat.min (List.length path1) (List.length path2) in
  let result := strncmp path1 path2 minLength in
  if result =? 0 then wrap_s 32 (blen path1 - blen path2) else result.

Definition same_path (path1 path2 : bytes) : bool := PgbsonElementHashEntryCompareFunc path1 path2 =? 0.

Section Collapse.
Context {A : Type}.

(** [hash_search] with HASH_ENTER and the assignment to the entry found or created. *)
Fixpoint enter (entries : list (bytes * A)) (element : bytes * A) : list (bytes * A) :=
  match entries with
  | [] => [element]
  | e :: entries' =>
    if same_path (fst element) (fst e) then element :: entries' else e :: enter entries' element
  end.

(** The first loop: all elements entered in document order. *)
Definition collapse (documentIter : list (bytes * A)) : list (bytes * A) :=
  fold_left enter documentIter [].
End Collapse.

(** Keys of array elements. *)
Definition index_key (i : nat) : bytes := str (NilZero.string_of_uint (Nat.to_uint i)).

Fixpoint reindex (i : nat) (values : list bson_value) : fields :=
  match values with
  | [] => []
  | v :: values' => (index_key i, v) :: reindex (S i) values'
  end.

(** The value written for an element: the source collapses a document before it
    descends into the surviving values; collapsing does not look at values, so
    that descending first gives the same ([dedup_document_equation]). *)
Fixpoint dedup_value (v : bson_value) : bson_value :=
  match v with
  | VDocument d => VDocument (collapse (map (fun kv => (fst kv, dedup_value (snd kv))) d))
  | VArray d => VArray (reindex 0 (map (fun kv => dedup_value (snd kv)) d))
  | _ => v
  end.

Definition PgbsonDeduplicateFieldsHandleDocumentIter (documentIter : fields) : fields :=
  map (fun kv => (fst kv, dedup_value (snd kv))) (collapse documentIter).

Definition PgbsonDeduplicateFieldsRecurseArrayElements (arrayIter : fields) : bson_value :=
  VArray (reindex 0 (map (fun kv => dedup_value (snd kv)) arrayIter)).

Definition PgbsonDeduplicateFields (document : fields) : fields :=
  PgbsonDeduplicateFieldsHandleDocumentIter document.

(** ** Entering and mapping commute *)

Lemma enter_map {A B} (f : A -> B) entries kv :
  enter (map (fun kv => (fst kv, f (snd kv))) entries) (fst kv, f (snd kv)) =
  map (fun kv => (fst kv, f (snd kv))) (enter entries kv).
Proof.
  induction entries as [|e entries IH]; cbn [map enter fst]; [reflexivity|].
  destruct (same_path (fst kv) (fst e)); [reflexivity|]. cbn [map]. now rewrite IH.
Qed.

Lemma collapse_map {A B} (f : A -> B) d :
  collapse (map (fun kv => (fst kv, f (snd kv))) d) = map (fun kv => (fst kv, f (snd kv))) (collapse d).
Proof.
  unfold collapse. change (@nil (bytes * B)) with (map (fun kv => (fst kv, f (snd kv))) (@nil (bytes * A))) at 1.
  generalize (@nil (bytes * A)) as acc. induction d as [|kv d IH]; intros acc; [reflexivity|].
  cbn [map fold_left]. now rewrite enter_map, IH.
Qed.

(** A nested document is deduplicated the way the top-level one is. *)
Lemma dedup_document_equation d :
  dedup_value (VDocument d) = VDocument (PgbsonDeduplicateFieldsHandleDocumentIter d).
Proof. cbn [dedup_value]. now rewrite collapse_map. Qed.

(** ** Keys *)

Lemma same_path_iff a b : cstr_ok a -> cstr_ok b -> (same_path a b = true <-> a = b).
Proof.
  intros [La Na] [Lb Nb]. unfold same_path, PgbsonElementHashEntryCompareFunc.
  rewrite strncmp_min_memcmp by (assumption || lia).
  rewrite wrap_s32_id by (unfold len_ok, blen in *; zbounds; lia).
  pose proof (memcmp_min_then_length a b) as M. rewrite Z.eqb_eq, <- cmp_bytes_0.
  unfold lexz, same_sign in M. destruct (memcmp a b _ =? 0) eqn:E; [|apply Z.eqb_neq in E]; lia.
Qed.

Definition keys {A} (d : list (bytes * A)) : list bytes := map fst d.
Definition keys_ok {A} (d : list (bytes * A)) : Prop := Forall cstr_ok (keys d).

Definition path_dec (a b : bytes) : {a = b} + {a <> b} := list_eq_dec Byte.byte_eq_dec a b.

(** The value of the last element with a key. *)
Fixpoint last_value {A} (d : list (bytes * A)) (k : bytes) : option A :=
  match d with
  | [] => None
  | (k', v) :: d' =>
    match last_value d' k with
    | Some w => Some w
    | None => if path_dec k' k then Some v else None
    end
  end.

(** The value of an association list without repeated keys. *)
Fixpoint value_of {A} (d : list (bytes * A)) (k : bytes) : option A :=
  match d with
  | [] => None
  | (k', v) :: d' => if path_dec k' k then Some v else value_of d' k
  end.

(** The keys in the order of their first occurrence. *)
Definition add_key (ks : list bytes) (k : bytes) : list bytes := if in_dec path_dec k ks then ks else ks ++ [k].
Definition first_occurrences (ks : list bytes) : list bytes := fold_left add_key ks [].

Lemma enter_keys {A} (entries : list (bytes * A)) kv : keys_ok entries -> cstr_ok (fst kv) ->
  keys (enter entries kv) = add_key (keys entries) (fst kv).
Proof.
  intros Hk Hv. unfold add_key. induction entries as [|e entries IH]; cbn [enter keys map].
  - destruct (in_dec path_dec (fst kv) []); [easy|reflexivity].
  - inversion_clear Hk as [|? ? He Hes]. specialize (IH Hes). fold (keys entries) in *.
    destruct (same_path (fst kv) (fst e)) eqn:E.
    + apply same_path_iff in E; auto. unfold keys. cbn [map].
      destruct (in_dec path_dec (fst kv) (fst e :: map fst entries)) as [I|N]; [now rewrite E|].
      elim N. now left.
    + assert (Ne : fst e <> fst kv).
      { intros X. rewrite (proj2 (same_path_iff _ _ Hv He) (eq_sym X)) in E. discriminate. }
      cbn [map keys]. fold (keys (enter entries kv)). rewrite IH.
      destruct (in_dec path_dec (fst kv) (keys entries)) as [I|N], (in_dec path_dec (fst kv) (fst e :: keys entries)) as [I'|N'];
        try reflexivity.
      * elim N'. now right.
      * destruct I' as [X|I']; contradiction.
Qed.

Lemma enter_value {A} (entries : list (bytes * A)) kv k : keys_ok entries -> cstr_ok (fst kv) ->
  value_of (enter entries kv) k = if path_dec (fst kv) k then Some (snd kv) else value_of entries k.
Proof.
  intros Hk Hv. destruct kv as [kk vv]. cbn [fst snd] in *.
  induction entries as [|[ek ev] entries IH]; cbn [enter value_of fst]; [reflexivity|].
  inversion_clear Hk as [|? ? He Hes]. cbn [fst] in He. specialize (IH Hes).
  destruct (same_path kk ek) eqn:E.
  - apply same_path_iff in E; auto. subst ek. cbn [value_of]. now destruct (path_dec kk k).
  - assert (Ne : kk <> ek).
    { intros X. rewrite (proj2 (same_path_iff _ _ Hv He) X) in E. discriminate. }
    cbn [value_of]. rewrite IH. destruct (path_dec ek k), (path_dec kk k); congruence.
Qed.

Lemma add_key_ok ks k : Forall cstr_ok ks -> cstr_ok k -> Forall cstr_ok (add_key ks k).
Proof.
  intros Hs Hk. unfold add_key. destruct (in_dec _ _ _); [exact Hs|]. apply Forall_app. auto.
Qed.

Lemma collapse_from {A} d : forall acc : list (bytes * A), keys_ok acc -> keys_ok d ->
  keys (fold_left enter d acc) = fold_left add_key (keys d) (keys acc) /\
  forall k, value_of (fold_left enter d acc) k =
    match last_value d k with Some v => Some v | None => value_of acc k end.
Proof.
  induction d as [|kv d IH]; intros acc Ha Hd; [now split|].
  inversion_clear Hd as [|? ? Hkv Hd']. cbn [fold_left].
  assert (Ha' : keys_ok (enter acc kv)).
  { unfold keys_ok. rewrite enter_keys by assumption. now apply add_key_ok. }
  destruct (IH (enter acc kv) Ha' Hd') as [K V]. split.
  - rewrite K, enter_keys by assumption. reflexivity.
  - intros k. rewrite V, enter_value by assumption. destruct kv as [kk vv]. cbn [last_value fst snd].
    destruct (last_value d k); [reflexivity|]. now destruct (path_dec kk k).
Qed.

Lemma NoDup_add_key ks k : NoDup ks -> NoDup (add_key ks k).
Proof.
  intros N. unfold add_key. destruct (in_dec _ _ _) as [|H]; [exact N|].
  apply NoDup_app; [exact N|repeat constructor; intros []|].
  intros x I [<-|[]]. contradiction.
Qed.

Lemma NoDup_first_occurrences ks : NoDup (first_occurrences ks).
Proof.
  unfold first_occurrences. assert (H : NoDup (@nil bytes)) by constructor. revert H.
  generalize (@nil bytes) as acc. induction ks as [|k ks IH]; intros acc H; [exact H|].
  cbn [fold_left]. now apply IH, NoDup_add_key.
Qed.

Lemma keys_map {A B} (f : A -> B) d : keys (map (fun kv => (fst kv, f (snd kv))) d) = keys d.
Proof. unfold keys. rewrite map_map. now apply map_ext. Qed.

Lemma value_of_map {A B} (f : A -> B) d k :
  value_of (map (fun kv => (fst kv, f (snd kv))) d) k = option_map f (value_of d k).
Proof.
  induction d as [|[k' v] d IH]; cbn [map value_of fst snd]; [reflexivity|].
  now destruct (path_dec k' k).
Qed.

Lemma doc_keys_ok d : doc_ok d -> keys_ok d.
Proof. induction d as [|[k v] d IH]; intros H; constructor; cbn in H; [apply H|now apply IH]. Qed.

(** The result has each field name once, in the order of first occurrence, with
    the (deduplicated) value of its last occurrence. *)
Theorem PgbsonDeduplicateFields_spec (document : fields) : doc_ok document ->
  let result := PgbsonDeduplicateFields document in
  keys result = first_occurrences (keys document) /\ NoDup (keys result) /\
  forall k, value_of result k = option_map dedup_value (last_value document k).
Proof.
  intros H. cbv zeta. unfold PgbsonDeduplicateFields, PgbsonDeduplicateFieldsHandleDocumentIter.
  destruct (collapse_from document [] (Forall_nil _) (doc_keys_ok _ H)) as [K V].
  rewrite keys_map. fold (collapse document) in *. unfold first_occurrences. split; [exact K|].
  split; [rewrite K; apply NoDup_first_occurrences|].
  intros k. rewrite value_of_map, V. now destruct (last_value document k).
Qed.

(** ** Idempotence *)

Lemma enter_In {A} (entries : list (bytes * A)) kv x : In x (enter entries kv) -> In x entries \/ x = kv.
Proof.
  induction entries as [|e entries IH]; cbn [enter]; [intros [<-|[]]; now right|].
  destruct (same_path (fst kv) (fst e)); intros [H|H]; try (left; now left); try (left; now right); auto.
  apply IH in H as [H|H]; auto. left; now right.
Qed.

Lemma collapse_In {A} (d : list (bytes * A)) x : In x (collapse d) -> In x d.
Proof.
  unfold collapse. enough (G : forall acc, In x (fold_left enter d acc) -> In x acc \/ In x d).
  { intros H. apply G in H as [[]|H]. exact H. }
  induction d as [|kv d IH]; intros acc H; [now left|]. cbn [fold_left] in H.
  apply IH in H as [H|H]; [|right; now right]. apply enter_In in H as [H| ->]; [now left|right; now left].
Qed.

Lemma enter_new {A} (entries : list (bytes * A)) kv : keys_ok entries -> cstr_ok (fst kv) ->
  ~ In (fst kv) (keys entries) -> enter entries kv = entries ++ [kv].
Proof.
  intros Hk Hv. induction entries as [|e entries IH]; intros N; [reflexivity|]. cbn [enter app].
  inversion_clear Hk as [|? ? He Hes]. destruct (same_path (fst kv) (fst e)) eqn:E.
  - apply same_path_iff in E; auto. elim N. left. now symmetry.
  - rewrite IH; [reflexivity|exact Hes|]. intros I. apply N. now right.
Qed.

Lemma collapse_distinct {A} (d : list (bytes * A)) : keys_ok d -> NoDup (keys d) -> collapse d = d.
Proof.
  unfold collapse. intros Hk N.
  enough (G : forall acc, keys_ok acc -> (forall k, In k (keys acc) -> ~ In k (keys d)) ->
            fold_left enter d acc = acc ++ d) by (apply (G [] (Forall_nil _)); intros k []).
  induction d as [|kv d IH]; intros acc Ha Hd; [now rewrite app_nil_r|].
  inversion_clear Hk as [|? ? Hkv Hk']. inversion_clear N as [|? ? Nk N']. cbn [fold_left].
  rewrite enter_new; [|exact Ha|exact Hkv|intros I; apply (Hd _ I); now left].
  rewrite IH; auto.
  - now rewrite <- app_assoc.
  - unfold keys_ok, keys. rewrite map_app. apply Forall_app. split; [exact Ha|]. apply Forall_cons; [exact Hkv|apply Forall_nil].
  - intros k I X. unfold keys in I. rewrite map_app in I. apply in_app_or in I as [I|[I|[]]].
    + apply (Hd k I). now right.
    + cbn in I. subst k. contradiction.
Qed.

Lemma reindex_values i vs : map snd (reindex i vs) = vs.
Proof. revert i; induction vs as [|v vs IH]; intros i; cbn; [reflexivity|]. now rewrite IH. Qed.

Lemma map_fixed {A} (f : A -> A) l : Forall (fun x => f x = x) l -> map f l = l.
Proof. induction 1; cbn; congruence. Qed.

Lemma dedup_value_idempotent v : value_ok v -> dedup_value (dedup_value v) = dedup_value v.
Proof.
  induction v using bson_value_nested_ind; intros Hv; try reflexivity; cbn [dedup_value]; f_equal.
  - assert (Hk : keys_ok d) by now apply doc_keys_ok.
    set (f := fun kv : bytes * bson_value => (fst kv, dedup_value (snd kv))).
    destruct (collapse_from d [] (Forall_nil _) Hk) as [K _]. fold (collapse d) in K.
    assert (F : map f (collapse (map f d)) = collapse (map f d)).
    { apply map_fixed, Forall_forall. intros kv I. apply collapse_In, in_map_iff in I as (x & <- & I).
      unfold f. cbn [fst snd]. f_equal. rewrite Forall_forall in H. apply (H x I).
      clear - Hv I. cbn in Hv. induction d as [|[k w] d IHd]; [easy|]. destruct Hv as [[_ Hw] Hv].
      destruct I as [<-|I]; [exact Hw|now apply IHd]. }
    rewrite F. unfold f. rewrite collapse_map. apply collapse_distinct.
    + unfold keys_ok. rewrite keys_map, K. clear - Hk. unfold keys_ok in Hk.
      assert (A : Forall cstr_ok (@keys bson_value [])) by constructor. revert A. generalize (@keys bson_value []) as acc.
      induction Hk as [|k ks Hk0 _ IH]; intros acc A; [exact A|]. apply IH. now apply add_key_ok.
    + rewrite keys_map, K. apply (NoDup_first_occurrences (keys d)).
  - rewrite <- (map_map snd dedup_value), reindex_values. f_equal.
    apply map_fixed, Forall_forall. intros w I. apply in_map_iff in I as (x & <- & I).
    rewrite Forall_forall in H. apply (H x I). clear - Hv I. cbn in Hv.
    induction d as [|[k w] d IHd]; [easy|]. destruct Hv as [[_ Hw] Hv].
    destruct I as [<-|I]; [exact Hw|now apply IHd].
Qed.

(** Deduplicating a document twice gives the same as deduplicating it once. *)
Theorem PgbsonDeduplicateFields_idempotent (document : fields) : doc_ok document ->
  PgbsonDeduplicateFields (PgbsonDeduplicateFields document) = PgbsonDeduplicateFields document.
Proof.
  intros H. pose proof (dedup_value_idempotent (VDocument document) H) as E.
  rewrite !dedup_document_equation in E. now injection E.
Qed.

(** ** A concrete document *)

Definition repeated : fields :=
  [(str "a", VInt32 1); (str "b", VArray [(str "0", VDocument [(str "e", VInt32 1); (str "e", VInt32 2)])]);
   (str "a", VInt32 2)].

Lemma repeated_ok : doc_ok repeated.
Proof. repeat split; try (apply no_nulb_ok; reflexivity); vm_compute; congruence. Qed.

Lemma PgbsonDeduplicateFields_spec_witness :
  PgbsonDeduplicateFields repeated =
    [(str "a", VInt32 2); (str "b", VArray [(str "0", VDocument [(str "e", VInt32 2)])])] /\
  keys (PgbsonDeduplicateFields repeated) = first_occurrences (keys repeated).
Proof. split; [reflexivity|]. apply (PgbsonDeduplicateFields_spec repeated repeated_ok). Defined.

Lemma PgbsonDeduplicateFields_idempotent_witness :
  PgbsonDeduplicateFields (PgbsonDeduplicateFields repeated) = PgbsonDeduplicateFields repeated.
Proof. exact (PgbsonDeduplicateFields_idempotent repeated repeated_ok). Defined.
