(* ===== verification/QueryCache.v ===== *)
(** * The query result cache ([pisa_integration/query_cache.c])

    The hash table is the list of its entries in scan order; looking up, entering
    and removing by key is PostgreSQL's dynahash on string keys of at most
    [PISA_CACHE_KEY_SIZE] - 1 bytes.  Every operation takes the current time
    where the source calls [GetCurrentTimestamp] (microseconds).  A cached
    result is the [Jsonb] pointer the caller passes, which the source stores
    and returns as it is; its target is not modelled.  The 64-bit counters are unbounded here. *)

From Stdlib Require Import ZArith Lia Bool String List Permutation Sorted.
From Stdlib Require Import Strings.Byte Numbers.DecimalString.
From S2P Require Import Prelude SoftFloat BsonTypes.
Import ListNotations.
Local Open Scope Z_scope.

Definition PISA_CACHE_MAX_ENTRIES : Z := 10000.
Definition PISA_CACHE_DEFAULT_TTL : Z := 300.
Definition PISA_CACHE_KEY_SIZE : nat := 256.

(** PostgreSQL: the size of a datum, the text of a JSON value, the hash of its
    bytes, and the sorting of a list by a comparison function. *)
Class PgCache (Jsonb : Type) : Type := {
  VARSIZE : Jsonb -> Z;
  JsonbToCString : Jsonb -> bytes;
  hash_any : bytes -> Z;
  list_qsort : forall {A}, (A -> A -> Z) -> list A -> list A
}.

Section Cache.
Context {Jsonb : Type} {PG : PgCache Jsonb}.

Record PisaCacheEntry : Type := {
  cache_key : bytes;
  query_result : Jsonb;
  created_at : Z;
  last_accessed : Z;
  access_count : Z;
  ttl_seconds : Z;
  is_valid : bool;
  result_size_bytes : Z
}.

Record PisaCacheStats : Type := {
  total_queries : Z;
  cache_hits : Z;
  cache_misses : Z;
  cache_evictions : Z;
  total_entries : Z;
  total_size_bytes : Z;
  hit_ratio : Z;        (* a double *)
  last_reset : Z
}.

(** The static variables of the file, once initialized. *)
Record cache : Type := {
  query_cache_hash : list PisaCacheEntry;
  cache_stats : PisaCacheStats;
  cache_enabled : bool;
  cache_max_entries : Z;
  cache_default_ttl : Z
}.

Definition zero_stats (now : Z) : PisaCacheStats := {|
  total_queries := 0; cache_hits := 0; cache_misses := 0; cache_evictions := 0;
  total_entries := 0; total_size_bytes := 0; hit_ratio := 0; last_reset := now |}.

Definition with_table (c : cache) (t : list PisaCacheEntry) (s : PisaCacheStats) : cache := {|
  query_cache_hash := t; cache_stats := s; cache_enabled := cache_enabled c;
  cache_max_entries := cache_max_entries c; cache_default_ttl := cache_default_ttl c |}.

(** ** The hash table *)

(** Keys are copied and compared up to the key size less one. *)
Definition hash_key (k : bytes) : bytes := firstn (PISA_CACHE_KEY_SIZE - 1) k.

#[global] Arguments hash_key k : simpl never.

Definition has_key (k : bytes) (e : PisaCacheEntry) : bool := cmp_bytes (cache_key e) (hash_key k) =? 0.

Definition hash_find (k : bytes) (t : list PisaCacheEntry) : option PisaCacheEntry := find (has_key k) t.

Definition hash_remove (k : bytes) (t : list PisaCacheEntry) : list PisaCacheEntry :=
  filter (fun e => negb (has_key k e)) t.

(** Replace the entry with the key of [e], or add [e]. *)
Definition hash_enter (e : PisaCacheEntry) (t : list PisaCacheEntry) : list PisaCacheEntry :=
  match hash_find (cache_key e) t with
  | Some _ => map (fun e' => if has_key (cache_key e) e' then e else e') t
  | None => t ++ [e]
  end.

(** ** Initialization *)

Definition InitializePisaQueryCache (now : Z) (c : option cache) : option cache :=
  match c with
  | Some c => Some c
  | None => Some {| query_cache_hash := []; cache_stats := zero_stats now; cache_enabled := true;
                    cache_max_entries := PISA_CACHE_MAX_ENTRIES;
                    cache_default_ttl := PISA_CACHE_DEFAULT_TTL |}
  end.

Definition ShutdownPisaQueryCache (c : option cache) : option cache := None.

Definition documentdb_reset_pisa_cache (now : Z) (c : cache) : cache := with_table c [] (zero_stats now).

(** ** Keys *)

(** ["%u"] of a [uint32]. *)
Definition print_u32 (z : Z) : bytes := str (NilZero.string_of_uint (N.to_uint (Z.to_N z))).

Definition GenerateCacheKey (database_name collection_name : bytes) (query : Jsonb) (options : option Jsonb)
  : bytes :=
  let query_str := JsonbToCString query in
  let options_str := match options with Some o => JsonbToCString o | None => [] end in
  let hash_value := wrap_u 32 (hash_any query_str) in
  let cache_key := database_name ++ str "." ++ collection_name ++ str "." ++ print_u32 hash_value
                   ++ str "." ++ options_str in
  if Nat.leb PISA_CACHE_KEY_SIZE (List.length cache_key)
  then firstn (PISA_CACHE_KEY_SIZE - 1) cache_key else cache_key.

(** ** Expiry *)

(** [created_at + ttl_seconds * 1000] milliseconds, the product an [int]. *)
Definition expiry_time (e : PisaCacheEntry) : Z :=
  created_at e + wrap_s 32 (ttl_seconds e * 1000) * 1000.

Definition IsCacheEntryValid (now : Z) (e : PisaCacheEntry) : bool :=
  is_valid e && (now <? expiry_time e).

(** ** Eviction *)

(** The bookkeeping of a removed entry. *)
Definition count_removal (s : PisaCacheStats) (e : PisaCacheEntry) : PisaCacheStats := {|
  total_queries := total_queries s; cache_hits := cache_hits s; cache_misses := cache_misses s;
  cache_evictions := cache_evictions s + 1; total_entries := total_entries s - 1;
  total_size_bytes := total_size_bytes s - result_size_bytes e;
  hit_ratio := hit_ratio s; last_reset := last_reset s |}.

(** Removal by key, and whether the key was there. *)
Definition remove_key (k : bytes) (c : cache) : cache * bool :=
  match hash_find k (query_cache_hash c) with
  | Some e => (with_table c (hash_remove k (query_cache_hash c)) (count_removal (cache_stats c) e), true)
  | None => (c, false)
  end.

Fixpoint remove_keys (ks : list bytes) (c : cache) (removed : Z) : cache * Z :=
  match ks with
  | [] => (c, removed)
  | k :: ks' =>
    let '(c', found) := remove_key k c in
    remove_keys ks' c' (if found : bool then removed + 1 else removed)
  end.

(** [strstr(s, pattern) != NULL]. *)
Fixpoint is_prefix (p s : bytes) : bool :=
  match p, s with
  | [], _ => true
  | a :: p', b :: s' => (byte_z a =? byte_z b) && is_prefix p' s'
  | _ :: _, [] => false
  end.

Fixpoint strstr (s pattern : bytes) : bool :=
  is_prefix pattern s || match s with [] => false | _ :: s' => strstr s' pattern end.

Definition compare_cache_entries_by_access_time (a b : PisaCacheEntry) : Z :=
  cmpz (last_accessed a) (last_accessed b).

Fixpoint evict_all (victims : list PisaCacheEntry) (c : cache) : cache :=
  match victims with
  | [] => c
  | e :: victims' =>
    evict_all victims'
      (with_table c (hash_remove (cache_key e) (query_cache_hash c)) (count_removal (cache_stats c) e))
  end.

Definition EvictLRUEntries (count : Z) (c : cache) : cache :=
  let lru_entries := list_qsort compare_cache_entries_by_access_time (query_cache_hash c) in
  let entries_to_evict := Z.min count (Z.of_nat (List.length lru_entries)) in
  evict_all (firstn (Z.to_nat entries_to_evict) lru_entries) c.

Definition InvalidateCacheEntry (key : option bytes) (c : cache) : cache * bool :=
  match key with
  | None => (c, false)
  | Some k => remove_key k c
  end.

Definition InvalidateCacheByPattern (pattern : option bytes) (c : cache) : cache * bool :=
  match pattern with
  | None => (c, false)
  | Some p =>
    let keys_to_remove := map cache_key (filter (fun e => strstr (cache_key e) p) (query_cache_hash c)) in
    let '(c', removed_count) := remove_keys keys_to_remove c 0 in
    (c', removed_count >? 0)
  end.

Definition EvictExpiredEntries (now : Z) (c : cache) : cache :=
  let expired_keys := map cache_key (filter (fun e => negb (IsCacheEntryValid now e)) (query_cache_hash c)) in
  fst (remove_keys expired_keys c 0).

(** ** Storing and looking up *)

Definition count_store (s : PisaCacheStats) (size : Z) : PisaCacheStats := {|
  total_queries := total_queries s; cache_hits := cache_hits s; cache_misses := cache_misses s;
  cache_evictions := cache_evictions s; total_entries := total_entries s + 1;
  total_size_bytes := total_size_bytes s + size;
  hit_ratio := hit_ratio s; last_reset := last_reset s |}.

Definition new_entry (now : Z) (c : cache) (key : bytes) (result : Jsonb) (ttl : Z) : PisaCacheEntry := {|
  cache_key := hash_key key;
  query_result := result;
  created_at := now;
  last_accessed := now;
  access_count := 0;
  ttl_seconds := if ttl >? 0 then ttl else cache_default_ttl c;
  is_valid := true;
  result_size_bytes := VARSIZE result |}.

Definition CacheQuery (now : Z) (key : option bytes) (result : option Jsonb) (ttl : Z) (c : cache)
  : cache * bool :=
  match key, result with
  | Some key, Some result =>
    if negb (cache_enabled c) then (c, false)
    else
      let c := if Z.of_nat (List.length (query_cache_hash c)) >=? cache_max_entries c
               then EvictLRUEntries (Z.quot (cache_max_entries c) 10) c else c in
      let entry := new_entry now c key result ttl in
      (with_table c (hash_enter entry (query_cache_hash c))
         (count_store (cache_stats c) (result_size_bytes entry)), true)
  | _, _ => (c, false)
  end.

Definition UpdateCacheStatistics (cache_hit : bool) (s : PisaCacheStats) : PisaCacheStats := {|
  total_queries := total_queries s + 1;
  cache_hits := if cache_hit then cache_hits s + 1 else cache_hits s;
  cache_misses := if cache_hit then cache_misses s else cache_misses s + 1;
  cache_evictions := cache_evictions s; total_entries := total_entries s;
  total_size_bytes := total_size_bytes s; hit_ratio := hit_ratio s; last_reset := last_reset s |}.

Definition touch (now : Z) (e : PisaCacheEntry) : PisaCacheEntry := {|
  cache_key := cache_key e; query_result := query_result e; created_at := created_at e;
  last_accessed := now; access_count := access_count e + 1; ttl_seconds := ttl_seconds e;
  is_valid := is_valid e; result_size_bytes := result_size_bytes e |}.

Definition GetCachedQuery (now : Z) (key : option bytes) (c : cache) : cache * option Jsonb :=
  match key with
  | None => (c, None)
  | Some k =>
    if negb (cache_enabled c) then (c, None)
    else
      match hash_find k (query_cache_hash c) with
      | Some e =>
        if IsCacheEntryValid now e then
          (with_table c (hash_enter (touch now e) (query_cache_hash c))
             (UpdateCacheStatistics true (cache_stats c)), Some (query_result e))
        else (with_table c (query_cache_hash c) (UpdateCacheStatistics false (cache_stats c)), None)
      | None => (with_table c (query_cache_hash c) (UpdateCacheStatistics false (cache_stats c)), None)
      end
  end.

Definition GetCacheStatistics (c : cache) : PisaCacheStats :=
  let s := cache_stats c in {|
  total_queries := total_queries s; cache_hits := cache_hits s; cache_misses := cache_misses s;
  cache_evictions := cache_evictions s; total_entries := total_entries s;
  total_size_bytes := total_size_bytes s;
  hit_ratio := if total_queries s >? 0
               then double_div (double_of_int (cache_hits s)) (double_of_int (total_queries s)) else 0;
  last_reset := last_reset s |}.

(** The SQL functions. *)
Definition documentdb_cache_pisa_query (now : Z) (key : bytes) (result : Jsonb) (ttl : Z) (c : cache) :=
  CacheQuery now (Some key) (Some result) ttl c.
Definition documentdb_get_cached_pisa_query (now : Z) (key : bytes) (c : cache) :=
  GetCachedQuery now (Some key) c.
Definition documentdb_invalidate_pisa_cache (pattern : bytes) (c : cache) :=
  InvalidateCacheByPattern (Some pattern) c.

End Cache.

Arguments cache_key {Jsonb}.
Arguments last_accessed {Jsonb}.
Arguments result_size_bytes {Jsonb}.

(** The documented behaviour of the sort. *)
Class PgCacheLaws {Jsonb} (PG : PgCache Jsonb) : Prop := {
  qsort_permutation : forall A (cmp : A -> A -> Z) l, Permutation (list_qsort cmp l) l;
  qsort_sorted : forall A (cmp : A -> A -> Z) l,
    (forall a b c, cmp a b <= 0 -> cmp b c <= 0 -> cmp a c <= 0) ->
    (forall a b, cmp a b <= 0 \/ cmp b a <= 0) ->
    StronglySorted (fun a b => cmp a b <= 0) (list_qsort cmp l)
}.

Section Table.
Context {Jsonb : Type}.
Local Abbreviation entry := (@PisaCacheEntry Jsonb).
Implicit Types (e : entry) (t : list entry) (k : bytes).

(** A hash table: distinct keys, within the key size. *)
Record table_ok t : Prop := {
  keys_distinct : NoDup (map cache_key t);
  keys_fit : Forall (fun e => hash_key (cache_key e) = cache_key e) t
}.

Lemma has_key_iff k e : has_key k e = true <-> cache_key e = hash_key k.
Proof. unfold has_key. rewrite Z.eqb_eq. apply cmp_bytes_0. Qed.

Lemma hash_key_idem k : hash_key (hash_key k) = hash_key k.
Proof. unfold hash_key. rewrite firstn_firstn, Nat.min_id. reflexivity. Qed.

Lemma table_ok_permutation t t' : Permutation t t' -> table_ok t -> table_ok t'.
Proof.
  intros P [N F]. split.
  - eapply Permutation_NoDup; [apply Permutation_map, P|exact N].
  - eapply Permutation_Forall; eauto.
Qed.

Lemma table_ok_cons e t : table_ok (e :: t) <->
  ~ In (cache_key e) (map cache_key t) /\ hash_key (cache_key e) = cache_key e /\ table_ok t.
Proof.
  split.
  - intros [N F]. inversion_clear N. inversion_clear F. repeat split; auto.
  - intros (Hn & Hk & [N F]). split; cbn [map]; constructor; auto.
Qed.

Lemma hash_remove_absent k t : ~ In (hash_key k) (map cache_key t) -> hash_remove k t = t.
Proof.
  unfold hash_remove. induction t as [|e t IH]; cbn [map filter]; intros H; [reflexivity|].
  destruct (has_key k e) eqn:E; cbn [negb].
  - apply has_key_iff in E. elim H. now left.
  - rewrite IH; [reflexivity|]. intros X. apply H. now right.
Qed.

Lemma hash_find_None k t : hash_find k t = None <-> ~ In (hash_key k) (map cache_key t).
Proof.
  unfold hash_find. split.
  - intros H X. apply in_map_iff in X as (e & E & I). pose proof (find_none _ _ H e I) as F.
    rewrite (proj2 (has_key_iff k e) E) in F. discriminate.
  - intros H. destruct (find (has_key k) t) as [e|] eqn:E; [|reflexivity].
    apply find_some in E as [I K]. apply has_key_iff in K. elim H. rewrite <- K. now apply in_map.
Qed.

(** Removing a key takes out the one entry that has it. *)
Lemma hash_remove_found k t e : table_ok t -> hash_find k t = Some e ->
  cache_key e = hash_key k /\ Permutation t (e :: hash_remove k t).
Proof.
  induction t as [|x t IH]; [discriminate|]. intros T. apply table_ok_cons in T as (Hn & _ & T).
  unfold hash_find, hash_remove. cbn [find filter]. destruct (has_key k x) eqn:E; cbn [negb].
  - intros H. injection H as ->. apply has_key_iff in E. split; [exact E|].
    fold (hash_remove k t). rewrite hash_remove_absent; [reflexivity|]. now rewrite <- E.
  - intros H. destruct (IH T H) as [K P]. split; [exact K|].
    rewrite perm_swap. now constructor.
Qed.

Lemma hash_find_In e t : table_ok t -> In e t -> hash_find (cache_key e) t = Some e.
Proof.
  intros T I. pose proof (keys_fit t T) as F. rewrite Forall_forall in F. specialize (F e I). cbv beta in F.
  destruct (hash_find (cache_key e) t) as [x|] eqn:E.
  - destruct (hash_remove_found _ _ _ T E) as [K P]. rewrite F in K.
    apply (Permutation_in _ P) in I as [->|I]; [reflexivity|].
    apply filter_In in I as [_ H]. now rewrite (proj2 (has_key_iff (cache_key e) e) (eq_sym F)) in H.
  - apply hash_find_None in E. elim E. rewrite F. now apply in_map.
Qed.

Lemma hash_remove_incl k t e : In e (hash_remove k t) -> In e t /\ cache_key e <> hash_key k.
Proof.
  unfold hash_remove. rewrite filter_In. intros [I H]. split; [exact I|]. intros E.
  now rewrite (proj2 (has_key_iff k e) E) in H.
Qed.

Lemma hash_remove_ok k t : table_ok t -> table_ok (hash_remove k t).
Proof.
  intros T. destruct (hash_find k t) as [e|] eqn:E.
  - destruct (hash_remove_found k t e T E) as [_ P].
    apply (table_ok_permutation _ _ P), table_ok_cons in T. apply T.
  - apply hash_find_None in E. now rewrite hash_remove_absent.
Qed.

(** Entering an entry replaces the one with its key, if any. *)
Lemma hash_enter_permutation e t : table_ok t -> hash_key (cache_key e) = cache_key e ->
  Permutation (hash_enter e t) (e :: hash_remove (cache_key e) t).
Proof.
  intros T K. unfold hash_enter. destruct (hash_find (cache_key e) t) as [old|] eqn:E.
  - revert E. induction t as [|x t IH]; [discriminate|]. apply table_ok_cons in T as (Hn & _ & T).
    unfold hash_find, hash_remove. cbn [find map filter]. destruct (has_key (cache_key e) x) eqn:H; cbn [negb].
    + intros _. apply has_key_iff in H. fold (hash_remove (cache_key e) t).
      rewrite hash_remove_absent by now rewrite <- H. constructor.
      replace (map _ t) with t; [reflexivity|]. symmetry. rewrite <- (map_id t) at 2. apply map_ext_in.
      intros y I. destruct (has_key (cache_key e) y) eqn:Hy; [|reflexivity].
      apply has_key_iff in Hy. elim Hn. rewrite H, <- Hy. now apply in_map.
    + intros F. rewrite perm_swap. constructor. now apply IH.
  - apply hash_find_None in E. rewrite hash_remove_absent by exact E.
    symmetry. apply Permutation_cons_append.
Qed.

Lemma hash_enter_ok e t : table_ok t -> hash_key (cache_key e) = cache_key e -> table_ok (hash_enter e t).
Proof.
  intros T K. apply (table_ok_permutation (e :: hash_remove (cache_key e) t));
    [symmetry; now apply hash_enter_permutation|].
  apply table_ok_cons. split; [|split; [exact K|now apply hash_remove_ok]].
  intros H. apply in_map_iff in H as (x & E & I). apply hash_remove_incl in I as [_ N]. congruence.
Qed.

Lemma hash_enter_In e t x : table_ok t -> hash_key (cache_key e) = cache_key e ->
  In x (hash_enter e t) -> x = e \/ (In x t /\ cache_key x <> cache_key e).
Proof.
  intros T K H. apply (Permutation_in _ (hash_enter_permutation e t T K)) in H as [->|H]; [now left|right].
  apply hash_remove_incl in H. now rewrite K in H.
Qed.

(** The sizes of the results. *)
Definition sizes t : Z := fold_right (fun e n => result_size_bytes e + n) 0 t.

Lemma sizes_permutation t t' : Permutation t t' -> sizes t = sizes t'.
Proof. unfold sizes. induction 1; cbn [fold_right]; [reflexivity|lia|lia|congruence]. Qed.

End Table.

Section Correct.
Context {Jsonb : Type} {PG : PgCache Jsonb} {Laws : PgCacheLaws PG}.
Local Abbreviation entry := (@PisaCacheEntry Jsonb).
Local Abbreviation table c := (query_cache_hash (Jsonb:=Jsonb) c).
Implicit Types (c : @cache Jsonb).

(** ** Eviction *)

Lemma evict_all_permutation victims : forall c rest, table_ok (table c) ->
  Permutation (table c) (victims ++ rest) -> Permutation (table (evict_all victims c)) rest.
Proof.
  induction victims as [|v victims IH]; intros c rest T P; [exact P|]. cbn [evict_all].
  apply IH; cbn [query_cache_hash with_table]; [now apply hash_remove_ok|].
  assert (F : hash_find (cache_key v) (table c) = Some v).
  { apply hash_find_In; [exact T|]. apply (Permutation_in _ (Permutation_sym P)). now left. }
  destruct (hash_remove_found _ _ _ T F) as [_ P'].
  apply Permutation_cons_inv with v. rewrite <- P', P. reflexivity.
Qed.

Lemma evict_all_ok victims : forall c, table_ok (table c) -> table_ok (table (evict_all victims c)).
Proof.
  induction victims as [|v victims IH]; intros c T; [exact T|]. cbn [evict_all].
  apply IH. now apply hash_remove_ok.
Qed.

Lemma evict_all_incl victims e : forall c, In e (table (evict_all victims c)) -> In e (table c).
Proof.
  induction victims as [|v victims IH]; intros c I; [exact I|]. apply IH in I.
  cbn [query_cache_hash with_table] in I. now apply hash_remove_incl in I.
Qed.

Lemma evict_all_settings victims : forall c,
  cache_enabled (evict_all victims c) = cache_enabled c /\
  cache_max_entries (evict_all victims c) = cache_max_entries c /\
  cache_default_ttl (evict_all victims c) = cache_default_ttl c.
Proof.
  induction victims as [|v victims IH]; intros c; [auto|]. cbn [evict_all].
  now edestruct IH as (-> & -> & ->).
Qed.

(** The number of entries taken out. *)
Definition evicted (count : Z) c : nat := Z.to_nat (Z.min count (Z.of_nat (List.length (table c)))).

Lemma EvictLRU_split count c : table_ok (table c) ->
  let sorted := list_qsort compare_cache_entries_by_access_time (table c) in
  Permutation (table (EvictLRUEntries count c)) (skipn (evicted count c) sorted) /\
  Permutation (table c) (firstn (evicted count c) sorted ++ skipn (evicted count c) sorted).
Proof.
  intros T sorted. pose proof (qsort_permutation _ compare_cache_entries_by_access_time (table c)) as Q.
  fold sorted in Q. assert (P : Permutation (table c) (firstn (evicted count c) sorted ++ skipn (evicted count c) sorted)).
  { rewrite firstn_skipn. now symmetry. }
  split; [|exact P]. unfold EvictLRUEntries. fold sorted. rewrite (Permutation_length Q).
  now apply evict_all_permutation.
Qed.

Lemma StronglySorted_split {A} (R : A -> A -> Prop) n l :
  StronglySorted R l -> forall v e, In v (firstn n l) -> In e (skipn n l) -> R v e.
Proof.
  revert l; induction n as [|n IH]; intros l S v e; [intros []|]. destruct S as [|a l S F]; [intros []|].
  cbn [firstn skipn]. intros [->|Hv] He.
  - rewrite Forall_forall in F. apply F. rewrite <- (firstn_skipn n l). apply in_or_app. now right.
  - now apply (IH l).
Qed.

(** [EvictLRUEntries] removes the requested number of entries (or all of them),
    keeps the others, and no removed entry was used more recently than a kept one. *)
Theorem EvictLRUEntries_least_recent (count : Z) c : table_ok (table c) -> 0 <= count ->
  exists victims,
    Permutation (table c) (victims ++ table (EvictLRUEntries count c)) /\
    Z.of_nat (List.length victims) = Z.min count (Z.of_nat (List.length (table c))) /\
    forall v e, In v victims -> In e (table (EvictLRUEntries count c)) -> last_accessed v <= last_accessed e.
Proof.
  intros T Hc. destruct (EvictLRU_split count c T) as [P1 P2].
  set (sorted := list_qsort compare_cache_entries_by_access_time (table c)) in *.
  exists (firstn (evicted count c) sorted). split; [|split].
  - now rewrite P1.
  - pose proof (Permutation_length (qsort_permutation _ compare_cache_entries_by_access_time (table c))) as L.
    fold sorted in L. rewrite length_firstn, L. unfold evicted. lia.
  - intros v e Hv He. apply (Permutation_in _ P1) in He.
    assert (S : StronglySorted (fun a b => compare_cache_entries_by_access_time a b <= 0) sorted).
    { apply qsort_sorted; unfold compare_cache_entries_by_access_time, cmpz; intros;
        repeat match goal with
          | |- context [?a >? ?b] => destruct (Z.gtb_spec a b)
          | |- context [?a =? ?b] => destruct (Z.eqb_spec a b)
          | H : context [?a >? ?b] |- _ => destruct (Z.gtb_spec a b)
          | H : context [?a =? ?b] |- _ => destruct (Z.eqb_spec a b)
          end; lia. }
    pose proof (StronglySorted_split _ _ _ S v e Hv He) as R.
    unfold compare_cache_entries_by_access_time in R. pose proof (cmpz_sign (last_accessed v) (last_accessed e)) as G.
    unfold same_sign in G. lia.
Qed.


(** ** Counters *)

(** The statistics describe the table. *)
Definition stats_ok c : Prop :=
  total_entries (cache_stats c) = Z.of_nat (List.length (table c)) /\
  total_size_bytes (cache_stats c) = sizes (table c).

Lemma count_removal_ok c k e : table_ok (table c) -> stats_ok c -> hash_find k (table c) = Some e ->
  stats_ok (with_table c (hash_remove k (table c)) (count_removal (cache_stats c) e)).
Proof.
  intros T [S1 S2] E. destruct (hash_remove_found _ _ _ T E) as [_ P]. unfold stats_ok.
  cbn [cache_stats with_table total_entries total_size_bytes count_removal query_cache_hash].
  rewrite S1, S2, (Permutation_length P), (sizes_permutation _ _ P). cbn [List.length sizes fold_right].
  unfold sizes. lia.
Qed.

Lemma remove_key_ok k c : table_ok (table c) -> stats_ok c ->
  table_ok (table (fst (remove_key k c))) /\ stats_ok (fst (remove_key k c)).
Proof.
  intros T S. unfold remove_key. destruct (hash_find k (table c)) as [e|] eqn:E; cbn [fst]; [|auto].
  split; [now apply hash_remove_ok|now apply count_removal_ok].
Qed.

Lemma remove_keys_ok ks : forall c n, table_ok (table c) -> stats_ok c ->
  table_ok (table (fst (remove_keys ks c n))) /\ stats_ok (fst (remove_keys ks c n)).
Proof.
  induction ks as [|k ks IH]; intros c n T S; [auto|]. cbn [remove_keys].
  pose proof (remove_key_ok k c T S) as H. destruct (remove_key k c) as [c' found]. now apply IH.
Qed.

Lemma evict_all_stats victims : forall c rest, table_ok (table c) -> stats_ok c ->
  Permutation (table c) (victims ++ rest) -> stats_ok (evict_all victims c).
Proof.
  induction victims as [|v victims IH]; intros c rest T S P; [exact S|]. cbn [evict_all].
  pose proof (evict_all_permutation [v] c (victims ++ rest) T P) as P1. cbn [evict_all] in P1.
  apply (IH _ rest); [now apply hash_remove_ok| |exact P1].
  apply count_removal_ok; [exact T|exact S|]. apply hash_find_In; [exact T|].
  apply (Permutation_in _ (Permutation_sym P)). now left.
Qed.

Lemma EvictLRUEntries_ok count c : table_ok (table c) -> stats_ok c ->
  table_ok (table (EvictLRUEntries count c)) /\ stats_ok (EvictLRUEntries count c).
Proof.
  intros T S. split; [now apply evict_all_ok|]. unfold EvictLRUEntries.
  pose proof (qsort_permutation _ compare_cache_entries_by_access_time (table c)) as Q.
  eapply evict_all_stats; [exact T|exact S|]. rewrite firstn_skipn. now symmetry.
Qed.

(** The cache before the entry is written. *)
Definition make_room c : @cache Jsonb :=
  if Z.of_nat (List.length (table c)) >=? cache_max_entries c
  then EvictLRUEntries (Z.quot (cache_max_entries c) 10) c else c.

Lemma make_room_ok c : table_ok (table c) -> stats_ok c ->
  table_ok (table (make_room c)) /\ stats_ok (make_room c).
Proof. unfold make_room. destruct (_ >=? _); [apply EvictLRUEntries_ok|auto]. Qed.

Lemma CacheQuery_Some now key result ttl c : cache_enabled c = true ->
  CacheQuery now (Some key) (Some result) ttl c =
  (with_table (make_room c) (hash_enter (new_entry now (make_room c) key result ttl) (table (make_room c)))
     (count_store (cache_stats (make_room c)) (VARSIZE result)), true).
Proof. intros E. unfold CacheQuery. now rewrite E. Qed.

(** What storing under a key that is already cached adds to the counters too much. *)
Definition replaced key c : list (@PisaCacheEntry Jsonb) :=
  match hash_find key (table (make_room c)) with Some e => [e] | None => [] end.

Lemma CacheQuery_counters now key result ttl c : cache_enabled c = true ->
  table_ok (table c) -> stats_ok c ->
  let c' := fst (CacheQuery now (Some key) (Some result) ttl c) in
  total_entries (cache_stats c') = Z.of_nat (List.length (table c')) + Z.of_nat (List.length (replaced key c)) /\
  total_size_bytes (cache_stats c') = sizes (table c') + sizes (replaced key c).
Proof.
  intros E T S. rewrite CacheQuery_Some by exact E. cbn [fst].
  destruct (make_room_ok c T S) as [T' [S1 S2]]. set (r := make_room c) in *.
  set (e := new_entry now r key result ttl).
  assert (K : hash_key (cache_key e) = cache_key e) by apply hash_key_idem.
  pose proof (hash_enter_permutation e (table r) T' K) as P.
  cbn [cache_stats with_table total_entries total_size_bytes count_store query_cache_hash].
  rewrite S1, S2, (Permutation_length P), (sizes_permutation _ _ P).
  unfold replaced. fold r.
  assert (R : hash_remove (cache_key e) (table r) = hash_remove key (table r)).
  { unfold hash_remove, has_key. apply filter_ext. intros x. now rewrite K. }
  rewrite R. cbn [List.length sizes fold_right]. change (result_size_bytes e) with (VARSIZE result).
  destruct (hash_find key (table r)) as [old|] eqn:F.
  - destruct (hash_remove_found _ _ _ T' F) as [_ P'].
    rewrite (Permutation_length P'), (sizes_permutation _ _ P'). cbn [List.length sizes fold_right]. unfold sizes. lia.
  - apply hash_find_None in F. rewrite hash_remove_absent by exact F. cbn. unfold sizes. lia.
Qed.

(** Storing keeps the counters right for a new key; storing under a key that is
    still cached counts the replaced entry and its size a second time. *)
Theorem CacheQuery_counts (now : Z) (key : bytes) (result : Jsonb) (ttl : Z) c :
  cache_enabled c = true -> table_ok (table c) -> stats_ok c ->
  let c' := fst (CacheQuery now (Some key) (Some result) ttl c) in
  table_ok (table c') /\
  match hash_find key (table (make_room c)) with
  | None => stats_ok c'
  | Some e =>
    total_entries (cache_stats c') = Z.of_nat (List.length (table c')) + 1 /\
    total_size_bytes (cache_stats c') = sizes (table c') + result_size_bytes e
  end.
Proof.
  intros E T S. split.
  - rewrite CacheQuery_Some by exact E. apply hash_enter_ok; [now apply make_room_ok|apply hash_key_idem].
  - pose proof (CacheQuery_counters now key result ttl c E T S) as [H1 H2]. unfold replaced in *.
    destruct (hash_find key (table (make_room c))); unfold stats_ok; cbn [List.length sizes fold_right] in *; lia.
Qed.

Lemma hash_enter_touch now e k c : table_ok (table c) -> hash_find k (table c) = Some e ->
  Permutation (hash_enter (touch now e) (table c)) (touch now e :: hash_remove k (table c)) /\
  Permutation (table c) (e :: hash_remove k (table c)) /\ hash_key (cache_key e) = cache_key e.
Proof.
  intros T F. destruct (hash_remove_found _ _ _ T F) as [K P].
  assert (Ke : hash_key (cache_key e) = cache_key e) by (rewrite K; apply hash_key_idem).
  split; [|auto]. pose proof (hash_enter_permutation (touch now e) (table c) T Ke) as Q.
  assert (R : hash_remove (cache_key (touch now e)) (table c) = hash_remove k (table c)).
  { unfold hash_remove, has_key. apply filter_ext. intros x. cbn [cache_key touch]. now rewrite Ke, K. }
  now rewrite R in Q.
Qed.

(** C38: Every other operation keeps the table well-formed and the counters right. *)
Theorem cache_counters_invariant (now count : Z) (key pattern : option bytes) c :
  table_ok (table c) -> stats_ok c ->
  let good c' := table_ok (table c') /\ stats_ok c' in
  good (fst (GetCachedQuery now key c)) /\ good (fst (InvalidateCacheEntry key c)) /\
  good (fst (InvalidateCacheByPattern pattern c)) /\ good (EvictExpiredEntries now c) /\
  good (EvictLRUEntries count c) /\ good (documentdb_reset_pisa_cache now c).
Proof.
  intros T S good.
  split; [|split; [|split; [|split; [|split]]]].
  - unfold GetCachedQuery. destruct key as [k|]; [|now split].
    destruct (cache_enabled c); cbn [negb]; [|now split].
    destruct (hash_find k (table c)) as [e|] eqn:F; [|now split].
    destruct (IsCacheEntryValid now e); [|now split]. cbn [fst].
    destruct (hash_enter_touch now e k c T F) as (P1 & P2 & Ke).
    split; [now apply hash_enter_ok|]. destruct S as [S1 S2]. unfold stats_ok.
    cbn [cache_stats with_table total_entries total_size_bytes UpdateCacheStatistics query_cache_hash].
    rewrite S1, S2, (Permutation_length P1), (sizes_permutation _ _ P1), (Permutation_length P2), (sizes_permutation _ _ P2).
    now split.
  - unfold InvalidateCacheEntry. destruct key as [k|]; [now apply remove_key_ok|now split].
  - unfold InvalidateCacheByPattern. destruct pattern as [p|]; [|now split].
    match goal with |- context [remove_keys ?ks c 0] => pose proof (remove_keys_ok ks c 0 T S) as H; destruct (remove_keys ks c 0) end.
    exact H.
  - now apply remove_keys_ok.
  - now apply EvictLRUEntries_ok.
  - repeat split; constructor.
Qed.

(** ** The size bound *)

Lemma hash_enter_length e t : table_ok t -> hash_key (cache_key e) = cache_key e ->
  (List.length (hash_enter (Jsonb:=Jsonb) e t) <= S (List.length t))%nat.
Proof.
  intros T K. rewrite (Permutation_length (hash_enter_permutation e t T K)). cbn [List.length].
  unfold hash_remove. pose proof (filter_length_le (fun e' => negb (has_key (cache_key e) e')) t). lia.
Qed.

(** With room for at least ten entries, storing never exceeds the configured maximum. *)
Theorem CacheQuery_bounded (now : Z) (key : bytes) (result : Jsonb) (ttl : Z) c :
  table_ok (table c) -> 10 <= cache_max_entries c ->
  Z.of_nat (List.length (table c)) <= cache_max_entries c ->
  Z.of_nat (List.length (table (fst (CacheQuery now (Some key) (Some result) ttl c)))) <= cache_max_entries c.
Proof.
  intros T M L. destruct (cache_enabled c) eqn:E; [|unfold CacheQuery; now rewrite E].
  rewrite CacheQuery_Some by exact E. cbn [fst query_cache_hash with_table].
  assert (R : table_ok (table (make_room c)) /\ Z.of_nat (List.length (table (make_room c))) < cache_max_entries c).
  { unfold make_room. destruct (Z.geb_spec (Z.of_nat (List.length (table c))) (cache_max_entries c)); [|now split].
    split; [now apply evict_all_ok|]. destruct (EvictLRU_split (Z.quot (cache_max_entries c) 10) c T) as [P1 P2].
    apply Permutation_length in P1, P2. rewrite length_app in P2. rewrite P1.
    rewrite length_firstn, length_skipn in *.
    pose proof (Permutation_length (qsort_permutation _ compare_cache_entries_by_access_time (table c))) as Q.
    unfold evicted in *. rewrite Z.quot_div_nonneg in * by lia.
    assert (1 <= cache_max_entries c / 10) by (apply Z.div_le_lower_bound; lia). lia. }
  destruct R as [T' R]. pose proof (hash_enter_length (new_entry now (make_room c) key result ttl) _ T' (hash_key_idem key)).
  lia.
Qed.


(** ** What a lookup can return

    The abstract cache remembers, per key, what was stored last, when and for
    how long, and forgets it when it is invalidated.  The implementation may
    lose entries (eviction), but never returns anything else. *)

Inductive operation : Type :=
| OStore (key : bytes) (result : Jsonb) (ttl : Z)
| OGet (key : bytes)
| OInvalidate (key : bytes)
| OInvalidatePattern (pattern : bytes)
| OEvictExpired
| OReset.

Definition step (c : cache) (o : Z * operation) : cache :=
  let '(now, o) := o in
  match o with
  | OStore key result ttl => fst (CacheQuery now (Some key) (Some result) ttl c)
  | OGet key => fst (GetCachedQuery now (Some key) c)
  | OInvalidate key => fst (InvalidateCacheEntry (Some key) c)
  | OInvalidatePattern pattern => fst (InvalidateCacheByPattern (Some pattern) c)
  | OEvictExpired => EvictExpiredEntries now c
  | OReset => documentdb_reset_pisa_cache now c
  end.

Record stored : Type := Stored { s_result : Jsonb; s_created : Z; s_ttl : Z }.
Definition contents : Type := bytes -> option stored.

Definition forget (p : bytes -> bool) (m : contents) : contents := fun k => if p k then None else m k.

(** The contents after an operation; a time to live that is not positive means the default. *)
Definition spec_step (default_ttl : Z) (m : contents) (o : Z * operation) : contents :=
  let '(now, o) := o in
  match o with
  | OStore key result ttl => fun k =>
      if cmp_bytes k (hash_key key) =? 0
      then Some (Stored result now (if ttl >? 0 then ttl else default_ttl)) else m k
  | OGet _ | OEvictExpired => m
  | OInvalidate key => forget (fun k => cmp_bytes k (hash_key key) =? 0) m
  | OInvalidatePattern pattern => forget (fun k => strstr k pattern) m
  | OReset => fun _ => None
  end.

Definition entry_of (e : @PisaCacheEntry Jsonb) : stored := Stored (query_result e) (created_at e) (ttl_seconds e).

(** The simulation relation. *)
Record simulates (default_ttl : Z) (m : contents) c : Prop := {
  sim_table : table_ok (table c);
  sim_contents : forall e, In e (table c) -> m (cache_key e) = Some (entry_of e);
  sim_enabled : cache_enabled c = true;
  sim_ttl : cache_default_ttl c = default_ttl
}.

Lemma remove_key_incl k e c : In e (table (fst (remove_key k c))) ->
  In e (table c) /\ cache_key e <> hash_key k.
Proof.
  unfold remove_key. destruct (hash_find k (table c)) eqn:F; cbn [fst query_cache_hash with_table].
  - apply hash_remove_incl.
  - intros I. split; [exact I|]. apply hash_find_None in F. intros E. apply F. rewrite <- E. now apply in_map.
Qed.

Lemma remove_key_settings k c : let c' := fst (remove_key k c) in
  cache_enabled c' = cache_enabled c /\ cache_default_ttl c' = cache_default_ttl c.
Proof. unfold remove_key. now destruct (hash_find k (table c)). Qed.

Lemma remove_key_table k c : table_ok (table c) -> table_ok (table (fst (remove_key k c))).
Proof.
  intros T. unfold remove_key. destruct (hash_find k (table c)); [now apply hash_remove_ok|exact T].
Qed.

Lemma remove_keys_facts ks : forall c n, table_ok (table c) -> let c' := fst (remove_keys ks c n) in
  table_ok (table c') /\ cache_enabled c' = cache_enabled c /\ cache_default_ttl c' = cache_default_ttl c /\
  forall e, In e (table c') -> In e (table c) /\ ~ In (cache_key e) (map hash_key ks).
Proof.
  induction ks as [|k ks IH]; intros c n T; cbn [remove_keys]; [cbn; intuition|].
  pose proof (remove_key_table k c T) as T'. pose proof (remove_key_settings k c) as [S1 S2].
  pose proof (fun e => remove_key_incl k e c) as I. destruct (remove_key k c) as [c1 found]. cbn [fst] in *.
  destruct (IH c1 (if found then n + 1 else n) T') as (A & B & D & F).
  split; [exact A|]. split; [congruence|]. split; [congruence|]. intros e H. destruct (F e H) as [H1 N].
  destruct (I e H1) as [H2 K]. split; [exact H2|]. intros [E|E]; [now apply K|now apply N].
Qed.

Lemma simulates_subset d m m' c c' : simulates d m c -> table_ok (table c') ->
  cache_enabled c' = cache_enabled c -> cache_default_ttl c' = cache_default_ttl c ->
  (forall e, In e (table c') -> In e (table c) /\ m' (cache_key e) = m (cache_key e)) -> simulates d m' c'.
Proof.
  intros [T S E D] T' E' D' H. split; [exact T'| |congruence|congruence].
  intros e I. destruct (H e I) as [I' ->]. now apply S.
Qed.

Lemma strip_key_not_removed (p : @PisaCacheEntry Jsonb -> bool) t e :
  table_ok t -> In e t -> ~ In (cache_key e) (map hash_key (map cache_key (filter p t))) -> p e = false.
Proof.
  intros T I H. destruct (p e) eqn:E; [|reflexivity]. elim H.
  pose proof (keys_fit t T) as F. rewrite Forall_forall in F. rewrite <- (F e I).
  rewrite map_map. apply (in_map (fun x => hash_key (cache_key x))). now apply filter_In.
Qed.

Lemma simulates_store d m c now key result ttl : simulates d m c ->
  simulates d (spec_step d m (now, OStore key result ttl)) (step c (now, OStore key result ttl)).
Proof.
  intros [T S E D]. cbn [step spec_step]. rewrite CacheQuery_Some by exact E. cbn [fst].
  assert (M : table_ok (table (make_room c)) /\ cache_enabled (make_room c) = true /\
    cache_default_ttl (make_room c) = d /\ forall e, In e (table (make_room c)) -> In e (table c)).
  { unfold make_room. destruct (_ >=? _); [|auto]. unfold EvictLRUEntries.
    match goal with |- context [evict_all ?v c] => destruct (evict_all_settings v c) as (-> & _ & ->) end.
    repeat split; auto using evict_all_ok; try apply (evict_all_ok _ c T). intros e. apply evict_all_incl. }
  destruct M as (T' & E' & D' & I). set (r := make_room c) in *.
  set (e := new_entry now r key result ttl). assert (K : hash_key (cache_key e) = cache_key e) by apply hash_key_idem.
  split; cbn [query_cache_hash with_table cache_enabled cache_default_ttl]; auto; [now apply hash_enter_ok|].
  intros x Hx. apply hash_enter_In in Hx as [->|[Hx N]]; auto.
  - change (cache_key e) with (hash_key key). rewrite cmp_bytes_refl. cbn. unfold entry_of, e. cbn. now rewrite D'.
  - destruct (Z.eqb_spec (cmp_bytes (cache_key x) (hash_key key)) 0) as [C|C]; [|now apply S, I].
    apply (proj1 (cmp_bytes_0 _ _)) in C. now elim N.
Qed.

Lemma simulates_get d m c now key : simulates d m c ->
  simulates d (spec_step d m (now, OGet key)) (step c (now, OGet key)).
Proof.
  intros H. pose proof H as [T S E D]. cbn [step spec_step]. unfold GetCachedQuery. rewrite E. cbn [negb].
  destruct (hash_find key (table c)) as [e|] eqn:F; [|now split].
  destruct (IsCacheEntryValid now e); [|now split]. cbn [fst].
  destruct (hash_enter_touch now e key c T F) as (P1 & P2 & Ke).
  split; cbn [query_cache_hash with_table cache_enabled cache_default_ttl]; auto; [now apply hash_enter_ok|].
  intros x Hx. apply hash_enter_In in Hx as [->|[Hx _]]; auto.
  apply (S e). apply (Permutation_in _ (Permutation_sym P2)). now left.
Qed.

Lemma simulates_step d m c o : simulates d m c -> simulates d (spec_step d m o) (step c o).
Proof.
  destruct o as [now [key result ttl|key|key|pattern| |]]; intros H.
  - now apply simulates_store.
  - now apply simulates_get.
  - eapply simulates_subset; [exact H|apply remove_key_table, H|apply remove_key_settings|apply remove_key_settings|].
    intros e I. apply remove_key_incl in I as [I N]. split; [exact I|]. cbn [spec_step]. unfold forget.
    destruct (Z.eqb_spec (cmp_bytes (cache_key e) (hash_key key)) 0) as [C|]; [|reflexivity].
    apply (proj1 (cmp_bytes_0 _ _)) in C. now elim N.
  - cbn [step spec_step InvalidateCacheByPattern].
    set (ks := map cache_key (filter (fun e => strstr (cache_key e) pattern) (table c))).
    pose proof (remove_keys_facts ks c 0 (sim_table _ _ _ H)) as (A & B & D & F).
    destruct (remove_keys ks c 0) as [c' n]. cbn [fst] in *.
    eapply simulates_subset; [exact H|exact A|exact B|exact D|]. intros e I. destruct (F e I) as [I' N].
    split; [exact I'|]. unfold forget.
    now rewrite (strip_key_not_removed (fun e => strstr (cache_key e) pattern) _ e (sim_table _ _ _ H) I' N).
  - cbn [step spec_step]. unfold EvictExpiredEntries.
    match goal with |- context [remove_keys ?ks c 0] => pose proof (remove_keys_facts ks c 0 (sim_table _ _ _ H)) as (A & B & D & F) end.
    eapply simulates_subset; [exact H|exact A|exact B|exact D|]. intros e I. now destruct (F e I).
  - destruct H as [_ _ E D]. split; cbn; auto; [split; constructor|intros e []].
Qed.

Definition empty_contents : contents := fun _ => None.

(** C28: Refinement over any history of operations on a fresh cache: a lookup that
    returns a result returns the one stored last under that key, it has not been
    invalidated since, and its time to live has not elapsed. *)
Theorem GetCachedQuery_returns_last_store (start : Z) (history : list (Z * operation)) (now : Z) (key : bytes)
  (c0 c' : cache) (r : Jsonb) :
  InitializePisaQueryCache start None = Some c0 ->
  GetCachedQuery now (Some key) (fold_left step history c0) = (c', Some r) ->
  exists s, fold_left (spec_step PISA_CACHE_DEFAULT_TTL) history empty_contents (hash_key key) = Some s /\
    s_result s = r /\ now < s_created s + wrap_s 32 (s_ttl s * 1000) * 1000.
Proof.
  intros Hi Hg.
  assert (G : forall h m c, simulates PISA_CACHE_DEFAULT_TTL m c ->
    simulates PISA_CACHE_DEFAULT_TTL (fold_left (spec_step PISA_CACHE_DEFAULT_TTL) h m) (fold_left step h c)).
  { induction h as [|o h IH]; intros m c H; [exact H|]. cbn [fold_left]. now apply IH, simulates_step. }
  assert (S0 : simulates PISA_CACHE_DEFAULT_TTL empty_contents c0).
  { injection Hi as <-. split; cbn; auto; [split; constructor|intros e []]. }
  specialize (G history _ _ S0). destruct G as [T S E D]. unfold GetCachedQuery in Hg. rewrite E in Hg. cbn [negb] in Hg.
  destruct (hash_find key (table (fold_left step history c0))) as [e|] eqn:F; [|discriminate].
  destruct (IsCacheEntryValid now e) eqn:V; [|discriminate]. injection Hg as _ <-.
  destruct (hash_remove_found _ _ _ T F) as [K P]. exists (entry_of e).
  split; [rewrite <- K; apply S; apply (Permutation_in _ (Permutation_sym P)); now left|].
  split; [reflexivity|]. unfold IsCacheEntryValid, expiry_time in V. apply andb_prop in V as [_ V].
  now apply Z.ltb_lt in V.
Qed.

(** C39: In a well-formed cache that is enabled, a result stored with a positive time to
    live of at most INT32_MAX milliseconds (some 24 days) is found again under its key until
    that time has elapsed. *)
Theorem CacheQuery_then_GetCachedQuery (now later : Z) (key : bytes) (result : Jsonb) (ttl : Z) c :
  table_ok (table c) -> cache_enabled c = true -> 0 < ttl -> ttl * 1000 <= INT32_MAX ->
  later < now + ttl * 1000000 ->
  snd (GetCachedQuery later (Some key) (fst (CacheQuery now (Some key) (Some result) ttl c))) = Some result.
Proof.
  intros T E Ht Hm Hl. rewrite CacheQuery_Some by exact E. cbn [fst]. set (r := make_room c).
  assert (T' : table_ok (table r)).
  { unfold r, make_room. destruct (_ >=? _); [now apply evict_all_ok|exact T]. }
  assert (E' : cache_enabled r = true).
  { unfold r, make_room. destruct (_ >=? _); [|exact E]. unfold EvictLRUEntries.
    now edestruct evict_all_settings as (-> & _). }
  set (e := new_entry now r key result ttl). unfold GetCachedQuery. cbn [cache_enabled with_table query_cache_hash].
  rewrite E'. cbn [negb].
  assert (K : hash_key (cache_key e) = cache_key e) by apply hash_key_idem.
  assert (F : hash_find key (hash_enter e (table r)) = Some e).
  { rewrite <- (hash_find_In e _ (hash_enter_ok e _ T' K)).
    - change (cache_key e) with (hash_key key). unfold hash_find, has_key. now rewrite hash_key_idem.
    - apply (Permutation_in _ (Permutation_sym (hash_enter_permutation e _ T' K))). now left. }
  rewrite F. assert (V : IsCacheEntryValid later e = true).
  { unfold IsCacheEntryValid, expiry_time, e. cbn [is_valid new_entry created_at ttl_seconds andb].
    replace (ttl >? 0) with true by lia. rewrite wrap_s32_id by (zbounds; lia). lia. }
  now rewrite V.
Qed.

End Correct.

(** ** Ambiguous keys and long lifetimes *)

Section Limits.
Context {Jsonb : Type} {PG : PgCache Jsonb}.

(** Database and collection names may contain dots, which the key does not
    distinguish from its separators: two collections share their cache keys. *)
Theorem GenerateCacheKey_ambiguous (query : Jsonb) (options : option Jsonb) :
  GenerateCacheKey (str "a") (str "b.c") query options = GenerateCacheKey (str "a.b") (str "c") query options.
Proof. reflexivity. Qed.

(** A time to live of 25 days overflows its milliseconds: the entry is expired
    when it is stored. *)
Theorem CacheQuery_ttl_overflow (now : Z) (key : bytes) (result : Jsonb) (c : cache) :
  IsCacheEntryValid now (new_entry now c key result (25 * 86400)) = false.
Proof.
  unfold IsCacheEntryValid, expiry_time. cbn [is_valid new_entry created_at ttl_seconds andb].
  change (wrap_s 32 ((if 25 * 86400 >? 0 then 25 * 86400 else cache_default_ttl c) * 1000)) with (-2134967296).
  apply Z.ltb_ge. lia.
Qed.
End Limits.

(** ** A concrete instance *)

Section Insertion.
Context {A : Type} (cmp : A -> A -> Z).
Fixpoint insert (x : A) (l : list A) : list A :=
  match l with
  | [] => [x]
  | y :: l' => if cmp x y <=? 0 then x :: l else y :: insert x l'
  end.
Definition insertion_sort (l : list A) : list A := fold_right insert [] l.

Lemma insert_permutation x l : Permutation (insert x l) (x :: l).
Proof.
  induction l as [|y l IH]; cbn; [reflexivity|]. destruct (_ <=? _); [reflexivity|].
  rewrite IH. apply perm_swap.
Qed.

Hypothesis trans : forall a b c, cmp a b <= 0 -> cmp b c <= 0 -> cmp a c <= 0.
Hypothesis tot : forall a b, cmp a b <= 0 \/ cmp b a <= 0.

Lemma insert_sorted x l : StronglySorted (fun a b => cmp a b <= 0) l ->
  StronglySorted (fun a b => cmp a b <= 0) (insert x l).
Proof.
  induction 1 as [|y l S IH F]; cbn; [repeat constructor|].
  destruct (Z.leb_spec (cmp x y) 0) as [H|H].
  - constructor; [now constructor|]. constructor; [exact H|].
    revert F. apply Forall_impl. intros z. now apply trans.
  - constructor; [exact IH|]. apply (Permutation_Forall (Permutation_sym (insert_permutation x l))).
    constructor; [|exact F]. destruct (tot x y); lia.
Qed.
End Insertion.

Definition RefPgCache : PgCache bytes := {|
  VARSIZE := blen;
  JsonbToCString j := j;
  hash_any := le_Z;
  list_qsort := @insertion_sort
|}.

Lemma RefPgCacheLaws : PgCacheLaws RefPgCache.
Proof.
  split; cbn; intros A cmp l.
  - induction l as [|x l IH]; cbn; [reflexivity|]. rewrite insert_permutation. now constructor.
  - intros tr to. induction l as [|x l IH]; cbn; [constructor|]. now apply insert_sorted.
Qed.

Section Witnesses.
#[local] Existing Instance RefPgCache.
#[local] Existing Instance RefPgCacheLaws.

Definition fresh (max : Z) : @cache bytes := {|
  query_cache_hash := []; cache_stats := zero_stats 0; cache_enabled := true;
  cache_max_entries := max; cache_default_ttl := 300 |}.

Definition two_entries : @cache bytes :=
  fold_left step [(1, OStore (str "k1") (str "one") 60); (2, OStore (str "k2") (str "two") 60);
                  (3, OGet (str "k1"))] (fresh 10).

Lemma two_entries_ok : table_ok (query_cache_hash two_entries).
Proof. split; repeat constructor; cbn; intuition discriminate. Qed.

Lemma two_entries_stats : stats_ok two_entries.
Proof. now split. Qed.

Lemma EvictLRUEntries_least_recent_witness :
  map cache_key (query_cache_hash (EvictLRUEntries 1 two_entries)) = [str "k1"] /\
  exists victims,
    Permutation (query_cache_hash two_entries) (victims ++ query_cache_hash (EvictLRUEntries 1 two_entries)) /\
    Z.of_nat (List.length victims) = 1 /\
    forall v e, In v victims -> In e (query_cache_hash (EvictLRUEntries 1 two_entries)) ->
      last_accessed v <= last_accessed e.
Proof.
  split; [reflexivity|]. exact (EvictLRUEntries_least_recent 1 two_entries two_entries_ok ltac:(lia)).
Defined.

(** The second store under one key: one entry, counted twice. *)
Lemma CacheQuery_counts_witness :
  let c' := fst (CacheQuery 5 (Some (str "k1")) (Some (str "new")) 60 two_entries) in
  total_entries (cache_stats c') = 3 /\ List.length (query_cache_hash c') = 2%nat /\
  table_ok (query_cache_hash c').
Proof.
  split; [reflexivity|]. split; [reflexivity|].
  exact (proj1 (CacheQuery_counts 5 (str "k1") (str "new") 60 two_entries eq_refl two_entries_ok two_entries_stats)).
Defined.

Lemma cache_counters_invariant_witness :
  stats_ok (fst (InvalidateCacheByPattern (Some (str "k")) two_entries)) /\
  query_cache_hash (fst (InvalidateCacheByPattern (Some (str "k")) two_entries)) = [].
Proof.
  split; [|reflexivity].
  apply (cache_counters_invariant 9 1 None (Some (str "k")) two_entries two_entries_ok two_entries_stats).
Defined.

Lemma CacheQuery_bounded_witness :
  Z.of_nat (List.length (query_cache_hash (fst (CacheQuery 5 (Some (str "k3")) (Some (str "x")) 60 two_entries)))) <= 10.
Proof. apply (CacheQuery_bounded 5 (str "k3") (str "x") 60 two_entries two_entries_ok); vm_compute; discriminate. Defined.

Lemma GetCachedQuery_returns_last_store_witness :
  exists s, fold_left (spec_step PISA_CACHE_DEFAULT_TTL)
      [(1, OStore (str "k") (str "v") 0); (2, OStore (str "k") (str "w") 0)] empty_contents (hash_key (str "k")) = Some s /\
    s_result s = str "w" /\ 7 < s_created s + wrap_s 32 (s_ttl s * 1000) * 1000.
Proof.
  eapply (GetCachedQuery_returns_last_store 0
    [(1, OStore (str "k") (str "v") 0); (2, OStore (str "k") (str "w") 0)] 7 (str "k")); reflexivity.
Defined.

Lemma CacheQuery_then_GetCachedQuery_witness :
  snd (GetCachedQuery 60000004 (Some (str "k1"))
         (fst (CacheQuery 5 (Some (str "k1")) (Some (str "new")) 60 two_entries))) = Some (str "new").
Proof.
  apply (CacheQuery_then_GetCachedQuery 5 60000004 (str "k1") (str "new") 60 two_entries two_entries_ok eq_refl);
    zbounds; lia.
Defined.

End Witnesses.
