(* ===== verification/BsonWire.v ===== *)
(** * Documents as bytes

    The size of values and documents in the BSON format, which libbson's writers
    report and the index terms are limited by, the encoding of whole documents on
    top of that of single elements in [PgbsonElement], and the class that says
    that libbson reads back what it writes.  A decoder shows that the class can be
    implemented. *)

From Stdlib Require Import ZArith Lia Bool String List.
From Stdlib Require Import Strings.Byte.
From S2P Require Import Prelude BsonTypes Decimal128 BsonCompare RefBid Traversal PgbsonElement.
Import ListNotations.
Local Open Scope Z_scope.
Local Open Scope outcome_scope.

(** ** Sizes *)

Section Sizes.
Variable value_size : bson_value -> Z.
Definition element_size (kv : bytes * bson_value) : Z := 1 + blen (fst kv) + 1 + value_size (snd kv).
Fixpoint elements_size (d : fields) : Z :=
  match d with [] => 0 | kv :: d' => element_size kv + elements_size d' end.
End Sizes.

(** The length, the elements and the terminator. *)
Fixpoint value_size (v : bson_value) : Z :=
  match v with
  | VEod | VUndefined | VNull | VMaxKey | VMinKey => 0
  | VBool _ => 1
  | VInt32 _ => 4
  | VDouble _ | VDateTime _ | VTimestamp _ _ | VInt64 _ => 8
  | VOid o => blen o
  | VDecimal128 _ => 16
  | VUtf8 s | VCode s | VSymbol s => 4 + blen s + 1
  | VDocument d | VArray d => 5 + elements_size value_size d
  | VBinary t b => 4 + 1 + (if t =? BSON_SUBTYPE_BINARY_DEPRECATED then 4 else 0) + blen b
  | VRegex r o =>
    match r, o with
    | Some r, Some o => blen r + 1 + blen o + 1
    | Some r, None => blen r + 2
    | None, Some o => blen o + 2
    | None, None => 2
    end
  | VDbPointer c o => 4 + blen c + 1 + blen o
  | VCodeWScope c d => 4 + (4 + blen c + 1) + (5 + elements_size value_size d)
  end.

Definition doc_size (d : fields) : Z := 5 + elements_size value_size d.

Lemma elements_size_app f d e : elements_size f (d ++ e) = elements_size f d + elements_size f e.
Proof. induction d as [|kv d IH]; cbn [app elements_size]; lia. Qed.

(** ** Encoding *)

Definition opt_bytes (o : option bytes) : bytes := match o with Some s => s | None => [] end.

Section Encode.
Variable to_raw : bson_value -> raw_value.
Definition encode_element (kv : bytes * bson_value) : bytes :=
  byte_of_z (type_code (value_type (snd kv))) :: fst kv ++ x00 :: encode_value (to_raw (snd kv)).
Definition encode_elements (d : fields) : bytes := flat_map encode_element d.
Definition encode_with (d : fields) : bytes :=
  le_bytes 4 (blen (encode_elements d) + 5) ++ encode_elements d ++ [x00].
End Encode.

Fixpoint to_raw (v : bson_value) : raw_value :=
  match v with
  | VEod | VUndefined => RUndefined
  | VNull => RNull
  | VMaxKey => RMaxKey
  | VMinKey => RMinKey
  | VBool b => RBool b
  | VInt32 z => RInt32 z
  | VInt64 z => RInt64 z
  | VDouble z => RDouble z
  | VDateTime z => RDateTime z
  | VTimestamp t i => RTimestamp t i
  | VOid o => ROid o
  | VDecimal128 d => RDecimal128 d
  | VUtf8 s => RUtf8 s
  | VCode s => RCode s
  | VSymbol s => RSymbol s
  | VDocument d => RDocument (encode_with to_raw d)
  | VArray d => RArray (encode_with to_raw d)
  | VBinary t b => RBinary t b
  | VRegex r o => RRegex (opt_bytes r) (opt_bytes o)
  | VDbPointer c o => RDbPointer c o
  | VCodeWScope c d => RCodeWScope c (encode_with to_raw d)
  end.

Definition encode_document : fields -> bytes := encode_with to_raw.

(** The bytes of a value. *)
Definition value_bytes (v : bson_value) : bytes := encode_value (to_raw v).

Lemma blen_encode_with d : blen (encode_document d) = blen (encode_elements to_raw d) + 5.
Proof. unfold encode_document, encode_with. rewrite !blen_app, blen_le_bytes. change (blen [x00]) with 1. lia. Qed.

Lemma blen_elements d : Forall (fun kv => blen (value_bytes (snd kv)) = value_size (snd kv)) d ->
  blen (encode_elements to_raw d) = elements_size value_size d.
Proof.
  unfold encode_elements. induction 1 as [|[k v] d H _ IH]; [reflexivity|]. cbn [flat_map elements_size].
  unfold encode_element at 1, element_size. cbn [fst snd] in *. unfold value_bytes in H.
  rewrite blen_app, blen_cons, blen_app, blen_cons, IH, H. lia.
Qed.

Lemma blen_value_bytes v : blen (value_bytes v) = value_size v.
Proof.
  induction v using bson_value_nested_ind; unfold value_bytes; cbn [to_raw encode_value value_size];
    change (encode_with to_raw) with encode_document in *;
    rewrite ?blen_app, ?blen_encode_string, ?blen_encode_with, ?blen_le_bytes, ?blen_elements by assumption;
    try (unfold blen; cbn [List.length]; lia).
  - destruct (_ =? _); rewrite ?blen_app, ?blen_le_bytes; unfold blen; cbn [List.length]; lia.
  - destruct r, o; unfold blen; cbn [opt_bytes List.length]; lia.
Qed.

Lemma blen_encode_document d : blen (encode_document d) = doc_size d.
Proof.
  rewrite blen_encode_with, blen_elements; [unfold doc_size; lia|].
  apply Forall_forall. intros kv _. apply blen_value_bytes.
Qed.

Lemma encode_document_single k v : encode_document [(k, v)] =
  le_bytes 4 (blen (encode_body k (to_raw v)) + 4) ++
  byte_of_z (type_code (value_type v)) :: k ++ x00 :: value_bytes v ++ [x00].
Proof.
  unfold encode_document, encode_with, encode_elements. cbn [flat_map]. rewrite app_nil_r.
  unfold encode_element, encode_body, value_bytes. cbn [fst snd].
  f_equal; [f_equal; rewrite !blen_cons, !blen_app, !blen_cons, blen_app; change (blen [x00]) with 1; lia|].
  cbn [app]. now rewrite <- app_assoc.
Qed.

(** ** Reading back *)

(** Values that documents can hold: [BSON_TYPE_EOD] is no value on the wire. *)
Section Storable.
Variable storable : bson_value -> bool.
Fixpoint all_storable (d : fields) : bool :=
  match d with [] => true | (_, v) :: d' => storable v && all_storable d' end.
End Storable.

Fixpoint storable (v : bson_value) : bool :=
  match v with
  | VEod => false
  | VDocument d | VArray d | VCodeWScope _ d => all_storable storable d
  | _ => true
  end.

(** What can be written and read back. *)
Definition wire_ok (d : fields) : Prop := doc_ok d /\ all_storable storable d = true /\ doc_size d <= INT32_MAX.

(** libbson's reader yields the elements its writer was given. *)
Class BsonWireLaws (LB : LibBson) : Prop := {
  decode_encode : forall d, wire_ok d -> bson_decode (encode_document d) = d
}.

(** ** A decoder *)

Definition decode_string (data : bytes) : outcome bytes :=
  let? len := read_u 4 data in let? data := advance data 4 in view data (len - 1).
Definition decode_sized (data : bytes) : outcome bytes :=
  let? len := read_u 4 data in view data len.

Definition decode_raw (type : bson_type_t) (data : bytes) : outcome raw_value :=
  match type with
  | BSON_TYPE_DATE_TIME => let? z := read_i64 data in Done (RDateTime z)
  | BSON_TYPE_DOUBLE => let? z := read_u 8 data in Done (RDouble z)
  | BSON_TYPE_INT64 => let? z := read_i64 data in Done (RInt64 z)
  | BSON_TYPE_TIMESTAMP =>
    let? i := read_u 4 data in let? data := advance data 4 in let? t := read_u 4 data in Done (RTimestamp t i)
  | BSON_TYPE_CODE => let? s := decode_string data in Done (RCode s)
  | BSON_TYPE_SYMBOL => let? s := decode_string data in Done (RSymbol s)
  | BSON_TYPE_UTF8 => let? s := decode_string data in Done (RUtf8 s)
  | BSON_TYPE_BINARY =>
    let? n := read_u 4 data in
    let? data := advance data 4 in
    let? t := read_u 1 data in
    let? data := advance data 1 in
    if t =? BSON_SUBTYPE_BINARY_DEPRECATED then
      let? data := advance data 4 in let? b := view data (n - 4) in Done (RBinary t b)
    else let? b := view data n in Done (RBinary t b)
  | BSON_TYPE_ARRAY => let? d := decode_sized data in Done (RArray d)
  | BSON_TYPE_DOCUMENT => let? d := decode_sized data in Done (RDocument d)
  | BSON_TYPE_OID => let? o := view data 12 in Done (ROid o)
  | BSON_TYPE_BOOL => let? b := read_u 1 data in Done (RBool (negb (b =? 0)))
  | BSON_TYPE_REGEX =>
    let? r := cstr_at data in let? data := advance data (blen r + 1) in let? o := cstr_at data in Done (RRegex r o)
  | BSON_TYPE_DBPOINTER =>
    let? c := decode_string data in
    let? data := advance data (blen (encode_string c)) in
    let? o := view data 12 in Done (RDbPointer c o)
  | BSON_TYPE_CODEWSCOPE =>
    let? data := advance data 4 in
    let? c := decode_string data in
    let? data := advance data (blen (encode_string c)) in
    let? d := decode_sized data in Done (RCodeWScope c d)
  | BSON_TYPE_INT32 => let? z := read_i32 data in Done (RInt32 z)
  | BSON_TYPE_DECIMAL128 =>
    let? low := read_u 8 data in let? data := advance data 8 in let? high := read_u 8 data in
    Done (RDecimal128 (Dec128 high low))
  | BSON_TYPE_MAXKEY => Done RMaxKey
  | BSON_TYPE_MINKEY => Done RMinKey
  | BSON_TYPE_NULL => Done RNull
  | BSON_TYPE_UNDEFINED => Done RUndefined
  | BSON_TYPE_EOD => ReturnFalse
  end.

Lemma decode_string_encode s rest : blen s + 5 <= INT32_MAX -> decode_string (encode_string s ++ rest) = Done s.
Proof.
  intros H. pose proof (blen_nonneg s). unfold decode_string, encode_string.
  rewrite <- !app_assoc, read_u4_le by (zbounds; lia). cbn [outcome_bind].
  rewrite advance_app by reflexivity. cbn [outcome_bind]. apply view_app. lia.
Qed.

Lemma decode_sized_encode d rest : (exists tail, d = le_bytes 4 (blen d) ++ tail) -> blen d <= INT32_MAX ->
  decode_sized (d ++ rest) = Done d.
Proof.
  intros [tail E] H. pose proof (blen_nonneg d). unfold decode_sized.
  rewrite E at 1. rewrite <- app_assoc, read_u4_le by (zbounds; lia). cbn [outcome_bind]. now apply view_app.
Qed.

Lemma decode_raw_encode v rest : raw_ok v -> blen (encode_value v) <= INT32_MAX ->
  decode_raw (raw_type v) (encode_value v ++ rest) = Done v.
Proof.
  intros Hv Hs. destruct v; try reflexivity; cbn [raw_ok raw_type decode_raw encode_value] in *;
    repeat match goal with
           | H : context [blen (_ ++ _)] |- _ => rewrite blen_app in H
           | H : context [blen (encode_string _)] |- _ => rewrite blen_encode_string in H
           end; rewrite <- ?app_assoc;
    try (rewrite decode_string_encode by lia; reflexivity);
    try (rewrite decode_sized_encode by assumption; reflexivity).
  - rewrite read_u8_le by exact Hv. reflexivity.
  - pose proof (blen_nonneg data). destruct (Z.eqb_spec subtype BSON_SUBTYPE_BINARY_DEPRECATED) as [E|E];
      repeat rewrite blen_app in Hs; rewrite ?blen_le_bytes in Hs; change (blen [byte_of_z subtype]) with 1 in Hs;
      rewrite <- !app_assoc, read_u4_le by (zbounds; lia); cbn [outcome_bind];
      rewrite advance_app by reflexivity; cbn [outcome_bind app];
      rewrite read_byte by lia; cbn [outcome_bind]; rewrite advance_1; cbn [outcome_bind].
    + rewrite (proj2 (Z.eqb_eq _ _) E), advance_app by reflexivity. cbn [outcome_bind].
      rewrite view_app by lia. reflexivity.
    + rewrite (proj2 (Z.eqb_neq _ _) E), view_app by reflexivity. reflexivity.
  - rewrite view_app by (unfold blen; now rewrite Hv). reflexivity.
  - cbn [app]. rewrite read_byte by (destruct b; cbn; lia). now destruct b.
  - rewrite read_i64_le by exact Hv. reflexivity.
  - cbn [app]. rewrite cstr_at_nul by apply Hv. cbn [outcome_bind]. rewrite advance_cstr. cbn [outcome_bind].
    now rewrite cstr_at_nul by apply Hv.
  - rewrite decode_string_encode by (pose proof (blen_nonneg oid); lia). cbn [outcome_bind].
    rewrite advance_app by reflexivity. cbn [outcome_bind]. rewrite view_app by (unfold blen; now rewrite Hv). reflexivity.
  - rewrite advance_app by reflexivity. cbn [outcome_bind]. rewrite blen_le_bytes in Hs.
    pose proof (blen_nonneg scope). pose proof (blen_nonneg code).
    rewrite decode_string_encode by lia. cbn [outcome_bind].
    rewrite advance_app by reflexivity. cbn [outcome_bind]. rewrite decode_sized_encode by (assumption || lia). reflexivity.
  - rewrite read_i32_le by exact Hv. reflexivity.
  - destruct Hv as [Ht Hi]. rewrite read_u4_le by exact Hi. cbn [outcome_bind].
    rewrite advance_app by reflexivity. cbn [outcome_bind]. rewrite read_u4_le by exact Ht. reflexivity.
  - rewrite read_i64_le by exact Hv. reflexivity.
  - destruct d as [h l], Hv as [Hh Hl]. cbn [dec_high dec_low] in *.
    rewrite read_u8_le by exact Hl. cbn [outcome_bind].
    rewrite advance_app by reflexivity. cbn [outcome_bind]. rewrite read_u8_le by exact Hh. reflexivity.
Qed.

Definition of_raw (decode : bytes -> outcome fields) (v : raw_value) : outcome bson_value :=
  match v with
  | RDouble z => Done (VDouble z) | RUtf8 s => Done (VUtf8 s)
  | RDocument b => let? d := decode b in Done (VDocument d)
  | RArray b => let? d := decode b in Done (VArray d)
  | RBinary t b => Done (VBinary t b) | RUndefined => Done VUndefined | ROid o => Done (VOid o)
  | RBool b => Done (VBool b) | RDateTime z => Done (VDateTime z) | RNull => Done VNull
  | RRegex r o => Done (VRegex (Some r) (Some o)) | RDbPointer c o => Done (VDbPointer c o)
  | RCode s => Done (VCode s) | RSymbol s => Done (VSymbol s)
  | RCodeWScope c b => let? d := decode b in Done (VCodeWScope c d)
  | RInt32 z => Done (VInt32 z) | RTimestamp t i => Done (VTimestamp t i) | RInt64 z => Done (VInt64 z)
  | RDecimal128 d => Done (VDecimal128 d) | RMaxKey => Done VMaxKey | RMinKey => Done VMinKey
  end.

Fixpoint decode_elements (fuel : nat) (data : bytes) : outcome fields :=
  match fuel, data with
  | O, _ | _, [] => BeyondBuffer
  | S fuel, type :: data =>
    if byte_z type =? 0 then Done []
    else
      let? key := cstr_at data in
      let? data := advance data (blen key + 1) in
      match type_of_code (byte_z type) with
      | None => ReturnFalse
      | Some t =>
        let? raw := decode_raw t data in
        let? v := of_raw (fun b => let? b := advance b 4 in decode_elements fuel b) raw in
        let? data := advance data (blen (encode_value raw)) in
        let? d := decode_elements fuel data in
        Done ((key, v) :: d)
      end
  end.

Definition decode_document (data : bytes) : fields :=
  match (let? b := advance data 4 in decode_elements (List.length data) b) with Done d => d | _ => [] end.

Lemma raw_type_to_raw v : v <> VEod -> raw_type (to_raw v) = value_type v.
Proof. now destruct v. Qed.

Lemma encode_document_sized d : exists tail, encode_document d = le_bytes 4 (blen (encode_document d)) ++ tail.
Proof.
  rewrite blen_encode_with. unfold encode_document, encode_with. eexists. reflexivity.
Qed.

Lemma raw_ok_to_raw v : value_ok v -> raw_ok (to_raw v).
Proof.
  destruct v; cbn [to_raw raw_ok value_ok]; try tauto; try (intros _; apply encode_document_sized); try (intros; apply encode_document_sized).
  destruct regex, options; cbn; try tauto. unfold cstr_ok. tauto.
Qed.

Lemma nested_decode (decode : bytes -> outcome fields) v :
  match v with
  | VDocument d | VArray d | VCodeWScope _ d => decode (encode_document d) = Done d
  | VRegex r o => r <> None /\ o <> None
  | VEod => False
  | _ => True
  end -> of_raw decode (to_raw v) = Done v.
Proof.
  destruct v; cbn [to_raw of_raw]; try reflexivity; try contradiction;
    try (change (encode_with to_raw) with encode_document; intros ->; reflexivity).
  destruct regex, options; cbn; tauto || intuition congruence.
Qed.

Lemma decode_elements_encode fuel : forall d tail, doc_ok d -> all_storable storable d = true ->
  elements_size value_size d <= INT32_MAX -> (List.length (encode_elements to_raw d) < fuel)%nat ->
  decode_elements fuel (encode_elements to_raw d ++ x00 :: tail) = Done d.
Proof.
  induction fuel as [|fuel IH]; intros d tail Hd Hs Hz Hf; [lia|].
  destruct d as [|[k v] d]; [reflexivity|]. destruct Hd as [[Hk Hv] Hd]. cbn [all_storable] in Hs.
  apply andb_prop in Hs as [Sv Sd]. cbn [elements_size] in Hz. unfold element_size in Hz. cbn [fst snd] in Hz.
  assert (Nv : v <> VEod) by (intros ->; discriminate).
  unfold encode_elements in *. cbn [flat_map] in *. unfold encode_element at 1 in Hf. unfold encode_element at 1.
  cbn [fst snd] in *. fold (value_bytes v) in *. set (rest := flat_map (encode_element to_raw) d) in *.
  rewrite length_app in Hf. cbn [List.length] in Hf. rewrite length_app in Hf. cbn [List.length] in Hf.
  rewrite <- !app_comm_cons, <- !app_assoc, <- !app_comm_cons. cbn [decode_elements].
  rewrite byte_z_of_z, Z.mod_small by (destruct (value_type v); cbn; lia).
  replace (type_code (value_type v) =? 0) with false by (destruct v; try contradiction; reflexivity).
  rewrite cstr_at_nul by apply Hk. cbn [outcome_bind]. rewrite advance_cstr. cbn [outcome_bind].
  rewrite type_of_code_code.
  pose proof (blen_nonneg k). pose proof (blen_value_bytes v) as Bv. pose proof (blen_nonneg (value_bytes v)).
  assert (0 <= elements_size value_size d).
  { rewrite <- (blen_elements d) by (apply Forall_forall; intros; apply blen_value_bytes). apply blen_nonneg. }
  rewrite <- raw_type_to_raw by exact Nv.
  unfold value_bytes at 1. rewrite decode_raw_encode by (try (now apply raw_ok_to_raw); fold (value_bytes v); lia).
  cbn [outcome_bind]. rewrite nested_decode.
  - cbn [outcome_bind]. fold (value_bytes v). rewrite advance_app by reflexivity. cbn [outcome_bind].
    unfold rest. rewrite (IH d tail Hd Sd) by (unfold encode_elements; fold rest; lia). reflexivity.
  - assert (Nested : forall d0, doc_ok d0 -> all_storable storable d0 = true -> doc_size d0 <= blen (value_bytes v) ->
      (let? b := advance (encode_document d0) 4 in decode_elements fuel b) = Done d0).
    { intros d0 D0 S0 Z0. assert (L : doc_size d0 = blen (encode_elements to_raw d0) + 5)
        by (rewrite <- blen_encode_document; apply blen_encode_with).
      unfold encode_document, encode_with. rewrite advance_app by reflexivity. cbn [outcome_bind].
      apply IH; [exact D0|exact S0|unfold doc_size in *; lia|].
      change (flat_map (encode_element to_raw) d0) with (encode_elements to_raw d0). unfold blen in *. lia. }
    unfold doc_size in *. destruct v; try exact I; try contradiction; cbn [value_ok storable value_size] in *;
      try (apply Nested; try assumption; rewrite Bv; lia).
    + destruct Hv as [Hr Ho]. destruct regex, options; cbn in *; try contradiction. split; discriminate.
    + apply Nested; [exact (proj2 Hv)|exact Sv|]. rewrite Bv. pose proof (blen_nonneg code). lia.
Qed.

Lemma decode_document_encode d : wire_ok d -> decode_document (encode_document d) = d.
Proof.
  intros (Hd & Hs & Hz). unfold decode_document.
  assert (L : doc_size d = blen (encode_elements to_raw d) + 5)
    by (rewrite <- blen_encode_document; apply blen_encode_with).
  pose proof (blen_encode_document d) as B. unfold doc_size in *. unfold blen in L, B.
  unfold encode_document, encode_with at 1. rewrite advance_app by reflexivity. cbn [outcome_bind].
  rewrite decode_elements_encode; [reflexivity|exact Hd|exact Hs|lia|].
  change (encode_with to_raw) with encode_document. lia.
Qed.

(** libbson with this decoder; ICU compares bytes. *)
Definition WireLibBson : LibBson := {|
  bson_decode := decode_document;
  bson_oid_compare a b := memcmp a b 12;
  bson_oid_get_time_t _ := 0;
  ucol_strcollUTF8 _ a b := Some (cmp_bytes a b)
|}.

Lemma WireLibBsonLaws : LibBsonLaws WireLibBson.
Proof. destruct RefLibBsonLaws as [L1 L2 L3]. split; [exact L1|exact L2|exact L3]. Qed.

Lemma WireLibBsonWire : BsonWireLaws WireLibBson.
Proof. split. exact decode_document_encode. Qed.
