(* ===== verification/BsonWriter.v ===== *)
(** * Writers of documents and arrays ([io/pgbson.c])

    A writer is the list of the elements written so far, as the iterator reads
    them back.  [Start...] opens a nested writer and [End...] adds it to its parent
    as a document or an array; libbson keeps the parent locked in between.  What
    libbson stores for a value is [bson_append_value], which fails for values it
    refuses; its limit on the size of a document is left out. *)

From Stdlib Require Import ZArith Lia Bool String List.
From Stdlib Require Import Strings.Byte.
From S2P Require Import Prelude BsonTypes.
Import ListNotations.
Local Open Scope Z_scope.

(** [bson_uint32_to_string]: the key of an array element. *)
Fixpoint decimal_digits (fuel : nat) (n : Z) (acc : bytes) : bytes :=
  match fuel with
  | O => acc
  | S fuel =>
    let acc := byte_of_z (48 + n mod 10) :: acc in
    if n / 10 =? 0 then acc else decimal_digits fuel (n / 10) acc
  end.
Definition bson_uint32_to_string (n : Z) : bytes := decimal_digits 10 n [].

(** libbson's [bson_append_value]: the value as it is read back, or [None] when it is
    refused; and [bson_iter_find_descendant]. *)
Class LibBsonDoc : Type := {
  bson_append_value : bson_value -> option bson_value;
  bson_iter_find_descendant : fields -> bytes -> option bson_value
}.

(** Values are copied, and only the end-of-document marker is refused; for code,
    regular expressions, database pointers and code with scope, whose strings are
    rewritten, the type is kept. *)
Definition copied (v : bson_value) : bool :=
  match v with VEod | VCode _ | VRegex _ _ | VDbPointer _ _ | VCodeWScope _ _ => false | _ => true end.

Class LibBsonDocLaws (LD : LibBsonDoc) : Prop := {
  append_copied : forall v, copied v = true -> bson_append_value v = Some v;
  append_eod : bson_append_value VEod = None;
  append_type : forall v, v <> VEod -> exists v', bson_append_value v = Some v' /\ value_type v' = value_type v;
  (* a path without a dot names the first field with this key *)
  find_field : forall d k, no_nul k -> k <> [] -> ~ In "."%byte k ->
    bson_iter_find_descendant d k = option_map snd (find (fun kv => cmp_bytes (fst kv) k =? 0) d)
}.

Abbreviation pgbson_writer := fields.

Record pgbson_array_writer : Set := ArrayWriter { innerBson : fields; index : Z }.

Inductive pgbson_element_writer : Set :=
| ArrayElementWriter (arrayWriter : pgbson_array_writer)
| ObjectElementWriter (objectWriter : pgbson_writer) (path : bytes).

Section Writers.
Context {LD : LibBsonDoc}.
Local Open Scope res_scope.

Definition append (bson : fields) (key : bytes) (value : bson_value) : res fields :=
  match bson_append_value value with
  | Some stored => Ok (bson ++ [(key, stored)])
  | None => Err ERRCODE_DOCUMENTDB_BADVALUE
  end.

(** ** Documents *)

Definition PgbsonWriterInit : pgbson_writer := [].

Definition PgbsonWriterAppendValue (writer : pgbson_writer) (path : bytes) (value : bson_value) : res pgbson_writer :=
  append writer path value.

Definition PgbsonWriterStartDocument (writer : pgbson_writer) (path : bytes) : pgbson_writer := [].
Definition PgbsonWriterEndDocument (writer : pgbson_writer) (path : bytes) (childWriter : pgbson_writer) : pgbson_writer :=
  writer ++ [(path, VDocument childWriter)].

Definition PgbsonWriterStartArray (writer : pgbson_writer) (path : bytes) : pgbson_array_writer := ArrayWriter [] 0.
Definition PgbsonWriterEndArray (writer : pgbson_writer) (path : bytes) (childWriter : pgbson_array_writer) : pgbson_writer :=
  writer ++ [(path, VArray (innerBson childWriter))].

(** ** Arrays *)

Definition array_key (writer : pgbson_array_writer) : bytes := bson_uint32_to_string (index writer).

(** The element is written under the current index, which is then incremented. *)
Definition array_add (writer : pgbson_array_writer) (value : bson_value) : pgbson_array_writer :=
  ArrayWriter (innerBson writer ++ [(array_key writer, value)]) (wrap_u 32 (index writer + 1)).

Definition PgbsonArrayWriterWriteValue (writer : pgbson_array_writer) (value : bson_value) : res pgbson_array_writer :=
  let* inner := append (innerBson writer) (array_key writer) value in
  Ok (ArrayWriter inner (wrap_u 32 (index writer + 1))).

Definition PgbsonArrayWriterWriteNull (writer : pgbson_array_writer) : res pgbson_array_writer :=
  PgbsonArrayWriterWriteValue writer VNull.

Definition PgbsonArrayWriterStartDocument (writer : pgbson_array_writer) : pgbson_writer := [].
Definition PgbsonArrayWriterEndDocument (writer : pgbson_array_writer) (childWriter : pgbson_writer) : pgbson_array_writer :=
  array_add writer (VDocument childWriter).

Definition PgbsonArrayWriterStartArray (writer : pgbson_array_writer) : pgbson_array_writer := ArrayWriter [] 0.
Definition PgbsonArrayWriterEndArray (writer childWriter : pgbson_array_writer) : pgbson_array_writer :=
  array_add writer (VArray (innerBson childWriter)).

Definition PgbsonArrayWriterGetValue (writer : pgbson_array_writer) : bson_value := VArray (innerBson writer).

(** ** Elements: a field of a document, or the next element of an array *)

Definition PgbsonInitArrayElementWriter (arrayWriter : pgbson_array_writer) : pgbson_element_writer :=
  ArrayElementWriter arrayWriter.
Definition PgbsonInitObjectElementWriter (objectWriter : pgbson_writer) (path : bytes) : pgbson_element_writer :=
  ObjectElementWriter objectWriter path.

Definition PgbsonElementWriterWriteValue (elementWriter : pgbson_element_writer) (value : bson_value)
  : res pgbson_element_writer :=
  match elementWriter with
  | ArrayElementWriter a => let* a := PgbsonArrayWriterWriteValue a value in Ok (ArrayElementWriter a)
  | ObjectElementWriter o path => let* o := PgbsonWriterAppendValue o path value in Ok (ObjectElementWriter o path)
  end.

Definition PgbsonElementWriterStartArray (elementWriter : pgbson_element_writer) : pgbson_array_writer :=
  match elementWriter with
  | ArrayElementWriter a => PgbsonArrayWriterStartArray a
  | ObjectElementWriter o path => PgbsonWriterStartArray o path
  end.

Definition PgbsonElementWriterEndArray (elementWriter : pgbson_element_writer) (arrayWriter : pgbson_array_writer)
  : pgbson_element_writer :=
  match elementWriter with
  | ArrayElementWriter a => ArrayElementWriter (PgbsonArrayWriterEndArray a arrayWriter)
  | ObjectElementWriter o path => ObjectElementWriter (PgbsonWriterEndArray o path arrayWriter) path
  end.

Definition PgbsonElementWriterStartDocument (elementWriter : pgbson_element_writer) : pgbson_writer :=
  match elementWriter with
  | ArrayElementWriter a => PgbsonArrayWriterStartDocument a
  | ObjectElementWriter o path => PgbsonWriterStartDocument o path
  end.

Definition PgbsonElementWriterEndDocument (elementWriter : pgbson_element_writer) (endDocument : pgbson_writer)
  : pgbson_element_writer :=
  match elementWriter with
  | ArrayElementWriter a => ArrayElementWriter (PgbsonArrayWriterEndDocument a endDocument)
  | ObjectElementWriter o path => ObjectElementWriter (PgbsonWriterEndDocument o path endDocument) path
  end.
End Writers.

(** ** Arrays as lists of values *)

(** The elements of an array with these values, from index [i] on. *)
Fixpoint indexed (i : Z) (values : list bson_value) : fields :=
  match values with
  | [] => []
  | v :: values' => (bson_uint32_to_string i, v) :: indexed (wrap_u 32 (i + 1)) values'
  end.

Definition array_of (values : list bson_value) : fields := indexed 0 values.

(** A writer that was opened empty and given these values. *)
Definition array_written (values : list bson_value) : pgbson_array_writer :=
  ArrayWriter (array_of values) (wrap_u 32 (Z.of_nat (List.length values))).

Lemma indexed_app i vs ws :
  indexed i (vs ++ ws) = indexed i vs ++ indexed (Nat.iter (List.length vs) (fun i => wrap_u 32 (i + 1)) i) ws.
Proof.
  revert i. induction vs as [|v vs IH]; intros i; [reflexivity|].
  cbn [List.length app indexed]. rewrite IH. do 2 f_equal.
  f_equal. symmetry. apply (Nat.iter_succ_r (List.length vs) _ (fun i => wrap_u 32 (i + 1)) i).
Qed.

Lemma iter_index n : Nat.iter n (fun i => wrap_u 32 (i + 1)) 0 = wrap_u 32 (Z.of_nat n).
Proof.
  induction n as [|n IH]; [reflexivity|].
  change (Nat.iter (S n) (fun i => wrap_u 32 (i + 1)) 0) with (wrap_u 32 (Nat.iter n (fun i => wrap_u 32 (i + 1)) 0 + 1)).
  rewrite IH. unfold wrap_u.
  rewrite Zplus_mod_idemp_l. f_equal. lia.
Qed.

Lemma values_indexed i vs : map snd (indexed i vs) = vs.
Proof. revert i. induction vs as [|v vs IH]; intros i; cbn; [reflexivity|]. now rewrite IH. Qed.

Lemma array_add_written vs v : array_add (array_written vs) v = array_written (vs ++ [v]).
Proof.
  unfold array_add, array_written, array_key, array_of. cbn [innerBson index].
  rewrite indexed_app, iter_index, length_app. cbn [indexed List.length]. f_equal.
  unfold wrap_u. rewrite Zplus_mod_idemp_l. f_equal. lia.
Qed.

Lemma write_written {LD : LibBsonDoc} vs v :
  PgbsonArrayWriterWriteValue (array_written vs) v =
  match bson_append_value v with Some v' => Ok (array_written (vs ++ [v'])) | None => Err ERRCODE_DOCUMENTDB_BADVALUE end.
Proof.
  unfold PgbsonArrayWriterWriteValue, append. destruct (bson_append_value v) as [v'|]; [|reflexivity].
  cbn [res_bind]. now rewrite <- array_add_written.
Qed.
