(* ===== verification/IndexTerm.v ===== *)
(** * Index terms ([gin_index_term.c])

    An index term is a metadata byte followed by a one-element document, cut to a
    size limit; a composite term is a sequence of terms with their headers.  A
    [bytea] is given by its content.  The writers are the elements written so far;
    their size is that of [BsonWire].  The writers' own errors, for documents
    beyond two gigabytes, are left out, and so is the wrap-around of the size
    computations, which needs sizes of that order. *)

From Stdlib Require Import ZArith Lia Bool String List.
From Stdlib Require Import Strings.Byte.
From S2P Require Import Prelude SoftFloat BsonTypes StringView Decimal128 BsonCompare BsonOrder RefBid BsonRefine.
From S2P Require Import Traversal PgbsonElement BsonWire BsonWriter.
Import ListNotations.
Local Open Scope Z_scope.

Definition IndexTermNoMetadata : Z := 0x00.
Definition IndexTermTruncated : Z := 0x01.
Definition IndexTermIsMetadata : Z := 0x02.
Definition IndexTermComposite : Z := 0x04.
Definition IndexTermUndefinedValue : Z := 0x08.
Definition IndexTermPartialUndefinedValue : Z := 12.

Record BsonIndexTerm : Set := {
  isIndexTermTruncated : bool;
  isIndexTermMetadata : bool;
  isValueUndefined : bool;
  isValueMaybeUndefined : bool;
  element : pgbsonelement
}.

Record BsonIndexTermSerialized : Set := {
  serialized_truncated : bool;
  isRootMetadataTerm : bool;
  indexTermVal : bytes
}.

Record IndexTermCreateMetadata : Set := {
  indexTermSizeLimit : Z;
  wildcardIndexTruncatedPathLimit : Z;
  pathPrefix : bytes;
  isWildcard : bool;
  isWildcardProjection : bool
}.

(** libbson writes code up to its first NUL. *)
Fixpoint until_nul (s : bytes) : bytes :=
  match s with
  | [] => []
  | b :: s' => if byte_z b =? 0 then [] else b :: until_nul s'
  end.
Definition appended (v : bson_value) : bson_value := match v with VCode s => VCode (until_nul s) | _ => v end.

(** The header of a [bytea]: its size with the header, shifted by two bits. *)
Definition VARHDRSZ : Z := 4.
Definition with_header (content : bytes) : bytes := le_bytes 4 (Z.shiftl (blen content + VARHDRSZ) 2) ++ content.
Definition INDEX_MAX_KEYS : Z := 32.

(** ** Truncation *)

Section Truncate.
Context {BL : BidLib}.
Variable EnableIndexTermTruncationOnNestedObjects : bool.
Local Open Scope res_scope.

(** The new length, and whether it is shorter. *)
Definition TruncateStringOrBinaryTerm (dataSize limit stringLen : Z) : res (Z * bool) :=
  let requiredLength := dataSize + 4 + stringLen + 1 in
  if requiredLength >? limit then
    let excess := requiredLength - limit in
    if excess >=? stringLen then Err ERRCODE_DOCUMENTDB_INTERNALERROR
    else Ok (stringLen - excess, true)
  else Ok (stringLen, false).

Definition cut (s : bytes) (n : Z) : bytes := firstn (Z.to_nat n) s.

(** Numbers inside documents and arrays are written in one representation. *)
Definition common_number (currentValue : bson_value) : res bson_value :=
  let* is32 := IsBsonValue32BitInteger currentValue true in
  if is32 : bool then let* z := BsonValueAsInt32 currentValue in Ok (VInt32 z)
  else
    let* is64 := IsBsonValue64BitInteger currentValue true in
    if is64 : bool then let* z := BsonValueAsInt64 currentValue in Ok (VInt64 z)
    else
      let* d := GetBsonValueAsDecimal128 currentValue in
      let* inRange := IsDecimal128InDoubleRange (VDecimal128 d) in
      if inRange : bool then let* z := BsonValueAsDouble (VDecimal128 d) in Ok (VDouble z)
      else Ok (VDecimal128 d).

Section Iter.
(** The value written, whether it is truncated, and [forceAsNotTruncated]. *)
Variable TruncateNestedEntry : bson_value -> Z -> Z -> res (bson_value * bool * bool).

Fixpoint TruncateArrayTerm (dataSize indexTermSoftLimit indexTermHardLimit : Z) (arrayIterator arrayWriter : fields)
  (forceAsNotTruncated : bool) : res (bool * fields) :=
  let currentLength := doc_size arrayWriter in
  match arrayIterator with
  | [] =>
    if currentLength + dataSize >? indexTermSoftLimit then Ok (negb forceAsNotTruncated, arrayWriter)
    else Ok (false, arrayWriter)
  | (_, iterValue) :: arrayIterator =>
    if currentLength + dataSize >? indexTermSoftLimit then Ok (negb forceAsNotTruncated, arrayWriter)
    else
      let valueLengthLeft := indexTermHardLimit - dataSize - 4 in
      let* '(written, truncated, force) := TruncateNestedEntry iterValue valueLengthLeft currentLength in
      let arrayWriter := arrayWriter ++ [(bson_uint32_to_string (Z.of_nat (List.length arrayWriter)), written)] in
      if truncated : bool then Ok (true, arrayWriter)
      else TruncateArrayTerm dataSize indexTermSoftLimit indexTermHardLimit arrayIterator arrayWriter force
  end.

Fixpoint TruncateDocumentTerm (existingTermSize softLimit hardLimit : Z) (documentIterator documentWriter : fields)
  (forceAsNotTruncated : bool) : res (bool * fields) :=
  let currentLength := doc_size documentWriter in
  match documentIterator with
  | [] =>
    if currentLength + existingTermSize >? softLimit then Ok (negb forceAsNotTruncated, documentWriter)
    else Ok (false, documentWriter)
  | (pathView, iterValue) :: documentIterator =>
    if currentLength + existingTermSize >? softLimit then Ok (negb forceAsNotTruncated, documentWriter)
    else
      let requiredLengthWithPath := currentLength + existingTermSize + blen pathView + 2 in
      if requiredLengthWithPath <? softLimit then
        let valueLengthLeft := hardLimit - existingTermSize - blen pathView - 2 in
        let* '(written, truncated, force) := TruncateNestedEntry iterValue valueLengthLeft currentLength in
        let documentWriter := documentWriter ++ [(pathView, written)] in
        if truncated : bool then Ok (true, documentWriter)
        else TruncateDocumentTerm existingTermSize softLimit hardLimit documentIterator documentWriter force
      else if requiredLengthWithPath <? hardLimit then Ok (true, documentWriter ++ [(pathView, VMaxKey)])
      else
        let pathExcess := requiredLengthWithPath - hardLimit in
        Ok (true, documentWriter ++ [(cut pathView (blen pathView - pathExcess), VMaxKey)])
  end.
End Iter.

Definition fixedArrayTermSize : Z := 21.
Definition fixedDocumentTermLimit : Z := 17.

Fixpoint TruncateNestedEntry (currentValue : bson_value) (sizeBudgetForElementWriter currentLength : Z)
  : res (bson_value * bool * bool) :=
  let string_or_binary (s : bytes) (rebuild : bytes -> bson_value) :=
    let valueSizeLimit := sizeBudgetForElementWriter - currentLength in
    let* '(len, isTruncated) := TruncateStringOrBinaryTerm 1 valueSizeLimit (blen s) in
    Ok (appended (rebuild (cut s len)), isTruncated, false) in
  match currentValue with
  | VMaxKey | VMinKey | VBool _ | VDateTime _ | VNull | VOid _ | VTimestamp _ _ | VUndefined =>
    Ok (currentValue, false, false)
  | VDecimal128 _ | VDouble _ | VInt32 _ | VInt64 _ =>
    let* numericValue := common_number currentValue in Ok (numericValue, false, false)
  | VDocument d =>
    if negb EnableIndexTermTruncationOnNestedObjects then Ok (currentValue, false, true)
    else
      let* '(isTruncated, document) := TruncateDocumentTerm TruncateNestedEntry currentLength
        (sizeBudgetForElementWriter - fixedDocumentTermLimit) sizeBudgetForElementWriter d [] false in
      Ok (VDocument document, isTruncated, false)
  | VArray d =>
    if negb EnableIndexTermTruncationOnNestedObjects then Ok (currentValue, false, true)
    else
      let* '(isTruncated, array) := TruncateArrayTerm TruncateNestedEntry currentLength
        (sizeBudgetForElementWriter - fixedArrayTermSize) sizeBudgetForElementWriter d [] false in
      Ok (VArray array, isTruncated, false)
  | VCodeWScope _ _ | VDbPointer _ _ | VRegex _ _ => Ok (currentValue, false, true)
  | VCode s => string_or_binary s VCode
  | VBinary t s => string_or_binary s (VBinary t)
  | VSymbol s => string_or_binary s VSymbol
  | VUtf8 s => string_or_binary s VUtf8
  | VEod => Ok (currentValue, false, true)
  end.

(** ** Serialization *)

Definition dollar : bytes := str "$".

(** The path as it is written: for a single path it is replaced by a dollar sign,
    for a wildcard below a prefix the prefix is. *)
Definition index_path (termMetadata : IndexTermCreateMetadata) (indexPath : bytes) : res bytes :=
  if (blen (pathPrefix termMetadata) >? 0) && (blen indexPath >? 0) && negb (isWildcard termMetadata) then
    if negb (StringViewEquals (Some indexPath) (Some (pathPrefix termMetadata)))
    then Err ERRCODE_DOCUMENTDB_INTERNALERROR else Ok dollar
  else if (indexTermSizeLimit termMetadata >? 0) && isWildcard termMetadata then
    let newIndexPathLength := blen indexPath - blen (pathPrefix termMetadata) in
    let indexPath :=
      if negb (isWildcardProjection termMetadata) && (blen (pathPrefix termMetadata) >? 0) && (blen indexPath >? 0) then
        if newIndexPathLength =? 0 then dollar
        else if newIndexPathLength >? 0 then dollar ++ skipn (List.length (pathPrefix termMetadata)) indexPath
        else indexPath
      else indexPath in
    if blen indexPath >? wildcardIndexTruncatedPathLimit termMetadata then Err ERRCODE_DOCUMENTDB_BADVALUE
    else Ok indexPath
  else Ok indexPath.

(** The document written, and whether it is truncated. *)
Definition SerializeTermToWriter (indexElement : pgbsonelement) (termMetadata : IndexTermCreateMetadata)
  : res (bool * fields) :=
  let '(path, value) := indexElement in
  let limit := indexTermSizeLimit termMetadata in
  let* indexPath := index_path termMetadata path in
  if limit <=? 0 then Ok (false, [(indexPath, appended value)])
  else
    let dataSize := 5 + blen indexPath + 2 in
    let string_or_binary (s : bytes) (rebuild : bytes -> bson_value) :=
      let* '(len, truncated) := TruncateStringOrBinaryTerm dataSize limit (blen s) in
      Ok (truncated, [(indexPath, appended (rebuild (cut s len)))]) in
    if dataSize >=? limit then Err ERRCODE_DOCUMENTDB_INTERNALERROR
    else
      match value with
      | VArray d =>
        let* '(truncated, array) := TruncateArrayTerm TruncateNestedEntry dataSize (limit - fixedArrayTermSize) limit d [] false in
        Ok (truncated, [(indexPath, VArray array)])
      | VDocument d =>
        let* '(truncated, document) := TruncateDocumentTerm TruncateNestedEntry dataSize
          (limit - fixedDocumentTermLimit) (limit - 2) d [] false in
        Ok (truncated, [(indexPath, VDocument document)])
      | VBinary t s => string_or_binary s (VBinary t)
      | VCode s => string_or_binary s VCode
      | VSymbol s => string_or_binary s VSymbol
      | VUtf8 s => string_or_binary s VUtf8
      | _ => Ok (false, [(indexPath, value)])
      end.

(** The flags of the term and its bytes. *)
Definition BuildSerializedIndexTerm (indexElement : pgbsonelement) (createMetadata : IndexTermCreateMetadata)
  (termMetadata : Z) : res (bool * bool * bytes) :=
  let* '(isTermTruncated, writer) := SerializeTermToWriter indexElement createMetadata in
  let termMetadata :=
    if isTermTruncated && (termMetadata =? IndexTermNoMetadata) then IndexTermTruncated else termMetadata in
  let dataSize := doc_size writer in
  if (indexTermSizeLimit createMetadata >? 0) && (dataSize >? indexTermSizeLimit createMetadata)
  then Err ERRCODE_DOCUMENTDB_INTERNALERROR
  else Ok (termMetadata =? IndexTermTruncated, termMetadata =? IndexTermIsMetadata,
           byte_of_z termMetadata :: encode_document writer).

Definition SerializeBsonIndexTermCore (indexElement : pgbsonelement) (createMetadata : IndexTermCreateMetadata)
  (termMetadata : Z) : res BsonIndexTermSerialized :=
  let* '(truncated, metadata, val) := BuildSerializedIndexTerm indexElement createMetadata termMetadata in
  Ok {| serialized_truncated := truncated; isRootMetadataTerm := metadata; indexTermVal := val |}.

Definition SerializeBsonIndexTerm (indexElement : pgbsonelement) (createMetadata : IndexTermCreateMetadata)
  : res BsonIndexTermSerialized :=
  SerializeBsonIndexTermCore indexElement createMetadata IndexTermNoMetadata.

(** TOAST compression: NULL when the value does not get smaller. *)
Variable toast_compress_datum : bytes -> option bytes.
Variable IndexTermCompressionThreshold : Z.

Definition CompressTermIfNeeded (inputTerm : bytes) : bytes :=
  if blen inputTerm + VARHDRSZ >? IndexTermCompressionThreshold
  then match toast_compress_datum inputTerm with Some result => result | None => inputTerm end
  else inputTerm.

Definition SerializeBsonIndexTermWithCompression (indexElement : pgbsonelement)
  (createMetadata : IndexTermCreateMetadata) : res BsonIndexTermSerialized :=
  let* '(truncated, metadata, val) := BuildSerializedIndexTerm indexElement createMetadata IndexTermNoMetadata in
  Ok {| serialized_truncated := truncated; isRootMetadataTerm := metadata; indexTermVal := CompressTermIfNeeded val |}.

Definition SerializeCompositeBsonIndexTerm (individualTerms : list bytes) : BsonIndexTermSerialized :=
  match individualTerms with
  | [term] => {| serialized_truncated := false; isRootMetadataTerm := false; indexTermVal := term |}
  | _ => {| serialized_truncated := false; isRootMetadataTerm := false;
            indexTermVal := byte_of_z IndexTermComposite :: flat_map with_header individualTerms |}
  end.

Definition SerializeCompositeBsonIndexTermWithCompression (individualTerms : list bytes) : BsonIndexTermSerialized :=
  match individualTerms with
  | [term] => {| serialized_truncated := false; isRootMetadataTerm := false; indexTermVal := CompressTermIfNeeded term |}
  | _ =>
    let indexTerm := SerializeCompositeBsonIndexTerm individualTerms in
    {| serialized_truncated := serialized_truncated indexTerm; isRootMetadataTerm := isRootMetadataTerm indexTerm;
       indexTermVal := CompressTermIfNeeded (indexTermVal indexTerm) |}
  end.

Definition term_value (r : res BsonIndexTermSerialized) : res bytes := let* t := r in Ok (indexTermVal t).

Definition GenerateRootTerm (termData : IndexTermCreateMetadata) : res bytes :=
  term_value (SerializeBsonIndexTermCore ([], VMinKey) termData IndexTermNoMetadata).
Definition GenerateValueUndefinedTerm (termData : IndexTermCreateMetadata) : res bytes :=
  term_value (SerializeBsonIndexTermCore (pathPrefix termData, VUndefined) termData IndexTermUndefinedValue).
Definition GenerateValueMaybeUndefinedTerm (termData : IndexTermCreateMetadata) : res bytes :=
  term_value (SerializeBsonIndexTermCore (pathPrefix termData, VUndefined) termData IndexTermPartialUndefinedValue).
Definition GenerateRootExistsTerm (termData : IndexTermCreateMetadata) : res bytes :=
  term_value (SerializeBsonIndexTermCore ([], VBool true) termData IndexTermIsMetadata).
Definition GenerateRootNonExistsTerm (termData : IndexTermCreateMetadata) : res bytes :=
  term_value (SerializeBsonIndexTermCore ([], VUndefined) termData IndexTermIsMetadata).
Definition GenerateRootMultiKeyTerm (termData : IndexTermCreateMetadata) : res bytes :=
  term_value (SerializeBsonIndexTermCore ([], VArray []) termData IndexTermIsMetadata).
Definition GenerateRootTruncatedTerm (termData : IndexTermCreateMetadata) : res bytes :=
  term_value (SerializeBsonIndexTermCore ([], VMaxKey) termData IndexTermTruncated).
End Truncate.

(** ** Reading and comparing terms *)

Section Terms.
Context {BL : BidLib} {LB : LibBson}.
Variable IndexTermUseUnsafeTransform : bool.
Local Open Scope res_scope.

(** The metadata byte; the code asserts that there is more than that and an empty
    document. *)
Definition term_metadata (indexTermSerialized : bytes) : res Z :=
  match indexTermSerialized with
  | b :: _ => if blen indexTermSerialized >? 6 then Ok (byte_z b) else Err ASSERTION_FAILED
  | [] => Err ASSERTION_FAILED
  end.

Definition IsSerializedIndexTermComposite (indexTermSerialized : bytes) : res bool :=
  let* m := term_metadata indexTermSerialized in Ok (m =? IndexTermComposite).
Definition IsSerializedIndexTermTruncated (indexTermSerialized : bytes) : res bool :=
  let* m := term_metadata indexTermSerialized in Ok (m =? IndexTermTruncated).

(** The element of the document, by the byte-level parser or by an iterator; the
    parser leaves nested documents as bytes, which are read by an iterator later. *)
Definition term_element (data : bytes) : res pgbsonelement :=
  if IndexTermUseUnsafeTransform then
    let* o := BsonValueToPgbsonElementUnsafe BSON_TYPE_DOCUMENT data in
    match o with
    | Done (path, raw) =>
      match of_raw (fun b => Done (bson_decode b)) raw with
      | Done v => Ok (path, v)
      | _ => Err READ_BEYOND_BUFFER
      end
    | _ => Err READ_BEYOND_BUFFER
    end
  else BsonValueToPgbsonElement (Some (bson_decode data)).

Definition InitializeBsonIndexTerm (indexTermSerialized : bytes) : res BsonIndexTerm :=
  let* m := term_metadata indexTermSerialized in
  let* e := term_element (skipn 1 indexTermSerialized) in
  Ok {| isIndexTermTruncated := m =? IndexTermTruncated;
        isIndexTermMetadata := m =? IndexTermIsMetadata;
        isValueUndefined := m =? IndexTermUndefinedValue;
        isValueMaybeUndefined := m =? IndexTermPartialUndefinedValue;
        element := e |}.

(** The first [bytea] in a buffer and what follows it. *)
Definition next_term (buffer : bytes) : res (bytes * bytes) :=
  if blen buffer <? VARHDRSZ then Err READ_BEYOND_BUFFER
  else
    let size := Z.shiftr (le_Z (firstn 4 buffer)) 2 in
    if (size <? VARHDRSZ) || (size >? blen buffer) then Err READ_BEYOND_BUFFER
    else Ok (firstn (Z.to_nat size - 4) (skipn 4 buffer), skipn (Z.to_nat size) buffer).

(** The loop of [InitializeCompositeIndexTerm]; its fuel is the size of the buffer. *)
Fixpoint composite_terms (fuel : nat) (buffer : bytes) (index : Z) : res (list BsonIndexTerm) :=
  match buffer with
  | [] => Ok []
  | _ =>
    match fuel with
    | O => Err ERRCODE_INTERNAL_ERROR
    | S fuel =>
      if index >=? INDEX_MAX_KEYS then Err ERRCODE_DOCUMENTDB_INTERNALERROR
      else
        let* '(bytes, buffer) := next_term buffer in
        let* term := InitializeBsonIndexTerm bytes in
        let* rest := composite_terms fuel buffer (index + 1) in
        Ok (term :: rest)
    end
  end.

Definition InitializeCompositeIndexTerm (indexTermSerialized : bytes) : res (list BsonIndexTerm) :=
  let* isComposite := IsSerializedIndexTermComposite indexTermSerialized in
  if negb isComposite then let* term := InitializeBsonIndexTerm indexTermSerialized in Ok [term]
  else composite_terms (List.length indexTermSerialized) (skipn 1 indexTermSerialized) 0.

(** The order, and whether the values can be compared ([isComparisonValid], which
    the callers set before). *)
Definition CompareBsonIndexTerm (leftTerm rightTerm : BsonIndexTerm) : res (Z * bool) :=
  if xorb (isIndexTermMetadata leftTerm) (isIndexTermMetadata rightTerm)
  then Ok (b2z (isIndexTermMetadata rightTerm) - b2z (isIndexTermMetadata leftTerm), true)
  else
    let cmp := CompareStringView (fst (element leftTerm)) (fst (element rightTerm)) in
    if negb (cmp =? 0) then Ok (cmp, true)
    else
      let* '(cmp, isComparisonValid) := CompareBsonValueAndType (snd (element leftTerm)) (snd (element rightTerm)) in
      if negb (cmp =? 0) then Ok (cmp, isComparisonValid)
      else if xorb (isValueUndefined leftTerm) (isValueUndefined rightTerm)
      then Ok (b2z (isValueUndefined rightTerm) - b2z (isValueUndefined leftTerm), isComparisonValid)
      else if xorb (isValueMaybeUndefined leftTerm) (isValueMaybeUndefined rightTerm)
      then Ok (b2z (isValueMaybeUndefined rightTerm) - b2z (isValueMaybeUndefined leftTerm), isComparisonValid)
      else if xorb (isIndexTermTruncated leftTerm) (isIndexTermTruncated rightTerm)
      then Ok (b2z (isIndexTermTruncated leftTerm) - b2z (isIndexTermTruncated rightTerm), isComparisonValid)
      else Ok (0, isComparisonValid).

(** The loop over both buffers, and what is left of them. *)
Fixpoint compare_terms (fuel : nat) (leftBuffer rightBuffer : bytes) : res Z :=
  match leftBuffer, rightBuffer with
  | [], _ | _, [] => Ok (cmpz (blen leftBuffer) (blen rightBuffer))
  | _, _ =>
    match fuel with
    | O => Err ERRCODE_INTERNAL_ERROR
    | S fuel =>
      let* '(leftBytes, leftBuffer) := next_term leftBuffer in
      let* '(rightBytes, rightBuffer) := next_term rightBuffer in
      let* leftTerm := InitializeBsonIndexTerm leftBytes in
      let* rightTerm := InitializeBsonIndexTerm rightBytes in
      let* '(compareTerm, _) := CompareBsonIndexTerm leftTerm rightTerm in
      if negb (compareTerm =? 0) then Ok compareTerm
      else compare_terms fuel leftBuffer rightBuffer
    end
  end.

Definition CompareCompositeIndexTerms (left right : bytes) : res Z :=
  let* l := term_metadata left in
  let* r := term_metadata right in
  if negb (l =? IndexTermComposite) || negb (r =? IndexTermComposite) then Err ERRCODE_DOCUMENTDB_INTERNALERROR
  else compare_terms (List.length left) (skipn 1 left) (skipn 1 right).

Definition gin_bson_compare (left right : bytes) : res Z :=
  let* isLeftComposite := IsSerializedIndexTermComposite left in
  let* isRightComposite := IsSerializedIndexTermComposite right in
  if isLeftComposite && isRightComposite then CompareCompositeIndexTerms left right
  else if isLeftComposite || isRightComposite then Ok (if isLeftComposite : bool then 1 else -1)
  else
    let* leftTerm := InitializeBsonIndexTerm left in
    let* rightTerm := InitializeBsonIndexTerm right in
    let* '(cmp, _) := CompareBsonIndexTerm leftTerm rightTerm in Ok cmp.
End Terms.
