(* ===== verification/IndexOrder.v ===== *)
(** * The order of index terms

    [gin_bson_compare] orders terms by their parts, composite terms after the
    others and lexicographically, and is a total preorder on well-formed terms;
    terms are read back as they were built, with both parsers. *)

From Stdlib Require Import ZArith Lia Bool String List.
From Stdlib Require Import Strings.Byte.
From S2P Require Import Prelude SoftFloat BsonTypes StringView Decimal128 BsonCompare BsonOrder RefBid BsonRefine.
From S2P Require Import Traversal PgbsonElement BsonWire IndexTerm.
Import ListNotations.
Local Open Scope Z_scope.

Section Order.
Context {BL : BidLib} {Laws : BidLaws BL} {LB : LibBson} {LBLaws : LibBsonLaws LB}.

(** The reference: metadata terms first, then path, value, undefined values,
    possibly undefined values, and truncated values last. *)
Definition term_order (l r : BsonIndexTerm) : Z :=
  lexz (b2z (isIndexTermMetadata r) - b2z (isIndexTermMetadata l))
 (lexz (cmp_bytes (fst (element l)) (fst (element r)))
 (lexz (value_order None (snd (element l)) (snd (element r)))
 (lexz (b2z (isValueUndefined r) - b2z (isValueUndefined l))
 (lexz (b2z (isValueMaybeUndefined r) - b2z (isValueMaybeUndefined l))
       (b2z (isIndexTermTruncated l) - b2z (isIndexTermTruncated r)))))).

Definition term_ok (t : BsonIndexTerm) : Prop := cstr_ok (fst (element t)) /\ value_ok (snd (element t)).

Lemma b2z_anti a b : anti2 (b2z a - b2z b) (b2z b - b2z a).
Proof. apply anti2_sub. Qed.

Lemma anti2_term_order l r : anti2 (term_order l r) (term_order r l).
Proof.
  unfold term_order. repeat (apply anti2_lexz; [|intros _ _]); try apply b2z_anti; [auto with bson_db|].
  apply anti2_value_order, no_collation.
Qed.

Lemma trans3_rsub a b c : trans3 (b - a) (c - b) (c - a).
Proof. unfold trans3. lia. Qed.

Lemma trans3_term_order a b c : trans3 (term_order a b) (term_order b c) (term_order a c).
Proof.
  unfold term_order. repeat (apply trans3_lexz; [|intros _ _ _]); try apply trans3_rsub; try apply trans3_sub;
    [auto with bson_db|]. apply trans3_value_order, no_collation.
Qed.

(** A flag in which the terms differ decides. *)
Lemma xorb_sub (a b valid : bool) (x y : res (Z * bool)) :
  (if xorb a b then Ok (b2z b - b2z a, valid) else x) = (if b2z b - b2z a =? 0 then x else Ok (b2z b - b2z a, valid)) /\
  (if xorb a b then Ok (b2z a - b2z b, valid) else y) = (if b2z a - b2z b =? 0 then y else Ok (b2z a - b2z b, valid)).
Proof. now destruct a, b. Qed.

Lemma lexz_answer {A} (ok : Z -> A) (P : Z -> A -> Prop) (x o y : Z) (k : A) : same_sign x o ->
  (forall z, same_sign x z -> x <> 0 -> P z (ok x)) -> (x = 0 -> P y k) ->
  P (lexz o y) (if x =? 0 then k else ok x).
Proof.
  intros S H0 H. unfold same_sign, lexz in *. destruct (Z.eqb_spec x 0) as [E|E].
  - destruct (Z.eqb_spec o 0); [auto|lia].
  - destruct (Z.eqb_spec o 0); [lia|]. apply H0; [lia|exact E].
Qed.

(** A comparison of terms: its sign, and the validity that of the values. *)
Definition term_answer (valid : bool) (o : Z) (r : res (Z * bool)) : Prop :=
  exists c, r = Ok (c, valid) /\ same_sign c o.

Lemma CompareBsonIndexTerm_answer l r : term_ok l -> term_ok r ->
  exists c valid, CompareBsonIndexTerm l r = Ok (c, valid) /\ same_sign c (term_order l r) /\
    (isIndexTermMetadata l = isIndexTermMetadata r -> fst (element l) = fst (element r) ->
     exists x, CompareBsonValueAndType (snd (element l)) (snd (element r)) = Ok (x, valid)).
Proof.
  intros [Pl Vl] [Pr Vr]. unfold CompareBsonIndexTerm, term_order.
  destruct (CompareBsonValueAndType_answers None no_collation _ _ Vl Vr) as (x & valid & E & S & _).
  change (CompareBsonValueAndTypeWithCollation (snd (element l)) (snd (element r)) None)
    with (CompareBsonValueAndType (snd (element l)) (snd (element r))) in E.
  pose proof (CompareStringView_order (fst (element l)) (fst (element r)) (len_ok_cstr _ Pl) (len_ok_cstr _ Pr) (proj2 Pl)) as Sp.
  destruct (xorb (isIndexTermMetadata l) (isIndexTermMetadata r)) eqn:M.
  { eexists _, true. split; [reflexivity|].
    destruct (isIndexTermMetadata l), (isIndexTermMetadata r); try discriminate M; split; try discriminate;
      unfold lexz, same_sign; reflexivity. }
  destruct (Z.eqb_spec (CompareStringView (fst (element l)) (fst (element r))) 0) as [P|P]; cbn [negb].
  2:{ eexists _, true. split; [reflexivity|]. split.
      - assert (D : b2z (isIndexTermMetadata r) - b2z (isIndexTermMetadata l) = 0)
          by (destruct (isIndexTermMetadata l), (isIndexTermMetadata r); (discriminate M || reflexivity)).
        rewrite D. unfold lexz at 1. cbn [Z.eqb]. unfold same_sign, lexz in *.
        destruct (Z.eqb_spec (cmp_bytes (fst (element l)) (fst (element r))) 0); lia.
      - intros _ Q. elim P. unfold same_sign in Sp. rewrite Q in Sp |- *. rewrite cmp_bytes_refl in Sp. lia. }
  rewrite E. cbn [res_bind].
  assert (G : term_answer valid
    (lexz (cmp_bytes (fst (element l)) (fst (element r)))
     (lexz (value_order None (snd (element l)) (snd (element r)))
      (lexz (b2z (isValueUndefined r) - b2z (isValueUndefined l))
       (lexz (b2z (isValueMaybeUndefined r) - b2z (isValueMaybeUndefined l))
         (b2z (isIndexTermTruncated l) - b2z (isIndexTermTruncated r))))))
    (if negb (x =? 0) then Ok (x, valid)
     else if xorb (isValueUndefined l) (isValueUndefined r)
     then Ok (b2z (isValueUndefined r) - b2z (isValueUndefined l), valid)
     else if xorb (isValueMaybeUndefined l) (isValueMaybeUndefined r)
     then Ok (b2z (isValueMaybeUndefined r) - b2z (isValueMaybeUndefined l), valid)
     else if xorb (isIndexTermTruncated l) (isIndexTermTruncated r)
     then Ok (b2z (isIndexTermTruncated l) - b2z (isIndexTermTruncated r), valid) else Ok (0, valid))).
  { set (ok := fun c : Z => Ok (c, valid)).
    assert (Done : forall z c, same_sign c z -> term_answer valid z (ok c)) by (intros z c H; exists c; split; [reflexivity|exact H]).
    assert (C0 : cmp_bytes (fst (element l)) (fst (element r)) = 0) by (unfold same_sign in Sp; lia).
    rewrite C0. unfold lexz at 1. cbn [Z.eqb]. rewrite if_negb.
    apply (lexz_answer ok (term_answer valid)); [exact S|intros; now apply Done|intros _].
    rewrite (proj1 (xorb_sub _ _ valid _ (ok 0))). apply (lexz_answer ok (term_answer valid)); [apply same_sign_refl|intros; now apply Done|intros _].
    rewrite (proj1 (xorb_sub _ _ valid _ (ok 0))). apply (lexz_answer ok (term_answer valid)); [apply same_sign_refl|intros; now apply Done|intros _].
    rewrite (proj2 (xorb_sub _ _ valid (ok 0) _)).
    destruct (isIndexTermTruncated l), (isIndexTermTruncated r); apply Done, same_sign_refl. }
  destruct G as (c & -> & Sc). exists c, valid. split; [reflexivity|]. split; [|eauto].
  destruct (isIndexTermMetadata l), (isIndexTermMetadata r); try discriminate M; exact Sc.
Qed.

Lemma CompareBsonIndexTerm_order l r : term_ok l -> term_ok r ->
  exists c valid, CompareBsonIndexTerm l r = Ok (c, valid) /\ same_sign c (term_order l r).
Proof. intros Hl Hr. destruct (CompareBsonIndexTerm_answer l r Hl Hr) as (c & v & E & S & _). eauto. Qed.

(** ** Composite terms *)

Fixpoint terms_order (l r : list BsonIndexTerm) : Z :=
  match l, r with
  | [], [] => 0
  | [], _ => -1
  | _, [] => 1
  | a :: l', b :: r' => lexz (term_order a b) (terms_order l' r')
  end.

Lemma anti2_terms_order l : forall r, anti2 (terms_order l r) (terms_order r l).
Proof.
  induction l as [|a l IH]; intros [|b r]; try reflexivity. cbn [terms_order].
  apply anti2_lexz; [apply anti2_term_order|]. intros _ _. apply IH.
Qed.

Lemma trans3_terms_order a : forall b c, trans3 (terms_order a b) (terms_order b c) (terms_order a c).
Proof.
  induction a as [|x a IH]; intros [|y b] [|z c]; cbn [terms_order]; try (unfold trans3; lia).
  apply trans3_lexz; [apply trans3_term_order|]. intros _ _ _. apply IH.
Qed.

Variable IndexTermUseUnsafeTransform : bool.
Local Abbreviation initialize := (InitializeBsonIndexTerm IndexTermUseUnsafeTransform).
Local Abbreviation compare := (gin_bson_compare IndexTermUseUnsafeTransform).

(** The terms of the content of a composite term. *)
Inductive term_sequence : bytes -> list BsonIndexTerm -> Prop :=
| sequence_nil : term_sequence [] []
| sequence_cons buffer bytes buffer' t ts :
    next_term buffer = Ok (bytes, buffer') -> initialize bytes = Ok t -> term_sequence buffer' ts ->
    term_sequence buffer (t :: ts).

Lemma next_term_shorter buffer b rest : next_term buffer = Ok (b, rest) ->
  buffer <> [] /\ (List.length rest < List.length buffer)%nat.
Proof.
  unfold next_term. generalize (Z.shiftr (le_Z (firstn 4 buffer)) 2). intros size.
  destruct (Z.ltb_spec (blen buffer) VARHDRSZ) as [H|H]; [discriminate|].
  destruct (_ || _) eqn:E; [discriminate|]. intros X. injection X as _ <-.
  apply orb_false_iff in E as [E1 E2]. unfold VARHDRSZ, blen in *. split; [now intros ->|].
  rewrite length_skipn. apply Z.ltb_ge in E1. lia.
Qed.

Lemma compare_terms_order l lt : term_sequence l lt -> forall r rt fuel, term_sequence r rt ->
  Forall term_ok lt -> Forall term_ok rt -> (List.length l <= fuel)%nat ->
  exists c, compare_terms IndexTermUseUnsafeTransform fuel l r = Ok c /\ same_sign c (terms_order lt rt).
Proof.
  induction 1 as [|l lb l' t ts El Il Sl IH]; intros r rt fuel Sr Ol Or Hf.
  - assert (C : compare_terms IndexTermUseUnsafeTransform fuel [] r = Ok (cmpz 0 (blen r))) by (destruct fuel; reflexivity).
    rewrite C. eexists. split; [reflexivity|]. inversion Sr as [|? rb r' u us Er Ir Sr']; subst; [reflexivity|].
    apply next_term_shorter in Er as [Nr _]. destruct r as [|x r]; [easy|]. cbn [terms_order].
    eapply same_sign_trans; [apply cmpz_sign|]. unfold same_sign, blen. cbn [List.length]. lia.
  - destruct (next_term_shorter _ _ _ El) as [Nl Ll]. destruct l as [|x l0]; [easy|]. set (l := x :: l0) in *.
    destruct fuel as [|fuel]; [cbn in Hf; lia|].
    inversion Sr as [|r0 rb r' u us Er Ir Sr']; subst.
    + cbn [compare_terms terms_order]. eexists. split; [reflexivity|].
      eapply same_sign_trans; [apply cmpz_sign|]. unfold same_sign, blen, l. cbn [List.length]. lia.
    + destruct (next_term_shorter _ _ _ Er) as [Nr Lr]. destruct r as [|y r0]; [easy|]. set (r := y :: r0) in *.
      change (compare_terms IndexTermUseUnsafeTransform (S fuel) l r) with
        (res_bind (next_term l) (fun '(leftBytes, leftBuffer) =>
         res_bind (next_term r) (fun '(rightBytes, rightBuffer) =>
         res_bind (initialize leftBytes) (fun leftTerm =>
         res_bind (initialize rightBytes) (fun rightTerm =>
         res_bind (CompareBsonIndexTerm leftTerm rightTerm) (fun '(c, _) =>
         if negb (c =? 0) then Ok c else compare_terms IndexTermUseUnsafeTransform fuel leftBuffer rightBuffer)))))).
      rewrite El, Er. cbn [res_bind]. rewrite Il, Ir. cbn [res_bind].
      inversion_clear Ol as [|? ? Ot Ots]. inversion_clear Or as [|? ? Ou Ous].
      destruct (CompareBsonIndexTerm_order t u Ot Ou) as (c & valid & -> & Sc). cbn [res_bind terms_order].
      rewrite if_negb.
      apply (lexz_answer Ok (fun o r => exists c, r = Ok c /\ same_sign c o)); [exact Sc|eauto|].
      intros _. apply IH; auto. unfold l in Hf, Ll. cbn in Hf, Ll. lia.
Qed.

(** What a serialized term holds: a single term, or a sequence of them. *)
Definition holds (s : bytes) (composite : bool) (ts : list BsonIndexTerm) : Prop :=
  IsSerializedIndexTermComposite s = Ok composite /\ Forall term_ok ts /\
  if composite then term_sequence (skipn 1 s) ts else exists t, ts = [t] /\ initialize s = Ok t.

Lemma gin_bson_compare_order l r cl cr lt rt : holds l cl lt -> holds r cr rt ->
  exists c, compare l r = Ok c /\ same_sign c (lexz (b2z cl - b2z cr) (terms_order lt rt)).
Proof.
  intros (El & Ol & Hl) (Er & Or & Hr). unfold gin_bson_compare. rewrite El, Er. cbn [res_bind].
  destruct cl, cr; cbn [andb orb]; try (eexists; split; reflexivity).
  - unfold CompareCompositeIndexTerms, IsSerializedIndexTermComposite in *.
    destruct (term_metadata l) as [m|]; [|discriminate]. destruct (term_metadata r) as [m'|]; [|discriminate].
    cbn [res_bind] in *. injection El as ->. injection Er as ->. cbn [negb orb].
    destruct (compare_terms_order _ _ Hl _ _ (List.length l) Hr Ol Or) as (c & E & S);
      [rewrite length_skipn; lia|]. exists c. now split.
  - destruct Hl as (t & -> & ->), Hr as (u & -> & ->). cbn [res_bind]. inversion_clear Ol. inversion_clear Or.
    destruct (CompareBsonIndexTerm_order t u) as (c & valid & -> & S); try assumption. exists c. split; [reflexivity|].
    unfold same_sign, lexz in *. cbn [b2z terms_order]. change (0 - 0 =? 0) with true. cbn [lexz].
    unfold lexz. destruct (Z.eqb_spec (term_order t u) 0); [|exact S]. rewrite S. lia.
Qed.

(** C19: The comparator of the index is a total preorder on well-formed terms, single
    and composite: it returns, swapping the arguments swaps the sign, and its
    results are transitive. *)
Theorem gin_bson_compare_preorder (a b c : bytes) (ca cb cc : bool) (ta tb tc : list BsonIndexTerm) :
  holds a ca ta -> holds b cb tb -> holds c cc tc ->
  exists ab ba bc ac, compare a b = Ok ab /\ compare b a = Ok ba /\ compare b c = Ok bc /\ compare a c = Ok ac /\
    anti2 ab ba /\ trans3 ab bc ac /\ (ab = 0 <-> ca = cb /\ terms_order ta tb = 0).
Proof.
  intros Ha Hb Hc.
  destruct (gin_bson_compare_order a b ca cb ta tb Ha Hb) as (ab & Eab & Sab).
  destruct (gin_bson_compare_order b a cb ca tb ta Hb Ha) as (ba & Eba & Sba).
  destruct (gin_bson_compare_order b c cb cc tb tc Hb Hc) as (bc & Ebc & Sbc).
  destruct (gin_bson_compare_order a c ca cc ta tc Ha Hc) as (ac & Eac & Sac).
  exists ab, ba, bc, ac. repeat (split; [assumption|]). split; [|split].
  - eapply anti2_same_sign; [exact Sab|exact Sba|]. apply anti2_lexz; [apply b2z_anti|]. intros _ _. apply anti2_terms_order.
  - eapply trans3_same_sign; [exact Sab|exact Sbc|exact Sac|]. apply trans3_lexz; [apply trans3_sub|].
    intros _ _ _. apply trans3_terms_order.
  - unfold same_sign, lexz in Sab. destruct ca, cb; cbn in Sab |- *; destruct (Z.eq_dec (terms_order ta tb) 0);
      intuition (try lia; try congruence).
Qed.
End Order.

(** ** Reading back what was built *)

Section RoundTrip.
Context {BL : BidLib} {LB : LibBson} {Wire : BsonWireLaws LB}.
Variables EnableIndexTermTruncationOnNestedObjects IndexTermUseUnsafeTransform : bool.

Lemma encode_single_document p w : w <> VEod -> encode_document [(p, w)] = encode_single p (to_raw w).
Proof.
  intros Hw. rewrite encode_document_single. unfold encode_single, encode_body, value_bytes.
  now rewrite raw_type_to_raw by exact Hw.
Qed.

Lemma elements_size_nonneg d : 0 <= elements_size value_size d.
Proof.
  rewrite <- blen_elements by (apply Forall_forall; intros; apply blen_value_bytes). apply blen_nonneg.
Qed.

Lemma doc_size_single p w : doc_size [(p, w)] = 7 + blen p + value_size w.
Proof. unfold doc_size, elements_size, element_size. cbn [fst snd]. lia. Qed.

(** Nested documents are read by libbson. *)
Lemma of_raw_decode p w : wire_ok [(p, w)] -> of_raw (fun b => Done (bson_decode b)) (to_raw w) = Done w.
Proof.
  intros (Hd & Hs & Hz). rewrite doc_size_single in Hz. pose proof (blen_nonneg p).
  destruct Hd as [[_ Hv] _]. cbn [all_storable] in Hs. rewrite andb_true_r in Hs.
  assert (N : forall d, doc_ok d -> all_storable storable d = true -> doc_size d <= value_size w ->
    Done (bson_decode (encode_document d)) = Done d)
    by (intros d D S Z; rewrite decode_encode by (repeat split; try assumption; lia); reflexivity).
  apply nested_decode. unfold doc_size in N.
  destruct w; try exact I; cbn [value_ok storable value_size] in *; try discriminate Hs;
    try (apply N; try assumption; lia).
  - destruct Hv as [Hr Ho]. destruct regex, options; cbn in *; try contradiction. split; discriminate.
  - apply N; [exact (proj2 Hv)|exact Hs|]. pose proof (blen_nonneg code). lia.
Qed.

Lemma term_element_encode p w : wire_ok [(p, w)] ->
  (IndexTermUseUnsafeTransform = true -> plain_type (to_raw w) = true) ->
  term_element IndexTermUseUnsafeTransform (encode_document [(p, w)]) = Ok (p, w).
Proof.
  intros Hw Hp. pose proof Hw as (Hd & Hs & Hz). destruct Hd as [[Hk Hv] _]. unfold term_element.
  destruct IndexTermUseUnsafeTransform; [|rewrite decode_encode by exact Hw; reflexivity].
  assert (Nw : w <> VEod) by (intros ->; discriminate Hs).
  unfold BsonValueToPgbsonElementUnsafe. rewrite encode_single_document by exact Nw.
  rewrite fill_encode; [|apply Hk|now apply raw_ok_to_raw|now apply Hp|].
  - cbn [res_bind]. change (type_eqb BSON_TYPE_DOCUMENT BSON_TYPE_DOCUMENT) with true. cbn [negb res_bind]. now rewrite (of_raw_decode p w Hw).
  - unfold size_ok. now rewrite <- encode_single_document, blen_encode_document by exact Nw.
Qed.

Lemma term_metadata_encode m p w : 0 <= m < 256 -> term_metadata (byte_of_z m :: encode_document [(p, w)]) = Ok m.
Proof.
  intros Hm. unfold term_metadata.
  rewrite blen_cons, blen_encode_document, doc_size_single, byte_z_of_z, Z.mod_small by exact Hm.
  pose proof (blen_nonneg p). assert (0 <= value_size w) by (rewrite <- blen_value_bytes; apply blen_nonneg).
  rewrite Z.gtb_ltb. destruct (Z.ltb_spec 6 (1 + (7 + blen p + value_size w))); [reflexivity|lia].
Qed.

Lemma initialize_encode m p w : 0 <= m < 256 -> wire_ok [(p, w)] ->
  (IndexTermUseUnsafeTransform = true -> plain_type (to_raw w) = true) ->
  InitializeBsonIndexTerm IndexTermUseUnsafeTransform (byte_of_z m :: encode_document [(p, w)]) =
  Ok {| isIndexTermTruncated := m =? IndexTermTruncated; isIndexTermMetadata := m =? IndexTermIsMetadata;
        isValueUndefined := m =? IndexTermUndefinedValue;
        isValueMaybeUndefined := m =? IndexTermPartialUndefinedValue; element := (p, w) |}.
Proof.
  intros Hm Hw Hp. unfold InitializeBsonIndexTerm. rewrite term_metadata_encode by exact Hm. cbn [res_bind].
  change (skipn 1 (byte_of_z m :: encode_document [(p, w)])) with (encode_document [(p, w)]).
  now rewrite term_element_encode by assumption.
Qed.

Lemma serialize_roundtrip (e : pgbsonelement) (create : IndexTermCreateMetadata)
  (truncated : bool) (path : bytes) (value : bson_value) :
  SerializeTermToWriter EnableIndexTermTruncationOnNestedObjects e create = Ok (truncated, [(path, value)]) ->
  wire_ok [(path, value)] ->
  (indexTermSizeLimit create > 0 -> doc_size [(path, value)] <= indexTermSizeLimit create) ->
  (IndexTermUseUnsafeTransform = true -> plain_type (to_raw value) = true) ->
  exists s, SerializeBsonIndexTerm EnableIndexTermTruncationOnNestedObjects e create = Ok s /\
    serialized_truncated s = truncated /\ isRootMetadataTerm s = false /\
    IsSerializedIndexTermComposite (indexTermVal s) = Ok false /\
    InitializeBsonIndexTerm IndexTermUseUnsafeTransform (indexTermVal s) =
    Ok {| isIndexTermTruncated := truncated; isIndexTermMetadata := false; isValueUndefined := false;
          isValueMaybeUndefined := false; element := (path, value) |}.
Proof.
  intros E Hw Hl Hp. unfold SerializeBsonIndexTerm, SerializeBsonIndexTermCore, BuildSerializedIndexTerm.
  rewrite E. cbn [res_bind].
  assert (L : (indexTermSizeLimit create >? 0) && (doc_size [(path, value)] >? indexTermSizeLimit create) = false).
  { rewrite !Z.gtb_ltb. destruct (Z.ltb_spec 0 (indexTermSizeLimit create)); [|reflexivity].
    destruct (Z.ltb_spec (indexTermSizeLimit create) (doc_size [(path, value)])); [lia|reflexivity]. }
  rewrite L. cbn [res_bind]. eexists. split; [reflexivity|]. cbn [serialized_truncated isRootMetadataTerm indexTermVal].
  rewrite initialize_encode by (try assumption; now destruct truncated).
  split; [now destruct truncated|]. split; [now destruct truncated|]. split; [|now destruct truncated].
  unfold IsSerializedIndexTermComposite. rewrite term_metadata_encode by now destruct truncated. now destruct truncated.
Qed.

(** C37: A term whose written path and value are well-formed on the wire and fit the
    size limit of the index is built and read back with the path and value that were
    written, marked as truncated exactly when they were; by the parser over libbson for
    every type, and by the byte-level parser, when that is configured, for values other than
    timestamps, database pointers and code with scope. *)
Theorem SerializeBsonIndexTerm_roundtrip (e : pgbsonelement) (create : IndexTermCreateMetadata)
  (truncated : bool) (path : bytes) (value : bson_value) :
  SerializeTermToWriter EnableIndexTermTruncationOnNestedObjects e create = Ok (truncated, [(path, value)]) ->
  wire_ok [(path, value)] ->
  (indexTermSizeLimit create > 0 -> doc_size [(path, value)] <= indexTermSizeLimit create) ->
  (IndexTermUseUnsafeTransform = true -> plain_type (to_raw value) = true) ->
  exists s, SerializeBsonIndexTerm EnableIndexTermTruncationOnNestedObjects e create = Ok s /\
    serialized_truncated s = truncated /\ isRootMetadataTerm s = false /\
    blen (indexTermVal s) = 1 + doc_size [(path, value)] /\
    InitializeBsonIndexTerm IndexTermUseUnsafeTransform (indexTermVal s) =
    Ok {| isIndexTermTruncated := truncated; isIndexTermMetadata := false; isValueUndefined := false;
          isValueMaybeUndefined := false; element := (path, value) |}.
Proof.
  intros E Hw Hl Hp. destruct (serialize_roundtrip e create truncated path value E Hw Hl Hp) as (s & Es & T & M & C & I).
  exists s. repeat (split; [assumption|]). split; [|exact I]. revert Es.
  unfold SerializeBsonIndexTerm, SerializeBsonIndexTermCore, BuildSerializedIndexTerm. rewrite E. cbn [res_bind].
  destruct (_ && _); [discriminate|]. cbn [res_bind]. intros X. injection X as <-. cbn [indexTermVal].
  now rewrite blen_cons, blen_encode_document.
Qed.

(** ** Composite terms *)

Lemma next_term_header content rest : blen content + VARHDRSZ < 2 ^ 30 ->
  next_term (with_header content ++ rest) = Ok (content, rest).
Proof.
  intros H. pose proof (blen_nonneg content) as B. pose proof (blen_nonneg rest) as Br. unfold next_term, with_header.
  rewrite <- app_assoc. set (size := blen content + VARHDRSZ) in *.
  assert (L : firstn 4 (le_bytes 4 (Z.shiftl size 2) ++ content ++ rest) = le_bytes 4 (Z.shiftl size 2)) by reflexivity.
  assert (R : skipn 4 (le_bytes 4 (Z.shiftl size 2) ++ content ++ rest) = content ++ rest) by reflexivity.
  rewrite L, R, le_Z_le_bytes. rewrite Z.shiftl_mul_pow2 by lia. change (2 ^ 2) with 4.
  rewrite Z.mod_small by (change (256 ^ Z.of_nat 4) with (2 ^ 32); unfold VARHDRSZ in *; lia).
  rewrite Z.shiftr_div_pow2, Z.div_mul by (lia || discriminate).
  rewrite !blen_app, blen_le_bytes. unfold VARHDRSZ in *.
  destruct (Z.ltb_spec (Z.of_nat 4 + (blen content + blen rest)) 4); [lia|].
  destruct (Z.ltb_spec size 4); [unfold size in *; lia|]. rewrite Z.gtb_ltb.
  destruct (Z.ltb_spec (Z.of_nat 4 + (blen content + blen rest)) size); [unfold size in *; lia|]. cbn [orb].
  assert (N : Z.to_nat size = (4 + List.length content)%nat) by (unfold size, blen; lia).
  rewrite N. f_equal. f_equal.
  - replace (4 + List.length content - 4)%nat with (List.length content) by lia.
    now rewrite firstn_app, Nat.sub_diag, firstn_all, app_nil_r.
  - change (4 + List.length content)%nat with (List.length (le_bytes 4 (size * 4)) + List.length content)%nat.
    rewrite app_assoc, <- length_app. now rewrite skipn_app, skipn_all, Nat.sub_diag.
Qed.

Definition small (content : bytes) : Prop := blen content + VARHDRSZ < 2 ^ 30.

Lemma composite_terms_headers terms ts : Forall small terms ->
  Forall2 (fun b t => InitializeBsonIndexTerm IndexTermUseUnsafeTransform b = Ok t) terms ts ->
  forall fuel index, (List.length (flat_map with_header terms) <= fuel)%nat ->
  0 <= index -> index + Z.of_nat (List.length terms) <= INDEX_MAX_KEYS ->
  composite_terms IndexTermUseUnsafeTransform fuel (flat_map with_header terms) index = Ok ts.
Proof.
  intros Hs H. induction H as [|b t terms ts E _ IH]; intros fuel index Hf Hi Hn; [now destruct fuel|].
  inversion_clear Hs as [|? ? Hb Hs']. cbn [flat_map List.length] in *.
  rewrite length_app in Hf. unfold with_header in Hf at 1. rewrite length_app, length_le_bytes in Hf.
  destruct fuel as [|fuel]; [lia|]. cbn [composite_terms].
  destruct (with_header b ++ flat_map with_header terms) as [|x l] eqn:W; [discriminate W|]. rewrite <- W.
  rewrite Z.geb_leb. destruct (Z.leb_spec INDEX_MAX_KEYS index); [lia|].
  rewrite next_term_header by exact Hb. cbn [res_bind]. rewrite E. cbn [res_bind].
  rewrite IH by (assumption || lia). reflexivity.
Qed.

(** A composite term of up to 32 terms is read back as these terms, in order. *)
Theorem SerializeCompositeBsonIndexTerm_roundtrip (terms : list bytes) (ts : list BsonIndexTerm) :
  (2 <= List.length terms)%nat -> Z.of_nat (List.length terms) <= INDEX_MAX_KEYS -> Forall small terms ->
  Forall2 (fun b t => InitializeBsonIndexTerm IndexTermUseUnsafeTransform b = Ok t) terms ts ->
  InitializeCompositeIndexTerm IndexTermUseUnsafeTransform (indexTermVal (SerializeCompositeBsonIndexTerm terms)) = Ok ts.
Proof.
  intros H2 Hn Hs H.
  assert (V : indexTermVal (SerializeCompositeBsonIndexTerm terms) =
    byte_of_z IndexTermComposite :: flat_map with_header terms)
    by (destruct terms as [|b [|b' terms]]; try (cbn in H2; lia); reflexivity).
  rewrite V. clear V. unfold InitializeCompositeIndexTerm, IsSerializedIndexTermComposite, term_metadata.
  assert (L : (8 <= List.length (flat_map with_header terms))%nat).
  { destruct terms as [|b [|b' terms]]; try (cbn in H2; lia). cbn [flat_map]. unfold with_header.
    rewrite !length_app, !length_le_bytes. lia. }
  rewrite Z.gtb_ltb. destruct (Z.ltb_spec 6 (blen (byte_of_z IndexTermComposite :: flat_map with_header terms))) as [_|X];
    [|unfold blen in X; cbn [List.length] in X; lia].
  cbn [res_bind]. change (byte_z (byte_of_z IndexTermComposite) =? IndexTermComposite) with true. cbn [negb].
  apply composite_terms_headers; try assumption; try lia. cbn [List.length]. lia.
Qed.
End RoundTrip.
