(* ===== verification/IndexLimit.v ===== *)
(** * Truncation of index terms

    A term is always built and fits the size limit of its index, for values made
    of the types that can be truncated; truncated strings keep their order.  Two
    examples show terms for which this fails. *)

From Stdlib Require Import ZArith Lia Bool String List.
From Stdlib Require Import Strings.Byte.
From S2P Require Import Prelude SoftFloat BsonTypes StringView Decimal128 BsonCompare BsonOrder RefBid BsonRefine.
From S2P Require Import Traversal PgbsonElement BsonWire BsonWriter IndexTerm IndexOrder.
Import ListNotations.
Local Open Scope Z_scope.

(** ** The size limit *)

Lemma doc_size_snoc d k v : doc_size (d ++ [(k, v)]) = doc_size d + (2 + blen k + value_size v).
Proof. unfold doc_size. rewrite elements_size_app. cbn [elements_size]. unfold element_size. cbn [fst snd]. lia. Qed.

Lemma blen_cut s n : 0 <= n <= blen s -> blen (cut s n) = n.
Proof. intros H. unfold cut, blen in *. rewrite length_firstn. lia. Qed.

Lemma blen_until_nul s : blen (until_nul s) <= blen s.
Proof.
  unfold blen. induction s as [|b s IH]; cbn [until_nul]; [lia|]. destruct (_ =? 0); cbn [List.length] in *; lia.
Qed.

Lemma array_key_short n : 0 <= n < 100 -> blen (bson_uint32_to_string n) <= 2.
Proof.
  intros H. unfold bson_uint32_to_string. cbn [decimal_digits].
  destruct (Z.eqb_spec (n / 10) 0) as [E|E]; [cbn; lia|].
  replace (n / 10 / 10 =? 0) with true; [cbn; lia|].
  symmetry. apply Z.eqb_eq. rewrite Z.div_div by lia. apply Z.div_small. lia.
Qed.

Section Limit.
Context {BL : BidLib}.

(** Values whose parts can all be cut or are small.  Arrays have at most a hundred
    elements: four bytes are kept for the key of an element and its type. *)
Fixpoint truncatable (v : bson_value) : Prop :=
  match v with
  | VDocument d => fields_all (fun _ v => truncatable v) d
  | VArray d => (List.length d <= 100)%nat /\ fields_all (fun _ v => truncatable v) d
  | VBinary t _ => t <> BSON_SUBTYPE_BINARY_DEPRECATED
  | VOid o => List.length o = 12%nat
  | VRegex _ _ | VDbPointer _ _ | VCodeWScope _ _ | VEod => False
  | VDecimal128 _ | VDouble _ | VInt32 _ | VInt64 _ => exists w, common_number v = Ok w
  | _ => True
  end.

Lemma common_number_size v w : common_number v = Ok w -> value_size w <= 16.
Proof.
  unfold common_number. destruct (IsBsonValue32BitInteger v true) as [[]|]; cbn [res_bind]; try discriminate.
  { destruct (BsonValueAsInt32 v); cbn; try discriminate. intros E. injection E as <-. cbn. lia. }
  destruct (IsBsonValue64BitInteger v true) as [[]|]; cbn [res_bind]; try discriminate.
  { destruct (BsonValueAsInt64 v); cbn; try discriminate. intros E. injection E as <-. cbn. lia. }
  destruct (GetBsonValueAsDecimal128 v) as [d|]; cbn [res_bind]; try discriminate.
  destruct (IsDecimal128InDoubleRange (VDecimal128 d)) as [[]|]; cbn [res_bind]; try discriminate.
  - destruct (BsonValueAsDouble (VDecimal128 d)); cbn; try discriminate. intros E. injection E as <-. cbn. lia.
  - intros E. injection E as <-. cbn. lia.
Qed.

(** An entry that fits the budget it is given. *)
Definition fits (entry : bson_value -> Z -> Z -> res (bson_value * bool * bool)) (v : bson_value) : Prop :=
  forall budget current, 0 <= current -> current + 16 <= budget ->
  exists w t f, entry v budget current = Ok (w, t, f) /\ current + value_size w <= budget.

Lemma TruncateDocumentTerm_fits entry d : Forall (fun kv => fits entry (snd kv)) d ->
  forall existing soft hard writer force, 0 <= existing -> soft + 15 <= hard ->
  existing + doc_size writer <= hard ->
  exists t w, TruncateDocumentTerm entry existing soft hard d writer force = Ok (t, w) /\ existing + doc_size w <= hard.
Proof.
  induction 1 as [|[k v] d Hv _ IH]; intros existing soft hard writer force He Hs Hw; cbn [TruncateDocumentTerm snd] in *.
  - destruct (_ >? soft); eauto.
  - rewrite Z.gtb_ltb. destruct (Z.ltb_spec soft (doc_size writer + existing)) as [H1|H1]; [eauto|].
    pose proof (blen_nonneg k). assert (0 <= doc_size writer) by (unfold doc_size; pose proof (elements_size_nonneg writer); lia).
    destruct (Z.ltb_spec (doc_size writer + existing + blen k + 2) soft) as [H2|H2].
    + destruct (Hv (hard - existing - blen k - 2) (doc_size writer)) as (w & t & f & -> & Hz); [lia..|]. cbn [res_bind].
      assert (existing + doc_size (writer ++ [(k, w)]) <= hard) by (rewrite doc_size_snoc; lia).
      destruct t; [eauto|]. now apply IH.
    + destruct (Z.ltb_spec (doc_size writer + existing + blen k + 2) hard) as [H3|H3];
        do 2 eexists; (split; [reflexivity|]); rewrite doc_size_snoc; cbn [value_size]; [lia|].
      rewrite blen_cut by lia. lia.
Qed.

Lemma TruncateArrayTerm_fits entry d : Forall (fun kv => fits entry (snd kv)) d ->
  forall existing soft hard writer force, 0 <= existing -> soft + 21 <= hard ->
  (List.length writer + List.length d <= 100)%nat -> existing + doc_size writer <= hard ->
  exists t w, TruncateArrayTerm entry existing soft hard d writer force = Ok (t, w) /\ existing + doc_size w <= hard.
Proof.
  induction 1 as [|[k v] d Hv _ IH]; intros existing soft hard writer force He Hs Hl Hw; cbn [TruncateArrayTerm snd] in *.
  - destruct (_ >? soft); eauto.
  - rewrite Z.gtb_ltb. destruct (Z.ltb_spec soft (doc_size writer + existing)) as [H1|H1]; [eauto|].
    assert (0 <= doc_size writer) by (unfold doc_size; pose proof (elements_size_nonneg writer); lia).
    destruct (Hv (hard - existing - 4) (doc_size writer)) as (w & t & f & -> & Hz); [lia..|]. cbn [res_bind].
    cbn [List.length] in Hl.
    pose proof (array_key_short (Z.of_nat (List.length writer))) as K.
    set (key := bson_uint32_to_string (Z.of_nat (List.length writer))) in *.
    assert (existing + doc_size (writer ++ [(key, w)]) <= hard) by (rewrite doc_size_snoc; lia).
    destruct t; [eauto|]. apply IH; try assumption. rewrite length_app. cbn [List.length]. lia.
Qed.

(** A string cut to what is left. *)
Lemma TruncateStringOrBinaryTerm_fits size limit n : 0 <= n -> size + 5 < limit ->
  exists len t, TruncateStringOrBinaryTerm size limit n = Ok (len, t) /\ 0 <= len <= n /\ size + 5 + len <= limit.
Proof.
  intros Hn Hl. unfold TruncateStringOrBinaryTerm. rewrite Z.gtb_ltb, Z.geb_leb.
  destruct (Z.ltb_spec limit (size + 4 + n + 1)); [|do 2 eexists; repeat split; lia].
  destruct (Z.leb_spec n (size + 4 + n + 1 - limit)); [lia|]. do 2 eexists. repeat split; lia.
Qed.

Lemma fields_all_Forall (P : bson_value -> Prop) d : fields_all (fun _ v => P v) d -> Forall (fun kv => P (snd kv)) d.
Proof. induction d as [|[k v] d IH]; cbn; intros H; constructor; [apply H|]. apply IH. apply H. Qed.

Lemma entries_fit (entry : bson_value -> Z -> Z -> res (bson_value * bool * bool)) d :
  Forall (fun kv => truncatable (snd kv) -> fits entry (snd kv)) d ->
  fields_all (fun _ v => truncatable v) d -> Forall (fun kv => fits entry (snd kv)) d.
Proof.
  intros H T. apply fields_all_Forall in T. rewrite Forall_forall in *. intros kv I. apply (H kv I). now apply T.
Qed.

Lemma TruncateNestedEntry_fits v : truncatable v -> fits (TruncateNestedEntry true) v.
Proof.
  induction v using bson_value_nested_ind; cbn [truncatable]; intros T budget current Hc Hb; cbn [TruncateNestedEntry negb];
    try contradiction;
    try (do 3 eexists; split; [reflexivity|]; cbn [value_size]; try (unfold blen; rewrite T; cbn); lia).
  all: try (match type of T with ex _ => idtac end; destruct T as [w E]; rewrite E; cbn [res_bind]; apply common_number_size in E; do 3 eexists;
            split; [reflexivity|]; lia).
  all: try match goal with |- context [TruncateStringOrBinaryTerm _ _ (blen ?s)] =>
    pose proof (blen_nonneg s);
    destruct (TruncateStringOrBinaryTerm_fits 1 (budget - current) (blen s)) as (len & t' & -> & Hl & Hs); [lia..|];
    cbn [res_bind]; do 3 eexists; (split; [reflexivity|]); cbn [appended value_size];
    try (rewrite blen_cut by lia; try rewrite (proj2 (Z.eqb_neq _ _) T); lia)
    end.
  - destruct (TruncateDocumentTerm_fits (TruncateNestedEntry true) d (entries_fit _ _ H T) current
      (budget - fixedDocumentTermLimit) budget [] false) as (t & w & -> & Hz);
      [exact Hc|unfold fixedDocumentTermLimit; lia|cbn; lia|].
    cbn [res_bind]. do 3 eexists. split; [reflexivity|]. exact Hz.
  - destruct (TruncateArrayTerm_fits (TruncateNestedEntry true) d (entries_fit _ _ H (proj2 T)) current
      (budget - fixedArrayTermSize) budget [] false) as (t & w & -> & Hz);
      [exact Hc|unfold fixedArrayTermSize; lia|exact (proj1 T)|cbn; lia|].
    cbn [res_bind]. do 3 eexists. split; [reflexivity|]. exact Hz.
  - pose proof (blen_until_nul (cut c len)) as U. rewrite blen_cut in U by lia. lia.
Qed.

Lemma SerializeTermToWriter_fits path v create q :
  index_path create path = Ok q -> truncatable v -> blen q + 28 <= indexTermSizeLimit create ->
  exists t w, SerializeTermToWriter true (path, v) create = Ok (t, [(q, w)]) /\
    doc_size [(q, w)] <= indexTermSizeLimit create.
Proof.
  intros Hq T Hl. pose proof (blen_nonneg q). unfold SerializeTermToWriter. rewrite Hq. cbn [res_bind].
  set (limit := indexTermSizeLimit create) in *.
  destruct (Z.leb_spec limit 0); [lia|]. rewrite Z.geb_leb. destruct (Z.leb_spec limit (5 + blen q + 2)); [lia|].
  assert (E : forall d, Forall (fun kv : bytes * bson_value => truncatable (snd kv) -> fits (TruncateNestedEntry true) (snd kv)) d)
    by (intros d; apply Forall_forall; intros kv _; apply TruncateNestedEntry_fits).
  destruct v; cbn [truncatable] in T; try contradiction;
    try (do 2 eexists; split; [reflexivity|]; rewrite doc_size_single; cbn [value_size]; try (unfold blen at 2; rewrite T); lia).
  all: try match goal with |- context [TruncateStringOrBinaryTerm _ _ (blen ?s)] =>
    pose proof (blen_nonneg s);
    destruct (TruncateStringOrBinaryTerm_fits (5 + blen q + 2) limit (blen s)) as (len & t' & -> & Hn & Hs); [lia..|];
    cbn [res_bind]; do 2 eexists; (split; [reflexivity|]); rewrite doc_size_single; cbn [appended value_size];
    try (rewrite blen_cut by lia; try rewrite (proj2 (Z.eqb_neq _ _) T); lia)
    end.
  - destruct (TruncateDocumentTerm_fits (TruncateNestedEntry true) d (entries_fit _ _ (E d) T) (5 + blen q + 2)
      (limit - fixedDocumentTermLimit) (limit - 2) [] false) as (t & w & -> & Hz);
      [lia|unfold fixedDocumentTermLimit; lia|change (doc_size []) with 5; lia|].
    cbn [res_bind]. do 2 eexists. split; [reflexivity|]. rewrite doc_size_single. cbn [value_size]. unfold doc_size in Hz. lia.
  - destruct (TruncateArrayTerm_fits (TruncateNestedEntry true) d (entries_fit _ _ (E d) (proj2 T)) (5 + blen q + 2)
      (limit - fixedArrayTermSize) limit [] false) as (t & w & -> & Hz);
      [lia|unfold fixedArrayTermSize; lia|exact (proj1 T)|change (doc_size []) with 5; lia|].
    cbn [res_bind]. do 2 eexists. split; [reflexivity|]. rewrite doc_size_single. cbn [value_size]. unfold doc_size in Hz. lia.
  - pose proof (blen_until_nul (cut code len)) as U. rewrite blen_cut in U by lia. lia.
Qed.

(** C21: With the truncation of nested objects enabled and a limit of at least 28 bytes
    more than the path as it is written, the term of a truncatable value is built without an
    error and is, with its metadata byte, at most one byte longer than the limit, whatever
    the length of its strings, binaries and documents. Truncatable are the values without
    regular expressions, database pointers, code with scope and binaries of the deprecated
    subtype, whose arrays have at most 100 elements and whose numbers can be converted. *)
Theorem SerializeBsonIndexTerm_within_limit (path : bytes) (v : bson_value) (create : IndexTermCreateMetadata) (q : bytes) :
  index_path create path = Ok q -> truncatable v -> blen q + 28 <= indexTermSizeLimit create ->
  exists s, SerializeBsonIndexTerm true (path, v) create = Ok s /\
    blen (indexTermVal s) <= indexTermSizeLimit create + 1.
Proof.
  intros Hq T Hl. destruct (SerializeTermToWriter_fits path v create q Hq T Hl) as (t & w & E & Hz).
  unfold SerializeBsonIndexTerm, SerializeBsonIndexTermCore, BuildSerializedIndexTerm. rewrite E. cbn [res_bind].
  rewrite (Z.gtb_ltb (doc_size _)). destruct (Z.ltb_spec (indexTermSizeLimit create) (doc_size [(q, w)])); [lia|].
  rewrite andb_false_r. cbn [res_bind]. eexists. split; [reflexivity|]. cbn [indexTermVal].
  rewrite blen_cons, blen_encode_document. lia.
Qed.
End Limit.

(** ** The order of truncated strings *)

Lemma cmp_bytes_firstn n : forall a b, cmp_bytes (firstn n a) (firstn n b) <> 0 ->
  cmp_bytes a b = cmp_bytes (firstn n a) (firstn n b).
Proof.
  induction n as [|n IH]; intros [|x a] [|y b] H; cbn [firstn cmp_bytes] in *; try reflexivity; try easy.
  unfold lexz in *. destruct (cmpz (byte_z x) (byte_z y) =? 0); [now apply IH|reflexivity].
Qed.

Lemma cmp_bytes_prefix a b : a <> [] -> cmp_bytes b (b ++ a) < 0.
Proof.
  intros Ha. induction b as [|x b IH]; [destruct a; [easy|cbn; lia]|]. cbn [app cmp_bytes]. unfold lexz.
  rewrite (proj2 (cmpz_0 _ _) eq_refl). exact IH.
Qed.

(** Strings cut to [n] bytes, the cut ones after the equal ones that are not. *)
Definition cut_order (n : nat) (a b : bytes) : Z :=
  lexz (cmp_bytes (firstn n a) (firstn n b))
       (b2z (n <? List.length a)%nat - b2z (n <? List.length b)%nat).

Lemma cut_order_sound n a b :
  (cmp_bytes a b <= 0 -> cut_order n a b <= 0) /\ (cmp_bytes a b >= 0 -> cut_order n a b >= 0) /\
  (cut_order n a b = 0 -> a = b \/ (n < List.length a)%nat /\ (n < List.length b)%nat).
Proof.
  unfold cut_order, lexz. pose proof (cmp_bytes_firstn n a b) as F.
  destruct (Z.eqb_spec (cmp_bytes (firstn n a) (firstn n b)) 0) as [E|E]; [|specialize (F E); lia]. clear F.
  apply (proj1 (cmp_bytes_0 _ _)) in E.
  destruct (Nat.ltb_spec n (List.length a)) as [La|La], (Nat.ltb_spec n (List.length b)) as [Lb|Lb]; cbn [b2z].
  - repeat split; try lia.
  - rewrite (firstn_all2 b) in E by exact Lb. rewrite <- (firstn_skipn n a) at 1. rewrite E.
    pose proof (cmp_bytes_prefix (skipn n a) b) as P.
    assert (N : skipn n a <> []) by (intros X; apply (f_equal (@List.length byte)) in X; rewrite length_skipn in X; cbn in X; lia).
    specialize (P N). pose proof (anti2_cmp_bytes b (b ++ skipn n a)) as A. unfold anti2 in A. lia.
  - rewrite (firstn_all2 a) in E by exact La. rewrite <- (firstn_skipn n b) at 2. rewrite <- E.
    pose proof (cmp_bytes_prefix (skipn n b) a) as P.
    assert (N : skipn n b <> []) by (intros X; apply (f_equal (@List.length byte)) in X; rewrite length_skipn in X; cbn in X; lia).
    specialize (P N). lia.
  - rewrite !firstn_all2 in E by assumption. subst b. repeat split; try lia. now left.
Qed.

Section Strings.
Context {BL : BidLib} {Laws : BidLaws BL} {LB : LibBson} {LBLaws : LibBsonLaws LB} {Wire : BsonWireLaws LB}.
Variables EnableIndexTermTruncationOnNestedObjects IndexTermUseUnsafeTransform : bool.
Variable create : IndexTermCreateMetadata.
Variables path q : bytes.
Hypothesis path_written : index_path create path = Ok q.
Hypothesis path_ok : cstr_ok q.
Hypothesis limit_ok : blen q + 12 < indexTermSizeLimit create <= INT32_MAX.

(** The number of bytes of a string that fit. *)
Definition room : nat := Z.to_nat (indexTermSizeLimit create - blen q - 12).

Definition string_term (s : bytes) : BsonIndexTerm :=
  {| isIndexTermTruncated := (room <? List.length s)%nat; isIndexTermMetadata := false; isValueUndefined := false;
     isValueMaybeUndefined := false; element := (q, VUtf8 (firstn room s)) |}.

Lemma string_term_written s :
  SerializeTermToWriter EnableIndexTermTruncationOnNestedObjects (path, VUtf8 s) create =
  Ok ((room <? List.length s)%nat, [(q, VUtf8 (firstn room s))]).
Proof.
  pose proof (blen_nonneg q). unfold SerializeTermToWriter. rewrite path_written. cbn [res_bind].
  destruct (Z.leb_spec (indexTermSizeLimit create) 0); [lia|]. rewrite Z.geb_leb.
  destruct (Z.leb_spec (indexTermSizeLimit create) (5 + blen q + 2)); [lia|].
  unfold TruncateStringOrBinaryTerm, room. rewrite Z.gtb_ltb, Z.geb_leb. unfold blen, cut in *.
  destruct (Z.ltb_spec (indexTermSizeLimit create) (5 + Z.of_nat (List.length q) + 2 + 4 + Z.of_nat (List.length s) + 1)).
  - destruct (Z.leb_spec (Z.of_nat (List.length s))
      (5 + Z.of_nat (List.length q) + 2 + 4 + Z.of_nat (List.length s) + 1 - indexTermSizeLimit create)); [lia|].
    cbn [res_bind appended].
    match goal with |- context [firstn (Z.to_nat (?n - ?e)) s] =>
      replace (n - e) with (indexTermSizeLimit create - Z.of_nat (List.length q) - 12) by lia end.
    now replace (_ <? _)%nat with true by (symmetry; apply Nat.ltb_lt; lia).
  - cbn [res_bind appended]. rewrite !firstn_all2 by lia.
    now replace (_ <? _)%nat with false by (symmetry; apply Nat.ltb_ge; lia).
Qed.

Lemma string_term_wire s : wire_ok [(q, VUtf8 (firstn room s))] /\
  doc_size [(q, VUtf8 (firstn room s))] <= indexTermSizeLimit create.
Proof.
  pose proof (blen_nonneg q).
  assert (L : blen (firstn room s) <= indexTermSizeLimit create - blen q - 12)
    by (unfold blen, room in *; rewrite length_firstn; unfold blen; lia).
  assert (D : doc_size [(q, VUtf8 (firstn room s))] <= indexTermSizeLimit create)
    by (rewrite doc_size_single; cbn [value_size]; lia).
  split; [|exact D]. repeat split; try apply path_ok; try lia.
  cbn [value_ok]. unfold len_ok. zbounds. lia.
Qed.

Lemma lexz_0_l y : lexz 0 y = y.
Proof. reflexivity. Qed.
Lemma lexz_0_r x : lexz x 0 = x.
Proof. unfold lexz. now destruct (Z.eqb_spec x 0). Qed.

Lemma string_term_order a b : term_order (string_term a) (string_term b) = cut_order room a b.
Proof.
  unfold term_order, string_term, cut_order.
  cbn [isIndexTermMetadata element fst snd isValueUndefined isValueMaybeUndefined isIndexTermTruncated].
  change (value_order None (VUtf8 (firstn room a)) (VUtf8 (firstn room b))) with (cmp_bytes (firstn room a) (firstn room b)).
  rewrite cmp_bytes_refl. change (b2z false - b2z false) with 0. now rewrite !lexz_0_l.
Qed.

(** C20: Truncating strings to the limit of the index keeps their order: the comparator
    of the index never orders two terms against the order of the strings, and only
    terms that are both marked as truncated can be equal without the strings being
    equal. *)
Theorem gin_bson_compare_strings (a b : bytes) :
  exists sa sb c,
    SerializeBsonIndexTerm EnableIndexTermTruncationOnNestedObjects (path, VUtf8 a) create = Ok sa /\
    SerializeBsonIndexTerm EnableIndexTermTruncationOnNestedObjects (path, VUtf8 b) create = Ok sb /\
    gin_bson_compare IndexTermUseUnsafeTransform (indexTermVal sa) (indexTermVal sb) = Ok c /\
    (cmp_bytes a b <= 0 -> c <= 0) /\ (cmp_bytes a b >= 0 -> c >= 0) /\
    (c = 0 -> a = b \/ serialized_truncated sa = true /\ serialized_truncated sb = true).
Proof.
  assert (S : forall s, exists x, SerializeBsonIndexTerm EnableIndexTermTruncationOnNestedObjects (path, VUtf8 s) create = Ok x /\
    serialized_truncated x = (room <? List.length s)%nat /\
    holds IndexTermUseUnsafeTransform (indexTermVal x) false [string_term s]).
  { intros s. destruct (string_term_wire s) as [W D].
    destruct (serialize_roundtrip EnableIndexTermTruncationOnNestedObjects IndexTermUseUnsafeTransform (path, VUtf8 s) create
      _ _ _ (string_term_written s) W (fun _ => D) (fun _ => eq_refl)) as (x & E & T & _ & C & I).
    exists x. split; [exact E|]. split; [exact T|]. split; [exact C|]. split.
    - constructor; [|constructor]. destruct W as ([[Hk Hv] _] & _). now split.
    - exists (string_term s). now split. }
  destruct (S a) as (sa & Ea & Ta & Ha), (S b) as (sb & Eb & Tb & Hb).
  destruct (gin_bson_compare_order IndexTermUseUnsafeTransform _ _ _ _ _ _ Ha Hb) as (c & Ec & Sc).
  exists sa, sb, c. repeat (split; [assumption|]). rewrite Ta, Tb.
  assert (O : same_sign c (cut_order room a b)).
  { eapply same_sign_trans; [exact Sc|]. cbn [b2z terms_order]. change (0 - 0) with 0.
    rewrite lexz_0_l, lexz_0_r, string_term_order. apply same_sign_refl. }
  destruct (cut_order_sound room a b) as (M1 & M2 & M3). unfold same_sign in O. split; [lia|]. split; [lia|].
  intros Hc. destruct M3 as [->|[L1 L2]]; [lia|now left|right]. split; now apply Nat.ltb_lt.
Qed.
End Strings.

(** ** Concrete terms *)

Section Witnesses.
#[local] Existing Instance RefBidLib.
#[local] Existing Instance RefBidLaws.
#[local] Existing Instance WireLibBson.
#[local] Existing Instance WireLibBsonLaws.
#[local] Existing Instance WireLibBsonWire.

(** An index on the path "a" with a limit of 40 bytes. *)
Definition limit_40 : IndexTermCreateMetadata :=
  {| indexTermSizeLimit := 40; wildcardIndexTruncatedPathLimit := 0; pathPrefix := str "a";
     isWildcard := false; isWildcardProjection := false |}.
Definition limit_1000 : IndexTermCreateMetadata :=
  {| indexTermSizeLimit := 1000; wildcardIndexTruncatedPathLimit := 0; pathPrefix := str "a";
     isWildcard := false; isWildcardProjection := false |}.

Definition long_string : bytes := str "0123456789012345678901234567890123456789".

(** [ 1.5, { "b" : long_string }, long_string ] *)
Definition nested_array : bson_value :=
  VArray [(str "0", VDouble 4609434218613702656); (str "1", VDocument [(str "b", VUtf8 long_string)]);
          (str "2", VUtf8 long_string)].

Lemma SerializeBsonIndexTerm_within_limit_witness :
  exists s, SerializeBsonIndexTerm true (str "a", nested_array) limit_40 = Ok s /\ blen (indexTermVal s) <= 41.
Proof.
  refine (SerializeBsonIndexTerm_within_limit (str "a") nested_array limit_40 dollar eq_refl _ _); [|vm_compute; discriminate].
  cbn [truncatable nested_array fields_all List.length]. repeat split; try lia. eexists. vm_compute. reflexivity.
Defined.

Lemma gin_bson_compare_strings_witness :
  exists sa sb c,
    SerializeBsonIndexTerm true (str "a", VUtf8 (long_string ++ str "x")) limit_40 = Ok sa /\
    SerializeBsonIndexTerm true (str "a", VUtf8 long_string) limit_40 = Ok sb /\
    gin_bson_compare true (indexTermVal sa) (indexTermVal sb) = Ok c /\
    (cmp_bytes (long_string ++ str "x") long_string <= 0 -> c <= 0) /\
    (cmp_bytes (long_string ++ str "x") long_string >= 0 -> c >= 0) /\
    (c = 0 -> long_string ++ str "x" = long_string \/ serialized_truncated sa = true /\ serialized_truncated sb = true).
Proof.
  apply (gin_bson_compare_strings true true limit_40 (str "a") dollar eq_refl).
  - split; [vm_compute; reflexivity|now apply no_nulb_ok].
  - vm_compute. split; congruence.
Defined.

Lemma SerializeBsonIndexTerm_roundtrip_witness :
  exists s, SerializeBsonIndexTerm true (str "a", VInt32 7) limit_40 = Ok s /\
    InitializeBsonIndexTerm true (indexTermVal s) =
    Ok {| isIndexTermTruncated := false; isIndexTermMetadata := false; isValueUndefined := false;
          isValueMaybeUndefined := false; element := (dollar, VInt32 7) |}.
Proof.
  destruct (SerializeBsonIndexTerm_roundtrip true true (str "a", VInt32 7) limit_40 false dollar (VInt32 7) eq_refl)
    as (s & E & _ & _ & _ & I); [|vm_compute; congruence|reflexivity|exists s; now split].
  repeat split; try (now apply no_nulb_ok); vm_compute; congruence.
Defined.

(** The terms for 7 and for "x". *)
Definition term_7 : bytes := byte_of_z 0 :: encode_document [(dollar, VInt32 7)].
Definition term_x : bytes := byte_of_z 1 :: encode_document [(dollar, VUtf8 (str "x"))].
Definition composite_7_x : bytes := indexTermVal (SerializeCompositeBsonIndexTerm [term_7; term_x]).

Definition read_7 : BsonIndexTerm :=
  {| isIndexTermTruncated := false; isIndexTermMetadata := false; isValueUndefined := false;
     isValueMaybeUndefined := false; element := (dollar, VInt32 7) |}.
Definition read_x : BsonIndexTerm :=
  {| isIndexTermTruncated := true; isIndexTermMetadata := false; isValueUndefined := false;
     isValueMaybeUndefined := false; element := (dollar, VUtf8 (str "x")) |}.

Lemma SerializeCompositeBsonIndexTerm_roundtrip_witness :
  InitializeCompositeIndexTerm true composite_7_x = Ok [read_7; read_x].
Proof.
  refine (SerializeCompositeBsonIndexTerm_roundtrip true [term_7; term_x] [read_7; read_x] _ _ _ _);
    [cbn; lia|vm_compute; congruence| |].
  - repeat constructor.
  - repeat constructor.
Defined.

Lemma read_ok : term_ok read_7 /\ term_ok read_x.
Proof. repeat split; try (now apply no_nulb_ok); vm_compute; congruence. Qed.

Lemma gin_bson_compare_preorder_witness :
  exists ab ba bc ac, gin_bson_compare true term_7 composite_7_x = Ok ab /\ gin_bson_compare true composite_7_x term_7 = Ok ba /\
    gin_bson_compare true composite_7_x term_x = Ok bc /\ gin_bson_compare true term_7 term_x = Ok ac /\
    anti2 ab ba /\ trans3 ab bc ac /\ (ab = 0 <-> false = true /\ terms_order [read_7] [read_7; read_x] = 0).
Proof.
  destruct read_ok as [O7 Ox].
  refine (gin_bson_compare_preorder true term_7 composite_7_x term_x false true false [read_7] [read_7; read_x] [read_x] _ _ _).
  - split; [reflexivity|]. split; [constructor; [exact O7|constructor]|]. exists read_7. now split.
  - split; [reflexivity|]. split; [constructor; [exact O7|constructor; [exact Ox|constructor]]|].
    eapply sequence_cons; [vm_compute; reflexivity|vm_compute; reflexivity|].
    eapply sequence_cons; [vm_compute; reflexivity|vm_compute; reflexivity|]. constructor.
  - split; [reflexivity|]. split; [constructor; [exact Ox|constructor]|]. exists read_x. now split.
Defined.

(** Binary values are compared by their length first, which truncation loses: of
    two values beyond the limit the shorter one can come after the longer one. *)
Example truncated_binaries_reordered :
  let a := VBinary 0 (repeat xff 40) in
  let b := VBinary 0 (repeat x00 41) in
  match SerializeBsonIndexTerm true (str "a", a) limit_40, SerializeBsonIndexTerm true (str "a", b) limit_40 with
  | Ok sa, Ok sb =>
    CompareBsonValueAndType a b = Ok (-1, true) /\ gin_bson_compare true (indexTermVal sa) (indexTermVal sb) = Ok 1
  | _, _ => False
  end.
Proof. vm_compute. split; reflexivity. Qed.

(** The default parser exchanges the halves of a timestamp, so that the index
    orders timestamps by their increment. *)
Example timestamps_reordered :
  let a := VTimestamp 1 9 in
  let b := VTimestamp 2 1 in
  match SerializeBsonIndexTerm true (str "a", a) limit_40, SerializeBsonIndexTerm true (str "a", b) limit_40 with
  | Ok sa, Ok sb =>
    CompareBsonValueAndType a b = Ok (-1, true) /\
    gin_bson_compare true (indexTermVal sa) (indexTermVal sb) = Ok 1 /\
    gin_bson_compare false (indexTermVal sa) (indexTermVal sb) = Ok (-1)
  | _, _ => False
  end.
Proof. vm_compute. repeat split; reflexivity. Qed.

(** The four bytes kept for an array element are too few for the key "100" with
    its terminator and type: a nested document with a long key exceeds the limit
    by one, and the term, with it the insertion of the document, fails. *)
Example array_key_100 :
  let items := map (fun n => (bson_uint32_to_string (Z.of_nat n), VNull)) (seq 0 100) ++
               [(str "100", VDocument [(repeat x61 1000, VInt32 1)])] in
  SerializeBsonIndexTerm true (str "a", VArray items) limit_1000 = Err ERRCODE_DOCUMENTDB_INTERNALERROR /\
  SerializeBsonIndexTerm true (str "a", VArray (firstn 100 items)) limit_1000 <> Err ERRCODE_DOCUMENTDB_INTERNALERROR.
Proof. split; [vm_compute; reflexivity|]. vm_compute. discriminate. Qed.

(** The deprecated binary subtype has a second length field, which the limit does
    not account for. *)
Example deprecated_binary_too_long :
  SerializeBsonIndexTerm true (str "a", VBinary 2 (repeat x00 100)) limit_40 = Err ERRCODE_DOCUMENTDB_INTERNALERROR.
Proof. vm_compute. reflexivity. Qed.
End Witnesses.
