(* ===== verification/DollarMatch.v ===== *)
(** * Match functions of the query operators ([bson_dollar_operators.c])

    What each operator asks of one value: the comparisons, [$size], [$type],
    [$mod] and the four bitwise operators.  [DollarOperators] applies them to the
    values a path leads to.  A filter array comes from the query planner, which
    checks its shape; a filter that misses the elements an operator reads is
    outside the model ([ERRCODE_INTERNAL_ERROR]). *)

From Stdlib Require Import ZArith Lia Bool String List SpecFloat Sorted.
From Stdlib Require Import Strings.Byte.
From S2P Require Import Prelude SoftFloat BsonTypes Decimal128 BsonCompare BsonOrder RefBid BsonRefine.
Import ListNotations.
Local Open Scope Z_scope.

Section Match.
Context {BL : BidLib} {LB : LibBson}.
Local Open Scope res_scope.

(** The elements an iterator over a document or array yields. *)
Definition BsonValueInitIterator (value : bson_value) : res fields :=
  match value with
  | VDocument d | VArray d => Ok d
  | _ => Err ERRCODE_INTERNAL_ERROR
  end.

(** ** Comparisons *)

Definition CompareLogicalOperatorWithCollation (document filter : bson_value) (collationString : option bytes)
  : res (Z * bool) :=
  let cmp := CompareBsonSortOrderType document filter in
  if cmp =? 0 then CompareBsonValueAndTypeWithCollation document filter collationString
  else Ok (0, false).

Definition CompareEqualMatch (filter : bson_value) (collationString : option bytes) (document : bson_value)
  : res bool :=
  if type_eqb (value_type filter) BSON_TYPE_NULL && type_eqb (value_type document) BSON_TYPE_UNDEFINED
  then Ok true
  else
    let* '(cmp, isPathValid) := CompareLogicalOperatorWithCollation document filter collationString in
    Ok (isPathValid && (cmp =? 0)).

Definition CompareLessMatch (filter : bson_value) (collationString : option bytes) (document : bson_value)
  : res bool :=
  if type_eqb (value_type filter) BSON_TYPE_MAXKEY
  then Ok (negb (type_eqb (value_type document) BSON_TYPE_MAXKEY))
  else
    let* '(cmp, isPathValid) := CompareLogicalOperatorWithCollation document filter collationString in
    Ok (isPathValid && (cmp <? 0)).

Definition CompareLessEqualMatch (filter : bson_value) (collationString : option bytes) (document : bson_value)
  : res bool :=
  if type_eqb (value_type filter) BSON_TYPE_MAXKEY then Ok true
  else
    let* '(cmp, isPathValid) := CompareLogicalOperatorWithCollation document filter collationString in
    Ok (isPathValid && (cmp <=? 0)).

Definition CompareGreaterMatch (filter : bson_value) (collationString : option bytes) (document : bson_value)
  : res bool :=
  if type_eqb (value_type filter) BSON_TYPE_MINKEY
  then Ok (negb (type_eqb (value_type document) BSON_TYPE_MINKEY))
  else
    let* '(cmp, isPathValid) := CompareLogicalOperatorWithCollation document filter collationString in
    Ok (isPathValid && (cmp >? 0)).

Definition CompareGreaterEqualMatch (filter : bson_value) (collationString : option bytes) (document : bson_value)
  : res bool :=
  if type_eqb (value_type filter) BSON_TYPE_MINKEY then Ok true
  else
    let* '(cmp, isPathValid) := CompareLogicalOperatorWithCollation document filter collationString in
    Ok (isPathValid && (cmp >=? 0)).

Definition CompareExistsMatch (filter : bson_value) (collationString : option bytes) (document : bson_value)
  : res bool := Ok true.

(** ** [$size] *)

(** The counting loop, which stops one past the size asked for. *)
Fixpoint count_up_to (arraySize : Z) (arrayIterator : fields) (actualArraySize : Z) : Z :=
  match arrayIterator with
  | [] => actualArraySize
  | _ :: arrayIterator' =>
    if actualArraySize <=? arraySize then count_up_to arraySize arrayIterator' (actualArraySize + 1)
    else actualArraySize
  end.

Definition CompareArraySizeMatch (filter : bson_value) (collationString : option bytes) (document : bson_value)
  : res bool :=
  match document with
  | VArray items =>
    let* arraySize := BsonValueAsInt64 filter in
    Ok (arraySize =? count_up_to arraySize items 0)
  | _ => Ok false
  end.

(** ** [$type] *)

(** What an uninitialized [bson_type_t] holds when [TryGetTypeFromInt64] fails. *)
Variable uninitialized_type : Z.

Definition type_matches_code (filter document : bson_value) : res bool :=
  let* numericValue := BsonValueAsInt64 filter in
  let typeToMatch := match TryGetTypeFromInt64 numericValue with Some t => t | None => uninitialized_type end in
  Ok (typeToMatch =? type_code (value_type document)).

Fixpoint any_type_matches (typeName : bytes) (arrayIterator : fields) (document : bson_value) : res bool :=
  match arrayIterator with
  | [] => Ok false
  | (_, arrayValue) :: arrayIterator' =>
    if BsonValueIsNumberOrBool arrayValue then
      let* m := type_matches_code arrayValue document in
      if m then Ok true else any_type_matches typeName arrayIterator' document
    else
      match arrayValue with
      | VUtf8 arrayElement =>
        if strcmp arrayElement (str "number") =? 0 then
          if BsonTypeIsNumber (value_type document) then Ok true
          else any_type_matches typeName arrayIterator' document
        else if strcmp typeName arrayElement =? 0 then Ok true
        else any_type_matches typeName arrayIterator' document
      | _ => any_type_matches typeName arrayIterator' document
      end
  end.

Definition CompareArrayTypeMatch (filter : bson_value) (collationString : option bytes) (document : bson_value)
  : res bool :=
  match filter with
  | VUtf8 s =>
    if strcmp s (str "number") =? 0 then Ok (BsonTypeIsNumber (value_type document))
    else let* typeName := BsonTypeName (value_type document) in Ok (strcmp typeName s =? 0)
  | _ =>
    if BsonValueIsNumberOrBool filter then type_matches_code filter document
    else
      match filter with
      | VArray items =>
        let* typeName := BsonTypeName (value_type document) in any_type_matches typeName items document
      | _ => Ok false
      end
  end.

(** ** [$mod] *)

Definition CompareModOperator (srcVal modArrVal : bson_value) : res bool :=
  let* modArrayIter := BsonValueInitIterator modArrVal in
  match modArrayIter with
  | (_, divisorBsonValue) :: (_, remainderBsonValue) :: _ =>
    let* divisor := BsonValueAsInt64 divisorBsonValue in
    let* rem := BsonValueAsInt64 remainderBsonValue in
    let* isInt := IsBsonValue64BitInteger srcVal false in
    if negb isInt then Ok false
    else
      let* dividend := BsonValueAsInt64 srcVal in
      if (dividend =? INT64_MIN) && (divisor =? -1) then Ok (rem =? 0)
      else if divisor =? 0 then Err ERRCODE_FLOATING_POINT_EXCEPTION
      else Ok (Z.rem dividend divisor =? rem)
  | _ => Err ERRCODE_INTERNAL_ERROR
  end.

Definition CompareModMatch (filter : bson_value) (collationString : option bytes) (document : bson_value)
  : res bool := CompareModOperator document filter.

(** ** Bitwise operators *)

(** The value of the bit at position [i] of a buffer, read byte by byte. *)
Definition bit_is_set (src : bytes) (i : nat) : bool :=
  let bitmask := Z.shiftl 1 (Z.land (Z.of_nat i) 7) in
  Z.land (byte_z (nth (Nat.div i 8) src x00)) bitmask =? bitmask.

(** The elements of the array that is written; their keys are not read. *)
Definition WriteSetBitPositionArray (src : bytes) (srcLength : Z) : fields :=
  let lengthInBits := wrap_s 32 (srcLength * 8) in
  map (fun i => ([], VInt32 (Z.of_nat i))) (filter (bit_is_set src) (seq 0 (Z.to_nat lengthInBits))).

(** The four merge loops.  The current elements are [s] and [f]; [srest] and
    [frest] are what the iterators still hold. *)
Fixpoint all_clear_loop (isSignExtended : bool) (s : bson_value) (srest : fields)
  : bson_value -> fields -> res bool :=
  fix inner (f : bson_value) (frest : fields) {struct frest} : res bool :=
    let* sourceArrayElement := BsonValueAsInt32 s in
    let* filterArrayElement := BsonValueAsInt32 f in
    if sourceArrayElement =? filterArrayElement then Ok false
    else if sourceArrayElement <? filterArrayElement then
      match srest with
      | [] => Ok (negb isSignExtended)
      | (_, s') :: srest' => all_clear_loop isSignExtended s' srest' f frest
      end
    else match frest with [] => Ok true | (_, f') :: frest' => inner f' frest' end.

Definition CompareArrayForBitsAllClear (sourceArrayIter filterArrayIter : fields) (isSignExtended : bool)
  : res bool :=
  match filterArrayIter, sourceArrayIter with
  | [], _ => Ok true
  | _, [] => Ok true
  | (_, f) :: frest, (_, s) :: srest => all_clear_loop isSignExtended s srest f frest
  end.

Fixpoint any_clear_loop (isSignExtended : bool) (s : bson_value) (srest : fields)
  (f : bson_value) (frest : fields) {struct srest} : res bool :=
  let* sourceArrayElement := BsonValueAsInt32 s in
  let* filterArrayElement := BsonValueAsInt32 f in
  if sourceArrayElement =? filterArrayElement then
    match frest with
    | [] => Ok false
    | (_, f') :: frest' =>
      match srest with
      | [] => Ok (negb isSignExtended)
      | (_, s') :: srest' => any_clear_loop isSignExtended s' srest' f' frest'
      end
    end
  else if sourceArrayElement <? filterArrayElement then
    match srest with
    | [] => Ok (negb isSignExtended)
    | (_, s') :: srest' => any_clear_loop isSignExtended s' srest' f frest
    end
  else Ok true.

Definition CompareArrayForBitsAnyClear (sourceArrayIter filterArrayIter : fields) (isSignExtended : bool)
  : res bool :=
  match filterArrayIter, sourceArrayIter with
  | [], _ => Ok false
  | _, [] => Ok true
  | (_, f) :: frest, (_, s) :: srest => any_clear_loop isSignExtended s srest f frest
  end.

Fixpoint all_set_loop (isSignExtended : bool) (s : bson_value) (srest : fields)
  (f : bson_value) (frest : fields) {struct srest} : res bool :=
  let* sourceArrayElement := BsonValueAsInt32 s in
  let* filterArrayElement := BsonValueAsInt32 f in
  if sourceArrayElement =? filterArrayElement then
    match frest with
    | [] => Ok true
    | (_, f') :: frest' =>
      match srest with
      | [] => Ok isSignExtended
      | (_, s') :: srest' => all_set_loop isSignExtended s' srest' f' frest'
      end
    end
  else if sourceArrayElement <? filterArrayElement then
    match srest with
    | [] => Ok isSignExtended
    | (_, s') :: srest' => all_set_loop isSignExtended s' srest' f frest
    end
  else Ok false.

Definition CompareArrayForBitsAllSet (sourceArrayIter filterArrayIter : fields) (isSignExtended : bool)
  : res bool :=
  match filterArrayIter, sourceArrayIter with
  | [], _ => Ok true
  | _, [] => Ok false
  | (_, f) :: frest, (_, s) :: srest => all_set_loop isSignExtended s srest f frest
  end.

Fixpoint any_set_loop (isSignExtended : bool) (s : bson_value) (srest : fields)
  : bson_value -> fields -> res bool :=
  fix inner (f : bson_value) (frest : fields) {struct frest} : res bool :=
    let* sourceArrayElement := BsonValueAsInt32 s in
    let* filterArrayElement := BsonValueAsInt32 f in
    if sourceArrayElement =? filterArrayElement then Ok true
    else if sourceArrayElement <? filterArrayElement then
      match srest with
      | [] => Ok isSignExtended
      | (_, s') :: srest' => any_set_loop isSignExtended s' srest' f frest
      end
    else match frest with [] => Ok false | (_, f') :: frest' => inner f' frest' end.

Definition CompareArrayForBitsAnySet (sourceArrayIter filterArrayIter : fields) (isSignExtended : bool)
  : res bool :=
  match filterArrayIter, sourceArrayIter with
  | [], _ => Ok false
  | _, [] => Ok false
  | (_, f) :: frest, (_, s) :: srest => any_set_loop isSignExtended s srest f frest
  end.

Definition CompareBitwiseOperator (documentValue filterArray : bson_value)
  (bitsCompareFunc : fields -> fields -> bool -> res bool) : res bool :=
  let compare_bytes (src : bytes) (isSignExtended : bool) :=
    let* filterArrayIter := BsonValueInitIterator filterArray in
    bitsCompareFunc (WriteSetBitPositionArray src (blen src)) filterArrayIter isSignExtended in
  let compare_int (intVal : Z) := compare_bytes (le_bytes 8 intVal) in
  match documentValue with
  | VInt64 _ | VInt32 _ =>
    let* sourceDocIntvalue := BsonValueAsInt64 documentValue in
    compare_int sourceDocIntvalue (sourceDocIntvalue <? 0)
  | VDecimal128 _ =>
    let* finite := IsDecimal128Finite documentValue in
    if finite then
      let* inRange := IsDecimal128InInt64Range documentValue in
      if negb inRange then Ok false
      else let* intVal := BsonValueAsInt64 documentValue in compare_int intVal (intVal <? 0)
    else compare_int 0 false
  | VDouble _ =>
    let* inRange := IsBsonValueUnquantized64BitInteger documentValue false in
    if negb inRange then Ok false
    else
      let* doubleVal := BsonValueAsDouble documentValue in
      let f := sf_of_bits doubleVal in
      if negb (SFeqb (sf_floor f) f) then Ok false
      else
        let* intVal := BsonValueAsInt64 documentValue in
        compare_int intVal (SFltb f (S754_zero false))
  | VBinary _ decodedData =>
    compare_bytes decodedData false
  | _ => Ok false
  end.

Definition CompareBitsAllClearMatch (filter : bson_value) (collationString : option bytes) (document : bson_value)
  : res bool := CompareBitwiseOperator document filter CompareArrayForBitsAllClear.
Definition CompareBitsAnyClearMatch (filter : bson_value) (collationString : option bytes) (document : bson_value)
  : res bool := CompareBitwiseOperator document filter CompareArrayForBitsAnyClear.
Definition CompareBitsAllSetMatch (filter : bson_value) (collationString : option bytes) (document : bson_value)
  : res bool := CompareBitwiseOperator document filter CompareArrayForBitsAllSet.
Definition CompareBitsAnySetMatch (filter : bson_value) (collationString : option bytes) (document : bson_value)
  : res bool := CompareBitwiseOperator document filter CompareArrayForBitsAnySet.

End Match.

(** ** The bitwise operators test bits *)

Section Bits.
Context {BL : BidLib} {LB : LibBson}.

(** The positions an array holds. *)
Definition positions (items : fields) (ps : list Z) : Prop :=
  Forall2 (fun kv p => BsonValueAsInt32 (snd kv) = Ok p) items ps.

(** [set] agrees above [b] with membership in the positions [l] that are left of
    the source; above the last of them all bits have the value [ext]. *)
Definition set_above (set : Z -> bool) (ext : bool) (b : Z) (l : list Z) : Prop :=
  forall p, b < p -> set p = existsb (Z.eqb p) l || (ext && forallb (fun q => q <? p) l).

Section Loops.
Variable set : Z -> bool.
Variable ext : bool.

Lemma set_above_tail b s l : set_above set ext b (s :: l) -> b < s -> set_above set ext s l.
Proof.
  intros H Hb p Hp. rewrite H by lia. cbn [existsb forallb].
  destruct (Z.eqb_spec p s); [lia|]. destruct (Z.ltb_spec s p); [reflexivity|lia].
Qed.

Lemma set_above_here b s l : set_above set ext b (s :: l) -> b < s -> set s = true.
Proof. intros H Hb. rewrite H by lia. cbn. now rewrite Z.eqb_refl. Qed.

Lemma set_above_below b s l p : set_above set ext b (s :: l) -> Forall (Z.lt s) l -> b < p -> p < s ->
  set p = false.
Proof.
  intros H Hs Hb Hp. rewrite H by lia. cbn [existsb forallb].
  destruct (Z.eqb_spec p s); [lia|]. destruct (Z.ltb_spec s p); [lia|]. rewrite andb_false_r, orb_false_r.
  apply not_true_is_false. intros E. apply existsb_exists in E as (q & I & E). apply Z.eqb_eq in E. subst q.
  rewrite Forall_forall in Hs. specialize (Hs p I). lia.
Qed.

(** Behind the last source position. *)
Lemma set_above_end b ps : set_above set ext b [] -> Forall (Z.lt b) ps ->
  ps <> [] -> forallb set ps = ext /\ existsb set ps = ext.
Proof.
  intros H F N. assert (E : forall p, In p ps -> set p = ext).
  { intros p I. rewrite Forall_forall in F. rewrite H by auto. cbn. apply andb_true_r. }
  clear F H. induction ps as [|p ps IH]; [easy|]. cbn [forallb existsb]. rewrite (E p (or_introl eq_refl)).
  destruct ps as [|q ps]; [cbn; now rewrite andb_true_r, orb_false_r|].
  destruct IH as [-> ->]; [easy|intros x I; apply E; now right|].
  now rewrite andb_diag, orb_diag.
Qed.

Lemma Forall_lt_trans b s l : Forall (Z.lt s) l -> b < s -> Forall (Z.lt b) l.
Proof. intros H Hb. eapply Forall_impl; [|exact H]. intros. cbn beta in *. lia. Qed.

Ltac items H := inversion H as [|? ? ? ? ? ?]; subst; cbn [snd] in *.

Lemma all_set_loop_spec srest : forall b s s0 ss f f0 frest ff,
  BsonValueAsInt32 s = Ok s0 -> positions srest ss -> BsonValueAsInt32 f = Ok f0 -> positions frest ff ->
  StronglySorted Z.lt (s0 :: ss) -> StronglySorted Z.lt (f0 :: ff) ->
  b < s0 -> b < f0 -> set_above set ext b (s0 :: ss) ->
  all_set_loop ext s srest f frest = Ok (forallb set (f0 :: ff)).
Proof.
  induction srest as [|[k s'] srest IH]; intros b s s0 ss f f0 frest ff Es Ps Ef Pf Ss Sf Hs Hf A;
    cbn [all_set_loop]; rewrite Es, Ef; cbn [res_bind]; items Ps;
    inversion Ss as [|? ? Ss' Fs]; inversion Sf as [|? ? Sf' Ff]; subst;
    pose proof (set_above_tail _ _ _ A Hs) as T;
    (destruct (Z.eqb_spec s0 f0) as [->|N];
     [|destruct (Z.ltb_spec s0 f0) as [L|L];
       [|cbn [forallb]; rewrite (set_above_below b s0 _ f0 A Fs) by lia; reflexivity]]).
  - cbn [forallb]. erewrite set_above_here by eassumption. cbn [andb].
    items Pf; [reflexivity|]. destruct x as [k f']. f_equal. symmetry. now apply (set_above_end f0).
  - f_equal. symmetry. apply (set_above_end s0); [exact T| |easy].
    constructor; [exact L|]. now apply (Forall_lt_trans _ f0).
  - cbn [forallb]. erewrite set_above_here by eassumption. cbn [andb].
    items Pf; [reflexivity|]. destruct x as [k' f']. cbn [snd] in *.
    inversion Ff; inversion Fs; subst. eapply (IH f0); eassumption.
  - inversion Fs; subst. eapply (IH s0); eassumption.
Qed.

(** One round of the loops that advance either iterator. *)
Lemma any_set_loop_round s srest f frest :
  any_set_loop ext s srest f frest =
  res_bind (BsonValueAsInt32 s) (fun se => res_bind (BsonValueAsInt32 f) (fun fe =>
    if se =? fe then Ok true
    else if se <? fe then
      match srest with [] => Ok ext | (_, s') :: srest' => any_set_loop ext s' srest' f frest end
    else match frest with [] => Ok false | (_, f') :: frest' => any_set_loop ext s srest f' frest' end)).
Proof. destruct srest, frest; reflexivity. Qed.

Lemma all_clear_loop_round s srest f frest :
  all_clear_loop ext s srest f frest =
  res_bind (BsonValueAsInt32 s) (fun se => res_bind (BsonValueAsInt32 f) (fun fe =>
    if se =? fe then Ok false
    else if se <? fe then
      match srest with [] => Ok (negb ext) | (_, s') :: srest' => all_clear_loop ext s' srest' f frest end
    else match frest with [] => Ok true | (_, f') :: frest' => all_clear_loop ext s srest f' frest' end)).
Proof. destruct srest, frest; reflexivity. Qed.

Lemma any_set_loop_spec srest : forall b s s0 ss f f0 frest ff,
  BsonValueAsInt32 s = Ok s0 -> positions srest ss -> BsonValueAsInt32 f = Ok f0 -> positions frest ff ->
  StronglySorted Z.lt (s0 :: ss) -> StronglySorted Z.lt (f0 :: ff) ->
  b < s0 -> b < f0 -> set_above set ext b (s0 :: ss) ->
  any_set_loop ext s srest f frest = Ok (existsb set (f0 :: ff)).
Proof.
  induction srest as [|[k s'] srest IH]; intros b s s0 ss f f0 frest ff Es Ps Ef Pf Ss Sf Hs Hf A;
    revert f f0 ff Ef Pf Sf Hf; induction frest as [|[k' f'] frest IHf]; intros f f0 ff Ef Pf Sf Hf;
    rewrite any_set_loop_round, Es, Ef; cbn [res_bind]; inversion Ps; inversion Pf; subst;
    inversion Ss as [|? ? Ss' Fs]; inversion Sf as [|? ? Sf' Ff]; subst; cbn [snd] in *;
    pose proof (set_above_tail _ _ _ A Hs) as T;
    (destruct (Z.eqb_spec s0 f0) as [->|N];
     [cbn [existsb]; erewrite set_above_here by eassumption; reflexivity|]);
    (destruct (Z.ltb_spec s0 f0) as [L|L];
     [|cbn [existsb]; rewrite (set_above_below b s0 _ f0 A Fs) by lia; cbn [orb]; try reflexivity;
       (eapply IHf; [eassumption|eassumption|assumption|inversion Ff; subst; lia])]).
  1,2: f_equal; symmetry; apply (set_above_end s0); [exact T| |easy];
    constructor; [exact L|]; try (constructor; fail); now apply (Forall_lt_trans _ f0).
  all: inversion Fs; subst; eapply (IH s0); try eassumption; now constructor.
Qed.

Lemma any_clear_loop_negb srest : forall s f frest,
  any_clear_loop ext s srest f frest = res_bind (all_set_loop ext s srest f frest) (fun b => Ok (negb b)).
Proof.
  induction srest as [|[k s'] srest IH]; intros s f frest; cbn [any_clear_loop all_set_loop];
    destruct (BsonValueAsInt32 s) as [x|]; try reflexivity; destruct (BsonValueAsInt32 f) as [y|]; try reflexivity;
    cbn [res_bind]; destruct (x =? y), (x <? y); try reflexivity; destruct frest as [|[? ?] ?]; try reflexivity;
    apply IH.
Qed.

Lemma all_clear_loop_negb srest : forall s f frest,
  all_clear_loop ext s srest f frest = res_bind (any_set_loop ext s srest f frest) (fun b => Ok (negb b)).
Proof.
  induction srest as [|[k s'] srest IH]; intros s f frest; revert f; induction frest as [|[k' f'] frest IHf];
    intros f; rewrite all_clear_loop_round, any_set_loop_round;
    destruct (BsonValueAsInt32 s) as [x|]; try reflexivity; destruct (BsonValueAsInt32 f) as [y|]; try reflexivity;
    cbn [res_bind]; destruct (x =? y), (x <? y); try reflexivity; try apply IH; apply IHf.
Qed.
End Loops.

Lemma bit_is_set_testbit src i : (i < 8 * List.length src)%nat ->
  bit_is_set src i = Z.testbit (le_Z src) (Z.of_nat i).
Proof.
  revert i; induction src as [|b src IH]; intros i H; [cbn in H; lia|]. cbn [le_Z].
  pose proof (byte_z_range b) as Hb. unfold bit_is_set.
  assert (E : Z.land (Z.of_nat i) 7 = Z.of_nat (i mod 8)).
  { change 7 with (Z.ones 3). rewrite Z.land_ones by lia. change (2 ^ 3) with (Z.of_nat 8). now rewrite Nat2Z.inj_mod. }
  assert (T : forall x k, 0 <= k -> (Z.land x (Z.shiftl 1 k) =? Z.shiftl 1 k) = Z.testbit x k).
  { intros x k Hk. destruct (Z.testbit x k) eqn:B.
    - apply Z.eqb_eq, Z.bits_inj'. intros n Hn. rewrite Z.land_spec, Z.shiftl_1_l, Z.pow2_bits_eqb by lia.
      destruct (Z.eqb_spec k n) as [->|]; [now rewrite B|apply andb_false_r].
    - apply Z.eqb_neq. intros C. assert (D : Z.testbit (Z.land x (Z.shiftl 1 k)) k = true)
        by (rewrite C, Z.shiftl_1_l, Z.pow2_bits_eqb by lia; apply Z.eqb_refl).
      rewrite Z.land_spec, B in D. discriminate. }
  rewrite E, T by lia. replace (byte_z b + 256 * le_Z src) with (byte_z b + le_Z src * 2 ^ 8) by lia.
  destruct (Nat.lt_ge_cases i 8) as [L|L].
  - rewrite Nat.div_small, Nat.mod_small by lia. cbn [nth].
    rewrite <- (Z.mod_pow2_bits_low (byte_z b + le_Z src * 2 ^ 8) 8) by lia.
    rewrite Z.mod_add by lia. now rewrite Z.mod_small by lia.
  - destruct (Nat.le_exists_sub 8 i L) as (j & -> & _).
    assert (Dj : ((j + 8) / 8 = S (j / 8))%nat) by (rewrite <- (Nat.mul_1_l 8) at 1; rewrite Nat.div_add; lia).
    assert (Mj : ((j + 8) mod 8 = j mod 8)%nat)
      by (rewrite <- (Nat.mul_1_l 8) at 1; now rewrite Nat.Div0.mod_add).
    rewrite Dj, Mj. cbn [nth].
    assert (F : bit_is_set src j = Z.testbit (le_Z src) (Z.of_nat j)) by (apply IH; cbn [List.length] in H; lia).
    unfold bit_is_set in F. change 7 with (Z.ones 3) in F. rewrite Z.land_ones in F by lia.
    change (2 ^ 3) with (Z.of_nat 8) in F. rewrite <- Nat2Z.inj_mod, T in F by lia. rewrite F.
    rewrite Nat2Z.inj_add. change (Z.of_nat 8) with 8.
    rewrite <- Z.div_pow2_bits by lia. f_equal. rewrite Z.div_add by lia. rewrite Z.div_small; lia.
Qed.

(** The positions that are written for a buffer. *)
Definition set_positions (z : Z) (n : nat) : list Z := filter (Z.testbit z) (map Z.of_nat (seq 0 n)).

Lemma WriteSetBitPositionArray_positions src : 8 * blen src <= INT32_MAX ->
  positions (WriteSetBitPositionArray src (blen src)) (set_positions (le_Z src) (8 * List.length src)).
Proof.
  intros H. unfold WriteSetBitPositionArray, set_positions, positions.
  rewrite wrap_s32_id by (unfold int32_ok, blen in *; zbounds; lia).
  replace (Z.to_nat (blen src * 8)) with (8 * List.length src)%nat by (unfold blen; lia).
  set (n := (8 * List.length src)%nat).
  assert (A : forall i, In i (seq 0 n) -> bit_is_set src i = Z.testbit (le_Z src) (Z.of_nat i)).
  { intros i I. apply in_seq in I. apply bit_is_set_testbit. subst n; lia. }
  induction (seq 0 n) as [|i l IH]; [constructor|]. cbn [map filter].
  rewrite (A i (or_introl eq_refl)). specialize (IH (fun j I => A j (or_intror I))).
  destruct (Z.testbit _ _); [|exact IH]. cbn [map]. constructor; [reflexivity|exact IH].
Qed.

Lemma set_positions_sorted z n : StronglySorted Z.lt (set_positions z n).
Proof.
  unfold set_positions. generalize 0%nat as i. induction n as [|n IH]; intros i; [constructor|].
  cbn [seq map filter]. destruct (Z.testbit z _); [|apply IH]. constructor; [apply IH|].
  apply Forall_forall. intros p I. apply filter_In in I as [I _]. apply in_map_iff in I as (j & <- & I).
  apply in_seq in I. lia.
Qed.

Lemma in_set_positions z n p : In p (set_positions z n) <-> 0 <= p < Z.of_nat n /\ Z.testbit z p = true.
Proof.
  unfold set_positions. rewrite filter_In, in_map_iff. split.
  - intros [(j & <- & I) B]. apply in_seq in I. split; [lia|exact B].
  - intros [H B]. split; [|exact B]. exists (Z.to_nat p). rewrite in_seq. lia.
Qed.

Lemma set_positions_above z n ext : (0 < n)%nat ->
  (ext = true -> Z.testbit z (Z.of_nat n - 1) = true) ->
  (forall p, Z.of_nat n <= p -> Z.testbit z p = ext) ->
  set_above (Z.testbit z) ext (-1) (set_positions z n).
Proof.
  intros Hn Htop Hhigh p Hp. destruct (Z.lt_ge_cases p (Z.of_nat n)) as [L|L].
  - replace (ext && _) with false; [rewrite orb_false_r|].
    + destruct (existsb _ _) eqn:E.
      * apply existsb_exists in E as (q & I & E). apply Z.eqb_eq in E. subst q.
        apply in_set_positions in I. tauto.
      * apply not_true_is_false. intros B. apply not_true_iff_false in E. apply E, existsb_exists.
        exists p. split; [apply in_set_positions; split; [lia|exact B]|apply Z.eqb_refl].
    + symmetry. destruct ext; [|reflexivity]. cbn. apply not_true_is_false. intros F.
      rewrite forallb_forall in F. specialize (F (Z.of_nat n - 1)).
      assert (Z.of_nat n - 1 < p) by (apply Z.ltb_lt, F, in_set_positions; split; [lia|auto]). lia.
  - rewrite Hhigh by exact L. replace (existsb _ _) with false.
    + replace (forallb _ _) with true; [now rewrite andb_true_r|]. symmetry. apply forallb_forall.
      intros q I. apply in_set_positions in I. apply Z.ltb_lt. lia.
    + symmetry. apply not_true_is_false. intros E. apply existsb_exists in E as (q & I & E).
      apply Z.eqb_eq in E. subst q. apply in_set_positions in I. lia.
Qed.

(** The four comparisons of position arrays, for a source whose bits are [set]. *)
Lemma compare_positions set ext source ss items ps :
  positions source ss -> StronglySorted Z.lt ss -> Forall (Z.le 0) ss -> set_above set ext (-1) ss ->
  (ss = [] -> ext = false) -> positions items ps -> StronglySorted Z.lt ps -> Forall (Z.le 0) ps ->
  CompareArrayForBitsAllSet source items ext = Ok (forallb set ps) /\
  CompareArrayForBitsAnySet source items ext = Ok (existsb set ps) /\
  CompareArrayForBitsAllClear source items ext = Ok (negb (existsb set ps)) /\
  CompareArrayForBitsAnyClear source items ext = Ok (negb (forallb set ps)).
Proof.
  intros Ps Ss Ns A Hext Pf Sf Nf.
  destruct Pf as [|[k f] f0 frest ff Ef Pf]; [now destruct source|].
  destruct Ps as [|[k' s] s0 srest ss Es Ps].
  - assert (E : forall p, In p (f0 :: ff) -> set p = false).
    { intros p I. rewrite Forall_forall in Nf. rewrite A by (specialize (Nf p I); lia). now rewrite Hext. }
    replace (forallb set (f0 :: ff)) with false by (cbn; now rewrite (E f0 (or_introl eq_refl))).
    replace (existsb set (f0 :: ff)) with false; [easy|]. symmetry. apply not_true_is_false. intros X.
    apply existsb_exists in X as (p & I & B). rewrite E in B by exact I. discriminate.
  - cbn [snd] in *. inversion Ns; inversion Nf; subst.
    assert (X1 : all_set_loop ext s srest f frest = Ok (forallb set (f0 :: ff)))
      by (eapply (all_set_loop_spec set ext srest (-1)); eassumption || lia).
    assert (X2 : any_set_loop ext s srest f frest = Ok (existsb set (f0 :: ff)))
      by (eapply (any_set_loop_spec set ext srest (-1)); eassumption || lia).
    unfold CompareArrayForBitsAllSet, CompareArrayForBitsAnySet, CompareArrayForBitsAllClear,
      CompareArrayForBitsAnyClear.
    rewrite any_clear_loop_negb, all_clear_loop_negb, X1, X2. easy.
Qed.

Lemma set_positions_nonneg z n : Forall (Z.le 0) (set_positions z n).
Proof. apply Forall_forall. intros p I. apply in_set_positions in I. lia. Qed.

(** The integer whose bits an operator tests: two's complement for numbers, the
    bytes in little-endian order for binary data. *)
Definition document_bits (document : bson_value) : option Z :=
  match document with
  | VInt32 z | VInt64 z => Some z
  | VBinary _ data => if 8 * blen data <=? INT32_MAX then Some (le_Z data) else None
  | _ => None
  end.

Lemma testbit_high z p : int64_ok z -> 63 <= p -> Z.testbit z p = (z <? 0).
Proof.
  intros Hz Hp. pose proof (Z.pow_le_mono_r 2 63 p eq_refl Hp). zbounds.
  rewrite Z.testbit_eqb by lia. destruct (Z.ltb_spec z 0) as [L|L].
  - replace (z / 2 ^ p) with (-1); [reflexivity|]. apply (Z.div_unique_pos _ _ _ (z + 2 ^ p)); lia.
  - rewrite Z.div_small by lia. reflexivity.
Qed.

(** An array of positions that stands for the bits of [z]. *)
Definition bit_source (source : fields) (z : Z) (ext : bool) : Prop :=
  exists n, positions source (set_positions z n) /\ set_above (Z.testbit z) ext (-1) (set_positions z n) /\
    (set_positions z n = [] -> ext = false).

Lemma int64_source z : int64_ok z -> bit_source (WriteSetBitPositionArray (le_bytes 8 z) 8) z (z <? 0).
Proof.
  intros Hz. exists 64%nat.
  assert (E : set_positions (z mod 2 ^ 64) 64 = set_positions z 64).
  { apply filter_ext_in. intros p I. apply in_map_iff in I as (j & <- & I).
    apply in_seq in I. apply Z.mod_pow2_bits_low. lia. }
  split; [|split].
  - pose proof (WriteSetBitPositionArray_positions (le_bytes 8 z)) as P.
    unfold blen in P. rewrite length_le_bytes, le_Z_le_bytes in P. rewrite <- E. apply P. cbn. discriminate.
  - apply set_positions_above; [lia|intros H|intros p Hp]; rewrite testbit_high by (exact Hz || lia);
      [exact H|reflexivity].
  - intros N. destruct (z <? 0) eqn:L; [exfalso|reflexivity].
    assert (I : In 63 (set_positions z 64)); [|rewrite N in I; destruct I].
    apply in_set_positions. split; [lia|]. now rewrite testbit_high by (exact Hz || lia).
Qed.

Lemma binary_source data : 8 * blen data <= INT32_MAX ->
  bit_source (WriteSetBitPositionArray data (blen data)) (le_Z data) false.
Proof.
  intros H. exists (8 * List.length data)%nat. split; [now apply WriteSetBitPositionArray_positions|].
  split; [|reflexivity]. destruct data as [|b data]; [intros p Hp; apply Z.testbit_0_l|].
  apply set_positions_above; [cbn [List.length]; lia|discriminate|]. intros p Hp.
  pose proof (le_Z_range (b :: data)) as [Hl Hu]. apply Z.bits_above_log2; [lia|].
  destruct (Z.eq_dec (le_Z (b :: data)) 0) as [->|N]; [cbn [Z.log2 List.length] in *; lia|].
  apply Z.log2_lt_pow2; [lia|]. eapply Z.lt_le_trans; [exact Hu|]. change 256 with (2 ^ 8).
  rewrite <- Z.pow_mul_r by (unfold blen; lia). apply Z.pow_le_mono_r; unfold blen; lia.
Qed.

Lemma compare_source source z ext items ps : bit_source source z ext ->
  positions items ps -> StronglySorted Z.lt ps -> Forall (Z.le 0) ps ->
  CompareArrayForBitsAllSet source items ext = Ok (forallb (Z.testbit z) ps) /\
  CompareArrayForBitsAnySet source items ext = Ok (existsb (Z.testbit z) ps) /\
  CompareArrayForBitsAllClear source items ext = Ok (negb (existsb (Z.testbit z) ps)) /\
  CompareArrayForBitsAnyClear source items ext = Ok (negb (forallb (Z.testbit z) ps)).
Proof.
  intros (n & P & A & N) Pf Sf Nf.
  apply (compare_positions _ _ _ (set_positions z n)); auto using set_positions_sorted, set_positions_nonneg.
Qed.

(** On integers and binary data the four bitwise operators test the bits at the
    given positions: numbers in two's complement with the sign extended beyond
    bit 63, binary data in little-endian order with zeros behind its end. *)
Theorem bitwise_operators_test_bits (collation : option bytes) (document : bson_value) (z : Z)
  (items : fields) (ps : list Z) :
  value_ok document -> document_bits document = Some z ->
  positions items ps -> StronglySorted Z.lt ps -> Forall (Z.le 0) ps ->
  CompareBitsAllSetMatch (VArray items) collation document = Ok (forallb (Z.testbit z) ps) /\
  CompareBitsAnySetMatch (VArray items) collation document = Ok (existsb (Z.testbit z) ps) /\
  CompareBitsAllClearMatch (VArray items) collation document = Ok (negb (existsb (Z.testbit z) ps)) /\
  CompareBitsAnyClearMatch (VArray items) collation document = Ok (negb (forallb (Z.testbit z) ps)).
Proof.
  intros Hv Hz Pf Sf Nf. destruct document; try discriminate Hz; cbn [document_bits value_ok] in Hz, Hv.
  - destruct (Z.leb_spec (8 * blen data) INT32_MAX) as [L|]; [|discriminate]. injection Hz as <-.
    exact (compare_source _ _ _ _ _ (binary_source _ L) Pf Sf Nf).
  - injection Hz as ->. assert (Hi : int64_ok z) by (zbounds; lia).
    exact (compare_source _ _ _ _ _ (int64_source _ Hi) Pf Sf Nf).
  - injection Hz as ->. exact (compare_source _ _ _ _ _ (int64_source _ Hv) Pf Sf Nf).
Qed.
End Bits.

(** ** The comparison operators follow the order of values *)

Section Comparisons.
Context {BL : BidLib} {Laws : BidLaws BL} {LB : LibBson} {LBLaws : LibBsonLaws LB}.

(** Two values can be ranked by a comparison operator when they are of the same
    type class and not a NaN against another number. *)
Definition comparable (d f : bson_value) : bool :=
  (CompareBsonSortOrderType d f =? 0) &&
  (negb (BsonValueIsNumberOrBool d) || Bool.eqb (is_ENaN (num_key d)) (is_ENaN (num_key f))).

Definition is_bound (f : bson_value) : bool := match f with VMinKey | VMaxKey => true | _ => false end.

Lemma same_class_number d f : CompareBsonSortOrderType d f = 0 ->
  BsonValueIsNumberOrBool f = BsonValueIsNumberOrBool d.
Proof. destruct d, f; cbn; (discriminate || reflexivity). Qed.

Lemma CompareBsonValue_valid collation l r x valid : BsonValueIsNumberOrBool l = false ->
  CompareBsonValue collation l r = Ok (x, valid) -> valid = true.
Proof.
  intros N. assert (P : forall c, plain c = Ok (x, valid) -> valid = true)
    by (intros [c|e]; cbn; congruence).
  destruct l; try discriminate N; cbn [CompareBsonValue]; (destruct (negb _); [discriminate|]);
    try (intros H; injection H as _ <-; reflexivity); try apply P; destruct r; try discriminate;
    try (intros H; injection H as _ <-; reflexivity); try apply P.
  all: destruct (CompareStrings _ _ _) as [c|]; [|discriminate]; cbn [res_bind];
    destruct (negb _); try apply P; intros H; injection H as _ <-; reflexivity.
Qed.

Lemma CompareLogicalOperator_order collation d f : collation_total collation -> value_ok d -> value_ok f ->
  exists x, CompareLogicalOperatorWithCollation d f collation = Ok (x, comparable d f) /\
    (CompareBsonSortOrderType d f = 0 ->
     same_sign x (value_order collation d f) /\ (comparable d f = false -> x <> 0)).
Proof.
  intros T Hd Hf. unfold CompareLogicalOperatorWithCollation, comparable.
  destruct (Z.eqb_spec (CompareBsonSortOrderType d f) 0) as [E|N]; [|exists 0; split; [reflexivity|easy]].
  destruct (CompareBsonValueAndType_answers collation T d f Hd Hf) as (x & valid & A & S & V).
  exists x. cbn [andb]. enough (C : valid = negb (BsonValueIsNumberOrBool d) ||
    Bool.eqb (is_ENaN (num_key d)) (is_ENaN (num_key f))) by (rewrite A, <- C; auto).
  unfold CompareBsonValueAndTypeWithCollation in A. rewrite E in A. cbn [Z.eqb negb] in A.
  destruct (BsonValueIsNumberOrBool d) eqn:Nd; cbn [negb orb].
  - pose proof (same_class_number d f E) as Nf. rewrite Nd in Nf.
    assert (C : CompareBsonValue collation d f = CompareNumbers d f)
      by (destruct d; try discriminate Nd; cbn [CompareBsonValue]; rewrite E; reflexivity).
    rewrite C, CompareNumbers_key in A by assumption. congruence.
  - now apply CompareBsonValue_valid in A.
Qed.

(** The class decides when the classes differ. *)
Lemma value_order_class collation d f : exists o,
  value_order collation d f = lexz (CompareBsonSortOrderType d f) o.
Proof. destruct d; eexists; reflexivity. Qed.

Lemma bound_order collation f d : is_bound f = true -> d <> VEod ->
  CompareEqualMatch f collation d = Ok (value_order collation d f =? 0) /\
  CompareGreaterMatch f collation d = Ok (value_order collation d f >? 0) /\
  CompareGreaterEqualMatch f collation d = Ok (value_order collation d f >=? 0) /\
  CompareLessMatch f collation d = Ok (value_order collation d f <? 0) /\
  CompareLessEqualMatch f collation d = Ok (value_order collation d f <=? 0).
Proof. intros B N. destruct f; try discriminate B; destruct d; try easy; repeat split; reflexivity. Qed.

Lemma comparison_order (collation : option bytes) (f d : bson_value) :
  collation_total collation -> value_ok f -> value_ok d -> d <> VEod ->
  let ranked := is_bound f || comparable d f in
  CompareEqualMatch f collation d = Ok (value_order collation d f =? 0) /\
  CompareGreaterMatch f collation d = Ok (ranked && (value_order collation d f >? 0)) /\
  CompareGreaterEqualMatch f collation d = Ok (ranked && (value_order collation d f >=? 0)) /\
  CompareLessMatch f collation d = Ok (ranked && (value_order collation d f <? 0)) /\
  CompareLessEqualMatch f collation d = Ok (ranked && (value_order collation d f <=? 0)).
Proof.
  intros T Hf Hd N ranked. destruct (is_bound f) eqn:B; cbn [orb] in ranked; subst ranked;
    [cbn [andb]; now apply bound_order|].
  destruct (CompareLogicalOperator_order collation d f T Hd Hf) as (x & E & S).
  assert (Types : type_eqb (value_type f) BSON_TYPE_MINKEY = false /\ type_eqb (value_type f) BSON_TYPE_MAXKEY = false)
    by (destruct f; try discriminate B; split; reflexivity).
  assert (Cmp : comparable d f = true -> CompareBsonSortOrderType d f = 0)
    by (unfold comparable; intros H; apply andb_prop in H as [H _]; now apply Z.eqb_eq).
  destruct Types as [T1 T2].
  unfold CompareEqualMatch, CompareGreaterMatch, CompareGreaterEqualMatch, CompareLessMatch, CompareLessEqualMatch.
  rewrite T1, T2, E. cbn [res_bind]. clear T1 T2 E. split.
  - destruct (_ && _) eqn:Nu.
    + destruct f, d; try discriminate Nu. reflexivity.
    + destruct (Z.eq_dec (CompareBsonSortOrderType d f) 0) as [C|C].
      * destruct (S C) as [S1 S2]. unfold same_sign in S1. f_equal.
        destruct (comparable d f); [cbn [andb]|specialize (S2 eq_refl)]; lia.
      * destruct (comparable d f); [elim C; now apply Cmp|]. f_equal. cbn [andb].
        destruct (value_order_class collation d f) as [o ->]. unfold lexz.
        destruct (Z.eqb_spec (CompareBsonSortOrderType d f) 0); lia.
  - destruct (comparable d f); [|easy]. destruct (S (Cmp eq_refl)) as [S1 _]. unfold same_sign in S1.
    cbn [andb]. repeat split; f_equal; lia.
Qed.

(** [$eq], [$gt], [$gte], [$lt] and [$lte] on one value: equality is equality in
    the order of values; the others rank values of the filter's type class,
    except that every value is ranked against the minimum and the maximum key. *)
Theorem comparison_operators_order (collation : option bytes) (f d : bson_value) :
  collation_total collation -> value_ok f -> value_ok d -> d <> VEod ->
  let ranked := is_bound f || comparable d f in
  CompareEqualMatch f collation d = Ok (value_order collation d f =? 0) /\
  CompareGreaterMatch f collation d = Ok (ranked && (value_order collation d f >? 0)) /\
  CompareGreaterEqualMatch f collation d = Ok (ranked && (value_order collation d f >=? 0)) /\
  CompareLessMatch f collation d = Ok (ranked && (value_order collation d f <? 0)) /\
  CompareLessEqualMatch f collation d = Ok (ranked && (value_order collation d f <=? 0)).
Proof. apply comparison_order. Qed.
End Comparisons.

(** ** [$size] and [$mod] *)

Section Sizes.
Context {BL : BidLib} {LB : LibBson}.

Lemma count_up_to_spec n items : forall k, k <= n ->
  (count_up_to n items k =? n) = (k + Z.of_nat (List.length items) =? n) .
Proof.
  induction items as [|e items IH]; intros k H; cbn [count_up_to List.length]; [now rewrite Z.add_0_r|].
  destruct (Z.leb_spec k n); [|lia]. destruct (Z.eq_dec k n) as [->|N].
  - assert (E : count_up_to n items (n + 1) = n + 1).
    { destruct items; cbn [count_up_to]; [reflexivity|]. destruct (Z.leb_spec (n + 1) n); [lia|reflexivity]. }
    rewrite E. destruct (Z.eqb_spec (n + 1) n), (Z.eqb_spec (n + Z.of_nat (S (List.length items))) n); lia.
  - rewrite IH by lia. f_equal. lia.
Qed.

Lemma array_size_exact (filter : bson_value) (collation : option bytes) (n : Z) (document : bson_value) :
  BsonValueAsInt64 filter = Ok n ->
  CompareArraySizeMatch filter collation document =
  Ok (match document with VArray items => n =? Z.of_nat (List.length items) | _ => false end).
Proof.
  intros H. destruct document; try reflexivity. cbn [CompareArraySizeMatch]. rewrite H. cbn [res_bind]. f_equal.
  destruct (Z.lt_ge_cases n 0) as [L|L].
  - assert (E : count_up_to n d 0 = 0)
      by (destruct d; cbn [count_up_to]; [reflexivity|]; destruct (Z.leb_spec 0 n); [lia|reflexivity]).
    rewrite E. destruct (Z.eqb_spec n 0), (Z.eqb_spec n (Z.of_nat (List.length d))); lia.
  - rewrite Z.eqb_sym, count_up_to_spec by lia. apply Z.eqb_sym.
Qed.

(** [$size] matches the arrays with exactly that many elements, although it stops
    counting one past the requested size. *)
Theorem CompareArraySizeMatch_exact (filter : bson_value) (collation : option bytes) (n : Z) (document : bson_value) :
  BsonValueAsInt64 filter = Ok n ->
  CompareArraySizeMatch filter collation document =
  Ok (match document with VArray items => n =? Z.of_nat (List.length items) | _ => false end).
Proof. apply array_size_exact. Qed.

Definition integer_of (v : bson_value) : option Z :=
  match v with VInt32 z | VInt64 z => Some z | _ => None end.

Lemma integer_of_int64 v z : integer_of v = Some z -> BsonValueAsInt64 v = Ok z.
Proof. destruct v; cbn; congruence. Qed.

(** [$mod] on integers is the remainder of the truncated division, with the sign
    of the dividend, for all 64-bit operands, INT64_MIN by -1 included; a divisor
    of zero raises SIGFPE. *)
Theorem CompareModMatch_integers (collation : option bytes) (document divisor remainder : bson_value)
  (k1 k2 : bytes) (rest : fields) (z m r : Z) :
  integer_of document = Some z -> integer_of divisor = Some m -> integer_of remainder = Some r ->
  CompareModMatch (VArray ((k1, divisor) :: (k2, remainder) :: rest)) collation document =
  (if m =? 0 then Err ERRCODE_FLOATING_POINT_EXCEPTION else Ok (Z.rem z m =? r)).
Proof.
  intros Hz Hm Hr. unfold CompareModMatch, CompareModOperator. cbn [BsonValueInitIterator res_bind].
  rewrite (integer_of_int64 _ _ Hm), (integer_of_int64 _ _ Hr). cbn [res_bind].
  replace (IsBsonValue64BitInteger document false) with (@Ok bool true) by (destruct document; easy).
  cbn [res_bind negb]. rewrite (integer_of_int64 _ _ Hz). cbn [res_bind].
  destruct (Z.eqb_spec z INT64_MIN) as [->|]; [|reflexivity]. destruct (Z.eqb_spec m (-1)) as [->|]; [|reflexivity].
  cbn [andb]. change (Ok (r =? 0) = Ok (0 =? r)). f_equal; apply Z.eqb_sym.
Qed.
End Sizes.

(** ** Instances on concrete values *)

Section Witnesses.
#[local] Existing Instance RefBidLib.
#[local] Existing Instance RefBidLaws.
#[local] Existing Instance RefLibBson.
#[local] Existing Instance RefLibBsonLaws.

Definition bits_1_and_70 : fields := [(str "0", VInt32 1); (str "1", VInt64 70)].

Lemma bitwise_operators_test_bits_witness :
  CompareBitsAllSetMatch (VArray bits_1_and_70) None (VInt32 (-2)) = Ok true /\
  CompareBitsAnySetMatch (VArray bits_1_and_70) None (VInt32 (-2)) = Ok true /\
  CompareBitsAllClearMatch (VArray bits_1_and_70) None (VInt32 (-2)) = Ok false /\
  CompareBitsAnyClearMatch (VArray bits_1_and_70) None (VInt32 (-2)) = Ok false.
Proof.
  apply (bitwise_operators_test_bits None (VInt32 (-2)) (-2) bits_1_and_70 [1; 70]).
  - vm_compute. split; congruence.
  - reflexivity.
  - repeat constructor.
  - repeat constructor.
  - repeat constructor; lia.
Defined.

Definition five : bson_value := VInt64 5.
Definition five_and_a_half : bson_value := VDouble 4617878467915022336.

Lemma five_ok : value_ok five.
Proof. vm_compute. split; congruence. Qed.
Lemma five_and_a_half_ok : value_ok five_and_a_half.
Proof. vm_compute. split; congruence. Qed.

Lemma comparison_operators_order_witness :
  CompareGreaterMatch five None five_and_a_half =
  Ok ((is_bound five || comparable five_and_a_half five) && (value_order None five_and_a_half five >? 0)).
Proof.
  exact (proj1 (proj2 (comparison_operators_order None five five_and_a_half no_collation
    five_ok five_and_a_half_ok ltac:(discriminate)))).
Defined.

Lemma CompareArraySizeMatch_exact_witness :
  CompareArraySizeMatch (VInt32 2) None (VArray bits_1_and_70) = Ok true.
Proof. exact (CompareArraySizeMatch_exact (VInt32 2) None 2 (VArray bits_1_and_70) eq_refl). Defined.

Lemma CompareModMatch_integers_witness :
  CompareModMatch (VArray [(str "0", VInt64 (-1)); (str "1", VInt32 0)]) None (VInt64 INT64_MIN) = Ok true.
Proof.
  exact (CompareModMatch_integers None (VInt64 INT64_MIN) (VInt64 (-1)) (VInt32 0) (str "0") (str "1") []
           INT64_MIN (-1) 0 eq_refl eq_refl eq_refl).
Defined.

(** A repeated position makes [$bitsAllSet] miss a value that has the bit set, and
    [$bitsAnyClear] match it: the planner sorts the positions and keeps
    duplicates. *)
Example bitwise_operators_duplicate_position :
  let twice := VArray [(str "0", VInt32 1); (str "1", VInt32 1)] in
  CompareBitsAllSetMatch twice None (VInt32 2) = Ok false /\
  CompareBitsAnyClearMatch twice None (VInt32 2) = Ok true.
Proof. split; reflexivity. Qed.

(** 1.5 as a decimal is truncated and matches, as a double it does not match. *)
Example bitwise_operators_fraction :
  let zero := VArray [(str "0", VInt32 0)] in
  CompareBitsAllSetMatch zero None (VDecimal128 (Dec128 3476215962376601600 15)) = Ok true /\
  CompareBitsAllSetMatch zero None (VDouble 4609434218613702656) = Ok false.
Proof. split; vm_compute; reflexivity. Qed.
End Witnesses.
