(* ===== verification/DollarOperators.v ===== *)
(** * Query operators over dotted paths ([bson_dollar_operators.c])

    Each operator traverses the document along the path of its filter and applies
    a match function of [DollarMatch] to the values it finds.  The state of the
    traversal is the [compareResult] of [TraverseValidateState], with an error
    raised by a match function in its place: such an error ends the query, so
    that no later callback changes it. *)

From Stdlib Require Import ZArith Lia Bool String List Sorted.
From Stdlib Require Import Strings.Byte.
From S2P Require Import Prelude SoftFloat BsonTypes StringView Decimal128 BsonCompare BsonOrder RefBid BsonRefine.
From S2P Require Import Traversal PgbsonElement DollarMatch.
Import ListNotations.
Local Open Scope Z_scope.

Inductive CompareResult : Set :=
| CompareResult_PathNotFound
| CompareResult_Mismatch
| CompareResult_Match.

(** ** Callbacks *)

Section Callbacks.
Variable matchFunc : bson_value -> res bool.

(** A callback on a state that may hold an error. *)
Definition unless_error {A B} (state : res A) (k : A -> bool * res B) : bool * res B :=
  match state with Ok a => k a | Err e => (false, Err e) end.

Definition CompareVisitTopLevelField (element : pgbsonelement) (filterPath : bytes) (state : res CompareResult)
  : bool * res CompareResult :=
  unless_error state (fun _ =>
    unless_error (matchFunc (snd element)) (fun isMatched =>
      if isMatched : bool then (false, Ok CompareResult_Match) else (true, Ok CompareResult_Mismatch))).

Definition CompareVisitArrayField (element : pgbsonelement) (filterPath : bytes) (arrayIndex : Z)
  (state : res CompareResult) : bool * res CompareResult :=
  unless_error state (fun compareResult =>
    unless_error (matchFunc (snd element)) (fun isInnerMatched =>
      if isInnerMatched : bool then (false, Ok CompareResult_Match) else (true, Ok compareResult))).

Definition CompareSetTraverseResultForNulls (traverseResult : TraverseBsonResult) (state : res CompareResult)
  : res CompareResult :=
  res_bind state (fun compareResult =>
    match traverseResult with
    | TraverseBsonResult_PathNotFound => Ok CompareResult_PathNotFound
    | TraverseBsonResult_TypeMismatch => Ok compareResult
    end).

Definition CompareSetTraverseResult (traverseResult : TraverseBsonResult) (state : res CompareResult)
  : res CompareResult :=
  res_bind state (fun _ =>
    match traverseResult with
    | TraverseBsonResult_PathNotFound => Ok CompareResult_PathNotFound
    | TraverseBsonResult_TypeMismatch => Ok CompareResult_Mismatch
    end).

Definition CompareContinueProcessIntermediateArray (value : bson_value) (state : res CompareResult)
  : bool * res CompareResult :=
  unless_error state (fun compareResult =>
    match compareResult with CompareResult_Match => (false, state) | _ => (true, state) end).

Definition CompareExecutionFuncs : TraverseBsonExecutionFuncs (res CompareResult) := {|
  ContinueProcessIntermediateArray := CompareContinueProcessIntermediateArray;
  SetTraverseResult := Some CompareSetTraverseResult;
  VisitArrayField := Some CompareVisitArrayField;
  VisitTopLevelField := CompareVisitTopLevelField;
  SetIntermediateArrayIndex := None;
  HandleIntermediateArrayPathNotFound := None;
  SetIntermediateArrayStartEnd := None |}.

Definition CompareNullExecutionFuncs : TraverseBsonExecutionFuncs (res CompareResult) := {|
  ContinueProcessIntermediateArray := CompareContinueProcessIntermediateArray;
  SetTraverseResult := Some CompareSetTraverseResultForNulls;
  VisitArrayField := Some CompareVisitArrayField;
  VisitTopLevelField := CompareVisitTopLevelField;
  SetIntermediateArrayIndex := None;
  HandleIntermediateArrayPathNotFound := None;
  SetIntermediateArrayStartEnd := None |}.

Definition CompareTopLevelFieldExecutionFuncs : TraverseBsonExecutionFuncs (res CompareResult) := {|
  ContinueProcessIntermediateArray := CompareContinueProcessIntermediateArray;
  SetTraverseResult := Some CompareSetTraverseResult;
  VisitArrayField := None;
  VisitTopLevelField := CompareVisitTopLevelField;
  SetIntermediateArrayIndex := None;
  HandleIntermediateArrayPathNotFound := None;
  SetIntermediateArrayStartEnd := None |}.
End Callbacks.

Section Operators.
Context {BL : BidLib} {LB : LibBson}.
(** Settings of the extension. *)
Variables EnableCollation UseLegacyNullEqualityBehavior SkipBsonArrayTraverseOptimization : bool.
(** See [DollarMatch]. *)
Variable uninitialized_type : Z.
Local Open Scope res_scope.

(** A filter: its path and value, and the collation. *)
Definition read_filter (filter : fields) : res (pgbsonelement * option bytes) :=
  if EnableCollation then PgbsonToSinglePgbsonElementWithCollation filter
  else let* e := BsonIterToSinglePgbsonElement EnableCollation filter in Ok (e, None).

Definition IsQueryFilterNullForValue (filter : bson_value) : bool :=
  type_eqb (value_type filter) BSON_TYPE_NULL.

Definition filter_is_null (isQueryFilterNull : option (bson_value -> bool)) (filter : bson_value) : bool :=
  match isQueryFilterNull with Some f => f filter | None => false end.

Definition ProcessQueryResultAndGetMatch (isQueryFilterNull : option (bson_value -> bool)) (filter : bson_value)
  (compareResult : CompareResult) : bool :=
  if filter_is_null isQueryFilterNull filter
  then match compareResult with CompareResult_Mismatch => false | _ => true end
  else match compareResult with CompareResult_Match => true | _ => false end.

(** The type of a match function: filter value, collation, document value. *)
Abbreviation CompareMatchValueFunc := (bson_value -> option bytes -> bson_value -> res bool).

Definition CompareBsonAgainstQuery (element filter : fields) (compareFunc : CompareMatchValueFunc)
  (isQueryFilterNull : option (bson_value -> bool)) : res bool :=
  let* '(filterElement, collationString) := read_filter filter in
  let '(path, filterValue) := filterElement in
  let matchFunc := compareFunc filterValue collationString in
  let '(start, execFuncs) :=
    if filter_is_null isQueryFilterNull filterValue && negb UseLegacyNullEqualityBehavior
    then (CompareResult_Mismatch, CompareNullExecutionFuncs matchFunc)
    else (CompareResult_PathNotFound, CompareExecutionFuncs matchFunc) in
  let* state := TraverseBson execFuncs SkipBsonArrayTraverseOptimization element path (Ok start) in
  let* compareResult := state in
  Ok (ProcessQueryResultAndGetMatch isQueryFilterNull filterValue compareResult).

(** The same for a single value, whose filter may have an empty path. *)
Definition CompareBsonValueAgainstQueryCore (element : bson_value) (path : bytes) (filterValue : bson_value)
  (matchFunc : bson_value -> res bool) (executionFuncs : TraverseBsonExecutionFuncs (res CompareResult))
  (isQueryFilterNull : option (bson_value -> bool)) : res bool :=
  match path with
  | [] => matchFunc element
  | _ =>
    match element with
    | VDocument d | VArray d =>
      let* state := TraverseBson executionFuncs SkipBsonArrayTraverseOptimization d path
                      (Ok CompareResult_PathNotFound) in
      let* compareResult := state in
      Ok (ProcessQueryResultAndGetMatch isQueryFilterNull filterValue compareResult)
    | _ => Ok false
    end
  end.

Definition CompareBsonValueAgainstQuery (element : bson_value) (filter : fields) (compareFunc : CompareMatchValueFunc)
  (isQueryFilterNull : option (bson_value -> bool)) : res bool :=
  let* '(filterElement, collationString) := read_filter filter in
  let '(path, filterValue) := filterElement in
  let matchFunc := compareFunc filterValue collationString in
  CompareBsonValueAgainstQueryCore element path filterValue matchFunc (CompareExecutionFuncs matchFunc)
    isQueryFilterNull.

(** ** Operators on documents *)

Definition not_matched (r : res bool) : res bool := let* result := r in Ok (negb result).

Definition bson_dollar_eq (document filter : fields) : res bool :=
  CompareBsonAgainstQuery document filter CompareEqualMatch (Some IsQueryFilterNullForValue).
Definition bson_dollar_ne (document filter : fields) : res bool :=
  not_matched (CompareBsonAgainstQuery document filter CompareEqualMatch (Some IsQueryFilterNullForValue)).
Definition bson_dollar_gt (document filter : fields) : res bool :=
  CompareBsonAgainstQuery document filter CompareGreaterMatch None.
Definition bson_dollar_not_gt (document filter : fields) : res bool :=
  not_matched (CompareBsonAgainstQuery document filter CompareGreaterMatch None).
Definition bson_dollar_gte (document filter : fields) : res bool :=
  CompareBsonAgainstQuery document filter CompareGreaterEqualMatch (Some IsQueryFilterNullForValue).
Definition bson_dollar_not_gte (document filter : fields) : res bool :=
  not_matched (CompareBsonAgainstQuery document filter CompareGreaterEqualMatch (Some IsQueryFilterNullForValue)).
Definition bson_dollar_lt (document filter : fields) : res bool :=
  CompareBsonAgainstQuery document filter CompareLessMatch None.
Definition bson_dollar_not_lt (document filter : fields) : res bool :=
  not_matched (CompareBsonAgainstQuery document filter CompareLessMatch None).
Definition bson_dollar_lte (document filter : fields) : res bool :=
  CompareBsonAgainstQuery document filter CompareLessEqualMatch (Some IsQueryFilterNullForValue).
Definition bson_dollar_not_lte (document filter : fields) : res bool :=
  not_matched (CompareBsonAgainstQuery document filter CompareLessEqualMatch (Some IsQueryFilterNullForValue)).
Definition bson_dollar_merge_join_filter (document filter : fields) : res bool := bson_dollar_eq document filter.

Definition IsExistPositiveMatch (filter : fields) : res bool :=
  let* '(_, filterValue) := BsonIterToSinglePgbsonElement EnableCollation filter in
  if BsonValueIsNumberOrBool filterValue then
    let* v := BsonValueAsInt64 filterValue in Ok (negb (v =? 0))
  else Ok true.

Definition bson_dollar_exists (document filter : fields) : res bool :=
  let* existsPositiveMatch := IsExistPositiveMatch filter in
  let* match_ := CompareBsonAgainstQuery document filter CompareExistsMatch None in
  Ok (if existsPositiveMatch : bool then match_ else negb match_).

Definition bson_dollar_type (document filter : fields) : res bool :=
  CompareBsonAgainstQuery document filter (CompareArrayTypeMatch uninitialized_type) None.
Definition bson_dollar_mod (document filter : fields) : res bool :=
  CompareBsonAgainstQuery document filter CompareModMatch None.
Definition bson_dollar_bits_all_clear (document filter : fields) : res bool :=
  CompareBsonAgainstQuery document filter CompareBitsAllClearMatch None.
Definition bson_dollar_bits_any_clear (document filter : fields) : res bool :=
  CompareBsonAgainstQuery document filter CompareBitsAnyClearMatch None.
Definition bson_dollar_bits_all_set (document filter : fields) : res bool :=
  CompareBsonAgainstQuery document filter CompareBitsAllSetMatch None.
Definition bson_dollar_bits_any_set (document filter : fields) : res bool :=
  CompareBsonAgainstQuery document filter CompareBitsAnySetMatch None.

Definition bson_dollar_size (document filter : fields) : res bool :=
  let* '(path, filterValue) := BsonIterToSinglePgbsonElement EnableCollation filter in
  let* state := TraverseBson (CompareTopLevelFieldExecutionFuncs (CompareArraySizeMatch filterValue None))
                  SkipBsonArrayTraverseOptimization document path (Ok CompareResult_PathNotFound) in
  let* compareResult := state in
  Ok (match compareResult with CompareResult_Match => true | _ => false end).

(** ** Operators on single values *)

Definition bson_value_dollar_eq (element : bson_value) (query : fields) : res bool :=
  CompareBsonValueAgainstQuery element query CompareEqualMatch (Some IsQueryFilterNullForValue).
Definition bson_value_dollar_ne (element : bson_value) (query : fields) : res bool :=
  not_matched (CompareBsonValueAgainstQuery element query CompareEqualMatch (Some IsQueryFilterNullForValue)).
Definition bson_value_dollar_gt (element : bson_value) (query : fields) : res bool :=
  CompareBsonValueAgainstQuery element query CompareGreaterMatch None.
Definition bson_value_dollar_gte (element : bson_value) (query : fields) : res bool :=
  CompareBsonValueAgainstQuery element query CompareGreaterEqualMatch None.
Definition bson_value_dollar_lt (element : bson_value) (query : fields) : res bool :=
  CompareBsonValueAgainstQuery element query CompareLessMatch None.
Definition bson_value_dollar_lte (element : bson_value) (query : fields) : res bool :=
  CompareBsonValueAgainstQuery element query CompareLessEqualMatch None.
Definition bson_value_dollar_type (element : bson_value) (query : fields) : res bool :=
  CompareBsonValueAgainstQuery element query (CompareArrayTypeMatch uninitialized_type) None.
Definition bson_value_dollar_mod (element : bson_value) (query : fields) : res bool :=
  CompareBsonValueAgainstQuery element query CompareModMatch None.
Definition bson_value_dollar_bits_all_clear (element : bson_value) (query : fields) : res bool :=
  CompareBsonValueAgainstQuery element query CompareBitsAllClearMatch None.
Definition bson_value_dollar_bits_any_clear (element : bson_value) (query : fields) : res bool :=
  CompareBsonValueAgainstQuery element query CompareBitsAnyClearMatch None.
Definition bson_value_dollar_bits_all_set (element : bson_value) (query : fields) : res bool :=
  CompareBsonValueAgainstQuery element query CompareBitsAllSetMatch None.
Definition bson_value_dollar_bits_any_set (element : bson_value) (query : fields) : res bool :=
  CompareBsonValueAgainstQuery element query CompareBitsAnySetMatch None.

Definition bson_value_dollar_exists (element : bson_value) (query : fields) : res bool :=
  let* existsPositiveMatch := IsExistPositiveMatch query in
  let* match_ := CompareBsonValueAgainstQuery element query CompareExistsMatch None in
  Ok (if existsPositiveMatch : bool then match_ else negb match_).

(** The path length is reset before the core function tests it. *)
Definition bson_value_dollar_size (element : bson_value) (query : fields) : res bool :=
  let* '(_, filterValue) := BsonIterToSinglePgbsonElement EnableCollation query in
  let matchFunc := CompareArraySizeMatch filterValue None in
  CompareBsonValueAgainstQueryCore element [] filterValue matchFunc
    (CompareTopLevelFieldExecutionFuncs matchFunc) None.
End Operators.

(** ** An operator matches when some value on the path matches *)

Definition visited (x : visit) : bson_value := match x with VisitedField v | VisitedElement _ v => v end.

(** The values in order, up to the first that matches or raises an error. *)
Fixpoint any_match (m : bson_value -> res bool) (values : list bson_value) : res bool :=
  match values with
  | [] => Ok false
  | v :: values' => res_bind (m v) (fun b => if b : bool then Ok true else any_match m values')
  end.

Lemma any_match_Ok m p values : Forall (fun v => m v = Ok (p v)) values -> any_match m values = Ok (existsb p values).
Proof. induction 1 as [|v values E _ IH]; [reflexivity|]. cbn. rewrite E. cbn. now destruct (p v). Qed.

(** The traversal state as the fold sees it. *)
Definition match_view (state : res CompareResult) : res bool :=
  match state with
  | Ok CompareResult_Match => Ok true
  | Ok _ => Ok false
  | Err e => Err e
  end.
Definition ended (a : res bool) : bool := match a with Ok false => false | _ => true end.

Ltac fold_callbacks :=
  intros; cbn; unfold not_found; cbn; unfold CompareContinueProcessIntermediateArray,
    CompareVisitTopLevelField, CompareVisitArrayField, CompareSetTraverseResult, CompareSetTraverseResultForNulls,
    unless_error in *;
  repeat match goal with
         | st : res CompareResult |- _ => destruct st as [[]|]; cbn in *; try discriminate
         | r : TraverseBsonResult |- _ => destruct r; cbn
         | |- context [match ?m with Ok _ => _ | Err _ => _ end] => destruct m as [[]|]; cbn
         end; try (split; reflexivity); try reflexivity.

#[export] Instance CompareExecutionFuncs_fold m :
  VisitFold (CompareExecutionFuncs m) match_view ended (fun x _ => m (visited x)).
Proof. split; fold_callbacks. Qed.

#[export] Instance CompareNullExecutionFuncs_fold m :
  VisitFold (CompareNullExecutionFuncs m) match_view ended (fun x _ => m (visited x)).
Proof. split; fold_callbacks. Qed.

(** Without a callback for array elements only the fields themselves count. *)
#[export] Instance CompareTopLevelFieldExecutionFuncs_fold m :
  VisitFold (CompareTopLevelFieldExecutionFuncs m) match_view ended
    (fun x a => match x with VisitedField v => m v | VisitedElement _ _ => a end).
Proof. split; fold_callbacks. Qed.

Lemma fold_any_match m visits :
  fold_visits ended (fun x _ => m (visited x)) visits (Ok false) = any_match m (map visited visits).
Proof.
  unfold fold_visits. induction visits as [|x visits IH]; [reflexivity|]. cbn.
  destruct (m (visited x)) as [[]|] eqn:E; cbn; [|exact IH|]; now apply (fold_visits_stopped (stopped := ended)).
Qed.

(** A dotted path given by its segments. *)
Definition path_ok (segs : list bytes) : Prop :=
  segs <> [] /\ Forall (fun s => ~ In dot s) segs /\ Forall no_nul segs.

Section Correctness.
Context {BL : BidLib} {Laws : BidLaws BL} {LB : LibBson} {LBLaws : LibBsonLaws LB}.
Variables EnableCollation UseLegacyNullEqualityBehavior SkipBsonArrayTraverseOptimization : bool.
Local Abbreviation query :=
  (CompareBsonAgainstQuery EnableCollation UseLegacyNullEqualityBehavior SkipBsonArrayTraverseOptimization).

(** The values a path leads to in a document. *)
Definition values_at (segs : list bytes) (document : fields) : list bson_value :=
  map visited (reach SkipBsonArrayTraverseOptimization segs false document).

Lemma traverse_any m segs document start : path_ok segs -> start <> CompareResult_Match ->
  exists st, TraverseBson (CompareExecutionFuncs m) SkipBsonArrayTraverseOptimization document (join_path segs) (Ok start)
             = Ok st /\ match_view st = any_match m (values_at segs document).
Proof.
  intros (Hne & Hd & Hn) Hs.
  destruct (TraverseBson_fold (funcs := CompareExecutionFuncs m) SkipBsonArrayTraverseOptimization segs document
    (Ok start) Hne Hd Hn) as (st & E & V); [now destruct start|].
  exists st. split; [exact E|]. rewrite V. replace (match_view (Ok start)) with (@Ok bool false) by now destruct start.
  apply fold_any_match.
Qed.

Lemma query_any document filter compareFunc isNull segs f collation :
  path_ok segs -> read_filter EnableCollation filter = Ok ((join_path segs, f), collation) ->
  filter_is_null isNull f = false ->
  query document filter compareFunc isNull = any_match (compareFunc f collation) (values_at segs document).
Proof.
  intros Hp Hf Hn. unfold CompareBsonAgainstQuery. rewrite Hf. cbn [res_bind]. rewrite Hn. cbn [andb].
  destruct (traverse_any (compareFunc f collation) segs document CompareResult_PathNotFound Hp) as (st & -> & V);
    [discriminate|]. cbn [res_bind]. rewrite <- V. unfold ProcessQueryResultAndGetMatch. rewrite Hn.
  destruct st as [[]|]; reflexivity.
Qed.

(** C6: A query with any match function, on a dotted path and a filter that can be read,
    asks the match function of the values the path leads to, in order, until one matches: it
    matches when one of them does, and an error on an earlier value is the error of the
    query. Filters that the operator treats as null (its null test says so) are excluded:
    those also match missing paths. *)
Theorem CompareBsonAgainstQuery_any (document filter : fields)
  (compareFunc : bson_value -> option bytes -> bson_value -> res bool)
  (isNull : option (bson_value -> bool)) (segs : list bytes) (f : bson_value) (collation : option bytes) :
  path_ok segs -> read_filter EnableCollation filter = Ok ((join_path segs, f), collation) ->
  filter_is_null isNull f = false ->
  query document filter compareFunc isNull = any_match (compareFunc f collation) (values_at segs document).
Proof. apply query_any. Qed.

(** ** The comparison operators *)

Lemma lookup_ok d key v : doc_ok d -> lookup d key = Some v -> value_ok v.
Proof. intros Hd E. now apply (lookup_fields_all _ _ _ _ Hd) in E. Qed.

Lemma documents_ok d : doc_ok d -> Forall doc_ok (documents d).
Proof.
  intros H. unfold documents. induction d as [|[k v] d IH]; [constructor|]. destruct H as [[_ Hv] Hd].
  cbn [flat_map snd]. destruct v; cbn [app]; auto.
Qed.

Lemma numbered_ok items : doc_ok items -> forall i, Forall (fun x => value_ok (visited x)) (numbered i items).
Proof.
  induction items as [|[k v] items IH]; intros Hd i; cbn [numbered]; [constructor|]. destruct Hd as [[_ Hv] Hd].
  constructor; auto.
Qed.

Lemma reach_ok skip segs : forall ctx d, doc_ok d -> Forall (fun x => value_ok (visited x)) (reach skip segs ctx d).
Proof.
  induction segs as [|key [|next rest] IH]; intros ctx d Hd; [constructor|cbn [reach]|].
  - destruct (lookup d key) as [v|] eqn:E; [|constructor]. apply (lookup_ok _ _ _ Hd) in E.
    constructor; [exact E|]. destruct v; try constructor. destruct ctx; [constructor|]. now apply numbered_ok.
  - set (tail := next :: rest) in *. cbn [reach]. unfold tail. fold tail.
    destruct (lookup d key) as [v|] eqn:E; [|constructor]. apply (lookup_ok _ _ _ Hd) in E.
    destruct v; try constructor; [now apply IH|]. apply Forall_app. split.
    + destruct (tries_index skip next); [now apply IH|constructor].
    + apply Forall_flat_map. eapply Forall_impl; [|exact (documents_ok _ E)]. intros. now apply IH.
Qed.

Lemma values_at_ok segs document : doc_ok document -> Forall value_ok (values_at segs document).
Proof. intros H. apply Forall_map. now apply reach_ok. Qed.

Lemma dollar_comparisons_answer (document filter : fields) (segs : list bytes) (f : bson_value)
  (collation : option bytes) :
  path_ok segs -> read_filter EnableCollation filter = Ok ((join_path segs, f), collation) ->
  f <> VNull -> value_ok f -> doc_ok document -> collation_total collation ->
  ~ In VEod (values_at segs document) ->
  let matches (side : Z -> bool) :=
    existsb (fun v => (is_bound f || comparable v f) && side (value_order collation v f)) (values_at segs document) in
  bson_dollar_eq EnableCollation UseLegacyNullEqualityBehavior SkipBsonArrayTraverseOptimization document filter =
    Ok (existsb (fun v => value_order collation v f =? 0) (values_at segs document)) /\
  bson_dollar_gt EnableCollation UseLegacyNullEqualityBehavior SkipBsonArrayTraverseOptimization document filter =
    Ok (matches (fun o => o >? 0)) /\
  bson_dollar_gte EnableCollation UseLegacyNullEqualityBehavior SkipBsonArrayTraverseOptimization document filter =
    Ok (matches (fun o => o >=? 0)) /\
  bson_dollar_lt EnableCollation UseLegacyNullEqualityBehavior SkipBsonArrayTraverseOptimization document filter =
    Ok (matches (fun o => o <? 0)) /\
  bson_dollar_lte EnableCollation UseLegacyNullEqualityBehavior SkipBsonArrayTraverseOptimization document filter =
    Ok (matches (fun o => o <=? 0)).
Proof.
  intros Hp Hf Nf Vf Hd T He matches.
  assert (Nn : filter_is_null (Some IsQueryFilterNullForValue) f = false) by (destruct f; easy).
  assert (C : Forall (fun v => value_ok v /\ v <> VEod) (values_at segs document)).
  { apply Forall_forall. intros v I. split; [|intros ->; contradiction].
    pose proof (values_at_ok segs document Hd) as V. rewrite Forall_forall in V. now apply V. }
  unfold bson_dollar_eq, bson_dollar_gt, bson_dollar_gte, bson_dollar_lt, bson_dollar_lte.
  rewrite !(query_any document filter _ _ segs f collation) by (assumption || reflexivity).
  repeat split; apply any_match_Ok; (eapply Forall_impl; [|exact C]); intros v [Hv Ev];
    now apply comparison_order.
Qed.

(** C7: For a filter that is not null, on a well-formed document, filter and dotted path
    without end-of-document markers and without a collation or with one in which ICU
    compares all strings: [$eq] matches exactly when some value the path leads to is equal
    to the filter in the order of values, and [$gt], [$gte], [$lt] and [$lte] exactly when
    some value that can be ranked against the filter is on the right side of it; none of
    them raises an error. *)
Theorem dollar_comparisons_order (document filter : fields) (segs : list bytes) (f : bson_value)
  (collation : option bytes) :
  path_ok segs -> read_filter EnableCollation filter = Ok ((join_path segs, f), collation) ->
  f <> VNull -> value_ok f -> doc_ok document -> collation_total collation ->
  ~ In VEod (values_at segs document) ->
  let matches (side : Z -> bool) :=
    existsb (fun v => (is_bound f || comparable v f) && side (value_order collation v f)) (values_at segs document) in
  bson_dollar_eq EnableCollation UseLegacyNullEqualityBehavior SkipBsonArrayTraverseOptimization document filter =
    Ok (existsb (fun v => value_order collation v f =? 0) (values_at segs document)) /\
  bson_dollar_gt EnableCollation UseLegacyNullEqualityBehavior SkipBsonArrayTraverseOptimization document filter =
    Ok (matches (fun o => o >? 0)) /\
  bson_dollar_gte EnableCollation UseLegacyNullEqualityBehavior SkipBsonArrayTraverseOptimization document filter =
    Ok (matches (fun o => o >=? 0)) /\
  bson_dollar_lt EnableCollation UseLegacyNullEqualityBehavior SkipBsonArrayTraverseOptimization document filter =
    Ok (matches (fun o => o <? 0)) /\
  bson_dollar_lte EnableCollation UseLegacyNullEqualityBehavior SkipBsonArrayTraverseOptimization document filter =
    Ok (matches (fun o => o <=? 0)).
Proof. apply dollar_comparisons_answer. Qed.

(** ** [$size] *)

Lemma fold_fields_match m visits a : ended a = false ->
  fold_visits ended (fun x a => match x with VisitedField v => m v | VisitedElement _ _ => a end) visits a =
  any_match m (flat_map (fun x => match x with VisitedField v => [v] | _ => [] end) visits).
Proof.
  unfold fold_visits. revert a. induction visits as [|x visits IH]; intros a Ha; cbn [fold_left flat_map].
  - now destruct a as [[]|].
  - rewrite Ha. destruct x as [v|i v]; cbn [app]; [|now apply IH]. cbn [any_match].
    destruct (m v) as [[]|] eqn:E; cbn [res_bind];
      [now apply (fold_visits_stopped (stopped := ended))|now apply IH|now apply (fold_visits_stopped (stopped := ended))].
Qed.

(** [$size] matches when a field the path leads to, not an element of an array
    there, is an array with exactly that many elements. *)
Theorem bson_dollar_size_spec (document filter : fields) (segs : list bytes) (f : bson_value) (n : Z) :
  path_ok segs -> BsonIterToSinglePgbsonElement EnableCollation filter = Ok (join_path segs, f) ->
  BsonValueAsInt64 f = Ok n ->
  bson_dollar_size EnableCollation SkipBsonArrayTraverseOptimization document filter =
  Ok (existsb (fun x => match x with
                        | VisitedField (VArray items) => n =? Z.of_nat (List.length items)
                        | _ => false
                        end) (reach SkipBsonArrayTraverseOptimization segs false document)).
Proof.
  intros (Hne & Hd & Hn) Hf Hz. unfold bson_dollar_size. rewrite Hf. cbn [res_bind].
  destruct (TraverseBson_fold (funcs := CompareTopLevelFieldExecutionFuncs (CompareArraySizeMatch f None))
    SkipBsonArrayTraverseOptimization segs document (Ok CompareResult_PathNotFound) Hne Hd Hn eq_refl)
    as (st & -> & V). cbn [res_bind match_view] in *. rewrite fold_fields_match in V by reflexivity.
  rewrite any_match_Ok with (p := fun v => match v with VArray items => n =? Z.of_nat (List.length items) | _ => false end) in V
    by (apply Forall_forall; intros v _; now apply array_size_exact).
  transitivity (match_view st); [destruct st as [[]|]; reflexivity|]. rewrite V. f_equal. clear V.
  induction (reach _ _ _ _) as [|x l IH]; [reflexivity|]. cbn [flat_map existsb]. rewrite <- IH.
  now destruct x.
Qed.

(** ** Null filters *)

(** The value at a path that goes through documents only. *)
Fixpoint resolve (segs : list bytes) (d : fields) : option bson_value :=
  match segs with
  | [] => None
  | [key] => lookup d key
  | key :: rest => match lookup d key with Some (VDocument d') => resolve rest d' | _ => None end
  end.

(** No array is in the middle of the path. *)
Fixpoint plain_path (segs : list bytes) (d : fields) : bool :=
  match segs with
  | [] | [_] => true
  | key :: rest =>
    match lookup d key with
    | Some (VDocument d') => plain_path rest d'
    | Some (VArray _) => false
    | _ => true
    end
  end.

(** A field and, when it is an array, its elements. *)
Definition leaf_values (v : bson_value) : list bson_value :=
  v :: match v with VArray items => map snd items | _ => [] end.

Lemma numbered_values items : forall i, map visited (numbered i items) = map snd items.
Proof. induction items as [|[k v] items IH]; intros i; cbn; [reflexivity|]. now rewrite IH. Qed.

(** The state after the elements of an array. *)
Lemma visit_elements_state m items path : forall i s, s <> CompareResult_Match ->
  snd (visit_array_elements (CompareVisitArrayField m) items path i (Ok s)) =
  res_bind (any_match m (map snd items)) (fun b => Ok (if b then CompareResult_Match else s)) /\
  fst (visit_array_elements (CompareVisitArrayField m) items path i (Ok s)) =
  match any_match m (map snd items) with Ok false => true | _ => false end.
Proof.
  induction items as [|[k v] items IH]; intros i s Hs; cbn [visit_array_elements map any_match]; [easy|].
  unfold CompareVisitArrayField at 1 3. cbn [unless_error snd]. destruct (m v) as [[]|]; cbn; try easy. now apply IH.
Qed.

(** The two sets of callbacks that are used for null filters. *)
Definition null_funcs (m : bson_value -> res bool) : TraverseBsonExecutionFuncs (res CompareResult) :=
  if UseLegacyNullEqualityBehavior then CompareExecutionFuncs m else CompareNullExecutionFuncs m.

Lemma null_leaf m d key s :  no_nul key -> s <> CompareResult_Match ->
  exists b, traverse_leaf (null_funcs m) d key false (Ok s) =
    (b, match lookup d key with
        | None => Ok CompareResult_PathNotFound
        | Some v => res_bind (any_match m (leaf_values v))
                      (fun b => Ok (if b then CompareResult_Match else CompareResult_Mismatch))
        end).
Proof.
  intros Hn Hs. unfold traverse_leaf. destruct (bson_iter_find_string_view d key) as [[k v]|] eqn:E.
  2:{ rewrite (find_None _ _ Hn E). unfold null_funcs. destruct UseLegacyNullEqualityBehavior; eexists; reflexivity. }
  rewrite (find_Some _ _ _ _ Hn E).
  replace (VisitTopLevelField (null_funcs m)) with (CompareVisitTopLevelField m)
    by (unfold null_funcs; now destruct UseLegacyNullEqualityBehavior).
  replace (VisitArrayField (null_funcs m)) with (Some (CompareVisitArrayField m))
    by (unfold null_funcs; now destruct UseLegacyNullEqualityBehavior).
  unfold CompareVisitTopLevelField. cbn [unless_error snd leaf_values any_match].
  destruct (m v) as [[]|]; cbn [unless_error res_bind negb]; try (eexists; reflexivity).
  assert (Last : notify (SetTraverseResult (null_funcs m)) TraverseBsonResult_TypeMismatch (Ok CompareResult_Mismatch)
    = Ok CompareResult_Mismatch) by (unfold null_funcs; now destruct UseLegacyNullEqualityBehavior).
  destruct v; try (cbn [negb any_match res_bind]; rewrite Last; eexists; reflexivity).
  destruct (visit_elements_state m d0 key 0 CompareResult_Mismatch) as [E1 E2]; [discriminate|].
  destruct (visit_array_elements _ _ _ _ _) as [continue st]. cbn [fst snd negb] in *. subst st continue.
  destruct (any_match m (map snd d0)) as [[]|]; cbn [negb res_bind]; try rewrite Last; eexists; reflexivity.
Qed.

Lemma null_traverse m segs : forall fuel d s,
  path_ok segs -> (List.length segs <= fuel)%nat -> plain_path segs d = true -> s <> CompareResult_Match ->
  exists b, TraverseBsonCore (null_funcs m) SkipBsonArrayTraverseOptimization fuel (join_path segs) false d (Ok s) =
    Ok (b, match resolve segs d with
           | None => Ok CompareResult_PathNotFound
           | Some v => res_bind (any_match m (leaf_values v))
                         (fun b => Ok (if b then CompareResult_Match else CompareResult_Mismatch))
           end).
Proof.
  induction segs as [|key [|next rest] IH]; intros fuel d s (Hne & Hd & Hn) Hf Hp Hs; [easy|..];
    (destruct fuel as [|fuel]; [cbn in Hf; lia|]); inversion_clear Hd as [|? ? Hdot Hd'];
    inversion_clear Hn as [|? ? Hnul Hn']; cbn [TraverseBsonCore].
  - change (join_path [key]) with key. rewrite (proj2 (StringViewFindPrefix_None key dot) Hdot).
    destruct (null_leaf m d key s Hnul Hs) as [b ->]. eexists; reflexivity.
  - change (join_path (key :: next :: rest)) with (key ++ dot :: join_path (next :: rest)).
    set (tail := next :: rest) in *.
    assert (P : StringViewFindPrefix (key ++ dot :: join_path tail) dot = Some key)
      by (apply StringViewFindPrefix_Some; eauto).
    rewrite P, substring_after_dot. cbn [res_bind].
    change (resolve (key :: tail) d) with
      (match lookup d key with Some (VDocument d') => resolve tail d' | _ => None end).
    change (plain_path (key :: tail) d) with
      (match lookup d key with Some (VDocument d') => plain_path tail d' | Some (VArray _) => false | _ => true end) in Hp.
    assert (Miss : forall b : bool, exists b',
      @Ok (bool * res CompareResult)
        (b, notify (SetTraverseResult (null_funcs m)) TraverseBsonResult_PathNotFound (Ok s)) =
      Ok (b', Ok CompareResult_PathNotFound))
      by (intros; unfold null_funcs; destruct UseLegacyNullEqualityBehavior; eexists; reflexivity).
    destruct (bson_iter_find_string_view d key) as [[k v]|] eqn:E; [|rewrite (find_None _ _ Hnul E); apply Miss].
    rewrite (find_Some _ _ _ _ Hnul E) in *.
    destruct v; try apply Miss; [|discriminate]. apply IH; auto; [|cbn in Hf |- *; lia].
    split; [discriminate|]. now split.
Qed.

Lemma query_null (document filter : fields)
  (compareFunc : bson_value -> option bytes -> bson_value -> res bool)
  (isNull : option (bson_value -> bool)) (segs : list bytes) (f : bson_value) (collation : option bytes) :
  path_ok segs -> read_filter EnableCollation filter = Ok ((join_path segs, f), collation) ->
  filter_is_null isNull f = true -> plain_path segs document = true ->
  query document filter compareFunc isNull =
  match resolve segs document with
  | None => Ok true
  | Some v => any_match (compareFunc f collation) (leaf_values v)
  end.
Proof.
  intros Hp Hf Hn Hpl. unfold CompareBsonAgainstQuery. rewrite Hf. cbn [res_bind]. rewrite Hn. cbn [andb].
  set (m := compareFunc f collation).
  assert (X : exists start, start <> CompareResult_Match /\
    (if negb UseLegacyNullEqualityBehavior then (CompareResult_Mismatch, CompareNullExecutionFuncs m)
     else (CompareResult_PathNotFound, CompareExecutionFuncs m)) = (start, null_funcs m))
    by (unfold null_funcs; destruct UseLegacyNullEqualityBehavior; eexists; (split; [|reflexivity]); discriminate).
  destruct X as (start & Hs & ->). unfold TraverseBson.
  destruct (null_traverse m segs (S (List.length (join_path segs))) document start Hp) as [b ->];
    [apply length_join; now destruct Hp|exact Hpl|exact Hs|]. cbn [res_bind].
  unfold ProcessQueryResultAndGetMatch. rewrite Hn.
  destruct (resolve segs document) as [v|]; [|reflexivity].
  destruct (any_match m (leaf_values v)) as [[]|]; reflexivity.
Qed.

(** A filter with a null, on a path without intermediate arrays, in both modes:
    the query matches when the path is missing, or when the field there or an
    element of an array there matches. *)
Theorem CompareBsonAgainstQuery_null (document filter : fields)
  (compareFunc : bson_value -> option bytes -> bson_value -> res bool)
  (isNull : option (bson_value -> bool)) (segs : list bytes) (f : bson_value) (collation : option bytes) :
  path_ok segs -> read_filter EnableCollation filter = Ok ((join_path segs, f), collation) ->
  filter_is_null isNull f = true -> plain_path segs document = true ->
  query document filter compareFunc isNull =
  match resolve segs document with
  | None => Ok true
  | Some v => any_match (compareFunc f collation) (leaf_values v)
  end.
Proof. apply query_null. Qed.
End Correctness.

(** ** Concrete queries *)

Section Witnesses.
#[local] Existing Instance RefBidLib.
#[local] Existing Instance RefBidLaws.
#[local] Existing Instance RefLibBson.
#[local] Existing Instance RefLibBsonLaws.

(** { "a" : [ { "b" : 5.5 }, { "b" : 4 } ] } and { "a.b" : { "$gt" : 5 } } *)
Definition query_segs : list bytes := [str "a"; str "b"].
Definition query_doc : fields :=
  [(str "a", VArray [(str "0", VDocument [(str "b", five_and_a_half)]); (str "1", VDocument [(str "b", VInt32 4)])])].
Definition query_filter : fields := [(str "a.b", five)].

Lemma query_segs_ok : path_ok query_segs.
Proof. split; [discriminate|]. split; segs_ok. Qed.

Lemma CompareBsonAgainstQuery_any_witness :
  bson_dollar_gt true false false query_doc query_filter = Ok true /\
  bson_dollar_gt true false false query_doc query_filter =
    any_match (CompareGreaterMatch five None) (values_at false query_segs query_doc).
Proof.
  split; [vm_compute; reflexivity|].
  exact (CompareBsonAgainstQuery_any true false false query_doc query_filter CompareGreaterMatch None query_segs
           five None query_segs_ok eq_refl eq_refl).
Defined.

Lemma query_doc_ok : doc_ok query_doc.
Proof. repeat split; try (apply no_nulb_ok; reflexivity); vm_compute; congruence. Qed.

Lemma dollar_comparisons_order_witness :
  bson_dollar_eq true false false query_doc query_filter =
  Ok (existsb (fun v => value_order None v five =? 0) (values_at false query_segs query_doc)).
Proof.
  refine (proj1 (dollar_comparisons_order true false false query_doc query_filter query_segs five None
    query_segs_ok eq_refl _ five_ok query_doc_ok no_collation _)); [discriminate|].
  vm_compute. intuition discriminate.
Defined.

Lemma bson_dollar_size_spec_witness :
  bson_dollar_size true false query_doc [(str "a", VInt32 2)] =
  Ok (existsb (fun x => match x with
                        | VisitedField (VArray items) => 2 =? Z.of_nat (List.length items)
                        | _ => false
                        end) (reach false [str "a"] false query_doc)).
Proof.
  refine (bson_dollar_size_spec true false query_doc [(str "a", VInt32 2)] [str "a"] (VInt32 2) 2 _ eq_refl eq_refl).
  split; [discriminate|]. split; segs_ok.
Defined.

Lemma CompareBsonAgainstQuery_null_witness :
  bson_dollar_eq true false false [(str "a", VInt32 1)] [(str "a.b", VNull)] = Ok true.
Proof.
  exact (CompareBsonAgainstQuery_null true false false [(str "a", VInt32 1)] [(str "a.b", VNull)] CompareEqualMatch
    (Some IsQueryFilterNullForValue) query_segs VNull None query_segs_ok eq_refl eq_refl eq_refl).
Defined.

(** Below an array, whether a document matches a null filter depends on the order
    of the array's elements: [compareResult] keeps what the last element set. *)
Example bson_dollar_eq_null_order :
  let scalar := VDocument [(str "b", VInt32 1)] in
  let nested := VDocument [(str "b", VDocument [(str "c", VInt32 1)])] in
  let filter := [(str "a.b.c", VNull)] in
  bson_dollar_eq true false false [(str "a", VArray [(str "0", scalar); (str "1", nested)])] filter = Ok false /\
  bson_dollar_eq true false false [(str "a", VArray [(str "0", nested); (str "1", scalar)])] filter = Ok true.
Proof. split; reflexivity. Qed.

(** [$size] on a single value ignores the path of its filter, which is reset
    before it is tested: the field [b] has two elements and is not found. *)
Example bson_value_dollar_size_nested :
  bson_value_dollar_size true false (VDocument [(str "b", VArray bits_1_and_70)]) [(str "b", VInt32 2)] = Ok false.
Proof. reflexivity. Qed.
End Witnesses.
