(* ===== verification/DollarSets.v ===== *)
(** * [$regex], [$in], [$nin] and [$range] ([bson_dollar_operators.c])

    [$in] keeps the values of its array in a hash set ([hashset_utils.c]) and its
    regular expressions in a list.  PostgreSQL's hash tables find an entry when
    the hash values are equal and the match callback returns zero; the set is the
    list of its entries.  PCRE2 and ICU's sort keys are classes.  [$range] is the
    conjunction of a lower and an upper bound. *)

From Stdlib Require Import ZArith Lia Bool String List Sorted QArith.
From Stdlib Require Import Strings.Byte.
From S2P Require Import Prelude SoftFloat BsonTypes StringView Decimal128 BsonCompare BsonOrder RefBid BsonRefine.
From S2P Require Import BsonHash Traversal PgbsonElement DollarMatch DollarOperators.
Import ListNotations.
Local Open Scope Z_scope.

(** ** Regular expressions ([pcre_regex.c], [bson_text_ops.c]) *)

Class Pcre2 : Type := {
  pcre2_code : Type;
  (* pattern, options and maximum pattern length; NULL when the pattern is invalid *)
  pcre2_compile : bytes -> Z -> Z -> option pcre2_code;
  pcre2_jit_compile : pcre2_code -> Z;
  pcre2_match : pcre2_code -> bytes -> Z;
  PCRE2_UTF : Z; PCRE2_CASELESS : Z; PCRE2_DOTALL : Z; PCRE2_MULTILINE : Z; PCRE2_EXTENDED : Z;
  PCRE2_NO_AUTO_CAPTURE : Z; PCRE2_ERROR_NOMEMORY : Z; PCRE2_ERROR_RECURSIONLIMIT : Z
}.

(** ICU's sort keys for a collation string. *)
Class IcuSortKey : Type := { ucol_getSortKey : bytes -> bytes -> bytes }.

Definition REGEX_MAX_PATTERN_LENGTH : Z := 32761.

Section Sets.
Context {BL : BidLib} {LB : LibBson} {PG : PgHash} {VM : ValueMemory} {RE : Pcre2} {IC : IcuSortKey}.
Variables EnableCollation SkipBsonArrayTraverseOptimization : bool.
Local Open Scope res_scope.

Definition ProcessRegexCompileOptions (options : option bytes) : Z :=
  match options with
  | None => PCRE2_UTF
  | Some options =>
    fold_left (fun compileOptions c =>
      match c with
      | x69 (* i *) => Z.lor compileOptions PCRE2_CASELESS
      | x73 (* s *) => Z.lor compileOptions PCRE2_DOTALL
      | x6d (* m *) => Z.lor compileOptions PCRE2_MULTILINE
      | x78 (* x *) => Z.lor compileOptions PCRE2_EXTENDED
      | _ => compileOptions
      end) options PCRE2_UTF
  end.

Definition RegexCompileCore (regexPatternStr : bytes) (options : option bytes) (maxPatternLength compileOptions : Z)
  : res (option pcre2_code) :=
  let compileOptions := Z.lor compileOptions (ProcessRegexCompileOptions options) in
  match pcre2_compile regexPatternStr compileOptions maxPatternLength with
  | Some code =>
    if pcre2_jit_compile code =? PCRE2_ERROR_NOMEMORY then Err ERRCODE_DOCUMENTDB_EXCEEDEDMEMORYLIMIT
    else Ok (Some code)
  | None => Ok None
  end.

Definition RegexCompile (regexPatternStr : bytes) (options : option bytes) : res pcre2_code :=
  let* compiled := RegexCompileCore regexPatternStr options REGEX_MAX_PATTERN_LENGTH PCRE2_NO_AUTO_CAPTURE in
  match compiled with
  | Some code => Ok code
  | None => Err ERRCODE_DOCUMENTDB_LOCATION51091
  end.

Definition PcreRegexExecute (code : pcre2_code) (subjectString : bytes) : res bool :=
  let returnCode := pcre2_match code subjectString in
  if returnCode =? PCRE2_ERROR_RECURSIONLIMIT then Err ERRCODE_DOCUMENTDB_LOCATION51156
  else Ok (negb (returnCode <? 0)).

Record RegexData : Type := { regex : option bytes; options : option bytes; pcreData : pcre2_code }.

(** [strcmp] reads both of its arguments. *)
Definition strcmp_pointers (a b : option bytes) : res Z :=
  match a, b with Some a, Some b => Ok (strcmp a b) | _, _ => Err NULL_DEREFERENCE end.

Definition CompareRegexTextMatch (docBsonVal : bson_value) (regexData : RegexData) : res bool :=
  match docBsonVal with
  | VRegex r o =>
    let* c := strcmp_pointers r (regex regexData) in
    if c =? 0 then let* c := strcmp_pointers o (options regexData) in Ok (c =? 0) else Ok false
  | VUtf8 s => PcreRegexExecute (pcreData regexData) s
  | _ => Ok false
  end.

Definition compile_regex (regex options : option bytes) : res RegexData :=
  match regex with
  | Some r => let* code := RegexCompile r options in Ok {| regex := regex; options := options; pcreData := code |}
  | None => Err NULL_DEREFERENCE
  end.

Definition PopulateRegexFromQuery (filterValue : bson_value) : res RegexData :=
  match filterValue with
  | VRegex r o => compile_regex r o
  | VUtf8 s => compile_regex (Some s) None
  | _ => Err ERRCODE_DOCUMENTDB_BADVALUE
  end.

Definition matched (state : res CompareResult) : res bool :=
  let* compareResult := state in Ok (match compareResult with CompareResult_Match => true | _ => false end).

Definition bson_dollar_regex (document filter : fields) : res bool :=
  let* '((path, filterValue), _) := read_filter EnableCollation filter in
  let* regexData := PopulateRegexFromQuery filterValue in
  let* state := TraverseBson (CompareExecutionFuncs (fun v => CompareRegexTextMatch v regexData))
                  SkipBsonArrayTraverseOptimization document path (Ok CompareResult_PathNotFound) in
  matched state.

(** ** Hash sets of values ([hashset_utils.c]) *)

Definition IsCollationValid (collationString : option bytes) : bool :=
  match collationString with Some c => (2 <? List.length c)%nat | None => false end.
Definition IsCollationApplicable (collationString : option bytes) : bool :=
  EnableCollation && IsCollationValid collationString.

(** The strlen of a sort key: ICU's keys end with a NUL byte, not part of the list. *)
Definition GetCollationSortKey (collationString key : bytes) : bytes := ucol_getSortKey collationString key.

Definition add_uint32 (a : Z) (b : res Z) : res Z := let* b := b in Ok (wrap_u 32 (a + b)).

Section HashIter.
Variable BsonValueHashFuncCore : bson_value -> Z -> res Z.
Fixpoint hash_elements (arrayValueIterator : fields) (hashValue : Z) : res Z :=
  match arrayValueIterator with
  | [] => Ok hashValue
  | (_, value) :: rest => let* hashValue := BsonValueHashFuncCore value hashValue in hash_elements rest hashValue
  end.
End HashIter.

Fixpoint BsonValueHashFuncCore (collationString : option bytes) (bsonValue : bson_value) (hashValue : Z) : res Z :=
  match collationString with
  | Some c =>
    if negb (IsCollationApplicable collationString) then add_uint32 hashValue (BsonValueHashUint32 bsonValue)
    else
      match bsonValue with
      | VUtf8 key => add_uint32 hashValue (Ok (hash_bytes (GetCollationSortKey c key)))
      | VDocument d | VArray d => hash_elements (BsonValueHashFuncCore collationString) d hashValue
      | _ => add_uint32 hashValue (BsonValueHashUint32 bsonValue)
      end
  | None => add_uint32 hashValue (BsonValueHashUint32 bsonValue)
  end.

(** The hash and match callbacks of the two kinds of sets. *)
Definition set_hash (collationString : option bytes) (v : bson_value) : res Z :=
  BsonValueHashFuncCore collationString v 0.
Definition set_compare (collationString : option bytes) (a b : bson_value) : res Z :=
  let* '(cmp, _) :=
    (if IsCollationApplicable collationString then CompareBsonValueAndTypeWithCollation a b collationString
     else CompareBsonValueAndType a b) in
  Ok cmp.

(** [hash_search] with [HASH_FIND]: the entries of the key's bucket are compared
    while their hash value differs or the match callback is not zero. *)
Fixpoint hash_search_find (collationString : option bytes) (keyHash : Z) (key : bson_value)
  (entries : list bson_value) : res bool :=
  match entries with
  | [] => Ok false
  | e :: entries' =>
    let* entryHash := set_hash collationString e in
    if entryHash =? keyHash then
      let* cmp := set_compare collationString e key in
      if cmp =? 0 then Ok true else hash_search_find collationString keyHash key entries'
    else hash_search_find collationString keyHash key entries'
  end.

Definition hash_search (collationString : option bytes) (key : bson_value) (entries : list bson_value) : res bool :=
  let* keyHash := set_hash collationString key in hash_search_find collationString keyHash key entries.

(** ** [$in] *)

Record BsonDollarInQueryState : Type := {
  filterElement : pgbsonelement;
  regexList : list RegexData;
  bsonValueHashSet : list bson_value;
  hasNull : bool;
  in_collation : option bytes
}.

Fixpoint populate_in (collationString : option bytes) (arrayIterator : fields)
  (st : list RegexData * list bson_value * bool) : res (list RegexData * list bson_value * bool) :=
  match arrayIterator with
  | [] => Ok st
  | (_, arrayValue) :: rest =>
    let '(regexes, entries, null) := st in
    match arrayValue with
    | VNull => populate_in collationString rest (regexes, entries, true)
    | VRegex r o =>
      let* data := compile_regex r o in populate_in collationString rest (regexes ++ [data], entries, null)
    | _ =>
      let* found := hash_search collationString arrayValue entries in
      populate_in collationString rest (regexes, if found then entries else entries ++ [arrayValue], null)
    end
  end.

Definition PopulateDollarInStateFromQuery (filter : fields) : res BsonDollarInQueryState :=
  let* '(element, collationString) := read_filter EnableCollation filter in
  let* arrayIterator := BsonValueInitIterator (snd element) in
  let* '(regexes, entries, null) := populate_in collationString arrayIterator ([], [], false) in
  Ok {| filterElement := element; regexList := regexes; bsonValueHashSet := entries; hasNull := null;
        in_collation := collationString |}.

Fixpoint any_regex (regexes : list RegexData) (document : bson_value) : res bool :=
  match regexes with
  | [] => Ok false
  | data :: regexes' =>
    let* m := CompareRegexTextMatch document data in if m then Ok true else any_regex regexes' document
  end.

Definition CompareInMatch (st : BsonDollarInQueryState) (document : bson_value) : res bool :=
  let* _ := BsonValueInitIterator (snd (filterElement st)) in
  if hasNull st && match document with VNull | VUndefined => true | _ => false end then Ok true
  else
    let* found := hash_search (in_collation st) document (bsonValueHashSet st) in
    if found then Ok true else any_regex (regexList st) document.

Definition traverse_in (document filter : fields) : res (BsonDollarInQueryState * CompareResult) :=
  let* st := PopulateDollarInStateFromQuery filter in
  let* state := TraverseBson (CompareExecutionFuncs (CompareInMatch st)) SkipBsonArrayTraverseOptimization document
                  (fst (filterElement st)) (Ok CompareResult_PathNotFound) in
  let* compareResult := state in Ok (st, compareResult).

Definition bson_dollar_in (document filter : fields) : res bool :=
  let* '(st, compareResult) := traverse_in document filter in
  Ok (if hasNull st then match compareResult with CompareResult_Mismatch => false | _ => true end
      else match compareResult with CompareResult_Match => true | _ => false end).

Definition bson_dollar_lookup_join_filter (document filter : fields) : res bool := bson_dollar_in document filter.

Definition bson_dollar_nin (document filter : fields) : res bool :=
  let* '(st, compareResult) := traverse_in document filter in
  Ok (if hasNull st then match compareResult with CompareResult_Mismatch => true | _ => false end
      else match compareResult with CompareResult_Match => false | _ => true end).

(** ** [$range] *)

Record DollarRangeParams : Set := {
  minValue : bson_value; maxValue : bson_value; isMinInclusive : bool; isMaxInclusive : bool; isFullScan : bool
}.

(** [bson_iter_bool] is false for a value of another type. *)
Definition bson_iter_bool (v : bson_value) : bool := match v with VBool b => b | _ => false end.

Fixpoint range_fields (rangeIter : fields) (p : DollarRangeParams) : res DollarRangeParams :=
  match rangeIter with
  | [] => Ok p
  | (key, v) :: rest =>
    if strcmp key (str "min") =? 0 then
      range_fields rest {| minValue := v; maxValue := maxValue p; isMinInclusive := isMinInclusive p;
                           isMaxInclusive := isMaxInclusive p; isFullScan := isFullScan p |}
    else if strcmp key (str "max") =? 0 then
      range_fields rest {| minValue := minValue p; maxValue := v; isMinInclusive := isMinInclusive p;
                           isMaxInclusive := isMaxInclusive p; isFullScan := isFullScan p |}
    else if strcmp key (str "minInclusive") =? 0 then
      range_fields rest {| minValue := minValue p; maxValue := maxValue p; isMinInclusive := bson_iter_bool v;
                           isMaxInclusive := isMaxInclusive p; isFullScan := isFullScan p |}
    else if strcmp key (str "maxInclusive") =? 0 then
      range_fields rest {| minValue := minValue p; maxValue := maxValue p; isMinInclusive := isMinInclusive p;
                           isMaxInclusive := bson_iter_bool v; isFullScan := isFullScan p |}
    else if strcmp key (str "fullScan") =? 0 then
      range_fields rest {| minValue := minValue p; maxValue := maxValue p; isMinInclusive := isMinInclusive p;
                           isMaxInclusive := isMaxInclusive p; isFullScan := true |}
    else Err ERRCODE_INTERNAL_ERROR
  end.

Definition InitializeQueryDollarRange (filterValue : bson_value) : res DollarRangeParams :=
  let* rangeIter := BsonValueInitIterator filterValue in
  let* p := range_fields rangeIter {| minValue := VEod; maxValue := VEod; isMinInclusive := false;
                                      isMaxInclusive := false; isFullScan := false |} in
  Ok (if isFullScan p
      then {| minValue := VMinKey; maxValue := VMaxKey; isMinInclusive := true; isMaxInclusive := true;
              isFullScan := true |}
      else p).

Record TraverseRangeValidateState : Set := {
  compareResult : CompareResult; isMinConditionSet : bool; isMaxConditionSet : bool
}.

Section RangeCallbacks.
Variable params : DollarRangeParams.

Definition min_condition (v : bson_value) : res bool :=
  if isMinInclusive params then CompareGreaterEqualMatch (minValue params) None v
  else CompareGreaterMatch (minValue params) None v.
Definition max_condition (v : bson_value) : res bool :=
  if isMaxInclusive params then CompareLessEqualMatch (maxValue params) None v
  else CompareLessMatch (maxValue params) None v.

Definition DollarRangeVisitTopLevelField (element : pgbsonelement) (filterPath : bytes)
  (state : res TraverseRangeValidateState) : bool * res TraverseRangeValidateState :=
  unless_error state (fun s =>
    unless_error (min_condition (snd element)) (fun minCondition =>
      unless_error (max_condition (snd element)) (fun maxCondition =>
        if minCondition && maxCondition
        then (false, Ok {| compareResult := CompareResult_Match; isMinConditionSet := isMinConditionSet s;
                           isMaxConditionSet := isMaxConditionSet s |})
        else (true, Ok {| compareResult := CompareResult_Mismatch; isMinConditionSet := isMinConditionSet s;
                          isMaxConditionSet := isMaxConditionSet s |})))).

Definition DollarRangeVisitArrayField (element : pgbsonelement) (filterPath : bytes) (arrayIndex : Z)
  (state : res TraverseRangeValidateState) : bool * res TraverseRangeValidateState :=
  unless_error state (fun s =>
    let minSet := negb (arrayIndex =? 0) && isMinConditionSet s in
    let maxSet := negb (arrayIndex =? 0) && isMaxConditionSet s in
    unless_error (min_condition (snd element)) (fun minCondition =>
      unless_error (max_condition (snd element)) (fun maxCondition =>
        let minSet := minSet || minCondition in
        let maxSet := maxSet || maxCondition in
        if minSet && maxSet
        then (false, Ok {| compareResult := CompareResult_Match; isMinConditionSet := minSet;
                           isMaxConditionSet := maxSet |})
        else (true, Ok {| compareResult := CompareResult_Mismatch; isMinConditionSet := minSet;
                          isMaxConditionSet := maxSet |})))).

(** The callbacks of the comparison operators on the common part of the state. *)
Definition on_result (f : res CompareResult -> res CompareResult) (state : res TraverseRangeValidateState)
  : res TraverseRangeValidateState :=
  let* s := state in
  let* r := f (Ok (compareResult s)) in
  Ok {| compareResult := r; isMinConditionSet := isMinConditionSet s; isMaxConditionSet := isMaxConditionSet s |}.

Definition CompareDollarRangeExecutionFuncs : TraverseBsonExecutionFuncs (res TraverseRangeValidateState) := {|
  ContinueProcessIntermediateArray v state :=
    (fst (CompareContinueProcessIntermediateArray v (let* s := state in Ok (compareResult s))), state);
  SetTraverseResult := Some (fun r => on_result (CompareSetTraverseResult r));
  VisitArrayField := Some DollarRangeVisitArrayField;
  VisitTopLevelField := DollarRangeVisitTopLevelField;
  SetIntermediateArrayIndex := None;
  HandleIntermediateArrayPathNotFound := None;
  SetIntermediateArrayStartEnd := None |}.
End RangeCallbacks.

Definition bson_dollar_range (document filter : fields) : res bool :=
  let* '(_, filterValue) := BsonIterToSinglePgbsonElement EnableCollation filter in
  let* params := InitializeQueryDollarRange filterValue in
  let* '((path, filterValue), collationString) := read_filter EnableCollation filter in
  if EnableCollation && IsCollationValid collationString then Err ERRCODE_DOCUMENTDB_INTERNALERROR
  else if isFullScan params then Ok true
  else
    let* state := TraverseBson (CompareDollarRangeExecutionFuncs params) SkipBsonArrayTraverseOptimization document
                    path (Ok {| compareResult := CompareResult_PathNotFound; isMinConditionSet := false;
                                isMaxConditionSet := false |}) in
    let* s := state in
    let isNullFilterEquality := if isMaxInclusive params || isMinInclusive params
                                then Some IsQueryFilterNullForValue else None in
    Ok (ProcessQueryResultAndGetMatch isNullFilterEquality filterValue (compareResult s)).

End Sets.

(** ** The 32-bit hash respects equality *)

Section HashAgreement.
Context {BL : BidLib} {Laws : BidLaws BL} {LB : LibBson} {LBLaws : LibBsonLaws LB} {PG : PgHash} {VM : ValueMemory}.

Lemma BsonValueHashUint32_total v : exists h, BsonValueHashUint32 v = Ok h.
Proof.
  destruct v; try (eexists; reflexivity); cbn [BsonValueHashUint32].
  - destruct (sf_isnan _); [eauto|]. unfold hash_if_int64.
    destruct (double_int64_total bits) as [[] ->]; cbn [res_bind]; [eexists; reflexivity|eauto].
  - unfold IsDecimal128NaN. rewrite GetBID_dec. cbn [res_bind]. destruct (bid128_isNaN d); [eauto|].
    unfold hash_if_int64. destruct (decimal_int64_total d) as ([] & -> & H); cbn [res_bind]; [|eauto].
    destruct (H eq_refl) as [z ->]. eexists; reflexivity.
Qed.

Lemma hash32_integer v n : value_ok v -> BsonValueIsNumber v = true -> hash_safe v -> is_int64 v n ->
  BsonValueHashUint32 v = Ok (hash_bytes (int64_bytes n)).
Proof.
  intros Hv Hn Hs Hi. destruct v; try discriminate; cbn [BsonValueHashUint32 hash_safe] in *.
  - destruct Hs as [Nan Hs].
    replace (sf_isnan (sf_of_bits bits)) with false
      by (unfold double_ext in Nan; destruct (sf_of_bits bits); cbn in *; congruence).
    unfold hash_if_int64. rewrite (Hs n Hi). cbn [res_bind]. now rewrite (double_as_int64 _ _ Hi).
  - destruct Hi as [_ E]. apply (proj1 (inject_Z_injective _ _)) in E. now subst.
  - destruct Hi as [_ E]. apply (proj1 (inject_Z_injective _ _)) in E. now subst.
  - unfold IsDecimal128NaN. rewrite GetBID_dec. cbn [res_bind].
    rewrite isNaN_law by exact Hv. pose proof Hi as [_ E]. cbn [num_ext] in E.
    destruct (dec_ext d) eqn:Ed; try easy. unfold hash_if_int64.
    destruct (decimal_is_int64 d n Hv Hi) as [-> ->]. reflexivity.
Qed.

Lemma hash32_numbers l r : value_ok l -> value_ok r -> hash_safe l -> hash_safe r ->
  BsonValueIsNumber l = true -> BsonValueIsNumber r = true ->
  ext_eq (num_key l) (num_key r) -> BsonValueHashUint32 l = BsonValueHashUint32 r.
Proof. exact (safe_numbers_agree BsonValueHashUint32 _ hash32_integer l r). Qed.

(** Numbers whose hash agrees with their comparison. *)
Definition number_safe (v : bson_value) : Prop :=
  match v with VDouble _ | VDecimal128 _ => hash_safe v | _ => True end.

(** The values that go into the hash set and hash by their content. *)
Definition set_entry (e : bson_value) : Prop :=
  value_ok e /\ number_safe e /\
  match e with VNull | VRegex _ _ | VDocument _ | VArray _ | VCodeWScope _ _ => False | _ => True end.

Lemma number_safe_hash_safe v : BsonValueIsNumber v = true -> number_safe v -> hash_safe v.
Proof. now destruct v. Qed.

Lemma hash32_order v e : value_ok v -> number_safe v -> set_entry e -> value_order None v e = 0 ->
  BsonValueHashUint32 v = BsonValueHashUint32 e.
Proof.
  intros Hv Sv (He & Se & Te) E. pose proof (value_order_same_class _ _ E) as C.
  destruct (BsonValueIsNumber v) eqn:Nv.
  - assert (Ne : BsonValueIsNumber e = true) by (destruct v, e; try discriminate; reflexivity).
    apply hash32_numbers; auto using number_safe_hash_safe. apply ext_cmp_0.
    destruct v; try discriminate Nv; cbn [value_order] in E; now apply lexz_0 in E as [_ E].
  - destruct v; try discriminate Nv; destruct e; try discriminate C; try contradiction;
      cbn [value_order string_payload string_order] in E; apply lexz_0 in E as [_ E];
      repeat match goal with
        | H : lexz _ _ = 0 |- _ => apply lexz_0 in H as [? ?]
        | H : cmp_bytes _ _ = 0 |- _ => apply (proj1 (cmp_bytes_0 _ _)) in H; subst
        | H : cmpz _ _ = 0 |- _ => apply (proj1 (cmpz_0 _ _)) in H; subst
        end; try reflexivity.
    apply ext_cmp_0, VBool_key_inj in E. now subst.
Qed.

Lemma order_sym v e : value_order None v e = 0 <-> value_order None e v = 0.
Proof. pose proof (anti2_value_order None no_collation v e) as A. unfold anti2 in A. lia. Qed.

Lemma order_trans a b c : value_order None a b = 0 -> value_order None b c = 0 -> value_order None a c = 0.
Proof. intros E1 E2. destruct (trans3_value_order None no_collation a b c). lia. Qed.
End HashAgreement.

(** ** [$in] is a disjunction of [$eq] *)

Section InCorrect.
Context {BL : BidLib} {Laws : BidLaws BL} {LB : LibBson} {LBLaws : LibBsonLaws LB} {PG : PgHash} {VM : ValueMemory}
  {RE : Pcre2} {IC : IcuSortKey}.
Variables EnableCollation SkipBsonArrayTraverseOptimization : bool.

(** Membership up to equality in the order of values. *)
Definition member (v : bson_value) (es : list bson_value) : bool :=
  existsb (fun e => value_order None v e =? 0) es.

Lemma set_compare_order a b : value_ok a -> value_ok b ->
  exists c, set_compare EnableCollation None a b = Ok c /\ (c = 0 <-> value_order None b a = 0).
Proof.
  intros Ha Hb. unfold set_compare, IsCollationApplicable. cbn [IsCollationValid]. rewrite andb_false_r.
  destruct (CompareBsonValueAndType_answers None no_collation a b Ha Hb) as (c & valid & E & S & _).
  change (CompareBsonValueAndTypeWithCollation a b None) with (CompareBsonValueAndType a b) in E. rewrite E.
  exists c. split; [reflexivity|]. unfold same_sign in S. rewrite (order_sym b a). lia.
Qed.

Lemma set_hash_plain v : set_hash EnableCollation None v = add_uint32 0 (BsonValueHashUint32 v).
Proof. now destruct v. Qed.

Lemma hash_search_member v es : value_ok v -> number_safe v -> Forall set_entry es ->
  hash_search EnableCollation None v es = Ok (member v es).
Proof.
  intros Hv Sv He. unfold hash_search. rewrite set_hash_plain.
  destruct (BsonValueHashUint32_total v) as [h Eh]. rewrite Eh. cbn [add_uint32 res_bind].
  induction He as [|e es Hs _ IH]; [reflexivity|]. cbn [hash_search_find].
  rewrite set_hash_plain. destruct (BsonValueHashUint32_total e) as [h' Eh']. rewrite Eh'.
  cbn [add_uint32 res_bind member existsb]. unfold member in IH. rewrite IH.
  destruct (set_compare_order e v (proj1 Hs) Hv) as (c & -> & Hc). cbn [res_bind].
  destruct (Z.eqb_spec (value_order None v e) 0) as [O|O].
  - pose proof (hash32_order v e Hv Sv Hs O) as E. rewrite Eh, Eh' in E. injection E as <-.
    rewrite Z.eqb_refl. now rewrite (proj2 Hc O).
  - destruct (Z.eqb_spec c 0) as [->|]; [elim O; now apply Hc|]. now destruct (_ =? _).
Qed.

Lemma populate_in_entries items : Forall (fun kv => set_entry (snd kv)) items ->
  forall rs entries null, Forall set_entry entries -> exists entries',
  populate_in EnableCollation None items (rs, entries, null) = Ok (rs, entries', null) /\ Forall set_entry entries' /\
  forall v, member v entries' = member v (entries ++ map snd items).
Proof.
  induction 1 as [|[k e] items He _ IH]; intros rs entries null Hn.
  - exists entries. split; [reflexivity|]. split; [exact Hn|]. intros v. now rewrite app_nil_r.
  - cbn [snd] in He.
    assert (Step : populate_in EnableCollation None ((k, e) :: items) (rs, entries, null) =
      res_bind (hash_search EnableCollation None e entries) (fun found =>
        populate_in EnableCollation None items (rs, if found then entries else entries ++ [e], null)))
      by (destruct He as (_ & _ & T); destruct e; try contradiction; reflexivity).
    rewrite Step, hash_search_member by (apply He || exact Hn). cbn [res_bind].
    assert (Hn' : Forall set_entry (if member e entries then entries else entries ++ [e]))
      by (destruct (member e entries); [exact Hn|apply Forall_app; auto]).
    destruct (IH rs _ null Hn') as (entries' & E & F & M). exists entries'. split; [exact E|]. split; [exact F|].
    intros v. rewrite M. cbn [map]. unfold member. rewrite !existsb_app. cbn [existsb snd].
    destruct (existsb _ entries) eqn:X; [|rewrite existsb_app; cbn; now rewrite orb_false_r, orb_assoc].
    apply existsb_exists in X as (e' & I & X). apply Z.eqb_eq in X.
    destruct (Z.eqb_spec (value_order None v e) 0) as [O|O]; [|reflexivity]. cbn.
    replace (existsb (fun e0 => value_order None v e0 =? 0) entries) with true by (symmetry; apply existsb_exists;
      exists e'; split; [exact I|apply Z.eqb_eq; now apply (order_trans v e e')]).
    reflexivity.
Qed.

Lemma dollar_in_nin (document filter : fields) (segs : list bytes) (items : fields) :
  path_ok segs -> read_filter EnableCollation filter = Ok ((join_path segs, VArray items), None) ->
  Forall (fun kv => set_entry (snd kv)) items -> doc_ok document ->
  Forall number_safe (values_at SkipBsonArrayTraverseOptimization segs document) ->
  let found := existsb (fun v => member v (map snd items)) (values_at SkipBsonArrayTraverseOptimization segs document) in
  bson_dollar_in EnableCollation SkipBsonArrayTraverseOptimization document filter = Ok found /\
  bson_dollar_nin EnableCollation SkipBsonArrayTraverseOptimization document filter = Ok (negb found).
Proof.
  intros Hp Hf Hi Hd Hs found. unfold bson_dollar_in, bson_dollar_nin, traverse_in, PopulateDollarInStateFromQuery. rewrite Hf.
  cbn [res_bind snd BsonValueInitIterator].
  destruct (populate_in_entries items Hi [] [] false) as (entries & -> & F & M); [constructor|].
  cbn [res_bind filterElement fst].
  match goal with |- context [CompareInMatch _ ?s] => set (st := s) end.
  destruct (traverse_any SkipBsonArrayTraverseOptimization (CompareInMatch EnableCollation st) segs document
    CompareResult_PathNotFound Hp) as (state & -> & V); [discriminate|].
  rewrite (any_match_Ok _ (fun v => member v (map snd items))) in V.
  2:{ pose proof (values_at_ok SkipBsonArrayTraverseOptimization segs document Hd) as Ho.
      apply Forall_forall. intros v I. rewrite Forall_forall in Ho, Hs.
      unfold CompareInMatch. cbn [st filterElement snd BsonValueInitIterator res_bind hasNull andb in_collation
        bsonValueHashSet regexList any_regex].
      rewrite hash_search_member by auto. cbn [res_bind]. rewrite M. now destruct (member v _). }
  cbn [res_bind]. fold found in V. destruct state as [[]|]; cbn in V; try discriminate V; injection V as <-; split; reflexivity.
Qed.

(** C32: [$in] without collation, with a dotted path, a well-formed document and an
    array of elements that are no null, regular expression, document, array or code with
    scope: when the doubles and decimals among the elements and among the values on the path
    are such that hashing agrees with comparison (no NaN, integral doubles only when the
    code recognizes them as integers, decimals only when they are 64-bit integers), it
    raises no error and matches exactly when some value the path leads to is equal to some
    element: the hash set, its deduplication and its hash function lose no match. *)
Theorem bson_dollar_in_member (document filter : fields) (segs : list bytes) (items : fields) :
  path_ok segs -> read_filter EnableCollation filter = Ok ((join_path segs, VArray items), None) ->
  Forall (fun kv => set_entry (snd kv)) items -> doc_ok document ->
  Forall number_safe (values_at SkipBsonArrayTraverseOptimization segs document) ->
  bson_dollar_in EnableCollation SkipBsonArrayTraverseOptimization document filter =
  Ok (existsb (fun v => member v (map snd items)) (values_at SkipBsonArrayTraverseOptimization segs document)).
Proof. intros Hp Hf Hi Hd Hs. now apply (dollar_in_nin document filter segs items). Qed.
End InCorrect.

(** ** [$range] *)

Section RangeCorrect.
Context {BL : BidLib} {Laws : BidLaws BL} {LB : LibBson} {LBLaws : LibBsonLaws LB}.
Variables EnableCollation SkipBsonArrayTraverseOptimization : bool.

Lemma reach_plain segs : forall d, path_ok segs -> plain_path segs d = true ->
  reach SkipBsonArrayTraverseOptimization segs false d =
  match resolve segs d with
  | None => []
  | Some v => VisitedField v :: match v with VArray items => numbered 0 items | _ => [] end
  end.
Proof.
  induction segs as [|key [|next rest] IH]; intros d (Hne & Hd & Hn) Hp; [easy|reflexivity|].
  set (tail := next :: rest) in *. inversion_clear Hd. inversion_clear Hn.
  change (plain_path (key :: tail) d) with
    (match lookup d key with Some (VDocument d') => plain_path tail d' | Some (VArray _) => false | _ => true end) in Hp.
  change (resolve (key :: tail) d) with (match lookup d key with Some (VDocument d') => resolve tail d' | _ => None end).
  cbn [reach]. unfold tail. fold tail. destruct (lookup d key) as [[]|]; try reflexivity; [|discriminate].
  apply IH; [|exact Hp]. split; [discriminate|]. now split.
Qed.

Section OneRange.
Variable params : DollarRangeParams.
Local Open Scope res_scope.

Definition range_view (state : res TraverseRangeValidateState) : res (bool * bool * bool) :=
  let* s := state in
  Ok (match compareResult s with CompareResult_Match => true | _ => false end, isMinConditionSet s, isMaxConditionSet s).

Definition range_ended (a : res (bool * bool * bool)) : bool :=
  match a with Ok (false, _, _) => false | _ => true end.

Definition range_step (x : visit) (a : res (bool * bool * bool)) : res (bool * bool * bool) :=
  let* '(_, mn, mx) := a in
  let* c1 := min_condition params (visited x) in
  let* c2 := max_condition params (visited x) in
  match x with
  | VisitedField _ => Ok (c1 && c2, mn, mx)
  | VisitedElement i _ =>
    let mn := (negb (i =? 0) && mn) || c1 in
    let mx := (negb (i =? 0) && mx) || c2 in Ok (mn && mx, mn, mx)
  end.

Lemma range_fold : VisitFold (CompareDollarRangeExecutionFuncs params) range_view range_ended range_step.
Proof.
  split; intros; cbn in *;
    unfold DollarRangeVisitTopLevelField, DollarRangeVisitArrayField, not_found, on_result in *; cbn;
    destruct st as [[[] mn mx]|]; cbn in *; try discriminate; try reflexivity.
  all: try (destruct r; reflexivity).
  all: destruct (min_condition params (snd e)) as [c1|]; cbn; [|split; reflexivity];
    destruct (max_condition params (snd e)) as [c2|]; cbn; [|split; reflexivity].
  all: match goal with |- context [if ?b then (false, _) else _] => destruct b eqn:B end;
    cbn; rewrite ?B; split; reflexivity.
Qed.

(** The conditions as booleans. *)
Variables above below : bson_value -> bool.

Lemma range_elements items : Forall (fun kv => min_condition params (snd kv) = Ok (above (snd kv)) /\
    max_condition params (snd kv) = Ok (below (snd kv))) items ->
  forall i mn mx, 0 < i -> i + Z.of_nat (List.length items) <= INT32_MAX -> mn && mx = false -> exists a b,
  fold_visits range_ended range_step (numbered i items) (Ok (false, mn, mx)) =
  Ok ((mn || existsb above (map snd items)) && (mx || existsb below (map snd items)), a, b).
Proof.
  induction 1 as [|[k v] items [Ea Eb] _ IH]; intros i mn mx Hi Hl Hm.
  - exists mn, mx. cbn. now rewrite !orb_false_r, Hm.
  - cbn [numbered fold_visits fold_left range_ended snd] in *. unfold range_step at 2. cbn [res_bind visited].
    rewrite Ea, Eb. cbn [res_bind map existsb snd].
    destruct (Z.eqb_spec i 0) as [|_]; [lia|]. cbn [negb andb].
    cbn [List.length] in Hl. rewrite !orb_assoc. destruct ((mn || above v) && (mx || below v)) eqn:B.
    + apply andb_prop in B as [-> ->]. cbn [andb orb]. do 2 eexists. now apply (fold_visits_stopped (stopped := range_ended)).
    + rewrite wrap_s32_id by (zbounds; lia). apply IH; [lia|lia|exact B].
Qed.

Lemma range_array items mn mx : Forall (fun kv => min_condition params (snd kv) = Ok (above (snd kv)) /\
    max_condition params (snd kv) = Ok (below (snd kv))) items -> Z.of_nat (List.length items) <= INT32_MAX ->
  exists a b, fold_visits range_ended range_step (numbered 0 items) (Ok (false, mn, mx)) =
    Ok (existsb above (map snd items) && existsb below (map snd items), a, b).
Proof.
  intros F Hl. destruct F as [|[k v] items [Ea Eb] F]; [exists mn, mx; reflexivity|].
  cbn [numbered fold_visits fold_left range_ended snd] in *. unfold range_step at 2. cbn [res_bind visited].
  rewrite Ea, Eb. cbn [res_bind map existsb snd Z.eqb negb andb orb].
  destruct (above v && below v) eqn:B.
  - apply andb_prop in B as [-> ->]. do 2 eexists. now apply (fold_visits_stopped (stopped := range_ended)).
  - cbn [List.length] in Hl. rewrite wrap_s32_id by (zbounds; lia). apply range_elements; [exact F|lia|lia|exact B].
Qed.
End OneRange.

(** A bound of the range as a condition on the order of values. *)
Definition above_min (p : DollarRangeParams) (v : bson_value) : bool :=
  (is_bound (minValue p) || comparable v (minValue p)) &&
  (if isMinInclusive p then value_order None v (minValue p) >=? 0 else value_order None v (minValue p) >? 0).
Definition below_max (p : DollarRangeParams) (v : bson_value) : bool :=
  (is_bound (maxValue p) || comparable v (maxValue p)) &&
  (if isMaxInclusive p then value_order None v (maxValue p) <=? 0 else value_order None v (maxValue p) <? 0).

Lemma range_conditions p v : value_ok (minValue p) -> value_ok (maxValue p) -> value_ok v -> v <> VEod ->
  min_condition p v = Ok (above_min p v) /\ max_condition p v = Ok (below_max p v).
Proof.
  intros Hn Hx Hv N. unfold min_condition, max_condition, above_min, below_max.
  destruct (comparison_order None (minValue p) v no_collation Hn Hv N) as (_ & G & Ge & _ & _).
  destruct (comparison_order None (maxValue p) v no_collation Hx Hv N) as (_ & _ & _ & L & Le).
  split; [destruct (isMinInclusive p)|destruct (isMaxInclusive p)]; assumption.
Qed.

Lemma range_filter_not_null fv p : InitializeQueryDollarRange fv = Ok p ->
  IsQueryFilterNullForValue fv = false.
Proof. now destruct fv. Qed.

(** [$range] on a path without intermediate arrays: the field is inside both
    bounds, or it is an array of which one element is above the lower bound and
    one, maybe another, is below the upper bound. *)
Theorem bson_dollar_range_spec (document filter : fields) (segs : list bytes) (fv : bson_value) (p : DollarRangeParams) :
  path_ok segs -> plain_path segs document = true ->
  BsonIterToSinglePgbsonElement EnableCollation filter = Ok (join_path segs, fv) ->
  read_filter EnableCollation filter = Ok ((join_path segs, fv), None) ->
  InitializeQueryDollarRange fv = Ok p -> isFullScan p = false ->
  value_ok (minValue p) -> value_ok (maxValue p) ->
  (forall v, resolve segs document = Some v -> Forall (fun w => value_ok w /\ w <> VEod) (leaf_values v)) ->
  (forall items, resolve segs document = Some (VArray items) -> Z.of_nat (List.length items) <= INT32_MAX) ->
  bson_dollar_range EnableCollation SkipBsonArrayTraverseOptimization document filter =
  Ok (match resolve segs document with
      | None => false
      | Some v => (above_min p v && below_max p v) ||
          match v with
          | VArray items => existsb (above_min p) (map snd items) && existsb (below_max p) (map snd items)
          | _ => false
          end
      end).
Proof.
  intros Hp Hpl Hs Hf Hi Hfs Hn Hx Hv Hl. pose proof Hp as (Hne & Hd & Hnn).
  unfold bson_dollar_range. rewrite Hs. cbn [res_bind]. rewrite Hi, Hf. cbn [res_bind IsCollationValid].
  rewrite andb_false_r, Hfs.
  set (start := {| compareResult := _; isMinConditionSet := _; isMaxConditionSet := _ |}).
  destruct (TraverseBson_fold (F := range_fold p) SkipBsonArrayTraverseOptimization segs document (Ok start)
    Hne Hd Hnn eq_refl) as (st & -> & V). cbn [res_bind].
  rewrite reach_plain in V by assumption.
  assert (R : exists a b, range_view st = Ok (match resolve segs document with
      | None => false
      | Some v => (above_min p v && below_max p v) ||
          match v with
          | VArray items => existsb (above_min p) (map snd items) && existsb (below_max p) (map snd items)
          | _ => false
          end
      end, a, b)).
  { rewrite V. destruct (resolve segs document) as [v|]; [|do 2 eexists; reflexivity].
    specialize (Hv v eq_refl). inversion_clear Hv as [|? ? [Ho He] Hes].
    destruct (range_conditions p v Hn Hx Ho He) as [Ea Eb].
    cbn [fold_visits fold_left range_view start res_bind compareResult isMinConditionSet isMaxConditionSet range_ended].
    unfold range_step at 2. cbn [res_bind visited]. rewrite Ea, Eb. cbn [res_bind].
    destruct (above_min p v && below_max p v); cbn [orb].
    - do 2 eexists. now apply (fold_visits_stopped (stopped := range_ended)).
    - destruct v; try (do 2 eexists; reflexivity). apply range_array; [|now apply Hl].
      apply Forall_map in Hes. eapply Forall_impl; [|exact Hes]. intros kv [? ?]. now apply range_conditions. }
  destruct R as (a & b & R). destruct st as [s|]; [|discriminate R]. cbn in R. injection R as <- _ _. cbn [res_bind].
  unfold ProcessQueryResultAndGetMatch. f_equal.
  replace (filter_is_null _ fv) with false; [reflexivity|].
  destruct (_ || _); cbn [filter_is_null]; [|reflexivity]. symmetry. now apply (range_filter_not_null fv p).
Qed.
End RangeCorrect.

(** ** Concrete queries *)

Section Witnesses.
#[local] Existing Instance RefBidLib.
#[local] Existing Instance RefBidLaws.
#[local] Existing Instance RefLibBson.
#[local] Existing Instance RefLibBsonLaws.
#[local] Existing Instance RefPgHash.
#[local] Existing Instance RefMemory.

(** Patterns without special characters, matched as a whole. *)
#[local] Instance LiteralPcre2 : Pcre2 := {|
  pcre2_code := bytes;
  pcre2_compile p _ _ := Some p;
  pcre2_jit_compile _ := 0;
  pcre2_match code s := if cmp_bytes code s =? 0 then 1 else -1;
  PCRE2_UTF := 2 ^ 19; PCRE2_CASELESS := 8; PCRE2_DOTALL := 32; PCRE2_MULTILINE := 1024; PCRE2_EXTENDED := 128;
  PCRE2_NO_AUTO_CAPTURE := 2 ^ 13; PCRE2_ERROR_NOMEMORY := -48; PCRE2_ERROR_RECURSIONLIMIT := -53
|}.
#[local] Instance IdentitySortKey : IcuSortKey := {| ucol_getSortKey _ key := key |}.

(** { "a.b" : { "$in" : [ 5, 4, "x" ] } }: the document has 4 as an int32, the
    filter as an int64. *)
Definition in_items : fields := [(str "0", five); (str "1", VInt64 4); (str "2", VUtf8 (str "x"))].
Definition in_filter : fields := [(str "a.b", VArray in_items)].

Lemma query_doc_safe : Forall number_safe (values_at false query_segs query_doc).
Proof.
  apply Forall_cons; [split; [discriminate|]|apply Forall_cons; [exact I|apply Forall_nil]].
  intros n [_ E]. exfalso. revert E. cbn [num_ext five_and_a_half].
  replace (double_ext 4617878467915022336) with (EFin (6192449487634432 # 1125899906842624)) by (vm_compute; reflexivity).
  cbn [ext_eq]. unfold Qeq. cbn [Qnum Qden inject_Z]. lia.
Qed.

Lemma bson_dollar_in_member_witness :
  bson_dollar_in true false query_doc in_filter =
  Ok (existsb (fun v => member v (map snd in_items)) (values_at false query_segs query_doc)).
Proof.
  apply (bson_dollar_in_member true false query_doc in_filter query_segs in_items query_segs_ok eq_refl).
  - repeat (apply Forall_cons; [split; [vm_compute; intuition congruence|split; exact I]|]). apply Forall_nil.
  - exact query_doc_ok.
  - exact query_doc_safe.
Defined.

(** { "a" : [ 1, 9 ] } is matched by the range from 4 to 6, although no element is
    in it. *)
Definition range_filter : fields :=
  [(str "a", VDocument [(str "min", VInt32 4); (str "max", VInt32 6); (str "minInclusive", VBool true)])].
Definition range_doc : fields := [(str "a", VArray [(str "0", VInt32 1); (str "1", VInt32 9)])].
Definition range_params : DollarRangeParams :=
  {| minValue := VInt32 4; maxValue := VInt32 6; isMinInclusive := true; isMaxInclusive := false; isFullScan := false |}.

Lemma bson_dollar_range_spec_witness :
  bson_dollar_range true false range_doc range_filter =
  Ok (match resolve [str "a"] range_doc with
      | None => false
      | Some v => (above_min range_params v && below_max range_params v) ||
          match v with
          | VArray items => existsb (above_min range_params) (map snd items) && existsb (below_max range_params) (map snd items)
          | _ => false
          end
      end).
Proof.
  refine (bson_dollar_range_spec true false range_doc range_filter [str "a"] _ range_params
    _ eq_refl eq_refl eq_refl eq_refl eq_refl _ _ _ _).
  - split; [discriminate|]. split; segs_ok.
  - vm_compute. split; congruence.
  - vm_compute. split; congruence.
  - intros v E. vm_compute in E. injection E as <-.
    repeat constructor; try discriminate; try (vm_compute; congruence);
      try (apply no_nulb_ok; reflexivity); try (repeat split; vm_compute; congruence).
  - intros items E. vm_compute in E. injection E as <-. vm_compute. congruence.
Defined.

Example bson_dollar_range_split : bson_dollar_range true false range_doc range_filter = Ok true.
Proof. vm_compute. reflexivity. Qed.

(** 1.5 as a decimal equals 1.5 as a double, and [$eq] finds it; [$in] does not,
    since the two representations have different hashes. *)
Example bson_dollar_in_decimal :
  let document := [(str "a", VDecimal128 (bid_encode false 15 (-1)))] in
  let one_and_a_half := VDouble 4609434218613702656 in
  bson_dollar_eq true false false document [(str "a", one_and_a_half)] = Ok true /\
  bson_dollar_in true false document [(str "a", VArray [(str "0", one_and_a_half)])] = Ok false.
Proof. split; vm_compute; reflexivity. Qed.

(** A [$regex] given as a string has no options; against a regular expression with
    the same pattern the NULL options are passed to [strcmp]. *)
Example bson_dollar_regex_null_options :
  bson_dollar_regex true false [(str "a", VRegex (Some (str "x")) (Some []))] [(str "a", VUtf8 (str "x"))] =
  Err NULL_DEREFERENCE.
Proof. vm_compute. reflexivity. Qed.
End Witnesses.
