(* ===== verification/OrderBy.v ===== *)
(** * The sort key of a document ([bson_dollar_operators.c])

    [BsonOrderbyCore] computes, for one field of a sort specification, the value a
    document is sorted by: the smallest or largest of the values the path leads
    to.  [bson_orderby_compare] compares two such keys.  The fields of
    [TraverseOrderByValidateState] that the traversal does not change are
    arguments of the callbacks; an error takes the place of the state, as in
    [DollarOperators]. *)

From Stdlib Require Import ZArith Lia Bool String List Sorted.
From Stdlib Require Import Strings.Byte.
From S2P Require Import Prelude SoftFloat BsonTypes StringView Decimal128 BsonCompare BsonOrder RefBid BsonRefine.
From S2P Require Import Traversal PgbsonElement DollarMatch DollarOperators DollarSets.
Import ListNotations.
Local Open Scope Z_scope.

Definition CustomOrderByOptions_Default : Z := 0x0.
Definition CustomOrderByOptions_AllowOnlyDates : Z := 0x1.
Definition CustomOrderByOptions_AllowOnlyNumbers : Z := 0x2.

Record TraverseOrderByValidateState : Set := {
  traverseState : CompareResult;
  orderByValue : bson_value;
  nestedArrayCount : Z
}.

Section OrderBy.
Context {BL : BidLib} {LB : LibBson}.
(** Settings of the extension. *)
Variables EnableCollation UseLegacyOrderByBehavior SkipBsonArrayTraverseOptimization : bool.
Local Open Scope res_scope.

Section Callbacks.
Variable isOrderByMin : bool.
Variable options : Z.
Variable collationString : option bytes.

Definition set_orderByValue (v : bson_value) (s : TraverseOrderByValidateState) : TraverseOrderByValidateState :=
  {| traverseState := traverseState s; orderByValue := v; nestedArrayCount := nestedArrayCount s |}.

Definition CompareForOrderBy (element : bson_value) (s : TraverseOrderByValidateState)
  : res TraverseOrderByValidateState :=
  if type_eqb (value_type (orderByValue s)) BSON_TYPE_EOD then Ok (set_orderByValue element s)
  else
    let* '(sortOrderCmp, _) :=
      (if IsCollationApplicable EnableCollation collationString
       then CompareBsonValueAndTypeWithCollation element (orderByValue s) collationString
       else CompareBsonValueAndType element (orderByValue s)) in
    if (sortOrderCmp >? 0) && negb isOrderByMin then Ok (set_orderByValue element s)
    else if (sortOrderCmp <? 0) && isOrderByMin then Ok (set_orderByValue element s)
    else Ok s.

(** A callback that continues unless it raises an error. *)
Definition continue_unless_error (r : res TraverseOrderByValidateState) : bool * res TraverseOrderByValidateState :=
  match r with Ok s => (true, Ok s) | Err e => (false, Err e) end.

Definition has_option (option : Z) : bool := Z.land options option =? option.

Definition OrderByVisitTopLevelField (element : pgbsonelement) (filterPath : bytes)
  (state : res TraverseOrderByValidateState) : bool * res TraverseOrderByValidateState :=
  unless_error state (fun s =>
    let type := value_type (snd element) in
    if has_option CustomOrderByOptions_AllowOnlyDates && negb (type_eqb type BSON_TYPE_DATE_TIME)
    then (false, Err ERRCODE_DOCUMENTDB_LOCATION5429513)
    else if has_option CustomOrderByOptions_AllowOnlyNumbers && negb (BsonTypeIsNumber type)
    then (false, Err ERRCODE_DOCUMENTDB_LOCATION5429414)
    else if type_eqb type BSON_TYPE_ARRAY then (true, Ok s)
    else continue_unless_error (CompareForOrderBy (snd element) s)).

Definition OrderByVisitArrayField (element : pgbsonelement) (filterPath : bytes) (arrayIndex : Z)
  (state : res TraverseOrderByValidateState) : bool * res TraverseOrderByValidateState :=
  unless_error state (fun s => continue_unless_error (CompareForOrderBy (snd element) s)).

Definition OrderByContinueProcessIntermediateArray (value : bson_value)
  (state : res TraverseOrderByValidateState) : bool * res TraverseOrderByValidateState :=
  unless_error state (fun s => (true, Ok s)).

Definition OrderByHandleIntermediateArrayPathNotFound (arrayIndex : Z) (remainingPath : bytes)
  (state : res TraverseOrderByValidateState) : res TraverseOrderByValidateState :=
  let* s := state in
  if UseLegacyOrderByBehavior then Ok s
  else if (nestedArrayCount s >? 0) && negb (type_eqb (value_type (orderByValue s)) BSON_TYPE_EOD) then Ok s
  else CompareForOrderBy VNull s.

Definition OrderBySetIntermediateArrayStartEnd (isStart : bool) (state : res TraverseOrderByValidateState)
  : res TraverseOrderByValidateState :=
  let* s := state in
  if UseLegacyOrderByBehavior then Ok s
  else Ok {| traverseState := traverseState s; orderByValue := orderByValue s;
             nestedArrayCount := wrap_s 32 (nestedArrayCount s + (if isStart then 1 else -1)) |}.

Definition OrderBySetTraverseResult (compareResult : TraverseBsonResult) (state : res TraverseOrderByValidateState)
  : res TraverseOrderByValidateState :=
  let* s := state in
  let* s :=
    match compareResult with
    | TraverseBsonResult_PathNotFound =>
      if (nestedArrayCount s >? 0) && negb UseLegacyOrderByBehavior then CompareForOrderBy VNull s else Ok s
    | TraverseBsonResult_TypeMismatch => Ok s
    end in
  let* r := CompareSetTraverseResult compareResult (Ok (traverseState s)) in
  Ok {| traverseState := r; orderByValue := orderByValue s; nestedArrayCount := nestedArrayCount s |}.

Definition OrderByExecutionFuncs : TraverseBsonExecutionFuncs (res TraverseOrderByValidateState) := {|
  ContinueProcessIntermediateArray := OrderByContinueProcessIntermediateArray;
  SetTraverseResult := Some OrderBySetTraverseResult;
  VisitArrayField := Some OrderByVisitArrayField;
  VisitTopLevelField := OrderByVisitTopLevelField;
  SetIntermediateArrayIndex := None;
  HandleIntermediateArrayPathNotFound := Some OrderByHandleIntermediateArrayPathNotFound;
  SetIntermediateArrayStartEnd := Some OrderBySetIntermediateArrayStartEnd |}.
End Callbacks.

Definition TryCheckMetaScoreOrderBy (value : bson_value) : res bool :=
  match value with
  | VDocument d =>
    match TryGetBsonValueToPgbsonElement (Some d) with
    | Some (path, v) =>
      if (blen path =? 5) && (strncmp path (str "$meta") 5 =? 0) then
        match v with
        | VUtf8 s =>
          if negb (blen s =? 9) || negb (strncmp s (str "textScore") 9 =? 0) then Err ERRCODE_DOCUMENTDB_LOCATION31138
          else match TryGetSinglePgbsonElementFromBsonIterator d with
               | None => Err ERRCODE_DOCUMENTDB_FAILEDTOPARSE
               | Some _ => Ok true
               end
        | _ => Err ERRCODE_DOCUMENTDB_LOCATION31138
        end
      else Ok false
    | None => Ok false
    end
  | _ => Ok false
  end.

(** The rank PostgreSQL's text search gives a document, a double. *)
Variable EvaluateMetaTextScore : fields -> res Z.

Definition collation_field (collationString : option bytes) : fields :=
  match collationString with
  | Some c => if IsCollationApplicable EnableCollation collationString then [(str "collation", VUtf8 c)] else []
  | None => []
  end.

Definition BsonOrderbyCore (document filter : fields) (collationString : option bytes) (validateSort : bool)
  (options : Z) : res fields :=
  let* '(path, filterValue) := BsonIterToSinglePgbsonElement EnableCollation filter in
  let* meta := TryCheckMetaScoreOrderBy filterValue in
  if meta : bool then
    let* ranking := EvaluateMetaTextScore document in Ok [(str "rank", VDouble ranking)]
  else if negb (BsonValueIsNumber filterValue) && validateSort then Err ERRCODE_DOCUMENTDB_BADVALUE
  else
    let* orderBy := BsonValueAsInt32 filterValue in
    let isOrderByMin := orderBy =? 1 in
    let* state := TraverseBson (OrderByExecutionFuncs isOrderByMin options collationString)
      SkipBsonArrayTraverseOptimization document path
      (Ok {| traverseState := CompareResult_PathNotFound; orderByValue := VEod; nestedArrayCount := 0 |}) in
    let* s := state in
    Ok ((path, match orderByValue s with VEod => VUndefined | v => v end) :: collation_field collationString).

Definition BsonOrderby (document filter : fields) (validateSort : bool) (collationString : option bytes) : res fields :=
  BsonOrderbyCore document filter collationString validateSort CustomOrderByOptions_Default.

(** The third argument is the SQL collation argument, if there is one. *)
Definition command_bson_orderby (document filter : fields) (collation : option bytes) : res fields :=
  let collationString := if EnableCollation then collation else None in
  BsonOrderbyCore document filter collationString true CustomOrderByOptions_Default.

Definition bson_orderby_partition (document filter : fields) (isTimeRangeWindow : bool) (collation : option bytes)
  : res fields :=
  let collationString := if EnableCollation then collation else None in
  let options := if isTimeRangeWindow then CustomOrderByOptions_AllowOnlyDates else CustomOrderByOptions_AllowOnlyNumbers in
  BsonOrderbyCore document filter collationString true options.

(** ** Comparing sort keys *)

Definition applicable (collationString : option bytes) : option bytes :=
  if IsCollationApplicable EnableCollation collationString then collationString else None.

Definition bson_orderby_compare (left right : fields) : res Z :=
  let* '((_, leftValue), collationLeft) := PgbsonToSinglePgbsonElementWithCollation left in
  let* '((_, rightValue), collationRight) := PgbsonToSinglePgbsonElementWithCollation right in
  match applicable collationLeft, applicable collationRight with
  | Some l, Some r =>
    if negb (strcmp l r =? 0) then Ok (strcmp l r)
    else let* '(cmp, _) := CompareBsonValueAndTypeWithCollation leftValue rightValue (Some l) in Ok cmp
  | Some _, None => Ok 1
  | None, Some _ => Ok (-1)
  | None, None => let* '(cmp, _) := CompareBsonValueAndType leftValue rightValue in Ok cmp
  end.

Definition bson_orderby_lt (left right : fields) : res bool :=
  let* cmp := bson_orderby_compare left right in Ok (cmp <? 0).
Definition bson_orderby_eq (left right : fields) : res bool :=
  let* cmp := bson_orderby_compare left right in Ok (cmp =? 0).
Definition bson_orderby_gt (left right : fields) : res bool :=
  let* cmp := bson_orderby_compare left right in Ok (cmp >? 0).
End OrderBy.

(** ** The reference: candidates and the best of them *)

(** What the traversal offers as the sort key: a value the path leads to, a null
    for a document below an array that lacks the path, or a null for an element
    that cannot be traversed, which counts only while there is no other. *)
Inductive candidate : Set :=
| Reached (v : bson_value)
| Missing
| Untraversable.

Section Reference.
Variables legacy skip : bool.

(** Whether a path is reported as missing in a document. *)
Fixpoint path_missing (segs : list bytes) (d : fields) : bool :=
  match segs with
  | [] => false
  | key :: rest =>
    match lookup d key, rest with
    | None, _ => true
    | Some _, [] => false
    | Some (VDocument d'), _ => path_missing rest d'
    | Some (VArray items), next :: _ =>
      (if tries_index skip next then path_missing rest items else true) &&
      existsb (path_missing rest) (documents items)
    | Some _, _ => false
    end
  end.

(** The nulls are offered only in the current mode. *)
Definition modern (c : list candidate) : list candidate := if legacy then [] else c.

(** [nested] says whether the document is an element of an intermediate array. *)
Fixpoint candidates (segs : list bytes) (byIndex nested : bool) (d : fields) : list candidate :=
  match segs with
  | [] => []
  | key :: rest =>
    let missing := if nested then modern [Missing] else [] in
    match rest with
    | [] =>
      match lookup d key with
      | None => missing
      | Some (VArray items) => if byIndex then [] else map (fun kv => Reached (snd kv)) items
      | Some v => [Reached v]
      end
    | next :: _ =>
      match lookup d key with
      | Some (VDocument d') => candidates rest false nested d'
      | Some (VArray items) =>
        (if tries_index skip next then candidates rest true nested items else []) ++
        flat_map (fun kv =>
          match snd kv with
          | VDocument d' =>
            candidates rest false true d' ++ (if path_missing rest d' then modern [Untraversable] else [])
          | _ => modern [Untraversable]
          end) items ++
        (if path_missing segs d then missing else [])
      | _ => missing
      end
    end
  end.
End Reference.

(** The candidates that count. *)
Definition candidate_values (c : list candidate) : list bson_value :=
  let known := filter (fun x => match x with Untraversable => false | _ => true end) in
  match c with
  | Untraversable :: c' => VNull :: map (fun x => match x with Reached v => v | _ => VNull end) (known c')
  | _ => map (fun x => match x with Reached v => v | _ => VNull end) (known c)
  end.

Section Correctness.
Context {BL : BidLib} {Laws : BidLaws BL} {LB : LibBson} {LBLaws : LibBsonLaws LB}.
Variables EnableCollation UseLegacyOrderByBehavior SkipBsonArrayTraverseOptimization : bool.
Variable EvaluateMetaTextScore : fields -> res Z.
Variable isOrderByMin : bool.
Variable collationString : option bytes.
Hypothesis collation_ok : collation_total (applicable EnableCollation collationString).

Local Abbreviation collation := (applicable EnableCollation collationString).
Local Abbreviation funcs := (OrderByExecutionFuncs EnableCollation UseLegacyOrderByBehavior isOrderByMin
  CustomOrderByOptions_Default collationString).
Local Abbreviation candidates_at := (candidates UseLegacyOrderByBehavior SkipBsonArrayTraverseOptimization).
Local Abbreviation missing_at := (path_missing SkipBsonArrayTraverseOptimization).

(** The better of the current key and a value. *)
Definition pick (current v : bson_value) : bson_value :=
  match current with
  | VEod => v
  | _ => if (if isOrderByMin then value_order collation v current <? 0 else value_order collation v current >? 0)
         then v else current
  end.

Definition consider (current : bson_value) (c : candidate) : bson_value :=
  match c with
  | Reached v => pick current v
  | Missing => pick current VNull
  | Untraversable => match current with VEod => VNull | _ => current end
  end.

Lemma CompareForOrderBy_pick v s : value_ok v -> value_ok (orderByValue s) ->
  CompareForOrderBy EnableCollation isOrderByMin collationString v s = Ok (set_orderByValue (pick (orderByValue s) v) s).
Proof.
  intros Hv Hs. unfold CompareForOrderBy.
  assert (C : exists c valid, (if IsCollationApplicable EnableCollation collationString
      then CompareBsonValueAndTypeWithCollation v (orderByValue s) collationString
      else CompareBsonValueAndType v (orderByValue s)) = Ok (c, valid) /\
      same_sign c (value_order collation v (orderByValue s))).
  { destruct (CompareBsonValueAndType_answers collation collation_ok v (orderByValue s) Hv Hs)
      as (c & valid & E & S & _). exists c, valid. split; [|exact S]. revert E. unfold applicable.
    now destruct (IsCollationApplicable EnableCollation collationString). }
  destruct C as (c & valid & -> & S). cbn [res_bind]. unfold same_sign in S.
  assert (K : set_orderByValue (orderByValue s) s = s) by now destruct s.
  assert (B : forall o, o = value_order collation v (orderByValue s) ->
    (if (c >? 0) && negb isOrderByMin then Ok (set_orderByValue v s)
     else if (c <? 0) && isOrderByMin then Ok (set_orderByValue v s) else Ok s) =
    Ok (set_orderByValue (if (if isOrderByMin then o <? 0 else o >? 0) then v else orderByValue s) s)).
  { intros o ->. rewrite !Z.gtb_ltb. destruct isOrderByMin; rewrite ?andb_false_r, ?andb_true_r.
    - destruct (Z.ltb_spec c 0), (Z.ltb_spec (value_order collation v (orderByValue s)) 0); try lia; now rewrite ?K.
    - destruct (Z.ltb_spec 0 c), (Z.ltb_spec 0 (value_order collation v (orderByValue s))); try lia; now rewrite ?K. }
  destruct (orderByValue s) eqn:O; try reflexivity; cbn [value_type type_eqb]; unfold pick; now apply B.
Qed.

Lemma pick_ok current v : value_ok current -> value_ok v -> value_ok (pick current v).
Proof. intros Hc Hv. unfold pick. destruct current; try exact Hv; now destruct (if isOrderByMin then _ else _). Qed.

Definition candidate_ok (c : candidate) : Prop := match c with Reached v => value_ok v | _ => True end.

Lemma consider_ok current c : value_ok current -> candidate_ok c -> value_ok (consider current c).
Proof.
  intros Hv Hc. destruct c; cbn [consider]; try (apply pick_ok; [exact Hv|try exact Hc; exact I]).
  now destruct current.
Qed.

(** A step of the traversal that offers the given candidates. *)
Definition offers (c : list candidate) (s s' : TraverseOrderByValidateState) : Prop :=
  nestedArrayCount s' = nestedArrayCount s /\ orderByValue s' = fold_left consider c (orderByValue s) /\
  value_ok (orderByValue s').

Lemma offers_nil s : value_ok (orderByValue s) -> offers [] s s.
Proof. now repeat split. Qed.

Lemma offers_trans c1 c2 s1 s2 s3 : offers c1 s1 s2 -> offers c2 s2 s3 -> offers (c1 ++ c2) s1 s3.
Proof. intros (N1 & V1 & _) (N2 & V2 & O). unfold offers. rewrite fold_left_app, <- V1. now rewrite N2, N1. Qed.

Definition nested (s : TraverseOrderByValidateState) : bool := nestedArrayCount s >? 0.

Lemma offers_pick v s : value_ok v -> value_ok (orderByValue s) ->
  offers [Reached v] s (set_orderByValue (pick (orderByValue s) v) s).
Proof. intros Hv Hs. repeat split. now apply pick_ok. Qed.

Lemma not_found_offers i path s : value_ok (orderByValue s) -> UseLegacyOrderByBehavior = true \/ nested s = true ->
  exists s', not_found funcs i path (Ok s) = Ok s' /\ offers (modern UseLegacyOrderByBehavior [Untraversable]) s s'.
Proof.
  intros Hs Hn. unfold not_found, modern. cbn. unfold OrderByHandleIntermediateArrayPathNotFound. cbn [res_bind].
  destruct UseLegacyOrderByBehavior; [exists s; split; [reflexivity|now apply offers_nil]|].
  destruct Hn as [Hn|Hn]; [discriminate|]. unfold nested in Hn. rewrite Hn. cbn [andb].
  destruct (type_eqb (value_type (orderByValue s)) BSON_TYPE_EOD) eqn:E; cbn [negb].
  - rewrite CompareForOrderBy_pick by (exact I || exact Hs). eexists. split; [reflexivity|].
    repeat split; cbn [set_orderByValue orderByValue]; destruct (orderByValue s); try discriminate E; try reflexivity.
  - exists s. split; [reflexivity|]. repeat split; [|exact Hs]. cbn. now destruct (orderByValue s).
Qed.

Lemma result_offers r s : value_ok (orderByValue s) ->
  exists s', notify (SetTraverseResult funcs) r (Ok s) = Ok s' /\
    offers (match r with
            | TraverseBsonResult_PathNotFound => if nested s then modern UseLegacyOrderByBehavior [Missing] else []
            | TraverseBsonResult_TypeMismatch => []
            end) s s'.
Proof.
  intros Hs. cbn. unfold OrderBySetTraverseResult. cbn [res_bind]. destruct r; cbn [res_bind CompareSetTraverseResult].
  2:{ eexists. split; [reflexivity|]. now repeat split. }
  unfold nested, modern. destruct (nestedArrayCount s >? 0), UseLegacyOrderByBehavior; cbn [andb negb res_bind];
    try (eexists; split; [reflexivity|now repeat split]).
  rewrite CompareForOrderBy_pick by (exact I || exact Hs). cbn [res_bind]. eexists. split; [reflexivity|].
  repeat split. cbn. now apply pick_ok.
Qed.

(** A state in which the traversal may go [depth] arrays deeper. *)
Definition ready (depth : nat) (below : bool) (s : TraverseOrderByValidateState) : Prop :=
  value_ok (orderByValue s) /\ 0 <= nestedArrayCount s /\ nestedArrayCount s + Z.of_nat depth < 2 ^ 31 /\
  (UseLegacyOrderByBehavior = true \/ nested s = below).

Lemma offers_ready c s s' depth below : offers c s s' -> ready depth below s -> ready depth below s'.
Proof. intros (N & _ & O) (_ & R). unfold ready, nested in *. now rewrite N. Qed.

(** The callback for a missing path, and for one whose type does not fit. *)
Lemma result_ready r s depth below : ready depth below s ->
  exists s', notify (SetTraverseResult funcs) r (Ok s) = Ok s' /\
    offers (match r with
            | TraverseBsonResult_PathNotFound => if below then modern UseLegacyOrderByBehavior [Missing] else []
            | TraverseBsonResult_TypeMismatch => []
            end) s s'.
Proof.
  intros (Hs & _ & _ & Hn). destruct (result_offers r s Hs) as (s' & E & O). exists s'. split; [exact E|].
  destruct r; [|exact O]. destruct Hn as [L|<-]; [|exact O]. revert O. rewrite L. cbn. now destruct (nested s), below.
Qed.

Lemma start_end_ready s depth below : ready (S depth) below s ->
  exists s1, notify (SetIntermediateArrayStartEnd funcs) true (Ok s) = Ok s1 /\ ready depth true s1 /\
    orderByValue s1 = orderByValue s /\
    forall c s2, offers c s1 s2 ->
      exists s3, notify (SetIntermediateArrayStartEnd funcs) false (Ok s2) = Ok s3 /\ offers c s s3.
Proof.
  intros (Hs & Hc & Hd & Hn). cbn. unfold OrderBySetIntermediateArrayStartEnd. cbn [res_bind].
  destruct UseLegacyOrderByBehavior eqn:L.
  - exists s. repeat split; try assumption; try lia; [now left|]. intros c s2 O. eauto.
  - eexists. split; [reflexivity|]. unfold ready, nested. cbn [nestedArrayCount orderByValue].
    rewrite wrap_s32_id by (zbounds; lia). repeat split; try assumption; try lia.
    intros c s2 (N & V & O). cbn in N, V. eexists. split; [reflexivity|]. unfold offers. cbn.
    rewrite N, wrap_s32_id by (zbounds; lia). repeat split; [lia|exact V|exact O].
Qed.

Lemma elements_offers items path : doc_ok items -> forall i s, value_ok (orderByValue s) ->
  exists s', visit_array_elements (OrderByVisitArrayField EnableCollation isOrderByMin collationString) items path i (Ok s)
    = (true, Ok s') /\ offers (map (fun kv => Reached (snd kv)) items) s s'.
Proof.
  induction items as [|[k v] items IH]; intros Hd i s Hs; cbn [visit_array_elements map].
  - exists s. split; [reflexivity|now apply offers_nil].
  - destruct Hd as [[_ Hv] Hd]. unfold OrderByVisitArrayField at 1. cbn [unless_error snd].
    rewrite CompareForOrderBy_pick by assumption. cbn [continue_unless_error negb].
    pose proof (offers_pick v s Hv Hs) as O.
    destruct (IH Hd (wrap_s 32 (i + 1)) _ (proj2 (proj2 O))) as (s' & -> & O'). exists s'. split; [reflexivity|].
    exact (offers_trans [Reached v] _ _ _ _ O O').
Qed.

Lemma top_level_offers e path s : value_ok (snd e) -> value_ok (orderByValue s) ->
  exists s', VisitTopLevelField funcs e path (Ok s) = (true, Ok s') /\
    offers (match snd e with VArray _ => [] | v => [Reached v] end) s s'.
Proof.
  intros Hv Hs. cbn [OrderByExecutionFuncs VisitTopLevelField]. unfold OrderByVisitTopLevelField.
  assert (A : forall v, snd e = v -> exists s', continue_unless_error
    (CompareForOrderBy EnableCollation isOrderByMin collationString v s) = (true, Ok s') /\ offers [Reached v] s s').
  { intros v <-. rewrite CompareForOrderBy_pick by assumption. eexists. split; [reflexivity|]. now apply offers_pick. }
  destruct (snd e); try (now apply A). exists s. split; [reflexivity|now apply offers_nil].
Qed.

Lemma leaf_offers d key ctx below depth s : no_nul key -> doc_ok d -> ready depth below s ->
  exists s', traverse_leaf funcs d key ctx (Ok s) = (missing_at [key] d, Ok s') /\
    offers (candidates_at [key] ctx below d) s s'.
Proof.
  intros Hn Hd R. unfold traverse_leaf. cbn [path_missing candidates].
  destruct (bson_iter_find_string_view d key) as [[k v]|] eqn:E.
  2:{ rewrite (find_None _ _ Hn E). destruct (result_ready TraverseBsonResult_PathNotFound s _ _ R) as (s' & -> & O). eauto. }
  rewrite (find_Some _ _ _ _ Hn E). pose proof (lookup_ok _ _ _ Hd (find_Some _ _ _ _ Hn E)) as Hv.
  assert (Last : forall c s1, offers c s s1 -> exists s',
    (false, notify (SetTraverseResult funcs) TraverseBsonResult_TypeMismatch (Ok s1)) = (false, Ok s') /\ offers c s s').
  { intros c s1 O. destruct (result_ready TraverseBsonResult_TypeMismatch s1 _ _ (offers_ready _ _ _ _ _ O R))
      as (s' & -> & O'). exists s'. split; [reflexivity|]. rewrite <- (app_nil_r c). now apply offers_trans with s1. }
  destruct (top_level_offers (k, v) key s Hv (proj1 R)) as (s1 & -> & O). cbn [negb snd] in *.
  destruct v; cbn [negb]; try (now apply Last).
  change (VisitArrayField funcs) with (Some (OrderByVisitArrayField EnableCollation isOrderByMin collationString)).
  destruct ctx; cbn [negb]; [now apply Last|].
  destruct (elements_offers d0 key Hv 0 s1 (proj2 (proj2 O))) as (s2 & -> & O2). cbn [negb].
  apply Last. exact (offers_trans [] _ _ _ _ O O2).
Qed.

(** The candidates an element of an intermediate array offers. *)
Definition element_candidates (f : fields -> list candidate) (pm : fields -> bool) (kv : bytes * bson_value)
  : list candidate :=
  match snd kv with
  | VDocument d => f d ++ (if pm d then modern UseLegacyOrderByBehavior [Untraversable] else [])
  | _ => modern UseLegacyOrderByBehavior [Untraversable]
  end.

Lemma scan_offers core f pm items rem depth :
  (forall d s, doc_ok d -> ready depth true s ->
     exists s', core d (Ok s) = Ok (pm d, Ok s') /\ offers (f d) s s') ->
  doc_ok items -> forall i b s, ready depth true s ->
  exists s', scan_array funcs core items rem i b (Ok s) = Ok (true, b || existsb pm (documents items), Ok s') /\
    offers (flat_map (element_candidates f pm) items) s s'.
Proof.
  intros Hc. induction items as [|[k v] items IH]; intros Hd i b s R; cbn [scan_array flat_map].
  - exists s. cbn. rewrite orb_false_r. split; [reflexivity|apply offers_nil, R].
  - destruct Hd as [[_ Hv] Hd]. set (next := wrap_s 32 (i + 1)).
    assert (Step : forall c b' s1, offers c s s1 -> exists s',
      scan_array funcs core items rem next b' (Ok s1) = Ok (true, b' || existsb pm (documents items), Ok s') /\
      offers (c ++ flat_map (element_candidates f pm) items) s s').
    { intros c b' s1 O. destruct (IH Hd next b' s1 (offers_ready _ _ _ _ _ O R)) as (s' & E & O').
      exists s'. split; [exact E|]. now apply offers_trans with s1. }
    assert (Null : forall s1, ready depth true s1 -> exists s2, not_found funcs i rem (Ok s1) = Ok s2 /\
      offers (modern UseLegacyOrderByBehavior [Untraversable]) s1 s2)
      by (intros s1 (V & _ & _ & N); now apply not_found_offers).
    assert (Other : exists s', scan_array funcs core items rem next b (not_found funcs i rem (Ok s)) =
        Ok (true, b || existsb pm (documents items), Ok s') /\
      offers (modern UseLegacyOrderByBehavior [Untraversable] ++ flat_map (element_candidates f pm) items) s s').
    { destruct (Null s R) as (s1 & -> & O). now apply Step. }
    destruct v; try exact Other. clear Other. cbn [notify OrderByExecutionFuncs SetIntermediateArrayIndex].
    destruct (Hc d s Hv R) as (s1 & -> & O).
    cbn [res_bind OrderByExecutionFuncs ContinueProcessIntermediateArray OrderByContinueProcessIntermediateArray unless_error negb].
    fold funcs. unfold documents. cbn [flat_map snd app existsb].
    rewrite orb_assoc. unfold element_candidates at 1. cbn [snd]. destruct (pm d).
    + destruct (Null s1 (offers_ready _ _ _ _ _ O R)) as (s2 & -> & O2). apply Step. now apply offers_trans with s1.
    + apply Step. now rewrite app_nil_r.
Qed.

Lemma array_offers core f pm v items rem depth below s :
  (forall ctx d s below, doc_ok d -> ready depth below s ->
     exists s', core ctx d (Ok s) = Ok (pm d, Ok s') /\ offers (f ctx below d) s s') ->
  doc_ok items -> ready (S depth) below s ->
  let index := tries_index SkipBsonArrayTraverseOptimization rem in
  let missing := (if index then pm items else true) && existsb pm (documents items) in
  exists s', traverse_array funcs SkipBsonArrayTraverseOptimization core v items rem (Ok s) = Ok (missing, Ok s') /\
    offers ((if index then f true below items else []) ++ flat_map (element_candidates (f false true) pm) items ++
            (if missing then if below then modern UseLegacyOrderByBehavior [Missing] else [] else [])) s s'.
Proof.
  intros Hc Hd R index missing. unfold traverse_array. fold index.
  assert (R0 : forall s1, ready (S depth) below s1 -> ready depth below s1)
    by (intros s1 (V & C & D & N); repeat split; try assumption; lia).
  assert (First : exists s1, (if index then res_bind (core true items (Ok s)) (fun '(h, st) =>
        let '(c, st) := ContinueProcessIntermediateArray funcs v st in Ok (c, h : bool, st))
      else Ok (true, true, Ok s)) = Ok (true, (if index then pm items else true), Ok s1) /\
      offers (if index then f true below items else []) s s1).
  { destruct index; [|exists s; split; [reflexivity|apply offers_nil, R]].
    destruct (Hc true items s below Hd (R0 s R)) as (s1 & -> & O). exists s1. now split. }
  destruct First as (s1 & -> & O1). cbn [res_bind negb].
  destruct (start_end_ready s1 depth below (offers_ready _ _ _ _ _ O1 R)) as (s2 & -> & R2 & _ & End).
  destruct (scan_offers (core false) (f false true) pm items rem depth (fun d s => Hc false d s true) Hd 0 false s2 R2)
    as (s3 & -> & O3). cbn [res_bind negb orb]. destruct (End _ _ O3) as (s4 & -> & O4). fold missing.
  assert (O14 := offers_trans _ _ _ _ _ O1 O4). rewrite app_assoc.
  pose proof (offers_ready _ _ _ _ _ O14 R) as R4.
  destruct missing; [destruct (result_ready TraverseBsonResult_PathNotFound _ _ _ R4) as (s5 & -> & O5)
                    |destruct (result_ready TraverseBsonResult_TypeMismatch _ _ _ R4) as (s5 & -> & O5)];
    exists s5; (split; [reflexivity|]); now apply offers_trans with s4.
Qed.

Lemma path_missing_cons key next rest d :
  missing_at (key :: next :: rest) d =
  match lookup d key with
  | None => true
  | Some (VDocument d') => missing_at (next :: rest) d'
  | Some (VArray items) =>
    (if tries_index SkipBsonArrayTraverseOptimization next then missing_at (next :: rest) items else true) &&
    existsb (missing_at (next :: rest)) (documents items)
  | Some _ => false
  end.
Proof. cbn [path_missing]. destruct (lookup d key) as [[]|]; reflexivity. Qed.

Lemma candidates_cons key next rest ctx below d :
  candidates_at (key :: next :: rest) ctx below d =
  let missing := if below then modern UseLegacyOrderByBehavior [Missing] else [] in
  match lookup d key with
  | Some (VDocument d') => candidates_at (next :: rest) false below d'
  | Some (VArray items) =>
    (if tries_index SkipBsonArrayTraverseOptimization next then candidates_at (next :: rest) true below items else []) ++
    flat_map (element_candidates (candidates_at (next :: rest) false true) (missing_at (next :: rest))) items ++
    (if missing_at (key :: next :: rest) d then missing else [])
  | _ => missing
  end.
Proof. reflexivity. Qed.

Lemma core_offers segs : forall fuel ctx below d s, path_ok segs -> (List.length segs <= fuel)%nat ->
  doc_ok d -> ready (List.length segs) below s ->
  exists s', TraverseBsonCore funcs SkipBsonArrayTraverseOptimization fuel (join_path segs) ctx d (Ok s) =
    Ok (missing_at segs d, Ok s') /\ offers (candidates_at segs ctx below d) s s'.
Proof.
  induction segs as [|key [|next rest] IH]; intros fuel ctx below d s (Hne & Hdot & Hnul) Hf Hd R; [easy|..];
    (destruct fuel as [|fuel]; [cbn in Hf; lia|]); inversion_clear Hdot as [|? ? Hdot1 Hdot'];
    inversion_clear Hnul as [|? ? Hnul1 Hnul']; cbn [TraverseBsonCore].
  - change (join_path [key]) with key. rewrite (proj2 (StringViewFindPrefix_None key dot) Hdot1).
    destruct (leaf_offers d key ctx below _ s Hnul1 Hd R) as (s' & -> & O). eauto.
  - change (join_path (key :: next :: rest)) with (key ++ dot :: join_path (next :: rest)).
    set (tail := next :: rest) in *.
    assert (P : StringViewFindPrefix (key ++ dot :: join_path tail) dot = Some key)
      by (apply StringViewFindPrefix_Some; eauto).
    rewrite P, substring_after_dot. cbn [res_bind].
    assert (Sub : forall ctx d s below, doc_ok d -> ready (List.length tail) below s -> exists s',
      TraverseBsonCore funcs SkipBsonArrayTraverseOptimization fuel (join_path tail) ctx d (Ok s) =
      Ok (missing_at tail d, Ok s') /\ offers (candidates_at tail ctx below d) s s')
      by (intros; apply IH; auto; [split; [discriminate|now split]|cbn in Hf |- *; lia]).
    assert (R0 : ready (List.length tail) below s)
      by (destruct R as (V & C & D & N); repeat split; try assumption; cbn [List.length] in *; lia).
    assert (Miss : forall b : bool, exists s', @Ok (bool * res TraverseOrderByValidateState)
        (b, notify (SetTraverseResult funcs) TraverseBsonResult_PathNotFound (Ok s)) = Ok (b, Ok s') /\
      offers (if below then modern UseLegacyOrderByBehavior [Missing] else []) s s').
    { intros b. destruct (result_ready TraverseBsonResult_PathNotFound s _ _ R) as (s' & -> & O). eauto. }
    pose proof (tries_index_join SkipBsonArrayTraverseOptimization next rest) as TI. fold tail in TI.
    pose proof (candidates_cons key next rest ctx below d) as CC. pose proof (path_missing_cons key next rest d) as PC.
    fold tail in CC, PC. rewrite CC, PC. clear CC PC. cbv zeta.
    destruct (bson_iter_find_string_view d key) as [[k v]|] eqn:E; [|rewrite (find_None _ _ Hnul1 E); apply Miss].
    pose proof (find_Some _ _ _ _ Hnul1 E) as Lk. rewrite Lk. pose proof (lookup_ok _ _ _ Hd Lk) as Hv.
    destruct v; try apply Miss; [now apply Sub|]. rewrite <- TI.
    exact (array_offers _ (candidates_at tail) (missing_at tail) _ d0 (join_path tail) (List.length tail) below s Sub Hv R).
Qed.

(** The best of the candidates that count. *)
Lemma consider_known c : ~ In (Reached VEod) c -> forall current, current <> VEod ->
  fold_left consider c current =
  fold_left pick (map (fun x => match x with Reached v => v | _ => VNull end)
    (filter (fun x => match x with Untraversable => false | _ => true end) c)) current /\
  fold_left consider c current <> VEod.
Proof.
  assert (P : forall current v, current <> VEod -> v <> VEod -> pick current v <> VEod)
    by (intros current v Hc Hv; unfold pick; destruct current; try easy; destruct (if isOrderByMin then _ else _); easy).
  induction c as [|x c IH]; intros Hi current Hc; [now split|]. cbn [fold_left filter].
  assert (Hi' : ~ In (Reached VEod) c) by (intros I; apply Hi; now right).
  destruct x as [v| |]; cbn [map fold_left consider].
  - apply IH; [exact Hi'|]. apply P; [exact Hc|]. intros ->. apply Hi. now left.
  - apply IH; [exact Hi'|]. now apply P.
  - replace (match current with VEod => VNull | _ => current end) with current by now destruct current. now apply IH.
Qed.

Lemma consider_values c : ~ In (Reached VEod) c ->
  fold_left consider c VEod = match candidate_values c with [] => VEod | v :: vs => fold_left pick vs v end /\
  (c <> [] -> fold_left consider c VEod <> VEod).
Proof.
  intros Hi. destruct c as [|x c]; [now split|].
  assert (Hi' : ~ In (Reached VEod) c) by (intros I; apply Hi; now right).
  destruct x as [v| |]; cbn [candidate_values filter map fold_left consider pick].
  - destruct (consider_known c Hi' v) as [-> N]; [intros ->; apply Hi; now left|]. now split.
  - destruct (consider_known c Hi' VNull) as [-> N]; [discriminate|]. now split.
  - destruct (consider_known c Hi' VNull) as [-> N]; [discriminate|]. now split.
Qed.

(** [key] is at least as good as [v]. *)
Definition at_least (key v : bson_value) : Prop :=
  if isOrderByMin then value_order collation key v <= 0 else value_order collation key v >= 0.

Lemma at_least_refl v : at_least v v.
Proof.
  unfold at_least. pose proof (anti2_self _ (anti2_value_order collation collation_ok v v)) as ->.
  destruct isOrderByMin; lia.
Qed.

Lemma at_least_trans a b c : at_least a b -> at_least b c -> at_least a c.
Proof.
  unfold at_least. pose proof (trans3_value_order collation collation_ok a b c) as [T1 T2].
  destruct isOrderByMin; intros Ha Hb; [now apply T1|]. apply Z.le_ge. apply T2; lia.
Qed.

Lemma pick_best current v : current <> VEod ->
  (pick current v = v \/ pick current v = current) /\ at_least (pick current v) v /\ at_least (pick current v) current.
Proof.
  intros Hc. pose proof (anti2_value_order collation collation_ok v current) as A. unfold anti2 in A.
  assert (P : pick current v =
    if (if isOrderByMin then value_order collation v current <? 0 else value_order collation v current >? 0)
    then v else current) by (unfold pick; now destruct current).
  rewrite P. clear P. pose proof (at_least_refl v) as Rv. pose proof (at_least_refl current) as Rc.
  unfold at_least in *. rewrite Z.gtb_ltb. destruct isOrderByMin.
  - destruct (Z.ltb_spec (value_order collation v current) 0); repeat split; auto; lia.
  - destruct (Z.ltb_spec 0 (value_order collation v current)); repeat split; auto; lia.
Qed.

Lemma pick_all vs : ~ In VEod vs -> forall current, current <> VEod ->
  In (fold_left pick vs current) (current :: vs) /\ Forall (at_least (fold_left pick vs current)) (current :: vs).
Proof.
  induction vs as [|v vs IH]; intros Hi current Hc; cbn [fold_left].
  - split; [now left|]. constructor; [apply at_least_refl|constructor].
  - destruct (pick_best current v Hc) as (Eq & Bv & Bc).
    assert (Hi' : ~ In VEod vs) by (intros I; apply Hi; now right).
    assert (Hp : pick current v <> VEod) by (destruct Eq as [->| ->]; [intros ->; apply Hi; now left|exact Hc]).
    destruct (IH Hi' _ Hp) as [I F]. inversion_clear F as [|? ? F1 F2]. split.
    + destruct I as [<-|I]; [destruct Eq as [->| ->]; [right; now left|now left]|right; now right].
    + repeat constructor; [now apply at_least_trans with (pick current v)..|exact F2].
Qed.
End Correctness.

Section Theorems.
Context {BL : BidLib} {Laws : BidLaws BL} {LB : LibBson} {LBLaws : LibBsonLaws LB}.
Variables EnableCollation UseLegacyOrderByBehavior SkipBsonArrayTraverseOptimization : bool.
Variable EvaluateMetaTextScore : fields -> res Z.


(** ** The order of sort keys *)

(** Keys with different collations are ordered by these. *)
Definition key_order (l r : bson_value * option bytes) : Z :=
  lexz (opt_order (applicable EnableCollation (snd l)) (applicable EnableCollation (snd r)))
       (value_order (applicable EnableCollation (snd l)) (fst l) (fst r)).

Definition key_ok (k : bson_value * option bytes) : Prop :=
  value_ok (fst k) /\ (forall s, snd k = Some s -> no_nul s) /\ collation_total (applicable EnableCollation (snd k)).

Lemma applicable_no_nul c s : (forall s, c = Some s -> no_nul s) -> applicable EnableCollation c = Some s -> no_nul s.
Proof. unfold applicable. intros H. destruct (IsCollationApplicable EnableCollation c); [apply H|discriminate]. Qed.

Lemma bson_orderby_compare_order l r p q a b :
  PgbsonToSinglePgbsonElementWithCollation l = Ok ((p, fst a), snd a) ->
  PgbsonToSinglePgbsonElementWithCollation r = Ok ((q, fst b), snd b) ->
  key_ok a -> key_ok b ->
  exists c, bson_orderby_compare EnableCollation l r = Ok c /\ same_sign c (key_order a b).
Proof.
  intros El Er (Va & Na & Ta) (Vb & Nb & Tb). unfold bson_orderby_compare. rewrite El, Er. cbn [res_bind].
  pose proof (fun s => applicable_no_nul _ s Na) as Na'. pose proof (fun s => applicable_no_nul _ s Nb) as Nb'.
  unfold key_order. destruct (applicable EnableCollation (snd a)) as [ca|], (applicable EnableCollation (snd b)) as [cb|]; cbn [opt_order].
  - pose proof (strcmp_cmp_bytes ca cb (Na' ca eq_refl) (Nb' cb eq_refl)) as S.
    destruct (Z.eqb_spec (strcmp ca cb) 0) as [E|E]; cbn [negb].
    + destruct (CompareBsonValueAndType_answers (Some ca) Ta (fst a) (fst b) Va Vb) as (c & valid & -> & Sc & _).
      exists c. split; [reflexivity|]. unfold same_sign, lexz in *.
      destruct (Z.eqb_spec (cmp_bytes ca cb) 0); [exact Sc|lia].
    + eexists. split; [reflexivity|]. unfold same_sign, lexz in *. destruct (Z.eqb_spec (cmp_bytes ca cb) 0); lia.
  - eexists. split; [reflexivity|]. reflexivity.
  - eexists. split; [reflexivity|]. reflexivity.
  - destruct (CompareBsonValueAndType_answers None Ta (fst a) (fst b) Va Vb) as (c & valid & E & Sc & _).
    change (CompareBsonValueAndTypeWithCollation (fst a) (fst b) None) with (CompareBsonValueAndType (fst a) (fst b)) in E.
    rewrite E. exists c. now split.
Qed.

Lemma anti2_key_order a b : key_ok a -> anti2 (key_order a b) (key_order b a).
Proof.
  intros (_ & _ & T). unfold key_order. apply anti2_lexz; [apply anti2_opt_order|].
  intros E _. apply opt_order_0 in E. rewrite <- E. now apply anti2_value_order.
Qed.

Lemma trans3_key_order a b c : key_ok a -> trans3 (key_order a b) (key_order b c) (key_order a c).
Proof.
  intros (_ & _ & T). unfold key_order. apply trans3_lexz; [apply trans3_opt_order|].
  intros E _ _. apply opt_order_0 in E. rewrite <- E. now apply trans3_value_order.
Qed.

(** The comparator of sort keys, with or without collations, is a total preorder
    and its three operators agree with it, as the sort they are used for needs. *)
Theorem bson_orderby_operators (a b c : fields) (p q r : bytes) (ka kb kc : bson_value * option bytes) :
  PgbsonToSinglePgbsonElementWithCollation a = Ok ((p, fst ka), snd ka) ->
  PgbsonToSinglePgbsonElementWithCollation b = Ok ((q, fst kb), snd kb) ->
  PgbsonToSinglePgbsonElementWithCollation c = Ok ((r, fst kc), snd kc) ->
  key_ok ka -> key_ok kb -> key_ok kc ->
  exists ab ba bc ac,
    bson_orderby_compare EnableCollation a b = Ok ab /\ bson_orderby_compare EnableCollation b a = Ok ba /\
    bson_orderby_compare EnableCollation b c = Ok bc /\ bson_orderby_compare EnableCollation a c = Ok ac /\
    anti2 ab ba /\ trans3 ab bc ac /\
    bson_orderby_lt EnableCollation a b = Ok (ab <? 0) /\ bson_orderby_eq EnableCollation a b = Ok (ab =? 0) /\
    bson_orderby_gt EnableCollation a b = bson_orderby_lt EnableCollation b a.
Proof.
  intros Ea Eb Ec Ka Kb Kc.
  destruct (bson_orderby_compare_order a b p q ka kb Ea Eb Ka Kb) as (ab & Eab & Sab).
  destruct (bson_orderby_compare_order b a q p kb ka Eb Ea Kb Ka) as (ba & Eba & Sba).
  destruct (bson_orderby_compare_order b c q r kb kc Eb Ec Kb Kc) as (bc & Ebc & Sbc).
  destruct (bson_orderby_compare_order a c p r ka kc Ea Ec Ka Kc) as (ac & Eac & Sac).
  assert (A : anti2 ab ba) by (eapply anti2_same_sign; eauto; now apply anti2_key_order).
  exists ab, ba, bc, ac. repeat (split; [assumption|]).
  split; [eapply trans3_same_sign; eauto; now apply trans3_key_order|].
  unfold bson_orderby_lt, bson_orderby_eq, bson_orderby_gt. rewrite Eab, Eba. cbn [res_bind].
  repeat split. f_equal. unfold anti2 in A. rewrite Z.gtb_ltb.
  destruct (Z.ltb_spec 0 ab), (Z.ltb_spec ba 0); try reflexivity; lia.
Qed.
End Theorems.

(** ** Concrete sort keys *)

Section Witnesses.
#[local] Existing Instance RefBidLib.
#[local] Existing Instance RefBidLaws.
#[local] Existing Instance RefLibBson.
#[local] Existing Instance RefLibBsonLaws.
Local Abbreviation no_text_score := (fun _ => Err ERRCODE_DOCUMENTDB_INTERNALERROR).

Definition ascending : fields := [(str "a.b", VInt32 1)].


Lemma bson_orderby_operators_witness :
  bson_orderby_gt true [(str "a", VInt32 1)] [(str "a", five); (str "collation", VUtf8 (str "en-u"))] =
  bson_orderby_lt true [(str "a", five); (str "collation", VUtf8 (str "en-u"))] [(str "a", VInt32 1)].
Proof.
  assert (K : key_ok true (VInt32 1, None)).
  { split; [vm_compute; split; congruence|]. split; [discriminate|exact no_collation]. }
  assert (K2 : key_ok true (five, Some (str "en-u"))).
  { split; [exact five_ok|]. split; [intros s E; injection E as <-; now apply no_nulb_ok|apply ref_collation_total]. }
  destruct (bson_orderby_operators true [(str "a", VInt32 1)] [(str "a", five); (str "collation", VUtf8 (str "en-u"))]
    [(str "a", VInt32 1)] (str "a") (str "a") (str "a") (VInt32 1, None) (five, Some (str "en-u")) (VInt32 1, None)
    eq_refl eq_refl eq_refl K K2 K) as (ab & ba & bc & ac & _ & _ & _ & _ & _ & _ & _ & _ & G). exact G.
Defined.

(** An element that cannot be traversed is taken as null only when it comes before
    every value: the key depends on the order of the array's elements. *)
Example BsonOrderby_untraversable_order :
  let b5 := VDocument [(str "b", five)] in
  BsonOrderby true false false no_text_score [(str "a", VArray [(str "0", VInt32 3); (str "1", b5)])] ascending true None
    = Ok [(str "a.b", VNull)] /\
  BsonOrderby true false false no_text_score [(str "a", VArray [(str "0", b5); (str "1", VInt32 3)])] ascending true None
    = Ok [(str "a.b", five)].
Proof. split; vm_compute; reflexivity. Qed.

(** A missing path is written as undefined, which does not come before MinKey. *)
Example BsonOrderby_missing_not_first :
  BsonOrderby true false false no_text_score [] ascending true None = Ok [(str "a.b", VUndefined)] /\
  bson_orderby_lt true [(str "a.b", VMinKey)] [(str "a.b", VUndefined)] = Ok true.
Proof. split; vm_compute; reflexivity. Qed.
End Witnesses.
