(* ===== verification/SortUtils.v ===== *)
(** * Sorting of array elements ([utils/sort_utils.c])

    The specification of the [$sort] modifier of [$push] and of [$sortArray], and the
    comparator handed to PostgreSQL's [qsort_arg].  The comparator breaks ties by the
    original index: the sorted array is determined, and the sort is stable. *)

From Stdlib Require Import ZArith Lia Bool String List SpecFloat Sorted Permutation.
From Stdlib Require Import Strings.Byte.
From S2P Require Import Prelude SoftFloat BsonTypes StringView Decimal128 BsonCompare BsonOrder RefBid BsonRefine.
From S2P Require Import BsonWriter.
Import ListNotations.
Local Open Scope Z_scope.

Inductive SortDirection : Set := SortDirection_Ascending | SortDirection_Descending.
Inductive SortType : Set := SortType_No_Sort | SortType_ObjectFieldSort | SortType_WholeElementSort.

Record SortSpecData : Set := { key : bytes; direction : SortDirection }.
Record SortContext : Set := {
  sortSpecList : list SortSpecData;
  sortDirection : SortDirection;
  sortType : SortType
}.
Record ElementWithIndex : Set := { bsonValue : bson_value; element_index : Z }.

Definition GetElementWithIndex (val : bson_value) (i : Z) : ElementWithIndex :=
  {| bsonValue := val; element_index := i |}.

(** [double] against the constants 1 and -1. *)
Definition double_is (d : Z) (z : Z) : bool := SFeqb (sf_of_bits d) (sf_of_bits (double_of_int z)).

(** PostgreSQL's [qsort_arg].  Of a comparator that returns on the elements and is a
    total preorder there, it makes a sorted permutation. *)
Class PgSort : Type := {
  qsort_arg : (ElementWithIndex -> ElementWithIndex -> res Z) -> list ElementWithIndex -> res (list ElementWithIndex)
}.

Definition orders (cmp : ElementWithIndex -> ElementWithIndex -> res Z) (f : ElementWithIndex -> ElementWithIndex -> Z)
  (l : list ElementWithIndex) : Prop :=
  (forall a b, In a l -> In b l -> cmp a b = Ok (f a b)) /\
  (forall a b, In a l -> In b l -> anti2 (f a b) (f b a)) /\
  (forall a b c, In a l -> In b l -> In c l -> trans3 (f a b) (f b c) (f a c)).

Class PgSortLaws (PS : PgSort) : Prop := {
  qsort_arg_sorts : forall cmp f l, orders cmp f l ->
    exists l', qsort_arg cmp l = Ok l' /\ Permutation l l' /\ StronglySorted (fun a b => f a b <= 0) l'
}.

Section Sort.
Context {BL : BidLib} {LB : LibBson} {LD : LibBsonDoc}.
Local Open Scope res_scope.

Definition char_at (s : bytes) (i : nat) : byte := nth i s x00.

Fixpoint sort_specs (sortItr : fields) : res (list SortSpecData) :=
  match sortItr with
  | [] => Ok []
  | (k, sortVal) :: sortItr =>
    if blen k =? 0 then Err ERRCODE_DOCUMENTDB_BADVALUE
    else if byte_eqb (char_at k 0) "."%byte || byte_eqb (char_at k (List.length k - 1)) "."%byte
    then Err ERRCODE_DOCUMENTDB_BADVALUE
    else if negb (BsonValueIsNumber sortVal) then Err ERRCODE_DOCUMENTDB_BADVALUE
    else
      let* d := BsonValueAsDouble sortVal in
      if negb (double_is d 1) && negb (double_is d (-1)) then Err ERRCODE_DOCUMENTDB_BADVALUE
      else
        let* z := BsonValueAsInt64 sortVal in
        let* rest := sort_specs sortItr in
        Ok ({| key := k; direction := if z =? 1 then SortDirection_Ascending else SortDirection_Descending |} :: rest)
  end.

Definition ValidateSortSpecAndSetSortContext (sortBsonValue : bson_value) : res SortContext :=
  match sortBsonValue with
  | VEod => Ok {| sortSpecList := []; sortDirection := SortDirection_Ascending; sortType := SortType_No_Sort |}
  | _ =>
    if negb (BsonValueIsNumber sortBsonValue) then
      match sortBsonValue with
      | VDocument d =>
        let* specs := sort_specs d in
        if Nat.eqb (List.length d) 0 then Err ERRCODE_DOCUMENTDB_BADVALUE
        else Ok {| sortSpecList := specs; sortDirection := SortDirection_Ascending; sortType := SortType_ObjectFieldSort |}
      | _ => Err ERRCODE_DOCUMENTDB_BADVALUE
      end
    else
      let* sortOrder := BsonValueAsDouble sortBsonValue in
      if double_is sortOrder 1 || double_is sortOrder (-1) then
        Ok {| sortSpecList := [];
              sortDirection := if double_is sortOrder 1 then SortDirection_Ascending else SortDirection_Descending;
              sortType := SortType_WholeElementSort |}
      else Err ERRCODE_DOCUMENTDB_BADVALUE
  end.

(** The value a field sort compares: null when the element has no such field. *)
Definition sort_field (value : bson_value) (k : bytes) : bson_value :=
  match value with
  | VDocument d => match bson_iter_find_descendant d k with Some v => v | None => VNull end
  | _ => VNull
  end.

(** The first difference and the direction of the key that was compared last. *)
Fixpoint compare_sort_fields (left right : bson_value) (specs : list SortSpecData) (result : Z) (dir : SortDirection)
  : res (Z * SortDirection) :=
  match specs with
  | [] => Ok (result, dir)
  | spec :: specs =>
    let* '(result, _) := CompareBsonValueAndType (sort_field left (key spec)) (sort_field right (key spec)) in
    if negb (result =? 0) then Ok (result, direction spec)
    else compare_sort_fields left right specs result (direction spec)
  end.

(** [-result] does not overflow: no comparison returns the least [int]. *)
Definition CompareBsonValuesForSort (sortContext : SortContext) (left right : ElementWithIndex) : res Z :=
  let* '(result, dir) :=
    match sortType sortContext with
    | SortType_WholeElementSort =>
      let* '(result, _) := CompareBsonValueAndType (bsonValue left) (bsonValue right) in
      Ok (result, sortDirection sortContext)
    | _ => compare_sort_fields (bsonValue left) (bsonValue right) (sortSpecList sortContext) 0 SortDirection_Ascending
    end in
  if result =? 0 then Ok (wrap_s 32 (element_index left - element_index right))
  else Ok (match dir with SortDirection_Ascending => result | SortDirection_Descending => - result end).
End Sort.
