(* ===== verification/ExprEval.v ===== *)
(** * Evaluation of query expressions on values ([query/bson_expr_eval.c])

    A query expression is compiled to a PostgreSQL expression and run by PostgreSQL's
    executor: the compiled state and its evaluation on one element are parameters.
    The loops over arrays are modelled. *)

From Stdlib Require Import ZArith Lia Bool List.
From S2P Require Import Prelude BsonTypes Traversal.
Import ListNotations.
Local Open Scope Z_scope.

Class ExprEngine : Type := {
  ExprEvalState : Set;
  GetExpressionEvalState : bson_value -> res ExprEvalState;
  ExpressionEval : ExprEvalState -> pgbsonelement -> res bool
}.

Section Eval.
Context {EE : ExprEngine}.
Local Open Scope res_scope.

Fixpoint eval_any (evalState : ExprEvalState) (arrayIterator : fields) : res bool :=
  match arrayIterator with
  | [] => Ok false
  | element :: arrayIterator =>
    let* result := ExpressionEval evalState element in
    if result : bool then Ok true else eval_any evalState arrayIterator
  end.

Definition EvalBooleanExpressionAgainstArray (evalState : ExprEvalState) (queryValue : bson_value) : res bool :=
  match queryValue with
  | VArray d => eval_any evalState d
  | _ => Err ERRCODE_DOCUMENTDB_BADVALUE
  end.

Definition EvalBooleanExpressionAgainstValue (evalState : ExprEvalState) (queryValue : bson_value)
  (shouldRecurseIfArray : bool) : res bool :=
  let* matched := ExpressionEval evalState ([], queryValue) in
  match queryValue with
  | VArray _ =>
    if negb matched && shouldRecurseIfArray then EvalBooleanExpressionAgainstArray evalState queryValue else Ok matched
  | _ => Ok matched
  end.

Fixpoint eval_first (evalState : ExprEvalState) (arrayIterator : fields) : res bson_value :=
  match arrayIterator with
  | [] => Ok VEod
  | element :: arrayIterator =>
    let* result := ExpressionEval evalState element in
    if result : bool then Ok (snd element) else eval_first evalState arrayIterator
  end.

Definition EvalExpressionAgainstArrayGetFirstMatch (evalState : ExprEvalState) (queryValue : bson_value) : res bson_value :=
  match queryValue with
  | VArray d => eval_first evalState d
  | _ => Err ERRCODE_DOCUMENTDB_BADVALUE
  end.

Definition eval_element (evalState : ExprEvalState) (shouldRecurseIfArray : bool) (element : pgbsonelement) : res bool :=
  match snd element with
  | VArray _ =>
    if shouldRecurseIfArray then EvalBooleanExpressionAgainstArray evalState (snd element)
    else ExpressionEval evalState element
  | _ => ExpressionEval evalState element
  end.

Fixpoint matching_indices (evalState : ExprEvalState) (shouldRecurseIfArray : bool) (arrayIterator : fields) (i : Z)
  : res (list Z) :=
  match arrayIterator with
  | [] => Ok []
  | element :: arrayIterator =>
    let* result := eval_element evalState shouldRecurseIfArray element in
    let* rest := matching_indices evalState shouldRecurseIfArray arrayIterator (wrap_s 32 (i + 1)) in
    Ok (if result : bool then i :: rest else rest)
  end.

Definition EvalExpressionAgainstArrayGetAllMatchingIndices (evalState : ExprEvalState) (arrayValue : bson_value)
  (shouldRecurseIfArray : bool) : res (list Z) :=
  match arrayValue with
  | VArray d => matching_indices evalState shouldRecurseIfArray d 0
  | _ => Err ERRCODE_DOCUMENTDB_BADVALUE
  end.
End Eval.
