(* ===== verification/GinOptions.v ===== *)
(** * Index options and the paths an index covers ([bson_gin_entrypoint.c])

    The options of the index operator classes, the decision what to do with a
    path of a document ([IndexTraverseOption]), whether a query may use an index,
    and the metadata with which terms are built.  Path options are kept as the
    buffers the [Fill...] callbacks write.  The length of a buffer is a [uint32];
    its wrap-around needs specifications of gigabytes and is left out.  A NULL path
    is an empty one. *)

From Stdlib Require Import ZArith Lia Bool String List.
From Stdlib Require Import Strings.Byte.
From S2P Require Import Prelude BsonTypes StringView BsonCompare Traversal PgbsonElement IndexTerm DollarOperators DollarSets.
Import ListNotations.
Local Open Scope Z_scope.
Local Open Scope res_scope.

(** ** Strategies and options *)

Inductive BsonIndexStrategy : Set :=
| BSON_INDEX_STRATEGY_INVALID
| BSON_INDEX_STRATEGY_DOLLAR_EQUAL
| BSON_INDEX_STRATEGY_DOLLAR_GREATER
| BSON_INDEX_STRATEGY_DOLLAR_GREATER_EQUAL
| BSON_INDEX_STRATEGY_DOLLAR_LESS
| BSON_INDEX_STRATEGY_DOLLAR_LESS_EQUAL
| BSON_INDEX_STRATEGY_DOLLAR_IN
| BSON_INDEX_STRATEGY_DOLLAR_NOT_EQUAL
| BSON_INDEX_STRATEGY_DOLLAR_NOT_IN
| BSON_INDEX_STRATEGY_DOLLAR_REGEX
| BSON_INDEX_STRATEGY_DOLLAR_EXISTS
| BSON_INDEX_STRATEGY_DOLLAR_SIZE
| BSON_INDEX_STRATEGY_DOLLAR_TYPE
| BSON_INDEX_STRATEGY_DOLLAR_ALL
| BSON_INDEX_STRATEGY_UNIQUE_EQUAL
| BSON_INDEX_STRATEGY_DOLLAR_BITS_ALL_CLEAR
| BSON_INDEX_STRATEGY_DOLLAR_BITS_ANY_CLEAR
| BSON_INDEX_STRATEGY_DOLLAR_ELEMMATCH
| BSON_INDEX_STRATEGY_DOLLAR_BITS_ALL_SET
| BSON_INDEX_STRATEGY_DOLLAR_BITS_ANY_SET
| BSON_INDEX_STRATEGY_DOLLAR_MOD
| BSON_INDEX_STRATEGY_DOLLAR_ORDERBY
| BSON_INDEX_STRATEGY_DOLLAR_TEXT
| BSON_INDEX_STRATEGY_DOLLAR_GEOWITHIN
| BSON_INDEX_STRATEGY_DOLLAR_GEOINTERSECTS
| BSON_INDEX_STRATEGY_DOLLAR_RANGE
| BSON_INDEX_STRATEGY_DOLLAR_NOT_GT
| BSON_INDEX_STRATEGY_DOLLAR_NOT_GTE
| BSON_INDEX_STRATEGY_DOLLAR_NOT_LT
| BSON_INDEX_STRATEGY_DOLLAR_NOT_LTE
| BSON_INDEX_STRATEGY_GEONEAR
| BSON_INDEX_STRATEGY_GEONEAR_RANGE
| BSON_INDEX_STRATEGY_COMPOSITE_QUERY
| BSON_INDEX_STRATEGY_IS_MULTIKEY.

Definition BsonIndexStrategy_eq_dec (a b : BsonIndexStrategy) : {a = b} + {a <> b}.
Proof. decide equality. Defined.
Definition strategy_eqb (a b : BsonIndexStrategy) : bool := if BsonIndexStrategy_eq_dec a b then true else false.

Definition IsNegationStrategy (strategy : BsonIndexStrategy) : bool :=
  match strategy with
  | BSON_INDEX_STRATEGY_DOLLAR_NOT_EQUAL | BSON_INDEX_STRATEGY_DOLLAR_NOT_IN | BSON_INDEX_STRATEGY_DOLLAR_NOT_GT
  | BSON_INDEX_STRATEGY_DOLLAR_NOT_GTE | BSON_INDEX_STRATEGY_DOLLAR_NOT_LT | BSON_INDEX_STRATEGY_DOLLAR_NOT_LTE => true
  | _ => false
  end.

Inductive IndexTraverseOption : Set :=
| IndexTraverse_Invalid
| IndexTraverse_Recurse
| IndexTraverse_Match
| IndexTraverse_MatchAndRecurse.

(** The fields all options share; [version] is V0 or V1. *)
Record BsonGinIndexOptionsBase : Set := {
  version : Z;
  indexTermTruncateLimit : Z;
  base_wildcardIndexTruncatedPathLimit : Z
}.
Definition IndexOptionsVersion_V0 : Z := 0.
Definition IndexOptionsVersion_V1 : Z := 1.

Record BsonGinSinglePathOptions : Set := {
  single_base : BsonGinIndexOptionsBase;
  single_isWildcard : bool;
  single_generateNotFoundTerm : bool;
  single_useReducedWildcardTerms : bool;
  single_path : bytes
}.

Record BsonGinWildcardProjectionPathOptions : Set := {
  projection_base : BsonGinIndexOptionsBase;
  isExclusion : bool;
  includeId : bool;
  pathSpec : bytes
}.

(** The tagged structures, with what the functions below read of each. *)
Inductive BsonGinIndexOptions : Set :=
| IndexOptionsType_SinglePath (o : BsonGinSinglePathOptions)
| IndexOptionsType_Wildcard (o : BsonGinWildcardProjectionPathOptions)
| IndexOptionsType_Hashed (base : BsonGinIndexOptionsBase) (path : bytes)
| IndexOptionsType_UniqueShardKey (base : BsonGinIndexOptionsBase)
| IndexOptionsType_Text (base : BsonGinIndexOptionsBase) (isWildcard : bool)
| IndexOptionsType_2d (base : BsonGinIndexOptionsBase) (path : bytes)
| IndexOptionsType_2dsphere (base : BsonGinIndexOptionsBase) (path : bytes)
| IndexOptionsType_Composite (base : BsonGinIndexOptionsBase) (compositePathSpec : bytes).

Definition options_base (o : BsonGinIndexOptions) : BsonGinIndexOptionsBase :=
  match o with
  | IndexOptionsType_SinglePath o => single_base o
  | IndexOptionsType_Wildcard o => projection_base o
  | IndexOptionsType_Hashed b _ | IndexOptionsType_UniqueShardKey b | IndexOptionsType_Text b _
  | IndexOptionsType_2d b _ | IndexOptionsType_2dsphere b _ | IndexOptionsType_Composite b _ => b
  end.

Definition IsWildcardIndex (indexOptions : BsonGinIndexOptions) : bool :=
  match indexOptions with
  | IndexOptionsType_SinglePath o => single_isWildcard o
  | IndexOptionsType_Wildcard _ => true
  | IndexOptionsType_Text _ w => w
  | _ => false
  end.

(** ** Serialized path specifications *)

(** The first pass of the [Fill...PathSpec] callbacks: every element of the
    specification is a string that is not empty. *)
Fixpoint spec_paths (bsonIterator : fields) : res (list bytes) :=
  match bsonIterator with
  | [] => Ok []
  | (_, VUtf8 path) :: bsonIterator =>
    if blen path =? 0 then Err ERRCODE_DOCUMENTDB_BADVALUE
    else let* paths := spec_paths bsonIterator in Ok (path :: paths)
  | _ => Err ERRCODE_DOCUMENTDB_BADVALUE
  end.

Definition spec_entry (terminator : bytes) (path : bytes) : bytes := le_bytes 4 (blen path) ++ path ++ terminator.

(** The argument is the JSON specification as parsed, or [None] for NULL. *)
Definition FillWildcardProjectPathSpec (prefix : option fields) : res bytes :=
  match prefix with
  | None => Err ERRCODE_DOCUMENTDB_BADVALUE
  | Some bson =>
    let* paths := spec_paths bson in
    Ok (le_bytes 4 (Z.of_nat (List.length paths)) ++ flat_map (spec_entry []) paths)
  end.

Definition FillCompositePathSpec (prefix : option fields) : res bytes :=
  match prefix with
  | None => Err ERRCODE_DOCUMENTDB_BADVALUE
  | Some bson =>
    let* paths := spec_paths bson in
    Ok (le_bytes 4 (Z.of_nat (List.length paths)) ++ flat_map (spec_entry [x00]) paths)
  end.

(** The loops that read such a buffer; a composite entry has a terminator. *)
Fixpoint read_spec (terminator : Z) (pathCount : nat) (pathSpecBytes : bytes) : list bytes :=
  match pathCount with
  | O => []
  | S pathCount =>
    let indexPathLength := le_Z (firstn 4 pathSpecBytes) in
    firstn (Z.to_nat indexPathLength) (skipn 4 pathSpecBytes) ::
    read_spec terminator pathCount (skipn (Z.to_nat (indexPathLength + 4 + terminator)) pathSpecBytes)
  end.

Definition spec_count (buffer : bytes) : nat := Z.to_nat (le_Z (firstn 4 buffer)).
Definition projection_paths (o : BsonGinWildcardProjectionPathOptions) : list bytes :=
  read_spec 0 (spec_count (pathSpec o)) (skipn 4 (pathSpec o)).
Definition GetIndexPathsFromOptions (compositePathSpec : bytes) : list bytes :=
  read_spec 1 (spec_count compositePathSpec) (skipn 4 compositePathSpec).

(** ** Which paths are indexed *)

Definition GetSinglePathIndexTraverseOptionCore (indexPath currentPath : bytes) (isWildcard : bool)
  : IndexTraverseOption :=
  let indexPathLength := blen indexPath in
  let currentPathLength := blen currentPath in
  if (indexPathLength =? 0) && isWildcard then IndexTraverse_MatchAndRecurse
  else if (indexPathLength <? currentPathLength) && (strncmp indexPath currentPath (List.length indexPath) =? 0) then
    if isWildcard && byte_eqb (nth (List.length indexPath) currentPath x00) dot
    then IndexTraverse_MatchAndRecurse else IndexTraverse_Invalid
  else if (indexPathLength =? currentPathLength) && (strncmp indexPath currentPath (List.length indexPath) =? 0) then
    if isWildcard then IndexTraverse_MatchAndRecurse else IndexTraverse_Match
  else if (currentPathLength <? indexPathLength) && (strncmp indexPath currentPath (List.length currentPath) =? 0)
  then IndexTraverse_Recurse
  else IndexTraverse_Invalid.

Definition GetSinglePathIndexTraverseOption (option : BsonGinSinglePathOptions) (currentPath : bytes)
  : IndexTraverseOption :=
  GetSinglePathIndexTraverseOptionCore (single_path option) currentPath (single_isWildcard option).

Definition GetHashIndexTraverseOption (indexPath currentPath : bytes) : IndexTraverseOption :=
  GetSinglePathIndexTraverseOptionCore indexPath currentPath false.

(** The loop over the paths of the projection, and what follows it. *)
Fixpoint projection_loop (isExclusion : bool) (paths : list bytes) (currentPath : bytes) : option IndexTraverseOption :=
  match paths with
  | [] => None
  | indexPath :: paths =>
    let indexPathLength := blen indexPath in
    let currentPathLength := blen currentPath in
    if ((indexPathLength <=? currentPathLength) && (strncmp indexPath currentPath (List.length indexPath) =? 0)) &&
       (((indexPathLength + 1 <=? currentPathLength) && byte_eqb (nth (List.length indexPath) currentPath x00) dot) ||
        (indexPathLength =? currentPathLength))
    then Some (if isExclusion then IndexTraverse_Invalid else IndexTraverse_MatchAndRecurse)
    else if (currentPathLength <? indexPathLength) && (strncmp indexPath currentPath (List.length currentPath) =? 0)
            && negb isExclusion
    then Some IndexTraverse_Recurse
    else projection_loop isExclusion paths currentPath
  end.

Definition GetWildcardProjectionPathIndexTraverseOption (option : BsonGinWildcardProjectionPathOptions)
  (currentPath : bytes) : IndexTraverseOption :=
  match projection_loop (isExclusion option) (projection_paths option) currentPath with
  | Some o => o
  | None =>
    if (blen currentPath =? 3) && (memcmp currentPath (str "_id") 3 =? 0)
    then if includeId option then IndexTraverse_MatchAndRecurse else IndexTraverse_Invalid
    else if isExclusion option then IndexTraverse_MatchAndRecurse else IndexTraverse_Invalid
  end.

Definition IsBsonDollarNinArrayContainsArrays (items : fields) : bool :=
  existsb (fun kv => type_eqb (value_type (snd kv)) BSON_TYPE_ARRAY) items.

(** The column of a path in a composite index. *)
Fixpoint column_of (currentPath : bytes) (i : Z) (indexPaths : list bytes) : option Z :=
  match indexPaths with
  | [] => None
  | p :: indexPaths => if strcmp currentPath p =? 0 then Some i else column_of currentPath (i + 1) indexPaths
  end.

Definition GetCompositeOpClassColumnNumber (currentPath compositePathSpec : bytes) : Z :=
  match column_of currentPath 0 (GetIndexPathsFromOptions compositePathSpec) with Some i => i | None => -1 end.

Section Composite.
(** The setting [EnableNewCompositeIndexOpclass]. *)
Variable EnableNewCompositeIndexOpclass : bool.

(** The option, and the column when there is one. *)
Definition GetCompositePathIndexTraverseOption (strategy : BsonIndexStrategy) (compositePathSpec currentPath : bytes)
  (bsonValue : bson_value) : IndexTraverseOption * option Z :=
  let column :=
    match column_of currentPath 0 (GetIndexPathsFromOptions compositePathSpec) with
    | Some i => (IndexTraverse_Match, Some i)
    | None => (IndexTraverse_Invalid, None)
    end in
  if negb EnableNewCompositeIndexOpclass then (IndexTraverse_Invalid, None)
  else
    match bsonValue with
    | VArray items =>
      if strategy_eqb strategy BSON_INDEX_STRATEGY_DOLLAR_NOT_IN then
        if IsBsonDollarNinArrayContainsArrays items then (IndexTraverse_Invalid, None) else column
      else if IsNegationStrategy strategy then (IndexTraverse_Invalid, None) else column
    | _ => column
    end.

(** ** Whether a query can use an index *)

(** The loop of [QueryPathHasDigits]: [None] when it was left early. *)
Fixpoint digits_loop (fieldPathHasValidIndexTermChars : bool) (path : bytes) : option bool :=
  match path with
  | [] => Some fieldPathHasValidIndexTermChars
  | c :: path =>
    if byte_eqb c dot then
      if negb fieldPathHasValidIndexTermChars then None else digits_loop false path
    else if negb (is_digit c) then digits_loop true path
    else digits_loop fieldPathHasValidIndexTermChars path
  end.

Definition QueryPathHasDigits (path : bytes) : bool :=
  match digits_loop false path with Some valid => negb valid | None => true end.

Variable EnableCollation : bool.

Definition FailIfQueryPathHasDigitsForWildcard (query : fields) (options : BsonGinIndexOptions) : res unit :=
  match options with
  | IndexOptionsType_SinglePath o =>
    if negb (single_useReducedWildcardTerms o) then Ok tt
    else
      let* '(path, _) := BsonIterToSinglePgbsonElement EnableCollation query in
      if QueryPathHasDigits path then Err ERRCODE_FEATURE_NOT_SUPPORTED else Ok tt
  | _ => Ok tt
  end.

Definition is_match (o : IndexTraverseOption) : bool :=
  match o with IndexTraverse_Match | IndexTraverse_MatchAndRecurse => true | _ => false end.

(** The switch over the type of the options. *)
Definition qualifier_traverse (options : BsonGinIndexOptions) (strategy : BsonIndexStrategy) (path : bytes)
  (value : bson_value) : res IndexTraverseOption :=
  match options with
  | IndexOptionsType_Text _ _ => Ok IndexTraverse_Invalid
  | IndexOptionsType_2d _ indexPath | IndexOptionsType_2dsphere _ indexPath =>
    Ok (if (blen indexPath =? blen path) && (strncmp indexPath path (List.length indexPath) =? 0)
        then IndexTraverse_Match else IndexTraverse_Invalid)
  | IndexOptionsType_SinglePath o =>
    if single_isWildcard o && StringViewEndsWith (Some path) dot then Err ERRCODE_DOCUMENTDB_DOTTEDFIELDNAME
    else if single_useReducedWildcardTerms o && QueryPathHasDigits path then Ok IndexTraverse_Invalid
    else Ok (GetSinglePathIndexTraverseOption o path)
  | IndexOptionsType_Composite _ spec => Ok (fst (GetCompositePathIndexTraverseOption strategy spec path value))
  | IndexOptionsType_Hashed _ indexPath =>
    match strategy with
    | BSON_INDEX_STRATEGY_DOLLAR_EQUAL | BSON_INDEX_STRATEGY_DOLLAR_IN => Ok (GetHashIndexTraverseOption indexPath path)
    | _ => Ok IndexTraverse_Invalid
    end
  | IndexOptionsType_Wildcard o => Ok (GetWildcardProjectionPathIndexTraverseOption o path)
  | IndexOptionsType_UniqueShardKey _ => Ok IndexTraverse_Invalid
  end.

Definition ValidateIndexForQualifierValue (indexOptions : BsonGinIndexOptions) (queryValue : fields)
  (strategy : BsonIndexStrategy) : res bool :=
  if strategy_eqb strategy BSON_INDEX_STRATEGY_UNIQUE_EQUAL then Ok true
  else
    let* '((path, value), collationString) := read_filter EnableCollation queryValue in
    if EnableCollation && IsCollationValid collationString then Ok false
    else let* traverse := qualifier_traverse indexOptions strategy path value in Ok (is_match traverse).

Definition ValidateIndexForQualifierPathForDollarIn (indexOptions : BsonGinIndexOptions) (queryPath : bytes) : res bool :=
  let* traverse :=
    match indexOptions with
    | IndexOptionsType_SinglePath o =>
      if single_isWildcard o && StringViewEndsWith (Some queryPath) dot then Err ERRCODE_DOCUMENTDB_DOTTEDFIELDNAME
      else Ok (GetSinglePathIndexTraverseOption o queryPath)
    | IndexOptionsType_Hashed _ indexPath => Ok (GetHashIndexTraverseOption indexPath queryPath)
    | IndexOptionsType_Wildcard o => Ok (GetWildcardProjectionPathIndexTraverseOption o queryPath)
    | _ => Ok IndexTraverse_Invalid
    end in
  Ok (is_match traverse).
End Composite.

(** ** Metadata for building terms *)

Definition UINT32_MAX : Z := 4294967295.

Definition GetIndexTermMetadata (indexOptions : BsonGinIndexOptions) : res IndexTermCreateMetadata :=
  let options := options_base indexOptions in
  let isV1 := version options >=? IndexOptionsVersion_V1 in
  let metadata prefix wildcard projection :=
    Ok {| indexTermSizeLimit := indexTermTruncateLimit options;
          wildcardIndexTruncatedPathLimit :=
            if base_wildcardIndexTruncatedPathLimit options =? 0 then UINT32_MAX
            else base_wildcardIndexTruncatedPathLimit options;
          pathPrefix := prefix; isWildcard := wildcard; isWildcardProjection := projection |} in
  if isV1 || (indexTermTruncateLimit options >? 0) then
    match indexOptions with
    | IndexOptionsType_SinglePath o =>
      if isV1 && single_generateNotFoundTerm o then Err ERRCODE_INTERNAL_ERROR
      else metadata (single_path o) (single_isWildcard o) false
    | IndexOptionsType_Composite _ _ => metadata dollar false false
    | IndexOptionsType_Wildcard _ => metadata [] true true
    | _ => if isV1 then Err ERRCODE_INTERNAL_ERROR else metadata [] false false
    end
  else
    Ok {| indexTermSizeLimit := 0; wildcardIndexTruncatedPathLimit := UINT32_MAX; pathPrefix := [];
          isWildcard := false; isWildcardProjection := false |}.

(** ** The paths of a single-path index *)

Lemma strncmp_step (a b : byte) l r n : byte_z a <> 0 ->
  strncmp (a :: l) (b :: r) (S n) = 0 <-> a = b /\ strncmp l r n = 0.
Proof.
  intros Ha. cbn [strncmp]. destruct (Z.eqb_spec (byte_z a) 0) as [E|_]; [congruence|]. unfold lexz.
  destruct (Z.eqb_spec (cmpz (byte_z a) (byte_z b)) 0) as [E|E].
  - apply (proj1 (cmpz_0 _ _)), byte_z_inj in E. tauto.
  - split; [congruence|]. intros [-> _]. elim E. now apply cmpz_0.
Qed.

(** Comparing up to the end of the first string asks for a prefix. *)
Lemma strncmp_prefix a : forall b, no_nul a -> strncmp a b (List.length a) = 0 <-> exists t, b = a ++ t.
Proof.
  induction a as [|x a IH]; intros b N; [split; [eexists; reflexivity|reflexivity]|].
  inversion_clear N as [|? ? Hx Na]. destruct b as [|y b].
  - cbn. split; [|intros [t E]; discriminate]. intros E. apply (proj1 (cmpz_0 _ _)) in E. contradiction.
  - cbn [List.length]. rewrite strncmp_step, IH by assumption. split.
    + intros [-> [t ->]]. now exists t.
    + intros [t E]. injection E as -> ->. eauto.
Qed.

Lemma strncmp_prefix_of a : forall b, no_nul a -> (List.length b <= List.length a)%nat ->
  strncmp a b (List.length b) = 0 <-> exists t, a = b ++ t.
Proof.
  induction a as [|x a IH]; intros [|y b] N L; cbn [List.length] in *; try lia;
    try (split; [eexists; reflexivity|reflexivity]).
  inversion_clear N as [|? ? Hx Na]. rewrite strncmp_step, IH by (assumption || lia). split.
  - intros [-> [t ->]]. now exists t.
  - intros [t E]. injection E as -> ->. eauto.
Qed.

Section SinglePath.
Variable indexPath : bytes.
Hypothesis path_no_nul : no_nul indexPath.
Local Abbreviation opt := (fun currentPath => GetSinglePathIndexTraverseOptionCore indexPath currentPath false).

Lemma single_path_match currentPath : opt currentPath = IndexTraverse_Match <-> currentPath = indexPath.
Proof.
  unfold GetSinglePathIndexTraverseOptionCore. rewrite andb_false_r. cbn [andb].
  pose proof (strncmp_prefix indexPath currentPath path_no_nul) as P. unfold blen in *.
  set (i := Z.of_nat (List.length indexPath)) in *. set (c := Z.of_nat (List.length currentPath)) in *.
  assert (D : c <> i -> currentPath <> indexPath) by (intros H ->; now apply H).
  destruct (Z.ltb_spec i c), (Z.eqb_spec i c) as [E|E], (Z.ltb_spec c i); try lia; cbn [andb];
    repeat match goal with |- context [if ?b then _ else _] => destruct b eqn:? end;
    try (split; [discriminate|intros X; exfalso; revert X; apply D; lia]).
  - split; [intros _|reflexivity]. assert (S : strncmp indexPath currentPath (List.length indexPath) = 0) by lia.
    apply P in S as [t ->]. subst i c. rewrite length_app in E. destruct t; [|cbn in E; lia]. now rewrite app_nil_r.
  - split; [discriminate|]. intros X. assert (S : strncmp indexPath currentPath (List.length indexPath) = 0)
      by (apply P; exists []; now rewrite app_nil_r). lia.
Qed.

Lemma single_path_covers currentPath : opt currentPath <> IndexTraverse_Invalid <-> exists t, indexPath = currentPath ++ t.
Proof.
  unfold GetSinglePathIndexTraverseOptionCore. rewrite andb_false_r. cbn [andb].
  pose proof (strncmp_prefix indexPath currentPath path_no_nul) as P. unfold blen in *.
  destruct (Z.ltb_spec (Z.of_nat (List.length indexPath)) (Z.of_nat (List.length currentPath))) as [L|L]; cbn [andb].
  - assert (F : ~ exists t, indexPath = currentPath ++ t) by (intros [t E]; rewrite E, length_app in L; lia).
    destruct (_ =? 0); [tauto|].
    destruct (Z.eqb_spec (Z.of_nat (List.length indexPath)) (Z.of_nat (List.length currentPath))); [lia|].
    destruct (Z.ltb_spec (Z.of_nat (List.length currentPath)) (Z.of_nat (List.length indexPath))); [lia|]. cbn. tauto.
  - pose proof (strncmp_prefix_of indexPath currentPath path_no_nul ltac:(lia)) as Q.
    destruct (Z.eqb_spec (Z.of_nat (List.length indexPath)) (Z.of_nat (List.length currentPath))) as [E|E]; cbn [andb].
    + apply Nat2Z.inj in E. rewrite E.
      destruct (Z.eqb_spec (strncmp indexPath currentPath (List.length currentPath)) 0) as [S|S].
      * split; [intros _; now apply Q|discriminate].
      * rewrite andb_false_r. tauto.
    + destruct (Z.ltb_spec (Z.of_nat (List.length currentPath)) (Z.of_nat (List.length indexPath))) as [_|]; [cbn [andb]|lia].
      destruct (Z.eqb_spec (strncmp indexPath currentPath (List.length currentPath)) 0) as [S|S]; [|tauto].
      split; [intros _; now apply Q|discriminate].
Qed.

(** What is reached through the whole path has no option but these. *)
Lemma single_path_never_recursive currentPath : opt currentPath <> IndexTraverse_MatchAndRecurse.
Proof.
  unfold GetSinglePathIndexTraverseOptionCore. rewrite andb_false_r. cbn [andb].
  repeat match goal with |- context [if ?b then _ else _] => destruct b end; discriminate.
Qed.
End SinglePath.

(** ** Reading a specification back *)

Lemma read_spec_entries terminator paths rest : Forall (fun p => blen p < 2 ^ 32) paths ->
  read_spec (blen terminator) (List.length paths) (flat_map (spec_entry terminator) paths ++ rest) = paths.
Proof.
  induction 1 as [|p paths Hp _ IH]; [reflexivity|]. cbn [List.length read_spec flat_map]. pose proof (blen_nonneg p).
  assert (L : le_Z (firstn 4 ((spec_entry terminator p ++ flat_map (spec_entry terminator) paths) ++ rest)) = blen p).
  { unfold spec_entry. rewrite <- !app_assoc, firstn_app, length_le_bytes, firstn_all2 by (rewrite length_le_bytes; lia).
    cbn [firstn Nat.sub]. rewrite app_nil_r, le_Z_le_bytes. apply Z.mod_small. cbn. lia. }
  assert (S : skipn 4 ((spec_entry terminator p ++ flat_map (spec_entry terminator) paths) ++ rest) =
    p ++ terminator ++ flat_map (spec_entry terminator) paths ++ rest).
  { unfold spec_entry. rewrite <- !app_assoc, skipn_app, length_le_bytes, skipn_all2 by (rewrite length_le_bytes; lia). reflexivity. }
  rewrite L, S. f_equal.
  - unfold blen. rewrite Nat2Z.id, firstn_app, firstn_all, Nat.sub_diag. cbn [firstn]. now rewrite app_nil_r.
  - replace (Z.to_nat (blen p + 4 + blen terminator)) with (List.length p + List.length terminator + 4)%nat by (unfold blen; lia).
    rewrite <- skipn_skipn, S, app_assoc, skipn_app, length_app, skipn_all2 by (rewrite length_app; lia).
    rewrite Nat.sub_diag. exact IH.
Qed.

(** The paths of a specification are read back from the buffer the callbacks fill. *)
Theorem path_specs_roundtrip (bson : fields) (paths : list bytes) (o : BsonGinWildcardProjectionPathOptions)
  (spec : bytes) :
  spec_paths bson = Ok paths -> Forall (fun p => blen p < 2 ^ 32) paths -> Z.of_nat (List.length paths) < 2 ^ 32 ->
  FillWildcardProjectPathSpec (Some bson) = Ok (pathSpec o) -> FillCompositePathSpec (Some bson) = Ok spec ->
  projection_paths o = paths /\ GetIndexPathsFromOptions spec = paths.
Proof.
  intros E Hp Hc. unfold FillWildcardProjectPathSpec, FillCompositePathSpec. rewrite E. cbn [res_bind].
  intros Hw Hs. injection Hw as Hw. injection Hs as Hs.
  assert (R : forall t, blen t = 0 \/ blen t = 1 ->
    read_spec (blen t) (spec_count (le_bytes 4 (Z.of_nat (List.length paths)) ++ flat_map (spec_entry t) paths))
      (skipn 4 (le_bytes 4 (Z.of_nat (List.length paths)) ++ flat_map (spec_entry t) paths)) = paths).
  { intros t _. unfold spec_count. rewrite firstn_app, length_le_bytes, firstn_all2 by (rewrite length_le_bytes; lia).
    cbn [firstn Nat.sub]. rewrite app_nil_r, le_Z_le_bytes, Z.mod_small by (cbn; lia). rewrite Nat2Z.id.
    rewrite skipn_app, length_le_bytes, skipn_all2 by (rewrite length_le_bytes; lia). cbn [skipn Nat.sub app].
    rewrite <- (app_nil_r (flat_map (spec_entry t) paths)). now apply read_spec_entries. }
  unfold projection_paths, GetIndexPathsFromOptions. rewrite <- Hw, <- Hs. split.
  - exact (R [] (or_introl eq_refl)).
  - exact (R [x00] (or_intror eq_refl)).
Qed.
