(* ===== verification/GinTerms.v ===== *)
(** * Index terms of a document ([bson_gin_core.c])

    The walk over a document that yields the terms of an index: which values are
    indexed under which path, and the root terms that describe the document as a
    whole.  The array of terms is a list; its allocation is left out. *)

From Stdlib Require Import ZArith Lia Bool String List.
From Stdlib Require Import Strings.Byte.
From S2P Require Import Prelude BsonTypes StringView Decimal128 BsonCompare Traversal PgbsonElement BsonWire IndexTerm.
From S2P Require Import GinOptions.
Import ListNotations.
Local Open Scope Z_scope.

(** The configuration part of [GenerateTermsContext]. *)
Record GenerateTermsConfig : Type := {
  index_options : BsonGinIndexOptions;
  traverseOptionsFunc : bytes -> bson_type_t -> IndexTraverseOption;
  generateNotFoundTerm : bool;
  skipGeneratedPathUndefinedTermOnLiteralNull : bool;
  termMetadata : IndexTermCreateMetadata;
  skipGenerateTopLevelArrayTerm : bool;
  generatePathBasedUndefinedTerms : bool;
  useReducedWildcardTerms : bool
}.

(** The part of [GenerateTermsContext] that the walk changes; [index] is the number
    of entries. *)
Record GenerateTermsContext : Set := {
  entries : list bytes;
  hasTruncatedTerms : bool;
  hasArrayAncestors : bool;
  hasArrayPartialTermExistence : bool
}.
Definition index (st : GenerateTermsContext) : nat := List.length (entries st).

Definition AddTerm (st : GenerateTermsContext) (term : bytes) : GenerateTermsContext :=
  {| entries := entries st ++ [term]; hasTruncatedTerms := hasTruncatedTerms st;
     hasArrayAncestors := hasArrayAncestors st; hasArrayPartialTermExistence := hasArrayPartialTermExistence st |}.
Definition set_truncated (st : GenerateTermsContext) : GenerateTermsContext :=
  {| entries := entries st; hasTruncatedTerms := true;
     hasArrayAncestors := hasArrayAncestors st; hasArrayPartialTermExistence := hasArrayPartialTermExistence st |}.
Definition set_ancestors (st : GenerateTermsContext) : GenerateTermsContext :=
  {| entries := entries st; hasTruncatedTerms := hasTruncatedTerms st;
     hasArrayAncestors := true; hasArrayPartialTermExistence := hasArrayPartialTermExistence st |}.
Definition set_partial (st : GenerateTermsContext) : GenerateTermsContext :=
  {| entries := entries st; hasTruncatedTerms := hasTruncatedTerms st;
     hasArrayAncestors := hasArrayAncestors st; hasArrayPartialTermExistence := true |}.
Definition empty_context : GenerateTermsContext :=
  {| entries := []; hasTruncatedTerms := false; hasArrayAncestors := false; hasArrayPartialTermExistence := false |}.

Definition is_document (v : bson_value) : bool := match v with VDocument _ => true | _ => false end.
Definition is_array (v : bson_value) : bool := match v with VArray _ => true | _ => false end.
Definition is_null_type (v : bson_value) : bool := match v with VNull | VUndefined => true | _ => false end.

(** [basePath.key], or the key at the root. *)
Definition child_path (basePath key : bytes) : bytes :=
  if blen basePath =? 0 then key else basePath ++ dot :: key.

Section Generate.
Context {BL : BidLib}.
Variable EnableIndexTermTruncationOnNestedObjects EnableGenerateNonExistsTerm : bool.
Variable toast_compress_datum : bytes -> option bytes.
Variable IndexTermCompressionThreshold : Z.
Variable context : GenerateTermsConfig.
Local Open Scope res_scope.

Definition GeneratePathUndefinedTerm : res bytes :=
  match index_options context with
  | IndexOptionsType_SinglePath _ | IndexOptionsType_UniqueShardKey _ =>
    let* termMetadata := GetIndexTermMetadata (index_options context) in
    term_value (SerializeBsonIndexTerm EnableIndexTermTruncationOnNestedObjects ([], VNull) termMetadata)
  | _ => Err ERRCODE_INTERNAL_ERROR
  end.

(** The value that is indexed for an element, when there is one. *)
Definition indexed_value (value : bson_value) (isArrayTerm : bool) : option bson_value :=
  if skipGenerateTopLevelArrayTerm context && is_array value && negb isArrayTerm then
    match value with VArray [] => Some VUndefined | _ => None end
  else Some value.

(** The branch of [GenerateTermPath] for a path that matches the index. *)
Definition add_value_term (pathToInsert : bytes) (value : bson_value) (isArrayTerm : bool) (st : GenerateTermsContext)
  : res GenerateTermsContext :=
  match indexed_value value isArrayTerm with
  | None => Ok st
  | Some v =>
    let* serializedTerm := SerializeBsonIndexTermWithCompression EnableIndexTermTruncationOnNestedObjects
      toast_compress_datum IndexTermCompressionThreshold (pathToInsert, v) (termMetadata context) in
    let st := AddTerm st (indexTermVal serializedTerm) in
    let st := if serialized_truncated serializedTerm then set_truncated st else st in
    if generateNotFoundTerm context && negb (skipGeneratedPathUndefinedTermOnLiteralNull context) && is_null_type value
    then let* term := GeneratePathUndefinedTerm in Ok (AddTerm st term)
    else Ok st
  end.

Section Iter.
Variable GenerateTermPath : bson_value -> bytes -> bytes -> bool -> bool -> bool -> GenerateTermsContext -> res GenerateTermsContext.

Fixpoint GenerateTermsCore (bsonIter : fields) (basePath : bytes) (inArrayContext isArrayTerm : bool)
  (isCheckForArrayTermsWithNestedDocument : bool) (st : GenerateTermsContext) : res GenerateTermsContext :=
  match bsonIter with
  | [] => Ok st
  | (key, value) :: bsonIter =>
    let* st := GenerateTermPath value key basePath inArrayContext isArrayTerm isCheckForArrayTermsWithNestedDocument st in
    GenerateTermsCore bsonIter basePath inArrayContext isArrayTerm isCheckForArrayTermsWithNestedDocument st
  end.

(** The loop of [GenerateArrayPath] with [someArrayPathsHaveTerms] and
    [someArrayPathsHaveNoTerms]. *)
Fixpoint GenerateArrayPath (containerIter : fields) (pathToInsert : bytes) (inArrayContext isPathMatchedRecursively : bool)
  (someArrayPathsHaveTerms someArrayPathsHaveNoTerms : bool) (st : GenerateTermsContext) : res GenerateTermsContext :=
  match containerIter with
  | [] => Ok (if someArrayPathsHaveTerms && someArrayPathsHaveNoTerms then set_partial st else st)
  | (key, value) :: containerIter =>
    let termCount := index st in
    let* st :=
      if useReducedWildcardTerms context && isPathMatchedRecursively && negb inArrayContext && negb (is_array value)
      then Ok st
      else GenerateTermPath value key pathToInsert true false false st in
    let* st := GenerateTermPath value key pathToInsert true true
                 (inArrayContext && negb (skipGenerateTopLevelArrayTerm context)) st in
    if Nat.ltb termCount (index st)
    then GenerateArrayPath containerIter pathToInsert inArrayContext isPathMatchedRecursively true someArrayPathsHaveNoTerms st
    else GenerateArrayPath containerIter pathToInsert inArrayContext isPathMatchedRecursively someArrayPathsHaveTerms true st
  end.
End Iter.

Fixpoint GenerateTermPath (value : bson_value) (key basePath : bytes) (inArrayContext isArrayTerm : bool)
  (isCheckForArrayTermsWithNestedDocument : bool) (st : GenerateTermsContext) : res GenerateTermsContext :=
  if isCheckForArrayTermsWithNestedDocument && negb (is_document value) then Ok st
  else
    let pathToInsert := if isArrayTerm then basePath else child_path basePath key in
    let option := traverseOptionsFunc context pathToInsert (value_type value) in
    match option with
    | IndexTraverse_Invalid => Ok st
    | _ =>
      let* st :=
        match option with
        | IndexTraverse_Recurse => Ok (if inArrayContext || is_array value then set_ancestors st else st)
        | _ =>
          if isCheckForArrayTermsWithNestedDocument then Ok st
          else add_value_term pathToInsert value isArrayTerm st
        end in
      match value with
      | VDocument d =>
        let st := if inArrayContext && is_match option then set_ancestors st else st in
        if negb inArrayContext && match option with IndexTraverse_Match => true | _ => false end then Ok st
        else GenerateTermsCore GenerateTermPath d pathToInsert false false false st
      | VArray d =>
        if negb isArrayTerm then
          let isPathMatchedRecursively := match option with IndexTraverse_MatchAndRecurse => true | _ => false end in
          let st := if inArrayContext && isPathMatchedRecursively then set_ancestors st else st in
          GenerateArrayPath GenerateTermPath d pathToInsert inArrayContext isPathMatchedRecursively false false st
        else Ok st
      | _ => Ok st
      end
    end.

(** A root term is added when its condition holds. *)
Definition add_when (b : bool) (term : res bytes) (st : GenerateTermsContext) : res GenerateTermsContext :=
  if b then let* t := term in Ok (AddTerm st t) else Ok st.

Definition GenerateTerms (bson : fields) (addRootTerm : bool) : res GenerateTermsContext :=
  let* st := GenerateTermsCore GenerateTermPath bson [] false false false empty_context in
  let hasNoTerms := Nat.eqb (index st) 0 in
  let* st := add_when (hasNoTerms && generateNotFoundTerm context) GeneratePathUndefinedTerm st in
  let* st := add_when (generatePathBasedUndefinedTerms context && hasNoTerms)
    (GenerateValueUndefinedTerm EnableIndexTermTruncationOnNestedObjects (termMetadata context)) st in
  let* st := add_when (generatePathBasedUndefinedTerms context && hasArrayPartialTermExistence st)
    (GenerateValueMaybeUndefinedTerm EnableIndexTermTruncationOnNestedObjects (termMetadata context)) st in
  if addRootTerm then
    let* st := add_when true
      (if negb EnableGenerateNonExistsTerm
       then GenerateRootTerm EnableIndexTermTruncationOnNestedObjects (termMetadata context)
       else if negb hasNoTerms
       then GenerateRootExistsTerm EnableIndexTermTruncationOnNestedObjects (termMetadata context)
       else GenerateRootNonExistsTerm EnableIndexTermTruncationOnNestedObjects (termMetadata context)) st in
    let* st := add_when (hasTruncatedTerms st)
      (GenerateRootTruncatedTerm EnableIndexTermTruncationOnNestedObjects (termMetadata context)) st in
    add_when (hasArrayAncestors st)
      (GenerateRootMultiKeyTerm EnableIndexTermTruncationOnNestedObjects (termMetadata context)) st
  else Ok st.
End Generate.

(** ** The entry points *)

Section Entry.
Context {BL : BidLib}.
Variable EnableIndexTermTruncationOnNestedObjects EnableGenerateNonExistsTerm : bool.
Variable toast_compress_datum : bytes -> option bytes.
Variable IndexTermCompressionThreshold : Z.
Local Open Scope res_scope.
Local Abbreviation generate := (GenerateTerms EnableIndexTermTruncationOnNestedObjects EnableGenerateNonExistsTerm
  toast_compress_datum IndexTermCompressionThreshold).

Definition single_path_config (o : BsonGinSinglePathOptions) (metadata : IndexTermCreateMetadata) : GenerateTermsConfig :=
  {| index_options := IndexOptionsType_SinglePath o;
     traverseOptionsFunc := fun path _ => GetSinglePathIndexTraverseOption o path;
     generateNotFoundTerm := single_generateNotFoundTerm o;
     skipGeneratedPathUndefinedTermOnLiteralNull := false;
     termMetadata := metadata;
     skipGenerateTopLevelArrayTerm := false;
     generatePathBasedUndefinedTerms := false;
     useReducedWildcardTerms := single_isWildcard o && single_useReducedWildcardTerms o |}.

Definition GenerateSinglePathTermsCore (bson : fields) (o : BsonGinSinglePathOptions) : res GenerateTermsContext :=
  let* metadata := GetIndexTermMetadata (IndexOptionsType_SinglePath o) in
  generate (single_path_config o metadata) bson true.

Definition wildcard_config (o : BsonGinWildcardProjectionPathOptions) (metadata : IndexTermCreateMetadata)
  : GenerateTermsConfig :=
  {| index_options := IndexOptionsType_Wildcard o;
     traverseOptionsFunc := fun path _ => GetWildcardProjectionPathIndexTraverseOption o path;
     generateNotFoundTerm := false;
     skipGeneratedPathUndefinedTermOnLiteralNull := false;
     termMetadata := metadata;
     skipGenerateTopLevelArrayTerm := false;
     generatePathBasedUndefinedTerms := false;
     useReducedWildcardTerms := false |}.

Definition GenerateWildcardPathTermsCore (bson : fields) (o : BsonGinWildcardProjectionPathOptions)
  : res GenerateTermsContext :=
  let* metadata := GetIndexTermMetadata (IndexOptionsType_Wildcard o) in
  generate (wildcard_config o metadata) bson true.

Definition gin_bson_single_path_extract_value (bson : fields) (o : BsonGinSinglePathOptions) : res (list bytes) :=
  let* st := GenerateSinglePathTermsCore bson o in Ok (entries st).

Definition gin_bson_wildcard_project_extract_value (bson : fields) (o : BsonGinWildcardProjectionPathOptions)
  : res (list bytes) :=
  let* st := GenerateWildcardPathTermsCore bson o in Ok (entries st).

(** The terms of a unique index equality query: no root terms. *)
Definition GinBsonExtractQueryUniqueIndexTerms (query : fields) (o : BsonGinSinglePathOptions) : res (list bytes) :=
  let* metadata := GetIndexTermMetadata (IndexOptionsType_SinglePath o) in
  let config := single_path_config o metadata in
  let* st := generate {| index_options := index_options config; traverseOptionsFunc := traverseOptionsFunc config;
    generateNotFoundTerm := generateNotFoundTerm config;
    skipGeneratedPathUndefinedTermOnLiteralNull := false; termMetadata := metadata;
    skipGenerateTopLevelArrayTerm := false; generatePathBasedUndefinedTerms := false;
    useReducedWildcardTerms := false |} query false in
  Ok (entries st).
End Entry.
