(* ===== verification/GinReach.v ===== *)
(** * The terms of a document are the values its paths lead to

    A pure account of the walk that generates terms (the events it causes, in
    order), and the proof that the values indexed under a path are exactly those
    that the traversal of query paths visits, for every path the index covers. *)

From Stdlib Require Import ZArith Lia Bool String List.
From Stdlib Require Import Strings.Byte.
From S2P Require Import Prelude BsonTypes StringView Decimal128 BsonCompare Traversal PgbsonElement BsonWire IndexTerm.
From S2P Require Import DollarOperators GinOptions GinTerms.
Import ListNotations.
Local Open Scope Z_scope.

(** ** Events of the walk *)

Inductive event : Set :=
| TermEvent (path : bytes) (value : bson_value)
| AncestorEvent.

Definition is_ancestor (e : event) : bool := match e with AncestorEvent => true | _ => false end.

Definition when {A} (b : bool) (l : list A) : list A := if b then l else [].

Definition no_recurse (o : IndexTraverseOption) : bool := match o with IndexTraverse_Match => true | _ => false end.
Definition recursive_match (o : IndexTraverseOption) : bool :=
  match o with IndexTraverse_MatchAndRecurse => true | _ => false end.

Section Events.
Variable opt : bytes -> IndexTraverseOption.

(** What a path itself contributes. *)
Definition path_events (p : bytes) (value : bson_value) (inArray isCheck : bool) : list event :=
  match opt p with
  | IndexTraverse_Invalid => []
  | IndexTraverse_Recurse => when (inArray || is_array value) [AncestorEvent]
  | _ => when (negb isCheck) [TermEvent p value]
  end.

Fixpoint events (value : bson_value) (p : bytes) (inArray isArrayTerm isCheck : bool) : list event :=
  if isCheck && negb (is_document value) then []
  else
    match opt p with
    | IndexTraverse_Invalid => []
    | o =>
      path_events p value inArray isCheck ++
      match value with
      | VDocument d =>
        when (inArray && is_match o) [AncestorEvent] ++
        when (negb (negb inArray && no_recurse o))
          (flat_map (fun kv => let '(k, v) := kv in events v (child_path p k) false false false) d)
      | VArray d =>
        when (negb isArrayTerm)
          (when (inArray && recursive_match o) [AncestorEvent] ++
           flat_map (fun kv => let '(k, v) := kv in events v (child_path p k) true false false ++
                                                     events v p true true inArray) d)
      | _ => []
      end
    end.

Definition document_events (d : fields) (p : bytes) : list event :=
  flat_map (fun kv => let '(k, v) := kv in events v (child_path p k) false false false) d.
End Events.

(** ** The walk causes its events *)

Section Walk.
Context {BL : BidLib}.
Variable EnableIndexTermTruncationOnNestedObjects : bool.
Variable toast_compress_datum : bytes -> option bytes.
Variable IndexTermCompressionThreshold : Z.
Variable config : GenerateTermsConfig.
Variable opt : bytes -> IndexTraverseOption.
Hypothesis traverse_opt : forall p t, traverseOptionsFunc config p t = opt p.
Hypothesis keeps_arrays : skipGenerateTopLevelArrayTerm config = false.
Hypothesis all_terms : useReducedWildcardTerms config = false.

Local Abbreviation serialize e := (SerializeBsonIndexTermWithCompression EnableIndexTermTruncationOnNestedObjects
  toast_compress_datum IndexTermCompressionThreshold e (termMetadata config)).
Local Abbreviation walk := (GenerateTermPath EnableIndexTermTruncationOnNestedObjects toast_compress_datum
  IndexTermCompressionThreshold config).

Definition ok_list {A} (r : res A) : list A := match r with Ok a => [a] | Err _ => [] end.

Definition needs_undefined (v : bson_value) : bool :=
  generateNotFoundTerm config && negb (skipGeneratedPathUndefinedTermOnLiteralNull config) && is_null_type v.

Definition event_entries (e : event) : list bytes :=
  match e with
  | TermEvent p v => map indexTermVal (ok_list (serialize (p, v))) ++
      when (needs_undefined v) (ok_list (GeneratePathUndefinedTerm EnableIndexTermTruncationOnNestedObjects config))
  | AncestorEvent => []
  end.
Definition event_truncated (e : event) : bool :=
  match e with
  | TermEvent p v => existsb serialized_truncated (ok_list (serialize (p, v)))
  | AncestorEvent => false
  end.

(** The terms of the event can be built. *)
Definition event_ok (e : event) : Prop :=
  match e with
  | TermEvent p v => (exists s, serialize (p, v) = Ok s) /\
      (needs_undefined v = true ->
       exists t, GeneratePathUndefinedTerm EnableIndexTermTruncationOnNestedObjects config = Ok t)
  | AncestorEvent => True
  end.

Definition effect (evs : list event) (st st' : GenerateTermsContext) : Prop :=
  entries st' = entries st ++ flat_map event_entries evs /\
  hasTruncatedTerms st' = hasTruncatedTerms st || existsb event_truncated evs /\
  hasArrayAncestors st' = hasArrayAncestors st || existsb is_ancestor evs.

Definition causes (evs : list event) (f : GenerateTermsContext -> res GenerateTermsContext) : Prop :=
  Forall event_ok evs -> forall st, exists st', f st = Ok st' /\ effect evs st st'.

Lemma effect_nil st : effect [] st st.
Proof. unfold effect. cbn. now rewrite app_nil_r, !orb_false_r. Qed.

Lemma effect_app a b st st1 st2 : effect a st st1 -> effect b st1 st2 -> effect (a ++ b) st st2.
Proof.
  unfold effect. rewrite flat_map_app, !existsb_app. intros (E1 & T1 & A1) (E2 & T2 & A2).
  now rewrite E2, E1, T2, T1, A2, A1, app_assoc, !orb_assoc.
Qed.

Lemma effect_ancestor b st : effect (when b [AncestorEvent]) st (if b then set_ancestors st else st).
Proof.
  destruct b; [|apply effect_nil]. unfold effect. cbn. now rewrite app_nil_r, orb_false_r, orb_true_r.
Qed.

Lemma causes_nil : causes [] Ok.
Proof. intros _ st. exists st. split; [reflexivity|apply effect_nil]. Qed.

Lemma causes_bind a b f g : causes a f -> causes b g -> causes (a ++ b) (fun st => res_bind (f st) g).
Proof.
  intros Ha Hb F st. apply Forall_app in F as [Fa Fb]. destruct (Ha Fa st) as (st1 & E1 & H1).
  destruct (Hb Fb st1) as (st2 & E2 & H2). exists st2. rewrite E1. split; [exact E2|]. eapply effect_app; eassumption.
Qed.

Lemma causes_ancestor b a f : causes a f ->
  causes (when b [AncestorEvent] ++ a) (fun st => f (if b then set_ancestors st else st)).
Proof.
  intros Ha F st. apply Forall_app in F as [_ Fa]. destruct (Ha Fa (if b then set_ancestors st else st)) as (st' & E & H).
  exists st'. split; [exact E|]. eapply effect_app; [apply effect_ancestor|exact H].
Qed.

Lemma causes_term p v isArrayTerm : causes [TermEvent p v]
  (add_value_term EnableIndexTermTruncationOnNestedObjects toast_compress_datum IndexTermCompressionThreshold config
     p v isArrayTerm).
Proof.
  intros F st. inversion_clear F as [|? ? H _]. destruct H as [[s Es] Hu].
  unfold add_value_term, indexed_value. rewrite keeps_arrays.
  cbn [andb]. rewrite Es. cbn [res_bind]. fold (needs_undefined v).
  assert (G : forall st0, effect [TermEvent p v] st st0 <->
    entries st0 = entries st ++ indexTermVal s :: when (needs_undefined v)
      (ok_list (GeneratePathUndefinedTerm EnableIndexTermTruncationOnNestedObjects config)) /\
    hasTruncatedTerms st0 = hasTruncatedTerms st || serialized_truncated s /\
    hasArrayAncestors st0 = hasArrayAncestors st).
  { intros st0. unfold effect. cbn [flat_map existsb event_entries event_truncated is_ancestor]. rewrite Es.
    cbn [ok_list map existsb app]. now rewrite app_nil_r, !orb_false_r. }
  destruct (needs_undefined v).
  - destruct (Hu eq_refl) as [t Et]. rewrite Et in G |- *. cbn [res_bind]. eexists. split; [reflexivity|]. apply G.
    cbn [AddTerm entries hasTruncatedTerms hasArrayAncestors when ok_list].
    destruct (serialized_truncated s); cbn; rewrite <- app_assoc, ?orb_true_r, ?orb_false_r; auto.
  - eexists. split; [reflexivity|]. apply G. cbn [when].
    destruct (serialized_truncated s); cbn; rewrite ?orb_true_r, ?orb_false_r; auto.
Qed.

Definition walks (v : bson_value) : Prop := forall (key base : bytes) (inArray isArrayTerm isCheck : bool),
  causes (events opt v (if isArrayTerm then base else child_path base key) inArray isArrayTerm isCheck)
    (walk v key base inArray isArrayTerm isCheck).

Lemma document_walk (d : fields) p : Forall (fun kv => walks (snd kv)) d ->
  causes (document_events opt d p) (GenerateTermsCore walk d p false false false).
Proof.
  induction 1 as [|[k v] d Hv _ IH]; [apply causes_nil|]. cbn [document_events flat_map GenerateTermsCore].
  apply causes_bind; [exact (Hv k p false false false)|exact IH].
Qed.

Lemma effect_partial evs st st' : effect evs st st' -> effect evs st (set_partial st').
Proof. exact (fun H => H). Qed.

Lemma array_walk (d : fields) p inArray r : Forall (fun kv => walks (snd kv)) d -> forall some none,
  causes (flat_map (fun kv => let '(k, v) := kv in events opt v (child_path p k) true false false ++
                                                    events opt v p true true inArray) d)
    (GenerateArrayPath config walk d p inArray r some none).
Proof.
  induction 1 as [|[k v] d Hv _ IH]; intros some none F st.
  - cbn [GenerateArrayPath flat_map]. eexists. split; [reflexivity|].
    destruct (some && none); [apply effect_partial|]; apply effect_nil.
  - cbn [flat_map] in F |- *. apply Forall_app in F as [F0 Fd]. apply Forall_app in F0 as [F1 F2].
    change (walks v) in Hv. cbn [GenerateArrayPath]. rewrite all_terms, keeps_arrays. cbn [andb negb]. rewrite andb_true_r.
    destruct (Hv k p true false false F1 st) as (st1 & -> & H1). cbn [res_bind].
    destruct (Hv k p true true inArray F2 st1) as (st2 & -> & H2). cbn [res_bind].
    pose proof (effect_app _ _ _ _ _ H1 H2) as H12.
    destruct (Nat.ltb _ _);
      [destruct (IH true none Fd st2) as (st3 & E3 & H3)|destruct (IH some true Fd st2) as (st3 & E3 & H3)];
      exists st3; (split; [exact E3|eapply effect_app; eassumption]).
Qed.

(** A matched or traversed path: what it adds, then what is nested in it. *)
Lemma path_walk p v (inArray isArrayTerm isCheck : bool) o nested g : opt p = o -> o <> IndexTraverse_Invalid ->
  causes nested g ->
  causes (path_events opt p v inArray isCheck ++ nested) (fun st =>
    res_bind (match o with
              | IndexTraverse_Recurse => Ok (if inArray || is_array v then set_ancestors st else st)
              | _ => if isCheck : bool then Ok st
                     else add_value_term EnableIndexTermTruncationOnNestedObjects toast_compress_datum
                            IndexTermCompressionThreshold config p v isArrayTerm st
              end) g).
Proof.
  intros E N Hn. unfold path_events. rewrite E.
  assert (M : causes (when (negb isCheck) [TermEvent p v]) (fun st => if isCheck then Ok st
    else add_value_term EnableIndexTermTruncationOnNestedObjects toast_compress_datum
           IndexTermCompressionThreshold config p v isArrayTerm st))
    by (destruct isCheck; [apply causes_nil|apply causes_term]).
  destruct o; [easy|exact (causes_ancestor _ _ _ Hn)|exact (causes_bind _ _ _ _ M Hn)..].
Qed.

Lemma document_nested (d : fields) p (b c : bool) : Forall (fun kv => walks (snd kv)) d ->
  causes (when b [AncestorEvent] ++ when (negb c) (document_events opt d p)) (fun st =>
    if c then Ok (if b then set_ancestors st else st)
    else GenerateTermsCore walk d p false false false (if b then set_ancestors st else st)).
Proof.
  intros H. destruct c; cbn [negb when].
  - exact (causes_ancestor b [] Ok causes_nil).
  - exact (causes_ancestor b _ _ (document_walk d p H)).
Qed.

Lemma walk_events v : walks v.
Proof.
  induction v using bson_value_nested_ind; intros key base inArray isArrayTerm isCheck;
    set (p := if isArrayTerm then base else child_path base key); cbn [events GenerateTermPath]; fold p;
    rewrite traverse_opt; (destruct (isCheck && _); [apply causes_nil|]);
    (destruct (opt p) eqn:E; [apply causes_nil|..]);
    try (apply (path_walk p _ inArray isArrayTerm isCheck _ [] Ok E); [discriminate|apply causes_nil]).
  all: match goal with |- causes (path_events _ _ ?w _ _ ++ ?n) _ =>
    apply (path_walk p w inArray isArrayTerm isCheck _ n _ E); [discriminate|] end.
  1-3: now apply document_nested.
  all: destruct isArrayTerm; [apply causes_nil|cbn [negb when]].
  all: refine (causes_ancestor (inArray && _) _ _ _); now apply array_walk.
Qed.
End Walk.

(** ** Values below a value *)

(** The values that the rest of a path leads to; see [reach]. *)
Fixpoint reach_value (rest : list bytes) (byIndex : bool) (v : bson_value) : list bson_value :=
  match rest with
  | [] => v :: match v with VArray items => when (negb byIndex) (map snd items) | _ => [] end
  | s :: rest =>
    let below byIndex d := match lookup d s with Some x => reach_value rest byIndex x | None => [] end in
    match v with
    | VDocument d => below false d
    | VArray items => below true items ++ flat_map (below false) (documents items)
    | _ => []
    end
  end.

Lemma reach_step key next rest byIndex d : reach true (key :: next :: rest) byIndex d =
  match lookup d key with
  | Some (VDocument d') => reach true (next :: rest) false d'
  | Some (VArray items) => reach true (next :: rest) true items ++ flat_map (reach true (next :: rest) false) (documents items)
  | _ => []
  end.
Proof. reflexivity. Qed.

Lemma reach_reach_value rest : forall key byIndex d, map visited (reach true (key :: rest) byIndex d) =
  match lookup d key with Some x => reach_value rest byIndex x | None => [] end.
Proof.
  induction rest as [|next rest IH]; intros key byIndex d.
  - cbn [reach]. destruct (lookup d key) as [x|]; [|reflexivity].
    cbn [map visited reach_value]. f_equal. destruct x; try reflexivity.
    destruct byIndex; cbn [negb when]; [reflexivity|apply numbered_values].
  - rewrite reach_step. destruct (lookup d key) as [x|]; [|reflexivity].
    destruct x; try reflexivity; [now rewrite IH|]. rewrite map_app, IH. cbn [reach_value]. f_equal.
    induction (documents d0) as [|d' l IHl]; [reflexivity|]. cbn [flat_map]. now rewrite map_app, IH, IHl.
Qed.

(** Field names: not empty and without a dot. *)
Definition name_ok (k : bytes) : Prop := k <> [] /\ ~ In dot k.

(** Documents whose fields have such names, once each, and whose array elements
    are numbered. *)
Fixpoint regular (v : bson_value) : Prop :=
  match v with
  | VDocument d => NoDup (map fst d) /\ fields_all (fun k v => name_ok k /\ regular v) d
  | VArray d => NoDup (map fst d) /\ fields_all (fun k v => (name_ok k /\ starts_with_digit k = true) /\ regular v) d
  | _ => True
  end.

Lemma lookup_NoDup (d : fields) k x : NoDup (map fst d) -> In (k, x) d -> lookup d k = Some x.
Proof.
  unfold lookup. induction d as [|[k0 x0] d IH]; cbn [map fst find]; intros N I; [destruct I|].
  inversion_clear N as [|? ? N0 Nd]. destruct I as [E|I].
  - injection E as -> ->. now rewrite cmp_bytes_refl.
  - destruct (Z.eqb_spec (cmp_bytes k0 k) 0) as [E|E]; [|now apply IH].
    apply (proj1 (cmp_bytes_0 _ _)) in E. subst. elim N0. apply (in_map fst) in I. exact I.
Qed.

Lemma lookup_found_In d k x : lookup d k = Some x -> In (k, x) d.
Proof.
  unfold lookup. destruct (find _ d) as [[k0 x0]|] eqn:E; [|discriminate]. cbn. intros H. injection H as <-.
  apply find_some in E as [I E]. cbn [fst] in E. apply Z.eqb_eq in E. apply (proj1 (cmp_bytes_0 _ _)) in E. now subst.
Qed.

Lemma fields_all_In (P : bytes -> bson_value -> Prop) d k x : fields_all P d -> In (k, x) d -> P k x.
Proof.
  induction d as [|[k0 x0] d IH]; cbn; intros H I; [destruct I|]. destruct H as [H0 H], I as [E|I]; [|now apply IH].
  now injection E as -> ->.
Qed.

Lemma in_documents items d : In d (documents items) <-> exists k, In (k, VDocument d) items.
Proof.
  unfold documents. rewrite in_flat_map. split.
  - intros ([k v] & I & H). cbn [snd] in H. destruct v; try destruct H. subst. now exists k. contradiction.
  - intros [k I]. exists (k, VDocument d). split; [exact I|now left].
Qed.

Section Covered.
Variable opt : bytes -> IndexTraverseOption.
(** Below a path that matches without recursion nothing is indexed. *)
Hypothesis match_stops : forall p k, opt p = IndexTraverse_Match -> name_ok k -> opt (child_path p k) = IndexTraverse_Invalid.

Definition path_at (p : bytes) (rest : list bytes) : bytes := fold_left child_path rest p.

(** The walk gets to the end of the path, and indexes what is there. *)
Fixpoint allowed (p : bytes) (rest : list bytes) : Prop :=
  match rest with
  | [] => is_match (opt p) = true
  | s :: rest => opt p <> IndexTraverse_Invalid /\ allowed (child_path p s) rest
  end.

Lemma allowed_not_invalid p rest : allowed p rest -> opt p <> IndexTraverse_Invalid.
Proof. destruct rest; cbn; [|tauto]. intros H E. now rewrite E in H. Qed.

Definition covered (v : bson_value) : Prop := forall p inArray q w,
  In (TermEvent q w) (events opt v p inArray false false) <->
  exists rest, Forall name_ok rest /\ q = path_at p rest /\ allowed p rest /\ In w (reach_value rest inArray v).

Definition document_covered (d : fields) : Prop := forall p q w,
  In (TermEvent q w) (document_events opt d p) <->
  exists s rest x, Forall name_ok (s :: rest) /\ lookup d s = Some x /\ q = path_at (child_path p s) rest /\
    allowed (child_path p s) rest /\ In w (reach_value rest false x).

Lemma document_covers d : NoDup (map fst d) -> fields_all (fun k v => name_ok k /\ covered v) d -> document_covered d.
Proof.
  intros N C p q w. unfold document_events. rewrite in_flat_map. split.
  - intros ([k x] & I & H). destruct (fields_all_In _ _ _ _ C I) as [Hk Hx]. apply Hx in H as (rest & Hr & E & A & W).
    exists k, rest, x. repeat split; auto. now apply lookup_NoDup.
  - intros (s & rest & x & Hr & L & E & A & W). apply lookup_found_In in L. exists (s, x). split; [exact L|].
    destruct (fields_all_In _ _ _ _ C L) as [_ Hx]. apply Hx. exists rest. inversion_clear Hr. auto.
Qed.

(** A term of the path itself. *)
Lemma in_path_events p v inArray isCheck q w : In (TermEvent q w) (path_events opt p v inArray isCheck) <->
  is_match (opt p) = true /\ isCheck = false /\ q = p /\ w = v.
Proof.
  unfold path_events. destruct (opt p); cbn [is_match]; try destruct (_ || _); try destruct isCheck; cbn; split;
    try (intros []); try discriminate; intuition (try congruence; try discriminate).
Qed.

Lemma not_in_ancestor q w b : ~ In (TermEvent q w) (when b [AncestorEvent]).
Proof. destruct b; cbn; intuition discriminate. Qed.

(** The three parts of the events of a document that is entered. *)
Lemma in_document_events d p inArray isArrayTerm isCheck q w :
  (inArray = false -> isCheck = false) ->
  In (TermEvent q w) (events opt (VDocument d) p inArray isArrayTerm isCheck) <->
  (isCheck = false /\ is_match (opt p) = true /\ q = p /\ w = VDocument d) \/
  (opt p <> IndexTraverse_Invalid /\ (inArray = false -> opt p <> IndexTraverse_Match) /\
   In (TermEvent q w) (document_events opt d p)).
Proof.
  intros C. cbn [events is_document negb]. rewrite andb_false_r.
  assert (G : forall o, opt p = o -> o <> IndexTraverse_Invalid ->
    In (TermEvent q w) (path_events opt p (VDocument d) inArray isCheck ++ when (inArray && is_match o) [AncestorEvent] ++
      when (negb (negb inArray && no_recurse o)) (document_events opt d p)) <->
    (isCheck = false /\ is_match o = true /\ q = p /\ w = VDocument d) \/
    (o <> IndexTraverse_Invalid /\ (inArray = false -> o <> IndexTraverse_Match) /\
     In (TermEvent q w) (document_events opt d p))).
  { intros o E Ni. rewrite !in_app_iff, in_path_events, E. pose proof (not_in_ancestor q w (inArray && is_match o)) as NA.
    assert (B : In (TermEvent q w) (when (negb (negb inArray && no_recurse o)) (document_events opt d p)) <->
      (inArray = false -> o <> IndexTraverse_Match) /\ In (TermEvent q w) (document_events opt d p)).
    { destruct inArray; cbn [negb andb when]; [intuition discriminate|].
      destruct o; cbn [no_recurse negb when]; intuition (try discriminate). }
    rewrite B. tauto. }
  destruct (opt p) eqn:E; try (apply G; [reflexivity|discriminate]). cbn [is_match]. split; [intros []|].
  intros [(_ & H & _)|(H & _)]; [discriminate|congruence].
Qed.

(** What an element of an array adds under the path of the array. *)
Lemma in_element_events x p isCheck q w : opt p <> IndexTraverse_Invalid ->
  In (TermEvent q w) (events opt x p true true isCheck) <->
  (isCheck = false /\ is_match (opt p) = true /\ q = p /\ w = x) \/
  (exists d, x = VDocument d /\ In (TermEvent q w) (document_events opt d p)).
Proof.
  intros N. assert (S : is_document x = false -> In (TermEvent q w) (events opt x p true true isCheck) <->
    isCheck = false /\ is_match (opt p) = true /\ q = p /\ w = x).
  { intros D. assert (E : events opt x p true true isCheck =
      if isCheck then [] else match opt p with IndexTraverse_Invalid => [] | _ => path_events opt p x true isCheck end).
    { destruct isCheck, x; try discriminate D; cbn [events is_document negb andb when]; try reflexivity;
        (destruct (opt p); [reflexivity|now rewrite app_nil_r..]). }
    rewrite E. destruct isCheck; [split; [intros []|intros (H & _); discriminate]|].
    destruct (opt p) eqn:O; [easy|..]; rewrite in_path_events, O; tauto. }
  destruct (is_document x) eqn:D.
  - destruct x; try discriminate D. rewrite in_document_events by discriminate. split.
    + intros [H|(_ & _ & H)]; [now left|right; eauto].
    + intros [H|(d' & E & H)]; [now left|right]. injection E as ->. repeat split; auto. discriminate.
  - rewrite S by reflexivity. split; [now left|]. intros [H|(d & -> & _)]; [exact H|discriminate D].
Qed.

Lemma document_value_covered d : NoDup (map fst d) -> document_covered d -> covered (VDocument d).
Proof.
  intros N D p inArray q w. rewrite in_document_events by auto. rewrite (D p q w). split.
  - intros [(_ & M & -> & ->)|(Ni & _ & s & rest & x & Hn & L & -> & A & W)].
    + exists []. cbn. auto.
    + exists (s :: rest). cbn [path_at fold_left allowed reach_value]. rewrite L. auto.
  - intros (rest & Hn & -> & A & W). destruct rest as [|s rest].
    + left. destruct W as [<-|[]]. auto.
    + right. destruct A as [A0 A]. split; [exact A0|]. cbn [reach_value] in W.
      destruct (lookup d s) as [x|] eqn:L; [|destruct W]. split; [|exists s, rest, x; auto].
      intros _ M. inversion_clear Hn. apply (allowed_not_invalid _ _ A). now apply match_stops.
Qed.

Lemma in_array_events items p inArray q w :
  In (TermEvent q w) (events opt (VArray items) p inArray false false) <->
  (is_match (opt p) = true /\ q = p /\ w = VArray items) \/
  (opt p <> IndexTraverse_Invalid /\ exists k x, In (k, x) items /\
    (In (TermEvent q w) (events opt x (child_path p k) true false false) \/
     In (TermEvent q w) (events opt x p true true inArray))).
Proof.
  assert (G : forall o, opt p = o -> o <> IndexTraverse_Invalid ->
    In (TermEvent q w) (path_events opt p (VArray items) inArray false ++
      when (negb false) (when (inArray && recursive_match o) [AncestorEvent] ++
        flat_map (fun kv => let '(k, v) := kv in events opt v (child_path p k) true false false ++
                                                  events opt v p true true inArray) items)) <->
    (is_match o = true /\ q = p /\ w = VArray items) \/
    (o <> IndexTraverse_Invalid /\ exists k x, In (k, x) items /\
      (In (TermEvent q w) (events opt x (child_path p k) true false false) \/
       In (TermEvent q w) (events opt x p true true inArray)))).
  { intros o E Ni. cbn [negb when]. rewrite !in_app_iff, in_path_events, in_flat_map, E.
    pose proof (not_in_ancestor q w (inArray && recursive_match o)) as NA.
    assert (B : (exists kv, In kv items /\ In (TermEvent q w) (let '(k, v) := kv in
        events opt v (child_path p k) true false false ++ events opt v p true true inArray)) <->
      exists k x, In (k, x) items /\ (In (TermEvent q w) (events opt x (child_path p k) true false false) \/
       In (TermEvent q w) (events opt x p true true inArray))).
    { split; [intros ([k x] & I & H); rewrite in_app_iff in H; eauto|].
      intros (k & x & I & H). exists (k, x). now rewrite in_app_iff. }
    rewrite B. tauto. }
  cbn [events is_document andb]. destruct (opt p) eqn:E; try (apply G; [reflexivity|discriminate]).
  cbn [is_match]. split; [intros []|]. intros [(H & _)|(H & _)]; [discriminate|congruence].
Qed.

Lemma array_value_covered items : NoDup (map fst items) ->
  fields_all (fun k x => name_ok k /\ covered x /\ forall d, x = VDocument d -> document_covered d) items ->
  covered (VArray items).
Proof.
  intros N C p inArray q w. rewrite in_array_events. split.
  - intros [(M & -> & ->)|(Ni & k & x & I & H)]; [exists []; cbn; auto|].
    destruct (fields_all_In _ _ _ _ C I) as (Hk & Hx & Hd). destruct H as [H|H].
    + apply Hx in H as (rest & Hr & -> & A & W). exists (k :: rest). cbn [path_at fold_left allowed reach_value].
      rewrite (lookup_NoDup _ _ _ N I). repeat split; auto. apply in_app_iff. now left.
    + apply in_element_events in H; [|exact Ni]. destruct H as [(-> & M & -> & ->)|(d & -> & H)].
      * exists []. cbn [path_at fold_left allowed reach_value negb when]. repeat split; auto.
        right. apply (in_map snd) in I. exact I.
      * apply (Hd d eq_refl) in H as (s & rest & y & Hn & L & -> & A & W). exists (s :: rest).
        cbn [path_at fold_left allowed reach_value]. repeat split; auto. apply in_app_iff. right.
        apply in_flat_map. exists d. rewrite L. split; [|exact W]. apply in_documents. now exists k.
  - intros (rest & Hn & -> & A & W). destruct rest as [|s rest].
    + destruct W as [<-|W]; [left; auto|]. destruct inArray; [destruct W|]. cbn [negb when] in W.
      right. split; [now apply (allowed_not_invalid p [])|]. apply in_map_iff in W as ([k x] & E & I). cbn [snd] in E. subst x.
      exists k, w. split; [exact I|]. right. apply in_element_events; [now apply (allowed_not_invalid p [])|left; auto].
    + right. destruct A as [A0 A]. split; [exact A0|]. cbn [reach_value] in W. apply in_app_iff in W as [W|W].
      * destruct (lookup items s) as [x|] eqn:L; [|destruct W]. apply lookup_found_In in L.
        exists s, x. split; [exact L|left]. destruct (fields_all_In _ _ _ _ C L) as (_ & Hx & _).
        apply Hx. exists rest. inversion_clear Hn. auto.
      * apply in_flat_map in W as (d & I & W). apply in_documents in I as [k I].
        destruct (lookup d s) as [y|] eqn:L; [|destruct W]. exists k, (VDocument d). split; [exact I|right].
        apply in_element_events; [exact A0|right]. exists d. split; [reflexivity|].
        destruct (fields_all_In _ _ _ _ C I) as (_ & _ & Hd). apply (Hd d eq_refl). exists s, rest, y. auto.
Qed.

Lemma fields_all_Forall2 (P : bson_value -> Prop) (Q R : bytes -> bson_value -> Prop) (d : fields) :
  Forall (fun kv => P (snd kv)) d -> fields_all Q d -> (forall k v, P v -> Q k v -> R k v) -> fields_all R d.
Proof.
  intros F. induction F as [|[k v] d Hp _ IH]; cbn; [easy|]. intros [Hq H] I. split; auto.
Qed.

Definition covers_if_regular (v : bson_value) : Prop :=
  regular v -> covered v /\ forall d, v = VDocument d -> document_covered d.

Lemma regular_covered v : covers_if_regular v.
Proof.
  induction v using bson_value_nested_ind; intros Hr; try (split; [|discriminate]).
  4: { destruct Hr as [N R]. assert (D : document_covered d).
       { apply document_covers; [exact N|]. refine (fields_all_Forall2 covers_if_regular _ _ d H R _). unfold covers_if_regular. tauto. }
       split; [now apply document_value_covered|]. intros d' E. now injection E as <-. }
  4: { destruct Hr as [N R]. apply array_value_covered; [exact N|].
       refine (fields_all_Forall2 covers_if_regular _ _ d H R _). unfold covers_if_regular. tauto. }
  all: intros p inArray q w; assert (E : forall v, is_document v = false -> is_array v = false ->
         (forall rest b, reach_value rest b v = match rest with [] => [v] | _ => [] end) ->
         events opt v p inArray false false = path_events opt p v inArray false ->
         In (TermEvent q w) (events opt v p inArray false false) <->
         exists rest, Forall name_ok rest /\ q = path_at p rest /\ allowed p rest /\ In w (reach_value rest inArray v)) by
        (intros v _ _ Hv ->; rewrite in_path_events; split;
         [intros (M & _ & -> & ->); exists []; rewrite Hv; cbn; auto|
          intros (rest & _ & -> & A & W); rewrite Hv in W; destruct rest; [destruct W as [<-|[]]; auto|destruct W]]).
  all: apply E; try reflexivity; try (intros [|? ?]; reflexivity); cbn [events is_document andb];
       unfold path_events; destruct (opt p); try reflexivity; now rewrite ?app_nil_r.
Qed.
End Covered.

(** ** Joined paths *)

Lemma child_path_cons p k : p <> [] -> child_path p k = p ++ dot :: k.
Proof. destruct p; [easy|]. intros _. unfold child_path. rewrite blen_cons. pose proof (blen_nonneg p).
  destruct (Z.eqb_spec (1 + blen p) 0); [lia|reflexivity]. Qed.

Definition joined (rest : list bytes) : bytes := flat_map (cons dot) rest.

Lemma path_at_joined rest : forall p, p <> [] -> path_at p rest = p ++ joined rest.
Proof.
  induction rest as [|s rest IH]; intros p Hp; cbn; [now rewrite app_nil_r|].
  rewrite child_path_cons by exact Hp. fold (path_at (p ++ dot :: s) rest). rewrite IH by now destruct p.
  rewrite <- app_assoc. reflexivity.
Qed.

Lemma join_path_joined s rest : join_path (s :: rest) = s ++ joined rest.
Proof.
  revert s; induction rest as [|t rest IH]; intros s; [cbn; now rewrite app_nil_r|].
  change (join_path (s :: t :: rest)) with (s ++ dot :: join_path (t :: rest)). now rewrite IH.
Qed.

Lemma path_at_join s rest : name_ok s -> path_at s rest = join_path (s :: rest).
Proof. intros [Hs _]. now rewrite path_at_joined, join_path_joined. Qed.

Lemma app_sep_inj (s s' t t' : bytes) : ~ In dot s -> ~ In dot s' ->
  match t with [] => True | c :: _ => c = dot end -> match t' with [] => True | c :: _ => c = dot end ->
  s ++ t = s' ++ t' -> s = s' /\ t = t'.
Proof.
  revert s'; induction s as [|c s IH]; intros [|c' s'] Hs Hs' Ht Ht' E; cbn in *; try (split; congruence).
  - destruct t; [discriminate|]. injection E as E1 _. elim Hs'. left. congruence.
  - destruct t'; [discriminate|]. injection E as E1 _. elim Hs. left. congruence.
  - injection E as -> E. destruct (IH s' (fun I => Hs (or_intror I)) (fun I => Hs' (or_intror I)) Ht Ht' E) as [-> ->]. auto.
Qed.

Lemma joined_starts rest : match joined rest with [] => True | c :: _ => c = dot end.
Proof. now destruct rest. Qed.

Lemma joined_inj a : forall b, Forall name_ok a -> Forall name_ok b -> joined a = joined b -> a = b.
Proof.
  induction a as [|s a IH]; intros [|t b] Ha Hb E; try discriminate E; [reflexivity|].
  inversion_clear Ha as [|? ? [_ Ds] Ha']. inversion_clear Hb as [|? ? [_ Dt] Hb']. cbn in E. injection E as E.
  destruct (app_sep_inj _ _ _ _ Ds Dt (joined_starts a) (joined_starts b) E) as [-> E']. now rewrite (IH b).
Qed.

Lemma join_path_inj a b : Forall name_ok a -> Forall name_ok b -> a <> [] -> b <> [] -> join_path a = join_path b -> a = b.
Proof.
  destruct a as [|s a], b as [|t b]; try easy. intros Ha Hb _ _. rewrite !join_path_joined. intros E.
  inversion_clear Ha as [|? ? [_ Ds] Ha']. inversion_clear Hb as [|? ? [_ Dt] Hb'].
  destruct (app_sep_inj _ _ _ _ Ds Dt (joined_starts a) (joined_starts b) E) as [-> E']. now rewrite (joined_inj a b).
Qed.

(** ** What a document's terms are *)

Lemma regular_indexed v : regular v -> arrays_indexed v.
Proof.
  induction v using bson_value_nested_ind; cbn [regular arrays_indexed]; auto.
  all: intros [_ R]; revert R; induction H as [|[k v] d Hv _ IH]; cbn; [easy|]; intros [[? ?] R]; split; auto; split; tauto.
Qed.

Section Document.
Variable opt : bytes -> IndexTraverseOption.
Hypothesis match_stops : forall p k, opt p = IndexTraverse_Match -> name_ok k -> opt (child_path p k) = IndexTraverse_Invalid.
Variables (skip : bool) (doc : fields).
Hypothesis doc_regular : regular (VDocument doc).

(** The walk gets to the end of a path given by its segments. *)
Definition allowed_path (segs : list bytes) : Prop :=
  match segs with [] => False | s :: rest => allowed opt s rest end.

Lemma document_terms q w : In (TermEvent q w) (document_events opt doc []) <->
  exists segs, Forall name_ok segs /\ q = join_path segs /\ allowed_path segs /\
    In w (map visited (reach skip segs false doc)).
Proof.
  destruct (regular_covered opt match_stops (VDocument doc) doc_regular) as [_ D].
  rewrite (D doc eq_refl [] q w). split.
  - intros (s & rest & x & Hn & L & -> & A & W). inversion_clear Hn as [|? ? Hs Hr]. exists (s :: rest).
    rewrite <- path_at_join by exact Hs. repeat split; auto.
    replace (reach skip (s :: rest) false doc) with (reach true (s :: rest) false doc)
      by (destruct skip; [reflexivity|apply reach_skip, (regular_indexed (VDocument doc) doc_regular)]).
    rewrite reach_reach_value, L. exact W.
  - intros ([|s rest] & Hn & -> & A & W); [destruct A|].
    replace (reach skip (s :: rest) false doc) with (reach true (s :: rest) false doc) in W
      by (destruct skip; [reflexivity|apply reach_skip, (regular_indexed (VDocument doc) doc_regular)]).
    rewrite reach_reach_value in W. destruct (lookup doc s) as [x|] eqn:L; [|destruct W].
    exists s, rest, x. inversion Hn as [|? ? Hs Hr]; subst. rewrite <- path_at_join by exact Hs. auto.
Qed.

(** The values indexed under a path are the values the path leads to. *)
Lemma document_terms_at segs w : segs <> [] -> Forall name_ok segs ->
  In (TermEvent (join_path segs) w) (document_events opt doc []) <->
  allowed_path segs /\ In w (map visited (reach skip segs false doc)).
Proof.
  intros Ne Hn. rewrite document_terms. split; [|intros [A W]; exists segs; auto].
  intros (segs' & Hn' & E & A & W). apply join_path_inj in E; try assumption; [now subst|now destruct segs'].
Qed.
End Document.

(** ** A single path *)

Section SinglePath.
Variable segs : list bytes.
Hypothesis segs_ne : segs <> [].
Hypothesis segs_ok : Forall name_ok segs.
Hypothesis segs_no_nul : no_nul (join_path segs).
Local Abbreviation opt := (fun p => GetSinglePathIndexTraverseOptionCore (join_path segs) p false).

Lemma single_match_stops p k : opt p = IndexTraverse_Match -> name_ok k -> opt (child_path p k) = IndexTraverse_Invalid.
Proof.
  intros M Hk. apply (single_path_match _ segs_no_nul) in M. subst p.
  destruct (GetSinglePathIndexTraverseOptionCore (join_path segs) (child_path (join_path segs) k) false) eqn:E; [reflexivity|..];
    exfalso; assert (X : opt (child_path (join_path segs) k) <> IndexTraverse_Invalid) by (cbv beta; congruence);
    apply (single_path_covers _ segs_no_nul) in X as [t X]; apply (f_equal (@List.length byte)) in X;
    revert X; unfold child_path; (destruct (blen (join_path segs) =? 0) eqn:Z0;
      [unfold blen in Z0; destruct Hk as [Hk _]; destruct k; [easy|]; rewrite length_app; cbn; lia
      |rewrite !length_app; cbn [List.length]; lia]).
Qed.

Lemma single_allowed_at rest : forall p, p <> [] -> path_at p rest = join_path segs -> allowed opt p rest.
Proof.
  induction rest as [|s rest IH]; intros p Hp E.
  - cbn in *. apply (single_path_match _ segs_no_nul) in E. cbv beta in E. now rewrite E.
  - split; [|apply IH; [rewrite child_path_cons by exact Hp; now destruct p|exact E]].
    apply (single_path_covers _ segs_no_nul). rewrite path_at_joined in E by exact Hp. now exists (joined (s :: rest)).
Qed.

Lemma allowed_at_match o rest : forall p, allowed o p rest -> is_match (o (path_at p rest)) = true.
Proof. induction rest as [|s rest IH]; intros p A; [exact A|]. destruct A as [_ A]. exact (IH _ A). Qed.

Lemma single_allowed segs' : Forall name_ok segs' -> allowed_path opt segs' <-> segs' = segs.
Proof.
  intros Hn. split.
  - destruct segs' as [|s rest]; [intros []|]. intros A. apply allowed_at_match in A.
    inversion Hn as [|? ? Hs Hr]; subst. rewrite path_at_join in A by exact Hs.
    apply join_path_inj; auto; [discriminate|]. apply (single_path_match _ segs_no_nul).
    pose proof (single_path_never_recursive (join_path segs) (join_path (s :: rest))) as NR. cbv beta in *.
    destruct (GetSinglePathIndexTraverseOptionCore _ _ _); (discriminate A || reflexivity || congruence).
  - intros E. destruct segs' as [|s rest]; [now elim segs_ne|]. inversion Hn as [|? ? Hs Hr].
    apply single_allowed_at; [apply Hs|]. rewrite path_at_join by exact Hs. now rewrite E.
Qed.

(** The terms of a single-path index are the values its path leads to. *)
Lemma single_path_terms skip doc q w : regular (VDocument doc) ->
  In (TermEvent q w) (document_events opt doc []) <->
  q = join_path segs /\ In w (map visited (reach skip segs false doc)).
Proof.
  intros R. rewrite (document_terms opt single_match_stops skip doc R). split.
  - intros (segs' & Hn & -> & A & W). apply single_allowed in A; [|exact Hn]. subst. auto.
  - intros [-> W]. exists segs. repeat split; auto. now apply single_allowed.
Qed.
End SinglePath.
