(* ===== verification/GinQuery.v ===== *)
(** * Queries on an index ([bson_gin_core.c])

    The three support functions that answer a query from an index: the terms to
    look up for an operator ([extract_query]), the decision on a term met while
    scanning from such a term ([compare_partial]), and the decision on a document
    from the terms it was found under ([consistent]), which may ask for the
    operator to be evaluated again on the document ([recheck]).

    [extra_data] carries what extraction passes to the other two.  [$elemMatch] is
    a parameter here and is supplied by [GinElemMatch].  The type codes that
    [GinBsonExtractQueryDollarType] passes are behind a pointer to one of its own
    local variables; they are modelled as if that variable were still alive. *)

From Stdlib Require Import ZArith Lia Bool String List.
From Stdlib Require Import Strings.Byte.
From S2P Require Import Prelude SoftFloat BsonTypes StringView Decimal128 BsonCompare Traversal PgbsonElement BsonWire.
From S2P Require Import IndexTerm DollarMatch DollarOperators DollarSets ExprEval GinOptions.
Import ListNotations.
Local Open Scope Z_scope.

Record DollarRangeValues : Set := {
  params : DollarRangeParams;
  isArrayTerm : bool;
  maxValueIndexTerm : bytes;
  minValueIndexTerm : bytes
}.

Record DollarArrayOpQueryData : Set := {
  arrayHasNull : bool;
  arrayHasRegex : bool;
  arrayHasElemMatch : bool;
  arrayHasTruncation : bool;
  inTermCount : nat;
  rootTermIndex : nat;
  rootExistsTermIndex : nat;
  nonExistsTermIndex : nat;
  rootTruncatedTermIndex : nat;
  undefinedLiteralTermIndex : nat;
  multiKeyTermIndex : nat
}.

Record DollarExistsQueryData : Set := {
  isComparePartial : bool;
  isPositiveExists : bool
}.

Record BsonExtractQueryArgs : Set := {
  arg_filterElement : pgbsonelement;
  arg_options : BsonGinIndexOptions;
  arg_termMetadata : IndexTermCreateMetadata
}.

(** The double whose bits are [0x7FF8000000000000]: [NAN]. *)
Definition double_NAN : Z := 9221120237041090560.
Definition BSON_SUBTYPE_BINARY : Z := 0.

(** ** Bounds of a type ([GetLowerBoundForLessThan]) *)

Definition GetLowerBoundForLessThan (inputBsonType : bson_type_t) : bson_value :=
  match inputBsonType with
  | BSON_TYPE_DOUBLE | BSON_TYPE_INT32 | BSON_TYPE_INT64 | BSON_TYPE_DECIMAL128 => VDouble double_NAN
  | BSON_TYPE_UTF8 => VUtf8 []
  | BSON_TYPE_SYMBOL => VSymbol []
  | BSON_TYPE_DOCUMENT => VDocument []
  | BSON_TYPE_ARRAY => VArray []
  | BSON_TYPE_BOOL => VBool false
  | BSON_TYPE_DATE_TIME => VDateTime INT64_MIN
  | _ => VMinKey
  end.

Definition IsValidBsonDocumentForDollarInOrNinOp (value : bson_value) : bool :=
  match value with
  | VDocument ((key, _) :: _) =>
    if StringViewStartsWith (Some key) x24
    then (strcmp key (str "$regex") =? 0) || (strcmp key (str "$ref") =? 0) || (strcmp key (str "$id") =? 0)
    else true
  | _ => true
  end.

Definition GetBsonTypeNameFromStringForDollarType (typeNameStr : bytes) : res bson_type_t :=
  if strcmp typeNameStr (str "number") =? 0 then Ok BSON_TYPE_DOUBLE else BsonTypeFromName typeNameStr.

Section Query.
Context {BL : BidLib} {LB : LibBson} {RE : Pcre2} {EE : ExprEngine}.
(** Settings of the extension. *)
Variables EnableIndexTermTruncationOnNestedObjects IndexTermUseUnsafeTransform EnableRumInOperatorFastPath : bool.
(** See [DollarMatch]. *)
Variable uninitialized_type : Z.
(** The state of [$elemMatch]. *)
Context {ElemMatchState : Type}.
Local Open Scope res_scope.

Record BsonElemMatchIndexExprState : Set := { expression : ExprEvalState; isEmptyExpression : bool }.

Inductive BsonDollarAllIndexState : Type :=
| AllExprEvalState (exprEvalState : BsonElemMatchIndexExprState)
| AllRegex (regexData : RegexData).

Inductive extra_data : Type :=
| NoExtra
| MaxValueExtra (maxValue : bytes)
| RangeExtra (rangeValues : DollarRangeValues)
| RegexExtra (regexData : RegexData)
| ElementExtra (query : pgbsonelement)
| ExistsExtra (queryData : DollarExistsQueryData)
| SizeExtra (size : Z)
| TypeExtra (types : list Z)
| ArrayOpExtra (queryData : DollarArrayOpQueryData)
| AllExtra (indexState : BsonDollarAllIndexState)
| ElemMatchExtra (state : ElemMatchState).

(** What extraction returns: the entries, which of them are partial matches, and
    the extra data; [nentries] is the number of entries.  Missing flags are false,
    and missing extra data is NULL. *)
Record extracted : Type := {
  queryKeys : list bytes;
  partialmatch : list bool;
  extra : list extra_data
}.

Local Abbreviation serialize e md := (SerializeBsonIndexTerm EnableIndexTermTruncationOnNestedObjects e md).
Local Abbreviation rootTerm := (GenerateRootTerm EnableIndexTermTruncationOnNestedObjects).
Local Abbreviation rootExists := (GenerateRootExistsTerm EnableIndexTermTruncationOnNestedObjects).
Local Abbreviation rootNonExists := (GenerateRootNonExistsTerm EnableIndexTermTruncationOnNestedObjects).
Local Abbreviation rootMultiKey := (GenerateRootMultiKeyTerm EnableIndexTermTruncationOnNestedObjects).
Local Abbreviation rootTruncated := (GenerateRootTruncatedTerm EnableIndexTermTruncationOnNestedObjects).

(** ** Extraction *)

Definition GenerateNullEqualityIndexTerms (filterElement : pgbsonelement) (metadata : IndexTermCreateMetadata)
  : res extracted :=
  let* literal := serialize filterElement metadata in
  let* nonExists := rootNonExists metadata in
  let* undefined := serialize (fst filterElement, VUndefined) metadata in
  let* exists_ := rootExists metadata in
  let* multiKey := rootMultiKey metadata in
  let* root := rootTerm metadata in
  Ok {| queryKeys := [indexTermVal literal; nonExists; indexTermVal undefined; exists_; multiKey; root];
        partialmatch := []; extra := [] |}.

Definition GinBsonExtractQueryEqual (args : BsonExtractQueryArgs) : res extracted :=
  match snd (arg_filterElement args) with
  | VNull => GenerateNullEqualityIndexTerms (arg_filterElement args) (arg_termMetadata args)
  | _ =>
    let* t := serialize (arg_filterElement args) (arg_termMetadata args) in
    Ok {| queryKeys := [indexTermVal t]; partialmatch := []; extra := [] |}
  end.

Definition GinBsonExtractQueryDollarBitWiseOperators (args : BsonExtractQueryArgs) : res extracted :=
  let path := fst (arg_filterElement args) in
  let* number := serialize (path, VDouble double_NAN) (arg_termMetadata args) in
  let* binary := serialize (path, VBinary BSON_SUBTYPE_BINARY []) (arg_termMetadata args) in
  let* truncated := rootTruncated (arg_termMetadata args) in
  Ok {| queryKeys := [indexTermVal number; indexTermVal binary; truncated];
        partialmatch := [true; true; false];
        extra := [ElementExtra (arg_filterElement args); ElementExtra (arg_filterElement args)] |}.

Definition GinBsonExtractQueryDollarRange (args : BsonExtractQueryArgs) : res extracted :=
  let path := fst (arg_filterElement args) in
  let* params := InitializeQueryDollarRange (snd (arg_filterElement args)) in
  let* maxSerialized := serialize (path, maxValue params) (arg_termMetadata args) in
  let* minSerialized := serialize (path, minValue params) (arg_termMetadata args) in
  let rangeValues isArrayTerm :=
    RangeExtra {| params := params; isArrayTerm := isArrayTerm;
                  maxValueIndexTerm := indexTermVal maxSerialized; minValueIndexTerm := indexTermVal minSerialized |} in
  let* arrayTerm := serialize (path, VArray []) (arg_termMetadata args) in
  let bounds := serialized_truncated minSerialized || serialized_truncated maxSerialized in
  Ok {| queryKeys := [indexTermVal minSerialized; indexTermVal arrayTerm] ++
          (if bounds then [indexTermVal minSerialized; indexTermVal maxSerialized] else []);
        partialmatch := [true; true; false; false];
        extra := [rangeValues false; rangeValues true; rangeValues true; rangeValues true] |}.

Definition GinBsonExtractQueryNotEqual (args : BsonExtractQueryArgs) : res extracted :=
  match snd (arg_filterElement args) with
  | VNull => GenerateNullEqualityIndexTerms (arg_filterElement args) (arg_termMetadata args)
  | _ =>
    let* t := serialize (arg_filterElement args) (arg_termMetadata args) in
    let* exists_ := rootExists (arg_termMetadata args) in
    let* nonExists := rootNonExists (arg_termMetadata args) in
    let* root := rootTerm (arg_termMetadata args) in
    Ok {| queryKeys := [indexTermVal t; exists_; nonExists; root]; partialmatch := []; extra := [] |}
  end.

Definition GenerateNegationTerms (termMetadata : IndexTermCreateMetadata) : res (list bytes) :=
  let* nonExists := rootNonExists termMetadata in
  let* exists_ := rootExists termMetadata in
  let* root := rootTerm termMetadata in
  Ok [nonExists; exists_; root].

Definition negation_terms (isNegation : bool) (termMetadata : IndexTermCreateMetadata) : res (list bytes) :=
  if isNegation then GenerateNegationTerms termMetadata else Ok [].

Definition GenerateExistsEqualityTerms (filterElement : pgbsonelement) (positive : bool)
  (indexOptions : BsonGinIndexOptions) (metadata : IndexTermCreateMetadata) : res extracted :=
  let comparePartial := IsWildcardIndex indexOptions in
  let existsQueryData := ExistsExtra {| isComparePartial := comparePartial; isPositiveExists := positive |} in
  if negb comparePartial then
    let* first := if positive then rootExists metadata else rootNonExists metadata in
    let* root := rootTerm metadata in
    Ok {| queryKeys := [first; root]; partialmatch := []; extra := [existsQueryData] |}
  else
    let* minKey := serialize (fst filterElement, VMinKey) metadata in
    if positive then Ok {| queryKeys := [indexTermVal minKey]; partialmatch := [true]; extra := [existsQueryData] |}
    else
      let* root := rootTerm metadata in
      let* nonExists := rootNonExists metadata in
      let* exists_ := rootExists metadata in
      Ok {| queryKeys := [indexTermVal minKey; root; nonExists; exists_]; partialmatch := [true];
            extra := [existsQueryData] |}.

Definition GinBsonExtractQueryGreaterEqual (args : BsonExtractQueryArgs) (isNegation : bool) : res extracted :=
  match snd (arg_filterElement args) with
  | VNull => GenerateNullEqualityIndexTerms (arg_filterElement args) (arg_termMetadata args)
  | VMinKey => GenerateExistsEqualityTerms (arg_filterElement args) true (arg_options args) (arg_termMetadata args)
  | _ =>
    let* t := serialize (arg_filterElement args) (arg_termMetadata args) in
    let* negation := negation_terms isNegation (arg_termMetadata args) in
    Ok {| queryKeys := [indexTermVal t; indexTermVal t] ++ negation; partialmatch := [true]; extra := [] |}
  end.

Definition GinBsonExtractQueryGreater (args : BsonExtractQueryArgs) (isNegation : bool) : res extracted :=
  let* t := serialize (arg_filterElement args) (arg_termMetadata args) in
  let* negation := negation_terms isNegation (arg_termMetadata args) in
  Ok {| queryKeys := [indexTermVal t] ++ (if serialized_truncated t || isNegation then [indexTermVal t] else []) ++ negation;
        partialmatch := [true]; extra := [] |}.

Definition GinBsonExtractQueryLessEqual (args : BsonExtractQueryArgs) (isNegation : bool) : res extracted :=
  let '(path, value) := arg_filterElement args in
  match value with
  | VNull => GenerateNullEqualityIndexTerms (arg_filterElement args) (arg_termMetadata args)
  | _ =>
    let* t := serialize (path, value) (arg_termMetadata args) in
    let* lower := serialize (path, GetLowerBoundForLessThan (value_type value)) (arg_termMetadata args) in
    let* negation := negation_terms isNegation (arg_termMetadata args) in
    Ok {| queryKeys := [indexTermVal lower; indexTermVal t] ++ negation; partialmatch := [true];
          extra := [MaxValueExtra (indexTermVal t)] |}
  end.

Definition GinBsonExtractQueryLess (args : BsonExtractQueryArgs) (isNegation : bool) : res extracted :=
  let '(path, value) := arg_filterElement args in
  let* t := serialize (path, value) (arg_termMetadata args) in
  let* lower := serialize (path, GetLowerBoundForLessThan (value_type value)) (arg_termMetadata args) in
  let* negation := negation_terms isNegation (arg_termMetadata args) in
  Ok {| queryKeys := [indexTermVal lower] ++ (if serialized_truncated t || isNegation then [indexTermVal t] else []) ++ negation;
        partialmatch := [true]; extra := [MaxValueExtra (indexTermVal t)] |}.

(** ** Extraction for the operators with an array *)

Definition no_query_data : DollarArrayOpQueryData :=
  {| arrayHasNull := false; arrayHasRegex := false; arrayHasElemMatch := false; arrayHasTruncation := false;
     inTermCount := 0; rootTermIndex := 0; rootExistsTermIndex := 0; nonExistsTermIndex := 0;
     rootTruncatedTermIndex := 0; undefinedLiteralTermIndex := 0; multiKeyTermIndex := 0 |}.

Definition is_null (v : bson_value) : bool := match v with VNull => true | _ => false end.
Definition is_regex (v : bson_value) : bool := match v with VRegex _ _ => true | _ => false end.

(** The element to serialize for an element of the array, its flag and its extra
    data; a regular expression is looked up from the empty string. *)
Definition ProcessExtractQueryForRegex (value : bson_value) : res (bson_value * bool * option RegexData) :=
  match value with
  | VRegex r o => let* data := compile_regex r o in Ok (VUtf8 [], true, Some data)
  | _ => Ok (value, false, None)
  end.

(** One element's term, whether it is truncated, its flag and its extra data. *)
Definition array_term (path : bytes) (metadata : IndexTermCreateMetadata) (value : bson_value)
  : res (bytes * bool * bool * extra_data) :=
  let* '(v, partial, data) := ProcessExtractQueryForRegex value in
  let* t := serialize (path, v) metadata in
  Ok (indexTermVal t, serialized_truncated t, partial, match data with Some d => RegexExtra d | None => NoExtra end).

Fixpoint array_terms (f : bson_value -> res (bytes * bool * bool * extra_data)) (arrayIter : fields)
  : res (list (bytes * bool * bool * extra_data)) :=
  match arrayIter with
  | [] => Ok []
  | (_, value) :: arrayIter =>
    let* t := f value in let* ts := array_terms f arrayIter in Ok (t :: ts)
  end.

Definition term_bytes (t : bytes * bool * bool * extra_data) : bytes := let '(b, _, _, _) := t in b.
Definition term_truncated (t : bytes * bool * bool * extra_data) : bool := let '(_, b, _, _) := t in b.
Definition term_partial (t : bytes * bool * bool * extra_data) : bool := let '(_, _, b, _) := t in b.
Definition term_extra (t : bytes * bool * bool * extra_data) : extra_data := let '(_, _, _, e) := t in e.

(** The five terms for a null, from position [index]. *)
Definition AddNullArrayOpTerms (index : nat) (path : bytes) (queryData : DollarArrayOpQueryData)
  (termMetadata : IndexTermCreateMetadata) : res (list bytes * DollarArrayOpQueryData) :=
  let* root := rootTerm termMetadata in
  let* exists_ := rootExists termMetadata in
  let* nonExists := rootNonExists termMetadata in
  let* multiKey := rootMultiKey termMetadata in
  let* undefined := serialize (path, VUndefined) termMetadata in
  Ok ([root; exists_; nonExists; multiKey; indexTermVal undefined],
      {| arrayHasNull := arrayHasNull queryData; arrayHasRegex := arrayHasRegex queryData;
         arrayHasElemMatch := arrayHasElemMatch queryData; arrayHasTruncation := arrayHasTruncation queryData;
         inTermCount := inTermCount queryData; rootTermIndex := index; rootExistsTermIndex := index + 1;
         nonExistsTermIndex := index + 2; rootTruncatedTermIndex := rootTruncatedTermIndex queryData;
         undefinedLiteralTermIndex := index + 4; multiKeyTermIndex := index + 3 |}).

(** The root truncated term, at the end. *)
Definition add_truncated (needed : bool) (keys : list bytes) (queryData : DollarArrayOpQueryData)
  (termMetadata : IndexTermCreateMetadata) : res (list bytes * DollarArrayOpQueryData) :=
  if needed then
    let* t := rootTruncated termMetadata in
    Ok (keys ++ [t],
        {| arrayHasNull := arrayHasNull queryData; arrayHasRegex := arrayHasRegex queryData;
           arrayHasElemMatch := arrayHasElemMatch queryData; arrayHasTruncation := arrayHasTruncation queryData;
           inTermCount := inTermCount queryData; rootTermIndex := rootTermIndex queryData;
           rootExistsTermIndex := rootExistsTermIndex queryData; nonExistsTermIndex := nonExistsTermIndex queryData;
           rootTruncatedTermIndex := List.length keys; undefinedLiteralTermIndex := undefinedLiteralTermIndex queryData;
           multiKeyTermIndex := multiKeyTermIndex queryData |})
  else Ok (keys, queryData).

(** The extra data of [$in], [$nin] and [$all]: one slot per element of the
    array, NULL for the other entries, and the query data behind the last. *)
Definition array_extra (terms : list (bytes * bool * bool * extra_data)) (keys : list bytes)
  (queryData : DollarArrayOpQueryData) : list extra_data :=
  map term_extra terms ++ repeat NoExtra (List.length keys - List.length terms) ++ [ArrayOpExtra queryData].

Definition GinBsonExtractQueryIn (args : BsonExtractQueryArgs) : res extracted :=
  let '(path, value) := arg_filterElement args in
  match value with
  | VArray items =>
    if negb (forallb (fun kv => IsValidBsonDocumentForDollarInOrNinOp (snd kv)) items)
    then Err ERRCODE_DOCUMENTDB_BADVALUE
    else
      let hasNull := existsb (fun kv => is_null (snd kv)) items in
      let* terms := array_terms (array_term path (arg_termMetadata args)) items in
      let queryData :=
        {| arrayHasNull := hasNull; arrayHasRegex := existsb (fun kv => is_regex (snd kv)) items;
           arrayHasElemMatch := false; arrayHasTruncation := existsb term_truncated terms;
           inTermCount := List.length terms; rootTermIndex := 0; rootExistsTermIndex := 0; nonExistsTermIndex := 0;
           rootTruncatedTermIndex := 0; undefinedLiteralTermIndex := 0; multiKeyTermIndex := 0 |} in
      let* '(nullTerms, queryData) :=
        if hasNull then AddNullArrayOpTerms (List.length terms) path queryData (arg_termMetadata args)
        else Ok ([], queryData) in
      let* '(keys, queryData) := add_truncated (arrayHasRegex queryData || arrayHasTruncation queryData)
        (map term_bytes terms ++ nullTerms) queryData (arg_termMetadata args) in
      Ok {| queryKeys := keys; partialmatch := map term_partial terms; extra := array_extra terms keys queryData |}
  | _ => Err ERRCODE_DOCUMENTDB_BADVALUE
  end.

Definition GinBsonExtractQueryNotIn (args : BsonExtractQueryArgs) : res extracted :=
  let '(path, value) := arg_filterElement args in
  match value with
  | VArray items =>
    if negb (forallb (fun kv => IsValidBsonDocumentForDollarInOrNinOp (snd kv)) items)
    then Err ERRCODE_DOCUMENTDB_BADVALUE
    else
      let hasNull := existsb (fun kv => is_null (snd kv)) items in
      let* terms := array_terms (array_term path (arg_termMetadata args)) items in
      let index := List.length terms in
      let* root := rootTerm (arg_termMetadata args) in
      let* nonExists := rootNonExists (arg_termMetadata args) in
      let* exists_ := rootExists (arg_termMetadata args) in
      let* multiKey := rootMultiKey (arg_termMetadata args) in
      (* only the last element decides about [arrayHasTruncation] *)
      let queryData :=
        {| arrayHasNull := hasNull; arrayHasRegex := existsb (fun kv => is_regex (snd kv)) items;
           arrayHasElemMatch := false; arrayHasTruncation := last (map term_truncated terms) false;
           inTermCount := index; rootTermIndex := index; rootExistsTermIndex := index + 2;
           nonExistsTermIndex := index + 1; rootTruncatedTermIndex := 0;
           undefinedLiteralTermIndex := if hasNull then index + 4 else 0; multiKeyTermIndex := index + 3 |} in
      let* undefined :=
        if hasNull then let* t := serialize (path, VUndefined) (arg_termMetadata args) in Ok [indexTermVal t] else Ok [] in
      let* '(keys, queryData) := add_truncated (arrayHasTruncation queryData)
        (map term_bytes terms ++ [root; nonExists; exists_; multiKey] ++ undefined) queryData (arg_termMetadata args) in
      Ok {| queryKeys := keys; partialmatch := map term_partial terms; extra := array_extra terms keys queryData |}
  | _ => Err ERRCODE_DOCUMENTDB_BADVALUE
  end.

(** ** Extraction for the other operators *)

Definition GinBsonExtractQueryRegex (args : BsonExtractQueryArgs) : res extracted :=
  let '(path, value) := arg_filterElement args in
  match value with
  | VUtf8 _ | VRegex _ _ =>
    let* empty := serialize (path, VUtf8 []) (arg_termMetadata args) in
    let* truncated := rootTruncated (arg_termMetadata args) in
    let* literal :=
      if is_regex value then let* t := serialize (path, value) (arg_termMetadata args) in Ok [indexTermVal t] else Ok [] in
    let* regexData := PopulateRegexFromQuery value in
    Ok {| queryKeys := [indexTermVal empty; truncated] ++ literal; partialmatch := [true];
          extra := [RegexExtra regexData] |}
  | _ => Err ERRCODE_DOCUMENTDB_BADVALUE
  end.

Definition GinBsonExtractQueryMod (args : BsonExtractQueryArgs) : res extracted :=
  let* t := serialize (fst (arg_filterElement args), VDouble double_NAN) (arg_termMetadata args) in
  Ok {| queryKeys := [indexTermVal t]; partialmatch := [true]; extra := [ElementExtra (arg_filterElement args)] |}.

Definition GinBsonExtractQueryExists (args : BsonExtractQueryArgs) : res extracted :=
  let value := snd (arg_filterElement args) in
  let* existsPositiveMatch :=
    if BsonValueIsNumberOrBool value then let* v := BsonValueAsInt64 value in Ok (negb (v =? 0)) else Ok true in
  GenerateExistsEqualityTerms (arg_filterElement args) existsPositiveMatch (arg_options args) (arg_termMetadata args).

Definition GenerateEmptyArrayTerm (filterElement : pgbsonelement) (metadata : IndexTermCreateMetadata) : res bytes :=
  term_value (serialize (fst filterElement, VArray []) metadata).

Definition GinBsonExtractQuerySize (args : BsonExtractQueryArgs) : res extracted :=
  let* size := BsonValueAsInt64 (snd (arg_filterElement args)) in
  let* t := GenerateEmptyArrayTerm (arg_filterElement args) (arg_termMetadata args) in
  Ok {| queryKeys := [t]; partialmatch := [true]; extra := [SizeExtra size] |}.

Definition type_code_of_number (value : bson_value) : res Z :=
  let* typeCode := BsonValueAsInt64 value in
  Ok (match TryGetTypeFromInt64 typeCode with Some t => t | None => uninitialized_type end).

Fixpoint array_types (arrayIter : fields) : res (list Z) :=
  match arrayIter with
  | [] => Ok []
  | (_, currentValue) :: arrayIter =>
    let* t :=
      if BsonValueIsNumberOrBool currentValue then type_code_of_number currentValue
      else
        match currentValue with
        | VUtf8 s =>
          if strcmp s (str "number") =? 0 then Ok (type_code BSON_TYPE_INT32)
          else let* t := BsonTypeFromName s in Ok (type_code t)
        | _ => Err ERRCODE_INTERNAL_ERROR
        end in
    let* ts := array_types arrayIter in Ok (t :: ts)
  end.

Definition GinBsonExtractQueryDollarType (args : BsonExtractQueryArgs) : res extracted :=
  let '(path, value) := arg_filterElement args in
  let* types :=
    match value with
    | VUtf8 s => let* t := GetBsonTypeNameFromStringForDollarType s in Ok [type_code t]
    | _ =>
      if BsonValueIsNumberOrBool value then let* t := type_code_of_number value in Ok [t]
      else match value with VArray items => array_types items | _ => Err ERRCODE_INTERNAL_ERROR end
    end in
  let* t := serialize (path, VMinKey) (arg_termMetadata args) in
  Ok {| queryKeys := [indexTermVal t]; partialmatch := [true]; extra := [TypeExtra types] |}.

(** The expression of an [$elemMatch] inside an [$all]. *)
Definition all_elem_match (value : bson_value) : option bson_value :=
  match value with
  | VDocument d =>
    match TryGetBsonValueToPgbsonElement (Some d) with
    | Some (path, inner) => if strcmp path (str "$elemMatch") =? 0 then Some inner else None
    | None => None
    end
  | _ => None
  end.

Definition is_empty_document (v : bson_value) : bool := match v with VDocument [] => true | _ => false end.

Definition all_term (path : bytes) (metadata : IndexTermCreateMetadata) (value : bson_value)
  : res (bytes * bool * bool * extra_data) :=
  match value with
  | VRegex r o =>
    let* data := compile_regex r o in
    let* t := serialize (path, VUtf8 []) metadata in
    Ok (indexTermVal t, false, true, AllExtra (AllRegex data))
  | _ =>
    match all_elem_match value with
    | Some inner =>
      let* e := GetExpressionEvalState inner in
      let* t := GenerateEmptyArrayTerm (path, value) metadata in
      Ok (t, false, true, AllExtra (AllExprEvalState {| expression := e; isEmptyExpression := is_empty_document inner |}))
    | None =>
      let* t := serialize (path, value) metadata in
      Ok (indexTermVal t, serialized_truncated t, false, NoExtra)
    end
  end.

Definition GinBsonExtractQueryDollarAll (args : BsonExtractQueryArgs) : res extracted :=
  let '(path, value) := arg_filterElement args in
  match value with
  | VArray items =>
    let arrayHasOnlyNull := match items with [] => false | _ => forallb (fun kv => is_null (snd kv)) items end in
    let* terms := array_terms (all_term path (arg_termMetadata args)) items in
    let queryData :=
      {| arrayHasNull := arrayHasOnlyNull; arrayHasRegex := existsb (fun kv => is_regex (snd kv)) items;
         arrayHasElemMatch := existsb (fun kv => match all_elem_match (snd kv) with Some _ => true | None => false end) items;
         arrayHasTruncation := existsb term_truncated terms;
         inTermCount := List.length terms; rootTermIndex := 0; rootExistsTermIndex := 0; nonExistsTermIndex := 0;
         rootTruncatedTermIndex := 0; undefinedLiteralTermIndex := 0; multiKeyTermIndex := 0 |} in
    let* '(nullTerms, queryData) :=
      if arrayHasOnlyNull then AddNullArrayOpTerms (List.length terms) path queryData (arg_termMetadata args)
      else Ok ([], queryData) in
    let* '(keys, queryData) :=
      add_truncated (arrayHasTruncation queryData || arrayHasRegex queryData || arrayHasElemMatch queryData)
        (map term_bytes terms ++ nullTerms) queryData (arg_termMetadata args) in
    Ok {| queryKeys := keys; partialmatch := map term_partial terms; extra := array_extra terms keys queryData |}
  | _ => Err ERRCODE_DOCUMENTDB_BADVALUE
  end.

(** [GinBsonExtractQueryElemMatch], which calls this function again. *)
Variable ExtractQueryElemMatch : BsonExtractQueryArgs -> res extracted.

Definition GinBsonExtractQueryCore (strategy : BsonIndexStrategy) (args : BsonExtractQueryArgs) : res extracted :=
  match strategy with
  | BSON_INDEX_STRATEGY_DOLLAR_EQUAL => GinBsonExtractQueryEqual args
  | BSON_INDEX_STRATEGY_DOLLAR_GREATER => GinBsonExtractQueryGreater args false
  | BSON_INDEX_STRATEGY_DOLLAR_GREATER_EQUAL => GinBsonExtractQueryGreaterEqual args false
  | BSON_INDEX_STRATEGY_DOLLAR_LESS => GinBsonExtractQueryLess args false
  | BSON_INDEX_STRATEGY_DOLLAR_LESS_EQUAL => GinBsonExtractQueryLessEqual args false
  | BSON_INDEX_STRATEGY_DOLLAR_NOT_GT => GinBsonExtractQueryGreater args true
  | BSON_INDEX_STRATEGY_DOLLAR_NOT_GTE => GinBsonExtractQueryGreaterEqual args true
  | BSON_INDEX_STRATEGY_DOLLAR_NOT_LT => GinBsonExtractQueryLess args true
  | BSON_INDEX_STRATEGY_DOLLAR_NOT_LTE => GinBsonExtractQueryLessEqual args true
  | BSON_INDEX_STRATEGY_DOLLAR_IN => GinBsonExtractQueryIn args
  | BSON_INDEX_STRATEGY_DOLLAR_NOT_EQUAL => GinBsonExtractQueryNotEqual args
  | BSON_INDEX_STRATEGY_DOLLAR_NOT_IN => GinBsonExtractQueryNotIn args
  | BSON_INDEX_STRATEGY_DOLLAR_REGEX => GinBsonExtractQueryRegex args
  | BSON_INDEX_STRATEGY_DOLLAR_MOD => GinBsonExtractQueryMod args
  | BSON_INDEX_STRATEGY_DOLLAR_EXISTS => GinBsonExtractQueryExists args
  | BSON_INDEX_STRATEGY_DOLLAR_SIZE => GinBsonExtractQuerySize args
  | BSON_INDEX_STRATEGY_DOLLAR_TYPE => GinBsonExtractQueryDollarType args
  | BSON_INDEX_STRATEGY_DOLLAR_ELEMMATCH => ExtractQueryElemMatch args
  | BSON_INDEX_STRATEGY_DOLLAR_ALL => GinBsonExtractQueryDollarAll args
  | BSON_INDEX_STRATEGY_DOLLAR_BITS_ALL_CLEAR | BSON_INDEX_STRATEGY_DOLLAR_BITS_ANY_CLEAR
  | BSON_INDEX_STRATEGY_DOLLAR_BITS_ALL_SET | BSON_INDEX_STRATEGY_DOLLAR_BITS_ANY_SET =>
    GinBsonExtractQueryDollarBitWiseOperators args
  | BSON_INDEX_STRATEGY_DOLLAR_RANGE => GinBsonExtractQueryDollarRange args
  | _ => Err ERRCODE_CHECK_VIOLATION
  end.

(** ** Partial matches: -1 to continue, 0 for a match, 1 to stop *)

Definition path_differs (a b : BsonIndexTerm) : bool := negb (strcmp (fst (element a)) (fst (element b)) =? 0).
Local Abbreviation term_type t := (value_type (snd (element t))).

Definition GinBsonComparePartialGreater (queryValue compareValue : BsonIndexTerm) : res Z :=
  if path_differs queryValue compareValue then Ok 1
  else if type_eqb (term_type queryValue) BSON_TYPE_MINKEY
  then Ok (if type_eqb (term_type compareValue) BSON_TYPE_MINKEY then -1 else 0)
  else if negb (CompareBsonSortOrderType (snd (element queryValue)) (snd (element compareValue)) =? 0) then Ok 1
  else
    let* '(cmp, isComparisonValid) := CompareBsonIndexTerm compareValue queryValue in
    Ok (if negb isComparisonValid then -1 else if cmp >? 0 then 0 else if cmp =? 0 then -1 else 1).

Definition GinBsonComparePartialBitsWiseOperator (queryValue compareValue : BsonIndexTerm)
  (filterSetPositionArray : pgbsonelement) (bitsCompareFunc : fields -> fields -> bool -> res bool) : res Z :=
  if path_differs queryValue compareValue then Ok 1
  else if negb (BsonTypeIsNumber (term_type compareValue)) && negb (type_eqb (term_type compareValue) BSON_TYPE_BINARY)
  then Ok 1
  else if isIndexTermTruncated compareValue then Ok 0
  else
    let* m := CompareBitwiseOperator (snd (element compareValue)) (snd filterSetPositionArray) bitsCompareFunc in
    Ok (if m : bool then 0 else -1).

Definition GinBsonComparePartialMod (queryValue compareValue : BsonIndexTerm) (modArray : pgbsonelement) : res Z :=
  if path_differs queryValue compareValue then Ok 1
  else if negb (BsonTypeIsNumber (term_type compareValue)) then Ok 1
  else let* m := CompareModOperator (snd (element compareValue)) (snd modArray) in Ok (if m : bool then 0 else -1).

Local Abbreviation initialize := (InitializeBsonIndexTerm IndexTermUseUnsafeTransform).

Definition GinBsonComparePartialLess (queryValue compareValue : BsonIndexTerm) (maxValue : bytes) : res Z :=
  if path_differs compareValue queryValue then Ok 1
  else
    let* maxValueIndexTerm := initialize maxValue in
    if type_eqb (term_type maxValueIndexTerm) BSON_TYPE_MAXKEY
    then Ok (if type_eqb (term_type compareValue) BSON_TYPE_MAXKEY then -1 else 0)
    else
      let cmp := CompareBsonSortOrderType (snd (element compareValue)) (snd (element maxValueIndexTerm)) in
      if negb (cmp =? 0) then Ok (if cmp <? 0 then -1 else 1)
      else
        let* '(cmp, isComparisonValid) := CompareBsonIndexTerm compareValue maxValueIndexTerm in
        Ok (if negb isComparisonValid then -1 else if cmp <? 0 then 0 else 1).

(** The scan of the values of a range: the conditions, and the comparison with the
    upper bound that decides when to stop. *)
Definition range_term (rangeValues : DollarRangeValues) (compareValue : BsonIndexTerm) : res Z :=
  let p := params rangeValues in
  let value := snd (element compareValue) in
  let* maxTerm := initialize (maxValueIndexTerm rangeValues) in
  let* minTerm := initialize (minValueIndexTerm rangeValues) in
  let* isMinConditionMet :=
    if type_eqb (term_type minTerm) BSON_TYPE_MINKEY
    then Ok (isMinInclusive p || negb (type_eqb (term_type compareValue) BSON_TYPE_MINKEY))
    else if CompareBsonSortOrderType value (minValue p) =? 0 then
      let* '(minCmp, isComparisonValidMin) := CompareBsonIndexTerm compareValue minTerm in
      Ok ((if isMinInclusive p then minCmp >=? 0 else minCmp >? 0) && isComparisonValidMin ||
          (negb (isMinInclusive p) && (minCmp =? 0) && isIndexTermTruncated minTerm))
    else Ok false in
  let sortOrderCmpMax := CompareBsonSortOrderType value (maxValue p) in
  let* '(isMaxConditionMet, maxCmp) :=
    if type_eqb (term_type maxTerm) BSON_TYPE_MAXKEY
    then Ok (isMaxInclusive p || negb (type_eqb (term_type compareValue) BSON_TYPE_MAXKEY), 0)
    else if sortOrderCmpMax =? 0 then
      let* '(maxCmp, isComparisonValidMax) := CompareBsonIndexTerm compareValue maxTerm in
      Ok ((if isMaxInclusive p then maxCmp <=? 0 else maxCmp <? 0) && isComparisonValidMax ||
          (negb (isMaxInclusive p) && (maxCmp =? 0) && isIndexTermTruncated maxTerm), maxCmp)
    else Ok (false, 0) in
  Ok (if isMinConditionMet && isMaxConditionMet then 0
      else if (sortOrderCmpMax >? 0) || (maxCmp >? 0) then 1 else -1).

(** The scan of the arrays of a range: one element may satisfy the lower bound and
    another the upper one.  The last test reads [minValue], as the code does. *)
Fixpoint range_array (p : DollarRangeParams) (arrayIter : fields) (isMinConditionSet isMaxConditionSet : bool) : res Z :=
  match arrayIter with
  | [] => Ok (-1)
  | (_, value) :: arrayIter =>
    let* minSet :=
      if CompareBsonSortOrderType value (minValue p) =? 0 then
        let* '(cmp, isComparisonValid) := CompareBsonValueAndType value (minValue p) in
        Ok (isMinConditionSet || (isComparisonValid &&
            ((cmp >? 0) || ((cmp =? 0) && isMinInclusive p) ||
             ((cmp =? 0) && type_eqb (value_type value) BSON_TYPE_MINKEY))))
      else Ok (isMinConditionSet || type_eqb (value_type (minValue p)) BSON_TYPE_MINKEY) in
    let* maxSet :=
      if CompareBsonSortOrderType value (maxValue p) =? 0 then
        let* '(cmp, isComparisonValid) := CompareBsonValueAndType value (maxValue p) in
        Ok (isMaxConditionSet || (isComparisonValid &&
            ((cmp <? 0) || ((cmp =? 0) && isMaxInclusive p) ||
             ((cmp =? 0) && type_eqb (value_type value) BSON_TYPE_MAXKEY))))
      else Ok (isMaxConditionSet || type_eqb (value_type (minValue p)) BSON_TYPE_MAXKEY) in
    if minSet && maxSet then Ok 0 else range_array p arrayIter minSet maxSet
  end.

Definition GinBsonComparePartialDollarRange (rangeValues : DollarRangeValues) (queryValue compareValue : BsonIndexTerm)
  : res Z :=
  if path_differs compareValue queryValue then Ok 1
  else if negb (isArrayTerm rangeValues) then range_term rangeValues compareValue
  else
    match snd (element compareValue) with
    | VArray items => range_array (params rangeValues) items false false
    | _ => Ok 1
    end.

Definition GinBsonComparePartialRegex (queryValue compareValue : BsonIndexTerm) (regexData : RegexData) : res Z :=
  if path_differs compareValue queryValue then Ok 1
  else if CompareBsonSortOrderType (snd (element compareValue)) (snd (element queryValue)) >? 0 then Ok 1
  else if isIndexTermTruncated compareValue then Ok (-1)
  else let* m := CompareRegexTextMatch (snd (element compareValue)) regexData in Ok (if m : bool then 0 else -1).

Definition GinBsonComparePartialElemMatchExpression (queryValue compareValue : BsonIndexTerm)
  (exprState : BsonElemMatchIndexExprState) : res Z :=
  if path_differs compareValue queryValue then Ok 1
  else
    match snd (element compareValue) with
    | VArray items =>
      let* compareResult :=
        if isEmptyExpression exprState
        then Ok (existsb (fun kv => match snd kv with VDocument _ | VArray _ => true | _ => false end) items)
        else EvalBooleanExpressionAgainstArray (expression exprState) (VArray items) in
      Ok (if compareResult : bool then 0 else -1)
    | _ => Ok 1
    end.

Definition GinBsonComparePartialExists (queryValue compareValue : BsonIndexTerm) : res Z :=
  Ok (if path_differs queryValue compareValue then 1 else 0).

Definition GinBsonComparePartialSize (queryValue compareValue : BsonIndexTerm) (arraySize : Z) : res Z :=
  if path_differs compareValue queryValue then Ok 1
  else
    match snd (element compareValue) with
    | VArray items =>
      let actualArraySize := count_up_to arraySize items 0 in
      Ok (if isIndexTermTruncated compareValue then if actualArraySize >? arraySize then -1 else 0
          else if actualArraySize =? arraySize then 0 else -1)
    | _ => Ok 1
    end.

(** The loop over the type codes, which are compared by their position in the sort
    order; a code that is no type raises an error. *)
Fixpoint any_type (typeArray : list Z) (type : bson_type_t) : res bool :=
  match typeArray with
  | [] => Ok false
  | code :: typeArray =>
    match type_of_code code with
    | Some t => if CompareSortOrderType t type =? 0 then Ok true else any_type typeArray type
    | None => Err ERRCODE_FEATURE_NOT_SUPPORTED
    end
  end.

Definition GinBsonComparePartialType (queryValue compareValue : BsonIndexTerm) (typeArray : list Z) : res Z :=
  if path_differs compareValue queryValue then Ok 1
  else let* m := any_type typeArray (term_type compareValue) in Ok (if m : bool then 0 else -1).

Definition GinBsonComparePartialOrderBy (queryValue compareValue : BsonIndexTerm) : Z :=
  if path_differs queryValue compareValue then 1 else 0.

(** [GinBsonComparePartialElemMatch]. *)
Variable ComparePartialElemMatch : BsonIndexTerm -> BsonIndexTerm -> ElemMatchState -> res Z.

(** Extra data of another kind than the strategy's is a wild pointer. *)
Definition GinBsonComparePartialCore (strategy : BsonIndexStrategy) (queryValue compareValue : BsonIndexTerm)
  (extraData : extra_data) : res Z :=
  let bits f :=
    match extraData with
    | ElementExtra e => GinBsonComparePartialBitsWiseOperator queryValue compareValue e f
    | _ => Err READ_BEYOND_BUFFER
    end in
  match strategy with
  | BSON_INDEX_STRATEGY_DOLLAR_NOT_GT | BSON_INDEX_STRATEGY_DOLLAR_NOT_GTE
  | BSON_INDEX_STRATEGY_DOLLAR_GREATER_EQUAL | BSON_INDEX_STRATEGY_DOLLAR_GREATER =>
    GinBsonComparePartialGreater queryValue compareValue
  | BSON_INDEX_STRATEGY_DOLLAR_RANGE =>
    match extraData with
    | RangeExtra r => GinBsonComparePartialDollarRange r queryValue compareValue
    | _ => Err READ_BEYOND_BUFFER
    end
  | BSON_INDEX_STRATEGY_DOLLAR_NOT_LT | BSON_INDEX_STRATEGY_DOLLAR_NOT_LTE
  | BSON_INDEX_STRATEGY_DOLLAR_LESS_EQUAL | BSON_INDEX_STRATEGY_DOLLAR_LESS =>
    match extraData with
    | MaxValueExtra m => GinBsonComparePartialLess queryValue compareValue m
    | _ => Err READ_BEYOND_BUFFER
    end
  | BSON_INDEX_STRATEGY_DOLLAR_REGEX | BSON_INDEX_STRATEGY_DOLLAR_IN | BSON_INDEX_STRATEGY_DOLLAR_NOT_IN =>
    match extraData with
    | RegexExtra r => GinBsonComparePartialRegex queryValue compareValue r
    | _ => Err READ_BEYOND_BUFFER
    end
  | BSON_INDEX_STRATEGY_DOLLAR_MOD =>
    match extraData with
    | ElementExtra e => GinBsonComparePartialMod queryValue compareValue e
    | _ => Err READ_BEYOND_BUFFER
    end
  | BSON_INDEX_STRATEGY_DOLLAR_ALL =>
    match extraData with
    | AllExtra (AllExprEvalState s) => GinBsonComparePartialElemMatchExpression queryValue compareValue s
    | AllExtra (AllRegex r) => GinBsonComparePartialRegex queryValue compareValue r
    | _ => Err READ_BEYOND_BUFFER
    end
  | BSON_INDEX_STRATEGY_DOLLAR_ELEMMATCH =>
    match extraData with
    | ElemMatchExtra s => ComparePartialElemMatch queryValue compareValue s
    | _ => Err READ_BEYOND_BUFFER
    end
  | BSON_INDEX_STRATEGY_DOLLAR_EXISTS => GinBsonComparePartialExists queryValue compareValue
  | BSON_INDEX_STRATEGY_DOLLAR_SIZE =>
    match extraData with
    | SizeExtra size => GinBsonComparePartialSize queryValue compareValue size
    | _ => Err READ_BEYOND_BUFFER
    end
  | BSON_INDEX_STRATEGY_DOLLAR_TYPE =>
    match extraData with
    | TypeExtra types => GinBsonComparePartialType queryValue compareValue types
    | _ => Err READ_BEYOND_BUFFER
    end
  | BSON_INDEX_STRATEGY_DOLLAR_BITS_ALL_CLEAR => bits CompareArrayForBitsAllClear
  | BSON_INDEX_STRATEGY_DOLLAR_BITS_ANY_CLEAR => bits CompareArrayForBitsAnyClear
  | BSON_INDEX_STRATEGY_DOLLAR_BITS_ALL_SET => bits CompareArrayForBitsAllSet
  | BSON_INDEX_STRATEGY_DOLLAR_BITS_ANY_SET => bits CompareArrayForBitsAnySet
  | _ => Err ERRCODE_DOCUMENTDB_INTERNALERROR
  end.

(** ** Consistency: the answer, and [recheck], whose value on entry is the caller's *)

Local Abbreviation at_ check i := (nth i check false).

Definition HandleConsistentEqualsNull (check : list bool) (recheck : bool) (indexOptions : BsonGinIndexOptions)
  : bool * bool :=
  if at_ check 0 || at_ check 1 || at_ check 2 then (true, at_ check 4)
  else if at_ check 3 then
    if at_ check 4 || IsWildcardIndex indexOptions then (true, true) else (false, recheck)
  else (at_ check 5, true).

Definition HandleConsistentGreaterLessEquals (queryKeys : list bytes) (check : list bool) (recheck : bool)
  (indexOptions : BsonGinIndexOptions) : res (bool * bool) :=
  let* indexTerm := initialize (nth 0 queryKeys []) in
  match snd (element indexTerm) with
  | VNull => Ok (HandleConsistentEqualsNull check recheck indexOptions)
  | _ =>
    let* equalityTerm := initialize (nth 1 queryKeys []) in
    Ok (at_ check 0 || at_ check 1, negb (at_ check 0) && isIndexTermTruncated equalityTerm)
  end.

Definition HandleConsistentExists (check : list bool) (queryData : DollarExistsQueryData) : bool * bool :=
  if isComparePartial queryData then
    if isPositiveExists queryData then (at_ check 0, false)
    else if at_ check 0 then (false, false) else (true, false)
  else if at_ check 0 then (true, false) else (at_ check 1, true).

Definition HandleConsistentArrayOpForEqualsNull (check : list bool) (queryData : DollarArrayOpQueryData) (recheck : bool)
  (indexClassOptions : BsonGinIndexOptions) : bool * bool :=
  HandleConsistentEqualsNull
    [false; at_ check (nonExistsTermIndex queryData); at_ check (undefinedLiteralTermIndex queryData);
     at_ check (rootExistsTermIndex queryData); at_ check (multiKeyTermIndex queryData); at_ check (rootTermIndex queryData)]
    recheck indexClassOptions.

Definition HandleConsistentGreaterLess (check : list bool) (numKeys : nat) (queryKeys : list bytes) : res (bool * bool) :=
  if at_ check 0 then Ok (true, false)
  else
    let* isTermTruncated := if Nat.leb 2 numKeys then IsSerializedIndexTermTruncated (nth 1 queryKeys []) else Ok false in
    if negb isTermTruncated then Ok (false, false)
    else if at_ check 1 then Ok (true, true) else Ok (false, false).

Definition HandleConsistentGreaterEquals (extra : list extra_data) (check : list bool) (recheck : bool)
  (queryKeys : list bytes) (indexClassOptions : BsonGinIndexOptions) : res (bool * bool) :=
  match nth 0 extra NoExtra with
  | ExistsExtra existsQueryData => Ok (HandleConsistentExists check existsQueryData)
  | _ => HandleConsistentGreaterLessEquals queryKeys check recheck indexClassOptions
  end.

(** A negation: what is to be rechecked is a candidate. *)
Definition negated (r : bool * bool) : bool * bool :=
  let '(result, recheck) := r in if recheck then (true, true) else (negb result, false).

(** The first of the entries of the array that matched. *)
Fixpoint first_match (check : list bool) (queryKeys : list bytes) (n : nat) : option bytes :=
  match n, check, queryKeys with
  | S n, c :: check, k :: queryKeys => if c : bool then Some k else first_match check queryKeys n
  | _, _, _ => None
  end.

Definition consistent_in (check : list bool) (queryData : DollarArrayOpQueryData) (indexClassOptions : BsonGinIndexOptions)
  (isPreconsistent : bool) : bool * bool :=
  if EnableRumInOperatorFastPath && negb isPreconsistent && negb (arrayHasNull queryData) && negb (arrayHasRegex queryData)
     && negb (arrayHasTruncation queryData)
  then (true, false)
  else
    let result := existsb (fun c => c) (firstn (inTermCount queryData) check) in
    let '(result, recheck) :=
      if arrayHasNull queryData && negb result
      then HandleConsistentArrayOpForEqualsNull check queryData false indexClassOptions else (result, false) in
    let truncated := at_ check (rootTruncatedTermIndex queryData) in
    let hasRoot := Nat.ltb 0 (rootTruncatedTermIndex queryData) in
    let '(result, recheck) :=
      if arrayHasRegex queryData && hasRoot && truncated then (true, true) else (result, recheck) in
    let recheck := if arrayHasTruncation queryData && hasRoot then truncated else recheck in
    (result, recheck).

Definition consistent_not_in (check : list bool) (queryKeys : list bytes) (queryData : DollarArrayOpQueryData)
  (recheck : bool) (indexClassOptions : BsonGinIndexOptions) : res (bool * bool) :=
  let res0 := at_ check (rootTermIndex queryData) || at_ check (nonExistsTermIndex queryData) ||
              at_ check (rootExistsTermIndex queryData) in
  let* '(res, mismatchOnTruncatedTerm) :=
    match first_match check queryKeys (inTermCount queryData) with
    | Some k => let* t := IsSerializedIndexTermTruncated k in Ok (false, t)
    | None => Ok (res0, false)
    end in
  if res && arrayHasNull queryData then
    Ok (negated (HandleConsistentArrayOpForEqualsNull check queryData recheck indexClassOptions))
  else if arrayHasRegex queryData && Nat.ltb 0 (rootTruncatedTermIndex queryData)
          && at_ check (rootTruncatedTermIndex queryData) then Ok (true, true)
  else if res && arrayHasTruncation queryData then Ok (true, true)
  else if negb res && mismatchOnTruncatedTerm then Ok (true, true)
  else Ok (res, false).

Definition consistent_all (check : list bool) (numKeys : nat) (queryData : DollarArrayOpQueryData)
  (indexClassOptions : BsonGinIndexOptions) : bool * bool :=
  let res := Nat.ltb 0 numKeys && forallb (fun i => at_ check i) (seq 0 (inTermCount queryData)) in
  let '(res, recheck) :=
    if negb res && arrayHasNull queryData
    then HandleConsistentArrayOpForEqualsNull check queryData false indexClassOptions else (res, false) in
  if Nat.ltb 0 (rootTruncatedTermIndex queryData) then
    let isTruncated := at_ check (rootTruncatedTermIndex queryData) in
    if (arrayHasRegex queryData || arrayHasElemMatch queryData) && isTruncated then (true, true)
    else if isTruncated then (res, true) else (res, recheck)
  else (res, recheck).

(** [GinBsonElemMatchConsistent]. *)
Variable ElemMatchConsistent : list bool -> list extra_data -> nat -> res bool.

Definition GinBsonConsistentCore (strategy : BsonIndexStrategy) (check : list bool) (extra : list extra_data)
  (numKeys : nat) (recheck : bool) (queryKeys : list bytes) (indexClassOptions : BsonGinIndexOptions)
  (isPreconsistent : bool) : res (bool * bool) :=
  match strategy with
  | BSON_INDEX_STRATEGY_DOLLAR_GREATER | BSON_INDEX_STRATEGY_DOLLAR_LESS =>
    HandleConsistentGreaterLess check numKeys queryKeys
  | BSON_INDEX_STRATEGY_DOLLAR_NOT_GT | BSON_INDEX_STRATEGY_DOLLAR_NOT_LT =>
    let* r := HandleConsistentGreaterLess check numKeys queryKeys in Ok (negated r)
  | BSON_INDEX_STRATEGY_DOLLAR_MOD => Ok (at_ check 0, false)
  | BSON_INDEX_STRATEGY_DOLLAR_RANGE =>
    Ok (if Nat.eqb numKeys 2 then (at_ check 0 || at_ check 1, at_ check 1 && negb (at_ check 0))
        else if at_ check 1 then (true, false)
        else if at_ check 0 then (true, at_ check 2 || at_ check 3)
        else (false, false))
  | BSON_INDEX_STRATEGY_DOLLAR_REGEX =>
    Ok (if at_ check 1 then (true, true)
        else if Nat.eqb numKeys 2 then (at_ check 0, false) else (at_ check 0 || at_ check 2, false))
  | BSON_INDEX_STRATEGY_DOLLAR_SIZE | BSON_INDEX_STRATEGY_DOLLAR_TYPE => Ok (at_ check 0, true)
  | BSON_INDEX_STRATEGY_DOLLAR_EQUAL =>
    if Nat.eqb numKeys 1 then
      let* t := IsSerializedIndexTermTruncated (nth 0 queryKeys []) in Ok (at_ check 0, t)
    else Ok (HandleConsistentEqualsNull check recheck indexClassOptions)
  | BSON_INDEX_STRATEGY_DOLLAR_GREATER_EQUAL =>
    HandleConsistentGreaterEquals extra check recheck queryKeys indexClassOptions
  | BSON_INDEX_STRATEGY_DOLLAR_LESS_EQUAL =>
    HandleConsistentGreaterLessEquals queryKeys check recheck indexClassOptions
  | BSON_INDEX_STRATEGY_DOLLAR_NOT_GTE =>
    let* r := HandleConsistentGreaterEquals extra check recheck queryKeys indexClassOptions in Ok (negated r)
  | BSON_INDEX_STRATEGY_DOLLAR_NOT_LTE =>
    let* r := HandleConsistentGreaterLessEquals queryKeys check recheck indexClassOptions in Ok (negated r)
  | BSON_INDEX_STRATEGY_DOLLAR_EXISTS =>
    match nth 0 extra NoExtra with
    | ExistsExtra queryData => Ok (HandleConsistentExists check queryData)
    | _ => Err READ_BEYOND_BUFFER
    end
  | BSON_INDEX_STRATEGY_UNIQUE_EQUAL => Ok (existsb (fun c => c) (firstn numKeys check), false)
  | BSON_INDEX_STRATEGY_DOLLAR_ELEMMATCH =>
    let* r := ElemMatchConsistent check extra numKeys in Ok (r, r)
  | BSON_INDEX_STRATEGY_DOLLAR_IN =>
    match nth numKeys extra NoExtra with
    | ArrayOpExtra queryData => Ok (consistent_in check queryData indexClassOptions isPreconsistent)
    | _ => Err READ_BEYOND_BUFFER
    end
  | BSON_INDEX_STRATEGY_DOLLAR_NOT_EQUAL =>
    let* indexTerm := initialize (nth 0 queryKeys []) in
    match snd (element indexTerm) with
    | VNull => Ok (negated (HandleConsistentEqualsNull check recheck indexClassOptions))
    | _ => Ok (if isIndexTermTruncated indexTerm then (true, true) else (negb (at_ check 0), false))
    end
  | BSON_INDEX_STRATEGY_DOLLAR_NOT_IN =>
    match nth numKeys extra NoExtra with
    | ArrayOpExtra queryData => consistent_not_in check queryKeys queryData recheck indexClassOptions
    | _ => Err READ_BEYOND_BUFFER
    end
  | BSON_INDEX_STRATEGY_DOLLAR_ALL =>
    match nth numKeys extra NoExtra with
    | ArrayOpExtra queryData => Ok (consistent_all check numKeys queryData indexClassOptions)
    | _ => Err READ_BEYOND_BUFFER
    end
  | BSON_INDEX_STRATEGY_DOLLAR_BITS_ALL_CLEAR | BSON_INDEX_STRATEGY_DOLLAR_BITS_ANY_CLEAR
  | BSON_INDEX_STRATEGY_DOLLAR_BITS_ALL_SET | BSON_INDEX_STRATEGY_DOLLAR_BITS_ANY_SET =>
    Ok (at_ check 0 || at_ check 1, at_ check 2)
  | _ => Err ERRCODE_CHECK_VIOLATION
  end.

(** ** The support functions *)

Variables EnableCollation EnableNewCompositeIndexOpclass : bool.

Definition GinBsonExtractQueryOrderBy (query : fields) (options : BsonGinIndexOptions) : res extracted :=
  let* termMetadata := GetIndexTermMetadata options in
  let* '((path, _), _) := read_filter EnableCollation query in
  let* minKey := serialize (path, VMinKey) termMetadata in
  let* root := rootTerm termMetadata in
  let* nonExists := rootNonExists termMetadata in
  Ok {| queryKeys := [indexTermVal minKey; root; nonExists]; partialmatch := [true; false; false]; extra := [] |}.

(** [nentries] is zero when the index cannot answer the query; the terms of a
    unique index are [GinBsonExtractQueryUniqueIndexTerms]. *)
Definition gin_bson_extract_query (strategy : BsonIndexStrategy) (query : fields) (options : BsonGinIndexOptions)
  : res extracted :=
  match strategy with
  | BSON_INDEX_STRATEGY_DOLLAR_ORDERBY => GinBsonExtractQueryOrderBy query options
  | _ =>
    let* valid := ValidateIndexForQualifierValue EnableNewCompositeIndexOpclass EnableCollation options query strategy in
    if negb valid then
      let* _ := FailIfQueryPathHasDigitsForWildcard EnableCollation query options in
      Ok {| queryKeys := []; partialmatch := []; extra := [] |}
    else
      let* '(filterElement, _) := read_filter EnableCollation query in
      let* metadata := GetIndexTermMetadata options in
      GinBsonExtractQueryCore strategy
        {| arg_filterElement := filterElement; arg_options := options; arg_termMetadata := metadata |}
  end.

Definition gin_bson_compare_partial (queryValue compareValue : bytes) (strategy : BsonIndexStrategy)
  (extraData : extra_data) : res Z :=
  let* queryIndexTerm := initialize queryValue in
  let* compareIndexTerm := initialize compareValue in
  match strategy with
  | BSON_INDEX_STRATEGY_DOLLAR_ORDERBY => Ok (GinBsonComparePartialOrderBy queryIndexTerm compareIndexTerm)
  | _ => GinBsonComparePartialCore strategy queryIndexTerm compareIndexTerm extraData
  end.

Definition gin_bson_can_pre_consistent (strategy : BsonIndexStrategy) (numKeys : nat) : bool :=
  match strategy with
  | BSON_INDEX_STRATEGY_DOLLAR_IN | BSON_INDEX_STRATEGY_DOLLAR_EQUAL => Nat.eqb numKeys 1
  | BSON_INDEX_STRATEGY_UNIQUE_EQUAL => true
  | _ => false
  end.

Definition gin_bson_pre_consistent (check : list bool) (strategy : BsonIndexStrategy) (q : extracted) (recheck : bool)
  (options : BsonGinIndexOptions) : res (bool * bool) :=
  GinBsonConsistentCore strategy check (extra q) (List.length (queryKeys q)) recheck (queryKeys q) options true.

Definition gin_bson_consistent (check : list bool) (strategy : BsonIndexStrategy) (q : extracted) (recheck : bool)
  (options : BsonGinIndexOptions) : res (bool * bool) :=
  match strategy with
  | BSON_INDEX_STRATEGY_DOLLAR_ORDERBY => Ok (at_ check 0 || at_ check 1 || at_ check 2, false)
  | _ => GinBsonConsistentCore strategy check (extra q) (List.length (queryKeys q)) recheck (queryKeys q) options false
  end.
End Query.
