(* ===== verification/GinScan.v ===== *)
(** * Answering comparisons from a single-path index

    The operator class of an index and the access method together answer a query
    from the terms of the documents.  The access method, GIN or RUM, is
    PostgreSQL's: an interface states what it does with a lookup of a term and
    with a scan from a term.  Against it, for [$eq], [$gt], [$gte], [$lt], [$lte]
    and their negations, the answer for a document is that of the operator
    evaluated on the document, or the operator is to be evaluated again and no
    matching document is lost. *)

From Stdlib Require Import ZArith Lia Bool String List.
From Stdlib Require Import Strings.Byte.
From S2P Require Import Prelude SoftFloat BsonTypes StringView Decimal128 BsonCompare BsonOrder RefBid BsonRefine.
From S2P Require Import Traversal PgbsonElement BsonWire IndexTerm IndexOrder DollarMatch DollarOperators DollarSets ExprEval.
From S2P Require Import BsonHash GinOptions GinTerms GinReach GinQuery.
Import ListNotations.
Local Open Scope Z_scope.

(** ** The access method *)

(** The keys an index over documents with these terms holds, and whether a document,
    given by its position, is found by a lookup of an entry, or by a scan from
    the entry with the decision for partial matches. *)
Class AccessMethod : Type := {
  am_keys : (bytes -> bytes -> res Z) -> list (list bytes) -> list bytes;
  am_hit : (bytes -> bytes -> res Z) -> list (list bytes) -> nat -> bytes -> option (bytes -> res Z) -> bool
}.

Definition precedes (compare : bytes -> bytes -> res Z) (a b : bytes) : bool :=
  match compare a b with Ok c => c <? 0 | Err _ => false end.
Definition same_key (compare : bytes -> bytes -> res Z) (a b : bytes) : bool :=
  match compare a b with Ok c => c =? 0 | Err _ => false end.
Definition decides (cp : bytes -> res Z) (test : Z -> bool) (k : bytes) : bool :=
  match cp k with Ok z => test z | Err _ => false end.

(** A key is one of the terms that are equal to it in the order of the comparator.
    A lookup finds the documents that have a term equal to the entry.  A scan
    starts at the first key that does not precede the entry and goes up; it takes
    the documents of the keys for which the decision is 0, skips those for which
    it is negative, and stops at the first for which it is positive. *)
Class AccessMethodLaws (AM : AccessMethod) : Prop := {
  keys_are_terms : forall compare index k, In k (am_keys compare index) -> In k (concat index);
  terms_have_keys : forall compare index t, In t (concat index) -> same_key compare t t = true ->
    exists k, In k (am_keys compare index) /\ same_key compare k t = true;
  lookup_hit : forall compare index i terms entry, nth_error index i = Some terms ->
    am_hit compare index i entry None = existsb (fun t => same_key compare t entry) terms;
  scan_hit : forall compare index i terms entry cp, nth_error index i = Some terms ->
    am_hit compare index i entry (Some cp) = true <->
    exists k t, In k (am_keys compare index) /\ In t terms /\ same_key compare k t = true /\
      precedes compare k entry = false /\ decides cp (fun z => z =? 0) k = true /\
      forall k', In k' (am_keys compare index) -> precedes compare k' entry = false -> precedes compare k' k = true ->
        decides cp (fun z => z <=? 0) k' = true
}.

(** An access method that keeps every term as a key. *)
Definition scan (compare : bytes -> bytes -> res Z) (index : list (list bytes)) (i : nat) (entry : bytes)
  (cp : option (bytes -> res Z)) : bool :=
  let terms := nth i index [] in
  match cp with
  | None => existsb (fun t => same_key compare t entry) terms
  | Some cp =>
    existsb (fun k =>
      existsb (fun t => same_key compare k t) terms && negb (precedes compare k entry) && decides cp (fun z => z =? 0) k &&
      forallb (fun k' => precedes compare k' entry || negb (precedes compare k' k) || decides cp (fun z => z <=? 0) k')
        (concat index)) (concat index)
  end.

#[local] Instance ScanMethod : AccessMethod := {| am_keys _ := @concat bytes; am_hit := scan |}.

#[local] Instance ScanMethodLaws : AccessMethodLaws ScanMethod.
Proof.
  split; cbn [am_keys am_hit ScanMethod]; [easy|eauto|..]; intros compare index i terms entry; unfold scan; cbv zeta.
  - intros E. now rewrite (nth_error_nth _ _ _ E).
  - intros cp E. rewrite (nth_error_nth _ _ _ E), existsb_exists. split.
    + intros (k & Ik & H). apply andb_prop in H as [H F]. apply andb_prop in H as [H D]. apply andb_prop in H as [H N].
      apply existsb_exists in H as (t & It & S). rewrite forallb_forall in F. apply negb_true_iff in N.
      exists k, t. repeat split; auto. intros k' Ik' N' P'. specialize (F k' Ik'). rewrite N', P' in F. exact F.
    + intros (k & t & Ik & It & S & N & D & F). exists k. split; [exact Ik|]. rewrite N, D.
      replace (existsb _ terms) with true by (symmetry; apply existsb_exists; eauto). cbn [andb negb].
      apply forallb_forall. intros k' Ik'. destruct (precedes compare k' entry) eqn:N'; [reflexivity|].
      destruct (precedes compare k' k) eqn:P'; [now apply F|reflexivity].
Qed.

(** ** Lists related element by element *)

Lemma Forall2_nth {A B} (R : A -> B -> Prop) l l' n a : Forall2 R l l' -> nth_error l n = Some a ->
  exists b, nth_error l' n = Some b /\ R a b.
Proof.
  intros H. revert n. induction H as [|a0 b0 l l' H0 _ IH]; intros [|n] E; try discriminate E; [|exact (IH n E)].
  injection E as <-. now exists b0.
Qed.

Lemma Forall2_In_r {A B} (R : A -> B -> Prop) l l' b : Forall2 R l l' -> In b l' -> exists a, In a l /\ R a b.
Proof.
  induction 1 as [|a0 b0 l l' H0 _ IH]; [intros []|]. intros [->|I]; [exists a0; split; [now left|exact H0]|].
  destruct (IH I) as (a & Ia & Ra). exists a. split; [now right|exact Ra].
Qed.

(** ** The order of the terms of one path *)

Section Terms.
Context {BL : BidLib} {Laws : BidLaws BL} {LB : LibBson} {LBLaws : LibBsonLaws LB} {Wire : BsonWireLaws LB}.
Variables EnableIndexTermTruncationOnNestedObjects IndexTermUseUnsafeTransform : bool.
Local Abbreviation compare := (gin_bson_compare IndexTermUseUnsafeTransform).
Local Abbreviation order := (value_order None).

Definition value_term (q : bytes) (w : bson_value) : BsonIndexTerm :=
  {| isIndexTermTruncated := false; isIndexTermMetadata := false; isValueUndefined := false;
     isValueMaybeUndefined := false; element := (q, w) |}.

(** The terms that describe a document as a whole. *)
Inductive root_kind : Set := Root | RootExists | RootNonExists | RootMultiKey.
Definition root_meta (k : root_kind) : Z := match k with Root => IndexTermNoMetadata | _ => IndexTermIsMetadata end.
Definition root_value (k : root_kind) : bson_value :=
  match k with Root => VMinKey | RootExists => VBool true | RootNonExists => VUndefined | RootMultiKey => VArray [] end.
Definition root_term (k : root_kind) : BsonIndexTerm :=
  {| isIndexTermTruncated := false; isIndexTermMetadata := match k with Root => false | _ => true end;
     isValueUndefined := false; isValueMaybeUndefined := false; element := ([], root_value k) |}.

Definition single (t : bytes) (x : BsonIndexTerm) : Prop := holds IndexTermUseUnsafeTransform t false [x].

Lemma compare_single s t x y : single s x -> single t y ->
  exists c, compare s t = Ok c /\ same_sign c (term_order x y).
Proof.
  intros Hs Ht. destruct (gin_bson_compare_order _ _ _ _ _ _ _ Hs Ht) as (c & E & S). exists c. split; [exact E|].
  eapply same_sign_trans; [exact S|]. cbn [terms_order]. unfold lexz at 1. cbn [b2z Z.eqb Z.sub Z.add Z.opp].
  unfold lexz, same_sign. destruct (Z.eqb_spec (term_order x y) 0) as [->|]; reflexivity.
Qed.

Lemma precedes_single s t x y : single s x -> single t y -> precedes compare s t = (term_order x y <? 0).
Proof.
  intros Hs Ht. unfold precedes. destruct (compare_single s t x y Hs Ht) as (c & -> & S). unfold same_sign in S. lia.
Qed.

Lemma same_key_single s t x y : single s x -> single t y -> same_key compare s t = (term_order x y =? 0).
Proof.
  intros Hs Ht. unfold same_key. destruct (compare_single s t x y Hs Ht) as (c & -> & S). unfold same_sign in S. lia.
Qed.

Lemma value_term_order q a b : term_order (value_term q a) (value_term q b) = order a b.
Proof.
  unfold term_order, value_term. cbn. rewrite cmp_bytes_refl. unfold lexz. cbn.
  destruct (Z.eqb_spec (order a b) 0) as [->|]; reflexivity.
Qed.

(** Root terms come before the terms of a path. *)
Lemma root_term_order q k b : q <> [] -> term_order (root_term k) (value_term q b) < 0.
Proof. intros Hq. destruct q as [|c q]; [easy|]. destruct k; reflexivity. Qed.

(** Their kinds are told apart. *)
Lemma root_terms_differ k k' : term_order (root_term k) (root_term k') = 0 <-> k = k'.
Proof.
  split; [|intros ->; now destruct k']. destruct k, k'; try reflexivity; intros H; exfalso; revert H;
    unfold term_order; cbn [root_term element isIndexTermMetadata fst snd root_value b2z]; cbv [lexz]; discriminate.
Qed.

Lemma order_flip a b : order a b < 0 <-> order b a > 0.
Proof. pose proof (anti2_value_order None no_collation a b) as A. unfold anti2 in A. lia. Qed.
Lemma order_eq_sym a b : order a b = 0 <-> order b a = 0.
Proof. pose proof (anti2_value_order None no_collation a b) as A. unfold anti2 in A. lia. Qed.
Lemma order_refl a : order a a = 0.
Proof. pose proof (anti2_value_order None no_collation a a) as A. now apply anti2_self in A. Qed.

(** Values that are equal in the order are on the same side of any other. *)
Lemma order_congr a a' b b' : order a a' = 0 -> order b b' = 0 -> same_sign (order a b) (order a' b').
Proof.
  intros Ha Hb. pose proof (trans3_value_order None no_collation a a' b) as T1.
  pose proof (trans3_value_order None no_collation a' a b) as T2.
  pose proof (trans3_value_order None no_collation a' b b') as T3.
  pose proof (trans3_value_order None no_collation a' b' b) as T4.
  apply order_eq_sym in Ha as Ha'. apply order_eq_sym in Hb as Hb'.
  unfold trans3, same_sign in *. lia.
Qed.

(** Equal values are of one type class, and a NaN equals NaN only. *)
Lemma order_class a b : order a b = 0 -> CompareBsonSortOrderType a b = 0.
Proof. destruct (value_order_class None a b) as [x ->]. unfold lexz. destruct (Z.eqb_spec (CompareBsonSortOrderType a b) 0); lia. Qed.

Lemma class_congr a a' b b' : order a a' = 0 -> order b b' = 0 ->
  CompareBsonSortOrderType a b = CompareBsonSortOrderType a' b'.
Proof. intros Ha Hb. apply order_class in Ha, Hb. unfold CompareBsonSortOrderType, CompareSortOrderType in *. lia. Qed.

Lemma class_order a b : CompareBsonSortOrderType a b < 0 -> order a b < 0.
Proof. destruct (value_order_class None a b) as [x ->]. unfold lexz. destruct (Z.eqb_spec (CompareBsonSortOrderType a b) 0); lia. Qed.

Lemma order_class_le a b : order a b <= 0 -> CompareBsonSortOrderType a b <= 0.
Proof. destruct (value_order_class None a b) as [x ->]. unfold lexz. destruct (Z.eqb_spec (CompareBsonSortOrderType a b) 0); lia. Qed.

Lemma number_order a b : BsonValueIsNumberOrBool a = true -> CompareBsonSortOrderType a b = 0 ->
  order a b = ext_cmp (num_key a) (num_key b).
Proof. intros N C. destruct a; try discriminate N; cbn [value_order]; rewrite C; reflexivity. Qed.

Lemma order_nan a b : order a b = 0 -> BsonValueIsNumberOrBool a = true -> is_ENaN (num_key a) = is_ENaN (num_key b).
Proof.
  intros E N. rewrite number_order in E by (auto using order_class). apply ext_cmp_0 in E. destruct (num_key a), (num_key b); easy.
Qed.

Lemma comparable_congr a a' b b' : order a a' = 0 -> order b b' = 0 -> comparable a b = comparable a' b'.
Proof.
  intros Ha Hb. pose proof (same_class_number a a' (order_class a a' Ha)) as Na.
  unfold comparable. rewrite (class_congr a a' b b' Ha Hb), Na.
  destruct (Z.eqb_spec (CompareBsonSortOrderType a' b') 0) as [C|]; [cbn [andb]|reflexivity].
  destruct (BsonValueIsNumberOrBool a) eqn:N; [cbn [negb orb]|reflexivity].
  assert (Nb : BsonValueIsNumberOrBool b = true).
  { rewrite (same_class_number a b); [exact N|]. now rewrite (class_congr a a' b b'). }
  now rewrite (order_nan a a' Ha N), (order_nan b b' Hb Nb).
Qed.

Lemma equal_comparable a b : order a b = 0 -> comparable a b = true.
Proof.
  intros E. unfold comparable. rewrite (order_class a b E). cbn [Z.eqb andb].
  destruct (BsonValueIsNumberOrBool a) eqn:N; [|reflexivity]. cbn [negb orb]. rewrite (order_nan a b E N). apply eqb_reflx.
Qed.

(** The decisions of the partial comparisons on values. *)
Definition is_min (v : bson_value) : bool := match v with VMinKey => true | _ => false end.
Definition is_max (v : bson_value) : bool := match v with VMaxKey => true | _ => false end.

Definition greater_decision (f w : bson_value) : Z :=
  if is_min f then if is_min w then -1 else 0
  else if negb (CompareBsonSortOrderType f w =? 0) then 1
  else if negb (comparable w f) then -1
  else if order w f >? 0 then 0 else if order w f =? 0 then -1 else 1.

Definition less_decision (f w : bson_value) : Z :=
  if is_max f then if is_max w then -1 else 0
  else if negb (CompareBsonSortOrderType w f =? 0) then if CompareBsonSortOrderType w f <? 0 then -1 else 1
  else if negb (comparable w f) then -1
  else if order w f <? 0 then 0 else 1.

Lemma is_min_class v : v <> VEod -> is_min v = (CompareBsonSortOrderType v VMinKey =? 0).
Proof. now destruct v. Qed.
Lemma is_max_class v : is_max v = (CompareBsonSortOrderType v VMaxKey =? 0).
Proof. now destruct v. Qed.

(** A decision that a scan from [lo] up may use: it depends on the order only, what
    it takes is not below [lo], and it does not stop before. *)
Definition scannable (lo : bson_value) (decision : bson_value -> Z) : Prop :=
  (forall a b, a <> VEod -> b <> VEod -> order a b = 0 -> decision a = decision b) /\
  forall w, value_ok w -> w <> VEod -> decision w = 0 -> order lo w <= 0 /\
    forall w', value_ok w' -> w' <> VEod -> order lo w' <= 0 -> order w' w < 0 -> decision w' <= 0.

Lemma order_le_trans a b c : order a b <= 0 -> order b c <= 0 -> order a c <= 0.
Proof. pose proof (trans3_value_order None no_collation a b c) as T. unfold trans3 in T. lia. Qed.

Lemma greater_scannable f : f <> VEod -> scannable f (greater_decision f).
Proof.
  intros Nf. unfold scannable, greater_decision. split.
  - intros a b Na Nb E. rewrite (class_congr f f a b (order_refl f) E), (comparable_congr a b f f E (order_refl f)).
    rewrite !is_min_class, (class_congr a b VMinKey VMinKey E (order_refl _)) by assumption.
    pose proof (order_congr a b f f E (order_refl f)) as S. unfold same_sign in S.
    repeat match goal with |- context [if negb ?x then _ else _] => destruct (negb x) end; try reflexivity.
    destruct (Z.gtb_spec (order a f) 0), (Z.gtb_spec (order b f) 0), (Z.eqb_spec (order a f) 0), (Z.eqb_spec (order b f) 0);
      lia || reflexivity.
  - intros w Vw Nw D. destruct (is_min f) eqn:M.
    + destruct f; try discriminate M. split; [destruct w; cbn; easy|]. intros w' _ _ _ _. destruct (is_min w'); lia.
    + destruct (Z.eqb_spec (CompareBsonSortOrderType f w) 0) as [Cw|]; [cbn [negb] in D|discriminate D].
      destruct (negb (comparable w f)); [discriminate D|].
      assert (Ow : order w f > 0) by (destruct (Z.gtb_spec (order w f) 0); [lia|destruct (order w f =? 0); discriminate D]).
      split; [apply order_flip in Ow; lia|]. intros w' _ Nw' L1 L2.
      pose proof (order_class_le _ _ L1) as C1. assert (C2 : CompareBsonSortOrderType w' w <= 0) by (apply order_class_le; lia).
      assert (C : CompareBsonSortOrderType f w' = 0) by (unfold CompareBsonSortOrderType, CompareSortOrderType in *; lia).
      assert (O : order w' f >= 0) by (pose proof (order_flip w' f); lia).
      rewrite C. cbn [Z.eqb negb]. destruct (negb _); [lia|].
      destruct (Z.gtb_spec (order w' f) 0), (Z.eqb_spec (order w' f) 0); lia.
Qed.

(** The bound from which [$lt] starts is the least value of the filter's type. *)
Lemma lower_bound_least f w : f <> VEod -> w <> VEod -> value_ok w -> is_max f = true \/ CompareBsonSortOrderType w f = 0 ->
  order (GetLowerBoundForLessThan (value_type f)) w <= 0.
Proof.
  intros Nf Nw Hw H. assert (M : order VMinKey w <= 0) by (destruct w; cbn; easy).
  assert (Num : BsonTypeIsNumber (value_type f) = true -> order (VDouble double_NAN) w <= 0).
  { intros N. assert (C : CompareBsonSortOrderType (VDouble double_NAN) w = 0)
      by (destruct f; try discriminate N; (destruct H as [H|H]; [discriminate H|]); destruct w; discriminate H || reflexivity).
    rewrite number_order by (exact C || reflexivity).
    assert (K : num_key (VDouble double_NAN) = ENaN).
    { assert (V : value_ok (VDouble double_NAN)) by (split; reflexivity || discriminate).
      pose proof (num_key_approx (VDouble double_NAN) V eq_refl) as A.
      change (num_ext (VDouble double_NAN)) with (double_ext double_NAN) in A.
      replace (double_ext double_NAN) with ENaN in A by (vm_compute; reflexivity). symmetry. exact A. }
    rewrite K. destruct (num_key w); cbn; easy. }
  assert (Str : forall t, cmp_bytes [] t <= 0) by (intros [|]; cbn; lia).
  assert (Doc : forall t, fields_order order [] t <= 0) by (intros [|]; cbn; lia).
  assert (Boo : forall b, order (VBool false) (VBool b) <= 0).
  { intros b. rewrite number_order by reflexivity. rewrite <- num_key_order by (exact I || reflexivity). now destruct b. }
  assert (Dat : forall z, int64_ok z -> cmpz INT64_MIN z <= 0).
  { intros z B. pose proof (cmpz_sign INT64_MIN z) as S. unfold same_sign, int64_ok in *. lia. }
  destruct f; try exact M; try (apply Num; reflexivity); (destruct H as [H|H]; [discriminate H|]);
    destruct w; try discriminate H; first [exact (Str _)|exact (Doc _)|exact (Boo _)|exact (Dat _ Hw)].
Qed.

Lemma less_scannable f : f <> VEod -> scannable (GetLowerBoundForLessThan (value_type f)) (less_decision f).
Proof.
  intros Nf. unfold scannable, less_decision. split.
  - intros a b Na Nb E. rewrite (class_congr a b f f E (order_refl f)), (comparable_congr a b f f E (order_refl f)).
    rewrite !is_max_class, (class_congr a b VMaxKey VMaxKey E (order_refl _)).
    pose proof (order_congr a b f f E (order_refl f)) as S. unfold same_sign in S.
    repeat match goal with |- context [if negb ?x then _ else _] => destruct (negb x) end; try reflexivity.
    destruct (Z.ltb_spec (order a f) 0), (Z.ltb_spec (order b f) 0); lia || reflexivity.
  - intros w Vw Nw D. destruct (is_max f) eqn:M.
    + split; [apply lower_bound_least; auto|]. intros w' _ _ _ _. destruct (is_max w'); lia.
    + destruct (Z.eqb_spec (CompareBsonSortOrderType w f) 0) as [Cw|]; cbn [negb] in D; [|destruct (_ <? _); discriminate D].
      destruct (negb (comparable w f)); [discriminate D|].
      assert (Ow : order w f < 0) by (destruct (Z.ltb_spec (order w f) 0); [lia|discriminate D]).
      split; [apply lower_bound_least; auto|]. intros w' _ Nw' _ L2.
      assert (O : order w' f < 0) by (pose proof (trans3_value_order None no_collation w' w f) as T; unfold trans3 in T; lia).
      pose proof (order_class_le w' f ltac:(lia)) as C.
      destruct (Z.eqb_spec (CompareBsonSortOrderType w' f) 0); cbn [negb].
      * destruct (negb _); [lia|]. destruct (Z.ltb_spec (order w' f) 0); lia.
      * destruct (Z.ltb_spec (CompareBsonSortOrderType w' f) 0); lia.
Qed.

(** What they take is what the operators ask for. *)
Lemma class_incomparable v f : CompareBsonSortOrderType v f <> 0 -> comparable v f = false.
Proof. intros C. unfold comparable. now destruct (Z.eqb_spec (CompareBsonSortOrderType v f) 0). Qed.

Lemma greater_takes f v : v <> VEod -> (greater_decision f v =? 0) = (is_bound f || comparable v f) && (order v f >? 0).
Proof.
  intros Nv. unfold greater_decision. destruct (is_min f) eqn:M.
  - destruct f; try discriminate M. destruct v; easy.
  - assert (B : comparable v f = false -> false = (is_bound f || comparable v f) && (order v f >? 0)).
    { intros ->. rewrite orb_false_r. destruct (is_bound f) eqn:B; [|reflexivity]. cbn [andb].
      assert (order v f <= 0) by (destruct f; try discriminate B; (discriminate M || destruct v; cbn; lia)). lia. }
    destruct (Z.eqb_spec (CompareBsonSortOrderType f v) 0) as [C|C]; cbn [negb].
    + destruct (comparable v f) eqn:K; cbn [negb]; [|now apply B].
      rewrite orb_true_r. destruct (Z.gtb_spec (order v f) 0), (Z.eqb_spec (order v f) 0); reflexivity.
    + apply B, class_incomparable. unfold CompareBsonSortOrderType, CompareSortOrderType in *. lia.
Qed.

Lemma less_takes f v : v <> VEod -> (less_decision f v =? 0) = (is_bound f || comparable v f) && (order v f <? 0).
Proof.
  intros Nv. unfold less_decision. destruct (is_max f) eqn:M.
  - destruct f; try discriminate M. destruct v; easy.
  - assert (B : comparable v f = false -> false = (is_bound f || comparable v f) && (order v f <? 0)).
    { intros ->. rewrite orb_false_r. destruct (is_bound f) eqn:B; [|reflexivity]. cbn [andb].
      assert (0 <= order v f) by (destruct f; try discriminate B; (discriminate M || destruct v; cbn; try lia; easy)). lia. }
    destruct (Z.eqb_spec (CompareBsonSortOrderType v f) 0) as [C|C]; cbn [negb].
    + destruct (comparable v f) eqn:K; cbn [negb]; [|now apply B].
      rewrite orb_true_r. now destruct (Z.ltb_spec (order v f) 0).
    + destruct (CompareBsonSortOrderType v f <? 0); now apply B, class_incomparable.
Qed.

(** The filter may be replaced by an equal one. *)
Lemma ranked_congr f f' v : f <> VEod -> f' <> VEod -> order f f' = 0 ->
  is_bound f || comparable v f = is_bound f' || comparable v f' /\ same_sign (order v f) (order v f').
Proof.
  intros Nf Nf' E. split; [|exact (order_congr v v f f' (order_refl v) E)].
  rewrite (comparable_congr v v f f' (order_refl v) E). f_equal. apply order_class in E.
  destruct f, f'; discriminate E || easy.
Qed.

(** The partial comparisons of terms with the same path. *)
Lemma same_path q a b : path_differs (value_term q a) (value_term q b) = false.
Proof.
  unfold path_differs. cbn [element value_term fst]. apply negb_false_iff, Z.eqb_eq.
  induction q as [|c q IH]; [reflexivity|]. unfold strcmp in *. rewrite Nat.max_id in *. cbn [List.length strncmp].
  rewrite (proj2 (cmpz_0 _ _) eq_refl). unfold lexz. cbn [Z.eqb]. destruct (_ =? 0); [reflexivity|exact IH].
Qed.

Lemma compare_values q a b : cstr_ok q -> value_ok a -> value_ok b -> CompareBsonSortOrderType a b = 0 ->
  exists c, CompareBsonIndexTerm (value_term q a) (value_term q b) = Ok (c, comparable a b) /\ same_sign c (order a b).
Proof.
  intros Hq Ha Hb C. destruct (CompareBsonIndexTerm_answer (value_term q a) (value_term q b)) as (c & valid & E & S & V);
    try (now split). rewrite value_term_order in S. destruct (V eq_refl eq_refl) as [x X]. cbn [element value_term snd] in X.
  destruct (CompareLogicalOperator_order None a b no_collation Ha Hb) as (y & Y & _).
  unfold CompareLogicalOperatorWithCollation in Y. rewrite C in Y. cbn [Z.eqb] in Y.
  assert (Q : @Ok (Z * bool) (x, valid) = Ok (y, comparable a b)) by (rewrite <- X; exact Y). injection Q as _ ->. eauto.
Qed.

Lemma partial_greater q f w : cstr_ok q -> value_ok f -> value_ok w ->
  GinBsonComparePartialGreater (value_term q f) (value_term q w) = Ok (greater_decision f w).
Proof.
  intros Hq Hf Hw. unfold GinBsonComparePartialGreater, greater_decision. rewrite same_path. cbn [element value_term snd].
  replace (type_eqb (value_type f) BSON_TYPE_MINKEY) with (is_min f) by now destruct f.
  replace (type_eqb (value_type w) BSON_TYPE_MINKEY) with (is_min w) by now destruct w.
  destruct (is_min f); [reflexivity|]. destruct (Z.eqb_spec (CompareBsonSortOrderType f w) 0) as [C|]; [cbn [negb]|reflexivity].
  assert (C' : CompareBsonSortOrderType w f = 0) by (unfold CompareBsonSortOrderType, CompareSortOrderType in *; lia).
  destruct (compare_values q w f Hq Hw Hf C') as (c & -> & S). cbn [res_bind]. unfold same_sign in S. f_equal.
  destruct (negb (comparable w f)); [reflexivity|].
  destruct (Z.gtb_spec c 0), (Z.gtb_spec (order w f) 0), (Z.eqb_spec c 0), (Z.eqb_spec (order w f) 0); lia || reflexivity.
Qed.

Lemma partial_less q lo f maxValue w : cstr_ok q -> value_ok f -> value_ok w -> single maxValue (value_term q f) ->
  GinBsonComparePartialLess IndexTermUseUnsafeTransform (value_term q lo) (value_term q w) maxValue = Ok (less_decision f w).
Proof.
  intros Hq Hf Hw (_ & _ & x & E & I). injection E as <-. unfold GinBsonComparePartialLess, less_decision.
  rewrite same_path, I. cbn [res_bind element value_term snd].
  replace (type_eqb (value_type f) BSON_TYPE_MAXKEY) with (is_max f) by now destruct f.
  replace (type_eqb (value_type w) BSON_TYPE_MAXKEY) with (is_max w) by now destruct w.
  destruct (is_max f); [reflexivity|]. destruct (Z.eqb_spec (CompareBsonSortOrderType w f) 0) as [C|]; [cbn [negb]|reflexivity].
  destruct (compare_values q w f Hq Hw Hf C) as (c & -> & S). cbn [res_bind]. unfold same_sign in S. f_equal.
  destruct (negb (comparable w f)); [reflexivity|]. destruct (Z.ltb_spec c 0), (Z.ltb_spec (order w f) 0); lia || reflexivity.
Qed.
End Terms.

(** ** The terms of a document in a single-path index *)

Section Index.
Context {BL : BidLib} {Laws : BidLaws BL} {LB : LibBson} {LBLaws : LibBsonLaws LB} {Wire : BsonWireLaws LB}.
(** Settings of the extension. *)
Variables EnableIndexTermTruncationOnNestedObjects EnableGenerateNonExistsTerm IndexTermUseUnsafeTransform : bool.
Variables EnableCollation UseLegacyNullEqualityBehavior SkipBsonArrayTraverseOptimization : bool.
Variable toast_compress_datum : bytes -> option bytes.
Variable IndexTermCompressionThreshold : Z.
(** The index: a path of at least one field name, with the terms not compressed. *)
Variables (options : BsonGinSinglePathOptions) (segs : list bytes) (q : bytes) (md : IndexTermCreateMetadata).

Definition index_path_ok : Prop := segs <> [] /\ Forall name_ok segs /\ Forall no_nul segs.
Definition single_path_index : Prop :=
  single_path options = join_path segs /\ single_isWildcard options = false /\ single_generateNotFoundTerm options = false /\
  single_useReducedWildcardTerms options = false /\
  GetIndexTermMetadata (IndexOptionsType_SinglePath options) = Ok md /\ index_path md (join_path segs) = Ok q /\
  (indexTermSizeLimit md <= 0 \/ 64 <= indexTermSizeLimit md) /\ blen (join_path segs) < 2 ^ 30.
Hypothesis segs_ok : index_path_ok.
Hypothesis single_index : single_path_index.
Hypothesis uncompressed : forall t, CompressTermIfNeeded toast_compress_datum IndexTermCompressionThreshold t = t.

Local Abbreviation order := (value_order None).
Local Abbreviation single := (single IndexTermUseUnsafeTransform).
Local Abbreviation serialize e := (SerializeBsonIndexTerm EnableIndexTermTruncationOnNestedObjects e md).
Local Abbreviation values := (values_at SkipBsonArrayTraverseOptimization segs).

Lemma md_shape : isWildcard md = false /\ (pathPrefix md = join_path segs \/ pathPrefix md = []).
Proof.
  destruct single_index as (Hp & Hw & _ & _ & Hm & _). unfold GetIndexTermMetadata in Hm.
  destruct (_ || _); [destruct (_ && _); [discriminate|]|]; injection Hm as <-; cbn; auto.
Qed.

Lemma join_path_ne : join_path segs <> [].
Proof.
  destruct segs_ok as (Hne & Hn & _). destruct segs as [|s rest]; [easy|]. rewrite join_path_joined.
  inversion_clear Hn as [|? ? [Hs _] _]. now destruct s.
Qed.

Lemma join_path_no_nul : no_nul (join_path segs).
Proof.
  destruct segs_ok as (_ & _ & Hn). clear - Hn. induction Hn as [|s rest Hs Hr IH]; [constructor|].
  destruct rest as [|s' rest]; [exact Hs|]. change (no_nul (s ++ dot :: join_path (s' :: rest))). apply Forall_app. split; [exact Hs|].
  constructor; [discriminate|exact IH].
Qed.

Lemma q_ne : q <> [].
Proof.
  destruct single_index as (_ & _ & _ & _ & _ & Hq & _). destruct md_shape as [Hw _]. unfold index_path in Hq. rewrite Hw in Hq.
  rewrite !andb_false_r in Hq. cbn [negb] in Hq. rewrite andb_true_r in Hq.
  destruct (_ && _); [destruct (negb _); [discriminate|]; injection Hq as <-; discriminate|].
  injection Hq as <-. apply join_path_ne.
Qed.

(** The value [w] is written for [v]: all of it, and equal to it in the order. *)
Definition written (v w : bson_value) : Prop :=
  SerializeTermToWriter EnableIndexTermTruncationOnNestedObjects (join_path segs, v) md = Ok (false, [(q, w)]) /\
  wire_ok [(q, w)] /\ (indexTermSizeLimit md > 0 -> doc_size [(q, w)] <= indexTermSizeLimit md) /\
  (IndexTermUseUnsafeTransform = true -> plain_type (to_raw w) = true) /\ order v w = 0.

Definition vterm (v : bson_value) : bytes :=
  match serialize (join_path segs, v) with Ok s => indexTermVal s | Err _ => [] end.

Lemma written_ok v w : written v w -> value_ok w /\ w <> VEod.
Proof.
  intros (_ & ([[_ Hv] _] & Hs & _) & _). split; [exact Hv|]. intros ->. discriminate Hs.
Qed.

(** A term is of the type of the value. *)
Lemma SerializeTermToWriter_type p v truncated p' w :
  SerializeTermToWriter EnableIndexTermTruncationOnNestedObjects (p, v) md = Ok (truncated, [(p', w)]) ->
  value_type w = value_type v.
Proof.
  unfold SerializeTermToWriter. destruct (index_path md p) as [p0|]; [|discriminate]. cbn [res_bind].
  destruct (_ <=? 0); [intros H; injection H as _ _ <-; now destruct v|]. destruct (_ >=? _); [discriminate|].
  destruct v; try (intros H; injection H as _ _ <-; reflexivity);
    match goal with |- context [res_bind ?x] => destruct x as [[? ?]|]; [|discriminate] end;
    cbn [res_bind]; intros H; injection H as _ _ <-; reflexivity.
Qed.

Lemma written_type v w : written v w -> value_type w = value_type v.
Proof. intros (E & _). exact (SerializeTermToWriter_type _ _ _ _ _ E). Qed.

Lemma written_not_eod v w : written v w -> v <> VEod.
Proof.
  intros W ->. pose proof (written_type _ _ W) as T. destruct (written_ok _ _ W) as [_ N]. destruct w; try discriminate T. easy.
Qed.

Lemma written_order v w : written v w -> order v w = 0.
Proof. unfold written. tauto. Qed.

Lemma written_term v w : written v w ->
  serialize (join_path segs, v) = Ok {| serialized_truncated := false; isRootMetadataTerm := false; indexTermVal := vterm v |} /\
  single (vterm v) (value_term q w).
Proof.
  intros W. pose proof W as (E & Hw & Hl & Hp & _).
  destruct (serialize_roundtrip EnableIndexTermTruncationOnNestedObjects IndexTermUseUnsafeTransform _ _ _ _ _ E Hw Hl Hp)
    as (s & Es & T & M & C & I).
  unfold vterm. rewrite Es. split; [destruct s; cbn in *; congruence|]. split; [exact C|]. split; [|now exists (value_term q w)].
  constructor; [|constructor]. destruct Hw as [[[Hq Hv] _] _]. now split.
Qed.

Lemma written_compressed v w : written v w ->
  SerializeBsonIndexTermWithCompression EnableIndexTermTruncationOnNestedObjects toast_compress_datum
    IndexTermCompressionThreshold (join_path segs, v) md =
  Ok {| serialized_truncated := false; isRootMetadataTerm := false; indexTermVal := vterm v |}.
Proof.
  intros W. destruct (written_term v w W) as [E _]. revert E.
  unfold SerializeBsonIndexTerm, SerializeBsonIndexTermCore, SerializeBsonIndexTermWithCompression.
  destruct (BuildSerializedIndexTerm _ _ _ _) as [[[t m] b]|]; [|discriminate]. cbn [res_bind]. intros E.
  injection E as -> -> ->. now rewrite uncompressed.
Qed.

(** Values that fit into every index. *)
Definition is_small (v : bson_value) : bool :=
  match v with
  | VDouble _ | VInt32 _ | VInt64 _ | VBool _ | VDateTime _ | VMinKey | VMaxKey | VNull | VUndefined
  | VUtf8 [] | VSymbol [] | VDocument [] | VArray [] => true
  | _ => false
  end.

Lemma q_cases : cstr_ok q /\ blen q < 2 ^ 30 /\ (indexTermSizeLimit md > 0 -> blen q = 1).
Proof.
  pose proof single_index as (Hp & Hw & Hg & _ & Hm & Hq & Hl & Hb).
  assert (P : indexTermSizeLimit md > 0 -> pathPrefix md = join_path segs).
  { unfold GetIndexTermMetadata in Hm. destruct (_ || _); [destruct (_ && _); [discriminate|]|]; injection Hm as <-; cbn; [auto|lia]. }
  destruct md_shape as [W _]. unfold index_path in Hq. rewrite W in Hq. rewrite !andb_false_r in Hq. cbn [negb] in Hq.
  rewrite andb_true_r in Hq. assert (L : (blen (join_path segs) >? 0) = true).
  { pose proof join_path_ne as N. destruct (join_path segs) as [|c l]; [easy|]. rewrite blen_cons. pose proof (blen_nonneg l). lia. }
  rewrite L, andb_true_r in Hq. destruct (blen (pathPrefix md) >? 0) eqn:B.
  - destruct (negb _); [discriminate|]. injection Hq as <-. split; [|split; [reflexivity|easy]]. split; [reflexivity|].
    constructor; [discriminate|constructor].
  - injection Hq as <-. split; [split; [unfold len_ok; lia|apply join_path_no_nul]|]. split; [exact Hb|].
    intros X. rewrite (P X) in B. congruence.
Qed.

Lemma small_written v : is_small v = true -> value_ok v -> written v v.
Proof.
  intros Sm Hv. destruct q_cases as (Hq & Bq & L1). pose proof single_index as (_ & _ & _ & _ & _ & Ep & Hl & _).
  assert (Z0 : value_size v <= 8) by (destruct v as [| |[|]|[|]|[|]| | | | | | | | | |[|]| | | | | | |]; try discriminate Sm; cbn; lia).
  assert (St : storable v = true) by (destruct v as [| |[|]|[|]|[|]| | | | | | | | | |[|]| | | | | | |]; try discriminate Sm; reflexivity).
  split; [|split; [|split; [|split; [|apply order_refl]]]].
  - unfold SerializeTermToWriter. rewrite Ep. cbn [res_bind]. destruct (Z.leb_spec (indexTermSizeLimit md) 0) as [|L].
    { now destruct v. }
    rewrite (L1 ltac:(lia)), Z.geb_leb. destruct (Z.leb_spec (indexTermSizeLimit md) (5 + 1 + 2)); [lia|].
    destruct v as [| |[|]|[|]|[|]| | | | | | | | | |[|]| | | | | | |]; try discriminate Sm; try reflexivity;
      unfold TruncateStringOrBinaryTerm; cbn [TruncateArrayTerm TruncateDocumentTerm]; change (doc_size []) with 5;
      change (blen []) with 0; unfold fixedArrayTermSize, fixedDocumentTermLimit; rewrite Z.gtb_ltb;
      match goal with |- context [?a <? ?b] => destruct (Z.ltb_spec a b); [lia|reflexivity] end.
  - split; [split; [split; [exact Hq|exact Hv]|exact I]|]. split; [cbn [all_storable]; now rewrite St|].
    rewrite doc_size_single. unfold INT32_MAX. lia.
  - intros X. rewrite doc_size_single, (L1 X). lia.
  - intros _. destruct v; try discriminate Sm; reflexivity.
Qed.

Lemma bound_written f : written (GetLowerBoundForLessThan (value_type f)) (GetLowerBoundForLessThan (value_type f)).
Proof.
  apply small_written; [now destruct f|]. destruct f; cbn; try exact I; try reflexivity;
    unfold len_ok, uint64_ok, int64_ok; (split; reflexivity || discriminate) || reflexivity.
Qed.

(** Root terms: the built term, and what it holds. *)
Definition rterm (k : root_kind) : bytes :=
  match term_value (SerializeBsonIndexTermCore EnableIndexTermTruncationOnNestedObjects ([], root_value k) md (root_meta k)) with
  | Ok t => t
  | Err _ => []
  end.

Lemma root_written k :
  SerializeTermToWriter EnableIndexTermTruncationOnNestedObjects ([], root_value k) md = Ok (false, [([], root_value k)]).
Proof.
  destruct md_shape as [Hm _]. unfold SerializeTermToWriter, index_path. rewrite Hm.
  rewrite !andb_false_r. cbn [andb negb res_bind]. change (blen []) with 0. cbn.
  destruct single_index as (_ & _ & _ & _ & _ & _ & Hl & _). destruct (Z.leb_spec (indexTermSizeLimit md) 0) as [_|L].
  - now destruct k.
  - rewrite Z.geb_leb. destruct (Z.leb_spec (indexTermSizeLimit md) 7) as [|_]; [lia|].
    destruct k; try reflexivity. cbn [root_value TruncateArrayTerm]. change (doc_size []) with 5.
    unfold fixedArrayTermSize. rewrite Z.gtb_ltb. destruct (Z.ltb_spec (indexTermSizeLimit md - 21) (5 + 7)); [lia|reflexivity].
Qed.

Lemma root_built k :
  term_value (SerializeBsonIndexTermCore EnableIndexTermTruncationOnNestedObjects ([], root_value k) md (root_meta k)) =
    Ok (rterm k) /\
  single (rterm k) (root_term k).
Proof.
  unfold rterm, SerializeBsonIndexTermCore, BuildSerializedIndexTerm. rewrite root_written. cbn [res_bind andb].
  assert (Z0 : (indexTermSizeLimit md >? 0) && (doc_size [([], root_value k)] >? indexTermSizeLimit md) = false).
  { destruct single_index as (_ & _ & _ & _ & _ & _ & Hl & _). rewrite !Z.gtb_ltb.
    destruct (Z.ltb_spec 0 (indexTermSizeLimit md)); [|reflexivity]. cbn [andb]. apply Z.ltb_ge.
    destruct k; vm_compute doc_size; lia. }
  rewrite Z0. cbn [res_bind term_value indexTermVal]. split; [reflexivity|].
  assert (M : 0 <= root_meta k < 256) by (destruct k; split; reflexivity || discriminate).
  assert (W : wire_ok [([], root_value k)])
    by (split; [|split]; [split; [split; [split; [reflexivity|constructor]|]|exact I]|..]; now destruct k).
  split; [|split].
  - unfold IsSerializedIndexTermComposite. rewrite term_metadata_encode by exact M. now destruct k.
  - constructor; [|constructor]. split; [split; [reflexivity|constructor]|]. apply W.
  - exists (root_term k). split; [reflexivity|]. rewrite initialize_encode; [now destruct k|exact M|exact W|now destruct k].
Qed.

Lemma roots_generated :
  GenerateRootTerm EnableIndexTermTruncationOnNestedObjects md = Ok (rterm Root) /\
  GenerateRootExistsTerm EnableIndexTermTruncationOnNestedObjects md = Ok (rterm RootExists) /\
  GenerateRootNonExistsTerm EnableIndexTermTruncationOnNestedObjects md = Ok (rterm RootNonExists) /\
  GenerateRootMultiKeyTerm EnableIndexTermTruncationOnNestedObjects md = Ok (rterm RootMultiKey).
Proof.
  repeat split; [exact (proj1 (root_built Root))|exact (proj1 (root_built RootExists))|
    exact (proj1 (root_built RootNonExists))|exact (proj1 (root_built RootMultiKey))].
Qed.

Local Abbreviation opt := (fun p => GetSinglePathIndexTraverseOptionCore (join_path segs) p false).

Definition indexable (d : fields) : Prop :=
  regular (VDocument d) /\ doc_ok d /\ Forall (fun v => exists w, written v w) (values d).

(** An array is passed on the way. *)
Definition multikey (d : fields) : bool := existsb is_ancestor (document_events opt d []).

Definition found (d : fields) : bool := match values d with [] => false | _ => true end.

(** The root terms a document has. *)
Definition root_present (d : fields) (k : root_kind) : bool :=
  match k with
  | Root => negb EnableGenerateNonExistsTerm
  | RootExists => EnableGenerateNonExistsTerm && found d
  | RootNonExists => EnableGenerateNonExistsTerm && negb (found d)
  | RootMultiKey => multikey d
  end.

Definition has_terms (d : fields) (ts : list bytes) : Prop :=
  forall t, In t ts <-> In t (map vterm (values d)) \/ exists k, root_present d k = true /\ t = rterm k.

Lemma terms_at d q' w : indexable d ->
  In (TermEvent q' w) (document_events opt d []) <-> q' = join_path segs /\ In w (values d).
Proof.
  intros (R & _). destruct segs_ok as (Hne & Hn & _). apply single_path_terms; auto. apply join_path_no_nul.
Qed.

Lemma document_events_entries (config : GenerateTermsConfig) d : indexable d -> termMetadata config = md ->
  generateNotFoundTerm config = false ->
  Forall (event_ok EnableIndexTermTruncationOnNestedObjects toast_compress_datum IndexTermCompressionThreshold config)
    (document_events opt d []) /\
  existsb (event_truncated EnableIndexTermTruncationOnNestedObjects toast_compress_datum IndexTermCompressionThreshold config)
    (document_events opt d []) = false /\
  forall t, In t (flat_map (event_entries EnableIndexTermTruncationOnNestedObjects toast_compress_datum
      IndexTermCompressionThreshold config) (document_events opt d [])) <-> In t (map vterm (values d)).
Proof.
  intros D Hm Hg. pose proof (terms_at d) as T.
  assert (E : forall e, In e (document_events opt d []) -> e = AncestorEvent \/
    exists v w, e = TermEvent (join_path segs) v /\ In v (values d) /\ written v w).
  { intros [p v|] I; [|now left]. apply (T p v D) in I as [-> I]. right.
    pose proof D as (_ & _ & W). rewrite Forall_forall in W. destruct (W v I) as [w Hw]. eauto 6. }
  assert (N : forall v, needs_undefined config v = false) by (intros v; unfold needs_undefined; now rewrite Hg).
  split; [|split].
  - apply Forall_forall. intros e I. destruct (E e I) as [->|(v & w & -> & _ & W)]; [exact Logic.I|].
    cbn [event_ok]. rewrite N, Hm, (written_compressed v w W). split; [eauto|discriminate].
  - apply not_true_is_false. intros H. apply existsb_exists in H as (e & I & H).
    destruct (E e I) as [->|(v & w & -> & _ & W)]; [discriminate|]. cbn [event_truncated] in H.
    now rewrite Hm, (written_compressed v w W) in H.
  - assert (V : forall v w, written v w -> event_entries EnableIndexTermTruncationOnNestedObjects toast_compress_datum
      IndexTermCompressionThreshold config (TermEvent (join_path segs) v) = [vterm v]).
    { intros v w W. cbn [event_entries]. rewrite N, Hm, (written_compressed v w W). reflexivity. }
    intros t. rewrite in_flat_map, in_map_iff. split.
    + intros (e & I & H). destruct (E e I) as [->|(v & w & -> & Iv & W)]; [destruct H|].
      rewrite (V v w W) in H. destruct H as [<-|[]]. eauto.
    + intros (v & <- & I). exists (TermEvent (join_path segs) v). split; [now apply T|].
      pose proof D as (_ & _ & W). rewrite Forall_forall in W. destruct (W v I) as [w Hw]. rewrite (V v w Hw). now left.
Qed.

(** The entries: a term for every value, the root term, and the multi-key term. *)
Lemma document_entries d : indexable d -> exists ts,
  gin_bson_single_path_extract_value EnableIndexTermTruncationOnNestedObjects EnableGenerateNonExistsTerm
    toast_compress_datum IndexTermCompressionThreshold d options = Ok ts /\ has_terms d ts.
Proof.
  intros D. pose proof single_index as (Hp & Hw & Hg & _ & Hm & _). unfold gin_bson_single_path_extract_value, GenerateSinglePathTermsCore.
  rewrite Hm. cbn [res_bind]. set (config := single_path_config options md).
  destruct (document_events_entries config d D eq_refl Hg) as (Ok_ & Tr & En).
  assert (To : forall p t, traverseOptionsFunc config p t = opt p)
    by (intros; cbn; unfold GetSinglePathIndexTraverseOption; now rewrite Hp, Hw).
  assert (Rw : useReducedWildcardTerms config = false) by (cbn; now rewrite Hw).
  assert (Wk : causes EnableIndexTermTruncationOnNestedObjects toast_compress_datum IndexTermCompressionThreshold config
    (document_events opt d []) (GenerateTermsCore (GenerateTermPath EnableIndexTermTruncationOnNestedObjects toast_compress_datum
      IndexTermCompressionThreshold config) d [] false false false)).
  { apply document_walk. apply Forall_forall. intros kv _. now apply walk_events. }
  destruct (Wk Ok_ empty_context) as (st & E & H1 & H2 & H3). unfold GenerateTerms. rewrite E. cbn [res_bind].
  rewrite Tr in H2. cbn [empty_context entries hasTruncatedTerms hasArrayAncestors app orb] in H1, H2, H3.
  fold (multikey d) in H3.
  assert (No : Nat.eqb (GinTerms.index st) 0 = negb (found d)).
  { unfold GinTerms.index, found. rewrite H1. destruct (flat_map _ _) as [|t l]; cbn [List.length Nat.eqb].
    - destruct (values d) as [|v vs]; [reflexivity|]. exfalso. apply (proj2 (En (vterm v))). now left.
    - destruct (values d) as [|v vs]; [|reflexivity]. exfalso. apply (proj1 (En t)). now left. }
  rewrite No. change (generateNotFoundTerm config) with (single_generateNotFoundTerm options). rewrite Hg, andb_false_r.
  cbn [add_when res_bind]. change (generatePathBasedUndefinedTerms config) with false. cbn [andb add_when res_bind].
  change (termMetadata config) with md.
  set (kind := if negb EnableGenerateNonExistsTerm then Root else if found d then RootExists else RootNonExists).
  assert (R : (if negb EnableGenerateNonExistsTerm then GenerateRootTerm EnableIndexTermTruncationOnNestedObjects md
               else if negb (negb (found d)) then GenerateRootExistsTerm EnableIndexTermTruncationOnNestedObjects md
               else GenerateRootNonExistsTerm EnableIndexTermTruncationOnNestedObjects md) = Ok (rterm kind)).
  { unfold kind. rewrite negb_involutive.
    destruct (negb EnableGenerateNonExistsTerm), (found d); apply roots_generated. }
  assert (K : forall t, (exists k, root_present d k = true /\ t = rterm k) <->
    t = rterm kind \/ (multikey d = true /\ t = rterm RootMultiKey)).
  { intros t. unfold kind. split.
    - intros (k & P & ->). destruct k; cbn in P; auto; left; destruct EnableGenerateNonExistsTerm, (found d); easy.
    - intros [->|[M ->]]; [|now exists RootMultiKey]. eexists. split; [|reflexivity].
      unfold root_present. destruct EnableGenerateNonExistsTerm; [|reflexivity]. cbn [negb]. now destruct (found d). }
  rewrite R. unfold add_when. cbn [res_bind AddTerm hasTruncatedTerms hasArrayAncestors]. rewrite H2.
  cbn [res_bind AddTerm hasArrayAncestors]. rewrite H3. unfold has_terms. destruct (multikey d).
  - destruct roots_generated as (_ & _ & _ & ->). cbn [res_bind AddTerm entries]. eexists. split; [reflexivity|]. intros t.
    rewrite H1, K, !in_app_iff, En. cbn. intuition (subst; auto).
  - cbn [res_bind AddTerm entries]. eexists. split; [reflexivity|]. intros t. rewrite H1, K, !in_app_iff, En. cbn.
    intuition (subst; auto; discriminate).
Qed.

(** ** Lookups and scans *)

Context {AM : AccessMethod} {AMLaws : AccessMethodLaws AM}.
Local Abbreviation compare := (gin_bson_compare IndexTermUseUnsafeTransform).
Local Open Scope res_scope.

(** The terms of the documents of a collection. *)
Fixpoint index_documents (docs : list fields) : res (list (list bytes)) :=
  match docs with
  | [] => Ok []
  | d :: docs =>
    let* ts := gin_bson_single_path_extract_value EnableIndexTermTruncationOnNestedObjects EnableGenerateNonExistsTerm
                 toast_compress_datum IndexTermCompressionThreshold d options in
    let* index := index_documents docs in Ok (ts :: index)
  end.

Lemma index_built docs : Forall indexable docs ->
  exists index, index_documents docs = Ok index /\ Forall2 has_terms docs index.
Proof.
  induction 1 as [|d docs Hd _ (index & E & F)]; [exists []; now split|]. cbn [index_documents].
  destruct (document_entries d Hd) as (ts & -> & T). rewrite E. exists (ts :: index). split; [reflexivity|]. now constructor.
Qed.

Section Documents.
Variables (docs : list fields) (index : list (list bytes)).
Hypothesis docs_ok : Forall indexable docs.
Hypothesis docs_terms : Forall2 has_terms docs index.
Variables (i : nat) (d : fields).
Hypothesis at_i : nth_error docs i = Some d.

Lemma terms_at_i : indexable d /\ exists ts, nth_error index i = Some ts /\ has_terms d ts.
Proof.
  split; [rewrite Forall_forall in docs_ok; apply docs_ok, nth_error_In with i, at_i|].
  exact (Forall2_nth _ _ _ _ _ docs_terms at_i).
Qed.

Lemma value_of d' v : indexable d' -> In v (values d') -> exists w, written v w.
Proof. intros (_ & _ & W) I. rewrite Forall_forall in W. now apply W. Qed.

(** What the terms of a document hold. *)
Inductive entry_of (d' : fields) (t : bytes) : Prop :=
| ValueEntry v w : In v (values d') -> written v w -> t = vterm v -> single t (value_term q w) -> entry_of d' t
| RootEntry k : root_present d' k = true -> t = rterm k -> single t (root_term k) -> entry_of d' t.

Lemma term_entry d' ts t : indexable d' -> has_terms d' ts -> In t ts -> entry_of d' t.
Proof.
  intros D H I. apply H in I as [I|(k & P & ->)].
  - apply in_map_iff in I as (v & <- & I). destruct (value_of d' v D I) as [w W]. eapply ValueEntry; eauto. now apply written_term.
  - eapply RootEntry; [exact P|reflexivity|]. apply root_built.
Qed.

Lemma key_entry t : In t (concat index) -> exists d', In d' docs /\ entry_of d' t.
Proof.
  intros I. apply in_concat in I as (ts & Its & It).
  destruct (Forall2_In_r _ _ _ _ docs_terms Its) as (d' & Id & H).
  exists d'. split; [exact Id|]. eapply term_entry; eauto. rewrite Forall_forall in docs_ok. auto.
Qed.

Lemma entry_reflexive d' t : entry_of d' t -> same_key compare t t = true.
Proof.
  intros [v w _ _ _ S|k _ _ S]; rewrite (same_key_single _ _ _ _ _ S S).
  - now rewrite value_term_order, order_refl.
  - now apply Z.eqb_eq, root_terms_differ.
Qed.

(** A lookup of a value. *)
Lemma lookup_value f wf : written f wf ->
  am_hit compare index i (vterm f) None = existsb (fun v => order v f =? 0) (values d).
Proof.
  intros Wf. destruct terms_at_i as (D & ts & E & H). rewrite (lookup_hit _ _ _ _ _ E). destruct (written_term f wf Wf) as [_ Sf].
  assert (V : forall v w, written v w -> same_key compare (vterm v) (vterm f) = (order v f =? 0)).
  { intros v w W. destruct (written_term v w W) as [_ Sv]. rewrite (same_key_single _ _ _ _ _ Sv Sf), value_term_order.
    pose proof (order_congr v w f wf) as C. unfold same_sign in C. specialize (C (written_order _ _ W) (written_order _ _ Wf)). lia. }
  apply eq_true_iff_eq. rewrite !existsb_exists. split.
  - intros (t & I & K). destruct (term_entry d ts t D H I) as [v w Iv W -> _|k _ _ S].
    + exists v. rewrite <- (V v w W). auto.
    + rewrite (same_key_single _ _ _ _ _ S Sf) in K. pose proof (root_term_order q k wf q_ne). lia.
  - intros (v & I & K). destruct (value_of d v D I) as [w W]. exists (vterm v). rewrite (V v w W). split; [|exact K].
    apply H. left. now apply in_map.
Qed.

(** A lookup of a root term. *)
Lemma lookup_root k : am_hit compare index i (rterm k) None = root_present d k.
Proof.
  destruct terms_at_i as (D & ts & E & H). rewrite (lookup_hit _ _ _ _ _ E). pose proof (proj2 (root_built k)) as Sk.
  apply eq_true_iff_eq. rewrite existsb_exists. split.
  - intros (t & I & K). destruct (term_entry d ts t D H I) as [v w _ _ _ S|k' P _ S];
      rewrite (same_key_single _ _ _ _ _ S Sk) in K.
    + pose proof (root_term_order q k w q_ne). pose proof (anti2_term_order (root_term k) (value_term q w)) as A.
      unfold anti2 in A. lia.
    + apply Z.eqb_eq, root_terms_differ in K. now subst.
  - intros P. exists (rterm k). split; [apply H; right; eauto|]. rewrite (same_key_single _ _ _ _ _ Sk Sk).
    now apply Z.eqb_eq, root_terms_differ.
Qed.

(** A scan with such a decision. *)
Lemma scan_values lo wlo cp decision : written lo wlo -> scannable wlo decision ->
  (forall v w, written v w -> cp (vterm v) = Ok (decision w)) ->
  am_hit compare index i (vterm lo) (Some cp) = existsb (fun v => decision v =? 0) (values d).
Proof.
  intros Wlo [Cong Scan] Hcp. destruct terms_at_i as (D & ts & E & H). destruct (written_term lo wlo Wlo) as [_ Slo].
  assert (Dec : forall v w, written v w -> decision w = decision v).
  { intros v w W. symmetry. apply Cong; [apply (written_not_eod v w W)|apply (written_ok v w W)|now apply written_order]. }
  assert (Key : forall k, In k (am_keys compare index) -> precedes compare k (vterm lo) = false ->
    exists v w, written v w /\ k = vterm v /\ single k (value_term q w) /\ order wlo w <= 0).
  { intros k I P. destruct (key_entry k (keys_are_terms _ _ _ I)) as (d' & _ & [v w _ W Ek S|r _ _ S]).
    - exists v, w. repeat (split; [assumption|]). rewrite (precedes_single _ _ _ _ _ S Slo), value_term_order in P.
      pose proof (order_flip wlo w). pose proof (order_flip w wlo). lia.
    - rewrite (precedes_single _ _ _ _ _ S Slo) in P. pose proof (root_term_order q r wlo q_ne). lia. }
  apply eq_true_iff_eq. rewrite (scan_hit _ _ _ _ _ _ E), existsb_exists. split.
  - intros (k & t & Ik & It & Skt & P & Dk & _). destruct (Key k Ik P) as (v & w & W & -> & S & _).
    unfold decides in Dk. rewrite (Hcp v w W) in Dk.
    destruct (term_entry d ts t D H It) as [v' w' Iv' W' _ S'|r _ _ S']; rewrite (same_key_single _ _ _ _ _ S S') in Skt.
    + exists v'. split; [exact Iv'|]. rewrite <- (Dec v' w' W'). rewrite value_term_order in Skt.
      rewrite <- (Cong w w'); [exact Dk|apply (written_ok v w W)|apply (written_ok v' w' W')|lia].
    + pose proof (root_term_order q r w q_ne). pose proof (anti2_term_order (root_term r) (value_term q w)) as A.
      unfold anti2 in A. lia.
  - intros (v & Iv & Dv). destruct (value_of d v D Iv) as [w W]. destruct (written_term v w W) as [_ S].
    assert (It : In (vterm v) ts) by (apply H; left; now apply in_map).
    assert (Ic : In (vterm v) (concat index)) by (apply in_concat; exists ts; split; [now apply nth_error_In with i|exact It]).
    destruct (terms_have_keys compare index (vterm v) Ic (entry_reflexive _ _ (term_entry d ts _ D H It))) as (k & Ik & Sk).
    destruct (key_entry k (keys_are_terms _ _ _ Ik)) as (d' & _ & [v' w' _ W' Ek S'|r _ _ S']);
      rewrite (same_key_single _ _ _ _ _ S' S) in Sk.
    2:{ pose proof (root_term_order q r w q_ne). lia. }
    rewrite value_term_order in Sk. destruct (written_ok v' w' W') as [Vw' Nw'].
    assert (Dw' : decision w' = 0).
    { rewrite (Cong w' w), (Dec v w W); [lia|exact Nw'|apply (written_ok v w W)|lia]. }
    destruct (Scan w' Vw' Nw' Dw') as [Lo Below]. exists k, (vterm v). repeat (split; [assumption|]). split.
    { rewrite (same_key_single _ _ _ _ _ S' S), value_term_order. exact Sk. }
    split; [rewrite (precedes_single _ _ _ _ _ S' Slo), value_term_order; pose proof (order_flip w' wlo); lia|]. subst k.
    split; [unfold decides; rewrite (Hcp v' w' W'); lia|].
    intros k' Ik' P' B'. destruct (Key k' Ik' P') as (v2 & w2 & W2 & -> & S2 & L2). unfold decides. rewrite (Hcp v2 w2 W2).
    rewrite (precedes_single _ _ _ _ _ S2 S'), value_term_order in B'. destruct (written_ok v2 w2 W2) as [V2 N2].
    specialize (Below w2 V2 N2 L2). lia.
Qed.

(** ** Answers *)

Context {RE : Pcre2} {EE : ExprEngine} {ElemMatchState : Type}.
Variables EnableRumInOperatorFastPath EnableNewCompositeIndexOpclass : bool.
Variable uninitialized_type : Z.
Variable ExtractQueryElemMatch : BsonExtractQueryArgs -> res (extracted (ElemMatchState := ElemMatchState)).
Variable ComparePartialElemMatch : BsonIndexTerm -> BsonIndexTerm -> ElemMatchState -> res Z.
Variable ElemMatchConsistent : list bool -> list (extra_data (ElemMatchState := ElemMatchState)) -> nat -> res bool.
Local Abbreviation indexOptions := (IndexOptionsType_SinglePath options).
Local Abbreviation extract := (gin_bson_extract_query EnableIndexTermTruncationOnNestedObjects uninitialized_type
  ExtractQueryElemMatch EnableCollation EnableNewCompositeIndexOpclass).
Local Abbreviation partial := (gin_bson_compare_partial IndexTermUseUnsafeTransform ComparePartialElemMatch).
Local Abbreviation consistent := (gin_bson_consistent IndexTermUseUnsafeTransform EnableRumInOperatorFastPath ElemMatchConsistent).

(** Whether the document is found under an entry of the query. *)
Definition entry_hit (strategy : BsonIndexStrategy) (e : extracted (ElemMatchState := ElemMatchState)) (j : nat) : bool :=
  let entry := nth j (queryKeys e) [] in
  am_hit compare index i entry
    (if nth j (partialmatch e) false then Some (fun k => partial entry k strategy (nth j (extra e) NoExtra)) else None).

Definition check_bits (strategy : BsonIndexStrategy) (e : extracted (ElemMatchState := ElemMatchState)) : list bool :=
  map (entry_hit strategy e) (seq 0 (List.length (queryKeys e))).

(** A document found under no entry is not considered; for the others the operator
    class decides.  The result: the answer, and whether to evaluate the operator
    again on the document. *)
Definition index_answer (strategy : BsonIndexStrategy) (e : extracted (ElemMatchState := ElemMatchState)) (recheck : bool)
  : res (bool * bool) :=
  let check := check_bits strategy e in
  if existsb (fun b => b) check then consistent check strategy e recheck indexOptions else Ok (false, false).

Lemma values_not_eod v : In v (values d) -> v <> VEod.
Proof. intros I. destruct terms_at_i as (D & _). destruct (value_of d v D I) as [w W]. exact (written_not_eod v w W). Qed.

Lemma existsb_values (p p' : bson_value -> bool) : (forall v, In v (values d) -> p v = p' v) ->
  existsb p (values d) = existsb p' (values d).
Proof.
  intros H. induction (values d) as [|v l IH]; [reflexivity|]. cbn. rewrite H by now left. f_equal. apply IH. intros u I. apply H. now right.
Qed.

Definition above (f : bson_value) : bool :=
  existsb (fun v => (is_bound f || comparable v f) && (order v f >? 0)) (values d).
Definition below (f : bson_value) : bool :=
  existsb (fun v => (is_bound f || comparable v f) && (order v f <? 0)) (values d).
Definition equal (f : bson_value) : bool := existsb (fun v => order v f =? 0) (values d).

Definition is_greater (strategy : BsonIndexStrategy) : bool :=
  match strategy with
  | BSON_INDEX_STRATEGY_DOLLAR_GREATER | BSON_INDEX_STRATEGY_DOLLAR_GREATER_EQUAL
  | BSON_INDEX_STRATEGY_DOLLAR_NOT_GT | BSON_INDEX_STRATEGY_DOLLAR_NOT_GTE => true
  | _ => false
  end.
Definition is_less (strategy : BsonIndexStrategy) : bool :=
  match strategy with
  | BSON_INDEX_STRATEGY_DOLLAR_LESS | BSON_INDEX_STRATEGY_DOLLAR_LESS_EQUAL
  | BSON_INDEX_STRATEGY_DOLLAR_NOT_LT | BSON_INDEX_STRATEGY_DOLLAR_NOT_LTE => true
  | _ => false
  end.

Lemma term_initialize t x : single t x -> InitializeBsonIndexTerm IndexTermUseUnsafeTransform t = Ok x.
Proof. intros (_ & _ & y & E & I). injection E as <-. exact I. Qed.

Lemma written_untruncated v w : written v w -> IsSerializedIndexTermTruncated (vterm v) = Ok false.
Proof.
  intros W. destruct (written_term v w W) as [_ S]. pose proof (term_initialize _ _ S) as T.
  unfold InitializeBsonIndexTerm, IsSerializedIndexTermTruncated in *.
  destruct (term_metadata (vterm v)) as [m|]; [|discriminate]. cbn [res_bind] in *.
  destruct (term_element _ _); [|discriminate]. injection T as -> _. reflexivity.
Qed.

Lemma greater_hit f wf strategy x : written f wf -> is_greater strategy = true ->
  am_hit compare index i (vterm f) (Some (fun k => partial (vterm f) k strategy x)) = above f.
Proof.
  intros Wf Hs. destruct (written_ok f wf Wf) as [Vf Nf]. destruct (written_term f wf Wf) as [_ Sf].
  rewrite (scan_values f wf _ (greater_decision wf) Wf (greater_scannable wf Nf)).
  - apply existsb_values. intros v I. rewrite greater_takes by now apply values_not_eod.
    destruct (ranked_congr wf f v Nf (written_not_eod f wf Wf)) as [-> S]; [apply order_eq_sym, written_order; exact Wf|].
    unfold same_sign in S. f_equal. lia.
  - intros v w W. destruct (written_ok v w W) as [Vw _]. destruct (written_term v w W) as [_ Sv].
    unfold gin_bson_compare_partial. rewrite (term_initialize _ _ Sf), (term_initialize _ _ Sv). cbn [res_bind].
    rewrite <- (partial_greater q wf w (proj1 q_cases) Vf Vw). destruct strategy; try discriminate Hs; reflexivity.
Qed.

Lemma less_hit f wf strategy : written f wf -> is_less strategy = true ->
  let lo := vterm (GetLowerBoundForLessThan (value_type f)) in
  am_hit compare index i lo (Some (fun k => partial lo k strategy (MaxValueExtra (vterm f)))) = below f.
Proof.
  intros Wf Hs lo. destruct (written_ok f wf Wf) as [Vf Nf]. destruct (written_term f wf Wf) as [_ Sf].
  set (bound := GetLowerBoundForLessThan (value_type f)) in *. assert (Wb : written bound bound) by apply bound_written.
  destruct (written_term bound bound Wb) as [_ Sb].
  assert (Sc : scannable bound (less_decision wf))
    by (unfold bound; rewrite <- (written_type f wf Wf); now apply less_scannable).
  unfold lo. rewrite (scan_values bound bound _ (less_decision wf) Wb Sc).
  - apply existsb_values. intros v I. rewrite less_takes by now apply values_not_eod.
    destruct (ranked_congr wf f v Nf (written_not_eod f wf Wf)) as [-> S]; [apply order_eq_sym, written_order; exact Wf|].
    unfold same_sign in S. f_equal. lia.
  - intros v w W. destruct (written_ok v w W) as [Vw _]. destruct (written_term v w W) as [_ Sv].
    unfold gin_bson_compare_partial. rewrite (term_initialize _ _ Sb), (term_initialize _ _ Sv). cbn [res_bind].
    rewrite <- (partial_less IndexTermUseUnsafeTransform q bound wf (vterm f) w (proj1 q_cases) Vf Vw Sf).
    destruct strategy; try discriminate Hs; reflexivity.
Qed.

Section Filter.
Variables (filter : fields) (f wf : bson_value).
Hypothesis filter_read : read_filter EnableCollation filter = Ok ((join_path segs, f), None).
Hypothesis filter_written : written f wf.

Lemma extraction strategy : strategy <> BSON_INDEX_STRATEGY_DOLLAR_ORDERBY -> strategy <> BSON_INDEX_STRATEGY_UNIQUE_EQUAL ->
  extract strategy filter indexOptions =
  GinBsonExtractQueryCore EnableIndexTermTruncationOnNestedObjects uninitialized_type ExtractQueryElemMatch strategy
    {| arg_filterElement := (join_path segs, f); arg_options := indexOptions; arg_termMetadata := md |}.
Proof.
  intros No Nu. pose proof single_index as (Hp & Hw & _ & Hr & Hm & _).
  assert (V : ValidateIndexForQualifierValue EnableNewCompositeIndexOpclass EnableCollation indexOptions filter strategy = Ok true).
  { unfold ValidateIndexForQualifierValue. replace (strategy_eqb _ _) with false by (unfold strategy_eqb; now destruct (BsonIndexStrategy_eq_dec _ _)).
    rewrite filter_read. cbn [res_bind]. replace (IsCollationValid None) with false by reflexivity. rewrite andb_false_r.
    unfold qualifier_traverse. rewrite Hw, Hr. cbn [andb]. unfold GetSinglePathIndexTraverseOption. rewrite Hp, Hw.
    rewrite (proj2 (single_path_match (join_path segs) join_path_no_nul (join_path segs)) eq_refl). reflexivity. }
  unfold gin_bson_extract_query. rewrite V, filter_read, Hm. cbn [res_bind negb]. destruct strategy; (reflexivity || now elim No).
Qed.

(** What the operator class finds of the keys. *)
Lemma hits :
  (forall strategy x, is_greater strategy = true ->
     am_hit compare index i (vterm f) (Some (fun k => partial (vterm f) k strategy x)) = above f) /\
  (forall strategy, is_less strategy = true -> let lo := vterm (GetLowerBoundForLessThan (value_type f)) in
     am_hit compare index i lo (Some (fun k => partial lo k strategy (MaxValueExtra (vterm f)))) = below f) /\
  am_hit compare index i (vterm f) None = equal f /\
  IsSerializedIndexTermTruncated (vterm f) = Ok false /\
  (forall v w, written v w -> InitializeBsonIndexTerm IndexTermUseUnsafeTransform (vterm v) = Ok (value_term q w)).
Proof.
  split; [intros s0 x; now apply greater_hit with wf|]. split; [intros s0; now apply less_hit with wf|].
  split; [now apply lookup_value with wf|].
  split; [exact (written_untruncated f wf filter_written)|]. intros v w W. now apply term_initialize, written_term.
Qed.

(** What is extracted for a filter that is not null. *)
Definition entries_of (keys : list bytes) (partials : list bool) (extras : list (extra_data (ElemMatchState := ElemMatchState)))
  : extracted (ElemMatchState := ElemMatchState) := {| queryKeys := keys; partialmatch := partials; extra := extras |}.
Definition negation_keys (negated : bool) : list bytes :=
  if negated then [rterm RootNonExists; rterm RootExists; rterm Root] else [].

Hypothesis not_null : f <> VNull.
Local Abbreviation args := {| arg_filterElement := (join_path segs, f); arg_options := indexOptions; arg_termMetadata := md |}.
Local Abbreviation lo := (vterm (GetLowerBoundForLessThan (value_type f))).

Lemma negation_generated b :
  negation_terms EnableIndexTermTruncationOnNestedObjects b md = Ok (negation_keys b).
Proof.
  destruct b; [|reflexivity]. unfold negation_terms, GenerateNegationTerms.
  destruct roots_generated as (-> & -> & -> & _). reflexivity.
Qed.

Lemma extract_equality :
  GinBsonExtractQueryEqual EnableIndexTermTruncationOnNestedObjects args = Ok (entries_of [vterm f] [] []) /\
  GinBsonExtractQueryNotEqual EnableIndexTermTruncationOnNestedObjects args =
    Ok (entries_of [vterm f; rterm RootExists; rterm RootNonExists; rterm Root] [] []).
Proof.
  pose proof (proj1 (written_term f wf filter_written)) as S. destruct roots_generated as (R & Re & Rn & _).
  unfold GinBsonExtractQueryEqual, GinBsonExtractQueryNotEqual. cbn [arg_filterElement arg_termMetadata snd].
  split; destruct f; try (now elim not_null); rewrite S; cbn [res_bind]; try rewrite Re, Rn, R; reflexivity.
Qed.

Lemma extract_greater b :
  GinBsonExtractQueryGreater EnableIndexTermTruncationOnNestedObjects args b =
    Ok (entries_of ([vterm f] ++ when b [vterm f] ++ negation_keys b) [true] []) /\
  (f <> VMinKey -> GinBsonExtractQueryGreaterEqual EnableIndexTermTruncationOnNestedObjects args b =
    Ok (entries_of ([vterm f; vterm f] ++ negation_keys b) [true] [])).
Proof.
  pose proof (proj1 (written_term f wf filter_written)) as S. pose proof (negation_generated b) as N.
  unfold GinBsonExtractQueryGreater, GinBsonExtractQueryGreaterEqual. cbn [arg_filterElement arg_termMetadata snd].
  split; [|intros Nm; destruct f; try (now elim not_null); try (now elim Nm)]; rewrite S; cbn [res_bind]; rewrite N; reflexivity.
Qed.

Lemma extract_less b :
  GinBsonExtractQueryLess EnableIndexTermTruncationOnNestedObjects args b =
    Ok (entries_of ([lo] ++ when b [vterm f] ++ negation_keys b) [true] [MaxValueExtra (vterm f)]) /\
  GinBsonExtractQueryLessEqual EnableIndexTermTruncationOnNestedObjects args b =
    Ok (entries_of ([lo; vterm f] ++ negation_keys b) [true] [MaxValueExtra (vterm f)]).
Proof.
  pose proof (proj1 (written_term f wf filter_written)) as S. pose proof (negation_generated b) as N.
  pose proof (proj1 (written_term _ _ (bound_written f))) as L.
  unfold GinBsonExtractQueryLess, GinBsonExtractQueryLessEqual. cbn [arg_filterElement arg_termMetadata snd].
  split; [|destruct f; try (now elim not_null)]; rewrite S; cbn [res_bind value_type] in *; rewrite L; cbn [res_bind]; rewrite N; reflexivity.
Qed.

Lemma extract_exists e (positive : bool) :
  GenerateExistsEqualityTerms EnableIndexTermTruncationOnNestedObjects e positive indexOptions md =
    Ok (entries_of [rterm (if positive then RootExists else RootNonExists); rterm Root] []
          [ExistsExtra {| isComparePartial := false; isPositiveExists := positive |}]).
Proof.
  unfold GenerateExistsEqualityTerms. pose proof single_index as (_ & Hw & _). cbn [IsWildcardIndex]. rewrite Hw. cbn [negb].
  destruct roots_generated as (R & Re & Rn & _). destruct positive; [rewrite Re|rewrite Rn]; cbn [res_bind]; now rewrite R.
Qed.

Lemma extract_minkey : f = VMinKey ->
  GinBsonExtractQueryGreaterEqual EnableIndexTermTruncationOnNestedObjects args false =
    Ok (entries_of [rterm RootExists; rterm Root] [] [ExistsExtra {| isComparePartial := false; isPositiveExists := true |}]).
Proof. intros ->. apply (extract_exists _ true). Qed.

(** The answers that are right: an answer that is not to be rechecked is the
    operator's, and no document that matches is left out. *)
Definition right_answer (answer : res (bool * bool)) (matches : bool) : Prop :=
  exists b r, answer = Ok (b, r) /\ (matches = true -> b = true) /\ (r = false -> b = matches).

Lemma right_exact b : right_answer (Ok (b, false)) b.
Proof. exists b, false. auto. Qed.

(** Every document has one of the three root terms. *)
Lemma has_root : root_present d RootNonExists || (root_present d RootExists || root_present d Root) = true.
Proof. cbn. destruct EnableGenerateNonExistsTerm, (found d); reflexivity. Qed.

Definition comparison_spec (strategy : BsonIndexStrategy) : option bool :=
  match strategy with
  | BSON_INDEX_STRATEGY_DOLLAR_EQUAL => Some (equal f)
  | BSON_INDEX_STRATEGY_DOLLAR_GREATER => Some (above f)
  | BSON_INDEX_STRATEGY_DOLLAR_GREATER_EQUAL => Some (above f || equal f)
  | BSON_INDEX_STRATEGY_DOLLAR_LESS => Some (below f)
  | BSON_INDEX_STRATEGY_DOLLAR_LESS_EQUAL => Some (below f || equal f)
  | BSON_INDEX_STRATEGY_DOLLAR_NOT_EQUAL => Some (negb (equal f))
  | BSON_INDEX_STRATEGY_DOLLAR_NOT_GT => Some (negb (above f))
  | BSON_INDEX_STRATEGY_DOLLAR_NOT_GTE => Some (negb (above f || equal f))
  | BSON_INDEX_STRATEGY_DOLLAR_NOT_LT => Some (negb (below f))
  | BSON_INDEX_STRATEGY_DOLLAR_NOT_LTE => Some (negb (below f || equal f))
  | _ => None
  end.

Lemma null_case {A} v w (x y : A) : written v w -> v <> VNull -> match w with VNull => x | _ => y end = y.
Proof.
  intros W N. pose proof (written_type v w W) as T. destruct w; try reflexivity. destruct v; try discriminate T. now elim N.
Qed.

(** The entries that are looked up, after the first. *)
Definition lookups (keys : list bytes) : list bool := map (fun k => am_hit compare index i k None) keys.

Lemma check_bits_plain strategy keys partials extras : (forall j, nth j partials false = false) ->
  check_bits strategy (entries_of keys partials extras) = lookups keys.
Proof.
  intros P. unfold check_bits, lookups. apply nth_ext with false false; [now rewrite !length_map, length_seq|].
  rewrite length_map, length_seq. cbn [queryKeys entries_of]. intros n Hn.
  rewrite (nth_indep _ false (entry_hit strategy (entries_of keys partials extras) 0)) by now rewrite length_map, length_seq.
  rewrite map_nth, seq_nth by exact Hn. rewrite (nth_indep _ false (am_hit compare index i [] None)) by now rewrite length_map.
  rewrite (map_nth (fun k => am_hit compare index i k None)). unfold entry_hit. cbn [queryKeys partialmatch entries_of].
  now rewrite P.
Qed.

Lemma check_bits_cons strategy k keys partial0 extras :
  check_bits strategy (entries_of (k :: keys) partial0 extras) =
  am_hit compare index i k (if nth 0 partial0 false then Some (fun t => partial k t strategy (nth 0 extras NoExtra)) else None) ::
  map (entry_hit strategy (entries_of (k :: keys) partial0 extras)) (seq 1 (List.length keys)).
Proof. reflexivity. Qed.

Lemma check_bits_lookups strategy k keys partial0 extras : (List.length partial0 <= 1)%nat ->
  map (entry_hit strategy (entries_of (k :: keys) partial0 extras)) (seq 1 (List.length keys)) = lookups keys.
Proof.
  intros L. rewrite <- seq_shift, map_map. unfold lookups. apply nth_ext with false false; [now rewrite !length_map, length_seq|].
  rewrite length_map, length_seq. intros n Hn. rewrite (nth_indep _ false (entry_hit strategy (entries_of (k :: keys) partial0 extras) (S 0)))
    by now rewrite length_map, length_seq.
  rewrite (map_nth (fun x => entry_hit strategy (entries_of (k :: keys) partial0 extras) (S x))), seq_nth by exact Hn.
  rewrite (nth_indep _ false (am_hit compare index i [] None)) by now rewrite length_map.
  rewrite (map_nth (fun k0 => am_hit compare index i k0 None)). unfold entry_hit. cbn [Nat.add queryKeys partialmatch entries_of nth].
  destruct partial0 as [|p0 [|p1 l]]; [reflexivity|now destruct n|cbn in L; lia].
Qed.

Lemma negation_lookups b : lookups (negation_keys b) =
  when b [root_present d RootNonExists; root_present d RootExists; root_present d Root].
Proof. unfold lookups. destruct b; [|reflexivity]. cbn [negation_keys map]. now rewrite !lookup_root. Qed.

(** The answers when the first entry is [hit] and the rest is looked up. *)
Lemma strict_answer (b recheck hit : bool) strategy k keys partial0 extras : (List.length partial0 <= 1)%nat ->
  strategy = (if b then BSON_INDEX_STRATEGY_DOLLAR_NOT_GT else BSON_INDEX_STRATEGY_DOLLAR_GREATER) \/
  strategy = (if b then BSON_INDEX_STRATEGY_DOLLAR_NOT_LT else BSON_INDEX_STRATEGY_DOLLAR_LESS) ->
  keys = when b [vterm f] ++ negation_keys b ->
  am_hit compare index i k (if nth 0 partial0 false then Some (fun t => partial k t strategy (nth 0 extras NoExtra)) else None) = hit ->
  right_answer (index_answer strategy (entries_of (k :: keys) partial0 extras) recheck) (xorb b hit).
Proof.
  intros L Hs Hk Hh. destruct hits as (_ & _ & He & Ht & _). unfold index_answer.
  rewrite check_bits_cons, check_bits_lookups by exact L. rewrite Hh. subst keys. unfold lookups. rewrite map_app.
  fold (lookups (negation_keys b)). rewrite negation_lookups.
  assert (C : forall c, consistent c strategy (entries_of (k :: when b [vterm f] ++ negation_keys b) partial0 extras) recheck indexOptions =
    res_bind (HandleConsistentGreaterLess c (S (List.length (when b [vterm f] ++ negation_keys b))) (k :: when b [vterm f] ++ negation_keys b))
      (fun r => Ok (if b then negated r else r))).
  { intros c. destruct Hs as [->| ->], b; cbn [gin_bson_consistent GinBsonConsistentCore]; try reflexivity;
      cbn [queryKeys entries_of]; destruct (HandleConsistentGreaterLess _ _ _); reflexivity. }
  rewrite C. clear C. pose proof has_root as R. unfold HandleConsistentGreaterLess.
  destruct b; cbn [when app map nth List.length Nat.leb negation_keys]; rewrite ?Ht, ?He; cbn [res_bind existsb].
  - destruct hit, (equal f), (root_present d RootNonExists), (root_present d RootExists), (root_present d Root);
      try discriminate R; apply right_exact.
  - destruct hit; apply right_exact.
Qed.

Lemma nonstrict_answer (b recheck hit : bool) strategy k v w partial0 extras : (List.length partial0 <= 1)%nat ->
  strategy = (if b then BSON_INDEX_STRATEGY_DOLLAR_NOT_GTE else BSON_INDEX_STRATEGY_DOLLAR_GREATER_EQUAL) \/
  strategy = (if b then BSON_INDEX_STRATEGY_DOLLAR_NOT_LTE else BSON_INDEX_STRATEGY_DOLLAR_LESS_EQUAL) ->
  written v w -> v <> VNull -> k = vterm v -> match nth 0 extras NoExtra with ExistsExtra _ => False | _ => True end ->
  am_hit compare index i k (if nth 0 partial0 false then Some (fun t => partial k t strategy (nth 0 extras NoExtra)) else None) = hit ->
  right_answer (index_answer strategy (entries_of (k :: vterm f :: negation_keys b) partial0 extras) recheck) (xorb b (hit || equal f)).
Proof.
  intros L Hs W N Ek Hx Hh. destruct hits as (_ & _ & He & Ht & Hi). unfold index_answer.
  rewrite check_bits_cons, check_bits_lookups by exact L. rewrite Hh. unfold lookups. cbn [map].
  fold (lookups (negation_keys b)). rewrite negation_lookups, He.
  set (check := hit :: equal f :: when b [root_present d RootNonExists; root_present d RootExists; root_present d Root]).
  assert (G : HandleConsistentGreaterLessEquals IndexTermUseUnsafeTransform (k :: vterm f :: negation_keys b) check recheck indexOptions =
    Ok (hit || equal f, false)).
  { unfold HandleConsistentGreaterLessEquals. cbn [nth]. rewrite Ek, (Hi v w W). cbn [res_bind element value_term snd].
    rewrite (null_case v w) by assumption. rewrite (Hi f wf filter_written). cbn [res_bind isIndexTermTruncated value_term check nth].
    now rewrite andb_false_r. }
  assert (C : consistent check strategy (entries_of (k :: vterm f :: negation_keys b) partial0 extras) recheck indexOptions =
    Ok (xorb b (hit || equal f), false)).
  { destruct Hs as [->| ->], b; cbn [gin_bson_consistent GinBsonConsistentCore]; unfold HandleConsistentGreaterEquals;
      cbn [extra entries_of queryKeys];
      (destruct (nth 0 extras NoExtra); try destruct Hx); rewrite G; reflexivity. }
  rewrite C. pose proof has_root as R. unfold check. destruct b; cbn [when existsb xorb].
  - destruct hit, (equal f), (root_present d RootNonExists), (root_present d RootExists), (root_present d Root);
      try discriminate R; apply right_exact.
  - destruct hit, (equal f); apply right_exact.
Qed.

Lemma equality_answers recheck :
  right_answer (index_answer BSON_INDEX_STRATEGY_DOLLAR_EQUAL (entries_of [vterm f] [] []) recheck) (equal f) /\
  right_answer (index_answer BSON_INDEX_STRATEGY_DOLLAR_NOT_EQUAL
    (entries_of [vterm f; rterm RootExists; rterm RootNonExists; rterm Root] [] []) recheck) (negb (equal f)).
Proof.
  destruct hits as (_ & _ & He & Ht & Hi). unfold index_answer.
  rewrite !check_bits_cons, !check_bits_lookups by (cbn; lia). unfold lookups. cbn [map nth]. rewrite He, !lookup_root.
  split; cbn [gin_bson_consistent GinBsonConsistentCore]; cbn [queryKeys entries_of List.length Nat.eqb nth].
  - rewrite Ht. cbn [existsb]. destruct (equal f); apply right_exact.
  - rewrite (Hi f wf filter_written). cbn [res_bind element value_term snd isIndexTermTruncated].
    rewrite (null_case f wf) by assumption. cbn [existsb].
    pose proof has_root as R. destruct (equal f), (root_present d RootNonExists), (root_present d RootExists), (root_present d Root);
      try discriminate R; apply right_exact.
Qed.

Lemma bound_not_null : GetLowerBoundForLessThan (value_type f) <> VNull.
Proof. destruct f; discriminate. Qed.

(** The terms for existence, and for its negation. *)
Lemma exists_answer (positive recheck : bool) strategy :
  strategy = BSON_INDEX_STRATEGY_DOLLAR_EXISTS \/ strategy = BSON_INDEX_STRATEGY_DOLLAR_GREATER_EQUAL ->
  right_answer (index_answer strategy
    (entries_of [rterm (if positive then RootExists else RootNonExists); rterm Root] []
       [ExistsExtra {| isComparePartial := false; isPositiveExists := positive |}]) recheck)
    (xorb (negb positive) (found d)).
Proof.
  intros Hs. unfold index_answer. rewrite check_bits_cons, check_bits_lookups by (cbn; lia). unfold lookups. cbn [map nth].
  rewrite !lookup_root.
  assert (C : forall c, consistent c strategy (entries_of [rterm (if positive then RootExists else RootNonExists); rterm Root] []
       [ExistsExtra {| isComparePartial := false; isPositiveExists := positive |}]) recheck indexOptions =
    Ok (if nth 0 c false then (true, false) else (nth 1 c false, true)))
    by (intros c; destruct Hs as [->| ->]; reflexivity).
  rewrite C. destruct positive; cbn [root_present existsb nth]; destruct EnableGenerateNonExistsTerm, (found d); cbn;
    try apply right_exact; exists true, true; repeat split; auto; discriminate.
Qed.

Lemma minkey_spec : f = VMinKey -> above f || equal f = found d.
Proof.
  intros E. unfold above, equal, found. subst f. pose proof (values_not_eod) as Ne. destruct (values d) as [|v l]; [reflexivity|].
  cbn [existsb is_bound orb andb]. assert (order v VMinKey >= 0) by (specialize (Ne v (or_introl eq_refl)); destruct v; cbn; try lia; easy).
  destruct (Z.gtb_spec (order v VMinKey) 0), (Z.eqb_spec (order v VMinKey) 0); try lia; cbn [orb]; now rewrite ?orb_true_r.
Qed.

(** For every strategy, the answer from the index is right. *)
Lemma comparison_answers strategy m : comparison_spec strategy = Some m ->
  (strategy = BSON_INDEX_STRATEGY_DOLLAR_NOT_GTE -> f <> VMinKey) ->
  exists e, extract strategy filter indexOptions = Ok e /\ forall recheck, right_answer (index_answer strategy e recheck) m.
Proof.
  intros Hm Nm. destruct hits as (Hg & Hl & _). destruct extract_equality as [X1 X2].
  assert (D : f = VMinKey \/ f <> VMinKey) by (destruct f; (now left) || (right; discriminate)).
  destruct strategy; try discriminate Hm; injection Hm as <-; rewrite extraction by discriminate; cbn [GinBsonExtractQueryCore].
  - eexists. split; [exact X1|]. intros r. apply (equality_answers r).
  - eexists. split; [apply extract_greater|]. intros r. eapply (strict_answer false r (above f)); auto. now apply Hg.
  - destruct D as [D|D].
    + eexists. split; [now apply extract_minkey|]. intros r. rewrite minkey_spec by exact D. apply (exists_answer true). auto.
    + eexists. split; [now apply extract_greater|]. intros r. eapply (nonstrict_answer false r (above f)); eauto; [exact I|now apply Hg].
  - eexists. split; [apply extract_less|]. intros r. eapply (strict_answer false r (below f)); auto. now apply Hl.
  - eexists. split; [apply extract_less|]. intros r.
    refine (nonstrict_answer false r (below f) _ _ _ _ [true] [MaxValueExtra (vterm f)] (le_n 1) (or_intror eq_refl)
      (bound_written f) bound_not_null eq_refl I _). now apply Hl.
  - eexists. split; [exact X2|]. intros r. apply (equality_answers r).
  - eexists. split; [apply extract_greater|]. intros r. eapply (strict_answer true r (above f)); auto. now apply Hg.
  - eexists. split; [apply extract_greater; auto|]. intros r. eapply (nonstrict_answer true r (above f)); eauto; [exact I|now apply Hg].
  - eexists. split; [apply extract_less|]. intros r. eapply (strict_answer true r (below f)); auto. now apply Hl.
  - eexists. split; [apply extract_less|]. intros r.
    refine (nonstrict_answer true r (below f) _ _ _ _ [true] [MaxValueExtra (vterm f)] (le_n 1) (or_intror eq_refl)
      (bound_written f) bound_not_null eq_refl I _). now apply Hl.
Qed.
End Filter.

(** ** Null filters and existence *)

(** A path through an array has the multi-key term. *)
Lemma plain_or_multikey : plain_path segs d = false -> multikey d = true.
Proof.
  destruct segs_ok as (_ & Hn & _). unfold multikey.
  assert (G : forall rest p d', Forall name_ok rest -> path_at p rest = join_path segs -> plain_path rest d' = false ->
    existsb is_ancestor (document_events opt d' p) = true).
  { induction rest as [|s [|next rest] IH]; intros p d' Hr Ep Hp; try discriminate Hp.
    inversion_clear Hr as [|? ? Hs Hr']. set (p' := child_path p s).
    change (plain_path (s :: next :: rest) d') with
      (match lookup d' s with Some (VDocument d') => plain_path (next :: rest) d' | Some (VArray _) => false | _ => true end) in Hp.
    assert (Np : p' <> []) by (destruct Hs as [Hs _]; unfold p', child_path; destruct (_ =? 0), p; cbn; congruence).
    assert (E' : path_at p' (next :: rest) = join_path segs) by exact Ep.
    assert (O : opt p' = IndexTraverse_Recurse).
    { assert (C : opt p' <> IndexTraverse_Invalid).
      { apply (single_path_covers _ join_path_no_nul). rewrite path_at_joined in E' by exact Np. now exists (joined (next :: rest)). }
      assert (M : opt p' <> IndexTraverse_Match).
      { intros M. apply (single_path_match _ join_path_no_nul) in M. rewrite path_at_joined in E' by exact Np.
        rewrite M in E'. apply (f_equal (@List.length byte)) in E'. rewrite length_app in E'. cbn in E'. lia. }
      pose proof (single_path_never_recursive (join_path segs) p') as R. cbv beta in *.
      destruct (GetSinglePathIndexTraverseOptionCore _ _ _); easy. }
    destruct (lookup d' s) as [x|] eqn:L; [|discriminate Hp]. apply lookup_found_In in L.
    apply existsb_exists. enough (X : exists e, In e (events opt x p' false false false) /\ is_ancestor e = true)
      by (destruct X as (e & I & A); exists e; split; [apply in_flat_map; exists (s, x); auto|exact A]).
    destruct x; try discriminate Hp; cbn [events is_document negb andb]; unfold path_events; rewrite O; cbn [is_array when orb no_recurse].
    - specialize (IH p' d0 Hr' E' Hp). apply existsb_exists in IH as (e & I & A). exists e. split; [|exact A].
      cbn [is_match andb when negb app]. exact I.
    - exists AncestorEvent. split; [now left|reflexivity]. }
  intros Hp. apply (G segs [] d); auto. destruct segs as [|s rest] eqn:E; [discriminate Hp|].
  inversion_clear Hn as [|? ? Hs _]. change (path_at [] (s :: rest)) with (path_at s rest). now apply path_at_join.
Qed.

Lemma segs_path_ok : path_ok segs.
Proof.
  destruct segs_ok as (Hne & Hn & Hz). split; [exact Hne|]. split; [|exact Hz]. eapply Forall_impl; [|exact Hn]. now intros s [_ H].
Qed.

(** The values at a path without intermediate arrays. *)
Lemma plain_values : plain_path segs d = true ->
  values d = match resolve segs d with Some v => leaf_values v | None => [] end.
Proof.
  intros Hp. unfold values_at. rewrite (reach_plain _ segs d segs_path_ok Hp). destruct (resolve segs d) as [v|]; [|reflexivity].
  cbn. destruct v; try reflexivity. cbn [leaf_values]. now rewrite numbered_values.
Qed.

Definition null_keys : list bytes :=
  [vterm VNull; rterm RootNonExists; vterm VUndefined; rterm RootExists; rterm RootMultiKey; rterm Root].

Lemma null_written : written VNull VNull /\ written VUndefined VUndefined.
Proof. split; apply small_written; easy. Qed.

(** Some value at the path is null or undefined, or the path is missing. *)
Definition null_spec (m : bool) : Prop :=
  plain_path segs d = true -> m = match resolve segs d with Some _ => equal VNull | None => true end.

Lemma undefined_equal : equal VUndefined = equal VNull.
Proof.
  apply existsb_values. intros v _. pose proof (order_congr v v VUndefined VNull (order_refl v) eq_refl) as S.
  unfold same_sign in S. lia.
Qed.

Lemma null_answer m recheck : null_spec m ->
  right_answer (Ok (HandleConsistentEqualsNull (lookups null_keys) recheck indexOptions)) m /\
  existsb (fun b => b) (lookups null_keys) = true.
Proof.
  intros Hm. destruct null_written as [Wn Wu]. pose proof single_index as (_ & Hw & _).
  assert (B : lookups null_keys = [equal VNull; root_present d RootNonExists; equal VNull; root_present d RootExists;
    multikey d; root_present d Root]).
  { unfold lookups, null_keys. cbn [map]. rewrite !lookup_root, (lookup_value VNull VNull Wn), (lookup_value VUndefined VUndefined Wu).
    fold (equal VNull). fold (equal VUndefined). now rewrite undefined_equal. }
  assert (M : multikey d = false -> m = equal VNull || negb (found d)).
  { intros K. destruct (plain_path segs d) eqn:P; [|rewrite plain_or_multikey in K; easy]. rewrite (Hm P).
    unfold equal, found. rewrite plain_values by exact P. destruct (resolve segs d); [now rewrite orb_false_r|reflexivity]. }
  rewrite B. unfold HandleConsistentEqualsNull. cbn [nth IsWildcardIndex]. rewrite Hw, orb_false_r. cbn [root_present].
  destruct EnableGenerateNonExistsTerm, (found d), (equal VNull), (multikey d); cbn; split; try reflexivity;
    try (exists true, true; repeat split; discriminate); rewrite M by reflexivity; apply right_exact || exists false, recheck; auto.
Qed.

Lemma right_negated b r m : right_answer (Ok (b, r)) m -> right_answer (Ok (negated (b, r))) (negb m).
Proof.
  intros (b' & r' & E & H1 & H2). injection E as <- <-. unfold negated. destruct r.
  - exists true, true. repeat split; auto; discriminate.
  - rewrite H2 by reflexivity. apply right_exact.
Qed.

Definition null_strategy (strategy : BsonIndexStrategy) : option bool :=
  match strategy with
  | BSON_INDEX_STRATEGY_DOLLAR_EQUAL | BSON_INDEX_STRATEGY_DOLLAR_GREATER_EQUAL | BSON_INDEX_STRATEGY_DOLLAR_LESS_EQUAL => Some false
  | BSON_INDEX_STRATEGY_DOLLAR_NOT_EQUAL | BSON_INDEX_STRATEGY_DOLLAR_NOT_GTE | BSON_INDEX_STRATEGY_DOLLAR_NOT_LTE => Some true
  | _ => None
  end.

Lemma null_answers filter strategy (negation : bool) :
  read_filter EnableCollation filter = Ok ((join_path segs, VNull), None) -> null_strategy strategy = Some negation ->
  exists e, extract strategy filter indexOptions = Ok e /\
    forall m recheck, null_spec m -> right_answer (index_answer strategy e recheck) (xorb negation m).
Proof.
  intros Hf Hs. destruct null_written as [Wn Wu].
  assert (E : extract strategy filter indexOptions = Ok (entries_of null_keys [] [])).
  { rewrite (extraction filter VNull Hf) by (intros ->; discriminate Hs).
    assert (G : GenerateNullEqualityIndexTerms (ElemMatchState := ElemMatchState) EnableIndexTermTruncationOnNestedObjects
      (join_path segs, VNull) md = Ok (entries_of null_keys [] [])).
    { unfold GenerateNullEqualityIndexTerms. cbn [fst]. rewrite (proj1 (written_term _ _ Wn)), (proj1 (written_term _ _ Wu)).
      destruct roots_generated as (-> & -> & -> & ->). reflexivity. }
    destruct strategy; try discriminate Hs; exact G. }
  exists (entries_of null_keys [] []). split; [exact E|]. intros m recheck Hm.
  destruct (null_answer m recheck Hm) as [R A]. unfold index_answer.
  assert (C : check_bits strategy (entries_of null_keys [] []) = lookups null_keys)
    by (unfold null_keys; rewrite check_bits_cons, check_bits_lookups by (cbn; lia); reflexivity).
  rewrite C, A. destruct (HandleConsistentEqualsNull (lookups null_keys) recheck indexOptions) as [b r] eqn:Eh.
  assert (I : InitializeBsonIndexTerm IndexTermUseUnsafeTransform (nth 0 null_keys []) = Ok (value_term q VNull))
    by exact (term_initialize _ _ (proj2 (written_term _ _ Wn))).
  assert (D : consistent (lookups null_keys) strategy (entries_of null_keys [] []) recheck indexOptions =
    Ok (if negation then negated (b, r) else (b, r))).
  { rewrite <- Eh. destruct strategy; try discriminate Hs; injection Hs as <-; cbn [gin_bson_consistent GinBsonConsistentCore];
      unfold HandleConsistentGreaterEquals, HandleConsistentGreaterLessEquals; cbn [extra queryKeys entries_of nth List.length null_keys Nat.eqb];
      cbn [nth null_keys] in I; rewrite ?I; reflexivity. }
  rewrite D. destruct negation; [now apply right_negated|exact R].
Qed.

(** ** Arrays of values *)

Section Items.
Variables (filter : fields) (items : fields).
Hypothesis items_read : read_filter EnableCollation filter = Ok ((join_path segs, VArray items), None).
Hypothesis items_written : Forall (fun kv => exists w, written (snd kv) w) items.
Hypothesis items_plain : Forall (fun kv => is_null (snd kv) = false /\ is_regex (snd kv) = false /\ is_document (snd kv) = false) items.
Local Abbreviation args := {| arg_filterElement := (join_path segs, VArray items); arg_options := indexOptions; arg_termMetadata := md |}.
Local Abbreviation keys := (map (fun kv : bytes * bson_value => vterm (snd kv)) items).
Local Abbreviation n := (List.length items).

Definition item_data (root nonExists exists_ multiKey : nat) : DollarArrayOpQueryData :=
  {| arrayHasNull := false; arrayHasRegex := false; arrayHasElemMatch := false; arrayHasTruncation := false;
     inTermCount := n; rootTermIndex := root; rootExistsTermIndex := exists_; nonExistsTermIndex := nonExists;
     rootTruncatedTermIndex := 0; undefinedLiteralTermIndex := 0; multiKeyTermIndex := multiKey |}.

Lemma item_terms :
  array_terms (ElemMatchState := ElemMatchState) (array_term EnableIndexTermTruncationOnNestedObjects (join_path segs) md) items =
    Ok (map (fun kv => (vterm (snd kv), false, false, NoExtra)) items) /\
  forallb (fun kv => IsValidBsonDocumentForDollarInOrNinOp (snd kv)) items = true /\
  existsb (fun kv => is_null (snd kv)) items = false /\ existsb (fun kv => is_regex (snd kv)) items = false.
Proof.
  clear items_read. revert items_plain. pose proof items_written as H. clear items_written.
  induction H as [|[k v] l (w & W) _ IH]; intros P; [easy|].
  inversion_clear P as [|? ? (Hn & Hr & Hd) P']. destruct (IH P') as (E1 & E2 & E3 & E4). cbn [snd] in *.
  cbn [array_terms forallb existsb snd map]. rewrite E1, E2, E3, E4, Hn, Hr.
  unfold array_term. replace (ProcessExtractQueryForRegex v) with (@Ok (bson_value * bool * option RegexData) (v, false, None))
    by (destruct v; reflexivity || discriminate Hr).
  cbn [res_bind]. rewrite (proj1 (written_term v w W)). cbn [res_bind indexTermVal serialized_truncated].
  split; [reflexivity|]. split; [|easy]. destruct v; try reflexivity; discriminate Hd.
Qed.

Lemma item_projections (A : Type) (g : bytes * bool * bool * extra_data (ElemMatchState := ElemMatchState) -> A) :
  map g (map (fun kv : bytes * bson_value => (vterm (snd kv), false, false, NoExtra)) items) =
  map (fun kv : bytes * bson_value => g (vterm (snd kv), false, false, NoExtra)) items.
Proof. apply map_map. Qed.

Lemma no_truncation :
  existsb (term_truncated (ElemMatchState := ElemMatchState)) (map (fun kv => (vterm (snd kv), false, false, NoExtra)) items) = false /\
  last (map (term_truncated (ElemMatchState := ElemMatchState)) (map (fun kv => (vterm (snd kv), false, false, NoExtra)) items)) false = false.
Proof.
  rewrite item_projections. cbn [term_truncated]. clear. induction items as [|kv l [IH1 IH2]]; [easy|].
  split; [exact IH1|]. cbn [map last]. destruct l; [reflexivity|exact IH2].
Qed.

Definition item_extra (more : nat) (data : DollarArrayOpQueryData) : list (extra_data (ElemMatchState := ElemMatchState)) :=
  map (fun _ => NoExtra) items ++ repeat NoExtra more ++ [ArrayOpExtra data].

Lemma extract_in : GinBsonExtractQueryIn EnableIndexTermTruncationOnNestedObjects args =
  Ok (entries_of keys (map (fun _ => false) items) (item_extra 0 (item_data 0 0 0 0))).
Proof.
  destruct item_terms as (T & V & Nn & Nr). destruct no_truncation as [Tr _].
  unfold GinBsonExtractQueryIn. cbn [arg_filterElement arg_termMetadata]. rewrite V, Nn, Nr, T. cbn [negb res_bind].
  rewrite Tr. cbn [arrayHasRegex arrayHasTruncation orb add_truncated res_bind]. rewrite app_nil_r, !item_projections, length_map.
  cbn [term_bytes term_partial]. unfold array_extra. rewrite !length_map, Nat.sub_diag, item_projections. reflexivity.
Qed.

Lemma extract_nin : GinBsonExtractQueryNotIn EnableIndexTermTruncationOnNestedObjects args =
  Ok (entries_of (keys ++ [rterm Root; rterm RootNonExists; rterm RootExists; rterm RootMultiKey]) (map (fun _ => false) items)
        (item_extra 4 (item_data n (n + 1) (n + 2) (n + 3)))).
Proof.
  destruct item_terms as (T & V & Nn & Nr). destruct no_truncation as [_ Tr].
  unfold GinBsonExtractQueryNotIn. cbn [arg_filterElement arg_termMetadata]. rewrite V, Nn, Nr, T. cbn [negb res_bind].
  destruct roots_generated as (-> & -> & -> & ->). cbn [res_bind]. rewrite Tr. cbn [add_truncated arrayHasTruncation res_bind].
  rewrite app_nil_r, !item_projections, length_map. cbn [term_bytes term_partial]. unfold array_extra, item_extra.
  rewrite !length_app, !length_map, item_projections. cbn [term_extra List.length].
  now replace (n + 4 - n)%nat with 4%nat by lia.
Qed.

(** Some value of the document is equal to some item. *)
Definition some_item : bool := existsb (fun v => member v (map snd items)) (values d).

Lemma existsb_exchange {A B} (p : A -> B -> bool) (l : list A) (l' : list B) :
  existsb (fun a => existsb (p a) l') l = existsb (fun b => existsb (fun a => p a b) l) l'.
Proof.
  apply eq_true_iff_eq. rewrite !existsb_exists. split; intros (x & Ix & H); apply existsb_exists in H as (y & Iy & H);
    exists y; (split; [exact Iy|apply existsb_exists; eauto]).
Qed.

Lemma item_lookups : existsb (fun b => b) (lookups keys) = some_item.
Proof.
  unfold some_item, member. rewrite existsb_exchange. unfold lookups. rewrite map_map. clear items_read items_plain.
  pose proof items_written as H. clear items_written. induction H as [|[k v] l (w & W) _ IH]; [reflexivity|]. cbn [map existsb snd]. rewrite IH. f_equal.
  exact (lookup_value v w W).
Qed.

Lemma item_extra_nth more data m : m = (n + more)%nat -> nth m (item_extra more data) NoExtra = ArrayOpExtra data.
Proof.
  intros ->. unfold item_extra. rewrite app_nth2; rewrite length_map; [|lia]. rewrite app_nth2; rewrite repeat_length; [|lia].
  now replace (n + more - n - more)%nat with 0%nat by lia.
Qed.

Lemma no_partials j : nth j (map (fun _ : bytes * bson_value => false) items) false = false.
Proof. clear. revert j; induction items as [|kv l IH]; intros [|j]; cbn; auto. Qed.

Lemma in_answer recheck :
  right_answer (index_answer BSON_INDEX_STRATEGY_DOLLAR_IN
    (entries_of keys (map (fun _ => false) items) (item_extra 0 (item_data 0 0 0 0))) recheck) some_item.
Proof.
  unfold index_answer. rewrite check_bits_plain by exact no_partials. rewrite item_lookups.
  destruct some_item eqn:S; [|apply right_exact]. cbn [gin_bson_consistent GinBsonConsistentCore]. cbn [queryKeys extra entries_of].
  rewrite item_extra_nth by (rewrite length_map; lia). unfold consistent_in.
  cbn [arrayHasNull arrayHasRegex arrayHasTruncation item_data inTermCount negb andb].
  destruct (EnableRumInOperatorFastPath && _ && _ && _ && _); [apply right_exact|].
  rewrite firstn_all2 by (unfold lookups; rewrite !length_map; lia). rewrite item_lookups, S. apply right_exact.
Qed.

Lemma first_match_lookups l rest : Forall (fun kv : bytes * bson_value => exists w, written (snd kv) w) l ->
  let ks := map (fun kv : bytes * bson_value => vterm (snd kv)) l in
  match first_match (lookups (ks ++ rest)) (ks ++ rest) (List.length l) with
  | Some k => existsb (fun b => b) (lookups ks) = true /\ IsSerializedIndexTermTruncated k = Ok false
  | None => existsb (fun b => b) (lookups ks) = false
  end.
Proof.
  intros H. induction H as [|[k v] l (w & W) _ IH]; [unfold lookups; destruct rest; reflexivity|].
  cbn [map app List.length lookups first_match snd existsb]. destruct (am_hit _ _ _ _ _).
  - split; [reflexivity|]. exact (written_untruncated v w W).
  - fold (lookups (map (fun kv : bytes * bson_value => vterm (snd kv)) l ++ rest)). exact IH.
Qed.

Lemma nin_answer recheck :
  right_answer (index_answer BSON_INDEX_STRATEGY_DOLLAR_NOT_IN
    (entries_of (keys ++ [rterm Root; rterm RootNonExists; rterm RootExists; rterm RootMultiKey]) (map (fun _ => false) items)
        (item_extra 4 (item_data n (n + 1) (n + 2) (n + 3)))) recheck) (negb some_item).
Proof.
  set (roots := [rterm Root; rterm RootNonExists; rterm RootExists; rterm RootMultiKey]).
  unfold index_answer. rewrite check_bits_plain by exact no_partials.
  pose proof (first_match_lookups items roots items_written) as F. cbv zeta in F.
  assert (Lk : lookups (keys ++ roots) = lookups keys ++ [root_present d Root; root_present d RootNonExists; root_present d RootExists; multikey d])
    by (unfold lookups, roots; rewrite map_app; cbn [map]; now rewrite !lookup_root).
  assert (Len : List.length (lookups keys) = n) by (unfold lookups; now rewrite !length_map).
  assert (At : forall j x l, nth (n + j) (lookups keys ++ l) x = nth j l x)
    by (intros j x l; rewrite <- Len, app_nth2_plus; reflexivity).
  pose proof (At 0%nat) as A0. rewrite Nat.add_0_r in A0. pose proof has_root as R.
  assert (B : existsb (fun b => b) (lookups (keys ++ roots)) = true).
  { rewrite Lk, existsb_app. cbn [existsb]. destruct (root_present d Root), (root_present d RootNonExists), (root_present d RootExists);
      try discriminate R; cbn [orb]; now rewrite ?orb_true_r. }
  rewrite B. cbn [gin_bson_consistent GinBsonConsistentCore]. cbn [queryKeys extra entries_of].
  rewrite item_extra_nth by (rewrite length_app, length_map; reflexivity). unfold consistent_not_in.
  cbn [rootTermIndex nonExistsTermIndex rootExistsTermIndex inTermCount arrayHasNull arrayHasRegex arrayHasTruncation
    rootTruncatedTermIndex item_data andb].
  rewrite Lk in F |- *. rewrite A0, !At. cbn [nth]. rewrite item_lookups in F.
  assert (T : root_present d Root || root_present d RootNonExists || root_present d RootExists = true)
    by (destruct (root_present d Root), (root_present d RootNonExists), (root_present d RootExists); easy).
  destruct (first_match _ _ _) as [k|].
  - destruct F as [-> ->]. cbn [res_bind andb negb]. apply right_exact.
  - rewrite F, T. cbn [res_bind andb negb]. apply right_exact.
Qed.
End Items.

(** ** The operators evaluated on the document *)

Local Abbreviation query := (CompareBsonAgainstQuery EnableCollation UseLegacyNullEqualityBehavior SkipBsonArrayTraverseOptimization).

Lemma values_checked : Forall (fun v => value_ok v /\ v <> VEod) (values d).
Proof.
  destruct terms_at_i as ((_ & Hd & _) & _). pose proof (values_at_ok SkipBsonArrayTraverseOptimization segs d Hd) as V.
  rewrite Forall_forall in V |- *. intros v I. split; [auto|now apply values_not_eod].
Qed.

Lemma split_inclusive f : value_ok f -> f <> VNull ->
  existsb (fun v => (is_bound f || comparable v f) && (order v f >=? 0)) (values d) = above f || equal f /\
  existsb (fun v => (is_bound f || comparable v f) && (order v f <=? 0)) (values d) = below f || equal f.
Proof.
  intros Hf Nf. assert (D : forall p p' : bson_value -> bool, existsb p (values d) || existsb p' (values d) =
    existsb (fun v => p v || p' v) (values d)).
  { intros p p'. induction (values d) as [|v l IH]; [reflexivity|]. cbn. rewrite <- IH. destruct (p v), (p' v), (existsb p l); reflexivity. }
  unfold above, below, equal. rewrite !D.
  split; apply existsb_values; intros v I; pose proof (equal_comparable v f) as K;
    destruct (Z.eqb_spec (order v f) 0) as [E|E].
  1,3: rewrite K by exact E; rewrite !orb_true_r; cbn [andb]; rewrite E; reflexivity.
  all: rewrite orb_false_r; f_equal; lia.
Qed.

Lemma null_runtime filter m compareFunc : read_filter EnableCollation filter = Ok ((join_path segs, VNull), None) ->
  compareFunc = CompareEqualMatch \/ compareFunc = CompareGreaterEqualMatch \/ compareFunc = CompareLessEqualMatch ->
  query d filter compareFunc (Some IsQueryFilterNullForValue) = Ok m -> null_spec m.
Proof.
  intros Hf Hc Hm Hp. rewrite (query_null _ _ _ _ _ _ _ segs VNull None segs_path_ok Hf) in Hm by (reflexivity || exact Hp).
  pose proof values_checked as V. unfold equal. rewrite plain_values in * by exact Hp.
  destruct (resolve segs d) as [v|]; [|now injection Hm as <-].
  rewrite (any_match_Ok _ (fun u => order u VNull =? 0)) in Hm; [now injection Hm as <-|].
  eapply Forall_impl; [|exact V]. intros u [Hu Nu]. destruct (comparison_order None VNull u no_collation I Hu Nu) as (C1 & _ & C2 & _ & C3).
  assert (O : comparable u VNull = true -> order u VNull = 0)
    by (intros C; unfold comparable in C; destruct u; discriminate C || reflexivity).
  assert (Q : forall b, (order u VNull = 0 -> b = true) -> comparable u VNull && b = (order u VNull =? 0)).
  { intros b Hb. destruct (comparable u VNull) eqn:C; [rewrite Hb by auto; now rewrite O|]. cbn [andb].
    destruct (Z.eqb_spec (order u VNull) 0) as [E|]; [|reflexivity]. now rewrite (equal_comparable u VNull E) in C. }
  destruct Hc as [->|[->| ->]]; [exact C1|rewrite C2|rewrite C3]; cbn [is_bound orb]; rewrite Q; try reflexivity; intros ->; reflexivity.
Qed.

(** The operator that a strategy stands for. *)
Definition operator_of (strategy : BsonIndexStrategy) : option (fields -> fields -> res bool) :=
  let settings (op : bool -> bool -> bool -> fields -> fields -> res bool) :=
    Some (op EnableCollation UseLegacyNullEqualityBehavior SkipBsonArrayTraverseOptimization) in
  match strategy with
  | BSON_INDEX_STRATEGY_DOLLAR_EQUAL => settings bson_dollar_eq
  | BSON_INDEX_STRATEGY_DOLLAR_GREATER => settings bson_dollar_gt
  | BSON_INDEX_STRATEGY_DOLLAR_GREATER_EQUAL => settings bson_dollar_gte
  | BSON_INDEX_STRATEGY_DOLLAR_LESS => settings bson_dollar_lt
  | BSON_INDEX_STRATEGY_DOLLAR_LESS_EQUAL => settings bson_dollar_lte
  | BSON_INDEX_STRATEGY_DOLLAR_NOT_EQUAL => settings bson_dollar_ne
  | BSON_INDEX_STRATEGY_DOLLAR_NOT_GT => settings bson_dollar_not_gt
  | BSON_INDEX_STRATEGY_DOLLAR_NOT_GTE => settings bson_dollar_not_gte
  | BSON_INDEX_STRATEGY_DOLLAR_NOT_LT => settings bson_dollar_not_lt
  | BSON_INDEX_STRATEGY_DOLLAR_NOT_LTE => settings bson_dollar_not_lte
  | _ => None
  end.

Lemma runtime_spec filter f strategy op : read_filter EnableCollation filter = Ok ((join_path segs, f), None) ->
  value_ok f -> f <> VNull -> operator_of strategy = Some op ->
  exists m, comparison_spec f strategy = Some m /\ op d filter = Ok m.
Proof.
  intros Hf Vf Nf Ho. destruct terms_at_i as ((_ & Hd & _) & _). destruct (split_inclusive f Vf Nf) as [Sg Sl].
  destruct (dollar_comparisons_answer EnableCollation UseLegacyNullEqualityBehavior SkipBsonArrayTraverseOptimization d filter segs f None
    segs_path_ok Hf Nf Vf Hd no_collation) as (E1 & E2 & E3 & E4 & E5); [intros I; now apply values_not_eod in I|].
  rewrite Sg in E3. rewrite Sl in E5. fold (equal f) in E1. fold (above f) in E2. fold (below f) in E4.
  destruct strategy; try discriminate Ho; injection Ho as <-; eexists; (split; [reflexivity|]); try assumption;
    unfold bson_dollar_ne, bson_dollar_not_gt, bson_dollar_not_gte, bson_dollar_not_lt, bson_dollar_not_lte, not_matched;
    unfold bson_dollar_eq, bson_dollar_gt, bson_dollar_gte, bson_dollar_lt, bson_dollar_lte in *;
    [rewrite E1|rewrite E2|rewrite E3|rewrite E4|rewrite E5]; reflexivity.
Qed.
End Documents.

(** ** The index answers queries *)

Context {RE : Pcre2} {EE : ExprEngine} {ElemMatchState : Type}.
Variables EnableRumInOperatorFastPath EnableNewCompositeIndexOpclass : bool.
Variable uninitialized_type : Z.
Variable ExtractQueryElemMatch : BsonExtractQueryArgs -> res (extracted (ElemMatchState := ElemMatchState)).
Variable ComparePartialElemMatch : BsonIndexTerm -> BsonIndexTerm -> ElemMatchState -> res Z.
Variable ElemMatchConsistent : list bool -> list (extra_data (ElemMatchState := ElemMatchState)) -> nat -> res bool.
Local Abbreviation extract := (gin_bson_extract_query EnableIndexTermTruncationOnNestedObjects uninitialized_type
  ExtractQueryElemMatch EnableCollation EnableNewCompositeIndexOpclass).
Local Abbreviation answer := (fun index i => index_answer index i EnableRumInOperatorFastPath ComparePartialElemMatch ElemMatchConsistent).

(** C8: A non-wildcard index on one path, without terms for missing paths and with a
    size limit of at least 64 bytes or none, on well-formed documents whose field names are
    unique, not empty and without dots and whose terms are written whole (not truncated, not
    compressed, of a type that the configured parser reads back, equal in the order to the
    value), without collation: the terms of the documents and of a query by [$eq], [$gt],
    [$gte], [$lt], [$lte] or one of their negations are built, the operator evaluates on the
    document, and through any access method that keeps its contract the answer of the index
    is the operator's unless it is to be rechecked, and then no matching document is left
    out. The filter is well-formed, its term is written whole too, and it is not null, nor
    the minimum key for the negation of [$gte]. *)
Theorem index_answers_comparisons (docs : list fields) (i : nat) (d : fields) (filter : fields) (f wf : bson_value)
  (strategy : BsonIndexStrategy) (op : fields -> fields -> res bool) :
  Forall indexable docs -> nth_error docs i = Some d ->
  read_filter EnableCollation filter = Ok ((join_path segs, f), None) -> written f wf -> value_ok f -> f <> VNull ->
  operator_of strategy = Some op -> (strategy = BSON_INDEX_STRATEGY_DOLLAR_NOT_GTE -> f <> VMinKey) ->
  exists index e m, index_documents docs = Ok index /\
    extract strategy filter (IndexOptionsType_SinglePath options) = Ok e /\ op d filter = Ok m /\
    forall recheck, right_answer (answer index i strategy e recheck) m.
Proof.
  intros Hd Hi Hf W Vf Nf Ho Nm. destruct (index_built docs Hd) as (index & Ei & Ht).
  destruct (runtime_spec docs index Hd Ht i d Hi filter f strategy op Hf Vf Nf Ho) as (m & Hm & Em).
  destruct (comparison_answers docs index Hd Ht i d Hi EnableRumInOperatorFastPath EnableNewCompositeIndexOpclass
    uninitialized_type ExtractQueryElemMatch ComparePartialElemMatch ElemMatchConsistent filter f wf Hf W Nf strategy m Hm Nm)
    as (e & Ee & H).
  exists index, e, m. auto.
Qed.

(** C22: A non-wildcard index on one path as for the comparisons, on well-formed
    documents with unique, non-empty field names without dots and terms that are written
    whole (not truncated, not compressed, of a type that the configured parser reads back),
    without collation, and a null filter: for [$eq], [$gte], [$lte] and their negations,
    when the operator evaluates on the document, the answer of the index is the operator's
    unless it is to be rechecked, and then no matching document is left out; missing paths
    and arrays on the way included. *)
Theorem index_answers_null (docs : list fields) (i : nat) (d : fields) (filter : fields)
  (strategy : BsonIndexStrategy) (op : fields -> fields -> res bool) (m : bool) :
  Forall indexable docs -> nth_error docs i = Some d ->
  read_filter EnableCollation filter = Ok ((join_path segs, VNull), None) ->
  null_strategy strategy <> None -> operator_of strategy = Some op -> op d filter = Ok m ->
  exists index e, index_documents docs = Ok index /\
    extract strategy filter (IndexOptionsType_SinglePath options) = Ok e /\
    forall recheck, right_answer (answer index i strategy e recheck) m.
Proof.
  intros Hd Hi Hf Hn Ho Em. destruct (index_built docs Hd) as (index & Ei & Ht). destruct (null_strategy strategy) as [b|] eqn:Hb; [|easy].
  destruct (null_answers docs index Hd Ht i d Hi EnableRumInOperatorFastPath EnableNewCompositeIndexOpclass
    uninitialized_type ExtractQueryElemMatch ComparePartialElemMatch ElemMatchConsistent filter strategy b Hf Hb) as (e & Ee & H).
  exists index, e. split; [exact Ei|]. split; [exact Ee|]. intros recheck.
  enough (S : null_spec d (xorb b m)) by (specialize (H _ recheck S); now rewrite <- xorb_assoc, xorb_nilpotent, xorb_false_l in H).
  pose proof (null_runtime docs index Hd Ht i d Hi filter) as R.
  destruct strategy; try discriminate Hb; injection Hb as <-; injection Ho as <-;
    try (rewrite xorb_false_l; eapply R; [exact Hf| |exact Em]; tauto); unfold bson_dollar_ne, bson_dollar_not_gte, bson_dollar_not_lte, not_matched in Em;
    (destruct (CompareBsonAgainstQuery _ _ _ _ _ _ _) as [m'|] eqn:Q; [|discriminate Em]); cbn [res_bind] in Em; injection Em as <-;
    rewrite xorb_true_l, negb_involutive; (eapply R; [exact Hf| |exact Q]; tauto).
Qed.

(** C23: A non-wildcard index on one path as for the comparisons, on well-formed
    documents with unique, non-empty field names without dots and terms that are written
    whole (not truncated, not compressed, of a type that the configured parser reads back),
    and [$in] or [$nin] with an array of entries that are well-formed, no null, regular
    expression, document, array or code with scope, and have terms that are written whole;
    doubles and decimals among the entries and on the path are such that hashing agrees with
    comparison (no NaN, integral doubles only when the code recognizes them as integers,
    decimals only when they are 64-bit integers); no collation: the answer of the index is
    that of the operator, which goes by its hash set, unless it is to be rechecked, and then
    no matching document is left out. *)
Theorem index_answers_in {PG : PgHash} {VM : ValueMemory} {IC : IcuSortKey} (docs : list fields) (i : nat) (d : fields)
  (filter items : fields) :
  Forall indexable docs -> nth_error docs i = Some d ->
  read_filter EnableCollation filter = Ok ((join_path segs, VArray items), None) ->
  Forall (fun kv => set_entry (snd kv) /\ exists w, written (snd kv) w) items -> Forall number_safe (values d) ->
  exists index e e' m, index_documents docs = Ok index /\
    extract BSON_INDEX_STRATEGY_DOLLAR_IN filter (IndexOptionsType_SinglePath options) = Ok e /\
    extract BSON_INDEX_STRATEGY_DOLLAR_NOT_IN filter (IndexOptionsType_SinglePath options) = Ok e' /\
    bson_dollar_in EnableCollation SkipBsonArrayTraverseOptimization d filter = Ok m /\
    bson_dollar_nin EnableCollation SkipBsonArrayTraverseOptimization d filter = Ok (negb m) /\
    forall recheck, right_answer (answer index i BSON_INDEX_STRATEGY_DOLLAR_IN e recheck) m /\
      right_answer (answer index i BSON_INDEX_STRATEGY_DOLLAR_NOT_IN e' recheck) (negb m).
Proof.
  intros Hd Hi Hf Hw Hs. destruct (index_built docs Hd) as (index & Ei & Ht).
  assert (W : Forall (fun kv => exists w, written (snd kv) w) items) by (eapply Forall_impl; [|exact Hw]; intros kv [H1 H2]; assumption).
  assert (S : Forall (fun kv => set_entry (snd kv)) items) by (eapply Forall_impl; [|exact Hw]; intros kv [H1 H2]; assumption).
  assert (P : Forall (fun kv => is_null (snd kv) = false /\ is_regex (snd kv) = false /\ is_document (snd kv) = false) items).
  { eapply Forall_impl; [|exact S]. intros [k v] (_ & _ & T). cbn [snd] in *. destruct v; easy. }
  assert (Dk : doc_ok d) by (rewrite Forall_forall in Hd; apply (Hd d (nth_error_In _ _ Hi))).
  destruct (dollar_in_nin EnableCollation SkipBsonArrayTraverseOptimization d filter segs items segs_path_ok Hf S Dk Hs) as [E1 E2].
  exists index. eexists. eexists. eexists. split; [exact Ei|].
  split; [rewrite (extraction _ _ _ filter (VArray items) Hf) by discriminate; exact (extract_in items W P)|].
  split; [rewrite (extraction _ _ _ filter (VArray items) Hf) by discriminate; exact (extract_nin items W P)|].
  split; [exact E1|]. split; [exact E2|]. intros recheck.
  split; [now apply (in_answer docs index Hd Ht i d Hi)|now apply (nin_answer docs index Hd Ht i d Hi)].
Qed.

(** [$exists] and its negation are answered the same way. *)
Theorem index_answers_exists (docs : list fields) (i : nat) (d : fields) (filter : fields) (f : bson_value) (positive : bool) :
  Forall indexable docs -> nth_error docs i = Some d ->
  read_filter EnableCollation filter = Ok ((join_path segs, f), None) ->
  BsonIterToSinglePgbsonElement EnableCollation filter = Ok (join_path segs, f) ->
  IsExistPositiveMatch EnableCollation filter = Ok positive ->
  exists index e m, index_documents docs = Ok index /\
    extract BSON_INDEX_STRATEGY_DOLLAR_EXISTS filter (IndexOptionsType_SinglePath options) = Ok e /\
    bson_dollar_exists EnableCollation UseLegacyNullEqualityBehavior SkipBsonArrayTraverseOptimization d filter = Ok m /\
    forall recheck, right_answer (answer index i BSON_INDEX_STRATEGY_DOLLAR_EXISTS e recheck) m.
Proof.
  intros Hd Hi Hf Hr Hp. destruct (index_built docs Hd) as (index & Ei & Ht).
  exists index. eexists. exists (xorb (negb positive) (found d)). split; [exact Ei|]. split; [|split].
  - rewrite (extraction EnableNewCompositeIndexOpclass uninitialized_type ExtractQueryElemMatch filter f Hf) by discriminate.
    cbn [GinBsonExtractQueryCore]. unfold GinBsonExtractQueryExists. cbn [arg_filterElement snd arg_options arg_termMetadata].
    unfold IsExistPositiveMatch in Hp. rewrite Hr in Hp. cbn [res_bind] in Hp. rewrite Hp. cbn [res_bind]. apply extract_exists.
  - unfold bson_dollar_exists. rewrite Hp. cbn [res_bind].
    rewrite (query_any _ _ _ d filter CompareExistsMatch None segs f None (segs_path_ok) Hf eq_refl).
    rewrite (any_match_Ok _ (fun _ => true)) by (apply Forall_forall; reflexivity). cbn [res_bind].
    unfold found. destruct (values d), positive; reflexivity.
  - intros recheck. apply (exists_answer docs index Hd Ht i d Hi). now left.
Qed.
End Index.
