(* ===== verification/UpdateOperators.v ===== *)
(** * The update operators ([update/bson_update_operators.c])

    Each operator is given the value of a field, [VEod] when the field is missing, and
    writes the new value, if any, to an [UpdateOperatorWriter]
    ([update/bson_update_operators_workflow.c]), which records whether the field is
    modified.  The hooks that notify change streams are not installed by the
    extension and are left out.  [$currentDate] is given the reading of the clock. *)

From Stdlib Require Import ZArith Lia Bool String List SpecFloat.
From Stdlib Require Import Strings.Byte.
From S2P Require Import Prelude SoftFloat BsonTypes StringView Decimal128 BsonCompare BsonOrder RefBid BsonRefine.
From S2P Require Import BsonArith Traversal PgbsonElement DollarOperators BsonWriter SortUtils ExprEval.
Import ListNotations.
Local Open Scope Z_scope.

(** ** The operator writer *)

Record UpdateArrayWriter : Set := {
  arrayWriter : pgbson_array_writer;
  isValid : bool;
  array_modified : bool
}.

Record UpdateOperatorWriter : Set := {
  writer : pgbson_element_writer;
  modified : bool;
  updateArrayWriter : UpdateArrayWriter
}.

Section Writer.
Context {LD : LibBsonDoc}.
Local Open Scope res_scope.

Definition UpdateWriterWriteModifiedValue (w : UpdateOperatorWriter) (value : bson_value) : res UpdateOperatorWriter :=
  let* ew := PgbsonElementWriterWriteValue (writer w) value in
  Ok {| writer := ew; modified := true; updateArrayWriter := updateArrayWriter w |}.

Definition UpdateWriterSkipValue (w : UpdateOperatorWriter) : UpdateOperatorWriter :=
  {| writer := writer w; modified := true; updateArrayWriter := updateArrayWriter w |}.

(** The array writer, opened when it is not yet. *)
Definition UpdateWriterGetArrayWriter (w : UpdateOperatorWriter) : UpdateArrayWriter :=
  if negb (isValid (updateArrayWriter w)) then
    {| arrayWriter := PgbsonElementWriterStartArray (writer w); isValid := true; array_modified := false |}
  else updateArrayWriter w.

Definition UpdateArrayWriterWriteOriginalValue (aw : UpdateArrayWriter) (value : bson_value) : res UpdateArrayWriter :=
  let* a := PgbsonArrayWriterWriteValue (arrayWriter aw) value in
  Ok {| arrayWriter := a; isValid := isValid aw; array_modified := array_modified aw |}.

Definition UpdateArrayWriterWriteModifiedValue (aw : UpdateArrayWriter) (value : bson_value) : res UpdateArrayWriter :=
  let* a := PgbsonArrayWriterWriteValue (arrayWriter aw) value in
  Ok {| arrayWriter := a; isValid := isValid aw; array_modified := true |}.

Definition UpdateArrayWriterSkipValue (aw : UpdateArrayWriter) : UpdateArrayWriter :=
  {| arrayWriter := arrayWriter aw; isValid := isValid aw; array_modified := true |}.

Definition UpdateArrayWriterFinalize (w : UpdateOperatorWriter) (aw : UpdateArrayWriter) : UpdateOperatorWriter :=
  {| writer := PgbsonElementWriterEndArray (writer w) (arrayWriter aw);
     modified := modified w || array_modified aw;
     updateArrayWriter :=
       {| arrayWriter := arrayWriter aw; isValid := false; array_modified := array_modified aw |} |}.
End Writer.

(** ** States *)

Record CurrentDocumentState : Set := {
  documentId : bson_value;
  isUpsert : bool;
  sourceDocument : fields;
  indexOfPositionalTypeQueryFilter : Z
}.

Record UpdateSetValueState : Set := {
  fieldPath : bytes;
  relativePath : bytes;
  isArray : bool;
  hasArrayAncestors : bool
}.

Inductive MongoBitwiseOperatorType : Set :=
| BITWISE_OPERATOR_AND | BITWISE_OPERATOR_OR | BITWISE_OPERATOR_XOR | BITWISE_OPERATOR_UNKNOWN.

Record DollarPushUpdateState : Set := {
  dollarEachArray : bson_value;
  dollarEachElementCount : Z;
  position : Z;
  slice : Z;
  sortContext : SortContext;
  modifiersExist : bool
}.

Section Operators.
Context {BL : BidLib} {LB : LibBson} {UV : UnionView} {LD : LibBsonDoc} {EE : ExprEngine} {PS : PgSort}.
Variable SkipBsonArrayTraverseOptimization : bool.
Local Open Scope res_scope.

(** The context of a node: nothing, the state of [$pull] or the source of [$rename]. *)
Inductive UpdateNodeContext : Set :=
| NoContext
| BsonUpdateDollarPullState (evalState : ExprEvalState) (isValue : bool)
| RenameSourcePath (sourcePathString : bytes).

Definition WriteUpdatedValuesFunc : Set :=
  bson_value -> UpdateOperatorWriter -> bson_value -> UpdateNodeContext -> UpdateSetValueState ->
  CurrentDocumentState -> res UpdateOperatorWriter.

(** ** Single values *)

Definition HandleUpdateDollarSet : WriteUpdatedValuesFunc := fun existingValue w updateValue _ _ state =>
  if negb (isUpsert state) then
    let* same := BsonValueEqualsStrict (Some updateValue) (Some existingValue) in
    if same : bool then Ok w else UpdateWriterWriteModifiedValue w updateValue
  else UpdateWriterWriteModifiedValue w updateValue.

Definition HandleUpdateDollarSetOnInsert : WriteUpdatedValuesFunc := fun _ w updateValue _ _ state =>
  if isUpsert state then UpdateWriterWriteModifiedValue w updateValue else Ok w.

Definition HandleUpdateDollarUnset : WriteUpdatedValuesFunc := fun existingValue w _ _ setValueState _ =>
  if isArray setValueState then UpdateWriterWriteModifiedValue w VNull
  else if negb (type_eqb (value_type existingValue) BSON_TYPE_EOD) then Ok (UpdateWriterSkipValue w)
  else Ok w.

Definition HandleUpdateDollarInc : WriteUpdatedValuesFunc := fun existingValue w updateValue _ _ _ =>
  if negb (BsonTypeIsNumber (value_type updateValue)) then Err ERRCODE_DOCUMENTDB_TYPEMISMATCH
  else if negb (BsonValueIsNumberOrBool updateValue) then Err ERRCODE_DOCUMENTDB_TYPEMISMATCH
  else if type_eqb (value_type existingValue) BSON_TYPE_EOD then UpdateWriterWriteModifiedValue w updateValue
  else
    let* sum := AddNumberToBsonValue existingValue updateValue false in
    if negb (returned sum) then Err ERRCODE_DOCUMENTDB_TYPEMISMATCH
    else
      let* w := UpdateWriterWriteModifiedValue w (updated sum) in
      if overflow sum then Err ERRCODE_DOCUMENTDB_BADVALUE else Ok w.

Definition HandleUpdateDollarMin : WriteUpdatedValuesFunc := fun existingValue w updateValue _ _ _ =>
  if type_eqb (value_type existingValue) BSON_TYPE_EOD then UpdateWriterWriteModifiedValue w updateValue
  else
    let* '(cmp, isComparisonValid) := CompareBsonValueAndType updateValue existingValue in
    if (cmp <? 0) && isComparisonValid then UpdateWriterWriteModifiedValue w updateValue else Ok w.

Definition HandleUpdateDollarMax : WriteUpdatedValuesFunc := fun existingValue w updateValue _ _ _ =>
  if type_eqb (value_type existingValue) BSON_TYPE_EOD then UpdateWriterWriteModifiedValue w updateValue
  else
    let* '(cmp, isComparisonValid) := CompareBsonValueAndType updateValue existingValue in
    if (cmp >? 0) && isComparisonValid then UpdateWriterWriteModifiedValue w updateValue else Ok w.

Definition GetMongoBitwiseOperator (k : bytes) : MongoBitwiseOperatorType :=
  if strcmp k (str "and") =? 0 then BITWISE_OPERATOR_AND
  else if strcmp k (str "or") =? 0 then BITWISE_OPERATOR_OR
  else if strcmp k (str "xor") =? 0 then BITWISE_OPERATOR_XOR
  else BITWISE_OPERATOR_UNKNOWN.

Definition is_int_type (v : bson_value) : bool :=
  type_eqb (value_type v) BSON_TYPE_INT32 || type_eqb (value_type v) BSON_TYPE_INT64.

Definition ValidateBitwiseInputParams (operatorType : MongoBitwiseOperatorType) (state modifier : bson_value) : res unit :=
  match operatorType with
  | BITWISE_OPERATOR_UNKNOWN => Err ERRCODE_DOCUMENTDB_BADVALUE
  | _ =>
    if negb (is_int_type modifier) then Err ERRCODE_DOCUMENTDB_BADVALUE
    else if negb (type_eqb (value_type state) BSON_TYPE_EOD) && negb (is_int_type state)
    then Err ERRCODE_DOCUMENTDB_BADVALUE
    else Ok tt
  end.

Fixpoint bit_loop (existingValue : bson_value) (updateValueSpec : fields) (valueToModify : bson_value) : res bson_value :=
  match updateValueSpec with
  | [] => Ok valueToModify
  | (k, value) :: updateValueSpec =>
    let operatorType := GetMongoBitwiseOperator k in
    let* _ := ValidateBitwiseInputParams operatorType existingValue value in
    let* valueToModify :=
      match operatorType with
      | BITWISE_OPERATOR_AND => BitwiseAndToBsonValue valueToModify value
      | BITWISE_OPERATOR_OR => BitwiseOrToBsonValue valueToModify value
      | BITWISE_OPERATOR_XOR => BitwiseXorToBsonValue valueToModify value
      | BITWISE_OPERATOR_UNKNOWN => Err ERRCODE_DOCUMENTDB_BADVALUE
      end in
    bit_loop existingValue updateValueSpec valueToModify
  end.

(** The value is written on an upsert, or when it changed. *)
Definition write_if_changed (existingValue : bson_value) (w : UpdateOperatorWriter) (valueToModify : bson_value)
  (state : CurrentDocumentState) : res UpdateOperatorWriter :=
  if isUpsert state then UpdateWriterWriteModifiedValue w valueToModify
  else
    let* same := BsonValueEqualsStrict (Some existingValue) (Some valueToModify) in
    if same : bool then Ok w else UpdateWriterWriteModifiedValue w valueToModify.

Definition HandleUpdateDollarBit : WriteUpdatedValuesFunc := fun existingValue w updateValue _ _ state =>
  match updateValue with
  | VDocument [] => Err ERRCODE_DOCUMENTDB_BADVALUE
  | VDocument spec =>
    let* valueToModify := bit_loop existingValue spec existingValue in
    write_if_changed existingValue w valueToModify state
  | _ => Err ERRCODE_DOCUMENTDB_BADVALUE
  end.

Definition HandleUpdateDollarMul : WriteUpdatedValuesFunc := fun existingValue w mulFactor _ _ state =>
  if negb (BsonTypeIsNumber (value_type mulFactor)) then Err ERRCODE_DOCUMENTDB_TYPEMISMATCH
  else if type_eqb (value_type existingValue) BSON_TYPE_EOD then
    match mulFactor with
    | VInt32 _ => UpdateWriterWriteModifiedValue w (VInt32 0)
    | VInt64 _ => UpdateWriterWriteModifiedValue w (VInt64 0)
    | VDouble _ => UpdateWriterWriteModifiedValue w (VDouble 0)
    | VDecimal128 _ => UpdateWriterWriteModifiedValue w (VDecimal128 SetDecimal128Zero)
    | _ => Err ERRCODE_DOCUMENTDB_TYPEMISMATCH
    end
  else if negb (BsonValueIsNumber existingValue) then Err ERRCODE_DOCUMENTDB_TYPEMISMATCH
  else
    let* '(multiplied, valueToModify) := MultiplyWithFactorAndUpdate existingValue mulFactor false in
    if negb multiplied then Err ERRCODE_DOCUMENTDB_BADVALUE
    else if isUpsert state then UpdateWriterWriteModifiedValue w valueToModify
    else
      let* same := BsonValueEqualsStrict (Some valueToModify) (Some existingValue) in
      if same : bool then Ok w else UpdateWriterWriteModifiedValue w valueToModify.

(** [spec] is the reading of the clock, in seconds and nanoseconds. *)
Definition HandleUpdateDollarCurrentDate (spec : Z * Z) : WriteUpdatedValuesFunc := fun _ w updateValue _ _ _ =>
  let '(tv_sec, tv_nsec) := spec in
  let millisecondsInSecond := wrap_u 32 (Z.quot tv_nsec 1000000) in
  let epochMilliseconds := wrap_u 64 (tv_sec * 1000 + millisecondsInSecond) in
  let timestampBsonValue := VTimestamp (wrap_u 32 tv_sec) (wrap_u 32 tv_nsec) in
  let dateBsonValue := VDateTime (wrap_s 64 epochMilliseconds) in
  match updateValue with
  | VBool _ => UpdateWriterWriteModifiedValue w dateBsonValue
  | VDocument [] => Err ERRCODE_DOCUMENTDB_BADVALUE
  | VDocument ((k, v) :: _) =>
    if negb (strcmp k (str "$type") =? 0) && negb (strcmp k (str "$$type") =? 0) then Err ERRCODE_DOCUMENTDB_BADVALUE
    else
      match v with
      | VUtf8 typename =>
        if strcmp typename (str "timestamp") =? 0 then UpdateWriterWriteModifiedValue w timestampBsonValue
        else if strcmp typename (str "date") =? 0 then UpdateWriterWriteModifiedValue w dateBsonValue
        else Err ERRCODE_DOCUMENTDB_BADVALUE
      | _ => Err ERRCODE_DOCUMENTDB_BADVALUE
      end
  | _ => Err ERRCODE_DOCUMENTDB_BADVALUE
  end.

(** ** Arrays *)

(** The loop of [$pull]: the elements at the matching indices are skipped. *)
Fixpoint pull_loop (existingArrItr : fields) (matchingIndices : list Z) (existingValueIndex pullArrayIndex currentPullIndex : Z)
  (aw : UpdateArrayWriter) : res UpdateArrayWriter :=
  match existingArrItr with
  | [] => Ok aw
  | (_, value) :: existingArrItr =>
    if existingValueIndex =? currentPullIndex then
      let pullArrayIndex := wrap_s 32 (pullArrayIndex + 1) in
      let currentPullIndex :=
        if pullArrayIndex <? Z.of_nat (List.length matchingIndices)
        then nth (Z.to_nat pullArrayIndex) matchingIndices 0 else currentPullIndex in
      pull_loop existingArrItr matchingIndices (wrap_s 32 (existingValueIndex + 1)) pullArrayIndex currentPullIndex
        (UpdateArrayWriterSkipValue aw)
    else
      let* aw := UpdateArrayWriterWriteOriginalValue aw value in
      pull_loop existingArrItr matchingIndices (wrap_s 32 (existingValueIndex + 1)) pullArrayIndex currentPullIndex aw
  end.

Definition HandleUpdateDollarPull : WriteUpdatedValuesFunc := fun existingValue w _ updateNodeContext _ _ =>
  match updateNodeContext with
  | BsonUpdateDollarPullState evalState isValue =>
    match existingValue with
    | VEod => Ok w
    | VArray d =>
      let* matchingIndices := EvalExpressionAgainstArrayGetAllMatchingIndices evalState existingValue (negb isValue) in
      match matchingIndices with
      | [] => Ok w
      | first :: _ =>
        let* aw := pull_loop d matchingIndices 0 0 first (UpdateWriterGetArrayWriter w) in
        Ok (UpdateArrayWriterFinalize w aw)
      end
    | _ => Err ERRCODE_DOCUMENTDB_BADVALUE
    end
  | _ => Err ERRCODE_INTERNAL_ERROR
  end.

Fixpoint found_in (list : list bson_value) (equals : bson_value -> res bool) : res bool :=
  match list with
  | [] => Ok false
  | item :: list => let* same := equals item in if same : bool then Ok true else found_in list equals
  end.

Fixpoint write_originals (currentArrayIter : fields) (aw : UpdateArrayWriter) : res UpdateArrayWriter :=
  match currentArrayIter with
  | [] => Ok aw
  | (_, value) :: currentArrayIter =>
    let* aw := UpdateArrayWriterWriteOriginalValue aw value in write_originals currentArrayIter aw
  end.

(** The isEach flag and the elements to add. *)
Definition ValidateAddToSetWithDollarEach (updateValue : fields) : res (bool * bson_value) :=
  match TryGetBsonValueToPgbsonElement (Some updateValue) with
  | Some (path, value) =>
    if strcmp path (str "$each") =? 0 then
      match value with VArray _ => Ok (true, value) | _ => Err ERRCODE_DOCUMENTDB_TYPEMISMATCH end
    else Ok (false, VEod)
  | None => Ok (false, VEod)
  end.

Definition add_to_set (newValue : bson_value) (st : list bson_value * UpdateArrayWriter)
  : res (list bson_value * UpdateArrayWriter) :=
  let '(existingElements, aw) := st in
  let* found := found_in existingElements (fun item => BsonValueEquals item newValue) in
  if found : bool then Ok (existingElements, aw)
  else
    let* aw := UpdateArrayWriterWriteModifiedValue aw newValue in
    Ok (existingElements ++ [newValue], aw).

Fixpoint add_each_to_set (newElementsIter : fields) (st : list bson_value * UpdateArrayWriter)
  : res (list bson_value * UpdateArrayWriter) :=
  match newElementsIter with
  | [] => Ok st
  | (_, newValue) :: newElementsIter => let* st := add_to_set newValue st in add_each_to_set newElementsIter st
  end.

(** The elements of a document or an array; there are none in other values. *)
Definition elements (v : bson_value) : fields := match v with VDocument d | VArray d => d | _ => [] end.

Definition AddToSetWriteFinalArray (w : UpdateOperatorWriter) (existingValue elementsToAdd : bson_value) (isEach : bool)
  : res UpdateOperatorWriter :=
  let existing := match existingValue with VEod => [] | _ => elements existingValue end in
  let* aw := write_originals existing (UpdateWriterGetArrayWriter w) in
  let* '(_, aw) :=
    (if isEach then add_each_to_set (elements elementsToAdd) (map snd existing, aw)
     else add_to_set elementsToAdd (map snd existing, aw)) in
  Ok (UpdateArrayWriterFinalize w aw).

Definition HandleUpdateDollarAddToSet : WriteUpdatedValuesFunc := fun existingValue w updateValue _ _ _ =>
  match existingValue with
  | VEod | VArray _ =>
    let* '(isEach, elementsToAdd) :=
      match updateValue with
      | VDocument [] => Ok (false, VEod)
      | VDocument d => ValidateAddToSetWithDollarEach d
      | _ => Ok (false, VEod)
      end in
    AddToSetWriteFinalArray w existingValue (if isEach : bool then elementsToAdd else updateValue) isEach
  | _ => Err ERRCODE_DOCUMENTDB_BADVALUE
  end.

Fixpoint pull_all_loop (currentArrayIter pullAll : fields) (aw : UpdateArrayWriter) : res UpdateArrayWriter :=
  match currentArrayIter with
  | [] => Ok aw
  | (_, value) :: currentArrayIter =>
    let* found := found_in (map snd pullAll) (fun item => BsonValueEquals value item) in
    let* aw := (if found : bool then Ok (UpdateArrayWriterSkipValue aw)
                else UpdateArrayWriterWriteOriginalValue aw value) in
    pull_all_loop currentArrayIter pullAll aw
  end.

Definition HandleUpdateDollarPullAll : WriteUpdatedValuesFunc := fun existingValue w updateValue _ _ _ =>
  match updateValue with
  | VArray pullAll =>
    match existingValue with
    | VEod => Ok w
    | VArray current =>
      let* aw := pull_all_loop current pullAll (UpdateWriterGetArrayWriter w) in
      Ok (UpdateArrayWriterFinalize w aw)
    | _ => Err ERRCODE_DOCUMENTDB_BADVALUE
    end
  | _ => Err ERRCODE_DOCUMENTDB_BADVALUE
  end.

(** The elements after the first, or those before the last: element [i >= 1] writes
    itself or its predecessor. *)
Fixpoint pop_loop (arrItr : fields) (isFirst : bool) (previous : option bson_value) (aw : UpdateArrayWriter)
  : res UpdateArrayWriter :=
  match arrItr with
  | [] => Ok aw
  | (_, currentValue) :: arrItr =>
    let* aw :=
      match previous with
      | Some previousValue =>
        UpdateArrayWriterWriteModifiedValue aw (if isFirst then currentValue else previousValue)
      | None => Ok (UpdateArrayWriterSkipValue aw)
      end in
    pop_loop arrItr isFirst (Some currentValue) aw
  end.

Definition HandleUpdateDollarPop : WriteUpdatedValuesFunc := fun existingValue w updateValue _ _ _ =>
  if negb (BsonTypeIsNumber (value_type updateValue)) then Err ERRCODE_DOCUMENTDB_FAILEDTOPARSE
  else
    let* doubleVal := BsonValueAsDouble updateValue in
    let d := sf_of_bits doubleVal in
    if negb (SFeqb (sf_floor d) d) then Err ERRCODE_DOCUMENTDB_FAILEDTOPARSE
    else if negb (sf_to_int32 d =? 1) && negb (sf_to_int32 d =? -1) then Err ERRCODE_DOCUMENTDB_FAILEDTOPARSE
    else
      match existingValue with
      | VEod => Ok w
      | VArray arr =>
        let* aw := pop_loop arr (sf_to_int32 d =? -1) None (UpdateWriterGetArrayWriter w) in
        Ok (UpdateArrayWriterFinalize w aw)
      | _ => Err ERRCODE_DOCUMENTDB_BADVALUE
      end.

(** ** [$push] *)

Definition UINT32_MAX : Z := 4294967295.

(** The modifiers, the last one of each name, and the first other key. *)
Record push_clauses : Set := {
  eachBsonValue : bson_value;
  positionBsonValue : bson_value;
  sliceBsonValue : bson_value;
  sortBsonValue : bson_value;
  nonClauseKey : option bytes
}.

Fixpoint push_clause_loop (updateValItr : fields) (c : push_clauses) : res push_clauses :=
  match updateValItr with
  | [] => Ok c
  | (k, v) :: updateValItr =>
    let c :=
      if strcmp k (str "$position") =? 0 then
        {| eachBsonValue := eachBsonValue c; positionBsonValue := v; sliceBsonValue := sliceBsonValue c;
           sortBsonValue := sortBsonValue c; nonClauseKey := nonClauseKey c |}
      else if strcmp k (str "$each") =? 0 then
        {| eachBsonValue := v; positionBsonValue := positionBsonValue c; sliceBsonValue := sliceBsonValue c;
           sortBsonValue := sortBsonValue c; nonClauseKey := nonClauseKey c |}
      else if strcmp k (str "$sort") =? 0 then
        {| eachBsonValue := eachBsonValue c; positionBsonValue := positionBsonValue c;
           sliceBsonValue := sliceBsonValue c; sortBsonValue := v; nonClauseKey := nonClauseKey c |}
      else if strcmp k (str "$slice") =? 0 then
        {| eachBsonValue := eachBsonValue c; positionBsonValue := positionBsonValue c; sliceBsonValue := v;
           sortBsonValue := sortBsonValue c; nonClauseKey := nonClauseKey c |}
      else
        {| eachBsonValue := eachBsonValue c; positionBsonValue := positionBsonValue c;
           sliceBsonValue := sliceBsonValue c; sortBsonValue := sortBsonValue c;
           nonClauseKey := match nonClauseKey c with None => Some k | Some _ => nonClauseKey c end |} in
    match nonClauseKey c with
    | Some _ =>
      if negb (type_eqb (value_type (eachBsonValue c)) BSON_TYPE_EOD) then Err ERRCODE_DOCUMENTDB_BADVALUE
      else push_clause_loop updateValItr c
    | None => push_clause_loop updateValItr c
    end
  end.

(** [$slice] and [$position]: the largest [uint32] when absent, else an integral number. *)
Definition integral_modifier (v : bson_value) : res Z :=
  match v with
  | VEod => Ok UINT32_MAX
  | _ =>
    if BsonValueIsNumber v then
      let* value := BsonValueAsDouble v in
      let d := sf_of_bits value in
      if SFeqb (sf_floor d) d then Ok (sf_to_int64 d) else Err ERRCODE_DOCUMENTDB_BADVALUE
    else Err ERRCODE_DOCUMENTDB_BADVALUE
  end.

Definition no_modifiers : DollarPushUpdateState :=
  {| dollarEachArray := VEod; dollarEachElementCount := 0; position := 0; slice := 0;
     sortContext := {| sortSpecList := []; sortDirection := SortDirection_Ascending; sortType := SortType_No_Sort |};
     modifiersExist := false |}.

Definition ValidateUpdateSpecAndSetPushUpdateState (fieldUpdateValue : bson_value) : res DollarPushUpdateState :=
  match fieldUpdateValue with
  | VDocument spec =>
    let* c := push_clause_loop spec {| eachBsonValue := VEod; positionBsonValue := VEod; sliceBsonValue := VEod;
                                       sortBsonValue := VEod; nonClauseKey := None |} in
    match eachBsonValue c with
    | VEod => Ok no_modifiers
    | VArray each =>
      let* slice := integral_modifier (sliceBsonValue c) in
      let* position := integral_modifier (positionBsonValue c) in
      let* sortContext := ValidateSortSpecAndSetSortContext (sortBsonValue c) in
      Ok {| dollarEachArray := eachBsonValue c; dollarEachElementCount := Z.of_nat (List.length each);
            position := position; slice := slice; sortContext := sortContext; modifiersExist := true |}
    | _ => Err ERRCODE_DOCUMENTDB_BADVALUE
    end
  | _ => Ok no_modifiers
  end.

(** Elements with the indexes they are written at, from [i] on. *)
Fixpoint with_indexes (values : list bson_value) (i : Z) : list ElementWithIndex :=
  match values with
  | [] => []
  | v :: values => GetElementWithIndex v i :: with_indexes values (wrap_u 32 (i + 1))
  end.

(** The elements before the position, and the rest. *)
Fixpoint until_position (i position : Z) (existing : list bson_value) : list bson_value * list bson_value :=
  match existing with
  | [] => ([], [])
  | v :: rest =>
    if i <? position then
      let '(front, back) := until_position (wrap_u 32 (i + 1)) position rest in (v :: front, back)
    else ([], existing)
  end.

(** The array of elements after each, position and sort, and the slice to write. *)
Definition ApplyDollarPushModifiers (bsonArray : bson_value) (pushState : DollarPushUpdateState) (elementsArrLen : Z)
  : res (list ElementWithIndex * Z * Z) :=
  match bsonArray with
  | VArray existing =>
    let existingArrLen := wrap_s 64 (elementsArrLen - dollarEachElementCount pushState) in
    let position :=
      if position pushState <? 0 then
        let position := wrap_s 64 (- position pushState) in
        if position >=? existingArrLen then 0 else wrap_s 64 (existingArrLen - position)
      else position pushState in
    let '(front, back) := until_position 0 (wrap_u 32 position) (map snd existing) in
    let each := match dollarEachArray pushState with VArray d => map snd d | _ => [] end in
    let elementsArr := with_indexes (front ++ each ++ back) 0 in
    let* elementsArr :=
      match sortType (sortContext pushState) with
      | SortType_No_Sort => Ok elementsArr
      | _ => qsort_arg (CompareBsonValuesForSort (sortContext pushState)) elementsArr
      end in
    let sliceIndex := slice pushState in
    if sliceIndex <? 0 then
      let sliceIndex := wrap_s 64 (- sliceIndex) in
      Ok (elementsArr, if sliceIndex >? elementsArrLen then 0 else wrap_s 64 (elementsArrLen - sliceIndex), elementsArrLen)
    else Ok (elementsArr, 0, if sliceIndex >? elementsArrLen then elementsArrLen else sliceIndex)
  | _ => Err ERRCODE_DOCUMENTDB_BADVALUE
  end.

(** The elements of the slice, from [sliceStart] on; an index outside the array reads
    memory that is not part of it. *)
Fixpoint write_slice (elementsArr : list ElementWithIndex) (sliceStart : Z) (count : nat) (aw : UpdateArrayWriter)
  : res UpdateArrayWriter :=
  match count with
  | O => Ok aw
  | S count =>
    if sliceStart <? 0 then Err READ_BEYOND_BUFFER
    else
      match nth_error elementsArr (Z.to_nat sliceStart) with
      | None => Err READ_BEYOND_BUFFER
      | Some e =>
        let* aw := UpdateArrayWriterWriteModifiedValue aw (bsonValue e) in
        write_slice elementsArr (sliceStart + 1) count aw
      end
  end.

Definition HandleUpdateDollarPush : WriteUpdatedValuesFunc := fun existingValue w updateValue _ _ _ =>
  let* pushState := ValidateUpdateSpecAndSetPushUpdateState updateValue in
  let currentValue := match existingValue with VEod => VArray [] | _ => existingValue end in
  match currentValue with
  | VArray existing =>
    let aw := UpdateWriterGetArrayWriter w in
    let* aw :=
      (if negb (modifiersExist pushState) then
         let* aw := write_originals existing aw in UpdateArrayWriterWriteModifiedValue aw updateValue
       else
         let elementsArrLen :=
           wrap_u 32 (Z.of_nat (List.length existing) + dollarEachElementCount pushState) in
         let* '(elementsArr, sliceStart, sliceEnd) := ApplyDollarPushModifiers currentValue pushState elementsArrLen in
         write_slice elementsArr sliceStart (Z.to_nat (sliceEnd - sliceStart)) aw) in
    Ok (UpdateArrayWriterFinalize w aw)
  | _ => Err ERRCODE_DOCUMENTDB_BADVALUE
  end.

(** ** [$rename] *)

Definition RenameVisitTopLevelField (element : pgbsonelement) (filterPath : bytes) (state : res bson_value)
  : bool * res bson_value :=
  unless_error state (fun _ => (type_eqb (value_type (snd element)) BSON_TYPE_EOD, Ok (snd element))).

Definition RenameSetTraverseErrorResult (traverseResult : TraverseBsonResult) (state : res bson_value) : res bson_value :=
  let* _ := state in Ok VEod.

Definition RenameProcessIntermediateArray (value : bson_value) (state : res bson_value) : bool * res bson_value :=
  unless_error state (fun _ => (false, Err ERRCODE_DOCUMENTDB_BADVALUE)).

Definition renameExecutionFuncs : TraverseBsonExecutionFuncs (res bson_value) := {|
  VisitTopLevelField := RenameVisitTopLevelField;
  VisitArrayField := None;
  SetTraverseResult := Some RenameSetTraverseErrorResult;
  ContinueProcessIntermediateArray := RenameProcessIntermediateArray;
  SetIntermediateArrayIndex := None;
  HandleIntermediateArrayPathNotFound := None;
  SetIntermediateArrayStartEnd := None |}.

Definition RenameSourceGetValue (sourceDocument : fields) (sourcePathString : bytes) : res bson_value :=
  let* renameSourceValue :=
    TraverseBson renameExecutionFuncs SkipBsonArrayTraverseOptimization sourceDocument sourcePathString (Ok VEod) in
  renameSourceValue.

Definition HandleUpdateDollarRename : WriteUpdatedValuesFunc := fun _ w _ updateNodeContext setValueState state =>
  if isArray setValueState || hasArrayAncestors setValueState then Err ERRCODE_DOCUMENTDB_BADVALUE
  else
    match updateNodeContext with
    | RenameSourcePath sourcePathString =>
      let* renameSourceValue := RenameSourceGetValue (sourceDocument state) sourcePathString in
      if negb (type_eqb (value_type renameSourceValue) BSON_TYPE_EOD)
      then UpdateWriterWriteModifiedValue w renameSourceValue else Ok w
    | _ => Err NULL_DEREFERENCE
    end.

Definition HandleUpdateDollarRenameSource : WriteUpdatedValuesFunc :=
  fun existingValue w updateValue updateNodeContext setValueState state =>
  if isArray setValueState || hasArrayAncestors setValueState then Err ERRCODE_DOCUMENTDB_BADVALUE
  else HandleUpdateDollarUnset existingValue w updateValue updateNodeContext setValueState state.
End Operators.
