(* ===== verification/UpdateTree.v ===== *)
(** * The update tree ([aggregation/bson_tree.c], [update/bson_update_operators_workflow.c])

    An update specification is turned into a tree with one leaf for every path it
    updates.  The children of a node, a circular list with a pointer to its tail, are
    the list of the children in the order they were added; a node is named by the
    fields that lead to it.  The array filters of the update, a hash table, are an
    association list, of which the entries that were looked up are marked as used. *)

From Stdlib Require Import ZArith Lia Bool String List SpecFloat.
From Stdlib Require Import Strings.Byte.
From S2P Require Import Prelude SoftFloat BsonTypes StringView Decimal128 BsonCompare BsonOrder RefBid BsonRefine.
From S2P Require Import BsonArith Traversal PgbsonElement DollarOperators BsonWriter SortUtils ExprEval UpdateOperators.
Import ListNotations.
Local Open Scope Z_scope.

(** The compiled query of the positional operator [$] ([aggregation/bson_positional_query.c]),
    which runs on PostgreSQL's executor. *)
Class PositionalQuery : Type := {
  BsonPositionalQueryData : Set;
  GetPositionalQueryData : bson_value -> res BsonPositionalQueryData;
  MatchPositionalQueryAgainstDocument : BsonPositionalQueryData -> fields -> res Z
}.

(** The kinds of leaves that occur in update trees. *)
Inductive NodeType : Set := NodeType_LeafIncluded | NodeType_LeafExcluded | NodeType_LeafField.

Section Tree.
Context {BL : BidLib} {LB : LibBson} {UV : UnionView} {LD : LibBsonDoc} {EE : ExprEngine} {PS : PgSort}
  {PQ : PositionalQuery}.
Local Open Scope res_scope.

Inductive PositionalData : Set :=
| PositionalType_None
| PositionalType_All
| PositionalType_QueryFilter (positionalQueryData : BsonPositionalQueryData)
| PositionalType_ArrayFilter (expression : ExprEvalState).

Record BsonUpdateLeafNode : Set := {
  leaf_nodeType : NodeType;
  leaf_field : bytes;
  leaf_relativePath : bytes;
  writeFunc : option WriteUpdatedValuesFunc;
  updateNodeContext : UpdateNodeContext;
  leaf_positionalData : PositionalData;
  fieldData : bson_value
}.

(** Of the other end of a [$rename] only its type and path are read. *)
Record BsonUpdateIntermediatePathNode : Set := {
  node_field : bytes;
  node_relativePath : bytes;
  node_positionalData : PositionalData;
  hasExpressionFieldsInChildren : bool;
  hasPositionalChildren : bool;
  HasIntermediateIncludeChildren : bool;
  sourceOrTargetNodeForRenameOP : option (NodeType * bytes)
}.

Unset Elimination Schemes.
Inductive BsonPathNode : Set :=
| LeafNode (leaf : BsonUpdateLeafNode)
| IntermediateNode (node : BsonUpdateIntermediatePathNode) (children : list BsonPathNode).
Set Elimination Schemes.

Definition field (n : BsonPathNode) : bytes :=
  match n with LeafNode l => leaf_field l | IntermediateNode i _ => node_field i end.

Definition GetRelativePathFromNode (n : BsonPathNode) : bytes :=
  match n with LeafNode l => leaf_relativePath l | IntermediateNode i _ => node_relativePath i end.

Definition GetPositionalData (n : BsonPathNode) : PositionalData :=
  match n with LeafNode l => leaf_positionalData l | IntermediateNode i _ => node_positionalData i end.

Definition IsIntermediateNode (n : BsonPathNode) : bool :=
  match n with LeafNode _ => false | IntermediateNode _ _ => true end.

Definition IsIntermediateNodeWithField (n : BsonPathNode) : bool :=
  match n with LeafNode _ => false | IntermediateNode i _ => hasExpressionFieldsInChildren i end.

Definition is_positional (p : PositionalData) : bool := match p with PositionalType_None => false | _ => true end.

Definition MakeRootNode : BsonUpdateIntermediatePathNode :=
  {| node_field := []; node_relativePath := []; node_positionalData := PositionalType_None;
     hasExpressionFieldsInChildren := false; hasPositionalChildren := false;
     HasIntermediateIncludeChildren := false; sourceOrTargetNodeForRenameOP := None |}.

(** ** Creation of nodes *)

Record QueryFilterPathAndValue : Set := {
  identifier : bytes;
  queryValue : bson_value;
  filterUsed : bool
}.

Record PositionalUpdateSpec : Set := {
  querySpec : bson_value;
  arrayFilters : option (list QueryFilterPathAndValue)
}.

Record BsonUpdateTreeState : Set := {
  updateFunc : option WriteUpdatedValuesFunc;
  updateFuncState : UpdateNodeContext
}.

Definition ValidateNodePathInTree (path : bytes) : res unit :=
  if (blen path =? 0) || byte_eqb (char_at path (List.length path - 1)) "."%byte
  then Err ERRCODE_DOCUMENTDB_BADVALUE else Ok tt.

(** [hash_search] for an identifier; the entry that is found is marked as used. *)
Fixpoint use_filter (filters : list QueryFilterPathAndValue) (id : bytes)
  : option (QueryFilterPathAndValue * list QueryFilterPathAndValue) :=
  match filters with
  | [] => None
  | e :: filters =>
    if CompareStringView (identifier e) id =? 0 then
      let e := {| identifier := identifier e; queryValue := queryValue e; filterUsed := true |} in
      Some (e, e :: filters)
    else option_map (fun '(x, rest) => (x, e :: rest)) (use_filter filters id)
  end.

(** The positional operator a path segment stands for.  [GetPositionalQueryData] runs
    once, for the first [$]; its result is the same each time. *)
Definition GetNodePositionalDataFromPath (path : bytes) (spec : PositionalUpdateSpec)
  : res (PositionalData * PositionalUpdateSpec) :=
  if StringViewEquals (Some path) (Some (str "$[]")) then Ok (PositionalType_All, spec)
  else if StringViewEquals (Some path) (Some (str "$")) then
    let* data := GetPositionalQueryData (querySpec spec) in Ok (PositionalType_QueryFilter data, spec)
  else if (blen path >? 3) && (strncmp path (str "$[") 2 =? 0) && byte_eqb (char_at path (List.length path - 1)) "]"%byte then
    let* rest := StringViewSubstring path 2 in
    let id := firstn (List.length rest - 1) rest in
    match arrayFilters spec with
    | None => Err ERRCODE_DOCUMENTDB_BADVALUE
    | Some filters =>
      match use_filter filters id with
      | None => Err ERRCODE_DOCUMENTDB_BADVALUE
      | Some (entry, filters) =>
        let* expr := GetExpressionEvalState (queryValue entry) in
        Ok (PositionalType_ArrayFilter expr, {| querySpec := querySpec spec; arrayFilters := Some filters |})
      end
    end
  else Ok (PositionalType_None, spec).

(** A leaf with its base data and its value. *)
Definition CreateUpdateLeafNode (path relativePath : bytes) (state : BsonUpdateTreeState) (spec : PositionalUpdateSpec)
  (nodeType : NodeType) (value : bson_value) : res (BsonUpdateLeafNode * PositionalUpdateSpec) :=
  let* _ := ValidateNodePathInTree path in
  let* '(positionalData, spec) := GetNodePositionalDataFromPath path spec in
  Ok ({| leaf_nodeType := nodeType; leaf_field := path; leaf_relativePath := relativePath;
         writeFunc := updateFunc state; updateNodeContext := updateFuncState state;
         leaf_positionalData := positionalData; fieldData := value |}, spec).

Definition CreateUpdateIntermediateNode (path relativePath : bytes) (spec : PositionalUpdateSpec)
  : res (BsonUpdateIntermediatePathNode * PositionalUpdateSpec) :=
  let* _ := ValidateNodePathInTree path in
  let* '(positionalData, spec) := GetNodePositionalDataFromPath path spec in
  Ok ({| node_field := path; node_relativePath := relativePath; node_positionalData := positionalData;
         hasExpressionFieldsInChildren := false; hasPositionalChildren := false;
         HasIntermediateIncludeChildren := false; sourceOrTargetNodeForRenameOP := None |}, spec).

Definition DetermineChildNodeType (value : bson_value) (forceLeafExpression : bool) : res NodeType :=
  if forceLeafExpression || negb (BsonValueIsNumberOrBool value) then Ok NodeType_LeafField
  else
    let* d := BsonValueAsDouble value in
    Ok (if negb (SFeqb (sf_of_bits d) (S754_zero false)) then NodeType_LeafIncluded else NodeType_LeafExcluded).

(** ** Adding a path *)

(** [NodeType_Intermediate] with [hasFields]: the flag is set. *)
Definition TrySetIntermediateNodeData (i : BsonUpdateIntermediatePathNode) (hasFields : bool)
  : BsonUpdateIntermediatePathNode :=
  if hasFields then
    {| node_field := node_field i; node_relativePath := node_relativePath i;
       node_positionalData := node_positionalData i; hasExpressionFieldsInChildren := true;
       hasPositionalChildren := hasPositionalChildren i;
       HasIntermediateIncludeChildren := HasIntermediateIncludeChildren i;
       sourceOrTargetNodeForRenameOP := sourceOrTargetNodeForRenameOP i |}
  else i.

(** The node of a path: whether it was there before, the node, and the fields that
    lead to it. *)
Record located : Set := { alreadyExists : bool; located_node : BsonPathNode; located_path : list bytes }.

(** The segment before the next dot, and what follows it. *)
Definition next_segment (pathView : bytes) : res (bytes * bytes) :=
  match StringViewFindPrefix pathView dot with
  | None => Ok (pathView, [])
  | Some currentField =>
    let* rest := StringViewSubstring pathView (blen currentField + 1) in Ok (currentField, rest)
  end.

(** One step of [TraverseDottedPathAndGetNode], for a child that is there ([None] when
    no child has this field) or is created at the end of the list; [below] continues
    with the children of an intermediate node. *)
Fixpoint GetOrAddChildNode (children : list BsonPathNode) (currentField : bytes) (isLeaf hasField : bool)
  (create_leaf : PositionalUpdateSpec -> res (BsonUpdateLeafNode * PositionalUpdateSpec))
  (create_intermediate : PositionalUpdateSpec -> res (BsonUpdateIntermediatePathNode * PositionalUpdateSpec))
  (below : list BsonPathNode -> PositionalUpdateSpec -> res (list BsonPathNode * PositionalUpdateSpec * located))
  (spec : PositionalUpdateSpec) : res (list BsonPathNode * PositionalUpdateSpec * located) :=
  match children with
  | [] =>
    if isLeaf then
      let* '(leaf, spec) := create_leaf spec in
      Ok ([LeafNode leaf], spec,
          {| alreadyExists := false; located_node := LeafNode leaf; located_path := [currentField] |})
    else
      let* '(i, spec) := create_intermediate spec in
      let* '(children, spec, found) := below [] spec in
      Ok ([IntermediateNode (TrySetIntermediateNodeData i hasField) children], spec,
          {| alreadyExists := alreadyExists found; located_node := located_node found;
             located_path := currentField :: located_path found |})
  | child :: children =>
    if StringViewEquals (Some (field child)) (Some currentField) then
      match child with
      | LeafNode _ =>
        Ok (child :: children, spec,
            {| alreadyExists := true; located_node := child; located_path := [currentField] |})
      | IntermediateNode i grandchildren =>
        if isLeaf then
          Ok (child :: children, spec,
              {| alreadyExists := true; located_node := child; located_path := [currentField] |})
        else
          let* '(grandchildren, spec, found) := below grandchildren spec in
          Ok (IntermediateNode (TrySetIntermediateNodeData i hasField) grandchildren :: children, spec,
              {| alreadyExists := alreadyExists found; located_node := located_node found;
                 located_path := currentField :: located_path found |})
      end
    else
      let* '(children, spec, found) :=
        GetOrAddChildNode children currentField isLeaf hasField create_leaf create_intermediate below spec in
      Ok (child :: children, spec, found)
  end.

Fixpoint TraverseDottedPathAndGetNode (fuel : nat) (pathView path : bytes) (hasField : bool) (leafNodeType : NodeType)
  (value : bson_value) (state : BsonUpdateTreeState) (children : list BsonPathNode) (spec : PositionalUpdateSpec)
  : res (list BsonPathNode * PositionalUpdateSpec * located) :=
  match fuel with
  | O => Err ERRCODE_INTERNAL_ERROR
  | S fuel =>
    let* '(currentField, pathView) := next_segment pathView in
    GetOrAddChildNode children currentField (blen pathView =? 0) hasField
      (fun spec => CreateUpdateLeafNode currentField path state spec leafNodeType value)
      (CreateUpdateIntermediateNode currentField path)
      (TraverseDottedPathAndGetNode fuel pathView path hasField leafNodeType value state) spec
  end.

(** The children of the root, the filters and the node. *)
Definition TraverseDottedPathAndGetOrAddNodeCore (path : bytes) (value : bson_value) (forceLeafExpression : bool)
  (state : BsonUpdateTreeState) (children : list BsonPathNode) (spec : PositionalUpdateSpec)
  : res (list BsonPathNode * PositionalUpdateSpec * located) :=
  let* leafNodeType := DetermineChildNodeType value forceLeafExpression in
  let hasField := match leafNodeType with NodeType_LeafField => true | _ => false end in
  TraverseDottedPathAndGetNode (S (List.length path)) path path hasField leafNodeType value state children spec.

Definition TraverseDottedPathAndGetOrAddField (path : bytes) (value : bson_value) :=
  TraverseDottedPathAndGetOrAddNodeCore path value true.
Definition TraverseDottedPathAndGetOrAddValue (path : bytes) (value : bson_value) :=
  TraverseDottedPathAndGetOrAddNodeCore path value false.

(** ** Replacing a leaf *)

(** [ReplaceTreeInNodeCore]: the place of the node in the list is kept. *)
Fixpoint ReplaceTreeInNodeCore (children : list BsonPathNode) (baseField : bytes) (newNode : BsonPathNode) : list BsonPathNode :=
  match children with
  | [] => []
  | child :: children =>
    if StringViewEquals (Some (field child)) (Some baseField) then newNode :: children
    else child :: ReplaceTreeInNodeCore children baseField newNode
  end.

(** The leaf of the root that is replaced has the field of the whole path. *)
Definition ResetNodeWithFieldAndState (baseField relativePath : bytes) (value : bson_value) (state : BsonUpdateTreeState)
  (children : list BsonPathNode) (spec : PositionalUpdateSpec) : res (list BsonPathNode * PositionalUpdateSpec * located) :=
  let* leafNodeType := DetermineChildNodeType value true in
  let* '(leaf, spec) := CreateUpdateLeafNode baseField relativePath state spec leafNodeType value in
  Ok (ReplaceTreeInNodeCore children baseField (LeafNode leaf), spec,
      {| alreadyExists := true; located_node := LeafNode leaf; located_path := [baseField] |}).

Definition HandleNodeExistsInTree (existing : located) (updatePath : bytes) (value : bson_value) (state : BsonUpdateTreeState)
  (children : list BsonPathNode) (spec : PositionalUpdateSpec) : res (list BsonPathNode * PositionalUpdateSpec * located) :=
  if negb (strcmp updatePath (str "_id") =? 0) || IsIntermediateNode (located_node existing)
  then Err ERRCODE_DOCUMENTDB_CONFLICTINGUPDATEOPERATORS
  else ResetNodeWithFieldAndState (field (located_node existing)) updatePath value state children spec.

(** ** The ancestors of a node *)

Definition mark_parent (i : BsonUpdateIntermediatePathNode) (positional markAsIncludeAncestor : bool)
  (link : option (NodeType * bytes)) : BsonUpdateIntermediatePathNode :=
  {| node_field := node_field i; node_relativePath := node_relativePath i;
     node_positionalData := node_positionalData i;
     hasExpressionFieldsInChildren := hasExpressionFieldsInChildren i;
     hasPositionalChildren := hasPositionalChildren i || positional;
     HasIntermediateIncludeChildren := HasIntermediateIncludeChildren i || markAsIncludeAncestor;
     sourceOrTargetNodeForRenameOP := link |}.

Fixpoint find_child (children : list BsonPathNode) (f : bytes) : option BsonPathNode :=
  match children with
  | [] => None
  | child :: children => if StringViewEquals (Some (field child)) (Some f) then Some child else find_child children f
  end.

(** From the node at [path] up to the root [i]; the result says whether a node on the
    way is positional. *)
Fixpoint UpdateParentDataInTree (path : list bytes) (markAsIncludeAncestor : bool) (link : option (NodeType * bytes))
  (i : BsonUpdateIntermediatePathNode) (children : list BsonPathNode)
  : res (BsonUpdateIntermediatePathNode * list BsonPathNode * bool) :=
  match path with
  | [] => Ok (i, children, false)
  | f :: path =>
    match find_child children f with
    | None => Err NULL_DEREFERENCE
    | Some child =>
      let* '(child, hasPositionalInAncestors) :=
        match child with
        | LeafNode _ => Ok (child, false)
        | IntermediateNode j grandchildren =>
          let* '(j, grandchildren, positional) := UpdateParentDataInTree path markAsIncludeAncestor link j grandchildren in
          Ok (IntermediateNode j grandchildren, positional)
        end in
      let positional := is_positional (GetPositionalData child) in
      let children := ReplaceTreeInNodeCore children f child in
      let i := mark_parent i positional markAsIncludeAncestor link in
      if hasPositionalChildren i && negb (forallb (fun c => is_positional (GetPositionalData c)) children)
      then Err ERRCODE_DOCUMENTDB_CONFLICTINGUPDATEOPERATORS
      else Ok (i, children, hasPositionalInAncestors || positional)
    end
  end.

(** ** Reading the update specification *)

(** The root, its children and the positional specification. *)
Definition UpdateTree : Set := BsonUpdateIntermediatePathNode * list BsonPathNode * PositionalUpdateSpec.

Definition ValidateSpecPathForUpdateTree (updatePath : bytes) : res unit :=
  if blen updatePath =? 0 then Err ERRCODE_DOCUMENTDB_EMPTYFIELDNAME
  else if byte_eqb (char_at updatePath (List.length updatePath - 1)) "."%byte then Err ERRCODE_DOCUMENTDB_EMPTYFIELDNAME
  else if byte_eqb (char_at updatePath 0) "$"%byte then
    let path := match StringViewFindPrefix updatePath dot with None => updatePath | Some p => p end in
    if StringViewEquals (Some path) (Some (str "$[]")) then Err ERRCODE_DOCUMENTDB_BADVALUE
    else if StringViewEquals (Some path) (Some (str "$")) then Err ERRCODE_DOCUMENTDB_BADVALUE
    else Ok tt
  else Ok tt.

(** A path is added, or found and checked. *)
Definition add_path (path : bytes) (value : bson_value) (forceLeafExpression : bool) (state : BsonUpdateTreeState)
  (exists_value : bson_value) (exists_state : BsonUpdateTreeState)
  (children : list BsonPathNode) (spec : PositionalUpdateSpec)
  : res (list BsonPathNode * PositionalUpdateSpec * located) :=
  let* '(children, spec, node) :=
    TraverseDottedPathAndGetOrAddNodeCore path value forceLeafExpression state children spec in
  if alreadyExists node then HandleNodeExistsInTree node path exists_value exists_state children spec
  else Ok (children, spec, node).

Fixpoint HandleBasicUpdateTree (updateSpec : fields) (valuesFunc : WriteUpdatedValuesFunc)
  (stateFunc : option (bson_value -> res UpdateNodeContext)) (tree : UpdateTree) : res UpdateTree :=
  match updateSpec with
  | [] => Ok tree
  | (updatePathView, value) :: updateSpec =>
    let '(root, children, spec) := tree in
    let* _ := ValidateSpecPathForUpdateTree updatePathView in
    let* context := match stateFunc with Some f => f value | None => Ok NoContext end in
    let state := {| updateFunc := Some valuesFunc; updateFuncState := context |} in
    let* '(children, spec, node) := add_path updatePathView value true state value state children spec in
    let* '(root, children, _) := UpdateParentDataInTree (located_path node) false None root children in
    HandleBasicUpdateTree updateSpec valuesFunc stateFunc (root, children, spec)
  end.

Definition rename_link (n : BsonPathNode) : option (NodeType * bytes) :=
  match n with LeafNode l => Some (leaf_nodeType l, leaf_relativePath l) | IntermediateNode _ _ => None end.

(** For an existing target the code passes the value and the state of the source. *)
Fixpoint HandleRenameUpdateTree (updateSpec : fields) (valuesFunc : WriteUpdatedValuesFunc) (tree : UpdateTree) : res UpdateTree :=
  match updateSpec with
  | [] => Ok tree
  | (updatePathView, value) :: updateSpec =>
    let '(root, children, spec) := tree in
    let* _ := ValidateSpecPathForUpdateTree updatePathView in
    let sourceState := {| updateFunc := Some HandleUpdateDollarRenameSource; updateFuncState := NoContext |} in
    let* '(children, spec, sourceNode) :=
      add_path updatePathView (VInt32 0) false sourceState (VInt32 0) sourceState children spec in
    match value with
    | VUtf8 renamePath =>
      let renameState := {| updateFunc := Some valuesFunc; updateFuncState := RenameSourcePath updatePathView |} in
      let* _ := ValidateSpecPathForUpdateTree renamePath in
      let* '(children, spec, targetNode) :=
        add_path renamePath (VInt32 1) false renameState value sourceState children spec in
      let* '(root, children, sourcePositional) :=
        UpdateParentDataInTree (located_path sourceNode) false (rename_link (located_node targetNode)) root children in
      if sourcePositional : bool then Err ERRCODE_DOCUMENTDB_BADVALUE
      else
        let* '(root, children, targetPositional) :=
          UpdateParentDataInTree (located_path targetNode) true (rename_link (located_node sourceNode)) root children in
        if targetPositional : bool then Err ERRCODE_DOCUMENTDB_BADVALUE
        else HandleRenameUpdateTree updateSpec valuesFunc (root, children, spec)
    | _ => Err ERRCODE_DOCUMENTDB_BADVALUE
    end
  end.

(** The path is not validated and the ancestors are not marked. *)
Fixpoint HandleUnsetUpdateTree (updateSpec : fields) (valuesFunc : WriteUpdatedValuesFunc) (tree : UpdateTree) : res UpdateTree :=
  match updateSpec with
  | [] => Ok tree
  | (updatePathView, value) :: updateSpec =>
    let '(root, children, spec) := tree in
    let state := {| updateFunc := Some valuesFunc; updateFuncState := NoContext |} in
    let* '(children, spec, _) := add_path updatePathView (VInt32 0) false state value state children spec in
    HandleUnsetUpdateTree updateSpec valuesFunc (root, children, spec)
  end.

Definition HandleSetOnInsertUpdateTree (updateSpec : fields) (valuesFunc : WriteUpdatedValuesFunc)
  (stateFunc : option (bson_value -> res UpdateNodeContext)) (isUpsert : bool) (tree : UpdateTree) : res UpdateTree :=
  if negb isUpsert then Ok tree else HandleBasicUpdateTree updateSpec valuesFunc stateFunc tree.

(** Whether the fields of a [$pull] are operators, or plain fields; not both. *)
Fixpoint pull_fields (updateSpecItr : fields) (hasDollarField hasPlainField : bool) : res bool :=
  match updateSpecItr with
  | [] => Ok hasPlainField
  | (f, _) :: updateSpecItr =>
    if byte_eqb (char_at f 0) "$"%byte then
      if hasPlainField then Err ERRCODE_DOCUMENTDB_BADVALUE else pull_fields updateSpecItr true hasPlainField
    else
      if hasDollarField then Err ERRCODE_DOCUMENTDB_BADVALUE else pull_fields updateSpecItr hasDollarField true
  end.

Definition HandlePullWriterGetState (updateValue : bson_value) : res UpdateNodeContext :=
  match updateValue with
  | VDocument d =>
    let* hasPlainField := pull_fields d false false in
    let* evalState := GetExpressionEvalState updateValue in
    Ok (BsonUpdateDollarPullState evalState hasPlainField)
  | _ =>
    let* docWriter := PgbsonWriterAppendValue PgbsonWriterInit (str "$eq") updateValue in
    let* evalState := GetExpressionEvalState (VDocument docWriter) in
    Ok (BsonUpdateDollarPullState evalState true)
  end.

(** ** Array filters *)

Fixpoint append_all (documents : fields) (w : pgbson_writer) : res pgbson_writer :=
  match documents with
  | [] => Ok w
  | (k, v) :: documents => let* w := PgbsonWriterAppendValue w k v in append_all documents w
  end.

Definition WriteCurrentArrayFilterValue (w : pgbson_writer) (entryValue : bson_value) : res pgbson_writer :=
  match entryValue with
  | VDocument d =>
    if existsb (fun kv => byte_eqb (char_at (fst kv) 0) "$"%byte) d then append_all d w
    else PgbsonWriterAppendValue w (str "$eq") entryValue
  | _ => PgbsonWriterAppendValue w (str "$eq") entryValue
  end.

Definition isalnum (b : byte) : bool :=
  let c := byte_z b in
  ((48 <=? c) && (c <=? 57)) || ((65 <=? c) && (c <=? 90)) || ((97 <=? c) && (c <=? 122)).

(** The fields of one filter: the identifier they share, and the query on it. *)
Fixpoint array_filter_fields (documentIterator : fields) (topLevelKey : bytes) (w : pgbson_writer)
  : res (bytes * pgbson_writer) :=
  match documentIterator with
  | [] => Ok (topLevelKey, w)
  | (keyView, value) :: documentIterator =>
    if (blen keyView =? 0) || negb (isalnum (char_at keyView 0)) then Err ERRCODE_DOCUMENTDB_BADVALUE
    else
      let* '(fieldPath, suffix) := next_segment keyView in
      if (blen topLevelKey >? 0) && negb (StringViewEquals (Some fieldPath) (Some topLevelKey))
      then Err ERRCODE_DOCUMENTDB_FAILEDTOPARSE
      else
        let* w :=
          (if blen suffix =? 0 then WriteCurrentArrayFilterValue w value
           else
             let* childWriter := WriteCurrentArrayFilterValue (PgbsonWriterStartDocument w suffix) value in
             Ok (PgbsonWriterEndDocument w suffix childWriter)) in
        array_filter_fields documentIterator fieldPath w
  end.

Fixpoint array_filter_loop (arrayIterator : fields) (filters : list QueryFilterPathAndValue)
  : res (list QueryFilterPathAndValue) :=
  match arrayIterator with
  | [] => Ok filters
  | (_, VDocument []) :: _ => Err ERRCODE_DOCUMENTDB_FAILEDTOPARSE
  | (_, VDocument d) :: arrayIterator =>
    let* '(topLevelKey, document) := array_filter_fields d [] PgbsonWriterInit in
    if existsb (fun e => CompareStringView (identifier e) topLevelKey =? 0) filters
    then Err ERRCODE_DOCUMENTDB_FAILEDTOPARSE
    else array_filter_loop arrayIterator
           (filters ++ [{| identifier := topLevelKey; queryValue := VDocument document; filterUsed := false |}])
  | _ => Err ERRCODE_DOCUMENTDB_TYPEMISMATCH
  end.

Definition BuildExpressionForArrayFilters (arrayFilters : option bson_value) : res (option (list QueryFilterPathAndValue)) :=
  match arrayFilters with
  | None => Ok None
  | Some v => let* filters := array_filter_loop (elements v) [] in Ok (Some filters)
  end.

Definition PostValidateArrayFilters (filters : option (list QueryFilterPathAndValue)) : res unit :=
  match filters with
  | None => Ok tt
  | Some l => if forallb filterUsed l then Ok tt else Err ERRCODE_DOCUMENTDB_FAILEDTOPARSE
  end.

(** ** The operators *)

Variable SkipBsonArrayTraverseOptimization : bool.
(** The reading of the clock when the operator runs for a field of a document. *)
Variable clock : CurrentDocumentState -> UpdateSetValueState -> Z * Z.

Inductive updateTreeFunc : Set :=
| UseHandleBasicUpdateTree | UseHandleUnsetUpdateTree | UseHandleRenameUpdateTree | UseHandleSetOnInsertUpdateTree.

Record MongoUpdateOperatorSpec : Set := {
  operatorName : bytes;
  treeFunc : updateTreeFunc;
  updateWriterFunc : WriteUpdatedValuesFunc;
  updateWriterGetState : option (bson_value -> res UpdateNodeContext)
}.

Definition operator (name : string) (t : updateTreeFunc) (f : WriteUpdatedValuesFunc) : MongoUpdateOperatorSpec :=
  {| operatorName := str name; treeFunc := t; updateWriterFunc := f; updateWriterGetState := None |}.

(** Without the operators other extensions may register. *)
Definition MongoUpdateOperators : list MongoUpdateOperatorSpec :=
  [ operator "$set" UseHandleBasicUpdateTree HandleUpdateDollarSet;
    operator "$inc" UseHandleBasicUpdateTree HandleUpdateDollarInc;
    operator "$min" UseHandleBasicUpdateTree HandleUpdateDollarMin;
    operator "$max" UseHandleBasicUpdateTree HandleUpdateDollarMax;
    operator "$unset" UseHandleUnsetUpdateTree HandleUpdateDollarUnset;
    operator "$push" UseHandleBasicUpdateTree HandleUpdateDollarPush;
    operator "$pop" UseHandleBasicUpdateTree HandleUpdateDollarPop;
    operator "$rename" UseHandleRenameUpdateTree (HandleUpdateDollarRename SkipBsonArrayTraverseOptimization);
    operator "$setOnInsert" UseHandleSetOnInsertUpdateTree HandleUpdateDollarSetOnInsert;
    operator "$pullAll" UseHandleBasicUpdateTree HandleUpdateDollarPullAll;
    operator "$addToSet" UseHandleBasicUpdateTree HandleUpdateDollarAddToSet;
    operator "$mul" UseHandleBasicUpdateTree HandleUpdateDollarMul;
    operator "$bit" UseHandleBasicUpdateTree HandleUpdateDollarBit;
    operator "$currentDate" UseHandleBasicUpdateTree
      (fun existingValue w updateValue context setValueState state =>
         HandleUpdateDollarCurrentDate (clock state setValueState) existingValue w updateValue context setValueState state);
    {| operatorName := str "$pull"; treeFunc := UseHandleBasicUpdateTree; updateWriterFunc := HandleUpdateDollarPull;
       updateWriterGetState := Some HandlePullWriterGetState |} ].

Definition run_tree_func (op : MongoUpdateOperatorSpec) (updateSpec : fields) (isUpsert : bool) (tree : UpdateTree)
  : res UpdateTree :=
  match treeFunc op with
  | UseHandleBasicUpdateTree => HandleBasicUpdateTree updateSpec (updateWriterFunc op) (updateWriterGetState op) tree
  | UseHandleUnsetUpdateTree => HandleUnsetUpdateTree updateSpec (updateWriterFunc op) tree
  | UseHandleRenameUpdateTree => HandleRenameUpdateTree updateSpec (updateWriterFunc op) tree
  | UseHandleSetOnInsertUpdateTree =>
    HandleSetOnInsertUpdateTree updateSpec (updateWriterFunc op) (updateWriterGetState op) isUpsert tree
  end.

Fixpoint read_operators (updateIterator : fields) (isUpsert : bool) (tree : UpdateTree) : res UpdateTree :=
  match updateIterator with
  | [] => Ok tree
  | (updateOperator, value) :: updateIterator =>
    match find (fun op => strcmp (operatorName op) updateOperator =? 0) MongoUpdateOperators with
    | None => Err ERRCODE_DOCUMENTDB_FAILEDTOPARSE
    | Some op =>
      match value with
      | VDocument updateSpec =>
        let* tree := run_tree_func op updateSpec isUpsert tree in
        read_operators updateIterator isUpsert tree
      | _ => Err ERRCODE_DOCUMENTDB_FAILEDTOPARSE
      end
    end
  end.

(** The node of [_id] comes first. *)
Definition ReadUpdateSpecAndUpdateTree (updateIterator : fields) (spec : PositionalUpdateSpec) (isUpsert : bool)
  : res UpdateTree :=
  let state := {| updateFunc := None; updateFuncState := NoContext |} in
  let* '(children, spec, _) := TraverseDottedPathAndGetOrAddValue (str "_id") (VInt32 0) state [] spec in
  read_operators updateIterator isUpsert (MakeRootNode, children, spec).

Definition GetOperatorUpdateState (updateSpec query : bson_value) (arrayFilterSpec : option bson_value) (isUpsert : bool)
  : res (BsonUpdateIntermediatePathNode * list BsonPathNode) :=
  match updateSpec with
  | VDocument d =>
    let* filters := BuildExpressionForArrayFilters arrayFilterSpec in
    let* '(root, children, spec) :=
      ReadUpdateSpecAndUpdateTree d {| querySpec := query; arrayFilters := filters |} isUpsert in
    let* _ := PostValidateArrayFilters (arrayFilters spec) in
    Ok (root, children)
  | _ => Err ERRCODE_DOCUMENTDB_BADVALUE
  end.
End Tree.
