(* ===== verification/UpdateWorkflow.v ===== *)
(** * Applying an update tree to a document ([update/bson_update_operators_workflow.c])

    The document and the tree are walked together: a field the tree does not mention
    is copied, a leaf of the tree writes through its operator, and the fields of the
    tree that the document does not have are added at the end.  The recursion follows
    the document, and the tree where the document ends.  [handled] are the indexes of
    the children of the tree that a field was found for. *)

From Stdlib Require Import ZArith Lia Bool String List SpecFloat.
From Stdlib Require Import Strings.Byte.
From S2P Require Import Prelude SoftFloat BsonTypes StringView Decimal128 BsonCompare BsonOrder RefBid BsonRefine.
From S2P Require Import BsonArith Traversal PgbsonElement DollarOperators BsonWriter SortUtils ExprEval UpdateOperators UpdateTree.
Import ListNotations.
Local Open Scope Z_scope.

(** libbson's [bson_validate_with_error] and [bson_oid_init]. *)
Class LibBsonNew : Type := {
  bson_validate : fields -> bool;
  bson_oid_init : bytes
}.

Section Workflow.
Context {BL : BidLib} {LB : LibBson} {UV : UnionView} {LD : LibBsonDoc} {EE : ExprEngine} {PS : PgSort}
  {PQ : PositionalQuery} {LN : LibBsonNew}.
Local Open Scope res_scope.

(** ** One node *)

Definition WriteCurrentNode (leaf : BsonUpdateLeafNode) (currentValue : bson_value) (ew : pgbson_element_writer)
  (state : CurrentDocumentState) (isArray hasArrayAncestors : bool) (fieldPath : bytes)
  : res (pgbson_element_writer * bool) :=
  match writeFunc leaf with
  | None => Err NULL_DEREFERENCE
  | Some f =>
    let setValueState := {| fieldPath := fieldPath; relativePath := leaf_relativePath leaf;
                            isArray := isArray; hasArrayAncestors := hasArrayAncestors |} in
    let updateWriter := {| writer := ew; modified := false;
      updateArrayWriter := {| arrayWriter := ArrayWriter [] 0; isValid := false; array_modified := false |} |} in
    let* updateWriter := f currentValue updateWriter (fieldData leaf) (updateNodeContext leaf) setValueState state in
    if negb (modified updateWriter) && negb (type_eqb (value_type currentValue) BSON_TYPE_EOD) then
      let* ew := PgbsonElementWriterWriteValue (writer updateWriter) currentValue in Ok (ew, false)
    else Ok (writer updateWriter, modified updateWriter)
  end.

Definition IsAnErrorForIntermediateNodeOfDollarRenameOp (link : option (NodeType * bytes)) (sourceDoc : fields) : bool :=
  match link with
  | None => false
  | Some (NodeType_LeafExcluded, path) =>
    match bson_iter_find_descendant sourceDoc path with Some _ => true | None => false end
  | Some _ => true
  end.

Definition set_positional_index (state : CurrentDocumentState) (i : Z) : CurrentDocumentState :=
  {| documentId := documentId state; isUpsert := isUpsert state; sourceDocument := sourceDocument state;
     indexOfPositionalTypeQueryFilter := i |}.

(** Whether a node matches the field, and the state with the cached index of [$]. *)
Definition IsNodeMatchForIteratorPath (node : BsonPathNode) (fieldPath : bytes) (isArray : bool)
  (state : CurrentDocumentState) (currentValue : bson_value) : res (bool * CurrentDocumentState) :=
  match GetPositionalData node with
  | PositionalType_QueryFilter data =>
    let* state :=
      (if indexOfPositionalTypeQueryFilter state =? -1 then
         let* matchedIndex := MatchPositionalQueryAgainstDocument data (sourceDocument state) in
         if matchedIndex <? 0 then Err ERRCODE_DOCUMENTDB_BADVALUE else Ok (set_positional_index state matchedIndex)
       else Ok state) in
    if isArray then
      Ok (StringViewEquals (Some (bson_uint32_to_string (wrap_u 32 (indexOfPositionalTypeQueryFilter state))))
            (Some fieldPath), state)
    else Err ERRCODE_DOCUMENTDB_BADVALUE
  | PositionalType_ArrayFilter expression =>
    if isArray then
      let* matched := EvalBooleanExpressionAgainstValue expression currentValue true in Ok (matched, state)
    else Err ERRCODE_DOCUMENTDB_BADVALUE
  | PositionalType_All => if isArray then Ok (true, state) else Err ERRCODE_DOCUMENTDB_BADVALUE
  | PositionalType_None =>
    if isArray && (StringViewToPositiveInteger (Some (field node)) <? 0) then Err ERRCODE_DOCUMENTDB_BADVALUE
    else Ok (StringViewEquals (Some fieldPath) (Some (field node)), state)
  end.

(** The first child that matches, with its index. *)
Fixpoint match_child (children : list BsonPathNode) (i : Z) (fieldPath : bytes) (isArray : bool)
  (state : CurrentDocumentState) (currentValue : bson_value) : res (option (Z * BsonPathNode) * CurrentDocumentState) :=
  match children with
  | [] => Ok (None, state)
  | child :: children =>
    let* '(matched, state) := IsNodeMatchForIteratorPath child fieldPath isArray state currentValue in
    if matched : bool then Ok (Some (i, child), state)
    else match_child children (i + 1) fieldPath isArray state currentValue
  end.

(** ** Nodes that are not in the document *)

Definition id_field : bytes := str "_id".

Definition bms_is_member (handled : list Z) (i : Z) : bool := existsb (Z.eqb i) handled.

Section Iter.
Variable HandleUnresolvedDocumentFields : BsonPathNode -> pgbson_writer -> CurrentDocumentState -> bool -> res (pgbson_writer * bool).

(** The children from index [i] on. *)
Fixpoint unresolved_children (children : list BsonPathNode) (i : Z) (handled : list Z) (w : pgbson_writer)
  (isRootLevel : bool) (state : CurrentDocumentState) (hasArrayAncestors : bool) : res (pgbson_writer * bool) :=
  match children with
  | [] => Ok (w, false)
  | node :: children =>
    if isRootLevel && StringViewEquals (Some (field node)) (Some id_field)
    then unresolved_children children (i + 1) handled w isRootLevel state hasArrayAncestors
    else if bms_is_member handled i
    then unresolved_children children (i + 1) handled w isRootLevel state hasArrayAncestors
    else if isRootLevel && (blen (field node) >? 0) && byte_eqb (char_at (field node) 0) "$"%byte && negb (isUpsert state)
    then Err ERRCODE_DOCUMENTDB_BADVALUE
    else
      let* '(w, innerModified) :=
        match node with
        | LeafNode leaf =>
          match leaf_nodeType leaf with
          | NodeType_LeafExcluded => Ok (w, false)
          | NodeType_LeafIncluded | NodeType_LeafField =>
            let* '(ew, innerModified) :=
              WriteCurrentNode leaf VEod (PgbsonInitObjectElementWriter w (field node)) state false hasArrayAncestors
                (field node) in
            Ok (match ew with ObjectElementWriter w _ => w | ArrayElementWriter _ => w end, innerModified)
          end
        | IntermediateNode intermediate _ =>
          if IsIntermediateNodeWithField node || HasIntermediateIncludeChildren intermediate then
            let* '(childWriter, innerModified) :=
              HandleUnresolvedDocumentFields node (PgbsonWriterStartDocument w (field node)) state hasArrayAncestors in
            Ok (PgbsonWriterEndDocument w (field node) childWriter, innerModified)
          else Ok (w, false)
        end in
      let* '(w, restModified) := unresolved_children children (i + 1) handled w isRootLevel state hasArrayAncestors in
      Ok (w, innerModified || restModified)
  end.
End Iter.

(** Below the root nothing has been handled. *)
Fixpoint unresolved_node (node : BsonPathNode) (w : pgbson_writer) (state : CurrentDocumentState) (hasArrayAncestors : bool)
  : res (pgbson_writer * bool) :=
  match node with
  | LeafNode _ => Ok (w, false)
  | IntermediateNode tree children =>
    if hasPositionalChildren tree then Err ERRCODE_DOCUMENTDB_BADVALUE
    else unresolved_children unresolved_node children 0 [] w false state hasArrayAncestors
  end.

Definition HandleUnresolvedDocumentFields (tree : BsonUpdateIntermediatePathNode) (children : list BsonPathNode)
  (handled : list Z) (w : pgbson_writer) (isRootLevel : bool) (state : CurrentDocumentState) (hasArrayAncestors : bool)
  : res (pgbson_writer * bool) :=
  if hasPositionalChildren tree then Err ERRCODE_DOCUMENTDB_BADVALUE
  else unresolved_children unresolved_node children 0 handled w isRootLevel state hasArrayAncestors.

(** The highest index the tree asks for. *)
Fixpoint max_array_index (children : list BsonPathNode) (maxIndex : Z) : res Z :=
  match children with
  | [] => Ok maxIndex
  | child :: children =>
    let counts :=
      match child with
      | LeafNode l => match leaf_nodeType l with NodeType_LeafField => true | _ => false end
      | IntermediateNode i _ => hasExpressionFieldsInChildren i
      end in
    if negb counts then max_array_index children maxIndex
    else
      let pathIndex := StringViewToPositiveInteger (Some (field child)) in
      if pathIndex >=? 0 then max_array_index children (if pathIndex >? maxIndex then pathIndex else maxIndex)
      else if negb (is_positional (GetPositionalData child)) then Err ERRCODE_DOCUMENTDB_FAILEDTOPARSE
      else max_array_index children maxIndex
  end.

Definition find_index (children : list BsonPathNode) (i : Z) : option BsonPathNode :=
  find (fun child => StringViewToPositiveInteger (Some (field child)) =? i) children.

(** The element at index [i], which the array does not have yet. *)
Definition unresolved_element (children : list BsonPathNode) (i : Z) (ew : pgbson_element_writer)
  (state : CurrentDocumentState) : res (pgbson_element_writer * bool) :=
  match find_index children i with
  | None => let* ew := PgbsonElementWriterWriteValue ew VNull in Ok (ew, true)
  | Some (LeafNode leaf) => WriteCurrentNode leaf VEod ew state true true (leaf_field leaf)
  | Some (IntermediateNode intermediate grandchildren) =>
    if hasExpressionFieldsInChildren intermediate then
      let* '(childWriter, innerModified) :=
        HandleUnresolvedDocumentFields intermediate grandchildren [] (PgbsonElementWriterStartDocument ew) false state true in
      Ok (PgbsonElementWriterEndDocument ew childWriter, innerModified)
    else Ok (ew, false)
  end.

Fixpoint backfill (children : list BsonPathNode) (i : Z) (count : nat) (ew : pgbson_element_writer)
  (state : CurrentDocumentState) : res (pgbson_element_writer * bool) :=
  match count with
  | O => Ok (ew, false)
  | S count =>
    let* '(ew, innerModified) := unresolved_element children i ew state in
    let* '(ew, restModified) := backfill children (i + 1) count ew state in
    Ok (ew, innerModified || restModified)
  end.

Definition HandleUnresolvedArrayFields (children : list BsonPathNode) (currentMaxIndex : Z) (ew : pgbson_element_writer)
  (state : CurrentDocumentState) : res (pgbson_element_writer * bool) :=
  let* maxIndex := max_array_index children 0 in
  if maxIndex - currentMaxIndex >? 1500000 then Err ERRCODE_DOCUMENTDB_CANNOTBACKFILLARRAY
  else backfill children currentMaxIndex (Z.to_nat (maxIndex - currentMaxIndex + 1)) ew state.

(** ** Fields of the document *)

Section Fields.
(** [TraverseDocumentAndApplyUpdate] below the root and [TraverseArrayAndApplyUpdate],
    for the document or array that is the value of a field. *)
Variable TraverseNested : bson_value -> BsonUpdateIntermediatePathNode -> list BsonPathNode -> pgbson_element_writer ->
  CurrentDocumentState -> bool -> res (pgbson_element_writer * CurrentDocumentState * bool).

Definition HandleCurrentIteratorPosition (path : bytes) (currentValue : bson_value) (children : list BsonPathNode)
  (ew : pgbson_element_writer) (handled : list Z) (state : CurrentDocumentState) (isArray hasArrayAncestors : bool)
  : res (pgbson_element_writer * list Z * CurrentDocumentState * bool) :=
  let* '(child, state) := match_child children 0 path isArray state currentValue in
  match child with
  | None => let* ew := PgbsonElementWriterWriteValue ew currentValue in Ok (ew, handled, state, false)
  | Some (i, LeafNode node) =>
    let* '(ew, modified) := WriteCurrentNode node currentValue ew state isArray hasArrayAncestors path in
    Ok (ew, i :: handled, state, modified)
  | Some (i, IntermediateNode intermediate grandchildren) =>
    let* '(ew, state, modified) :=
      match currentValue with
      | VDocument _ | VArray _ => TraverseNested currentValue intermediate grandchildren ew state hasArrayAncestors
      | _ =>
        if negb (hasExpressionFieldsInChildren intermediate) then
          if isArray then Err ERRCODE_DOCUMENTDB_BADVALUE
          else if IsAnErrorForIntermediateNodeOfDollarRenameOp (sourceOrTargetNodeForRenameOP intermediate)
                    (sourceDocument state)
          then Err ERRCODE_DOCUMENTDB_PATHNOTVIABLE
          else let* ew := PgbsonElementWriterWriteValue ew currentValue in Ok (ew, state, false)
        else Err ERRCODE_DOCUMENTDB_PATHNOTVIABLE
      end in
    Ok (ew, i :: handled, state, modified)
  end.

Fixpoint document_fields (sourceDocIterator : fields) (children : list BsonPathNode) (w : pgbson_writer)
  (handled : list Z) (isRootLevel : bool) (state : CurrentDocumentState) (hasArrayAncestors : bool)
  : res (pgbson_writer * list Z * CurrentDocumentState * bool) :=
  match sourceDocIterator with
  | [] => Ok (w, handled, state, false)
  | (fieldPath, value) :: sourceDocIterator =>
    if isRootLevel && (strcmp fieldPath id_field =? 0)
    then document_fields sourceDocIterator children w handled isRootLevel state hasArrayAncestors
    else
      let* '(ew, handled, state, fieldModified) :=
        HandleCurrentIteratorPosition fieldPath value children (PgbsonInitObjectElementWriter w fieldPath) handled state
          false hasArrayAncestors in
      let w := match ew with ObjectElementWriter w _ => w | ArrayElementWriter _ => w end in
      let* '(w, handled, state, modified) :=
        document_fields sourceDocIterator children w handled isRootLevel state hasArrayAncestors in
      Ok (w, handled, state, fieldModified || modified)
  end.

Fixpoint array_elements (sourceDocIterator : fields) (children : list BsonPathNode) (ew : pgbson_element_writer)
  (handled : list Z) (state : CurrentDocumentState)
  : res (pgbson_element_writer * list Z * CurrentDocumentState * bool) :=
  match sourceDocIterator with
  | [] => Ok (ew, handled, state, false)
  | (fieldPath, value) :: sourceDocIterator =>
    let* '(ew, handled, state, fieldModified) :=
      HandleCurrentIteratorPosition fieldPath value children ew handled state true true in
    let* '(ew, handled, state, modified) := array_elements sourceDocIterator children ew handled state in
    Ok (ew, handled, state, fieldModified || modified)
  end.

Definition TraverseDocumentAndApplyUpdate (sourceDocIterator : fields) (w : pgbson_writer)
  (tree : BsonUpdateIntermediatePathNode) (children : list BsonPathNode) (isRootLevel : bool)
  (state : CurrentDocumentState) (hasArrayAncestors : bool) : res (pgbson_writer * CurrentDocumentState * bool) :=
  let* '(w, handled, state, modified) :=
    document_fields sourceDocIterator children w [] isRootLevel state hasArrayAncestors in
  let* '(w, unresolvedModified) :=
    HandleUnresolvedDocumentFields tree children handled w isRootLevel state hasArrayAncestors in
  Ok (w, state, modified || unresolvedModified).

Definition TraverseArrayAndApplyUpdate (sourceDocIterator : fields) (aw : pgbson_array_writer)
  (children : list BsonPathNode) (state : CurrentDocumentState) : res (pgbson_array_writer * CurrentDocumentState * bool) :=
  let* '(ew, _, state, modified) := array_elements sourceDocIterator children (PgbsonInitArrayElementWriter aw) [] state in
  let* '(ew, unresolvedModified) :=
    HandleUnresolvedArrayFields children (Z.of_nat (List.length sourceDocIterator)) ew state in
  Ok (match ew with ArrayElementWriter aw => aw | ObjectElementWriter _ _ => aw end, state, unresolvedModified || modified).
End Fields.

Fixpoint TraverseNested (value : bson_value) (tree : BsonUpdateIntermediatePathNode) (children : list BsonPathNode)
  (ew : pgbson_element_writer) (state : CurrentDocumentState) (hasArrayAncestors : bool)
  : res (pgbson_element_writer * CurrentDocumentState * bool) :=
  match value with
  | VDocument d =>
    let* '(childWriter, state, modified) :=
      TraverseDocumentAndApplyUpdate TraverseNested d (PgbsonElementWriterStartDocument ew) tree children false state
        hasArrayAncestors in
    Ok (PgbsonElementWriterEndDocument ew childWriter, state, modified)
  | VArray d =>
    let* '(childWriter, state, modified) :=
      TraverseArrayAndApplyUpdate TraverseNested d (PgbsonElementWriterStartArray ew) children state in
    Ok (PgbsonElementWriterEndArray ew childWriter, state, modified)
  | _ => Ok (ew, state, false)
  end.

(** ** The whole document *)

(** The writer with the [_id], and whether it was modified. *)
Definition HandleUpdateDocumentId (w : pgbson_writer) (children : list BsonPathNode) (state : CurrentDocumentState)
  : res (pgbson_writer * bool) :=
  match find_child children id_field with
  | None => Err ERRCODE_INTERNAL_ERROR
  | Some (IntermediateNode _ _) => Err ERRCODE_DOCUMENTDB_BADVALUE
  | Some (LeafNode leaf) =>
    match leaf_nodeType leaf with
    | NodeType_LeafExcluded =>
      match documentId state with
      | VEod => let* w := PgbsonWriterAppendValue w id_field (VOid bson_oid_init) in Ok (w, true)
      | v => let* w := PgbsonWriterAppendValue w id_field v in Ok (w, false)
      end
    | NodeType_LeafIncluded | NodeType_LeafField =>
      let* '(ew, modified) :=
        WriteCurrentNode leaf (documentId state) (PgbsonInitObjectElementWriter w id_field) state false false (leaf_field leaf) in
      Ok (match ew with ObjectElementWriter w _ => w | ArrayElementWriter _ => w end, modified)
    end
  end.

Definition ValidateIdField (idValue : bson_value) : res unit :=
  match idValue with
  | VArray _ | VUndefined | VRegex _ _ => Err ERRCODE_DOCUMENTDB_BADVALUE
  | VDocument d =>
    if existsb (fun kv => byte_eqb (char_at (fst kv) 0) "$"%byte) d then Err ERRCODE_DOCUMENTDB_DOLLARPREFIXEDFIELDNAME
    else Ok tt
  | _ => Ok tt
  end.

Definition value_at_path (doc : fields) (path : bytes) : bson_value :=
  match bson_iter_find_descendant doc path with Some v => v | None => VEod end.

(** [None] when the update changes nothing. *)
Definition ProcessUpdateOperatorWithState (sourceDoc : fields)
  (updateState : BsonUpdateIntermediatePathNode * list BsonPathNode) (isUpsert : bool) : res (option fields) :=
  let '(tree, children) := updateState in
  let currentDocState := {| documentId := value_at_path sourceDoc id_field; isUpsert := isUpsert;
                            sourceDocument := sourceDoc; indexOfPositionalTypeQueryFilter := -1 |} in
  let* '(w, updated) := HandleUpdateDocumentId PgbsonWriterInit children currentDocState in
  let* '(finalDoc, _, documentUpdated) :=
    TraverseDocumentAndApplyUpdate TraverseNested sourceDoc w tree children true currentDocState false in
  if negb (updated || documentUpdated) && negb isUpsert then Ok None
  else
    let newIdValue := value_at_path finalDoc id_field in
    let* sameId :=
      (if type_eqb (value_type newIdValue) BSON_TYPE_EOD then Ok false
       else if type_eqb (value_type (documentId currentDocState)) BSON_TYPE_EOD then Ok true
       else BsonValueEquals newIdValue (documentId currentDocState)) in
    if negb sameId then Err ERRCODE_DOCUMENTDB_IMMUTABLEFIELD
    else if negb (bson_validate finalDoc) then Err ERRCODE_DOCUMENTDB_BADVALUE
    else
      let* _ := ValidateIdField newIdValue in
      Ok (Some finalDoc).
End Workflow.
