(* ===== verification/UpdateRef.v ===== *)
(** * Reference instances for the update operators

    Concrete functions in place of libbson, PostgreSQL's sort and expression engine, with
    their laws proved, on which the witnesses and examples of the update files run. *)

From Stdlib Require Import ZArith Lia Bool String List SpecFloat Sorted Permutation.
From Stdlib Require Import Strings.Byte.
From S2P Require Import Prelude SoftFloat BsonTypes StringView Decimal128 BsonCompare BsonOrder RefBid BsonRefine.
From S2P Require Import BsonArith Traversal PgbsonElement DollarOperators BsonWriter IndexTerm SortUtils ExprEval UpdateOperators UpdateTree UpdateWorkflow.
Import ListNotations.
Local Open Scope Z_scope.

(** The options of a regular expression in alphabetical order. *)
Definition sorted_options (o : option bytes) : option bytes :=
  match o with
  | Some o => Some (filter (fun c => existsb (byte_eqb c) o) (str "ilmsux"))
  | None => None
  end.

Definition ref_append (v : bson_value) : option bson_value :=
  match v with
  | VEod => None
  | VCode s => Some (VCode (until_nul s))
  | VRegex p o => Some (VRegex p (sorted_options o))
  | v => Some v
  end.

Fixpoint ref_find (fuel : nat) (doc : fields) (path : bytes) : option bson_value :=
  match fuel with
  | O => None
  | S fuel =>
    match StringViewFindPrefix path dot with
    | None => option_map snd (find (fun kv => StringViewEquals (Some path) (Some (fst kv))) doc)
    | Some p =>
      match find (fun kv => StringViewEquals (Some p) (Some (fst kv))) doc with
      | Some (_, VDocument d) | Some (_, VArray d) => ref_find fuel d (skipn (S (List.length p)) path)
      | _ => None
      end
    end
  end.

#[local] Instance RefLibBsonDoc : LibBsonDoc := {|
  bson_append_value := ref_append;
  bson_iter_find_descendant d p := ref_find (S (List.length p)) d p |}.

#[local] Instance RefLibBsonDocLaws : LibBsonDocLaws RefLibBsonDoc.
Proof.
  constructor; [intros []; cbn; congruence|reflexivity| |].
  - intros [] H; cbn; try (eexists; split; reflexivity); congruence.
  - intros d k Hk _ Hd. cbn [bson_iter_find_descendant RefLibBsonDoc ref_find]. unfold StringViewFindPrefix.
    pose proof (memchr_inv k dot) as M. destruct (memchr k dot) as [n|].
    { destruct M as (p & q & -> & _). elim Hd. apply in_or_app. right. now left. }
    f_equal. induction d as [|[k' v'] d IH]; cbn [find fst]; [reflexivity|]. rewrite IH.
    replace (StringViewEquals (Some k) (Some k')) with (cmp_bytes k' k =? 0); [reflexivity|].
    apply eq_iff_eq_true. rewrite StringViewEquals_iff, Z.eqb_eq by exact Hk.
    split; [intros C; symmetry; now apply cmp_bytes_0|intros ->; apply cmp_bytes_refl].
Qed.

(** Insertion sort. *)
Fixpoint ref_insert (cmp : ElementWithIndex -> ElementWithIndex -> res Z) (a : ElementWithIndex) (l : list ElementWithIndex)
  : res (list ElementWithIndex) :=
  match l with
  | [] => Ok [a]
  | b :: l' =>
    match cmp a b with
    | Err e => Err e
    | Ok c => if c <=? 0 then Ok (a :: l) else
      match ref_insert cmp a l' with Ok l'' => Ok (b :: l'') | Err e => Err e end
    end
  end.

Fixpoint ref_sort (cmp : ElementWithIndex -> ElementWithIndex -> res Z) (l : list ElementWithIndex) : res (list ElementWithIndex) :=
  match l with
  | [] => Ok []
  | a :: l => match ref_sort cmp l with Ok l' => ref_insert cmp a l' | Err e => Err e end
  end.

#[local] Instance RefPgSort : PgSort := {| qsort_arg := ref_sort |}.

Lemma ref_insert_sorts cmp f a l : (forall x, In x l -> cmp a x = Ok (f a x)) ->
  (forall x, In x l -> anti2 (f a x) (f x a)) -> (forall x y, In x l -> In y l -> trans3 (f a x) (f x y) (f a y)) ->
  StronglySorted (fun a b => f a b <= 0) l ->
  exists l', ref_insert cmp a l = Ok l' /\ Permutation (a :: l) l' /\ StronglySorted (fun a b => f a b <= 0) l'.
Proof.
  intros C A T. induction 1 as [|b l S IH F]; cbn; [exists [a]; repeat constructor|].
  rewrite C by now left. destruct (Z.leb_spec (f a b) 0) as [L|L].
  - exists (a :: b :: l). split; [reflexivity|split; [reflexivity|]]. constructor; [now constructor|]. constructor; [exact L|].
    rewrite Forall_forall in *. intros y Hy. destruct (T b y) as [T1 _]; [now left|now right|]. specialize (F y Hy). tauto.
  - destruct IH as (l' & -> & P & S'); [intros; apply C; now right|intros; apply A; now right|intros; apply T; now right|].
    exists (b :: l'). split; [reflexivity|split; [rewrite perm_swap; now constructor|]]. constructor; [exact S'|].
    rewrite Forall_forall in *. intros y Hy. apply Permutation_in with (l' := a :: l) in Hy; [|now symmetry].
    destruct Hy as [<-|Hy]; [|now apply F]. pose proof (A b (or_introl eq_refl)) as Ab. unfold anti2 in Ab. lia.
Qed.

#[local] Instance RefPgSortLaws : PgSortLaws RefPgSort.
Proof.
  constructor. intros cmp f l (C & A & T). cbn. induction l as [|a l IH]; [exists []; repeat constructor|].
  cbn. destruct IH as (l' & -> & P & S).
  { intros; apply C; now right. } { intros; apply A; now right. } { intros; apply T; now right. }
  assert (Sub : forall x, In x l' -> In x (a :: l)) by (intros x Hx; right; now apply (Permutation_in _ (Permutation_sym P))).
  destruct (ref_insert_sorts cmp f a l') as (l'' & E & P' & S'); [..|exact S|].
  - intros x Hx. apply C; [now left|now apply Sub].
  - intros x Hx. apply A; [now left|now apply Sub].
  - intros x y Hx Hy. apply T; [now left|now apply Sub|now apply Sub].
  - exists l''. split; [exact E|split; [|exact S']]. rewrite <- P'. now constructor.
Qed.

#[local] Existing Instance RefBidLib.
#[local] Existing Instance RefLibBson.

(** An engine for [{$eq: value}] only. *)
#[local] Instance RefExprEngine : ExprEngine := {|
  ExprEvalState := bson_value;
  GetExpressionEvalState v := Ok v;
  ExpressionEval e element := match e with VDocument [(_, v)] => BsonValueEquals v (snd element) | _ => Ok false end |}.

#[local] Instance RefPositionalQuery : PositionalQuery := {|
  BsonPositionalQueryData := unit;
  GetPositionalQueryData _ := Ok tt;
  MatchPositionalQueryAgainstDocument _ _ := Ok 0 |}.

#[local] Instance RefLibBsonNew : LibBsonNew := {| bson_validate _ := true; bson_oid_init := repeat x00 12 |}.
#[local] Instance RefUnionView : UnionView := {| v_int32_of_other _ := 0 |}.

(** An update with the reference instances. *)
Definition ref_update (doc spec : fields) (arrayFilters : option bson_value) (isUpsert : bool) : res (option fields) :=
  res_bind (GetOperatorUpdateState false (fun _ _ => (0, 0)) (VDocument spec) (VDocument []) arrayFilters isUpsert)
    (fun tree => ProcessUpdateOperatorWithState doc tree isUpsert).
