(* ===== verification/AggData.v ===== *)
(** * Aggregation expressions: data ([operators/bson_expression.h], [bson_expression.c])

    An expression such as [{$add: ["$a", 1]}] is parsed once into an
    [AggregationExpressionData] and evaluated for every document.  This file has the
    parsed form, the contexts of variables, the results of an evaluation and the
    evaluation of field paths.

    The variables of a context are one variable, or a hash table when there are
    several.  A table is its list of entries with a number that stands for its
    address; the state [tables] knows which tables were destroyed, and a search in
    one of these is an error.  An evaluation is a function of that state. *)

From Stdlib Require Import ZArith Lia Bool String List.
From Stdlib Require Import Strings.Byte.
From S2P Require Import Prelude BsonTypes StringView Traversal BsonWriter.
Import ListNotations.
Local Open Scope Z_scope.

(** ** The state: hash tables *)

Record tables : Set := Tables { next_table : nat; destroyed : list nat }.

Definition M (A : Type) : Type := tables -> res (A * tables).

Definition ret {A} (a : A) : M A := fun t => Ok (a, t).
Definition raise {A} (e : errcode) : M A := fun _ => Err e.
Definition bind {A B} (m : M A) (k : A -> M B) : M B :=
  fun t => match m t with Ok (a, t) => k a t | Err e => Err e end.
Definition lift {A} (r : res A) : M A := fun t => match r with Ok a => Ok (a, t) | Err e => Err e end.

Declare Scope agg_scope.
Delimit Scope agg_scope with agg.
Notation "'let!' x ':=' m 'in' k" := (bind m (fun x => k))
  (at level 10, x name, m at level 100, k at level 200) : agg_scope.
Notation "'let!' ' p ':=' m 'in' k" := (bind m (fun p => k))
  (at level 10, p strict pattern, m at level 100, k at level 200) : agg_scope.

Definition hash_create : M nat := fun t => Ok (next_table t, Tables (S (next_table t)) (destroyed t)).
Definition hash_destroy (table : nat) : M unit := fun t => Ok (tt, Tables (next_table t) (table :: destroyed t)).

(** A table that was destroyed is read. *)
Definition read_table (table : nat) : M unit :=
  fun t => if existsb (Nat.eqb table) (destroyed t) then Err USE_AFTER_FREE else Ok (tt, t).

(** ** Parsed expressions *)

Inductive AggregationExpressionSystemVariableKind : Set :=
| Now | ClusterTime | Root | Current | Remove | Descend | Prune | Keep | SearchMeta | UserRoles.

Inductive ComparisonType : Set :=
| ComparisonType_Cmp | ComparisonType_Eq | ComparisonType_Gt | ComparisonType_Gte
| ComparisonType_Lt | ComparisonType_Lte | ComparisonType_Ne.

Inductive BooleanType : Set := BooleanType_Or | BooleanType_And | BooleanType_Not.

(** The arithmetic operators with one and with two operands. *)
Inductive OneOperand : Set :=
| DollarAbs | DollarCeil | DollarExp | DollarFloor | DollarLn | DollarLog10 | DollarSqrt.
Inductive TwoOperands : Set :=
| DollarDivide | DollarLog | DollarMod | DollarPow | DollarRound | DollarSubtract | DollarTrunc.

(** The handler of an operator, a function pointer in the source. *)
Inductive HandlePreParsedOperatorFunc : Set :=
| DollarBoolean (booleanType : BooleanType)
| DollarComparison (comparisonType : ComparisonType)
| DollarCond | DollarIfNull | DollarSwitch | DollarLet
| DollarAdd | DollarMultiply
| DollarOneOperand (op : OneOperand)
| DollarTwoOperands (op : TwoOperands)
| DollarOther.

Section Data.
(** The arguments of the operators of the files that are not modelled. *)
Context {OtherArguments : Set}.

(** [Path] and [Variable] keep the string with its prefix.  The root of the tree of
    a document is its list of children, an array the list of its elements. *)
Unset Elimination Schemes.
Inductive AggregationExpressionData : Set :=
| ConstantExpr (value : bson_value)
| PathExpr (value : bytes)
| VariableExpr (value : bytes)
| SystemVariableExpr (kind : AggregationExpressionSystemVariableKind) (pathSuffix : bytes)
| ArrayExpr (items : list AggregationExpressionData)
| DocumentExpr (expressionTree : list BsonPathNode)
| OperatorExpr (handleExpressionFunc : HandlePreParsedOperatorFunc) (arguments : Arguments)
with BsonPathNode : Set :=
| LeafField (field : bytes) (fieldData : AggregationExpressionData)
| IntermediateNode (field : bytes) (hasExpressionFieldsInChildren : bool) (children : list BsonPathNode)
with Arguments : Set :=
| ArgumentsPalloc (data : AggregationExpressionData)
| ArgumentsList (list : list AggregationExpressionData)
| ComparisonOperatorState (firstArg secondArg : AggregationExpressionData) (collationString : option bytes)
| SwitchEntries (entries : list (AggregationExpressionData * AggregationExpressionData))
| LetArguments (inData : AggregationExpressionData) (inputVariableContext : VariableFrame)
| ArgumentsOther (arguments : OtherArguments)
with VariableFrame : Set :=
| NoVariables
| SingleVariable (variable : VariableData)
| VariableTable (table : nat) (entries : list VariableData)
with VariableData : Set :=
| Constant_Variable (name : bytes) (bsonValue : bson_value)
| Expression_Variable (name : bytes) (expression : AggregationExpressionData).
Set Elimination Schemes.

Definition variable_name (v : VariableData) : bytes :=
  match v with Constant_Variable name _ | Expression_Variable name _ => name end.

Definition IsAggregationExpressionConstant (data : AggregationExpressionData) : bool :=
  match data with ConstantExpr _ => true | _ => false end.

Definition constant_value (data : AggregationExpressionData) : bson_value :=
  match data with ConstantExpr v => v | _ => VEod end.

Definition AreElementsInListConstant (args : list AggregationExpressionData) : bool :=
  forallb IsAggregationExpressionConstant args.

Definition node_field (node : BsonPathNode) : bytes :=
  match node with LeafField field _ | IntermediateNode field _ _ => field end.

(** ** Contexts of variables *)

(** A context and its ancestors; the empty list is [NULL]. *)
Definition ExpressionVariableContext : Set := list VariableFrame.

Definition same_name (a b : bytes) : bool := StringViewEquals (Some a) (Some b).

Fixpoint InsertVariableToContextTable (variableElement : VariableData) (entries : list VariableData)
  : list VariableData :=
  match entries with
  | [] => [variableElement]
  | e :: entries =>
    if CompareStringView (variable_name e) (variable_name variableElement) =? 0
    then variableElement :: entries
    else e :: InsertVariableToContextTable variableElement entries
  end.

Local Open Scope agg_scope.

Definition VariableContextSetVariableData (variableContext : VariableFrame) (variableData : VariableData)
  : M VariableFrame :=
  match variableContext with
  | NoVariables => ret (SingleVariable variableData)
  | SingleVariable currentVariable =>
    if same_name (variable_name variableData) (variable_name currentVariable)
    then ret (SingleVariable variableData)
    else
      let! table := hash_create in
      ret (VariableTable table
             (InsertVariableToContextTable variableData (InsertVariableToContextTable currentVariable [])))
  | VariableTable table entries =>
    let! _ := read_table table in
    ret (VariableTable table (InsertVariableToContextTable variableData entries))
  end.

Definition VariableContextSetVariableExpression (variableContext : VariableFrame) (name : bytes)
  (variableExpression : AggregationExpressionData) : M VariableFrame :=
  VariableContextSetVariableData variableContext (Expression_Variable name variableExpression).

(** ** Results of an evaluation *)

(** The lifetime tracker, which frees memory, is left out.  [writer] is meaningful
    only with [isExpressionWriter]. *)
Record ExpressionResult : Set := {
  value : bson_value;
  isExpressionWriter : bool;
  isFieldPathExpression : bool;
  writer : pgbson_element_writer;
  hasBaseWriter : bool;
  valueSet : bool;
  variableFrame : VariableFrame;
  variableParent : ExpressionVariableContext
}.

Definition no_writer : pgbson_element_writer := ObjectElementWriter [] [].

Definition ExpressionResultCreateWithTracker : ExpressionResult :=
  {| value := VEod; isExpressionWriter := false; isFieldPathExpression := false; writer := no_writer;
     hasBaseWriter := false; valueSet := false; variableFrame := NoVariables; variableParent := [] |}.

Definition ExpressionResultCreateFromElementWriter (writer : pgbson_element_writer)
  (parentVariableContext : ExpressionVariableContext) : ExpressionResult :=
  {| value := VEod; isExpressionWriter := true; isFieldPathExpression := false; writer := writer;
     hasBaseWriter := false; valueSet := false; variableFrame := NoVariables;
     variableParent := parentVariableContext |}.

(** The address of the context of a result. *)
Definition variableContext (r : ExpressionResult) : ExpressionVariableContext := variableFrame r :: variableParent r.

(** A result with another context. *)
Definition with_context (r : ExpressionResult) (frame : VariableFrame) (parent : ExpressionVariableContext)
  : ExpressionResult :=
  {| value := value r; isExpressionWriter := isExpressionWriter r; isFieldPathExpression := isFieldPathExpression r;
     writer := writer r; hasBaseWriter := hasBaseWriter r; valueSet := valueSet r;
     variableFrame := frame; variableParent := parent |}.

Definition with_writer (r : ExpressionResult) (w : pgbson_element_writer) : ExpressionResult :=
  {| value := value r; isExpressionWriter := isExpressionWriter r; isFieldPathExpression := isFieldPathExpression r;
     writer := w; hasBaseWriter := hasBaseWriter r; valueSet := valueSet r;
     variableFrame := variableFrame r; variableParent := variableParent r |}.

Definition with_field_path (r : ExpressionResult) (b : bool) : ExpressionResult :=
  {| value := value r; isExpressionWriter := isExpressionWriter r; isFieldPathExpression := b;
     writer := writer r; hasBaseWriter := hasBaseWriter r; valueSet := valueSet r;
     variableFrame := variableFrame r; variableParent := variableParent r |}.

Definition with_value (r : ExpressionResult) (v : bson_value) : ExpressionResult :=
  {| value := v; isExpressionWriter := isExpressionWriter r; isFieldPathExpression := isFieldPathExpression r;
     writer := writer r; hasBaseWriter := hasBaseWriter r; valueSet := true;
     variableFrame := variableFrame r; variableParent := variableParent r |}.

Definition ExpressionResultCreateChild (parent : ExpressionResult) : ExpressionResult :=
  with_context ExpressionResultCreateWithTracker NoVariables (variableContext parent).

Definition ExpressionResultReset (r : ExpressionResult) : res ExpressionResult :=
  if isExpressionWriter r then Err ERRCODE_INTERNAL_ERROR
  else Ok {| value := VEod; isExpressionWriter := false; isFieldPathExpression := isFieldPathExpression r;
             writer := writer r; hasBaseWriter := false; valueSet := false;
             variableFrame := variableFrame r; variableParent := variableParent r |}.

(** [hash_destroy] of the table of the result, unless it has a single variable;
    it ignores [NULL]. *)
Definition destroy_variables (r : ExpressionResult) : M ExpressionResult :=
  match variableFrame r with
  | VariableTable table _ =>
    let! _ := read_table table in
    let! _ := hash_destroy table in
    ret (with_context r NoVariables (variableParent r))
  | _ => ret r
  end.

Context {LD : LibBsonDoc}.

Definition ExpressionResultSetValue (r : ExpressionResult) (v : bson_value) : M ExpressionResult :=
  let! r := (if isExpressionWriter r then
               let! w := lift (PgbsonElementWriterWriteValue (writer r) v) in ret (with_writer r w)
             else ret (with_value r v)) in
  destroy_variables r.

(** The value at the path of an object writer, or at the next index of an array. *)
Definition PgbsonElementWriterGetValue (w : pgbson_element_writer) : bson_value :=
  let found :=
    match w with
    | ArrayElementWriter a => lookup (innerBson a) (array_key a)
    | ObjectElementWriter o path => lookup o path
    end in
  match found with Some v => v | None => VEod end.

(** Values with storage of their own are copied into a document of one field. *)
Definition copy_value (v : bson_value) : res bson_value :=
  match v with
  | VEod | VBool _ | VDateTime _ | VDouble _ | VDecimal128 _ | VInt32 _ | VInt64 _ | VNull | VOid _ | VTimestamp _ _ => Ok v
  | _ =>
    match PgbsonWriterAppendValue PgbsonWriterInit [] v with
    | Ok [(_, copy)] => Ok copy
    | Ok _ => Err ERRCODE_DOCUMENTDB_BADVALUE
    | Err e => Err e
    end
  end.

Definition ExpressionResultSetValueFromWriter (r : ExpressionResult) : M ExpressionResult :=
  if negb (isExpressionWriter r) then raise ERRCODE_INTERNAL_ERROR
  else if valueSet r then raise ERRCODE_INTERNAL_ERROR
  else
    let! v := lift (copy_value (PgbsonElementWriterGetValue (writer r))) in
    destroy_variables
      {| value := v; isExpressionWriter := if hasBaseWriter r then false else isExpressionWriter r;
         isFieldPathExpression := isFieldPathExpression r; writer := writer r; hasBaseWriter := false;
         valueSet := true; variableFrame := variableFrame r; variableParent := variableParent r |}.

(** A result that has no writer gets one for the field with the empty name. *)
Definition ExpressionResultGetElementWriter (r : ExpressionResult) : res ExpressionResult :=
  if valueSet r then Err ERRCODE_INTERNAL_ERROR
  else if isExpressionWriter r then Ok r
  else Ok {| value := value r; isExpressionWriter := true; isFieldPathExpression := isFieldPathExpression r;
             writer := PgbsonInitObjectElementWriter PgbsonWriterInit []; hasBaseWriter := true; valueSet := false;
             variableFrame := variableFrame r; variableParent := variableParent r |}.

Definition ExpressionResultSetConstantVariable (r : ExpressionResult) (variableName : bytes) (v : bson_value)
  : M ExpressionResult :=
  let! frame := VariableContextSetVariableData (variableFrame r) (Constant_Variable variableName v) in
  ret (with_context r frame (variableParent r)).
End Data.

(** ** Missing values *)

Definition IsExpressionResultUndefined (v : bson_value) : bool :=
  match v with VUndefined | VEod => true | _ => false end.
Definition IsExpressionResultNull (v : bson_value) : bool :=
  match v with VNull | VUndefined => true | _ => false end.
Definition IsExpressionResultNullOrUndefined (v : bson_value) : bool :=
  match v with VNull => true | _ => IsExpressionResultUndefined v end.

(** ** Field paths *)

Section FieldPath.
Context {LD : LibBsonDoc}.
Local Open Scope res_scope.

(** The array an inner element writer writes to. *)
Definition array_writer (w : pgbson_element_writer) : pgbson_array_writer :=
  match w with ArrayElementWriter a => a | ObjectElementWriter o _ => ArrayWriter o 0 end.

Definition write_null_or_nothing (w : pgbson_element_writer) (isNullOnEmpty : bool) : res (bool * pgbson_element_writer) :=
  if isNullOnEmpty then let* w := PgbsonElementWriterWriteValue w VNull in Ok (true, w) else Ok (false, w).

(** The loop over the elements of an array, which enters documents. *)
Fixpoint write_array_elements (core : fields -> pgbson_element_writer -> res (bool * pgbson_element_writer))
  (items : fields) (innerWriter : pgbson_element_writer) : res pgbson_element_writer :=
  match items with
  | [] => Ok innerWriter
  | (_, VDocument d) :: items =>
    let* '(_, innerWriter) := core d innerWriter in write_array_elements core items innerWriter
  | _ :: items => write_array_elements core items innerWriter
  end.

(** The fuel bounds the depth of the stack. *)
Fixpoint EvaluateFieldPathAndWriteCore (fuel : nat) (document : fields) (path : bytes) (w : pgbson_element_writer)
  (isNullOnEmpty : bool) : res (bool * pgbson_element_writer) :=
  match fuel with
  | O => Err ERRCODE_STATEMENT_TOO_COMPLEX
  | S fuel =>
    match memchr path dot with
    | None =>
      match lookup document path with
      | None => write_null_or_nothing w isNullOnEmpty
      | Some v => let* w := PgbsonElementWriterWriteValue w v in Ok (true, w)
      end
    | Some offset =>
      let remainingPath := skipn (S offset) path in
      match lookup document (firstn offset path) with
      | None => write_null_or_nothing w isNullOnEmpty
      | Some (VDocument d) => EvaluateFieldPathAndWriteCore fuel d remainingPath w isNullOnEmpty
      | Some (VArray items) =>
        let arrayWriter := PgbsonElementWriterStartArray w in
        let* innerWriter :=
          write_array_elements (fun d w => EvaluateFieldPathAndWriteCore fuel d remainingPath w false)
            items (PgbsonInitArrayElementWriter arrayWriter) in
        Ok (true, PgbsonElementWriterEndArray w (array_writer innerWriter))
      | Some _ => Ok (false, w)
      end
    end
  end.

Definition EvaluateFieldPathAndWrite (v : bson_value) (path : bytes) (w : pgbson_element_writer) (isNullOnEmpty : bool)
  : res (bool * pgbson_element_writer) :=
  let core d w := EvaluateFieldPathAndWriteCore (S (List.length path)) d path w isNullOnEmpty in
  match v with
  | VDocument d => core d w
  | VArray items =>
    let arrayWriter := PgbsonElementWriterStartArray w in
    let* innerWriter := write_array_elements core items (PgbsonInitArrayElementWriter arrayWriter) in
    Ok (true, PgbsonElementWriterEndArray w (array_writer innerWriter))
  | _ => Ok (false, w)
  end.
End FieldPath.
