(* ===== verification/AggOperators.v ===== *)
(** * Aggregation operators on values
      ([operators/bson_expression_{boolean,comparison,arithmetic}_operators.c])

    What an operator computes from the values of its arguments: the functions that
    the parser applies to constant arguments and the handlers to evaluated ones.
    Whether an argument was a field path changes the text of an error only and is
    left out. *)

From Stdlib Require Import ZArith Lia Bool String List SpecFloat.
From Stdlib Require Import Strings.Byte.
From S2P Require Import Prelude SoftFloat BsonTypes StringView Decimal128 BsonCompare BsonArith AggData.
Import ListNotations.
Local Open Scope Z_scope.

(** [exp] and [log] of the C library. *)
Class LibM : Type := { libm_exp : Z -> Z; libm_log : Z -> Z }.

(** [fmod]: the remainder of the truncated division, which is exact, with the sign of
    the dividend. *)
Definition sf_fmod (x y : spec_float) : spec_float :=
  match x, y with
  | S754_nan, _ | _, S754_nan | S754_infinity _, _ | _, S754_zero _ => S754_nan
  | S754_zero _, _ | _, S754_infinity _ => x
  | S754_finite s m e, S754_finite _ m' e' =>
    let low := Z.min e e' in
    let r := (Zpos m * 2 ^ (e - low)) mod (Zpos m' * 2 ^ (e' - low)) in
    binary_normalize 53 1024 (cond_Zopp s r) low s
  end.
Definition double_fmod (a b : Z) : Z := bits_of_sf (sf_fmod (sf_of_bits a) (sf_of_bits b)).

Definition double_isnan (bits : Z) : bool :=
  match sf_of_bits bits with S754_nan => true | _ => false end.
Definition double_isinf (bits : Z) : bool :=
  match sf_of_bits bits with S754_infinity _ => true | _ => false end.
Definition double_eq0 (bits : Z) : bool := SFeqb (sf_of_bits bits) (S754_zero false).
Definition double_le (bits : Z) (z : Z) : bool := SFleb (sf_of_bits bits) (sf_of_bits (double_of_int z)).
Definition double_lt (bits : Z) (z : Z) : bool := SFltb (sf_of_bits bits) (sf_of_bits (double_of_int z)).
Definition double_gt (bits : Z) (z : Z) : bool := SFltb (sf_of_bits (double_of_int z)) (sf_of_bits bits).
Definition double_ge (bits : Z) (z : Z) : bool := SFleb (sf_of_bits (double_of_int z)) (sf_of_bits bits).
Definition NAN : Z := 9221120237041090560.

Section Operators.
Context {BL : BidLib} {LB : LibBson} {LM : LibM}.
Local Open Scope res_scope.

(** ** Boolean operators *)

(** The new result, and whether the next element is to be processed. *)
Definition ProcessBooleanOperator (currentElement : bson_value) (result : bool) (booleanType : BooleanType)
  : res (bool * bool) :=
  match booleanType with
  | BooleanType_Or =>
    let* r := (if result then Ok true else BsonValueAsBool currentElement) in Ok (r, negb r)
  | BooleanType_And =>
    let* r := (if result then BsonValueAsBool currentElement else Ok false) in Ok (r, r)
  | BooleanType_Not => let* r := BsonValueAsBool currentElement in Ok (negb r, true)
  end.

(** ** Comparisons *)

Definition CompareExpressionBsonValues (firstValue secondValue : bson_value) (collationString : option bytes)
  (comparisonType : ComparisonType) : res bson_value :=
  let* '(cmp, isComparisonValid) := CompareBsonValueAndTypeWithCollation firstValue secondValue collationString in
  Ok (match comparisonType with
      | ComparisonType_Cmp => VInt32 (if cmp =? 0 then 0 else if cmp >? 0 then 1 else -1)
      | ComparisonType_Eq => VBool (isComparisonValid && (cmp =? 0))
      | ComparisonType_Gt => VBool (cmp >? 0)
      | ComparisonType_Gte => VBool (cmp >=? 0)
      | ComparisonType_Lt => VBool (cmp <? 0)
      | ComparisonType_Lte => VBool (cmp <=? 0)
      | ComparisonType_Ne => VBool (negb isComparisonValid || negb (cmp =? 0))
      end).

(** ** [$add] and [$multiply] *)

Record DollarAddState : Set := AddState { isDateTimeAdd : bool; foundUndefined : bool }.

Definition as_decimal (v : bson_value) : res bson_value :=
  let* d := GetBsonValueAsDecimal128Quantized v in Ok (VDecimal128 d).

Definition is_success (r : Decimal128Result) : bool :=
  match r with Decimal128Result_Success => true | _ => false end.

(** A decimal is added to a date: outside the range of dates, an invalid date. *)
Definition add_decimal_to_date (result evaluatedValue : bson_value) : res (bson_value * bool) :=
  let* '(result, evaluatedValue) :=
    (if negb (is_decimal result) then let* r := as_decimal result in Ok (r, evaluatedValue)
     else if negb (is_decimal evaluatedValue) then let* e := as_decimal evaluatedValue in Ok (result, e)
     else Ok (result, evaluatedValue)) in
  let* '(sum, outcome) := AddDecimal128Numbers result evaluatedValue in
  let* good :=
    (if negb (is_success outcome) then Ok false
     else
       let* finite := IsDecimal128Finite sum in
       if negb finite then Ok false else IsDecimal128InInt64Range sum) in
  if good then Ok (sum, true) else Ok (VDateTime INT64_MAX, false).

(** The new state and result, and whether to go on. *)
Definition ProcessDollarAdd (currentElement : bson_value) (state : DollarAddState) (result : bson_value)
  : res (DollarAddState * bson_value * bool) :=
  match currentElement with
  | VNull => Ok (state, VNull, false)
  | _ =>
    if IsExpressionResultUndefined currentElement then Ok (AddState (isDateTimeAdd state) true, result, true)
    else if negb (BsonValueIsNumber currentElement) && negb (type_eqb (value_type currentElement) BSON_TYPE_DATE_TIME)
    then Err ERRCODE_DOCUMENTDB_DOLLARADDNUMERICORDATETYPES
    else
      let* '(state, evaluatedValue) :=
        match currentElement with
        | VDateTime dateTime =>
          if isDateTimeAdd state then Err ERRCODE_DOCUMENTDB_DOLLARADDONLYONEDATE
          else Ok (AddState true (foundUndefined state), VInt64 dateTime)
        | _ => Ok (state, currentElement)
        end in
      if isDateTimeAdd state && (is_decimal result || is_decimal evaluatedValue) then
        let* '(result, continue) := add_decimal_to_date result evaluatedValue in Ok (state, result, continue)
      else
        let* u := AddNumberToBsonValue result evaluatedValue false in Ok (state, updated u, true)
  end.

Definition CheckForDateOverflow (v : bson_value) : bool :=
  match v with
  | VDouble d => double_isnan d || double_le d INT64_MIN || double_ge d INT64_MAX
  | _ => false
  end.

Definition ProcessDollarAddAccumulatedResult (state : DollarAddState) (result : bson_value) : res bson_value :=
  let* result :=
    (if isDateTimeAdd state then
       if CheckForDateOverflow result then Err ERRCODE_DOCUMENTDB_OVERFLOW
       else if negb (foundUndefined state) && negb (type_eqb (value_type result) BSON_TYPE_DATE_TIME) then
         let* dateTime := BsonValueAsInt64WithRoundingMode result ConversionRoundingMode_NearestEven false in
         Ok (VDateTime dateTime)
       else Ok result
     else Ok result) in
  Ok (if foundUndefined state then VNull else result).

Definition ProcessDollarMultiply (currentElement result : bson_value) : res (bson_value * bool) :=
  if IsExpressionResultNullOrUndefined currentElement then Ok (VNull, false)
  else if negb (BsonValueIsNumber currentElement) then Err ERRCODE_DOCUMENTDB_TYPEMISMATCH
  else let* '(_, result) := MultiplyWithFactorAndUpdate result currentElement true in Ok (result, true).

(** ** Operators with one operand *)

Definition CompareBsonDecimal128ToZero (v : bson_value) : res (Z * bool) :=
  CompareBsonDecimal128 v (VDecimal128 (Dec128 0 0)).

(** A null or missing operand gives null; other values must be numbers. *)
Definition numeric_operand (currentValue : bson_value) (f : bson_value -> res bson_value) : res bson_value :=
  if IsExpressionResultNullOrUndefined currentValue then Ok VNull
  else if negb (BsonValueIsNumber currentValue) then Err ERRCODE_DOCUMENTDB_LOCATION28765
  else f currentValue.

Definition ProcessDollarCeil (currentValue : bson_value) : res bson_value :=
  numeric_operand currentValue (fun v =>
    match v with
    | VDecimal128 _ => result_value (CeilDecimal128Number v)
    | VDouble d => Ok (VDouble (bits_of_sf (sf_ceil (sf_of_bits d))))
    | _ => Ok v
    end).

Definition ProcessDollarFloor (currentValue : bson_value) : res bson_value :=
  numeric_operand currentValue (fun v =>
    match v with
    | VDecimal128 _ => result_value (FloorDecimal128Number v)
    | VDouble d => Ok (VDouble (bits_of_sf (sf_floor (sf_of_bits d))))
    | _ => Ok v
    end).

Definition ProcessDollarExp (currentValue : bson_value) : res bson_value :=
  numeric_operand currentValue (fun v =>
    match v with
    | VDecimal128 _ => result_value (EulerExpDecimal128 v)
    | _ => let* power := BsonValueAsDouble v in Ok (VDouble (libm_exp power))
    end).

Definition ProcessDollarSqrt (currentValue : bson_value) : res bson_value :=
  numeric_operand currentValue (fun v =>
    let* d := GetBsonValueAsDecimal128 v in
    let* '(cmp, isComparisonValid) := CompareBsonDecimal128ToZero (VDecimal128 d) in
    if isComparisonValid && (cmp =? -1) then Err ERRCODE_DOCUMENTDB_DOLLARSQRTGREATEROREQUALTOZERO
    else
      let* sqrtResult := result_value (SqrtDecimal128Number (VDecimal128 d)) in
      match v with
      | VDecimal128 _ => Ok sqrtResult
      | _ => let* d := GetBsonDecimal128AsDouble sqrtResult in Ok (VDouble d)
      end).

(** [$log10] and [$ln]: a decimal result for a decimal operand, unless it is NaN. *)
Definition logarithm (f : bson_value -> res (bson_value * Decimal128Result)) (not_positive : errcode)
  (currentValue : bson_value) : res bson_value :=
  numeric_operand currentValue (fun v =>
    let* d := GetBsonValueAsDecimal128 v in
    let* '(cmp, isComparisonValid) := CompareBsonDecimal128ToZero (VDecimal128 d) in
    if isComparisonValid && negb (cmp =? 1) then Err not_positive
    else
      let* logResult := result_value (f (VDecimal128 d)) in
      let* decimal := (if is_decimal v then let* nan := IsDecimal128NaN logResult in Ok (negb nan) else Ok false) in
      if decimal : bool then Ok logResult
      else let* d := GetBsonDecimal128AsDouble logResult in Ok (VDouble d)).

Definition ProcessDollarLog10 : bson_value -> res bson_value :=
  logarithm Log10Decimal128Number ERRCODE_DOCUMENTDB_DOLLARLOG10MUSTBEPOSITIVENUMBER.
Definition ProcessDollarLn : bson_value -> res bson_value :=
  logarithm NaturalLogarithmDecimal128Number ERRCODE_DOCUMENTDB_DOLLARLNMUSTBEPOSITIVENUMBER.

Definition ProcessDollarAbs (currentValue : bson_value) : res bson_value :=
  numeric_operand currentValue (fun v =>
    match v with
    | VDecimal128 _ => result_value (AbsDecimal128Number v)
    | VDouble d => Ok (VDouble (double_fabs d))
    | _ =>
      if match v with VInt64 z => z =? INT64_MIN | _ => false end
      then Err ERRCODE_DOCUMENTDB_DOLLARABSCANTTAKELONGMINVALUE
      else
        let* z := BsonValueAsInt64 v in
        let absValue := wrap_s 64 (Z.abs z) in
        Ok (if type_eqb (value_type v) BSON_TYPE_INT32 && (absValue <=? INT32_MAX)
            then VInt32 absValue else VInt64 absValue)
    end).

Definition ProcessOneOperand (op : OneOperand) : bson_value -> res bson_value :=
  match op with
  | DollarAbs => ProcessDollarAbs
  | DollarCeil => ProcessDollarCeil
  | DollarExp => ProcessDollarExp
  | DollarFloor => ProcessDollarFloor
  | DollarLn => ProcessDollarLn
  | DollarLog10 => ProcessDollarLog10
  | DollarSqrt => ProcessDollarSqrt
  end.

(** ** Operators with two operands *)

Record DualArgumentExpressionState : Set := {
  firstArgument : bson_value;
  secondArgument : bson_value;
  hasNullOrUndefined : bool
}.

Definition InitializeDualArgumentExpressionState (firstValue secondValue : bson_value) : DualArgumentExpressionState :=
  {| firstArgument := firstValue; secondArgument := secondValue;
     hasNullOrUndefined := IsExpressionResultNullOrUndefined firstValue || IsExpressionResultNullOrUndefined secondValue |}.

Definition is_date (v : bson_value) : bool := type_eqb (value_type v) BSON_TYPE_DATE_TIME.

Definition ProcessDollarSubtract (dualState : DualArgumentExpressionState) : res bson_value :=
  if hasNullOrUndefined dualState then Ok VNull
  else
    let minuend := firstArgument dualState in
    let subtrahend := secondArgument dualState in
    if negb (BsonValueIsNumber minuend) && negb (is_date minuend) then Err ERRCODE_DOCUMENTDB_TYPEMISMATCH
    else if negb (BsonValueIsNumber subtrahend) && (negb (is_date minuend) || negb (is_date subtrahend))
    then Err ERRCODE_DOCUMENTDB_TYPEMISMATCH
    else
      match minuend with
      | VDateTime from =>
        let '(subtrahend, isDateTimeResult) :=
          match subtrahend with VDateTime ms => (VInt64 ms, false) | _ => (subtrahend, true) end in
        let* u := SubtractNumberFromBsonValue (VInt64 from) subtrahend false in
        if isDateTimeResult : bool then
          let* dateTime := BsonValueAsInt64 (updated u) in Ok (VDateTime dateTime)
        else
          match updated u with
          | VInt64 z => Ok (VInt64 z)
          | r => let* z := BsonValueAsInt64 r in Ok (VInt64 z)
          end
      | _ => let* u := SubtractNumberFromBsonValue minuend subtrahend false in Ok (updated u)
      end.

Definition ProcessDollarDivide (dualState : DualArgumentExpressionState) : res bson_value :=
  if hasNullOrUndefined dualState then Ok VNull
  else
    let divisorValue := secondArgument dualState in
    let result := firstArgument dualState in
    if negb (BsonValueIsNumber result) || negb (BsonValueIsNumber divisorValue) then Err ERRCODE_DOCUMENTDB_TYPEMISMATCH
    else if is_decimal result || is_decimal divisorValue then
      let* '(dividend, divisor) :=
        (if is_decimal divisorValue then let* dividend := as_decimal result in Ok (dividend, divisorValue)
         else let* divisor := as_decimal divisorValue in Ok (result, divisor)) in
      let* zero := IsDecimal128Zero divisor in
      if zero : bool then Err ERRCODE_DOCUMENTDB_BADVALUE
      else result_value (DivideDecimal128Numbers dividend divisor)
    else
      let* dividend := BsonValueAsDouble result in
      let* divisor := BsonValueAsDouble divisorValue in
      if double_eq0 divisor then Err ERRCODE_DOCUMENTDB_BADVALUE
      else Ok (VDouble (double_div dividend divisor)).

(** [query/bson_dollar_operators.c], with [validateInputs] false. *)
Definition GetRemainderFromModBsonValues (dividendValue divisorValue : bson_value) : res bson_value :=
  if is_decimal dividendValue || is_decimal divisorValue then
    let* '(dividend, divisor) :=
      (if negb (is_decimal divisorValue) then let* d := as_decimal divisorValue in Ok (dividendValue, d)
       else if negb (is_decimal dividendValue) then let* d := as_decimal dividendValue in Ok (d, divisorValue)
       else Ok (dividendValue, divisorValue)) in
    result_value (ModDecimal128Numbers dividend divisor)
  else
    let* dividend := BsonValueAsDouble dividendValue in
    let* divisor := BsonValueAsDouble divisorValue in
    let remainder := double_fmod dividend divisor in
    let* fits := IsBsonValue32BitInteger (VDouble remainder) true in
    if is_int64_type dividendValue || is_int64_type divisorValue then
      if negb (type_eqb (value_type dividendValue) (value_type divisorValue)) &&
         (is_double dividendValue || is_double divisorValue) &&
         (double_isinf dividend || double_isinf divisor || negb fits)
      then Ok (VDouble remainder)
      else Ok (VInt64 (sf_to_int64 (sf_of_bits remainder)))
    else if type_eqb (value_type dividendValue) BSON_TYPE_INT32 && negb (double_isinf divisor) &&
            negb (double_isinf dividend) && fits
    then Ok (VInt32 (sf_to_int32 (sf_of_bits remainder)))
    else Ok (VDouble remainder).

Definition ProcessDollarMod (dualState : DualArgumentExpressionState) : res bson_value :=
  if hasNullOrUndefined dualState then Ok VNull
  else
    let divisorValue := secondArgument dualState in
    let dividendValue := firstArgument dualState in
    if negb (BsonValueIsNumber dividendValue) || negb (BsonValueIsNumber divisorValue)
    then Err ERRCODE_DOCUMENTDB_DOLLARMODONLYNUMERIC
    else
      let* zero := (if is_decimal divisorValue then IsDecimal128Zero divisorValue else Ok false) in
      let* zero := (if zero then Ok true else let* d := BsonValueAsDouble divisorValue in Ok (double_eq0 d)) in
      if zero : bool then Err ERRCODE_DOCUMENTDB_DOLLARMODBYZEROPROHIBITED
      else GetRemainderFromModBsonValues dividendValue divisorValue.

(** The decimal branch of [$log], and the branch for doubles, in which NaN is looked
    for in the number only. *)
Definition log_decimals (numberValue baseValue : bson_value) : res bson_value :=
  let* number := GetBsonValueAsDecimal128 numberValue in
  let* base := GetBsonValueAsDecimal128 baseValue in
  let* numberNaN := IsDecimal128NaN (VDecimal128 number) in
  let* nan := (if numberNaN then Ok true else IsDecimal128NaN (VDecimal128 base)) in
  if nan : bool then Ok (VDouble NAN)
  else
    let* '(cmp, isComparisonValid) := CompareBsonDecimal128ToZero (VDecimal128 number) in
    if isComparisonValid && negb (cmp =? 1) then Err ERRCODE_DOCUMENTDB_DOLLARLOGNUMBERMUSTBEPOSITIVE
    else
      let* one := GetBsonValueAsDecimal128 (VInt32 1) in
      let* '(cmp, isComparisonValid) := CompareBsonDecimal128 (VDecimal128 base) (VDecimal128 one) in
      if isComparisonValid && negb (cmp =? 1) then Err ERRCODE_DOCUMENTDB_DOLLARLOGBASEMUSTBEGREATERTHANONE
      else result_value (LogDecimal128Number (VDecimal128 number) (VDecimal128 base)).

Definition ProcessDollarLog (dualState : DualArgumentExpressionState) : res bson_value :=
  if hasNullOrUndefined dualState then Ok VNull
  else
    let numberValue := firstArgument dualState in
    let baseValue := secondArgument dualState in
    if negb (BsonValueIsNumber numberValue) then Err ERRCODE_DOCUMENTDB_DOLLARLOGARGUMENTMUSTBENUMERIC
    else if negb (BsonValueIsNumber baseValue) then Err ERRCODE_DOCUMENTDB_DOLLARLOGBASEMUSTBENUMERIC
    else if is_decimal numberValue || is_decimal baseValue then log_decimals numberValue baseValue
    else
      let* number := BsonValueAsDouble numberValue in
      let* base := BsonValueAsDouble baseValue in
      if double_isnan number || double_isnan number then Ok (VDouble NAN)
      else if double_le number 0 then Err ERRCODE_DOCUMENTDB_DOLLARLOGNUMBERMUSTBEPOSITIVE
      else if double_le base 1 then Err ERRCODE_DOCUMENTDB_DOLLARLOGBASEMUSTBEGREATERTHANONE
      else Ok (VDouble (double_div (libm_log number) (libm_log base))).

(** The result of [$pow] for operands that are not decimals. *)
Definition pow_result (baseValue exponentValue decimalPowResult : bson_value) : res bson_value :=
  let* base := BsonValueAsDouble baseValue in
  let* exponent := BsonValueAsDouble exponentValue in
  let forceDoubleResult := double_lt exponent 0 && (double_lt base (-1) || double_gt base 1) in
  let* inInt64Range := IsDecimal128InInt64Range decimalPowResult in
  if forceDoubleResult || is_double baseValue || is_double exponentValue || negb inInt64Range then
    let* d := GetBsonDecimal128AsDouble decimalPowResult in Ok (VDouble d)
  else
    let* inInt32Range :=
      (if type_eqb (value_type baseValue) BSON_TYPE_INT32 && type_eqb (value_type exponentValue) BSON_TYPE_INT32
       then IsDecimal128InInt32Range decimalPowResult else Ok false) in
    if inInt32Range : bool then
      let* z := GetBsonDecimal128AsInt32 decimalPowResult ConversionRoundingMode_NearestEven in Ok (VInt32 z)
    else let* z := GetBsonDecimal128AsInt64 decimalPowResult ConversionRoundingMode_NearestEven in Ok (VInt64 z).

Definition ProcessDollarPow (dualState : DualArgumentExpressionState) : res bson_value :=
  if hasNullOrUndefined dualState then Ok VNull
  else
    let baseValue := firstArgument dualState in
    let exponentValue := secondArgument dualState in
    if negb (BsonValueIsNumber baseValue) then Err ERRCODE_DOCUMENTDB_DOLLARPOWBASEMUSTBENUMERIC
    else if negb (BsonValueIsNumber exponentValue) then Err ERRCODE_DOCUMENTDB_DOLLARPOWEXPONENTMUSTBENUMERIC
    else
      let* baseDecimal := GetBsonValueAsDecimal128 baseValue in
      let* exponentDecimal := GetBsonValueAsDecimal128 exponentValue in
      let* '(cmp, isComparisonValid) := CompareBsonDecimal128ToZero (VDecimal128 exponentDecimal) in
      let* zero := IsDecimal128Zero (VDecimal128 baseDecimal) in
      if zero && isComparisonValid && (cmp =? -1) then Err ERRCODE_DOCUMENTDB_DOLLARPOWEXPONENTINVALIDFORZEROBASE
      else
        let* decimalPowResult := result_value (PowDecimal128Number (VDecimal128 baseDecimal) (VDecimal128 exponentDecimal)) in
        if is_decimal baseValue || is_decimal exponentValue then Ok decimalPowResult
        else pow_result baseValue exponentValue decimalPowResult.

Inductive RoundOperation : Set := RoundOperation_Round | RoundOperation_Trunc.

(** A rounded decimal in the type of the number. *)
Definition round_result (number operationResult : bson_value) : res bson_value :=
  match number with
  | VDecimal128 _ => Ok operationResult
  | VDouble _ => let* d := GetBsonDecimal128AsDouble operationResult in Ok (VDouble d)
  | _ =>
    let* inInt32Range :=
      (if type_eqb (value_type number) BSON_TYPE_INT32 then IsDecimal128InInt32Range operationResult else Ok false) in
    if inInt32Range : bool then
      let* z := GetBsonDecimal128AsInt32 operationResult ConversionRoundingMode_Floor in Ok (VInt32 z)
    else
      let* inInt64Range := IsDecimal128InInt64Range operationResult in
      if negb inInt64Range then Err ERRCODE_DOCUMENTDB_DOLLARROUNDOVERFLOWINT64
      else let* z := GetBsonDecimal128AsInt64 operationResult ConversionRoundingMode_Floor in Ok (VInt64 z)
  end.

Definition RoundOrTruncateValue (dualState : DualArgumentExpressionState) (operationType : RoundOperation)
  : res bson_value :=
  if hasNullOrUndefined dualState then Ok VNull
  else
    let number := firstArgument dualState in
    let precision := secondArgument dualState in
    if negb (BsonValueIsNumber number) then Err ERRCODE_DOCUMENTDB_DOLLARROUNDFIRSTARGMUSTBENUMERIC
    else
      let* precisionAsLong := BsonValueAsInt64WithRoundingMode precision ConversionRoundingMode_Floor true in
      let* integral := IsBsonValueFixedInteger precision in
      if negb integral then Err ERRCODE_DOCUMENTDB_DOLLARROUNDPRECISIONMUSTBEINTEGRAL
      else if (precisionAsLong <? -20) || (precisionAsLong >? 100) then Err ERRCODE_DOCUMENTDB_DOLLARROUNDPRECISIONOUTOFRANGE
      else if (precisionAsLong >=? 0) && (is_int64_type number || type_eqb (value_type number) BSON_TYPE_INT32)
      then Ok number
      else
        let* decimal128Number := as_decimal number in
        let* operationResult :=
          result_value (match operationType with
                        | RoundOperation_Round => RoundDecimal128Number decimal128Number precisionAsLong
                        | RoundOperation_Trunc => TruncDecimal128Number decimal128Number precisionAsLong
                        end) in
        round_result number operationResult.

Definition ProcessDollarRound (dualState : DualArgumentExpressionState) : res bson_value :=
  RoundOrTruncateValue dualState RoundOperation_Round.
Definition ProcessDollarTrunc (dualState : DualArgumentExpressionState) : res bson_value :=
  RoundOrTruncateValue dualState RoundOperation_Trunc.

Definition ProcessTwoOperands (op : TwoOperands) (firstValue secondValue : bson_value) : res bson_value :=
  let state := InitializeDualArgumentExpressionState firstValue secondValue in
  match op with
  | DollarDivide => ProcessDollarDivide state
  | DollarLog => ProcessDollarLog state
  | DollarMod => ProcessDollarMod state
  | DollarPow => ProcessDollarPow state
  | DollarRound => ProcessDollarRound state
  | DollarSubtract => ProcessDollarSubtract state
  | DollarTrunc => ProcessDollarTrunc state
  end.
End Operators.
