(* ===== verification/AggEval.v ===== *)
(** * Aggregation expressions: evaluation ([operators/bson_expression.c],
      [aggregation/bson_tree_write.c] and the handlers of the operators)

    [EvaluateAggregationExpressionData] gives the result of an expression on a
    document to an [ExpressionResult], [EvaluateAggregationExpressionDataToWriter]
    writes it as a field of a document.  The two, and the handlers of the operators,
    call each other; the handlers are defined from an [Evaluator], and the
    evaluators of depth [n] from those of depth [n - 1].  The depth is the stack the
    server allows. *)

From Stdlib Require Import ZArith Lia Bool String List.
From Stdlib Require Import Strings.Byte.
From S2P Require Import Prelude SoftFloat BsonTypes StringView Decimal128 BsonCompare Traversal BsonWriter.
From S2P Require Import AggData AggOperators.
Import ListNotations.
Local Open Scope Z_scope.

Section Eval.
Context {BL : BidLib} {LB : LibBson} {LM : LibM} {LD : LibBsonDoc} {OtherArguments : Set}.
Local Open Scope agg_scope.

Abbreviation Data := (@AggregationExpressionData OtherArguments).
Abbreviation Result := (@ExpressionResult OtherArguments).
Abbreviation Context_ := (@ExpressionVariableContext OtherArguments).

(** The handlers of the files that are not modelled. *)
Variable handle_other : OtherArguments -> fields -> Result -> M Result.

Record Evaluator : Type := {
  evaluate_data : Data -> fields -> Result -> bool -> M Result;
  evaluate_to_writer : Data -> fields -> bytes -> pgbson_writer -> Context_ -> bool -> M pgbson_writer
}.

(** The document an object element writer writes to. *)
Definition object_writer (w : pgbson_element_writer) : pgbson_writer :=
  match w with ObjectElementWriter o _ => o | ArrayElementWriter a => innerBson a end.

Section Step.
Variable self : Evaluator.

(** ** Variables *)

Definition GetVariableValueFromData (variable : VariableData) (currentDocument : fields) (definedIn : Context_)
  : M bson_value :=
  match variable with
  | Constant_Variable _ v => ret v
  | Expression_Variable _ expression =>
    let child := with_context ExpressionResultCreateWithTracker NoVariables definedIn in
    let! r := evaluate_data self expression currentDocument child false in ret (value r)
  end.

Definition find_entry (entries : list (@VariableData OtherArguments)) (name : bytes) : option VariableData :=
  find (fun e => CompareStringView (variable_name e) name =? 0) entries.

Fixpoint ExpressionResultGetVariable (variableName : bytes) (current : Context_) (currentDocument : fields)
  : M (option bson_value) :=
  match current with
  | [] => ret None
  | frame :: parent =>
    match frame with
    | SingleVariable variable =>
      if same_name variableName (variable_name variable) then
        let! v := GetVariableValueFromData variable currentDocument parent in ret (Some v)
      else ExpressionResultGetVariable variableName parent currentDocument
    | VariableTable table entries =>
      let! _ := read_table table in
      match find_entry entries variableName with
      | Some variable => let! v := GetVariableValueFromData variable currentDocument parent in ret (Some v)
      | None => ExpressionResultGetVariable variableName parent currentDocument
      end
    | NoVariables => ExpressionResultGetVariable variableName parent currentDocument
    end
  end.

(** The value of a dotted path below a variable. *)
Definition evaluate_suffix (r : Result) (variableValue : bson_value) (suffix : bytes) (isNullOnEmpty : bool) : M Result :=
  let! r := lift (ExpressionResultGetElementWriter r) in
  let! '(_, w) := lift (EvaluateFieldPathAndWrite variableValue suffix (writer r) isNullOnEmpty) in
  ExpressionResultSetValueFromWriter (with_writer r w).

Definition EvaluateAggregationExpressionVariable (name : bytes) (document : fields) (r : Result) (isNullOnEmpty : bool)
  : M Result :=
  let dottedExpression := skipn 2 name in
  let isDottedExpression := StringViewContains (Some dottedExpression) dot in
  let varName :=
    if isDottedExpression then
      match StringViewFindPrefix dottedExpression dot with Some p => p | None => [] end
    else dottedExpression in
  let! found := ExpressionResultGetVariable varName (variableContext r) document in
  match found with
  | None => raise ERRCODE_DOCUMENTDB_LOCATION17276
  | Some variableValue =>
    let r := with_field_path r isDottedExpression in
    if negb isDottedExpression then
      match variableValue with
      | VEod => ret r
      | _ => ExpressionResultSetValue r variableValue
      end
    else
      let suffix := match StringViewFindSuffix dottedExpression dot with Some s => s | None => [] end in
      evaluate_suffix r variableValue suffix isNullOnEmpty
  end.

Definition system_variable (kind : AggregationExpressionSystemVariableKind) (r : Result) (document : fields)
  : M (option bson_value) :=
  match kind with
  | Root => ret (Some (VDocument document))
  | Current =>
    let! found := ExpressionResultGetVariable (str "CURRENT") (variableContext r) document in
    ret (Some (match found with Some v => v | None => VDocument document end))
  | Remove => ret None
  | Descend => ret (Some (VUtf8 (str "$$DESCEND")))
  | Prune => ret (Some (VUtf8 (str "$$PRUNE")))
  | Keep => ret (Some (VUtf8 (str "$$KEEP")))
  | Now | ClusterTime | SearchMeta | UserRoles => raise ERRCODE_DOCUMENTDB_COMMANDNOTSUPPORTED
  end.

Definition EvaluateAggregationExpressionSystemVariable (kind : AggregationExpressionSystemVariableKind)
  (pathSuffix : bytes) (document : fields) (r : Result) (isNullOnEmpty : bool) : M Result :=
  let! found := system_variable kind r document in
  match found with
  | None => ret r
  | Some variableValue =>
    if blen pathSuffix =? 0 then ExpressionResultSetValue (with_field_path r false) variableValue
    else evaluate_suffix (with_field_path r true) variableValue pathSuffix isNullOnEmpty
  end.

(** ** Documents and arrays *)

Section Traverse.
Variable parentDocument : fields.
Variable ctx : Context_.
Variable isNullOnEmpty : bool.

(** One node, and the nodes of a tree. *)
Fixpoint write_node (node : BsonPathNode) (w : pgbson_writer) : M pgbson_writer :=
  match node with
  | LeafField field fieldData => evaluate_to_writer self fieldData parentDocument field w ctx isNullOnEmpty
  | IntermediateNode field hasExpressionFieldsInChildren children =>
    if hasExpressionFieldsInChildren then
      let! childWriter :=
        (fix nodes (children : list BsonPathNode) (w : pgbson_writer) : M pgbson_writer :=
           match children with
           | [] => ret w
           | node :: children => let! w := write_node node w in nodes children w
           end) children (PgbsonWriterStartDocument w field) in
      ret (PgbsonWriterEndDocument w field childWriter)
    else ret w
  end.

Fixpoint TraverseTreeAndWriteFieldsToWriter (children : list BsonPathNode) (w : pgbson_writer) : M pgbson_writer :=
  match children with
  | [] => ret w
  | node :: children => let! w := write_node node w in TraverseTreeAndWriteFieldsToWriter children w
  end.

Definition EvaluateAggregationExpressionDocumentToWriter (expressionTree : list BsonPathNode) (w : pgbson_element_writer)
  : M pgbson_element_writer :=
  let! childWriter := TraverseTreeAndWriteFieldsToWriter expressionTree (PgbsonElementWriterStartDocument w) in
  ret (PgbsonElementWriterEndDocument w childWriter).

Definition write_array_value (arrayWriter : pgbson_array_writer) (v : bson_value) : res pgbson_array_writer :=
  match v with
  | VEod | VUndefined => PgbsonArrayWriterWriteNull arrayWriter
  | _ => PgbsonArrayWriterWriteValue arrayWriter v
  end.

Fixpoint AppendLeafArrayFieldChildrenToWriter (items : list Data) (arrayWriter : pgbson_array_writer)
  : M pgbson_array_writer :=
  match items with
  | [] => ret arrayWriter
  | fieldData :: items =>
    let! v :=
      match fieldData with
      | ConstantExpr v => ret v
      | _ =>
        let! innerWriter := evaluate_to_writer self fieldData parentDocument [] PgbsonWriterInit ctx false in
        ret (PgbsonElementWriterGetValue (PgbsonInitObjectElementWriter innerWriter []))
      end in
    let! arrayWriter := lift (write_array_value arrayWriter v) in
    AppendLeafArrayFieldChildrenToWriter items arrayWriter
  end.
End Traverse.

(** ** Handlers of the operators *)

(** A child result evaluated for an argument. *)
Definition evaluate_child (document : fields) (child : Result) (argument : Data) : M Result :=
  evaluate_data self argument document child false.

Fixpoint boolean_loop (document : fields) (r : Result) (booleanType : BooleanType) (arguments : list Data) (result : bool)
  : M bool :=
  match arguments with
  | [] => ret result
  | argument :: arguments =>
    let! child := evaluate_child document (ExpressionResultCreateChild r) argument in
    let! '(result, continueEnumerating) := lift (ProcessBooleanOperator (value child) result booleanType) in
    if continueEnumerating : bool then boolean_loop document r booleanType arguments result else ret result
  end.

Definition HandlePreParsedBooleanVariableOperands (document : fields) (arguments : list Data) (result : bool) (r : Result)
  (booleanType : BooleanType) : M Result :=
  let! result := boolean_loop document r booleanType arguments result in
  ExpressionResultSetValue r (VBool result).

Definition HandlePreParsedDollarOr (document : fields) (arguments : list Data) (r : Result) : M Result :=
  HandlePreParsedBooleanVariableOperands document arguments false r BooleanType_Or.
Definition HandlePreParsedDollarAnd (document : fields) (arguments : list Data) (r : Result) : M Result :=
  HandlePreParsedBooleanVariableOperands document arguments true r BooleanType_And.

Definition HandlePreParsedDollarNot (document : fields) (argument : Data) (r : Result) : M Result :=
  let! child := evaluate_child document (ExpressionResultCreateChild r) argument in
  let! '(result, _) := lift (ProcessBooleanOperator (value child) false BooleanType_Not) in
  ExpressionResultSetValue r (VBool result).

(** Two arguments, evaluated one after the other with the same child. *)
Definition evaluate_two (document : fields) (r : Result) (first second : Data) : M (bson_value * bson_value) :=
  let! child := evaluate_child document (ExpressionResultCreateChild r) first in
  let firstValue := value child in
  let! child := lift (ExpressionResultReset child) in
  let! child := evaluate_child document child second in
  ret (firstValue, value child).

Definition HandlePreParsedComparisonOperator (document : fields) (first second : Data) (collationString : option bytes)
  (r : Result) (comparisonType : ComparisonType) : M Result :=
  let! '(firstValue, secondValue) := evaluate_two document r first second in
  let! result := lift (CompareExpressionBsonValues firstValue secondValue collationString comparisonType) in
  ExpressionResultSetValue r result.

Fixpoint if_null_loop (document : fields) (r : Result) (arguments : list Data) (result : bson_value) : M bson_value :=
  match arguments with
  | [] => ret result
  | argument :: arguments =>
    let! child := evaluate_child document (ExpressionResultCreateChild r) argument in
    if_null_loop document r arguments
      (if IsExpressionResultNullOrUndefined result then value child else result)
  end.

(** A missing result is not set. *)
Definition set_unless_missing (r : Result) (result : bson_value) : M Result :=
  match result with VEod => ret r | _ => ExpressionResultSetValue r result end.

Definition HandlePreParsedDollarIfNull (document : fields) (arguments : list Data) (r : Result) : M Result :=
  let! result := if_null_loop document r arguments VNull in
  set_unless_missing r result.

Definition HandlePreParsedDollarCond (document : fields) (ifData thenData elseData : Data) (r : Result) : M Result :=
  let! child := evaluate_child document (ExpressionResultCreateChild r) ifData in
  let ifValue := value child in
  let! child := lift (ExpressionResultReset child) in
  let! child := evaluate_child document child thenData in
  let thenValue := value child in
  let! child := lift (ExpressionResultReset child) in
  let! child := evaluate_child document child elseData in
  let elseValue := value child in
  let! condition := lift (BsonValueAsBool ifValue) in
  set_unless_missing r (if condition : bool then thenValue else elseValue).

Fixpoint switch_loop (document : fields) (child : Result) (entries : list (Data * Data)) : M (option bson_value) :=
  match entries with
  | [] => ret None
  | (caseData, thenData) :: entries =>
    let! child := evaluate_child document child caseData in
    let caseValue := value child in
    let! child := lift (ExpressionResultReset child) in
    let! hit := lift (BsonValueAsBool caseValue) in
    if hit : bool then
      let! child := evaluate_child document child thenData in ret (Some (value child))
    else switch_loop document child entries
  end.

Definition HandlePreParsedDollarSwitch (document : fields) (entries : list (Data * Data)) (r : Result) : M Result :=
  let! found := switch_loop document (ExpressionResultCreateChild r) entries in
  match found with
  | None => raise ERRCODE_DOCUMENTDB_DOLLARSWITCHNOMATCHINGBRANCHANDNODEFAULT
  | Some result => set_unless_missing r result
  end.

Definition HandlePreParsedDollarLet (document : fields) (inExpression : Data) (inputVariableContext : VariableFrame)
  (r : Result) : M Result :=
  let child := with_context ExpressionResultCreateWithTracker inputVariableContext (variableContext r) in
  let! child := evaluate_child document child inExpression in
  set_unless_missing r (value child).

Definition HandlePreParsedArithmeticOperatorOneOperand (document : fields) (argument : Data) (r : Result)
  (processOperatorFunc : bson_value -> res bson_value) : M Result :=
  let! child := evaluate_child document (ExpressionResultCreateChild r) argument in
  let! result := lift (processOperatorFunc (value child)) in
  ExpressionResultSetValue r result.

Definition HandlePreParsedArithmeticOperatorTwoOperands (document : fields) (firstArg secondArg : Data) (r : Result)
  (processOperatorFunc : bson_value -> bson_value -> res bson_value) : M Result :=
  let! '(firstValue, secondValue) := evaluate_two document r firstArg secondArg in
  let! result := lift (processOperatorFunc firstValue secondValue) in
  ExpressionResultSetValue r result.

(** The loop over the arguments, for a state of any type. *)
Fixpoint HandlePreParsedArithmeticVariableOperands {State : Type} (document : fields) (arguments : list Data) (r : Result)
  (processOperatorFunc : bson_value -> State -> bson_value -> res (State * bson_value * bool))
  (state : State) (result : bson_value) : M (State * bson_value) :=
  match arguments with
  | [] => ret (state, result)
  | argument :: arguments =>
    let! child := evaluate_child document (ExpressionResultCreateChild r) argument in
    let! '(state, result, continueEnumerating) := lift (processOperatorFunc (value child) state result) in
    if continueEnumerating : bool
    then HandlePreParsedArithmeticVariableOperands document arguments r processOperatorFunc state result
    else ret (state, result)
  end.

Definition HandlePreParsedDollarAdd (document : fields) (arguments : list Data) (r : Result) : M Result :=
  let! '(state, result) :=
    HandlePreParsedArithmeticVariableOperands document arguments r ProcessDollarAdd (AddState false false) (VInt32 0) in
  let! result :=
    match result with
    | VNull => ret VNull
    | _ => lift (ProcessDollarAddAccumulatedResult state result)
    end in
  ExpressionResultSetValue r result.

Definition multiply_operand (currentElement : bson_value) (state : unit) (result : bson_value)
  : res (unit * bson_value * bool) :=
  match ProcessDollarMultiply currentElement result with
  | Ok (result, continue) => Ok (state, result, continue)
  | Err e => Err e
  end.

Definition HandlePreParsedDollarMultiply (document : fields) (arguments : list Data) (r : Result) : M Result :=
  let! '(_, result) :=
    HandlePreParsedArithmeticVariableOperands document arguments r multiply_operand tt (VInt32 1) in
  ExpressionResultSetValue r result.

(** The call of [handleExpressionFunc].  An operator never meets arguments of another
    form than those its parser stores. *)
Definition handleExpressionFunc (handler : HandlePreParsedOperatorFunc) (arguments : Arguments) (document : fields)
  (r : Result) : M Result :=
  match handler, arguments with
  | DollarBoolean BooleanType_Or, ArgumentsList l => HandlePreParsedDollarOr document l r
  | DollarBoolean BooleanType_And, ArgumentsList l => HandlePreParsedDollarAnd document l r
  | DollarBoolean BooleanType_Not, ArgumentsPalloc a => HandlePreParsedDollarNot document a r
  | DollarComparison c, ComparisonOperatorState first second collation =>
    HandlePreParsedComparisonOperator document first second collation r c
  | DollarCond, ArgumentsList [ifData; thenData; elseData] => HandlePreParsedDollarCond document ifData thenData elseData r
  | DollarIfNull, ArgumentsList l => HandlePreParsedDollarIfNull document l r
  | DollarSwitch, SwitchEntries entries => HandlePreParsedDollarSwitch document entries r
  | DollarLet, LetArguments inData frame => HandlePreParsedDollarLet document inData frame r
  | DollarAdd, ArgumentsList l => HandlePreParsedDollarAdd document l r
  | DollarMultiply, ArgumentsList l => HandlePreParsedDollarMultiply document l r
  | DollarOneOperand op, ArgumentsPalloc a =>
    HandlePreParsedArithmeticOperatorOneOperand document a r (ProcessOneOperand op)
  | DollarTwoOperands op, ArgumentsList [first; second] =>
    HandlePreParsedArithmeticOperatorTwoOperands document first second r (ProcessTwoOperands op)
  | DollarOther, ArgumentsOther a => handle_other a document r
  | _, _ => raise ERRCODE_INTERNAL_ERROR
  end.

(** ** The two evaluations *)

Definition evaluate_data_step (data : Data) (document : fields) (r : Result) (isNullOnEmpty : bool) : M Result :=
  match data with
  | OperatorExpr handler arguments => handleExpressionFunc handler arguments document r
  | DocumentExpr tree =>
    let! r := lift (ExpressionResultGetElementWriter r) in
    let! w := EvaluateAggregationExpressionDocumentToWriter document (variableContext r) isNullOnEmpty tree (writer r) in
    ExpressionResultSetValueFromWriter (with_writer r w)
  | ArrayExpr items =>
    let! r := lift (ExpressionResultGetElementWriter r) in
    let! childArrayWriter :=
      AppendLeafArrayFieldChildrenToWriter document (variableContext r) items (PgbsonElementWriterStartArray (writer r)) in
    ExpressionResultSetValueFromWriter (with_writer r (PgbsonElementWriterEndArray (writer r) childArrayWriter))
  | ConstantExpr v => ExpressionResultSetValue r v
  | VariableExpr name => EvaluateAggregationExpressionVariable name document r isNullOnEmpty
  | SystemVariableExpr kind pathSuffix =>
    EvaluateAggregationExpressionSystemVariable kind pathSuffix document r isNullOnEmpty
  | PathExpr path => EvaluateAggregationExpressionSystemVariable Current (skipn 1 path) document r isNullOnEmpty
  end.

Definition evaluate_to_writer_step (data : Data) (document : fields) (path : bytes) (w : pgbson_writer) (ctx : Context_)
  (isNullOnEmpty : bool) : M pgbson_writer :=
  let r := ExpressionResultCreateFromElementWriter (PgbsonInitObjectElementWriter w path) ctx in
  let written (m : M Result) : M pgbson_writer := let! r := m in ret (object_writer (writer r)) in
  match data with
  | OperatorExpr handler arguments => written (handleExpressionFunc handler arguments document r)
  | ArrayExpr items =>
    let! arrayWriter := AppendLeafArrayFieldChildrenToWriter document ctx items (PgbsonWriterStartArray w path) in
    ret (PgbsonWriterEndArray w path arrayWriter)
  | DocumentExpr tree =>
    let! elementWriter :=
      EvaluateAggregationExpressionDocumentToWriter document ctx isNullOnEmpty tree (PgbsonInitObjectElementWriter w path) in
    ret (object_writer elementWriter)
  | ConstantExpr VEod => ret w
  | ConstantExpr v =>
    let! elementWriter := lift (PgbsonElementWriterWriteValue (PgbsonInitObjectElementWriter w path) v) in
    ret (object_writer elementWriter)
  | VariableExpr name => written (EvaluateAggregationExpressionVariable name document r isNullOnEmpty)
  | SystemVariableExpr kind pathSuffix =>
    written (EvaluateAggregationExpressionSystemVariable kind pathSuffix document r isNullOnEmpty)
  | PathExpr p => written (EvaluateAggregationExpressionSystemVariable Current (skipn 1 p) document r isNullOnEmpty)
  end.
End Step.

Fixpoint evaluator (depth : nat) : Evaluator :=
  match depth with
  | O => {| evaluate_data := fun _ _ _ _ => raise ERRCODE_STATEMENT_TOO_COMPLEX;
            evaluate_to_writer := fun _ _ _ _ _ _ => raise ERRCODE_STATEMENT_TOO_COMPLEX |}
  | S depth => {| evaluate_data := evaluate_data_step (evaluator depth);
                  evaluate_to_writer := evaluate_to_writer_step (evaluator depth) |}
  end.

Definition EvaluateAggregationExpressionData (depth : nat) := evaluate_data (evaluator depth).
Definition EvaluateAggregationExpressionDataToWriter (depth : nat) := evaluate_to_writer (evaluator depth).
End Eval.
