(* ===== verification/AggParse.v ===== *)
(** * Aggregation expressions: parsing ([operators/bson_expression.c],
      [aggregation/bson_projection_tree.c] and the parsers of the operators)

    [ParseAggregationExpressionData] turns a value of a query into an expression.  An
    operator, a document or an array whose arguments are all constant is evaluated
    while it is parsed.  The parsers of the operators are defined from the parser of
    arguments, and the parser of depth [n] from that of depth [n - 1]. *)

From Stdlib Require Import ZArith Lia Bool String List Sorted.
From Stdlib Require Import Strings.Byte.
From S2P Require Import Prelude SoftFloat BsonTypes StringView Decimal128 BsonCompare Traversal BsonWriter DollarSets.
From S2P Require Import AggData AggOperators AggEval.
Import ListNotations.
Local Open Scope Z_scope.

(** [disallowPaths] stands for the only callback that is ever given as
    [validateParsedExpressionFunc], [DisallowExpressionsForTopLevelLet]; [nowValue] is
    the end-of-document marker when there is no time. *)
Record ParseAggregationExpressionContext : Set := {
  disallowPaths : bool;
  nowValue : bson_value;
  allowRedactVariables : bool;
  collationString : option bytes
}.

Abbreviation ParseContext := ParseAggregationExpressionContext.

(** ** Names of variables *)

Definition islower (b : byte) : bool := (97 <=? byte_z b) && (byte_z b <=? 122).
Definition isupper (b : byte) : bool := (65 <=? byte_z b) && (byte_z b <=? 90).
Definition isdigit (b : byte) : bool := (48 <=? byte_z b) && (byte_z b <=? 57).
Definition isascii (b : byte) : bool := byte_z b <? 128.

Definition IsOverridableSystemVariable (name : bytes) : bool := same_name name (str "CURRENT").

(** The loop over the characters; [first] is [i == 0]. *)
Fixpoint variable_name_loop (name : bytes) (allowStartWithUpper first : bool) (rest : bytes) : res unit :=
  match rest with
  | [] => Ok tt
  | current :: rest =>
    if first && isascii current && negb (islower current) && negb (IsOverridableSystemVariable name) &&
       (negb (isupper current) || negb allowStartWithUpper)
    then Err ERRCODE_DOCUMENTDB_FAILEDTOPARSE
    else if isascii current && negb (isdigit current) && negb (islower current) && negb (isupper current) &&
            negb (byte_eqb current "_"%byte)
    then Err ERRCODE_DOCUMENTDB_FAILEDTOPARSE
    else variable_name_loop name allowStartWithUpper false rest
  end.

Definition ValidateVariableNameCore (name : bytes) (allowStartWithUpper : bool) : res unit :=
  if blen name <=? 0 then Err ERRCODE_DOCUMENTDB_FAILEDTOPARSE
  else variable_name_loop name allowStartWithUpper true name.

Definition ValidateVariableName (name : bytes) : res unit := ValidateVariableNameCore name false.

(** The length of a string up to its first NUL byte; a NUL byte follows every string. *)
Definition strlen (s : bytes) : nat := match memchr s x00 with Some n => n | None => List.length s end.

(** ** Field paths of documents *)

(** The segments of a path between its dots. *)
Fixpoint split_dots (path : bytes) : list bytes :=
  match path with
  | [] => [[]]
  | b :: path =>
    if byte_eqb b dot then [] :: split_dots path
    else match split_dots path with s :: rest => (b :: s) :: rest | [] => [[b]] end
  end.

Definition StringViewContainsDbRefsField (source : bytes) : bool :=
  same_name source (str "$id") || same_name source (str "$ref") || same_name source (str "$db").

Fixpoint valid_segments (segments : list bytes) : res unit :=
  match segments with
  | [] => Ok tt
  | s :: rest =>
    if blen s =? 0 then Err ERRCODE_DOCUMENTDB_FAILEDTOPARSE
    else if StringViewStartsWith (Some s) "$"%byte && negb (StringViewContainsDbRefsField s)
    then Err ERRCODE_DOCUMENTDB_LOCATION16410
    else valid_segments rest
  end.

Definition EnsureValidFieldPathString (fieldPath : bytes) : res unit :=
  if blen fieldPath =? 0 then Err ERRCODE_DOCUMENTDB_FAILEDTOPARSE
  else if StringViewEndsWith (Some fieldPath) dot then Err ERRCODE_DOCUMENTDB_FAILEDTOPARSE
  else valid_segments (split_dots fieldPath).

(** A key that names an operator. *)
Definition is_operator_key (key : bytes) : bool := (blen key >? 1) && byte_eqb (nth 0 key x00) "$"%byte.

(** The first field of a document or an array is an operator. *)
Definition is_operator_value (v : bson_value) : bool :=
  match v with
  | VDocument ((key, _) :: _) | VArray ((key, _) :: _) => is_operator_key key
  | _ => false
  end.

(** ** The table of operators *)

(** The C library's binary search in a sorted array: [found] is the result for the
    entry between [low] and [high] on which [compare] is zero. *)
Fixpoint bsearch_loop {A} (compare : A -> Z) (base : list A) (fuel low high : nat) : option A :=
  match fuel with
  | O => None
  | S fuel =>
    if (low <? high)%nat then
      let idx := Nat.div2 (low + high) in
      match nth_error base idx with
      | None => None
      | Some a =>
        let comparison := compare a in
        if comparison <? 0 then bsearch_loop compare base fuel low idx
        else if comparison >? 0 then bsearch_loop compare base fuel (S idx) high
        else Some a
      end
    else None
  end.
Definition bsearch {A} (compare : A -> Z) (base : list A) : option A :=
  bsearch_loop compare base (S (List.length base)) 0 (List.length base).

Section Parse.
Context {BL : BidLib} {LB : LibBson} {LM : LibM} {LD : LibBsonDoc} {OtherArguments : Set}.
Local Open Scope agg_scope.

Abbreviation Data := (@AggregationExpressionData OtherArguments).
Abbreviation Result := (@ExpressionResult OtherArguments).
Abbreviation Node := (@BsonPathNode OtherArguments).

Variable EnableCollation : bool.
(** The value a string with a null pointer denotes. *)
Variable null_string : bson_value.
(** The operators of the files that are not modelled. *)
Variable handle_other : OtherArguments -> fields -> Result -> M Result.
Variable parse_other : bytes -> bson_value -> ParseContext -> M (bson_value + OtherArguments).

(** What the parser of an operator leaves in the expression: a constant, or the
    arguments for its handler. *)
Inductive Parsed : Set :=
| Folded (v : bson_value)
| Operands (arguments : @Arguments OtherArguments).

Section Step.
Variable parse : bson_value -> ParseContext -> M Data.
Variable depth : nat.

(** ** Arguments *)

Fixpoint parse_list (values : fields) (context : ParseContext) : M (list Data) :=
  match values with
  | [] => ret []
  | (_, arg) :: values =>
    let! data := parse arg context in
    let! rest := parse_list values context in
    ret (data :: rest)
  end.

Definition ParseFixedArgumentsForExpression (argumentValue : bson_value) (numberOfExpectedArgs : nat)
  (context : ParseContext) : M Arguments :=
  match argumentValue with
  | VArray args =>
    if negb (List.length args =? numberOfExpectedArgs)%nat then raise ERRCODE_DOCUMENTDB_LOCATION16020
    else
      match args with
      | [(_, arg)] => let! data := parse arg context in ret (ArgumentsPalloc data)
      | _ => let! arguments := parse_list args context in ret (ArgumentsList arguments)
      end
  | _ =>
    if (1 <? numberOfExpectedArgs)%nat then raise ERRCODE_DOCUMENTDB_LOCATION16020
    else let! data := parse argumentValue context in ret (ArgumentsPalloc data)
  end.

Definition ParseRangeArgumentsForExpression (argumentValue : bson_value) (minRequiredArgs maxRequiredArgs : nat)
  (context : ParseContext) : M Arguments :=
  match argumentValue with
  | VArray args =>
    if (List.length args <? minRequiredArgs)%nat || (maxRequiredArgs <? List.length args)%nat
    then raise ERRCODE_DOCUMENTDB_RANGEARGUMENTEXPRESSIONARGSOUTOFRANGE
    else let! arguments := parse_list args context in ret (ArgumentsList arguments)
  | _ =>
    if negb (minRequiredArgs =? 1)%nat then raise ERRCODE_DOCUMENTDB_RANGEARGUMENTEXPRESSIONARGSOUTOFRANGE
    else let! data := parse argumentValue context in ret (ArgumentsPalloc data)
  end.

Definition ParseVariableArgumentsForExpression (v : bson_value) (context : ParseContext) : M (list Data * bool) :=
  let! resultList :=
    match v with
    | VArray args => parse_list args context
    | _ => let! data := parse v context in ret [data]
    end in
  ret (resultList, AreElementsInListConstant resultList).

(** ** Boolean operators *)

Fixpoint fold_boolean (booleanType : BooleanType) (arguments : list Data) (result : bool) : res bool :=
  match arguments with
  | [] => Ok result
  | currentData :: arguments =>
    match ProcessBooleanOperator (constant_value currentData) result booleanType with
    | Ok (result, continueEnumerating) =>
      if continueEnumerating then fold_boolean booleanType arguments result else Ok result
    | Err e => Err e
    end
  end.

Definition ParseBooleanVariableOperands (argument : bson_value) (initial : bool) (context : ParseContext)
  (booleanType : BooleanType) : M Parsed :=
  let! '(argumentsList, areArgumentsConstant) := ParseVariableArgumentsForExpression argument context in
  if areArgumentsConstant : bool then
    let! result := lift (fold_boolean booleanType argumentsList initial) in ret (Folded (VBool result))
  else ret (Operands (ArgumentsList argumentsList)).

Definition ParseDollarOr (argument : bson_value) (context : ParseContext) : M Parsed :=
  ParseBooleanVariableOperands argument false context BooleanType_Or.
Definition ParseDollarAnd (argument : bson_value) (context : ParseContext) : M Parsed :=
  ParseBooleanVariableOperands argument true context BooleanType_And.

Definition ParseDollarNot (argument : bson_value) (context : ParseContext) : M Parsed :=
  let! arguments := ParseFixedArgumentsForExpression argument 1 context in
  match arguments with
  | ArgumentsPalloc (ConstantExpr v) =>
    let! '(result, _) := lift (ProcessBooleanOperator v false BooleanType_Not) in ret (Folded (VBool result))
  | _ => ret (Operands arguments)
  end.

(** ** Comparisons *)

Definition ParseComparisonOperator (argument : bson_value) (comparisonType : ComparisonType) (context : ParseContext)
  : M Parsed :=
  let! arguments := ParseFixedArgumentsForExpression argument 2 context in
  match arguments with
  | ArgumentsList [ConstantExpr first; ConstantExpr second] =>
    let! result := lift (CompareExpressionBsonValues first second (collationString context) comparisonType) in
    ret (Folded result)
  | ArgumentsList [first; second] =>
    ret (Operands (ComparisonOperatorState first second
           (if IsCollationApplicable EnableCollation (collationString context) then collationString context else None)))
  | _ => raise ERRCODE_INTERNAL_ERROR
  end.

(** ** Conditional operators *)

Fixpoint fold_if_null (arguments : list Data) (result : bson_value) : bson_value :=
  match arguments with
  | [] => result
  | currentData :: arguments =>
    fold_if_null arguments (if IsExpressionResultNullOrUndefined result then constant_value currentData else result)
  end.

Definition ParseDollarIfNull (argument : bson_value) (context : ParseContext) : M Parsed :=
  let numArgs := match argument with VArray args => List.length args | _ => 1%nat end in
  if (numArgs <? 2)%nat then raise ERRCODE_DOCUMENTDB_DOLLARIFNULLREQUIRESATLEASTTWOARGS
  else
    let! '(argumentsList, areArgumentsConstant) := ParseVariableArgumentsForExpression argument context in
    if areArgumentsConstant : bool then ret (Folded (fold_if_null argumentsList VNull))
    else ret (Operands (ArgumentsList argumentsList)).

(** The three fields of [$cond] as a document; the last of several wins. *)
Fixpoint cond_fields (document : fields) (context : ParseContext) (ifData thenData elseData : option Data)
  : M (option Data * option Data * option Data) :=
  match document with
  | [] => ret (ifData, thenData, elseData)
  | (key, currentValue) :: document =>
    if strcmp key (str "if") =? 0 then
      let! d := parse currentValue context in cond_fields document context (Some d) thenData elseData
    else if strcmp key (str "then") =? 0 then
      let! d := parse currentValue context in cond_fields document context ifData (Some d) elseData
    else if strcmp key (str "else") =? 0 then
      let! d := parse currentValue context in cond_fields document context ifData thenData (Some d)
    else raise ERRCODE_DOCUMENTDB_DOLLARCONDBADPARAMETER
  end.

(** A missing constant result leaves the expression as it was: zero, or after
    [ParseFixedArgumentsForExpression] with the kind of the arguments, a list, in the
    place of the type of the value, which reads as a string. *)
Definition fold_cond (ifData thenData elseData : Data) (missing : bson_value) : M Parsed :=
  match ifData, thenData, elseData with
  | ConstantExpr ifValue, ConstantExpr thenValue, ConstantExpr elseValue =>
    let! condition := lift (BsonValueAsBool ifValue) in
    ret (Folded (match (if condition : bool then thenValue else elseValue) with VEod => missing | v => v end))
  | _, _, _ => ret (Operands (ArgumentsList [ifData; thenData; elseData]))
  end.

Definition ParseDollarCond (argument : bson_value) (context : ParseContext) : M Parsed :=
  match argument with
  | VDocument document =>
    let! '(ifData, thenData, elseData) := cond_fields document context None None None in
    match ifData, thenData, elseData with
    | None, _, _ => raise ERRCODE_DOCUMENTDB_DOLLARCONDMISSINGIFPARAMETER
    | _, None, _ => raise ERRCODE_DOCUMENTDB_DOLLARCONDMISSINGTHENPARAMETER
    | _, _, None => raise ERRCODE_DOCUMENTDB_DOLLARCONDMISSINGELSEPARAMETER
    | Some ifData, Some thenData, Some elseData => fold_cond ifData thenData elseData VEod
    end
  | _ =>
    let! arguments := ParseFixedArgumentsForExpression argument 3 context in
    match arguments with
    | ArgumentsList [ifData; thenData; elseData] => fold_cond ifData thenData elseData null_string
    | _ => raise ERRCODE_INTERNAL_ERROR
    end
  end.

(** The fields of a branch, and whether everything parsed so far is constant. *)
Fixpoint branch_fields (document : fields) (context : ParseContext) (caseData thenData : option Data) (allConstant : bool)
  : M (option Data * option Data * bool) :=
  match document with
  | [] => ret (caseData, thenData, allConstant)
  | (key, currentValue) :: document =>
    if strcmp key (str "case") =? 0 then
      let! d := parse currentValue context in
      branch_fields document context (Some d) thenData (allConstant && IsAggregationExpressionConstant d)
    else if strcmp key (str "then") =? 0 then
      let! d := parse currentValue context in
      branch_fields document context caseData (Some d) (allConstant && IsAggregationExpressionConstant d)
    else raise ERRCODE_DOCUMENTDB_DOLLARSWITCHUNKNOWNARGUMENTFORBRANCH
  end.

Definition ParseBranchForSwitch (branch : bson_value) (context : ParseContext) (allConstant : bool)
  : M ((Data * Data) * bool) :=
  match branch with
  | VDocument document =>
    let! '(caseData, thenData, allConstant) := branch_fields document context None None allConstant in
    match caseData, thenData with
    | None, _ => raise ERRCODE_DOCUMENTDB_DOLLARSWITCHREQUIRESCASEEXPRESSIONFORBRANCH
    | _, None => raise ERRCODE_DOCUMENTDB_DOLLARSWITCHREQUIRESTHENEXPRESSIONFORBRANCH
    | Some caseData, Some thenData => ret ((caseData, thenData), allConstant)
    end
  | _ => raise ERRCODE_DOCUMENTDB_DOLLARSWITCHREQUIRESOBJECTFOREACHBRANCH
  end.

Fixpoint parse_branches (branches : fields) (context : ParseContext) (arguments : list (Data * Data)) (allConstant : bool)
  : M (list (Data * Data) * bool) :=
  match branches with
  | [] => ret (arguments, allConstant)
  | (_, branch) :: branches =>
    let! '(branchDef, allConstant) := ParseBranchForSwitch branch context allConstant in
    parse_branches branches context (arguments ++ [branchDef]) allConstant
  end.

Fixpoint switch_fields (document : fields) (context : ParseContext) (arguments : list (Data * Data))
  (defaultExpression : option (Data * Data)) (allConstant : bool)
  : M (list (Data * Data) * option (Data * Data) * bool) :=
  match document with
  | [] => ret (arguments, defaultExpression, allConstant)
  | (key, v) :: document =>
    if strcmp key (str "branches") =? 0 then
      match v with
      | VArray branches =>
        let! '(arguments, allConstant) := parse_branches branches context arguments allConstant in
        switch_fields document context arguments defaultExpression allConstant
      | _ => raise ERRCODE_DOCUMENTDB_DOLLARSWITCHREQUIRESARRAYFORBRANCHES
      end
    else if strcmp key (str "default") =? 0 then
      let! caseData := parse (VBool true) context in
      let! thenData := parse v context in
      switch_fields document context arguments (Some (caseData, thenData))
        (allConstant && IsAggregationExpressionConstant caseData && IsAggregationExpressionConstant thenData)
    else raise ERRCODE_DOCUMENTDB_DOLLARSWITCHBADARGUMENT
  end.

Fixpoint fold_switch (entries : list (Data * Data)) : res (option bson_value) :=
  match entries with
  | [] => Ok None
  | (caseData, thenData) :: entries =>
    match BsonValueAsBool (constant_value caseData) with
    | Ok true => Ok (Some (constant_value thenData))
    | Ok false => fold_switch entries
    | Err e => Err e
    end
  end.

Definition ParseDollarSwitch (argument : bson_value) (context : ParseContext) : M Parsed :=
  match argument with
  | VDocument document =>
    let! '(arguments, defaultExpression, allConstant) := switch_fields document context [] None true in
    match arguments with
    | [] => raise ERRCODE_DOCUMENTDB_DOLLARSWITCHREQUIRESATLEASTONEBRANCH
    | _ =>
      let arguments := arguments ++ match defaultExpression with Some d => [d] | None => [] end in
      if allConstant : bool then
        let! found := lift (fold_switch arguments) in
        match found with
        | None => raise ERRCODE_DOCUMENTDB_DOLLARSWITCHNOMATCHINGBRANCHANDNODEFAULT
        | Some result => ret (Folded result)
        end
      else ret (Operands (SwitchEntries arguments))
    end
  | _ => raise ERRCODE_DOCUMENTDB_DOLLARSWITCHREQUIRESOBJECT
  end.

(** ** Arithmetic operators *)

Definition ParseArithmeticOperatorOneOperand (argument : bson_value) (op : OneOperand) (context : ParseContext)
  : M Parsed :=
  let! arguments := ParseFixedArgumentsForExpression argument 1 context in
  match arguments with
  | ArgumentsPalloc (ConstantExpr v) => let! result := lift (ProcessOneOperand op v) in ret (Folded result)
  | _ => ret (Operands arguments)
  end.

Definition fold_two_operands (op : TwoOperands) (first second : Data) : M Parsed :=
  match first, second with
  | ConstantExpr x, ConstantExpr y => let! result := lift (ProcessTwoOperands op x y) in ret (Folded result)
  | _, _ => ret (Operands (ArgumentsList [first; second]))
  end.

Definition ParseArithmeticOperatorTwoOperands (argument : bson_value) (op : TwoOperands) (context : ParseContext)
  : M Parsed :=
  let! arguments := ParseFixedArgumentsForExpression argument 2 context in
  match arguments with
  | ArgumentsList [first; second] => fold_two_operands op first second
  | _ => raise ERRCODE_INTERNAL_ERROR
  end.

(** The precision is 0 unless it is given. *)
Definition ParseDollarRoundAndTrunc (argument : bson_value) (op : TwoOperands) (context : ParseContext) : M Parsed :=
  let! defaultArg := ParseRangeArgumentsForExpression (VInt32 0) 1 2 context in
  let! arguments := ParseRangeArgumentsForExpression argument 1 2 context in
  match arguments, defaultArg with
  | ArgumentsList [first], ArgumentsPalloc second => fold_two_operands op first second
  | ArgumentsList [first; second], _ => fold_two_operands op first second
  | ArgumentsPalloc first, ArgumentsPalloc second => fold_two_operands op first second
  | _, _ => raise ERRCODE_INTERNAL_ERROR
  end.

Fixpoint fold_operands {State : Type}
  (processOperatorFunc : bson_value -> State -> bson_value -> res (State * bson_value * bool))
  (arguments : list Data) (state : State) (result : bson_value) : res (State * bson_value) :=
  match arguments with
  | [] => Ok (state, result)
  | currentData :: arguments =>
    match processOperatorFunc (constant_value currentData) state result with
    | Ok (state, result, continueEnumerating) =>
      if continueEnumerating : bool then fold_operands processOperatorFunc arguments state result
      else Ok (state, result)
    | Err e => Err e
    end
  end.

(** The state and result after the constants, or the arguments. *)
Definition ParseArithmeticOperatorVariableOperands {State : Type}
  (processOperatorFunc : bson_value -> State -> bson_value -> res (State * bson_value * bool))
  (argument : bson_value) (state : State) (result : bson_value) (context : ParseContext)
  : M ((State * bson_value) + list Data) :=
  let! '(argumentsList, areArgumentsConstant) := ParseVariableArgumentsForExpression argument context in
  if areArgumentsConstant : bool then
    let! folded := lift (fold_operands processOperatorFunc argumentsList state result) in ret (inl folded)
  else ret (inr argumentsList).

Definition ParseDollarAdd (argument : bson_value) (context : ParseContext) : M Parsed :=
  let! parsed := ParseArithmeticOperatorVariableOperands ProcessDollarAdd argument (AddState false false) (VInt32 0) context in
  match parsed with
  | inl (state, result) =>
    let! result := lift (ProcessDollarAddAccumulatedResult state result) in ret (Folded result)
  | inr argumentsList => ret (Operands (ArgumentsList argumentsList))
  end.

Definition ParseDollarMultiply (argument : bson_value) (context : ParseContext) : M Parsed :=
  let! parsed := ParseArithmeticOperatorVariableOperands multiply_operand argument tt (VInt32 1) context in
  match parsed with
  | inl (_, result) => ret (Folded result)
  | inr argumentsList => ret (Operands (ArgumentsList argumentsList))
  end.

(** ** [$literal] and [$let] *)

Definition ParseDollarLiteral (inputDocument : bson_value) (context : ParseContext) : M Parsed :=
  ret (Folded inputDocument).

(** Without a context ([None]) the variables are only checked. *)
Fixpoint ParseVariableSpec (variableSpec : fields) (variableContext : option (@VariableFrame OtherArguments)) (context : ParseContext)
  : M (option VariableFrame) :=
  match variableSpec with
  | [] => ret variableContext
  | (varName, varValue) :: variableSpec =>
    let! _ := lift (ValidateVariableName varName) in
    let! variableExpression := parse varValue context in
    let! variableContext :=
      match variableContext with
      | None => ret None
      | Some frame =>
        let! frame := VariableContextSetVariableExpression frame varName variableExpression in ret (Some frame)
      end in
    ParseVariableSpec variableSpec variableContext context
  end.

Fixpoint let_fields (document : fields) (vars inValue : bson_value) : res (bson_value * bson_value) :=
  match document with
  | [] => Ok (vars, inValue)
  | (key, v) :: document =>
    if strcmp key (str "vars") =? 0 then let_fields document v inValue
    else if strcmp key (str "in") =? 0 then let_fields document vars v
    else Err ERRCODE_DOCUMENTDB_LOCATION16875
  end.

(** A constant [in] is stored as it was written, not as it was parsed. *)
Definition ParseDollarLet (argument : bson_value) (context : ParseContext) : M Parsed :=
  match argument with
  | VDocument document =>
    let! '(vars, inValue) := lift (let_fields document VEod VEod) in
    match vars, inValue with
    | VEod, _ | _, VEod => raise ERRCODE_DOCUMENTDB_LOCATION16876
    | VDocument variables, _ =>
      let! inData := parse inValue context in
      let isInConstant := IsAggregationExpressionConstant inData in
      let! frame := ParseVariableSpec variables (if isInConstant then None else Some NoVariables) context in
      match frame with
      | None => ret (Folded inValue)
      | Some frame => ret (Operands (LetArguments inData frame))
      end
    | _, _ => raise ERRCODE_DOCUMENTDB_LOCATION10065
    end
  | _ => raise ERRCODE_DOCUMENTDB_LOCATION16874
  end.

(** ** The table *)

Definition ParseFunc : Type := bson_value -> ParseContext -> M Parsed.

Record MongoOperatorExpression : Type := {
  operatorName : bytes;
  parseAggregationExpressionFunc : option ParseFunc;
  handlePreParsedOperatorFunc : option HandlePreParsedOperatorFunc
}.

Definition op (name : string) (p : ParseFunc) (h : HandlePreParsedOperatorFunc) : MongoOperatorExpression :=
  {| operatorName := str name; parseAggregationExpressionFunc := Some p; handlePreParsedOperatorFunc := Some h |}.
Definition literal (name : string) : MongoOperatorExpression :=
  {| operatorName := str name; parseAggregationExpressionFunc := Some ParseDollarLiteral; handlePreParsedOperatorFunc := None |}.
Definition absent (name : string) : MongoOperatorExpression :=
  {| operatorName := str name; parseAggregationExpressionFunc := None; handlePreParsedOperatorFunc := None |}.
Definition other (name : string) : MongoOperatorExpression :=
  op name (fun argument context =>
             let! r := parse_other (str name) argument context in
             ret (match r with inl v => Folded v | inr a => Operands (ArgumentsOther a) end)) DollarOther.
Definition compare_op (name : string) (c : ComparisonType) : MongoOperatorExpression :=
  op name (fun argument context => ParseComparisonOperator argument c context) (DollarComparison c).
Definition one_operand (name : string) (o : OneOperand) : MongoOperatorExpression :=
  op name (fun argument context => ParseArithmeticOperatorOneOperand argument o context) (DollarOneOperand o).
Definition two_operands (name : string) (o : TwoOperands) : MongoOperatorExpression :=
  op name (fun argument context => ParseArithmeticOperatorTwoOperands argument o context) (DollarTwoOperands o).
Definition round_operands (name : string) (o : TwoOperands) : MongoOperatorExpression :=
  op name (fun argument context => ParseDollarRoundAndTrunc argument o context) (DollarTwoOperands o).

Local Open Scope string_scope.
Definition OperatorExpressions : list MongoOperatorExpression :=
  [ other "$_bucketInternal"; one_operand "$abs" DollarAbs; absent "$accumulator"; other "$acos";
    other "$acosh"; op "$add" ParseDollarAdd DollarAdd; absent "$addToSet"; other "$allElementsTrue";
    op "$and" ParseDollarAnd (DollarBoolean BooleanType_And); other "$anyElementTrue"; other "$arrayElemAt";
    other "$arrayToObject"; other "$asin"; other "$asinh"; other "$atan"; other "$atan2"; other "$atanh";
    other "$avg"; other "$binarySize"; other "$bitAnd"; other "$bitNot"; other "$bitOr"; other "$bitXor";
    other "$bsonSize"; one_operand "$ceil" DollarCeil; compare_op "$cmp" ComparisonType_Cmp; other "$concat";
    other "$concatArrays"; op "$cond" ParseDollarCond DollarCond; literal "$const"; other "$convert";
    other "$cos"; other "$cosh"; other "$dateAdd"; other "$dateDiff"; other "$dateFromParts";
    other "$dateFromString"; other "$dateSubtract"; other "$dateToParts"; other "$dateToString";
    other "$dateTrunc"; other "$dayOfMonth"; other "$dayOfWeek"; other "$dayOfYear";
    other "$degreesToRadians"; two_operands "$divide" DollarDivide; compare_op "$eq" ComparisonType_Eq;
    one_operand "$exp" DollarExp; other "$filter"; other "$first"; other "$firstN";
    one_operand "$floor" DollarFloor; absent "$function"; other "$getField";
    compare_op "$gt" ComparisonType_Gt; compare_op "$gte" ComparisonType_Gte; other "$hour";
    op "$ifNull" ParseDollarIfNull DollarIfNull; other "$in"; other "$indexOfArray"; other "$indexOfBytes";
    other "$indexOfCP"; other "$isArray"; other "$isNumber"; other "$isoDayOfWeek"; other "$isoWeek";
    other "$isoWeekYear"; other "$last"; other "$lastN"; op "$let" ParseDollarLet DollarLet;
    literal "$literal"; one_operand "$ln" DollarLn; two_operands "$log" DollarLog;
    one_operand "$log10" DollarLog10; compare_op "$lt" ComparisonType_Lt;
    compare_op "$lte" ComparisonType_Lte; other "$ltrim"; other "$makeArray"; other "$map"; other "$max";
    other "$maxN"; other "$mergeObjects"; other "$meta"; other "$millisecond"; other "$min"; other "$minN";
    other "$minute"; two_operands "$mod" DollarMod; other "$month";
    op "$multiply" ParseDollarMultiply DollarMultiply; compare_op "$ne" ComparisonType_Ne;
    op "$not" ParseDollarNot (DollarBoolean BooleanType_Not); other "$objectToArray";
    op "$or" ParseDollarOr (DollarBoolean BooleanType_Or); two_operands "$pow" DollarPow; absent "$push";
    other "$radiansToDegrees"; other "$rand"; other "$range"; other "$reduce"; other "$regexFind";
    other "$regexFindAll"; other "$regexMatch"; other "$replaceAll"; other "$replaceOne";
    other "$reverseArray"; round_operands "$round" DollarRound; other "$rtrim"; other "$second";
    other "$setDifference"; other "$setEquals"; other "$setField"; other "$setIntersection";
    other "$setIsSubset"; other "$setUnion"; other "$sin"; other "$sinh"; other "$size"; other "$slice";
    other "$sortArray"; other "$split"; one_operand "$sqrt" DollarSqrt; absent "$stdDevPop";
    absent "$stdDevSamp"; other "$strLenBytes"; other "$strLenCP"; other "$strcasecmp"; other "$substr";
    other "$substrBytes"; other "$substrCP"; two_operands "$subtract" DollarSubtract; other "$sum";
    op "$switch" ParseDollarSwitch DollarSwitch; other "$tan"; other "$tanh"; other "$toBool";
    other "$toDate"; other "$toDecimal"; other "$toDouble"; other "$toHashedIndexKey"; other "$toInt";
    other "$toLong"; other "$toLower"; other "$toObjectId"; other "$toString"; other "$toUUID";
    other "$toUpper"; other "$trim"; round_operands "$trunc" DollarTrunc; other "$tsIncrement";
    other "$tsSecond"; other "$type"; other "$unsetField"; other "$week"; other "$year"; other "$zip" ].
Local Close Scope string_scope.

(** ** Trees of documents *)

(** The child with this field is replaced by what [f] makes of it, or a new child is
    added at the end. *)
Fixpoint update_child (field : bytes) (children : list Node) (f : option Node -> M (Node * bool))
  : M (list Node * bool) :=
  match children with
  | [] => let! '(node, b) := f None in ret ([node], b)
  | child :: children =>
    if same_name (node_field child) field then
      let! '(node, b) := f (Some child) in ret (node :: children, b)
    else
      let! '(children, b) := update_child field children f in ret (child :: children, b)
  end.

Definition ThrowErrorOnIntermediateMismatch {A : Set} (field path : bytes) : M A :=
  raise (if blen field <? blen path then ERRCODE_DOCUMENTDB_LOCATION31249 else ERRCODE_DOCUMENTDB_LOCATION31250).

(** The nodes of the segments before the last are intermediate nodes that have
    fields below them; [last] makes the node of the last segment. *)
Fixpoint TraverseDottedPathAndGetNode (path : bytes) (segments : list bytes) (tree : list Node)
  (last : bytes -> option Node -> M (Node * bool)) : M (list Node * bool) :=
  match segments with
  | [] => raise ERRCODE_INTERNAL_ERROR
  | [field] => update_child field tree (last field)
  | field :: segments =>
    update_child field tree (fun existing =>
      match existing with
      | Some (LeafField _ _) => ThrowErrorOnIntermediateMismatch field path
      | Some (IntermediateNode _ _ children) =>
        let! '(children, b) := TraverseDottedPathAndGetNode path segments children last in
        ret (IntermediateNode field true children, b)
      | None =>
        let! '(children, b) := TraverseDottedPathAndGetNode path segments [] last in
        ret (IntermediateNode field true children, b)
      end)
  end.

(** A leaf with the parsed value; whether it is not a constant. *)
Definition ValidateAndSetLeafNodeData (v : bson_value) (context : ParseContext) (field : bytes)
  (existing : option Node) : M (Node * bool) :=
  match existing with
  | Some (IntermediateNode _ _ _) => raise ERRCODE_DOCUMENTDB_LOCATION31250
  | _ =>
    let! data := parse v context in
    ret (LeafField field data, negb (IsAggregationExpressionConstant data))
  end.

(** With [DefaultPathTreeFuncs] and [forceLeafExpression]: every leaf is a field, and
    neither inclusions nor exclusions occur.  The tree, and whether it has an
    expression that is not constant. *)
Fixpoint BuildBsonPathTreeCore (fuel : nat) (pathSpecification : fields) (tree : list Node)
  (hasAggregationExpressions : bool) (context : ParseContext) : M (list Node * bool) :=
  match fuel with
  | O => raise ERRCODE_STATEMENT_TOO_COMPLEX
  | S fuel =>
    (fix loop (pathSpecification : fields) (tree : list Node) (hasAggregationExpressions : bool)
       : M (list Node * bool) :=
       match pathSpecification with
       | [] => ret (tree, hasAggregationExpressions)
       | (path, v) :: pathSpecification =>
         let! _ := lift (EnsureValidFieldPathString path) in
         let! '(tree, b) :=
           TraverseDottedPathAndGetNode path (split_dots path) tree
             match v with
             | VDocument d =>
               if is_operator_value v then ValidateAndSetLeafNodeData v context
               else fun field existing =>
                 match existing with
                 | Some (LeafField _ _) => ThrowErrorOnIntermediateMismatch field path
                 | Some (IntermediateNode _ _ children) =>
                   let! '(children, b) := BuildBsonPathTreeCore fuel d children false context in
                   ret (IntermediateNode field true children, b)
                 | None =>
                   let! '(children, b) := BuildBsonPathTreeCore fuel d [] false context in
                   ret (IntermediateNode field true children, b)
                 end
             | _ => ValidateAndSetLeafNodeData v context
             end in
         loop pathSpecification tree (hasAggregationExpressions || b)
       end) pathSpecification tree hasAggregationExpressions
  end.

(** ** Documents and arrays *)

Definition self_evaluator : @Evaluator OtherArguments := evaluator handle_other depth.

(** A document that is no operator: a tree of its fields, or a constant that is
    written from the tree. *)
Definition parse_fields (document : fields) (context : ParseContext) : M Data :=
  let treeContext := {| disallowPaths := false; nowValue := VEod; allowRedactVariables := false;
                        collationString := collationString context |} in
  let! '(treeNode, hasAggregationExpressions) := BuildBsonPathTreeCore depth document [] false treeContext in
  if hasAggregationExpressions : bool then ret (DocumentExpr treeNode)
  else
    let! w := TraverseTreeAndWriteFieldsToWriter self_evaluator [] [] false treeNode PgbsonWriterInit in
    ret (ConstantExpr (VDocument w)).

Definition ParseDocumentAggregationExpressionData (document : fields) (context : ParseContext) : M Data :=
  match document with
  | (operatorKey, argument) :: rest =>
    if is_operator_key operatorKey then
      match rest with
      | _ :: _ => raise ERRCODE_DOCUMENTDB_LOCATION40181
      | [] =>
        match bsearch (fun item => strcmp operatorKey (operatorName item)) OperatorExpressions with
        | None => raise ERRCODE_DOCUMENTDB_LOCATION31325
        | Some pItem =>
          match parseAggregationExpressionFunc pItem with
          | None => raise ERRCODE_DOCUMENTDB_COMMANDNOTSUPPORTED
          | Some parseFunc =>
            let! parsed := parseFunc argument context in
            match parsed with
            | Folded v => ret (ConstantExpr v)
            | Operands arguments =>
              match handlePreParsedOperatorFunc pItem with
              | None => raise ERRCODE_DOCUMENTDB_INTERNALERROR
              | Some handler => ret (OperatorExpr handler arguments)
              end
            end
          end
        end
      end
    else parse_fields document context
  | [] => parse_fields document context
  end.

Definition ParseArrayAggregationExpressionData (items : fields) (context : ParseContext) : M Data :=
  let! arrayNode := parse_list items context in
  if AreElementsInListConstant arrayNode then
    let! arrayWriter :=
      AppendLeafArrayFieldChildrenToWriter self_evaluator [] [] arrayNode (PgbsonWriterStartArray PgbsonWriterInit []) in
    ret (ConstantExpr (PgbsonArrayWriterGetValue arrayWriter))
  else ret (ArrayExpr arrayNode).

(** ** Strings *)

(** The system variables that evaluation looks up. *)
Definition system_variable_kind (name : bytes) : option AggregationExpressionSystemVariableKind :=
  if same_name name (str "$$CLUSTER_TIME") then Some ClusterTime
  else if same_name name (str "$$ROOT") then Some Root
  else if same_name name (str "$$CURRENT") then Some Current
  else if same_name name (str "$$REMOVE") then Some Remove
  else if same_name name (str "$$DESCEND") then Some Descend
  else if same_name name (str "$$PRUNE") then Some Prune
  else if same_name name (str "$$KEEP") then Some Keep
  else if same_name name (str "$$SEARCH_META") then Some SearchMeta
  else if same_name name (str "$$USER_ROLES") then Some UserRoles
  else None.

Definition is_redact_variable (kind : AggregationExpressionSystemVariableKind) : bool :=
  match kind with Descend | Prune | Keep => true | _ => false end.

(** A string that starts with [$$]. *)
Definition parse_variable (s : bytes) (context : ParseContext) : M Data :=
  let suffix := match StringViewFindSuffix s dot with Some x => x | None => [] end in
  let! expressionView :=
    (if blen suffix >? 0 then ret (match StringViewFindPrefix s dot with Some p => p | None => [] end)
     else if StringViewEndsWith (Some s) dot then raise ERRCODE_DOCUMENTDB_FAILEDTOPARSE
     else ret s) in
  if same_name expressionView (str "$$NOW") then
    match nowValue context with
    | VEod => raise ERRCODE_DOCUMENTDB_FAILEDTOPARSE
    | now => ret (ConstantExpr (if blen suffix =? 0 then now else VEod))
    end
  else
    match system_variable_kind expressionView with
    | Some kind =>
      if is_redact_variable kind && negb (allowRedactVariables context) then raise ERRCODE_DOCUMENTDB_LOCATION17276
      else ret (SystemVariableExpr kind suffix)
    | None =>
      let! _ := lift (ValidateVariableNameCore (skipn 2 expressionView) true) in
      ret (VariableExpr s)
    end.

Definition parse_string (s : bytes) (context : ParseContext) : M Data :=
  if (blen s >? 1) && byte_eqb (nth 0 s x00) "$"%byte then
    if (blen s >? 2) && byte_eqb (nth 1 s x00) "$"%byte then parse_variable s context
    else if negb (Nat.eqb (strlen s) (List.length s)) then raise ERRCODE_DOCUMENTDB_LOCATION16411
    else ret (PathExpr s)
  else ret (ConstantExpr (VUtf8 s)).

(** The callback for the variables of a command. *)
Definition DisallowExpressionsForTopLevelLet (parsedExpression : Data) : M unit :=
  match parsedExpression with
  | PathExpr _ | SystemVariableExpr Current _ | SystemVariableExpr Root _ => raise ERRCODE_DOCUMENTDB_LOCATION4890500
  | _ => ret tt
  end.

Definition parse_step (v : bson_value) (context : ParseContext) : M Data :=
  let! expressionData :=
    match v with
    | VDocument d => ParseDocumentAggregationExpressionData d context
    | VArray d => ParseArrayAggregationExpressionData d context
    | VUtf8 s => parse_string s context
    | _ => ret (ConstantExpr v)
    end in
  let! _ := (if disallowPaths context then DisallowExpressionsForTopLevelLet expressionData else ret tt) in
  ret expressionData.
End Step.

(** The depth is the stack the server allows. *)
Fixpoint ParseAggregationExpressionData (depth : nat) (v : bson_value) (context : ParseContext) : M Data :=
  match depth with
  | O => raise ERRCODE_STATEMENT_TOO_COMPLEX
  | S depth => parse_step (ParseAggregationExpressionData depth) depth v context
  end.
End Parse.
