(* ===== verification/AggGet.v ===== *)
(** * Aggregation expressions: the SQL functions ([operators/bson_expression.c])

    [bson_expression_get] and its relatives parse an expression, which PostgreSQL
    keeps for the following rows of a query, and evaluate it on a document; the
    variables of a command are evaluated before it runs and passed as a document. *)

From Stdlib Require Import ZArith Lia Bool String List.
From Stdlib Require Import Strings.Byte.
From S2P Require Import Prelude SoftFloat BsonTypes StringView Decimal128 BsonCompare Traversal PgbsonElement BsonWriter DollarSets.
From S2P Require Import AggData AggOperators AggEval AggParse.
Import ListNotations.
Local Open Scope Z_scope.

Section Get.
Context {BL : BidLib} {LB : LibBson} {LM : LibM} {LD : LibBsonDoc} {OtherArguments : Set}.
Local Open Scope agg_scope.

Abbreviation Data := (@AggregationExpressionData OtherArguments).
Abbreviation Result := (@ExpressionResult OtherArguments).

(** Settings. *)
Variable EnableCollation : bool.
Variable EnableNowSystemVariable : bool.
Variable EnableVariablesSupportForWriteCommands : bool.
Variable null_string : bson_value.
Variable handle_other : OtherArguments -> fields -> Result -> M Result.
Variable parse_other : bytes -> bson_value -> ParseContext -> M (bson_value + OtherArguments).
(** The start of the transaction, in milliseconds. *)
Variable transaction_start : Z.
(** The stack the server allows. *)
Variable depth : nat.

Abbreviation parse_data := (ParseAggregationExpressionData EnableCollation null_string handle_other parse_other depth).
Abbreviation write_data := (EvaluateAggregationExpressionDataToWriter handle_other depth).

Definition empty_context : ParseContext :=
  {| disallowPaths := false; nowValue := VEod; allowRedactVariables := false; collationString := None |}.

(** ** Parsing with the variables of the command *)

(** [None] is a [NULL] specification. *)
Definition GetTimeSystemVariablesFromVariableSpec (variableSpec : option fields) (now : bson_value) : bson_value :=
  match variableSpec with
  | Some spec =>
    if EnableNowSystemVariable then
      match bson_iter_find_descendant spec (str "now") with Some v => v | None => now end
    else now
  | None => now
  end.

Record BsonExpressionGetState : Set := {
  expressionData : Data;
  getVariableContext : @ExpressionVariableContext OtherArguments
}.

Definition ParseBsonExpressionGetState (expressionValue : bson_value) (variableSpec : option fields)
  : M BsonExpressionGetState :=
  let context := {| disallowPaths := false;
                    nowValue := GetTimeSystemVariablesFromVariableSpec variableSpec VEod;
                    allowRedactVariables := false; collationString := None |} in
  let! data := parse_data expressionValue context in
  match variableSpec with
  | None => ret {| expressionData := data; getVariableContext := [] |}
  | Some spec =>
    match bson_iter_find_descendant spec (str "let") with
    | None => ret {| expressionData := data; getVariableContext := [] |}
    | Some (VDocument letVariables) =>
      let! frame := ParseVariableSpec parse_data letVariables (Some NoVariables) context in
      ret {| expressionData := data;
             getVariableContext := match frame with Some f => [f] | None => [] end |}
    | Some _ => raise ASSERTION_FAILED
    end
  end.

(** ** Evaluation of a row *)

(** The fields of a document are appended to a writer. *)
Fixpoint append_fields (w : pgbson_writer) (d : fields) : res pgbson_writer :=
  match d with
  | [] => Ok w
  | (key, v) :: d => match PgbsonWriterAppendValue w key v with Ok w => append_fields w d | Err e => Err e end
  end.

Definition evaluate_row (state : BsonExpressionGetState) (path : bytes) (isNullOnEmpty : bool) (document : fields)
  : M fields :=
  write_data (expressionData state) document path PgbsonWriterInit (getVariableContext state) isNullOnEmpty.

Definition add_collation (returnedBson : fields) (collation : option bytes) : res fields :=
  match collation with
  | Some c =>
    if IsCollationApplicable EnableCollation collation then
      match append_fields PgbsonWriterInit returnedBson with
      | Ok w => PgbsonWriterAppendValue w (str "collation") (VUtf8 c)
      | Err e => Err e
      end
    else Ok returnedBson
  | None => Ok returnedBson
  end.

(** The first row of a query, for which the expression is parsed. *)
Definition bson_expression_get (document expression : fields) (isNullOnEmpty : bool) (variableSpec : option fields)
  (collation : option bytes) : M fields :=
  let! '(path, expressionValue) := lift (BsonIterToSinglePgbsonElement EnableCollation expression) in
  let! state := ParseBsonExpressionGetState expressionValue variableSpec in
  let! returnedBson := evaluate_row state path isNullOnEmpty document in
  lift (add_collation returnedBson (if EnableCollation then collation else None)).

(** The rows of a query: the parsed expression of the first is kept for the others. *)
Fixpoint evaluate_rows (state : BsonExpressionGetState) (path : bytes) (isNullOnEmpty : bool) (documents : list fields)
  : M (list fields) :=
  match documents with
  | [] => ret []
  | document :: documents =>
    let! row := evaluate_row state path isNullOnEmpty document in
    let! rows := evaluate_rows state path isNullOnEmpty documents in
    ret (row :: rows)
  end.

Definition bson_expression_get_rows (documents : list fields) (expression : fields) (isNullOnEmpty : bool)
  (variableSpec : option fields) : M (list fields) :=
  let! '(path, expressionValue) := lift (BsonIterToSinglePgbsonElement EnableCollation expression) in
  let! state := ParseBsonExpressionGetState expressionValue variableSpec in
  evaluate_rows state path isNullOnEmpty documents.

Definition bson_expression_partition_get (document expression : fields) (isNullOnEmpty : bool)
  (variableSpec : option fields) : M fields :=
  let! '(path, expressionValue) := lift (BsonIterToSinglePgbsonElement EnableCollation expression) in
  let! state := ParseBsonExpressionGetState expressionValue variableSpec in
  let! returnedBson := evaluate_row state path isNullOnEmpty document in
  match returnedBson with
  | [(_, VArray _)] => raise ERRCODE_DOCUMENTDB_TYPEMISMATCH
  | [_] => ret returnedBson
  | _ => raise ERRCODE_DOCUMENTDB_INTERNALERROR
  end.

(** ** [bson_expression_map] *)

Fixpoint map_documents (data : Data) (path : bytes) (isNullOnEmpty : bool) (items : fields) (arrayWriter : pgbson_array_writer)
  : M pgbson_array_writer :=
  match items with
  | [] => ret arrayWriter
  | (_, VDocument d) :: items =>
    let! docWriter := write_data data d path PgbsonWriterInit [] isNullOnEmpty in
    let! arrayWriter :=
      match docWriter with
      | (key, v) :: _ =>
        if strncmp key path (List.length path) =? 0 then lift (PgbsonArrayWriterWriteValue arrayWriter v)
        else ret arrayWriter
      | [] => ret arrayWriter
      end in
    map_documents data path isNullOnEmpty items arrayWriter
  | _ => raise ERRCODE_INTERNAL_ERROR
  end.

Definition bson_expression_map (document : fields) (srcArrayName : bytes) (expression : fields) (isNullOnEmpty : bool)
  : M fields :=
  let! '(path, expressionValue) := lift (BsonIterToSinglePgbsonElement EnableCollation expression) in
  match find (fun kv => strcmp (fst kv) srcArrayName =? 0) document with
  | Some (_, VArray items) =>
    let! data := parse_data expressionValue empty_context in
    let! arrayWriter := map_documents data path isNullOnEmpty items (PgbsonWriterStartArray PgbsonWriterInit path) in
    ret (PgbsonWriterEndArray PgbsonWriterInit path arrayWriter)
  | _ => raise ERRCODE_INTERNAL_ERROR
  end.

(** ** The variables of a command *)

(** [None] is [NULL]; the time that is generated is stored for the cursor. *)
Definition GetTimeSystemVariables (timeVariables : option bson_value) : bson_value * option bson_value :=
  match timeVariables with
  | Some VEod => (VDateTime transaction_start, Some (VDateTime transaction_start))
  | Some now => (now, timeVariables)
  | None => (VDateTime transaction_start, None)
  end.

(** The value of one variable, with the variables before it. *)
Definition top_level_value (varValue : bson_value) (context : ParseContext) (frame : VariableFrame) : M bson_value :=
  let! data := parse_data varValue context in
  match data with
  | ConstantExpr v => ret v
  | _ =>
    let! evaluatedBson := write_data data [] [] PgbsonWriterInit [frame] false in
    match evaluatedBson with
    | [] => ret VEod
    | _ => let! '(_, v) := lift (BsonIterToSinglePgbsonElement EnableCollation evaluatedBson) in ret v
    end
  end.

Fixpoint write_let_variables (varSpec : fields) (context : ParseContext) (frame : VariableFrame) (w : pgbson_writer)
  : M (VariableFrame * pgbson_writer) :=
  match varSpec with
  | [] => ret (frame, w)
  | (varName, varValue) :: varSpec =>
    let! _ := lift (ValidateVariableName varName) in
    let! v := top_level_value varValue context frame in
    let! '(v, w) :=
      match v with
      | VEod =>
        let v := VUtf8 (str "$$REMOVE") in
        let! w := lift (PgbsonWriterAppendValue w varName v) in ret (v, w)
      | _ =>
        let! literalWriter := lift (PgbsonWriterAppendValue (PgbsonWriterStartDocument w varName) (str "$literal") v) in
        ret (v, PgbsonWriterEndDocument w varName literalWriter)
      end in
    let! frame := VariableContextSetVariableData frame (Constant_Variable varName v) in
    write_let_variables varSpec context frame w
  end.

(** The document of the variables, and the time system variables. *)
Definition ParseAndGetTopLevelVariableSpec (varSpec : bson_value) (timeSystemVariables : option bson_value)
  (isWriteCommand : bool) : M (fields * option bson_value) :=
  let generateTimeVariables := EnableNowSystemVariable || (isWriteCommand && EnableVariablesSupportForWriteCommands) in
  let '(now, stored) := if generateTimeVariables then GetTimeSystemVariables timeSystemVariables
                        else (VEod, timeSystemVariables) in
  let! resultWriter :=
    (if generateTimeVariables then lift (PgbsonWriterAppendValue PgbsonWriterInit (str "now") now)
     else ret PgbsonWriterInit) in
  match varSpec with
  | VEod => ret (resultWriter, stored)
  | VDocument vars | VArray vars =>
    let context := {| disallowPaths := true; nowValue := now; allowRedactVariables := false; collationString := None |} in
    let! '(frame, letVarsWriter) :=
      write_let_variables vars context NoVariables (PgbsonWriterStartDocument resultWriter (str "let")) in
    let! _ := match frame with
              | VariableTable table _ => hash_destroy table
              | _ => ret tt
              end in
    ret (PgbsonWriterEndDocument resultWriter (str "let") letVarsWriter, stored)
  | _ => raise ERRCODE_INTERNAL_ERROR
  end.
End Get.
