(* ===== verification/AggTable.v ===== *)
(** * The table of aggregation operators

    The parser finds an operator by a binary search in a table that has to be
    sorted by name.  It is, and the search finds every operator. *)

From Stdlib Require Import ZArith Lia Bool String List.
From Stdlib Require Import Strings.Byte.
From S2P Require Import Prelude BsonTypes StringView Decimal128 BsonCompare BsonWriter AggData AggOperators AggEval AggParse.
Import ListNotations.
Local Open Scope Z_scope.

(** ** Binary search *)

Section Search.
Context {A : Type}.
Variable compare : A -> Z.
Variable base : list A.

(** The array is sorted with respect to the key [compare] looks for: what follows an
    entry that is not below the key is above it. *)
Definition ordered : Prop :=
  forall i j a b, (i < j)%nat -> nth_error base i = Some a -> nth_error base j = Some b ->
  (compare a <= 0 -> compare b < 0) /\ (compare b >= 0 -> compare a > 0).

Lemma bsearch_loop_spec (Hord : ordered) fuel : forall low high,
  (high - low < fuel)%nat -> (high <= List.length base)%nat ->
  match bsearch_loop compare base fuel low high with
  | Some a => In a base /\ compare a = 0
  | None => forall i a, (low <= i < high)%nat -> nth_error base i = Some a -> compare a <> 0
  end.
Proof.
  induction fuel as [|fuel IH]; intros low high Hf Hh; [lia|]. cbn [bsearch_loop].
  destruct (Nat.ltb_spec low high) as [Hlt|]; [|intros; lia].
  set (idx := Nat.div2 (low + high)).
  assert (Hidx : (low <= idx < high)%nat).
  { unfold idx. rewrite Nat.div2_div. split; [apply Nat.div_le_lower_bound|apply Nat.Div0.div_lt_upper_bound]; lia. }
  destruct (nth_error base idx) as [x|] eqn:Ex; [|apply nth_error_None in Ex; lia].
  destruct (Z.ltb_spec (compare x) 0) as [Hx|Hx]; [|destruct (Z.gtb_spec (compare x) 0) as [Hx'|Hx']].
  - specialize (IH low idx ltac:(lia) ltac:(lia)). destruct (bsearch_loop compare base fuel low idx); [exact IH|].
    intros i a Hi Ha. destruct (Nat.lt_total i idx) as [L|[->|G]]; [apply (IH i a); [lia|exact Ha]| |].
    + rewrite Ex in Ha. injection Ha as <-. lia.
    + destruct (Hord idx i x a G Ex Ha) as [H _]. lia.
  - specialize (IH (S idx) high ltac:(lia) ltac:(lia)). destruct (bsearch_loop compare base fuel (S idx) high); [exact IH|].
    intros i a Hi Ha. destruct (Nat.lt_total i idx) as [L|[->|G]]; [| |apply (IH i a); [lia|exact Ha]].
    + destruct (Hord i idx a x L Ha Ex) as [_ H]. lia.
    + rewrite Ex in Ha. injection Ha as <-. lia.
  - split; [now apply nth_error_In with idx|lia].
Qed.

Lemma ordered_unique (Hord : ordered) a b : In a base -> In b base -> compare a = 0 -> compare b = 0 -> a = b.
Proof.
  intros Ha Hb Ea Eb. apply In_nth_error in Ha, Hb. destruct Ha as [i Hi], Hb as [j Hj].
  destruct (Nat.lt_total i j) as [L|[->|G]].
  - destruct (Hord i j a b L Hi Hj). lia.
  - congruence.
  - destruct (Hord j i b a G Hj Hi). lia.
Qed.

(** A binary search in a sorted array is a search. *)
Lemma bsearch_find (Hord : ordered) : bsearch compare base = find (fun a => compare a =? 0) base.
Proof.
  pose proof (bsearch_loop_spec Hord (S (List.length base)) 0 (List.length base) ltac:(lia) ltac:(lia)) as H.
  unfold bsearch. destruct (bsearch_loop _ _ _ _ _) as [a|].
  - destruct H as [Hin H0]. destruct (find (fun a => compare a =? 0) base) as [b|] eqn:E.
    + apply find_some in E. destruct E as [Hb Eb]. f_equal. apply ordered_unique; auto. now apply Z.eqb_eq.
    + apply (find_none _ _ E) in Hin. lia.
  - destruct (find (fun a => compare a =? 0) base) as [b|] eqn:E; [|reflexivity].
    apply find_some in E. destruct E as [Hb Eb]. apply In_nth_error in Hb. destruct Hb as [i Hi].
    apply Z.eqb_eq in Eb. exfalso. apply (H i b); [|exact Hi|exact Eb].
    split; [lia|]. apply nth_error_Some. congruence.
Qed.
End Search.

(** ** The names *)

Fixpoint increasing (names : list bytes) : bool :=
  match names with
  | a :: (b :: _) as rest => (cmp_bytes a b <? 0) && increasing rest
  | _ => true
  end.

Lemma increasing_head a names b : increasing (a :: names) = true -> In b names -> cmp_bytes a b < 0.
Proof.
  revert a. induction names as [|c names IH]; intros a H Hb; [easy|].
  cbn [increasing] in H. apply andb_true_iff in H. destruct H as [Hac Hrest]. apply Z.ltb_lt in Hac.
  destruct Hb as [->|Hb]; [exact Hac|]. specialize (IH c Hrest Hb).
  pose proof (trans3_cmp_bytes a c b) as T. unfold trans3 in T. lia.
Qed.

Lemma increasing_nth names : increasing names = true -> forall i j a b, (i < j)%nat ->
  nth_error names i = Some a -> nth_error names j = Some b -> cmp_bytes a b < 0.
Proof.
  induction names as [|c names IH]; intros H i j a b Hij Ha Hb; [now destruct i|].
  destruct j as [|j]; [lia|]. destruct i as [|i]; cbn [nth_error] in *.
  - injection Ha as <-. apply increasing_head with names; [exact H|now apply nth_error_In with j].
  - apply (IH ltac:(destruct names; [easy|now apply andb_true_iff in H]) i j); auto. lia.
Qed.

Section Table.
Context {BL : BidLib} {LB : LibBson} {LM : LibM} {OtherArguments : Set}.
Variable EnableCollation : bool.
Variable null_string : bson_value.
Variable parse_other : bytes -> bson_value -> ParseContext -> M (bson_value + OtherArguments).
Variable parse : bson_value -> ParseContext -> M (@AggregationExpressionData OtherArguments).

Abbreviation table := (OperatorExpressions EnableCollation null_string parse_other parse).

Lemma table_increasing : increasing (map operatorName table) = true.
Proof. vm_compute. reflexivity. Qed.

Lemma table_no_nul : forallb no_nulb (map operatorName table) = true.
Proof. vm_compute. reflexivity. Qed.

Lemma table_ordered name : no_nul name -> ordered (fun item => strcmp name (operatorName item)) table.
Proof.
  intros Hn i j a b Hij Ha Hb.
  assert (Na : no_nul (operatorName a) /\ no_nul (operatorName b)).
  { pose proof table_no_nul as T. rewrite forallb_forall in T.
    split; apply no_nulb_ok, T, in_map; eapply nth_error_In; eassumption. }
  pose proof (increasing_nth _ table_increasing i j (operatorName a) (operatorName b) Hij
                (map_nth_error _ _ _ Ha) (map_nth_error _ _ _ Hb)) as C.
  pose proof (strcmp_cmp_bytes name (operatorName a) Hn (proj1 Na)) as Sa.
  pose proof (strcmp_cmp_bytes name (operatorName b) Hn (proj2 Na)) as Sb.
  pose proof (trans3_cmp_bytes name (operatorName a) (operatorName b)) as T.
  unfold same_sign, trans3 in *. lia.
Qed.

Lemma table_search (name : bytes) (Hname : no_nul name) :
  bsearch (fun item => strcmp name (operatorName item)) table =
  find (fun item => cmp_bytes (operatorName item) name =? 0) table.
Proof.
  rewrite (bsearch_find _ _ (table_ordered name Hname)).
  pose proof table_no_nul as T. rewrite forallb_forall in T.
  assert (E : forall l, (forall item, In item l -> In item table) ->
    find (fun item => strcmp name (operatorName item) =? 0) l =
    find (fun item => cmp_bytes (operatorName item) name =? 0) l).
  { induction l as [|item l IH]; intros Hl; [reflexivity|]. cbn [find].
    assert (Hi : no_nul (operatorName item)) by (apply no_nulb_ok, T, in_map, Hl; now left).
    pose proof (strcmp_cmp_bytes name (operatorName item) Hname Hi) as S1.
    pose proof (anti2_cmp_bytes name (operatorName item)) as S2. unfold same_sign, anti2 in *.
    rewrite IH by (intros; apply Hl; now right).
    destruct (Z.eqb_spec (strcmp name (operatorName item)) 0), (Z.eqb_spec (cmp_bytes (operatorName item) name) 0);
      reflexivity || lia. }
  now apply E.
Qed.

(** the binary search for an operator finds the entry with its name, and fails only
    when the table has none: the 156 entries are in the order of [strcmp]. *)
Theorem OperatorExpressions_search (name : bytes) (Hname : no_nul name) :
  bsearch (fun item => strcmp name (operatorName item)) table =
  find (fun item => cmp_bytes (operatorName item) name =? 0) table.
Proof. exact (table_search name Hname). Qed.
End Table.
