(* ===== verification/AggMeaning.v ===== *)
(** * Aggregation expressions: what they mean

    [meaning] interprets an expression directly: no constant is folded, variables are
    looked up in an environment of values, documents and arrays are built as values,
    and the end-of-document marker stands for a missing value.  [AggSound] shows that
    parsing an expression and evaluating the result gives this value.  The field
    paths are treated here: [field_path] follows the segments of a path. *)

From Stdlib Require Import ZArith Lia Bool String List.
From Stdlib Require Import Strings.Byte.
From S2P Require Import Prelude SoftFloat BsonTypes StringView Decimal128 BsonCompare Traversal BsonWriter.
From S2P Require Import AggData AggOperators AggEval AggParse.
Import ListNotations.
Local Open Scope Z_scope.

(** ** Field paths *)

Definition missing (v : bson_value) : bool := match v with VEod => true | _ => false end.

(** Arrays on the way collect the values that the path has in their documents. *)
Fixpoint path_value (segments : list bytes) (d : fields) (isNullOnEmpty : bool) : bson_value :=
  match segments with
  | [] => VEod
  | key :: rest =>
    match lookup d key with
    | None => if isNullOnEmpty then VNull else VEod
    | Some v =>
      match rest with
      | [] => v
      | _ =>
        match v with
        | VDocument d => path_value rest d isNullOnEmpty
        | VArray items =>
          VArray (array_of (filter (fun v => negb (missing v))
                              (map (fun d => path_value rest d false) (documents items))))
        | _ => VEod
        end
      end
    end
  end.

Definition field_path (v : bson_value) (path : bytes) (isNullOnEmpty : bool) : bson_value :=
  match v with
  | VDocument d => path_value (split_dots path) d isNullOnEmpty
  | VArray items =>
    VArray (array_of (filter (fun v => negb (missing v))
                        (map (fun d => path_value (split_dots path) d isNullOnEmpty) (documents items))))
  | _ => VEod
  end.

(** Values that libbson copies as they are, at every depth. *)
Fixpoint plain (v : bson_value) : bool :=
  match v with
  | VDocument d | VArray d => forallb (fun kv => plain (snd kv)) d
  | _ => copied v
  end.
Definition plain_doc (d : fields) : bool := forallb (fun kv => plain (snd kv)) d.

Lemma plain_copied v : plain v = true -> copied v = true.
Proof. now destruct v. Qed.

Lemma plain_not_missing v : plain v = true -> missing v = false.
Proof. now destruct v. Qed.

Lemma plain_lookup d key v : plain_doc d = true -> lookup d key = Some v -> plain v = true.
Proof.
  unfold plain_doc, lookup. rewrite forallb_forall. intros H E.
  destruct (find _ d) as [kv|] eqn:F; [|discriminate]. injection E as <-.
  apply find_some in F. now apply H.
Qed.

Lemma plain_documents items d : plain_doc items = true -> In d (documents items) -> plain_doc d = true.
Proof.
  unfold plain_doc, documents. rewrite forallb_forall, in_flat_map. intros H [[k v] [Hin Hd]].
  specialize (H _ Hin). cbn [snd] in *. destruct v; try easy. destruct Hd as [<-|[]]. exact H.
Qed.

Lemma plain_indexed i vs : plain_doc (indexed i vs) = forallb plain vs.
Proof. revert i. induction vs as [|v vs IH]; intros i; cbn; [reflexivity|]. unfold plain_doc in IH. now rewrite IH. Qed.

(** Missing, or plain. *)
Definition good (v : bson_value) : bool := missing v || plain v.

Lemma path_value_good segs : forall d noe, plain_doc d = true -> good (path_value segs d noe) = true.
Proof.
  induction segs as [|key rest IH]; intros d noe Hd; [reflexivity|]. cbn [path_value].
  destruct (lookup d key) as [v|] eqn:E; [|now destruct noe].
  assert (Hv := plain_lookup _ _ _ Hd E).
  destruct rest as [|s rest]; [unfold good; rewrite Hv; apply orb_true_r|].
  destruct v; try reflexivity.
  - apply IH. exact Hv.
  - unfold good. cbn [missing plain orb]. fold (plain_doc (array_of
      (filter (fun v => negb (missing v)) (map (fun d => path_value (s :: rest) d false) (documents d0))))).
    unfold array_of. rewrite plain_indexed. apply forallb_forall. intros x Hx.
    apply filter_In in Hx. destruct Hx as [Hx Hm]. apply in_map_iff in Hx. destruct Hx as [d' [<- Hd']].
    specialize (IH d' false (plain_documents _ _ Hv Hd')). unfold good in IH.
    destruct (missing _); [discriminate|exact IH].
Qed.

Lemma collected_good segs noe items : plain_doc items = true ->
  plain_doc (array_of (filter (fun v => negb (missing v)) (map (fun d => path_value segs d noe) (documents items)))) = true.
Proof.
  intros H. unfold array_of. rewrite plain_indexed. apply forallb_forall. intros x Hx.
  apply filter_In in Hx. destruct Hx as [Hx Hm]. apply in_map_iff in Hx. destruct Hx as [d' [<- Hd']].
  assert (G := path_value_good segs d' noe (plain_documents _ _ H Hd')). unfold good in G.
  destruct (missing _); [discriminate|exact G].
Qed.

Lemma field_path_good v path noe : good v = true -> good (field_path v path noe) = true.
Proof.
  intros H. destruct v; try reflexivity; cbn [field_path].
  - apply path_value_good. exact H.
  - unfold good. cbn [missing plain orb]. apply collected_good. exact H.
Qed.

(** ** The splitting of paths *)

Lemma split_dots_cons path : exists s rest, split_dots path = s :: rest.
Proof.
  induction path as [|b path [s [rest E]]]; [now exists [], []|]. cbn [split_dots].
  destruct (byte_eqb b dot); [eauto|]. rewrite E. eauto.
Qed.

Lemma split_dots_memchr path :
  split_dots path = match memchr path dot with
                    | None => [path]
                    | Some n => firstn n path :: split_dots (skipn (S n) path)
                    end.
Proof.
  induction path as [|b path IH]; [reflexivity|]. cbn [split_dots memchr].
  destruct (byte_eqb b dot); [reflexivity|].
  rewrite IH. destruct (memchr path dot) as [n|]; reflexivity.
Qed.

Lemma memchr_length path c n : memchr path c = Some n -> (n < List.length path)%nat.
Proof.
  revert n. induction path as [|b path IH]; intros n; cbn; [discriminate|].
  destruct (byte_eqb b c); [intros E; injection E as <-; lia|].
  destruct (memchr path c) as [m|]; cbn; [|discriminate]. intros E. injection E as <-. specialize (IH _ eq_refl). lia.
Qed.

Section FieldPathSound.
Context {LD : LibBsonDoc} {Laws : LibBsonDocLaws LD}.

(** An element writer with a value, unless it is missing. *)
Definition put (w : pgbson_element_writer) (v : bson_value) : pgbson_element_writer :=
  if missing v then w
  else match w with
       | ArrayElementWriter a => ArrayElementWriter (array_add a v)
       | ObjectElementWriter o path => ObjectElementWriter (o ++ [(path, v)]) path
       end.

Lemma put_written w v : plain v = true -> PgbsonElementWriterWriteValue w v = Ok (put w v).
Proof.
  intros H. assert (E := append_copied _ (plain_copied _ H)). unfold put. rewrite (plain_not_missing _ H).
  unfold PgbsonElementWriterWriteValue, PgbsonArrayWriterWriteValue, PgbsonWriterAppendValue, append, array_add.
  destruct w; rewrite E; reflexivity.
Qed.

Lemma put_array w vs : PgbsonElementWriterEndArray w (array_written vs) = put w (VArray (array_of vs)).
Proof. now destruct w. Qed.

Lemma start_array w : PgbsonElementWriterStartArray w = array_written [].
Proof. now destruct w. Qed.

(** The loop over an array collects the values of its documents. *)
Lemma write_array_elements_sound core value_of items :
  (forall d w, In d (documents items) -> exists b, core d w = Ok (b, put w (value_of d))) ->
  forall vs,
  write_array_elements core items (ArrayElementWriter (array_written vs)) =
  Ok (ArrayElementWriter (array_written (vs ++ filter (fun v => negb (missing v)) (map value_of (documents items))))).
Proof.
  induction items as [|[k v] items IH]; intros Hc vs; [cbn; now rewrite app_nil_r|].
  assert (Hrest : forall d w, In d (documents items) -> exists b, core d w = Ok (b, put w (value_of d))).
  { intros d w Hd. apply Hc. unfold documents in *. cbn [flat_map]. apply in_or_app. now right. }
  destruct v; try (exact (IH Hrest vs)).
  cbn [write_array_elements]. destruct (Hc d (ArrayElementWriter (array_written vs)) (or_introl eq_refl)) as [b ->].
  cbn [res_bind]. unfold documents. cbn [flat_map snd app map filter].
  change (flat_map _ items) with (documents items). unfold put.
  destruct (missing (value_of d)) eqn:Em; cbn [negb].
  - apply IH. exact Hrest.
  - rewrite array_add_written, IH by exact Hrest. now rewrite <- app_assoc.
Qed.

Lemma EvaluateFieldPathAndWriteCore_sound fuel : forall d path w noe,
  plain_doc d = true -> (List.length path < fuel)%nat ->
  let v := path_value (split_dots path) d noe in
  EvaluateFieldPathAndWriteCore fuel d path w noe = Ok (negb (missing v), put w v).
Proof.
  induction fuel as [|fuel IH]; intros d path w noe Hd Hf; [lia|].
  cbn [EvaluateFieldPathAndWriteCore]. rewrite split_dots_memchr.
  destruct (memchr path dot) as [n|] eqn:En; cbn [path_value].
  - destruct (lookup d (firstn n path)) as [v|] eqn:El.
    + destruct (split_dots_cons (skipn (S n) path)) as [s [rest Es]]. rewrite Es.
      assert (Hv := plain_lookup _ _ _ Hd El).
      assert (Hlen : (List.length (skipn (S n) path) < fuel)%nat).
      { rewrite length_skipn. pose proof (memchr_length _ _ _ En). lia. }
      destruct v; try reflexivity.
      * rewrite <- Es. now apply IH.
      * cbv zeta. rewrite start_array. unfold PgbsonInitArrayElementWriter.
        rewrite write_array_elements_sound with (value_of := fun d => path_value (s :: rest) d false).
        -- cbn [res_bind array_writer app]. now rewrite put_array.
        -- intros d' w' Hd'. eexists. rewrite <- Es. apply IH; [|exact Hlen]. now apply plain_documents with d0.
    + unfold write_null_or_nothing. destruct noe; [|reflexivity]. now rewrite put_written by reflexivity.
  - destruct (lookup d path) as [v|] eqn:El.
    + assert (Hv := plain_lookup _ _ _ Hd El). rewrite put_written by exact Hv. cbn [res_bind]. now rewrite (plain_not_missing _ Hv).
    + unfold write_null_or_nothing. destruct noe; [|reflexivity]. now rewrite put_written by reflexivity.
Qed.

Lemma field_path_written v path w noe : good v = true ->
  EvaluateFieldPathAndWrite v path w noe = Ok (negb (missing (field_path v path noe)), put w (field_path v path noe)).
Proof.
  intros Hv. unfold EvaluateFieldPathAndWrite, field_path. destruct v; try reflexivity.
  - apply EvaluateFieldPathAndWriteCore_sound; [exact Hv|lia].
  - cbv zeta. rewrite start_array. unfold PgbsonInitArrayElementWriter.
    rewrite write_array_elements_sound with (value_of := fun d => path_value (split_dots path) d noe).
    + cbn [res_bind array_writer app]. now rewrite put_array.
    + intros d' w' Hd'. eexists. apply EvaluateFieldPathAndWriteCore_sound; [|lia]. now apply plain_documents with d.
Qed.

(** C25: the evaluation of a field path writes the value that the path has, with the values
    of the documents of an array collected in an array, and reports whether it wrote one. *)
Theorem EvaluateFieldPathAndWrite_value (v : bson_value) (path : bytes) (w : pgbson_element_writer) (noe : bool)
  (Hv : good v = true) :
  EvaluateFieldPathAndWrite v path w noe = Ok (negb (missing (field_path v path noe)), put w (field_path v path noe)).
Proof. exact (field_path_written v path w noe Hv). Qed.
End FieldPathSound.

(** ** The reference semantics *)

(** The depth of a value. *)
Fixpoint vdepth (v : bson_value) : nat :=
  match v with
  | VDocument d | VArray d => S (fold_right (fun kv n => Nat.max (vdepth (snd kv)) n) O d)
  | _ => O
  end.

Section Meaning.
Context {BL : BidLib} {LB : LibBson} {LM : LibM}.
Local Open Scope res_scope.

(** The time of [$$NOW], the collation of comparisons and the document. *)
Variable now : bson_value.
Variable collation : option bytes.
Variable root : fields.

(** The variables of each [$let] around an expression, the innermost first; a variable
    whose expression fails is an error only where it is used. *)
Abbreviation Env := (list (list (bytes * res bson_value))).

Definition bound (frame : list (bytes * res bson_value)) (name : bytes) : option (res bson_value) :=
  option_map snd (find (fun b => cmp_bytes (fst b) name =? 0) frame).

Fixpoint env_lookup (env : Env) (name : bytes) : option (res bson_value) :=
  match env with
  | [] => None
  | frame :: env => match bound frame name with Some r => Some r | None => env_lookup env name end
  end.

(** The last of several variables of a name counts. *)
Fixpoint bind_variable (frame : list (bytes * res bson_value)) (name : bytes) (r : res bson_value)
  : list (bytes * res bson_value) :=
  match frame with
  | [] => [(name, r)]
  | b :: frame => if cmp_bytes (fst b) name =? 0 then (name, r) :: frame else b :: bind_variable frame name r
  end.

(** ** Strings *)

(** [$$name.path]: the name and the path, which is empty when there is none. *)
Definition variable_reference (s : bytes) : bytes * bytes :=
  match memchr s dot with
  | Some n => (firstn n s, skipn (S n) s)
  | None => (s, [])
  end.

Definition at_path (v : bson_value) (path : bytes) (isNullOnEmpty : bool) : bson_value :=
  match path with [] => v | _ => field_path v path isNullOnEmpty end.

Definition string_meaning (env : Env) (s : bytes) (isNullOnEmpty : bool) : res bson_value :=
  match s with
  | d1 :: d2 :: rest =>
    if byte_eqb d1 "$"%byte then
      match rest with
      | _ :: _ =>
        if byte_eqb d2 "$"%byte then
          let '(name, path) := variable_reference s in
          if same_name name (str "$$NOW") then Ok (match path with [] => now | _ => VEod end)
          else
            match system_variable_kind name with
            | Some (Root | Current) => Ok (at_path (VDocument root) path isNullOnEmpty)
            | Some Remove => Ok VEod
            | Some Descend => Ok (at_path (VUtf8 (str "$$DESCEND")) path isNullOnEmpty)
            | Some Prune => Ok (at_path (VUtf8 (str "$$PRUNE")) path isNullOnEmpty)
            | Some Keep => Ok (at_path (VUtf8 (str "$$KEEP")) path isNullOnEmpty)
            | Some _ => Err ERRCODE_DOCUMENTDB_COMMANDNOTSUPPORTED
            | None =>
              match env_lookup env (skipn 2 name) with
              | None => Err ERRCODE_DOCUMENTDB_LOCATION17276
              | Some r => let* v := r in Ok (at_path v path isNullOnEmpty)
              end
            end
        else Ok (field_path (VDocument root) (d2 :: rest) isNullOnEmpty)
      | [] => Ok (field_path (VDocument root) [d2] isNullOnEmpty)
      end
    else Ok (VUtf8 s)
  | _ => Ok (VUtf8 s)
  end.

(** ** Operators *)

(** The arguments of an operator. *)
Definition operands (argument : bson_value) : list bson_value :=
  match argument with VArray items => map snd items | v => [v] end.

(** The last field with this key. *)
Definition last_field (d : fields) (key : string) : option bson_value :=
  option_map snd (find (fun kv => strcmp (fst kv) (str key) =? 0) (rev d)).

Section Operator.
(** What an argument means in an environment. *)
Variable recurse : Env -> bson_value -> res bson_value.
Variable env : Env.

Fixpoint and_meaning (args : list bson_value) : res bool :=
  match args with
  | [] => Ok true
  | a :: args => let* v := recurse env a in let* b := BsonValueAsBool v in if b : bool then and_meaning args else Ok false
  end.

Fixpoint or_meaning (args : list bson_value) : res bool :=
  match args with
  | [] => Ok false
  | a :: args => let* v := recurse env a in let* b := BsonValueAsBool v in if b : bool then Ok true else or_meaning args
  end.

(** The values of all arguments. *)
Fixpoint all_meanings (args : list bson_value) : res (list bson_value) :=
  match args with
  | [] => Ok []
  | a :: args => let* v := recurse env a in let* vs := all_meanings args in Ok (v :: vs)
  end.

(** The first that is neither null nor missing, or the last. *)
Fixpoint first_present (vs : list bson_value) : bson_value :=
  match vs with
  | [] => VNull
  | [v] => v
  | v :: vs => if IsExpressionResultNullOrUndefined v then first_present vs else v
  end.

Fixpoint switch_meaning (branches : list bson_value) (default : option bson_value) : res bson_value :=
  match branches with
  | [] =>
    match default with
    | Some d => recurse env d
    | None => Err ERRCODE_DOCUMENTDB_DOLLARSWITCHNOMATCHINGBRANCHANDNODEFAULT
    end
  | VDocument branch :: branches =>
    match last_field branch "case", last_field branch "then" with
    | Some c, Some t =>
      let* v := recurse env c in
      let* b := BsonValueAsBool v in
      if b : bool then recurse env t else switch_meaning branches default
    | _, _ => Err ERRCODE_DOCUMENTDB_DOLLARSWITCHREQUIRESCASEEXPRESSIONFORBRANCH
    end
  | _ => Err ERRCODE_DOCUMENTDB_DOLLARSWITCHREQUIRESOBJECTFOREACHBRANCH
  end.

Definition let_frame (vars : fields) : list (bytes * res bson_value) :=
  fold_left (fun frame kv => bind_variable frame (fst kv) (recurse env (snd kv))) vars [].

(** A [$let] without variables adds no frame. *)
Definition extend (frame : list (bytes * res bson_value)) : Env :=
  match frame with [] => env | _ => frame :: env end.

(** A sum stops at the first null. *)
Fixpoint accumulate {State : Type} (process : bson_value -> State -> bson_value -> res (State * bson_value * bool))
  (args : list bson_value) (state : State) (result : bson_value) : res (State * bson_value) :=
  match args with
  | [] => Ok (state, result)
  | a :: args =>
    let* v := recurse env a in
    let* '(state, result, continue) := process v state result in
    if continue : bool then accumulate process args state result else Ok (state, result)
  end.

Definition add_meaning (args : list bson_value) : res bson_value :=
  let* '(state, result) := accumulate ProcessDollarAdd args (AddState false false) (VInt32 0) in
  match result with VNull => Ok VNull | _ => ProcessDollarAddAccumulatedResult state result end.

Definition two_meanings (f : bson_value -> bson_value -> res bson_value) (args : list bson_value) : res bson_value :=
  match args with
  | [a; b] => let* x := recurse env a in let* y := recurse env b in f x y
  | _ => Err ERRCODE_DOCUMENTDB_LOCATION16020
  end.

Definition one_meaning (f : bson_value -> res bson_value) (args : list bson_value) : res bson_value :=
  match args with
  | [a] => let* x := recurse env a in f x
  | _ => Err ERRCODE_DOCUMENTDB_LOCATION16020
  end.

(** All three parts are evaluated. *)
Definition cond_meaning (i t e : bson_value) : res bson_value :=
  let* i := recurse env i in
  let* t := recurse env t in
  let* e := recurse env e in
  let* b := BsonValueAsBool i in
  Ok (if b : bool then t else e).

Definition operator_meaning (handler : HandlePreParsedOperatorFunc) (argument : bson_value) : res bson_value :=
  match handler with
  | DollarBoolean BooleanType_And => let* b := and_meaning (operands argument) in Ok (VBool b)
  | DollarBoolean BooleanType_Or => let* b := or_meaning (operands argument) in Ok (VBool b)
  | DollarBoolean BooleanType_Not =>
    one_meaning (fun v => let* b := BsonValueAsBool v in Ok (VBool (negb b))) (operands argument)
  | DollarComparison c => two_meanings (fun x y => CompareExpressionBsonValues x y collation c) (operands argument)
  | DollarCond =>
    match argument with
    | VDocument d =>
      match last_field d "if", last_field d "then", last_field d "else" with
      | Some i, Some t, Some e => cond_meaning i t e
      | _, _, _ => Err ERRCODE_DOCUMENTDB_DOLLARCONDMISSINGIFPARAMETER
      end
    | _ => match operands argument with [i; t; e] => cond_meaning i t e | _ => Err ERRCODE_DOCUMENTDB_LOCATION16020 end
    end
  | DollarIfNull => let* vs := all_meanings (operands argument) in Ok (first_present vs)
  | DollarSwitch =>
    match argument with
    | VDocument d =>
      match last_field d "branches" with
      | Some branches => switch_meaning (operands branches) (last_field d "default")
      | None => Err ERRCODE_DOCUMENTDB_DOLLARSWITCHREQUIRESATLEASTONEBRANCH
      end
    | _ => Err ERRCODE_DOCUMENTDB_DOLLARSWITCHREQUIRESOBJECT
    end
  | DollarLet =>
    match argument with
    | VDocument d =>
      match last_field d "vars", last_field d "in" with
      | Some (VDocument vars), Some body => recurse (extend (let_frame vars)) body
      | _, _ => Err ERRCODE_DOCUMENTDB_LOCATION16876
      end
    | _ => Err ERRCODE_DOCUMENTDB_LOCATION16874
    end
  | DollarAdd => add_meaning (operands argument)
  | DollarMultiply => let* '(_, r) := accumulate multiply_operand (operands argument) tt (VInt32 1) in Ok r
  | DollarOneOperand op => one_meaning (ProcessOneOperand op) (operands argument)
  | DollarTwoOperands op =>
    match op, operands argument with
    | (DollarRound | DollarTrunc), [a] => two_meanings (ProcessTwoOperands op) [a; VInt32 0]
    | _, args => two_meanings (ProcessTwoOperands op) args
    end
  | DollarOther => Err ERRCODE_INTERNAL_ERROR
  end.
End Operator.

(** The handler of a modelled operator; [$literal] has none. *)
Definition handler_of (name : bytes) : option (option HandlePreParsedOperatorFunc) :=
  let table := OperatorExpressions (OtherArguments := Empty_set) false VEod
                 (fun _ _ _ => raise ERRCODE_INTERNAL_ERROR) (fun _ _ => raise ERRCODE_INTERNAL_ERROR) in
  match find (fun item => cmp_bytes (operatorName item) name =? 0) table with
  | Some item =>
    match parseAggregationExpressionFunc item with
    | Some _ => Some (handlePreParsedOperatorFunc item)
    | None => None
    end
  | None => None
  end.

(** The fields of a document, without those that are missing. *)
Fixpoint fields_meaning (recurse : bson_value -> res bson_value) (d : fields) : res fields :=
  match d with
  | [] => Ok []
  | (k, v) :: d =>
    let* x := recurse v in
    let* rest := fields_meaning recurse d in
    Ok (if missing x then rest else (k, x) :: rest)
  end.

(** A missing element of an array is null. *)
Definition element_value (v : bson_value) : bson_value := match v with VEod | VUndefined => VNull | _ => v end.

Fixpoint meaning (fuel : nat) (env : Env) (v : bson_value) (isNullOnEmpty : bool) : res bson_value :=
  match fuel with
  | O => Err ERRCODE_STATEMENT_TOO_COMPLEX
  | S fuel =>
    match v with
    | VUtf8 s => string_meaning env s isNullOnEmpty
    | VArray items =>
      let* vs := all_meanings (fun env v => meaning fuel env v false) env (map snd items) in
      Ok (VArray (array_of (map element_value vs)))
    | VDocument d =>
      if is_operator_value v then
        match d with
        | (name, argument) :: _ =>
          match handler_of name with
          | Some None => Ok argument
          | Some (Some handler) => operator_meaning (fun env v => meaning fuel env v false) env handler argument
          | None => Err ERRCODE_DOCUMENTDB_LOCATION31325
          end
        | [] => Ok v
        end
      else let* fs := fields_meaning (fun v => meaning fuel env v isNullOnEmpty) d in Ok (VDocument fs)
    | _ => Ok v
    end
  end.

(** An expression has one level of calls for each level of nesting. *)
Definition expression_meaning (env : Env) (v : bson_value) (isNullOnEmpty : bool) : res bson_value :=
  meaning (S (vdepth v)) env v isNullOnEmpty.
End Meaning.
