(* ===== verification/AggTyping.v ===== *)
(** * Aggregation operators: the types of their results

    The type of what an arithmetic operator gives, by the values it is applied to:
    null for operands that are null or missing, a date for a date minus a number and for
    a sum with a date, and else a number. *)

From Stdlib Require Import ZArith Lia Bool String List.
From Stdlib Require Import Strings.Byte.
From S2P Require Import Prelude SoftFloat BsonTypes StringView Decimal128 BsonCompare BsonArith.
From S2P Require Import AggData AggOperators AggEval AggMeaning.
Import ListNotations.
Local Open Scope Z_scope.

(** ** Partial results *)

(** What a computation gives, if it does not fail. *)
Definition yields {A} (P : A -> Prop) (r : res A) : Prop := match r with Ok a => P a | Err _ => True end.

Lemma yields_bind {A B} (Q : A -> Prop) (P : B -> Prop) r (k : A -> res B) :
  yields Q r -> (forall a, Q a -> yields P (k a)) -> yields P (res_bind r k).
Proof. destruct r; cbn; auto. Qed.

Lemma yields_any {A B} (P : B -> Prop) (r : res A) k : (forall a, yields P (k a)) -> yields P (res_bind r k).
Proof. destruct r; cbn; auto. Qed.

Lemma yields_weaken {A} (Q P : A -> Prop) r : (forall a, Q a -> P a) -> yields Q r -> yields P r.
Proof. destruct r; cbn; auto. Qed.

(** The cases of a computation, one tactic step each. *)
Ltac yield_step :=
  match goal with
  | |- yields _ (Ok _) => cbn [yields]
  | |- yields _ (Err _) => exact I
  | |- yields _ (res_bind _ _) => apply yields_any; intro
  | |- yields _ (if ?b then _ else _) => destruct b
  | |- yields _ (let '(_, _) := ?x in _) => destruct x
  | |- yields _ (match ?x with _ => _ end) => destruct x
  end.
Ltac yielding := repeat yield_step; try reflexivity; auto with agg_types.

Create HintDb agg_types.

Section Typing.
Context {BL : BidLib} {LB : LibBson} {LM : LibM}.

(** Numbers, and numbers or null. *)
Definition numeric (v : bson_value) : Prop := BsonValueIsNumber v = true.
Definition numeric_or_null (v : bson_value) : Prop := numeric v \/ v = VNull.

#[local] Hint Unfold numeric : agg_types.

Definition numeric_first (p : bson_value * bool) : Prop := numeric (fst p).

(** ** Decimals *)

Lemma decimal_result r : yields (fun p => is_decimal (fst p) = true) r ->
  yields (fun v => is_decimal v = true) (result_value r).
Proof. destruct r as [[v f]|]; auto. Qed.

Lemma two_operands_decimal x y op :
  yields (fun p => is_decimal (fst p) = true) (Decimal128MathematicalOperation2Operands x y op).
Proof.
  unfold Decimal128MathematicalOperation2Operands. do 2 (apply yields_any; intro). destruct op; try exact I; try reflexivity.
  destruct (bid_call _ _ _), (bid_call _ _ _). reflexivity.
Qed.

Lemma one_operand_decimal x op :
  yields (fun p => is_decimal (fst p) = true) (Decimal128MathematicalOperation1Operand x op).
Proof.
  unfold Decimal128MathematicalOperation1Operand. apply yields_any; intro.
  destruct op; try exact I; try reflexivity; cbn; reflexivity.
Qed.

Lemma round_decimal x p op : yields (fun p => is_decimal (fst p) = true) (RoundOrTruncateDecimal128Number x p op).
Proof. unfold RoundOrTruncateDecimal128Number. yielding. Qed.

Lemma decimal_numeric v : is_decimal v = true -> numeric v.
Proof. now destruct v. Qed.

(** A decimal result is a number. *)
Lemma decimal_yields r : yields (fun p => is_decimal (fst p) = true) r -> yields numeric (result_value r).
Proof. intros H. apply yields_weaken with (1 := decimal_numeric). now apply decimal_result. Qed.

Lemma decimal_add x y : yields numeric (result_value (AddDecimal128Numbers x y)).
Proof. apply decimal_yields, two_operands_decimal. Qed.

(** ** Sums, differences, products *)

Lemma AddDoubleToValue_numeric c z : yields numeric (AddDoubleToValue c z).
Proof. unfold AddDoubleToValue. destruct c; apply yields_any; intro; reflexivity || apply decimal_add. Qed.

Lemma AddInt64ToValue_numeric c z : yields numeric_first (AddInt64ToValue c z).
Proof.
  unfold AddInt64ToValue.
  assert (D : forall b, yields numeric_first
                (res_bind (AddDoubleToValue c (double_of_int z)) (fun v => Ok (v, b)))).
  { intros b. apply yields_bind with (1 := AddDoubleToValue_numeric _ _). auto. }
  destruct c; try apply D; try (apply yields_any; intro; destruct (_ || _); [apply D|reflexivity]).
  apply yields_any; intro. apply yields_bind with (1 := decimal_add _ _). auto.
Qed.

Lemma AddInt32ToValue_numeric c z o : yields numeric_first (AddInt32ToValue c z o).
Proof.
  unfold AddInt32ToValue.
  destruct c; try apply AddInt64ToValue_numeric; try (apply yields_any; intro; destruct (_ || _); reflexivity).
  - apply yields_bind with (1 := AddDoubleToValue_numeric _ _). auto.
  - apply yields_any; intro. apply yields_bind with (1 := decimal_add _ _). auto.
Qed.

Lemma finish_numeric r : yields numeric_first r -> yields (fun u => numeric (updated u)) (finish r).
Proof. destruct r as [[v o]|]; auto. Qed.

Lemma keep_flag_numeric o r : yields numeric r -> yields numeric_first (keep_flag o r).
Proof. destruct r; auto. Qed.

Lemma AddNumber_numeric state number o : numeric state ->
  yields (fun u => numeric (updated u)) (AddNumberToBsonValue state number o).
Proof.
  intros H. unfold AddNumberToBsonValue. destruct (negb _); [exact H|].
  destruct number; try exact H; apply finish_numeric; try apply keep_flag_numeric;
    auto using AddInt64ToValue_numeric, AddInt32ToValue_numeric, AddDoubleToValue_numeric.
  unfold AddDecimal128ToValue. apply yields_any; intro. apply decimal_add.
Qed.

Lemma SubtractNumber_numeric state number o : numeric state ->
  yields (fun u => numeric (updated u)) (SubtractNumberFromBsonValue state number o).
Proof.
  intros H. unfold SubtractNumberFromBsonValue. destruct (negb _); [exact H|].
  destruct number; try exact H; apply finish_numeric; try apply keep_flag_numeric;
    auto using AddInt64ToValue_numeric, AddInt32ToValue_numeric, AddDoubleToValue_numeric.
  unfold SubtractDecimal128FromValue. apply yields_any; intro. apply decimal_yields, two_operands_decimal.
Qed.

Lemma Multiply_numeric state factor b : numeric state ->
  yields (fun p : bool * bson_value => numeric (snd p)) (MultiplyWithFactorAndUpdate state factor b).
Proof.
  intros H. unfold MultiplyWithFactorAndUpdate. destruct (_ || _); [exact H|]. destruct (_ || _).
  - do 2 (apply yields_any; intro). apply yields_bind with (1 := decimal_yields _ (two_operands_decimal _ _ _)). auto.
  - unfold multiply_int64, multiply_int32. yielding.
Qed.

(** ** Operators with one operand *)

(** Null exactly for an operand that is null or missing. *)
Definition one_operand_type (v : bson_value) (r : res bson_value) : Prop :=
  if IsExpressionResultNullOrUndefined v then r = Ok VNull else yields numeric r.

Lemma numeric_operand_typed v f : (forall v, numeric v -> yields numeric (f v)) ->
  one_operand_type v (numeric_operand v f).
Proof.
  intros H. unfold one_operand_type, numeric_operand. destruct (IsExpressionResultNullOrUndefined v); [reflexivity|].
  destruct (BsonValueIsNumber v) eqn:E; [exact (H v E)|exact I].
Qed.

Lemma logarithm_typed f e v : (forall v, yields (fun p => is_decimal (fst p) = true) (f v)) ->
  one_operand_type v (logarithm f e v).
Proof.
  intros H. apply numeric_operand_typed. intros x Hx. apply yields_any; intro. apply yields_any; intros [cmp valid].
  destruct (_ && _); [exact I|]. apply yields_bind with (1 := decimal_yields _ (H _)). intros r Hr.
  apply yields_any; intros [|]; [exact Hr|]. apply yields_any; intro. reflexivity.
Qed.

Lemma one_operand_typed op v : one_operand_type v (ProcessOneOperand op v).
Proof.
  destruct op; cbn [ProcessOneOperand];
    try (apply logarithm_typed; intro; apply one_operand_decimal); apply numeric_operand_typed; intros x Hx.
  - destruct x; try discriminate; try reflexivity; try (apply decimal_yields, one_operand_decimal);
      yielding; unfold numeric; match goal with |- context [if ?b then _ else _] => destruct b end; reflexivity.
  - destruct x; try discriminate; reflexivity || apply decimal_yields, one_operand_decimal.
  - destruct x; try discriminate; try (apply yields_any; intro; reflexivity). apply decimal_yields, one_operand_decimal.
  - destruct x; try discriminate; reflexivity || apply decimal_yields, one_operand_decimal.
  - apply yields_any; intro. apply yields_any; intros [cmp valid]. destruct (_ && _); [exact I|].
    apply yields_bind with (1 := decimal_yields _ (one_operand_decimal _ _)). intros r Hr.
    destruct x; try discriminate; try exact Hr; apply yields_any; intro; reflexivity.
Qed.

Lemma one_operand_numeric op v : yields numeric_or_null (ProcessOneOperand op v).
Proof.
  pose proof (one_operand_typed op v) as H. unfold one_operand_type in H.
  destruct (IsExpressionResultNullOrUndefined v); [rewrite H; now right|]. apply yields_weaken with (2 := H). now left.
Qed.

(** ** Operators with two operands *)

Definition is_date_result (op : TwoOperands) (x y : bson_value) : bool :=
  match op with DollarSubtract => is_date x && negb (is_date y) | _ => false end.

(** Null when an operand is null or missing, a date or a number otherwise. *)
Definition two_operands_type (op : TwoOperands) (x y r : bson_value) : Prop :=
  if IsExpressionResultNullOrUndefined x || IsExpressionResultNullOrUndefined y then r = VNull
  else if is_date_result op x y then is_date r = true
  else numeric r.

Lemma subtract_type x y : yields (two_operands_type DollarSubtract x y)
  (ProcessDollarSubtract (InitializeDualArgumentExpressionState x y)).
Proof.
  unfold two_operands_type, is_date_result, ProcessDollarSubtract, InitializeDualArgumentExpressionState.
  cbn [hasNullOrUndefined firstArgument secondArgument]. destruct (_ || _); [reflexivity|].
  destruct (negb (BsonValueIsNumber x) && negb (is_date x)) eqn:Ex; [exact I|].
  destruct (negb (BsonValueIsNumber y) && _) eqn:Ey; [exact I|].
  assert (S : forall s n (k : update -> res bson_value) P, numeric s -> (forall u, numeric (updated u) -> yields P (k u)) ->
    yields P (res_bind (SubtractNumberFromBsonValue s n false) k)).
  { intros s n k P Hs Hk. apply yields_bind with (1 := SubtractNumber_numeric s n false Hs). exact Hk. }
  destruct x; try discriminate Ex; cbn [is_date value_type type_eqb andb];
    try (apply S; [reflexivity|intros u Hu; exact Hu]).
  destruct y; try discriminate Ey; cbv beta iota; cbn [is_date value_type type_eqb negb];
    (apply S; [reflexivity|intros u Hu]); try (apply yields_any; intro; reflexivity).
  destruct (updated u); try discriminate Hu; try reflexivity; apply yields_any; intro; reflexivity.
Qed.

Lemma two_operands_types op x y : yields (two_operands_type op x y) (ProcessTwoOperands op x y).
Proof.
  destruct op; cbn [ProcessTwoOperands]; try apply subtract_type;
    unfold two_operands_type, is_date_result, ProcessDollarDivide, ProcessDollarLog, ProcessDollarMod, ProcessDollarPow,
      ProcessDollarRound, ProcessDollarTrunc, RoundOrTruncateValue, InitializeDualArgumentExpressionState;
    cbn [hasNullOrUndefined firstArgument secondArgument]; (destruct (_ || _); [reflexivity|]).
  - destruct (_ || _); [exact I|]. destruct (_ || _).
    + apply yields_any; intros [a b]. apply yields_any; intros [|]; [exact I|]. apply decimal_yields, two_operands_decimal.
    + yielding.
  - destruct (negb _); [exact I|]. destruct (negb _); [exact I|]. destruct (_ || _).
    + unfold log_decimals. do 4 (apply yields_any; intro). destruct a2; [reflexivity|].
      apply yields_any; intros [c v]. destruct (_ && _); [exact I|]. apply yields_any; intro.
      apply yields_any; intros [c' v']. destruct (_ && _); [exact I|]. apply decimal_yields, two_operands_decimal.
    + yielding.
  - destruct (_ || _); [exact I|]. apply yields_any; intro z1. apply yields_any; intros [|]; [exact I|].
    unfold GetRemainderFromModBsonValues. destruct (_ || _).
    + apply yields_any; intros [a b]. apply decimal_yields, two_operands_decimal.
    + yielding.
  - destruct (negb _); [exact I|]. destruct (negb _); [exact I|]. do 2 (apply yields_any; intro).
    apply yields_any; intros [c v]. apply yields_any; intro zero. destruct (_ && _); [exact I|].
    apply yields_bind with (1 := decimal_yields _ (two_operands_decimal _ _ _)). intros r Hr. unfold pow_result. yielding.
  - destruct (negb _) eqn:Ex; [exact I|]. apply negb_false_iff in Ex. do 2 (apply yields_any; intro).
    destruct (negb _); [exact I|]. destruct (_ || _); [exact I|]. destruct (_ && _); [exact Ex|].
    apply yields_any; intro. apply yields_bind with (1 := decimal_yields _ (round_decimal _ _ _)). intros r Hr.
    unfold round_result. yielding.
  - destruct (negb _) eqn:Ex; [exact I|]. apply negb_false_iff in Ex. do 2 (apply yields_any; intro).
    destruct (negb _); [exact I|]. destruct (_ || _); [exact I|]. destruct (_ && _); [exact Ex|].
    apply yields_any; intro. apply yields_bind with (1 := decimal_yields _ (round_decimal _ _ _)). intros r Hr.
    unfold round_result. yielding.
Qed.

(** ** Operators with any number of operands *)

(** A number, null or a date. *)
Definition arithmetic_value (v : bson_value) : Prop := numeric v \/ v = VNull \/ is_date v = true.

Lemma arithmetic_plain v : arithmetic_value v -> plain v = true.
Proof. unfold arithmetic_value, numeric. intros [H|[->|H]]; [|reflexivity|]; now destruct v. Qed.

Lemma numeric_or_null_value v : numeric_or_null v -> arithmetic_value v.
Proof. unfold numeric_or_null, arithmetic_value. tauto. Qed.

Lemma two_operands_value op x y : yields arithmetic_value (ProcessTwoOperands op x y).
Proof.
  apply yields_weaken with (2 := two_operands_types op x y). unfold two_operands_type, arithmetic_value. intros r.
  destruct (_ || _); [tauto|]. destruct (is_date_result op x y); tauto.
Qed.

(** One step of a loop: a result that is not the last is a number. *)
Definition step_type {State} (p : State * bson_value * bool) : Prop :=
  let '(_, r, continue) := p in arithmetic_value r /\ (continue = true -> numeric r).

Lemma add_step v state result : numeric result -> yields step_type (ProcessDollarAdd v state result).
Proof.
  intros H. unfold ProcessDollarAdd.
  assert (G : forall number,
    yields step_type (res_bind (match v with
        | VDateTime dateTime => if isDateTimeAdd state then Err ERRCODE_DOCUMENTDB_DOLLARADDONLYONEDATE
                                else Ok (AddState true (foundUndefined state), VInt64 dateTime)
        | _ => Ok (state, number) end) (fun '(state, evaluatedValue) =>
      if isDateTimeAdd state && (is_decimal result || is_decimal evaluatedValue) then
        res_bind (add_decimal_to_date result evaluatedValue) (fun '(result, continue) => Ok (state, result, continue))
      else res_bind (AddNumberToBsonValue result evaluatedValue false) (fun u => Ok (state, updated u, true))))).
  { intros number. apply yields_any; intros [s e]. destruct (_ && _).
    - unfold add_decimal_to_date. apply yields_bind with (Q := fun p : bson_value * bool => step_type (tt, fst p, snd p));
        [|intros [r c] Hr; exact Hr].
      apply yields_any; intros [r' e']. apply yields_bind with (1 := two_operands_decimal _ _ _). intros [sum o] Hs.
      apply yields_any; intros [|]; cbn; unfold arithmetic_value; [|split; [auto|discriminate]].
      apply decimal_numeric in Hs. tauto.
    - apply yields_bind with (1 := AddNumber_numeric _ _ _ H). intros u Hu. cbn. unfold arithmetic_value. tauto. }
  destruct v; try (destruct (IsExpressionResultUndefined _); [cbn; unfold arithmetic_value; tauto|];
    destruct (_ && _); [exact I|]; first [exact (G VNull) | exact (G _)]).
  cbn. unfold arithmetic_value. split; [tauto|discriminate].
Qed.

Lemma multiply_step v state result : numeric result -> yields step_type (multiply_operand v state result).
Proof.
  intros H. unfold multiply_operand, ProcessDollarMultiply.
  destruct (IsExpressionResultNullOrUndefined v); [cbn; unfold arithmetic_value; split; [tauto|discriminate]|].
  destruct (negb _); [exact I|]. pose proof (Multiply_numeric result v true H) as M.
  destruct (MultiplyWithFactorAndUpdate result v true) as [[b r]|]; [|exact I]. cbn in *. unfold arithmetic_value. tauto.
Qed.

Lemma accumulate_type {State} recurse env (process : bson_value -> State -> bson_value -> res (State * bson_value * bool)) args :
  (forall v s r, numeric r -> yields step_type (process v s r)) ->
  forall s r, numeric r -> yields (fun p => arithmetic_value (snd p)) (accumulate recurse env process args s r).
Proof.
  intros Hp. induction args as [|a args IH]; intros s r Hr; cbn [accumulate]; [cbn; unfold arithmetic_value; tauto|].
  apply yields_any; intro v. apply yields_bind with (1 := Hp v s r Hr). intros [[s' r'] c] [Hv Hc].
  destruct c; [apply IH; now apply Hc|exact Hv].
Qed.

Lemma add_final state result : arithmetic_value result -> yields arithmetic_value (ProcessDollarAddAccumulatedResult state result).
Proof.
  intros H. unfold ProcessDollarAddAccumulatedResult. apply yields_bind with (Q := arithmetic_value).
  - destruct (isDateTimeAdd state); [|exact H]. destruct (CheckForDateOverflow result); [exact I|].
    destruct (_ && _); [|exact H]. apply yields_any; intro. cbn. unfold arithmetic_value. tauto.
  - intros r Hr. cbn. destruct (foundUndefined state); [unfold arithmetic_value; tauto|exact Hr].
Qed.

Lemma add_type recurse env args : yields arithmetic_value (add_meaning recurse env args).
Proof.
  unfold add_meaning. apply yields_bind with (1 := accumulate_type recurse env _ args add_step _ (VInt32 0) eq_refl).
  intros [s r] Hr. cbn in Hr. destruct r; try (now apply add_final). cbn. unfold arithmetic_value. tauto.
Qed.

(** ** Sums and products by the values of their operands *)

(** The values of the operands, up to the first that has none. *)
Fixpoint operand_values {Env : Type} (recurse : Env -> bson_value -> res bson_value) (env : Env)
  (args : list bson_value) : list bson_value :=
  match args with
  | [] => []
  | a :: args => match recurse env a with Ok v => v :: operand_values recurse env args | Err _ => [] end
  end.

(** Null or missing. *)
Abbreviation blank := IsExpressionResultNullOrUndefined.

Fixpoint before_blank (vs : list bson_value) : list bson_value :=
  match vs with [] => [] | v :: vs => if blank v then [] else v :: before_blank vs end.

(** A sum of values is null when one of them is null or missing, else a date when one
    of them is a date, else a number.  A date whose sum with a decimal leaves the range
    of dates ends the sum before later values are looked at. *)
Definition sum_type (vs : list bson_value) (r : bson_value) : Prop :=
  if existsb blank vs
  then r = VNull \/ (r = VDateTime INT64_MAX /\ existsb is_date (before_blank vs) = true /\
                     existsb is_decimal (before_blank vs) = true)
  else if existsb is_date vs then is_date r = true
  else numeric r.

Definition product_type (vs : list bson_value) (r : bson_value) : Prop :=
  if existsb blank vs then r = VNull else numeric r.

(** The numbers that are no decimals. *)
Definition binary_number (v : bson_value) : bool := BsonValueIsNumber v && negb (is_decimal v).

Lemma AddNumber_binary state number o : binary_number state = true -> BsonValueIsNumber number = true ->
  is_decimal number = false ->
  exists u, AddNumberToBsonValue state number o = Ok u /\ binary_number (updated u) = true.
Proof.
  unfold binary_number. intros Hs Hn Hd.
  destruct state; try discriminate Hs; destruct number; try discriminate Hn; try discriminate Hd;
    cbn -[INT64_MAX INT64_MIN INT32_MAX INT32_MIN wrap_s double_add double_of_int Z.gtb Z.ltb];
    try match goal with |- context [if ?b then _ else _] => destruct b end; cbn; eauto.
Qed.

(** What a sum has seen: the flags of its state and the type of its result. *)
Definition sum_seen (seen : list bson_value) (state : DollarAddState) (result : bson_value) : Prop :=
  isDateTimeAdd state = existsb is_date seen /\
  foundUndefined state = existsb IsExpressionResultUndefined seen /\
  numeric result /\ (is_decimal result = true -> existsb is_decimal seen = true).

(** A sum that left the range of dates. *)
Definition sum_stopped (seen : list bson_value) (state : DollarAddState) (result : bson_value) : Prop :=
  result = VDateTime INT64_MAX /\ isDateTimeAdd state = true /\
  foundUndefined state = existsb IsExpressionResultUndefined seen /\
  existsb is_date seen = true /\ existsb is_decimal seen = true.

Definition null_operand (v : bson_value) : bool := match v with VNull => true | _ => false end.

(** One operand of a sum. *)
Definition sum_step (seen : list bson_value) (v : bson_value) (p : DollarAddState * bson_value * bool) : Prop :=
  let '(state, result, continue) := p in
  if null_operand v then result = VNull /\ continue = false
  else if continue then sum_seen (seen ++ [v]) state result
  else sum_stopped (seen ++ [v]) state result.

Lemma existsb_last {A} (f : A -> bool) l x : existsb f (l ++ [x]) = existsb f l || f x.
Proof. rewrite existsb_app. cbn. now rewrite orb_false_r. Qed.

Lemma add_decimal_to_date_type result number :
  yields (fun p : bson_value * bool => if snd p then is_decimal (fst p) = true else fst p = VDateTime INT64_MAX)
    (add_decimal_to_date result number).
Proof.
  unfold add_decimal_to_date. apply yields_any; intros [r' e']. apply yields_bind with (1 := two_operands_decimal _ _ _).
  intros [sum o] Hs. apply yields_any; intros [|]; [exact Hs|reflexivity].
Qed.

(** Adding the number of an operand, once the flags of the state are known. *)
Lemma sum_number seen v number state result : null_operand v = false ->
  isDateTimeAdd state = existsb is_date (seen ++ [v]) ->
  foundUndefined state = existsb IsExpressionResultUndefined (seen ++ [v]) ->
  numeric result -> (is_decimal result = true -> existsb is_decimal seen = true) ->
  BsonValueIsNumber number = true -> is_decimal number = is_decimal v ->
  yields (sum_step seen v)
    (if isDateTimeAdd state && (is_decimal result || is_decimal number) then
       res_bind (add_decimal_to_date result number) (fun '(result, continue) => Ok (state, result, continue))
     else res_bind (AddNumberToBsonValue result number false) (fun u => Ok (state, updated u, true))).
Proof.
  intros Hv Hdate Hund Hr Hdec Hn Hnd.
  assert (D : is_decimal result || is_decimal number = true -> existsb is_decimal (seen ++ [v]) = true).
  { rewrite existsb_last, Hnd. destruct (is_decimal v); [intros _; apply orb_true_r|].
    rewrite !orb_false_r. exact Hdec. }
  destruct (is_decimal result || is_decimal number) eqn:Ed.
  - specialize (D eq_refl). destruct (isDateTimeAdd state) eqn:Es; cbn [andb].
    + apply yields_bind with (1 := add_decimal_to_date_type result number). intros [r c] Hp.
      cbn in Hp |- *. rewrite Hv. destruct c.
      * repeat split; auto using decimal_numeric; congruence.
      * repeat split; auto; congruence.
    + apply yields_bind with (1 := AddNumber_numeric _ _ _ Hr). intros u Hu. cbn. rewrite Hv. repeat split; auto; congruence.
  - rewrite andb_false_r. apply orb_false_iff in Ed. destruct Ed as [Er En].
    destruct (AddNumber_binary result number false) as (u & -> & Hu); auto.
    { unfold binary_number. unfold numeric in Hr. now rewrite Hr, Er. }
    apply andb_true_iff in Hu. destruct Hu as [Hu Hu']. apply negb_true_iff in Hu'.
    cbn. rewrite Hv. repeat split; auto. congruence.
Qed.

Lemma sum_step_type seen v state result : sum_seen seen state result ->
  yields (sum_step seen v) (ProcessDollarAdd v state result).
Proof.
  intros (Hdate & Hund & Hr & Hdec).
  assert (N : BsonValueIsNumber v = true -> yields (sum_step seen v)
    (if isDateTimeAdd state && (is_decimal result || is_decimal v) then
       res_bind (add_decimal_to_date result v) (fun '(result, continue) => Ok (state, result, continue))
     else res_bind (AddNumberToBsonValue result v false) (fun u => Ok (state, updated u, true)))).
  { intros Hv. apply sum_number; auto; rewrite ?existsb_last; destruct v; try discriminate Hv; cbn;
      now rewrite ?orb_false_r. }
  destruct v; try exact I; try exact (N eq_refl); cbn.
  - repeat split; auto; rewrite ?existsb_last, ?orb_false_r, ?orb_true_r; auto.
  - repeat split; auto; rewrite ?existsb_last, ?orb_false_r, ?orb_true_r; auto.
  - destruct (isDateTimeAdd state); [exact I|].
    apply (sum_number seen (VDateTime _) (VInt64 _) (AddState true _)); auto; rewrite existsb_last; cbn.
    + now rewrite orb_true_r.
    + now rewrite orb_false_r.
  - auto.
Qed.

(** How a sum ends: with all its operands, at a null, or out of the range of dates. *)
Definition sum_end (seen vs : list bson_value) (p : DollarAddState * bson_value) : Prop :=
  let '(state, result) := p in
  (existsb null_operand vs = false /\ sum_seen (seen ++ vs) state result) \/
  (existsb null_operand vs = true /\ result = VNull) \/
  (exists used rest, vs = used ++ rest /\ existsb null_operand used = false /\ sum_stopped (seen ++ used) state result).

Lemma sum_ends recurse env args : forall seen state result, sum_seen seen state result ->
  yields (sum_end seen (operand_values recurse env args)) (accumulate recurse env ProcessDollarAdd args state result).
Proof.
  induction args as [|a args IH]; intros seen state result H; cbn [accumulate operand_values].
  - left. cbn. now rewrite app_nil_r.
  - destruct (recurse env a) as [v|]; [|exact I]. cbn [res_bind].
    apply yields_bind with (1 := sum_step_type seen v state result H). intros [[s r] c] Hs. cbn in Hs.
    destruct (null_operand v) eqn:En.
    + destruct Hs as [-> ->]. right; left. cbn. now rewrite En.
    + destruct c.
      * apply yields_weaken with (2 := IH _ _ _ Hs). intros [s' r']. unfold sum_end. cbn [existsb]. rewrite En. cbn [orb].
        rewrite <- app_assoc. intros [E|[E|(used & rest & -> & Hu & E)]]; [tauto|tauto|]. right; right.
        exists (v :: used), rest. cbn. rewrite En. now rewrite <- app_assoc in E.
      * right; right. exists [v], (operand_values recurse env args). cbn. now rewrite En.
Qed.

(** A value is null or missing. *)
Lemma blank_split vs : existsb blank vs = existsb null_operand vs || existsb IsExpressionResultUndefined vs.
Proof. induction vs as [|v vs IH]; [reflexivity|]. cbn. rewrite IH. now destruct v, (existsb null_operand vs). Qed.

Lemma before_blank_app used rest : existsb blank used = false -> before_blank (used ++ rest) = used ++ before_blank rest.
Proof.
  induction used as [|v used IH]; cbn; [reflexivity|]. intros H. apply orb_false_iff in H. destruct H as [-> H].
  now rewrite IH.
Qed.

Lemma sum_final seen state result : sum_seen seen state result ->
  yields (fun r => if existsb IsExpressionResultUndefined seen then r = VNull
                   else if existsb is_date seen then is_date r = true else numeric r)
    (ProcessDollarAddAccumulatedResult state result).
Proof.
  intros (<- & <- & Hr & _). unfold ProcessDollarAddAccumulatedResult.
  destruct (isDateTimeAdd state), (foundUndefined state); cbn [negb andb]; try exact Hr; try reflexivity;
    (destruct (CheckForDateOverflow result); [exact I|]); [reflexivity|].
  replace (type_eqb (value_type result) BSON_TYPE_DATE_TIME) with false by (destruct result; try discriminate Hr; reflexivity).
  cbn [negb]. destruct (BsonValueAsInt64WithRoundingMode _ _ _); [reflexivity|exact I].
Qed.

Lemma sum_typed recurse env args : yields (sum_type (operand_values recurse env args)) (add_meaning recurse env args).
Proof.
  unfold add_meaning.
  apply yields_bind with (1 := sum_ends recurse env args [] (AddState false false) (VInt32 0)
    (conj eq_refl (conj eq_refl (conj eq_refl (fun H => H))))).
  set (vs := operand_values recurse env args). intros [s r] [[Hn H]|[[Hn ->]|(used & rest & Hvs & Hn & H)]].
  - pose proof (sum_final _ _ _ H) as F. destruct H as (_ & _ & Hr & _). unfold sum_type. rewrite blank_split, Hn.
    destruct r; try discriminate Hr; (apply yields_weaken with (2 := F)); intros x; cbn [app orb];
      destruct (existsb IsExpressionResultUndefined vs); auto.
  - unfold sum_type. rewrite blank_split, Hn. now left.
  - destruct H as (-> & Hd & Hu & Hdate & Hdec). cbn [app] in *. unfold ProcessDollarAddAccumulatedResult. rewrite Hd, Hu.
    cbn. unfold sum_type. rewrite Hvs. pose proof (blank_split used) as B. rewrite Hn in B. cbn [orb] in B.
    rewrite !existsb_app, B. destruct (existsb IsExpressionResultUndefined used) eqn:E; cbn [orb]; [now left|].
    rewrite before_blank_app by exact B. rewrite !existsb_app, Hdate, Hdec. destruct (existsb blank rest); [now right|reflexivity].
Qed.

Lemma product_typed recurse env args : forall result, numeric result ->
  yields (fun p => product_type (operand_values recurse env args) (snd p))
    (accumulate recurse env multiply_operand args tt result).
Proof.
  induction args as [|a args IH]; intros result H; cbn [accumulate operand_values]; [exact H|].
  destruct (recurse env a) as [v|]; [|exact I]. cbn [res_bind]. unfold multiply_operand at 1, ProcessDollarMultiply.
  destruct (blank v) eqn:Eb; [cbn; unfold product_type; cbn; now rewrite Eb|].
  destruct (negb _); [exact I|]. pose proof (Multiply_numeric result v true H) as M.
  destruct (MultiplyWithFactorAndUpdate result v true) as [[b r]|]; [|exact I]. cbn in M |- *.
  apply yields_weaken with (2 := IH r M). intros p. unfold product_type. cbn. now rewrite Eb.
Qed.

(** Sums of integers, doubles and values that are null or missing do not fail. *)
Definition summable (v : bson_value) : bool := blank v || binary_number v.

Lemma sum_returns recurse env args vs : Forall2 (fun a v => recurse env a = Ok v) args vs ->
  forallb summable vs = true -> exists r, add_meaning recurse env args = Ok r.
Proof.
  intros Hvs Hs. unfold add_meaning.
  enough (L : forall state result, isDateTimeAdd state = false -> binary_number result = true ->
    exists s r, accumulate recurse env ProcessDollarAdd args state result = Ok (s, r) /\ isDateTimeAdd s = false).
  { destruct (L (AddState false false) (VInt32 0)) as (s & r & -> & Es); auto. cbn [res_bind].
    unfold ProcessDollarAddAccumulatedResult. rewrite Es. destruct r; cbn; eauto. }
  induction Hvs as [|a v args vs E _ IH]; intros state result Hd Hr; cbn [accumulate]; [eauto|].
  cbn in Hs. apply andb_true_iff in Hs. destruct Hs as [Hv Hs]. rewrite E. cbn [res_bind].
  assert (N : binary_number v = true ->
    exists u, AddNumberToBsonValue result v false = Ok u /\ binary_number (updated u) = true).
  { intros H. apply andb_true_iff in H. destruct H as [H H']. apply negb_true_iff in H'. now apply AddNumber_binary. }
  destruct v; try discriminate Hv; cbn [ProcessDollarAdd IsExpressionResultUndefined res_bind BsonValueIsNumber value_type
    BsonTypeIsNumber negb andb]; eauto; rewrite ?Hd; cbn [andb];
    (destruct (N eq_refl) as (u & -> & Hu); cbn [res_bind]; now apply IH).
Qed.

(** C26: The types that the evaluation of arithmetic operators gives, by the values of
    the operands (constant folding is not part of it). With one operand: null exactly when
    it is null or missing, else a number or an error. With two: null when one is null or
    missing, a date exactly for a date minus a number, else a number, or an error. A sum
    that does not fail is null when an operand is null or missing (unless a date and a
    decimal before that operand left the range of dates, which gives the largest date), else
    a date when an operand is a date, else a number; a product that does not fail is null
    when an operand is null or missing, else a number. Sums of integers, doubles and values
    that are null or missing do not fail. *)
Theorem arithmetic_types :
  (forall op v, one_operand_type v (ProcessOneOperand op v)) /\
  (forall op x y, yields (two_operands_type op x y) (ProcessTwoOperands op x y)) /\
  (forall recurse env args, yields (sum_type (operand_values recurse env args)) (add_meaning recurse env args)) /\
  (forall recurse env args, yields (fun p => product_type (operand_values recurse env args) (snd p))
     (accumulate recurse env multiply_operand args tt (VInt32 1))) /\
  (forall recurse env args vs, Forall2 (fun a v => recurse env a = Ok v) args vs ->
     forallb summable vs = true -> exists r, add_meaning recurse env args = Ok r).
Proof.
  split; [exact one_operand_typed|]. split; [exact two_operands_types|]. split; [exact sum_typed|].
  split; [|exact sum_returns]. intros recurse env args. now apply product_typed.
Qed.
End Typing.
