(* ===== verification/AggOutcome.v ===== *)
(** * Aggregation expressions: outcomes of an evaluation

    The expressions that the soundness theorem covers ([supported]), the outcome of a
    computation compared with the reference semantics, results and variables, and the
    expressions that are strings.  A parsed expression [gives] a meaning when its
    evaluation, as a value and to a writer, ends with that value or error in every
    context of variables that corresponds to the environment.  With hash tables of
    variables ([multi]) an evaluation may also read a destroyed table. *)

From Stdlib Require Import ZArith Lia Bool String List.
From Stdlib Require Import Strings.Byte.
From S2P Require Import Prelude SoftFloat BsonTypes StringView Decimal128 BsonCompare BsonArith Traversal BsonWriter DollarSets.
From S2P Require Import AggData AggOperators AggEval AggParse AggMeaning.
Import ListNotations.
Local Open Scope Z_scope.

Abbreviation Env := (list (list (bytes * res bson_value))).

(** ** Outcomes *)

Section Outcome.
(** Whether a destroyed table may be read. *)
Variable multi : bool.

(** A computation ends as the reference says, with [P] of its value. *)
Definition outcome {A B} (x : res (A * tables)) (m : res B) (P : B -> A -> Prop) : Prop :=
  match x with
  | Ok (a, _) => exists v, m = Ok v /\ P v a
  | Err e => (multi = true /\ e = USE_AFTER_FREE) \/ m = Err e
  end.

Lemma outcome_bind {A B C D} (x : M A) (f : A -> M B) (m : res C) (g : C -> res D) P Q t :
  outcome (x t) m P ->
  (forall a v t', P v a -> outcome (f a t') (g v) Q) ->
  outcome (bind x f t) (res_bind m g) Q.
Proof.
  unfold outcome, bind. destruct (x t) as [[a t']|e].
  - intros [v [-> HP]] Hf. exact (Hf a v t' HP).
  - intros [U| ->] _; [now left|now right].
Qed.

Lemma outcome_lift {A C D} (r : res A) (f : A -> M C) (g : A -> res D) Q t :
  (forall a, r = Ok a -> outcome (f a t) (g a) Q) -> outcome (bind (lift r) f t) (res_bind r g) Q.
Proof. unfold outcome, bind, lift. destruct r as [a|e]; [intros H; exact (H a eq_refl)|now right]. Qed.

Lemma outcome_pure {A B} (a : A) (v : B) (P : B -> A -> Prop) t : P v a -> outcome (ret a t) (Ok v) P.
Proof. intros H. exists v. auto. Qed.

Lemma outcome_weaken {A B} (x : res (A * tables)) (m : res B) (P Q : B -> A -> Prop) :
  (forall v a, m = Ok v -> P v a -> Q v a) -> outcome x m P -> outcome x m Q.
Proof. unfold outcome. destruct x as [[a t]|e]; [|auto]. intros H [v [E HP]]. eauto. Qed.

(** The computation continues after its value is known. *)
Lemma outcome_then {A B C} (x : M A) (f : A -> M B) (m : res C) P Q t :
  outcome (x t) m P ->
  (forall a v t', m = Ok v -> P v a -> outcome (f a t') (Ok v) Q) ->
  outcome (bind x f t) m Q.
Proof.
  unfold outcome, bind. destruct (x t) as [[a t']|e]; [|auto].
  intros [v [-> HP]] Hf. exact (Hf a v t' eq_refl HP).
Qed.

Lemma outcome_raise {A B} e (P : B -> A -> Prop) t : outcome (raise e t) (Err e) P.
Proof. now right. Qed.
End Outcome.

(** ** The expressions covered *)

Definition nodup_keys (d : fields) : bool :=
  (fix go (d : fields) : bool :=
     match d with
     | [] => true
     | (k, _) :: d => negb (existsb (fun kv => cmp_bytes (fst kv) k =? 0) d) && go d
     end) d.

(** Keys that are one segment of a path. *)
Definition plain_key (k : bytes) : bool :=
  no_nulb k && (0 <? blen k) && negb (existsb (byte_eqb dot) k) && negb (StringViewStartsWith (Some k) "$"%byte).

(** A string that is a field path or a variable. *)
Definition is_reference (s : bytes) : bool := (blen s >? 1) && byte_eqb (nth 0 s x00) "$"%byte.

Definition is_now (s : bytes) : bool := same_name (fst (variable_reference s)) (str "$$NOW").

Definition is_name (name : bytes) (s : string) : bool := strcmp name (str s) =? 0.

(** Whether an expression depends on the document or on variables. *)
Fixpoint dynamic (v : bson_value) : bool :=
  match v with
  | VUtf8 s => is_reference s && negb (is_now s)
  | VArray d => existsb (fun kv => dynamic (snd kv)) d
  | VDocument d =>
    match d with
    | (name, argument) :: _ =>
      if is_operator_key name then
        if is_name name "$literal" || is_name name "$const" then false
        else if is_name name "$let" then
          match argument with
          | VDocument a => existsb (fun kv => is_name (fst kv) "in" && dynamic (snd kv)) a
          | _ => false
          end
        else dynamic argument
      else existsb (fun kv => dynamic (snd kv)) d
    | [] => false
    end
  | _ => false
  end.

(** A value that stands for itself. *)
Definition scalar_literal (v : bson_value) : bool :=
  match v with
  | VUtf8 s => negb (is_reference s)
  | VDocument _ | VArray _ => false
  | _ => copied v
  end.

(** What is asked of the arguments of some operators: a [$let] does not rebind
    [CURRENT], has a single variable unless [multi], and its [in] is no constant that
    has to be computed; the sum of constants is a sum of numbers. *)
Definition variable_supported (name : bytes) : bool :=
  no_nulb name && (blen name <? 2 ^ 31) && negb (cmp_bytes name (str "CURRENT") =? 0).

Definition let_supported (multi : bool) (argument : bson_value) : bool :=
  match argument with
  | VDocument a =>
    match last_field a "vars", last_field a "in" with
    | Some (VDocument vars), Some body =>
      forallb (fun kv => variable_supported (fst kv)) vars &&
      (multi || (List.length vars <=? 1)%nat) && (dynamic body || scalar_literal body)
    | _, _ => true
    end
  | _ => true
  end.

Definition add_supported (argument : bson_value) : bool :=
  dynamic argument || forallb BsonValueIsNumber (operands argument).

Definition operator_supported (multi : bool) (handler : HandlePreParsedOperatorFunc) (argument : bson_value) : bool :=
  match handler with
  | DollarLet => let_supported multi argument
  | DollarAdd => add_supported argument
  | DollarOther => false
  | _ => true
  end.

Fixpoint supported {BL : BidLib} {LB : LibBson} {LM : LibM} (multi : bool) (v : bson_value) : bool :=
  match v with
  | VUtf8 s => negb (is_reference s) || no_nulb s && (blen s <? 2 ^ 31) && (negb (is_now s) || (blen s =? 5))
  | VArray d => forallb (fun kv => supported multi (snd kv)) d
  | VDocument d =>
    nodup_keys d &&
    match d with
    | (name, argument) :: _ =>
      if is_operator_key name then
        no_nulb name &&
        match handler_of name with
        | Some None => plain argument
        | Some (Some handler) => operator_supported multi handler argument && supported multi argument
        | None => true
        end
      else forallb (fun kv => plain_key (fst kv)) d && forallb (fun kv => supported multi (snd kv)) d
    | [] => true
    end
  | _ => copied v
  end.

(** ** Results *)

Definition written (w : pgbson_writer) (path : bytes) (v : bson_value) : pgbson_writer :=
  if missing v then w else w ++ [(path, v)].

Definition good_res (m : res bson_value) : Prop := match m with Ok v => good v = true | Err _ => True end.

Section Sound.
Context {BL : BidLib} {LB : LibBson} {LM : LibM} {LD : LibBsonDoc} {Laws : LibBsonDocLaws LD} {OtherArguments : Set}.
Variable EnableCollation : bool.
Variable null_string : bson_value.
Variable handle_other : OtherArguments -> fields -> @ExpressionResult OtherArguments -> M (@ExpressionResult OtherArguments).
Variable parse_other : bytes -> bson_value -> ParseContext -> M (bson_value + OtherArguments).
Variable multi : bool.

Abbreviation Data := (@AggregationExpressionData OtherArguments).
Abbreviation Result := (@ExpressionResult OtherArguments).
Abbreviation Context_ := (@ExpressionVariableContext OtherArguments).
Abbreviation Outcome := (outcome multi).

(** A result to which nothing was given yet, in either mode. *)
Definition ready (r : Result) : Prop :=
  valueSet r = false /\ hasBaseWriter r = false /\
  if isExpressionWriter r then variableFrame r = NoVariables /\ exists w p, writer r = ObjectElementWriter w p
  else value r = VEod.

Definition delivered (r : Result) (v : bson_value) (r' : Result) : Prop :=
  variableParent r' = variableParent r /\
  (variableFrame r = NoVariables -> variableFrame r' = NoVariables) /\
  isExpressionWriter r' = isExpressionWriter r /\
  if isExpressionWriter r then writer r' = put (writer r) v else value r' = v.

Definition fresh (r : Result) : Prop := ready r /\ isExpressionWriter r = false.

Definition frame_ok (f : @VariableFrame OtherArguments) : Prop :=
  match f with VariableTable _ _ => multi = true | _ => True end.

Lemma child_fresh r : fresh (ExpressionResultCreateChild r).
Proof. now repeat split. Qed.

Lemma reset_fresh r v r' : fresh r -> delivered r v r' -> variableFrame r = NoVariables ->
  exists r'', ExpressionResultReset r' = Ok r'' /\ fresh r'' /\ variableContext r'' = variableContext r.
Proof.
  intros [[_ [_ _]] Hw] (Hp & Hf & Hw' & _) HN. unfold ExpressionResultReset. rewrite Hw', Hw.
  eexists. split; [reflexivity|]. split; [now repeat split|].
  unfold variableContext. cbn [variableFrame variableParent]. rewrite Hf, HN, Hp by exact HN. reflexivity.
Qed.

(** The table of a result is destroyed with it. *)
Lemma destroy_outcome r t (P : Result -> Prop) : frame_ok (variableFrame r) ->
  (forall f, (variableFrame r = NoVariables -> f = NoVariables) -> P (with_context r f (variableParent r))) ->
  Outcome (destroy_variables r t) (Ok tt) (fun _ r' => P r').
Proof.
  intros Hf HP. unfold destroy_variables, read_table, hash_destroy, bind, ret.
  destruct (variableFrame r) eqn:E; cbn [frame_ok] in Hf.
  - exists tt. split; [reflexivity|]. specialize (HP NoVariables). destruct r; cbn in *. rewrite E. now apply HP.
  - exists tt. split; [reflexivity|]. specialize (HP (SingleVariable variable)). destruct r; cbn in *. rewrite E. now apply HP.
  - destruct (existsb (Nat.eqb table) (destroyed t)); [left; auto|].
    exists tt. split; [reflexivity|]. now apply HP.
Qed.

Lemma outcome_unit {A} (x : res (A * tables)) (v : bson_value) (P : A -> Prop) :
  Outcome x (Ok tt) (fun _ a => P a) -> Outcome x (Ok v) (fun _ a => P a).
Proof. unfold outcome. destruct x as [[a t]|e]; [|now intros [U|U]; [left|discriminate]]. intros [_ [_ H]]. eauto. Qed.

Lemma set_value_outcome r v t : ready r -> frame_ok (variableFrame r) -> plain v = true ->
  Outcome (ExpressionResultSetValue r v t) (Ok v) (delivered r).
Proof.
  intros (Hs & Hb & Hm) Hf Hv. unfold ExpressionResultSetValue, bind at 1.
  destruct (isExpressionWriter r) eqn:Ew.
  - unfold lift, bind. rewrite (put_written _ _ Hv). unfold ret.
    apply (outcome_weaken multi) with (P := fun _ => delivered r v); [now intros ? ? [= ->]|].
    apply outcome_unit, destroy_outcome; [exact Hf|]. intros f Hfr. unfold delivered. cbn. rewrite Ew. auto.
  - unfold ret.
    apply (outcome_weaken multi) with (P := fun _ => delivered r v); [now intros ? ? [= ->]|].
    apply outcome_unit, destroy_outcome; [exact Hf|]. intros f Hfr. unfold delivered. cbn. rewrite Ew. auto.
Qed.

(** A result that is left alone is missing. *)
Lemma untouched_outcome r t : ready r -> Outcome (ret r t) (Ok VEod) (delivered r).
Proof.
  intros (Hs & Hb & Hm). exists VEod. split; [reflexivity|]. unfold delivered. repeat split; auto.
  destruct (isExpressionWriter r); [reflexivity|exact Hm].
Qed.

Lemma set_unless_missing_outcome r v t : ready r -> frame_ok (variableFrame r) -> good v = true ->
  Outcome (set_unless_missing r v t) (Ok v) (delivered r).
Proof.
  intros Hr Hf Hv. unfold set_unless_missing.
  destruct v; try (apply set_value_outcome; assumption). now apply untouched_outcome.
Qed.

Lemma with_field_path_ready r b : ready r -> ready (with_field_path r b).
Proof. intros H. exact H. Qed.

Lemma with_field_path_delivered r b v r' : delivered (with_field_path r b) v r' -> delivered r v r'.
Proof. intros H. exact H. Qed.

Lemma copy_value_total v : exists v', copy_value v = Ok v'.
Proof.
  unfold copy_value.
  destruct v; try (eexists; reflexivity);
    unfold PgbsonWriterAppendValue, append;
    match goal with |- context [bson_append_value ?x] =>
      destruct (append_type x ltac:(discriminate)) as [v' [-> _]]; eexists; reflexivity end.
Qed.

Lemma copy_value_good v : good v = true -> copy_value v = Ok v.
Proof.
  unfold copy_value, PgbsonWriterAppendValue, append. intros H.
  destruct v; try reflexivity; rewrite (append_copied _ (plain_copied _ H)); reflexivity.
Qed.

(** What is written to the writer of a result becomes its value. *)
Lemma set_from_writer_outcome r v t : ready r -> frame_ok (variableFrame r) -> good v = true ->
  exists r1, ExpressionResultGetElementWriter r = Ok r1 /\
    variableContext r1 = variableContext r /\
    Outcome (ExpressionResultSetValueFromWriter (with_writer r1 (put (writer r1) v)) t) (Ok v) (delivered r).
Proof.
  intros (Hs & Hb & Hm) Hf Hv. unfold ExpressionResultGetElementWriter. rewrite Hs.
  destruct (isExpressionWriter r) eqn:Ew; eexists; (split; [reflexivity|]); (split; [reflexivity|]);
    unfold ExpressionResultSetValueFromWriter; cbn [isExpressionWriter valueSet with_writer negb].
  - rewrite Ew, Hs. cbn [negb].
    destruct (copy_value_total (PgbsonElementWriterGetValue (writer (with_writer r (put (writer r) v))))) as [v' E].
    unfold bind at 1, lift. rewrite E.
    apply (outcome_weaken multi) with (P := fun _ => delivered r v); [now intros ? ? [= ->]|].
    apply outcome_unit, destroy_outcome; [exact Hf|]. intros f Hfr. unfold delivered. cbn. rewrite Ew, Hb. auto.
  - unfold bind at 1, lift. cbn [writer with_writer].
    assert (E : copy_value (PgbsonElementWriterGetValue (put (PgbsonInitObjectElementWriter PgbsonWriterInit []) v)) = Ok v).
    { rewrite <- (copy_value_good v Hv). f_equal. now destruct v. }
    rewrite E.
    apply (outcome_weaken multi) with (P := fun _ => delivered r v); [now intros ? ? [= ->]|].
    apply outcome_unit, destroy_outcome; [exact Hf|]. intros f Hfr. unfold delivered. cbn. rewrite Ew. auto.
Qed.

Lemma suffix_outcome r v suffix noe t : ready r -> frame_ok (variableFrame r) -> good v = true ->
  Outcome (evaluate_suffix r v suffix noe t) (Ok (field_path v suffix noe)) (delivered r).
Proof.
  intros Hr Hf Hv. unfold evaluate_suffix.
  destruct (set_from_writer_outcome r (field_path v suffix noe) t Hr Hf (field_path_good _ _ _ Hv)) as [r1 [E [_ H]]].
  unfold bind at 1, lift at 1. rewrite E. unfold bind, lift.
  rewrite (field_path_written v suffix (writer r1) noe Hv). exact H.
Qed.

(** ** Environments *)

Variable root : fields.
Hypothesis root_plain : plain_doc root = true.

Abbreviation ev := (evaluator handle_other).

Definition eventually (P : nat -> Prop) : Prop := exists n, forall k, (n <= k)%nat -> P k.

Lemma eventually_and P Q : eventually P -> eventually Q -> eventually (fun k => P k /\ Q k).
Proof. intros [n Hn] [m Hm]. exists (Nat.max n m). intros k Hk. split; [apply Hn|apply Hm]; lia. Qed.

Lemma eventually_mono (P Q : nat -> Prop) : (forall k, P k -> Q k) -> eventually P -> eventually Q.
Proof. intros H [n Hn]. exists n. auto. Qed.

Lemma eventually_step (P Q : nat -> Prop) : (forall k, P k -> Q (S k)) -> eventually P -> eventually Q.
Proof. intros H [n Hn]. exists (S n). intros [|k] Hk; [lia|]. apply H, Hn. lia. Qed.

Lemma eventually_true (P : nat -> Prop) : (forall k, P k) -> eventually P.
Proof. intros H. exists O. auto. Qed.

(** The value of an expression in a context. *)
Definition value_outcome (k : nat) (e : Data) (noe : bool) (ctx : Context_) (m : res bson_value) : Prop :=
  forall r t, fresh r -> variableContext r = ctx ->
  Outcome (evaluate_data (ev k) e root r noe t) m (delivered r).

(** A variable of a context, and its name and value in the environment. *)
Definition variable_ok (ctx : Context_) (var : VariableData) (b : bytes * res bson_value) : Prop :=
  variable_name var = fst b /\ variable_supported (fst b) = true /\ good_res (snd b) /\
  match var with
  | Constant_Variable _ v => snd b = Ok v
  | Expression_Variable _ e => eventually (fun k => value_outcome k e false (NoVariables :: ctx) (snd b))
  end.

Fixpoint env_ok (ctx : Context_) (env : Env) : Prop :=
  match ctx with
  | [] => env = []
  | NoVariables :: ctx => env_ok ctx env
  | SingleVariable var :: ctx =>
    exists b env', env = [b] :: env' /\ variable_ok ctx var b /\ env_ok ctx env'
  | VariableTable _ entries :: ctx =>
    multi = true /\ exists bs env', env = bs :: env' /\ Forall2 (variable_ok ctx) entries bs /\ env_ok ctx env'
  end.

Lemma variable_supported_ok name : variable_supported name = true -> cstr_ok name /\ cmp_bytes name (str "CURRENT") <> 0.
Proof.
  unfold variable_supported, cstr_ok, len_ok. rewrite !andb_true_iff, negb_true_iff.
  intros [[H1 H2] H3]. repeat split; [lia|now apply no_nulb_ok|lia].
Qed.

Lemma same_name_iff l r : no_nul l -> same_name l r = (cmp_bytes r l =? 0).
Proof.
  intros Hn. apply eq_true_iff_eq. unfold same_name. rewrite (StringViewEquals_iff l r Hn), Z.eqb_eq, cmp_bytes_0.
  split; congruence.
Qed.

Lemma compare_names l r : cstr_ok l -> cstr_ok r -> (CompareStringView l r =? 0) = (cmp_bytes l r =? 0).
Proof.
  intros [Hl Nl] [Hr _]. pose proof (CompareStringView_order l r Hl Hr Nl) as S. unfold same_sign in S.
  destruct (Z.eqb_spec (CompareStringView l r) 0), (Z.eqb_spec (cmp_bytes l r) 0); reflexivity || lia.
Qed.

Definition lookup_result (env : Env) (name : bytes) : res (option bson_value) :=
  match env_lookup env name with
  | None => Ok None
  | Some r => res_bind r (fun v => Ok (Some v))
  end.

Lemma variable_value k ctx var b t : fst b = variable_name var ->
  match var with
  | Constant_Variable _ v => snd b = Ok v
  | Expression_Variable _ e => value_outcome k e false (NoVariables :: ctx) (snd b)
  end ->
  Outcome (bind (GetVariableValueFromData (ev k) var root ctx) (fun v => ret (Some v)) t)
    (res_bind (snd b) (fun v => Ok (Some v))) (fun v a => a = v).
Proof.
  intros _ H. apply outcome_bind with (P := fun v a => a = v).
  - destruct var as [name v|name e]; cbn [GetVariableValueFromData].
    + rewrite H. now apply outcome_pure.
    + unfold GetVariableValueFromData.
      set (child := with_context ExpressionResultCreateWithTracker NoVariables ctx).
      assert (Hc : fresh child) by now repeat split.
      specialize (H child t Hc eq_refl). apply outcome_then with (P := delivered child); [exact H|].
      intros r v t' E (_ & _ & Hw & Hv). apply outcome_pure.
      destruct Hc as [_ Hc]. rewrite Hc in Hv. exact Hv.
  - intros a v t' ->. now apply outcome_pure.
Qed.

(** A value of the environment is found through the contexts. *)
Lemma get_variable_outcome ctx : forall env name, env_ok ctx env -> cstr_ok name ->
  eventually (fun k => forall t, Outcome (ExpressionResultGetVariable (ev k) name ctx root t)
                                   (lookup_result env name) (fun v a => a = v)).
Proof.
  induction ctx as [|frame ctx IH]; intros env name He Hn.
  - cbn in He. subst env. apply eventually_true. intros k t. now apply outcome_pure.
  - destruct frame as [|var|table entries]; cbn [env_ok ExpressionResultGetVariable] in *.
    + now apply IH.
    + destruct He as (b & env' & -> & (Hname & Hsup & Hgood & Hval) & He).
      destruct (variable_supported_ok _ Hsup) as [Hb _].
      specialize (IH env' name He Hn). unfold lookup_result in *. cbn [env_lookup].
      unfold bound. cbn [find].
      rewrite Hname, (same_name_iff name (fst b) (proj2 Hn)).
      destruct (cmp_bytes (fst b) name =? 0).
      * assert (Hev : eventually (fun k => match var with
            | Constant_Variable _ v => snd b = Ok v
            | Expression_Variable _ e => value_outcome k e false (NoVariables :: ctx) (snd b) end))
          by (destruct var; [now apply eventually_true|exact Hval]).
        revert Hev. apply eventually_mono. intros k Hk t. now apply variable_value.
      * exact IH.
    + destruct He as (Hm & bs & env' & -> & Hall & He). specialize (IH env' name He Hn).
      unfold lookup_result in *. cbn [env_lookup].
      assert (Hfind : eventually (fun k =>
        match find_entry entries name, bound bs name with
        | Some var, Some m => forall t,
            Outcome (bind (GetVariableValueFromData (ev k) var root ctx) (fun v => ret (Some v)) t)
              (res_bind m (fun v => Ok (Some v))) (fun v a => a = v)
        | None, None => True
        | _, _ => False
        end)).
      { clear IH He. unfold find_entry, bound. induction Hall as [|var b entries bs (Hname & Hsup & Hgood & Hval) Hall IHl];
          [now apply eventually_true|]. cbn [find].
        destruct (variable_supported_ok _ Hsup) as [Hb _].
        rewrite Hname, (compare_names _ _ Hb Hn). destruct (cmp_bytes (fst b) name =? 0); [|exact IHl].
        assert (Hev : eventually (fun k => match var with
            | Constant_Variable _ v => snd b = Ok v
            | Expression_Variable _ e => value_outcome k e false (NoVariables :: ctx) (snd b) end))
          by (destruct var; [now apply eventually_true|exact Hval]).
        revert Hev. apply eventually_mono. intros k Hk t. now apply variable_value. }
      generalize (eventually_and _ _ IH Hfind). apply eventually_mono. intros k [Hk Hf] t.
      unfold bind at 1, read_table. destruct (existsb (Nat.eqb table) (destroyed t)); [now left|].
      now destruct (find_entry entries name), (bound bs name).
Qed.

Lemma env_lookup_good ctx : forall env name r, env_ok ctx env -> env_lookup env name = Some r -> good_res r.
Proof.
  induction ctx as [|frame ctx IH]; intros env name r He E; [cbn in He; now subst|].
  destruct frame as [|var|table entries]; cbn [env_ok] in He; [now apply (IH env name)| |].
  - destruct He as (b & env' & -> & (_ & _ & Hg & _) & He). cbn [env_lookup] in E. unfold bound in E. cbn [find] in E.
    destruct (cmp_bytes (fst b) name =? 0); cbn [option_map] in E; [now injection E as <-|now apply (IH env' name)].
  - destruct He as (_ & bs & env' & -> & Hall & He). cbn [env_lookup] in E.
    destruct (bound bs name) as [r'|] eqn:B; [injection E as <-|now apply (IH env' name)].
    unfold bound in B. destruct (find _ bs) as [b|] eqn:F; [|discriminate]. injection B as <-.
    apply find_some in F. destruct F as [Hin _]. clear -Hall Hin.
    induction Hall as [|var b' entries bs (_ & _ & Hg & _) Hall IHl]; [easy|]. destruct Hin as [->|Hin]; auto.
Qed.

(** [CURRENT] is never bound. *)
Lemma env_lookup_current ctx : forall env, env_ok ctx env -> env_lookup env (str "CURRENT") = None.
Proof.
  induction ctx as [|frame ctx IH]; intros env He; [cbn in He; now subst|].
  destruct frame as [|var|table entries]; cbn [env_ok] in He; [now apply IH| |].
  - destruct He as (b & env' & -> & (_ & Hsup & _) & He). cbn [env_lookup]. unfold bound. cbn [find].
    destruct (variable_supported_ok _ Hsup) as [_ Hc]. destruct (Z.eqb_spec (cmp_bytes (fst b) (str "CURRENT")) 0); [easy|].
    now apply IH.
  - destruct He as (_ & bs & env' & -> & Hall & He). cbn [env_lookup].
    assert (N : bound bs (str "CURRENT") = None).
    { clear IH He. unfold bound. induction Hall as [|var b entries bs (_ & Hsup & _) Hall IHl]; [reflexivity|]. cbn [find].
      destruct (variable_supported_ok _ Hsup) as [_ Hc]. destruct (Z.eqb_spec (cmp_bytes (fst b) (str "CURRENT")) 0); [easy|].
      exact IHl. }
    rewrite N. now apply IH.
Qed.

Lemma env_ok_frame frame ctx env : env_ok (frame :: ctx) env -> frame_ok frame.
Proof. destruct frame; cbn; tauto. Qed.

(** ** Strings *)

Variable now : bson_value.
Variable collation : option bytes.

(** A step of the evaluation for results of both kinds. *)
Definition ready_outcome (g : Result -> M Result) (ctx : Context_) (m : res bson_value) : Prop :=
  forall r t, ready r -> variableContext r = ctx -> Outcome (g r t) m (delivered r).

Lemma at_path_good v path noe : good v = true -> good (at_path v path noe) = true.
Proof. intros H. unfold at_path. destruct path; [exact H|now apply field_path_good]. Qed.

(** A value found for a variable is set, or followed along the path. *)
Lemma found_outcome r v path noe t : ready r -> frame_ok (variableFrame r) -> good v = true ->
  Outcome ((if blen path =? 0 then set_unless_missing r v else evaluate_suffix r v path noe) t)
    (Ok (at_path v path noe)) (delivered r).
Proof.
  intros Hr Hf Hv. destruct path as [|b path]; cbn [at_path].
  - now apply set_unless_missing_outcome.
  - replace (blen (b :: path) =? 0) with false by (symmetry; apply Z.eqb_neq; unfold blen; cbn [List.length]; lia).
    now apply suffix_outcome.
Qed.

Lemma no_nul_firstn n s : no_nul s -> no_nul (firstn n s).
Proof. unfold no_nul. revert s. induction n as [|n IH]; intros [|b s] H; cbn; auto. inversion_clear H. auto. Qed.

Lemma cstr_ok_firstn n s : cstr_ok s -> cstr_ok (firstn n s).
Proof.
  intros [Hl Hn]. split; [|now apply no_nul_firstn].
  unfold len_ok, blen in *. rewrite length_firstn. lia.
Qed.

(** A reference to a variable. *)
Lemma variable_outcome rest ctx env noe : env_ok ctx env -> cstr_ok rest ->
  (forall n, memchr rest dot = Some n -> (0 < blen (skipn (S n) rest))) ->
  let '(name, path) := variable_reference rest in
  eventually (fun k => ready_outcome (fun r => EvaluateAggregationExpressionVariable (ev k) ("$"%byte :: "$"%byte :: rest) root r noe) ctx
    (match env_lookup env name with
     | None => Err ERRCODE_DOCUMENTDB_LOCATION17276
     | Some r => res_bind r (fun v => Ok (at_path v path noe))
     end)).
Proof.
  intros He Hr Hdot. unfold variable_reference.
  assert (Hname : forall name path dotted suffix,
    cstr_ok name -> (dotted = true -> suffix = path /\ path <> []) -> (dotted = false -> path = []) ->
    eventually (fun k => ready_outcome (fun r =>
      bind (ExpressionResultGetVariable (ev k) name (variableContext r) root) (fun found =>
        match found with
        | None => raise ERRCODE_DOCUMENTDB_LOCATION17276
        | Some variableValue =>
          let r := with_field_path r dotted in
          if negb dotted then match variableValue with VEod => ret r | _ => ExpressionResultSetValue r variableValue end
          else evaluate_suffix r variableValue suffix noe
        end)) ctx
      (match env_lookup env name with
       | None => Err ERRCODE_DOCUMENTDB_LOCATION17276
       | Some r => res_bind r (fun v => Ok (at_path v path noe))
       end))).
  { intros name path dotted suffix Hn Hd Hnd. generalize (get_variable_outcome ctx env name He Hn).
    apply eventually_mono. intros k Hk r t Hready Hctx. rewrite <- Hctx in Hk. specialize (Hk t).
    assert (Hf : frame_ok (variableFrame r)) by (apply env_ok_frame with (variableParent r) env; now rewrite <- Hctx in He).
    unfold bind, outcome, lookup_result in *. destruct (ExpressionResultGetVariable (ev k) name (variableContext r) root t) as [[found t']|e].
    - destruct Hk as [v [Ev ->]]. destruct (env_lookup env name) as [m|] eqn:El.
      + destruct m as [x|]; [|discriminate]. injection Ev as <-. cbn [res_bind].
        assert (Hx : good x = true) by exact (env_lookup_good ctx env name _ He El).
        destruct dotted; cbn [negb].
        * destruct (Hd eq_refl) as [-> Hne]. change (Outcome (evaluate_suffix (with_field_path r true) x path noe t')
            (Ok (at_path x path noe)) (delivered r)).
          replace (at_path x path noe) with (field_path x path noe) by now destruct path.
          exact (suffix_outcome (with_field_path r true) x path noe t' Hready Hf Hx).
        * rewrite (Hnd eq_refl). cbn [at_path].
          exact (set_unless_missing_outcome (with_field_path r false) x t' Hready Hf Hx).
      + injection Ev as <-. now right.
    - destruct Hk as [U|U]; [now left|right]. destruct (env_lookup env name) as [[x|e']|]; cbn in *; congruence. }
  unfold EvaluateAggregationExpressionVariable. change (skipn 2 ("$"%byte :: "$"%byte :: rest)) with rest.
  unfold StringViewContains, StringViewFindPrefix, StringViewFindSuffix.
  destruct (memchr rest dot) as [n|] eqn:En.
  - pose proof (memchr_length _ _ _ En) as L. specialize (Hdot n eq_refl).
    assert (B1 : (0 <? blen rest) = true) by (apply Z.ltb_lt; unfold blen; lia).
    assert (B2 : (Z.of_nat n <? blen rest) = true) by (apply Z.ltb_lt; unfold blen; lia).
    assert (B3 : (0 <? blen (skipn (S n) rest)) = true) by now apply Z.ltb_lt.
    rewrite B1, B2, B3. cbn [andb]. apply Hname; [now apply cstr_ok_firstn| |easy].
    intros _. split; [reflexivity|]. intros E. rewrite E in Hdot. cbn in Hdot. lia.
  - rewrite andb_false_r. apply Hname; [exact Hr|easy|reflexivity].
Qed.

(** A system variable. *)
Lemma system_variable_outcome kind path ctx env noe : env_ok ctx env ->
  eventually (fun k => ready_outcome (fun r => EvaluateAggregationExpressionSystemVariable (ev k) kind path root r noe) ctx
    (match kind with
     | Root | Current => Ok (at_path (VDocument root) path noe)
     | Remove => Ok VEod
     | Descend => Ok (at_path (VUtf8 (str "$$DESCEND")) path noe)
     | Prune => Ok (at_path (VUtf8 (str "$$PRUNE")) path noe)
     | Keep => Ok (at_path (VUtf8 (str "$$KEEP")) path noe)
     | Now | ClusterTime | SearchMeta | UserRoles => Err ERRCODE_DOCUMENTDB_COMMANDNOTSUPPORTED
     end)).
Proof.
  intros He.
  assert (Hset : forall v r t b1 b2, plain v = true -> ready r -> variableContext r = ctx ->
    Outcome ((if blen path =? 0 then ExpressionResultSetValue (with_field_path r b1) v
              else evaluate_suffix (with_field_path r b2) v path noe) t) (Ok (at_path v path noe)) (delivered r)).
  { intros v r t b1 b2 Hv Hr Hc.
    assert (Hf : frame_ok (variableFrame r)) by (apply env_ok_frame with (variableParent r) env; now rewrite <- Hc in He).
    assert (Hg : good v = true) by (unfold good; rewrite Hv; apply orb_true_r).
    pose proof (found_outcome (with_field_path r b2) v path noe t Hr Hf Hg) as H.
    destruct (blen path =? 0) eqn:Ep; [|exact H].
    destruct path; [|unfold blen in Ep; cbn [List.length] in Ep; apply Z.eqb_eq in Ep; lia].
    apply (set_value_outcome (with_field_path r b1) v t Hr Hf Hv). }
  assert (Hn : cstr_ok (str "CURRENT")) by (split; [reflexivity|now apply no_nulb_ok]).
  pose proof (get_variable_outcome ctx env _ He Hn) as Hcur.
  unfold lookup_result in Hcur. rewrite (env_lookup_current ctx env He) in Hcur.
  revert Hcur. apply eventually_mono. intros k Hcur r t Hr Hc.
  unfold EvaluateAggregationExpressionSystemVariable, bind at 1, system_variable.
  destruct kind; try (now right); try (apply Hset; auto; reflexivity || exact root_plain).
  - rewrite <- Hc in Hcur. specialize (Hcur t). unfold bind at 1.
    destruct (ExpressionResultGetVariable (ev k) (str "CURRENT") (variableContext r) root t) as [[found t']|e].
    + destruct Hcur as [v [[= <-] ->]]. apply Hset; auto.
    + destruct Hcur as [U|U]; [now left|discriminate].
  - now apply untouched_outcome.
Qed.

(** ** Expressions that have a meaning *)

(** The outcome of the evaluation is what the reference says, in every context. *)
Definition gives (e : Data) (F : Env -> bool -> res bson_value) : Prop :=
  forall ctx env noe, env_ok ctx env ->
  good_res (F env noe) /\
  eventually (fun k => value_outcome k e noe ctx (F env noe)) /\
  eventually (fun k => forall path w t,
    Outcome (evaluate_to_writer (ev k) e root path w ctx noe t) (F env noe) (fun v w' => w' = written w path v)).

Lemma object_put w path v : object_writer (put (ObjectElementWriter w path) v) = written w path v.
Proof. unfold put, written. now destruct (missing v). Qed.

(** Expressions that both evaluations handle with the same function. *)
Lemma gives_direct e (G : Evaluator -> Result -> bool -> M Result) F :
  (forall self r noe, evaluate_data_step handle_other self e root r noe = G self r noe) ->
  (forall self path w ctx noe, evaluate_to_writer_step handle_other self e root path w ctx noe =
     bind (G self (ExpressionResultCreateFromElementWriter (PgbsonInitObjectElementWriter w path) ctx) noe)
       (fun r => ret (object_writer (writer r)))) ->
  (forall ctx env noe, env_ok ctx env ->
     good_res (F env noe) /\ eventually (fun k => ready_outcome (fun r => G (ev k) r noe) ctx (F env noe))) ->
  gives e F.
Proof.
  intros Hd Hw H ctx env noe He. destruct (H ctx env noe He) as [Hg Hk]. split; [exact Hg|]. split.
  - revert Hk. apply eventually_step. intros k Hk r t [Hr _] Hc. cbn [evaluator evaluate_data]. rewrite Hd. now apply Hk.
  - destruct (H (NoVariables :: ctx) env noe He) as [_ Hk']. revert Hk'. apply eventually_step. intros k Hk' path w t.
    cbn [evaluator evaluate_to_writer]. rewrite Hw.
    set (r := ExpressionResultCreateFromElementWriter (PgbsonInitObjectElementWriter w path) ctx).
    assert (Hr : ready r) by (repeat split; eexists; eexists; reflexivity).
    apply outcome_then with (P := delivered r); [apply (Hk' r t Hr eq_refl)|].
    intros r' v t' _ (_ & _ & _ & Hv). apply outcome_pure. cbn in Hv. rewrite Hv. apply object_put.
Qed.

Lemma good_plain v : plain v = true -> good v = true.
Proof. unfold good. intros ->. apply orb_true_r. Qed.

Lemma gives_constant c : plain c = true -> gives (ConstantExpr c) (fun _ _ => Ok c).
Proof.
  intros Hc ctx env noe He. split; [now apply good_plain|]. split; exists 1%nat; intros [|k] Hk; try lia.
  - intros r t [Hr _] Hctx. apply set_value_outcome; auto.
    apply env_ok_frame with (variableParent r) env. now rewrite <- Hctx in He.
  - intros path w t. cbn [evaluator evaluate_to_writer evaluate_to_writer_step].
    assert (E : bind (lift (PgbsonElementWriterWriteValue (PgbsonInitObjectElementWriter w path) c))
                  (fun elementWriter => ret (object_writer elementWriter)) t = Ok (written w path c, t)).
    { unfold bind, lift. rewrite put_written by exact Hc. unfold PgbsonInitObjectElementWriter, ret. now rewrite object_put. }
    destruct c; try (rewrite E; eexists; split; reflexivity). discriminate.
Qed.

Abbreviation means := (meaning now collation root).

Definition sound (v : bson_value) (e : Data) : Prop :=
  forall fuel, (vdepth v < fuel)%nat ->
  gives e (fun env noe => means fuel env v noe) /\
  forall c, e = ConstantExpr c ->
    plain c = true /\ dynamic v = false /\ forall env noe, means fuel env v noe = Ok c.

(** A constant that means itself. *)
Lemma sound_constant v c : plain c = true -> dynamic v = false ->
  (forall fuel env noe, (vdepth v < fuel)%nat -> means fuel env v noe = Ok c) -> sound v (ConstantExpr c).
Proof.
  intros Hc Hd Hm fuel Hf. split.
  - pose proof (gives_constant c Hc) as G. intros ctx env noe He. rewrite Hm by exact Hf. exact (G ctx env noe He).
  - intros c' [= <-]. auto.
Qed.

(** The context of a parser: its time, if any, and the collation. *)
Definition context_ok (context : ParseContext) : Prop :=
  (nowValue context = VEod \/ nowValue context = now) /\ collationString context = collation.

Hypothesis now_good : good now = true.

Lemma memchr_cons2 s n : memchr ("$"%byte :: "$"%byte :: s) dot = option_map (fun n => S (S n)) n <-> memchr s dot = n.
Proof.
  cbn [memchr]. change (byte_eqb "$" dot) with false. cbn [option_map].
  destruct (memchr s dot), n; cbn; split; congruence.
Qed.

(** The parser splits a reference as the reference semantics does, and refuses an
    empty path. *)
Lemma reference_view s t :
  let suffix := match StringViewFindSuffix s dot with Some x => x | None => [] end in
  match (if blen suffix >? 0 then ret (match StringViewFindPrefix s dot with Some p => p | None => [] end)
         else if StringViewEndsWith (Some s) dot then raise ERRCODE_DOCUMENTDB_FAILEDTOPARSE else ret s) t with
  | Ok (view, t') => t' = t /\ (view, suffix) = variable_reference s /\
                     forall n, memchr s dot = Some n -> 0 < blen (skipn (S n) s)
  | Err _ => True
  end.
Proof.
  cbv zeta. unfold StringViewFindSuffix, StringViewFindPrefix, variable_reference.
  destruct (memchr s dot) as [n|] eqn:En.
  - pose proof (memchr_length _ _ _ En) as L.
    assert (B2 : (Z.of_nat n <? blen s) = true) by (apply Z.ltb_lt; unfold blen; lia). rewrite B2.
    destruct (0 <? blen (skipn (S n) s)) eqn:B3.
    + apply Z.ltb_lt in B3. replace (blen (skipn (S n) s) >? 0) with true by (symmetry; apply Z.gtb_lt; lia).
      unfold ret. repeat split. intros m [= <-]. exact B3.
    + change (blen [] >? 0) with false. cbv iota.
      assert (Hd : StringViewEndsWith (Some s) dot = true).
      { apply Z.ltb_ge in B3. unfold blen in B3. rewrite length_skipn in B3.
        unfold StringViewEndsWith. apply andb_true_iff. split; [apply Z.ltb_lt; unfold blen; lia|].
        replace (List.length s - 1)%nat with n by lia. clear -En. revert n En.
        induction s as [|b s IH]; intros n; cbn [memchr]; [discriminate|].
        destruct (byte_eqb b dot) eqn:Eb; [intros [= <-]; exact Eb|].
        destruct (memchr s dot) as [m|]; [|discriminate]. intros [= <-]. now apply IH. }
      now rewrite Hd.
  - change (blen [] >? 0) with false. cbv iota. destruct (StringViewEndsWith (Some s) dot); [exact I|]. now repeat split.
Qed.

Lemma is_reference_cons s : is_reference s = true -> exists d2 rest, s = "$"%byte :: d2 :: rest.
Proof.
  unfold is_reference. destruct s as [|d1 [|d2 rest]]; try easy. rewrite andb_true_iff. intros [_ H].
  apply byte_eqb_eq in H. cbn in H. subst. eauto.
Qed.

Lemma not_reference_meaning env s noe : is_reference s = false -> string_meaning now root env s noe = Ok (VUtf8 s).
Proof.
  unfold is_reference, string_meaning. destruct s as [|d1 [|d2 rest]]; try easy.
  replace (blen (d1 :: d2 :: rest) >? 1) with true by (symmetry; apply Z.gtb_lt; unfold blen; cbn [List.length]; lia).
  cbn [andb nth]. now intros ->.
Qed.

Lemma sound_path d2 rest : (rest = [] \/ byte_eqb d2 "$" = false) ->
  sound (VUtf8 ("$"%byte :: d2 :: rest)) (PathExpr ("$"%byte :: d2 :: rest)).
Proof.
  intros Hd fuel Hf. split; [|discriminate]. destruct fuel as [|fuel]; [lia|].
  apply gives_direct with (G := fun self r noe => EvaluateAggregationExpressionSystemVariable self Current (d2 :: rest) root r noe);
    [reflexivity|reflexivity|].
  intros ctx env noe He. cbn [meaning].
  assert (E : string_meaning now root env ("$"%byte :: d2 :: rest) noe = Ok (field_path (VDocument root) (d2 :: rest) noe)).
  { cbn [string_meaning]. change (byte_eqb "$" "$") with true. cbv iota. destruct rest as [|b rest]; [reflexivity|].
    destruct Hd as [Hd|Hd]; [discriminate|now rewrite Hd]. }
  rewrite E. split; [apply field_path_good; exact root_plain|].
  exact (system_variable_outcome Current (d2 :: rest) ctx env noe He).
Qed.

(** The value of a system variable. *)
Definition system_meaning (kind : AggregationExpressionSystemVariableKind) (path : bytes) (noe : bool) : res bson_value :=
  match kind with
  | Root | Current => Ok (at_path (VDocument root) path noe)
  | Remove => Ok VEod
  | Descend => Ok (at_path (VUtf8 (str "$$DESCEND")) path noe)
  | Prune => Ok (at_path (VUtf8 (str "$$PRUNE")) path noe)
  | Keep => Ok (at_path (VUtf8 (str "$$KEEP")) path noe)
  | Now | ClusterTime | SearchMeta | UserRoles => Err ERRCODE_DOCUMENTDB_COMMANDNOTSUPPORTED
  end.

Lemma system_meaning_good kind path noe : good_res (system_meaning kind path noe).
Proof. destruct kind; try exact I; try reflexivity; apply at_path_good; exact root_plain || reflexivity. Qed.

(** What a string of at least three characters means that starts with [$$]. *)
Lemma variable_meaning env b rest noe name path :
  variable_reference ("$"%byte :: "$"%byte :: b :: rest) = (name, path) ->
  string_meaning now root env ("$"%byte :: "$"%byte :: b :: rest) noe =
  if same_name name (str "$$NOW") then Ok (match path with [] => now | _ => VEod end)
  else match system_variable_kind name with
       | Some kind => system_meaning kind path noe
       | None =>
         match env_lookup env (skipn 2 name) with
         | None => Err ERRCODE_DOCUMENTDB_LOCATION17276
         | Some r => res_bind r (fun v => Ok (at_path v path noe))
         end
       end.
Proof.
  intros E. unfold string_meaning. change (byte_eqb "$" "$") with true. cbv iota. rewrite E.
  destruct (same_name name (str "$$NOW")); [reflexivity|]. now destruct (system_variable_kind name) as [[]|].
Qed.

Lemma sound_system b rest kind name path : let s := "$"%byte :: "$"%byte :: b :: rest in
  variable_reference s = (name, path) -> same_name name (str "$$NOW") = false ->
  system_variable_kind name = Some kind -> sound (VUtf8 s) (SystemVariableExpr kind path).
Proof.
  intros s Hv Hn Hk [|fuel] Hf; [lia|]. split; [|discriminate].
  apply gives_direct with (G := fun self r noe => EvaluateAggregationExpressionSystemVariable self kind path root r noe);
    [reflexivity|reflexivity|].
  intros ctx env noe He. cbn [meaning]. unfold s. rewrite (variable_meaning env b rest noe name path Hv), Hn, Hk.
  split; [apply system_meaning_good|]. exact (system_variable_outcome kind path ctx env noe He).
Qed.

Lemma sound_variable b rest name path : let s := "$"%byte :: "$"%byte :: b :: rest in
  cstr_ok s -> variable_reference s = (name, path) -> same_name name (str "$$NOW") = false ->
  system_variable_kind name = None -> (forall n, memchr s dot = Some n -> 0 < blen (skipn (S n) s)) ->
  sound (VUtf8 s) (VariableExpr s).
Proof.
  intros s Hs Hv Hn Hk Hd [|fuel] Hf; [lia|]. split; [|discriminate].
  apply gives_direct with (G := fun self r noe => EvaluateAggregationExpressionVariable self s root r noe);
    [reflexivity|reflexivity|].
  intros ctx env noe He. cbn [meaning].
  assert (E := variable_meaning env b rest noe name path Hv). rewrite Hn, Hk in E. fold s in E. rewrite E.
  assert (Hr : cstr_ok (b :: rest)).
  { destruct Hs as [Hl Hnn]. unfold s, len_ok, blen in *. cbn [List.length] in *. split; [unfold len_ok, blen; cbn [List.length]; lia|].
    unfold no_nul in *. inversion_clear Hnn as [|? ? _ H]. now inversion_clear H. }
  assert (Hd' : forall n, memchr (b :: rest) dot = Some n -> 0 < blen (skipn (S n) (b :: rest))).
  { intros n Hmem. apply memchr_cons2 in Hmem. specialize (Hd _ Hmem). exact Hd. }
  pose proof (variable_outcome (b :: rest) ctx env noe He Hr Hd') as H.
  assert (Hvr : variable_reference (b :: rest) = (skipn 2 name, path)).
  { unfold variable_reference in *. destruct (memchr (b :: rest) dot) as [n|] eqn:Em.
    - apply memchr_cons2 in Em. unfold s in Hv. rewrite Em in Hv. cbn [option_map] in Hv. injection Hv as <- <-. reflexivity.
    - assert (Em0 : memchr s dot = None) by (unfold s; now apply (memchr_cons2 _ None)).
      unfold s in Hv, Em0. rewrite Em0 in Hv. injection Hv as <- <-. reflexivity. }
  rewrite Hvr in H. split; [|exact H].
  destruct (env_lookup env (skipn 2 name)) as [r|] eqn:El; [|exact I].
  pose proof (env_lookup_good ctx env _ _ He El) as G. destruct r as [v|]; [|exact I]. now apply at_path_good.
Qed.

Lemma sound_string s context t e t' : parse_string s context t = Ok (e, t') -> context_ok context ->
  supported multi (VUtf8 s) = true -> sound (VUtf8 s) e.
Proof.
  unfold parse_string. intros H [Hctx _] Hsup. change (_ && _) with (is_reference s) in H at 1.
  destruct (is_reference s) eqn:Eref.
  2:{ injection H as <- _. apply sound_constant; [reflexivity|cbn; now rewrite Eref|].
      intros [|fuel] env noe Hf; [lia|]. cbn [meaning]. now apply not_reference_meaning. }
  destruct (is_reference_cons s Eref) as (d2 & rest & ->).
  cbn [supported] in Hsup. rewrite Eref in Hsup. cbn [negb orb] in Hsup.
  rewrite !andb_true_iff in Hsup. destruct Hsup as [[Hnn Hlen] Hnow].
  assert (Hcs : cstr_ok ("$"%byte :: d2 :: rest)) by (split; [now apply Z.ltb_lt|now apply no_nulb_ok]).
  cbn [nth] in H. destruct ((blen ("$"%byte :: d2 :: rest) >? 2) && byte_eqb d2 "$") eqn:E2.
  - apply andb_true_iff in E2. destruct E2 as [E2 Ed]. apply byte_eqb_eq in Ed. subst d2.
    destruct rest as [|b rest]; [discriminate|]. unfold parse_variable in H.
    set (s := "$"%byte :: "$"%byte :: b :: rest) in *.
    pose proof (reference_view s t) as V. cbv zeta in V. unfold bind at 1 in H.
    match type of H with match ?x t with _ => _ end = _ => destruct (x t) as [[view t1]|] eqn:Ev; [|discriminate] end.
    destruct V as (-> & Hview & Hdot). symmetry in Hview.
    set (suffix := match StringViewFindSuffix s dot with Some x => x | None => [] end) in *.
    destruct (same_name view (str "$$NOW")) eqn:Enow.
    + assert (His : is_now s = true) by (unfold is_now; now rewrite Hview).
      rewrite His in Hnow. cbn [negb orb] in Hnow. apply Z.eqb_eq in Hnow.
      assert (Hsuf : suffix = []).
      { unfold variable_reference in Hview. destruct (memchr s dot) as [n|] eqn:En; [|now injection Hview as _ <-].
        injection Hview as <- Hsuf. specialize (Hdot n eq_refl). unfold same_name, StringViewEquals in Enow.
        apply andb_true_iff in Enow. destruct Enow as [El _]. apply Z.eqb_eq in El. change (blen (str "$$NOW")) with 5 in El.
        unfold blen in *. rewrite length_skipn in Hdot. rewrite length_firstn in El. lia. }
      destruct (nowValue context) eqn:En; try discriminate;
        (destruct Hctx as [Hctx|Hctx]; [discriminate|]);
        rewrite Hsuf in H; cbn [blen List.length Z.of_nat Z.eqb] in H; injection H as <- _; rewrite Hctx in *;
        (apply sound_constant;
         [generalize now_good; rewrite <- Hctx; intros Gn; exact Gn|cbn [dynamic]; rewrite His; apply andb_false_r|
          intros [|fuel] env noe Hf; [lia|]; cbn [meaning];
          unfold s; rewrite (variable_meaning env b rest noe view suffix Hview), Enow, Hsuf; reflexivity]).
    + destruct (system_variable_kind view) as [kind|] eqn:Ek.
      * destruct (is_redact_variable kind && negb (allowRedactVariables context)); [discriminate|].
        injection H as <- _. exact (sound_system b rest kind view suffix Hview Enow Ek).
      * unfold bind, lift in H. destruct (ValidateVariableNameCore _ true); [|discriminate]. injection H as <- _.
        exact (sound_variable b rest view suffix Hcs Hview Enow Ek Hdot).
  - destruct (negb (strlen _ =? _)%nat); [discriminate|]. injection H as <- _. apply sound_path.
    apply andb_false_iff in E2. destruct E2 as [E2|E2]; [left|now right].
    destruct rest; [reflexivity|]. unfold blen in E2. cbn [List.length] in E2. rewrite Z.gtb_ltb in E2. apply Z.ltb_ge in E2. lia.
Qed.
End Sound.
