(* ===== verification/AggHandlers.v ===== *)
(** * Aggregation expressions: the handlers of the operators

    When the arguments of an operator evaluate to what the reference semantics gives
    for them, so does the operator: the loops over the arguments, with their early
    exits, follow [operator_meaning]. *)

From Stdlib Require Import ZArith Lia Bool String List.
From Stdlib Require Import Strings.Byte.
From S2P Require Import Prelude SoftFloat BsonTypes StringView Decimal128 BsonCompare BsonArith Traversal BsonWriter DollarSets.
From S2P Require Import AggData AggOperators AggEval AggParse AggMeaning AggTyping AggOutcome.
Import ListNotations.
Local Open Scope Z_scope.

Section Handlers.
Context {BL : BidLib} {LB : LibBson} {LM : LibM} {LD : LibBsonDoc} {Laws : LibBsonDocLaws LD} {OtherArguments : Set}.
Variable handle_other : OtherArguments -> fields -> @ExpressionResult OtherArguments -> M (@ExpressionResult OtherArguments).
Variable multi : bool.
Variable root : fields.
Variable collation : option bytes.
(** The evaluators of some depth, in a context. *)
Variable k : nat.
Variable ctx : @ExpressionVariableContext OtherArguments.
Variable env : Env.
Hypothesis env_matches : env_ok handle_other multi root ctx env.
Variable recurse : Env -> bson_value -> res bson_value.

Abbreviation Data := (@AggregationExpressionData OtherArguments).
Abbreviation Result := (@ExpressionResult OtherArguments).
Abbreviation Outcome := (outcome multi).
Abbreviation self := (evaluator handle_other k).

(** An argument evaluates to what the reference gives, in the context of a child. *)
Definition argument_ok (a : bson_value) (e : Data) : Prop :=
  value_outcome handle_other multi root k e false (NoVariables :: ctx) (recurse env a).

Definition same {A} (v a : A) : Prop := a = v.

(** A child for an argument, and one that was used for another and reset. *)
Definition usable (c : Result) : Prop := fresh c /\ variableContext c = NoVariables :: ctx.

Definition used (v : bson_value) (c : Result) : Prop :=
  value c = v /\ exists c', ExpressionResultReset c = Ok c' /\ usable c'.

Lemma usable_child r : variableContext r = ctx -> usable (ExpressionResultCreateChild r).
Proof. intros H. split; [apply child_fresh|exact (f_equal (cons NoVariables) H)]. Qed.

Lemma child_outcome a e c t : argument_ok a e -> usable c ->
  Outcome (evaluate_child self root c e t) (recurse env a) used.
Proof.
  intros H [Hf Hc]. specialize (H c t Hf Hc). eapply outcome_weaken; [|exact H]. intros v c' _ Hd.
  assert (HN : variableFrame c = NoVariables) by now injection Hc.
  destruct (reset_fresh _ _ _ Hf Hd HN) as (c'' & E & Hf' & Hc').
  split; [|exists c''; repeat split; try apply Hf'; try exact E; congruence].
  destruct Hd as (_ & _ & _ & Hv). now rewrite (proj2 Hf) in Hv.
Qed.

(** ** Boolean operators *)

Lemma and_outcome args es : Forall2 argument_ok args es -> forall r t, variableContext r = ctx ->
  Outcome (boolean_loop self root r BooleanType_And es true t) (and_meaning recurse env args) same.
Proof.
  induction 1 as [|a e args es Ha H IH]; intros r t Hr; cbn [boolean_loop and_meaning]; [now apply outcome_pure|].
  eapply outcome_bind; [apply child_outcome with (1 := Ha), usable_child, Hr|]. intros c v t' [Hv _].
  cbn [ProcessBooleanOperator]. rewrite Hv. unfold bind, lift.
  destruct (BsonValueAsBool v) as [[|]|]; cbn [res_bind]; [now apply IH|now apply outcome_pure|now right].
Qed.

Lemma or_outcome args es : Forall2 argument_ok args es -> forall r t, variableContext r = ctx ->
  Outcome (boolean_loop self root r BooleanType_Or es false t) (or_meaning recurse env args) same.
Proof.
  induction 1 as [|a e args es Ha H IH]; intros r t Hr; cbn [boolean_loop or_meaning]; [now apply outcome_pure|].
  eapply outcome_bind; [apply child_outcome with (1 := Ha), usable_child, Hr|]. intros c v t' [Hv _].
  cbn [ProcessBooleanOperator]. rewrite Hv. unfold bind, lift.
  destruct (BsonValueAsBool v) as [[|]|]; cbn [res_bind negb]; [now apply outcome_pure|now apply IH|now right].
Qed.

(** The last step of a handler. *)
Lemma last_step {C} (x : M C) (f : C -> M Result) (m : res C) (g : C -> res bson_value) r t :
  ready r -> variableContext r = ctx -> Outcome (x t) m same ->
  (forall v t', (frame_ok multi (variableFrame r)) -> m = Ok v -> Outcome (f v t') (g v) (delivered r)) ->
  Outcome (bind x f t) (res_bind m g) (delivered r).
Proof.
  intros Hr Hc Hx Hf. eapply outcome_bind with (P := fun v a => m = Ok v /\ same v a).
  - eapply outcome_weaken; [|exact Hx]. auto.
  - intros a v t' [E ->]. apply Hf; [|exact E]. apply (env_ok_frame handle_other multi root) with (variableParent r) env.
    unfold variableContext in Hc. now rewrite Hc.
Qed.

Lemma handle_and args es : Forall2 argument_ok args es ->
  ready_outcome multi (HandlePreParsedDollarAnd self root es) ctx
    (res_bind (and_meaning recurse env args) (fun b => Ok (VBool b))).
Proof. intros H r t Hr Hc. apply last_step; auto; [now apply and_outcome|]. intros v t' Hf _. now apply set_value_outcome. Qed.

Lemma handle_or args es : Forall2 argument_ok args es ->
  ready_outcome multi (HandlePreParsedDollarOr self root es) ctx
    (res_bind (or_meaning recurse env args) (fun b => Ok (VBool b))).
Proof. intros H r t Hr Hc. apply last_step; auto; [now apply or_outcome|]. intros v t' Hf _. now apply set_value_outcome. Qed.

(** The value of one argument. *)
Lemma one_outcome a e r t : argument_ok a e -> variableContext r = ctx ->
  Outcome (bind (evaluate_child self root (ExpressionResultCreateChild r) e) (fun c => ret (value c)) t) (recurse env a) same.
Proof.
  intros Ha Hr. eapply outcome_then; [apply child_outcome with (1 := Ha), usable_child, Hr|].
  intros c v t' _ [Hv _]. now apply outcome_pure.
Qed.

Lemma two_outcome a b x y r t : argument_ok a x -> argument_ok b y -> variableContext r = ctx ->
  Outcome (evaluate_two self root r x y t)
    (res_bind (recurse env a) (fun v => res_bind (recurse env b) (fun w => Ok (v, w)))) same.
Proof.
  intros Ha Hb Hr. unfold evaluate_two.
  eapply outcome_bind; [apply child_outcome with (1 := Ha), usable_child, Hr|]. intros c v t' [Hv (c' & E & Hu)].
  unfold bind at 1, lift. rewrite E.
  eapply outcome_bind; [apply child_outcome with (1 := Hb), Hu|]. intros c2 w t2 [Hw _].
  apply outcome_pure. unfold same. congruence.
Qed.

(** The value of a function is set. *)
Lemma set_result f (r : Result) t : ready r -> frame_ok multi (variableFrame r) -> yields (fun v => plain v = true) f ->
  Outcome (bind (lift f) (ExpressionResultSetValue r) t) f (delivered r).
Proof.
  intros Hr Hf Hy. unfold bind, lift. destruct f as [v|e]; [now apply set_value_outcome|now right].
Qed.

Lemma ready_frame (r : Result) : variableContext r = ctx -> frame_ok multi (variableFrame r).
Proof.
  intros Hc. apply (env_ok_frame handle_other multi root) with (variableParent r) env.
  unfold variableContext in Hc. now rewrite Hc.
Qed.

Lemma handle_one a e f : argument_ok a e -> (forall v, yields (fun r => plain r = true) (f v)) ->
  ready_outcome multi (fun r => HandlePreParsedArithmeticOperatorOneOperand self root e r f) ctx
    (res_bind (recurse env a) f).
Proof.
  intros Ha Hf r t Hr Hc. eapply outcome_bind; [apply child_outcome with (1 := Ha), usable_child, Hc|].
  intros c v t' [<- _]. apply set_result; auto. now apply ready_frame.
Qed.

Lemma handle_not a e : argument_ok a e ->
  ready_outcome multi (HandlePreParsedDollarNot self root e) ctx
    (res_bind (recurse env a) (fun v => res_bind (BsonValueAsBool v) (fun b => Ok (VBool (negb b))))).
Proof.
  intros Ha r t Hr Hc. eapply outcome_bind; [apply child_outcome with (1 := Ha), usable_child, Hc|].
  intros c v t' [Hv _]. rewrite Hv. cbn [ProcessBooleanOperator]. unfold bind at 1, lift.
  destruct (BsonValueAsBool v) as [b|]; cbn [res_bind]; [|now right].
  apply set_value_outcome; auto. now apply ready_frame.
Qed.

Lemma two_bind {C} m n (g : bson_value -> bson_value -> res C) :
  res_bind m (fun v => res_bind n (fun w => g v w)) =
  res_bind (res_bind m (fun v => res_bind n (fun w : bson_value => Ok (v, w)))) (fun '(v, w) => g v w).
Proof. destruct m as [v|]; [|reflexivity]. now destruct n. Qed.

Lemma handle_two a b x y f : argument_ok a x -> argument_ok b y ->
  (forall v w, yields (fun r => plain r = true) (f v w)) ->
  ready_outcome multi (fun r => HandlePreParsedArithmeticOperatorTwoOperands self root x y r f) ctx
    (res_bind (recurse env a) (fun v => res_bind (recurse env b) (fun w => f v w))).
Proof.
  intros Ha Hb Hf r t Hr Hc. rewrite two_bind.
  eapply outcome_bind; [now apply two_outcome|]. intros c [v w] t' ->. apply set_result; auto. now apply ready_frame.
Qed.

Lemma compare_plain v w col c : yields (fun r => plain r = true) (CompareExpressionBsonValues v w col c).
Proof. unfold CompareExpressionBsonValues. apply yields_any; intros [cmp valid]. now destruct c. Qed.

Lemma handle_comparison a b x y col c : argument_ok a x -> argument_ok b y ->
  ready_outcome multi (fun r => HandlePreParsedComparisonOperator self root x y col r c) ctx
    (res_bind (recurse env a) (fun v => res_bind (recurse env b) (fun w => CompareExpressionBsonValues v w col c))).
Proof.
  intros Ha Hb r t Hr Hc. rewrite two_bind.
  eapply outcome_bind; [now apply two_outcome|]. intros p [v w] t' ->.
  apply set_result; auto using compare_plain. now apply ready_frame.
Qed.

(** ** Arithmetic operators with any number of operands *)

Lemma operands_outcome {State} process args es : Forall2 argument_ok args es -> forall r (s : State) v t, variableContext r = ctx ->
  Outcome (HandlePreParsedArithmeticVariableOperands self root es r process s v t) (accumulate recurse env process args s v) same.
Proof.
  induction 1 as [|a e args es Ha H IH]; intros r s v t Hr; cbn [HandlePreParsedArithmeticVariableOperands accumulate];
    [now apply outcome_pure|].
  eapply outcome_bind; [apply child_outcome with (1 := Ha), usable_child, Hr|]. intros c x t' [Hx _]. rewrite Hx.
  apply outcome_lift. intros [[s' v'] continue] _. destruct continue; [now apply IH|now apply outcome_pure].
Qed.

Lemma handle_add args es : Forall2 argument_ok args es ->
  ready_outcome multi (HandlePreParsedDollarAdd self root es) ctx (add_meaning recurse env args).
Proof.
  intros H r t Hr Hc. unfold HandlePreParsedDollarAdd, add_meaning.
  pose proof (accumulate_type recurse env _ args add_step (AddState false false) (VInt32 0) eq_refl) as T.
  apply last_step; auto; [now apply operands_outcome|]. intros [s v] t' Hf E. rewrite E in T. cbn in T.
  assert (G : Outcome (bind (lift (ProcessDollarAddAccumulatedResult s v)) (ExpressionResultSetValue r) t')
                (ProcessDollarAddAccumulatedResult s v) (delivered r)).
  { apply set_result; auto. eapply yields_weaken; [|apply add_final, T]. apply arithmetic_plain. }
  destruct v; try exact G. now apply set_value_outcome.
Qed.

Lemma handle_multiply args es : Forall2 argument_ok args es ->
  ready_outcome multi (HandlePreParsedDollarMultiply self root es) ctx
    (res_bind (accumulate recurse env multiply_operand args tt (VInt32 1)) (fun '(_, r) => Ok r)).
Proof.
  intros H r t Hr Hc. unfold HandlePreParsedDollarMultiply.
  pose proof (accumulate_type recurse env _ args multiply_step tt (VInt32 1) eq_refl) as T.
  apply last_step; auto; [now apply operands_outcome|]. intros [s v] t' Hf E. rewrite E in T. cbn in T.
  apply set_value_outcome; auto. now apply arithmetic_plain.
Qed.

(** ** Conditional operators *)

Definition keep_present (acc v : bson_value) : bson_value := if IsExpressionResultNullOrUndefined acc then v else acc.

Lemma keep_present_first vs : forall acc, fold_left keep_present vs acc =
  if IsExpressionResultNullOrUndefined acc then match vs with [] => acc | _ => first_present vs end else acc.
Proof.
  induction vs as [|v vs IH]; intros acc; cbn [fold_left]; [now destruct (IsExpressionResultNullOrUndefined acc)|].
  rewrite IH. unfold keep_present. destruct (IsExpressionResultNullOrUndefined acc) eqn:E; [|now rewrite E].
  cbn [first_present]. destruct vs; [now destruct (IsExpressionResultNullOrUndefined v)|reflexivity].
Qed.

Lemma if_null_outcome args es : Forall2 argument_ok args es -> forall r acc t, variableContext r = ctx ->
  Outcome (if_null_loop self root r es acc t)
    (res_bind (all_meanings recurse env args) (fun vs => Ok (fold_left keep_present vs acc))) same.
Proof.
  induction 1 as [|a e args es Ha H IH]; intros r acc t Hr; cbn [if_null_loop all_meanings]; [now apply outcome_pure|].
  replace (res_bind (res_bind (recurse env a) _) _) with (res_bind (recurse env a) (fun v =>
    res_bind (all_meanings recurse env args) (fun vs => Ok (fold_left keep_present vs (keep_present acc v)))))
    by (destruct (recurse env a); [|reflexivity]; now destruct (all_meanings recurse env args)).
  eapply outcome_bind; [apply child_outcome with (1 := Ha), usable_child, Hr|]. intros c x t' [Hx _]. rewrite Hx. now apply IH.
Qed.

Definition good_argument (a : bson_value) : Prop := good_res (recurse env a).

Lemma all_meanings_good args : Forall good_argument args ->
  yields (Forall (fun v => good v = true)) (all_meanings recurse env args).
Proof.
  induction 1 as [|a args Ha H IH]; cbn [all_meanings]; [constructor|].
  apply yields_bind with (1 := Ha). intros v Hv. apply yields_bind with (1 := IH). intros vs Hvs. now constructor.
Qed.

Lemma first_present_good vs : Forall (fun v => good v = true) vs -> good (first_present vs) = true.
Proof.
  induction 1 as [|v vs Hv H IH]; [reflexivity|]. cbn [first_present]. destruct vs; [exact Hv|].
  destruct (IsExpressionResultNullOrUndefined v); [exact IH|exact Hv].
Qed.

Lemma if_null_good args : Forall good_argument args ->
  good_res (res_bind (all_meanings recurse env args) (fun vs => Ok (first_present vs))).
Proof.
  intros H. pose proof (all_meanings_good args H) as G. destruct (all_meanings recurse env args); [|exact I].
  now apply first_present_good.
Qed.

Lemma handle_if_null args es : Forall2 argument_ok args es -> Forall good_argument args ->
  ready_outcome multi (HandlePreParsedDollarIfNull self root es) ctx
    (res_bind (all_meanings recurse env args) (fun vs => Ok (first_present vs))).
Proof.
  intros H Hg r t Hr Hc. unfold HandlePreParsedDollarIfNull.
  pose proof (if_null_good args Hg) as G.
  assert (E : forall A (f : bson_value -> res A), res_bind (res_bind (all_meanings recurse env args) (fun vs => Ok (first_present vs))) f =
    res_bind (res_bind (all_meanings recurse env args) (fun vs => Ok (fold_left keep_present vs VNull))) f).
  { intros. destruct (all_meanings recurse env args) as [vs|]; [|reflexivity]. cbn [res_bind]. rewrite keep_present_first. now destruct vs. }
  specialize (E _ Ok). replace (res_bind (res_bind _ _) Ok) with (res_bind (all_meanings recurse env args) (fun vs => Ok (first_present vs))) in E
    by now destruct (all_meanings recurse env args).
  rewrite E in *. apply last_step; auto; [now apply if_null_outcome|]. intros v t' Hf Ev. rewrite Ev in G.
  now apply set_unless_missing_outcome.
Qed.

Lemma cond_good i t e : good_argument t -> good_argument e -> good_res (cond_meaning recurse env i t e).
Proof.
  unfold good_argument, cond_meaning. intros Ht He.
  destruct (recurse env i); [|exact I]. destruct (recurse env t); [|exact I]. destruct (recurse env e); [|exact I].
  cbn [res_bind]. destruct (BsonValueAsBool a) as [[|]|]; cbn; auto.
Qed.

Lemma handle_cond i t e x y z : argument_ok i x -> argument_ok t y -> argument_ok e z -> good_argument t -> good_argument e ->
  ready_outcome multi (HandlePreParsedDollarCond self root x y z) ctx (cond_meaning recurse env i t e).
Proof.
  intros Hi Ht He Gt Ge r tb Hr Hc. unfold HandlePreParsedDollarCond, cond_meaning.
  eapply outcome_bind; [apply child_outcome with (1 := Hi), usable_child, Hc|]. intros c v t1 [Hv (c1 & E1 & U1)].
  unfold bind at 1, lift at 1. rewrite E1.
  eapply outcome_bind with (P := fun v c => good v = true /\ used v c).
  { eapply outcome_weaken; [|apply child_outcome with (1 := Ht), U1]. intros w c2 E Hu. split; [|exact Hu].
    unfold good_argument in Gt. now rewrite E in Gt. }
  intros c2 w t2 [Gw [Hw (c3 & E3 & U3)]]. unfold bind at 1, lift at 1. rewrite E3.
  eapply outcome_bind with (P := fun v c => good v = true /\ used v c).
  { eapply outcome_weaken; [|apply child_outcome with (1 := He), U3]. intros w' c4 E Hu. split; [|exact Hu].
    unfold good_argument in Ge. now rewrite E in Ge. }
  intros c4 w' t3 [Gw' [Hw' _]]. rewrite Hv, Hw, Hw'. apply outcome_lift. intros b _.
  apply set_unless_missing_outcome; auto; [now apply ready_frame|]. now destruct b.
Qed.

(** A [$switch] as a list of cases and results, the default with a case that holds. *)
Fixpoint pairs_meaning (pairs : list (bson_value * bson_value)) : res bson_value :=
  match pairs with
  | [] => Err ERRCODE_DOCUMENTDB_DOLLARSWITCHNOMATCHINGBRANCHANDNODEFAULT
  | (c, t) :: pairs =>
    res_bind (recurse env c) (fun v => res_bind (BsonValueAsBool v) (fun b =>
      if b : bool then recurse env t else pairs_meaning pairs))
  end.

Definition pair_ok (p : bson_value * bson_value) (e : Data * Data) : Prop :=
  argument_ok (fst p) (fst e) /\ argument_ok (snd p) (snd e).

Lemma pairs_good pairs : Forall (fun p => good_argument (snd p)) pairs -> good_res (pairs_meaning pairs).
Proof.
  induction 1 as [|[c t] pairs Ht H IH]; cbn [pairs_meaning]; [exact I|].
  apply yields_any; intro v. apply yields_any; intros [|]; [exact Ht|exact IH].
Qed.

Lemma switch_outcome pairs es : Forall2 pair_ok pairs es -> forall c t, usable c ->
  Outcome (bind (switch_loop self root c es) (fun found =>
      match found with
      | None => raise ERRCODE_DOCUMENTDB_DOLLARSWITCHNOMATCHINGBRANCHANDNODEFAULT
      | Some v => ret v
      end) t) (pairs_meaning pairs) same.
Proof.
  induction 1 as [|[a b] [x y] pairs es [Ha Hb] H IH]; intros c t Hc; cbn [switch_loop pairs_meaning fst snd] in *; [now right|].
  pose proof (child_outcome a x c t Ha Hc) as O. unfold bind at 1 2. unfold outcome in O at 1.
  destruct (evaluate_child self root c x t) as [[c1 t1]|e]; [|destruct O as [U|E]; [now left|right; now rewrite E]].
  destruct O as (v & E & Hv & c2 & E2 & U2). rewrite E. cbn [res_bind]. unfold bind at 1, lift at 1. rewrite E2, Hv.
  unfold bind at 1, lift at 1. destruct (BsonValueAsBool v) as [[|]|]; [| |now right].
  - cbn [res_bind]. pose proof (child_outcome b y c2 t1 Hb U2) as O. unfold bind.
    destruct (evaluate_child self root c2 y t1) as [[c3 t3]|e]; [|exact O].
    destruct O as (w & Ew & Hw & _). exists w. split; [exact Ew|exact Hw].
  - apply (IH c2 t1 U2).
Qed.

Lemma bind_assoc {A B C} (x : M A) (f : A -> M B) (g : B -> M C) t :
  bind (bind x f) g t = bind x (fun a => bind (f a) g) t.
Proof. unfold bind. destruct (x t) as [[a t']|]; reflexivity. Qed.

Lemma handle_switch pairs es : Forall2 pair_ok pairs es -> Forall (fun p => good_argument (snd p)) pairs ->
  ready_outcome multi (HandlePreParsedDollarSwitch self root es) ctx (pairs_meaning pairs).
Proof.
  intros H Hg r t Hr Hc. pose proof (pairs_good pairs Hg) as G.
  pose proof (switch_outcome pairs es H (ExpressionResultCreateChild r) t (usable_child r Hc)) as O.
  unfold HandlePreParsedDollarSwitch. unfold bind in *.
  destruct (switch_loop self root (ExpressionResultCreateChild r) es t) as [[[v|] t']|e]; [|exact O|exact O].
  destruct O as (w & E & ->). rewrite E in *. apply set_unless_missing_outcome; auto. now apply ready_frame.
Qed.

(** ** [$let] *)

Lemma handle_let body e frame env' : 
  value_outcome handle_other multi root k e false (frame :: ctx) (recurse env' body) -> good_res (recurse env' body) ->
  ready_outcome multi (HandlePreParsedDollarLet self root e frame) ctx (recurse env' body).
Proof.
  intros Hb Hg r t Hr Hc. unfold HandlePreParsedDollarLet.
  set (child := with_context ExpressionResultCreateWithTracker frame (variableContext r)).
  assert (Hf : fresh child) by now repeat split.
  eapply outcome_then; [apply (Hb child t Hf); unfold variableContext; cbn; now rewrite <- Hc|].
  intros c v t' E (_ & _ & Hw & Hv). rewrite (proj2 Hf) in Hv. rewrite Hv. rewrite E in Hg.
  apply set_unless_missing_outcome; auto. now apply ready_frame.
Qed.
End Handlers.
