(* ===== verification/AggTrees.v ===== *)
(** * Aggregation expressions: arrays and documents

    The values of the elements of an array and of the fields of a document are
    written one after the other; a missing element is null, a missing field is left
    out.  The tree that the parser builds for a document has one node for each field. *)

From Stdlib Require Import ZArith Lia Bool String List.
From Stdlib Require Import Strings.Byte.
From S2P Require Import Prelude SoftFloat BsonTypes StringView Decimal128 BsonCompare BsonArith Traversal BsonWriter DollarSets.
From S2P Require Import AggData AggOperators AggEval AggParse AggMeaning AggTyping AggOutcome AggHandlers.
Import ListNotations.
Local Open Scope Z_scope.

Section Trees.
Context {BL : BidLib} {LB : LibBson} {LM : LibM} {LD : LibBsonDoc} {Laws : LibBsonDocLaws LD} {OtherArguments : Set}.
Variable handle_other : OtherArguments -> fields -> @ExpressionResult OtherArguments -> M (@ExpressionResult OtherArguments).
Variable multi : bool.
Variable root : fields.
Variable now : bson_value.
Variable collation : option bytes.

Abbreviation Data := (@AggregationExpressionData OtherArguments).
Abbreviation Result := (@ExpressionResult OtherArguments).
Abbreviation Context_ := (@ExpressionVariableContext OtherArguments).
Abbreviation Node := (@BsonPathNode OtherArguments).
Abbreviation Outcome := (outcome multi).
Abbreviation ev := (evaluator handle_other).
Abbreviation env_ok := (AggOutcome.env_ok handle_other multi root).
Abbreviation gives := (AggOutcome.gives handle_other multi root).
Abbreviation sound := (AggOutcome.sound handle_other multi root now collation).
Abbreviation means := (meaning now collation root).

(** ** Arrays *)

(** An element: a constant, or an expression that is written to a document. *)
Definition element_ok (k : nat) (ctx : Context_) (m : res bson_value) (e : Data) : Prop :=
  good_res m /\
  match e with
  | ConstantExpr c => m = Ok c
  | _ => forall path w t, Outcome (evaluate_to_writer (ev k) e root path w ctx false t) m (fun v w' => w' = written w path v)
  end.

Fixpoint all_values (ms : list (res bson_value)) : res (list bson_value) :=
  match ms with
  | [] => Ok []
  | m :: ms => res_bind m (fun v => res_bind (all_values ms) (fun vs => Ok (v :: vs)))
  end.

Lemma all_meanings_values recurse env args : all_meanings recurse env args = all_values (map (recurse env) args).
Proof. induction args as [|a args IH]; [reflexivity|]. cbn. now rewrite IH. Qed.

Lemma write_element vs v : good v = true -> write_array_value (array_written vs) v = Ok (array_written (vs ++ [element_value v])).
Proof.
  intros H. unfold write_array_value.
  assert (W : forall v, plain v = true -> PgbsonArrayWriterWriteValue (array_written vs) v = Ok (array_written (vs ++ [v]))).
  { intros x Hx. pose proof (put_written (ArrayElementWriter (array_written vs)) x Hx) as P. cbn in P.
    unfold put in P. rewrite (plain_not_missing _ Hx) in P. destruct (PgbsonArrayWriterWriteValue _ x); [|discriminate].
    injection P as ->. now rewrite array_add_written. }
  destruct v; cbn [element_value]; try (apply W; exact H); apply (W VNull); reflexivity.
Qed.

Lemma written_value v : PgbsonElementWriterGetValue (PgbsonInitObjectElementWriter (written PgbsonWriterInit [] v) []) = v.
Proof. unfold written. now destruct v. Qed.

Lemma elements_outcome k ctx ms es : Forall2 (element_ok k ctx) ms es -> forall vs t,
  Outcome (AppendLeafArrayFieldChildrenToWriter (ev k) root ctx es (array_written vs) t) (all_values ms)
    (fun xs aw => aw = array_written (vs ++ map element_value xs)).
Proof.
  induction 1 as [|m e ms es [Hg He] H IH]; intros vs t; cbn [AppendLeafArrayFieldChildrenToWriter all_values].
  - apply outcome_pure. cbn. now rewrite app_nil_r.
  - eapply outcome_bind with (P := fun v a => good v = true /\ a = v).
    + eapply outcome_weaken with (P := fun v a => a = v); [intros v a -> ->; auto|].
      destruct e; try (eapply outcome_then; [apply He|]; intros a v t' _ ->; apply outcome_pure; apply written_value).
      rewrite He. now apply outcome_pure.
    + intros a v t' [Hv ->]. unfold bind at 1, lift. rewrite (write_element _ _ Hv).
      replace (res_bind (all_values ms) _) with (res_bind (all_values ms) (fun vs => Ok (v :: vs))) by reflexivity.
      specialize (IH (vs ++ [element_value v]) t'). unfold outcome in *.
      destruct (AppendLeafArrayFieldChildrenToWriter _ _ _ _ _ _) as [[aw t2]|e'].
      * destruct IH as (xs & -> & ->). exists (v :: xs). split; [reflexivity|]. now rewrite <- app_assoc.
      * destruct IH as [U|E]; [now left|right; now rewrite E].
Qed.

(** The elements of an array of sound expressions. *)
Lemma array_elements_ok fuel args es : Forall2 sound args es -> Forall (fun a => (vdepth a < fuel)%nat) args ->
  forall ctx env, env_ok ctx env ->
  Forall (fun a => good_res (means fuel env a false)) args /\
  eventually (fun k => Forall2 (element_ok k ctx) (map (fun a => means fuel env a false) args) es).
Proof.
  induction 1 as [|a e args es Ha H IH]; intros Hd ctx env He; [split; [constructor|apply eventually_true; constructor]|].
  inversion_clear Hd as [|? ? Hda Hds]. destruct (IH Hds ctx env He) as [IHg IHe].
  destruct (Ha fuel Hda) as [G C]. destruct (G ctx env false He) as (Gg & _ & Gw).
  split; [now constructor|].
  generalize (eventually_and _ _ IHe Gw). apply eventually_mono. intros k [Hk Hw]. cbn [map]. constructor; [|exact Hk].
  split; [exact Gg|]. destruct e; try exact Hw. now destruct (C _ eq_refl) as (_ & _ & ->).
Qed.

Lemma element_value_good v : good v = true -> plain (element_value v) = true.
Proof. now destruct v. Qed.

Lemma array_good xs : Forall (fun v => good v = true) xs -> plain (VArray (array_of (map element_value xs))) = true.
Proof.
  intros H. change (plain_doc (array_of (map element_value xs)) = true). unfold array_of. rewrite plain_indexed.
  induction H as [|v xs Hv H IH]; [reflexivity|]. cbn. now rewrite (element_value_good v Hv).
Qed.

Definition array_meaning (fuel : nat) (env : Env) (args : list bson_value) : res bson_value :=
  res_bind (all_meanings (fun env v => means fuel env v false) env args) (fun vs => Ok (VArray (array_of (map element_value vs)))).

Lemma array_meaning_good fuel env args : Forall (fun a => good_res (means fuel env a false)) args ->
  good_res (array_meaning fuel env args).
Proof.
  intros H. unfold array_meaning. apply yields_bind with (1 := all_meanings_good env _ args H).
  intros xs Hxs. apply good_plain, array_good, Hxs.
Qed.

Lemma env_context r ctx env : env_ok ctx env -> variableContext r = ctx -> frame_ok multi (variableFrame r).
Proof.
  intros He <-. exact (env_ok_frame handle_other multi root (variableFrame r) (variableParent r) env He).
Qed.

(** What is written to the writer of a result is its value. *)
Lemma from_writer_outcome r (x : Result -> M pgbson_element_writer) m ctx env t :
  ready r -> env_ok ctx env -> variableContext r = ctx -> good_res m ->
  (forall r1, variableContext r1 = ctx -> Outcome (x r1 t) m (fun v w => w = put (writer r1) v)) ->
  Outcome (bind (lift (ExpressionResultGetElementWriter r))
             (fun r => bind (x r) (fun w => ExpressionResultSetValueFromWriter (with_writer r w))) t) m (delivered r).
Proof.
  intros Hr He Hc Hg Hx. assert (Hf := env_context r ctx env He Hc).
  destruct (set_from_writer_outcome multi r VNull t Hr Hf eq_refl) as (r1 & E1 & C1 & _).
  unfold bind at 1, lift. rewrite E1. eapply outcome_then; [apply Hx; congruence|].
  intros w v t' Em ->. rewrite Em in Hg.
  destruct (set_from_writer_outcome multi r v t' Hr Hf Hg) as (r2 & E2 & _ & O). congruence.
Qed.

Lemma gives_array fuel args es : Forall2 sound args es -> Forall (fun a => (vdepth a < fuel)%nat) args ->
  gives (ArrayExpr es) (fun env _ => array_meaning fuel env args).
Proof.
  intros H Hd ctx env noe He. destruct (array_elements_ok fuel args es H Hd ctx env He) as [Hg Hk].
  pose proof (array_meaning_good fuel env args Hg) as G. split; [exact G|].
  assert (O : eventually (fun k => forall t,
    Outcome (AppendLeafArrayFieldChildrenToWriter (ev k) root ctx es (array_written []) t)
      (all_meanings (fun env v => means fuel env v false) env args) (fun xs aw => aw = array_written (map element_value xs)))).
  { revert Hk. apply eventually_mono. intros k Hk t. rewrite all_meanings_values. apply (elements_outcome k ctx _ es Hk []). }
  split; revert O; apply eventually_step; intros k O.
  - intros r t [Hr _] Hc. cbn [evaluator evaluate_data evaluate_data_step].
    pose proof (from_writer_outcome r (fun r => bind (AppendLeafArrayFieldChildrenToWriter (ev k) root (variableContext r) es
        (PgbsonElementWriterStartArray (writer r))) (fun aw => ret (PgbsonElementWriterEndArray (writer r) aw)))
      (array_meaning fuel env args) ctx env t Hr He Hc G) as F.
    assert (E : forall r1 : Result, variableContext r1 = ctx -> Outcome
      (bind (AppendLeafArrayFieldChildrenToWriter (ev k) root (variableContext r1) es (PgbsonElementWriterStartArray (writer r1)))
         (fun aw => ret (PgbsonElementWriterEndArray (writer r1) aw)) t)
      (array_meaning fuel env args) (fun v w => w = put (writer r1) v)).
    { intros r1 ->. rewrite start_array. unfold array_meaning. eapply outcome_bind; [apply O|].
      intros aw xs t' ->. apply outcome_pure. apply put_array. }
    specialize (F E). unfold bind in *. destruct (lift _ t) as [[r1 t1]|]; [|exact F].
    destruct (AppendLeafArrayFieldChildrenToWriter _ _ _ _ _ _) as [[aw t2]|]; exact F.
  - intros path w t. cbn [evaluator evaluate_to_writer evaluate_to_writer_step].
    unfold array_meaning. eapply outcome_bind; [apply (O t)|]. intros aw xs t' ->. apply outcome_pure. reflexivity.
Qed.

(** An expression that is folded to a constant. *)
Definition folds (v c : bson_value) : Prop :=
  plain c = true /\ dynamic v = false /\ forall fuel env noe, (vdepth v < fuel)%nat -> means fuel env v noe = Ok c.

Lemma sound_folds v c : sound v (ConstantExpr c) -> folds v c.
Proof.
  intros H. split; [|split].
  - now destruct (H (S (vdepth v)) (Nat.lt_succ_diag_r _)) as [_ C]; destruct (C c eq_refl).
  - now destruct (H (S (vdepth v)) (Nat.lt_succ_diag_r _)) as [_ C]; destruct (C c eq_refl) as (_ & D & _).
  - intros fuel env noe Hf. destruct (H fuel Hf) as [_ C]. now destruct (C c eq_refl) as (_ & _ & ->).
Qed.

Lemma folds_sound v c : folds v c -> sound v (ConstantExpr c).
Proof. intros (Hp & Hd & Hm). now apply sound_constant. Qed.

Lemma sound_constants args es : Forall2 sound args es -> AreElementsInListConstant es = true ->
  exists cs, es = map ConstantExpr cs /\ Forall2 folds args cs.
Proof.
  induction 1 as [|a e args es Ha H IH]; intros Hc; [now exists []|].
  cbn in Hc. apply andb_true_iff in Hc. destruct Hc as [He Hc]. destruct (IH Hc) as (cs & -> & Hcs).
  destruct e; try discriminate. exists (value :: cs). split; [reflexivity|]. constructor; [now apply sound_folds|exact Hcs].
Qed.

Lemma folds_meanings fuel env args cs : Forall2 folds args cs -> Forall (fun a => (vdepth a < fuel)%nat) args ->
  all_meanings (fun env v => means fuel env v false) env args = Ok cs.
Proof.
  induction 1 as [|a c args cs (_ & _ & Hm) H IH]; intros Hd; [reflexivity|]. inversion_clear Hd. cbn [all_meanings].
  rewrite Hm by assumption. cbn [res_bind]. now rewrite IH.
Qed.

Lemma folds_dynamic args cs : Forall2 folds args cs -> existsb dynamic args = false.
Proof. induction 1 as [|a c args cs (_ & Hd & _) H IH]; [reflexivity|]. cbn. now rewrite Hd. Qed.

Lemma folds_plain args cs : Forall2 folds args cs -> Forall (fun c => good c = true) cs.
Proof. induction 1 as [|a c args cs (Hp & _) H IH]; constructor; [now apply good_plain|exact IH]. Qed.

Lemma constant_elements self doc ctx cs : Forall (fun c => good c = true) cs -> forall vs t,
  AppendLeafArrayFieldChildrenToWriter (OtherArguments := OtherArguments) self doc ctx (map ConstantExpr cs) (array_written vs) t =
  Ok (array_written (vs ++ map element_value cs), t).
Proof.
  induction 1 as [|c cs Hc H IH]; intros vs t; cbn [map AppendLeafArrayFieldChildrenToWriter]; [now rewrite app_nil_r|].
  unfold bind, lift, ret. rewrite (write_element vs c Hc), IH. now rewrite <- app_assoc.
Qed.

(** The depths of the elements of an array and of the fields of a document. *)
Lemma vdepth_fields (d : fields) n : (fold_right (fun (kv : bytes * bson_value) n => Nat.max (vdepth (snd kv)) n) O d < n)%nat ->
  Forall (fun a => (vdepth a < n)%nat) (map snd d).
Proof.
  induction d as [|kv d IH]; cbn [fold_right map]; intros H; constructor; [lia|]. apply IH. lia.
Qed.

Lemma dynamic_values d : existsb (fun kv : bytes * bson_value => dynamic (snd kv)) d = existsb dynamic (map snd d).
Proof. induction d as [|kv d IH]; [reflexivity|]. cbn. now rewrite IH. Qed.

Lemma sound_array items es : Forall2 sound (map snd items) es -> sound (VArray items) (ArrayExpr es).
Proof.
  intros H fuel Hf. split; [|discriminate]. destruct fuel as [|fuel]; [lia|]. cbn [meaning].
  apply (gives_array fuel (map snd items) es H). apply vdepth_fields. cbn [vdepth] in Hf. lia.
Qed.

Lemma folds_array items cs : Forall2 folds (map snd items) cs -> folds (VArray items) (VArray (array_of (map element_value cs))).
Proof.
  intros H. split; [apply array_good, (folds_plain _ _ H)|]. split; [cbn [dynamic]; rewrite dynamic_values; exact (folds_dynamic _ _ H)|].
  intros [|fuel] env noe Hf; [lia|]. cbn [meaning].
  rewrite (folds_meanings fuel env _ cs H); [reflexivity|]. apply vdepth_fields. cbn [vdepth] in Hf. lia.
Qed.

(** ** Documents *)

(** A node writes the field of a document that it stands for. *)
Definition node_outcome (k : nat) (ctx : Context_) (noe : bool) (key : bytes) (m : res bson_value) (node : Node) : Prop :=
  forall w t, Outcome (write_node (ev k) root ctx noe node w t) m (fun v w' => w' = written w key v).

Definition node_gives (key : bytes) (node : Node) (F : Env -> bool -> res bson_value) : Prop :=
  forall ctx env noe, env_ok ctx env -> good_res (F env noe) /\ eventually (fun k => node_outcome k ctx noe key (F env noe) node).

Definition node_sound (kv : bytes * bson_value) (node : Node) : Prop :=
  node_field node = fst kv /\
  forall fuel, (vdepth (snd kv) < fuel)%nat -> node_gives (fst kv) node (fun env noe => means fuel env (snd kv) noe).

(** A constant node: it is written in any context. *)
Definition node_folds (kv : bytes * bson_value) (node : Node) : Prop :=
  exists c, folds (snd kv) c /\
  forall k doc ctx noe w t, write_node (ev (S k)) doc ctx noe node w t = Ok (written w (fst kv) c, t).

Lemma leaf_sound key v e : sound v e -> node_sound (key, v) (LeafField key e).
Proof.
  intros H. split; [reflexivity|]. intros fuel Hf. destruct (H fuel Hf) as [G _]. intros ctx env noe He.
  destruct (G ctx env noe He) as (Gg & _ & Gw). split; [exact Gg|].
  revert Gw. apply eventually_mono. intros k Gw w t. apply Gw.
Qed.

Lemma leaf_folds key v e : sound v e -> IsAggregationExpressionConstant e = true -> node_folds (key, v) (LeafField key e).
Proof.
  intros H Hc. destruct e; try discriminate. apply sound_folds in H. exists value. split; [exact H|].
  intros k doc ctx noe w t. cbn [write_node evaluator evaluate_to_writer evaluate_to_writer_step fst].
  destruct H as [Hp _].
  assert (E : bind (lift (PgbsonElementWriterWriteValue (PgbsonInitObjectElementWriter w key) value))
                (fun elementWriter => ret (object_writer elementWriter)) t = Ok (written w key value, t)).
  { unfold bind, lift. rewrite put_written by exact Hp. unfold PgbsonInitObjectElementWriter, ret. now rewrite object_put. }
  destruct value; try exact E. discriminate.
Qed.

Lemma write_intermediate self doc ctx noe field children w t :
  write_node (OtherArguments := OtherArguments) self doc ctx noe (IntermediateNode field true children) w t =
  bind (TraverseTreeAndWriteFieldsToWriter self doc ctx noe children (PgbsonWriterStartDocument w field))
    (fun childWriter => ret (PgbsonWriterEndDocument w field childWriter)) t.
Proof.
  cbn [write_node]. unfold bind at 1 3.
  match goal with |- match ?f _ _ _ with _ => _ end = _ =>
    assert (E : forall l w t, f l w t = TraverseTreeAndWriteFieldsToWriter self doc ctx noe l w t) end.
  { induction l as [|node l IH]; intros w' t'; [reflexivity|]. cbn [TraverseTreeAndWriteFieldsToWriter]. unfold bind.
    destruct (write_node self doc ctx noe node w' t') as [[w2 t2]|]; [apply IH|reflexivity]. }
  now rewrite E.
Qed.

Definition field_ok k ctx noe (recurse : bson_value -> res bson_value) (kv : bytes * bson_value) (node : Node) : Prop :=
  node_outcome k ctx noe (fst kv) (recurse (snd kv)) node.

Lemma fields_outcome k ctx noe recurse d nodes : Forall2 (field_ok k ctx noe recurse) d nodes -> forall w t,
  Outcome (TraverseTreeAndWriteFieldsToWriter (ev k) root ctx noe nodes w t) (fields_meaning recurse d) (fun fs w' => w' = w ++ fs).
Proof.
  induction 1 as [|[key v] node d nodes Hn H IH]; intros w t; cbn [TraverseTreeAndWriteFieldsToWriter fields_meaning].
  - apply outcome_pure. now rewrite app_nil_r.
  - eapply outcome_bind; [apply Hn|]. intros w1 x t1 ->. cbn [fst].
    specialize (IH (written w key x) t1). unfold outcome in *.
    destruct (TraverseTreeAndWriteFieldsToWriter _ _ _ _ _ _ _) as [[w2 t2]|e].
    + destruct IH as (fs & -> & ->). eexists. split; [reflexivity|]. unfold written.
      destruct (missing x); [reflexivity|]. now rewrite <- app_assoc.
    + destruct IH as [U|E]; [now left|right; now rewrite E].
Qed.

Lemma fields_good recurse d : Forall (fun v => good_res (recurse v)) (map snd d) ->
  yields (fun fs => plain_doc fs = true) (fields_meaning recurse d).
Proof.
  induction d as [|[key v] d IH]; intros H; [reflexivity|]. inversion_clear H as [|? ? Hv Hd]. cbn [fields_meaning].
  apply yields_bind with (1 := Hv). intros x Hx. apply yields_bind with (1 := IH Hd). intros fs Hfs. cbn [yields].
  unfold good in Hx. destruct (missing x); [exact Hfs|]. cbn [orb] in Hx. cbn. now rewrite Hx.
Qed.

Definition document_meaning (fuel : nat) (env : Env) (noe : bool) (d : fields) : res bson_value :=
  res_bind (fields_meaning (fun v => means fuel env v noe) d) (fun fs => Ok (VDocument fs)).

Lemma document_good fuel env noe d : Forall (fun v => good_res (means fuel env v noe)) (map snd d) ->
  good_res (document_meaning fuel env noe d).
Proof.
  intros H. unfold document_meaning. apply yields_bind with (1 := fields_good _ d H). intros fs Hfs. apply good_plain. exact Hfs.
Qed.

Lemma nodes_ok fuel d nodes : Forall2 node_sound d nodes -> Forall (fun a => (vdepth a < fuel)%nat) (map snd d) ->
  forall ctx env noe, env_ok ctx env ->
  Forall (fun v => good_res (means fuel env v noe)) (map snd d) /\
  eventually (fun k => Forall2 (field_ok k ctx noe (fun v => means fuel env v noe)) d nodes).
Proof.
  induction 1 as [|kv node d nodes [_ Hn] H IH]; intros Hd ctx env noe He; [split; [constructor|apply eventually_true; constructor]|].
  cbn [map] in *. inversion_clear Hd as [|? ? Hda Hds]. destruct (IH Hds ctx env noe He) as [IHg IHe].
  destruct (Hn fuel Hda ctx env noe He) as [G O]. split; [now constructor|].
  generalize (eventually_and _ _ IHe O). apply eventually_mono. intros k [Hk Ho]. now constructor.
Qed.

(** The document that the nodes of a tree write. *)
Lemma tree_outcome fuel d nodes : Forall2 node_sound d nodes -> Forall (fun a => (vdepth a < fuel)%nat) (map snd d) ->
  forall ctx env noe, env_ok ctx env ->
  good_res (document_meaning fuel env noe d) /\
  eventually (fun k => forall t,
    Outcome (TraverseTreeAndWriteFieldsToWriter (ev k) root ctx noe nodes PgbsonWriterInit t)
      (document_meaning fuel env noe d) (fun v w => v = VDocument w)).
Proof.
  intros H Hd ctx env noe He. destruct (nodes_ok fuel d nodes H Hd ctx env noe He) as [Hg Hk].
  split; [now apply document_good|]. revert Hk. apply eventually_mono. intros k Hk t.
  pose proof (fields_outcome k ctx noe _ d nodes Hk PgbsonWriterInit t) as O. unfold document_meaning, outcome in *.
  destruct (TraverseTreeAndWriteFieldsToWriter _ _ _ _ _ _ _) as [[w t1]|e].
  - destruct O as (fs & -> & ->). eexists. split; reflexivity.
  - destruct O as [U|E]; [now left|right; now rewrite E].
Qed.

Definition not_operator (d : fields) : Prop := is_operator_value (VDocument d) = false.

Lemma document_meaning_eq fuel env noe d : not_operator d -> means (S fuel) env (VDocument d) noe = document_meaning fuel env noe d.
Proof. intros H. cbn [meaning]. unfold not_operator in H. now rewrite H. Qed.

Lemma intermediate_sound key d nodes : not_operator d -> Forall2 node_sound d nodes ->
  node_sound (key, VDocument d) (IntermediateNode key true nodes).
Proof.
  intros Hop H. split; [reflexivity|]. intros [|fuel] Hf; cbn [snd fst] in *; [lia|]. intros ctx env noe He.
  rewrite (document_meaning_eq fuel env noe d Hop).
  assert (Hd : Forall (fun a => (vdepth a < fuel)%nat) (map snd d)) by (apply vdepth_fields; cbn [vdepth] in Hf; lia).
  destruct (tree_outcome fuel d nodes H Hd ctx env noe He) as [G O]. split; [exact G|].
  revert O. apply eventually_mono. intros k O w t. rewrite write_intermediate.
  eapply outcome_then; [apply O|]. intros w1 v t1 _ ->. now apply outcome_pure.
Qed.

Lemma put_document w d : PgbsonElementWriterEndDocument w d = put w (VDocument d).
Proof. now destruct w. Qed.

Lemma start_document w : PgbsonElementWriterStartDocument w = PgbsonWriterInit.
Proof. now destruct w. Qed.

Lemma sound_document d nodes : not_operator d -> Forall2 node_sound d nodes -> sound (VDocument d) (DocumentExpr nodes).
Proof.
  intros Hop H [|fuel] Hf; [lia|]. split; [|discriminate]. intros ctx env noe He.
  rewrite (document_meaning_eq fuel env noe d Hop).
  assert (Hd : Forall (fun a => (vdepth a < fuel)%nat) (map snd d)) by (apply vdepth_fields; cbn [vdepth] in Hf; lia).
  destruct (tree_outcome fuel d nodes H Hd ctx env noe He) as [G O]. split; [exact G|].
  assert (W : eventually (fun k => forall w t,
    Outcome (EvaluateAggregationExpressionDocumentToWriter (ev k) root ctx noe nodes w t)
      (document_meaning fuel env noe d) (fun v w' => w' = put w v))).
  { revert O. apply eventually_mono. intros k O w t. unfold EvaluateAggregationExpressionDocumentToWriter. rewrite start_document.
    eapply outcome_then; [apply O|]. intros w1 v t1 _ ->. apply outcome_pure. apply put_document. }
  split; revert W; apply eventually_step; intros k W.
  - intros r t [Hr _] Hc. cbn [evaluator evaluate_data evaluate_data_step].
    apply (from_writer_outcome r (fun r => EvaluateAggregationExpressionDocumentToWriter (ev k) root (variableContext r) noe nodes (writer r))
             _ ctx env t Hr He Hc G). intros r1 ->. apply W.
  - intros path w t. cbn [evaluator evaluate_to_writer evaluate_to_writer_step].
    eapply outcome_then; [apply W|]. intros w1 v t1 _ ->. apply outcome_pure. unfold PgbsonInitObjectElementWriter. apply object_put.
Qed.

(** The document of constant nodes. *)
Lemma constant_nodes d nodes : Forall2 node_folds d nodes ->
  exists fs, (forall k doc ctx noe w t,
      TraverseTreeAndWriteFieldsToWriter (ev (S k)) doc ctx noe nodes w t = Ok (w ++ fs, t)) /\
    plain_doc fs = true /\ existsb dynamic (map snd d) = false /\
    forall fuel env noe, Forall (fun a => (vdepth a < fuel)%nat) (map snd d) ->
      fields_meaning (fun v => means fuel env v noe) d = Ok fs.
Proof.
  induction 1 as [|[key v] node d nodes (c & (Hp & Hd & Hm) & Hw) H (fs & IHw & IHp & IHd & IHm)].
  - exists []. repeat split. intros. cbn. now rewrite app_nil_r.
  - exists ((key, c) :: fs). cbn [snd fst] in *. split; [|split; [|split]].
    + intros k doc ctx noe w t. cbn [TraverseTreeAndWriteFieldsToWriter]. unfold bind. rewrite Hw, IHw. unfold written.
      rewrite (plain_not_missing c Hp). now rewrite <- app_assoc.
    + cbn. now rewrite Hp.
    + cbn. now rewrite Hd.
    + intros fuel env noe HF. cbn [map snd] in HF. inversion_clear HF. cbn [fields_meaning]. rewrite Hm by assumption.
      cbn [res_bind]. rewrite IHm by assumption. cbn [res_bind]. now rewrite (plain_not_missing c Hp).
Qed.

Lemma folds_document d nodes : not_operator d -> Forall2 node_folds d nodes ->
  exists fs, folds (VDocument d) (VDocument fs) /\
    forall k doc ctx noe w t, TraverseTreeAndWriteFieldsToWriter (ev (S k)) doc ctx noe nodes w t = Ok (w ++ fs, t).
Proof.
  intros Hop H. destruct (constant_nodes d nodes H) as (fs & Hw & Hp & Hd & Hm). exists fs. split; [|exact Hw].
  split; [exact Hp|]. split.
  - unfold not_operator, is_operator_value in Hop. cbn [dynamic]. destruct d as [|[name a] d]; [reflexivity|].
    rewrite Hop, dynamic_values. exact Hd.
  - intros [|fuel] env noe Hf; [lia|]. rewrite document_meaning_eq by exact Hop. unfold document_meaning.
    rewrite Hm; [reflexivity|]. apply vdepth_fields. cbn [vdepth] in Hf. lia.
Qed.

Lemma intermediate_folds key d nodes : not_operator d -> Forall2 node_folds d nodes ->
  node_folds (key, VDocument d) (IntermediateNode key true nodes).
Proof.
  intros Hop H. destruct (folds_document d nodes Hop H) as (fs & Hf & Hw). exists (VDocument fs). split; [exact Hf|].
  intros k doc ctx noe w t. rewrite write_intermediate. unfold bind. now rewrite Hw.
Qed.

(** ** The tree of a document *)

Lemma update_child_new field (tree : list Node) f t :
  Forall (fun node => same_name (node_field node) field = false) tree ->
  update_child field tree f t =
  match f None t with Ok ((node, b), t') => Ok ((tree ++ [node], b), t') | Err e => Err e end.
Proof.
  induction 1 as [|node tree Hn H IH]; cbn [update_child]; unfold bind.
  - now destruct (f None t) as [[[node b] t']|].
  - rewrite Hn, IH. now destruct (f None t) as [[[node' b] t']|].
Qed.

Lemma split_dots_plain k : existsb (byte_eqb dot) k = false -> split_dots k = [k].
Proof.
  induction k as [|b k IH]; [reflexivity|]. cbn [existsb split_dots]. rewrite orb_false_iff. intros [Hb Hk].
  replace (byte_eqb b dot) with (byte_eqb dot b).
  - now rewrite Hb, IH.
  - apply eq_true_iff_eq. rewrite !byte_eqb_eq. split; congruence.
Qed.

Lemma plain_key_split k : plain_key k = true -> split_dots k = [k] /\ no_nul k.
Proof.
  unfold plain_key. rewrite !andb_true_iff, !negb_true_iff. intros [[[Hn _] Hd] _].
  split; [now apply split_dots_plain|now apply no_nulb_ok].
Qed.

Section Build.
Variable parse : bson_value -> ParseContext -> M Data.
Hypothesis parse_sound : forall v context t e t', parse v context t = Ok (e, t') ->
  context_ok now collation context -> supported multi v = true -> sound v e.

Lemma leaf_node v context field existing t node b t' :
  ValidateAndSetLeafNodeData parse v context field existing t = Ok ((node, b), t') ->
  context_ok now collation context -> supported multi v = true ->
  node_sound (field, v) node /\ (b = false -> node_folds (field, v) node).
Proof.
  intros E Hc Hs. unfold ValidateAndSetLeafNodeData in E.
  assert (G : bind (parse v context) (fun data => ret (LeafField field data, negb (IsAggregationExpressionConstant data))) t = Ok ((node, b), t')).
  { destruct existing as [[]|]; [exact E|discriminate|exact E]. }
  unfold bind in G. destruct (parse v context t) as [[e t1]|] eqn:Ep; [|discriminate]. injection G as <- <- <-.
  apply parse_sound in Ep; auto. split; [now apply leaf_sound|]. intros Hb. apply leaf_folds; [exact Ep|now apply negb_false_iff].
Qed.

(** What is asked of the fields of a document. *)
Definition fields_supported (d : fields) : Prop :=
  nodup_keys d = true /\ Forall (fun kv => plain_key (fst kv) = true /\ supported multi (snd kv) = true) d.

Definition unused (tree : list Node) (kv : bytes * bson_value) : Prop :=
  Forall (fun node => same_name (node_field node) (fst kv) = false) tree.

Definition built (d : fields) (tree tree' : list Node) (has flag : bool) : Prop :=
  exists nodes, tree' = tree ++ nodes /\ Forall2 node_sound d nodes /\
    (flag = false -> has = false /\ Forall2 node_folds d nodes).

Lemma unused_later k v d (tree : list Node) node : no_nul k -> node_field node = k ->
  nodup_keys ((k, v) :: d) = true -> Forall (unused tree) d -> Forall (unused (tree ++ [node])) d.
Proof.
  intros Hk Hn Hd H. cbn in Hd. apply andb_true_iff in Hd. destruct Hd as [Hd _]. apply negb_true_iff in Hd.
  induction H as [|kv d Hkv H IH]; [constructor|]. cbn [existsb] in Hd. apply orb_false_iff in Hd. destruct Hd as [H1 H2].
  constructor; [|now apply IH]. apply Forall_app. split; [exact Hkv|]. constructor; [|constructor].
  rewrite Hn, same_name_iff by exact Hk. exact H1.
Qed.

Lemma supported_document d : supported multi (VDocument d) = true -> not_operator d -> fields_supported d.
Proof.
  unfold not_operator, is_operator_value. cbn [supported]. rewrite andb_true_iff. intros [Hn H] Hop. split; [exact Hn|].
  destruct d as [|[name a] d]; [constructor|]. rewrite Hop in H. apply andb_true_iff in H. destruct H as [H1 H2].
  rewrite forallb_forall in H1, H2. apply Forall_forall. intros kv Hin. split; [now apply H1|now apply H2].
Qed.

Lemma build_tree fuel : forall d tree has context t tree' flag t',
  BuildBsonPathTreeCore parse fuel d tree has context t = Ok ((tree', flag), t') ->
  context_ok now collation context -> fields_supported d -> Forall (unused tree) d -> built d tree tree' has flag.
Proof.
  induction fuel as [|fuel IHf]; intros d tree has context t tree' flag t' E Hc; [discriminate|]. cbn [BuildBsonPathTreeCore] in E.
  revert tree has t E. induction d as [|[k v] d IHd]; intros tree has t E [Hn Hs] Hu.
  - injection E as <- <- <-. exists []. rewrite app_nil_r. repeat split; [constructor|assumption|constructor].
  - inversion_clear Hs as [|? ? [Hk Hv] Hds]. inversion_clear Hu as [|? ? Huk Hud]. cbn [fst snd] in *.
    destruct (plain_key_split k Hk) as [Hsplit Hnul]. rewrite Hsplit in E. cbn [TraverseDottedPathAndGetNode] in E.
    unfold bind at 1, lift in E. destruct (EnsureValidFieldPathString k); [|discriminate].
    unfold bind at 1 in E. rewrite update_child_new in E by exact Huk.
    match type of E with match match ?x with _ => _ end with _ => _ end = _ =>
      destruct x as [[[node b] t1]|] eqn:En; [|discriminate] end.
    assert (Hnode : node_sound (k, v) node /\ (b = false -> node_folds (k, v) node)).
    { destruct (is_operator_value v) eqn:Hop; destruct v; try (now apply leaf_node with (1 := En)).
      unfold bind in En. destruct (BuildBsonPathTreeCore parse fuel d0 [] false context t) as [[[children b'] t2]|] eqn:Eb; [|discriminate].
      injection En as <- <- <-. apply IHf in Eb; auto; [|now apply supported_document|apply Forall_forall; constructor].
      destruct Eb as (nodes & -> & Hns & Hnf). cbn [app]. split; [now apply intermediate_sound|].
      intros Hb. apply intermediate_folds; [exact Hop|]. now apply Hnf. }
    destruct Hnode as [Hnode Hfold]. assert (Hfield : node_field node = k) by apply Hnode.
    apply IHd in E; [|split; [|exact Hds]|].
    + destruct E as (nodes & -> & Hns & Hnf). exists (node :: nodes). rewrite <- app_assoc. split; [reflexivity|].
      split; [now constructor|]. intros Hf. destruct (Hnf Hf) as [Hhb Hff]. apply orb_false_iff in Hhb. destruct Hhb as [-> Hb].
      split; [reflexivity|]. constructor; auto.
    + cbn in Hn. now apply andb_true_iff in Hn.
    + now apply unused_later with (k := k) (v := v).
Qed.
End Build.
End Trees.
