(* ===== verification/AggSound.v ===== *)
(** * Aggregation expressions: parsing and evaluation implement the reference semantics

    For every operator, what its parser returns evaluates to [operator_meaning]; with
    the lemmas on strings, arrays and documents the parser as a whole is sound, by
    induction on its depth.  The theorem for [bson_expression_get] follows. *)

From Stdlib Require Import ZArith Lia Bool String List.
From Stdlib Require Import Strings.Byte.
From S2P Require Import Prelude SoftFloat BsonTypes StringView Decimal128 BsonCompare BsonArith Traversal PgbsonElement BsonWriter DollarSets.
From S2P Require Import AggData AggOperators AggEval AggParse AggGet AggTable AggMeaning AggTyping AggOutcome AggHandlers AggTrees.
Import ListNotations.
Local Open Scope Z_scope.

(** Whether an operator with this argument depends on the document. *)
Definition dynamic_argument (h : HandlePreParsedOperatorFunc) (argument : bson_value) : bool :=
  match h with
  | DollarLet =>
    match argument with
    | VDocument a => existsb (fun kv => is_name (fst kv) "in" && dynamic (snd kv)) a
    | _ => false
    end
  | _ => dynamic argument
  end.

Section Sound.
Context {BL : BidLib} {LB : LibBson} {LM : LibM} {LD : LibBsonDoc} {Laws : LibBsonDocLaws LD} {OtherArguments : Set}.
Variable EnableCollation : bool.
Variable null_string : bson_value.
Variable handle_other : OtherArguments -> fields -> @ExpressionResult OtherArguments -> M (@ExpressionResult OtherArguments).
Variable parse_other : bytes -> bson_value -> ParseContext -> M (bson_value + OtherArguments).
Variable multi : bool.
Variable root : fields.
Hypothesis root_plain : plain_doc root = true.
Variable now : bson_value.
Hypothesis now_good : good now = true.
Variable collation : option bytes.
Hypothesis collation_used : (if IsCollationApplicable EnableCollation collation then collation else None) = collation.

Abbreviation Data := (@AggregationExpressionData OtherArguments).
Abbreviation Result := (@ExpressionResult OtherArguments).
Abbreviation ev := (evaluator handle_other).
Abbreviation env_ok := (AggOutcome.env_ok handle_other multi root).
Abbreviation gives := (AggOutcome.gives handle_other multi root).
Abbreviation sound := (AggOutcome.sound handle_other multi root now collation).
Abbreviation folds := (AggTrees.folds root now collation).
Abbreviation means := (meaning now collation root).
Abbreviation value_of fuel := (fun env v => means fuel env v false).
Abbreviation handles k h arguments :=
  (fun r => handleExpressionFunc handle_other (ev k) h arguments root r).

(** ** Arguments *)

Lemma operands_supported argument : supported multi argument = true ->
  Forall (fun a => supported multi a = true) (operands argument).
Proof.
  intros H. destruct argument; try (constructor; [exact H|constructor]). cbn in *. rewrite forallb_forall in H.
  apply Forall_forall. intros a Ha. apply in_map_iff in Ha. destruct Ha as (kv & <- & Hin). now apply H.
Qed.

Lemma operands_depth argument fuel : (vdepth argument < fuel)%nat -> Forall (fun a => (vdepth a < fuel)%nat) (operands argument).
Proof.
  intros H. destruct argument; try (constructor; [exact H|constructor]). apply vdepth_fields. cbn [vdepth] in H. lia.
Qed.

Lemma operands_dynamic argument : existsb dynamic (operands argument) = dynamic argument.
Proof. destruct argument; try (cbn [operands existsb]; apply orb_false_r). cbn [operands dynamic]. now rewrite dynamic_values. Qed.

(** The arguments of an operator, in a context. *)
Lemma arguments_ok fuel args es : Forall2 sound args es -> Forall (fun a => (vdepth a < fuel)%nat) args ->
  forall ctx env, env_ok ctx env ->
  Forall (good_argument env (value_of fuel)) args /\
  eventually (fun k => Forall2 (argument_ok handle_other multi root k ctx env (value_of fuel)) args es).
Proof.
  induction 1 as [|a e args es Ha H IH]; intros Hd ctx env He; [split; [constructor|apply eventually_true; constructor]|].
  inversion_clear Hd as [|? ? Hda Hds]. destruct (IH Hds ctx env He) as [IHg IHe].
  destruct (Ha fuel Hda) as [G _]. destruct (G (NoVariables :: ctx) env false He) as (Gg & Gv & _). split; [now constructor|].
  generalize (eventually_and _ _ IHe Gv). apply eventually_mono. intros k [Hk Hv]. now constructor.
Qed.

(** An operator whose handler follows a meaning. *)
Lemma gives_operator h arguments F :
  (forall ctx env, env_ok ctx env ->
     good_res (F env) /\ eventually (fun k => ready_outcome multi (handles k h arguments) ctx (F env))) ->
  gives (OperatorExpr h arguments) (fun env _ => F env).
Proof.
  intros H. apply gives_direct with (G := fun self r _ => handleExpressionFunc handle_other self h arguments root r);
    [reflexivity|reflexivity|]. intros ctx env _ He. now apply H.
Qed.

(** What the parser of an operator returns is sound. *)
Definition operator_sound (h : HandlePreParsedOperatorFunc) (argument : bson_value) (parsed : @Parsed OtherArguments) : Prop :=
  forall fuel, (vdepth argument < fuel)%nat ->
  match parsed with
  | Folded c => plain c = true /\ dynamic_argument h argument = false /\
                forall env, operator_meaning collation (value_of fuel) env h argument = Ok c
  | Operands arguments =>
    gives (OperatorExpr h arguments) (fun env _ => operator_meaning collation (value_of fuel) env h argument)
  end.

Section Step.
Variable parse : bson_value -> ParseContext -> M Data.
Hypothesis parse_sound : forall v context t e t', parse v context t = Ok (e, t') ->
  context_ok now collation context -> supported multi v = true -> sound v e.

Lemma parse_list_sound items context : forall t es t', parse_list parse items context t = Ok (es, t') ->
  context_ok now collation context -> Forall (fun a => supported multi a = true) (map snd items) ->
  Forall2 sound (map snd items) es.
Proof.
  induction items as [|[k a] items IH]; intros t es t' E Hc Hs; cbn [parse_list] in E; [injection E as <- _; constructor|].
  cbn [map snd] in *. inversion_clear Hs. unfold bind at 1 in E. destruct (parse a context t) as [[e t1]|] eqn:Ea; [|discriminate].
  unfold bind at 1 in E. destruct (parse_list parse items context t1) as [[es' t2]|] eqn:El; [|discriminate].
  injection E as <- _. constructor; eauto.
Qed.

Lemma parse_variable_arguments argument context t es b t' :
  ParseVariableArgumentsForExpression parse argument context t = Ok ((es, b), t') ->
  context_ok now collation context -> supported multi argument = true ->
  Forall2 sound (operands argument) es /\ b = AreElementsInListConstant es.
Proof.
  intros E Hc Hs. apply operands_supported in Hs. unfold ParseVariableArgumentsForExpression in E. unfold bind at 1 in E.
  assert (G : forall a, operands argument = [a] ->
    match bind (parse a context) (fun d => ret [d]) t with Ok (l, t1) => ret (l, AreElementsInListConstant l) t1 | Err e => Err e end
    = Ok ((es, b), t') -> Forall2 sound (operands argument) es /\ b = AreElementsInListConstant es).
  { intros a Ha E'. rewrite Ha in *. inversion_clear Hs. unfold bind in E'.
    destruct (parse a context t) as [[e t1]|] eqn:Ea; [|discriminate]. injection E' as <- <- _. split; [|reflexivity].
    constructor; [eauto|constructor]. }
  destruct argument; try (eapply G; [reflexivity|exact E]). clear G.
  destruct (parse_list parse d context t) as [[l t1]|] eqn:El; [|discriminate]. injection E as <- <- _.
  split; [|reflexivity]. now apply parse_list_sound with (1 := El).
Qed.

Lemma parse_one_argument argument context t arguments t' :
  ParseFixedArgumentsForExpression parse argument 1 context t = Ok (arguments, t') ->
  context_ok now collation context -> supported multi argument = true ->
  exists a e, operands argument = [a] /\ arguments = ArgumentsPalloc e /\ sound a e.
Proof.
  intros E Hc Hs. apply operands_supported in Hs. unfold ParseFixedArgumentsForExpression in E.
  assert (G : forall a, operands argument = [a] ->
    bind (parse a context) (fun d => ret (ArgumentsPalloc d)) t = Ok (arguments, t') ->
    exists a e, operands argument = [a] /\ arguments = ArgumentsPalloc e /\ sound a e).
  { intros a Ha E'. rewrite Ha in *. inversion_clear Hs. unfold bind in E'.
    destruct (parse a context t) as [[e t1]|] eqn:Ea; [|discriminate]. injection E' as <- _. exists a, e. eauto. }
  destruct argument; try (eapply G; [reflexivity|exact E]).
  destruct d as [|[k a] [|kv d]]; try discriminate. eapply G; [reflexivity|exact E].
Qed.

Lemma parse_several_arguments argument n context t arguments t' : (2 <= n)%nat ->
  ParseFixedArgumentsForExpression parse argument n context t = Ok (arguments, t') ->
  context_ok now collation context -> supported multi argument = true ->
  exists es, arguments = ArgumentsList es /\ List.length es = n /\ Forall2 sound (operands argument) es.
Proof.
  intros Hn E Hc Hs. apply operands_supported in Hs. unfold ParseFixedArgumentsForExpression in E.
  assert (Hn' : (1 <? n)%nat = true) by now apply Nat.ltb_lt.
  destruct argument; try (rewrite Hn' in E; discriminate). destruct (List.length d =? n)%nat eqn:El; [|discriminate].
  cbn [negb] in E. apply Nat.eqb_eq in El. destruct d as [|[k a] [|kv d]]; cbn [List.length] in El; [lia|lia|].
  unfold bind in E. destruct (parse_list parse _ context t) as [[es t1]|] eqn:Ep; [|discriminate]. injection E as <- _.
  exists es. apply parse_list_sound in Ep; auto. split; [reflexivity|]. split; [|exact Ep].
  apply Forall2_length in Ep. rewrite length_map in Ep. rewrite <- Ep. exact El.
Qed.

(** ** Boolean operators *)

Lemma fold_and fuel env args cs : Forall2 folds args cs -> Forall (fun a => (vdepth a < fuel)%nat) args ->
  fold_boolean (OtherArguments := OtherArguments) BooleanType_And (map ConstantExpr cs) true = and_meaning (value_of fuel) env args.
Proof.
  induction 1 as [|a c args cs (_ & _ & Hm) H IH]; intros Hd; [reflexivity|]. inversion_clear Hd.
  cbn [map fold_boolean and_meaning constant_value ProcessBooleanOperator]. rewrite Hm by assumption. cbn [res_bind].
  destruct (BsonValueAsBool c) as [[|]|]; cbn [res_bind]; auto.
Qed.

Lemma fold_or fuel env args cs : Forall2 folds args cs -> Forall (fun a => (vdepth a < fuel)%nat) args ->
  fold_boolean (OtherArguments := OtherArguments) BooleanType_Or (map ConstantExpr cs) false = or_meaning (value_of fuel) env args.
Proof.
  induction 1 as [|a c args cs (_ & _ & Hm) H IH]; intros Hd; [reflexivity|]. inversion_clear Hd.
  cbn [map fold_boolean or_meaning constant_value ProcessBooleanOperator]. rewrite Hm by assumption. cbn [res_bind].
  destruct (BsonValueAsBool c) as [[|]|]; cbn [res_bind negb]; auto.
Qed.

Lemma folds_argument argument cs : Forall2 folds (operands argument) cs -> dynamic argument = false.
Proof. intros H. rewrite <- operands_dynamic. now apply folds_dynamic with (1 := H). Qed.

(** The arguments are all constants, or the operator is left to its handler. *)
Lemma variable_cases argument context t es b t' :
  ParseVariableArgumentsForExpression parse argument context t = Ok ((es, b), t') ->
  context_ok now collation context -> supported multi argument = true ->
  (b = true /\ exists cs, es = map ConstantExpr cs /\ Forall2 folds (operands argument) cs /\ dynamic argument = false) \/
  (b = false /\ Forall2 sound (operands argument) es).
Proof.
  intros E Hc Hs. destruct (parse_variable_arguments _ _ _ _ _ _ E Hc Hs) as [Hes ->].
  destruct (AreElementsInListConstant es) eqn:Ec; [left|now right]. split; [reflexivity|].
  destruct (sound_constants _ _ _ _ _ _ _ Hes Ec) as (cs & -> & Hcs). exists cs. split; [reflexivity|].
  split; [exact Hcs|now apply folds_argument with cs].
Qed.

Lemma handled_sound h argument arguments es : Forall2 sound (operands argument) es ->
  (forall fuel env, Forall (good_argument env (value_of fuel)) (operands argument) ->
     good_res (operator_meaning collation (value_of fuel) env h argument)) ->
  (forall fuel k ctx env, env_ok ctx env -> Forall (good_argument env (value_of fuel)) (operands argument) ->
     Forall2 (argument_ok handle_other multi root k ctx env (value_of fuel)) (operands argument) es ->
     ready_outcome multi (handles k h arguments) ctx (operator_meaning collation (value_of fuel) env h argument)) ->
  operator_sound h argument (Operands arguments).
Proof.
  intros Hes Hg Hh fuel Hf. apply operands_depth in Hf. apply gives_operator. intros ctx env He.
  destruct (arguments_ok fuel _ es Hes Hf ctx env He) as [Ha Hk]. split; [now apply Hg|].
  revert Hk. apply eventually_mono. intros k Hk. now apply Hh.
Qed.

Lemma folded_sound h argument c cs : Forall2 folds (operands argument) cs -> dynamic_argument h argument = false -> plain c = true ->
  (forall fuel env, Forall (fun a => (vdepth a < fuel)%nat) (operands argument) ->
     operator_meaning collation (value_of fuel) env h argument = Ok c) ->
  operator_sound h argument (Folded c).
Proof. intros _ Hd Hp Hm fuel Hf. split; [exact Hp|]. split; [exact Hd|]. intros env. apply Hm. now apply operands_depth. Qed.

Lemma and_sound argument context t parsed t' : ParseDollarAnd parse argument context t = Ok (parsed, t') ->
  context_ok now collation context -> supported multi argument = true ->
  operator_sound (DollarBoolean BooleanType_And) argument parsed.
Proof.
  unfold ParseDollarAnd, ParseBooleanVariableOperands. intros E Hc Hs. unfold bind at 1 in E.
  destruct (ParseVariableArgumentsForExpression parse argument context t) as [[[es b] t1]|] eqn:Ep; [|discriminate].
  destruct (variable_cases _ _ _ _ _ _ Ep Hc Hs) as [(-> & cs & -> & Hcs & Hd)|(-> & Hes)].
  - unfold bind, lift in E. destruct (fold_boolean _ _ _) as [b|] eqn:Eb; [|discriminate]. injection E as <- _.
    apply folded_sound with (1 := Hcs); auto. intros fuel env HF. cbn [operator_meaning].
    now rewrite <- (fold_and fuel env _ cs Hcs HF), Eb.
  - injection E as <- _. apply handled_sound with (1 := Hes); [intros; apply yields_any; reflexivity|].
    intros fuel k ctx env He _ Hk. now apply handle_and.
Qed.

Lemma or_sound argument context t parsed t' : ParseDollarOr parse argument context t = Ok (parsed, t') ->
  context_ok now collation context -> supported multi argument = true ->
  operator_sound (DollarBoolean BooleanType_Or) argument parsed.
Proof.
  unfold ParseDollarOr, ParseBooleanVariableOperands. intros E Hc Hs. unfold bind at 1 in E.
  destruct (ParseVariableArgumentsForExpression parse argument context t) as [[[es b] t1]|] eqn:Ep; [|discriminate].
  destruct (variable_cases _ _ _ _ _ _ Ep Hc Hs) as [(-> & cs & -> & Hcs & Hd)|(-> & Hes)].
  - unfold bind, lift in E. destruct (fold_boolean _ _ _) as [b|] eqn:Eb; [|discriminate]. injection E as <- _.
    apply folded_sound with (1 := Hcs); auto. intros fuel env HF. cbn [operator_meaning].
    now rewrite <- (fold_or fuel env _ cs Hcs HF), Eb.
  - injection E as <- _. apply handled_sound with (1 := Hes); [intros; apply yields_any; reflexivity|].
    intros fuel k ctx env He _ Hk. now apply handle_or.
Qed.

(** ** Operators with one argument *)

Lemma one_case argument context t arguments t' :
  ParseFixedArgumentsForExpression parse argument 1 context t = Ok (arguments, t') ->
  context_ok now collation context -> supported multi argument = true ->
  exists a e, operands argument = [a] /\ arguments = ArgumentsPalloc e /\ Forall2 sound (operands argument) [e] /\
    forall c, e = ConstantExpr c -> Forall2 folds (operands argument) [c] /\ dynamic argument = false.
Proof.
  intros E Hc Hs. destruct (parse_one_argument _ _ _ _ _ E Hc Hs) as (a & e & Ha & -> & He).
  exists a, e. rewrite Ha. repeat split; [constructor; [exact He|constructor]| |]; subst e; apply sound_folds in He.
  - constructor; [exact He|constructor].
  - rewrite <- operands_dynamic, Ha. cbn. now destruct He as (_ & -> & _).
Qed.

(** An operator that applies a function to the value of its argument. *)
Lemma apply_one_sound h argument f arguments a e parsed (t t' : tables) :
  operands argument = [a] -> arguments = ArgumentsPalloc e -> Forall2 sound (operands argument) [e] ->
  (forall c, e = ConstantExpr c -> Forall2 folds (operands argument) [c] /\ dynamic argument = false) ->
  dynamic_argument h argument = dynamic argument ->
  (forall rec env, operator_meaning collation rec env h argument = one_meaning rec env f (operands argument)) ->
  (forall v, yields (fun r => plain r = true) (f v)) ->
  (forall k r, handles k h arguments r = HandlePreParsedArithmeticOperatorOneOperand (ev k) root e r f) ->
  match e with
  | ConstantExpr v => bind (lift (f v)) (fun result => ret (Folded result)) t
  | _ => ret (Operands arguments) t
  end = Ok (parsed, t') -> operator_sound h argument parsed.
Proof.
  intros Ha -> Hes Hcon Hdyn Hm Hp Hh E.
  assert (G : operator_sound h argument (Operands (ArgumentsPalloc e))).
  { apply handled_sound with (1 := Hes).
    - intros fuel env _. rewrite Hm, Ha. cbn [one_meaning]. apply yields_any. intros v.
      eapply yields_weaken; [|apply Hp]. apply good_plain.
    - intros fuel k ctx env He _ Hk. rewrite Hm, Ha in *. inversion_clear Hk. intros r t0. rewrite Hh. now apply handle_one with (env := env). }
  destruct e; try (injection E as <- _; exact G). clear G.
  destruct (Hcon _ eq_refl) as [Hf Hd]. unfold bind, lift in E. destruct (f value) as [c|] eqn:Ef; [|discriminate].
  injection E as <- _. apply folded_sound with (1 := Hf); [congruence|specialize (Hp value); now rewrite Ef in Hp|].
  intros fuel env HF. rewrite Hm. rewrite Ha in *. inversion_clear Hf as [|? ? ? ? (_ & _ & Hv) _]. inversion_clear HF.
  cbn [one_meaning]. rewrite Hv by assumption. exact Ef.
Qed.

Lemma not_sound argument context t parsed t' : ParseDollarNot parse argument context t = Ok (parsed, t') ->
  context_ok now collation context -> supported multi argument = true ->
  operator_sound (DollarBoolean BooleanType_Not) argument parsed.
Proof.
  unfold ParseDollarNot. intros E Hc Hs. unfold bind at 1 in E.
  destruct (ParseFixedArgumentsForExpression parse argument 1 context t) as [[arguments t1]|] eqn:Ep; [|discriminate].
  destruct (one_case _ _ _ _ _ Ep Hc Hs) as (a & e & Ha & -> & Hes & Hcon).
  assert (G : operator_sound (DollarBoolean BooleanType_Not) argument (Operands (ArgumentsPalloc e))).
  { apply handled_sound with (1 := Hes).
    - intros fuel env _. cbn [operator_meaning]. rewrite Ha. do 2 (apply yields_any; intro). reflexivity.
    - intros fuel k ctx env He _ Hk. cbn [operator_meaning]. rewrite Ha in *. inversion_clear Hk. now apply handle_not. }
  destruct e; try (injection E as <- _; exact G). clear G. destruct (Hcon _ eq_refl) as [Hf Hd].
  cbn [ProcessBooleanOperator] in E. unfold bind, lift in E. destruct (BsonValueAsBool value) as [b|] eqn:Eb; [|discriminate].
  injection E as <- _. apply folded_sound with (1 := Hf); auto.
  intros fuel env HF. cbn [operator_meaning]. rewrite Ha in *. inversion_clear Hf as [|? ? ? ? (_ & _ & Hv) _]. inversion_clear HF.
  cbn [one_meaning]. rewrite Hv by assumption. cbn [res_bind]. now rewrite Eb.
Qed.

Lemma one_operand_sound o argument context t parsed t' :
  ParseArithmeticOperatorOneOperand parse argument o context t = Ok (parsed, t') ->
  context_ok now collation context -> supported multi argument = true -> operator_sound (DollarOneOperand o) argument parsed.
Proof.
  unfold ParseArithmeticOperatorOneOperand. intros E Hc Hs. unfold bind at 1 in E.
  destruct (ParseFixedArgumentsForExpression parse argument 1 context t) as [[arguments t1]|] eqn:Ep; [|discriminate].
  destruct (one_case _ _ _ _ _ Ep Hc Hs) as (a & e & Ha & -> & Hes & Hcon).
  apply apply_one_sound with (f := ProcessOneOperand o) (1 := Ha) (2 := eq_refl) (3 := Hes) (4 := Hcon) (t := t1) (t' := t');
    try reflexivity; [|now destruct e].
  intros v. eapply yields_weaken; [|apply one_operand_numeric]. intros r Hr. now apply arithmetic_plain, numeric_or_null_value.
Qed.

(** ** Operators with two arguments *)

(** An operator that applies a function to the values of two arguments. *)
Lemma apply_two_sound h argument f arguments a b x y (parsed : Parsed) :
  Forall2 sound [a; b] [x; y] ->
  (forall fuel, (vdepth argument < fuel)%nat -> Forall (fun a => (vdepth a < fuel)%nat) [a; b]) ->
  (existsb dynamic [a; b] = false -> dynamic_argument h argument = false) ->
  (forall rec env, rec env (VInt32 0) = Ok (VInt32 0) ->
     operator_meaning collation rec env h argument = two_meanings rec env f [a; b]) ->
  (forall v w, yields (fun r => plain r = true) (f v w)) ->
  (forall k ctx env rec, env_ok ctx env ->
     argument_ok handle_other multi root k ctx env rec a x -> argument_ok handle_other multi root k ctx env rec b y ->
     ready_outcome multi (handles k h arguments) ctx (two_meanings rec env f [a; b])) ->
  match x, y with
  | ConstantExpr v, ConstantExpr w => exists c, f v w = Ok c /\ parsed = Folded c
  | _, _ => parsed = Operands arguments
  end -> operator_sound h argument parsed.
Proof.
  intros Hes Hdep Hdyn Hm Hp Hh E.
  assert (Hzero : forall fuel env, (vdepth argument < fuel)%nat -> value_of fuel env (VInt32 0) = Ok (VInt32 0))
    by (intros [|fuel] env Hf; [lia|reflexivity]).
  assert (G : operator_sound h argument (Operands arguments)).
  { intros fuel Hf. apply gives_operator. intros ctx env He.
    destruct (arguments_ok fuel _ _ Hes (Hdep fuel Hf) ctx env He) as [_ Hk]. rewrite Hm by now apply Hzero. split.
    - cbn [two_meanings]. do 2 (apply yields_any; intro). eapply yields_weaken; [|apply Hp]. apply good_plain.
    - revert Hk. apply eventually_mono. intros k Hk. inversion_clear Hk as [|? ? ? ? Hx Hk']. inversion_clear Hk'. now apply Hh with (env := env). }
  destruct x, y; try (rewrite E; exact G). clear G. destruct E as (c & Ef & ->).
  inversion_clear Hes as [|? ? ? ? Sa Hes']. inversion_clear Hes' as [|? ? ? ? Sb _].
  apply sound_folds in Sa, Sb. destruct Sa as (Hpa & Hda & Hma), Sb as (Hpb & Hdb & Hmb).
  intros fuel Hf. split; [specialize (Hp value value0); now rewrite Ef in Hp|]. split; [apply Hdyn; cbn; now rewrite Hda, Hdb|].
  intros env. rewrite Hm by now apply Hzero. specialize (Hdep fuel Hf). inversion_clear Hdep as [|? ? Da Hdep']. inversion_clear Hdep'.
  cbn [two_meanings]. rewrite Hma, Hmb by assumption. exact Ef.
Qed.

Lemma two_case argument context t arguments t' :
  ParseFixedArgumentsForExpression parse argument 2 context t = Ok (arguments, t') ->
  context_ok now collation context -> supported multi argument = true ->
  exists a b x y, operands argument = [a; b] /\ arguments = ArgumentsList [x; y] /\ Forall2 sound [a; b] [x; y].
Proof.
  intros E Hc Hs. destruct (parse_several_arguments argument 2 context t arguments t' (le_n 2) E Hc Hs) as (es & -> & Hl & Hes).
  destruct es as [|x [|y [|z es]]]; try discriminate. inversion Hes as [|a ? ? ? Ha Hes' E1]; subst. inversion Hes' as [|b ? ? ? Hb Hes'' E2]; subst.
  inversion Hes''; subst. exists a, b, x, y. split; [easy|]. split; [reflexivity|]. constructor; [exact Ha|]. constructor; [exact Hb|constructor].
Qed.

Lemma comparison_sound c argument context t parsed t' :
  ParseComparisonOperator EnableCollation parse argument c context t = Ok (parsed, t') ->
  context_ok now collation context -> supported multi argument = true -> operator_sound (DollarComparison c) argument parsed.
Proof.
  unfold ParseComparisonOperator. intros E Hc Hs. unfold bind at 1 in E.
  destruct (ParseFixedArgumentsForExpression parse argument 2 context t) as [[arguments t1]|] eqn:Ep; [|discriminate].
  destruct (two_case _ _ _ _ _ Ep Hc Hs) as (a & b & x & y & Ha & -> & Hes).
  pose proof (proj2 Hc) as Hcol. rewrite Hcol, collation_used in E.
  apply apply_two_sound with (f := fun v w => CompareExpressionBsonValues v w collation c)
    (arguments := ComparisonOperatorState x y collation) (1 := Hes).
  - intros fuel Hf. rewrite <- Ha. now apply operands_depth.
  - rewrite <- Ha, operands_dynamic. auto.
  - intros rec env _. cbn [operator_meaning]. now rewrite Ha.
  - intros v w. apply compare_plain.
  - intros k ctx env rec He Hx Hy. exact (handle_comparison handle_other multi root k ctx env He rec a b x y collation c Hx Hy).
  - destruct x, y; try (injection E as <- _; reflexivity). unfold bind, lift in E.
    destruct (CompareExpressionBsonValues _ _ _ _) as [r|]; [|discriminate]. injection E as <- _. eauto.
Qed.

Lemma two_values_plain o v w : yields (fun r => plain r = true) (ProcessTwoOperands o v w).
Proof. eapply yields_weaken; [|apply two_operands_value]. exact arithmetic_plain. Qed.

(** The two arguments of an arithmetic operator. *)
Lemma fold_two_sound o argument a b x y t parsed t' : Forall2 sound [a; b] [x; y] ->
  (forall fuel, (vdepth argument < fuel)%nat -> Forall (fun a => (vdepth a < fuel)%nat) [a; b]) ->
  (existsb dynamic [a; b] = false -> dynamic argument = false) ->
  (forall rec env, rec env (VInt32 0) = Ok (VInt32 0) ->
     operator_meaning collation rec env (DollarTwoOperands o) argument = two_meanings rec env (ProcessTwoOperands o) [a; b]) ->
  fold_two_operands o x y t = Ok (parsed, t') -> operator_sound (DollarTwoOperands o) argument parsed.
Proof.
  intros Hes Hdep Hdyn Hm E. apply apply_two_sound with (f := ProcessTwoOperands o) (arguments := ArgumentsList [x; y]) (1 := Hes); auto.
  - intros v w. apply two_values_plain.
  - intros k ctx env rec He Hx Hy. now apply (handle_two handle_other multi root k ctx env He rec a b x y _ Hx Hy (two_values_plain o)).
  - unfold fold_two_operands in E. destruct x, y; try (injection E as <- _; reflexivity). unfold bind, lift in E.
    destruct (ProcessTwoOperands _ _ _) as [r|]; [|discriminate]. injection E as <- _. eauto.
Qed.

Definition rounds (o : TwoOperands) : bool := match o with DollarRound | DollarTrunc => true | _ => false end.

Lemma two_operands_meaning o argument a b rec env : operands argument = [a; b] ->
  operator_meaning collation rec env (DollarTwoOperands o) argument = two_meanings rec env (ProcessTwoOperands o) [a; b].
Proof. intros Ha. cbn [operator_meaning]. rewrite Ha. now destruct o. Qed.

Lemma two_operands_sound o argument context t parsed t' :
  ParseArithmeticOperatorTwoOperands parse argument o context t = Ok (parsed, t') ->
  context_ok now collation context -> supported multi argument = true -> operator_sound (DollarTwoOperands o) argument parsed.
Proof.
  unfold ParseArithmeticOperatorTwoOperands. intros E Hc Hs. unfold bind at 1 in E.
  destruct (ParseFixedArgumentsForExpression parse argument 2 context t) as [[arguments t1]|] eqn:Ep; [|discriminate].
  destruct (two_case _ _ _ _ _ Ep Hc Hs) as (a & b & x & y & Ha & -> & Hes).
  apply fold_two_sound with (1 := Hes) (5 := E).
  - intros fuel Hf. rewrite <- Ha. now apply operands_depth.
  - rewrite <- Ha, operands_dynamic. auto.
  - intros rec env _. now apply two_operands_meaning.
Qed.

Lemma parse_range_arguments argument context t arguments t' :
  ParseRangeArgumentsForExpression parse argument 1 2 context t = Ok (arguments, t') ->
  context_ok now collation context -> supported multi argument = true ->
  exists es, Forall2 sound (operands argument) es /\
    (arguments = ArgumentsList es \/ exists e, es = [e] /\ arguments = ArgumentsPalloc e).
Proof.
  intros E Hc Hs. apply operands_supported in Hs. unfold ParseRangeArgumentsForExpression in E.
  assert (G : forall a, operands argument = [a] ->
    bind (parse a context) (fun d => ret (ArgumentsPalloc d)) t = Ok (arguments, t') ->
    exists es, Forall2 sound (operands argument) es /\
      (arguments = ArgumentsList es \/ exists e, es = [e] /\ arguments = ArgumentsPalloc e)).
  { intros a Ha E'. rewrite Ha in *. inversion_clear Hs. unfold bind in E'.
    destruct (parse a context t) as [[e t1]|] eqn:Ea; [|discriminate]. injection E' as <- _. exists [e].
    split; [constructor; [eauto|constructor]|]. right. now exists e. }
  destruct argument; try (eapply G; [reflexivity|exact E]). clear G.
  destruct (_ || _); [discriminate|]. unfold bind in E. destruct (parse_list parse d context t) as [[es t1]|] eqn:El; [|discriminate].
  injection E as <- _. exists es. split; [now apply parse_list_sound with (1 := El)|now left].
Qed.

Lemma round_sound o argument context t parsed t' : rounds o = true ->
  ParseDollarRoundAndTrunc parse argument o context t = Ok (parsed, t') ->
  context_ok now collation context -> supported multi argument = true -> operator_sound (DollarTwoOperands o) argument parsed.
Proof.
  unfold ParseDollarRoundAndTrunc. intros Ho E Hc Hs. unfold bind at 1 in E.
  destruct (ParseRangeArgumentsForExpression parse (VInt32 0) 1 2 context t) as [[default t1]|] eqn:Ed; [|discriminate].
  destruct (parse_range_arguments _ _ _ _ _ Ed Hc eq_refl) as (ds & Hds & Hd).
  inversion Hds as [|? d0 ? ? Hd0 Hds']; subst. inversion Hds'; subst.
  unfold bind in E. destruct (ParseRangeArgumentsForExpression parse argument 1 2 context t1) as [[arguments t2]|] eqn:Ea; [|discriminate].
  destruct (parse_range_arguments _ _ _ _ _ Ea Hc Hs) as (es & Hes & Harg).
  assert (One : forall x, es = [x] -> fold_two_operands o x d0 t2 = Ok (parsed, t') -> operator_sound (DollarTwoOperands o) argument parsed).
  { intros x -> E'. inversion Hes as [|a ? ? ? Hx Hes' Eo]; subst. inversion Hes'; subst. symmetry in Eo.
    apply fold_two_sound with (a := a) (b := VInt32 0) (x := x) (y := d0) (5 := E').
    - constructor; [exact Hx|]. constructor; [exact Hd0|constructor].
    - intros fuel Hf. constructor; [|constructor; [cbn; lia|constructor]].
      pose proof (operands_depth argument fuel Hf) as D. rewrite Eo in D. now inversion_clear D.
    - rewrite <- operands_dynamic, Eo. cbn. now rewrite !orb_false_r.
    - intros rec env _. cbn [operator_meaning]. rewrite Eo. now destruct o. }
  assert (Two : forall x y, es = [x; y] -> fold_two_operands o x y t2 = Ok (parsed, t') -> operator_sound (DollarTwoOperands o) argument parsed).
  { intros x y -> E'. inversion Hes as [|a ? ? ? Hx Hes' Eo]; subst. inversion Hes' as [|b ? ? ? Hy Hes'' Eo']; subst. inversion Hes''; subst.
    symmetry in Eo. apply fold_two_sound with (a := a) (b := b) (x := x) (y := y) (5 := E').
    - constructor; [exact Hx|]. constructor; [exact Hy|constructor].
    - intros fuel Hf. rewrite <- Eo. now apply operands_depth.
    - rewrite <- Eo, operands_dynamic. auto.
    - intros rec env _. now apply two_operands_meaning. }
  destruct Hd as [->|(e & [= <-] & ->)].
  - destruct Harg as [->|(x & -> & ->)]; [destruct es as [|x [|y [|z es]]]|]; try discriminate. now apply (Two x y).
  - destruct Harg as [->|(x & -> & ->)]; [destruct es as [|x [|y [|z es]]]|]; try discriminate;
      [now apply (One x)|now apply (Two x y)|now apply (One x)].
Qed.

(** ** [$add] and [$multiply] *)

Lemma fold_accumulate {State} process fuel env args cs : Forall2 folds args cs -> Forall (fun a => (vdepth a < fuel)%nat) args ->
  forall (s : State) v,
  fold_operands (OtherArguments := OtherArguments) process (map ConstantExpr cs) s v = accumulate (value_of fuel) env process args s v.
Proof.
  induction 1 as [|a c args cs (_ & _ & Hm) H IH]; intros Hd s v; [reflexivity|]. inversion_clear Hd.
  cbn [map fold_operands accumulate constant_value]. rewrite Hm by assumption. cbn [res_bind].
  destruct (process c s v) as [[[s' v'] [|]]|]; cbn [res_bind]; auto.
Qed.

Lemma multiply_sound argument context t parsed t' : ParseDollarMultiply parse argument context t = Ok (parsed, t') ->
  context_ok now collation context -> supported multi argument = true -> operator_sound DollarMultiply argument parsed.
Proof.
  unfold ParseDollarMultiply, ParseArithmeticOperatorVariableOperands. intros E Hc Hs. unfold bind at 1 2 in E.
  assert (T : forall rec env, yields (fun r => plain r = true) (operator_meaning collation rec env DollarMultiply argument)).
  { intros rec env. cbn [operator_meaning].
    apply yields_bind with (1 := accumulate_type rec env _ (operands argument) multiply_step tt (VInt32 1) eq_refl).
    intros [s v] Hv. now apply arithmetic_plain. }
  destruct (ParseVariableArgumentsForExpression parse argument context t) as [[[es b] t1]|] eqn:Ep; [|discriminate].
  destruct (variable_cases _ _ _ _ _ _ Ep Hc Hs) as [(-> & cs & -> & Hcs & Hd)|(-> & Hes)].
  - unfold bind, lift in E. destruct (fold_operands _ _ _ _) as [[s v]|] eqn:Ef; [|discriminate]. injection E as <- _.
    assert (Hm : forall fuel env, Forall (fun a => (vdepth a < fuel)%nat) (operands argument) ->
      operator_meaning collation (value_of fuel) env DollarMultiply argument = Ok v).
    { intros fuel env HF. cbn [operator_meaning]. now rewrite <- (fold_accumulate _ fuel env _ cs Hcs HF), Ef. }
    apply folded_sound with (1 := Hcs); auto.
    specialize (T (value_of (S (vdepth argument))) []). now rewrite Hm in T by (apply operands_depth; lia).
  - injection E as <- _. apply handled_sound with (1 := Hes).
    + intros fuel env _. eapply yields_weaken; [|apply T]. apply good_plain.
    + intros fuel k ctx env He _ Hk. now apply handle_multiply.
Qed.

(** Numbers only: the sum is a number. *)
Lemma add_number v s r : numeric v -> isDateTimeAdd s = false -> numeric r ->
  yields (fun p => let '(s', r', _) := p in isDateTimeAdd s' = false /\ numeric r') (ProcessDollarAdd v s r).
Proof.
  intros Hv Hs Hr. unfold ProcessDollarAdd.
  destruct v; try discriminate Hv; cbn [IsExpressionResultUndefined BsonValueIsNumber negb andb res_bind];
    rewrite Hs; cbn [andb]; apply yields_bind with (1 := AddNumber_numeric _ _ _ Hr); intros u Hu; cbn; auto.
Qed.

Lemma accumulate_numbers fuel env args : Forall numeric args -> (0 < fuel)%nat -> forall s r, isDateTimeAdd s = false -> numeric r ->
  yields (fun p => numeric (snd p)) (accumulate (value_of fuel) env ProcessDollarAdd args s r).
Proof.
  intros Ha Hf. induction Ha as [|a args Ha H IH]; intros s r Hs Hr; [exact Hr|]. cbn [accumulate].
  destruct fuel as [|fuel]; [lia|].
  replace (value_of (S fuel) env a) with (Ok a) by now destruct a. cbn [res_bind].
  apply yields_bind with (1 := add_number a s r Ha Hs Hr). intros [[s' r'] [|]] [Hs' Hr']; [now apply IH|exact Hr'].
Qed.

Lemma add_sound argument context t parsed t' : ParseDollarAdd parse argument context t = Ok (parsed, t') ->
  context_ok now collation context -> supported multi argument = true -> add_supported argument = true ->
  operator_sound DollarAdd argument parsed.
Proof.
  unfold ParseDollarAdd, ParseArithmeticOperatorVariableOperands. intros E Hc Hs Hadd. unfold bind at 1 2 in E.
  destruct (ParseVariableArgumentsForExpression parse argument context t) as [[[es b] t1]|] eqn:Ep; [|discriminate].
  destruct (variable_cases _ _ _ _ _ _ Ep Hc Hs) as [(-> & cs & -> & Hcs & Hd)|(-> & Hes)].
  - unfold bind, lift in E. destruct (fold_operands _ _ _ _) as [[s v]|] eqn:Ef; [|discriminate]. cbn in E.
    destruct (ProcessDollarAddAccumulatedResult s v) as [c|] eqn:Er; [|discriminate]. injection E as <- _.
    unfold add_supported in Hadd. rewrite Hd in Hadd. cbn [orb] in Hadd. rewrite forallb_forall in Hadd. apply Forall_forall in Hadd.
    assert (Hm : forall fuel env, Forall (fun a => (vdepth a < fuel)%nat) (operands argument) -> (0 < fuel)%nat ->
      operator_meaning collation (value_of fuel) env DollarAdd argument = Ok c).
    { intros fuel env HF H0. cbn [operator_meaning]. unfold add_meaning.
      pose proof (accumulate_numbers fuel env (operands argument) Hadd H0 (AddState false false) (VInt32 0) eq_refl eq_refl) as N.
      rewrite <- (fold_accumulate _ fuel env _ cs Hcs HF), Ef in *. cbn [res_bind] in *. cbn in N. destruct v; try exact Er. discriminate N. }
    intros fuel Hf. assert (HF := operands_depth argument fuel Hf). assert (H0 : (0 < fuel)%nat) by lia.
    split; [|split; [exact Hd|intros env; now apply Hm]].
    pose proof (add_type (value_of fuel) [] (operands argument)) as T. specialize (Hm fuel [] HF H0). cbn [operator_meaning] in Hm.
    rewrite Hm in T. now apply arithmetic_plain.
  - injection E as <- _. apply handled_sound with (1 := Hes).
    + intros fuel env _. eapply yields_weaken; [|apply add_type]. intros r Hr. now apply good_plain, arithmetic_plain.
    + intros fuel k ctx env He _ Hk. now apply handle_add.
Qed.

(** ** Conditional operators *)

Lemma fold_if_null_present cs : forall acc, fold_if_null (OtherArguments := OtherArguments) (map ConstantExpr cs) acc = fold_left keep_present cs acc.
Proof. induction cs as [|c cs IH]; intros acc; [reflexivity|]. cbn [map fold_if_null fold_left constant_value]. apply IH. Qed.

Lemma if_null_sound argument context t parsed t' : ParseDollarIfNull parse argument context t = Ok (parsed, t') ->
  context_ok now collation context -> supported multi argument = true -> operator_sound DollarIfNull argument parsed.
Proof.
  unfold ParseDollarIfNull. intros E Hc Hs.
  destruct (match argument with VArray args => List.length args | _ => 1%nat end <? 2)%nat; [discriminate|]. unfold bind at 1 in E.
  destruct (ParseVariableArgumentsForExpression parse argument context t) as [[[es b] t1]|] eqn:Ep; [|discriminate].
  destruct (variable_cases _ _ _ _ _ _ Ep Hc Hs) as [(-> & cs & -> & Hcs & Hd)|(-> & Hes)].
  - injection E as <- _. rewrite fold_if_null_present, keep_present_first. cbn [IsExpressionResultNullOrUndefined].
    assert (P : plain (first_present cs) = true).
    { assert (Hp : Forall (fun c => plain c = true) cs) by (clear -Hcs; induction Hcs as [|a c args cs (Hp & _) H IH]; now constructor).
      clear -Hp. induction Hp as [|c cs Hc H IH]; [reflexivity|]. cbn [first_present]. destruct cs; [exact Hc|].
      now destruct (IsExpressionResultNullOrUndefined c). }
    replace (match cs with [] => VNull | _ => first_present cs end) with (first_present cs) by now destruct cs.
    apply folded_sound with (1 := Hcs); auto. intros fuel env HF. cbn [operator_meaning].
    now rewrite (folds_meanings _ _ _ fuel env _ cs Hcs HF).
  - injection E as <- _. apply handled_sound with (1 := Hes).
    + intros fuel env Hg. now apply if_null_good.
    + intros fuel k ctx env He Hg Hk. now apply handle_if_null.
Qed.

Lemma named k (s : string) : no_nul k -> no_nulb (str s) = true -> (strcmp k (str s) =? 0) = true -> k = str s.
Proof.
  intros Hk Hs E. apply no_nulb_ok in Hs. apply Z.eqb_eq in E. pose proof (strcmp_cmp_bytes k (str s) Hk Hs) as S.
  unfold same_sign in S. apply cmp_bytes_0. lia.
Qed.

Lemma last_field_cons k v d (s : string) :
  last_field ((k, v) :: d) s =
  match last_field d s with Some x => Some x | None => if strcmp k (str s) =? 0 then Some v else None end.
Proof.
  unfold last_field. cbn [rev]. induction (rev d) as [|kv l IH]; cbn [app find fst].
  - now destruct (strcmp k (str s) =? 0).
  - destruct (strcmp (fst kv) (str s) =? 0); [reflexivity|exact IH].
Qed.

Lemma last_field_in d (s : string) v : last_field d s = Some v -> In v (map snd d).
Proof.
  unfold last_field. destruct (find _ (rev d)) as [kv|] eqn:F; [|discriminate]. intros [= <-]. apply find_some in F.
  apply in_map. now apply in_rev.
Qed.

(** Without repeated keys, the last field with a key is the only one. *)
Lemma last_field_unique d (s : string) : nodup_keys d = true -> Forall (fun kv => no_nul (fst kv)) d -> no_nulb (str s) = true ->
  forall k v, In (k, v) d -> (strcmp k (str s) =? 0) = true -> last_field d s = Some v.
Proof.
  intros Hd Hn Hs k v. induction d as [|[k' v'] d IH]; [easy|]. cbn in Hd. apply andb_true_iff in Hd. destruct Hd as [Hk Hd].
  inversion_clear Hn as [|? ? Hk' Hn']. cbn [fst] in *. intros [[= -> ->]|Hin] E; rewrite last_field_cons.
  - rewrite E. destruct (last_field d s) as [x|] eqn:L; [|reflexivity]. exfalso. unfold last_field in L.
    destruct (find _ (rev d)) as [[k2 v2]|] eqn:F; [|discriminate]. apply find_some in F. destruct F as [F1 F2]. apply in_rev in F1.
    apply negb_true_iff in Hk. assert (X : existsb (fun kv => cmp_bytes (fst kv) k =? 0) d = true); [|congruence].
    apply existsb_exists. exists (k2, v2). split; [exact F1|]. cbn [fst] in *. rewrite Forall_forall in Hn'.
    specialize (Hn' _ F1). cbn [fst] in Hn'. apply Z.eqb_eq, cmp_bytes_0.
    rewrite (named k s Hk' Hs E). now apply named.
  - now rewrite (IH Hd Hn' Hin E).
Qed.

(** The last field with a key was parsed. *)
Definition picked (d : fields) (s : string) (before after : option Data) : Prop :=
  match last_field d s with
  | Some v => exists e, after = Some e /\ sound v e
  | None => after = before
  end.

Lemma picked_cons_same k v d (s : string) before e after : (strcmp k (str s) =? 0) = true -> sound v e ->
  picked d s (Some e) after -> picked ((k, v) :: d) s before after.
Proof. unfold picked. rewrite last_field_cons. intros -> Hv. destruct (last_field d s); [auto|]. intros ->. eauto. Qed.

Lemma picked_cons_other k v d (s : string) before after : (strcmp k (str s) =? 0) = false ->
  picked d s before after -> picked ((k, v) :: d) s before after.
Proof. unfold picked. rewrite last_field_cons. intros ->. now destruct (last_field d s). Qed.

Lemma str_neq k (a b : string) : no_nul k -> no_nulb (str a) = true -> no_nulb (str b) = true -> a <> b ->
  (strcmp k (str a) =? 0) = true -> (strcmp k (str b) =? 0) = false.
Proof.
  intros Hk Ha Hb Hab E. destruct (strcmp k (str b) =? 0) eqn:E'; [|reflexivity]. exfalso. apply Hab.
  apply named in E, E'; auto. subst k. clear - E'. unfold str in E'. rewrite <- (string_of_list_byte_of_string a), <- (string_of_list_byte_of_string b).
  now rewrite E'.
Qed.

Lemma cond_fields_sound context : context_ok now collation context -> forall d i0 t0 e0 t i th el t',
  cond_fields parse d context i0 t0 e0 t = Ok ((i, th, el), t') ->
  Forall (fun kv => plain_key (fst kv) = true /\ supported multi (snd kv) = true) d ->
  picked d "if" i0 i /\ picked d "then" t0 th /\ picked d "else" e0 el /\
  Forall (fun kv => is_name (fst kv) "if" || is_name (fst kv) "then" || is_name (fst kv) "else" = true) d.
Proof.
  intros Hc. induction d as [|[k v] d IH]; intros i0 t0 e0 t i th el t' E Hs; cbn [cond_fields] in E.
  - injection E as <- <- <- _. now repeat split.
  - inversion_clear Hs as [|? ? [Hk Hv] Hs']. cbn [fst snd] in *. destruct (plain_key_split k Hk) as [_ Hn]. unfold is_name in *.
    destruct (strcmp k (str "if") =? 0) eqn:Ei; [|destruct (strcmp k (str "then") =? 0) eqn:Et; [|destruct (strcmp k (str "else") =? 0) eqn:Ee; [|discriminate]]];
      unfold bind in E; (destruct (parse v context t) as [[e t1]|] eqn:Ep; [|discriminate]); apply parse_sound in Ep; auto;
      destruct (IH _ _ _ _ _ _ _ _ E Hs') as (P1 & P2 & P3 & P4).
    + assert (Et := str_neq k "if" "then" Hn eq_refl eq_refl ltac:(discriminate) Ei).
      assert (Ee := str_neq k "if" "else" Hn eq_refl eq_refl ltac:(discriminate) Ei).
      repeat split; eauto using picked_cons_same, picked_cons_other. constructor; [cbn [fst]; now rewrite Ei|exact P4].
    + assert (Ee := str_neq k "then" "else" Hn eq_refl eq_refl ltac:(discriminate) Et).
      repeat split; eauto using picked_cons_same, picked_cons_other. constructor; [cbn [fst]; now rewrite Et, orb_true_r|exact P4].
    + repeat split; eauto using picked_cons_same, picked_cons_other. constructor; [cbn [fst]; now rewrite Ee, orb_true_r|exact P4].
Qed.

(** The three parts of a [$cond]. *)
Lemma fold_cond_sound argument a b c x y z missing t parsed t' : Forall2 sound [a; b; c] [x; y; z] ->
  (forall fuel, (vdepth argument < fuel)%nat -> Forall (fun a => (vdepth a < fuel)%nat) [a; b; c]) ->
  (existsb dynamic [a; b; c] = false -> dynamic argument = false) ->
  (forall rec env, operator_meaning collation rec env DollarCond argument = cond_meaning rec env a b c) ->
  fold_cond x y z missing t = Ok (parsed, t') -> operator_sound DollarCond argument parsed.
Proof.
  intros Hes Hdep Hdyn Hm E fuel Hf. specialize (Hdep fuel Hf).
  assert (G : gives (OperatorExpr DollarCond (ArgumentsList [x; y; z])) (fun env _ => operator_meaning collation (value_of fuel) env DollarCond argument)).
  { apply gives_operator. intros ctx env He. destruct (arguments_ok fuel _ _ Hes Hdep ctx env He) as [Hg Hk]. rewrite Hm.
    inversion_clear Hg as [|? ? _ Hg']. inversion_clear Hg' as [|? ? Gb Hg'']. inversion_clear Hg'' as [|? ? Gc _].
    split; [now apply cond_good|]. revert Hk. apply eventually_mono. intros k Hk.
    inversion_clear Hk as [|? ? ? ? Ka Hk']. inversion_clear Hk' as [|? ? ? ? Kb Hk'']. inversion_clear Hk'' as [|? ? ? ? Kc _].
    exact (handle_cond handle_other multi root k ctx env He (value_of fuel) a b c x y z Ka Kb Kc Gb Gc). }
  unfold fold_cond in E. destruct x, y, z; try (injection E as <- _; exact G). clear G.
  destruct (sound_constants _ _ _ _ _ _ _ Hes eq_refl) as (cs & Ecs & Hcs).
  destruct cs as [|c1 [|c2 [|c3 [|]]]]; try discriminate. injection Ecs as -> -> ->.
  unfold bind, lift in E. destruct (BsonValueAsBool c1) as [cond|] eqn:Eb; [|discriminate]. injection E as <- _.
  pose proof (folds_dynamic _ _ _ _ _ Hcs) as Hd.
  inversion_clear Hcs as [|? ? ? ? (_ & _ & M1) Hcs']. inversion_clear Hcs' as [|? ? ? ? (P2 & _ & M2) Hcs'']. inversion_clear Hcs'' as [|? ? ? ? (P3 & _ & M3) _].
  inversion_clear Hdep as [|? ? D1 Hdep']. inversion_clear Hdep' as [|? ? D2 Hdep'']. inversion_clear Hdep'' as [|? ? D3 _].
  assert (P : plain (if cond then c2 else c3) = true) by now destruct cond.
  replace (match (if cond then c2 else c3) with VEod => missing | v => v end) with (if cond then c2 else c3)
    by now destruct (if cond then c2 else c3).
  split; [exact P|]. split; [exact (Hdyn Hd)|]. intros env. rewrite Hm. unfold cond_meaning.
  rewrite M1, M2, M3 by assumption. cbn [res_bind]. now rewrite Eb.
Qed.

Lemma named_not_operator k (s : string) : no_nul k -> no_nulb (str s) = true -> is_operator_key (str s) = false ->
  is_operator_key k = true -> (strcmp k (str s) =? 0) = false.
Proof.
  intros Hk Hs Ho E. destruct (strcmp k (str s) =? 0) eqn:E'; [|reflexivity]. apply named in E'; auto. congruence.
Qed.

(** The document of named arguments of an operator. *)
Lemma supported_head k v d : supported multi (VDocument ((k, v) :: d)) = true -> is_operator_key k = true -> no_nul k.
Proof.
  cbn [supported]. rewrite andb_true_iff. intros [_ H] E. rewrite E in H. apply andb_true_iff in H. now apply no_nulb_ok.
Qed.

Lemma document_dynamic d : not_operator d -> dynamic (VDocument d) = existsb dynamic (map snd d).
Proof.
  unfold not_operator, is_operator_value. destruct d as [|[k v] d]; [reflexivity|]. intros H. cbn [dynamic]. rewrite H. apply dynamic_values.
Qed.

Lemma field_depth d (s : string) v fuel : last_field d s = Some v -> (vdepth (VDocument d) < fuel)%nat -> (vdepth v < fuel)%nat.
Proof.
  intros H Hf. apply last_field_in in H. assert (D : Forall (fun a => (vdepth a < fuel)%nat) (map snd d)).
  { apply vdepth_fields. cbn [vdepth] in Hf. lia. }
  rewrite Forall_forall in D. now apply D.
Qed.

Lemma keys_no_nul d : Forall (fun kv => plain_key (fst kv) = true /\ supported multi (snd kv) = true) d ->
  Forall (fun kv : bytes * bson_value => no_nul (fst kv)) d.
Proof. apply Forall_impl. intros kv [H _]. now apply plain_key_split. Qed.

Lemma cond_document d context t i th el t' :
  cond_fields parse d context None None None t = Ok ((Some i, Some th, Some el), t') ->
  context_ok now collation context -> supported multi (VDocument d) = true ->
  exists a b c, Forall2 sound [a; b; c] [i; th; el] /\
    last_field d "if" = Some a /\ last_field d "then" = Some b /\ last_field d "else" = Some c /\
    (existsb dynamic [a; b; c] = false -> dynamic (VDocument d) = false).
Proof.
  intros E Hc Hs.
  assert (Hop : not_operator d).
  { unfold not_operator, is_operator_value. destruct d as [|[k v] d]; [reflexivity|]. destruct (is_operator_key k) eqn:Ek; [|reflexivity].
    assert (Hn := supported_head k v d Hs Ek). cbn [cond_fields] in E. rewrite !named_not_operator in E by easy. discriminate. }
  destruct (supported_document multi d Hs Hop) as [Hnd Hfs].
  destruct (cond_fields_sound context Hc _ _ _ _ _ _ _ _ _ E Hfs) as (P1 & P2 & P3 & P4). unfold picked in *.
  destruct (last_field d "if") as [a|] eqn:La; [|discriminate]. destruct P1 as (? & [= <-] & Sa).
  destruct (last_field d "then") as [b|] eqn:Lb; [|discriminate]. destruct P2 as (? & [= <-] & Sb).
  destruct (last_field d "else") as [c|] eqn:Lc; [|discriminate]. destruct P3 as (? & [= <-] & Sc).
  exists a, b, c. split; [constructor; [exact Sa|]; constructor; [exact Sb|]; constructor; [exact Sc|constructor]|].
  repeat (split; [reflexivity|]). intros Hd. rewrite (document_dynamic d Hop).
  destruct (existsb dynamic (map snd d)) eqn:Ex; [|reflexivity]. exfalso. apply existsb_exists in Ex. destruct Ex as (v & Hin & Dv).
  apply in_map_iff in Hin. destruct Hin as ([k v'] & <- & Hin). cbn [snd] in Dv. rewrite Forall_forall in P4. specialize (P4 _ Hin). cbn [fst] in P4.
  apply keys_no_nul in Hfs. cbn [existsb] in Hd. rewrite !orb_false_iff in Hd. rewrite !orb_true_iff in P4. unfold is_name in P4.
  destruct P4 as [[P4|P4]|P4];
    [rewrite (last_field_unique d "if" Hnd Hfs eq_refl k v' Hin P4) in La; injection La as <-
    |rewrite (last_field_unique d "then" Hnd Hfs eq_refl k v' Hin P4) in Lb; injection Lb as <-
    |rewrite (last_field_unique d "else" Hnd Hfs eq_refl k v' Hin P4) in Lc; injection Lc as <-]; intuition congruence.
Qed.

Lemma cond_sound argument context t parsed t' : ParseDollarCond null_string parse argument context t = Ok (parsed, t') ->
  context_ok now collation context -> supported multi argument = true -> operator_sound DollarCond argument parsed.
Proof.
  unfold ParseDollarCond. intros E Hc Hs.
  assert (G : forall a, operands argument = a -> match argument with VDocument _ => False | _ => True end ->
    bind (ParseFixedArgumentsForExpression parse argument 3 context) (fun arguments => match arguments with
      | ArgumentsList [ifData; thenData; elseData] => fold_cond ifData thenData elseData null_string
      | _ => raise ERRCODE_INTERNAL_ERROR end) t = Ok (parsed, t') -> operator_sound DollarCond argument parsed).
  { intros args Ha Hnd E'. unfold bind in E'.
    destruct (ParseFixedArgumentsForExpression parse argument 3 context t) as [[arguments t1]|] eqn:Ep; [|discriminate].
    destruct (parse_several_arguments argument 3 context t arguments t1 ltac:(lia) Ep Hc Hs) as (es & -> & Hl & Hes).
    destruct es as [|x [|y [|z [|]]]]; try discriminate. inversion Hes as [|a ? ? ? H1 Hes1 E1]; subst.
    inversion Hes1 as [|b ? ? ? H2 Hes2 E2]; subst. inversion Hes2 as [|c ? ? ? H3 Hes3 E3]; subst. inversion Hes3; subst. symmetry in E1.
    apply fold_cond_sound with (a := a) (b := b) (c := c) (5 := E').
    - constructor; [exact H1|]. constructor; [exact H2|]. constructor; [exact H3|constructor].
    - intros fuel Hf. rewrite <- E1. now apply operands_depth.
    - rewrite <- E1, operands_dynamic. auto.
    - intros rec env. cbn [operator_meaning]. rewrite E1. now destruct argument. }
  destruct argument; try (now apply (G _ eq_refl)). clear G.
  unfold bind in E. destruct (cond_fields parse d context None None None t) as [[[[i th] el] t1]|] eqn:Ec; [|discriminate].
  destruct i as [i|]; [|discriminate]. destruct th as [th|]; [|discriminate]. destruct el as [el|]; [|discriminate].
  destruct (cond_document d context t i th el t1 Ec Hc Hs) as (a & b & c & Hes & La & Lb & Lc & Hdyn).
  apply fold_cond_sound with (1 := Hes) (5 := E); auto.
  - intros fuel Hf. repeat constructor; eauto using field_depth.
  - intros rec env. cbn [operator_meaning]. now rewrite La, Lb, Lc.
Qed.

(** ** [$switch] *)

Lemma last_field_fresh k v d (s : string) : nodup_keys ((k, v) :: d) = true -> no_nul k -> Forall (fun kv => no_nul (fst kv)) d ->
  no_nulb (str s) = true -> (strcmp k (str s) =? 0) = true -> last_field d s = None.
Proof.
  intros Hd Hk Hn Hs E. destruct (last_field d s) as [x|] eqn:L; [|reflexivity]. exfalso.
  assert (X : last_field ((k, v) :: d) s = Some x) by now rewrite last_field_cons, L.
  assert (Y : last_field ((k, x) :: d) s = Some x) by now rewrite last_field_cons, L.
  cbn in Hd. apply andb_true_iff in Hd. destruct Hd as [Hx _]. apply negb_true_iff in Hx. unfold last_field in L.
  destruct (find _ (rev d)) as [[k2 v2]|] eqn:F; [|discriminate]. apply find_some in F. destruct F as [F1 F2]. apply in_rev in F1.
  assert (Z : existsb (fun kv => cmp_bytes (fst kv) k =? 0) d = true); [|congruence].
  apply existsb_exists. exists (k2, v2). split; [exact F1|]. cbn [fst] in *. rewrite Forall_forall in Hn.
  specialize (Hn _ F1). cbn [fst] in Hn. apply Z.eqb_eq, cmp_bytes_0.
  rewrite (named k s Hk Hs E). now apply named.
Qed.

Definition constant_pair (e : Data * Data) : Prop :=
  IsAggregationExpressionConstant (fst e) = true /\ IsAggregationExpressionConstant (snd e) = true.

Definition pair_sound (p : bson_value * bson_value) (e : Data * Data) : Prop := sound (fst p) (fst e) /\ sound (snd p) (snd e).

Lemma constant_dynamic v e : sound v e -> IsAggregationExpressionConstant e = true -> dynamic v = false.
Proof. intros H E. destruct e; try discriminate. now apply sound_folds in H as (_ & D & _). Qed.

Lemma branch_fields_sound context : context_ok now collation context -> forall d c0 t0 b0 t c th b t',
  branch_fields parse d context c0 t0 b0 t = Ok ((c, th, b), t') ->
  Forall (fun kv => plain_key (fst kv) = true /\ supported multi (snd kv) = true) d ->
  picked d "case" c0 c /\ picked d "then" t0 th /\
  (b = true -> b0 = true /\ existsb dynamic (map snd d) = false /\
     (option_map IsAggregationExpressionConstant c0 <> Some false -> option_map IsAggregationExpressionConstant c <> Some false) /\
     (option_map IsAggregationExpressionConstant t0 <> Some false -> option_map IsAggregationExpressionConstant th <> Some false)).
Proof.
  intros Hc. induction d as [|[k v] d IH]; intros c0 t0 b0 t c th b t' E Hs; cbn [branch_fields] in E.
  - injection E as <- <- <- _. now repeat split.
  - inversion_clear Hs as [|? ? [Hk Hv] Hs']. cbn [fst snd] in *. destruct (plain_key_split k Hk) as [_ Hn].
    destruct (strcmp k (str "case") =? 0) eqn:Ei; [|destruct (strcmp k (str "then") =? 0) eqn:Et; [|discriminate]];
      unfold bind in E; (destruct (parse v context t) as [[e t1]|] eqn:Ep; [|discriminate]); apply parse_sound in Ep; auto;
      destruct (IH _ _ _ _ _ _ _ _ E Hs') as (P1 & P2 & P3).
    + assert (Et := str_neq k "case" "then" Hn eq_refl eq_refl ltac:(discriminate) Ei).
      split; [eauto using picked_cons_same|]. split; [eauto using picked_cons_other|]. intros Hb.
      destruct (P3 Hb) as (Hb0 & Hd & HP & HQ). apply andb_true_iff in Hb0. destruct Hb0 as [Hb0 He]. split; [exact Hb0|].
      split; [cbn; now rewrite (constant_dynamic v e Ep He)|]. split; [|exact HQ]. intros _. apply HP. cbn. now rewrite He.
    + split; [eauto using picked_cons_other|]. split; [eauto using picked_cons_same|]. intros Hb.
      destruct (P3 Hb) as (Hb0 & Hd & HP & HQ). apply andb_true_iff in Hb0. destruct Hb0 as [Hb0 He]. split; [exact Hb0|].
      split; [cbn; now rewrite (constant_dynamic v e Ep He)|]. split; [exact HP|]. intros _. apply HQ. cbn. now rewrite He.
Qed.

Definition branch_pair (branch : bson_value) (p : bson_value * bson_value) : Prop :=
  exists d, branch = VDocument d /\ last_field d "case" = Some (fst p) /\ last_field d "then" = Some (snd p).

Lemma branch_sound context branch b0 t e b t' :
  ParseBranchForSwitch parse branch context b0 t = Ok ((e, b), t') -> context_ok now collation context -> supported multi branch = true ->
  exists p, branch_pair branch p /\ pair_sound p e /\ (b = true -> b0 = true /\ dynamic branch = false /\ constant_pair e).
Proof.
  intros E Hc Hs. unfold ParseBranchForSwitch in E. destruct branch; try discriminate. unfold bind in E.
  destruct (branch_fields parse d context None None b0 t) as [[[[c th] b1] t1]|] eqn:Eb; [|discriminate].
  destruct c as [c|]; [|discriminate]. destruct th as [th|]; [|discriminate]. injection E as <- <- _.
  assert (Hop : not_operator d).
  { unfold not_operator, is_operator_value. destruct d as [|[k v] d]; [reflexivity|]. destruct (is_operator_key k) eqn:Ek; [|reflexivity].
    assert (Hn := supported_head k v d Hs Ek). cbn [branch_fields] in Eb. rewrite !named_not_operator in Eb by easy. discriminate. }
  destruct (supported_document multi d Hs Hop) as [Hnd Hfs].
  destruct (branch_fields_sound context Hc _ _ _ _ _ _ _ _ _ Eb Hfs) as (P1 & P2 & P3). unfold picked in *.
  destruct (last_field d "case") as [x|] eqn:Lx; [|discriminate]. destruct P1 as (? & [= <-] & Sx).
  destruct (last_field d "then") as [y|] eqn:Ly; [|discriminate]. destruct P2 as (? & [= <-] & Sy).
  exists (x, y). split; [exists d; auto|]. split; [now split|]. intros Hb. destruct (P3 Hb) as (Hb0 & Hd & HP & HQ).
  split; [exact Hb0|]. split; [now rewrite (document_dynamic d Hop)|].
  split; cbn [fst snd].
  - specialize (HP ltac:(discriminate)). cbn in HP. now destruct (IsAggregationExpressionConstant c).
  - specialize (HQ ltac:(discriminate)). cbn in HQ. now destruct (IsAggregationExpressionConstant th).
Qed.

Lemma branches_sound context : context_ok now collation context -> forall bs args0 b0 t args b t',
  parse_branches parse bs context args0 b0 t = Ok ((args, b), t') -> Forall (fun a => supported multi a = true) (map snd bs) ->
  exists pairs es, args = args0 ++ es /\ Forall2 branch_pair (map snd bs) pairs /\ Forall2 pair_sound pairs es /\
    (b = true -> b0 = true /\ existsb dynamic (map snd bs) = false /\ Forall constant_pair es).
Proof.
  intros Hc. induction bs as [|[k branch] bs IH]; intros args0 b0 t args b t' E Hs; cbn [parse_branches] in E.
  - injection E as <- <- _. exists [], []. rewrite app_nil_r. now repeat split.
  - cbn [map snd] in *. inversion_clear Hs as [|? ? Hb Hs']. unfold bind in E.
    destruct (ParseBranchForSwitch parse branch context b0 t) as [[[e b1] t1]|] eqn:Eb; [|discriminate].
    destruct (branch_sound _ _ _ _ _ _ _ Eb Hc Hb) as (p & Hp & Hps & Hpc).
    destruct (IH _ _ _ _ _ _ E Hs') as (pairs & es & -> & Hbp & Hsp & Hcp).
    exists (p :: pairs), (e :: es). rewrite <- app_assoc. split; [reflexivity|]. split; [now constructor|]. split; [now constructor|].
    intros H. destruct (Hcp H) as (H1 & H2 & H3). destruct (Hpc H1) as (H4 & H5 & H6). split; [exact H4|].
    split; [cbn; now rewrite H5|now constructor].
Qed.

(** What the fields of a [$switch] leave: the branches and the default. *)
Definition switch_parsed (d : fields) (args0 : list (Data * Data)) (def0 : option (Data * Data)) (b0 : bool)
  (args : list (Data * Data)) (def : option (Data * Data)) (b : bool) : Prop :=
  match last_field d "branches" with
  | Some (VArray bs) =>
    exists pairs es, args = args0 ++ es /\ Forall2 branch_pair (map snd bs) pairs /\ Forall2 pair_sound pairs es /\
      (b = true -> Forall constant_pair es)
  | Some _ => False
  | None => args = args0
  end /\
  match last_field d "default" with
  | Some v => exists e, def = Some e /\ pair_sound (VBool true, v) e /\ (b = true -> constant_pair e)
  | None => def = def0
  end /\
  (b = true -> b0 = true /\ existsb dynamic (map snd d) = false).

Lemma switch_fields_sound context : context_ok now collation context -> forall d args0 def0 b0 t args def b t',
  switch_fields parse d context args0 def0 b0 t = Ok ((args, def, b), t') -> fields_supported multi d ->
  switch_parsed d args0 def0 b0 args def b.
Proof.
  intros Hc. induction d as [|[k v] d IH]; intros args0 def0 b0 t args def b t' E [Hn Hs]; cbn [switch_fields] in E.
  - injection E as <- <- <- _. repeat split; auto.
  - inversion_clear Hs as [|? ? [Hk Hv] Hs']. cbn [fst snd] in *. destruct (plain_key_split k Hk) as [_ Hnk].
    assert (Hn' : nodup_keys d = true) by (cbn in Hn; now apply andb_true_iff in Hn).
    assert (Hf : forall s, no_nulb (str s) = true -> (strcmp k (str s) =? 0) = true -> last_field d s = None)
      by (intros s H1 H2; now apply last_field_fresh with k v; auto using keys_no_nul).
    unfold switch_parsed. rewrite !last_field_cons. destruct (strcmp k (str "branches") =? 0) eqn:Eb.
    + rewrite (Hf "branches"%string eq_refl Eb). rewrite (str_neq k "branches" "default" Hnk eq_refl eq_refl ltac:(discriminate) Eb).
      destruct v; try discriminate. unfold bind in E.
      destruct (parse_branches parse d0 context args0 b0 t) as [[[args1 b1] t1]|] eqn:Ep; [|discriminate].
      destruct (branches_sound context Hc _ _ _ _ _ _ _ Ep (operands_supported (VArray d0) Hv)) as (pairs & es & -> & Hbp & Hsp & Hcp).
      apply IH in E; [|now split]. destruct E as (E1 & E2 & E3). rewrite (Hf "branches"%string eq_refl Eb) in E1.
      split; [|split].
      * exists pairs, es. repeat split; auto. intros H. now apply Hcp, E3.
      * destruct (last_field d "default"); auto.
      * intros H. destruct (E3 H) as [H1 H2]. destruct (Hcp H1) as (H3 & H4 & _). split; [exact H3|].
        cbn [map snd existsb]. rewrite H2, orb_false_r. cbn [dynamic]. now rewrite dynamic_values.
    + destruct (strcmp k (str "default") =? 0) eqn:Ed; [|discriminate]. rewrite (Hf "default"%string eq_refl Ed).
      unfold bind in E. destruct (parse (VBool true) context t) as [[c t1]|] eqn:E1; [|discriminate].
      destruct (parse v context t1) as [[e t2]|] eqn:E2; [|discriminate]. apply parse_sound in E1, E2; auto.
      apply IH in E; [|now split]. destruct E as (F1 & F2 & F3). rewrite (Hf "default"%string eq_refl Ed) in F2. split; [|split].
      * destruct (last_field d "branches") as [[]|]; auto.
      * exists (c, e). split; [exact F2|]. split; [now split|]. intros H. destruct (F3 H) as [H1 _].
        rewrite !andb_true_iff in H1. split; tauto.
      * intros H. destruct (F3 H) as [H1 H2]. rewrite !andb_true_iff in H1. split; [tauto|].
        cbn. rewrite H2. now rewrite (constant_dynamic v e E2) by tauto.
Qed.

Lemma pairs_meaning_switch rec env branches pairs default : rec env (VBool true) = Ok (VBool true) ->
  Forall2 branch_pair branches pairs ->
  switch_meaning rec env branches default =
  pairs_meaning env rec (pairs ++ match default with Some v => [(VBool true, v)] | None => [] end).
Proof.
  intros Ht. induction 1 as [|branch [c th] branches pairs (d & -> & Lc & Lt) H IH]; cbn [switch_meaning app pairs_meaning].
  - destruct default as [v|]; [|reflexivity]. cbn [pairs_meaning]. rewrite Ht. cbn [res_bind]. reflexivity.
  - cbn [fst snd] in *. rewrite Lc, Lt. now rewrite IH.
Qed.

Lemma fold_switch_pairs fuel env pairs es c : Forall2 pair_sound pairs es -> Forall constant_pair es ->
  Forall (fun p => (vdepth (fst p) < fuel)%nat /\ (vdepth (snd p) < fuel)%nat) pairs ->
  fold_switch es = Ok (Some c) -> pairs_meaning env (value_of fuel) pairs = Ok c /\ plain c = true.
Proof.
  induction 1 as [|[a b] [x y] pairs es [Ha Hb] H IH]; intros Hcon Hd E; [discriminate|].
  inversion_clear Hcon as [|? ? [Hx Hy] Hcon']. inversion_clear Hd as [|? ? [Da Db] Hd']. cbn [fst snd] in *.
  destruct x; try discriminate. destruct y; try discriminate. apply sound_folds in Ha, Hb.
  destruct Ha as (_ & _ & Ma), Hb as (Pb & _ & Mb). cbn [fold_switch constant_value pairs_meaning] in *.
  rewrite Ma by assumption. cbn [res_bind]. destruct (BsonValueAsBool value) as [[|]|]; [|now apply IH|discriminate].
  injection E as <-. cbn [res_bind]. now rewrite Mb.
Qed.

(** A [$switch] whose cases and results evaluate as they mean. *)
Lemma pairs_ok fuel pairs es : Forall2 pair_sound pairs es ->
  Forall (fun p => (vdepth (fst p) < fuel)%nat /\ (vdepth (snd p) < fuel)%nat) pairs -> forall ctx env, env_ok ctx env ->
  Forall (fun p => good_argument env (value_of fuel) (snd p)) pairs /\
  eventually (fun k => Forall2 (pair_ok handle_other multi root k ctx env (value_of fuel)) pairs es).
Proof.
  induction 1 as [|[a b] [x y] pairs es [Ha Hb] H IH]; intros Hd ctx env He; [split; [constructor|apply eventually_true; constructor]|].
  inversion_clear Hd as [|? ? [Da Db] Hd']. destruct (IH Hd' ctx env He) as [IHg IHe]. cbn [fst snd] in *.
  destruct (Ha fuel Da) as [Ga _]. destruct (Ga (NoVariables :: ctx) env false He) as (_ & Va & _).
  destruct (Hb fuel Db) as [Gb _]. destruct (Gb (NoVariables :: ctx) env false He) as (Gg & Vb & _).
  split; [now constructor|]. generalize (eventually_and _ _ IHe (eventually_and _ _ Va Vb)).
  apply eventually_mono. intros k (Hk & Hx & Hy). constructor; [now split|exact Hk].
Qed.

Lemma branch_depths fuel branches pairs : Forall2 branch_pair branches pairs -> Forall (fun a => (vdepth a < fuel)%nat) branches ->
  Forall (fun p => (vdepth (fst p) < fuel)%nat /\ (vdepth (snd p) < fuel)%nat) pairs.
Proof.
  induction 1 as [|branch p branches pairs (d & -> & Lc & Lt) H IH]; intros Hd; [constructor|].
  inversion_clear Hd. constructor; [|now apply IH]. split; eauto using field_depth.
Qed.

Lemma switch_sound argument context t parsed t' : ParseDollarSwitch parse argument context t = Ok (parsed, t') ->
  context_ok now collation context -> supported multi argument = true -> operator_sound DollarSwitch argument parsed.
Proof.
  unfold ParseDollarSwitch. intros E Hc Hs. destruct argument; try discriminate. unfold bind at 1 in E.
  destruct (switch_fields parse d context [] None true t) as [[[[args def] b] t1]|] eqn:Ef; [|discriminate].
  assert (Hop : not_operator d).
  { unfold not_operator, is_operator_value. destruct d as [|[k v] d]; [reflexivity|]. destruct (is_operator_key k) eqn:Ek; [|reflexivity].
    assert (Hn := supported_head k v d Hs Ek). cbn [switch_fields] in Ef. rewrite !named_not_operator in Ef by easy. discriminate. }
  apply switch_fields_sound in Ef; auto using supported_document. destruct Ef as (Eb & Ed & Ec).
  destruct (last_field d "branches") as [v|] eqn:Lb; [|subst; discriminate]. destruct v as [| | | | bs | | | | | | | | | | | | | | | | |]; try contradiction.
  destruct Eb as (pairs & es & -> & Hbp & Hsp & Hcp). cbn [app] in E.
  set (default_pair := match last_field d "default" with Some v => [(VBool true, v)] | None => [] end).
  set (default_entry := match def with Some e => [e] | None => [] end) in *.
  assert (Hdef : Forall2 pair_sound default_pair default_entry /\ (b = true -> Forall constant_pair default_entry)).
  { unfold default_pair, default_entry. destruct (last_field d "default") as [v|].
    - destruct Ed as (e & -> & He & Hce). split; [constructor; [exact He|constructor]|]. intros Hb. constructor; [now apply Hce|constructor].
    - subst def. split; constructor. }
  destruct Hdef as [Hds Hdc].
  assert (Hall : Forall2 pair_sound (pairs ++ default_pair) (es ++ default_entry)) by now apply Forall2_app.
  assert (Hdep : forall fuel, (vdepth (VDocument d) < fuel)%nat ->
    Forall (fun p => (vdepth (fst p) < fuel)%nat /\ (vdepth (snd p) < fuel)%nat) (pairs ++ default_pair)).
  { intros fuel Hf. apply Forall_app. split.
    - apply branch_depths with (1 := Hbp). apply (operands_depth (VArray bs)). now apply field_depth with (1 := Lb).
    - unfold default_pair. destruct (last_field d "default") as [v|] eqn:Ld; [|constructor]. constructor; [|constructor].
      split; [cbn; lia|now apply field_depth with (1 := Ld)]. }
  assert (Hm : forall fuel env, (vdepth (VDocument d) < fuel)%nat ->
    operator_meaning collation (value_of fuel) env DollarSwitch (VDocument d) = pairs_meaning env (value_of fuel) (pairs ++ default_pair)).
  { intros [|fuel] env Hf; [lia|]. cbn [operator_meaning]. rewrite Lb. now apply pairs_meaning_switch. }
  destruct es as [|e0 es]; [discriminate|]. destruct b.
  - unfold bind, lift in E. destruct (fold_switch ((e0 :: es) ++ default_entry)) as [[c|]|] eqn:Efold; try discriminate.
    injection E as <- _. intros fuel Hf.
    assert (Hcon : Forall constant_pair ((e0 :: es) ++ default_entry)) by (apply Forall_app; split; auto).
    assert (R : forall env, pairs_meaning env (value_of fuel) (pairs ++ default_pair) = Ok c /\ plain c = true)
      by (intros env; exact (fold_switch_pairs fuel env _ _ c Hall Hcon (Hdep fuel Hf) Efold)).
    split; [now destruct (R [])|]. split; [destruct (Ec eq_refl) as [_ Hd]; cbn [dynamic_argument]; now rewrite document_dynamic|].
    intros env. rewrite Hm by exact Hf. now destruct (R env).
  - injection E as <- _. intros fuel Hf. apply gives_operator. intros ctx env He. rewrite Hm by exact Hf.
    destruct (pairs_ok fuel _ _ Hall (Hdep fuel Hf) ctx env He) as [Hg Hk]. split; [now apply pairs_good|].
    revert Hk. apply eventually_mono. intros k Hk. exact (handle_switch handle_other multi root k ctx env He (value_of fuel) _ _ Hk Hg).
Qed.

(** ** [$let] *)

Lemma let_fields_last d : forall vars0 body0 vars body, let_fields d vars0 body0 = Ok (vars, body) ->
  Forall (fun kv => plain_key (fst kv) = true /\ supported multi (snd kv) = true) d ->
  vars = match last_field d "vars" with Some v => v | None => vars0 end /\
  body = match last_field d "in" with Some v => v | None => body0 end.
Proof.
  induction d as [|[k v] d IH]; intros vars0 body0 vars body E Hs; cbn [let_fields] in E; [now injection E as <- <-|].
  inversion_clear Hs as [|? ? [Hk _] Hs']. cbn [fst] in Hk. destruct (plain_key_split k Hk) as [_ Hn]. rewrite !last_field_cons.
  destruct (strcmp k (str "vars") =? 0) eqn:Ev.
  - rewrite (str_neq k "vars" "in" Hn eq_refl eq_refl ltac:(discriminate) Ev).
    destruct (IH _ _ _ _ E Hs') as [-> ->]. split; [now destruct (last_field d "vars")|now destruct (last_field d "in")].
  - destruct (strcmp k (str "in") =? 0) eqn:Ei; [|discriminate].
    destruct (IH _ _ _ _ E Hs') as [-> ->]. split; [now destruct (last_field d "vars")|now destruct (last_field d "in")].
Qed.

(** The variables of a frame and their values. *)
Definition frame_matches (ctx : @ExpressionVariableContext OtherArguments) (frame : VariableFrame) (bs : list (bytes * res bson_value)) : Prop :=
  match frame with
  | NoVariables => bs = []
  | SingleVariable var => exists b, bs = [b] /\ variable_ok handle_other multi root ctx var b
  | VariableTable _ entries => multi = true /\ bs <> [] /\ Forall2 (variable_ok handle_other multi root ctx) entries bs
  end.

Lemma frame_env ctx env frame bs : frame_matches ctx frame bs -> env_ok ctx env -> env_ok (frame :: ctx) (extend env bs).
Proof.
  destruct frame as [|var|table entries]; cbn [frame_matches AggOutcome.env_ok].
  - intros -> He. exact He.
  - intros (b & -> & Hb) He. exists b, env. auto.
  - intros (Hm & Hne & Hb) He. split; [exact Hm|]. exists bs, env. split; [now destruct bs|auto].
Qed.

Lemma insert_matches ctx var b entries bs : Forall2 (variable_ok handle_other multi root ctx) entries bs ->
  variable_ok handle_other multi root ctx var b ->
  Forall2 (variable_ok handle_other multi root ctx) (InsertVariableToContextTable var entries) (bind_variable bs (fst b) (snd b)).
Proof.
  intros H Hb. assert (Hb' := Hb). destruct Hb' as (Hn & Hsup & _). destruct (variable_supported_ok _ Hsup) as [Hok _].
  induction H as [|e b' entries bs He H IH]; cbn [InsertVariableToContextTable bind_variable].
  - constructor; [now destruct b|constructor].
  - assert (He' := He). destruct He' as (Hn' & Hsup' & _). destruct (variable_supported_ok _ Hsup') as [Hok' _].
    rewrite Hn, Hn', (compare_names _ _ Hok' Hok). destruct (cmp_bytes (fst b') (fst b) =? 0); constructor; auto; now destruct b.
Qed.

Lemma bind_variable_cons bs name m : bind_variable bs name m <> [].
Proof. destruct bs as [|b bs]; cbn; [discriminate|]. now destruct (cmp_bytes (fst b) name =? 0). Qed.

(** A further variable. *)
Lemma set_variable ctx frame bs var b t frame' t' : frame_matches ctx frame bs -> variable_ok handle_other multi root ctx var b ->
  (multi = true \/ frame = NoVariables) ->
  VariableContextSetVariableData frame var t = Ok (frame', t') -> frame_matches ctx frame' (bind_variable bs (fst b) (snd b)).
Proof.
  intros Hf Hb Hm E. assert (Hb' := Hb). destruct Hb' as (Hn & Hsup & _). destruct (variable_supported_ok _ Hsup) as [Hok _].
  destruct frame as [|cur|table entries]; cbn [VariableContextSetVariableData frame_matches] in *.
  - injection E as <- _. subst bs. exists b. split; [now destruct b|exact Hb].
  - destruct Hf as (b0 & -> & Hb0). assert (Hb0' := Hb0). destruct Hb0' as (Hn0 & Hsup0 & _). destruct (variable_supported_ok _ Hsup0) as [Hok0 _].
    rewrite Hn, Hn0, (same_name_iff (fst b) (fst b0) (proj2 Hok)) in E. cbn [bind_variable].
    destruct (cmp_bytes (fst b0) (fst b) =? 0) eqn:Ec.
    + injection E as <- _. exists b. split; [now destruct b|exact Hb].
    + injection E as <- _. cbn [frame_matches]. split; [now destruct Hm|]. split; [discriminate|].
      pose proof (insert_matches ctx var b [cur] [b0] ltac:(constructor; [exact Hb0|constructor]) Hb) as I0.
      cbn [bind_variable] in I0. rewrite Ec in I0. exact I0.
  - unfold bind, read_table in E. destruct (existsb _ _); [discriminate|]. injection E as <- _.
    destruct Hf as (Hmu & Hne & Hf). cbn [frame_matches]. split; [exact Hmu|]. split; [apply bind_variable_cons|now apply insert_matches].
Qed.

Lemma sound_variable_ok fuel ctx env name v e : sound v e -> (vdepth v < fuel)%nat -> env_ok ctx env -> variable_supported name = true ->
  variable_ok handle_other multi root ctx (Expression_Variable name e) (name, value_of fuel env v).
Proof.
  intros Hs Hf He Hn. destruct (Hs fuel Hf) as [G _]. destruct (G (NoVariables :: ctx) env false He) as (Gg & Gv & _).
  split; [reflexivity|]. split; [exact Hn|]. split; [exact Gg|exact Gv].
Qed.

Lemma variable_spec_sound context : context_ok now collation context -> forall vars frame t frame' t',
  ParseVariableSpec parse vars (Some frame) context t = Ok (frame', t') ->
  Forall (fun kv => variable_supported (fst kv) = true /\ supported multi (snd kv) = true) vars ->
  (multi = true \/ (List.length vars + match frame with NoVariables => 0 | _ => 1 end <= 1)%nat) ->
  exists f, frame' = Some f /\
  forall fuel ctx env bs, Forall (fun a => (vdepth a < fuel)%nat) (map snd vars) -> env_ok ctx env -> frame_matches ctx frame bs ->
  frame_matches ctx f (fold_left (fun bs kv => bind_variable bs (fst kv) (value_of fuel env (snd kv))) vars bs).
Proof.
  intros Hc. induction vars as [|[name v] vars IH]; intros frame t frame' t' E Hs Hm; cbn [ParseVariableSpec] in E.
  - injection E as <- _. exists frame. auto.
  - inversion_clear Hs as [|? ? [Hn Hv] Hs']. cbn [fst snd] in *. unfold bind at 1, lift in E.
    destruct (ValidateVariableName name); [|discriminate]. unfold bind at 1 in E.
    destruct (parse v context t) as [[e t1]|] eqn:Ep; [|discriminate]. apply parse_sound in Ep; auto.
    unfold bind at 1 2 in E. unfold VariableContextSetVariableExpression in E.
    destruct (VariableContextSetVariableData frame (Expression_Variable name e) t1) as [[frame1 t2]|] eqn:Es; [|discriminate]. cbn [ret] in E.
    assert (Hm' : multi = true \/ frame = NoVariables).
    { destruct Hm as [Hm|Hm]; [now left|right]. destruct frame; [reflexivity| |]; cbn [List.length] in Hm; lia. }
    destruct (IH frame1 t2 frame' t' E Hs') as (f & -> & Hf).
    { destruct Hm as [Hm|Hm]; [now left|right]. cbn [List.length] in Hm. destruct vars; [|cbn [List.length] in Hm; lia]. cbn. destruct frame1; lia. }
    exists f. split; [reflexivity|]. intros fuel ctx env bs Hd He Hb. cbn [map snd] in Hd. inversion_clear Hd as [|? ? Dv Hd'].
    cbn [fold_left fst snd]. apply Hf; auto.
    exact (set_variable ctx frame bs _ (name, value_of fuel env v) t1 frame1 t2 Hb (sound_variable_ok fuel ctx env name v e Ep Dv He Hn) Hm' Es).
Qed.

Lemma operator_key_invalid k : no_nul k -> is_operator_key k = true -> exists e, ValidateVariableName k = Err e.
Proof.
  intros Hn Hk. unfold is_operator_key in Hk. apply andb_true_iff in Hk. destruct Hk as [Hl Hd].
  destruct k as [|b k]; [discriminate|]. cbn [nth] in Hd. apply byte_eqb_eq in Hd. subst b.
  unfold ValidateVariableName, ValidateVariableNameCore. destruct (blen _ <=? 0); [eauto|]. cbn [variable_name_loop].
  change (isascii "$") with true. change (islower "$") with false. change (isupper "$") with false. cbn [andb negb orb].
  unfold IsOverridableSystemVariable. destruct (same_name ("$"%byte :: k) (str "CURRENT")) eqn:E; [|eexists; reflexivity].
  exfalso. unfold same_name in E. apply StringViewEquals_iff in E; [discriminate|exact Hn].
Qed.

Lemma variables_supported context vars frame t r : ParseVariableSpec parse vars frame context t = Ok r ->
  supported multi (VDocument vars) = true -> forallb (fun kv => variable_supported (fst kv)) vars = true ->
  Forall (fun kv => variable_supported (fst kv) = true /\ supported multi (snd kv) = true) vars.
Proof.
  intros E Hs Hv.
  assert (Hop : not_operator vars).
  { unfold not_operator, is_operator_value. destruct vars as [|[k v] vars]; [reflexivity|]. destruct (is_operator_key k) eqn:Ek; [|reflexivity].
    destruct (operator_key_invalid k (supported_head k v vars Hs Ek) Ek) as [e Ee]. cbn [ParseVariableSpec] in E.
    unfold bind at 1, lift in E. rewrite Ee in E. discriminate. }
  destruct (supported_document multi vars Hs Hop) as [_ Hf]. rewrite forallb_forall in Hv. rewrite Forall_forall in *.
  intros kv Hin. split; [now apply Hv|now apply Hf].
Qed.

Lemma literal_meaning fuel env v : scalar_literal v = true -> means (S fuel) env v false = Ok v /\ plain v = true.
Proof.
  intros H. destruct v; cbn [scalar_literal] in H; try discriminate; try (split; [reflexivity|exact H]).
  apply negb_true_iff in H. split; [|reflexivity]. cbn [meaning]. now apply not_reference_meaning.
Qed.

Lemma spec_without_context vars context : forall t f t', ParseVariableSpec parse vars None context t = Ok (f, t') -> f = None.
Proof.
  induction vars as [|[name v] vars IH]; intros t f t' E; cbn [ParseVariableSpec] in E; [now injection E as <- _|].
  unfold bind, lift in E. destruct (ValidateVariableName name); [|discriminate]. destruct (parse v context t) as [[e t1]|]; [|discriminate].
  cbn [ret] in E. now apply IH in E.
Qed.

Lemma let_sound argument context t parsed t' : ParseDollarLet parse argument context t = Ok (parsed, t') ->
  context_ok now collation context -> supported multi argument = true -> let_supported multi argument = true ->
  operator_sound DollarLet argument parsed.
Proof.
  unfold ParseDollarLet. intros E Hc Hs Hlet. destruct argument; try discriminate. unfold bind at 1, lift in E.
  destruct (let_fields d VEod VEod) as [[vars body]|] eqn:Ef; [|discriminate].
  assert (Hop : not_operator d).
  { unfold not_operator, is_operator_value. destruct d as [|[k v] d]; [reflexivity|]. destruct (is_operator_key k) eqn:Ek; [|reflexivity].
    assert (Hn := supported_head k v d Hs Ek). cbn [let_fields] in Ef. rewrite !named_not_operator in Ef by easy. discriminate. }
  destruct (supported_document multi d Hs Hop) as [Hnd Hfs]. destruct (let_fields_last d _ _ _ _ Ef Hfs) as [Ev Eb].
  assert (Hfield : forall s v, last_field d s = Some v -> supported multi v = true).
  { intros s v L. apply last_field_in, in_map_iff in L. destruct L as (kv & <- & Hin). rewrite Forall_forall in Hfs. now apply Hfs. }
  cbn [let_supported] in Hlet. destruct (last_field d "vars") as [vars'|] eqn:Lv; [subst vars|subst vars; discriminate].
  destruct (last_field d "in") as [body'|] eqn:Lb; [subst body|subst body; now destruct vars'].
  destruct vars' as [| | | vars | | | | | | | | | | | | | | | | | |]; try (now destruct body').
  assert (E' : bind (parse body' context) (fun inData =>
      bind (ParseVariableSpec parse vars (if IsAggregationExpressionConstant inData then None else Some NoVariables) context)
        (fun frame => match frame with None => ret (Folded body') | Some frame => ret (Operands (LetArguments inData frame)) end)) t
    = Ok (parsed, t')) by (destruct body'; try exact E; discriminate). clear E.
  rewrite !andb_true_iff in Hlet. destruct Hlet as [[Hnames Hcount] Hbody].
  unfold bind at 1 in E'. destruct (parse body' context t) as [[e t1]|] eqn:Ep; [|discriminate]. apply parse_sound in Ep; eauto.
  unfold bind in E'. destruct (ParseVariableSpec parse vars _ context t1) as [[frame t2]|] eqn:Es; [|discriminate].
  assert (Hvars := variables_supported _ _ _ _ _ Es (Hfield _ _ Lv) Hnames).
  assert (Hm : forall rec env, operator_meaning collation rec env DollarLet (VDocument d) = rec (extend env (let_frame rec env vars)) body')
    by (intros rec env; cbn [operator_meaning]; now rewrite Lv, Lb).
  destruct (IsAggregationExpressionConstant e) eqn:Ec.
  - apply spec_without_context in Es. subst frame. injection E' as <- _. rewrite (constant_dynamic _ _ Ep Ec) in Hbody. cbn [orb] in Hbody.
    intros [|fuel] Hf; [lia|]. destruct (literal_meaning fuel [] body' Hbody) as [_ P]. split; [exact P|]. split.
    + cbn [dynamic_argument]. destruct (existsb _ d) eqn:Ex; [|reflexivity]. exfalso. apply existsb_exists in Ex. destruct Ex as ([k v] & Hin & Hx).
      cbn [fst snd] in Hx. apply andb_true_iff in Hx. destruct Hx as [Hk Hv]. unfold is_name in Hk.
      rewrite (last_field_unique d "in" Hnd (keys_no_nul d Hfs) eq_refl k v Hin Hk) in Lb. injection Lb as ->.
      rewrite (constant_dynamic _ _ Ep Ec) in Hv. discriminate.
    + intros env. rewrite Hm. now destruct (literal_meaning fuel (extend env (let_frame (value_of (S fuel)) env vars)) body' Hbody).
  - destruct (variable_spec_sound context Hc vars NoVariables t1 frame t2 Es Hvars) as (f & -> & Hf).
    { apply orb_true_iff in Hcount. destruct Hcount as [Hcount|Hcount]; [now left|right]. apply Nat.leb_le in Hcount. lia. }
    injection E' as <- _. intros fuel Hdep. apply gives_operator. intros ctx env He. rewrite Hm.
    assert (Dv : Forall (fun a => (vdepth a < fuel)%nat) (map snd vars)).
    { apply vdepth_fields. pose proof (field_depth d "vars" _ fuel Lv Hdep) as D. cbn [vdepth] in D. lia. }
    assert (Hext : env_ok (f :: ctx) (extend env (let_frame (value_of fuel) env vars)))
      by (apply frame_env; [exact (Hf fuel ctx env [] Dv He eq_refl)|exact He]).
    destruct (Ep fuel (field_depth d "in" _ fuel Lb Hdep)) as [G _]. destruct (G _ _ false Hext) as (Gg & Gv & _).
    split; [exact Gg|]. revert Gv. apply eventually_mono. intros k Gv.
    exact (handle_let handle_other multi root k ctx env He (value_of fuel) body' e f _ Gv Gg).
Qed.

(** ** The table of operators *)

Abbreviation table := (OperatorExpressions EnableCollation null_string parse_other parse).

Definition item_sound (item : @MongoOperatorExpression OtherArguments) : Prop :=
  match parseAggregationExpressionFunc item with
  | None => True
  | Some f =>
    (forall argument, dynamic (VDocument [(operatorName item, argument)]) =
       match handlePreParsedOperatorFunc item with None => false | Some h => dynamic_argument h argument end) /\
    forall argument context t parsed t', f argument context t = Ok (parsed, t') -> context_ok now collation context ->
    match handlePreParsedOperatorFunc item with
    | None => parsed = Folded argument
    | Some h => operator_supported multi h argument = true -> supported multi argument = true -> operator_sound h argument parsed
    end
  end.

Lemma other_sound name : (forall argument, dynamic (VDocument [(str name, argument)]) = dynamic argument) ->
  item_sound (other parse_other name).
Proof. intros H. split; [exact H|]. intros; discriminate. Qed.

Lemma literal_sound name : (forall argument, dynamic (VDocument [(str name, argument)]) = false) ->
  item_sound (literal name).
Proof. intros H. split; [exact H|]. intros argument context t parsed t' E _. now injection E as <- _. Qed.

Lemma op_sound name f h : (forall argument, dynamic (VDocument [(str name, argument)]) = dynamic_argument h argument) ->
  (forall argument context t parsed t', f argument context t = Ok (parsed, t') -> context_ok now collation context ->
     operator_supported multi h argument = true -> supported multi argument = true -> operator_sound h argument parsed) ->
  item_sound (op name f h).
Proof. intros Hd H. split; [exact Hd|exact H]. Qed.

Lemma table_sound : Forall item_sound table.
Proof.
  unfold OperatorExpressions, compare_op, one_operand, two_operands, round_operands.
  repeat apply Forall_cons; try apply Forall_nil; try exact I;
    first [apply other_sound; reflexivity | apply literal_sound; reflexivity
          | apply op_sound; [reflexivity|];
            cbn [operator_supported]; intros;
            eauto using and_sound, or_sound, not_sound, comparison_sound, if_null_sound, cond_sound, switch_sound, add_sound, multiply_sound,
              one_operand_sound, two_operands_sound, round_sound, let_sound ].
Qed.

Definition item_summary {O : Set} (item : @MongoOperatorExpression O) : bytes * bool * option HandlePreParsedOperatorFunc :=
  (operatorName item, match parseAggregationExpressionFunc item with Some _ => true | None => false end, handlePreParsedOperatorFunc item).

Lemma find_summary {A B : Set} (l : list (@MongoOperatorExpression A)) : forall (l' : list (@MongoOperatorExpression B)) name,
  map item_summary l = map item_summary l' ->
  option_map item_summary (find (fun i => cmp_bytes (operatorName i) name =? 0) l) =
  option_map item_summary (find (fun i => cmp_bytes (operatorName i) name =? 0) l').
Proof.
  induction l as [|i l IH]; intros [|i' l'] name E; try discriminate; [reflexivity|]. injection E as N P H E. cbn [find].
  rewrite N. destruct (cmp_bytes (operatorName i') name =? 0); [|now apply IH]. cbn. unfold item_summary. now rewrite N, P, H.
Qed.

(** The handler of an operator of the table. *)
Lemma handler_of_item name item : find (fun i => cmp_bytes (operatorName i) name =? 0) table = Some item ->
  handler_of name = match parseAggregationExpressionFunc item with Some _ => Some (handlePreParsedOperatorFunc item) | None => None end.
Proof.
  intros F. unfold handler_of.
  set (reference := OperatorExpressions (OtherArguments := Empty_set) false VEod
    (fun _ _ _ => raise ERRCODE_INTERNAL_ERROR) (fun _ _ => raise ERRCODE_INTERNAL_ERROR)).
  pose proof (find_summary table reference name eq_refl) as S. rewrite F in S.
  destruct (find _ reference) as [i|]; [|discriminate]. injection S as S0 S1 S2.
  destruct (parseAggregationExpressionFunc item), (parseAggregationExpressionFunc i); try discriminate; congruence.
Qed.

(** ** The parser *)

Lemma operator_document_sound depth name argument context t e t' :
  ParseDocumentAggregationExpressionData EnableCollation null_string handle_other parse_other parse depth [(name, argument)] context t = Ok (e, t') ->
  is_operator_key name = true -> context_ok now collation context -> supported multi (VDocument [(name, argument)]) = true ->
  sound (VDocument [(name, argument)]) e.
Proof.
  intros E Hk Hc Hs. assert (Hn := supported_head name argument [] Hs Hk). unfold ParseDocumentAggregationExpressionData in E. rewrite Hk in E.
  rewrite table_search in E by exact Hn. destruct (find _ table) as [item|] eqn:F; [|discriminate].
  assert (Hh := handler_of_item name item F). apply find_some in F. destruct F as [Hin Hname]. apply Z.eqb_eq, cmp_bytes_0 in Hname.
  pose proof table_sound as T. rewrite Forall_forall in T. specialize (T item Hin). unfold item_sound in T.
  destruct (parseAggregationExpressionFunc item) as [f|]; [|discriminate]. destruct T as [Hdyn T].
  unfold bind in E. destruct (f argument context t) as [[parsed t1]|] eqn:Ef; [|discriminate]. specialize (T _ _ _ _ _ Ef Hc).
  cbn [supported] in Hs. rewrite Hk, Hh in Hs. specialize (Hdyn argument). rewrite Hname in Hdyn.
  assert (Hm : forall fuel env noe, means (S fuel) env (VDocument [(name, argument)]) noe =
    match handlePreParsedOperatorFunc item with
    | None => Ok argument
    | Some h => operator_meaning collation (value_of fuel) env h argument
    end).
  { intros fuel env noe. cbn [meaning is_operator_value]. rewrite Hk, Hh. reflexivity. }
  destruct (handlePreParsedOperatorFunc item) as [h|].
  - rewrite !andb_true_iff in Hs. destruct Hs as (_ & _ & Hs1 & Hs2). specialize (T Hs1 Hs2). intros [|fuel] Hf; [lia|].
    assert (Hd : (vdepth argument < fuel)%nat) by (cbn [vdepth fold_right snd] in Hf; lia). specialize (T fuel Hd).
    destruct parsed as [c|arguments].
    + injection E as <- _. destruct T as (P & D & M). split.
      * intros ctx env noe He. rewrite Hm, M. exact (gives_constant handle_other multi root c P ctx env noe He).
      * intros c' [= <-]. split; [exact P|]. split; [now rewrite Hdyn|]. intros env noe. now rewrite Hm.
    + injection E as <- _. split; [|discriminate]. intros ctx env noe He. rewrite Hm. exact (T ctx env noe He).
  - rewrite !andb_true_iff in Hs. destruct Hs as (_ & _ & Hp). subst parsed. injection E as <- _.
    apply sound_constant; [exact Hp|exact Hdyn|]. intros [|fuel] env noe Hf; [lia|]. apply Hm.
Qed.

Lemma fields_sound depth d context t e t' : parse_fields handle_other parse depth d context t = Ok (e, t') ->
  not_operator d -> context_ok now collation context -> supported multi (VDocument d) = true -> sound (VDocument d) e.
Proof.
  intros E Hop Hc Hs. unfold parse_fields in E. cbv zeta in E.
  set (treeContext := {| disallowPaths := false; nowValue := VEod; allowRedactVariables := false; collationString := collationString context |}) in E.
  assert (Ht : context_ok now collation treeContext) by (split; [now left|exact (proj2 Hc)]).
  unfold bind at 1 in E. destruct (BuildBsonPathTreeCore parse depth d [] false treeContext t) as [[[nodes flag] t1]|] eqn:Eb; [|discriminate].
  destruct (build_tree handle_other multi root now collation parse parse_sound depth d [] false treeContext t nodes flag t1 Eb Ht
    (supported_document multi d Hs Hop)) as (nodes' & -> & Hn & Hfold); [apply Forall_forall; constructor|]. cbn [app] in *.
  destruct flag; [injection E as <- _; now apply sound_document|].
  destruct (Hfold eq_refl) as [_ Hf]. destruct (folds_document handle_other root now collation d nodes' Hop Hf) as (fs & Hfs & Hw).
  destruct depth as [|depth]; [discriminate|]. unfold bind, self_evaluator in E. rewrite Hw in E. injection E as <- _.
  now apply folds_sound.
Qed.

Lemma parse_step_sound depth v context t e t' :
  parse_step EnableCollation null_string handle_other parse_other parse depth v context t = Ok (e, t') ->
  context_ok now collation context -> supported multi v = true -> sound v e.
Proof.
  intros E Hc Hs. unfold parse_step, bind at 1 in E.
  match type of E with match ?x with _ => _ end = _ => destruct x as [[e1 t1]|] eqn:Ev; [|discriminate] end.
  assert (e1 = e).
  { unfold bind in E. destruct (disallowPaths context); [|now injection E].
    destruct (DisallowExpressionsForTopLevelLet e1 t1) as [[u t2]|]; [now injection E|discriminate]. }
  subst e1. clear E.
  assert (G : (forall fuel env noe, (vdepth v < fuel)%nat -> means fuel env v noe = Ok v) -> plain v = true -> dynamic v = false ->
    ret (ConstantExpr v) t = Ok (e, t1) -> sound v e).
  { intros Hm Hp Hd E. injection E as <- _. now apply sound_constant. }
  destruct v; try (apply G; [intros [|fuel] env noe Hf; [lia|reflexivity]|exact Hs|reflexivity|exact Ev]); clear G.
  - now apply sound_string with (context := context) (t := t) (t' := t1).
  - destruct d as [|[name argument] d]; [now apply fields_sound with (1 := Ev)|].
    destruct (is_operator_key name) eqn:Hk.
    + destruct d as [|kv d]; [now apply operator_document_sound with (1 := Ev)|]. cbn in Ev. rewrite Hk in Ev. discriminate.
    + cbn [ParseDocumentAggregationExpressionData] in Ev. rewrite Hk in Ev. now apply fields_sound with (1 := Ev).
  - unfold ParseArrayAggregationExpressionData, bind at 1 in Ev.
    destruct (parse_list parse d context t) as [[es t2]|] eqn:El; [|discriminate].
    apply parse_list_sound in El; auto; [|exact (operands_supported (VArray d) Hs)].
    destruct (AreElementsInListConstant es) eqn:Ec; [|injection Ev as <- _; now apply sound_array].
    destruct (sound_constants _ _ _ _ _ _ _ El Ec) as (cs & -> & Hcs). unfold bind in Ev.
    change (PgbsonWriterStartArray PgbsonWriterInit []) with (array_written []) in Ev.
    rewrite (constant_elements _ _ _ cs (folds_plain _ _ _ _ _ Hcs)) in Ev. injection Ev as <- _. apply folds_sound. now apply folds_array.
Qed.
End Step.

(** The parser as a whole. *)
Lemma parser_sound depth : forall v context t e t',
  ParseAggregationExpressionData EnableCollation null_string handle_other parse_other depth v context t = Ok (e, t') ->
  context_ok now collation context -> supported multi v = true -> sound v e.
Proof.
  induction depth as [|depth IH]; intros v context t e t' E; [discriminate|]. cbn [ParseAggregationExpressionData] in E.
  exact (parse_step_sound _ IH depth v context t e t' E).
Qed.
End Sound.

(** ** Expressions of a query *)

Section Rows.
Context {BL : BidLib} {LB : LibBson} {LM : LibM} {LD : LibBsonDoc} {Laws : LibBsonDocLaws LD} {OtherArguments : Set}.
Variable EnableCollation : bool.
Variable EnableNowSystemVariable : bool.
Variable null_string : bson_value.
Variable handle_other : OtherArguments -> fields -> @ExpressionResult OtherArguments -> M (@ExpressionResult OtherArguments).
Variable parse_other : bytes -> bson_value -> ParseContext -> M (bson_value + OtherArguments).

Abbreviation get_state depth := (ParseBsonExpressionGetState EnableCollation EnableNowSystemVariable null_string handle_other parse_other depth).

(** The variables of the command. *)
Definition spec_variables (spec : option fields) : fields :=
  match spec with
  | Some s => match bson_iter_find_descendant s (str "let") with Some (VDocument vars) => vars | _ => [] end
  | None => []
  end.

Definition spec_now (spec : option fields) : bson_value :=
  GetTimeSystemVariablesFromVariableSpec EnableNowSystemVariable spec VEod.

Definition spec_supported (multi : bool) (spec : option fields) : bool :=
  good (spec_now spec) && supported multi (VDocument (spec_variables spec)) &&
  forallb (fun kv => variable_supported (fst kv)) (spec_variables spec) &&
  (multi || (List.length (spec_variables spec) <=? 1)%nat).

(** The value of an expression for a document. *)
Definition row_meaning (spec : option fields) (v : bson_value) (noe : bool) (document : fields) : res bson_value :=
  let values env x := meaning (spec_now spec) None document (S (Nat.max (vdepth v) (vdepth (VDocument (spec_variables spec))))) env x in
  values (extend [] (let_frame (fun env x => values env x false) [] (spec_variables spec))) v noe.

(** The frame of the variables of a command. *)
Lemma command_variables_sound multi depth now vars context t frame t' document fuel :
  ParseVariableSpec (ParseAggregationExpressionData EnableCollation null_string handle_other parse_other depth) vars (Some NoVariables) context t
    = Ok (frame, t') ->
  context_ok now None context -> good now = true -> supported multi (VDocument vars) = true ->
  forallb (fun kv => variable_supported (fst kv)) vars = true -> multi || (List.length vars <=? 1)%nat = true ->
  plain_doc document = true -> (vdepth (VDocument vars) < fuel)%nat ->
  exists f, frame = Some f /\ AggOutcome.env_ok handle_other multi document [f]
    (extend [] (let_frame (fun env x => meaning now None document fuel env x false) [] vars)).
Proof.
  intros Es Hc Hnow Hvs Hnames Hcount Hdoc Hfuel.
  assert (Hcol : (if IsCollationApplicable EnableCollation None then None else None) = @None bytes) by now destruct (IsCollationApplicable _ _).
  assert (IH := parser_sound EnableCollation null_string handle_other parse_other multi document Hdoc now Hnow None Hcol depth).
  assert (Hvars := variables_supported multi _ _ _ _ _ _ Es Hvs Hnames).
  destruct (variable_spec_sound handle_other multi document now None _ IH context Hc vars NoVariables t frame t' Es Hvars) as (f & -> & Hf).
  { apply orb_true_iff in Hcount. destruct Hcount as [Hcount|Hcount]; [now left|right]. apply Nat.leb_le in Hcount. lia. }
  exists f. split; [reflexivity|]. apply frame_env; [|reflexivity]. apply (Hf fuel [] [] []); try reflexivity. apply vdepth_fields.
  cbn [vdepth] in Hfuel. lia.
Qed.

Lemma state_sound multi depth v spec t state t' : get_state depth v spec t = Ok (state, t') ->
  supported multi v = true -> spec_supported multi spec = true -> forall document noe, plain_doc document = true ->
  good_res (row_meaning spec v noe document) /\
  eventually (fun k => forall path t2,
    outcome multi (evaluate_row handle_other k state path noe document t2) (row_meaning spec v noe document)
      (fun x w => w = written PgbsonWriterInit path x)).
Proof.
  intros E Hs Hspec document noe Hdoc. unfold spec_supported in Hspec. rewrite !andb_true_iff in Hspec.
  destruct Hspec as [[[Hnow Hvs] Hnames] Hcount].
  set (fuel := S (Nat.max (vdepth v) (vdepth (VDocument (spec_variables spec))))).
  unfold ParseBsonExpressionGetState in E. cbv zeta in E. fold (spec_now spec) in E.
  set (context := {| disallowPaths := false; nowValue := spec_now spec; allowRedactVariables := false; collationString := None |}) in E.
  assert (Hc : context_ok (spec_now spec) None context) by (split; [now right|reflexivity]).
  assert (Hcol : (if IsCollationApplicable EnableCollation None then None else None) = @None bytes) by now destruct (IsCollationApplicable _ _).
  unfold bind at 1 in E. destruct (ParseAggregationExpressionData _ _ _ _ depth v context t) as [[e t1]|] eqn:Ep; [|discriminate].
  assert (Hsound := parser_sound EnableCollation null_string handle_other parse_other multi document Hdoc (spec_now spec) Hnow None Hcol
                      depth v context t e t1 Ep Hc Hs).
  destruct (Hsound fuel ltac:(lia)) as [G _].
  assert (F : forall ctx env, AggOutcome.env_ok handle_other multi document ctx env -> expressionData state = e -> getVariableContext state = ctx ->
    env = extend [] (let_frame (fun env x => meaning (spec_now spec) None document fuel env x false) [] (spec_variables spec)) ->
    good_res (row_meaning spec v noe document) /\ eventually (fun k => forall path t2,
      outcome multi (evaluate_row handle_other k state path noe document t2) (row_meaning spec v noe document)
        (fun x w => w = written PgbsonWriterInit path x))).
  { intros ctx env He He1 He2 ->. destruct (G ctx _ noe He) as (Gg & _ & Gw). split; [exact Gg|]. revert Gw. apply eventually_mono.
    intros k Gw path t2. unfold evaluate_row. rewrite He1, He2. apply Gw. }
  unfold spec_variables in *. destruct spec as [s|]; [|injection E as <- _; now apply (F [] [])].
  destruct (bson_iter_find_descendant s (str "let")) as [vars|]; [|injection E as <- _; now apply (F [] [])].
  destruct vars as [| | | vars | | | | | | | | | | | | | | | | | |]; try discriminate. unfold bind in E.
  destruct (ParseVariableSpec _ vars (Some NoVariables) context t1) as [[frame t2]|] eqn:Es; [|discriminate]. injection E as <- _.
  destruct (command_variables_sound multi depth (spec_now (Some s)) vars context t1 frame t2 document fuel Es Hc Hnow Hvs Hnames Hcount Hdoc)
    as (f & -> & He); [subst fuel; lia|].
  exact (F [f] _ He eq_refl eq_refl eq_refl).
Qed.
End Rows.
