(* ===== verification/AggRows.v ===== *)
(** * Aggregation expressions on the rows of a query

    [bson_expression_get] parses an expression for the first row of a query and keeps
    what was parsed for the others.  The rows that are returned are those of the
    reference semantics, for every expression in which a [$let] binds one variable at
    most; with more variables a row may instead end in a search in a hash table that
    the row before destroyed. *)

From Stdlib Require Import ZArith Lia Bool String List.
From Stdlib Require Import Strings.Byte.
From S2P Require Import Prelude SoftFloat BsonTypes StringView Decimal128 BsonCompare BsonArith Traversal PgbsonElement BsonWriter DollarSets.
From S2P Require Import RefBid UpdateRef AggData AggOperators AggEval AggParse AggGet AggTable AggMeaning AggTyping.
From S2P Require Import AggOutcome AggHandlers AggTrees AggSound.
Import ListNotations.
Local Open Scope Z_scope.

(** The result of a computation, without the state it leaves. *)
Definition result_of {A} (x : res (A * tables)) : res A := res_bind x (fun p => Ok (fst p)).

Section Rows.
Context {BL : BidLib} {LB : LibBson} {LM : LibM} {LD : LibBsonDoc} {Laws : LibBsonDocLaws LD} {OtherArguments : Set}.
Variable EnableCollation : bool.
Variable EnableNowSystemVariable : bool.
Variable null_string : bson_value.
Variable handle_other : OtherArguments -> fields -> @ExpressionResult OtherArguments -> M (@ExpressionResult OtherArguments).
Variable parse_other : bytes -> bson_value -> ParseContext -> M (bson_value + OtherArguments).

Abbreviation get_state depth := (ParseBsonExpressionGetState EnableCollation EnableNowSystemVariable null_string handle_other parse_other depth).
Abbreviation meaning_of := (row_meaning EnableNowSystemVariable).

Lemma exact_outcome {A B} (x : res (A * tables)) (m : res B) (f : B -> A) :
  outcome false x m (fun v a => a = f v) -> result_of x = res_bind m (fun v => Ok (f v)).
Proof.
  unfold outcome, result_of. destruct x as [[a t]|e].
  - intros (v & -> & ->). reflexivity.
  - intros [[U _]| ->]; [discriminate|reflexivity].
Qed.

Lemma rows_step k state path noe document documents t :
  result_of (evaluate_rows (OtherArguments := OtherArguments) handle_other k state path noe (document :: documents) t) =
  match evaluate_row handle_other k state path noe document t with
  | Ok (row, t') => res_bind (result_of (evaluate_rows handle_other k state path noe documents t')) (fun rows => Ok (row :: rows))
  | Err e => Err e
  end.
Proof.
  cbn [evaluate_rows]. unfold bind. destruct (evaluate_row _ _ _ _ _ _ _) as [[row t']|]; [|reflexivity].
  now destruct (evaluate_rows _ _ _ _ _ _ _) as [[rows t2]|].
Qed.

(** C13: A parsed aggregation expression gives for every row of a query, with enough
    stack, the value or the error of the reference semantics of expressions, with the
    variables and the time of the command; a missing value gives no field, and the parsed
    form can be used for every row. In the expression and in the variables of the command,
    of which there is at most one, the expressions are in the supported fragment: literals,
    field paths and variables (without NUL bytes, [$$NOW] without a path), arrays, documents
    with distinct keys that are not empty and have no dot, NUL or leading dollar, and the
    modelled operators ([$literal], boolean, comparison, conditional, arithmetic and
    [$let]), where a [$let] binds at most one variable, does not rebind [CURRENT] and has no
    constant to be computed as its [in], a [$add] of constants only adds numbers, and the
    constants and the documents the expressions are applied to hold only values that libbson
    copies as they are (no code, regular expression, database pointer or code with scope).
    *)
Theorem bson_expression_get_rows_mean depth (v : bson_value) (spec : option fields) t state t' (noe : bool) (documents : list fields)
  (Hparse : get_state depth v spec t = Ok (state, t'))
  (Hv : supported false v = true) (Hspec : spec_supported EnableNowSystemVariable false spec = true)
  (Hdocs : Forall (fun d => plain_doc d = true) documents) :
  exists n, forall k path t2, (n <= k)%nat ->
  result_of (evaluate_rows handle_other k state path noe documents t2) =
  res_bind (all_values (map (meaning_of spec v noe) documents)) (fun values => Ok (map (written PgbsonWriterInit path) values)).
Proof.
  induction Hdocs as [|document documents Hd Hdocs [n IH]]; [exists O; reflexivity|].
  destruct (state_sound _ _ _ _ _ false depth v spec t state t' Hparse Hv Hspec document noe Hd) as [_ [m Hm]].
  exists (Nat.max n m). intros k path t2 Hk. rewrite rows_step. specialize (Hm k ltac:(lia) path t2). apply exact_outcome in Hm.
  unfold result_of in Hm. cbn [map all_values].
  destruct (evaluate_row handle_other k state path noe document t2) as [[row t3]|e]; cbn [res_bind fst] in Hm.
  - destruct (meaning_of spec v noe document) as [x|]; [|discriminate]. injection Hm as ->. rewrite IH by lia. cbn [res_bind].
    now destruct (all_values _).
  - destruct (meaning_of spec v noe document) as [x|]; [discriminate|]. now injection Hm as <-.
Qed.

(** C24: With any number of variables in a [$let] or in the command, a row of a parsed
    expression is with enough stack the value or the error of the reference semantics, or
    the evaluation searched a hash table of variables that was destroyed: no other result
    and no other error occurs, as long as the expressions are in the supported fragment:
    literals, field paths and variables (without NUL bytes, [$$NOW] without a path), arrays,
    documents with distinct keys that are not empty and have no dot, NUL or leading dollar,
    and the modelled operators ([$literal], boolean, comparison, conditional, arithmetic and
    [$let]), where a [$let] binds any number of variables, does not rebind [CURRENT] and has
    no constant to be computed as its [in], a [$add] of constants only adds numbers, and the
    constants and the documents the expressions are applied to hold only values that libbson
    copies as they are (no code, regular expression, database pointer or code with scope).
    *)
Theorem bson_expression_get_row_sound depth (v : bson_value) (spec : option fields) t state t' (noe : bool) (document : fields)
  (Hparse : get_state depth v spec t = Ok (state, t'))
  (Hv : supported true v = true) (Hspec : spec_supported EnableNowSystemVariable true spec = true)
  (Hdoc : plain_doc document = true) :
  exists n, forall k path t2, (n <= k)%nat ->
  let row := result_of (evaluate_row handle_other k state path noe document t2) in
  row = Err USE_AFTER_FREE \/
  row = res_bind (meaning_of spec v noe document) (fun value => Ok (written PgbsonWriterInit path value)).
Proof.
  destruct (state_sound _ _ _ _ _ true depth v spec t state t' Hparse Hv Hspec document noe Hdoc) as [_ [m Hm]].
  exists m. intros k path t2 Hk row. subst row. specialize (Hm k Hk path t2). unfold outcome, result_of in *.
  destruct (evaluate_row handle_other k state path noe document t2) as [[row t3]|e].
  - destruct Hm as (x & -> & ->). now right.
  - destruct Hm as [[_ ->]| ->]; [now left|now right].
Qed.
End Rows.
