(* ===== verification/AggExamples.v ===== *)
(** * Aggregation expressions: examples

    The definitions are evaluated on concrete expressions, with a reference
    instance of the libraries and without the operators of other files: the
    hypotheses of the theorems hold for usual expressions, and the places where the
    code departs from the meaning of an expression show. *)

From Stdlib Require Import ZArith Lia Bool String List.
From Stdlib Require Import Strings.Byte.
From S2P Require Import Prelude SoftFloat BsonTypes StringView Decimal128 BsonCompare BsonArith Traversal RefBid BsonWriter DollarSets UpdateRef.
From S2P Require Import AggData AggOperators AggEval AggParse AggGet AggTable AggMeaning AggTyping.
From S2P Require Import AggOutcome AggHandlers AggTrees AggSound AggRows.
Import ListNotations.
Local Open Scope Z_scope.

#[local] Existing Instance RefBidLib.
#[local] Existing Instance RefLibBson.
#[local] Existing Instance RefLibBsonDoc.
#[local] Existing Instance RefLibBsonDocLaws.
#[local] Instance RefLibM : LibM := {| libm_exp x := x; libm_log x := x |}.

Definition no_handler (a : Empty_set) (d : fields) (r : @ExpressionResult Empty_set) : M (@ExpressionResult Empty_set) :=
  raise ERRCODE_INTERNAL_ERROR.
Definition no_parser (name : bytes) (v : bson_value) (c : ParseContext) : M (bson_value + Empty_set) :=
  raise ERRCODE_INTERNAL_ERROR.

Definition no_tables : tables := Tables 0 [].
Definition string_of (s : string) : bson_value := VUtf8 (str s).
Definition list_of (vs : list bson_value) : bson_value := VArray (array_of vs).
Definition fields_of (fs : list (string * bson_value)) : fields := map (fun f => (str (fst f), snd f)) fs.
Definition document_of (fs : list (string * bson_value)) : bson_value := VDocument (fields_of fs).

(** The rows of a query for an expression, as the field [x]. *)
Definition rows (documents : list fields) (e : bson_value) (spec : option fields) : res (list fields) :=
  result_of (bson_expression_get_rows false true VEod no_handler no_parser 20 documents [(str "x", e)] false spec no_tables).

Local Open Scope string_scope.

(** [{$let: {vars: {y: "$a"}, in: {$add: ["$$y", 2]}}}] *)
Definition add_two : bson_value :=
  document_of [("$let", document_of [("vars", document_of [("y", string_of "$a")]);
                                     ("in", document_of [("$add", list_of [string_of "$$y"; VInt32 2])])])].

(** [{sum: {$add: ["$a.b", 1]}, kind: {$cond: [{$gt: ["$n", 10]}, "big", "small"]}, all: ["$n", "$none"]}] *)
Definition report : bson_value :=
  document_of [("sum", document_of [("$add", list_of [string_of "$a.b"; VInt32 1])]);
               ("kind", document_of [("$cond", list_of [document_of [("$gt", list_of [string_of "$n"; VInt32 10])];
                                                        string_of "big"; string_of "small"])]);
               ("all", list_of [string_of "$n"; string_of "$none"])].

Definition one_a : fields := fields_of [("a", VInt32 1)].
Definition nested : fields := fields_of [("a", document_of [("b", VInt32 41)]); ("n", VInt32 12)].

Example rows_add_two : rows [one_a; []] add_two None = Ok [[(str "x", VInt32 3)]; [(str "x", VNull)]].
Proof. vm_compute. reflexivity. Qed.

Example rows_report : rows [nested] report None =
  Ok [[(str "x", document_of [("sum", VInt32 42); ("kind", string_of "big"); ("all", list_of [VInt32 12; VNull])])]].
Proof. vm_compute. reflexivity. Qed.

(** ** Witnesses *)

Lemma bson_expression_get_rows_mean_witness :
  exists state t',
    ParseBsonExpressionGetState false true VEod no_handler no_parser 20 add_two None no_tables = Ok (state, t') /\
    row_meaning true None add_two false one_a = Ok (VInt32 3) /\
    exists n, forall k path t2, (n <= k)%nat ->
    result_of (evaluate_rows no_handler k state path false [one_a; []] t2) =
    res_bind (all_values (map (row_meaning true None add_two false) [one_a; []]))
      (fun values => Ok (map (written PgbsonWriterInit path) values)).
Proof.
  eexists. eexists. split; [vm_compute; reflexivity|]. split; [vm_compute; reflexivity|].
  apply (bson_expression_get_rows_mean false true VEod no_handler no_parser 20 add_two None no_tables _ no_tables false [one_a; []]).
  - vm_compute. reflexivity.
  - vm_compute. reflexivity.
  - vm_compute. reflexivity.
  - repeat constructor.
Defined.

(** [{$let: {vars: {y: "$a", z: 4}, in: {$add: ["$$y", "$$z"]}}}] *)
Definition two_variables : bson_value :=
  document_of [("$let", document_of [("vars", document_of [("y", string_of "$a"); ("z", VInt32 4)]);
                                     ("in", document_of [("$add", list_of [string_of "$$y"; string_of "$$z"])])])].

Lemma bson_expression_get_row_sound_witness :
  exists state t',
    ParseBsonExpressionGetState false true VEod no_handler no_parser 20 two_variables None no_tables = Ok (state, t') /\
    row_meaning true None two_variables false one_a = Ok (VInt32 5) /\
    exists n, forall k path t2, (n <= k)%nat ->
    let row := result_of (evaluate_row no_handler k state path false one_a t2) in
    row = Err USE_AFTER_FREE \/
    row = res_bind (row_meaning true None two_variables false one_a) (fun value => Ok (written PgbsonWriterInit path value)).
Proof.
  eexists. eexists. split; [vm_compute; reflexivity|]. split; [vm_compute; reflexivity|].
  apply (bson_expression_get_row_sound false true VEod no_handler no_parser 20 two_variables None no_tables _ (Tables 1 []) false one_a);
    vm_compute; reflexivity.
Defined.

Lemma OperatorExpressions_search_witness :
  no_nul (str "$add") /\
  bsearch (fun item => strcmp (str "$add") (operatorName item)) (OperatorExpressions false VEod no_parser (fun _ _ => raise ERRCODE_INTERNAL_ERROR)) =
  find (fun item => cmp_bytes (operatorName item) (str "$add") =? 0)%Z (OperatorExpressions false VEod no_parser (fun _ _ => raise ERRCODE_INTERNAL_ERROR)).
Proof.
  assert (H : no_nul (str "$add")) by now apply no_nulb_ok. split; [exact H|].
  exact (OperatorExpressions_search false VEod no_parser (fun _ _ => raise ERRCODE_INTERNAL_ERROR) (str "$add") H).
Defined.

(** The path [a.b] in an array of documents. *)
Definition array_path : bson_value :=
  document_of [("a", list_of [document_of [("b", VInt32 1)]; VInt32 5; document_of [("c", VInt32 2)]; document_of [("b", VInt32 3)]])].

Lemma EvaluateFieldPathAndWrite_value_witness :
  good array_path = true /\ field_path array_path (str "a.b") false = list_of [VInt32 1; VInt32 3] /\
  EvaluateFieldPathAndWrite array_path (str "a.b") no_writer false =
  Ok (negb (missing (field_path array_path (str "a.b") false)), put no_writer (field_path array_path (str "a.b") false)).
Proof.
  split; [reflexivity|]. split; [vm_compute; reflexivity|]. apply EvaluateFieldPathAndWrite_value. reflexivity.
Defined.

(** ** Where the code departs from the meaning *)

(** A constant [in] of a [$let] is kept as it was written, so an operator in it is not
    evaluated. *)
Theorem let_constant_in_not_evaluated :
  let e := document_of [("$let", document_of [("vars", document_of []); ("in", document_of [("$add", list_of [VInt32 1; VInt32 2])])])] in
  rows [[]] e None = Ok [[(str "x", document_of [("$add", list_of [VInt32 1; VInt32 2])])]] /\
  row_meaning true None e false [] = Ok (VInt32 3).
Proof. split; vm_compute; reflexivity. Qed.

(** The result of a [$let] destroys the hash table of its variables, which the parsed
    expression still refers to: the first row is right, the second searches in a
    destroyed table. *)
Theorem let_table_destroyed_after_first_row :
  rows [one_a] two_variables None = Ok [[(str "x", VInt32 5)]] /\
  rows [one_a; one_a] two_variables None = Err USE_AFTER_FREE.
Proof. split; vm_compute; reflexivity. Qed.

(** The fields of a document are parsed without the time of the command. *)
Theorem now_not_available_in_documents :
  let spec := Some (fields_of [("now", VDateTime 7)]) in
  rows [[]] (string_of "$$NOW") spec = Ok [[(str "x", VDateTime 7)]] /\
  rows [[]] (document_of [("t", string_of "$$NOW")]) spec = Err ERRCODE_DOCUMENTDB_FAILEDTOPARSE.
Proof. split; vm_compute; reflexivity. Qed.

(** The variables of a command: the parser. *)
Definition top_level (vars : bson_value) : res fields :=
  res_bind (result_of (ParseAndGetTopLevelVariableSpec false false false VEod no_handler no_parser 0 20 vars None false no_tables))
    (fun p => Ok (fst p)).

(** Nor with the check that the variables of a command refer to no document. *)
Theorem top_level_path_in_document :
  top_level (document_of [("v", string_of "$f")]) = Err ERRCODE_DOCUMENTDB_LOCATION4890500 /\
  top_level (document_of [("v", document_of [("w", string_of "$f")])]) =
    Ok (fields_of [("let", document_of [("v", document_of [("$literal", document_of [])])])]).
Proof. split; vm_compute; reflexivity. Qed.

(** A missing variable of a command is a string for the variables after it. *)
Theorem top_level_missing_variable :
  top_level (document_of [("v", string_of "$$REMOVE"); ("w", string_of "$$v")]) =
  Ok (fields_of [("let", document_of [("v", string_of "$$REMOVE"); ("w", document_of [("$literal", string_of "$$REMOVE")])])]).
Proof. vm_compute. reflexivity. Qed.

(** [$cond] evaluates the branch that is not taken. *)
Theorem cond_evaluates_both_branches :
  rows [fields_of [("a", VBool true); ("b", VInt32 0)]]
    (document_of [("$cond", list_of [string_of "$a"; VInt32 1; document_of [("$divide", list_of [VInt32 1; string_of "$b"])]])]) None
  = Err ERRCODE_DOCUMENTDB_BADVALUE.
Proof. vm_compute. reflexivity. Qed.

(** A date and null: the sum of constants is the date 0, the sum of the same values
    from a document is null. *)
Theorem add_constant_date_and_null :
  rows [fields_of [("n", VNull)]] (document_of [("$add", list_of [VDateTime 5; VNull])]) None = Ok [[(str "x", VDateTime 0)]] /\
  rows [fields_of [("n", VNull)]] (document_of [("$add", list_of [VDateTime 5; string_of "$n"])]) None = Ok [[(str "x", VNull)]].
Proof. split; vm_compute; reflexivity. Qed.

(** A date and an integer, a product with a missing operand, a sum of integers, doubles
    and null. *)
Lemma arithmetic_types_witness :
  sum_type [VDateTime 5; VInt32 2] (VDateTime 7) /\ product_type [VInt32 3; VUndefined] VNull /\
  exists r, add_meaning (fun _ v => Ok v) [] [VInt32 1; VInt64 2; VDouble 0; VNull] = Ok r.
Proof.
  destruct arithmetic_types as (_ & _ & sums & products & returns). split; [|split].
  - exact (sums (fun _ v => Ok v) [] [VDateTime 5; VInt32 2]).
  - exact (products (fun _ v => Ok v) [] [VInt32 3; VUndefined]).
  - apply (returns (fun _ v => Ok v) [] _ [VInt32 1; VInt64 2; VDouble 0; VNull]); [repeat constructor|reflexivity].
Defined.

(** A missing [CURRENT] in a document is written as the end-of-document marker, which
    fails; another missing variable is left out. *)
Theorem missing_current_in_document :
  let e name := document_of [("$let", document_of [("vars", document_of [(name, string_of "$none")]);
                                                   ("in", document_of [("y", string_of (String.append "$$" name))])])] in
  rows [[]] (e "CURRENT") None = Err ERRCODE_DOCUMENTDB_BADVALUE /\
  rows [[]] (e "other") None = Ok [[(str "x", document_of [])]].
Proof. split; vm_compute; reflexivity. Qed.

(** The remainder of 64-bit integers is computed with doubles. *)
Theorem mod_of_large_integers :
  rows [[]] (document_of [("$mod", list_of [VInt64 9007199254740993; VInt32 2])]) None = Ok [[(str "x", VInt64 0)]].
Proof. vm_compute. reflexivity. Qed.
