(* ===== verification/ProjTree.v ===== *)
(** * Projections: the tree of a specification ([aggregation/bson_tree.c],
      [bson_projection_tree.c], and the builders of [bson_project.c])

    A projection such as [{"a.b": 1, "c": {"$add": ["$x", 1]}}] is read into a tree
    that has a node for every segment of its paths.  A leaf includes or excludes the
    field of the document, or sets it to the value of an expression.  The tree is
    built once and applied to every document.

    A parent in the source is found by a pointer; here the tree that contains a node
    is rebuilt on the way back, which is where the source marks the ancestors of a
    field.  The projection operators of [find] are left out, and with them the leaves
    that carry a handler of their own. *)

From Stdlib Require Import ZArith Lia Bool String List SpecFloat.
From Stdlib Require Import Strings.Byte.
From S2P Require Import Prelude SoftFloat BsonTypes StringView Decimal128 BsonCompare Traversal BsonWriter.
From S2P Require Import AggData AggOperators AggEval AggParse.
Import ListNotations.
Local Open Scope Z_scope.

(** ** Nodes *)

(** The types of leaf that a value of a specification gives. *)
Inductive LeafType : Set := NodeType_LeafIncluded | NodeType_LeafExcluded | NodeType_LeafField.

Definition IdField : bytes := str "_id".

(** The segments that [TraverseDottedPathAndGetNode] takes: the part behind a final
    dot is dropped. *)
Fixpoint drop_last_empty (segments : list bytes) : list bytes :=
  match segments with
  | [] => []
  | [s] => [s]
  | [s; []] => [s]
  | s :: segments => s :: drop_last_empty segments
  end.
Definition path_segments (path : bytes) : list bytes := drop_last_empty (split_dots path).

Section Tree.
Context {BL : BidLib} {OtherArguments : Set}.
Local Open Scope agg_scope.

Abbreviation Data := (@AggregationExpressionData OtherArguments).

(** [fieldData] is read of fields only; the root of a tree is its list of children. *)
Inductive ProjectionNode : Set :=
| LeafIncluded (field : bytes)
| LeafExcluded (field : bytes)
| LeafField (field : bytes) (fieldData : Data)
| LeafWithArrayField (field : bytes) (arrayChild : list Data)
| Intermediate (field : bytes) (hasExpressionFieldsInChildren : bool) (children : list ProjectionNode).

Definition field_of (node : ProjectionNode) : bytes :=
  match node with
  | LeafIncluded field | LeafExcluded field | LeafField field _ | LeafWithArrayField field _ | Intermediate field _ _ => field
  end.

Definition make_leaf (t : LeafType) (field : bytes) (data : Data) : ProjectionNode :=
  match t with
  | NodeType_LeafIncluded => LeafIncluded field
  | NodeType_LeafExcluded => LeafExcluded field
  | NodeType_LeafField => LeafField field data
  end.

Definition is_field (t : LeafType) : bool := match t with NodeType_LeafField => true | _ => false end.

Definition DetermineChildNodeType (v : bson_value) (forceLeafExpression : bool) : res LeafType :=
  if forceLeafExpression || negb (BsonValueIsNumberOrBool v) then Ok NodeType_LeafField
  else
    match BsonValueAsDouble v with
    | Ok d => Ok (if SFeqb (sf_of_bits d) (S754_zero false) then NodeType_LeafExcluded else NodeType_LeafIncluded)
    | Err e => Err e
    end.

(** ** Walking a path *)

(** The child with this field is replaced by what [f] makes of it, or a new child is
    added at the end ([GetOrAddChildNode]). *)
Fixpoint GetOrAddChildNode {B : Type} (field : bytes) (tree : list ProjectionNode)
  (f : option ProjectionNode -> M (ProjectionNode * B)) : M (list ProjectionNode * B) :=
  match tree with
  | [] => let! '(node, b) := f None in ret ([node], b)
  | child :: tree =>
    if same_name (field_of child) field then let! '(node, b) := f (Some child) in ret (node :: tree, b)
    else let! '(tree, b) := GetOrAddChildNode field tree f in ret (child :: tree, b)
  end.

(** The nodes before the last are intermediate ones.  [blocked] says what a leaf in
    the way gives: an error, or with [replaceExistingNodes] off an outcome that leaves
    the leaf as it is.  [marks] tells from the outcome whether a field was added, of
    which the ancestors are marked. *)
Fixpoint TraverseDottedPathAndGetNode {B : Type} (segments : list bytes) (tree : list ProjectionNode)
  (hasFieldForIntermediateNode : bool) (marks : B -> bool) (blocked : bytes -> M B)
  (last : bytes -> option ProjectionNode -> M (ProjectionNode * B)) : M (list ProjectionNode * B) :=
  match segments with
  | [] => raise ERRCODE_INTERNAL_ERROR
  | [field] => GetOrAddChildNode field tree (last field)
  | field :: segments =>
    GetOrAddChildNode field tree (fun existing =>
      match existing with
      | Some (Intermediate _ flag children) =>
        let! '(children, b) := TraverseDottedPathAndGetNode segments children hasFieldForIntermediateNode marks blocked last in
        ret (Intermediate field (flag || hasFieldForIntermediateNode || marks b) children, b)
      | Some leaf => let! b := blocked field in ret (leaf, b)
      | None =>
        let! '(children, b) := TraverseDottedPathAndGetNode segments [] hasFieldForIntermediateNode marks blocked last in
        ret (Intermediate field (hasFieldForIntermediateNode || marks b) children, b)
      end)
  end.

(** ** Adding leaves *)

(** A leaf with constant data.  An intermediate node in its place is an error. *)
Definition set_leaf (t : LeafType) (data : M Data) (field : bytes) (existing : option ProjectionNode)
  : M (ProjectionNode * unit) :=
  match existing with
  | Some (Intermediate _ _ _) => raise ERRCODE_DOCUMENTDB_LOCATION31250
  | _ => let! data := data in ret (make_leaf t field data, tt)
  end.

Definition mismatch {B : Set} (path field : bytes) : M B := ThrowErrorOnIntermediateMismatch field path.

(** The callers pass constants ([treatLeafDataAsConstant]). *)
Definition TraverseDottedPathAndAddLeafFieldNode (path : bytes) (v : bson_value) (tree : list ProjectionNode)
  : M (list ProjectionNode) :=
  let! '(tree, _) :=
    TraverseDottedPathAndGetNode (path_segments path) tree true (fun _ => true) (mismatch path)
      (set_leaf NodeType_LeafField (ret (ConstantExpr v))) in
  ret tree.

Definition TraverseDottedPathAndAddLeafValueNode (path : bytes) (v : bson_value) (tree : list ProjectionNode)
  : M (list ProjectionNode) :=
  let! t := lift (DetermineChildNodeType v false) in
  let! '(tree, _) :=
    TraverseDottedPathAndGetNode (path_segments path) tree false (fun _ => false) (mismatch path)
      (set_leaf t (ret (ConstantExpr v))) in
  ret tree.

(** An array leaf with constant elements: [TraverseDottedPathAndAddLeafArrayNode] makes
    the node and [AddValueNodeToLeafArrayWithField] adds each element under its index. *)
Definition TraverseDottedPathAndAddLeafArrayNode (path : bytes) (values : list bson_value) (tree : list ProjectionNode)
  : M (list ProjectionNode) :=
  let! '(tree, _) :=
    TraverseDottedPathAndGetNode (path_segments path) tree true (fun _ => true) (mismatch path)
      (fun field existing =>
         match existing with
         | Some (Intermediate _ _ _) => raise ERRCODE_DOCUMENTDB_LOCATION31250
         | _ => ret (LeafWithArrayField field (map ConstantExpr values), tt)
         end) in
  ret tree.

(** [nodeCreated] is false when a node of the path was there already: it is kept. *)
Definition TraverseDottedPathAndGetOrAddField (path : bytes) (v : bson_value) (tree : list ProjectionNode)
  : M (list ProjectionNode * bool) :=
  TraverseDottedPathAndGetNode (path_segments path) tree true (fun _ => true) (fun _ => ret false)
    (fun field existing =>
       match existing with
       | Some node => ret (node, false)
       | None => ret (LeafField field (ConstantExpr v), true)
       end).

(** ** Building a tree *)

(** [hasAggregationExpressions] is not read by projections and left out. *)
Record BuildBsonPathTreeContext : Set := {
  allowInclusionExclusion : bool;
  skipParseAggregationExpressions : bool;
  parseAggregationContext : ParseContext;
  hasInclusion : bool;
  hasExclusion : bool
}.

Definition with_inclusion (context : BuildBsonPathTreeContext) (inclusion exclusion : bool) : BuildBsonPathTreeContext :=
  {| allowInclusionExclusion := allowInclusionExclusion context;
     skipParseAggregationExpressions := skipParseAggregationExpressions context;
     parseAggregationContext := parseAggregationContext context;
     hasInclusion := inclusion; hasExclusion := exclusion |}.

Definition DetermineChildNodeTypeWithContext (v : bson_value) (forceLeafExpression : bool)
  (context : BuildBsonPathTreeContext) : res (LeafType * BuildBsonPathTreeContext) :=
  match DetermineChildNodeType v forceLeafExpression with
  | Ok t =>
    let excluded := match t with NodeType_LeafExcluded => true | _ => false end in
    Ok (t, with_inclusion context (hasInclusion context || negb excluded) (hasExclusion context || excluded))
  | Err e => Err e
  end.

Definition EnsureValidInclusionExclusion (context : BuildBsonPathTreeContext) : res unit :=
  if negb (allowInclusionExclusion context) && hasExclusion context && hasInclusion context
  then Err ERRCODE_DOCUMENTDB_LOCATION31254
  else Ok tt.

(** The parser of expressions. *)
Variable parse : bson_value -> ParseContext -> M Data.

Definition leaf_data (v : bson_value) (context : BuildBsonPathTreeContext) : M Data :=
  if skipParseAggregationExpressions context then ret (ConstantExpr v) else parse v (parseAggregationContext context).

(** The last node of a path with a value: whether it is a field is returned. *)
Definition ValidateAndSetLeafNodeData (t : LeafType) (v : bson_value) (context : BuildBsonPathTreeContext) (field : bytes)
  (existing : option ProjectionNode) : M (ProjectionNode * (bool * BuildBsonPathTreeContext)) :=
  let! '(node, _) := set_leaf t (leaf_data v context) field existing in
  ret (node, (is_field t, context)).

Section Fields.
(** The fields of a document below the node of a path. *)
Variable nested : bson_value -> list ProjectionNode -> BuildBsonPathTreeContext ->
  M (list ProjectionNode * (bool * BuildBsonPathTreeContext)).
Variable isRoot forceLeafExpression : bool.

(** The node of a path whose value is a document that is no operator. *)
Definition nested_fields (path : bytes) (v : bson_value) (context : BuildBsonPathTreeContext) (field : bytes)
  (existing : option ProjectionNode) : M (ProjectionNode * (bool * BuildBsonPathTreeContext)) :=
  match existing with
  | Some (Intermediate _ flag children) =>
    let! '(children, (hasFields, context)) := nested v children context in
    ret (Intermediate field (flag || forceLeafExpression || hasFields) children, (hasFields, context))
  | Some _ => ThrowErrorOnIntermediateMismatch field path
  | None =>
    let! '(children, (hasFields, context)) := nested v [] context in
    ret (Intermediate field (forceLeafExpression || hasFields) children, (hasFields, context))
  end.

Definition is_leaf_value (v : bson_value) : bool :=
  match v with VDocument _ => is_operator_value v | _ => true end.

(** The type of the leaf and the context after it; [None] for an intermediate node.
    The type of the field [_id] of the root does not count. *)
Definition child_node_type (path : bytes) (v : bson_value) (context : BuildBsonPathTreeContext)
  : res (option LeafType * BuildBsonPathTreeContext) :=
  if is_leaf_value v then
    if same_name path IdField && isRoot then
      match DetermineChildNodeType v forceLeafExpression with Ok t => Ok (Some t, context) | Err e => Err e end
    else
      match DetermineChildNodeTypeWithContext v (forceLeafExpression || is_operator_value v) context with
      | Ok (t, context) => Ok (Some t, context)
      | Err e => Err e
      end
  else Ok (None, context).

Definition build_field (path : bytes) (v : bson_value) (tree : list ProjectionNode) (context : BuildBsonPathTreeContext)
  : M (list ProjectionNode * (bool * BuildBsonPathTreeContext)) :=
  let! _ := lift (EnsureValidFieldPathString path) in
  let! '(finalNodeType, context) := lift (child_node_type path v context) in
  let! _ := lift (EnsureValidInclusionExclusion context) in
  TraverseDottedPathAndGetNode (path_segments path) tree forceLeafExpression fst (mismatch path)
    match finalNodeType with
    | Some t => ValidateAndSetLeafNodeData t v context
    | None => nested_fields path v context
    end.

Fixpoint build_fields (pathSpecification : fields) (tree : list ProjectionNode) (hasFields : bool)
  (context : BuildBsonPathTreeContext) : M (list ProjectionNode * (bool * BuildBsonPathTreeContext)) :=
  match pathSpecification with
  | [] => ret (tree, (hasFields, context))
  | (path, v) :: pathSpecification =>
    let! '(tree, (childHasField, context)) := build_field path v tree context in
    build_fields pathSpecification tree (childHasField || hasFields) context
  end.
End Fields.

Fixpoint build_nested (forceLeafExpression : bool) (v : bson_value) (tree : list ProjectionNode)
  (context : BuildBsonPathTreeContext) : M (list ProjectionNode * (bool * BuildBsonPathTreeContext)) :=
  match v with
  | VDocument d => build_fields (build_nested forceLeafExpression) false forceLeafExpression d tree false context
  | _ => ret (tree, (false, context))
  end.

(** The tree of a specification, and the context with what was found in it. *)
Definition BuildBsonPathTree (pathSpecification : fields) (context : BuildBsonPathTreeContext) (forceLeafExpression : bool)
  : M (list ProjectionNode * BuildBsonPathTreeContext) :=
  let! '(tree, (_, context)) := build_fields (build_nested forceLeafExpression) true forceLeafExpression pathSpecification [] false context in
  ret (tree, context).

(** ** [$unset] and [_id] *)

Fixpoint unset_paths (paths : fields) (tree : list ProjectionNode) : M (list ProjectionNode) :=
  match paths with
  | [] => ret tree
  | (_, VUtf8 path) :: paths =>
    let! tree := TraverseDottedPathAndAddLeafValueNode path (VInt32 0) tree in unset_paths paths tree
  | _ => raise ERRCODE_DOCUMENTDB_LOCATION31120
  end.

Definition BuildBsonUnsetPathTree (pathSpecification : bson_value) : M (list ProjectionNode) :=
  match pathSpecification with
  | VUtf8 path => TraverseDottedPathAndAddLeafValueNode path (VInt32 0) []
  | VArray paths => unset_paths paths []
  | _ => raise ERRCODE_DOCUMENTDB_LOCATION31002
  end.

(** [ResetNodeWithValue] puts an included leaf in the place of the node. *)
Fixpoint reset_id (tree : list ProjectionNode) : list ProjectionNode :=
  match tree with
  | [] => []
  | node :: tree => if same_name (field_of node) IdField then LeafIncluded (field_of node) :: tree else node :: reset_id tree
  end.

Definition AdjustPathProjectionsForId (tree : list ProjectionNode) (hasInclusion forceProjectId hasIdExclusion : bool)
  : M (list ProjectionNode * bool) :=
  match find (fun node => same_name (field_of node) IdField) tree with
  | None =>
    let! tree := TraverseDottedPathAndAddLeafValueNode IdField (VInt32 1) tree in ret (tree, hasIdExclusion)
  | Some (LeafExcluded _) =>
    ret (if forceProjectId then reset_id tree else tree, negb hasInclusion || hasIdExclusion)
  | Some _ => ret (tree, hasIdExclusion)
  end.
End Tree.
