(* ===== verification/Project.v ===== *)
(** * Projections of documents ([aggregation/bson_project.c])

    A tree is applied to a document while the document is written: fields without a
    node are copied or dropped, the others are replaced by what their node says, and
    nodes of fields that the document does not have are written at the end.  The
    stages [$project], [$addFields], [$set], [$unset], [$replaceRoot] and [$redact],
    and the merges of documents that other stages use, are built from this. *)

From Stdlib Require Import ZArith Lia Bool String List.
From Stdlib Require Import Strings.Byte.
From S2P Require Import Prelude SoftFloat BsonTypes StringView Decimal128 BsonCompare Traversal PgbsonElement BsonWire BsonWriter DollarSets.
From S2P Require Import AggData AggOperators AggEval AggParse AggGet ProjTree.
Import ListNotations.
Local Open Scope Z_scope.

Section Project.
Context {BL : BidLib} {LB : LibBson} {LM : LibM} {LD : LibBsonDoc} {OtherArguments : Set}.
Local Open Scope agg_scope.

Abbreviation Data := (@AggregationExpressionData OtherArguments).
Abbreviation Result := (@ExpressionResult OtherArguments).
Abbreviation Node := (@ProjectionNode OtherArguments).
Abbreviation Variables := (@ExpressionVariableContext OtherArguments).

Section Write.
Variable self : @Evaluator OtherArguments.
Variable parentDocument : fields.
Variable variableContext : Variables.

(** ** Fields that the document does not have *)

(** [WriteLeafArrayFieldToWriter]. *)
Definition WriteLeafArrayFieldToWriter (w : pgbson_writer) (field : bytes) (items : list Data) : M pgbson_writer :=
  let! arrayWriter :=
    AppendLeafArrayFieldChildrenToWriter self parentDocument variableContext items (PgbsonWriterStartArray w field) in
  ret (PgbsonWriterEndArray w field arrayWriter).

(** One node of [TraverseTreeAndWriteFieldsToWriterCore]. *)
Fixpoint write_field (node : Node) (w : pgbson_writer) : M pgbson_writer :=
  match node with
  | LeafField field fieldData => evaluate_to_writer self fieldData parentDocument field w variableContext false
  | Intermediate field hasExpressionFieldsInChildren children =>
    if hasExpressionFieldsInChildren then
      let! childWriter :=
        (fix nodes (children : list Node) (w : pgbson_writer) : M pgbson_writer :=
           match children with
           | [] => ret w
           | node :: children => let! w := write_field node w in nodes children w
           end) children (PgbsonWriterStartDocument w field) in
      ret (PgbsonWriterEndDocument w field childWriter)
    else ret w
  | LeafWithArrayField field items => WriteLeafArrayFieldToWriter w field items
  | LeafIncluded _ | LeafExcluded _ => ret w
  end.

(** [FilterNodeToWrite] skips the children that were handled; [index] is the index of
    the first of the [children]. *)
Fixpoint HandleUnresolvedFields (children : list Node) (index : nat) (handled : list nat) (w : pgbson_writer)
  : M pgbson_writer :=
  match children with
  | [] => ret w
  | node :: children =>
    let! w := (if existsb (Nat.eqb index) handled then ret w else write_field node w) in
    HandleUnresolvedFields children (S index) handled w
  end.

(** ** Fields of the document *)

Fixpoint find_child (path : bytes) (children : list Node) (index : nat) : option (nat * Node) :=
  match children with
  | [] => None
  | node :: children => if same_name (field_of node) path then Some (index, node) else find_child path children (S index)
  end.

Variable projectNonMatchingFields : bool.
Variable skipIntermediateArrayFields : bool.

Section Fields.
(** What a tree makes of a document and of an array. *)
Variable nested_object : bson_value -> list Node -> M pgbson_writer.
Variable nested_array : bson_value -> bool -> list Node -> M pgbson_array_writer.

Definition write_non_matching (w : pgbson_writer) (path : bytes) (v : bson_value) : M pgbson_writer :=
  if projectNonMatchingFields then lift (PgbsonWriterAppendValue w path v) else ret w.

Definition ProjectCurrentIteratorFieldToWriter (path : bytes) (v : bson_value) (children : list Node) (w : pgbson_writer)
  (handled : list nat) : M (pgbson_writer * list nat) :=
  match find_child path children 0 with
  | None => let! w := write_non_matching w path v in ret (w, handled)
  | Some (index, child) =>
    match child with
    | LeafExcluded _ => ret (w, handled)
    | LeafIncluded _ => let! w := lift (PgbsonWriterAppendValue w path v) in ret (w, handled)
    | LeafField field fieldData =>
      let! w := evaluate_to_writer self fieldData parentDocument field w variableContext false in
      ret (w, index :: handled)
    | LeafWithArrayField field items =>
      let! w := WriteLeafArrayFieldToWriter w field items in ret (w, index :: handled)
    | Intermediate _ hasExpressionFieldsInChildren childNodes =>
      let handled' := if hasExpressionFieldsInChildren then index :: handled else handled in
      let other := if hasExpressionFieldsInChildren then ret (w, handled)
                   else let! w := write_non_matching w path v in ret (w, handled) in
      match v with
      | VDocument _ =>
        let! childWriter := nested_object v childNodes in ret (PgbsonWriterEndDocument w path childWriter, handled')
      | VArray _ =>
        if skipIntermediateArrayFields then other
        else
          let! childWriter := nested_array v hasExpressionFieldsInChildren childNodes in
          ret (PgbsonWriterEndArray w path childWriter, handled')
      | _ => other
      end
    end
  end.

Fixpoint object_fields (iterator : fields) (children : list Node) (w : pgbson_writer) (handled : list nat)
  : M (pgbson_writer * list nat) :=
  match iterator with
  | [] => ret (w, handled)
  | (path, v) :: iterator =>
    let! '(w, handled) := ProjectCurrentIteratorFieldToWriter path v children w handled in
    object_fields iterator children w handled
  end.

Definition TraverseObject (iterator : fields) (children : list Node) (w : pgbson_writer) : M pgbson_writer :=
  let! '(w, handled) := object_fields iterator children w [] in
  HandleUnresolvedFields children 0 handled w.

(** ** Arrays *)

Definition ProjectCurrentArrayIterToWriter (v : bson_value) (arrayWriter : pgbson_array_writer) (hasFields : bool)
  (children : list Node) : M pgbson_array_writer :=
  match v with
  | VDocument _ => let! childWriter := nested_object v children in ret (PgbsonArrayWriterEndDocument arrayWriter childWriter)
  | VArray _ => let! childWriter := nested_array v hasFields children in ret (PgbsonArrayWriterEndArray arrayWriter childWriter)
  | _ =>
    if hasFields && negb (match children with [] => true | _ => false end) then
      let! childWriter := HandleUnresolvedFields children 0 [] (PgbsonArrayWriterStartDocument arrayWriter) in
      ret (PgbsonArrayWriterEndDocument arrayWriter childWriter)
    else if projectNonMatchingFields then lift (PgbsonArrayWriterWriteValue arrayWriter v)
    else ret arrayWriter
  end.

Fixpoint array_items (iterator : fields) (arrayWriter : pgbson_array_writer) (hasFields : bool) (children : list Node)
  : M pgbson_array_writer :=
  match iterator with
  | [] => ret arrayWriter
  | (_, v) :: iterator =>
    let! arrayWriter := ProjectCurrentArrayIterToWriter v arrayWriter hasFields children in
    array_items iterator arrayWriter hasFields children
  end.
End Fields.

Fixpoint nested_object (v : bson_value) (children : list Node) : M pgbson_writer :=
  match v with
  | VDocument d => TraverseObject nested_object nested_array d children []
  | _ => ret []
  end
with nested_array (v : bson_value) (hasFields : bool) (children : list Node) : M pgbson_array_writer :=
  match v with
  | VArray d => array_items nested_object nested_array d (ArrayWriter [] 0) hasFields children
  | _ => ret (ArrayWriter [] 0)
  end.

Definition TraverseObjectAndAppendToWriter (document : fields) (root : list Node) (w : pgbson_writer) : M pgbson_writer :=
  TraverseObject nested_object nested_array document root w.
End Write.

(** ** States *)

(** Settings and parameters, as for expressions. *)
Variable EnableCollation : bool.
Variable EnableNowSystemVariable : bool.
Variable null_string : bson_value.
Variable handle_other : OtherArguments -> fields -> Result -> M Result.
Variable parse_other : bytes -> bson_value -> ParseContext -> M (bson_value + OtherArguments).
(** The stack the server allows. *)
Variable depth : nat.

Abbreviation parse_data := (ParseAggregationExpressionData EnableCollation null_string handle_other parse_other depth).
Abbreviation self := (evaluator handle_other depth).

Record BsonProjectionQueryState : Set := {
  root : list Node;
  projectVariables : Variables;
  stateHasInclusion : bool;
  stateHasExclusion : bool;
  stateProjectNonMatching : bool
}.

(** A [let] that is no document does not come from the commands. *)
Definition SetVariableSpec (variableSpec : option fields) : M Variables :=
  match variableSpec with
  | None => ret []
  | Some spec =>
    match bson_iter_find_descendant spec (str "let") with
    | None => ret []
    | Some (VDocument letVariables) =>
      let! frame := ParseVariableSpec parse_data letVariables (Some NoVariables) empty_context in
      ret (match frame with Some f => [f] | None => [] end)
    | Some _ => raise ASSERTION_FAILED
    end
  end.

Definition expression_context (variableSpec : option fields) (collation : option bytes) : ParseContext :=
  {| disallowPaths := false;
     nowValue := GetTimeSystemVariablesFromVariableSpec EnableNowSystemVariable variableSpec VEod;
     allowRedactVariables := false;
     collationString := if IsCollationApplicable EnableCollation collation then collation else None |}.

Definition tree_context (variableSpec : option fields) (collation : option bytes) (allow skip : bool)
  : BuildBsonPathTreeContext :=
  {| allowInclusionExclusion := allow; skipParseAggregationExpressions := skip;
     parseAggregationContext := expression_context variableSpec collation;
     hasInclusion := false; hasExclusion := false |}.

Definition BuildBsonPathTreeForDollarProject (pathSpec : fields) (forceProjectId allowInclusionExclusion : bool)
  (variableSpec : option fields) (collation : option bytes) : M BsonProjectionQueryState :=
  let! '(tree, context) :=
    BuildBsonPathTree parse_data pathSpec (tree_context variableSpec collation allowInclusionExclusion false) false in
  let! '(tree, exclusion) :=
    AdjustPathProjectionsForId tree (hasInclusion context) forceProjectId (hasExclusion context) in
  let! variables := SetVariableSpec variableSpec in
  ret {| root := tree; projectVariables := variables; stateHasInclusion := hasInclusion context;
         stateHasExclusion := exclusion; stateProjectNonMatching := exclusion |}.

Definition BuildBsonPathTreeForDollarAddFields (pathSpec : fields) (skipParse : bool)
  (variableSpec : option fields) (collation : option bytes) : M BsonProjectionQueryState :=
  let! '(tree, context) := BuildBsonPathTree parse_data pathSpec (tree_context variableSpec collation false skipParse) true in
  let! variables := SetVariableSpec variableSpec in
  ret {| root := tree; projectVariables := variables; stateHasInclusion := hasInclusion context;
         stateHasExclusion := hasExclusion context; stateProjectNonMatching := true |}.

Definition BuildBsonPathTreeForDollarUnset (unsetValue : bson_value) (forceProjectId : bool)
  : M BsonProjectionQueryState :=
  let! tree := BuildBsonUnsetPathTree unsetValue in
  match tree with
  | [] => raise ERRCODE_DOCUMENTDB_BADVALUE
  | _ =>
    let! '(tree, exclusion) := AdjustPathProjectionsForId tree false forceProjectId true in
    ret {| root := tree; projectVariables := []; stateHasInclusion := false;
           stateHasExclusion := exclusion; stateProjectNonMatching := exclusion |}
  end.

(** ** Applying a state *)

Definition ProjectDocumentWithState (sourceDocument : fields) (state : BsonProjectionQueryState) : M fields :=
  TraverseObjectAndAppendToWriter self sourceDocument (projectVariables state) (stateProjectNonMatching state) false
    sourceDocument (root state) PgbsonWriterInit.

Definition MergeDocumentWithArrayOverride (sourceDocument : fields) (pathSpecTree : list Node) (overrideNestedArrays : bool)
  : M fields :=
  TraverseObjectAndAppendToWriter self sourceDocument [] true overrideNestedArrays sourceDocument pathSpecTree PgbsonWriterInit.

Definition bson_dollar_project (document pathSpec : fields) (variableSpec : option fields) (collation : option bytes)
  : M fields :=
  match pathSpec with
  | [] => ret document
  | _ =>
    let! state := BuildBsonPathTreeForDollarProject pathSpec false false variableSpec
                    (if EnableCollation then collation else None) in
    ProjectDocumentWithState document state
  end.

Definition bson_dollar_add_fields (document pathSpec : fields) (variableSpec : option fields) (collation : option bytes)
  : M fields :=
  match pathSpec with
  | [] => ret document
  | _ =>
    let! state := BuildBsonPathTreeForDollarAddFields pathSpec false variableSpec
                    (if EnableCollation then collation else None) in
    ProjectDocumentWithState document state
  end.

Definition bson_dollar_set := bson_dollar_add_fields.

Definition bson_dollar_unset (document pathSpec : fields) : M fields :=
  match TryGetSinglePgbsonElementFromBsonIterator pathSpec with
  | None => raise ERRCODE_INVALID_PARAMETER_VALUE
  | Some (_, unsetValue) =>
    let! state := BuildBsonPathTreeForDollarUnset unsetValue false in
    ProjectDocumentWithState document state
  end.

Definition GetProjectionStateForBsonProject (projectionSpec : fields) (forceProjectId allowInclusionExclusion : bool)
  : M BsonProjectionQueryState :=
  BuildBsonPathTreeForDollarProject projectionSpec forceProjectId allowInclusionExclusion None None.
Definition GetProjectionStateForBsonAddFields (projectionSpec : fields) : M BsonProjectionQueryState :=
  BuildBsonPathTreeForDollarAddFields projectionSpec false None None.
Definition GetProjectionStateForBsonUnset (unsetValue : bson_value) (forceProjectId : bool) : M BsonProjectionQueryState :=
  BuildBsonPathTreeForDollarUnset unsetValue forceProjectId.

Definition bson_dollar_merge_documents (document pathSpec : fields) (overrideNestedArrays : bool) : M fields :=
  match pathSpec with
  | [] => ret document
  | _ =>
    let! state := BuildBsonPathTreeForDollarAddFields pathSpec true None None in
    MergeDocumentWithArrayOverride document (root state) overrideNestedArrays
  end.

Definition bson_dollar_merge_documents_at_path (leftDocument rightDocument : fields) (path : bytes) : M fields :=
  match rightDocument with
  | [] => ret leftDocument
  | _ =>
    let! '(tree, _) := TraverseDottedPathAndGetOrAddField path (VDocument rightDocument) [] in
    MergeDocumentWithArrayOverride leftDocument tree true
  end.
End Project.
