(* ===== verification/ProjMeaning.v ===== *)
(** * Projections: what they mean

    A projection is a plan: a list of paths, each with an action.  [project] applies
    a plan to a value by following the keys of the value: [below key plan] is what
    the plan says below a key.  There is no tree, nothing is marked, and documents are
    values.  [ProjSound] shows that the trees of [bson_project.c] implement it. *)

From Stdlib Require Import ZArith Lia Bool String List.
From Stdlib Require Import Strings.Byte.
From S2P Require Import Prelude SoftFloat BsonTypes StringView Decimal128 BsonCompare Traversal BsonWriter.
From S2P Require Import AggData AggOperators AggEval AggParse AggMeaning ProjTree.
Import ListNotations.
Local Open Scope Z_scope.

Definition key_eqb (a b : bytes) : bool := cmp_bytes a b =? 0.

(** ** Plans *)

Section Plans.
(** What a field can be set to. *)
Context {E : Type}.

Inductive action : Type := Keep_ | Drop_ | Put (e : E).

Definition plan : Type := list (list bytes * action).

Definition is_put (a : action) : bool := match a with Put _ => true | _ => false end.
Definition is_drop (a : action) : bool := match a with Drop_ => true | _ => false end.

Definition below_entry (key : bytes) (entry : list bytes * action) : plan :=
  match fst entry with
  | s :: rest => if key_eqb s key then [(rest, snd entry)] else []
  | [] => []
  end.

Definition below (key : bytes) (p : plan) : plan := flat_map (below_entry key) p.

(** The first segments, each once. *)
Definition add_head (heads : list bytes) (entry : list bytes * action) : list bytes :=
  match fst entry with
  | s :: _ => if existsb (key_eqb s) heads then heads else heads ++ [s]
  | [] => heads
  end.
Definition heads (p : plan) : list bytes := fold_left add_head p [].

(** The action for the value itself: the last one counts. *)
Definition choose (a : option action) (entry : list bytes * action) : option action :=
  match fst entry with [] => Some (snd entry) | _ => a end.
Definition leaf (p : plan) : option action := fold_left choose p None.

(** Some field is set. *)
Definition puts (p : plan) : bool := existsb (fun entry => is_put (snd entry)) p.

Definition longest (p : plan) : nat := fold_right (fun entry n => Nat.max (List.length (fst entry)) n) O p.

Definition present (values : list bson_value) : list bson_value := filter (fun v => negb (missing v)) values.

(** ** Projection of a value *)

Section Project.
Variable eval : E -> res bson_value.
(** Whether fields that the plan does not mention are kept, and whether arrays on the
    way to a field that is set are replaced. *)
Variable others : bool.
Variable replace_arrays : bool.
Local Open Scope res_scope.

(** The fields with these keys that have a value. *)
Fixpoint fields_with (f : bytes -> res bson_value) (keys : list bytes) : res fields :=
  match keys with
  | [] => Ok []
  | key :: keys =>
    let* v := f key in
    let* rest := fields_with f keys in
    Ok (if missing v then rest else (key, v) :: rest)
  end.

(** A value made from nothing; [n] bounds the length of the paths. *)
Fixpoint new_value (n : nat) (q : plan) : res bson_value :=
  match leaf q with
  | Some (Put e) => eval e
  | Some _ => Ok VEod
  | None =>
    if puts q then
      match n with
      | O => Ok VEod
      | S n => let* fs := fields_with (fun key => new_value n (below key q)) (heads q) in Ok (VDocument fs)
      end
    else Ok VEod
  end.

Definition container (v : bson_value) : bool :=
  match v with VDocument _ => true | VArray _ => negb replace_arrays | _ => false end.

(** The document has a place for the field: it is not added at the end. *)
Definition placed (d : fields) (p : plan) (key : bytes) : bool :=
  existsb (fun kv => key_eqb (fst kv) key &&
             (match leaf (below key p) with Some _ => true | None => container (snd kv) end)) d.

Definition added (d : fields) (p : plan) : res fields :=
  fields_with (fun key => new_value (longest p) (below key p)) (filter (fun key => negb (placed d p key)) (heads p)).

Section Fields.
Variable nested : bson_value -> plan -> res bson_value.

Definition project_field (v : bson_value) (q : plan) : res bson_value :=
  match leaf q with
  | Some Keep_ => Ok v
  | Some Drop_ => Ok VEod
  | Some (Put e) => eval e
  | None =>
    match q with
    | [] => Ok (if others then v else VEod)
    | _ =>
      if container v then nested v q
      else Ok (if negb (puts q) && others then v else VEod)
    end
  end.

Fixpoint project_fields (d : fields) (p : plan) : res fields :=
  match d with
  | [] => Ok []
  | (key, v) :: d =>
    let* v := project_field v (below key p) in
    let* rest := project_fields d p in
    Ok (if missing v then rest else (key, v) :: rest)
  end.

(** An element of an array on the way. *)
Definition project_item (v : bson_value) (p : plan) : res bson_value :=
  match v with
  | VDocument _ | VArray _ => nested v p
  | _ =>
    if puts p then let* fs := added [] p in Ok (VDocument fs)
    else Ok (if others then v else VEod)
  end.

Fixpoint project_items (items : fields) (p : plan) : res (list bson_value) :=
  match items with
  | [] => Ok []
  | (_, v) :: items =>
    let* v := project_item v p in
    let* rest := project_items items p in
    Ok (v :: rest)
  end.
End Fields.

Fixpoint project_value (v : bson_value) (p : plan) : res bson_value :=
  match v with
  | VDocument d =>
    let* fs := project_fields project_value d p in
    let* new := added d p in
    Ok (VDocument (fs ++ new))
  | VArray items =>
    let* values := project_items project_value items p in
    Ok (VArray (array_of (present values)))
  | _ => Ok v
  end.

Definition project (d : fields) (p : plan) : res fields :=
  let* fs := project_fields project_value d p in
  let* new := added d p in
  Ok (fs ++ new).
End Project.
End Plans.

Arguments action : clear implicits.
Arguments plan : clear implicits.

(** ** The plan of a specification *)

Section Specification.
Context {BL : BidLib}.
Variable forceLeafExpression : bool.

Definition leaf_action (v : bson_value) : action bson_value :=
  match DetermineChildNodeType v (forceLeafExpression || is_operator_value v) with
  | Ok NodeType_LeafIncluded => Keep_
  | Ok NodeType_LeafExcluded => Drop_
  | _ => Put v
  end.

Definition prefixed {E} (segments : list bytes) (p : plan E) : plan E := map (fun entry => (segments ++ fst entry, snd entry)) p.

(** Documents that are no operators are nested specifications. *)
Fixpoint value_plan (v : bson_value) : plan bson_value :=
  match v with
  | VDocument d =>
    if is_operator_value v then [([], leaf_action v)]
    else flat_map (fun kv => prefixed (path_segments (fst kv)) (value_plan (snd kv))) d
  | _ => [([], leaf_action v)]
  end.

Definition spec_plan (spec : fields) : plan bson_value :=
  flat_map (fun kv => prefixed (path_segments (fst kv)) (value_plan (snd kv))) spec.
End Specification.

(** [$project]: [_id] is kept unless it is mentioned; it does not count in whether the
    projection includes or excludes fields. *)
Definition is_id (path : list bytes) : bool := match path with [s] => key_eqb s IdField | _ => false end.

Definition counted {E} (p : plan E) : plan E := filter (fun entry => negb (is_id (fst entry))) p.
Definition excludes {E} (p : plan E) : bool := existsb (fun entry => is_drop (snd entry)) (counted p).
Definition includes {E} (p : plan E) : bool := existsb (fun entry => negb (is_drop (snd entry))) (counted p).

Definition id_dropped {E} (p : plan E) : bool :=
  match leaf (below IdField p) with Some Drop_ => true | _ => false end.

Definition with_id {E} (force : bool) (p : plan E) : plan E :=
  if existsb (key_eqb IdField) (heads p) then
    if id_dropped p && force then p ++ [([IdField], Keep_)] else p
  else p ++ [([IdField], Keep_)].

Definition keeps_others {E} (p : plan E) : bool := excludes p || (negb (includes p) && id_dropped p).
