(* ===== verification/ProjPlans.v ===== *)
(** * Projections: the tree of a specification represents its plan

    A tree represents a plan when its children are the first segments of the paths and
    every node represents what the plan says below its field.  Adding a path to the
    tree adds an entry to the plan, so that the tree of a specification represents the
    plan of the specification. *)

From Stdlib Require Import ZArith Lia Bool String List.
From Stdlib Require Import Strings.Byte.
From S2P Require Import Prelude SoftFloat BsonTypes StringView Decimal128 BsonCompare Traversal BsonWriter.
From S2P Require Import AggData AggOperators AggEval AggParse AggMeaning AggOutcome ProjTree ProjMeaning.
Import ListNotations.
Local Open Scope Z_scope.

Lemma key_eqb_eq a b : key_eqb a b = true <-> a = b.
Proof. unfold key_eqb. rewrite Z.eqb_eq. apply cmp_bytes_0. Qed.

Lemma key_eqb_refl a : key_eqb a a = true.
Proof. now apply key_eqb_eq. Qed.

Lemma key_eqb_neq a b : key_eqb a b = false <-> a <> b.
Proof. rewrite <- key_eqb_eq. now destruct (key_eqb a b). Qed.

Lemma key_in key keys : existsb (key_eqb key) keys = true <-> In key keys.
Proof.
  rewrite existsb_exists. split.
  - intros (k & Hk & E). apply key_eqb_eq in E. now subst.
  - intros H. exists key. split; [exact H|apply key_eqb_refl].
Qed.

(** ** Plans *)

Section Plan.
Context {E : Type}.
Implicit Types (p q : plan E).

Lemma below_app key p q : below key (p ++ q) = below key p ++ below key q.
Proof. apply flat_map_app. Qed.

Lemma below_prefixed key s segments p : below key (prefixed (s :: segments) p) = if key_eqb s key then prefixed segments p else [].
Proof.
  induction p as [|e p IH]; [now destruct (key_eqb s key)|].
  change (below key (prefixed (s :: segments) (e :: p))) with
    (below_entry key (s :: segments ++ fst e, snd e) ++ below key (prefixed (s :: segments) p)).
  rewrite IH. unfold below_entry. cbn [fst snd]. now destruct (key_eqb s key).
Qed.

Lemma prefixed_nil p : prefixed [] p = p.
Proof. unfold prefixed. rewrite <- (map_id p) at 2. apply map_ext. now intros []. Qed.

Lemma prefixed_not_nil segments p : p <> [] -> prefixed segments p <> [].
Proof. now destruct p. Qed.

Lemma puts_app p q : puts (p ++ q) = puts p || puts q.
Proof. apply existsb_app. Qed.

Lemma puts_prefixed segments p : puts (prefixed segments p) = puts p.
Proof. induction p as [|e p IH]; [reflexivity|]. cbn. unfold puts, prefixed in IH. now rewrite IH. Qed.

Lemma leaf_app p q : leaf (p ++ q) = fold_left choose q (leaf p).
Proof. apply fold_left_app. Qed.

Lemma leaf_last p a : leaf (p ++ [([], a)]) = Some a.
Proof. now rewrite leaf_app. Qed.

Lemma choose_prefixed s segments q a : fold_left choose (prefixed (s :: segments) q) a = a.
Proof. induction q as [|e q IH]; [reflexivity|]. exact IH. Qed.

(** No path ends here. *)
Definition proper p : Prop := Forall (fun e => fst e <> []) p.

Lemma proper_leaf p : proper p -> leaf p = None.
Proof.
  intros H. unfold leaf. enough (G : forall a, fold_left choose p a = a) by apply G.
  induction H as [|[path a] p He H IH]; intros b; [reflexivity|]. cbn [fold_left]. rewrite IH. unfold choose. cbn [fst] in *. now destruct path.
Qed.

Lemma proper_prefixed s segments p : proper (prefixed (s :: segments) p).
Proof. apply Forall_map, Forall_forall. intros e _. discriminate. Qed.

Lemma leaf_proper p : leaf p = None -> proper p.
Proof.
  induction p as [|e p IH] using rev_ind; [constructor|]. rewrite leaf_app. cbn [fold_left]. unfold choose.
  destruct e as [[|s path] a]; cbn [fst snd]; [discriminate|]. intros H. apply Forall_app. split; [now apply IH|].
  constructor; [discriminate|constructor].
Qed.

(** *** First segments *)

Lemma heads_app p q : heads (p ++ q) = fold_left add_head q (heads p).
Proof. apply fold_left_app. Qed.

Lemma heads_known s segments p : forall keys, In s keys -> fold_left add_head (prefixed (s :: segments) p) keys = keys.
Proof.
  induction p as [|e p IH]; intros keys Hs; [reflexivity|]. cbn [prefixed map fold_left]. unfold add_head at 2. cbn [fst app].
  apply key_in in Hs as G. rewrite G. now apply IH.
Qed.

Lemma heads_prefixed s segments p keys : p <> [] ->
  fold_left add_head (prefixed (s :: segments) p) keys = if existsb (key_eqb s) keys then keys else keys ++ [s].
Proof.
  destruct p as [|e p]; [easy|]. intros _. cbn [prefixed map fold_left]. unfold add_head at 2. cbn [fst app].
  destruct (existsb (key_eqb s) keys) eqn:Hs; apply heads_known; [now apply key_in|]. apply in_or_app. right. now left.
Qed.

Lemma heads_nodup p : NoDup (heads p).
Proof.
  induction p as [|e p IH] using rev_ind; [constructor|]. rewrite heads_app. cbn [fold_left]. unfold add_head.
  destruct (fst e) as [|s rest]; [exact IH|]. destruct (existsb (key_eqb s) (heads p)) eqn:H; [exact IH|].
  apply NoDup_app; [exact IH|repeat constructor; easy|]. intros k Hk [<-|[]].
  apply key_in in Hk. congruence.
Qed.

Lemma heads_in key p : In key (heads p) <-> below key p <> [].
Proof.
  induction p as [|e p IH] using rev_ind; [easy|]. rewrite heads_app, below_app. cbn [fold_left].
  unfold below at 2. cbn [flat_map]. rewrite app_nil_r. unfold add_head, below_entry.
  destruct (fst e) as [|s rest]; [now rewrite app_nil_r|].
  assert (A : forall x : list bytes * action E, below key p ++ [x] <> []) by (intros x Hx; now apply app_eq_nil in Hx).
  destruct (key_eqb s key) eqn:K.
  - apply key_eqb_eq in K. subst s. split; [intros _; apply A|intros _].
    destruct (existsb (key_eqb key) (heads p)) eqn:H; [now apply key_in|]. apply in_or_app. right. now left.
  - rewrite app_nil_r. apply key_eqb_neq in K.
    destruct (existsb (key_eqb s) (heads p)); [exact IH|]. rewrite in_app_iff, IH. split; [|now left].
    intros [H|[H|[]]]; [exact H|now elim K].
Qed.

Lemma heads_not_in key p : ~ In key (heads p) -> below key p = [].
Proof. rewrite heads_in. now destruct (below key p) as [|e q]; [|intros H; elim H]. Qed.

Lemma heads_nonempty p : proper p -> p <> [] -> heads p <> [].
Proof.
  destruct p as [|[path a] p]; [easy|]. intros H _ N. inversion_clear H as [|? ? Hp _]. cbn [fst] in Hp.
  destruct path as [|s path]; [easy|]. assert (H : In s (heads ((s :: path, a) :: p))).
  { apply heads_in. unfold below. cbn [flat_map]. unfold below_entry at 1. cbn [fst]. rewrite key_eqb_refl. discriminate. }
  now rewrite N in H.
Qed.

(** *** Keys without NUL bytes *)

Definition plan_ok p : Prop := Forall (fun e => Forall no_nul (fst e)) p.

Lemma plan_ok_app p q : plan_ok (p ++ q) <-> plan_ok p /\ plan_ok q.
Proof. apply Forall_app. Qed.

Lemma plan_ok_prefixed segments p : Forall no_nul segments -> plan_ok p -> plan_ok (prefixed segments p).
Proof.
  intros Hs Hp. apply Forall_map. eapply Forall_impl; [|exact Hp]. intros e He. cbn [fst]. apply Forall_app. now split.
Qed.

Lemma plan_ok_below key p : plan_ok p -> plan_ok (below key p).
Proof.
  intros H. apply Forall_flat_map. eapply Forall_impl; [|exact H]. intros [path a] He. unfold below_entry. cbn [fst snd] in *.
  destruct path as [|s rest]; [constructor|]. inversion_clear He. destruct (key_eqb s key); repeat constructor. assumption.
Qed.

Lemma plan_ok_heads p : plan_ok p -> Forall no_nul (heads p).
Proof.
  induction p as [|e p IH] using rev_ind; [constructor|]. intros H. apply plan_ok_app in H. destruct H as [Hp He].
  rewrite heads_app. cbn [fold_left]. unfold add_head. inversion_clear He as [|? ? Hf _].
  destruct (fst e) as [|s rest]; [now apply IH|]. inversion_clear Hf.
  destruct (existsb _ _); [now apply IH|]. apply Forall_app. split; [now apply IH|]. now constructor.
Qed.

(** *** The length of the paths *)


Lemma longest_below key p : below key p = [] \/ (S (longest (below key p)) <= longest p)%nat.
Proof.
  induction p as [|[path a] p IH]; [now left|].
  change (below key ((path, a) :: p)) with (below_entry key (path, a) ++ below key p).
  change (longest ((path, a) :: p)) with (Nat.max (List.length path) (longest p)).
  unfold below_entry. cbn [fst snd]. destruct path as [|s rest]; [destruct IH as [IH|IH]; [now left|right; cbn [app]; lia]|].
  destruct (key_eqb s key); cbn [app List.length].
  - right. change (longest ((rest, a) :: below key p)) with (Nat.max (List.length rest) (longest (below key p))).
    destruct IH as [->|IH]; [change (longest []) with O|]; lia.
  - destruct IH as [IH|IH]; [now left|right; lia].
Qed.
End Plan.

(** ** Trees that represent a plan *)

Section Represent.
Context {BL : BidLib} {OtherArguments : Set} {E : Type}.

Abbreviation Data := (@AggregationExpressionData OtherArguments).
Abbreviation Node := (@ProjectionNode OtherArguments).

Section Relation.
(** What it means for the data of a leaf to write a value, and for the elements of an
    array leaf. *)
Variable writes : Data -> E -> Prop.
Variable writes_array : list Data -> E -> Prop.

Fixpoint represents (node : Node) (q : plan E) : Prop :=
  match node with
  | LeafIncluded _ => leaf q = Some Keep_
  | LeafExcluded _ => leaf q = Some Drop_
  | LeafField _ data => exists e, leaf q = Some (Put e) /\ writes data e
  | LeafWithArrayField _ items => exists e, leaf q = Some (Put e) /\ writes_array items e
  | Intermediate _ flag children =>
    leaf q = None /\ q <> [] /\ flag = puts q /\ heads q = map field_of children /\
    (fix all (children : list Node) : Prop :=
       match children with
       | [] => True
       | node :: children => represents node (below (field_of node) q) /\ all children
       end) children
  end.

Definition tree_represents (tree : list Node) (p : plan E) : Prop :=
  heads p = map field_of tree /\ Forall (fun node => represents node (below (field_of node) p)) tree.

Lemma represents_intermediate field flag children q :
  represents (Intermediate field flag children) q <-> leaf q = None /\ q <> [] /\ flag = puts q /\ tree_represents children q.
Proof.
  cbn [represents]. unfold tree_represents.
  enough (G : forall cs, (fix all (children : list Node) : Prop :=
     match children with [] => True | node :: children => represents node (below (field_of node) q) /\ all children end) cs <->
     Forall (fun node => represents node (below (field_of node) q)) cs) by (rewrite G; tauto).
  induction cs as [|node cs IH]; [split; constructor|]. rewrite IH. split; [intros [H1 H2]; now constructor|intros H; now inversion H].
Qed.

Lemma tree_represents_nil : tree_represents [] [].
Proof. split; constructor. Qed.
End Relation.

(** Induction on nodes. *)
Lemma node_induction (P : Node -> Prop) :
  (forall field, P (LeafIncluded field)) -> (forall field, P (LeafExcluded field)) ->
  (forall field data, P (LeafField field data)) -> (forall field items, P (LeafWithArrayField field items)) ->
  (forall field flag children, Forall P children -> P (Intermediate field flag children)) ->
  forall node, P node.
Proof.
  intros H1 H2 H3 H4 H5. fix IH 1.
  intros [field|field|field data|field items|field flag children]; [apply H1|apply H2|apply H3|apply H4|].
  apply H5. induction children as [|node children IHc]; constructor; [apply IH|exact IHc].
Qed.

(** The leaves of a tree eventually write what they should. *)
Lemma represents_eventually (W : nat -> Data -> E -> Prop) (A : nat -> list Data -> E -> Prop) node : forall q,
  represents (fun d e => eventually (fun k => W k d e)) (fun d e => eventually (fun k => A k d e)) node q ->
  eventually (fun k => represents (W k) (A k) node q).
Proof.
  induction node as [field|field|field data|field items|field flag children IH] using node_induction; intros q H.
  - now apply eventually_true.
  - now apply eventually_true.
  - destruct H as (e & He & H). revert H. apply eventually_mono. intros k H. now exists e.
  - destruct H as (e & He & H). revert H. apply eventually_mono. intros k H. now exists e.
  - apply represents_intermediate in H. destruct H as (Hl & Hq & Hf & Hh & Hc).
    assert (G : eventually (fun k => Forall (fun node => represents (W k) (A k) node (below (field_of node) q)) children)).
    { clear Hh. induction Hc as [|node cs Hn Hc IHc]; [apply eventually_true; constructor|].
      inversion_clear IH as [|? ? IHn IHcs]. generalize (eventually_and _ _ (IHn _ Hn) (IHc IHcs)). apply eventually_mono.
      intros k [G1 G2]. now constructor. }
    revert G. apply eventually_mono. intros k G. apply represents_intermediate. repeat split; auto.
Qed.

Lemma tree_represents_eventually (W : nat -> Data -> E -> Prop) (A : nat -> list Data -> E -> Prop) tree p :
  tree_represents (fun d e => eventually (fun k => W k d e)) (fun d e => eventually (fun k => A k d e)) tree p ->
  eventually (fun k => tree_represents (W k) (A k) tree p).
Proof.
  intros [Hh Hc].
  assert (G : eventually (fun k => Forall (fun node => represents (W k) (A k) node (below (field_of node) p)) tree)).
  { clear Hh. induction Hc as [|node cs Hn Hc IHc]; [apply eventually_true; constructor|].
    generalize (eventually_and _ _ (represents_eventually W A node _ Hn) IHc). apply eventually_mono. intros k [G1 G2]. now constructor. }
  revert G. apply eventually_mono. intros k G. now split.
Qed.

(** ** Adding a path *)

Section Add.
Variable writes : Data -> E -> Prop.
Variable writes_array : list Data -> E -> Prop.
Abbreviation rep := (represents writes writes_array).
Abbreviation rep_tree := (tree_represents writes writes_array).

Lemma same_name_key a b : no_nul a -> same_name a b = key_eqb a b.
Proof.
  intros H. rewrite same_name_iff by exact H. unfold key_eqb. apply eq_true_iff_eq. rewrite !Z.eqb_eq, !cmp_bytes_0. split; congruence.
Qed.

(** The child is there, or it is added at the end. *)
Lemma get_or_add {B} field tree (f : option Node -> M (Node * B)) t tree' b t' :
  GetOrAddChildNode field tree f t = Ok ((tree', b), t') -> Forall no_nul (map field_of tree) ->
  (exists before node node' after, tree = before ++ node :: after /\ tree' = before ++ node' :: after /\
     field_of node = field /\ f (Some node) t = Ok ((node', b), t')) \/
  (~ In field (map field_of tree) /\ exists node', tree' = tree ++ [node'] /\ f None t = Ok ((node', b), t')).
Proof.
  revert tree'. induction tree as [|node tree IH]; intros tree' H Hn; cbn [GetOrAddChildNode] in H; unfold bind in H.
  - destruct (f None t) as [[[node' b'] t1]|] eqn:Ef; [|discriminate]. injection H as <- <- <-. right. split; [easy|]. now exists node'.
  - cbn [map] in Hn. inversion_clear Hn as [|? ? Hn1 Hn2]. rewrite same_name_key in H by exact Hn1.
    destruct (key_eqb (field_of node) field) eqn:K.
    + apply key_eqb_eq in K. destruct (f (Some node) t) as [[[node' b'] t1]|] eqn:Ef; [|discriminate]. injection H as <- <- <-.
      left. now exists [], node, node', tree.
    + apply key_eqb_neq in K. destruct (GetOrAddChildNode field tree f t) as [[[tree1 b'] t1]|] eqn:Eg; [|discriminate].
      injection H as <- <- <-. destruct (IH tree1 eq_refl Hn2) as [(before & n & n' & after & -> & -> & Hf & Ef)|[Hi (n' & -> & Ef)]].
      * left. now exists (node :: before), n, n', after.
      * right. split; [|now exists n']. intros [G|G]; [now elim K|now elim Hi].
Qed.

Definition state_of (existing : option Node) (q : plan E) : Prop :=
  match existing with None => q = [] | Some node => rep node q end.

Lemma children_kept field nodes p ext : ~ In field (map field_of nodes) ->
  Forall (fun node => rep node (below (field_of node) p)) nodes ->
  Forall (fun node => rep node (below (field_of node) (p ++ prefixed [field] ext))) nodes.
Proof.
  intros Hi H. induction H as [|node nodes Hn H IH]; [constructor|]. cbn [map] in Hi. apply not_in_cons in Hi. destruct Hi as [Hd Hi].
  constructor; [|now apply IH]. rewrite below_app, below_prefixed. apply key_eqb_neq in Hd. rewrite Hd. now rewrite app_nil_r.
Qed.

(** What is done to one child, for the results [G] that count. *)
Lemma add_child_when {B} field tree (f : option Node -> M (Node * B)) t tree' b t' p ext (G Q : B -> Prop) :
  GetOrAddChildNode field tree f t = Ok ((tree', b), t') -> G b -> plan_ok p -> ext <> [] -> rep_tree tree p ->
  (forall existing node b t t', f existing t = Ok ((node, b), t') -> G b -> state_of existing (below field p) ->
     field_of node = field /\ rep node (below field p ++ ext) /\ Q b) ->
  rep_tree tree' (p ++ prefixed [field] ext) /\ Q b.
Proof.
  intros H HG Hp Hext [Hh Hc] Hf. assert (Hn := plan_ok_heads _ Hp). rewrite Hh in Hn.
  assert (Hd := heads_nodup p). rewrite Hh in Hd.
  unfold tree_represents. rewrite heads_app, heads_prefixed, Hh by exact Hext.
  destruct (get_or_add _ _ _ _ _ _ _ H Hn) as [(before & node & node' & after & -> & -> & Hfield & Ef)|[Hi (node' & -> & Ef)]].
  - apply Forall_app in Hc. destruct Hc as [Hc1 Hc2]. inversion_clear Hc2 as [|? ? Hnode Hc3].
    rewrite Hfield in Hnode. destruct (Hf _ _ _ _ _ Ef HG Hnode) as (Hfield' & Hrep & HQ). split; [|exact HQ].
    rewrite map_app in Hd |- *. cbn [map] in *. rewrite Hfield in Hd |- *.
    assert (Hin : existsb (key_eqb field) (map field_of before ++ field :: map field_of after) = true)
      by (apply key_in, in_or_app; right; now left).
    rewrite Hin. apply NoDup_remove_2 in Hd. rewrite in_app_iff in Hd.
    rewrite map_app. cbn [map]. split; [now rewrite Hfield'|].
    apply Forall_app. split; [apply children_kept; tauto|]. constructor; [|apply children_kept; tauto].
    rewrite Hfield', below_app, below_prefixed, key_eqb_refl, prefixed_nil. exact Hrep.
  - destruct (Hf None node' b t t' Ef HG) as (Hfield' & Hrep & HQ).
    { cbn [state_of]. apply heads_not_in. now rewrite Hh. }
    split; [|exact HQ]. rewrite map_app. cbn [map]. rewrite Hfield'.
    assert (Hin : existsb (key_eqb field) (map field_of tree) = false).
    { apply not_true_iff_false. rewrite key_in. exact Hi. }
    rewrite Hin. split; [reflexivity|]. apply Forall_app. split; [now apply children_kept|]. constructor; [|constructor].
    rewrite Hfield', below_app, below_prefixed, key_eqb_refl, prefixed_nil. exact Hrep.
Qed.

(** The entries below a path. *)
Lemma add_path_when {B} ext (hasField : bool) (marks : B -> bool) (blocked : bytes -> M B) last (G Q : B -> Prop) :
  ext <> [] -> (forall field t b t', blocked field t = Ok (b, t') -> ~ G b) ->
  (forall field existing node b t t' q, last field existing t = Ok ((node, b), t') -> G b -> plan_ok q -> state_of existing q ->
     field_of node = field /\ rep node (q ++ ext) /\ hasField || marks b = puts ext /\ Q b) ->
  forall segments tree t tree' b t' p,
  TraverseDottedPathAndGetNode segments tree hasField marks blocked last t = Ok ((tree', b), t') -> G b ->
  plan_ok p -> rep_tree tree p ->
  rep_tree tree' (p ++ prefixed segments ext) /\ hasField || marks b = puts ext /\ Q b.
Proof.
  intros Hext Hblocked Hlast segments. induction segments as [|field segments IH]; intros tree t tree' b t' p H HG Hp Htree; [discriminate|].
  assert (Hb := plan_ok_below field p Hp).
  destruct segments as [|s segments].
  - cbn [TraverseDottedPathAndGetNode] in H.
    apply (add_child_when field tree _ t tree' b t' p ext G (fun b => hasField || marks b = puts ext /\ Q b) H HG Hp Hext Htree).
    intros existing node b' t1 t2 Ef Hg Hs. exact (Hlast _ _ _ _ _ _ _ Ef Hg Hb Hs).
  - change (prefixed (field :: s :: segments) ext) with (map (fun e : list bytes * action E => ((field :: s :: segments) ++ fst e, snd e)) ext).
    replace (map _ ext) with (prefixed [field] (prefixed (s :: segments) ext))
      by (unfold prefixed; rewrite map_map; reflexivity).
    assert (Hext' : prefixed (s :: segments) ext <> []) by now apply prefixed_not_nil.
    assert (Hnode : forall flag children b' t1 t2, TraverseDottedPathAndGetNode (s :: segments) children hasField marks blocked last t1 = Ok ((flag, b'), t2) -> G b' ->
      forall q, plan_ok q -> leaf q = None -> rep_tree children q ->
      (forall flag0, flag0 = puts q || (hasField || marks b') ->
         rep (Intermediate field flag0 flag) (q ++ prefixed (s :: segments) ext)) /\ hasField || marks b' = puts ext /\ Q b').
    { intros children' children b' t1 t2 Ew Hg q Hq Hl Hrep. destruct (IH _ _ _ _ _ _ Ew Hg Hq Hrep) as (Hrep' & Hflag & HQ).
      split; [|now split]. intros flag0 ->. apply represents_intermediate.
      split; [rewrite leaf_app, choose_prefixed; exact Hl|].
      split; [intros Hnil; apply app_eq_nil in Hnil; tauto|].
      split; [now rewrite puts_app, puts_prefixed, Hflag|exact Hrep']. }
    apply (add_child_when field tree _ t tree' b t' p _ G (fun b => hasField || marks b = puts ext /\ Q b) H HG Hp Hext' Htree).
    intros existing node b' t1 t2 Ef Hg Hs.
    destruct existing as [[fi|fi|fi d|fi d|fi flag children]|];
      try (unfold bind in Ef; destruct (blocked field t1) as [[b1 t3]|] eqn:Eb; [injection Ef as _ -> _; now elim (Hblocked _ _ _ _ Eb)|discriminate]).
    + unfold bind in Ef. match type of Ef with match ?x with _ => _ end = _ => destruct x as [[[children' b1] t3]|] eqn:Ew; [|discriminate] end.
      injection Ef as <- <- <-. cbn [state_of] in Hs. apply represents_intermediate in Hs. destruct Hs as (Hl & Hne & -> & Hrep).
      destruct (Hnode _ _ _ _ _ Ew Hg _ Hb Hl Hrep) as (R & HQ). split; [reflexivity|]. split; [|exact HQ]. apply R. now rewrite orb_assoc.
    + unfold bind in Ef. match type of Ef with match ?x with _ => _ end = _ => destruct x as [[[children' b1] t3]|] eqn:Ew; [|discriminate] end.
      injection Ef as <- <- <-. cbn [state_of] in Hs. rewrite Hs in *.
      destruct (Hnode _ _ _ _ _ Ew Hg [] Hb eq_refl (tree_represents_nil _ _)) as (R & HQ). split; [reflexivity|]. split; [|exact HQ]. now apply R.
Qed.

(** When all results count. *)
Lemma add_child {B} field tree (f : option Node -> M (Node * B)) t tree' b t' p ext (Q : B -> Prop) :
  GetOrAddChildNode field tree f t = Ok ((tree', b), t') -> plan_ok p -> ext <> [] -> rep_tree tree p ->
  (forall existing node b t t', f existing t = Ok ((node, b), t') -> state_of existing (below field p) ->
     field_of node = field /\ rep node (below field p ++ ext) /\ Q b) ->
  rep_tree tree' (p ++ prefixed [field] ext) /\ Q b.
Proof. intros H Hp Hext Hr Hf. apply (add_child_when field tree f t tree' b t' p ext (fun _ => True) Q H I Hp Hext Hr). eauto. Qed.

Lemma add_path {B} ext (hasField : bool) (marks : B -> bool) (blocked : bytes -> M B) last (Q : B -> Prop) :
  ext <> [] -> (forall field t b t', blocked field t = Ok (b, t') -> False) ->
  (forall field existing node b t t' q, last field existing t = Ok ((node, b), t') -> plan_ok q -> state_of existing q ->
     field_of node = field /\ rep node (q ++ ext) /\ hasField || marks b = puts ext /\ Q b) ->
  forall segments tree t tree' b t' p,
  TraverseDottedPathAndGetNode segments tree hasField marks blocked last t = Ok ((tree', b), t') ->
  plan_ok p -> rep_tree tree p ->
  rep_tree tree' (p ++ prefixed segments ext) /\ hasField || marks b = puts ext /\ Q b.
Proof.
  intros Hext Hblocked Hlast segments tree t tree' b t' p H Hp Hr.
  apply (add_path_when ext hasField marks blocked last (fun _ => True) Q Hext) with (3 := H); auto.
  - intros field t1 b1 t2 Eb _. exact (Hblocked _ _ _ _ Eb).
  - intros field existing node b1 t1 t2 q El _. exact (Hlast _ _ _ _ _ _ _ El).
Qed.
End Add.
End Represent.
