(* ===== verification/ProjApply.v ===== *)
(** * Projections: applying a tree

    When a tree represents a plan and its leaves write the values of the plan, the
    traversal of [bson_project.c] writes the projection of the document by the plan:
    the indexes it marks are those of the fields that the document has a place for. *)

From Stdlib Require Import ZArith Lia Bool String List.
From Stdlib Require Import Strings.Byte.
From S2P Require Import Prelude SoftFloat BsonTypes StringView Decimal128 BsonCompare Traversal BsonWriter.
From S2P Require Import AggData AggOperators AggEval AggParse AggMeaning AggOutcome ProjTree Project ProjMeaning ProjPlans.
Import ListNotations.
Local Open Scope Z_scope.

(** Induction on values, through documents and arrays. *)
Lemma value_nested_induction (P : bson_value -> Prop) :
  (forall d, Forall (fun kv => P (snd kv)) d -> P (VDocument d)) ->
  (forall d, Forall (fun kv => P (snd kv)) d -> P (VArray d)) ->
  (forall v, (forall d, v <> VDocument d) -> (forall d, v <> VArray d) -> P v) -> forall v, P v.
Proof.
  intros H1 H2 H3. fix IH 1. intros v.
  destruct v as [| | |d|d| | | | | | | | | | | | | | | | |]; try (apply H3; discriminate).
  - apply H1. induction d as [|[k v] d IHd]; constructor; [apply IH|exact IHd].
  - apply H2. induction d as [|[k v] d IHd]; constructor; [apply IH|exact IHd].
Qed.

Section Apply.
Context {BL : BidLib} {LB : LibBson} {LM : LibM} {LD : LibBsonDoc} {Laws : LibBsonDocLaws LD} {OtherArguments : Set} {E : Type}.
Variable multi : bool.
Variable self : @Evaluator OtherArguments.
Variable parentDocument : fields.
Variable ctx : @ExpressionVariableContext OtherArguments.
Variable eval : E -> res bson_value.
Variables others replace_arrays : bool.

Abbreviation Data := (@AggregationExpressionData OtherArguments).
Abbreviation Node := (@ProjectionNode OtherArguments).
Abbreviation Outcome := (outcome multi).

Definition data_writes (data : Data) (e : E) : Prop := forall path w t,
  Outcome (evaluate_to_writer self data parentDocument path w ctx false t) (eval e) (fun v w' => w' = written w path v).
Definition array_writes (items : list Data) (e : E) : Prop := forall path w t,
  Outcome (WriteLeafArrayFieldToWriter self parentDocument ctx w path items t) (eval e) (fun v w' => w' = written w path v).

Abbreviation rep := (represents data_writes array_writes).
Abbreviation rep_tree := (tree_represents data_writes array_writes).
Abbreviation new_value := (new_value eval).

(** ** New fields *)

(** The indexes that are skipped, or the field would not be written anyway. *)
Lemma unresolved_outcome (f : bytes -> res bson_value) (skip : bytes -> bool) handled nodes : forall index,
  (forall i node, nth_error nodes i = Some node ->
     existsb (Nat.eqb (index + i)) handled = skip (field_of node) \/ f (field_of node) = Ok VEod) ->
  Forall (fun node => forall w t, Outcome (write_field self parentDocument ctx node w t) (f (field_of node))
                        (fun v w' => w' = written w (field_of node) v)) nodes ->
  forall w t, Outcome (HandleUnresolvedFields self parentDocument ctx nodes index handled w t)
    (fields_with f (filter (fun key => negb (skip key)) (map field_of nodes))) (fun fs w' => w' = w ++ fs).
Proof.
  induction nodes as [|node nodes IH]; intros index Hs Hw w t.
  - apply outcome_pure. now rewrite app_nil_r.
  - inversion_clear Hw as [|? ? Hnode Hnodes]. cbn [HandleUnresolvedFields map filter].
    assert (Hs' : forall i n, nth_error nodes i = Some n -> existsb (Nat.eqb (S index + i)) handled = skip (field_of n) \/ f (field_of n) = Ok VEod).
    { intros i n Hi. specialize (Hs (S i) n Hi). now rewrite Nat.add_succ_r in Hs. }
    assert (G : forall m w, Outcome m (if negb (skip (field_of node)) then f (field_of node) else Ok VEod)
                    (fun v w' => w' = written w (field_of node) v) ->
      Outcome (match m with Ok (w', t') => HandleUnresolvedFields self parentDocument ctx nodes (S index) handled w' t' | Err e => Err e end)
        (fields_with f (if negb (skip (field_of node)) then field_of node :: filter (fun key => negb (skip key)) (map field_of nodes)
                        else filter (fun key => negb (skip key)) (map field_of nodes))) (fun fs w' => w' = w ++ fs)).
    { intros m w0 Hm. unfold outcome in Hm at 1. destruct m as [[w1 t1]|e].
      - destruct Hm as (v & Ev & ->). specialize (IH (S index) Hs' Hnodes (written w0 (field_of node) v) t1).
        destruct (negb (skip (field_of node))).
        + cbn [fields_with]. rewrite Ev. cbn [res_bind]. unfold outcome in *.
          destruct (HandleUnresolvedFields _ _ _ _ _ _ _ _) as [[w2 t2]|e].
          * destruct IH as (fs & -> & ->). eexists. split; [reflexivity|]. unfold written. destruct (missing v); [reflexivity|].
            now rewrite <- app_assoc.
          * destruct IH as [U| ->]; [now left|now right].
        + injection Ev as <-. exact IH.
      - destruct Hm as [U|Ev]; [now left|]. right. destruct (negb (skip (field_of node))); [|discriminate]. cbn [fields_with]. now rewrite Ev. }
    unfold bind. apply (G _ w). specialize (Hs O node eq_refl). rewrite Nat.add_0_r in Hs.
    destruct (existsb (Nat.eqb index) handled).
    + destruct Hs as [<-|Hv]; [now apply outcome_pure|]. rewrite Hv. destruct (negb (skip (field_of node))); now apply outcome_pure.
    + destruct Hs as [<-|Hv]; [apply Hnode|]. specialize (Hnode w t). rewrite Hv in Hnode |- *. now destruct (negb (skip (field_of node))).
Qed.

Lemma intermediate_written field children w t :
  write_field self parentDocument ctx (Intermediate field true children) w t =
  bind (HandleUnresolvedFields self parentDocument ctx children 0 [] (PgbsonWriterStartDocument w field))
    (fun childWriter => ret (PgbsonWriterEndDocument w field childWriter)) t.
Proof.
  cbn [write_field]. unfold bind at 1 3.
  set (nodes := fix nodes (children : list Node) (w : pgbson_writer) : M pgbson_writer :=
    match children with [] => ret w | node :: children => bind (write_field self parentDocument ctx node w) (nodes children) end).
  enough (G : forall children i w t, nodes children w t = HandleUnresolvedFields self parentDocument ctx children i [] w t)
    by now rewrite (G children O).
  clear. induction children as [|node children IH]; intros i w t; [reflexivity|]. cbn [nodes HandleUnresolvedFields existsb]. unfold bind.
  destruct (write_field self parentDocument ctx node w t) as [[w1 t1]|]; [apply IH|reflexivity].
Qed.

Lemma write_field_outcome node : forall q n, rep node q -> (longest q <= n)%nat -> forall w t,
  Outcome (write_field self parentDocument ctx node w t) (new_value n q) (fun v w' => w' = written w (field_of node) v).
Proof.
  induction node as [field|field|field data|field items|field flag children IH] using node_induction; intros q n H Hn w t.
  - cbn [represents] in H. destruct n; cbn [ProjMeaning.new_value]; rewrite H; now apply outcome_pure.
  - cbn [represents] in H. destruct n; cbn [ProjMeaning.new_value]; rewrite H; now apply outcome_pure.
  - destruct H as (e & He & H). replace (new_value n q) with (eval e) by (destruct n; cbn [ProjMeaning.new_value]; now rewrite He). apply H.
  - destruct H as (e & He & H). replace (new_value n q) with (eval e) by (destruct n; cbn [ProjMeaning.new_value]; now rewrite He). apply H.
  - apply represents_intermediate in H. destruct H as (Hl & Hq & -> & Hh & Hc). cbn [field_of].
    destruct (puts q) eqn:Hp.
    + assert (Hne := heads_nonempty q (leaf_proper q Hl) Hq).
      assert (Hlong : forall key, In key (heads q) -> (S (longest (below key q)) <= n)%nat).
      { intros key Hk. apply heads_in in Hk. destruct (longest_below key q); [now elim Hk|lia]. }
      destruct n as [|n]; [destruct (heads q) as [|key keys]; [easy|specialize (Hlong key (or_introl eq_refl)); lia]|].
      cbn [ProjMeaning.new_value]. rewrite Hl, Hp, intermediate_written.
      eapply outcome_bind with (P := fun fs w' => w' = fs).
      * rewrite Hh. rewrite <- (filter_true (map field_of children)).
        apply (unresolved_outcome (fun key => new_value n (below key q)) (fun _ => false) [] children 0); [now left|].
        apply Forall_forall. intros node Hin w' t'. rewrite Forall_forall in IH, Hc.
        apply (IH node Hin _ n (Hc node Hin)). assert (In (field_of node) (heads q)) by (rewrite Hh; now apply in_map).
        specialize (Hlong _ H). lia.
      * intros w' fs t' ->. apply outcome_pure. reflexivity.
    + replace (new_value n q) with (Ok VEod : res bson_value) by (destruct n; cbn [ProjMeaning.new_value]; now rewrite Hl, Hp).
      now apply outcome_pure.
Qed.

(** ** Fields of the document *)

Lemma find_child_nth key (nodes : list Node) : Forall no_nul (map field_of nodes) -> forall index,
  match find_child key nodes index with
  | None => ~ In key (map field_of nodes)
  | Some (i, node) => exists k, i = (index + k)%nat /\ nth_error nodes k = Some node /\ field_of node = key
  end.
Proof.
  induction nodes as [|node nodes IH]; intros Hn index; [easy|]. cbn [map] in Hn. inversion_clear Hn as [|? ? H1 H2].
  cbn [find_child map]. rewrite same_name_key by exact H1. destruct (key_eqb (field_of node) key) eqn:K.
  - apply key_eqb_eq in K. exists O. split; [lia|]. now split.
  - apply key_eqb_neq in K. specialize (IH H2 (S index)). destruct (find_child key nodes (S index)) as [[i n]|].
    + destruct IH as (k & -> & Hk & Hf). exists (S k). split; [lia|]. now split.
    + intros [G|G]; [now elim K|now elim IH].
Qed.

(** The field is marked in the source. *)
Definition marked (q : plan E) (v : bson_value) : bool :=
  match leaf q with
  | Some (Put _) => true
  | Some _ => false
  | None => puts q && container replace_arrays v
  end.

(** The nodes whose index was marked by the fields of [d]. *)
Definition marks_exactly (nodes : list Node) (p : plan E) (d : fields) (before after : list nat) : Prop :=
  forall i node, nth_error nodes i = Some node ->
  existsb (Nat.eqb i) after =
  existsb (Nat.eqb i) before || existsb (fun kv => key_eqb (fst kv) (field_of node) && marked (below (field_of node) p) (snd kv)) d.

Section Nested.
Variable nested_object : bson_value -> list Node -> M pgbson_writer.
Variable nested_array : bson_value -> bool -> list Node -> M pgbson_array_writer.

Abbreviation nested := (project_value eval others replace_arrays).

(** What the traversal of a nested value writes. *)
Definition nested_ok (v : bson_value) : Prop := forall q nodes t, plan_ok q -> leaf q = None -> rep_tree nodes q ->
  match v with
  | VDocument _ => Outcome (nested_object v nodes t) (nested v q) (fun x w => x = VDocument w)
  | VArray _ => Outcome (nested_array v (puts q) nodes t) (nested v q) (fun x aw => x = VArray (innerBson aw))
  | _ => True
  end.

Lemma append_written w path v : plain v = true -> PgbsonWriterAppendValue w path v = Ok (written w path v).
Proof.
  intros H. unfold PgbsonWriterAppendValue, append, written. now rewrite (append_copied _ (plain_copied _ H)), (plain_not_missing v H).
Qed.

Lemma non_matching_outcome w path v t : plain v = true ->
  Outcome (write_non_matching others w path v t) (Ok (if others then v else VEod)) (fun x w' => w' = written w path x).
Proof.
  intros H. unfold write_non_matching. destruct others; [|now apply outcome_pure]. unfold lift. rewrite append_written by exact H.
  now apply outcome_pure.
Qed.

Lemma outcome_pair {A B C} (x : M A) (m : res B) (P : B -> A -> Prop) (c : C) t : Outcome (x t) m P ->
  Outcome (bind x (fun a => ret (a, c)) t) m (fun v ac => P v (fst ac) /\ snd ac = c).
Proof. intros H. eapply outcome_then; [exact H|]. intros a v t' _ HP. apply outcome_pure. now split. Qed.

Lemma field_outcome path v nodes p w handled t : plan_ok p -> rep_tree nodes p -> plain v = true -> nested_ok v ->
  Outcome (ProjectCurrentIteratorFieldToWriter self parentDocument ctx others replace_arrays nested_object nested_array path v nodes w handled t)
    (project_field eval others replace_arrays nested v (below path p))
    (fun x wh => fst wh = written w path x /\ marks_exactly nodes p [(path, v)] handled (snd wh)).
Proof.
  intros Hp [Hh Hc] Hv Hn. assert (Hnul := plan_ok_heads _ Hp). rewrite Hh in Hnul. assert (Hd := heads_nodup p). rewrite Hh in Hd.
  unfold ProjectCurrentIteratorFieldToWriter, project_field. pose proof (find_child_nth path nodes Hnul O) as F.
  assert (Same : forall b, (forall node, In node nodes -> field_of node = path -> marked (below path p) v = b) -> b = false ->
    marks_exactly nodes p [(path, v)] handled handled).
  { intros b Hb -> i node Hi. cbn [existsb fst snd]. rewrite orb_false_r. destruct (key_eqb path (field_of node)) eqn:K; [|now rewrite orb_false_r].
    apply key_eqb_eq in K. rewrite <- K, (Hb node (nth_error_In _ _ Hi) (eq_sym K)). now rewrite orb_false_r. }
  destruct (find_child path nodes 0) as [[index node]|].
  - destruct F as (k & -> & Hk & Hf). cbn [Nat.add]. assert (Hr : rep node (below path p)).
    { rewrite Forall_forall in Hc. rewrite <- Hf. apply Hc. exact (nth_error_In _ _ Hk). }
    assert (More : marked (below path p) v = true -> marks_exactly nodes p [(path, v)] handled (k :: handled)).
    { intros Hm i n Hi. cbn [existsb fst snd]. rewrite orb_false_r. destruct (Nat.eqb i k) eqn:Ei.
      - apply Nat.eqb_eq in Ei. subst i. rewrite Hk in Hi. injection Hi as <-. rewrite Hf, key_eqb_refl, Hm. cbn. now rewrite orb_true_r.
      - cbn [orb]. destruct (key_eqb path (field_of n)) eqn:K; [|now rewrite orb_false_r]. exfalso. apply key_eqb_eq in K.
        apply Nat.eqb_neq in Ei. apply Ei. apply (proj1 (NoDup_nth_error (map field_of nodes)) Hd).
        + rewrite length_map. apply nth_error_Some. now rewrite Hi.
        + rewrite (map_nth_error field_of i nodes Hi), (map_nth_error field_of k nodes Hk). congruence. }
    assert (Same' : marked (below path p) v = false -> marks_exactly nodes p [(path, v)] handled handled)
      by (intros Hm; apply (Same false); auto).
    destruct node as [field|field|field data|field items|field flag children].
    + cbn [represents] in Hr. rewrite Hr. unfold bind, lift. rewrite append_written by exact Hv. apply outcome_pure. split; [reflexivity|].
      apply Same'. unfold marked. now rewrite Hr.
    + cbn [represents] in Hr. rewrite Hr. apply outcome_pure. split; [reflexivity|]. apply Same'. unfold marked. now rewrite Hr.
    + destruct Hr as (e & He & Hw). rewrite He. cbn [field_of] in Hf. subst field.
      eapply outcome_weaken; [|apply outcome_pair, Hw]. intros x [w' h] _ [-> ->]. split; [reflexivity|]. apply More. unfold marked. now rewrite He.
    + destruct Hr as (e & He & Hw). rewrite He. cbn [field_of] in Hf. subst field.
      eapply outcome_weaken; [|apply outcome_pair, Hw]. intros x [w' h] _ [-> ->]. split; [reflexivity|]. apply More. unfold marked. now rewrite He.
    + apply represents_intermediate in Hr. destruct Hr as (Hl & Hq & -> & Hr). rewrite Hl.
      specialize (fun t => Hn (below path p) children t (plan_ok_below path p Hp) Hl Hr).
      destruct (below path p) as [|e q] eqn:Eq; [easy|]. rewrite <- Eq in *.
      assert (M : marks_exactly nodes p [(path, v)] handled (if puts (below path p) then k :: handled else handled) \/ container replace_arrays v = false).
      { destruct (container replace_arrays v) eqn:Ec; [left|now right]. destruct (puts (below path p)) eqn:Ep; [apply More|apply Same'];
          unfold marked; now rewrite Hl, Ep, ?Ec. }
      assert (Other : container replace_arrays v = false ->
        Outcome ((if puts (below path p) then ret (w, handled)
                  else bind (write_non_matching others w path v) (fun w => ret (w, handled))) t)
          (Ok (if negb (puts (below path p)) && others then v else VEod))
          (fun x wh => fst wh = written w path x /\ marks_exactly nodes p [(path, v)] handled (snd wh))).
      { intros Ec. assert (Hs : marks_exactly nodes p [(path, v)] handled handled)
          by (apply Same'; unfold marked; rewrite Hl, Ec; now destruct (puts (below path p))).
        destruct (puts (below path p)); [now apply outcome_pure|]. cbn [negb andb].
        eapply outcome_weaken; [|apply outcome_pair, non_matching_outcome, Hv]. intros x [w' h] _ [-> ->]. now split. }
      destruct v; cbn [container] in *; try (now apply Other).
      * destruct M as [M|M]; [|discriminate]. eapply outcome_then; [apply Hn|]. intros childWriter x t' _ ->.
        apply outcome_pure. split; [reflexivity|exact M].
      * destruct replace_arrays; cbn [negb] in *; [now apply Other|]. destruct M as [M|M]; [|discriminate].
        eapply outcome_then; [apply Hn|]. intros childWriter x t' _ ->. apply outcome_pure. split; [reflexivity|exact M].
  - assert (Hb : below path p = []) by (apply heads_not_in; now rewrite Hh). rewrite Hb. cbn [leaf fold_left].
    eapply outcome_weaken; [|apply outcome_pair, non_matching_outcome, Hv]. intros x [w' h] _ [-> ->]. split; [reflexivity|].
    apply (Same false); [|reflexivity]. intros node Hin Hf. elim F. rewrite <- Hf. now apply in_map.
Qed.

Lemma object_fields_outcome nodes p d : plan_ok p -> rep_tree nodes p -> plain_doc d = true -> Forall (fun kv => nested_ok (snd kv)) d ->
  forall w handled t,
  Outcome (object_fields self parentDocument ctx others replace_arrays nested_object nested_array d nodes w handled t)
    (project_fields eval others replace_arrays nested d p)
    (fun fs wh => fst wh = w ++ fs /\ marks_exactly nodes p d handled (snd wh)).
Proof.
  intros Hp Hr Hd Hn. induction d as [|[path v] d IH]; intros w handled t; cbn [object_fields project_fields].
  - apply outcome_pure. split; [now rewrite app_nil_r|]. intros i node _. now rewrite orb_false_r.
  - cbn in Hd. apply andb_true_iff in Hd. destruct Hd as [Hv Hd]. inversion_clear Hn as [|? ? Hnv Hnd].
    eapply outcome_bind; [apply (field_outcome path v nodes p w handled t Hp Hr Hv Hnv)|].
    intros [w1 h1] x t1 [Ew Hm]. cbn [fst snd] in *. subst w1. specialize (IH Hd Hnd (written w path x) h1 t1). unfold outcome in *.
    destruct (object_fields _ _ _ _ _ _ _ _ _ _ _ _) as [[[w2 h2] t2]|e].
    + destruct IH as (fs & -> & Hw & Hm2). cbn [fst snd] in *. eexists. split; [reflexivity|]. split.
      * rewrite Hw. unfold written. destruct (missing x); [reflexivity|]. now rewrite <- app_assoc.
      * intros i node Hi. rewrite (Hm2 i node Hi), (Hm i node Hi). cbn [existsb]. now rewrite orb_false_r, orb_assoc.
    + destruct IH as [U| ->]; [now left|now right].
Qed.

(** A key that is placed is marked, unless nothing would be written for it. *)
Lemma placed_marked p d key : below key p <> [] ->
  existsb (fun kv => key_eqb (fst kv) key && marked (below key p) (snd kv)) d = placed replace_arrays d p key \/
  new_value (longest p) (below key p) = Ok VEod.
Proof.
  intros Hne. unfold placed, marked. assert (L : forall q, new_value (longest p) q =
    match leaf q with Some (Put e) => eval e | Some _ => Ok VEod
    | None => if puts q then match longest p with O => Ok VEod
                | S n => res_bind (fields_with (fun key => new_value n (below key q)) (heads q)) (fun fs => Ok (VDocument fs)) end
              else Ok VEod end) by (intros q; now destruct (longest p)).
  rewrite L. destruct (leaf (below key p)) as [[| |e]|]; [now right|now right|now left|].
  destruct (puts (below key p)); [|now right]. left. reflexivity.
Qed.

Lemma nodes_write nodes p : rep_tree nodes p -> plan_ok p ->
  Forall (fun node => forall w t, Outcome (write_field self parentDocument ctx node w t) (new_value (longest p) (below (field_of node) p))
            (fun v w' => w' = written w (field_of node) v)) nodes.
Proof.
  intros [Hh Hc] Hp. apply Forall_forall. intros node Hin w t. rewrite Forall_forall in Hc.
  apply write_field_outcome; [now apply Hc|]. destruct (longest_below (field_of node) p) as [->|H]; [cbn; lia|lia].
Qed.

Lemma added_outcome nodes p d handled : plan_ok p -> rep_tree nodes p -> marks_exactly nodes p d [] handled -> forall w t,
  Outcome (HandleUnresolvedFields self parentDocument ctx nodes 0 handled w t) (added eval replace_arrays d p) (fun fs w' => w' = w ++ fs).
Proof.
  intros Hp Hr Hm w t. unfold added. assert (Hh := proj1 Hr). rewrite Hh.
  apply (unresolved_outcome (fun key => new_value (longest p) (below key p)) (placed replace_arrays d p) handled nodes 0); [|now apply nodes_write].
  intros i node Hi. cbn [Nat.add]. rewrite (Hm i node Hi). cbn [existsb orb]. apply placed_marked.
  apply heads_in. rewrite Hh. apply in_map. exact (nth_error_In _ _ Hi).
Qed.

(** A document. *)
Lemma object_outcome nodes p d : plan_ok p -> rep_tree nodes p -> plain_doc d = true -> Forall (fun kv => nested_ok (snd kv)) d ->
  forall w t, Outcome (TraverseObject self parentDocument ctx others replace_arrays nested_object nested_array d nodes w t)
    (project eval others replace_arrays d p) (fun fs w' => w' = w ++ fs).
Proof.
  intros Hp Hr Hd Hn w t. unfold TraverseObject, project.
  eapply outcome_bind; [exact (object_fields_outcome nodes p d Hp Hr Hd Hn w [] t)|].
  intros [w1 h1] fs t1 [Ew Hm]. cbn [fst snd] in *. subst w1. pose proof (added_outcome nodes p d h1 Hp Hr Hm (w ++ fs) t1) as O.
  unfold outcome in *. destruct (HandleUnresolvedFields _ _ _ _ _ _ _ _) as [[w2 t2]|e].
  - destruct O as (new & -> & ->). eexists. split; [reflexivity|]. now rewrite <- app_assoc.
  - destruct O as [U| ->]; [now left|now right].
Qed.

(** An array: the elements that are written so far. *)
Lemma array_write vs v : plain v = true -> PgbsonArrayWriterWriteValue (array_written vs) v = Ok (array_written (vs ++ [v])).
Proof. intros H. rewrite write_written. now rewrite (append_copied _ (plain_copied _ H)). Qed.

Definition item_written (vs : list bson_value) (v : bson_value) (aw : pgbson_array_writer) : Prop :=
  aw = array_written (vs ++ present [v]).

Lemma item_outcome nodes q v vs t : plan_ok q -> leaf q = None -> rep_tree nodes q -> plain v = true -> nested_ok v ->
  Outcome (ProjectCurrentArrayIterToWriter self parentDocument ctx others nested_object nested_array v (array_written vs) (puts q) nodes t)
    (project_item eval others replace_arrays nested v q) (item_written vs).
Proof.
  intros Hq Hl Hr Hv Hn. unfold ProjectCurrentArrayIterToWriter, project_item, item_written.
  specialize (fun t => Hn q nodes t Hq Hl Hr).
  assert (Scalar : Outcome ((if puts q && negb match nodes with [] => true | _ => false end then
       bind (HandleUnresolvedFields self parentDocument ctx nodes 0 [] (PgbsonArrayWriterStartDocument (array_written vs)))
         (fun childWriter => ret (PgbsonArrayWriterEndDocument (array_written vs) childWriter))
     else if others then lift (PgbsonArrayWriterWriteValue (array_written vs) v) else ret (array_written vs)) t)
    (if puts q then res_bind (added eval replace_arrays [] q) (fun fs => Ok (VDocument fs)) else Ok (if others then v else VEod))
    (fun v aw => aw = array_written (vs ++ present [v]))).
  { destruct (puts q) eqn:Hp.
    - assert (nodes <> []).
      { intros ->. destruct Hr as [Hh _]. apply (heads_nonempty q); [now apply leaf_proper|now intros ->|exact Hh]. }
      destruct nodes as [|n nodes]; [easy|]. cbn [andb negb].
      eapply outcome_bind; [apply (added_outcome (n :: nodes) q [] [] Hq Hr)|]; [intros i node _; reflexivity|].
      intros w fs t' ->. apply outcome_pure. unfold PgbsonArrayWriterEndDocument. now rewrite array_add_written.
    - cbn [andb]. destruct others.
      + unfold lift. rewrite array_write by exact Hv. apply outcome_pure. unfold present. cbn [filter]. now rewrite (plain_not_missing v Hv).
      + apply outcome_pure. unfold present. cbn. now rewrite app_nil_r. }
  destruct v; try exact Scalar.
  - eapply outcome_then; [apply Hn|]. intros w x t' _ ->. apply outcome_pure. unfold PgbsonArrayWriterEndDocument. now rewrite array_add_written.
  - eapply outcome_then; [apply Hn|]. intros w x t' _ ->. apply outcome_pure. unfold PgbsonArrayWriterEndArray. now rewrite array_add_written.
Qed.

Lemma items_outcome nodes q items : plan_ok q -> leaf q = None -> rep_tree nodes q -> plain_doc items = true ->
  Forall (fun kv => nested_ok (snd kv)) items -> forall vs t,
  Outcome (array_items self parentDocument ctx others nested_object nested_array items (array_written vs) (puts q) nodes t)
    (project_items eval others replace_arrays nested items q) (fun xs aw => aw = array_written (vs ++ present xs)).
Proof.
  intros Hq Hl Hr Hp Hn. induction items as [|[k v] items IH]; intros vs t; cbn [array_items project_items].
  - apply outcome_pure. cbn. now rewrite app_nil_r.
  - cbn in Hp. apply andb_true_iff in Hp. destruct Hp as [Hv Hp]. inversion_clear Hn as [|? ? Hnv Hnd].
    eapply outcome_bind; [exact (item_outcome nodes q v vs t Hq Hl Hr Hv Hnv)|].
    intros aw x t1 ->. specialize (IH Hp Hnd (vs ++ present [x]) t1). unfold outcome in *.
    destruct (array_items _ _ _ _ _ _ _ _ _ _ _) as [[w2 t2]|e].
    + destruct IH as (xs & -> & ->). eexists. split; [reflexivity|]. rewrite <- app_assoc. unfold present. cbn [filter].
      now destruct (negb (missing x)).
    + destruct IH as [U| ->]; [now left|now right].
Qed.
End Nested.

Abbreviation object := (nested_object self parentDocument ctx others replace_arrays).
Abbreviation array := (nested_array self parentDocument ctx others replace_arrays).

Lemma nested_outcome v : plain v = true -> nested_ok object array v.
Proof.
  induction v as [d IH|d IH|v Hd Ha] using value_nested_induction; intros Hv q nodes t Hq Hl Hr.
  - assert (IH' : Forall (fun kv => nested_ok object array (snd kv)) d).
    { cbn [plain] in Hv. rewrite forallb_forall in Hv. rewrite Forall_forall in *. intros kv Hin. apply IH; auto. }
    pose proof (object_outcome object array nodes q d Hq Hr Hv IH' [] t) as O.
    cbn [nested_object project_value]. unfold project in O. unfold outcome in *.
    destruct (TraverseObject _ _ _ _ _ _ _ _ _ _ _) as [[w t1]|e].
    + destruct O as (fs & Ef & ->). exists (VDocument fs). split; [|reflexivity].
      destruct (project_fields _ _ _ _ _ _) as [fs1|]; [|discriminate]. cbn [res_bind] in *.
      destruct (added _ _ _ _) as [new|]; [|discriminate]. cbn [res_bind] in *. now injection Ef as ->.
    + destruct O as [U|Ef]; [now left|right].
      destruct (project_fields _ _ _ _ _ _) as [fs1|]; cbn [res_bind] in *; [|now injection Ef as ->].
      destruct (added _ _ _ _) as [new|]; cbn [res_bind] in *; [discriminate|now injection Ef as ->].
  - assert (IH' : Forall (fun kv => nested_ok object array (snd kv)) d).
    { cbn [plain] in Hv. rewrite forallb_forall in Hv. rewrite Forall_forall in *. intros kv Hin. apply IH; auto. }
    cbn [nested_array project_value]. change (ArrayWriter [] 0) with (array_written []).
    pose proof (items_outcome object array nodes q d Hq Hl Hr Hv IH' [] t) as O. unfold outcome in *.
    destruct (array_items _ _ _ _ _ _ _ _ _ _ _) as [[w t1]|e].
    + destruct O as (xs & -> & ->). eexists. split; reflexivity.
    + destruct O as [U| ->]; [now left|now right].
  - destruct v; try exact I; [now elim (Hd d)|now elim (Ha d)].
Qed.

(** The traversal of a document by a tree that represents a plan. *)
Lemma traverse_outcome nodes p d : plan_ok p -> rep_tree nodes p -> plain_doc d = true -> forall w t,
  Outcome (TraverseObjectAndAppendToWriter self parentDocument ctx others replace_arrays d nodes w t)
    (project eval others replace_arrays d p) (fun fs w' => w' = w ++ fs).
Proof.
  intros Hp Hr Hd w t. apply object_outcome; auto. unfold plain_doc in Hd. rewrite forallb_forall in Hd. apply Forall_forall.
  intros kv Hin. apply nested_outcome. now apply Hd.
Qed.
End Apply.
