(* ===== verification/ProjPlain.v ===== *)
(** * Projections: the values of a projected document

    When the expressions of a plan have values that libbson copies, the projection of a
    document with such values is a document with such values, which another projection
    can be applied to. *)

From Stdlib Require Import ZArith Lia Bool String List.
From Stdlib Require Import Strings.Byte.
From S2P Require Import Prelude SoftFloat BsonTypes StringView Decimal128 BsonCompare Traversal PgbsonElement BsonWriter DollarSets.
From S2P Require Import AggData AggOperators AggEval AggParse AggMeaning AggOutcome ProjTree Project ProjMeaning ProjPlans ProjApply.
Import ListNotations.
Local Open Scope Z_scope.

Section Plain.
Context {OtherArguments : Set} {E : Type}.
Variable eval : E -> res bson_value.
Variable others : bool.
Variable replace_arrays : bool.
Abbreviation Data := (@AggregationExpressionData OtherArguments).
Abbreviation Node := (@ProjectionNode OtherArguments).

(** The expressions that a plan can get to. *)
Inductive reaches : plan E -> E -> Prop :=
| reaches_here q e : leaf q = Some (Put e) -> reaches q e
| reaches_below q key e : leaf q = None -> reaches (below key q) e -> reaches q e.

Definition evals_good (q : plan E) : Prop := forall e, reaches q e -> good_res (eval e).

Lemma nothing_reached e : ~ reaches [] e.
Proof. intros H. remember [] as q eqn:Q. induction H as [q e L|q key e L H IH]; subst q; [discriminate|]. now apply IH. Qed.

(** *** The tree of a plan *)

Lemma node_evals_good writes writes_array (node : Node) q :
  (forall data e, writes data e -> good_res (eval e)) -> (forall items e, writes_array items e -> good_res (eval e)) ->
  represents writes writes_array node q -> evals_good q.
Proof.
  intros Hw Ha Hr e H. revert node Hr. induction H as [q e L|q key e L H IH]; intros node Hr.
  - destruct node as [f|f|f data|f items|f flag children]; cbn [represents] in Hr; try congruence.
    + destruct Hr as (e' & He & W). assert (e' = e) as -> by congruence. now apply Hw in W.
    + destruct Hr as (e' & He & W). assert (e' = e) as -> by congruence. now apply Ha in W.
    + destruct Hr. congruence.
  - destruct node as [f|f|f data|f items|f flag children]; try (cbn [represents] in Hr; congruence);
      try (destruct Hr as (e' & He & _); congruence).
    apply represents_intermediate in Hr as (_ & _ & _ & Hh & Hc). destruct (in_dec (list_eq_dec Byte.byte_eq_dec) key (heads q)) as [Hin|Hin].
    + rewrite Hh in Hin. apply in_map_iff in Hin as (child & <- & Hin). rewrite Forall_forall in Hc. exact (IH child (Hc child Hin)).
    + apply heads_not_in in Hin. rewrite Hin in H. now apply nothing_reached in H.
Qed.

Lemma tree_evals_good writes writes_array (tree : list Node) p key :
  (forall data e, writes data e -> good_res (eval e)) -> (forall items e, writes_array items e -> good_res (eval e)) ->
  tree_represents writes writes_array tree p -> evals_good (below key p).
Proof.
  intros Hw Ha [Hh Hc]. destruct (in_dec (list_eq_dec Byte.byte_eq_dec) key (heads p)) as [Hin|Hin].
  - rewrite Hh in Hin. apply in_map_iff in Hin as (child & <- & Hin). rewrite Forall_forall in Hc.
    exact (node_evals_good writes writes_array child _ Hw Ha (Hc child Hin)).
  - apply heads_not_in in Hin. rewrite Hin. intros e H. now apply nothing_reached in H.
Qed.

(** *** Projected values *)

Lemma good_present v : good v = true -> missing v = false -> plain v = true.
Proof. unfold good. intros [H|H]%orb_true_iff M; [congruence|exact H]. Qed.

Lemma fields_with_plain f keys fs : (forall key, In key keys -> good_res (f key)) -> fields_with f keys = Ok fs -> plain_doc fs = true.
Proof.
  revert fs. induction keys as [|key keys IH]; intros fs H; cbn [fields_with]; [now intros [= <-]|].
  pose proof (H key (or_introl eq_refl)) as Hv. destruct (f key) as [v|]; [|discriminate]. cbn [res_bind good_res] in *.
  destruct (fields_with f keys) as [rest|]; [|discriminate]. intros [= <-]. specialize (IH rest (fun k Hk => H k (or_intror Hk)) eq_refl).
  destruct (missing v) eqn:M; [exact IH|]. cbn [plain_doc forallb snd]. now rewrite good_present.
Qed.

Lemma new_value_good n : forall q, evals_good q -> good_res (new_value eval n q).
Proof.
  assert (Here : forall q e, evals_good q -> leaf q = Some (Put e) -> good_res (eval e)) by (intros q e H L; apply H; now constructor).
  induction n as [|n IH]; intros q H; cbn [new_value]; destruct (leaf q) as [[| |e]|] eqn:L; try reflexivity; try (now apply (Here q)).
  - now destruct (puts q).
  - destruct (puts q); [|reflexivity]. destruct (fields_with _ _) as [fs|] eqn:F; [|exact I]. cbn [res_bind good_res]. unfold good. cbn [missing orb plain].
    apply (fields_with_plain _ _ _ (fun key _ => IH (below key q) (fun e R => H e (reaches_below q key e L R))) F).
Qed.

Definition all_good (p : plan E) : Prop := forall key, evals_good (below key p).

Lemma below_good q : leaf q = None -> evals_good q -> all_good q.
Proof. intros L H key e R. apply H. now apply (reaches_below q key). Qed.

Lemma added_plain d p fs : all_good p -> added eval replace_arrays d p = Ok fs -> plain_doc fs = true.
Proof. intros H F. unfold added in F. apply (fields_with_plain _ _ _ (fun key _ => new_value_good _ _ (H key)) F). Qed.

Definition nested_plain (nested : bson_value -> plan E -> res bson_value) (v : bson_value) : Prop :=
  forall q x, all_good q -> nested v q = Ok x -> plain x = true.

Section Nested.
Variable nested : bson_value -> plan E -> res bson_value.

Lemma project_field_good v q : plain v = true -> evals_good q -> nested_plain nested v ->
  good_res (project_field eval others replace_arrays nested v q).
Proof.
  intros Hv Hq Hn. unfold project_field. destruct (leaf q) as [[| |e]|] eqn:L; try reflexivity.
  - now apply good_plain.
  - apply Hq. now constructor.
  - assert (Keep : forall b : bool, good (if b then v else VEod) = true) by (intros []; [now apply good_plain|reflexivity]).
    destruct q as [|entry q]; [apply Keep|]. destruct (container replace_arrays v); [|apply Keep].
    destruct (nested v (entry :: q)) as [x|] eqn:F; [|exact I]. apply good_plain. apply (Hn _ _ (below_good _ L Hq) F).
Qed.

Lemma project_fields_plain d p fs : plain_doc d = true -> all_good p -> Forall (fun kv => nested_plain nested (snd kv)) d ->
  project_fields eval others replace_arrays nested d p = Ok fs -> plain_doc fs = true.
Proof.
  intros Hd Hp Hn. revert fs. induction d as [|[key v] d IH]; intros fs; cbn [project_fields]; [now intros [= <-]|].
  cbn [plain_doc forallb snd] in Hd. apply andb_true_iff in Hd as [Hv Hd]. inversion_clear Hn as [|? ? Hn1 Hn2]. cbn [snd] in *.
  pose proof (project_field_good v (below key p) Hv (Hp key) Hn1) as G.
  destruct (project_field _ _ _ _ v (below key p)) as [x|]; [|discriminate]. cbn [res_bind good_res] in *.
  destruct (project_fields _ _ _ _ d p) as [rest|]; [|discriminate]. intros [= <-]. specialize (IH Hd Hn2 rest eq_refl).
  destruct (missing x) eqn:M; [exact IH|]. cbn [plain_doc forallb snd]. now rewrite good_present.
Qed.

Lemma project_items_good items p values : plain_doc items = true -> all_good p -> Forall (fun kv => nested_plain nested (snd kv)) items ->
  project_items eval others replace_arrays nested items p = Ok values -> Forall (fun v => good v = true) values.
Proof.
  intros Hd Hp Hn. revert values. induction items as [|[key v] items IH]; intros values; cbn [project_items]; [intros [= <-]; constructor|].
  cbn [plain_doc forallb snd] in Hd. apply andb_true_iff in Hd as [Hv Hd]. inversion_clear Hn as [|? ? Hn1 Hn2]. cbn [snd] in *.
  assert (G : good_res (project_item eval others replace_arrays nested v p)).
  { assert (Nested : forall v, nested_plain nested v -> good_res (nested v p))
      by (clear -Hp; intros v Hn; destruct (nested v p) as [x|] eqn:F; [|exact I]; apply good_plain; exact (Hn p x Hp F)).
    assert (New : good_res (res_bind (added eval replace_arrays [] p) (fun fs => Ok (VDocument fs))))
      by (destruct (added _ _ [] p) as [fs|] eqn:F; [|exact I]; unfold good_res, res_bind, good; cbn [missing orb plain]; exact (added_plain _ _ _ Hp F)).
    unfold project_item. destruct v; try (now apply Nested); (destruct (puts p); [exact New|]); (destruct others; [now apply good_plain|reflexivity]). }
  destruct (project_item _ _ _ _ v p) as [x|]; [|discriminate]. cbn [res_bind good_res] in *.
  destruct (project_items _ _ _ _ items p) as [rest|]; [|discriminate]. intros [= <-]. constructor; [exact G|now apply IH].
Qed.
End Nested.

Lemma project_value_plain v : plain v = true -> nested_plain (project_value eval others replace_arrays) v.
Proof.
  assert (Nested : forall d, Forall (fun kv => plain (snd kv) = true -> nested_plain (project_value eval others replace_arrays) (snd kv)) d ->
    plain_doc d = true -> Forall (fun kv => nested_plain (project_value eval others replace_arrays) (snd kv)) d).
  { intros d H Hd. unfold plain_doc in Hd. rewrite forallb_forall in Hd. rewrite Forall_forall in *. intros kv Hin. apply H; auto. }
  induction v as [d IH|items IH|v H1 H2] using value_nested_induction; intros Hv q x Hq; cbn [project_value].
  - change (plain_doc d = true) in Hv. destruct (project_fields _ _ _ _ d q) as [fs|] eqn:F; [|discriminate]. cbn [res_bind].
    destruct (added _ _ d q) as [new|] eqn:A; [|discriminate]. intros [= <-]. change (plain_doc (fs ++ new) = true). unfold plain_doc.
    rewrite forallb_app. apply andb_true_iff. split; [exact (project_fields_plain _ _ _ _ Hv Hq (Nested d IH Hv) F)|exact (added_plain _ _ _ Hq A)].
  - change (plain_doc items = true) in Hv. destruct (project_items _ _ _ _ items q) as [vs|] eqn:F; [|discriminate]. intros [= <-].
    change (plain_doc (array_of (present vs)) = true). unfold array_of. rewrite plain_indexed. apply forallb_forall. unfold present. intros x [Hin M]%filter_In.
    pose proof (project_items_good _ _ _ _ Hv Hq (Nested items IH Hv) F) as G. rewrite Forall_forall in G. apply good_present; [now apply G|].
    now apply negb_true_iff in M.
  - destruct v; try (now intros [= <-]); [now elim (H1 _ eq_refl)|now elim (H2 _ eq_refl)].
Qed.

Lemma project_plain d p fs : plain_doc d = true -> all_good p -> project eval others replace_arrays d p = Ok fs -> plain_doc fs = true.
Proof.
  intros Hd Hp H. unfold project in H. pose proof (project_value_plain (VDocument d) Hd p (VDocument fs) Hp) as G. cbn [project_value] in G.
  destruct (project_fields _ _ _ _ d p) as [xs|]; [|discriminate]. cbn [res_bind] in *. destruct (added _ _ d p); [|discriminate]. cbn [res_bind] in *.
  injection H as <-. now apply G.
Qed.
End Plain.

(** *** Trees with weaker leaves *)

Section Weaker.
Context {OtherArguments : Set} {E : Type}.
Variables (writes writes' : @AggregationExpressionData OtherArguments -> E -> Prop).
Variables (writes_array writes_array' : list (@AggregationExpressionData OtherArguments) -> E -> Prop).
Hypothesis weaker : forall data e, writes data e -> writes' data e.
Hypothesis weaker_array : forall items e, writes_array items e -> writes_array' items e.

Lemma represents_weaker node : forall q, represents writes writes_array node q -> represents writes' writes_array' node q.
Proof.
  induction node as [field|field|field data|field items|field flag children IH] using node_induction; intros q H; try exact H.
  - destruct H as (e & He & H). exists e. auto.
  - destruct H as (e & He & H). exists e. auto.
  - apply represents_intermediate in H as (Hl & Hq & Hf & Hh & Hc). apply represents_intermediate. repeat split; auto.
    rewrite Forall_forall in *. intros node Hin. now apply IH, Hc.
Qed.

Lemma tree_represents_weaker tree p : tree_represents writes writes_array tree p -> tree_represents writes' writes_array' tree p.
Proof. intros [Hh Hc]. split; [exact Hh|]. revert Hc. apply Forall_impl. intros node. apply represents_weaker. Qed.
End Weaker.
