(* ===== verification/ProjBuild.v ===== *)
(** * Projections: building the tree of a specification

    The tree that [BuildBsonPathTree] makes of a specification represents the plan of
    the specification, and the context says whether the plan includes or excludes
    fields.  A specification that does both is refused. *)

From Stdlib Require Import ZArith Lia Bool String List.
From Stdlib Require Import Strings.Byte.
From S2P Require Import Prelude SoftFloat BsonTypes StringView Decimal128 BsonCompare Traversal BsonWriter.
From S2P Require Import AggData AggOperators AggEval AggParse AggMeaning AggOutcome ProjTree Project ProjMeaning ProjPlans ProjApply.
Import ListNotations.
Local Open Scope Z_scope.

(** ** Segments of paths *)

Lemma split_no_nul path : no_nul path -> Forall no_nul (split_dots path).
Proof.
  induction path as [|b path IH]; intros H; [repeat constructor|]. inversion_clear H as [|? ? Hb Hp]. specialize (IH Hp). cbn [split_dots].
  destruct (byte_eqb b dot); [now constructor; [constructor|]|].
  destruct (split_dots path) as [|s rest]; [now repeat constructor|]. inversion_clear IH. constructor; [now constructor|assumption].
Qed.

Lemma drop_last_sub segments : forall s, In s (drop_last_empty segments) -> In s segments.
Proof.
  induction segments as [|a segments IH]; intros s H; [exact H|]. destruct segments as [|[|b c] segments]; [exact H| |].
  - destruct segments as [|d segments]; [destruct H as [<-|[]]; now left|]. destruct H as [<-|H]; [now left|right; now apply IH].
  - destruct H as [<-|H]; [now left|right; now apply IH].
Qed.

Lemma segments_no_nul path : no_nul path -> Forall no_nul (path_segments path).
Proof.
  intros H. apply Forall_forall. intros s Hs. apply drop_last_sub in Hs. apply split_no_nul in H. rewrite Forall_forall in H. now apply H.
Qed.

Lemma segments_cons path : exists s rest, path_segments path = s :: rest.
Proof.
  unfold path_segments. destruct (split_dots_cons path) as (s & rest & ->).
  destruct rest as [|[|b c] [|d rest]]; cbn; eauto.
Qed.

Lemma valid_not_empty path : EnsureValidFieldPathString path = Ok tt -> Forall (fun s => s <> []) (split_dots path).
Proof.
  unfold EnsureValidFieldPathString. destruct (blen path =? 0); [discriminate|]. destruct (StringViewEndsWith _ _); [discriminate|].
  generalize (split_dots path). intros segments. induction segments as [|s segments IH]; intros H; [constructor|].
  cbn [valid_segments] in H. destruct (blen s =? 0) eqn:Es; [discriminate|].
  destruct (StringViewStartsWith _ _ && _); [discriminate|]. constructor; [|now apply IH]. now intros ->.
Qed.

Lemma is_id_path path : EnsureValidFieldPathString path = Ok tt -> is_id (path_segments path) = key_eqb path IdField.
Proof.
  intros H. apply eq_true_iff_eq. rewrite key_eqb_eq. split; [|now intros ->].
  apply valid_not_empty in H. unfold path_segments. pose proof (split_dots_memchr path) as Sp.
  destruct (split_dots path) as [|s rest]; [discriminate|]. intros G.
  assert (rest = []).
  { destruct rest as [|r rest]; [reflexivity|exfalso]. inversion_clear H as [|? ? _ H']. inversion_clear H' as [|? ? Hr _].
    destruct r as [|b r]; [easy|].
    change (drop_last_empty (s :: (b :: r) :: rest)) with (s :: drop_last_empty ((b :: r) :: rest)) in G.
    destruct rest as [|[|c l] [|d rest]]; discriminate G. }
  subst rest. cbn in G. apply key_eqb_eq in G. subst s. destruct (memchr path dot) as [n|].
  - destruct (split_dots_cons (skipn (S n) path)) as (x & y & Ex). rewrite Ex in Sp. discriminate.
  - now injection Sp as <-.
Qed.

(** ** Counting inclusions and exclusions *)

Definition exclusions {E} (isRoot : bool) (p : plan E) : bool :=
  if isRoot then excludes p else existsb (fun e => is_drop (snd e)) p.
Definition inclusions {E} (isRoot : bool) (p : plan E) : bool :=
  if isRoot then includes p else existsb (fun e => negb (is_drop (snd e))) p.

Section Count.
Context {E : Type}.
Implicit Types p q : plan E.

Lemma counted_app p q : counted (p ++ q) = counted p ++ counted q.
Proof. apply filter_app. Qed.

Lemma exclusions_app isRoot p q : exclusions isRoot (p ++ q) = exclusions isRoot p || exclusions isRoot q.
Proof. destruct isRoot; cbn [exclusions]; unfold excludes; rewrite ?counted_app; apply existsb_app. Qed.

Lemma inclusions_app isRoot p q : inclusions isRoot (p ++ q) = inclusions isRoot p || inclusions isRoot q.
Proof. destruct isRoot; cbn [inclusions]; unfold includes; rewrite ?counted_app; apply existsb_app. Qed.

(** Below a path of the root everything counts. *)
Lemma counted_prefixed s segments p : proper p -> counted (prefixed (s :: segments) p) = prefixed (s :: segments) p.
Proof.
  intros H. unfold counted, prefixed. induction H as [|[path a] p Hp H IH]; [reflexivity|]. cbn [map filter fst snd app] in *.
  rewrite IH. destruct segments; [destruct path; [easy|reflexivity]|]. reflexivity.
Qed.

Lemma exists_prefixed (f : action E -> bool) segments p :
  existsb (fun e => f (snd e)) (prefixed segments p) = existsb (fun e => f (snd e)) p.
Proof. induction p as [|e p IH]; [reflexivity|]. cbn. unfold prefixed in IH. now rewrite IH. Qed.

Lemma exclusions_prefixed isRoot s segments p : proper p \/ isRoot = false ->
  exclusions isRoot (prefixed (s :: segments) p) = exclusions false p.
Proof.
  intros H. destruct isRoot; cbn [exclusions]; [destruct H as [H|H]; [|discriminate]; unfold excludes; rewrite counted_prefixed by exact H|];
    apply (exists_prefixed is_drop).
Qed.

Lemma inclusions_prefixed isRoot s segments p : proper p \/ isRoot = false ->
  inclusions isRoot (prefixed (s :: segments) p) = inclusions false p.
Proof.
  intros H. destruct isRoot; cbn [inclusions]; [destruct H as [H|H]; [|discriminate]; unfold includes; rewrite counted_prefixed by exact H|];
    apply (exists_prefixed (fun a => negb (is_drop a))).
Qed.
End Count.

(** ** Building *)

Section Build.
Context {BL : BidLib} {OtherArguments : Set}.
Abbreviation Data := (@AggregationExpressionData OtherArguments).
Abbreviation Node := (@ProjectionNode OtherArguments).

Variable parse : bson_value -> ParseContext -> M Data.
Variable forceLeafExpression : bool.
Variable skip : bool.
Variable parse_context : ParseContext.
Variable writes : Data -> bson_value -> Prop.
Variable writes_array : list Data -> bson_value -> Prop.
(** The values that are understood at the end of a path. *)
Variable leaf_ok : bson_value -> bool.
Hypothesis leaf_writes : forall v t data t', leaf_ok v = true ->
  (if skip then ret (ConstantExpr v) else parse v parse_context) t = Ok (data, t') -> writes data v.

Abbreviation rep := (represents writes writes_array).
Abbreviation rep_tree := (tree_represents writes writes_array).
Abbreviation value_plan := (value_plan forceLeafExpression).
Abbreviation leaf_action := (leaf_action forceLeafExpression).

(** Nested documents are not empty, and keys have no NUL bytes. *)
Fixpoint value_ok (v : bson_value) : bool :=
  match v with
  | VDocument d =>
    if is_operator_value v then leaf_ok v
    else negb (match d with [] => true | _ => false end) && forallb (fun kv => no_nulb (fst kv) && value_ok (snd kv)) d
  | _ => leaf_ok v
  end.
Definition spec_ok (spec : fields) : bool := forallb (fun kv => no_nulb (fst kv) && value_ok (snd kv)) spec.

Definition context_is (context : BuildBsonPathTreeContext) : Prop :=
  skipParseAggregationExpressions context = skip /\ parseAggregationContext context = parse_context.

Definition mode_ok (context : BuildBsonPathTreeContext) : Prop :=
  allowInclusionExclusion context = false -> hasExclusion context && hasInclusion context = false.

Record context_after (isRoot : bool) (p : plan bson_value) (context context' : BuildBsonPathTreeContext) : Prop := {
  after_is : context_is context';
  after_allow : allowInclusionExclusion context' = allowInclusionExclusion context;
  after_inclusion : hasInclusion context' = hasInclusion context || inclusions isRoot p;
  after_exclusion : hasExclusion context' = hasExclusion context || exclusions isRoot p;
  after_mode : mode_ok context -> mode_ok context'
}.

Lemma context_after_trans isRoot p q a b c :
  context_after isRoot p a b -> context_after isRoot q b c -> context_after isRoot (p ++ q) a c.
Proof.
  intros [I1 A1 N1 X1 M1] [I2 A2 N2 X2 M2]. split; auto; [congruence| |].
  - now rewrite N2, N1, inclusions_app, orb_assoc.
  - now rewrite X2, X1, exclusions_app, orb_assoc.
Qed.

Definition action_of (t : LeafType) (v : bson_value) : action bson_value :=
  match t with NodeType_LeafIncluded => Keep_ | NodeType_LeafExcluded => Drop_ | NodeType_LeafField => Put v end.

Lemma leaf_action_of v t : DetermineChildNodeType v (forceLeafExpression || is_operator_value v) = Ok t -> leaf_action v = action_of t v.
Proof. unfold ProjMeaning.leaf_action. intros ->. now destruct t. Qed.

(** An operator is no number. *)
Lemma operator_type v : DetermineChildNodeType v forceLeafExpression = DetermineChildNodeType v (forceLeafExpression || is_operator_value v).
Proof. unfold DetermineChildNodeType. destruct forceLeafExpression; [reflexivity|]. destruct v; try reflexivity; cbn; now rewrite orb_true_r. Qed.

Lemma force_field v t : DetermineChildNodeType v (forceLeafExpression || is_operator_value v) = Ok t ->
  forceLeafExpression || is_field t = is_field t.
Proof. unfold DetermineChildNodeType. destruct forceLeafExpression; cbn [orb]; [|reflexivity]. now intros [= <-]. Qed.

(** The last node of a path with a value. *)
Lemma leaf_node_built t v context field existing t0 node b t1 q :
  ValidateAndSetLeafNodeData parse t v context field existing t0 = Ok ((node, b), t1) ->
  DetermineChildNodeType v (forceLeafExpression || is_operator_value v) = Ok t -> leaf_ok v = true -> context_is context ->
  field_of node = field /\ rep node (q ++ [([], leaf_action v)]) /\
  forceLeafExpression || fst b = puts [([] : list bytes, leaf_action v)] /\ fst b = puts [([] : list bytes, leaf_action v)] /\ snd b = context.
Proof.
  intros H Ht Hok [Hskip Hpc]. unfold ValidateAndSetLeafNodeData, bind at 1 in H.
  destruct (set_leaf t (leaf_data parse v context) field existing t0) as [[[n u] t2]|] eqn:Es; [|discriminate]. injection H as -> <- <-.
  assert (G : bind (leaf_data parse v context) (fun data => ret (make_leaf t field data, tt)) t0 = Ok ((node, u), t2))
    by (unfold set_leaf in Es; destruct existing as [[]|]; try discriminate; exact Es).
  unfold bind, leaf_data in G. rewrite Hskip, Hpc in G.
  destruct ((if skip then ret (ConstantExpr v) else parse v parse_context) t0) as [[data t3]|] eqn:Ed; [|discriminate]. injection G as <- _ _.
  apply leaf_writes in Ed; [|exact Hok]. rewrite (leaf_action_of v t Ht). cbn [fst snd].
  split; [now destruct t|]. split; [|split; [rewrite (force_field v t Ht); now destruct t|split; [now destruct t|reflexivity]]].
  destruct t; cbn [make_leaf represents action_of]; rewrite leaf_last; [reflexivity|reflexivity|]. now exists v.
Qed.

Lemma value_plan_leaf v : is_leaf_value v = true -> value_plan v = [([], leaf_action v)].
Proof. unfold is_leaf_value. destruct v; try reflexivity. intros H. cbn [ProjMeaning.value_plan]. now rewrite H. Qed.

Lemma value_plan_nested d : is_operator_value (VDocument d) = false -> value_plan (VDocument d) = spec_plan forceLeafExpression d.
Proof. intros H. cbn [ProjMeaning.value_plan]. now rewrite H. Qed.

Lemma value_plan_nonempty v : value_ok v = true -> value_plan v <> [].
Proof.
  induction v as [d IH|d IH|v Hd Ha] using value_nested_induction; intros H; try discriminate.
  - cbn [value_ok ProjMeaning.value_plan] in *. destruct (is_operator_value (VDocument d)); [discriminate|].
    destruct d as [|[k v] d]; [discriminate|]. cbn [negb andb forallb snd] in H. rewrite !andb_true_iff in H. destruct H as [[_ Hv] _].
    inversion_clear IH as [|? ? IHv _]. specialize (IHv Hv). cbn [flat_map fst snd]. intros G. apply app_eq_nil in G. destruct G as [G _].
    now apply prefixed_not_nil in G.
  - destruct v; try discriminate; now elim (Hd d).
Qed.

Lemma spec_plan_proper d : proper (spec_plan forceLeafExpression d).
Proof.
  unfold spec_plan. apply Forall_flat_map, Forall_forall. intros kv _. destruct (segments_cons (fst kv)) as (s & rest & ->). apply proper_prefixed.
Qed.

Lemma value_plan_ok v : value_ok v = true -> plan_ok (value_plan v).
Proof.
  induction v as [d IH|d IH|v Hd Ha] using value_nested_induction; intros H; try (repeat constructor; fail).
  - cbn [value_ok ProjMeaning.value_plan] in *. destruct (is_operator_value (VDocument d)); [repeat constructor|].
    apply andb_true_iff in H. destruct H as [_ H]. rewrite forallb_forall in H. rewrite Forall_forall in IH.
    apply Forall_flat_map, Forall_forall. intros kv Hin. specialize (H kv Hin). apply andb_true_iff in H. destruct H as [H1 H2].
    apply plan_ok_prefixed; [apply segments_no_nul, no_nulb_ok, H1|]. now apply IH.
  - destruct v; try (repeat constructor; fail); now elim (Hd d).
Qed.

Lemma spec_plan_ok spec : spec_ok spec = true -> plan_ok (spec_plan forceLeafExpression spec).
Proof.
  intros H. unfold spec_ok in H. rewrite forallb_forall in H. apply Forall_flat_map, Forall_forall. intros kv Hin.
  specialize (H kv Hin). apply andb_true_iff in H. destruct H as [H1 H2].
  apply plan_ok_prefixed; [apply segments_no_nul, no_nulb_ok, H1|]. now apply value_plan_ok.
Qed.

Lemma force_puts v : value_ok v = true -> forceLeafExpression || puts (value_plan v) = puts (value_plan v).
Proof.
  intros H. destruct forceLeafExpression eqn:F; [|reflexivity]. symmetry. cbn [orb].
  assert (L : forall v, puts [([] : list bytes, ProjMeaning.leaf_action true v)] = true) by reflexivity.
  induction v as [d IH|d IH|v Hd Ha] using value_nested_induction; try apply L.
  - cbn [value_ok ProjMeaning.value_plan] in *. destruct (is_operator_value (VDocument d)); [apply L|].
    destruct d as [|[k v] d]; [discriminate|]. cbn [negb andb forallb snd] in H. rewrite !andb_true_iff in H. destruct H as [[_ Hv] _].
    inversion_clear IH as [|? ? IHv _]. specialize (IHv Hv). cbn [flat_map fst snd] in *. now rewrite puts_app, puts_prefixed, IHv.
  - destruct v; try apply L; now elim (Hd d).
Qed.

Section Fields.
Variable nested : bson_value -> list Node -> BuildBsonPathTreeContext -> M (list Node * (bool * BuildBsonPathTreeContext)).

Definition nested_builds (v : bson_value) : Prop := forall tree context t tree' b context' t' q,
  nested v tree context t = Ok ((tree', (b, context')), t') -> is_leaf_value v = false -> value_ok v = true ->
  plan_ok q -> rep_tree tree q -> context_is context ->
  rep_tree tree' (q ++ value_plan v) /\ b = puts (value_plan v) /\ context_after false (value_plan v) context context'.

Lemma valid_mode context : EnsureValidInclusionExclusion context = Ok tt -> mode_ok context.
Proof.
  unfold EnsureValidInclusionExclusion, mode_ok. intros H A. rewrite A in H. cbn [negb andb] in H.
  now destruct (hasExclusion context && hasInclusion context).
Qed.

(** The type of a leaf and what it adds to the context. *)
Lemma child_type isRoot path v context t context' : child_node_type isRoot forceLeafExpression path v context = Ok (t, context') ->
  EnsureValidFieldPathString path = Ok tt -> no_nul path -> context_is context -> EnsureValidInclusionExclusion context' = Ok tt ->
  match t with
  | Some t => is_leaf_value v = true /\ DetermineChildNodeType v (forceLeafExpression || is_operator_value v) = Ok t /\
              context_after isRoot (prefixed (path_segments path) [([], leaf_action v)]) context context'
  | None => is_leaf_value v = false /\ context' = context
  end.
Proof.
  intros H Hpath Hnul Hc Hm. apply valid_mode in Hm. unfold child_node_type in H. destruct (is_leaf_value v) eqn:Hl; [|now injection H as <- <-].
  rewrite same_name_key, <- is_id_path in H by assumption.
  set (e := prefixed (path_segments path) [([], leaf_action v)]).
  assert (He : e = [(path_segments path, leaf_action v)]) by (unfold e, prefixed; cbn; now rewrite app_nil_r).
  destruct (is_id (path_segments path) && isRoot) eqn:Hid.
  - rewrite operator_type in H. destruct (DetermineChildNodeType _ _) as [lt|] eqn:Ed; [|discriminate]. injection H as <- <-.
    apply andb_true_iff in Hid. destruct Hid as [Hid ->].
    split; [reflexivity|]. split; [reflexivity|]. split; auto; rewrite He; cbn [inclusions exclusions];
      unfold includes, excludes, counted; cbn [filter fst]; rewrite Hid; now rewrite orb_false_r.
  - unfold DetermineChildNodeTypeWithContext in H. destruct (DetermineChildNodeType _ _) as [lt|] eqn:Ed; [|discriminate]. injection H as <- <-.
    assert (Hn : exclusions isRoot e = is_drop (leaf_action v) /\ inclusions isRoot e = negb (is_drop (leaf_action v))).
    { rewrite He. destruct isRoot; cbn [exclusions inclusions existsb snd]; [|now rewrite !orb_false_r].
      unfold excludes, includes, counted. cbn [filter fst]. rewrite andb_true_r in Hid. rewrite Hid. cbn. now rewrite !orb_false_r. }
    destruct Hn as [Hx Hi]. rewrite (leaf_action_of v lt Ed) in Hx, Hi.
    split; [reflexivity|]. split; [reflexivity|]. split; auto; cbn [with_inclusion hasInclusion hasExclusion]; [rewrite Hi|rewrite Hx]; now destruct lt.
Qed.

Lemma field_built isRoot path v tree context t tree' b t' p :
  build_field parse nested isRoot forceLeafExpression path v tree context t = Ok ((tree', b), t') ->
  no_nul path -> value_ok v = true -> nested_builds v -> plan_ok p -> rep_tree tree p -> context_is context ->
  rep_tree tree' (p ++ prefixed (path_segments path) (value_plan v)) /\ fst b = puts (value_plan v) /\
  context_after isRoot (prefixed (path_segments path) (value_plan v)) context (snd b).
Proof.
  intros H Hnul Hv Hn Hp Hr Hc. unfold build_field, bind, lift in H.
  destruct (EnsureValidFieldPathString path) as [[]|] eqn:Hpath; [|discriminate].
  destruct (child_node_type isRoot forceLeafExpression path v context) as [[lt context1]|] eqn:Et; [|discriminate].
  destruct (EnsureValidInclusionExclusion context1) as [[]|] eqn:Em; [|discriminate].
  pose proof (child_type _ _ _ _ _ _ Et Hpath Hnul Hc Em) as T.
  assert (Blocked : forall field t0 (b0 : bool * BuildBsonPathTreeContext) t1, mismatch path field t0 = Ok (b0, t1) -> False) by discriminate.
  assert (G := fun Hlast => add_path writes writes_array (value_plan v) forceLeafExpression fst (mismatch path) _
    (fun b => fst b = puts (value_plan v) /\ context_after isRoot (prefixed (path_segments path) (value_plan v)) context (snd b))
    (value_plan_nonempty v Hv) Blocked Hlast (path_segments path) tree t tree' b t' p H Hp Hr).
  destruct G as (Hr' & _ & HQ); [|now split]. clear H. intros field existing node b0 t0 t1 q Ef Hq Hs.
  destruct lt as [lt|].
  - destruct T as (Hl & Ht & Hca). rewrite (value_plan_leaf v Hl).
    assert (Hok : leaf_ok v = true) by (unfold is_leaf_value in Hl; destruct v; cbn [value_ok] in Hv; try exact Hv; now rewrite Hl in Hv).
    destruct (leaf_node_built lt v context1 field existing t0 node b0 t1 q Ef Ht Hok (after_is _ _ _ _ Hca)) as (H1 & H2 & H3 & H4 & H5).
    repeat split; auto; rewrite H5; apply Hca.
  - destruct T as (Hl & ->).
    assert (Hproper : proper (value_plan v)).
    { unfold is_leaf_value in Hl. destruct v; try discriminate. rewrite value_plan_nested by exact Hl. apply spec_plan_proper. }
    assert (Node_ok : forall children children' (hf : bool) ctx' t2 t3, nested v children context t2 = Ok ((children', (hf, ctx')), t3) ->
      forall q, plan_ok q -> leaf q = None -> rep_tree children q ->
      (forall flag, flag = puts q || (forceLeafExpression || hf) -> rep (Intermediate field flag children') (q ++ value_plan v)) /\
      forceLeafExpression || hf = puts (value_plan v) /\ hf = puts (value_plan v) /\
      context_after isRoot (prefixed (path_segments path) (value_plan v)) context ctx').
    { intros children children' hf ctx' t2 t3 En q0 Hq0 Hl0 Hr0. destruct (Hn _ _ _ _ _ _ _ q0 En Hl Hv Hq0 Hr0 Hc) as (Hr1 & -> & Hca).
      assert (Hf := force_puts v Hv). split; [|split; [exact Hf|split; [reflexivity|]]].
      - intros flag ->. apply represents_intermediate. split; [apply proper_leaf, Forall_app; split; [now apply leaf_proper|exact Hproper]|].
        split; [intros G; apply app_eq_nil in G; destruct G as [_ G]; now apply (value_plan_nonempty v Hv)|].
        split; [now rewrite puts_app, Hf|exact Hr1].
      - destruct (segments_cons path) as (s & rest & ->). destruct Hca as [A1 A2 A3 A4 A5]. split; auto.
        + now rewrite inclusions_prefixed by now left.
        + now rewrite exclusions_prefixed by now left. }
    unfold nested_fields in Ef. destruct existing as [[fi|fi|fi d|fi d|fi flag children]|]; try discriminate; unfold bind in Ef.
    + destruct (nested v children context t0) as [[[children' [hf ctx']] t2]|] eqn:En; [|discriminate]. injection Ef as <- <- <-.
      cbn [state_of] in Hs. apply represents_intermediate in Hs. destruct Hs as (Hl0 & _ & -> & Hr0).
      destruct (Node_ok _ _ _ _ _ _ En q Hq Hl0 Hr0) as (N1 & N2 & N3 & N4). split; [reflexivity|]. split; [apply N1; now rewrite orb_assoc|].
      split; [exact N2|]. now split.
    + destruct (nested v [] context t0) as [[[children' [hf ctx']] t2]|] eqn:En; [|discriminate]. injection Ef as <- <- <-.
      cbn [state_of] in Hs. subst q. destruct (Node_ok _ _ _ _ _ _ En [] Hq eq_refl (tree_represents_nil _ _)) as (N1 & N2 & N3 & N4).
      split; [reflexivity|]. split; [now apply N1|]. split; [exact N2|]. now split.
Qed.

Lemma fields_built isRoot spec : spec_ok spec = true -> Forall (fun kv => nested_builds (snd kv)) spec ->
  forall tree hasFields context t tree' b t' p,
  build_fields parse nested isRoot forceLeafExpression spec tree hasFields context t = Ok ((tree', b), t') ->
  plan_ok p -> rep_tree tree p -> context_is context ->
  rep_tree tree' (p ++ spec_plan forceLeafExpression spec) /\ fst b = hasFields || puts (spec_plan forceLeafExpression spec) /\
  context_after isRoot (spec_plan forceLeafExpression spec) context (snd b).
Proof.
  induction spec as [|[path v] spec IH]; intros Hs Hn tree hasFields context t tree' b t' p H Hp Hr Hc.
  - injection H as <- <- <-. cbn [spec_plan flat_map]. rewrite app_nil_r, orb_false_r. split; [exact Hr|]. split; [reflexivity|].
    split; auto; destruct isRoot; symmetry; apply orb_false_r.
  - cbn [spec_ok forallb fst snd] in Hs. rewrite !andb_true_iff in Hs. destruct Hs as [[Hk Hv] Hs]. inversion_clear Hn as [|? ? Hnv Hns].
    cbn [build_fields] in H. unfold bind in H.
    destruct (build_field parse nested isRoot forceLeafExpression path v tree context t) as [[[tree1 [hf context1]] t1]|] eqn:Ef; [|discriminate].
    destruct (field_built _ _ _ _ _ _ _ _ _ _ Ef (no_nulb_ok _ Hk) Hv Hnv Hp Hr Hc) as (Hr1 & Hf1 & Hc1). cbn [fst snd] in *.
    assert (Hp1 : plan_ok (p ++ prefixed (path_segments path) (value_plan v))).
    { apply plan_ok_app. split; [exact Hp|]. apply plan_ok_prefixed; [apply segments_no_nul, no_nulb_ok, Hk|now apply value_plan_ok]. }
    destruct (IH Hs Hns _ _ _ _ _ _ _ _ H Hp1 Hr1 (after_is _ _ _ _ Hc1)) as (Hr2 & Hf2 & Hc2).
    cbn [spec_plan flat_map fst snd]. split; [now rewrite app_assoc|]. split.
    + rewrite Hf2, Hf1, puts_app, puts_prefixed. now destruct hasFields, (puts (value_plan v)).
    + exact (context_after_trans _ _ _ _ _ _ Hc1 Hc2).
Qed.
End Fields.

Lemma nested_built v : nested_builds (build_nested parse forceLeafExpression) v.
Proof.
  induction v as [d IH|d IH|v Hd Ha] using value_nested_induction; intros tree context t tree' b context' t' q H Hl Hv Hq Hr Hc.
  - assert (Hop : is_operator_value (VDocument d) = false) by exact Hl. rewrite value_plan_nested by exact Hop.
    cbn [value_ok] in Hv. rewrite Hop in Hv. apply andb_true_iff in Hv. destruct Hv as [_ Hv].
    exact (fields_built _ false d Hv IH _ _ _ _ _ _ _ _ H Hq Hr Hc).
  - discriminate.
  - destruct v; try discriminate. now elim (Hd d).
Qed.

(** The tree of a specification. *)
Lemma tree_built spec context t tree context' t' :
  BuildBsonPathTree parse spec context forceLeafExpression t = Ok ((tree, context'), t') -> spec_ok spec = true -> context_is context ->
  rep_tree tree (spec_plan forceLeafExpression spec) /\ context_after true (spec_plan forceLeafExpression spec) context context'.
Proof.
  intros H Hs Hc. unfold BuildBsonPathTree, bind in H.
  destruct (build_fields _ _ _ _ _ _ _ _ _) as [[[tree1 [hf context1]] t1]|] eqn:Ef; [|discriminate]. injection H as <- <- <-.
  assert (Hn : Forall (fun kv => nested_builds (build_nested parse forceLeafExpression) (snd kv)) spec)
    by (apply Forall_forall; intros; apply nested_built).
  destruct (fields_built _ true spec Hs Hn _ _ _ _ _ _ _ [] Ef ltac:(constructor) (tree_represents_nil _ _) Hc) as (Hr & _ & Hca).
  now split.
Qed.
End Build.
