(* ===== verification/ProjSound.v ===== *)
(** * Projections: the stages implement their meaning

    [$project], [$addFields] and [$unset] on the rows of a query: what is read from the
    specification is kept, and every row is the projection of the document by the plan
    of the specification, with the reference semantics of expressions for the fields
    that are set. *)

From Stdlib Require Import ZArith Lia Bool String List.
From Stdlib Require Import Strings.Byte.
From S2P Require Import Prelude SoftFloat BsonTypes StringView Decimal128 BsonCompare Traversal PgbsonElement BsonWriter DollarSets.
From S2P Require Import AggData AggOperators AggEval AggParse AggGet AggMeaning AggOutcome AggTrees AggSound AggRows.
From S2P Require Import ProjTree Project ProjMeaning ProjPlans ProjApply ProjPlain ProjBuild.
Import ListNotations.
Local Open Scope Z_scope.

(** ** Adding a leaf, and [_id] *)

Section Leaves.
Context {BL : BidLib} {OtherArguments : Set} {E : Type}.
Abbreviation Data := (@AggregationExpressionData OtherArguments).
Abbreviation Node := (@ProjectionNode OtherArguments).
Variable writes : Data -> E -> Prop.
Variable writes_array : list Data -> E -> Prop.
Abbreviation rep := (represents writes writes_array).
Abbreviation rep_tree := (tree_represents writes writes_array).

(** A leaf that includes or excludes a field. *)
Lemma value_leaf_added path v t (tree : list Node) t0 tree' t1 (p : plan E) :
  TraverseDottedPathAndAddLeafValueNode path v tree t0 = Ok (tree', t1) ->
  DetermineChildNodeType v false = Ok t -> t <> NodeType_LeafField -> plan_ok p -> rep_tree tree p ->
  rep_tree tree' (p ++ [(path_segments path, match t with NodeType_LeafExcluded => Drop_ | _ => Keep_ end)]).
Proof.
  intros H Ht Hf Hp Hr. unfold TraverseDottedPathAndAddLeafValueNode, bind, lift in H. rewrite Ht in H.
  match type of H with match ?x with _ => _ end = _ => destruct x as [[[tree1 u] t2]|] eqn:Ew; [|discriminate] end. injection H as -> _.
  set (ext := [([] : list bytes, match t with NodeType_LeafExcluded => Drop_ | _ => @Keep_ E end)]).
  assert (G := fun B L => add_path writes writes_array ext false (fun _ : unit => false) (mismatch path) _ (fun _ => True)
    ltac:(discriminate) B L (path_segments path) tree t0 tree' u t2 p Ew Hp Hr).
  replace [(path_segments path, _)] with (prefixed (path_segments path) ext)
    by (unfold ext, prefixed; cbn [map fst snd]; now rewrite app_nil_r).
  apply G; [discriminate|]. intros field existing node b t3 t4 q Es Hq _.
  assert (Es' : ret (make_leaf t field (ConstantExpr v), tt) t3 = Ok ((node, b), t4))
    by (unfold set_leaf in Es; destruct existing as [[]|]; try discriminate; exact Es).
  injection Es' as <- _ _. unfold ext. destruct t; [| |easy]; cbn [make_leaf field_of represents]; now rewrite leaf_last.
Qed.

Lemma id_added (tree : list Node) t0 tree' t1 (p : plan E) :
  TraverseDottedPathAndAddLeafValueNode IdField (VInt32 1) tree t0 = Ok (tree', t1) -> plan_ok p -> rep_tree tree p ->
  rep_tree tree' (p ++ [([IdField], Keep_)]).
Proof.
  intros H Hp Hr. exact (value_leaf_added IdField (VInt32 1) NodeType_LeafIncluded tree t0 tree' t1 p H ltac:(vm_compute; reflexivity) ltac:(discriminate) Hp Hr).
Qed.

Lemma path_excluded path (tree : list Node) t0 tree' t1 (p : plan E) :
  TraverseDottedPathAndAddLeafValueNode path (VInt32 0) tree t0 = Ok (tree', t1) -> plan_ok p -> rep_tree tree p ->
  rep_tree tree' (p ++ [(path_segments path, Drop_)]).
Proof.
  intros H Hp Hr. exact (value_leaf_added path (VInt32 0) NodeType_LeafExcluded tree t0 tree' t1 p H ltac:(vm_compute; reflexivity) ltac:(discriminate) Hp Hr).
Qed.

Lemma id_no_nul : no_nul IdField.
Proof. now apply no_nulb_ok. Qed.

Lemma find_id (tree : list Node) p : plan_ok p -> rep_tree tree p ->
  match find (fun node => same_name (field_of node) IdField) tree with
  | None => ~ In IdField (heads p)
  | Some node => In node tree /\ field_of node = IdField /\ rep node (below IdField p)
  end.
Proof.
  intros Hp [Hh Hc]. assert (Hn := plan_ok_heads _ Hp). rewrite Hh in *. rewrite Forall_forall in Hn, Hc.
  destruct (find _ tree) as [node|] eqn:F.
  - apply find_some in F. destruct F as [Hin Hs]. rewrite same_name_key in Hs by (apply Hn; now apply in_map). apply key_eqb_eq in Hs.
    split; [exact Hin|]. split; [exact Hs|]. rewrite <- Hs. now apply Hc.
  - intros Hin. apply in_map_iff in Hin. destruct Hin as (node & Hf & Hin). apply (find_none _ _ F) in Hin. cbn beta in Hin.
    rewrite Hf in Hin. discriminate.
Qed.

(** The node of [_id] is replaced. *)
Lemma reset_get (tree : list Node) t : (exists node, find (fun node => same_name (field_of node) IdField) tree = Some node) ->
  Forall no_nul (map field_of tree) ->
  GetOrAddChildNode IdField tree (fun _ => ret (LeafIncluded IdField, tt)) t = Ok ((reset_id tree, tt), t).
Proof.
  induction tree as [|node tree IH]; intros [n F] Hn; [discriminate|]. cbn [find] in F. cbn [map] in Hn. inversion_clear Hn as [|? ? H1 H2].
  cbn [GetOrAddChildNode reset_id]. destruct (same_name (field_of node) IdField) eqn:S.
  - rewrite same_name_key in S by exact H1. apply key_eqb_eq in S. now rewrite S.
  - unfold bind. rewrite IH; eauto.
Qed.

Lemma id_adjusted (tree : list Node) inclusion force exclusion t0 tree' exclusion' t1 (p : plan E) :
  AdjustPathProjectionsForId tree inclusion force exclusion t0 = Ok ((tree', exclusion'), t1) -> plan_ok p -> rep_tree tree p ->
  rep_tree tree' (with_id force p) /\ exclusion' = (exclusion || (negb inclusion && id_dropped p)).
Proof.
  intros H Hp Hr. pose proof (find_id tree p Hp Hr) as F. unfold AdjustPathProjectionsForId in H. unfold with_id.
  destruct (find _ tree) as [node|] eqn:Ef.
  - destruct F as (Hin & Hf & Hnode).
    assert (Hk : existsb (key_eqb IdField) (heads p) = true)
      by (apply key_in; rewrite (proj1 Hr); rewrite <- Hf; now apply in_map).
    assert (D : id_dropped p = match node with LeafExcluded _ => true | _ => false end).
    { unfold id_dropped. destruct node as [fi|fi|fi d|fi d|fi flag cs].
      - cbn [represents] in Hnode. now rewrite Hnode.
      - cbn [represents] in Hnode. now rewrite Hnode.
      - destruct Hnode as (e & -> & _). reflexivity.
      - destruct Hnode as (e & -> & _). reflexivity.
      - apply represents_intermediate in Hnode. now rewrite (proj1 Hnode). }
    rewrite Hk, D. destruct node as [fi|fi|fi d|fi d|fi flag cs]; injection H as <- <- _; cbn [andb];
      rewrite ?andb_false_r, ?orb_false_r; try (now split).
    split; [|now rewrite orb_comm, andb_true_r]. destruct force; [|exact Hr].
    assert (Hn := plan_ok_heads _ Hp). rewrite (proj1 Hr) in Hn.
    pose proof (reset_get tree t0 (ex_intro _ _ Ef) Hn) as G.
    apply (add_child writes writes_array IdField tree _ t0 _ tt t0 p [([], Keep_)] (fun _ => True) G Hp ltac:(discriminate) Hr).
    intros existing node b t2 t3 [= <- <- <-] _. split; [reflexivity|]. split; [|exact I]. cbn [represents]. apply leaf_last.
  - unfold bind in H. destruct (TraverseDottedPathAndAddLeafValueNode IdField (VInt32 1) tree t0) as [[tree1 t2]|] eqn:Ea; [|discriminate].
    injection H as <- <- _. assert (Hk : existsb (key_eqb IdField) (heads p) = false) by (apply not_true_iff_false; now rewrite key_in).
    rewrite Hk. split; [now apply id_added with (1 := Ea)|]. unfold id_dropped. rewrite (heads_not_in _ _ F). cbn. now rewrite andb_false_r, orb_false_r.
Qed.

Lemma with_id_ok force (p : plan E) : plan_ok p -> plan_ok (with_id force p).
Proof.
  intros H. assert (G : plan_ok (p ++ [([IdField], @Keep_ E)])).
  { apply plan_ok_app. split; [exact H|]. constructor; [|constructor]. constructor; [exact id_no_nul|constructor]. }
  unfold with_id. destruct (existsb _ _); [destruct (_ && _)|]; assumption.
Qed.
End Leaves.

(** ** States *)

Section States.
Context {BL : BidLib} {LB : LibBson} {LM : LibM} {LD : LibBsonDoc} {Laws : LibBsonDocLaws LD} {OtherArguments : Set}.
Variable EnableCollation : bool.
Variable EnableNowSystemVariable : bool.
Variable null_string : bson_value.
Variable handle_other : OtherArguments -> fields -> @ExpressionResult OtherArguments -> M (@ExpressionResult OtherArguments).
Variable parse_other : bytes -> bson_value -> ParseContext -> M (bson_value + OtherArguments).

Abbreviation Data := (@AggregationExpressionData OtherArguments).
Abbreviation Node := (@ProjectionNode OtherArguments).
Abbreviation parser depth := (ParseAggregationExpressionData EnableCollation null_string handle_other parse_other depth).
Abbreviation now_of := (spec_now EnableNowSystemVariable).

(** The collation that comparisons use. *)
Definition used_collation (collation : option bytes) : option bytes :=
  if IsCollationApplicable EnableCollation collation then collation else None.

(** The values of the variables of the command, for a document. *)
Definition variable_env (variableSpec : option fields) (document : fields) : list (list (bytes * res bson_value)) :=
  let vars := spec_variables variableSpec in
  extend [] (let_frame (fun env x => meaning (now_of variableSpec) None document (S (vdepth (VDocument vars))) env x false) [] vars).

(** The value of an expression of a specification, for a document. *)
Definition expression_value (variableSpec : option fields) (collation : option bytes) (document : fields) (v : bson_value)
  : res bson_value :=
  meaning (now_of variableSpec) (used_collation collation) document (S (vdepth v)) (variable_env variableSpec document) v false.

Lemma used_collation_used collation :
  (if IsCollationApplicable EnableCollation (used_collation collation) then used_collation collation else None) = used_collation collation.
Proof.
  unfold used_collation. destruct (IsCollationApplicable EnableCollation collation) eqn:H; cbn; [now rewrite ?H|].
  match goal with |- (if ?b then _ else _) = _ => now destruct b end.
Qed.

Variable multi : bool.

Lemma variables_set depth variableSpec t ctx t' document :
  SetVariableSpec EnableCollation null_string handle_other parse_other depth variableSpec t = Ok (ctx, t') ->
  spec_supported EnableNowSystemVariable multi variableSpec = true -> plain_doc document = true ->
  AggOutcome.env_ok handle_other multi document ctx (variable_env variableSpec document).
Proof.
  intros H Hs Hd. unfold spec_supported in Hs. rewrite !andb_true_iff in Hs. destruct Hs as [[[Hnow Hvs] Hnames] Hcount].
  unfold SetVariableSpec in H. unfold variable_env, spec_variables in *. destruct variableSpec as [s|]; [|now injection H as <- _].
  destruct (bson_iter_find_descendant s (str "let")) as [vars|]; [|now injection H as <- _].
  destruct vars as [| | | vars | | | | | | | | | | | | | | | | | |]; try discriminate. unfold bind in H.
  destruct (ParseVariableSpec _ vars (Some NoVariables) empty_context t) as [[frame t1]|] eqn:Es; [|discriminate]. injection H as <- _.
  assert (Hc : context_ok (now_of (Some s)) None empty_context) by (split; [now left|reflexivity]).
  destruct (command_variables_sound EnableCollation null_string handle_other parse_other multi depth (now_of (Some s)) vars empty_context t frame t1 document
    (S (vdepth (VDocument vars))) Es Hc Hnow Hvs Hnames Hcount Hd ltac:(lia)) as (f & -> & He). exact He.
Qed.

(** An expression of the specification writes its value. *)
Lemma expression_writes depth variableSpec collation document ctx v t data t' :
  parser depth v (expression_context EnableCollation EnableNowSystemVariable variableSpec collation) t = Ok (data, t') ->
  supported multi v = true -> good (now_of variableSpec) = true -> plain_doc document = true ->
  AggOutcome.env_ok handle_other multi document ctx (variable_env variableSpec document) ->
  good_res (expression_value variableSpec collation document v) /\
  eventually (fun k => data_writes multi (evaluator handle_other k) document ctx (expression_value variableSpec collation document) data v).
Proof.
  intros H Hs Hnow Hd He.
  assert (Hc : context_ok (now_of variableSpec) (used_collation collation) (expression_context EnableCollation EnableNowSystemVariable variableSpec collation))
    by (split; [now right|reflexivity]).
  pose proof (parser_sound EnableCollation null_string handle_other parse_other multi document Hd (now_of variableSpec) Hnow
    (used_collation collation) (used_collation_used collation) depth v _ t data t' H Hc Hs (S (vdepth v)) ltac:(lia)) as [G _].
  destruct (G ctx (variable_env variableSpec document) false He) as (Gg & _ & W). split; [exact Gg|]. revert W. apply eventually_mono.
  intros k W path w t2. apply W.
Qed.

(** The leaves of a tree have values and eventually write them. *)
Definition leaf_writes (eval : bson_value -> res bson_value) document ctx (data : Data) (e : bson_value) : Prop :=
  good_res (eval e) /\ eventually (fun k => data_writes multi (evaluator handle_other k) document ctx eval data e).
Definition leaf_writes_array (eval : bson_value -> res bson_value) document ctx (items : list Data) (e : bson_value) : Prop :=
  good_res (eval e) /\ eventually (fun k => array_writes multi (evaluator handle_other k) document ctx eval items e).

(** Such a tree applied to a document. *)
Lemma tree_applies (nodes : list Node) p eval others replace_arrays ctx document : plan_ok p -> plain_doc document = true ->
  tree_represents (leaf_writes eval document ctx) (leaf_writes_array eval document ctx) nodes p ->
  eventually (fun k => forall t,
    outcome multi (TraverseObjectAndAppendToWriter (evaluator handle_other k) document ctx others replace_arrays document nodes PgbsonWriterInit t)
      (project eval others replace_arrays document p) (fun fs w => w = fs)) /\
  forall fs, project eval others replace_arrays document p = Ok fs -> plain_doc fs = true.
Proof.
  intros Hp Hd Hr. split.
  - apply (tree_represents_weaker _ (fun data e => eventually (fun k => data_writes (E := bson_value) multi (evaluator handle_other k) document ctx eval data e))
      _ (fun items e => eventually (fun k => array_writes multi (evaluator handle_other k) document ctx eval items e))) in Hr; [|now intros ? ? []..].
    apply tree_represents_eventually in Hr. revert Hr. apply eventually_mono. intros k Hr t.
    exact (traverse_outcome multi (evaluator handle_other k) document ctx eval others replace_arrays nodes p document Hp Hr Hd PgbsonWriterInit t).
  - intros fs. apply project_plain; [exact Hd|]. intros key.
    apply (tree_evals_good eval (leaf_writes eval document ctx) (leaf_writes_array eval document ctx) nodes); [now intros ? ? []..|exact Hr].
Qed.

Lemma project_state_sound depth spec force allow variableSpec collation t state t' document :
  BuildBsonPathTreeForDollarProject EnableCollation EnableNowSystemVariable null_string handle_other parse_other depth
    spec force allow variableSpec collation t = Ok (state, t') ->
  spec_ok (supported multi) spec = true -> spec_supported EnableNowSystemVariable multi variableSpec = true -> plain_doc document = true ->
  (allow = false -> excludes (spec_plan false spec) && includes (spec_plan false spec) = false) /\
  eventually (fun k => forall t2, outcome multi (ProjectDocumentWithState handle_other k document state t2)
    (project (expression_value variableSpec collation document) (keeps_others (spec_plan false spec)) false document
       (with_id force (spec_plan false spec))) (fun fs w => w = fs)) /\
  forall fs, project (expression_value variableSpec collation document) (keeps_others (spec_plan false spec)) false document
       (with_id force (spec_plan false spec)) = Ok fs -> plain_doc fs = true.
Proof.
  intros H Hspec Hvars Hd. unfold BuildBsonPathTreeForDollarProject, bind in H.
  set (context := tree_context EnableCollation EnableNowSystemVariable variableSpec collation allow false) in H.
  destruct (BuildBsonPathTree (parser depth) spec context false t) as [[[tree context1] t1]|] eqn:Eb; [|discriminate].
  destruct (AdjustPathProjectionsForId tree (hasInclusion context1) force (hasExclusion context1) t1) as [[[tree1 exclusion] t2]|] eqn:Ea; [|discriminate].
  destruct (SetVariableSpec _ _ _ _ depth variableSpec t2) as [[ctx t3]|] eqn:Ev; [|discriminate]. injection H as <- _.
  assert (He := variables_set depth variableSpec t2 ctx t3 document Ev Hvars Hd).
  assert (Hnow : good (now_of variableSpec) = true) by (unfold spec_supported in Hvars; rewrite !andb_true_iff in Hvars; tauto).
  destruct (tree_built (parser depth) false false (expression_context EnableCollation EnableNowSystemVariable variableSpec collation)
    (leaf_writes (expression_value variableSpec collation document) document ctx)
    (leaf_writes_array (expression_value variableSpec collation document) document ctx)
    (supported multi)) with (2 := Eb) as (Hr & [A1 A2 A3 A4 A5]); [| exact Hspec | now split |].
  { intros v t4 data t5 Hs E. now apply expression_writes with (1 := E). }
  assert (Hp : plan_ok (spec_plan false spec)) by now apply spec_plan_ok with (leaf_ok := supported multi).
  destruct (id_adjusted _ _ tree _ force _ t1 tree1 exclusion t2 _ Ea Hp Hr) as (Hr' & ->).
  cbn [hasInclusion hasExclusion context tree_context orb inclusions exclusions] in A3, A4. split.
  - intros ->. rewrite <- A3, <- A4. apply A5; [now intros _|exact A2].
  - rewrite A3, A4. unfold ProjectDocumentWithState. cbn [root projectVariables stateProjectNonMatching].
    apply tree_applies; [now apply with_id_ok|exact Hd|exact Hr'].
Qed.

Lemma add_fields_state_sound depth spec variableSpec collation t state t' document :
  BuildBsonPathTreeForDollarAddFields EnableCollation EnableNowSystemVariable null_string handle_other parse_other depth
    spec false variableSpec collation t = Ok (state, t') ->
  spec_ok (supported multi) spec = true -> spec_supported EnableNowSystemVariable multi variableSpec = true -> plain_doc document = true ->
  eventually (fun k => forall t2, outcome multi (ProjectDocumentWithState handle_other k document state t2)
    (project (expression_value variableSpec collation document) true false document (spec_plan true spec)) (fun fs w => w = fs)) /\
  forall fs, project (expression_value variableSpec collation document) true false document (spec_plan true spec) = Ok fs -> plain_doc fs = true.
Proof.
  intros H Hspec Hvars Hd. unfold BuildBsonPathTreeForDollarAddFields, bind in H.
  destruct (BuildBsonPathTree (parser depth) spec _ true t) as [[[tree context1] t1]|] eqn:Eb; [|discriminate].
  destruct (SetVariableSpec _ _ _ _ depth variableSpec t1) as [[ctx t3]|] eqn:Ev; [|discriminate]. injection H as <- _.
  assert (He := variables_set depth variableSpec t1 ctx t3 document Ev Hvars Hd).
  assert (Hnow : good (now_of variableSpec) = true) by (unfold spec_supported in Hvars; rewrite !andb_true_iff in Hvars; tauto).
  destruct (tree_built (parser depth) true false (expression_context EnableCollation EnableNowSystemVariable variableSpec collation)
    (leaf_writes (expression_value variableSpec collation document) document ctx)
    (leaf_writes_array (expression_value variableSpec collation document) document ctx)
    (supported multi)) with (2 := Eb) as (Hr & _); [| exact Hspec | now split |].
  { intros v t4 data t5 Hs E. now apply expression_writes with (1 := E). }
  unfold ProjectDocumentWithState. cbn [root projectVariables stateProjectNonMatching].
  apply tree_applies; [now apply spec_plan_ok with (leaf_ok := supported multi)|exact Hd|exact Hr].
Qed.
End States.

(** ** [$unset] *)

Section Unset.
Context {BL : BidLib} {LB : LibBson} {LM : LibM} {LD : LibBsonDoc} {Laws : LibBsonDocLaws LD} {OtherArguments : Set}.
Variable handle_other : OtherArguments -> fields -> @ExpressionResult OtherArguments -> M (@ExpressionResult OtherArguments).

(** The strings of the argument. *)
Definition unset_strings (v : bson_value) : list bytes :=
  flat_map (fun v => match v with VUtf8 s => [s] | _ => [] end) (operands v).
Definition unset_plan (v : bson_value) : plan bson_value := map (fun path => (path_segments path, Drop_)) (unset_strings v).

Lemma unset_built (writes : @AggregationExpressionData OtherArguments -> bson_value -> Prop) writes_array paths :
  forallb no_nulb (unset_strings (VArray paths)) = true -> forall (tree : list ProjectionNode) t tree' t' p,
  unset_paths paths tree t = Ok (tree', t') -> plan_ok p -> tree_represents writes writes_array tree p ->
  tree_represents writes writes_array tree' (p ++ unset_plan (VArray paths)) /\ plan_ok (p ++ unset_plan (VArray paths)).
Proof.
  induction paths as [|[k v] paths IH]; intros Hn tree t tree' t' p H Hp Hr.
  - injection H as <- _. unfold unset_plan, unset_strings. cbn. rewrite app_nil_r. now split.
  - destruct v as [|?|path| | | | | | | | | | | | | | | | | | |]; try discriminate. cbn [unset_paths] in H. unfold bind in H.
    destruct (TraverseDottedPathAndAddLeafValueNode path (VInt32 0) tree t) as [[tree1 t1]|] eqn:Ea; [|discriminate].
    unfold unset_strings in Hn. cbn [operands map snd flat_map app forallb] in Hn. apply andb_true_iff in Hn. destruct Hn as [Hk Hn].
    assert (Hr1 := path_excluded _ _ path tree t tree1 t1 p Ea Hp Hr).
    assert (Hp1 : plan_ok (p ++ [(path_segments path, @Drop_ bson_value)])).
    { apply plan_ok_app. split; [exact Hp|]. constructor; [|constructor]. now apply segments_no_nul, no_nulb_ok. }
    destruct (IH Hn tree1 t1 tree' t' _ H Hp1 Hr1) as [Hr2 Hp2]. rewrite <- app_assoc in Hr2, Hp2. now split.
Qed.

Lemma unset_state_sound multi (eval : bson_value -> res bson_value) v force t state t' document :
  BuildBsonPathTreeForDollarUnset (OtherArguments := OtherArguments) v force t = Ok (state, t') ->
  forallb no_nulb (unset_strings v) = true -> plain_doc document = true ->
  eventually (fun k => forall t2, outcome multi (ProjectDocumentWithState handle_other k document state t2)
    (project eval true false document (with_id force (unset_plan v))) (fun fs w => w = fs)) /\
  forall fs, project eval true false document (with_id force (unset_plan v)) = Ok fs -> plain_doc fs = true.
Proof.
  intros H Hn Hd. unfold BuildBsonPathTreeForDollarUnset, bind in H.
  destruct (BuildBsonUnsetPathTree v t) as [[tree t1]|] eqn:Eb; [|discriminate].
  set (writes := leaf_writes handle_other multi eval document []). set (writes_array := leaf_writes_array handle_other multi eval document []).
  assert (Hb : tree_represents writes writes_array tree (unset_plan v) /\ plan_ok (unset_plan v)).
  { unfold BuildBsonUnsetPathTree in Eb. destruct v as [|?|path|d|paths| | | | | | | | | | | | | | | | |]; try discriminate.
    - apply (unset_built writes writes_array [([], VUtf8 path)] Hn [] t tree t1 []); [|constructor|apply tree_represents_nil].
      cbn [unset_paths]. unfold bind. now rewrite Eb.
    - exact (unset_built writes writes_array paths Hn [] t tree t1 [] Eb ltac:(constructor) (tree_represents_nil _ _)). }
  destruct Hb as [Hr Hp]. destruct tree as [|n tree]; [discriminate|].
  destruct (AdjustPathProjectionsForId (n :: tree) false force true t1) as [[[tree1 exclusion] t2]|] eqn:Ea; [|discriminate]. injection H as <- _.
  destruct (id_adjusted _ _ _ _ force _ t1 tree1 exclusion t2 _ Ea Hp Hr) as (Hr' & ->).
  unfold ProjectDocumentWithState. cbn [root projectVariables stateProjectNonMatching orb].
  apply tree_applies; [now apply with_id_ok|exact Hd|exact Hr'].
Qed.
End Unset.

(** ** Rows *)

Section Rows.
Context {BL : BidLib} {LB : LibBson} {LM : LibM} {LD : LibBsonDoc} {Laws : LibBsonDocLaws LD} {OtherArguments : Set}.
Variable EnableCollation : bool.
Variable EnableNowSystemVariable : bool.
Variable null_string : bson_value.
Variable handle_other : OtherArguments -> fields -> @ExpressionResult OtherArguments -> M (@ExpressionResult OtherArguments).
Variable parse_other : bytes -> bson_value -> ParseContext -> M (bson_value + OtherArguments).

(** The state of the first row is kept for the others. *)
Fixpoint project_rows (k : nat) (state : @BsonProjectionQueryState OtherArguments) (documents : list fields) : M (list fields) :=
  match documents with
  | [] => ret []
  | document :: documents =>
    bind (ProjectDocumentWithState handle_other k document state) (fun row =>
    bind (project_rows k state documents) (fun rows => ret (row :: rows)))
  end.

Fixpoint all_rows (rows : list (res fields)) : res (list fields) :=
  match rows with
  | [] => Ok []
  | row :: rows => res_bind row (fun row => res_bind (all_rows rows) (fun rows => Ok (row :: rows)))
  end.

Lemma rows_project state (reference : fields -> res fields) documents :
  Forall (fun document => eventually (fun k => forall t, outcome false (ProjectDocumentWithState handle_other k document state t)
    (reference document) (fun fs w => w = fs))) documents ->
  eventually (fun k => forall t, result_of (project_rows k state documents t) = all_rows (map reference documents)).
Proof.
  induction 1 as [|document documents H _ IH]; [now apply eventually_true|]. generalize (eventually_and _ _ H IH). apply eventually_mono.
  intros k [Hd Hds] t. cbn [project_rows map all_rows]. specialize (Hd t). unfold outcome in Hd. unfold bind at 1.
  destruct (ProjectDocumentWithState handle_other k document state t) as [[row t1]|e].
  - destruct Hd as (fs & -> & ->). cbn [res_bind]. rewrite <- (Hds t1). unfold bind, result_of.
    now destruct (project_rows k state documents t1) as [[rows t2]|].
  - destruct Hd as [[U _]| ->]; [discriminate|reflexivity].
Qed.

Abbreviation value_of := (expression_value EnableCollation EnableNowSystemVariable).

(** C14: A [$project] that was read gives for every document of a query, with enough
    stack, the projection of the document by the plan of its specification: included fields
    are kept and the others dropped, or excluded fields dropped and the others kept, also in
    the documents of arrays on the way; computed fields have the value or the error of the
    reference semantics, new ones at the end; and [_id] is kept unless it is excluded. The
    nested documents of the specification are not empty and its keys have no NUL byte; in it
    and in the variables of the command, of which there is at most one, the expressions are
    in the supported fragment: literals, field paths and variables (without NUL bytes,
    [$$NOW] without a path), arrays, documents with distinct keys that are not empty and
    have no dot, NUL or leading dollar, and the modelled operators ([$literal], boolean,
    comparison, conditional, arithmetic and [$let]), where a [$let] binds at most one
    variable, does not rebind [CURRENT] and has no constant to be computed as its [in], a
    [$add] of constants only adds numbers, and the constants and the documents the
    expressions are applied to hold only values that libbson copies as they are (no code,
    regular expression, database pointer or code with scope). *)
Theorem dollar_project_rows depth (spec : fields) (force allow : bool) (variables : option fields) (collation : option bytes) t state t'
  (documents : list fields)
  (Hstate : BuildBsonPathTreeForDollarProject EnableCollation EnableNowSystemVariable null_string handle_other parse_other depth
     spec force allow variables collation t = Ok (state, t'))
  (Hspec : spec_ok (supported false) spec = true) (Hvars : spec_supported EnableNowSystemVariable false variables = true)
  (Hdocs : Forall (fun d => plain_doc d = true) documents) :
  exists n, forall k t2, (n <= k)%nat ->
  result_of (project_rows k state documents t2) =
  all_rows (map (fun d => project (value_of variables collation d) (keeps_others (spec_plan false spec)) false d
                            (with_id force (spec_plan false spec))) documents).
Proof.
  enough (G : eventually (fun k => forall t2, result_of (project_rows k state documents t2) =
    all_rows (map (fun d => project (value_of variables collation d) (keeps_others (spec_plan false spec)) false d
                            (with_id force (spec_plan false spec))) documents))).
  { destruct G as [n G]. exists n. auto. }
  apply (rows_project state). eapply Forall_impl; [|exact Hdocs]. intros d Hd.
  exact (proj1 (proj2 (project_state_sound EnableCollation EnableNowSystemVariable null_string handle_other parse_other false depth spec force allow
    variables collation t state t' d Hstate Hspec Hvars Hd))).
Qed.

(** C15: A [$addFields] or [$set] that was read gives for every document of a query,
    with enough stack, the document with the value of its expression (or its error) at every
    path of the specification: in place where the document has the path and behind the other
    fields where not, in each element of the arrays on the way, the rest of the document
    kept. The nested documents of the specification are not empty and its keys have no NUL
    byte; in it and in the variables of the command, of which there is at most one, the
    expressions are in the supported fragment: literals, field paths and variables (without
    NUL bytes, [$$NOW] without a path), arrays, documents with distinct keys that are not
    empty and have no dot, NUL or leading dollar, and the modelled operators ([$literal],
    boolean, comparison, conditional, arithmetic and [$let]), where a [$let] binds at most
    one variable, does not rebind [CURRENT] and has no constant to be computed as its [in],
    a [$add] of constants only adds numbers, and the constants and the documents the
    expressions are applied to hold only values that libbson copies as they are (no code,
    regular expression, database pointer or code with scope). *)
Theorem dollar_add_fields_rows depth (spec : fields) (variables : option fields) (collation : option bytes) t state t'
  (documents : list fields)
  (Hstate : BuildBsonPathTreeForDollarAddFields EnableCollation EnableNowSystemVariable null_string handle_other parse_other depth
     spec false variables collation t = Ok (state, t'))
  (Hspec : spec_ok (supported false) spec = true) (Hvars : spec_supported EnableNowSystemVariable false variables = true)
  (Hdocs : Forall (fun d => plain_doc d = true) documents) :
  exists n, forall k t2, (n <= k)%nat ->
  result_of (project_rows k state documents t2) =
  all_rows (map (fun d => project (value_of variables collation d) true false d (spec_plan true spec)) documents).
Proof.
  enough (G : eventually (fun k => forall t2, result_of (project_rows k state documents t2) =
    all_rows (map (fun d => project (value_of variables collation d) true false d (spec_plan true spec)) documents))).
  { destruct G as [n G]. exists n. auto. }
  apply (rows_project state). eapply Forall_impl; [|exact Hdocs]. intros d Hd.
  exact (proj1 (add_fields_state_sound EnableCollation EnableNowSystemVariable null_string handle_other parse_other false depth spec
    variables collation t state t' d Hstate Hspec Hvars Hd)).
Qed.

(** a [$project] that includes some fields and excludes others, [_id] apart, is
    refused. *)
Theorem mixed_projection_refused depth (spec : fields) (force : bool) (variables : option fields) (collation : option bytes) t
  (Hspec : spec_ok (supported false) spec = true) (Hvars : spec_supported EnableNowSystemVariable false variables = true)
  (Hmixed : excludes (spec_plan false spec) && includes (spec_plan false spec) = true) :
  exists e, BuildBsonPathTreeForDollarProject EnableCollation EnableNowSystemVariable null_string handle_other parse_other depth
    spec force false variables collation t = Err e.
Proof.
  destruct (BuildBsonPathTreeForDollarProject _ _ _ _ _ _ _ _ _ _ _ t) as [[state t']|e] eqn:Es; [|now exists e].
  destruct (project_state_sound EnableCollation EnableNowSystemVariable null_string handle_other parse_other false depth spec force false
    variables collation t state t' [] Es Hspec Hvars eq_refl) as [H _]. rewrite (H eq_refl) in Hmixed. discriminate.
Qed.
End Rows.
