(* ===== verification/ProjExamples.v ===== *)
(** * Projections: examples

    [$project], [$addFields] and [$unset] on concrete documents, with the reference
    instance of the libraries; the hypotheses of the theorems hold for them. *)

From Stdlib Require Import ZArith Lia Bool String List.
From Stdlib Require Import Strings.Byte.
From S2P Require Import Prelude SoftFloat BsonTypes StringView Decimal128 BsonCompare BsonArith Traversal RefBid BsonWriter DollarSets UpdateRef.
From S2P Require Import AggData AggOperators AggEval AggParse AggGet AggTable AggMeaning AggTyping.
From S2P Require Import AggOutcome AggHandlers AggTrees AggSound AggRows AggExamples.
From S2P Require Import ProjTree Project ProjMeaning ProjPlans ProjApply ProjBuild ProjSound.
Import ListNotations.
Local Open Scope Z_scope.

#[local] Existing Instance RefBidLib.
#[local] Existing Instance RefLibBson.
#[local] Existing Instance RefLibBsonDoc.
#[local] Existing Instance RefLibBsonDocLaws.
#[local] Existing Instance RefLibM.

Local Open Scope string_scope.

Definition projected (document spec : fields) : res fields :=
  result_of (bson_dollar_project false true VEod no_handler no_parser 20 document spec None None no_tables).
Definition with_fields (document spec : fields) : res fields :=
  result_of (bson_dollar_add_fields false true VEod no_handler no_parser 20 document spec None None no_tables).
Definition without_fields (document : fields) (paths : bson_value) : res fields :=
  result_of (bson_dollar_unset no_handler 20 document [([], paths)] no_tables).

Definition person : fields :=
  fields_of [("_id", VInt32 7); ("n", VInt32 2);
             ("p", list_of [document_of [("x", VInt32 1); ("y", VInt32 2)]; VInt32 5; document_of [("x", VInt32 3)]])].

Example project_included : projected person (fields_of [("p.x", VInt32 1)]) =
  Ok (fields_of [("_id", VInt32 7); ("p", list_of [document_of [("x", VInt32 1)]; document_of [("x", VInt32 3)]])]).
Proof. vm_compute. reflexivity. Qed.

Example project_excluded : projected person (fields_of [("p", document_of [("x", VInt32 0)]); ("_id", VInt32 0)]) =
  Ok (fields_of [("n", VInt32 2); ("p", list_of [document_of [("y", VInt32 2)]; VInt32 5; document_of []])]).
Proof. vm_compute. reflexivity. Qed.

(** [{n: {$add: ["$n", 40]}, q: {r: "$_id"}}] *)
Definition computed : fields :=
  fields_of [("n", document_of [("$add", list_of [string_of "$n"; VInt32 40])]); ("q", document_of [("r", string_of "$_id")])].

Example project_computed : projected person computed =
  Ok (fields_of [("_id", VInt32 7); ("n", VInt32 42); ("q", document_of [("r", VInt32 7)])]).
Proof. vm_compute. reflexivity. Qed.

Example add_fields_computed : with_fields person (fields_of [("p.x", string_of "$n"); ("m", VInt32 0)]) =
  Ok (fields_of [("_id", VInt32 7); ("n", VInt32 2);
                 ("p", list_of [document_of [("x", VInt32 2); ("y", VInt32 2)]; document_of [("x", VInt32 2)];
                                document_of [("x", VInt32 2)]]); ("m", VInt32 0)]).
Proof. vm_compute. reflexivity. Qed.

Example unset_paths_removed : without_fields person (list_of [string_of "p.y"; string_of "n"]) =
  Ok (fields_of [("_id", VInt32 7); ("p", list_of [document_of [("x", VInt32 1)]; VInt32 5; document_of [("x", VInt32 3)]])]).
Proof. vm_compute. reflexivity. Qed.

(** ** Witnesses *)

Lemma dollar_project_rows_witness :
  exists state t',
    BuildBsonPathTreeForDollarProject false true VEod no_handler no_parser 20 computed false false None None no_tables = Ok (state, t') /\
    project (expression_value false true None None person) (keeps_others (spec_plan false computed)) false person
      (with_id false (spec_plan false computed)) =
      Ok (fields_of [("_id", VInt32 7); ("n", VInt32 42); ("q", document_of [("r", VInt32 7)])]) /\
    exists n, forall k t2, (n <= k)%nat ->
    result_of (project_rows no_handler k state [person; []] t2) =
    all_rows (map (fun d => project (expression_value false true None None d) (keeps_others (spec_plan false computed)) false d
                              (with_id false (spec_plan false computed))) [person; []]).
Proof.
  eexists. eexists. split; [vm_compute; reflexivity|]. split; [vm_compute; reflexivity|].
  apply (dollar_project_rows false true VEod no_handler no_parser 20 computed false false None None no_tables _ no_tables [person; []]).
  - vm_compute. reflexivity.
  - vm_compute. reflexivity.
  - vm_compute. reflexivity.
  - repeat constructor.
Defined.

Lemma dollar_add_fields_rows_witness :
  exists state t',
    BuildBsonPathTreeForDollarAddFields false true VEod no_handler no_parser 20 computed false None None no_tables = Ok (state, t') /\
    project (expression_value false true None None person) true false person (spec_plan true computed) =
      Ok (map (fun f => if same_name (fst f) (str "n") then (fst f, VInt32 42) else f) person ++
          fields_of [("q", document_of [("r", VInt32 7)])])%list /\
    exists n, forall k t2, (n <= k)%nat ->
    result_of (project_rows no_handler k state [person; []] t2) =
    all_rows (map (fun d => project (expression_value false true None None d) true false d (spec_plan true computed)) [person; []]).
Proof.
  eexists. eexists. split; [vm_compute; reflexivity|]. split; [vm_compute; reflexivity|].
  apply (dollar_add_fields_rows false true VEod no_handler no_parser 20 computed None None no_tables _ no_tables [person; []]).
  - vm_compute. reflexivity.
  - vm_compute. reflexivity.
  - vm_compute. reflexivity.
  - repeat constructor.
Defined.

Lemma mixed_projection_refused_witness :
  exists e, BuildBsonPathTreeForDollarProject false true VEod no_handler no_parser 20
    (fields_of [("a.b", VInt32 1); ("c", VInt32 0)]) false false None None no_tables = Err e.
Proof.
  apply (mixed_projection_refused false true VEod no_handler no_parser 20 (fields_of [("a.b", VInt32 1); ("c", VInt32 0)]) false None None no_tables);
    vm_compute; reflexivity.
Defined.

(** ** Where the code departs from what it means to do *)

(** The error for an inclusion among exclusions is the one for an exclusion among
    inclusions: the flag that is tested is set before the test. *)
Example inclusion_in_exclusion_code :
  projected person (fields_of [("n", VInt32 0); ("p", VInt32 1)]) = Err ERRCODE_DOCUMENTDB_LOCATION31254.
Proof. vm_compute. reflexivity. Qed.
