(* ===== verification/ProjLens.v ===== *)
(** * Projections: what a plan does to a path

    [ProjMeaning.project] is defined by recursion on the document; here it is
    described by its paths: a path that the plan sets has the value it is set to, and a
    path that the plan does not touch has the value it had. *)

From Stdlib Require Import ZArith Lia Bool String List.
From Stdlib Require Import Strings.Byte.
From S2P Require Import Prelude SoftFloat BsonTypes StringView Decimal128 BsonCompare Traversal BsonWriter.
From S2P Require Import AggData AggOperators AggEval AggParse AggMeaning ProjTree ProjMeaning ProjPlans.
Import ListNotations.
Local Open Scope Z_scope.

(** The value of a path that leads through documents, with the first of the fields
    that have the same key. *)
Fixpoint value_at (segments : list bytes) (v : bson_value) : option bson_value :=
  match segments with
  | [] => Some v
  | s :: segments =>
    match v with
    | VDocument d => match find (fun kv => key_eqb s (fst kv)) d with Some (_, v) => value_at segments v | None => None end
    | _ => None
    end
  end.

Definition field_value (s : bytes) (d : fields) : option bson_value := option_map snd (find (fun kv => key_eqb s (fst kv)) d).

Lemma value_at_field s segments d :
  value_at (s :: segments) (VDocument d) = match field_value s d with Some v => value_at segments v | None => None end.
Proof. cbn [value_at]. unfold field_value. now destruct (find _ d) as [[k v]|]. Qed.

(** No two fields of a document have the same key. *)
Fixpoint unique_keys (v : bson_value) : Prop :=
  match v with
  | VDocument d => NoDup (map fst d) /\ (fix all (d : fields) := match d with [] => True | (_, v) :: d => unique_keys v /\ all d end) d
  | _ => True
  end.

Lemma unique_document d : unique_keys (VDocument d) <-> NoDup (map fst d) /\ Forall (fun kv => unique_keys (snd kv)) d.
Proof.
  cbn [unique_keys]. assert (H : forall d, (fix all (d : fields) := match d with [] => True | (_, v) :: d => unique_keys v /\ all d end) d <->
    Forall (fun kv => unique_keys (snd kv)) d).
  { clear d. induction d as [|[k v] d IH]; [easy|]. rewrite Forall_cons_iff. cbn [snd]. now rewrite IH. }
  now rewrite H.
Qed.

Section Lens.
Context {E : Type}.
Implicit Types (p q : plan E).

(** What the plan says below a path. *)
Definition below_path (segments : list bytes) p : plan E := fold_left (fun p s => below s p) segments p.

(** The path is set to [e]: it is the last entry for it, and no entry is for a part of
    the way to it. *)
Fixpoint sets p (segments : list bytes) (e : E) : Prop :=
  match segments with
  | [] => leaf p = Some (Put e)
  | s :: segments => leaf p = None /\ sets (below s p) segments e
  end.

(** No entry is for the path, for a part of the way to it, or for something below it. *)
Fixpoint untouched p (segments : list bytes) : Prop :=
  p = [] \/ match segments with [] => False | s :: segments => leaf p = None /\ untouched (below s p) segments end.

Lemma sets_not_nil p segments e : sets p segments e -> p <> [].
Proof. destruct segments as [|s segments]; [intros H ->; discriminate|]. intros [_ H] ->. revert H. generalize dependent s.
  induction segments as [|s' segments IH]; intros s H; cbn in H; [discriminate|]. destruct H as [_ H]. now apply (IH s'). Qed.

Lemma below_puts key p : puts (below key p) = true -> puts p = true.
Proof.
  unfold puts, below. rewrite !existsb_exists. intros ([path a] & Hin & Ha). apply in_flat_map in Hin.
  destruct Hin as ([path' a'] & Hin & He). exists (path', a'). split; [exact Hin|]. unfold below_entry in He. cbn [fst snd] in He.
  destruct path' as [|s rest]; [easy|]. destruct (key_eqb s key); [|easy]. destruct He as [He|[]]. injection He as _ ->. exact Ha.
Qed.

Lemma leaf_puts p e : leaf p = Some (Put e) -> puts p = true.
Proof.
  unfold leaf. assert (H : forall p a, fold_left choose p a = Some (Put e) -> a = Some (Put e) \/ puts p = true).
  { clear p. induction p as [|[path b] p IH]; intros a H; [now left|]. cbn [fold_left] in H. apply IH in H.
    unfold puts. cbn [existsb snd]. destruct H as [H|H]; [|right; unfold puts in H; now rewrite H, orb_true_r].
    unfold choose in H. cbn [fst snd] in H. destruct path; [|now left]. injection H as ->. now right. }
  intros Hl. apply H in Hl. now destruct Hl.
Qed.

Lemma sets_puts segments : forall p e, sets p segments e -> puts p = true.
Proof.
  induction segments as [|s segments IH]; intros p e H; [now apply leaf_puts with e|]. destruct H as [_ H]. now apply (below_puts s), (IH _ e).
Qed.

Lemma sets_longest segments : forall p e, sets p segments e -> (List.length segments <= longest p)%nat.
Proof.
  induction segments as [|s segments IH]; intros p e H; [cbn; lia|]. destruct H as [_ H]. specialize (IH _ _ H).
  destruct (longest_below s p) as [Hn|Hn]; [|cbn [List.length]; lia]. now apply sets_not_nil in H.
Qed.

Variable eval : E -> res bson_value.
Abbreviation Project := (project eval true false).

(** ** New values *)

Definition if_present (v : res bson_value) : option bson_value :=
  match v with Ok v => if missing v then None else Some v | Err _ => None end.

Lemma field_value_cons s key v d : field_value s ((key, v) :: d) = if key_eqb s key then Some v else field_value s d.
Proof. unfold field_value. cbn [find fst]. now destruct (key_eqb s key). Qed.

Lemma field_value_app s d d' : field_value s (d ++ d') = match field_value s d with Some v => Some v | None => field_value s d' end.
Proof. induction d as [|[key v] d IH]; [reflexivity|]. cbn [app]. rewrite !field_value_cons. now destruct (key_eqb s key). Qed.

Lemma field_value_in s d v : field_value s d = Some v -> In (s, v) d.
Proof.
  induction d as [|[key w] d IH]; [discriminate|]. rewrite field_value_cons. destruct (key_eqb s key) eqn:Ek; [|right; auto].
  apply key_eqb_eq in Ek as ->. intros H. injection H as ->. now left.
Qed.

Lemma field_value_absent s d : ~ In s (map fst d) -> field_value s d = None.
Proof.
  intros H. destruct (field_value s d) as [v|] eqn:Ev; [|reflexivity]. elim H.
  exact (in_map fst _ _ (field_value_in _ _ _ Ev)).
Qed.

Lemma fields_with_value f s keys : forall fs, fields_with f keys = Ok fs ->
  field_value s fs = if existsb (key_eqb s) keys then if_present (f s) else None.
Proof.
  induction keys as [|key keys IH]; intros fs H; [now injection H as <-|].
  cbn [fields_with] in H. destruct (f key) as [v|] eqn:Ev; [|discriminate]. cbn [res_bind] in H.
  destruct (fields_with f keys) as [rest|]; [|discriminate]. cbn [res_bind] in H. injection H as <-. specialize (IH rest eq_refl).
  cbn [existsb]. destruct (key_eqb s key) eqn:Ek; cbn [orb].
  - apply key_eqb_eq in Ek as <-. rewrite Ev. cbn [if_present]. destruct (missing v) eqn:Em.
    + rewrite IH. destruct (existsb _ keys); [|reflexivity]. rewrite Ev. cbn. now rewrite Em.
    + now rewrite field_value_cons, (proj2 (key_eqb_eq s s) eq_refl).
  - destruct (missing v); [exact IH|]. now rewrite field_value_cons, Ek.
Qed.

Lemma fields_with_ok f s keys : forall fs, fields_with f keys = Ok fs -> In s keys -> exists w, f s = Ok w.
Proof.
  induction keys as [|key keys IH]; intros fs H Hin; [easy|]. cbn [fields_with] in H. destruct (f key) as [w|] eqn:Ew; [|discriminate].
  destruct Hin as [->|Hin]; [eauto|]. cbn [res_bind] in H. destruct (fields_with f keys) as [rest|]; [|discriminate]. now apply (IH rest).
Qed.

(** A new value has what the plan sets in it and nothing else. *)
Lemma new_value_document n q w : new_value eval (S n) q = Ok w -> leaf q = None -> puts q = true ->
  exists fs, w = VDocument fs /\ fields_with (fun key => new_value eval n (below key q)) (heads q) = Ok fs.
Proof.
  intros H Hl Hp. cbn [new_value] in H. rewrite Hl, Hp in H. destruct (fields_with _ (heads q)) as [fs|]; [|discriminate]. injection H as <-. eauto.
Qed.

Lemma new_value_sets segments : forall n q w e v, new_value eval n q = Ok w -> sets q segments e -> (List.length segments <= n)%nat ->
  eval e = Ok v -> missing v = false -> missing w = false /\ value_at segments w = Some v.
Proof.
  induction segments as [|s segments IH]; intros n q w e v H Hs Hn He Hv.
  - cbn [sets] in Hs. destruct n; cbn [new_value] in H; rewrite Hs, He in H; injection H as <-; auto.
  - assert (Hp := sets_puts _ _ _ Hs). destruct Hs as [Hl Hs]. destruct n as [|n]; [cbn in Hn; lia|].
    destruct (new_value_document n q w H Hl Hp) as (fs & -> & Hf). split; [reflexivity|]. rewrite value_at_field.
    rewrite (fields_with_value _ s _ _ Hf), (proj2 (key_in s (heads q))) by (apply heads_in; now apply sets_not_nil in Hs).
    destruct (new_value eval n (below s q)) as [w|] eqn:Ew.
    + destruct (IH n (below s q) w e v Ew Hs ltac:(cbn in Hn; lia) He Hv) as [Hm Ha]. cbn [if_present]. now rewrite Hm.
    + destruct (fields_with_ok _ s _ _ Hf) as [w Hw]; [apply heads_in; now apply sets_not_nil in Hs|congruence].
Qed.

Lemma new_value_untouched segments : forall n q w s, new_value eval n q = Ok w -> untouched q (s :: segments) ->
  missing w = true \/ value_at (s :: segments) w = None.
Proof.
  induction segments as [|s' segments IH]; intros n q w s H Hu; (destruct Hu as [->|[Hl Hu]]; [destruct n; injection H as <-; now left|]).
  - destruct n as [|n]; cbn [new_value] in H; rewrite Hl in H; [destruct (puts q); injection H as <-; now left|].
    destruct (puts q) eqn:Hp; [|injection H as <-; now left]. destruct (fields_with _ (heads q)) as [fs|] eqn:Hf; [|discriminate].
    injection H as <-. right. rewrite value_at_field, (fields_with_value _ s _ _ Hf). destruct Hu as [Hu|[]].
    destruct (existsb (key_eqb s) (heads q)) eqn:Ein; [|reflexivity]. apply key_in, heads_in in Ein. congruence.
  - destruct n as [|n]; cbn [new_value] in H; rewrite Hl in H; [destruct (puts q); injection H as <-; now left|].
    destruct (puts q) eqn:Hp; [|injection H as <-; now left]. destruct (fields_with _ (heads q)) as [fs|] eqn:Hf; [|discriminate].
    injection H as <-. right. rewrite value_at_field, (fields_with_value _ s _ _ Hf).
    destruct (existsb (key_eqb s) (heads q)); [|reflexivity]. destruct (new_value eval n (below s q)) as [w|] eqn:Ew; [|reflexivity].
    cbn [if_present]. destruct (IH n (below s q) w s' Ew Hu) as [Hm|Hm]; [now rewrite Hm|]. destruct (missing w); [reflexivity|exact Hm].
Qed.

(** ** Documents *)

Lemma project_fields_value nested s p d : NoDup (map fst d) -> forall fs, project_fields eval true false nested d p = Ok fs ->
  field_value s fs = match field_value s d with Some v => if_present (project_field eval true false nested v (below s p)) | None => None end.
Proof.
  induction d as [|[key v] d IH]; intros Hn fs H; [now injection H as <-|]. cbn [map fst] in Hn. apply NoDup_cons_iff in Hn. destruct Hn as [Hk Hn].
  cbn [project_fields] in H. destruct (project_field eval true false nested v (below key p)) as [w|] eqn:Ew; [|discriminate].
  cbn [res_bind] in H. destruct (project_fields eval true false nested d p) as [rest|]; [|discriminate]. injection H as <-.
  specialize (IH Hn rest eq_refl). rewrite field_value_cons. destruct (key_eqb s key) eqn:Ek.
  - apply key_eqb_eq in Ek as <-. rewrite Ew. cbn [if_present]. rewrite (field_value_absent s d Hk) in IH.
    destruct (missing w); [exact IH|]. now rewrite field_value_cons, (proj2 (key_eqb_eq s s) eq_refl).
  - destruct (missing w); [exact IH|]. now rewrite field_value_cons, Ek.
Qed.

Lemma project_fields_ok nested s p v d : forall fs, project_fields eval true false nested d p = Ok fs -> In (s, v) d ->
  exists w, project_field eval true false nested v (below s p) = Ok w.
Proof.
  induction d as [|[key u] d IH]; intros fs H Hin; [easy|]. cbn [project_fields] in H.
  destruct (project_field eval true false nested u (below key p)) as [w|] eqn:Ew; [|discriminate].
  destruct Hin as [Hin|Hin]; [injection Hin as -> ->; eauto|]. cbn [res_bind] in H.
  destruct (project_fields eval true false nested d p) as [rest|]; [|discriminate]. now apply (IH rest).
Qed.

Lemma project_inv d p row : Project d p = Ok row -> exists fs new,
  project_fields eval true false (project_value eval true false) d p = Ok fs /\ added eval false d p = Ok new /\ row = fs ++ new.
Proof.
  unfold project. destruct (project_fields _ _ _ _ d p) as [fs|]; [|discriminate]. cbn [res_bind].
  destruct (added eval false d p) as [new|]; [|discriminate]. cbn [res_bind]. intros H. injection H as <-. eauto.
Qed.

Lemma project_value_document d p : project_value eval true false (VDocument d) p = res_bind (Project d p) (fun row => Ok (VDocument row)).
Proof.
  unfold project. cbn [project_value]. destruct (project_fields _ _ _ _ d p) as [fs|]; [|reflexivity]. cbn [res_bind].
  now destruct (added eval false d p).
Qed.

Lemma placed_unique s p d v : NoDup (map fst d) -> field_value s d = Some v ->
  placed false d p s = match leaf (below s p) with Some _ => true | None => container false v end.
Proof.
  unfold placed. induction d as [|[key w] d IH]; [discriminate|]. cbn [map fst]. rewrite NoDup_cons_iff. intros [Hk Hn]. rewrite field_value_cons.
  cbn [existsb fst snd]. destruct (key_eqb s key) eqn:Ek.
  - apply key_eqb_eq in Ek as <-. intros H. injection H as <-. rewrite (proj2 (key_eqb_eq s s) eq_refl). cbn [andb].
    assert (Hf : existsb (fun kv => key_eqb (fst kv) s && match leaf (below s p) with Some _ => true | None => container false (snd kv) end) d = false).
    { apply not_true_iff_false. rewrite existsb_exists. intros ([k u] & Hin & Hu). apply andb_true_iff in Hu. destruct Hu as [Hu _].
      cbn [fst] in Hu. apply key_eqb_eq in Hu as ->. elim Hk. now apply (in_map fst) in Hin. }
    now rewrite Hf, orb_false_r.
  - intros H. rewrite (IH Hn H). replace (key_eqb key s) with false; [reflexivity|]. symmetry. apply key_eqb_neq. apply key_eqb_neq in Ek. congruence.
Qed.

Lemma placed_absent s p d : field_value s d = None -> placed false d p s = false.
Proof.
  unfold placed. induction d as [|[key w] d IH]; [reflexivity|]. rewrite field_value_cons. cbn [existsb fst snd]. destruct (key_eqb s key) eqn:Ek; [discriminate|].
  intros H. rewrite (IH H), orb_false_r. replace (key_eqb key s) with false; [reflexivity|]. symmetry. apply key_eqb_neq. apply key_eqb_neq in Ek. congruence.
Qed.

(** A field of the projection: made from the field of the document, or new. *)
Lemma project_field_value s d p row : Project d p = Ok row -> NoDup (map fst d) ->
  field_value s row =
  match match field_value s d with
        | Some v => if_present (project_field eval true false (project_value eval true false) v (below s p))
        | None => None
        end with
  | Some v => Some v
  | None => if existsb (key_eqb s) (heads p) && negb (placed false d p s) then if_present (new_value eval (longest p) (below s p)) else None
  end.
Proof.
  intros H Hn. destruct (project_inv d p row H) as (fs & new & Hf & Ha & ->). rewrite field_value_app, (project_fields_value _ s p d Hn fs Hf).
  destruct (match field_value s d with Some v => _ | None => None end); [reflexivity|]. unfold added in Ha. rewrite (fields_with_value _ s _ _ Ha).
  replace (existsb (key_eqb s) (filter (fun key => negb (placed false d p key)) (heads p)))
    with (existsb (key_eqb s) (heads p) && negb (placed false d p s)); [reflexivity|].
  apply eq_iff_eq_true. rewrite andb_true_iff, !key_in, filter_In. reflexivity.
Qed.

(** The parts of the way to the path that the document has are documents or single values. *)
Fixpoint open_at (segments : list bytes) (v : bson_value) : Prop :=
  match segments with
  | [] => True
  | s :: segments =>
    match v with
    | VDocument d => match field_value s d with Some v => open_at segments v | None => True end
    | VArray _ => False
    | _ => True
    end
  end.

Lemma nested_document d q w : project_value eval true false (VDocument d) q = Ok w -> exists row, w = VDocument row /\ Project d q = Ok row.
Proof. rewrite project_value_document. destruct (Project d q) as [row|]; [|discriminate]. intros H. injection H as <-. eauto. Qed.

Lemma project_field_single nested v q : leaf q = None -> q <> [] -> container false v = false ->
  project_field eval true false nested v q = Ok (if negb (puts q) then v else VEod).
Proof. intros Hl Hq Hc. unfold project_field. rewrite Hl, Hc, andb_true_r. now destruct q. Qed.

Lemma project_field_nested nested v q : leaf q = None -> q <> [] -> container false v = true ->
  project_field eval true false nested v q = nested v q.
Proof. intros Hl Hq Hc. unfold project_field. rewrite Hl, Hc. now destruct q. Qed.

Lemma plain_field d s v : plain_doc d = true -> field_value s d = Some v -> plain v = true.
Proof. intros Hd Ed. apply field_value_in in Ed. unfold plain_doc in Hd. rewrite forallb_forall in Hd. exact (Hd _ Ed). Qed.

(** The field is new: the document has none, or a single value in the way. *)
Lemma project_adds s p d row : Project d p = Ok row -> NoDup (map fst d) -> below s p <> [] -> puts (below s p) = true ->
  match field_value s d with Some v => leaf (below s p) = None /\ container false v = false | None => True end ->
  exists w, new_value eval (longest p) (below s p) = Ok w /\ field_value s row = if_present (Ok w).
Proof.
  intros H Hn Hb Hp Hd. assert (Hin : In s (heads p)) by now apply heads_in.
  assert (Hplaced : placed false d p s = false).
  { destruct (field_value s d) as [v|] eqn:Ev; [|now apply placed_absent]. destruct Hd as [Hl Hc]. now rewrite (placed_unique s p d v Hn Ev), Hl. }
  destruct (project_inv d p row H) as (fs & new & _ & Ha & _).
  destruct (fields_with_ok _ s _ _ Ha) as [w Hw]; [apply filter_In; now rewrite Hplaced|]. exists w. split; [exact Hw|].
  rewrite (project_field_value s d p row H Hn), Hplaced, (proj2 (key_in s (heads p)) Hin), Hw.
  destruct (field_value s d) as [v|]; [|reflexivity]. destruct Hd as [Hl Hc]. unfold project_field. rewrite Hl, Hc, Hp.
  destruct (below s p); [easy|reflexivity].
Qed.

(** A path that the plan sets has its value afterwards. *)
Lemma project_sets segments : forall d p row e v, Project d p = Ok row -> sets p segments e -> segments <> [] ->
  unique_keys (VDocument d) -> open_at segments (VDocument d) -> eval e = Ok v -> missing v = false ->
  value_at segments (VDocument row) = Some v.
Proof.
  induction segments as [|s segments IH]; intros d p row e v H Hs Hne Hu Ho He Hv; [easy|]. clear Hne.
  assert (Hlong := sets_longest _ _ _ Hs). destruct Hs as [Hl Hs]. rewrite value_at_field. cbn [open_at] in Ho.
  apply unique_document in Hu. destruct Hu as [Hn Hu].
  assert (Hb : below s p <> []) by now apply sets_not_nil in Hs. assert (Hp := sets_puts _ _ _ Hs).
  assert (Hnew : match field_value s d with Some v => leaf (below s p) = None /\ container false v = false | None => True end ->
    match field_value s row with Some v0 => value_at segments v0 | None => None end = Some v).
  { intros Hd. destruct (project_adds s p d row H Hn Hb Hp Hd) as (w & Hw & ->).
    destruct (new_value_sets segments _ _ w e v Hw Hs ltac:(cbn in Hlong; lia) He Hv) as [Hm Ha]. cbn [if_present]. now rewrite Hm. }
  destruct (field_value s d) as [u|] eqn:Ed; [|now apply Hnew].
  assert (Hf := project_field_value s d p row H Hn). rewrite Ed in Hf.
  destruct segments as [|s' segments].
  { cbn [sets] in Hs. unfold project_field in Hf. rewrite Hs, He in Hf. cbn [if_present] in Hf. rewrite Hv in Hf. now rewrite Hf. }
  assert (Hlb := proj1 Hs).
  destruct u as [| | |d1| | | | | | | | | | | | | | | | | |]; try (apply Hnew; split; [exact Hlb|reflexivity]); [|easy].
  destruct (project_inv d p row H) as (fs & new & Hfs & _ & _).
  destruct (project_fields_ok _ s p _ d fs Hfs (field_value_in _ _ _ Ed)) as [w Hw]. rewrite Hw in Hf.
  rewrite (project_field_nested _ (VDocument d1) _ Hlb Hb eq_refl) in Hw. destruct (nested_document d1 _ w Hw) as (row1 & -> & Hrow).
  cbn [if_present missing] in Hf. rewrite Hf.
  apply (IH d1 (below s p) row1 e v Hrow Hs ltac:(discriminate)); try assumption.
  apply field_value_in in Ed. rewrite Forall_forall in Hu. exact (Hu _ Ed).
Qed.

(** A path that the plan does not touch has the value it had. *)
Lemma project_keeps segments : forall d p row, Project d p = Ok row -> untouched p segments -> segments <> [] ->
  unique_keys (VDocument d) -> plain_doc d = true -> value_at segments (VDocument row) = value_at segments (VDocument d).
Proof.
  induction segments as [|s segments IH]; intros d p row H Ht Hne Hu Hd; [easy|]. clear Hne.
  assert (Hb : untouched (below s p) segments) by (destruct Ht as [->|[_ Ht]]; [destruct segments; now left|exact Ht]). clear Ht.
  rewrite !value_at_field. apply unique_document in Hu. destruct Hu as [Hn Hu]. assert (Hf := project_field_value s d p row H Hn).
  assert (Hcase : below s p = [] \/ below s p <> []) by (destruct (below s p); [now left|now right]). destruct Hcase as [Eq|Hq].
  { assert (Hin : existsb (key_eqb s) (heads p) = false) by (apply not_true_iff_false; rewrite key_in, heads_in; congruence).
    rewrite Hin, Eq in Hf. cbn [andb] in Hf. rewrite Hf. destruct (field_value s d) as [v|] eqn:Ed; [|reflexivity].
    cbn [project_field leaf fold_left if_present]. now rewrite (plain_not_missing v (plain_field d s v Hd Ed)). }
  destruct segments as [|s' segments]; [destruct Hb as [Hb|[]]; contradiction|].
  assert (Hl : leaf (below s p) = None) by now destruct Hb as [Hb|[Hl _]].
  assert (Hnew : match if_present (new_value eval (longest p) (below s p)) with Some v0 => value_at (s' :: segments) v0 | None => None end = None).
  { destruct (new_value eval (longest p) (below s p)) as [w|] eqn:Hw; [|reflexivity]. cbn [if_present].
    destruct (new_value_untouched segments _ _ w s' Hw Hb) as [Hm|Hm]; [now rewrite Hm|]. destruct (missing w); [reflexivity|exact Hm]. }
  assert (Hadd : match field_value s d with Some v => container false v = false | None => True end ->
    match field_value s row with Some v0 => value_at (s' :: segments) v0 | None => None end = None).
  { intros Hc. rewrite Hf. destruct (field_value s d) as [v|] eqn:Ed; [|now destruct (existsb _ _ && _)].
    rewrite (project_field_single _ v _ Hl Hq Hc). destruct (negb (puts (below s p))); cbn [if_present].
    - rewrite (plain_not_missing v (plain_field d s v Hd Ed)). destruct v; try reflexivity; discriminate.
    - cbn [missing]. now destruct (existsb _ _ && _). }
  destruct (field_value s d) as [u|] eqn:Ed; [|now apply Hadd].
  destruct (container false u) eqn:Hc; [|rewrite (Hadd eq_refl); destruct u; try reflexivity; discriminate].
  destruct (project_inv d p row H) as (fs & new & Hfs & _ & _).
  destruct (project_fields_ok _ s p _ d fs Hfs (field_value_in _ _ _ Ed)) as [w Hw]. rewrite Hw in Hf. rewrite (project_field_nested _ u _ Hl Hq Hc) in Hw.
  destruct u as [| | |d1|items| | | | | | | | | | | | | | | | |]; try discriminate.
  - destruct (nested_document d1 _ w Hw) as (row1 & -> & Hrow). cbn [if_present missing] in Hf. rewrite Hf.
    assert (Hin := field_value_in _ _ _ Ed). rewrite Forall_forall in Hu.
    apply (IH d1 (below s p) row1 Hrow Hb); [discriminate|exact (Hu _ Hin)|exact (plain_field d s _ Hd Ed)].
  - cbn [project_value] in Hw. destruct (project_items _ _ _ _ items _) as [values|]; [|discriminate]. injection Hw as <-.
    cbn [if_present missing] in Hf. now rewrite Hf.
Qed.
End Lens.
