(* ===== verification/Unwind.v ===== *)
(** * [$unwind] ([aggregation/bson_unwind.c])

    [$unwind] makes a row of every element of an array: the document with the element
    in the place of the array.  The functions return sets, which PostgreSQL collects in
    a tuple store; a row of it is a document here.  [bson_distinct_unwind] and
    [bson_lookup_unwind] produce the rows of [distinct] and of [$lookup]. *)

From Stdlib Require Import ZArith Lia Bool String List.
From Stdlib Require Import Strings.Byte.
From S2P Require Import Prelude SoftFloat BsonTypes StringView Decimal128 BsonCompare Traversal BsonWriter IndexTerm.
From S2P Require Import AggData AggOperators AggEval AggParse AggGet ProjTree Project.
Import ListNotations.
Local Open Scope Z_scope.

Section Unwind.
Context {BL : BidLib} {LB : LibBson} {LM : LibM} {LD : LibBsonDoc} {OtherArguments : Set}.
Variable EnableCollation : bool.
Variable EnableNowSystemVariable : bool.
Variable null_string : bson_value.
Variable handle_other : OtherArguments -> fields -> @ExpressionResult OtherArguments -> M (@ExpressionResult OtherArguments).
Variable parse_other : bytes -> bson_value -> ParseContext -> M (bson_value + OtherArguments).
Variable depth : nat.
Local Open Scope agg_scope.

Abbreviation Node := (@ProjectionNode OtherArguments).

(** ** Rows *)

(** The fields to set in the row of an element; a missing element leaves the path as it
    is.  The index of a value that is no element is -1. *)
Definition unwind_tree (path : bytes) (indexFieldName : option bytes) (index : Z) (element : bson_value) : M (list Node) :=
  let! tree := match element with
               | VEod => ret ([] : list Node)
               | _ => TraverseDottedPathAndAddLeafFieldNode path element []
               end in
  match indexFieldName with
  | None => ret tree
  | Some name => TraverseDottedPathAndAddLeafFieldNode name (if index >? -1 then VInt64 index else VNull) tree
  end.

Definition BsonUnwindElement (document : fields) (path : bytes) (indexFieldName : option bytes) (index : Z) (element : bson_value)
  : M fields :=
  let! tree := unwind_tree path indexFieldName index element in
  TraverseObjectAndAppendToWriter (evaluator handle_other depth) document [] true false document tree PgbsonWriterInit.

(** The row of an empty array: a projection that excludes the path. *)
Definition BsonUnwindEmptyArray (document : fields) (path : bytes) (indexFieldName : option bytes) : M fields :=
  let! projectSpec := lift (PgbsonWriterAppendValue PgbsonWriterInit path (VBool false)) in
  let! projectSpec := match indexFieldName with
                      | Some name => lift (PgbsonWriterAppendValue projectSpec name VNull)
                      | None => ret projectSpec
                      end in
  let! projectionState :=
    GetProjectionStateForBsonProject EnableCollation EnableNowSystemVariable null_string handle_other parse_other depth
      projectSpec true true in
  ProjectDocumentWithState handle_other depth document projectionState.

Fixpoint unwind_elements (document : fields) (path : bytes) (indexFieldName : option bytes) (index : Z) (items : fields)
  : M (list fields) :=
  match items with
  | [] => ret []
  | (_, element) :: items =>
    let! result := BsonUnwindElement document path indexFieldName index element in
    let! rows := unwind_elements document path indexFieldName (index + 1) items in
    ret (result :: rows)
  end.

Definition BsonUnwindArray (document : fields) (path : bytes) (indexFieldName : option bytes) (preserveNullAndEmpty : bool)
  : M (list fields) :=
  if blen path <=? 1 then raise ERRCODE_INVALID_PARAMETER_VALUE
  else if negb (byte_eqb (nth 0 path x00) "$"%byte) then raise ERRCODE_INVALID_PARAMETER_VALUE
  else
    let path := skipn 1 path in
    let single element := let! row := BsonUnwindElement document path indexFieldName (-1) element in ret [row] in
    match bson_iter_find_descendant document path with
    | None => if preserveNullAndEmpty then single VEod else ret []
    | Some VNull => if preserveNullAndEmpty then single VNull else ret []
    | Some (VArray items) =>
      match items with
      | [] => if preserveNullAndEmpty then let! row := BsonUnwindEmptyArray document path indexFieldName in ret [row] else ret []
      | _ => unwind_elements document path indexFieldName 0 items
      end
    | Some element =>
      match indexFieldName with
      | None => ret [document]
      | Some _ => single element
      end
    end.

(** ** SQL functions *)

(** Strings of the options are C strings. *)
Fixpoint unwind_options (spec : fields) (path : option bytes) (preserveNullAndEmpty : bool) (indexFieldName : option bytes)
  : res (option bytes * bool * option bytes) :=
  match spec with
  | [] => Ok (path, preserveNullAndEmpty, indexFieldName)
  | (key, v) :: spec =>
    if strcmp key (str "path") =? 0 then
      match v with
      | VUtf8 s => unwind_options spec (Some (until_nul s)) preserveNullAndEmpty indexFieldName
      | _ => Err ERRCODE_INVALID_PARAMETER_VALUE
      end
    else if strcmp key (str "preserveNullAndEmptyArrays") =? 0 then
      match v with
      | VBool b => unwind_options spec path b indexFieldName
      | _ => Err ERRCODE_INVALID_PARAMETER_VALUE
      end
    else if strcmp key (str "includeArrayIndex") =? 0 then
      match v with
      | VUtf8 s => unwind_options spec path preserveNullAndEmpty (Some (until_nul s))
      | _ => Err ERRCODE_INVALID_PARAMETER_VALUE
      end
    else Err ERRCODE_INVALID_PARAMETER_VALUE
  end.

Definition bson_dollar_unwind_with_options (document spec : fields) : M (list fields) :=
  let! '(path, preserveNullAndEmpty, indexFieldName) := lift (unwind_options spec None false None) in
  match path with
  | None => raise ERRCODE_INVALID_PARAMETER_VALUE
  | Some path => BsonUnwindArray document path indexFieldName preserveNullAndEmpty
  end.

Definition bson_dollar_unwind (document : fields) (path : bytes) : M (list fields) :=
  BsonUnwindArray document path None false.
End Unwind.

(** ** [distinct] and [$lookup] *)

Section Distinct.
Context {LD : LibBsonDoc}.
Variable SkipBsonArrayTraverseOptimization : bool.
Local Open Scope res_scope.

(** The state is the tuple store; an error ends the query. *)
Abbreviation State := (res (list fields)).

Definition DistinctContinueProcessIntermediateArray (value : bson_value) (state : State) : bool * State := (true, state).
Definition DistinctSetTraverseResult (result : TraverseBsonResult) (state : State) : State := state.

Definition BsonValueToDocumentPgbson (value : bson_value) : res fields := PgbsonWriterAppendValue PgbsonWriterInit [] value.

Definition AddToDistinctTupleStore (value : bson_value) (state : State) : State :=
  let* rows := state in
  let* row := BsonValueToDocumentPgbson value in
  Ok (rows ++ [row]).

Definition DistinctVisitArrayField (element : pgbsonelement) (traversePath : bytes) (arrayIndex : Z) (state : State) : bool * State :=
  (true, AddToDistinctTupleStore (snd element) state).

Definition DistinctVisitTopLevelField (element : pgbsonelement) (traversePath : bytes) (state : State) : bool * State :=
  match snd element with
  | VArray _ => (true, state)
  | value => (true, AddToDistinctTupleStore value state)
  end.

Definition distinctExecutionFuncs : TraverseBsonExecutionFuncs State := {|
  ContinueProcessIntermediateArray := DistinctContinueProcessIntermediateArray;
  SetTraverseResult := Some DistinctSetTraverseResult;
  VisitArrayField := Some DistinctVisitArrayField;
  VisitTopLevelField := DistinctVisitTopLevelField;
  SetIntermediateArrayIndex := None;
  HandleIntermediateArrayPathNotFound := None;
  SetIntermediateArrayStartEnd := None |}.

Definition bson_distinct_unwind (document : fields) (path : bytes) : res (list fields) :=
  let* state := TraverseBson distinctExecutionFuncs SkipBsonArrayTraverseOptimization document path (Ok []) in
  state.

Fixpoint lookup_rows (items : fields) : res (list fields) :=
  match items with
  | [] => Ok []
  | (_, VDocument d) :: items => let* rows := lookup_rows items in Ok (d :: rows)
  | _ => Err ERRCODE_INTERNAL_ERROR
  end.

Definition bson_lookup_unwind (document : fields) (path : bytes) : res (list fields) :=
  match bson_iter_find_descendant document path with
  | Some (VArray items) => lookup_rows items
  | Some _ => Err ERRCODE_INTERNAL_ERROR
  | None => Ok []
  end.
End Distinct.
