(* ===== verification/UnwindSound.v ===== *)
(** * [$unwind]: theorems

    A row of [$unwind] has the element at the path of the array and its index at the
    path of the index, and agrees with the document everywhere else; the rows of
    [distinct] are the values that the path leads to. *)

From Stdlib Require Import ZArith Lia Bool String List.
From Stdlib Require Import Strings.Byte.
From S2P Require Import Prelude SoftFloat BsonTypes StringView Decimal128 BsonCompare BsonArith Traversal RefBid BsonWriter DollarSets UpdateRef.
From S2P Require Import AggData AggOperators AggEval AggParse AggGet AggMeaning AggTyping AggOutcome AggExamples.
From S2P Require Import ProjTree Project ProjMeaning ProjPlans ProjApply ProjBuild ProjLens Unwind.
Import ListNotations.
Local Open Scope Z_scope.

(** ** Paths *)

(** libbson's search for a dotted path without empty segments: a segment names the first
    field with this key of a document or an array. *)
Fixpoint descend (segments : list bytes) (v : bson_value) : option bson_value :=
  match segments with
  | [] => Some v
  | s :: segments =>
    match v with
    | VDocument d | VArray d => match find (fun kv => key_eqb s (fst kv)) d with Some (_, v) => descend segments v | None => None end
    | _ => None
    end
  end.

Definition valid_path (path : bytes) : Prop := no_nul path /\ Forall (fun s => s <> []) (split_dots path).

Class LibBsonFindLaws (LD : LibBsonDoc) : Prop := {
  find_path : forall d path, valid_path path -> bson_iter_find_descendant d path = descend (split_dots path) (VDocument d)
}.

Lemma value_at_descend segments : forall v w, value_at segments v = Some w -> descend segments v = Some w.
Proof.
  induction segments as [|s segments IH]; intros v w H; [exact H|]. cbn [value_at] in H. destruct v; try discriminate. cbn [descend].
  destruct (find _ _) as [[k v]|]; [now apply IH|discriminate].
Qed.

Lemma drop_last_full segments : Forall (fun s => s <> []) segments -> drop_last_empty segments = segments.
Proof.
  induction segments as [|s segments IH]; [reflexivity|]. intros H. apply Forall_cons_iff in H. destruct H as [Hs H]. cbn [drop_last_empty].
  destruct segments as [|[|b s'] segments]; [reflexivity| |now rewrite IH]. apply Forall_cons_iff in H. now destruct H.
Qed.

Lemma valid_segments path : valid_path path -> path_segments path = split_dots path.
Proof. intros [_ H]. unfold path_segments. now apply drop_last_full. Qed.

(** Neither path leads to the other. *)
Fixpoint apart (a b : list bytes) : bool :=
  match a, b with
  | x :: a, y :: b => if key_eqb x y then apart a b else true
  | _, _ => false
  end.

Lemma apart_sym a : forall b, apart a b = apart b a.
Proof.
  induction a as [|x a IH]; intros [|y b]; try reflexivity. cbn [apart]. rewrite IH. destruct (key_eqb x y) eqn:E.
  - apply key_eqb_eq in E as ->. now rewrite key_eqb_refl.
  - replace (key_eqb y x) with false; [reflexivity|]. symmetry. apply key_eqb_neq. apply key_eqb_neq in E. congruence.
Qed.

Section Entries.
Context {E : Type}.
Implicit Types (p : plan E).

Definition entries_apart p (segments : list bytes) : Prop := Forall (fun entry => apart segments (fst entry) = true) p.

Lemma entries_apart_below s segments p : entries_apart p (s :: segments) -> entries_apart (below s p) segments.
Proof.
  intros H. unfold entries_apart in *. rewrite Forall_forall in *. intros [path a] Hin. apply in_flat_map in Hin. destruct Hin as ([path' a'] & Hin & He).
  specialize (H _ Hin). unfold below_entry in He. cbn [fst snd] in *. destruct path' as [|s' rest]; [easy|]. destruct (key_eqb s' s) eqn:Ek; [|easy].
  destruct He as [He|[]]. injection He as <- _. apply key_eqb_eq in Ek as ->. cbn [apart] in H. now rewrite key_eqb_refl in H.
Qed.

Lemma entries_apart_nil p : entries_apart p [] -> p = [].
Proof. destruct p as [|[path a] p]; [reflexivity|]. intros H. apply Forall_inv in H. now destruct path. Qed.

Lemma entries_apart_proper p segments : entries_apart p segments -> proper p.
Proof. apply Forall_impl. intros [path a] H. cbn [fst] in *. intros ->. now destruct segments. Qed.

Lemma sets_last segments : forall p e, entries_apart p segments -> sets (p ++ [(segments, Put e)]) segments e.
Proof.
  induction segments as [|s segments IH]; intros p e H; cbn [sets]; [apply leaf_last|]. split.
  - rewrite leaf_app, (proper_leaf p (entries_apart_proper p _ H)). reflexivity.
  - rewrite below_app. unfold below at 2. cbn [flat_map below_entry fst snd app]. rewrite key_eqb_refl. cbn [app].
    now apply IH, entries_apart_below.
Qed.

Lemma sets_more segments : forall p e q a, sets p segments e -> apart segments q = true -> sets (p ++ [(q, a)]) segments e.
Proof.
  induction segments as [|s segments IH]; intros p e q a H Hq; [discriminate|]. destruct q as [|s' q]; [discriminate|]. destruct H as [Hl H]. split.
  - now rewrite leaf_app, Hl.
  - rewrite below_app. unfold below at 2. cbn [flat_map below_entry fst snd app]. cbn [apart] in Hq. rewrite app_nil_r.
    destruct (key_eqb s' s) eqn:Ek; [|now rewrite app_nil_r]. apply key_eqb_eq in Ek as ->. rewrite key_eqb_refl in Hq. now apply IH.
Qed.

Lemma apart_untouched segments : forall p, entries_apart p segments -> untouched p segments.
Proof.
  induction segments as [|s segments IH]; intros p H; [left; now apply entries_apart_nil|]. right. split.
  - now apply proper_leaf, (entries_apart_proper p (s :: segments)).
  - now apply IH, entries_apart_below.
Qed.
End Entries.

(** ** The tree of a row *)

Section Tree.
Context {BL : BidLib} {LB : LibBson} {LM : LibM} {LD : LibBsonDoc} {Laws : LibBsonDocLaws LD} {OtherArguments : Set} {E : Type}.
Variable writes : @AggregationExpressionData OtherArguments -> E -> Prop.
Variable writes_array : list (@AggregationExpressionData OtherArguments) -> E -> Prop.
Abbreviation Node := (@ProjectionNode OtherArguments).
Abbreviation rep_tree := (tree_represents writes writes_array).

Lemma get_or_add_total {B} field (tree : list Node) (f : option Node -> M (Node * B)) t :
  (forall existing, existing = find (fun child => same_name (field_of child) field) tree -> exists node b, f existing t = Ok ((node, b), t)) ->
  exists tree' b, GetOrAddChildNode field tree f t = Ok ((tree', b), t).
Proof.
  intros H. induction tree as [|child tree IH]; cbn [GetOrAddChildNode find] in *.
  - destruct (H None eq_refl) as (node & b & Hf). unfold bind. rewrite Hf. eexists. eexists. reflexivity.
  - destruct (same_name (field_of child) field).
    + destruct (H (Some child) eq_refl) as (node & b & Hf). unfold bind. rewrite Hf. eexists. eexists. reflexivity.
    + destruct (IH H) as (tree' & b & Hg). unfold bind. rewrite Hg. eexists. eexists. reflexivity.
Qed.

Lemma child_represents field (tree : list Node) (p : plan E) node : plan_ok p -> rep_tree tree p ->
  find (fun child => same_name (field_of child) field) tree = Some node -> field_of node = field /\ represents writes writes_array node (below field p).
Proof.
  intros Hp [Hh Hr] Hf. apply find_some in Hf. destruct Hf as [Hin Hn]. rewrite Forall_forall in Hr. specialize (Hr _ Hin).
  assert (Hnul := plan_ok_heads p Hp). rewrite Hh, Forall_forall in Hnul. specialize (Hnul _ (in_map field_of _ _ Hin)).
  rewrite same_name_key in Hn by exact Hnul. apply key_eqb_eq in Hn. now rewrite <- Hn.
Qed.

(** A path that is apart from those of the tree can be added. *)
Lemma path_fits {B} (marks : B -> bool) blocked (last : bytes -> option Node -> M (Node * B)) t segments :
  (forall field, exists node b, last field None t = Ok ((node, b), t)) ->
  forall (tree : list Node) (p : plan E), segments <> [] -> plan_ok p -> rep_tree tree p -> entries_apart p segments ->
  exists tree' b, TraverseDottedPathAndGetNode segments tree true marks blocked last t = Ok ((tree', b), t).
Proof.
  intros Hlast. induction segments as [|s segments IH]; intros tree p Hne Hp Hr Ha; [easy|].
  destruct segments as [|s' segments].
  - cbn [TraverseDottedPathAndGetNode]. apply get_or_add_total. intros existing Hex.
    destruct existing as [node|]; [|apply Hlast]. symmetry in Hex.
    destruct (child_represents s tree p node Hp Hr Hex) as [_ Hrep]. apply entries_apart_below, entries_apart_nil in Ha. rewrite Ha in Hrep.
    destruct node; cbn [represents] in Hrep; try discriminate; now destruct Hrep as (? & ? & _).
  - change (TraverseDottedPathAndGetNode (s :: s' :: segments) tree true marks blocked last) with
      (GetOrAddChildNode s tree (fun existing =>
        match existing with
        | Some (Intermediate _ flag children) =>
          bind (TraverseDottedPathAndGetNode (s' :: segments) children true marks blocked last) (fun '(children, b) =>
          ret (Intermediate s (flag || true || marks b) children, b))
        | Some leaf => bind (blocked s) (fun b => ret (leaf, b))
        | None =>
          bind (TraverseDottedPathAndGetNode (s' :: segments) [] true marks blocked last) (fun '(children, b) =>
          ret (Intermediate s (true || marks b) children, b))
        end)).
    apply get_or_add_total. intros existing Hex. assert (Hb := entries_apart_below s _ p Ha). assert (Hpb := plan_ok_below s p Hp).
    destruct existing as [node|]; symmetry in Hex.
    + destruct (child_represents s tree p node Hp Hr Hex) as [_ Hrep]. assert (Hl := proper_leaf _ (entries_apart_proper _ _ Hb)).
      destruct node as [f|f|f d|f d|f flag children]; cbn [represents] in Hrep; try congruence; try (destruct Hrep as (e & He & _); congruence).
      change (represents writes writes_array (Intermediate f flag children) (below s p)) in Hrep.
      apply represents_intermediate in Hrep. destruct Hrep as (_ & _ & _ & Hrep).
      destruct (IH children _ ltac:(discriminate) Hpb Hrep Hb) as (children' & b & Hc). unfold bind. rewrite Hc. eexists. eexists. reflexivity.
    + destruct (IH [] [] ltac:(discriminate) ltac:(constructor) (tree_represents_nil _ _) ltac:(constructor)) as (children' & b & Hc).
      unfold bind. rewrite Hc. eexists. eexists. reflexivity.
Qed.

Lemma field_added path v e t (tree : list Node) (p : plan E) : no_nul path -> plan_ok p -> rep_tree tree p ->
  entries_apart p (path_segments path) -> writes (ConstantExpr v) e ->
  exists tree', TraverseDottedPathAndAddLeafFieldNode path v tree t = Ok (tree', t) /\
    rep_tree tree' (p ++ [(path_segments path, Put e)]) /\ plan_ok (p ++ [(path_segments path, Put e)]).
Proof.
  intros Hn Hp Hr Ha Hw. destruct (segments_cons path) as (s & rest & Es).
  destruct (path_fits (fun _ : unit => true) (mismatch path) (set_leaf NodeType_LeafField (ret (ConstantExpr v))) t (path_segments path)
    ltac:(intros field; eexists; eexists; reflexivity) tree p ltac:(rewrite Es; discriminate) Hp Hr Ha) as (tree' & b & Ht).
  exists tree'. unfold TraverseDottedPathAndAddLeafFieldNode, bind. rewrite Ht. split; [reflexivity|]. split.
  - set (ext := [([] : list bytes, Put e)]).
    replace [(path_segments path, Put e)] with (prefixed (path_segments path) ext) by (unfold ext, prefixed; cbn [map fst snd]; now rewrite app_nil_r).
    apply (add_path writes writes_array ext true (fun _ : unit => true) (mismatch path) (set_leaf NodeType_LeafField (ret (ConstantExpr v))) (fun _ => True)
      ltac:(discriminate)) with (3 := Ht); [discriminate| |exact Hp|exact Hr].
    intros field existing node u t3 t4 q Es' Hq _.
    assert (Em : ret (make_leaf NodeType_LeafField field (ConstantExpr v), tt) t3 = Ok ((node, u), t4))
      by (unfold set_leaf in Es'; destruct existing as [[]|]; try discriminate; exact Es').
    injection Em as <- _ _. split; [reflexivity|]. split; [|now split]. cbn [make_leaf represents]. exists e. unfold ext. now rewrite leaf_last.
  - apply plan_ok_app. split; [exact Hp|]. constructor; [|constructor]. now apply segments_no_nul.
Qed.
End Tree.

(** A projection whose expressions have values has a result. *)
Section Total.
Context {E : Type}.
Variable eval : E -> res bson_value.
Hypothesis eval_total : forall e, exists v, eval e = Ok v.
Variables others replace_arrays : bool.

Lemma fields_with_total f keys : (forall key, exists v, f key = Ok v) -> exists fs, fields_with f keys = Ok fs.
Proof.
  intros H. induction keys as [|key keys [fs IH]]; [now exists []|]. cbn [fields_with]. destruct (H key) as [v ->]. cbn [res_bind]. rewrite IH. cbn. eauto.
Qed.

Lemma new_value_total n : forall q : plan E, exists v, new_value eval n q = Ok v.
Proof.
  induction n as [|n IH]; intros q; cbn [new_value]; (destruct (leaf q) as [[| |e]|]; [eauto|eauto|apply eval_total|]); destruct (puts q); eauto.
  destruct (fields_with_total (fun key => new_value eval n (below key q)) (heads q)) as [fs ->]; [intros key; apply IH|cbn; eauto].
Qed.

Lemma added_total d (p : plan E) : exists fs, added eval replace_arrays d p = Ok fs.
Proof. apply fields_with_total. intros key. apply new_value_total. Qed.

Lemma project_field_total nested v (q : plan E) : (exists w, nested v q = Ok w) -> exists w, project_field eval others replace_arrays nested v q = Ok w.
Proof.
  intros H. unfold project_field. destruct (leaf q) as [[| |e]|]; [eauto|eauto|apply eval_total|]. destruct q as [|entry q]; [eauto|].
  destruct (container replace_arrays v); eauto.
Qed.

Lemma project_fields_total nested d (p : plan E) : Forall (fun kv => forall q, exists w, nested (snd kv) q = Ok w) d ->
  exists fs, project_fields eval others replace_arrays nested d p = Ok fs.
Proof.
  induction d as [|[key v] d IH]; intros H; [now exists []|]. apply Forall_cons_iff in H. destruct H as [Hv H]. cbn [project_fields].
  destruct (project_field_total nested v (below key p) (Hv _)) as [w ->]. cbn [res_bind]. destruct (IH H) as [fs ->]. cbn. eauto.
Qed.

Lemma project_items_total nested items (p : plan E) : Forall (fun kv => forall q, exists w, nested (snd kv) q = Ok w) items ->
  exists vs, project_items eval others replace_arrays nested items p = Ok vs.
Proof.
  induction items as [|[key v] items IH]; intros H; [now exists []|]. apply Forall_cons_iff in H. destruct H as [Hv H]. cbn [project_items].
  assert (Hi : exists w, project_item eval others replace_arrays nested v p = Ok w).
  { destruct (added_total [] p) as [fs Hf]. unfold project_item. destruct v; try exact (Hv p); (destruct (puts p); [|eauto]); rewrite Hf; cbn; eauto. }
  destruct Hi as [w ->]. cbn [res_bind]. destruct (IH H) as [vs ->]. cbn. eauto.
Qed.

Lemma project_value_total v : forall p : plan E, exists w, project_value eval others replace_arrays v p = Ok w.
Proof.
  induction v as [d IH|items IH|v Hd Ha] using value_nested_induction; intros p.
  - cbn [project_value]. destruct (project_fields_total _ d p IH) as [fs ->]. cbn [res_bind]. destruct (added_total d p) as [new ->]. cbn. eauto.
  - cbn [project_value]. destruct (project_items_total _ items p IH) as [vs ->]. cbn. eauto.
  - destruct v; try (cbn; eauto); [now elim (Hd d)|now elim (Ha d)].
Qed.

Lemma project_total d (p : plan E) : exists row, project eval others replace_arrays d p = Ok row.
Proof.
  unfold project. destruct (project_fields_total (project_value eval others replace_arrays) d p) as [fs ->].
  { apply Forall_forall. intros kv _ q. apply project_value_total. }
  cbn [res_bind]. destruct (added_total d p) as [new ->]. cbn. eauto.
Qed.
End Total.

(** ** Rows *)

Section Rows.
Context {BL : BidLib} {LB : LibBson} {LM : LibM} {LD : LibBsonDoc} {Laws : LibBsonDocLaws LD} {Find : LibBsonFindLaws LD} {OtherArguments : Set}.
Variable EnableCollation : bool.
Variable EnableNowSystemVariable : bool.
Variable null_string : bson_value.
Variable handle_other : OtherArguments -> fields -> @ExpressionResult OtherArguments -> M (@ExpressionResult OtherArguments).
Variable parse_other : bytes -> bson_value -> ParseContext -> M (bson_value + OtherArguments).

Variables (document : fields) (depth : nat).
Hypothesis document_plain : plain_doc document = true.
Abbreviation self := (evaluator handle_other (S depth)).
Abbreviation constant := (@Ok bson_value).
Abbreviation writes := (data_writes false self document [] constant).
Abbreviation writes_array := (array_writes false self document [] constant).

Lemma constant_written v : plain v = true -> writes (ConstantExpr v) v.
Proof.
  intros Hv path w t. assert (Hc := append_copied v (plain_copied v Hv)).
  assert (Hw : evaluate_to_writer self (ConstantExpr v) document path w [] false t = Ok (w ++ [(path, v)], t)).
  { cbn [evaluator evaluate_to_writer]. destruct v; try discriminate; cbn [evaluate_to_writer_step];
      unfold bind, lift, PgbsonElementWriterWriteValue, PgbsonInitObjectElementWriter, PgbsonWriterAppendValue, append; now rewrite Hc. }
  rewrite Hw. exists v. split; [reflexivity|]. unfold written. now rewrite (plain_not_missing v Hv).
Qed.

(** The path of the array and the path of the index. *)
Definition unwind_plan (path : bytes) (name : option bytes) (index : Z) (element : bson_value) : plan bson_value :=
  (path_segments path, Put element) ::
  match name with Some name => [(path_segments name, Put (if index >? -1 then VInt64 index else VNull))] | None => [] end.

Definition name_ok (path : bytes) (name : option bytes) : Prop :=
  match name with
  | Some name => no_nul name /\ apart (path_segments name) (path_segments path) = true
  | None => True
  end.

Lemma tree_unwound path name index element t : no_nul path -> name_ok path name -> plain element = true ->
  exists tree, unwind_tree (OtherArguments := OtherArguments) path name index element t = Ok (tree, t) /\
    tree_represents writes writes_array tree (unwind_plan path name index element) /\ plan_ok (unwind_plan path name index element).
Proof.
  intros Hn Hname He.
  destruct (field_added writes writes_array path element element t [] [] Hn ltac:(constructor) (tree_represents_nil _ _) ltac:(constructor)
    (constant_written element He)) as (tree & Ht & Hr & Hp). cbn [app] in Hr, Hp.
  unfold unwind_tree, unwind_plan, name_ok in *. set (position := if index >? -1 then VInt64 index else VNull).
  assert (Hpos : plain position = true) by (unfold position; now destruct (index >? -1)).
  assert (Hx : forall k : list (@ProjectionNode OtherArguments) -> M (list (@ProjectionNode OtherArguments)), bind (match element with VEod => ret [] | _ => TraverseDottedPathAndAddLeafFieldNode path element [] end) k t =
    k tree t) by (intros k; unfold bind; destruct element; try discriminate; now rewrite Ht).
  rewrite Hx. destruct name as [name|]; [|now exists tree]. destruct Hname as [Hnn Ha].
  destruct (field_added writes writes_array name position position t tree _ Hnn Hp Hr) as (tree' & Ht' & Hr' & Hp');
    [repeat constructor; exact Ha|now apply constant_written|]. exists tree'. auto.
Qed.

Lemma unwind_row path name index element t : no_nul path -> name_ok path name -> plain element = true ->
  exists row t', BsonUnwindElement handle_other (S depth) document path name index element t = Ok (row, t') /\
    project constant true false document (unwind_plan path name index element) = Ok row.
Proof.
  intros Hn Hname He. destruct (tree_unwound path name index element t Hn Hname He) as (tree & Ht & Hr & Hp).
  unfold BsonUnwindElement, bind. rewrite Ht.
  pose proof (traverse_outcome false self document [] constant true false tree _ document Hp Hr document_plain PgbsonWriterInit t) as O.
  destruct (project_total constant ltac:(eauto) true false document (unwind_plan path name index element)) as [row Hrow]. rewrite Hrow in *. unfold outcome in O.
  destruct (TraverseObjectAndAppendToWriter _ _ _ _ _ _ _ _ t) as [[w t']|e].
  - destruct O as (fs & Hfs & ->). injection Hfs as ->. exists fs, t'. auto.
  - destruct O as [[O _]|O]; discriminate.
Qed.

(** The rows of the elements, with their indexes. *)
Fixpoint row_plans (path : bytes) (name : option bytes) (index : Z) (items : fields) : list (plan bson_value) :=
  match items with
  | [] => []
  | (_, element) :: items => unwind_plan path name index element :: row_plans path name (index + 1) items
  end.

Lemma elements_unwound path name items : no_nul path -> name_ok path name -> plain_doc items = true -> forall index t,
  exists rows t', unwind_elements handle_other (S depth) document path name index items t = Ok (rows, t') /\
    Forall2 (fun p row => project constant true false document p = Ok row) (row_plans path name index items) rows.
Proof.
  intros Hn Hname. induction items as [|[k v] items IH]; intros Hp index t; [now exists [], t|].
  cbn [plain_doc forallb snd] in Hp. apply andb_true_iff in Hp. destruct Hp as [Hv Hp]. cbn [unwind_elements row_plans].
  destruct (unwind_row path name index v t Hn Hname Hv) as (row & t1 & Hrow & Hproj). destruct (IH Hp (index + 1) t1) as (rows & t2 & Hrows & Hall).
  exists (row :: rows), t2. unfold bind. rewrite Hrow, Hrows. split; [reflexivity|]. now constructor.
Qed.

(** ** Values of the rows *)

Lemma plan_apart path name index element segments : apart segments (path_segments path) = true ->
  (forall n, name = Some n -> apart segments (path_segments n) = true) -> entries_apart (unwind_plan path name index element) segments.
Proof. intros Hp Hn. unfold unwind_plan. constructor; [exact Hp|]. destruct name as [n|]; repeat constructor. now apply Hn. Qed.

Lemma element_set path name index element : name_ok path name ->
  sets (unwind_plan path name index element) (path_segments path) element.
Proof.
  intros Hname. assert (H := sets_last (path_segments path) [] element ltac:(constructor)). cbn [app] in H. unfold unwind_plan.
  destruct name as [n|]; [|exact H]. apply (sets_more _ [_] _ (path_segments n)); [exact H|]. rewrite apart_sym. exact (proj2 Hname).
Qed.

Lemma index_set path name index element : name_ok path (Some name) ->
  sets (unwind_plan path (Some name) index element) (path_segments name) (if index >? -1 then VInt64 index else VNull).
Proof. intros Hname. apply (sets_last _ [_]). repeat constructor. exact (proj2 Hname). Qed.

Lemma open_value segments : forall v w, value_at segments v = Some w -> open_at segments v.
Proof.
  induction segments as [|s segments IH]; intros v w H; [exact I|]. cbn [value_at] in H. destruct v; try discriminate. cbn [open_at]. unfold field_value.
  destruct (find _ _) as [[k v]|]; [|discriminate]. now apply (IH v w).
Qed.

Lemma plain_value_at segments : forall v w, plain v = true -> value_at segments v = Some w -> plain w = true.
Proof.
  induction segments as [|s segments IH]; intros v w Hv H; [now injection H as <-|]. destruct v as [| | |l| | | | | | | | | | | | | | | | | |]; try discriminate. rewrite value_at_field in H.
  destruct (field_value s l) as [u|] eqn:Eu; [|discriminate]. apply (IH u w); [|exact H]. exact (plain_field l s u Hv Eu).
Qed.

(** The positions of the elements. *)
Fixpoint positions (index : Z) (items : fields) : list Z :=
  match items with [] => [] | _ :: items => index :: positions (index + 1) items end.

Lemma rows_values path name items : no_nul path -> name_ok path name -> unique_keys (VDocument document) -> plain_doc items = true ->
  open_at (path_segments path) (VDocument document) ->
  (forall n, name = Some n -> open_at (path_segments n) (VDocument document)) ->
  forall index rows, (index >? -1) = true ->
  Forall2 (fun p row => project constant true false document p = Ok row) (row_plans path name index items) rows ->
  map (fun row => value_at (path_segments path) (VDocument row)) rows = map (fun item => Some (snd item)) items /\
  (forall n, name = Some n -> map (fun row => value_at (path_segments n) (VDocument row)) rows =
     map (fun i => Some (VInt64 i)) (positions index items)) /\
  (forall segments, apart segments (path_segments path) = true -> (forall n, name = Some n -> apart segments (path_segments n) = true) ->
     Forall (fun row => value_at segments (VDocument row) = value_at segments (VDocument document)) rows).
Proof.
  intros Hn Hname Hu Hitems Ho Hon. induction items as [|[k v] items IH]; intros index rows Hi H; cbn [row_plans] in H; inversion H; subst; clear H.
  { repeat split; try reflexivity. constructor. }
  cbn [plain_doc forallb snd] in Hitems. apply andb_true_iff in Hitems. destruct Hitems as [Hv Hitems].
  match goal with Hp : project _ _ _ _ _ = Ok ?y |- _ => rename Hp into Hrow; rename y into row end.
  match goal with Hf : Forall2 _ _ ?l |- _ => destruct (IH Hitems (index + 1) l ltac:(rewrite Z.gtb_lt in *; lia) Hf) as (E1 & E2 & E3) end.
  destruct (segments_cons path) as (s0 & r0 & Es).
  split; [|split].
  - cbn [map snd]. rewrite E1. f_equal.
    exact (project_sets constant (path_segments path) document _ row v v Hrow (element_set path name index v Hname)
      ltac:(rewrite Es; discriminate) Hu Ho eq_refl (plain_not_missing v Hv)).
  - intros n ->. cbn [map positions]. rewrite (E2 n eq_refl). f_equal. destruct (segments_cons n) as (s1 & r1 & Es1).
    assert (Hset := index_set path n index v Hname). rewrite Hi in Hset.
    exact (project_sets constant (path_segments n) document _ row _ _ Hrow Hset ltac:(rewrite Es1; discriminate) Hu (Hon n eq_refl) eq_refl eq_refl).
  - intros segments Ha Han. constructor; [|now apply E3].
    apply (project_keeps constant segments document _ row Hrow); [|destruct segments; discriminate|exact Hu|exact document_plain].
    now apply apart_untouched, plan_apart.
Qed.
End Rows.

Section Theorems.
Context {BL : BidLib} {LB : LibBson} {LM : LibM} {LD : LibBsonDoc} {Laws : LibBsonDocLaws LD} {Find : LibBsonFindLaws LD} {OtherArguments : Set}.
Variable EnableCollation : bool.
Variable EnableNowSystemVariable : bool.
Variable null_string : bson_value.
Variable handle_other : OtherArguments -> fields -> @ExpressionResult OtherArguments -> M (@ExpressionResult OtherArguments).
Variable parse_other : bytes -> bson_value -> ParseContext -> M (bson_value + OtherArguments).

Abbreviation at_path path row := (value_at (path_segments path) (VDocument row)).

(** C16: [$unwind] of an array that is not empty and that a path of non-empty names
    reaches through documents, in a document with unique keys and values that libbson
    copies, gives one row per element, in their order: the row has the element at the path
    of the array and its position at the path of the index, and every path apart from these
    two as it was. The path of the index, if there is one, is apart from the path of the
    array and leads through no array of the document. *)
Theorem unwind_array_rows (document : fields) (path : bytes) (name : option bytes) (preserve : bool) (items : fields) (depth : nat) t
  (Hpath : valid_path path) (Hname : name_ok path name)
  (Hdoc : plain_doc document = true) (Hkeys : unique_keys (VDocument document))
  (Harray : at_path path document = Some (VArray items)) (Hitems : items <> [])
  (Hopen : forall n, name = Some n -> open_at (path_segments n) (VDocument document)) :
  exists rows t',
  BsonUnwindArray EnableCollation EnableNowSystemVariable null_string handle_other parse_other (S depth) document
    ("$"%byte :: path) name preserve t = Ok (rows, t') /\
  map (fun row => at_path path row) rows = map (fun item => Some (snd item)) items /\
  (forall n, name = Some n -> map (fun row => at_path n row) rows = map (fun i => Some (VInt64 i)) (positions 0 items)) /\
  (forall segments, apart segments (path_segments path) = true -> (forall n, name = Some n -> apart segments (path_segments n) = true) ->
     Forall (fun row => value_at segments (VDocument row) = value_at segments (VDocument document)) rows).
Proof.
  assert (Hplain : plain_doc items = true) by exact (plain_value_at (path_segments path) (VDocument document) (VArray items) Hdoc Harray).
  destruct (elements_unwound handle_other document depth Hdoc path name items (proj1 Hpath) Hname Hplain 0 t) as (rows & t' & Hrows & Hall).
  exists rows, t'. split.
  - unfold BsonUnwindArray. assert (Hlen : (blen ("$"%byte :: path) <=? 1) = false).
    { destruct path as [|b path]; [destruct Hpath as [_ Hp]; now apply Forall_inv in Hp|]. unfold blen. cbn [List.length]. apply Z.leb_gt. lia. }
    rewrite Hlen. change (negb (byte_eqb (nth 0 ("$"%byte :: path) x00) "$"%byte)) with false. cbn [skipn].
    rewrite (find_path document path Hpath), <- (valid_segments path Hpath), (value_at_descend _ _ _ Harray). now destruct items.
  - exact (rows_values document Hdoc path name items (proj1 Hpath) Hname Hkeys Hplain (open_value _ _ _ Harray) Hopen 0 rows eq_refl Hall).
Qed.
End Theorems.

(** ** [distinct] *)

Section Distinct.
Context {LD : LibBsonDoc} {Laws : LibBsonDocLaws LD}.
Variable SkipBsonArrayTraverseOptimization : bool.

(** A field that is an array counts by its elements only. *)
Definition counts (x : visit) : bool := match x with VisitedField (VArray _) => false | _ => true end.
Definition visited_value (x : visit) : bson_value := match x with VisitedField v | VisitedElement _ v => v end.

Definition distinct_step (x : visit) (state : res (list fields)) : res (list fields) :=
  if counts x then AddToDistinctTupleStore (visited_value x) state else state.

Lemma distinct_fold : VisitFold distinctExecutionFuncs (fun state => state) (fun _ => false) distinct_step.
Proof.
  constructor; try reflexivity.
  - intros [k v] path state _. cbn. unfold DistinctVisitTopLevelField, distinct_step. cbn [snd]. now destruct v.
  - intros [k v] path i state _. now cbn.
Qed.

Lemma lookup_plain d key v : plain_doc d = true -> lookup d key = Some v -> plain v = true.
Proof.
  unfold lookup, plain_doc. rewrite forallb_forall. intros Hd H. destruct (find _ d) as [[k w]|] eqn:Ef; [|discriminate]. injection H as <-.
  apply find_some in Ef. exact (Hd _ (proj1 Ef)).
Qed.

Lemma documents_plain d : plain_doc d = true -> Forall (fun d => plain_doc d = true) (documents d).
Proof.
  unfold plain_doc. rewrite forallb_forall. intros Hd. apply Forall_forall. intros d' Hin. apply in_flat_map in Hin. destruct Hin as ([k v] & Hin & Hv).
  cbn [snd] in Hv. destruct v; try easy. destruct Hv as [<-|[]]. exact (Hd _ Hin).
Qed.

Lemma numbered_plain items : plain_doc items = true -> forall i, Forall (fun x => plain (visited_value x) = true) (numbered i items).
Proof.
  induction items as [|[k v] items IH]; intros H i; [constructor|]. cbn [plain_doc forallb snd] in H. apply andb_true_iff in H. destruct H as [Hv H].
  constructor; [exact Hv|]. now apply IH.
Qed.

Lemma visits_plain skip segs : forall ctx d, plain_doc d = true -> Forall (fun x => plain (visited_value x) = true) (reach skip segs ctx d).
Proof.
  induction segs as [|key [|next rest] IH]; intros ctx d Hd; [constructor| |].
  - cbn [reach]. destruct (lookup d key) as [v|] eqn:E; [|constructor]. assert (Hv := lookup_plain d key v Hd E).
    constructor; [exact Hv|]. destruct v; try constructor. destruct ctx; [constructor|]. now apply numbered_plain.
  - change (reach skip (key :: next :: rest) ctx d) with
      (match lookup d key with
       | Some (VDocument d') => reach skip (next :: rest) false d'
       | Some (VArray items) => (if tries_index skip next then reach skip (next :: rest) true items else []) ++
                                flat_map (reach skip (next :: rest) false) (documents items)
       | _ => [] end).
    destruct (lookup d key) as [v|] eqn:E; [|constructor]. assert (Hv := lookup_plain d key v Hd E). destruct v; try constructor; [now apply IH|].
    apply Forall_app. split; [destruct (tries_index skip next); [now apply IH|constructor]|]. apply Forall_flat_map.
    eapply Forall_impl; [|now apply documents_plain]. intros d' Hd'. now apply IH.
Qed.

Lemma rows_stored visits : Forall (fun x => plain (visited_value x) = true) visits -> forall rows,
  fold_visits (fun _ => false) distinct_step visits (Ok rows) =
  Ok (rows ++ map (fun x => [([], visited_value x)]) (filter counts visits)).
Proof.
  unfold fold_visits. induction 1 as [|x visits Hx _ IH]; intros rows; cbn [fold_left filter map]; [now rewrite app_nil_r|].
  unfold distinct_step at 2. destruct (counts x); [|apply IH].
  unfold AddToDistinctTupleStore, BsonValueToDocumentPgbson, PgbsonWriterAppendValue, append.
  rewrite (append_copied _ (plain_copied _ Hx)). cbn [res_bind PgbsonWriterInit app]. rewrite IH. cbn [map]. now rewrite <- app_assoc.
Qed.

(** the rows of [distinct] are the values that the path leads to, in order, with
    the elements of an array at its end instead of the array. *)
Theorem distinct_unwind_rows (segs : list bytes) (document : fields)
  (Hne : segs <> []) (Hdots : Forall (fun s => ~ In dot s) segs) (Hnul : Forall no_nul segs) (Hdoc : plain_doc document = true) :
  bson_distinct_unwind SkipBsonArrayTraverseOptimization document (join_path segs) =
  Ok (map (fun x => [([], visited_value x)]) (filter counts (reach SkipBsonArrayTraverseOptimization segs false document))).
Proof.
  destruct (TraverseBson_fold (F := distinct_fold) SkipBsonArrayTraverseOptimization segs document (Ok []) Hne Hdots Hnul eq_refl) as (st & E & V).
  unfold bson_distinct_unwind. rewrite E. cbn [res_bind]. rewrite V. now rewrite rows_stored by now apply visits_plain.
Qed.
End Distinct.
