(* ===== verification/UnwindExamples.v ===== *)
(** * [$unwind]: examples *)

From Stdlib Require Import ZArith Lia Bool String List.
From Stdlib Require Import Strings.Byte.
From S2P Require Import Prelude SoftFloat BsonTypes StringView Decimal128 BsonCompare BsonArith Traversal RefBid BsonWriter DollarSets UpdateRef.
From S2P Require Import AggData AggOperators AggEval AggParse AggGet AggMeaning AggTyping AggOutcome AggRows AggExamples.
From S2P Require Import ProjTree Project ProjMeaning ProjPlans ProjLens Unwind UnwindSound.
Import ListNotations.
Local Open Scope Z_scope.

#[local] Existing Instance RefBidLib.
#[local] Existing Instance RefLibBson.
#[local] Existing Instance RefLibBsonDoc.
#[local] Existing Instance RefLibBsonDocLaws.
#[local] Existing Instance RefLibM.

(** The search of the reference instance follows the segments. *)
Lemma found_key s (d : fields) : no_nul s ->
  find (fun kv => StringViewEquals (Some s) (Some (fst kv))) d = find (fun kv => key_eqb s (fst kv)) d.
Proof.
  intros Hs. induction d as [|[k v] d IH]; [reflexivity|]. cbn [find fst]. rewrite IH.
  replace (StringViewEquals (Some s) (Some k)) with (key_eqb s k); [reflexivity|].
  apply eq_iff_eq_true. now rewrite StringViewEquals_iff, key_eqb_eq.
Qed.

Lemma ref_find_descend fuel : forall d path, (List.length path < fuel)%nat -> no_nul path ->
  ref_find fuel d path = descend (split_dots path) (VDocument d).
Proof.
  induction fuel as [|fuel IH]; intros d path Hf Hn; [lia|]. cbn [ref_find]. unfold StringViewFindPrefix. rewrite split_dots_memchr.
  pose proof (memchr_inv path dot) as M. destruct (memchr path dot) as [n|] eqn:En.
  - destruct M as (p & q & -> & <- & Hl). rewrite firstn_app, Nat.sub_diag, firstn_all. cbn [firstn]. rewrite app_nil_r.
    assert (Hnp : no_nul p /\ no_nul q).
    { unfold no_nul in *. rewrite Forall_app in Hn. destruct Hn as [H1 H2]. now inversion H2. }
    replace (Z.of_nat (List.length p) <? blen (p ++ dot :: q)) with true
      by (symmetry; apply Z.ltb_lt; unfold blen; rewrite length_app; cbn [List.length]; lia).
    rewrite (found_key p d (proj1 Hnp)). cbn [descend]. destruct (find _ d) as [[k v]|]; [|reflexivity].
    assert (Hq : skipn (S (List.length p)) (p ++ dot :: q) = q).
    { rewrite skipn_app, skipn_all2 by lia. replace (S (List.length p) - List.length p)%nat with 1%nat by lia. reflexivity. }
    rewrite Hq. rewrite length_app in Hf. cbn [List.length] in Hf.
    destruct v; try (now destruct (split_dots_cons q) as (s & rest & ->)); (rewrite IH; [|lia|exact (proj2 Hnp)]); [reflexivity|].
    now destruct (split_dots_cons q) as (s & rest & ->).
  - rewrite (found_key path d Hn). cbn [descend]. now destruct (find _ d) as [[k v]|].
Qed.

#[local] Instance RefLibBsonFindLaws : LibBsonFindLaws RefLibBsonDoc.
Proof. constructor. intros d path [Hn _]. cbn [bson_iter_find_descendant RefLibBsonDoc]. apply ref_find_descend; [lia|exact Hn]. Qed.

Local Open Scope string_scope.

Definition unwound (document : fields) (path : string) (name : option string) (preserve : bool) : res (list fields) :=
  result_of (BsonUnwindArray false true VEod no_handler no_parser 20 document (str path) (option_map str name) preserve no_tables).

Definition order : fields :=
  fields_of [("_id", VInt32 1); ("c", document_of [("items", list_of [string_of "x"; document_of [("n", VInt32 2)]]); ("d", VNull)])].

Example unwind_order : unwound order "$c.items" (Some "i") false =
  Ok [fields_of [("_id", VInt32 1); ("c", document_of [("items", string_of "x"); ("d", VNull)]); ("i", VInt64 0)];
      fields_of [("_id", VInt32 1); ("c", document_of [("items", document_of [("n", VInt32 2)]); ("d", VNull)]); ("i", VInt64 1)]].
Proof. vm_compute. reflexivity. Qed.

Example unwind_not_array : unwound order "$_id" None false = Ok [order] /\ unwound order "$c.d" None false = Ok [] /\
  unwound order "$e" (Some "i") true = Ok [(order ++ [(str "i", VNull)])%list] /\ unwound order "c" None false = Err ERRCODE_INVALID_PARAMETER_VALUE.
Proof. repeat split; vm_compute; reflexivity. Qed.

Example unwind_empty : unwound (fields_of [("a", VInt32 1); ("b", list_of [])]) "$b" (Some "i") true = Ok [fields_of [("a", VInt32 1); ("i", VNull)]].
Proof. vm_compute. reflexivity. Qed.

Lemma unwind_array_rows_witness :
  exists rows t',
  BsonUnwindArray false true VEod no_handler no_parser 1 order (str "$c.items") (Some (str "i")) false no_tables = Ok (rows, t') /\
  map (fun row => value_at (path_segments (str "c.items")) (VDocument row)) rows = [Some (string_of "x"); Some (document_of [("n", VInt32 2)])] /\
  (forall n, Some (str "i") = Some n -> map (fun row => value_at (path_segments n) (VDocument row)) rows = [Some (VInt64 0); Some (VInt64 1)]) /\
  (forall segments, apart segments (path_segments (str "c.items")) = true ->
     (forall n, Some (str "i") = Some n -> apart segments (path_segments n) = true) ->
     Forall (fun row => value_at segments (VDocument row) = value_at segments (VDocument order)) rows).
Proof.
  apply (unwind_array_rows false true VEod no_handler no_parser order (str "c.items") (Some (str "i")) false
    (array_of [string_of "x"; document_of [("n", VInt32 2)]]) 0 no_tables).
  - split; [now apply no_nulb_ok|]. repeat constructor; discriminate.
  - split; [now apply no_nulb_ok|]. vm_compute. reflexivity.
  - vm_compute. reflexivity.
  - apply unique_document. split; [repeat constructor; cbn; intuition discriminate|]. repeat constructor; cbn; intuition discriminate.
  - vm_compute. reflexivity.
  - discriminate.
  - intros n H. injection H as <-. vm_compute. exact I.
Defined.

Lemma distinct_unwind_rows_witness :
  bson_distinct_unwind false (fields_of [("a", list_of [document_of [("b", list_of [VInt32 1; VInt32 2])]; document_of [("b", VInt32 1)]])])
    (join_path [str "a"; str "b"]) = Ok [[([], VInt32 1)]; [([], VInt32 2)]; [([], VInt32 1)]].
Proof.
  exact (distinct_unwind_rows false [str "a"; str "b"]
    (fields_of [("a", list_of [document_of [("b", list_of [VInt32 1; VInt32 2])]; document_of [("b", VInt32 1)]])])
    ltac:(discriminate) ltac:(repeat constructor; cbn; intuition discriminate) (Forall_cons _ (no_nulb_ok (str "a") eq_refl) (Forall_cons _ (no_nulb_ok (str "b") eq_refl) (Forall_nil _))) eq_refl).
Defined.

(** ** Where the code departs from what it means to do *)

(** An array that is an element of another is found by its index; the elements are then
    written to a field of that name of every element. *)
Example unwind_by_index : unwound (fields_of [("a", list_of [list_of [VInt32 1; VInt32 2]; VInt32 3])]) "$a.0" None false =
  Ok [fields_of [("a", list_of [list_of [document_of [("0", VInt32 1)]; document_of [("0", VInt32 1)]]; document_of [("0", VInt32 1)]])];
      fields_of [("a", list_of [list_of [document_of [("0", VInt32 2)]; document_of [("0", VInt32 2)]]; document_of [("0", VInt32 2)]])]].
Proof. vm_compute. reflexivity. Qed.

(** An array that is reached by an index is neither a value nor expanded. *)
Example distinct_by_index :
  bson_distinct_unwind false (fields_of [("a", list_of [list_of [VInt32 1; VInt32 2]])]) (str "a.0") = Ok [].
Proof. vm_compute. reflexivity. Qed.
