(* ===== verification/ProjectStages.v ===== *)
(** * Stages next to the projections ([aggregation/bson_project.c])

    [$replaceRoot], [$redact], the size check of [$facet], and the two functions of
    [$lookup]: the filter that finds the documents that match a document, and the
    document with the array of the matches. *)

From Stdlib Require Import ZArith Lia Bool String List.
From Stdlib Require Import Strings.Byte.
From S2P Require Import Prelude SoftFloat BsonTypes StringView Decimal128 BsonCompare Traversal PgbsonElement BsonWire BsonWriter DollarSets.
From S2P Require Import AggData AggOperators AggEval AggParse AggGet ProjTree Project Unwind.
Import ListNotations.
Local Open Scope Z_scope.

Definition BSON_MAX_ALLOWED_SIZE : Z := 16 * 1024 * 1024.

Section Stages.
Context {BL : BidLib} {LB : LibBson} {LM : LibM} {LD : LibBsonDoc} {OtherArguments : Set}.
Variable EnableCollation : bool.
Variable EnableNowSystemVariable : bool.
Variable null_string : bson_value.
Variable handle_other : OtherArguments -> fields -> @ExpressionResult OtherArguments -> M (@ExpressionResult OtherArguments).
Variable parse_other : bytes -> bson_value -> ParseContext -> M (bson_value + OtherArguments).
Variable depth : nat.
Local Open Scope agg_scope.

Abbreviation Data := (@AggregationExpressionData OtherArguments).
Abbreviation Variables := (@ExpressionVariableContext OtherArguments).
Abbreviation parse_data := (ParseAggregationExpressionData EnableCollation null_string handle_other parse_other depth).
Abbreviation self := (evaluator handle_other depth).

Record BsonReplaceRootRedactState : Set := { stageExpression : Data; stageVariables : Variables }.

Definition stage_context (variableSpec : option fields) (collation : option bytes) (redact : bool) : ParseContext :=
  {| disallowPaths := false;
     nowValue := GetTimeSystemVariablesFromVariableSpec EnableNowSystemVariable variableSpec VEod;
     allowRedactVariables := redact;
     collationString := if IsCollationApplicable EnableCollation collation then collation else None |}.

(** The SQL functions pass the collation only when collations are enabled. *)
Definition sql_collation (collation : option bytes) : option bytes := if EnableCollation then collation else None.

(** ** [$replaceRoot] *)

Definition missing_value (v : bson_value) : bool := match v with VEod => true | _ => false end.

(** With [forceProjectId] the [_id] of the document is written first; a different [_id]
    in the new root is refused. *)
Definition ProjectReplaceRootDocument (document : fields) (replaceRootExpression : Data) (variableContext : Variables)
  (forceProjectId : bool) : M fields :=
  let idValue := if forceProjectId
                 then match bson_iter_find_descendant document (str "_id") with Some v => v | None => VEod end
                 else VEod in
  let! writer := if missing_value idValue then ret PgbsonWriterInit
                 else lift (PgbsonWriterAppendValue PgbsonWriterInit (str "_id") idValue) in
  let! valueWriter := evaluate_to_writer self replaceRootExpression document [] PgbsonWriterInit variableContext false in
  match valueWriter with
  | [] => raise ERRCODE_DOCUMENTDB_LOCATION40228
  | [(_, VDocument newRoot)] =>
    let! same := match lookup newRoot (str "_id") with
                 | Some v => if forceProjectId && negb (missing_value idValue)
                             then lift (BsonValueEqualsStrict (Some idValue) (Some v)) else ret true
                 | None => ret true
                 end in
    if same then ret (writer ++ newRoot) else raise ERRCODE_INVALID_TEXT_REPRESENTATION
  | [_] => raise ERRCODE_DOCUMENTDB_LOCATION40228
  | _ => raise ERRCODE_INTERNAL_ERROR
  end.

Fixpoint new_root (spec : fields) (value : option bson_value) : res bson_value :=
  match spec with
  | [] => match value with Some v => Ok v | None => Err ERRCODE_DOCUMENTDB_LOCATION40414 end
  | (path, v) :: spec =>
    if strcmp path (str "newRoot") =? 0 then new_root spec (Some v) else Err ERRCODE_DOCUMENTDB_UNKNOWNBSONFIELD
  end.

Definition GetBsonValueForReplaceRoot (replaceRootIterator : fields) : res bson_value := new_root replaceRootIterator None.

Definition PopulateReplaceRootExpressionDataFromSpec (pathSpec : fields) (variableSpec : option fields) (collation : option bytes)
  : M BsonReplaceRootRedactState :=
  let! value := lift (GetBsonValueForReplaceRoot pathSpec) in
  let! data := parse_data value (stage_context variableSpec collation false) in
  let! variables := SetVariableSpec EnableCollation null_string handle_other parse_other depth variableSpec in
  ret {| stageExpression := data; stageVariables := variables |}.

Definition bson_dollar_replace_root (document pathSpec : fields) (variableSpec : option fields) (collation : option bytes)
  : M fields :=
  let! state := PopulateReplaceRootExpressionDataFromSpec pathSpec variableSpec (sql_collation collation) in
  ProjectReplaceRootDocument document (stageExpression state) (stageVariables state) false.

(** ** [$redact] *)

Definition BuildRedactState (redactValue : bson_value) (variableSpec : option fields) (collation : option bytes)
  : M BsonReplaceRootRedactState :=
  let! data := parse_data redactValue (stage_context variableSpec collation true) in
  let! variables := SetVariableSpec EnableCollation null_string handle_other parse_other depth variableSpec in
  ret {| stageExpression := data; stageVariables := variables |}.

Variable state : BsonReplaceRootRedactState.

Definition redact_context : ParseContext :=
  {| disallowPaths := false; nowValue := VEod; allowRedactVariables := true; collationString := None |}.

Inductive redaction : Set := Kept | Pruned | Descended.

Definition redaction_of (data : Data) : option redaction :=
  match data with
  | SystemVariableExpr Keep _ => Some Kept
  | SystemVariableExpr Prune _ => Some Pruned
  | SystemVariableExpr Descend _ => Some Descended
  | _ => None
  end.

(** The value of the expression is a string such as ["$$KEEP"], which is parsed again. *)
Definition evaluate_redaction (document : fields) : M redaction :=
  let! evaluatedResult := evaluate_to_writer self (stageExpression state) document [] PgbsonWriterInit (stageVariables state) false in
  let! element := lift (BsonIterToSinglePgbsonElement EnableCollation evaluatedResult) in
  let! parsedValue := parse_data (snd element) redact_context in
  match redaction_of parsedValue with
  | Some r => ret r
  | None => raise ERRCODE_DOCUMENTDB_LOCATION17053
  end.

Section Nested.
(** What the stage makes of a nested document (with whether it is pruned) and array. *)
Variable redact_object : bson_value -> M (bool * fields).
Variable redact_array : bson_value -> M pgbson_array_writer.

Fixpoint redact_fields (docIter : fields) (w : pgbson_writer) : M pgbson_writer :=
  match docIter with
  | [] => ret w
  | (key, v) :: docIter =>
    let! w :=
      match v with
      | VDocument _ =>
        let! '(shouldPrune, subDocument) := redact_object v in
        ret (if shouldPrune then w else PgbsonWriterEndDocument w key subDocument)
      | VArray _ => let! arrayWriter := redact_array v in ret (PgbsonWriterEndArray w key arrayWriter)
      | _ => lift (PgbsonWriterAppendValue w key v)
      end in
    redact_fields docIter w
  end.

Fixpoint redact_items (arrayIter : fields) (arrayWriter : pgbson_array_writer) : M pgbson_array_writer :=
  match arrayIter with
  | [] => ret arrayWriter
  | (_, v) :: arrayIter =>
    let! arrayWriter :=
      match v with
      | VDocument _ =>
        let! '(shouldPrune, nestedDocument) := redact_object v in
        ret (if shouldPrune then arrayWriter else PgbsonArrayWriterEndDocument arrayWriter nestedDocument)
      | VArray _ => let! childWriter := redact_array v in ret (PgbsonArrayWriterEndArray arrayWriter childWriter)
      | _ => lift (PgbsonArrayWriterWriteValue arrayWriter v)
      end in
    redact_items arrayIter arrayWriter
  end.

(** The case for [$$PRUNE] runs into the one for [$$DESCEND]. *)
Definition redact_document (document : fields) : M (bool * fields) :=
  match stageExpression state with
  | SystemVariableExpr kind _ =>
    match kind with
    | Keep | Descend => ret (false, document)
    | Prune => ret (true, [])
    | _ => raise ERRCODE_DOCUMENTDB_LOCATION17053
    end
  | _ =>
    let! r := evaluate_redaction document in
    match r with
    | Kept => ret (false, document)
    | Pruned => let! writer := redact_fields document PgbsonWriterInit in ret (true, writer)
    | Descended => let! writer := redact_fields document PgbsonWriterInit in ret (false, writer)
    end
  end.
End Nested.

Fixpoint redact_object (v : bson_value) : M (bool * fields) :=
  match v with
  | VDocument d => redact_document redact_object redact_array d
  | _ => ret (false, [])
  end
with redact_array (v : bson_value) : M pgbson_array_writer :=
  match v with
  | VArray d => redact_items redact_object redact_array d (ArrayWriter [] 0)
  | _ => ret (ArrayWriter [] 0)
  end.

Definition EvaluateRedactDocument (document : fields) : M (bool * fields) := redact_document redact_object redact_array document.
End Stages.

Section Functions.
Context {BL : BidLib} {LB : LibBson} {LM : LibM} {LD : LibBsonDoc} {OtherArguments : Set}.
Variable EnableCollation : bool.
Variable EnableNowSystemVariable : bool.
Variable null_string : bson_value.
Variable handle_other : OtherArguments -> fields -> @ExpressionResult OtherArguments -> M (@ExpressionResult OtherArguments).
Variable parse_other : bytes -> bson_value -> ParseContext -> M (bson_value + OtherArguments).
Variable depth : nat.
Local Open Scope agg_scope.

(** A pruned document is SQL's [NULL].  An expression that is a string is passed as text,
    with an empty document. *)
Definition bson_dollar_redact (document redactSpec : fields) (redactSpecText : bytes) (variableSpec : option fields)
  (collation : option bytes) : M (option fields) :=
  let redactValue := match redactSpec, redactSpecText with [], _ :: _ => VUtf8 redactSpecText | _, _ => VDocument redactSpec end in
  let variableSpec := match variableSpec with None => [] | Some spec => spec end in
  let! state := BuildRedactState EnableCollation EnableNowSystemVariable null_string handle_other parse_other depth
                  redactValue (Some variableSpec) (sql_collation EnableCollation collation) in
  let! '(shouldPrune, result) :=
    EvaluateRedactDocument EnableCollation null_string handle_other parse_other depth state document in
  ret (if shouldPrune then None else Some result).

(** ** [$facet] *)

Definition bson_dollar_facet_project (document : fields) (validateDocumentSize : bool) : res fields :=
  if validateDocumentSize && (doc_size document >? BSON_MAX_ALLOWED_SIZE) then Err ERRCODE_DOCUMENTDB_BSONOBJECTTOOLARGE
  else Ok document.

(** ** [$lookup] *)

Definition BsonLookUpProject (sourceDocument : fields) (matchedDocuments : list fields) (matchedDocsFieldName : bytes) : M fields :=
  let! tree := TraverseDottedPathAndAddLeafArrayNode (OtherArguments := OtherArguments) matchedDocsFieldName (map VDocument matchedDocuments) [] in
  TraverseObjectAndAppendToWriter (evaluator handle_other depth) sourceDocument [] true false sourceDocument tree PgbsonWriterInit.

Definition bson_dollar_lookup_project (document : fields) (matched : list fields) (matchedDocsFieldName : bytes) : M fields :=
  BsonLookUpProject document matched matchedDocsFieldName.
End Functions.

Section Filter.
Context {LB : LibBson} {LD : LibBsonDoc}.
Variable EnableCollation : bool.
Local Open Scope res_scope.

(** [memchr] on a C string, of which the terminator is the last byte that may be read. *)
Definition memchr_within (s : bytes) (c : byte) (n : Z) : res (option nat) :=
  match memchr s c with
  | Some i => Ok (if Z.of_nat i <? n then Some i else None)
  | None => if n <=? blen s + 1 then Ok None else Err READ_BEYOND_BUFFER
  end.

Fixpoint write_values (arrayWriter : pgbson_array_writer) (items : fields) : res pgbson_array_writer :=
  match items with
  | [] => Ok arrayWriter
  | (_, v) :: items => let* arrayWriter := PgbsonArrayWriterWriteValue arrayWriter v in write_values arrayWriter items
  end.

(** The elements of an array on the way: all of them, or the one with [arrayIndex] when
    it is not negative. *)
Section Elements.
Variable nested : pgbson_array_writer -> fields -> res (pgbson_array_writer * bool).
Variable pathLength : Z.

Definition lookup_element (arrayWriter : pgbson_array_writer) (v : bson_value) (writtenSomething : bool)
  : res (pgbson_array_writer * bool) :=
  let nested_in d := let* '(arrayWriter, b) := nested arrayWriter d in Ok (arrayWriter, b || writtenSomething) in
  let other := if pathLength =? 0
               then let* arrayWriter := PgbsonArrayWriterWriteValue arrayWriter v in Ok (arrayWriter, true)
               else Ok (arrayWriter, writtenSomething) in
  match v with
  | VDocument d | VArray d => if pathLength >? 0 then nested_in d else other
  | _ => other
  end.

Fixpoint lookup_elements (arrayIndex : Z) (items : fields) (currentIndex : Z) (arrayWriter : pgbson_array_writer)
  (writtenSomething : bool) : res (pgbson_array_writer * bool) :=
  match items with
  | [] => Ok (arrayWriter, writtenSomething)
  | (_, v) :: items =>
    if (arrayIndex >? -1) && negb (currentIndex =? arrayIndex)
    then lookup_elements arrayIndex items (wrap_s 32 (currentIndex + 1)) arrayWriter writtenSomething
    else
      let* '(arrayWriter, writtenSomething) := lookup_element arrayWriter v writtenSomething in
      if arrayIndex >? -1 then Ok (arrayWriter, writtenSomething)
      else lookup_elements arrayIndex items currentIndex arrayWriter writtenSomething
  end.
End Elements.

(** [pathLength] is computed from a path that was advanced before: behind an array index
    it is the length of the path with the index.  The fuel bounds the segments. *)
Fixpoint TraverseDocumentAndWriteLookupIndexCondition (fuel : nat) (arrayWriter : pgbson_array_writer) (document : fields)
  (path : bytes) (pathLength : Z) : res (pgbson_array_writer * bool) :=
  match fuel with
  | O => Err ASSERTION_FAILED
  | S fuel =>
    let* leftSubstring := memchr_within path dot pathLength in
    match leftSubstring with
    | None =>
      match lookup document path with
      | Some (VArray items) =>
        let* arrayWriter := write_values arrayWriter items in
        Ok (arrayWriter, negb (match items with [] => true | _ => false end))
      | Some v => let* arrayWriter := PgbsonArrayWriterWriteValue arrayWriter v in Ok (arrayWriter, true)
      | None => Ok (arrayWriter, false)
      end
    | Some subFieldLength =>
      match lookup document (firstn subFieldLength path) with
      | Some v =>
        let path := skipn (S subFieldLength) path in
        let pathLength := pathLength - Z.of_nat subFieldLength - 1 in
        match v with
        | VDocument d => TraverseDocumentAndWriteLookupIndexCondition fuel arrayWriter d path pathLength
        | VArray items =>
          let* arrayIndexSubstring := memchr_within path dot pathLength in
          let segment := match arrayIndexSubstring with Some i => firstn i path | None => path end in
          let arrayIndex := StringViewToPositiveInteger (Some segment) in
          let next := if arrayIndex >? -1
                      then match arrayIndexSubstring with
                           | Some i => (skipn (S i) path, pathLength)
                           | None => ([], 0)
                           end
                      else (path, pathLength) in
          lookup_elements (fun arrayWriter d => TraverseDocumentAndWriteLookupIndexCondition fuel arrayWriter d (fst next) (snd next))
            (snd next) arrayIndex items 0 arrayWriter false
        | _ => Ok (arrayWriter, false)
        end
      | None => Ok (arrayWriter, false)
      end
    end
  end.

Definition BsonLookUpGetFilterExpression (sourceDocument : fields) (lookupSpecElement : bytes * bson_value) (collation : option bytes)
  : res fields :=
  match snd lookupSpecElement with
  | VUtf8 path =>
    if (blen path >? 0) && byte_eqb (nth 0 path x00) "$"%byte then Err ERRCODE_DOCUMENTDB_BADVALUE
    else
      let path := IndexTerm.until_nul path in
      let* '(arrayWriter, written) :=
        TraverseDocumentAndWriteLookupIndexCondition (S (List.length path)) (ArrayWriter [] 0) sourceDocument path (blen path) in
      let* arrayWriter := if written then Ok arrayWriter else PgbsonArrayWriterWriteNull arrayWriter in
      let writer := PgbsonWriterEndArray PgbsonWriterInit (fst lookupSpecElement) arrayWriter in
      match collation with
      | Some c => if IsCollationApplicable EnableCollation collation then PgbsonWriterAppendValue writer (str "collation") (VUtf8 c) else Ok writer
      | None => Ok writer
      end
  | _ => Err ERRCODE_DOCUMENTDB_BADVALUE
  end.

Definition bson_dollar_lookup_extract_filter_expression (document filterExpressionSpec : fields) : res fields :=
  let* '(element, collation) := PgbsonToSinglePgbsonElementWithCollation filterExpressionSpec in
  BsonLookUpGetFilterExpression document element collation.

Fixpoint value_documents (items : fields) : res (list fields) :=
  match items with
  | [] => Ok []
  | (_, v) :: items =>
    let* d := BsonValueToDocumentPgbson v in
    let* rest := value_documents items in
    Ok (d :: rest)
  end.

Definition bson_dollar_lookup_extract_filter_array (document filterExpressionSpec : fields) : res (list fields) :=
  let* '(element, collation) := PgbsonToSinglePgbsonElementWithCollation filterExpressionSpec in
  let* result := BsonLookUpGetFilterExpression document element collation in
  let* '(_, v) := BsonIterToSinglePgbsonElement EnableCollation result in
  match v with
  | VArray items | VDocument items => value_documents items
  | _ => Err ASSERTION_FAILED
  end.
End Filter.
