(* ===== verification/StagesSound.v ===== *)
(** * Stages: theorems

    [$replaceRoot] gives the document that its expression has; the filter of [$lookup] has
    the values that [distinct] finds; the matches of [$lookup] are put at their path; and
    [$redact] drops the documents for which its expression says so. *)

From Stdlib Require Import ZArith Lia Bool String List.
From Stdlib Require Import Strings.Byte.
From S2P Require Import Prelude SoftFloat BsonTypes StringView Decimal128 BsonCompare BsonArith Traversal RefBid PgbsonElement BsonWriter DollarSets UpdateRef IndexTerm.
From S2P Require Import AggData AggOperators AggEval AggParse AggGet AggMeaning AggTyping AggOutcome AggHandlers AggTrees AggSound AggRows.
From S2P Require Import ProjTree Project ProjMeaning ProjPlans ProjApply ProjBuild ProjSound ProjLens Unwind UnwindSound ProjectStages.
Import ListNotations.
Local Open Scope Z_scope.

(** ** The filter of [$lookup] *)

Section Filter.
Context {LB : LibBson} {LD : LibBsonDoc} {Laws : LibBsonDocLaws LD}.
Variable EnableCollation : bool.

(** The values that a path leads to, with the elements of an array at its end. *)
Definition path_values (segs : list bytes) (d : fields) : list bson_value :=
  map visited_value (filter counts (reach false segs false d)).

Definition name_segment (s : bytes) : Prop := s <> [] /\ ~ In dot s /\ no_nul s /\ starts_with_digit s = false.

Lemma not_an_index s : starts_with_digit s = false -> StringViewToPositiveInteger (Some s) = -1.
Proof.
  destruct s as [|c s]; [reflexivity|]. unfold starts_with_digit, tries_index. cbn [orb StringViewToPositiveInteger to_positive_integer_loop].
  intros H. apply andb_false_iff in H. destruct (byte_z c <? 48) eqn:E1; [reflexivity|]. destruct (byte_z c >? 57) eqn:E2; [reflexivity|].
  exfalso. rewrite Z.ltb_ge in E1. rewrite Z.gtb_ltb, Z.ltb_ge in E2. rewrite Z.geb_leb, !Z.leb_gt in H. lia.
Qed.

Lemma memchr_end s rest : ~ In dot s -> memchr (s ++ dot :: rest) dot = Some (List.length s).
Proof.
  induction s as [|c s IH]; intros H; [reflexivity|]. cbn [app memchr]. destruct (byte_eqb c dot) eqn:E.
  - elim H. left. apply byte_z_inj. now apply Z.eqb_eq.
  - rewrite IH; [reflexivity|]. intros Hin. apply H. now right.
Qed.

Lemma memchr_none s : ~ In dot s -> memchr s dot = None.
Proof.
  pose proof (memchr_inv s dot) as M. destruct (memchr s dot) as [n|]; [|reflexivity]. intros H. destruct M as (p & q & -> & _). elim H.
  apply in_or_app. right. now left.
Qed.

Lemma values_written vs items : plain_doc items = true -> write_values (array_written vs) items = Ok (array_written (vs ++ map snd items)).
Proof.
  revert vs. induction items as [|[k v] items IH]; intros vs H; cbn [write_values map snd]; [now rewrite app_nil_r|].
  cbn [plain_doc forallb snd] in H. apply andb_true_iff in H. destruct H as [Hv H]. rewrite (array_write vs v Hv). cbn [res_bind].
  rewrite (IH _ H). now rewrite <- app_assoc.
Qed.

Lemma numbered_counts items : forall i, map visited_value (filter counts (numbered i items)) = map snd items.
Proof. induction items as [|[k v] items IH]; intros i; [reflexivity|]. cbn [numbered filter counts map visited_value snd]. now rewrite IH. Qed.

Lemma indexed_lookup items s : fields_all (fun k v => starts_with_digit k = true /\ arrays_indexed v) items -> starts_with_digit s = false ->
  lookup items s = None.
Proof. intros H Hs. destruct (lookup items s) as [v|] eqn:E; [|reflexivity]. apply (lookup_fields_all _ _ _ _ H) in E. destruct E. congruence. Qed.

Definition nonempty {A} (l : list A) : bool := match l with [] => false | _ => true end.
Lemma nonempty_app {A} (l r : list A) : nonempty (l ++ r) = nonempty l || nonempty r.
Proof. now destruct l. Qed.

(** The elements of an array on the way, when the next segment is no index. *)
Lemma elements_found nested (f : fields -> list bson_value) pathLength items :
  pathLength > 0 -> plain_doc items = true -> fields_all (fun k v => starts_with_digit k = true /\ arrays_indexed v) items ->
  (forall vs d, plain_doc d = true -> fields_all (fun _ v => arrays_indexed v) d ->
     nested (array_written vs) d = Ok (array_written (vs ++ f d), nonempty (f d))) ->
  (forall vs d, fields_all (fun k v => starts_with_digit k = true /\ arrays_indexed v) d -> nested (array_written vs) d = Ok (array_written vs, false)) ->
  forall vs b, lookup_elements nested pathLength (-1) items 0 (array_written vs) b =
    Ok (array_written (vs ++ flat_map f (documents items)), nonempty (flat_map f (documents items)) || b).
Proof.
  intros Hl Hp Ha Hn He. induction items as [|[k v] items IH]; intros vs b.
  { cbn. now rewrite app_nil_r. }
  cbn [plain_doc forallb snd] in Hp. apply andb_true_iff in Hp. destruct Hp as [Hv Hp]. destruct Ha as [[_ Hav] Ha].
  cbn [lookup_elements]. change (-1 >? -1) with false. cbn [andb].
  assert (Hz : (pathLength =? 0) = false) by (apply Z.eqb_neq; lia). assert (Hg : (pathLength >? 0) = true) by (apply Z.gtb_lt; lia).
  unfold documents. cbn [flat_map snd]. fold (documents items).
  destruct v as [| | |d|d| | | | | | | | | | | | | | | | |]; unfold lookup_element; rewrite ?Hz, ?Hg; cbn [res_bind app];
    try (exact (IH Hp Ha vs b)).
  - rewrite (Hn vs d Hv Hav). cbn [res_bind]. rewrite (IH Hp Ha). cbn [flat_map]. rewrite nonempty_app, <- app_assoc.
    now rewrite orb_assoc, (orb_comm (nonempty (flat_map f (documents items)))).
  - rewrite (He vs d Hav). cbn [res_bind orb]. exact (IH Hp Ha vs b).
Qed.

Lemma join_nonempty s rest : s <> [] -> blen (join_path (s :: rest)) > 0.
Proof. intros H. destruct rest as [|s' rest]; [|cbn [join_path]; unfold blen; rewrite length_app; cbn [List.length]; lia]. destruct s; [easy|]. unfold blen. cbn. lia. Qed.

Lemma within_last s : ~ In dot s -> memchr_within s dot (blen s) = Ok None.
Proof. intros H. unfold memchr_within. rewrite (memchr_none s H). now replace (blen s <=? blen s + 1) with true by (symmetry; apply Z.leb_le; lia). Qed.

Lemma within_first s rest : ~ In dot s -> memchr_within (s ++ dot :: rest) dot (blen (s ++ dot :: rest)) = Ok (Some (List.length s)).
Proof.
  intros H. unfold memchr_within. rewrite (memchr_end s rest H).
  replace (Z.of_nat (List.length s) <? blen (s ++ dot :: rest)) with true; [reflexivity|]. symmetry. apply Z.ltb_lt.
  unfold blen. rewrite length_app. cbn [List.length]. lia.
Qed.

Lemma skip_first s (rest : bytes) : skipn (S (List.length s)) (s ++ dot :: rest) = rest.
Proof. rewrite skipn_app, skipn_all2 by lia. now replace (S (List.length s) - List.length s)%nat with 1%nat by lia. Qed.

Lemma keep_first s (rest : bytes) : firstn (List.length s) (s ++ dot :: rest) = s.
Proof. rewrite firstn_app, Nat.sub_diag, firstn_all. apply app_nil_r. Qed.

Lemma rest_length s (rest : bytes) : blen (s ++ dot :: rest) - Z.of_nat (List.length s) - 1 = blen rest.
Proof. unfold blen. rewrite length_app. cbn [List.length]. lia. Qed.

Lemma until_nul_id s : no_nul s -> until_nul s = s.
Proof. induction 1 as [|b s Hb _ IH]; [reflexivity|]. cbn [until_nul]. apply Z.eqb_neq in Hb. now rewrite Hb, IH. Qed.

Lemma join_no_nul segs : Forall no_nul segs -> no_nul (join_path segs).
Proof.
  induction 1 as [|s segs Hs _ IH]; [constructor|]. destruct segs as [|s' segs]; [exact Hs|].
  change (join_path (s :: s' :: segs)) with (s ++ dot :: join_path (s' :: segs)). apply Forall_app. split; [exact Hs|]. constructor; [discriminate|exact IH].
Qed.

Abbreviation traverse := TraverseDocumentAndWriteLookupIndexCondition.

(** The elements of an array have no field with the name. *)
Lemma array_not_found segs fuel w d : segs <> [] -> Forall name_segment segs ->
  fields_all (fun k v => starts_with_digit k = true /\ arrays_indexed v) d ->
  traverse (S fuel) w d (join_path segs) (blen (join_path segs)) = Ok (w, false).
Proof.
  intros Hne Hs Hd. destruct segs as [|s [|next rest]]; [easy| |]; apply Forall_inv in Hs; destruct Hs as (_ & Hdot & _ & Hdigit);
    cbn [TraverseDocumentAndWriteLookupIndexCondition].
  - cbn [join_path]. rewrite (within_last s Hdot). cbn [res_bind]. now rewrite (indexed_lookup d s Hd Hdigit).
  - change (join_path (s :: next :: rest)) with (s ++ dot :: join_path (next :: rest)). rewrite (within_first s _ Hdot). cbn [res_bind].
    now rewrite keep_first, (indexed_lookup d s Hd Hdigit).
Qed.

Lemma path_values_step s next rest d : path_values (s :: next :: rest) d =
  match lookup d s with
  | Some (VDocument d') => path_values (next :: rest) d'
  | Some (VArray items) => (if tries_index false next then map visited_value (filter counts (reach false (next :: rest) true items)) else []) ++
                           flat_map (path_values (next :: rest)) (documents items)
  | _ => []
  end.
Proof.
  unfold path_values.
  change (reach false (s :: next :: rest) false d) with
    (match lookup d s with
     | Some (VDocument d') => reach false (next :: rest) false d'
     | Some (VArray items) => (if tries_index false next then reach false (next :: rest) true items else []) ++
                              flat_map (reach false (next :: rest) false) (documents items)
     | _ => [] end).
  destruct (lookup d s) as [[]|]; try reflexivity. rewrite filter_app, map_app. f_equal; [now destruct (tries_index false next)|].
  induction (documents _) as [|d' ds IH]; [reflexivity|]. cbn [flat_map]. now rewrite filter_app, map_app, IH.
Qed.

Lemma conditions_found segs : forall fuel d vs, segs <> [] -> Forall name_segment segs -> (List.length segs <= fuel)%nat ->
  plain_doc d = true -> fields_all (fun _ v => arrays_indexed v) d ->
  traverse fuel (array_written vs) d (join_path segs) (blen (join_path segs)) =
  Ok (array_written (vs ++ path_values segs d), nonempty (path_values segs d)).
Proof.
  induction segs as [|s segs IH]; intros fuel d vs Hne Hs Hf Hd Ha; [easy|]. clear Hne. assert (Hs' := Hs). apply Forall_cons_iff in Hs'.
  destruct Hs' as [(Hse & Hdot & Hnul & Hdigit) Hsegs]. destruct fuel as [|fuel]; [cbn in Hf; lia|].
  destruct segs as [|next rest].
  - cbn [TraverseDocumentAndWriteLookupIndexCondition join_path]. rewrite (within_last s Hdot). cbn [res_bind]. unfold path_values. cbn [reach].
    destruct (lookup d s) as [v|] eqn:E; [|cbn; now rewrite app_nil_r]. assert (Hv := lookup_plain d s v Hd E).
    destruct v as [| | | |items| | | | | | | | | | | | | | | | |]; try (now rewrite (array_write vs _ Hv)).
    cbn [filter counts]. rewrite (numbered_counts items 0), (values_written vs items Hv). cbn [res_bind]. now destruct items.
  - rewrite path_values_step. cbn [TraverseDocumentAndWriteLookupIndexCondition].
    change (join_path (s :: next :: rest)) with (s ++ dot :: join_path (next :: rest)). rewrite (within_first s _ Hdot). cbn [res_bind].
    rewrite keep_first, skip_first, rest_length. destruct (lookup d s) as [v|] eqn:E; [|cbn; now rewrite app_nil_r].
    assert (Hv := lookup_plain d s v Hd E). apply (lookup_fields_all _ _ _ _ Ha) in E.
    destruct v as [| | |d'|items| | | | | | | | | | | | | | | | |]; try (cbn; now rewrite app_nil_r).
    + apply (IH fuel d' vs); [discriminate|exact Hsegs|cbn in *; lia|exact Hv|exact E].
    + assert (Hnext := Forall_inv Hsegs). destruct Hnext as (Hne & Hndot & _ & Hndigit).
      unfold starts_with_digit in Hndigit. rewrite Hndigit. cbn [app].
      assert (Hidx : exists substring, memchr_within (join_path (next :: rest)) dot (blen (join_path (next :: rest))) = Ok substring /\
        match substring with Some i => firstn i (join_path (next :: rest)) | None => join_path (next :: rest) end = next).
      { destruct rest as [|r rest]; [exists None; split; [now apply within_last|reflexivity]|]. exists (Some (List.length next)). split.
        - now apply (within_first next).
        - apply keep_first. }
      destruct Hidx as (substring & Hsub & Hseg). rewrite Hsub. cbn [res_bind]. rewrite Hseg, (not_an_index next Hndigit). change (-1 >? -1) with false. cbn [fst snd].
      destruct fuel as [|fuel]; [cbn in Hf; lia|].
      rewrite (elements_found _ (path_values (next :: rest)) _ items (join_nonempty next rest Hne) Hv E).
      * now rewrite orb_false_r.
      * intros vs' d' Hd' Ha'. apply IH; [discriminate|exact Hsegs|cbn in *; lia|exact Hd'|exact Ha'].
      * intros vs' d' Hd'. now apply array_not_found.
Qed.

(** C17: the filter of [$lookup] for a path without array indexes: the array of the values
    that [distinct] finds at the path, or of null when there is none. *)
Theorem lookup_filter_values (document : fields) (foreignField : bytes) (segs : list bytes)
  (Hne : segs <> []) (Hsegs : Forall name_segment segs) (Hdollar : byte_eqb (nth 0 (join_path segs) x00) "$"%byte = false)
  (Hdoc : plain_doc document = true) (Harrays : fields_all (fun _ v => arrays_indexed v) document) :
  exists rows, bson_distinct_unwind false document (join_path segs) = Ok rows /\
  bson_dollar_lookup_extract_filter_expression EnableCollation document [(foreignField, VUtf8 (join_path segs))] =
  Ok [(foreignField, VArray (array_of match map snd (concat rows) with [] => [VNull] | values => values end))].
Proof.
  assert (Hdots : Forall (fun s => ~ In dot s) segs) by (eapply Forall_impl; [|exact Hsegs]; now intros s (_ & H & _)).
  assert (Hnuls : Forall no_nul segs) by (eapply Forall_impl; [|exact Hsegs]; now intros s (_ & _ & H & _)).
  eexists. split; [now apply distinct_unwind_rows|].
  assert (Hvalues : map snd (concat (map (fun x => [([] : bytes, visited_value x)]) (filter counts (reach false segs false document)))) =
    path_values segs document).
  { unfold path_values. induction (filter counts _) as [|x xs IH]; [reflexivity|]. cbn. now rewrite IH. }
  rewrite Hvalues. unfold bson_dollar_lookup_extract_filter_expression. cbn [PgbsonToSinglePgbsonElementWithCollation res_bind].
  unfold BsonLookUpGetFilterExpression. cbn [snd fst]. rewrite Hdollar, andb_false_r.
  rewrite (until_nul_id (join_path segs)) by now apply join_no_nul.
  change (ArrayWriter [] 0) with (array_written []).
  rewrite conditions_found; [|exact Hne|exact Hsegs|now apply length_join|exact Hdoc|exact Harrays].
  cbn [res_bind app]. destruct (path_values segs document) as [|v vs]; cbn [nonempty]; [|reflexivity].
  unfold PgbsonArrayWriterWriteNull. rewrite (array_write [] VNull eq_refl). reflexivity.
Qed.
End Filter.

(** ** The matches of [$lookup] *)

Section Matches.
Context {BL : BidLib} {LB : LibBson} {LM : LibM} {LD : LibBsonDoc} {Laws : LibBsonDocLaws LD} {OtherArguments : Set}.
Variable handle_other : OtherArguments -> fields -> @ExpressionResult OtherArguments -> M (@ExpressionResult OtherArguments).
Variables (document : fields) (depth : nat).
Hypothesis document_plain : plain_doc document = true.
Abbreviation self := (evaluator handle_other (S depth)).
Abbreviation constant := (@Ok bson_value).
Abbreviation writes := (data_writes false self document [] constant).
Abbreviation writes_array := (array_writes false self document [] constant).

Lemma constants_appended documents t : Forall (fun d => plain_doc d = true) documents -> forall vs,
  AppendLeafArrayFieldChildrenToWriter self document [] (map ConstantExpr (map VDocument documents)) (array_written vs) t =
  Ok (array_written (vs ++ map VDocument documents), t).
Proof.
  induction 1 as [|d documents Hd _ IH]; intros vs; cbn [map AppendLeafArrayFieldChildrenToWriter]; [now rewrite app_nil_r|].
  unfold bind at 1. cbn [ret]. unfold bind, lift, write_array_value. rewrite (array_write vs (VDocument d) Hd), IH. now rewrite <- app_assoc.
Qed.

Lemma matches_written documents : Forall (fun d => plain_doc d = true) documents ->
  writes_array (map ConstantExpr (map VDocument documents)) (VArray (array_of (map VDocument documents))).
Proof.
  intros H path w t. unfold WriteLeafArrayFieldToWriter, bind. change (PgbsonWriterStartArray w path) with (array_written []).
  rewrite (constants_appended documents t H []). cbn [app]. now exists (VArray (array_of (map VDocument documents))).
Qed.

Lemma array_added path (values : list bson_value) e t : no_nul path ->
  writes_array (map ConstantExpr values) e ->
  exists tree', TraverseDottedPathAndAddLeafArrayNode (OtherArguments := OtherArguments) path values [] t = Ok (tree', t) /\
    tree_represents writes writes_array tree' [(path_segments path, Put e)] /\ plan_ok [(path_segments path, @Put bson_value e)].
Proof.
  intros Hn Hw. destruct (segments_cons path) as (s & rest & Es).
  set (last := fun (field : bytes) (existing : option (@ProjectionNode OtherArguments)) =>
         match existing return M (@ProjectionNode OtherArguments * unit) with
         | Some (Intermediate _ _ _) => raise ERRCODE_DOCUMENTDB_LOCATION31250
         | _ => ret (LeafWithArrayField field (map ConstantExpr values), tt)
         end).
  destruct (path_fits writes writes_array (fun _ : unit => true) (mismatch path) last t (path_segments path)
    ltac:(intros field; eexists; eexists; reflexivity) [] [] ltac:(rewrite Es; discriminate) ltac:(constructor) (tree_represents_nil _ _) ltac:(constructor))
    as (tree' & b & Ht).
  exists tree'. split; [unfold TraverseDottedPathAndAddLeafArrayNode, bind; fold last; now rewrite Ht|]. split.
  - set (ext := [([] : list bytes, Put e)]).
    replace [(path_segments path, Put e)] with ([] ++ prefixed (path_segments path) ext)
      by (unfold ext, prefixed; cbn [map fst snd app]; now rewrite app_nil_r).
    apply (add_path writes writes_array ext true (fun _ : unit => true) (mismatch path) last (fun _ => True) ltac:(discriminate))
      with (3 := Ht); [discriminate| |constructor|apply tree_represents_nil].
    intros field existing node u t3 t4 q El Hq _.
    assert (Em : ret (LeafWithArrayField field (map ConstantExpr values), tt) t3 = Ok ((node, u), t4))
      by (unfold last in El; destruct existing as [[]|]; try discriminate; exact El).
    injection Em as <- _ _. split; [reflexivity|]. split; [|now split]. cbn [represents]. exists e. unfold ext. now rewrite leaf_last.
  - constructor; [|constructor]. now apply segments_no_nul.
Qed.

(** [$lookup] puts the array of the matching documents at its path, in place or as a
    new field, and keeps the rest of the document. *)
Theorem lookup_project_matches (matched : list fields) (path : bytes) t
  (Hpath : no_nul path) (Hmatched : Forall (fun d => plain_doc d = true) matched)
  (Hkeys : unique_keys (VDocument document)) (Hopen : open_at (path_segments path) (VDocument document)) :
  exists row t', bson_dollar_lookup_project handle_other (S depth) document matched path t = Ok (row, t') /\
  value_at (path_segments path) (VDocument row) = Some (VArray (array_of (map VDocument matched))) /\
  (forall segments, apart segments (path_segments path) = true ->
     value_at segments (VDocument row) = value_at segments (VDocument document)).
Proof.
  set (e := VArray (array_of (map VDocument matched))).
  destruct (array_added path (map VDocument matched) e t Hpath (matches_written matched Hmatched)) as (tree & Ht & Hr & Hp).
  unfold bson_dollar_lookup_project, BsonLookUpProject, bind. rewrite Ht.
  pose proof (traverse_outcome false self document [] constant true false tree _ document Hp Hr document_plain PgbsonWriterInit t) as O.
  destruct (project_total constant ltac:(eauto) true false document [(path_segments path, Put e)]) as [row Hrow]. rewrite Hrow in O. unfold outcome in O.
  destruct (TraverseObjectAndAppendToWriter _ _ _ _ _ _ _ _ t) as [[w t']|]; [|destruct O as [[O _]|O]; discriminate].
  destruct O as (fs & Hfs & ->). injection Hfs as ->. exists fs, t'. split; [reflexivity|]. destruct (segments_cons path) as (s & rest & Es). split.
  - apply (project_sets constant (path_segments path) document _ fs e e Hrow); try assumption; try reflexivity; [|rewrite Es; discriminate].
    apply (sets_last (path_segments path) [] e). constructor.
  - intros segments Ha. apply (project_keeps constant segments document _ fs Hrow); try assumption; [|destruct segments; discriminate].
    apply apart_untouched. now repeat constructor.
Qed.
End Matches.

(** ** [$replaceRoot] *)

Section ReplaceRoot.
Context {BL : BidLib} {LB : LibBson} {LM : LibM} {LD : LibBsonDoc} {Laws : LibBsonDocLaws LD} {OtherArguments : Set}.
Variable EnableCollation : bool.
Variable EnableNowSystemVariable : bool.
Variable null_string : bson_value.
Variable handle_other : OtherArguments -> fields -> @ExpressionResult OtherArguments -> M (@ExpressionResult OtherArguments).
Variable parse_other : bytes -> bson_value -> ParseContext -> M (bson_value + OtherArguments).

(** [$replaceRoot]: a specification that was read gives for every document, with enough
    stack, the document that is the value of its expression; another value or none is
    an error, and so is an error of the expression. *)
Theorem replace_root_value depth (spec : fields) (v : bson_value) (variables : option fields) (collation : option bytes) t state t'
  (document : fields)
  (Hstate : PopulateReplaceRootExpressionDataFromSpec EnableCollation EnableNowSystemVariable null_string handle_other parse_other depth
     spec variables collation t = Ok (state, t'))
  (Hvalue : GetBsonValueForReplaceRoot spec = Ok v) (Hspec : supported false v = true)
  (Hvars : spec_supported EnableNowSystemVariable false variables = true) (Hdoc : plain_doc document = true) :
  exists n, forall k t2, (n <= k)%nat ->
  result_of (ProjectReplaceRootDocument handle_other k document (stageExpression state) (stageVariables state) false t2) =
  match expression_value EnableCollation EnableNowSystemVariable variables collation document v with
  | Ok (VDocument newRoot) => Ok newRoot
  | Ok _ => Err ERRCODE_DOCUMENTDB_LOCATION40228
  | Err e => Err e
  end.
Proof.
  unfold PopulateReplaceRootExpressionDataFromSpec in Hstate. rewrite Hvalue in Hstate. unfold bind, lift in Hstate.
  match type of Hstate with match ?x with _ => _ end = _ => destruct x as [[data t1]|] eqn:Ep; [|discriminate] end.
  destruct (SetVariableSpec _ _ _ _ depth variables t1) as [[ctx t3]|] eqn:Ev; [|discriminate]. injection Hstate as <- _. cbn [stageExpression stageVariables].
  assert (He := variables_set EnableCollation EnableNowSystemVariable null_string handle_other parse_other false depth variables t1 ctx t3 document Ev Hvars Hdoc).
  assert (Hnow : good (spec_now EnableNowSystemVariable variables) = true) by (unfold spec_supported in Hvars; rewrite !andb_true_iff in Hvars; tauto).
  destruct (expression_writes EnableCollation EnableNowSystemVariable null_string handle_other parse_other false depth variables collation document ctx v
    t data t1 Ep Hspec Hnow Hdoc He) as [_ [n Hn]]. exists n. intros k t2 Hk. specialize (Hn k Hk [] PgbsonWriterInit t2).
  unfold ProjectReplaceRootDocument. cbn [missing_value]. unfold bind at 1. cbn [ret]. unfold bind at 1. unfold outcome in Hn.
  destruct (evaluate_to_writer (evaluator handle_other k) data document [] PgbsonWriterInit ctx false t2) as [[w t4]|e].
  - destruct Hn as (u & -> & ->). unfold written. destruct u as [| | |newRoot| | | | | | | | | | | | | | | | | |]; try reflexivity. cbn [missing PgbsonWriterInit app]. cbn [andb].
    now destruct (lookup newRoot (str "_id")).
  - destruct Hn as [[Hn _]| ->]; [discriminate|reflexivity].
Qed.
End ReplaceRoot.

(** ** [$redact] *)

Section Redact.
Context {BL : BidLib} {LB : LibBson} {LM : LibM} {LD : LibBsonDoc} {Laws : LibBsonDocLaws LD} {OtherArguments : Set}.
Variable EnableCollation : bool.
Variable null_string : bson_value.
Variable handle_other : OtherArguments -> fields -> @ExpressionResult OtherArguments -> M (@ExpressionResult OtherArguments).
Variable parse_other : bytes -> bson_value -> ParseContext -> M (bson_value + OtherArguments).
Variable depth : nat.
Variable state : @BsonReplaceRootRedactState OtherArguments.

(** What is left of a value when every document is kept, pruned or looked into as
    [decide] says. *)
Variable decide : fields -> redaction.

Fixpoint redacted (v : bson_value) : option bson_value :=
  match v with
  | VDocument d =>
    match decide d with
    | Kept => Some v
    | Pruned => None
    | Descended => Some (VDocument (flat_map (fun kv => match redacted (snd kv) with Some v => [(fst kv, v)] | None => [] end) d))
    end
  | VArray items => Some (VArray (array_of (flat_map (fun kv => match redacted (snd kv) with Some v => [v] | None => [] end) items)))
  | _ => Some v
  end.

(** The documents in a value. *)
Fixpoint documents_of (v : bson_value) : list fields :=
  match v with
  | VDocument d => d :: flat_map (fun kv => documents_of (snd kv)) d
  | VArray items => flat_map (fun kv => documents_of (snd kv)) items
  | _ => []
  end.

Abbreviation object := (redact_object EnableCollation null_string handle_other parse_other depth state).
Abbreviation array := (redact_array EnableCollation null_string handle_other parse_other depth state).

Definition decides (d : fields) : Prop :=
  forall t, evaluate_redaction EnableCollation null_string handle_other parse_other depth state d t = Ok (decide d, t).

Hypothesis evaluated : match stageExpression state with SystemVariableExpr _ _ => False | _ => True end.

Definition redact_ok (v : bson_value) : Prop :=
  match v with
  | VDocument _ => forall t, exists b d, object v t = Ok ((b, d), t) /\ redacted v = if b then None else Some (VDocument d)
  | VArray _ => forall t, exists vs, array v t = Ok (array_written vs, t) /\ redacted v = Some (VArray (array_of vs))
  | _ => True
  end.

Lemma fields_redacted d : plain_doc d = true -> Forall (fun kv => redact_ok (snd kv)) d -> forall w t,
  redact_fields object array d w t =
  Ok (w ++ flat_map (fun kv => match redacted (snd kv) with Some v => [(fst kv, v)] | None => [] end) d, t).
Proof.
  induction d as [|[k v] d IH]; intros Hp Hr w t; cbn [redact_fields flat_map]; [now rewrite app_nil_r|].
  cbn [plain_doc forallb snd] in Hp. apply andb_true_iff in Hp. destruct Hp as [Hv Hp]. apply Forall_cons_iff in Hr. destruct Hr as [Hrv Hr]. cbn [fst snd] in *.
  assert (Hc := append_copied v (plain_copied v Hv)). unfold bind at 1.
  destruct v as [| | |d'|items| | | | | | | | | | | | | | | | |]; try discriminate;
    try (unfold lift, PgbsonWriterAppendValue, append; rewrite Hc, (IH Hp Hr); cbn [redacted]; now rewrite <- app_assoc).
  - destruct (Hrv t) as (b & d1 & E & ->). unfold bind at 1. rewrite E. cbn [ret]. rewrite (IH Hp Hr). destruct b; [reflexivity|].
    unfold PgbsonWriterEndDocument. now rewrite <- app_assoc.
  - destruct (Hrv t) as (vs & E & ->). unfold bind at 1. rewrite E. cbn [ret]. rewrite (IH Hp Hr).
    unfold PgbsonWriterEndArray. now rewrite <- app_assoc.
Qed.

Lemma items_redacted items : plain_doc items = true -> Forall (fun kv => redact_ok (snd kv)) items -> forall vs t,
  redact_items object array items (array_written vs) t =
  Ok (array_written (vs ++ flat_map (fun kv => match redacted (snd kv) with Some v => [v] | None => [] end) items), t).
Proof.
  induction items as [|[k v] items IH]; intros Hp Hr vs t; cbn [redact_items flat_map]; [now rewrite app_nil_r|].
  cbn [plain_doc forallb snd] in Hp. apply andb_true_iff in Hp. destruct Hp as [Hv Hp]. apply Forall_cons_iff in Hr. destruct Hr as [Hrv Hr]. cbn [fst snd] in *.
  unfold bind at 1.
  destruct v as [| | |d'|items'| | | | | | | | | | | | | | | | |]; try discriminate;
    try (unfold lift; rewrite (array_write vs _ Hv), (IH Hp Hr); cbn [redacted]; now rewrite <- app_assoc).
  - destruct (Hrv t) as (b & d1 & E & ->). unfold bind at 1. rewrite E. cbn [ret]. destruct b; [now rewrite (IH Hp Hr)|].
    unfold PgbsonArrayWriterEndDocument. now rewrite array_add_written, (IH Hp Hr), <- app_assoc.
  - destruct (Hrv t) as (vs' & E & ->). unfold bind at 1. rewrite E. cbn [ret].
    unfold PgbsonArrayWriterEndArray. cbn [innerBson array_written]. now rewrite array_add_written, (IH Hp Hr), <- app_assoc.
Qed.

Lemma document_redacted d : plain_doc d = true -> decides d -> Forall (fun kv => redact_ok (snd kv)) d -> forall t, exists b d',
  redact_document EnableCollation null_string handle_other parse_other depth state object array d t = Ok ((b, d'), t) /\
  redacted (VDocument d) = if b then None else Some (VDocument d').
Proof.
  intros Hp Hd Hr t. unfold redact_document. cbn [redacted].
  destruct (stageExpression state) eqn:Es; try contradiction; unfold bind at 1; rewrite (Hd t);
    (destruct (decide d); [eexists; eexists; split; reflexivity| |]);
    unfold bind; rewrite (fields_redacted d Hp Hr); eexists; eexists; split; reflexivity.
Qed.

Lemma value_redacted v : plain v = true -> Forall decides (documents_of v) -> redact_ok v.
Proof.
  induction v as [d IH|items IH|v Hd Ha] using value_nested_induction; intros Hp Hall.
  - cbn [documents_of] in Hall. apply Forall_cons_iff in Hall. destruct Hall as [Hd Hall]. intros t.
    destruct (document_redacted d Hp Hd) with (t := t) as (b & d' & E & R); [|exists b, d'; split; [exact E|exact R]].
    rewrite Forall_flat_map in Hall. change (plain (VDocument d)) with (plain_doc d) in Hp. unfold plain_doc in Hp. rewrite forallb_forall in Hp.
    rewrite Forall_forall in *. intros kv Hin. apply IH; auto.
  - intros t. cbn [documents_of] in Hall. rewrite Forall_flat_map in Hall. change (plain (VArray items)) with (plain_doc items) in Hp.
    exists (flat_map (fun kv => match redacted (snd kv) with Some v => [v] | None => [] end) items). split; [|reflexivity].
    apply (items_redacted items Hp) with (vs := []). unfold plain_doc in Hp. rewrite forallb_forall in Hp.
    rewrite Forall_forall in *. intros kv Hin. apply IH; auto.
  - destruct v; try exact I; [now elim (Hd d)|now elim (Ha d)].
Qed.

(** [$redact], when its expression has one of the three values for every document in
    the document: what is left is the document without the documents that are to be
    pruned, looking into those that are to be descended into, or nothing. *)
Theorem redact_drops_pruned (document : fields) t
  (Hdoc : plain_doc document = true) (Hall : Forall decides (documents_of (VDocument document))) :
  exists shouldPrune result,
  EvaluateRedactDocument EnableCollation null_string handle_other parse_other depth state document t = Ok ((shouldPrune, result), t) /\
  redacted (VDocument document) = if shouldPrune then None else Some (VDocument result).
Proof. exact (value_redacted (VDocument document) Hdoc Hall t). Qed.
End Redact.
