(* ===== verification/StagesExamples.v ===== *)
(** * Stages: examples *)

From Stdlib Require Import ZArith Lia Bool String List.
From Stdlib Require Import Strings.Byte.
From S2P Require Import Prelude SoftFloat BsonTypes StringView Decimal128 BsonCompare BsonArith Traversal RefBid PgbsonElement BsonWriter DollarSets UpdateRef.
From S2P Require Import AggData AggOperators AggEval AggParse AggGet AggMeaning AggTyping AggOutcome AggHandlers AggTrees AggSound AggRows AggExamples.
From S2P Require Import ProjTree Project ProjMeaning ProjPlans ProjApply ProjBuild ProjSound ProjLens Unwind UnwindSound UnwindExamples ProjectStages StagesSound.
Import ListNotations.
Local Open Scope Z_scope.

#[local] Existing Instance RefBidLib.
#[local] Existing Instance RefLibBson.
#[local] Existing Instance RefLibBsonDoc.
#[local] Existing Instance RefLibBsonDocLaws.
#[local] Existing Instance RefLibM.
Local Open Scope string_scope.

(** ** [$lookup] *)

Definition customer : fields :=
  fields_of [("_id", VInt32 1); ("o", list_of [document_of [("id", VInt32 7)]; document_of [("id", list_of [VInt32 8; VInt32 9])]])].

Lemma lookup_filter_values_witness :
  exists rows, bson_distinct_unwind false customer (join_path [str "o"; str "id"]) = Ok rows /\
  bson_dollar_lookup_extract_filter_expression false customer [(str "f", VUtf8 (join_path [str "o"; str "id"]))] =
  Ok [(str "f", VArray (array_of match map snd (concat rows) with [] => [VNull] | values => values end))].
Proof.
  apply (lookup_filter_values false customer (str "f") [str "o"; str "id"]).
  - discriminate.
  - repeat apply Forall_cons; try apply Forall_nil; (split; [discriminate|]); (split; [cbn; intuition discriminate|]);
      (split; [now apply no_nulb_ok|reflexivity]).
  - reflexivity.
  - reflexivity.
  - repeat split; reflexivity.
Defined.

Example lookup_filter : bson_dollar_lookup_extract_filter_expression false customer [(str "f", string_of "o.id")] =
  Ok [(str "f", list_of [VInt32 7; VInt32 8; VInt32 9])] /\
  bson_dollar_lookup_extract_filter_expression false customer [(str "f", string_of "o.x")] = Ok [(str "f", list_of [VNull])].
Proof. split; vm_compute; reflexivity. Qed.

Lemma lookup_project_matches_witness :
  exists row t', bson_dollar_lookup_project no_handler 1 customer [one_a; []] (str "m.x") no_tables = Ok (row, t') /\
  value_at (path_segments (str "m.x")) (VDocument row) = Some (list_of [VDocument one_a; VDocument []]) /\
  (forall segments, apart segments (path_segments (str "m.x")) = true ->
     value_at segments (VDocument row) = value_at segments (VDocument customer)).
Proof.
  apply (lookup_project_matches no_handler customer 0 eq_refl [one_a; []] (str "m.x") no_tables).
  - now apply no_nulb_ok.
  - repeat constructor.
  - apply unique_document. split; [repeat constructor; cbn; intuition discriminate|]. repeat constructor; cbn; intuition discriminate.
  - vm_compute. exact I.
Defined.

(** ** [$replaceRoot] *)

Definition root_spec : fields := fields_of [("newRoot", document_of [("id", string_of "$_id"); ("n", VInt32 3)])].

Lemma replace_root_value_witness :
  exists state t',
    PopulateReplaceRootExpressionDataFromSpec false true VEod no_handler no_parser 20 root_spec None None no_tables = Ok (state, t') /\
    exists n, forall k t2, (n <= k)%nat ->
    result_of (ProjectReplaceRootDocument no_handler k customer (stageExpression state) (stageVariables state) false t2) =
    Ok (fields_of [("id", VInt32 1); ("n", VInt32 3)]).
Proof.
  eexists. eexists. split; [vm_compute; reflexivity|].
  apply (replace_root_value false true VEod no_handler no_parser 20 root_spec (document_of [("id", string_of "$_id"); ("n", VInt32 3)]) None None
    no_tables _ no_tables customer); vm_compute; reflexivity.
Defined.

(** ** [$redact] *)

(** [{$cond: [{$eq: ["$level", 5]}, "$$PRUNE", "$$DESCEND"]}] *)
Definition redact_spec (otherwise : string) : fields :=
  fields_of [("$cond", list_of [document_of [("$eq", list_of [string_of "$level"; VInt32 5])]; string_of "$$PRUNE"; string_of otherwise])].

Definition report : fields :=
  fields_of [("level", VInt32 1);
             ("parts", list_of [document_of [("level", VInt32 5); ("x", VInt32 1)]; document_of [("level", VInt32 2); ("y", VInt32 1)]; VInt32 3]);
             ("secret", document_of [("level", VInt32 5)])].

Definition redact (document spec : fields) : res (option fields) :=
  result_of (bson_dollar_redact false true VEod no_handler no_parser 20 document spec [] None None no_tables).

Example redact_report : redact report (redact_spec "$$DESCEND") =
  Ok (Some (fields_of [("level", VInt32 1); ("parts", list_of [document_of [("level", VInt32 2); ("y", VInt32 1)]; VInt32 3])])).
Proof. vm_compute. reflexivity. Qed.

Definition decide_level (d : fields) : redaction :=
  match lookup d (str "level") with Some (VInt32 5) => Pruned | _ => Descended end.

Lemma redact_drops_pruned_witness :
  exists state t',
    BuildRedactState false true VEod no_handler no_parser 20 (VDocument (redact_spec "$$DESCEND")) None None no_tables = Ok (state, t') /\
    exists shouldPrune result,
    EvaluateRedactDocument false VEod no_handler no_parser 20 state report no_tables = Ok ((shouldPrune, result), no_tables) /\
    redacted decide_level (VDocument report) = if shouldPrune then None else Some (VDocument result).
Proof.
  eexists. eexists. split; [vm_compute; reflexivity|].
  apply redact_drops_pruned.
  - exact I.
  - vm_compute. reflexivity.
  - repeat constructor; intros t; vm_compute; reflexivity.
Defined.

(** ** Where the code departs from what it means to do *)

(** The documents inside a pruned document are evaluated, and their errors are raised. *)
Example pruned_document_evaluated :
  redact (fields_of [("level", VInt32 5); ("inner", document_of [])]) (redact_spec "$none") = Err ERRCODE_DOCUMENTDB_BADVALUE.
Proof. vm_compute. reflexivity. Qed.

(** With a forced [_id] the [_id] of the new root is written a second time. *)
Example replace_root_duplicates_id :
  result_of (bind (PopulateReplaceRootExpressionDataFromSpec false true VEod no_handler no_parser 20 (fields_of [("newRoot", string_of "$$ROOT")])
                     None None)
               (fun state => ProjectReplaceRootDocument no_handler 20 one_a (stageExpression state) (stageVariables state) true) no_tables) = Ok one_a /\
  result_of (bind (PopulateReplaceRootExpressionDataFromSpec false true VEod no_handler no_parser 20 (fields_of [("newRoot", string_of "$$ROOT")])
                     None None)
               (fun state => ProjectReplaceRootDocument no_handler 20 (fields_of [("_id", VInt32 1)]) (stageExpression state) (stageVariables state) true)
               no_tables) = Ok (fields_of [("_id", VInt32 1); ("_id", VInt32 1)]).
Proof. split; vm_compute; reflexivity. Qed.

(** Behind an array index the length of the rest of the path is not reduced, and the
    search for the next dot runs behind the end of the path. *)
Example lookup_path_overrun :
  bson_dollar_lookup_extract_filter_expression false customer [(str "f", string_of "o.0.id")] = Err READ_BEYOND_BUFFER.
Proof. vm_compute. reflexivity. Qed.
