(* ===== verification/QueryValues.v ===== *)
(** * Values that a query determines ([aggregation/bson_query.c])

    A query such as [{ "a": 1, "$and": [ { "_id": { "$eq": 2 } } ] }] requires fields to
    be equal to values.  The traversal calls back with every such field and value; it
    is used to find the [_id] that a query asks for, and to make the document that an
    upsert starts from. *)

From Stdlib Require Import ZArith Lia Bool String List.
From Stdlib Require Import Strings.Byte.
From S2P Require Import Prelude SoftFloat BsonTypes StringView Decimal128 BsonCompare Traversal PgbsonElement BsonWriter AggData Unwind.
Import ListNotations.
Local Open Scope Z_scope.

Definition is_key (key : bytes) (name : string) : bool := strcmp key (str name) =? 0.

Section Query.
Context {St : Type}.
(** The callbacks, over an arbitrary state. *)
Variable processValueFunc : St -> bytes -> bson_value -> M St.
Variable processFilterFunc : option (St -> St).
Variable isUpsert : bool.
Local Open Scope agg_scope.

Definition process_filter (context : St) : St :=
  match processFilterFunc with Some f => f context | None => context end.

Fixpoint process_all (key : bytes) (items : fields) (context : St) : M St :=
  match items with
  | [] => ret context
  | (_, v) :: items => let! context := processValueFunc context key v in process_all key items context
  end.

(** The operators on a field; [document] is their document, which is the value itself
    when its fields are no operators. *)
Fixpoint process_operators (key : bytes) (document : bson_value) (operators : fields) (context : St) : M St :=
  match operators with
  | [] => ret context
  | (op, opValue) :: operators =>
    if is_key op "$eq" then
      let! context := processValueFunc context key opValue in process_operators key document operators context
    else if is_key op "$all" then
      match opValue with
      | VArray items => let! context := process_all key items context in process_operators key document operators context
      | _ => raise ERRCODE_DOCUMENTDB_BADVALUE
      end
    else if is_key op "$in" then
      match opValue with
      | VArray items =>
        let! context := match items with [(_, inValue)] => processValueFunc context key inValue | _ => ret context end in
        process_operators key document operators (process_filter context)
      | _ => raise ERRCODE_DOCUMENTDB_BADVALUE
      end
    else if (blen op >? 0) && negb (byte_eqb (nth 0 op x00) "$"%byte) then processValueFunc context key document
    else if isUpsert && (is_key op "$ref" || is_key op "$id") then
      match operators with
      | [] => raise ERRCODE_DOCUMENTDB_BADVALUE
      | (next, _) :: _ =>
        let isRef := is_key op "$ref" in
        if (isRef && is_key next "$id") || (negb isRef && is_key next "$ref")
        then processValueFunc context key document
        else process_operators key document operators context
      end
    else process_operators key document operators (process_filter context)
  end.

Definition process_field (key : bytes) (v : bson_value) (context : St) : M St :=
  match v with
  | VDocument [] => processValueFunc context key v
  | VDocument operators => process_operators key v operators context
  | VRegex _ _ => ret (process_filter context)
  | _ => processValueFunc context key v
  end.

Section Nested.
(** The traversal of a nested query. *)
Variable nested : bson_value -> St -> M St.

Fixpoint process_and (items : fields) (context : St) : M St :=
  match items with
  | [] => ret context
  | (_, v) :: items =>
    match v with
    | VDocument _ => let! context := nested v context in process_and items context
    | _ => raise ERRCODE_DOCUMENTDB_BADVALUE
    end
  end.

Definition process_or (items : fields) (context : St) : M St :=
  let ignored := if isUpsert && BsonIterSearchKeyRecursive items (str "$expr") then raise ERRCODE_DOCUMENTDB_QUERYFEATURENOTALLOWED
                 else ret context in
  let! context :=
    match items with
    | [(_, v)] => match v with VDocument _ => nested v context | _ => ignored end
    | _ => ignored
    end in
  ret (process_filter context).

Fixpoint process_query (queryDocument : fields) (context : St) : M St :=
  match queryDocument with
  | [] => ret context
  | (key, v) :: queryDocument =>
    let! context :=
      if is_key key "$nor" then ret (process_filter context)
      else if is_key key "$and" then
        match v with VArray items => process_and items context | _ => raise ERRCODE_DOCUMENTDB_BADVALUE end
      else if is_key key "$or" then
        match v with VArray items => process_or items context | _ => raise ERRCODE_DOCUMENTDB_BADVALUE end
      else if is_key key "$expr" then
        if isUpsert then raise ERRCODE_DOCUMENTDB_QUERYFEATURENOTALLOWED else ret (process_filter context)
      else process_field key v context in
    process_query queryDocument context
  end.
End Nested.

Fixpoint process_nested (v : bson_value) (context : St) : M St :=
  match v with
  | VDocument d => process_query process_nested d context
  | _ => ret context
  end.

Definition TraverseQueryDocumentAndProcess (queryDocument : fields) (context : St) : M St :=
  process_query process_nested queryDocument context.
End Query.

(** ** The [_id] of a query *)

Section Id.
Context {BL : BidLib} {LB : LibBson} {LD : LibBsonDoc}.
Local Open Scope agg_scope.

Record QueryIdContext : Set := {
  foundId : bool;
  idValue : bson_value;
  foundMultipleIds : bool;
  errorOnConflict : bool;
  queryHasNonIdFilters : bool
}.

Definition with_filters (c : QueryIdContext) : QueryIdContext :=
  {| foundId := foundId c; idValue := idValue c; foundMultipleIds := foundMultipleIds c;
     errorOnConflict := errorOnConflict c; queryHasNonIdFilters := true |}.

Definition SetQueryHasNonIdFilters (context : QueryIdContext) : QueryIdContext := with_filters context.

Definition ProcessIdInQuery (context : QueryIdContext) (path : bytes) (value : bson_value) : M QueryIdContext :=
  if negb (is_key path "_id") then ret (with_filters context)
  else if foundMultipleIds context then ret (with_filters context)
  else
    let! different :=
      if foundId context
      then let! '(cmp, _) := lift (CompareBsonValueAndType value (idValue context)) in ret (negb (cmp =? 0))
      else ret false in
    if different then
      if errorOnConflict context then raise ERRCODE_DOCUMENTDB_NOTSINGLEVALUEFIELD
      else ret {| foundId := foundId context; idValue := idValue context; foundMultipleIds := true;
                  errorOnConflict := errorOnConflict context; queryHasNonIdFilters := true |}
    else ret {| foundId := true; idValue := value; foundMultipleIds := foundMultipleIds context;
                errorOnConflict := errorOnConflict context; queryHasNonIdFilters := queryHasNonIdFilters context |}.

(** The [_id], if there is one, and whether the query has other conditions. *)
Definition TraverseQueryDocumentAndGetId (queryDocument : fields) (errorOnConflict : bool) : M (option bson_value * bool) :=
  let! context :=
    TraverseQueryDocumentAndProcess ProcessIdInQuery (Some SetQueryHasNonIdFilters) false queryDocument
      {| foundId := false; idValue := VEod; foundMultipleIds := false; errorOnConflict := errorOnConflict;
         queryHasNonIdFilters := false |} in
  ret (if foundId context && negb (foundMultipleIds context) then Some (idValue context) else None, queryHasNonIdFilters context).

(** The [_id] as a row of the column [object_id] ([commands/commands_common.c]). *)
Definition GetObjectIdFilterFromQueryDocumentValue (queryDoc : fields) : M (option fields * bool) :=
  let! '(queryIdValue, queryHasNonIdFilters) := TraverseQueryDocumentAndGetId queryDoc false in
  match queryIdValue with
  | Some id => let! document := lift (BsonValueToDocumentPgbson id) in ret (Some document, queryHasNonIdFilters)
  | None => ret (None, queryHasNonIdFilters)
  end.

Definition GetObjectIdFilterFromQueryDocument (queryDoc : fields) : M (option fields * bool) :=
  GetObjectIdFilterFromQueryDocumentValue queryDoc.
End Id.
