(* ===== verification/UpdateDocument.v ===== *)
(** * Updates of documents ([update/bson_update.c], [update/bson_update_aggregation.c])

    An update is a document of operators, a replacement, or a pipeline of stages.  The
    kind is determined first, and what can be prepared is prepared once for all
    documents.  An empty document stands for an upsert: the update then starts from the
    document that the query determines. *)

From Stdlib Require Import ZArith Lia Bool String List.
From Stdlib Require Import Strings.Byte.
From S2P Require Import Prelude SoftFloat BsonTypes StringView Decimal128 BsonCompare BsonArith Traversal PgbsonElement BsonWire BsonWriter DollarSets.
From S2P Require Import SortUtils ExprEval UpdateOperators UpdateTree UpdateWorkflow.
From S2P Require Import AggData AggOperators AggEval AggParse AggGet ProjTree Project ProjectStages QueryValues.
Import ListNotations.
Local Open Scope Z_scope.

Inductive UpdateType : Set := UpdateType_ReplaceDocument | UpdateType_Operator | UpdateType_AggregationPipeline.

Definition is_replacement (t : UpdateType) : bool := match t with UpdateType_ReplaceDocument => true | _ => false end.

(** The first field decides; an operator behind another field is refused. *)
Fixpoint determine_fields (updateDocument : fields) (isUpdateTypeReplacement : bool) : res UpdateType :=
  match updateDocument with
  | [] => Ok UpdateType_ReplaceDocument
  | (path, _) :: updateDocument =>
    if (blen path >? 1) && byte_eqb (nth 0 path x00) "$"%byte then
      if negb isUpdateTypeReplacement then Ok UpdateType_Operator
      else Err ERRCODE_DOCUMENTDB_DOLLARPREFIXEDFIELDNAME
    else determine_fields updateDocument true
  end.

Definition DetermineUpdateType (updateSpec : bson_value) : res UpdateType :=
  match updateSpec with
  | VArray _ => Ok UpdateType_AggregationPipeline
  | VDocument d => determine_fields d false
  | _ => Err ERRCODE_DOCUMENTDB_TYPEMISMATCH
  end.

Section Documents.
Context {BL : BidLib} {LB : LibBson} {LD : LibBsonDoc} {LN : LibBsonNew}.
Local Open Scope res_scope.

Definition find_id (d : fields) : option bson_value := bson_iter_find_descendant d (str "_id").

(** ** Replacements *)

Definition ValidateIdForUpdateTypeReplacement (idValue : bson_value) : res unit :=
  match idValue with
  | VArray _ => Err ERRCODE_DOCUMENTDB_NOTSINGLEVALUEFIELD
  | _ => ValidateIdField idValue
  end.

Definition write_id (idValue : bson_value) : res pgbson_writer := PgbsonWriterAppendValue PgbsonWriterInit (str "_id") idValue.

(** The [_id] of an upsert: that of the replacement, of the query, or a new one. *)
Definition upsert_id (replacement sourceDoc : fields) : res pgbson_writer :=
  match lookup replacement (str "_id"), find_id sourceDoc with
  | Some idFromReplaceDocument, fromQuery =>
    let* same := match fromQuery with
                 | Some idFromQueryDocument => BsonValueEquals idFromReplaceDocument idFromQueryDocument
                 | None => Ok true
                 end in
    if negb same then Err ERRCODE_DOCUMENTDB_IMMUTABLEFIELD
    else let* _ := ValidateIdForUpdateTypeReplacement idFromReplaceDocument in write_id idFromReplaceDocument
  | None, Some idFromQueryDocument =>
    let* _ := ValidateIdForUpdateTypeReplacement idFromQueryDocument in write_id idFromQueryDocument
  | None, None => write_id (VOid bson_oid_init)
  end.

(** The fields of the replacement but for [_id], which must be equal to [sourceIdValue] if
    there is one. *)
Fixpoint replace_fields (replacement : fields) (sourceIdValue : option bson_value) (writer : pgbson_writer) : res pgbson_writer :=
  match replacement with
  | [] => Ok writer
  | (key, v) :: replacement =>
    if strcmp key (str "_id") =? 0 then
      let* same := match sourceIdValue with Some id => BsonValueEquals id v | None => Ok true end in
      if same then replace_fields replacement sourceIdValue writer else Err ERRCODE_DOCUMENTDB_IMMUTABLEFIELD
    else
      let* writer := PgbsonWriterAppendValue writer key v in
      replace_fields replacement sourceIdValue writer
  end.

Definition ProcessReplaceDocument (sourceDoc : fields) (updateSpec : bson_value) (isUpsert : bool) : res fields :=
  match updateSpec with
  | VDocument replacement =>
    if negb (bson_validate replacement) then Err ERRCODE_DOCUMENTDB_BADVALUE
    else if isUpsert then
      let* writer := upsert_id replacement sourceDoc in
      replace_fields replacement None writer
    else
      match find_id sourceDoc with
      | None => Err ERRCODE_INTERNAL_ERROR
      | Some sourceIdValue =>
        let* writer := write_id sourceIdValue in
        replace_fields replacement (Some sourceIdValue) writer
      end
  | _ => Err ERRCODE_DOCUMENTDB_BADVALUE
  end.

(** ** The [_id] as the first field ([commands/commands_common.c]) *)

Fixpoint copy_without_id (docValue : fields) (writer : pgbson_writer) : res pgbson_writer :=
  match docValue with
  | [] => Ok writer
  | (bsonKey, value) :: docValue =>
    if strcmp bsonKey (str "_id") =? 0 then copy_without_id docValue writer
    else let* writer := PgbsonWriterAppendValue writer bsonKey value in copy_without_id docValue writer
  end.

(** The first [_id] and whether it is the first field. *)
Fixpoint search_id (docValue : fields) (isFirstField : bool) : option (bson_value * bool) :=
  match docValue with
  | [] => None
  | (path, v) :: docValue => if same_name path (str "_id") then Some (v, isFirstField) else search_id docValue false
  end.

(** [None] when the document is right as it is. *)
Definition RewriteDocumentAddObjectIdCore (docValue : fields) (objectIdToWrite : option bson_value) : res (option fields) :=
  match search_id docValue true with
  | Some (v, isFirstField) =>
    let* _ := ValidateIdField v in
    if isFirstField then Ok None
    else let* writer := write_id v in let* writer := copy_without_id docValue writer in Ok (Some writer)
  | None =>
    let* writer := write_id (match objectIdToWrite with Some id => id | None => VOid bson_oid_init end) in
    Ok (Some (writer ++ docValue))
  end.

Definition RewriteDocumentAddObjectId (document : fields) : res fields :=
  let* result := RewriteDocumentAddObjectIdCore document None in
  Ok (match result with Some d => d | None => document end).

Definition RewriteDocumentValueAddObjectId := RewriteDocumentAddObjectId.

Definition RewriteDocumentWithCustomObjectId (document : fields) (objectIdToWrite : fields) : res fields :=
  match TryGetSinglePgbsonElementFromBsonIterator objectIdToWrite with
  | Some (_, id) =>
    let* result := RewriteDocumentAddObjectIdCore document (Some id) in
    Ok (match result with Some d => d | None => document end)
  | None => Err ASSERTION_FAILED
  end.
End Documents.

Section Updates.
Context {BL : BidLib} {LB : LibBson} {LM : LibM} {LD : LibBsonDoc} {LN : LibBsonNew} {UV : UnionView} {EE : ExprEngine} {PS : PgSort}
  {PQ : PositionalQuery} {OtherArguments : Set}.
Variable EnableCollation : bool.
Variable EnableNowSystemVariable : bool.
Variable null_string : bson_value.
Variable handle_other : OtherArguments -> fields -> @ExpressionResult OtherArguments -> M (@ExpressionResult OtherArguments).
Variable parse_other : bytes -> bson_value -> ParseContext -> M (bson_value + OtherArguments).
Variable depth : nat.
Variable SkipBsonArrayTraverseOptimization : bool.
Variable clock : CurrentDocumentState -> UpdateSetValueState -> Z * Z.
Local Open Scope agg_scope.

Abbreviation Data := (@AggregationExpressionData OtherArguments).
Abbreviation Node := (@ProjectionNode OtherArguments).
Abbreviation parse_data := (ParseAggregationExpressionData EnableCollation null_string handle_other parse_other depth).

(** ** Pipelines *)

(** The stage and what was prepared for it. *)
Inductive UpdateAggregationStageData : Set :=
| ProjectionStage (queryState : @BsonProjectionQueryState OtherArguments)
| ReplaceRootStage (data : Data).

Fixpoint ValidateReplaceRootElement (value : bson_value) : res unit :=
  match value with
  | VDocument d =>
    (fix validate_fields (d : fields) : res unit :=
       match d with
       | [] => Ok tt
       | (key, v) :: d =>
         if (blen key >? 0) && byte_eqb (nth 0 key x00) "$"%byte then validate_fields d
         else if StringViewContains (Some key) "."%byte then Err ERRCODE_DOCUMENTDB_BADVALUE
         else match ValidateReplaceRootElement v with Ok _ => validate_fields d | Err e => Err e end
       end) d
  | VArray items =>
    (fix validate_items (items : fields) : res unit :=
       match items with
       | [] => Ok tt
       | (_, v) :: items => match ValidateReplaceRootElement v with Ok _ => validate_items items | Err e => Err e end
       end) items
  | _ => Ok tt
  end.

Definition PopulateDollarProjectState (projectionValue : bson_value) : M UpdateAggregationStageData :=
  match projectionValue with
  | VDocument spec =>
    let! state := GetProjectionStateForBsonProject EnableCollation EnableNowSystemVariable null_string handle_other parse_other depth
                    spec true false in
    ret (ProjectionStage state)
  | _ => raise ERRCODE_DOCUMENTDB_BADVALUE
  end.

Definition PopulateDollarUnsetState (unsetValue : bson_value) : M UpdateAggregationStageData :=
  let! state := GetProjectionStateForBsonUnset unsetValue true in ret (ProjectionStage state).

Definition PopulateDollarAddFieldsState (addFieldsValue : bson_value) : M UpdateAggregationStageData :=
  match addFieldsValue with
  | VDocument spec =>
    let! state := GetProjectionStateForBsonAddFields EnableCollation EnableNowSystemVariable null_string handle_other parse_other depth spec in
    ret (ProjectionStage state)
  | _ => raise ERRCODE_DOCUMENTDB_LOCATION40272
  end.

Definition PopulateDollarReplaceWithState (replaceRootValue : bson_value) : M UpdateAggregationStageData :=
  let! _ := lift (ValidateReplaceRootElement replaceRootValue) in
  let! data := parse_data replaceRootValue empty_context in
  ret (ReplaceRootStage data).

Definition PopulateDollarReplaceRootState (replaceRootValue : bson_value) : M UpdateAggregationStageData :=
  match replaceRootValue with
  | VDocument spec => let! value := lift (GetBsonValueForReplaceRoot spec) in PopulateDollarReplaceWithState value
  | _ => raise ERRCODE_DOCUMENTDB_LOCATION40229
  end.

Definition AggregationOperators : list (string * (bson_value -> M UpdateAggregationStageData)) :=
  [("$project", PopulateDollarProjectState); ("$unset", PopulateDollarUnsetState);
   ("$addFields", PopulateDollarAddFieldsState); ("$set", PopulateDollarAddFieldsState);
   ("$replaceRoot", PopulateDollarReplaceRootState); ("$replaceWith", PopulateDollarReplaceWithState)]%string.

Definition populate_stage (stage : bson_value) : M UpdateAggregationStageData :=
  match stage with
  | VDocument d =>
    match TryGetSinglePgbsonElementFromBsonIterator d with
    | None => raise ERRCODE_INVALID_TEXT_REPRESENTATION
    | Some (path, value) =>
      match find (fun operator => is_key path (fst operator)) AggregationOperators with
      | Some (_, populateFunc) => populateFunc value
      | None => raise ERRCODE_DOCUMENTDB_INVALIDOPTIONS
      end
    end
  | _ => raise ERRCODE_INVALID_TEXT_REPRESENTATION
  end.

Fixpoint populate_stages (stages : fields) : M (list UpdateAggregationStageData) :=
  match stages with
  | [] => ret []
  | (_, stage) :: stages =>
    let! stageData := populate_stage stage in
    let! rest := populate_stages stages in
    ret (stageData :: rest)
  end.

Definition GetAggregationPipelineUpdateState (updateSpec : bson_value) : M (list UpdateAggregationStageData) :=
  match updateSpec with
  | VArray stages => populate_stages stages
  | _ => raise ERRCODE_DOCUMENTDB_BADVALUE
  end.

Definition HandleUpdateProjectionState (source : fields) (queryState : @BsonProjectionQueryState OtherArguments) : M fields :=
  ProjectDocumentWithState handle_other depth source queryState.

Definition HandleUpdateReplaceRoot (source : fields) (data : Data) : M fields :=
  ProjectReplaceRootDocument handle_other depth source data [] true.

Fixpoint run_stages (stages : list UpdateAggregationStageData) (document : fields) : M fields :=
  match stages with
  | [] => ret document
  | stage :: stages =>
    let! document := match stage with
                     | ProjectionStage state => HandleUpdateProjectionState document state
                     | ReplaceRootStage data => HandleUpdateReplaceRoot document data
                     end in
    run_stages stages document
  end.

Definition validated (document : fields) : M fields :=
  if bson_validate document then ret document else raise ERRCODE_DOCUMENTDB_BADVALUE.

Definition ProcessAggregationPipelineUpdate (sourceDoc : fields) (stages : list UpdateAggregationStageData) (isUpsert : bool)
  : M fields :=
  if isUpsert then
    let! finalDocument := run_stages stages sourceDoc in
    let! finalDocument := lift (RewriteDocumentAddObjectId finalDocument) in
    validated finalDocument
  else
    match find_id sourceDoc with
    | None => raise ERRCODE_INTERNAL_ERROR
    | Some previousIdValue =>
      let! finalDocument := run_stages stages sourceDoc in
      match find_id finalDocument with
      | None => raise ERRCODE_DOCUMENTDB_IMMUTABLEFIELD
      | Some newIdValue =>
        let! same := lift (BsonValueEquals previousIdValue newIdValue) in
        if negb same then raise ERRCODE_DOCUMENTDB_IMMUTABLEFIELD
        else
          let! _ := lift (ValidateIdField newIdValue) in
          validated finalDocument
      end
    end.

(** ** The document of an upsert *)

Definition ProcessQueryProjectionValue (updateType : UpdateType) (tree : list Node) (path : bytes) (value : bson_value)
  : M (list Node) :=
  let! '(tree, nodeCreated) := ProjTree.TraverseDottedPathAndGetOrAddField path value tree in
  let isDocumentDottedIdField := strncmp path (str "_id.") 4 =? 0 in
  let isDocumentIdField := isDocumentDottedIdField || is_key path "_id" in
  if is_replacement updateType && isDocumentDottedIdField then raise ERRCODE_DOCUMENTDB_NOTEXACTVALUEFIELD
  else if (negb (is_replacement updateType) || isDocumentIdField) && negb nodeCreated
  then raise ERRCODE_DOCUMENTDB_NOTSINGLEVALUEFIELD
  else ret tree.

Definition query_fields (querySpec : bson_value) : fields := match querySpec with VDocument d | VArray d => d | _ => [] end.

Definition BuildBsonDocumentFromQuery (sourceDoc : fields) (querySpec : bson_value) (updateType : UpdateType) : M fields :=
  let! tree := TraverseQueryDocumentAndProcess (ProcessQueryProjectionValue updateType) None true (query_fields querySpec) [] in
  TraverseObjectAndAppendToWriter (evaluator handle_other depth) sourceDoc [] true false sourceDoc tree PgbsonWriterInit.

(** ** Updates *)

Inductive update_state : Set :=
| ReplaceState
| OperatorState (operatorState : BsonUpdateIntermediatePathNode * list UpdateTree.BsonPathNode)
| PipelineState (aggregationState : list UpdateAggregationStageData).

(** [sourceDocOnUpsert] is a null pointer unless the first document is empty. *)
Record BsonUpdateMetadata : Set := { sourceDocOnUpsert : option fields; updateState : update_state }.

Definition IsBsonValueEmptyArray (v : bson_value) : bool := match v with VArray [] => true | _ => false end.

Definition BuildBsonUpdateMetadata (updateSpec querySpec : bson_value) (arrayFilters : option bson_value) (buildSourceDocOnUpsert : bool)
  : M BsonUpdateMetadata :=
  let! updateType := lift (DetermineUpdateType updateSpec) in
  let! source := if buildSourceDocOnUpsert
                 then let! d := BuildBsonDocumentFromQuery [] querySpec updateType in ret (Some d)
                 else ret None in
  let! state :=
    match updateType with
    | UpdateType_AggregationPipeline =>
      if match arrayFilters with Some v => negb (IsBsonValueEmptyArray v) | None => false end
      then raise ERRCODE_DOCUMENTDB_BADVALUE
      else let! stages := GetAggregationPipelineUpdateState updateSpec in ret (PipelineState stages)
    | UpdateType_Operator =>
      let! tree := lift (GetOperatorUpdateState SkipBsonArrayTraverseOptimization clock updateSpec querySpec arrayFilters buildSourceDocOnUpsert) in
      ret (OperatorState tree)
    | UpdateType_ReplaceDocument => ret ReplaceState
    end in
  ret {| sourceDocOnUpsert := source; updateState := state |}.

Definition same_document (left right : fields) : bool := PgbsonEquals (encode_document left) (encode_document right).

(** [None] when the document is not changed. *)
Definition update_document (source : fields) (updateSpec : bson_value) (state : update_state) (isUpsert : bool) : M (option fields) :=
  let unless_same document := if same_document source document && negb isUpsert then None else Some document in
  match state with
  | ReplaceState => let! document := lift (ProcessReplaceDocument source updateSpec isUpsert) in ret (unless_same document)
  | OperatorState tree => lift (ProcessUpdateOperatorWithState source tree isUpsert)
  | PipelineState stages => let! document := ProcessAggregationPipelineUpdate source stages isUpsert in ret (unless_same document)
  end.

Definition BsonUpdateDocumentCore (sourceDocument : fields) (updateSpec : bson_value) (metadata : BsonUpdateMetadata) : M (option fields) :=
  let isUpsert := match sourceDocument with [] => true | _ => false end in
  let! source := if isUpsert
                 then match sourceDocOnUpsert metadata with Some d => ret d | None => raise ASSERTION_FAILED end
                 else ret sourceDocument in
  let! document := update_document source updateSpec (updateState metadata) isUpsert in
  match document with
  | Some d =>
    if doc_size d >? BSON_MAX_ALLOWED_SIZE
    then raise (if isUpsert then ERRCODE_DOCUMENTDB_DOCUMENTTOUPSERTLARGERTHANMAXSIZE
                else ERRCODE_DOCUMENTDB_DOCUMENTAFTERUPDATELARGERTHANMAXSIZE)
    else ret (Some d)
  | None => ret None
  end.

Definition ValidateUpdateDocument (updateSpec querySpec : bson_value) (arrayFilters : option bson_value) : M unit :=
  let! _ := BuildBsonUpdateMetadata updateSpec querySpec arrayFilters false in ret tt.

Definition BsonUpdateDocument (sourceDocument : fields) (updateSpec querySpec : bson_value) (arrayFilters : option bson_value)
  : M (option fields) :=
  let! metadata := BuildBsonUpdateMetadata updateSpec querySpec arrayFilters (match sourceDocument with [] => true | _ => false end) in
  BsonUpdateDocumentCore sourceDocument updateSpec metadata.

(** ** The SQL functions *)

(** The global variables of the process. *)
Record update_globals : Set := { NumBsonDocumentsUpdated : Z; LastBsonUpdateReturnedNewValue : bool }.

(** The metadata is that of the first row of the statement, if there was one. *)
Definition bson_update_document (globals : update_globals) (cached : option BsonUpdateMetadata) (sourceDocument updateSpecDoc querySpec : fields)
  (arrayFiltersDoc : option fields) : M (option fields * BsonUpdateMetadata * update_globals) :=
  let! '(_, updateSpec) := lift (BsonIterToSinglePgbsonElement EnableCollation updateSpecDoc) in
  let! arrayFilters := match arrayFiltersDoc with
                       | Some d => let! '(_, v) := lift (BsonIterToSinglePgbsonElement EnableCollation d) in ret (Some v)
                       | None => ret None
                       end in
  let! metadata := match cached with
                   | Some metadata => ret metadata
                   | None => BuildBsonUpdateMetadata updateSpec (VDocument querySpec) arrayFilters
                               (match sourceDocument with [] => true | _ => false end)
                   end in
  let! document := BsonUpdateDocumentCore sourceDocument updateSpec metadata in
  ret (document, metadata,
       match document with
       | Some _ => {| NumBsonDocumentsUpdated := wrap_s 32 (NumBsonDocumentsUpdated globals + 1); LastBsonUpdateReturnedNewValue := true |}
       | None => {| NumBsonDocumentsUpdated := NumBsonDocumentsUpdated globals; LastBsonUpdateReturnedNewValue := false |}
       end).

Definition bson_update_returned_value (globals : update_globals) : Z := if LastBsonUpdateReturnedNewValue globals then 1 else 0.
End Updates.
