(* ===== verification/GinExamples.v ===== *)
(** * Concrete indexes

    Instances of the theorems about index operator classes on small collections,
    and the cases in which an index answers differently from the operator. *)

From Stdlib Require Import ZArith Lia Bool String List.
From Stdlib Require Import Strings.Byte.
From S2P Require Import Prelude SoftFloat BsonTypes StringView Decimal128 BsonCompare BsonOrder RefBid BsonRefine.
From S2P Require Import Traversal PgbsonElement BsonWire BsonWriter IndexTerm IndexOrder DollarMatch DollarOperators DollarSets ExprEval.
From S2P Require Import BsonHash UpdateRef GinOptions GinTerms GinReach GinQuery GinScan.
Import ListNotations.
Local Open Scope Z_scope.

#[local] Existing Instance RefBidLib.
#[local] Existing Instance RefBidLaws.
#[local] Existing Instance WireLibBson.
#[local] Existing Instance WireLibBsonLaws.
#[local] Existing Instance WireLibBsonWire.
#[local] Existing Instance LiteralPcre2.
#[local] Existing Instance RefExprEngine.
#[local] Existing Instance ScanMethod.
#[local] Existing Instance ScanMethodLaws.
#[local] Existing Instance RefPgHash.
#[local] Existing Instance RefMemory.
#[local] Existing Instance IdentitySortKey.

(** An index on the path "a.b" with terms of at most 200 bytes. *)
Definition ab_options : BsonGinSinglePathOptions :=
  {| single_base := {| version := 1; indexTermTruncateLimit := 200; base_wildcardIndexTruncatedPathLimit := 0 |};
     single_isWildcard := false; single_generateNotFoundTerm := false; single_useReducedWildcardTerms := false;
     single_path := str "a.b" |}.
Definition ab_metadata : IndexTermCreateMetadata :=
  {| indexTermSizeLimit := 200; wildcardIndexTruncatedPathLimit := UINT32_MAX; pathPrefix := str "a.b";
     isWildcard := false; isWildcardProjection := false |}.

(** [{ "a" : [ { "b" : 5.5 }, { "b" : 4 } ] }], [{ "a" : { "b" : "x" } }] and [{ "c" : 1 }] *)
Definition ab_docs : list fields :=
  [query_doc; [(str "a", VDocument [(str "b", VUtf8 (str "x"))])]; [(str "c", VInt32 1)]].

Lemma ab_path : index_path_ok query_segs.
Proof.
  split; [discriminate|]. split; [|segs_ok]. repeat constructor; try discriminate; cbn; intuition discriminate.
Qed.

Lemma ab_index : single_path_index ab_options query_segs (str "$") ab_metadata.
Proof. repeat split; try reflexivity. right. discriminate. Qed.

(** Tactics for concrete documents. *)
Ltac names_ok := repeat match goal with |- _ /\ _ => split end; try exact I; try discriminate; try reflexivity;
  try (repeat constructor; cbn; intuition discriminate); cbn; intuition discriminate.
Ltac checked := repeat split; try (apply no_nulb_ok; reflexivity); vm_compute; congruence.
Ltac written_ok := split; [vm_compute; reflexivity|split; [checked|split; [intros _; vm_compute; congruence|split; [intros _; reflexivity|
  vm_compute; reflexivity]]]].
Ltac values_written :=
  match goal with |- Forall _ ?l => let l' := eval vm_compute in l in change l with l' end;
  repeat (apply Forall_cons; [eexists; written_ok|]); apply Forall_nil.
Ltac docs_indexable := repeat (apply Forall_cons; [split; [cbn [regular fields_all map fst]; names_ok|split; [checked|values_written]]|]); apply Forall_nil.

Lemma ab_docs_indexable unsafe : Forall (indexable true unsafe false query_segs (str "$") ab_metadata) ab_docs.
Proof. unfold ab_docs, query_doc. docs_indexable. Qed.

(** There is no [$elemMatch] in these queries. *)
Definition no_extract (args : BsonExtractQueryArgs) : res (extracted (ElemMatchState := unit)) := Err ERRCODE_INTERNAL_ERROR.
Definition no_partial (a b : BsonIndexTerm) (s : unit) : res Z := Err ERRCODE_INTERNAL_ERROR.
Definition no_consistent (check : list bool) (e : list (extra_data (ElemMatchState := unit))) (n : nat) : res bool :=
  Err ERRCODE_INTERNAL_ERROR.
Definition no_compression (t : bytes) : option bytes := None.

Lemma uncompressed_terms threshold t : CompressTermIfNeeded no_compression threshold t = t.
Proof. unfold CompressTermIfNeeded. now destruct (_ >? _). Qed.

Lemma five_written unsafe : written true unsafe query_segs (str "$") ab_metadata five five.
Proof. written_ok. Qed.

Lemma index_answers_comparisons_witness :
  exists index e m,
    index_documents true true no_compression 1000 ab_options ab_docs = Ok index /\
    gin_bson_extract_query true 0 no_extract true true BSON_INDEX_STRATEGY_DOLLAR_GREATER query_filter
      (IndexOptionsType_SinglePath ab_options) = Ok e /\
    bson_dollar_gt true false false query_doc query_filter = Ok m /\
    forall recheck, right_answer (index_answer true ab_options index 0 true no_partial no_consistent
      BSON_INDEX_STRATEGY_DOLLAR_GREATER e recheck) m.
Proof.
  exact (index_answers_comparisons true true true true false false no_compression 1000 ab_options query_segs (str "$") ab_metadata
    ab_path ab_index (uncompressed_terms 1000) true true 0 no_extract no_partial no_consistent ab_docs 0 query_doc query_filter
    five five BSON_INDEX_STRATEGY_DOLLAR_GREATER _ (ab_docs_indexable true) eq_refl eq_refl (five_written true) five_ok
    ltac:(discriminate) eq_refl ltac:(discriminate)).
Defined.

Definition on_ab (f : bson_value) : fields := [(str "a.b", f)].

Lemma index_answers_null_witness :
  exists index e,
    index_documents true true no_compression 1000 ab_options ab_docs = Ok index /\
    gin_bson_extract_query true 0 no_extract true true BSON_INDEX_STRATEGY_DOLLAR_EQUAL (on_ab VNull)
      (IndexOptionsType_SinglePath ab_options) = Ok e /\
    forall recheck, right_answer (index_answer true ab_options index 2 true no_partial no_consistent
      BSON_INDEX_STRATEGY_DOLLAR_EQUAL e recheck) true.
Proof.
  refine (index_answers_null true true true true false false no_compression 1000 ab_options query_segs (str "$") ab_metadata
    ab_path ab_index (uncompressed_terms 1000) true true 0 no_extract no_partial no_consistent ab_docs 2 _ (on_ab VNull)
    BSON_INDEX_STRATEGY_DOLLAR_EQUAL _ true (ab_docs_indexable true) eq_refl eq_refl _ eq_refl _); [discriminate|vm_compute; reflexivity].
Defined.

Lemma index_answers_exists_witness :
  exists index e m,
    index_documents true true no_compression 1000 ab_options ab_docs = Ok index /\
    gin_bson_extract_query true 0 no_extract true true BSON_INDEX_STRATEGY_DOLLAR_EXISTS (on_ab (VBool false))
      (IndexOptionsType_SinglePath ab_options) = Ok e /\
    bson_dollar_exists true false false query_doc (on_ab (VBool false)) = Ok m /\
    forall recheck, right_answer (index_answer true ab_options index 0 true no_partial no_consistent
      BSON_INDEX_STRATEGY_DOLLAR_EXISTS e recheck) m.
Proof.
  exact (index_answers_exists true true true true false false no_compression 1000 ab_options query_segs (str "$") ab_metadata
    ab_path ab_index (uncompressed_terms 1000) true true 0 no_extract no_partial no_consistent ab_docs 0 query_doc
    (on_ab (VBool false)) (VBool false) false (ab_docs_indexable true) eq_refl eq_refl eq_refl eq_refl).
Defined.

(** [[ 5, "x" ]] *)
Definition five_and_x : fields := [(str "0", five); (str "1", VUtf8 (str "x"))].

Lemma index_answers_in_witness :
  exists index e e' m,
    index_documents true true no_compression 1000 ab_options ab_docs = Ok index /\
    gin_bson_extract_query true 0 no_extract true true BSON_INDEX_STRATEGY_DOLLAR_IN (on_ab (VArray five_and_x))
      (IndexOptionsType_SinglePath ab_options) = Ok e /\
    gin_bson_extract_query true 0 no_extract true true BSON_INDEX_STRATEGY_DOLLAR_NOT_IN (on_ab (VArray five_and_x))
      (IndexOptionsType_SinglePath ab_options) = Ok e' /\
    bson_dollar_in true false query_doc (on_ab (VArray five_and_x)) = Ok m /\
    bson_dollar_nin true false query_doc (on_ab (VArray five_and_x)) = Ok (negb m) /\
    forall recheck, right_answer (index_answer true ab_options index 0 true no_partial no_consistent
        BSON_INDEX_STRATEGY_DOLLAR_IN e recheck) m /\
      right_answer (index_answer true ab_options index 0 true no_partial no_consistent
        BSON_INDEX_STRATEGY_DOLLAR_NOT_IN e' recheck) (negb m).
Proof.
  refine (index_answers_in true true true true false no_compression 1000 ab_options query_segs (str "$") ab_metadata
    ab_path ab_index (uncompressed_terms 1000) true true 0 no_extract no_partial no_consistent ab_docs 0 query_doc
    (on_ab (VArray five_and_x)) five_and_x (ab_docs_indexable true) eq_refl eq_refl _ _).
  - repeat (apply Forall_cons; [split; [split; [vm_compute; intuition congruence|split; exact I]|eexists; written_ok]|]). apply Forall_nil.
  - exact query_doc_safe.
Defined.

(** ** Answers computed on concrete collections *)

Local Open Scope res_scope.
Definition ab_answer (strategy : BsonIndexStrategy) (filter : fields) (docs : list fields) (i : nat) : res (bool * bool) :=
  let* index := index_documents true true no_compression 100000 ab_options docs in
  let* e := gin_bson_extract_query true 0 no_extract true true strategy filter (IndexOptionsType_SinglePath ab_options) in
  index_answer true ab_options index i false no_partial no_consistent strategy e true.

Example ab_answers :
  map (ab_answer BSON_INDEX_STRATEGY_DOLLAR_GREATER (on_ab five) ab_docs) [0; 1; 2]%nat =
    [Ok (true, false); Ok (false, false); Ok (false, false)] /\
  map (ab_answer BSON_INDEX_STRATEGY_DOLLAR_NOT_LTE (on_ab five) ab_docs) [0; 1; 2]%nat =
    [Ok (false, false); Ok (true, false); Ok (true, false)] /\
  map (ab_answer BSON_INDEX_STRATEGY_DOLLAR_EQUAL (on_ab VNull) ab_docs) [0; 1; 2]%nat =
    [Ok (true, true); Ok (false, true); Ok (true, false)].
Proof. split; [|split]; vm_compute; reflexivity. Qed.

Definition doc_ab (v : bson_value) : fields := [(str "a", VDocument [(str "b", v)])].
Definition array_of (l : list bson_value) : bson_value :=
  VArray (map (fun iv => (bson_uint32_to_string (Z.of_nat (fst iv)), snd iv)) (combine (seq 0 (List.length l)) l)).

(** ** Where the index and the operator differ *)

(** The negation of [$gte] with the minimum key looks up documents that have the
    path only: a document without it matches and is not found. *)
Example not_gte_minkey_lost :
  bson_dollar_not_gte true false false [(str "c", VInt32 1)] (on_ab VMinKey) = Ok true /\
  ab_answer BSON_INDEX_STRATEGY_DOLLAR_NOT_GTE (on_ab VMinKey) [[(str "c", VInt32 1)]] 0 = Ok (false, false).
Proof. split; vm_compute; reflexivity. Qed.

(** A field whose name has a dot is indexed under the path it looks like. *)
Example dotted_name_found :
  bson_dollar_eq true false false (on_ab five) (on_ab five) = Ok false /\
  ab_answer BSON_INDEX_STRATEGY_DOLLAR_EQUAL (on_ab five) [on_ab five] 0 = Ok (true, false).
Proof. split; vm_compute; reflexivity. Qed.

(** Inside arrays a decimal is written to the term as the nearest double, which is
    another number: [ NumberDecimal("0.1") ] is found for [ 0.1 ] and not rechecked. *)
Example decimal_in_array_found :
  let document := doc_ab (array_of [VDecimal128 {| dec_high := 3476215962376601600; dec_low := 1 |}]) in
  let filter := on_ab (array_of [VDouble 4591870180066957722]) in
  bson_dollar_eq true false false document filter = Ok false /\
  ab_answer BSON_INDEX_STRATEGY_DOLLAR_EQUAL filter [document] 0 = Ok (true, false).
Proof. split; vm_compute; reflexivity. Qed.

Definition long_text : bytes := repeat x61 300.

(** [$nin] with a regular expression: a truncated string that matches it is
    returned without recheck. *)
Example nin_regex_truncated_found :
  let document := doc_ab (VUtf8 long_text) in
  let filter := on_ab (array_of [VRegex (Some long_text) (Some [])]) in
  bson_dollar_nin true false document filter = Ok false /\
  ab_answer BSON_INDEX_STRATEGY_DOLLAR_NOT_IN filter [document] 0 = Ok (true, false).
Proof. split; vm_compute; reflexivity. Qed.

(** [$in] with a null and a truncated string: the recheck that the null asks for,
    since an array is on the path, is dropped. *)
Example in_null_truncated_found :
  let document := [(str "a", array_of [VDocument [(str "b", VInt32 1)]; VInt32 1])] in
  let filter := on_ab (array_of [VNull; VUtf8 long_text]) in
  bson_dollar_in true false document filter = Ok false /\
  ab_answer BSON_INDEX_STRATEGY_DOLLAR_IN filter [document] 0 = Ok (true, false).
Proof. split; vm_compute; reflexivity. Qed.

(** ** Path specifications *)

Definition two_paths : fields := [(str "0", VUtf8 (str "ab")); (str "1", VUtf8 (str "a"))].
Definition projection (exclusion withId : bool) (spec : fields) : BsonGinWildcardProjectionPathOptions :=
  {| projection_base := single_base ab_options; isExclusion := exclusion; includeId := withId;
     pathSpec := match FillWildcardProjectPathSpec (Some spec) with Ok b => b | Err _ => [] end |}.

Lemma path_specs_roundtrip_witness :
  projection_paths (projection false false two_paths) = [str "ab"; str "a"].
Proof.
  refine (proj1 (path_specs_roundtrip two_paths [str "ab"; str "a"] (projection false false two_paths) _ eq_refl _ _ eq_refl eq_refl)).
  - repeat constructor.
  - reflexivity.
Defined.

(** A path of the projection that is a prefix of one listed before it is not
    indexed: the loop stops at the longer one. *)
Example projection_prefix_order :
  GetWildcardProjectionPathIndexTraverseOption (projection false false two_paths) (str "a") = IndexTraverse_Recurse /\
  GetWildcardProjectionPathIndexTraverseOption (projection false false (rev two_paths)) (str "a") = IndexTraverse_MatchAndRecurse.
Proof. split; vm_compute; reflexivity. Qed.

(** When the projection leaves [_id] out, nothing below it is indexed, but a query on
    a field of it is taken for one the index answers. *)
Example projection_id_fields :
  let o := projection true false two_paths in
  GetWildcardProjectionPathIndexTraverseOption o (str "_id") = IndexTraverse_Invalid /\
  gin_bson_wildcard_project_extract_value true true no_compression 1000 [(str "_id", VDocument [(str "x", five)])] o =
    gin_bson_wildcard_project_extract_value true true no_compression 1000 [] o /\
  ValidateIndexForQualifierValue true true (IndexOptionsType_Wildcard o) [(str "_id.x", five)] BSON_INDEX_STRATEGY_DOLLAR_EQUAL = Ok true.
Proof. split; [|split]; vm_compute; reflexivity. Qed.
