(* ===== verification/UpdatePaths.v ===== *)
(** * What an update does to a document

    A reference semantics of update trees on documents: what a node makes of the value
    at its place, or of its absence.  The code implements it where the tree meets
    documents; the fields the tree leads to are updated, and all others are kept. *)

From Stdlib Require Import ZArith Lia Bool String List SpecFloat Sorted Permutation.
From Stdlib Require Import Strings.Byte.
From S2P Require Import Prelude SoftFloat BsonTypes StringView Decimal128 BsonCompare BsonOrder RefBid BsonRefine.
From S2P Require Import BsonArith Traversal PgbsonElement DollarOperators BsonWriter SortUtils ExprEval.
From S2P Require Import UpdateOperators UpdateTree UpdateWorkflow.
Import ListNotations.
Local Open Scope Z_scope.

Definition same_key (a b : bytes) : bool := cmp_bytes a b =? 0.

Lemma same_key_iff a b : same_key a b = true <-> a = b.
Proof. unfold same_key. rewrite Z.eqb_eq. split; [apply cmp_bytes_0|intros ->; apply cmp_bytes_refl]. Qed.

Lemma same_key_refl a : same_key a a = true.
Proof. now apply same_key_iff. Qed.

Lemma same_key_sym a b : same_key a b = same_key b a.
Proof. apply eq_iff_eq_true. rewrite !same_key_iff. split; congruence. Qed.

Lemma view_same_key a b : no_nul a -> StringViewEquals (Some a) (Some b) = same_key a b.
Proof. intros H. apply eq_iff_eq_true. now rewrite StringViewEquals_iff, same_key_iff. Qed.

Section NodeInd.
Context {BL : BidLib} {LB : LibBson} {UV : UnionView} {LD : LibBsonDoc} {EE : ExprEngine} {PS : PgSort}
  {PQ : PositionalQuery}.
Variable P : BsonPathNode -> Prop.
Hypothesis HLeaf : forall l, P (LeafNode l).
Hypothesis HNode : forall i cs, Forall P cs -> P (IntermediateNode i cs).

Fixpoint node_ind (n : BsonPathNode) : P n :=
  match n with
  | LeafNode l => HLeaf l
  | IntermediateNode i cs =>
    HNode i cs ((fix go cs : Forall P cs :=
      match cs with [] => Forall_nil P | c :: cs => Forall_cons c (node_ind c) (go cs) end) cs)
  end.
End NodeInd.

Definition value_in (d : fields) (k : bytes) : bson_value := match lookup d k with Some v => v | None => VEod end.

(** A field, when there is a value for it. *)
Definition opt_field (k : bytes) (o : option bson_value) : fields := match o with Some v => [(k, v)] | None => [] end.

Section Spec.
Context {BL : BidLib} {LB : LibBson} {UV : UnionView} {LD : LibBsonDoc} {EE : ExprEngine} {PS : PgSort}
  {PQ : PositionalQuery} {LN : LibBsonNew}.

Definition stored (v : bson_value) : bson_value := match bson_append_value v with Some v' => v' | None => v end.

(** The new value, if there is one, and whether the field is modified. *)
Definition outcome : Set := option bson_value * bool.

(** What the operator of each leaf does to the value at its path. *)
Variable effect : BsonUpdateLeafNode -> bson_value -> outcome.

Section Children.
Variable update_node : BsonPathNode -> bson_value -> outcome.

Fixpoint update_field (children : list BsonPathNode) (k : bytes) (v : bson_value) : outcome :=
  match children with
  | [] => (Some (stored v), false)
  | c :: children => if same_key (field c) k then update_node c v else update_field children k v
  end.

Definition has_field (d : fields) (c : BsonPathNode) : bool := existsb (fun kv => same_key (fst kv) (field c)) d.

(** The children for which the document has no field. *)
Fixpoint update_missing (children : list BsonPathNode) (d : fields) : fields :=
  match children with
  | [] => []
  | c :: children =>
    (if has_field d c then [] else opt_field (field c) (fst (update_node c VEod))) ++ update_missing children d
  end.

Fixpoint missing_modified (children : list BsonPathNode) (d : fields) : bool :=
  match children with
  | [] => false
  | c :: children => (negb (has_field d c) && snd (update_node c VEod)) || missing_modified children d
  end.

(** The fields of the document in their order, then the missing ones. *)
Definition update_present (children : list BsonPathNode) (d : fields) : fields :=
  flat_map (fun kv => opt_field (fst kv) (fst (update_field children (fst kv) (snd kv)))) d.

Definition present_modified (children : list BsonPathNode) (d : fields) : bool :=
  existsb (fun kv => snd (update_field children (fst kv) (snd kv))) d.

Definition update_fields (children : list BsonPathNode) (d : fields) : fields :=
  update_present children d ++ update_missing children d.

Definition fields_modified (children : list BsonPathNode) (d : fields) : bool :=
  present_modified children d || missing_modified children d.
End Children.

Fixpoint update_node (n : BsonPathNode) (v : bson_value) : outcome :=
  match n with
  | LeafNode l =>
    match v, leaf_nodeType l with
    | VEod, NodeType_LeafExcluded => (None, false)
    | _, _ => effect l v
    end
  | IntermediateNode i cs =>
    match v with
    | VDocument d => (Some (VDocument (update_fields update_node cs d)), fields_modified update_node cs d)
    | VEod =>
      if hasExpressionFieldsInChildren i || HasIntermediateIncludeChildren i
      then (Some (VDocument (update_fields update_node cs [])), fields_modified update_node cs [])
      else (None, false)
    | _ => (Some (stored v), false)
    end
  end.

(** ** Where the reference semantics applies *)

Variable st : CurrentDocumentState.

(** The operator of a leaf returns, and writes nothing but the value of its effect. *)
Definition leaf_writes (l : BsonUpdateLeafNode) (v : bson_value) : Prop :=
  forall w, WriteCurrentNode l v (ObjectElementWriter w (leaf_field l)) st false false (leaf_field l) =
    Ok (ObjectElementWriter (w ++ opt_field (leaf_field l) (fst (effect l v))) (leaf_field l), snd (effect l v)).

(** Children without positional operators, whose fields are distinct. *)
Definition children_ok (cs : list BsonPathNode) : Prop :=
  NoDup (map field cs) /\ Forall (fun c => no_nul (field c) /\ GetPositionalData c = PositionalType_None) cs.

Definition document_ok (d : fields) : Prop :=
  NoDup (map fst d) /\ Forall (fun kv => no_nul (fst kv) /\ snd kv <> VEod) d.

(** A tree fits a value: below an intermediate node there is a document or nothing, or a
    value the update does not have to enter. *)
Fixpoint fits (n : BsonPathNode) (v : bson_value) : Prop :=
  match n with
  | LeafNode l => match v, leaf_nodeType l with VEod, NodeType_LeafExcluded => True | _, _ => leaf_writes l v end
  | IntermediateNode i cs =>
    hasPositionalChildren i = false /\ children_ok cs /\
    match v with
    | VDocument d => document_ok d /\
      (fix all cs := match cs with [] => True | c :: cs => fits c (value_in d (field c)) /\ all cs end) cs
    | VEod => (fix all cs := match cs with [] => True | c :: cs => fits c VEod /\ all cs end) cs
    | VArray _ => False
    | _ => hasExpressionFieldsInChildren i = false /\ HasIntermediateIncludeChildren i = false /\
      IsAnErrorForIntermediateNodeOfDollarRenameOp (sourceOrTargetNodeForRenameOP i) (sourceDocument st) = false
    end
  end.

Definition all_fit (cs : list BsonPathNode) (d : fields) : Prop := Forall (fun c => fits c (value_in d (field c))) cs.

Lemma fits_document i cs d : fits (IntermediateNode i cs) (VDocument d) ->
  hasPositionalChildren i = false /\ children_ok cs /\ document_ok d /\ all_fit cs d.
Proof.
  cbn [fits]. intros (H1 & H2 & H3 & H4). repeat split; try apply H2; try apply H3; auto. clear -H4.
  unfold all_fit. induction cs as [|c cs IH]; constructor; [apply H4|]. now apply IH.
Qed.

Lemma fits_missing i cs : fits (IntermediateNode i cs) VEod ->
  hasPositionalChildren i = false /\ children_ok cs /\ all_fit cs [].
Proof.
  cbn [fits]. intros (H1 & H2 & H4). repeat split; try apply H2; auto. clear -H4.
  unfold all_fit. induction cs as [|c cs IH]; constructor; [apply H4|]. now apply IH.
Qed.

(** ** The code implements it *)

Context {LDL : LibBsonDocLaws LD}.

Lemma append_stored bson k v : v <> VEod -> append bson k v = Ok (bson ++ [(k, stored v)]).
Proof.
  intros Hv. unfold append, stored. destruct (append_type v Hv) as (v' & -> & _). reflexivity.
Qed.

Lemma write_object w k v : v <> VEod ->
  PgbsonElementWriterWriteValue (ObjectElementWriter w k) v = Ok (ObjectElementWriter (w ++ [(k, stored v)]) k).
Proof.
  intros Hv. cbn [PgbsonElementWriterWriteValue]. unfold PgbsonWriterAppendValue. now rewrite append_stored.
Qed.

(** The first child with this field and its index, from [i] on. *)
Fixpoint child_at (cs : list BsonPathNode) (i : Z) (k : bytes) : option (Z * BsonPathNode) :=
  match cs with
  | [] => None
  | c :: cs => if same_key (field c) k then Some (i, c) else child_at cs (i + 1) k
  end.

Lemma match_child_at cs k v : no_nul k -> Forall (fun c => GetPositionalData c = PositionalType_None) cs ->
  forall i, match_child cs i k false st v = Ok (child_at cs i k, st).
Proof.
  intros Hk. induction 1 as [|c cs Hc _ IH]; intros i; cbn [match_child child_at]; [reflexivity|].
  unfold IsNodeMatchForIteratorPath. rewrite Hc. cbn [andb res_bind].
  rewrite view_same_key by exact Hk. rewrite same_key_sym. destruct (same_key (field c) k); [reflexivity|apply IH].
Qed.

Lemma update_field_at f cs k v i :
  update_field f cs k v = match child_at cs i k with Some (_, c) => f c v | None => (Some (stored v), false) end.
Proof.
  revert i. induction cs as [|c cs IH]; intros i; cbn [update_field child_at]; [reflexivity|].
  destruct (same_key (field c) k); [reflexivity|apply IH].
Qed.

Lemma child_at_Some cs i k j c : child_at cs i k = Some (j, c) ->
  field c = k /\ In c cs /\ i <= j /\ nth_error cs (Z.to_nat (j - i)) = Some c.
Proof.
  revert i. induction cs as [|c' cs IH]; intros i; cbn [child_at]; [discriminate|].
  destruct (same_key (field c') k) eqn:E.
  - intros [= <- <-]. apply same_key_iff in E. replace (i - i) with 0 by lia. cbn. repeat split; auto. lia.
  - intros H. apply IH in H as (H1 & H2 & H3 & H4). repeat split; [exact H1|now right|lia|].
    replace (Z.to_nat (j - i)) with (S (Z.to_nat (j - (i + 1)))) by lia. exact H4.
Qed.

(** What the traversal returns for a node that fits. *)
Definition implements (n : BsonPathNode) : Prop :=
  match n with
  | LeafNode _ => True
  | IntermediateNode i cs =>
    (forall d w, fits n (VDocument d) ->
      TraverseDocumentAndApplyUpdate TraverseNested d w i cs false st false =
      Ok (w ++ update_fields update_node cs d, st, fields_modified update_node cs d)) /\
    (forall w, fits n VEod ->
      unresolved_node n w st false =
      Ok (w ++ update_fields update_node cs [], fields_modified update_node cs []))
  end.

Lemma HandleCurrentIteratorPosition_spec cs k v w handled :
  no_nul k -> v <> VEod -> children_ok cs -> Forall implements cs ->
  (forall c, In c cs -> field c = k -> fits c v) ->
  HandleCurrentIteratorPosition TraverseNested k v cs (ObjectElementWriter w k) handled st false false =
  Ok (ObjectElementWriter (w ++ opt_field k (fst (update_field update_node cs k v))) k,
      match child_at cs 0 k with Some (j, _) => j :: handled | None => handled end, st,
      snd (update_field update_node cs k v)).
Proof.
  intros Hk Hv [_ Hc] Hi Hf. unfold HandleCurrentIteratorPosition.
  rewrite match_child_at by (try apply (Forall_impl _ (fun c H => proj2 H) Hc); exact Hk). cbn [res_bind].
  rewrite (update_field_at _ cs k v 0). destruct (child_at cs 0 k) as [[j c]|] eqn:E.
  2: { now rewrite write_object by exact Hv. }
  apply child_at_Some in E as (Ek & Ec & _). specialize (Hf c Ec Ek). rewrite Forall_forall in Hi. specialize (Hi c Ec).
  destruct c as [l|i gcs].
  - cbn [field] in Ek. subst k. cbn [fits update_node] in *. unfold leaf_writes in Hf.
    destruct v; try congruence; rewrite Hf; reflexivity.
  - destruct v; try congruence; try (now cbn in Hf);
      try (destruct Hf as (_ & _ & -> & _ & ->); cbn [negb]; now rewrite write_object by congruence).
    cbn [TraverseNested PgbsonElementWriterStartDocument PgbsonWriterStartDocument].
    destruct Hi as [Hi _]. rewrite Hi by exact Hf. reflexivity.
Qed.

Definition marks (handled handled' : list Z) (cs : list BsonPathNode) (d : fields) : Prop :=
  forall j c, nth_error cs j = Some c ->
    bms_is_member handled' (Z.of_nat j) = bms_is_member handled (Z.of_nat j) || has_field d c.

Lemma child_at_index cs k i : NoDup (map field cs) -> forall j c, nth_error cs j = Some c ->
  match child_at cs i k with Some (m, _) => Z.eqb (i + Z.of_nat j) m | None => false end = same_key (field c) k.
Proof.
  revert i. induction cs as [|c' cs IH]; intros i N j c; [now destruct j|].
  inversion_clear N as [|? ? Hn N']. destruct j as [|j]; cbn [nth_error child_at].
  - intros [= ->]. destruct (same_key (field c) k) eqn:E; [apply Z.eqb_eq; lia|].
    destruct (child_at cs (i + 1) k) as [[m c']|] eqn:F; [|reflexivity].
    apply child_at_Some in F as (_ & _ & F & _). apply Z.eqb_neq. lia.
  - intros Hj. destruct (same_key (field c') k) eqn:E.
    + apply same_key_iff in E. subst k. assert (D : field c <> field c').
      { intros D. apply Hn. rewrite <- D. apply in_map. now apply nth_error_In in Hj. }
      destruct (same_key (field c) (field c')) eqn:F; [now apply same_key_iff in F|]. apply Z.eqb_neq. lia.
    + rewrite <- (IH (i + 1) N' j c Hj). now replace (i + 1 + Z.of_nat j) with (i + Z.of_nat (S j)) by lia.
Qed.

Lemma marks_step cs k v d handled : NoDup (map field cs) ->
  forall handled', marks (match child_at cs 0 k with Some (j, _) => j :: handled | None => handled end) handled' cs d ->
  marks handled handled' cs ((k, v) :: d).
Proof.
  intros N handled' M j c Hj. rewrite (M j c Hj). unfold has_field. cbn [existsb fst].
  rewrite <- (same_key_sym (field c) k), <- (child_at_index cs k 0 N j c Hj), orb_assoc. f_equal.
  destruct (child_at cs 0 k) as [[m c']|]; [|now rewrite orb_false_r].
  unfold bms_is_member. cbn [existsb]. rewrite orb_comm. f_equal. 
Qed.

Lemma document_fields_spec cs : children_ok cs -> Forall implements cs -> forall d w handled,
  document_ok d -> (forall c v, In c cs -> In (field c, v) d -> fits c v) ->
  exists handled', marks handled handled' cs d /\
  document_fields TraverseNested d cs w handled false st false =
  Ok (w ++ update_present update_node cs d, handled', st, present_modified update_node cs d).
Proof.
  intros Hc Hi. induction d as [|[k v] d IH]; intros w handled [N F] Hf; cbn [document_fields andb].
  - exists handled. split; [intros j c _; symmetry; apply orb_false_r|]. cbn. now rewrite app_nil_r.
  - inversion_clear F as [|? ? [Hk Hv] F']. inversion_clear N as [|? ? Nk N']. cbn [fst snd] in Hk, Hv.
    unfold PgbsonInitObjectElementWriter.
    rewrite HandleCurrentIteratorPosition_spec; auto.
    2: { intros c Hc' <-. apply Hf; [exact Hc'|now left]. }
    cbn [res_bind].
    destruct (IH (w ++ opt_field k (fst (update_field update_node cs k v)))
      (match child_at cs 0 k with Some (j, _) => j :: handled | None => handled end)) as (handled' & M & E).
    { now split. } { intros c v' H1 H2. apply Hf; [exact H1|now right]. }
    exists handled'. split; [apply marks_step; [apply Hc|exact M]|]. rewrite E. cbn [res_bind].
    unfold update_present, present_modified. cbn [flat_map existsb fst snd]. now rewrite app_assoc.
Qed.

(** At the root the node of [_id] is skipped, and unless the update is an upsert no field
    that starts with a dollar sign is added. *)
Definition addable (isRootLevel : bool) (c : BsonPathNode) : Prop :=
  isRootLevel = true -> same_key (field c) id_field = false /\
    (isUpsert st = true \/ byte_eqb (char_at (field c) 0) "$"%byte = false).

Lemma unresolved_children_spec isRootLevel handled d : forall cs i w,
  Forall (fun c => no_nul (field c)) cs -> Forall implements cs -> Forall (addable isRootLevel) cs ->
  (forall c, In c cs -> has_field d c = false -> fits c VEod) ->
  (forall j c, nth_error cs j = Some c -> bms_is_member handled (i + Z.of_nat j) = has_field d c) ->
  unresolved_children unresolved_node cs i handled w isRootLevel st false =
  Ok (w ++ update_missing update_node cs d, missing_modified update_node cs d).
Proof.
  induction cs as [|c cs IH]; intros i w Hn Hi Ha Hf Hm; cbn [unresolved_children update_missing missing_modified].
  { now rewrite app_nil_r. }
  inversion_clear Hn as [|? ? Nc Hn']. inversion_clear Hi as [|? ? Ic Hi']. inversion_clear Ha as [|? ? Ac Ha'].
  assert (Hm' : forall j c, nth_error cs j = Some c -> bms_is_member handled (i + 1 + Z.of_nat j) = has_field d c).
  { intros j c' H. rewrite <- (Hm (S j) c' H). f_equal. lia. }
  assert (R : (isRootLevel && StringViewEquals (Some (field c)) (Some id_field)) = false).
  { destruct isRootLevel; [|reflexivity]. rewrite view_same_key by exact Nc. now apply Ac. }
  rewrite R. pose proof (Hm 0%nat c eq_refl) as M0. rewrite Z.add_0_r in M0. rewrite M0.
  destruct (has_field d c) eqn:Hc.
  { cbn [app negb andb orb]. apply IH; auto. intros; apply Hf; [now right|assumption]. }
  assert (D : (isRootLevel && (blen (field c) >? 0) && byte_eqb (char_at (field c) 0) "$"%byte && negb (isUpsert st)) = false).
  { destruct isRootLevel; [|reflexivity]. destruct (Ac eq_refl) as [_ [->| ->]]; now rewrite ?andb_false_r. }
  rewrite D. specialize (Hf c (or_introl eq_refl) Hc) as Fc.
  assert (S : forall w, match c with
      | LeafNode leaf =>
        match leaf_nodeType leaf with
        | NodeType_LeafExcluded => Ok (w, false)
        | NodeType_LeafIncluded | NodeType_LeafField =>
          res_bind (WriteCurrentNode leaf VEod (PgbsonInitObjectElementWriter w (field c)) st false false (field c))
            (fun '(ew, innerModified) =>
              Ok (match ew with ObjectElementWriter w _ => w | ArrayElementWriter _ => w end, innerModified))
        end
      | IntermediateNode intermediate _ =>
        if IsIntermediateNodeWithField c || HasIntermediateIncludeChildren intermediate then
          res_bind (unresolved_node c (PgbsonWriterStartDocument w (field c)) st false)
            (fun '(childWriter, innerModified) => Ok (PgbsonWriterEndDocument w (field c) childWriter, innerModified))
        else Ok (w, false)
      end = Ok (w ++ opt_field (field c) (fst (update_node c VEod)), snd (update_node c VEod))).
  { clear -Fc Ic. intros w. destruct c as [l|j gcs]; cbn [update_node field IsIntermediateNodeWithField].
    - cbn [fits] in Fc. destruct (leaf_nodeType l); cbn [fst snd opt_field]; [|now rewrite app_nil_r|];
        unfold PgbsonInitObjectElementWriter; now rewrite Fc.
    - destruct (_ || _); cbn [fst snd opt_field]; [|now rewrite app_nil_r].
      destruct Ic as [_ Ic]. rewrite Ic by exact Fc. reflexivity. }
  rewrite S. cbn [res_bind]. rewrite IH; auto; [|intros; apply Hf; [now right|assumption]].
  cbn [res_bind negb andb]. now rewrite app_assoc.
Qed.

Lemma lookup_In d k v : NoDup (map fst d) -> In (k, v) d -> lookup d k = Some v.
Proof.
  unfold lookup. induction d as [|[k' v'] d IH]; cbn; [easy|]. intros N [[= -> ->]|H].
  - now rewrite cmp_bytes_refl.
  - inversion_clear N as [|? ? Nk N']. destruct (Z.eqb_spec (cmp_bytes k' k) 0) as [E|_]; [|now apply IH].
    apply cmp_bytes_0 in E. subst k'. elim Nk. now apply (in_map fst) in H.
Qed.

Lemma lookup_Some_In d k v : lookup d k = Some v -> In (k, v) d.
Proof.
  unfold lookup. induction d as [|[k' v'] d IH]; cbn; [discriminate|].
  destruct (Z.eqb_spec (cmp_bytes k' k) 0) as [E|_]; [|intros; right; now apply IH].
  apply cmp_bytes_0 in E. subst k'. intros [= ->]. now left.
Qed.

Lemma lookup_has_field d c : has_field d c = match lookup d (field c) with Some _ => true | None => false end.
Proof.
  unfold has_field, lookup, same_key. induction d as [|[k' v'] d IH]; cbn; [reflexivity|]. now destruct (_ =? 0).
Qed.

Lemma has_field_missing d c : has_field d c = false -> value_in d (field c) = VEod.
Proof. rewrite lookup_has_field. unfold value_in. now destruct (lookup d (field c)). Qed.

Lemma all_fit_In cs d c v : document_ok d -> all_fit cs d -> In c cs -> In (field c, v) d -> fits c v.
Proof.
  intros [N _] F Hc Hv. unfold all_fit in F. rewrite Forall_forall in F. specialize (F c Hc).
  unfold value_in in F. now rewrite (lookup_In d (field c) v N Hv) in F.
Qed.

Lemma children_no_nul cs : children_ok cs -> Forall (fun c => no_nul (field c)) cs.
Proof. intros [_ H]. exact (Forall_impl _ (fun c H => proj1 H) H). Qed.

Lemma not_root cs : Forall (addable false) cs.
Proof. apply Forall_forall. now intros c _. Qed.

Lemma implements_all (n : BsonPathNode) : implements n.
Proof.
  induction n as [l|i cs Hi] using node_ind; [exact I|]. split.
  - intros d w F. apply fits_document in F as (Hp & Hc & Hd & Hf). unfold TraverseDocumentAndApplyUpdate.
    destruct (document_fields_spec cs Hc Hi d w [] Hd) as (handled & M & ->).
    { intros c v. now apply all_fit_In. }
    cbn [res_bind]. unfold HandleUnresolvedDocumentFields. rewrite Hp.
    rewrite (unresolved_children_spec false handled d) by
      (auto using children_no_nul, not_root;
       try (intros c Hc' Hm; rewrite <- (has_field_missing d c Hm); unfold all_fit in Hf; rewrite Forall_forall in Hf; now apply Hf);
       intros j c Hj; rewrite Z.add_0_l; rewrite (M j c Hj); reflexivity).
    cbn [res_bind]. unfold update_fields, fields_modified. now rewrite app_assoc.
  - intros w F. apply fits_missing in F as (Hp & Hc & Hf). cbn [unresolved_node]. rewrite Hp.
    rewrite (unresolved_children_spec false [] []) by
      (auto using children_no_nul, not_root;
       try (intros c Hc' Hm; unfold all_fit in Hf; rewrite Forall_forall in Hf; now apply (Hf c Hc'));
       intros j c Hj; reflexivity).
    reflexivity.
Qed.

(** ** Lookup of an updated field *)

Definition or_eod (o : option bson_value) : bson_value := match o with Some v => v | None => VEod end.

Lemma lookup_app d e k : lookup (d ++ e) k = match lookup d k with Some v => Some v | None => lookup e k end.
Proof. unfold lookup. induction d as [|[k' v'] d IH]; cbn; [reflexivity|]. now destruct (_ =? 0). Qed.

Lemma lookup_opt_field k o k' : lookup (opt_field k o) k' = if same_key k k' then o else None.
Proof. destruct o; cbn; unfold lookup, same_key; cbn; now destruct (_ =? 0). Qed.

Lemma lookup_present f cs d k : NoDup (map fst d) ->
  lookup (update_present f cs d) k =
  match lookup d k with Some v => fst (update_field f cs k v) | None => None end.
Proof.
  unfold update_present. induction d as [|[k' v'] d IH]; intros N; [reflexivity|].
  cbn [flat_map fst snd]. rewrite lookup_app, lookup_opt_field. inversion_clear N as [|? ? Nk N'].
  unfold lookup at 2. cbn [find fst]. change (cmp_bytes k' k =? 0) with (same_key k' k).
  destruct (same_key k' k) eqn:E; [|now apply IH]. apply same_key_iff in E. subst k'. cbn [option_map snd].
  destruct (fst (update_field f cs k v')); [reflexivity|]. rewrite IH by exact N'.
  destruct (lookup d k) as [v|] eqn:L; [|reflexivity]. apply lookup_Some_In in L. elim Nk. now apply (in_map fst) in L.
Qed.

Lemma lookup_missing f cs d k i :
  lookup (update_missing f cs d) k =
  match lookup d k with
  | Some _ => None
  | None => match child_at cs i k with Some (_, c) => fst (f c VEod) | None => None end
  end \/ ~ NoDup (map field cs).
Proof.
  revert i. induction cs as [|c cs IH]; intros i; cbn [update_missing child_at].
  { left. now destruct (lookup d k). }
  destruct (IH (i + 1)) as [E|E]; [|right; now inversion 1]. 
  rewrite lookup_app, E, lookup_has_field. clear E IH.
  destruct (same_key (field c) k) eqn:K.
  - apply same_key_iff in K. subst k. destruct (lookup d (field c)); [now left|].
    rewrite lookup_opt_field, same_key_refl. destruct (fst (f c VEod)); [now left|].
    destruct (child_at cs (i + 1) (field c)) as [[j c']|] eqn:F; [|now left]. right.
    apply child_at_Some in F as (F & G & _). inversion_clear 1 as [|? ? Nc _]. apply Nc. rewrite <- F. now apply in_map.
  - left. destruct (lookup d (field c)); [reflexivity|]. now rewrite lookup_opt_field, K.
Qed.

(** An updated field has the outcome of its node; the other fields are copied. *)
Lemma lookup_update_fields f cs d k : NoDup (map field cs) -> NoDup (map fst d) ->
  lookup (update_fields f cs d) k =
  match child_at cs 0 k with
  | Some (_, c) => fst (f c (value_in d k))
  | None => option_map stored (lookup d k)
  end.
Proof.
  intros Nc Nd. unfold update_fields, value_in. rewrite lookup_app, lookup_present by exact Nd.
  destruct (lookup_missing f cs d k 0) as [->|H]; [|contradiction].
  destruct (lookup d k) as [v|] eqn:L.
  - rewrite (update_field_at f cs k v 0). destruct (child_at cs 0 k) as [[j c]|]; [|reflexivity].
    now destruct (fst (f c v)).
  - now destruct (child_at cs 0 k) as [[j c]|].
Qed.

Lemma child_at_In cs i c : NoDup (map field cs) -> In c cs -> exists j, child_at cs i (field c) = Some (j, c).
Proof.
  revert i. induction cs as [|c' cs IH]; intros i N; [easy|]. inversion_clear N as [|? ? Nc N']. cbn [child_at].
  intros [->|H]; [rewrite same_key_refl; eauto|]. destruct (same_key (field c') (field c)) eqn:E; [|now apply IH].
  apply same_key_iff in E. elim Nc. rewrite E. now apply in_map.
Qed.

Lemma missing_modified_iff f cs d : missing_modified f cs d = true <->
  exists c, In c cs /\ has_field d c = false /\ snd (f c VEod) = true.
Proof.
  induction cs as [|c cs IH]; cbn [missing_modified]; [split; [discriminate|now intros (c & [] & _)]|].
  rewrite orb_true_iff, andb_true_iff, negb_true_iff, IH. split.
  - intros [[H1 H2]|(c' & H1 & H2)]; [exists c|exists c']; repeat split; auto; [now left|now right|apply H2|apply H2].
  - intros (c' & [->|H1] & H2); [now left|right; now exists c'].
Qed.

Lemma fields_modified_iff f cs d : NoDup (map field cs) -> NoDup (map fst d) ->
  fields_modified f cs d = true <-> exists c, In c cs /\ snd (f c (value_in d (field c))) = true.
Proof.
  intros Nc Nd. unfold fields_modified, present_modified. rewrite orb_true_iff, existsb_exists, missing_modified_iff. split.
  - intros [([k v] & Hk & H)|(c & Hc & Hm & H)]; cbn [fst snd] in *.
    + rewrite (update_field_at f cs k v 0) in H. destruct (child_at cs 0 k) as [[j c]|] eqn:E; [|discriminate].
      apply child_at_Some in E as (<- & Hc & _). exists c. split; [exact Hc|].
      unfold value_in. now rewrite (lookup_In d (field c) v Nd Hk).
    + exists c. split; [exact Hc|]. now rewrite has_field_missing.
  - intros (c & Hc & H). destruct (has_field d c) eqn:E.
    + left. rewrite lookup_has_field in E. unfold value_in in H. destruct (lookup d (field c)) as [v|] eqn:L; [|discriminate].
      exists (field c, v). split; [now apply lookup_Some_In|]. cbn [fst snd].
      rewrite (update_field_at f cs (field c) v 0). destruct (child_at_In cs 0 c Nc Hc) as [j ->]. exact H.
    + right. exists c. repeat split; auto. now rewrite has_field_missing in H.
Qed.

(** ** Paths *)

(** The value at a path through documents, [VEod] where there is none. *)
Fixpoint lookup_path (p : list bytes) (v : bson_value) : bson_value :=
  match p with
  | [] => v
  | k :: p => match v with VDocument d => lookup_path p (value_in d k) | _ => VEod end
  end.

Fixpoint node_at (p : list bytes) (n : BsonPathNode) : option BsonPathNode :=
  match p with
  | [] => Some n
  | k :: p =>
    match n with
    | IntermediateNode _ cs => match child_at cs 0 k with Some (_, c) => node_at p c | None => None end
    | LeafNode _ => None
    end
  end.

(** Whether a node can add a field, and that the flags of the inner nodes say so. *)
Fixpoint adds (n : BsonPathNode) : bool :=
  match n with
  | LeafNode l => match leaf_nodeType l with NodeType_LeafExcluded => false | _ => true end
  | IntermediateNode _ cs => existsb adds cs
  end.

Fixpoint flags_ok (n : BsonPathNode) : Prop :=
  match n with
  | LeafNode _ => True
  | IntermediateNode i cs =>
    (existsb adds cs = true -> hasExpressionFieldsInChildren i || HasIntermediateIncludeChildren i = true) /\
    (fix all cs := match cs with [] => True | c :: cs => flags_ok c /\ all cs end) cs
  end.

Lemma flags_children i cs : flags_ok (IntermediateNode i cs) -> Forall flags_ok cs.
Proof. intros [_ H]. induction cs as [|c cs IH]; constructor; [apply H|now apply IH]. Qed.

Lemma lookup_path_eod p : lookup_path p VEod = VEod.
Proof. now destruct p. Qed.

Lemma not_added p n l : adds n = false -> node_at p n = Some (LeafNode l) -> update_node (LeafNode l) VEod = (None, false).
Proof.
  revert n. induction p as [|k p IH]; intros n A; cbn [node_at].
  - intros [= ->]. cbn in *. destruct (leaf_nodeType l); try discriminate. reflexivity.
  - destruct n as [|i cs]; [discriminate|]. destruct (child_at cs 0 k) as [[j c]|] eqn:E; [|discriminate].
    apply child_at_Some in E as (_ & Hc & _). apply IH. cbn in A. apply not_true_iff_false in A.
    apply not_true_iff_false. intros T. apply A. apply existsb_exists. now exists c.
Qed.

Lemma stored_type v : value_type (stored v) = value_type v.
Proof.
  unfold stored. destruct v eqn:E; try (now rewrite append_eod);
  destruct (append_type v) as (v' & H1 & H2); subst v; try discriminate; now rewrite H1.
Qed.

Lemma lookup_stored k p v : (forall d, v <> VDocument d) -> lookup_path (k :: p) (stored v) = VEod.
Proof.
  intros H. pose proof (stored_type v) as T. cbn [lookup_path]. destruct (stored v) eqn:E; try reflexivity.
  destruct v; cbn in T; try discriminate. now elim (H d0).
Qed.

(** Entering an inner node: the value below is that of the child, or there is neither a
    field nor one to be added. *)
Lemma update_node_enter i cs v k p :
  flags_ok (IntermediateNode i cs) -> fits (IntermediateNode i cs) v ->
  let inner := match v with VDocument d => value_in d k | _ => VEod end in
  let path := lookup_path (k :: p) (or_eod (fst (update_node (IntermediateNode i cs) v))) in
  (forall j c, child_at cs 0 k = Some (j, c) -> fits c inner) /\
  path = lookup_path p (match child_at cs 0 k with Some (_, c) => or_eod (fst (update_node c inner)) | None => stored inner end) \/
  inner = VEod /\ existsb adds cs = false /\ path = VEod.
Proof.
  intros [Hf _] F inner. subst inner. pose proof F as F0. destruct v;
    try (right; destruct F as (_ & _ & H1 & H2 & _); rewrite H1, H2 in Hf; repeat split;
      [destruct (existsb adds cs); [now discriminate Hf|reflexivity]|cbn [update_node fst or_eod]; apply lookup_stored; discriminate]).
  - cbn [update_node]. destruct (_ || _).
    + left. split.
      { intros j c E. apply child_at_Some in E as (_ & Hc & _). apply fits_missing in F as (_ & _ & F).
        unfold all_fit in F. rewrite Forall_forall in F. now apply (F c). }
      cbn [fst or_eod lookup_path]. unfold value_in. apply fits_missing in F0 as (_ & (N & _) & _).
      rewrite (lookup_update_fields update_node cs [] k N (NoDup_nil _)). cbn [lookup find option_map value_in].
      destruct (child_at cs 0 k) as [[j c]|]; cbn [option_map]; [reflexivity|]. unfold stored. now rewrite append_eod.
    + right. repeat split. destruct (existsb adds cs); [now discriminate Hf|reflexivity].
  - left. split.
    { intros j c E. apply child_at_Some in E as (<- & Hc & _). apply fits_document in F as (_ & _ & _ & F).
      unfold all_fit in F. rewrite Forall_forall in F. now apply F. }
    apply fits_document in F0 as (_ & (N & _) & (Nd & _) & _). cbn [update_node fst or_eod lookup_path].
    unfold value_in at 1. rewrite (lookup_update_fields update_node cs d k N Nd).
    destruct (child_at cs 0 k) as [[j c]|]; [reflexivity|]. unfold value_in. destruct (lookup d k); cbn [option_map]; [reflexivity|].
    unfold stored. now rewrite append_eod.
  - now destruct F as (_ & _ & []).
Qed.

Lemma lookup_path_cons k p v :
  lookup_path (k :: p) v = lookup_path p (match v with VDocument d => value_in d k | _ => VEod end).
Proof. destruct v; cbn [lookup_path]; now rewrite ?lookup_path_eod. Qed.

Lemma flags_child i cs k j c : flags_ok (IntermediateNode i cs) -> child_at cs 0 k = Some (j, c) -> flags_ok c.
Proof.
  intros F E. apply child_at_Some in E as (_ & Hc & _). apply flags_children in F. rewrite Forall_forall in F. now apply F.
Qed.

Lemma adds_child cs k j c : existsb adds cs = false -> child_at cs 0 k = Some (j, c) -> adds c = false.
Proof.
  intros A E. apply child_at_Some in E as (_ & Hc & _). apply not_true_iff_false. intros T.
  apply not_true_iff_false in A. apply A. apply existsb_exists. now exists c.
Qed.

(** At the path of a leaf there is what its operator makes of the value that was there. *)
Lemma update_node_leaf p : forall n v l, flags_ok n -> fits n v -> node_at p n = Some (LeafNode l) ->
  lookup_path p (or_eod (fst (update_node n v))) = or_eod (fst (update_node (LeafNode l) (lookup_path p v))).
Proof.
  induction p as [|k p IH]; intros n v l Fl F; cbn [node_at]; [now intros [= ->]|].
  destruct n as [|i cs]; [discriminate|]. destruct (child_at cs 0 k) as [[j c]|] eqn:E; [|discriminate]. intros N.
  rewrite (lookup_path_cons k p v). destruct (update_node_enter i cs v k p Fl F) as [[Fc ->]|(-> & A & ->)]; rewrite ?E in *.
  - apply IH; eauto using flags_child.
  - rewrite lookup_path_eod, (not_added p c l); eauto using adds_child.
Qed.

(** A field that no node of the tree names is copied. *)
Lemma update_node_frame q : forall n v i cs k, flags_ok n -> fits n v ->
  node_at q n = Some (IntermediateNode i cs) -> child_at cs 0 k = None ->
  lookup_path (q ++ [k]) (or_eod (fst (update_node n v))) = stored (lookup_path (q ++ [k]) v).
Proof.
  assert (S : stored VEod = VEod) by (unfold stored; now rewrite append_eod).
  induction q as [|k' q IH]; intros n v i cs k Fl F; cbn [node_at app].
  - intros [= ->] E. rewrite (lookup_path_cons k [] v).
    destruct (update_node_enter i cs v k [] Fl F) as [[_ ->]|(-> & _ & ->)]; cbn [lookup_path]; [now rewrite E|now rewrite S].
  - destruct n as [|j gcs]; [discriminate|]. destruct (child_at gcs 0 k') as [[m c]|] eqn:E; [|discriminate]. intros N K.
    rewrite (lookup_path_cons k' (q ++ [k]) v).
    destruct (update_node_enter j gcs v k' (q ++ [k]) Fl F) as [[Fc ->]|(-> & A & ->)]; rewrite ?E in *.
    + eapply IH; eauto using flags_child.
    + now rewrite lookup_path_eod, S.
Qed.

(** The value is modified when some leaf modifies the value at its path. *)
Lemma update_node_modified n : forall v, flags_ok n -> fits n v ->
  snd (update_node n v) = true <->
  exists p l, node_at p n = Some (LeafNode l) /\ snd (update_node (LeafNode l) (lookup_path p v)) = true.
Proof.
  induction n as [l|i cs IH] using node_ind; intros v Fl F.
  { split; [intros H; now exists [], l|]. intros ([|k p] & l' & [= <-] & H). exact H. }
  assert (Sub : forall d, NoDup (map fst d) -> (forall c, In c cs -> fits c (value_in d (field c))) -> NoDup (map field cs) ->
    fields_modified update_node cs d = true <->
    exists p l, node_at p (IntermediateNode i cs) = Some (LeafNode l) /\
      snd (update_node (LeafNode l) (lookup_path p (VDocument d))) = true).
  { intros d Nd Fd Nc. rewrite fields_modified_iff by assumption. rewrite Forall_forall in IH.
    pose proof (flags_children i cs Fl) as Flc. rewrite Forall_forall in Flc. split.
    - intros (c & Hc & H). apply (IH c Hc) in H as (p & l & Np & H); [|now apply Flc|now apply Fd].
      exists (field c :: p), l. cbn [node_at lookup_path]. destruct (child_at_In cs 0 c Nc Hc) as [j ->]. now split.
    - intros ([|k p] & l & Np & H); [discriminate|]. cbn [node_at lookup_path] in *.
      destruct (child_at cs 0 k) as [[j c]|] eqn:E; [|discriminate]. apply child_at_Some in E as (<- & Hc & _).
      exists c. split; [exact Hc|]. apply (IH c Hc); [now apply Flc|now apply Fd|]. now exists p, l. }
  assert (No : existsb adds cs = false -> ~ (exists p l, node_at p (IntermediateNode i cs) = Some (LeafNode l) /\
      snd (update_node (LeafNode l) VEod) = true)).
  { intros A (p & l & Np & H). rewrite (not_added p (IntermediateNode i cs) l A Np) in H. discriminate. }
  assert (Scalar : (forall d, v <> VDocument d) -> forall p l, node_at p (IntermediateNode i cs) = Some (LeafNode l) ->
    lookup_path p v = VEod) by (intros Hv [|k p] l; [discriminate|]; intros _; destruct v; try reflexivity; now elim (Hv d)).
  destruct Fl as [Fl0 Fl1]. pose proof F as F0.
  destruct v; try (destruct F as (_ & _ & H1 & H2 & _); rewrite H1, H2 in Fl0; cbn [update_node snd];
    assert (A : existsb adds cs = false) by (destruct (existsb adds cs); [now discriminate Fl0|reflexivity]);
    split; [discriminate|]; intros (p & l & Np & H); rewrite (Scalar ltac:(discriminate) p l Np) in H;
    elim (No A); now exists p, l).
  - apply fits_missing in F0 as (_ & (Nc & _) & F0). cbn [update_node]. destruct (_ || _).
    + cbn [snd]. rewrite Sub; [|constructor|unfold all_fit in F0; now rewrite Forall_forall in F0|exact Nc].
      split; intros ([|k p] & l & Np & H); try discriminate; exists (k :: p), l; (split; [exact Np|]);
        cbn [lookup_path value_in lookup find option_map] in *; now rewrite lookup_path_eod in *.
    + split; [discriminate|]. intros (p & l & Np & H). rewrite (Scalar ltac:(discriminate) p l Np) in H.
      elim No; [destruct (existsb adds cs); [now discriminate Fl0|reflexivity]|now exists p, l].
  - apply fits_document in F0 as (_ & (Nc & _) & (Nd & _) & F0). cbn [update_node snd].
    apply Sub; auto. unfold all_fit in F0. now rewrite Forall_forall in F0.
  - now destruct F as (_ & _ & []).
Qed.

(** ** The whole document *)

Definition without_id (d : fields) : fields := filter (fun kv => negb (same_key (fst kv) id_field)) d.

Lemma id_field_no_nul : no_nul id_field.
Proof. now apply no_nulb_ok. Qed.

Lemma document_fields_root T cs b : forall d w handled s, Forall (fun kv => no_nul (fst kv) /\ snd kv <> VEod) d ->
  document_fields T d cs w handled true s b = document_fields T (without_id d) cs w handled false s b.
Proof.
  unfold without_id. induction d as [|[k v] d IH]; intros w handled s F; [reflexivity|].
  inversion_clear F as [|? ? [Hk _] F']. cbn [document_fields filter fst andb] in *.
  replace (strcmp k id_field =? 0) with (same_key k id_field).
  2: { apply eq_iff_eq_true. rewrite same_key_iff. symmetry. apply strcmp_0; [exact Hk|apply id_field_no_nul]. }
  destruct (same_key k id_field); cbn [negb]; [now apply IH|]. cbn [document_fields andb].
  destruct (HandleCurrentIteratorPosition _ _ _ _ _ _ _ _ _) as [[[[ew h] s'] m]|e]; cbn [res_bind]; [|reflexivity].
  destruct ew; now rewrite IH.
Qed.

(** The node of [_id], which is the first child of the root. *)
Definition id_leaf (l : BsonUpdateLeafNode) : Prop :=
  leaf_field l = id_field /\ leaf_nodeType l = NodeType_LeafExcluded /\ leaf_positionalData l = PositionalType_None.

Lemma without_id_ok d : document_ok d -> document_ok (without_id d).
Proof.
  intros [N F]. unfold without_id. split.
  - clear F. induction d as [|[k v] d IH]; [constructor|]. inversion_clear N as [|? ? Nk N']. cbn [filter fst].
    destruct (same_key k id_field); cbn [negb map fst]; [now apply IH|]. constructor; [|now apply IH].
    intros H. apply Nk. apply in_map_iff in H as ([k' v'] & E & H). apply filter_In in H as [H _]. cbn in E. subst k'.
    now apply (in_map fst) in H.
  - rewrite Forall_forall in *. intros kv H. apply filter_In in H as [H _]. now apply F.
Qed.

Lemma update_present_skip f c cs d : (forall kv, In kv d -> same_key (field c) (fst kv) = false) ->
  update_present f (c :: cs) d = update_present f cs d /\ present_modified f (c :: cs) d = present_modified f cs d.
Proof.
  unfold update_present, present_modified. induction d as [|kv d IH]; intros H; [now split|]. cbn [flat_map existsb].
  destruct IH as [-> ->]; [intros; apply H; now right|]. cbn [update_field]. rewrite H by now left. now split.
Qed.

Lemma update_root i l cs d w :
  id_leaf l -> children_ok (LeafNode l :: cs) -> document_ok d -> fits (IntermediateNode i cs) (VDocument (without_id d)) ->
  Forall (addable true) cs ->
  TraverseDocumentAndApplyUpdate TraverseNested d w i (LeafNode l :: cs) true st false =
  Ok (w ++ update_fields update_node cs (without_id d), st, fields_modified update_node cs (without_id d)).
Proof.
  intros (Hid & Hty & Hpos) Hc Hd F Ha. unfold TraverseDocumentAndApplyUpdate.
  rewrite document_fields_root by apply Hd. apply fits_document in F as (Hp & Hc' & Hd' & F).
  assert (Skip : forall kv, In kv (without_id d) -> same_key (field (LeafNode l)) (fst kv) = false).
  { intros kv H. apply filter_In in H as [_ H]. cbn [field]. rewrite Hid, same_key_sym. now apply negb_true_iff in H. }
  assert (All : forall cs, Forall implements cs) by (intros; apply Forall_forall; intros; apply implements_all).
  destruct (document_fields_spec (LeafNode l :: cs) Hc (All _) (without_id d) w [] Hd') as (handled & M & ->).
  { intros c v [<-|H1] H2; [|now apply (all_fit_In cs (without_id d) c v)].
    specialize (Skip _ H2). cbn [fst] in Skip. rewrite same_key_refl in Skip. discriminate. }
  destruct (update_present_skip update_node (LeafNode l) cs (without_id d) Skip) as [-> ->].
  cbn [res_bind]. unfold HandleUnresolvedDocumentFields. rewrite Hp. cbn [unresolved_children field].
  rewrite view_same_key, Hid, same_key_refl by (rewrite Hid; apply id_field_no_nul). cbn [andb].
  rewrite (unresolved_children_spec true handled (without_id d)).
  - cbn [res_bind]. unfold update_fields, fields_modified. now rewrite app_assoc.
  - now apply children_no_nul.
  - apply All.
  - exact Ha.
  - intros c Hin Hm. rewrite <- (has_field_missing _ _ Hm). unfold all_fit in F. rewrite Forall_forall in F. now apply F.
  - intros j c Hj. replace (0 + 1 + Z.of_nat j) with (Z.of_nat (S j)) by lia. now rewrite (M (S j) c Hj).
Qed.

Lemma lookup_without_id d k : same_key id_field k = false -> lookup (without_id d) k = lookup d k.
Proof.
  intros K. unfold lookup, without_id. induction d as [|[k' v] d IH]; [reflexivity|]. cbn [filter fst find].
  destruct (same_key k' id_field) eqn:E; cbn [negb find fst].
  - rewrite IH. apply same_key_iff in E. subst k'. unfold same_key in K. now rewrite K.
  - destruct (_ =? 0); [reflexivity|apply IH].
Qed.

Lemma path_without_id d k p : same_key id_field k = false ->
  lookup_path (k :: p) (VDocument (without_id d)) = lookup_path (k :: p) (VDocument d).
Proof. intros K. cbn [lookup_path]. unfold value_in. now rewrite lookup_without_id. Qed.
End Spec.

(** ** Updates of a document *)

Section Update.
Context {BL : BidLib} {BLaws : BidLaws BL} {LB : LibBson} {LBLaws : LibBsonLaws LB} {UV : UnionView}
  {LD : LibBsonDoc} {LDL : LibBsonDocLaws LD} {EE : ExprEngine} {PS : PgSort} {PQ : PositionalQuery} {LN : LibBsonNew}.

Lemma BsonValueEquals_order a b : value_ok a -> value_ok b ->
  BsonValueEquals a b = Ok (value_order None a b =? 0).
Proof.
  intros Ha Hb. unfold BsonValueEquals.
  change (CompareBsonValueAndType a b) with (CompareBsonValueAndTypeWithCollation a b None).
  destruct (CompareBsonValueAndType_answers None no_collation a b Ha Hb) as (c & v & -> & S & _). cbn [res_bind].
  unfold same_sign in S. f_equal. destruct (Z.eqb_spec c 0), (Z.eqb_spec (value_order None a b) 0); lia.
Qed.

Lemma value_order_self a : value_order None a a = 0.
Proof. apply anti2_self. apply anti2_value_order. apply no_collation. Qed.

(** The state the operators see. *)
Definition document_state (d : fields) (id : bson_value) (isUpsert : bool) : CurrentDocumentState :=
  {| documentId := id; isUpsert := isUpsert; sourceDocument := d; indexOfPositionalTypeQueryFilter := -1 |}.

(** A document with an [_id] that may be stored, and a tree that fits it. *)
Record updatable (effect : BsonUpdateLeafNode -> bson_value -> outcome) (d : fields) (id : bson_value) (isUpsert : bool)
  (i : BsonUpdateIntermediatePathNode) (l : BsonUpdateLeafNode) (cs : list BsonPathNode) : Prop := {
  doc_ok : document_ok d;
  doc_id : lookup d id_field = Some id;
  id_copied : copied id = true;
  id_ok : value_ok id;
  id_valid : ValidateIdField id = Ok tt;
  tree_id : id_leaf l;
  tree_ok : children_ok (LeafNode l :: cs);
  tree_flags : Forall flags_ok cs;
  tree_addable : Forall (addable (document_state d id isUpsert) true) cs;
  tree_fits : fits effect (document_state d id isUpsert) (IntermediateNode i cs) (VDocument (without_id d))
}.

Lemma append_id d id : copied id = true -> append d id_field id = Ok (d ++ [(id_field, id)]).
Proof. intros H. unfold append. now rewrite append_copied. Qed.

Lemma id_at_path d : value_at_path d id_field = value_in d id_field.
Proof.
  unfold value_at_path, value_in. rewrite find_field; [reflexivity|apply id_field_no_nul|discriminate|].
  cbn. intros H. decompose [or] H; try discriminate; assumption.
Qed.

Lemma HandleUpdateDocumentId_copied l cs d id isUpsert : id_leaf l -> copied id = true ->
  HandleUpdateDocumentId PgbsonWriterInit (LeafNode l :: cs) (document_state d id isUpsert) = Ok ([(id_field, id)], false).
Proof.
  intros (L1 & L2 & L3) Hcp. unfold HandleUpdateDocumentId. cbn [find_child field].
  rewrite view_same_key, L1, same_key_refl, L2 by (rewrite L1; apply id_field_no_nul).
  unfold PgbsonWriterAppendValue, PgbsonWriterInit. pose proof (append_id [] id Hcp) as A.
  destruct id; try discriminate; cbn [documentId document_state]; now rewrite A.
Qed.

(** A new document is returned when libbson finds it valid. *)
Definition checked (r : option fields) : res (option fields) :=
  match r with
  | None => Ok None
  | Some d => if bson_validate d then Ok (Some d) else Err ERRCODE_DOCUMENTDB_BADVALUE
  end.

Lemma ProcessUpdate_result effect d id isUpsert i l cs :
  updatable effect d id isUpsert i l cs ->
  let old := without_id d in
  ProcessUpdateOperatorWithState d (i, LeafNode l :: cs) isUpsert =
  checked (if fields_modified (update_node effect) cs old || isUpsert
      then Some ((id_field, id) :: update_fields (update_node effect) cs old) else None).
Proof.
  intros [Hd Hid Hcp Hok Hval Hl Hc Hfl Ha F] old. unfold ProcessUpdateOperatorWithState.
  rewrite id_at_path. unfold value_in. rewrite Hid. fold (document_state d id isUpsert).
  rewrite HandleUpdateDocumentId_copied by assumption. cbn [res_bind orb documentId document_state].
  rewrite (update_root effect) by (try assumption; now repeat split). cbn [res_bind].
  fold old. destruct (fields_modified (update_node effect) cs old || isUpsert) eqn:M.
  2: { apply orb_false_iff in M as [-> ->]. reflexivity. }
  replace (negb _ && negb isUpsert) with false
    by (destruct (fields_modified (update_node effect) cs old); [reflexivity|]; destruct isUpsert; [reflexivity|discriminate]).
  rewrite id_at_path. unfold value_in. rewrite lookup_app, (lookup_opt_field id_field (Some id)), same_key_refl.
  assert (T : type_eqb (value_type id) BSON_TYPE_EOD = false)
    by (destruct id; try reflexivity; discriminate).
  rewrite T, BsonValueEquals_order, value_order_self by assumption. cbn [Z.eqb res_bind negb checked].
  change ([(id_field, id)] ++ ?x) with ((id_field, id) :: x). destruct (bson_validate _); [|reflexivity]. cbn [negb].
  now rewrite Hval.
Qed.

Lemma child_not_id l cs k j c : id_leaf l -> children_ok (LeafNode l :: cs) -> child_at cs 0 k = Some (j, c) ->
  same_key id_field k = false.
Proof.
  intros (L & _) [N _] E. apply child_at_Some in E as (<- & Hc & _). inversion_clear N as [|? ? Nl _].
  destruct (same_key id_field (field c)) eqn:K; [|reflexivity]. apply same_key_iff in K. elim Nl.
  cbn [field]. rewrite L, K. now apply in_map.
Qed.

(** The root is not marked; a marked root has the same effect on a document. *)
Lemma marked_root effect st i cs d : Forall flags_ok cs -> fits effect st (IntermediateNode i cs) (VDocument d) ->
  exists i', flags_ok (IntermediateNode i' cs) /\ fits effect st (IntermediateNode i' cs) (VDocument d).
Proof.
  intros Hfl F. exists (TrySetIntermediateNodeData i true). split; [|exact F]. split; [reflexivity|].
  clear F. induction Hfl as [|c cs H1 _ IH]; [exact I|exact (conj H1 IH)].
Qed.

(** Every update operator sees the value its own path has in the document, and that
    path then has what the operator makes of it; every other field is kept, and so is the
    [_id].  When no operator modifies its value there is no new document. *)
Lemma ProcessUpdateOperatorWithState_paths (effect : BsonUpdateLeafNode -> bson_value -> outcome)
  (d : fields) (id : bson_value) (isUpsert : bool)
  (i : BsonUpdateIntermediatePathNode) (l : BsonUpdateLeafNode) (cs : list BsonPathNode) :
  updatable effect d id isUpsert i l cs ->
  let root := IntermediateNode i cs in
  let after p leaf := update_node effect (LeafNode leaf) (lookup_path p (VDocument d)) in
  exists r, ProcessUpdateOperatorWithState d (i, LeafNode l :: cs) isUpsert = checked r /\
  (r = None <-> isUpsert = false /\ forall p leaf, node_at p root = Some (LeafNode leaf) -> snd (after p leaf) = false) /\
  forall d', r = Some d' ->
    lookup d' id_field = Some id /\
    (forall p leaf, node_at p root = Some (LeafNode leaf) -> lookup_path p (VDocument d') = or_eod (fst (after p leaf))) /\
    (forall q j gcs k, node_at q root = Some (IntermediateNode j gcs) -> child_at gcs 0 k = None -> q ++ [k] <> [id_field] ->
      lookup_path (q ++ [k]) (VDocument d') = stored (lookup_path (q ++ [k]) (VDocument d))).
Proof.
  intros U root after. rewrite (ProcessUpdate_result effect d id isUpsert i l cs U).
  destruct U as [_ _ _ _ _ Hl Hc Hfl _ F].
  destruct (marked_root effect (document_state d id isUpsert) i cs (without_id d) Hfl F) as (i' & Hfl' & F').
  set (root' := IntermediateNode i' cs) in *.
  assert (Skip : forall k p, same_key id_field k = false ->
    lookup_path (k :: p) (VDocument ((id_field, id) :: update_fields (update_node effect) cs (without_id d))) =
    lookup_path (k :: p) (or_eod (fst (update_node effect root' (VDocument (without_id d)))))).
  { intros k p K. cbn [update_node root' fst or_eod lookup_path]. unfold value_in, lookup. cbn [find fst].
    unfold same_key in K. now rewrite K. }
  assert (Same : forall p leaf, node_at p root = Some (LeafNode leaf) ->
    node_at p root' = Some (LeafNode leaf) /\
    lookup_path p (VDocument (without_id d)) = lookup_path p (VDocument d) /\
    exists k q, p = k :: q /\ same_key id_field k = false).
  { intros [|k p] leaf; [discriminate|]. intros N. split; [exact N|]. cbn [node_at root] in N.
    destruct (child_at cs 0 k) as [[j c]|] eqn:E; [|discriminate].
    assert (K : same_key id_field k = false) by (eapply child_not_id; eauto).
    split; [now apply path_without_id|eauto]. }
  assert (Same' : forall p leaf, node_at p root' = Some (LeafNode leaf) -> node_at p root = Some (LeafNode leaf))
    by (intros [|k p] leaf; [discriminate|]; exact (fun H => H)).
  eexists. split; [reflexivity|]. split.
  - transitivity (isUpsert = false /\ fields_modified (update_node effect) cs (without_id d) = false).
    { destruct (fields_modified _ _ _), isUpsert; cbn; split; intros H; try discriminate; try (now destruct H); auto. }
    apply and_iff_compat_l. change (fields_modified (update_node effect) cs (without_id d))
      with (snd (update_node effect root' (VDocument (without_id d)))).
    pose proof (update_node_modified effect (document_state d id isUpsert) root' (VDocument (without_id d)) Hfl' F') as M.
    destruct (snd (update_node effect root' (VDocument (without_id d)))).
    + split; [discriminate|]. intros H. destruct (proj1 M eq_refl) as (p & leaf & N & T).
      apply Same' in N. specialize (H p leaf N). destruct (Same p leaf N) as (_ & E & _). unfold after in H. congruence.
    + split; [intros _ p leaf N|reflexivity]. destruct (Same p leaf N) as (N' & E & _). unfold after. rewrite <- E.
      destruct (snd _) eqn:T; [|reflexivity]. now discriminate (proj2 M (ex_intro _ p (ex_intro _ leaf (conj N' T)))).
  - intros d' E. destruct (_ || _); [|discriminate]. injection E as <-. split; [|split].
    + unfold lookup. cbn [find fst]. now rewrite cmp_bytes_refl.
    + intros p leaf N. destruct (Same p leaf N) as (N' & E & k & q & -> & K).
      rewrite Skip by exact K. rewrite (update_node_leaf effect (document_state d id isUpsert) (k :: q) root' _ leaf Hfl' F' N').
      unfold after. now rewrite E.
    + intros q j gcs k N E Hne. destruct q as [|k' q].
      * cbn [node_at root] in N. injection N as <- <-. assert (K : same_key id_field k = false).
        { destruct (same_key id_field k) eqn:K; [|reflexivity]. apply same_key_iff in K. subst k. now elim Hne. }
        cbn [app]. rewrite Skip by exact K. rewrite <- path_without_id by exact K.
        apply (update_node_frame effect (document_state d id isUpsert) [] root' _ i' cs k Hfl' F' eq_refl E).
      * pose proof N as N'. cbn [node_at root] in N. destruct (child_at cs 0 k') as [[m c]|] eqn:E'; [|discriminate].
        assert (K : same_key id_field k' = false) by (eapply child_not_id; eauto). cbn [app].
        rewrite Skip by exact K. rewrite <- path_without_id by exact K.
        apply (update_node_frame effect (document_state d id isUpsert) (k' :: q) root' _ j gcs k Hfl' F' N' E).
Qed.
End Update.
