(* ===== verification/UpdateBuild.v ===== *)
(** * How an update specification becomes a tree

    The trees that [ReadUpdateSpecAndUpdateTree] builds from paths without positional
    operators: adding a path keeps them well-formed and keeps the leaves that were
    there, and a path that is a prefix of another one, or has it as a prefix, is a
    conflict.  The operators covered are those whose paths are added one by one
    ([HandleBasicUpdateTree], [HandleUnsetUpdateTree]). *)

From Stdlib Require Import ZArith Lia Bool Btauto String List SpecFloat.
From Stdlib Require Import Strings.Byte.
From S2P Require Import Prelude SoftFloat BsonTypes StringView Decimal128 BsonCompare BsonOrder RefBid BsonRefine.
From S2P Require Import BsonArith Traversal PgbsonElement DollarOperators BsonWriter SortUtils ExprEval.
From S2P Require Import UpdateOperators UpdateTree UpdateWorkflow UpdatePaths.
Import ListNotations.
Local Open Scope Z_scope.

(** ** Paths *)

(** A field name that is neither empty nor positional. *)
Definition segment (k : bytes) : bool :=
  match k with
  | [] => false
  | c :: _ => negb (byte_eqb c "$"%byte) && no_nulb k && forallb (fun b => negb (byte_eqb b dot)) k
  end.

Definition update_path (p : list bytes) : bool :=
  match p with [] => false | k :: _ => forallb segment p && negb (same_key k id_field) end.

Lemma segment_no_nul k : segment k = true -> no_nul k.
Proof. destruct k; [discriminate|]. unfold segment. rewrite !andb_true_iff. intros [[_ H] _]. now apply no_nulb_ok. Qed.

Lemma segment_no_dot k : segment k = true -> ~ In dot k.
Proof.
  destruct k as [|c k]; [discriminate|]. unfold segment. rewrite !andb_true_iff, forallb_forall. intros [_ H] D.
  specialize (H dot D). rewrite negb_true_iff in H. now apply not_true_iff_false in H; rewrite byte_eqb_eq in H.
Qed.

Lemma segment_dollar k : segment k = true -> exists c r, k = c :: r /\ byte_eqb c "$"%byte = false.
Proof.
  destruct k as [|c k]; [discriminate|]. unfold segment. rewrite !andb_true_iff, negb_true_iff.
  intros [[H _] _]. now exists c, k.
Qed.

Lemma join_nil p : forallb segment p = true -> join_path p = [] -> p = [].
Proof.
  destruct p as [|k p]; [reflexivity|]. cbn [forallb]. rewrite andb_true_iff. intros [H _].
  apply segment_dollar in H as (c & r & -> & _). now destruct p.
Qed.

Lemma next_segment_join k p : segment k = true -> forallb segment p = true ->
  next_segment (join_path (k :: p)) = Ok (k, join_path p).
Proof.
  intros Hk Hp. pose proof (segment_no_dot k Hk) as D. unfold next_segment. destruct p as [|k' p].
  - cbn [join_path]. now replace (StringViewFindPrefix k dot) with (@None bytes) by (symmetry; now apply StringViewFindPrefix_None).
  - change (join_path (k :: k' :: p)) with (k ++ dot :: join_path (k' :: p)).
    replace (StringViewFindPrefix (k ++ dot :: join_path (k' :: p)) dot) with (Some k)
      by (symmetry; apply StringViewFindPrefix_Some; now exists (join_path (k' :: p))).
    unfold StringViewSubstring. rewrite !blen_app. unfold blen. cbn [List.length].
    destruct (Z.gtb_spec (Z.of_nat (List.length k) + 1) (Z.of_nat (List.length k) + Z.of_nat (S (List.length (join_path (k' :: p)))))); [lia|].
    cbn [res_bind]. replace (Z.to_nat _) with (List.length k + 1)%nat by lia.
    now rewrite skipn_app, skipn_all2, Nat.add_comm, Nat.add_sub by lia.
Qed.

(** A path that is a prefix of the other, or equal. *)
Fixpoint overlaps (p q : list bytes) : bool :=
  match p, q with
  | a :: p, b :: q => same_key a b && overlaps p q
  | _, _ => true
  end.

Lemma overlaps_sym p : forall q, overlaps p q = overlaps q p.
Proof. induction p as [|a p IH]; intros [|b q]; cbn; [easy..|]. now rewrite IH, same_key_sym. Qed.

Fixpoint conflict_free (paths : list (list bytes)) : bool :=
  match paths with
  | [] => true
  | p :: paths => forallb (fun q => negb (overlaps p q)) paths && conflict_free paths
  end.

(** ** Well-formed trees *)

Section Forest.
Context {BL : BidLib} {LB : LibBson} {UV : UnionView} {LD : LibBsonDoc} {EE : ExprEngine} {PS : PgSort}
  {PQ : PositionalQuery} {LN : LibBsonNew}.

Definition plain_node (i : BsonUpdateIntermediatePathNode) : Prop :=
  node_positionalData i = PositionalType_None /\ hasPositionalChildren i = false /\
  sourceOrTargetNodeForRenameOP i = None.

(** Distinct fields that are segments, no positional node, leaves below every inner
    node, and marks on the inner nodes above a leaf that adds its field. *)
Fixpoint tree_wf (n : BsonPathNode) : Prop :=
  match n with
  | LeafNode l => segment (leaf_field l) = true /\ leaf_positionalData l = PositionalType_None
  | IntermediateNode i cs =>
    segment (node_field i) = true /\ plain_node i /\ cs <> [] /\ NoDup (map field cs) /\
    (existsb adds cs = true -> hasExpressionFieldsInChildren i = true) /\
    (fix all cs := match cs with [] => True | c :: cs => tree_wf c /\ all cs end) cs
  end.

Definition forest_wf (cs : list BsonPathNode) : Prop := NoDup (map field cs) /\ Forall tree_wf cs.

Lemma tree_wf_node i cs : tree_wf (IntermediateNode i cs) <->
  segment (node_field i) = true /\ plain_node i /\ cs <> [] /\
  (existsb adds cs = true -> hasExpressionFieldsInChildren i = true) /\ forest_wf cs.
Proof.
  cbn [tree_wf]. unfold forest_wf.
  assert (E : (fix all cs := match cs with [] => True | c :: cs => tree_wf c /\ all cs end) cs <-> Forall tree_wf cs).
  { clear. induction cs as [|c cs IH]; [split; constructor|]. rewrite Forall_cons_iff, IH. tauto. }
  rewrite E. tauto.
Qed.

Lemma tree_wf_field n : tree_wf n -> segment (field n) = true /\ GetPositionalData n = PositionalType_None.
Proof. destruct n as [l|i cs]; [easy|]. intros H. apply tree_wf_node in H as (H & (P & _) & _). now split. Qed.

(** The child with a field. *)
Definition child_named (cs : list BsonPathNode) (k : bytes) : option BsonPathNode := find (fun c => same_key (field c) k) cs.

Lemma child_named_at cs k i : child_named cs k = option_map snd (child_at cs i k).
Proof.
  revert i. induction cs as [|c cs IH]; intros i; [reflexivity|]. cbn [child_named find child_at].
  destruct (same_key (field c) k); [reflexivity|apply IH].
Qed.

Lemma child_named_Some cs k c : child_named cs k = Some c -> In c cs /\ field c = k.
Proof. intros H. apply find_some in H. now rewrite same_key_iff in H. Qed.

Fixpoint put_child (cs : list BsonPathNode) (k : bytes) (n : BsonPathNode) : list BsonPathNode :=
  match cs with
  | [] => [n]
  | c :: cs => if same_key (field c) k then n :: cs else c :: put_child cs k n
  end.

Lemma child_named_put cs k n k' : field n = k ->
  child_named (put_child cs k n) k' = if same_key k k' then Some n else child_named cs k'.
Proof.
  intros <-. induction cs as [|c cs IH]; cbn; [reflexivity|].
  destruct (same_key (field c) (field n)) eqn:E; cbn.
  - apply same_key_iff in E. rewrite E. now destruct (same_key (field n) k').
  - fold (child_named (put_child cs (field n) n) k'). rewrite IH. destruct (same_key (field c) k') eqn:F; [|reflexivity].
    destruct (same_key (field n) k') eqn:G; [|reflexivity]. apply same_key_iff in F, G. rewrite F, G, same_key_refl in E. discriminate.
Qed.

Lemma map_field_put cs k n : field n = k ->
  map field (put_child cs k n) = match child_named cs k with Some _ => map field cs | None => map field cs ++ [k] end.
Proof.
  intros <-. induction cs as [|c cs IH]; cbn; [reflexivity|].
  destruct (same_key (field c) (field n)) eqn:E; cbn; [apply same_key_iff in E; now rewrite E|].
  rewrite IH. unfold child_named. now destruct (find _ cs).
Qed.

Lemma Forall_put (P : BsonPathNode -> Prop) cs k n : Forall P cs -> P n -> Forall P (put_child cs k n).
Proof. induction 1 as [|c cs H Hs IH]; intros Hn; cbn; [now constructor|]. destruct (same_key _ _); constructor; auto. Qed.

Lemma child_named_None cs k : child_named cs k = None -> ~ In k (map field cs).
Proof.
  intros H D. apply in_map_iff in D as (c & E & D). apply (find_none _ _ H) in D. rewrite E, same_key_refl in D. discriminate.
Qed.

Lemma forest_wf_put cs k n : forest_wf cs -> field n = k -> tree_wf n -> forest_wf (put_child cs k n).
Proof.
  intros [N F] E Hn. split; [|now apply Forall_put]. rewrite map_field_put by exact E.
  destruct (child_named cs k) eqn:C; [exact N|]. apply child_named_None in C. apply NoDup_app; [exact N|repeat constructor; easy|].
  intros a Ha [<-|[]]. now apply C.
Qed.

(** ** Leaves *)

Fixpoint leaf_at (p : list bytes) (cs : list BsonPathNode) : option BsonUpdateLeafNode :=
  match p with
  | [] => None
  | k :: p =>
    match child_named cs k, p with
    | Some (LeafNode l), [] => Some l
    | Some (IntermediateNode _ gcs), _ => leaf_at p gcs
    | _, _ => None
    end
  end.

Lemma leaf_at_node p : forall i cs l, node_at p (IntermediateNode i cs) = Some (LeafNode l) <-> leaf_at p cs = Some l.
Proof.
  induction p as [|k p IH]; intros i cs l; cbn [node_at leaf_at]; [split; discriminate|].
  rewrite (child_named_at cs k 0). destruct (child_at cs 0 k) as [[j c]|]; cbn [option_map snd]; [|split; discriminate].
  destruct c as [m|j' gcs].
  - destruct p as [|k' p]; cbn [node_at]; split; congruence.
  - rewrite (IH j' gcs l). now destruct p.
Qed.

(** Some leaf of the tree is above the path, at it or below it. *)
Definition clash (cs : list BsonPathNode) (p : list bytes) : Prop :=
  exists q l, leaf_at q cs = Some l /\ overlaps q p = true.

Lemma tree_has_leaf n : tree_wf n -> match n with LeafNode _ => True | IntermediateNode _ cs => exists q l, leaf_at q cs = Some l end.
Proof.
  induction n as [l|i cs IH] using node_ind; intros W; [exact I|].
  apply tree_wf_node in W as (_ & _ & Hne & _ & N & W). destruct cs as [|c cs]; [easy|].
  inversion_clear IH as [|? ? IHc _]. inversion_clear W as [|? ? Wc _]. specialize (IHc Wc).
  destruct c as [l|j gcs].
  - exists [leaf_field l], l. cbn. now rewrite same_key_refl.
  - destruct IHc as (q & l & H). exists (node_field j :: q), l. cbn. rewrite same_key_refl. now destruct q.
Qed.

Lemma leaf_at_put_other cs k n q : field n = k -> (forall k' q', q = k' :: q' -> same_key k k' = false) ->
  leaf_at q (put_child cs k n) = leaf_at q cs.
Proof.
  intros E H. destruct q as [|k' q]; [reflexivity|]. cbn [leaf_at].
  rewrite child_named_put by exact E. now rewrite (H k' q eq_refl).
Qed.

Lemma existsb_put cs k n : field n = k -> NoDup (map field cs) ->
  existsb adds (put_child cs k n) = true ->
  existsb adds cs = true \/ adds n = true.
Proof.
  intros E N. induction cs as [|c cs IH]; cbn; [rewrite orb_false_r; now right|].
  inversion_clear N as [|? ? _ N']. destruct (same_key (field c) k); cbn; rewrite !orb_true_iff; [tauto|].
  intros [H|H]; [tauto|]. destruct (IH N' H); tauto.
Qed.

(** ** Adding a path *)

Lemma GetOrAddChildNode_eq cs k isLeaf hasField cl ci below spec : forest_wf cs ->
  GetOrAddChildNode cs k isLeaf hasField cl ci below spec =
  let below gcs i spec := res_bind (below gcs spec) (fun '(gcs, spec, found) =>
    Ok (put_child cs k (IntermediateNode (TrySetIntermediateNodeData i hasField) gcs), spec,
        {| alreadyExists := alreadyExists found; located_node := located_node found; located_path := k :: located_path found |})) in
  let exists_already n := Ok (cs, spec, {| alreadyExists := true; located_node := n; located_path := [k] |}) in
  match child_named cs k with
  | Some (LeafNode l) => exists_already (LeafNode l)
  | Some (IntermediateNode i gcs) =>
    if isLeaf then exists_already (IntermediateNode i gcs) else below gcs i spec
  | None =>
    if isLeaf then res_bind (cl spec) (fun '(leaf, spec) =>
      Ok (put_child cs k (LeafNode leaf), spec,
          {| alreadyExists := false; located_node := LeafNode leaf; located_path := [k] |}))
    else res_bind (ci spec) (fun '(i, spec) => below [] i spec)
  end.
Proof.
  intros [_ W]. cbv zeta. induction W as [|c cs Wc _ IH].
  { cbn. destruct isLeaf; [reflexivity|]. destruct (ci spec) as [[i s]|]; [|reflexivity]. cbn.
    now destruct (below [] s) as [[[g s'] f]|]. }
  apply tree_wf_field in Wc as [Wc _]. apply segment_no_nul in Wc.
  cbn [GetOrAddChildNode child_named find put_child]. rewrite view_same_key by exact Wc.
  destruct (same_key (field c) k) eqn:E.
  { destruct c as [l|i gcs]; [reflexivity|]. destruct isLeaf; reflexivity. }
  rewrite IH. fold (child_named cs k). destruct (child_named cs k) as [[l|i gcs]|]; [reflexivity|..]; destruct isLeaf; try reflexivity.
  - now destruct (below gcs spec) as [[[g s'] f]|].
  - now destruct (cl spec) as [[l s']|].
  - destruct (ci spec) as [[i s]|]; [|reflexivity]. cbn. now destruct (below [] s) as [[[g s'] f]|].
Qed.

Lemma GetNodePositionalDataFromPath_segment k spec : segment k = true ->
  ValidateNodePathInTree k = Ok tt /\ GetNodePositionalDataFromPath k spec = Ok (PositionalType_None, spec).
Proof.
  intros Sk. pose proof (segment_no_nul k Sk) as Nn. pose proof (segment_no_dot k Sk) as Nd.
  destruct (segment_dollar k Sk) as (c & r & -> & D). split.
  - unfold ValidateNodePathInTree. cbn [List.length]. destruct (Z.eqb_spec (blen (c :: r)) 0) as [E|_]; [discriminate|].
    cbn [orb]. destruct (byte_eqb (char_at (c :: r) (S (List.length r) - 1)) "."%byte) eqn:E; [|reflexivity].
    apply byte_eqb_eq in E. elim Nd. change dot with "."%byte. rewrite <- E. apply nth_In. cbn. lia.
  - unfold GetNodePositionalDataFromPath. rewrite !view_same_key by exact Nn.
    assert (Ne : forall x, same_key (c :: r) (("$"%byte) :: x) = false).
    { intros x. destruct (same_key (c :: r) _) eqn:E; [|reflexivity]. apply same_key_iff in E. injection E as -> _.
      now rewrite byte_eqb_refl in D. }
    change (str "$[]") with ("$"%byte :: str "[]"). change (str "$") with ("$"%byte :: []). rewrite !Ne.
    assert (Q : (strncmp (c :: r) (str "$[") 2 =? 0) = false).
    { apply Z.eqb_neq. intros Q. change (lexz (cmpz (byte_z c) (byte_z "$"%byte)) (if byte_z c =? 0 then 0 else strncmp r (str "[") 1) = 0) in Q.
      unfold lexz in Q. unfold byte_eqb in D. destruct (cmpz (byte_z c) (byte_z "$"%byte) =? 0) eqn:C; [|rewrite Q in C; discriminate].
      apply Z.eqb_eq in C. apply (proj1 (cmpz_0 _ _)) in C. rewrite C, Z.eqb_refl in D. discriminate. }
    rewrite Q. now rewrite andb_false_r.
Qed.

Section Add.
Variables (path : bytes) (ty : NodeType) (value : bson_value) (state : BsonUpdateTreeState).
Let hasField := match ty with NodeType_LeafField => true | _ => false end.
Hypothesis ty_ok : ty <> NodeType_LeafIncluded.

Definition new_leaf (k : bytes) : BsonUpdateLeafNode :=
  {| leaf_nodeType := ty; leaf_field := k; leaf_relativePath := path; writeFunc := updateFunc state;
     updateNodeContext := updateFuncState state; leaf_positionalData := PositionalType_None; fieldData := value |}.

Definition new_node (k : bytes) : BsonUpdateIntermediatePathNode :=
  {| node_field := k; node_relativePath := path; node_positionalData := PositionalType_None;
     hasExpressionFieldsInChildren := false; hasPositionalChildren := false;
     HasIntermediateIncludeChildren := false; sourceOrTargetNodeForRenameOP := None |}.

Lemma CreateUpdateLeafNode_segment k spec : segment k = true ->
  CreateUpdateLeafNode k path state spec ty value = Ok (new_leaf k, spec).
Proof. intros S. unfold CreateUpdateLeafNode. destruct (GetNodePositionalDataFromPath_segment k spec S) as [-> ->]. reflexivity. Qed.

Lemma CreateUpdateIntermediateNode_segment k spec : segment k = true ->
  CreateUpdateIntermediateNode k path spec = Ok (new_node k, spec).
Proof. intros S. unfold CreateUpdateIntermediateNode. destruct (GetNodePositionalDataFromPath_segment k spec S) as [-> ->]. reflexivity. Qed.

(** The tree [cs'] is [cs] with a leaf at [p]. *)
Record added (p : list bytes) (cs cs' : list BsonPathNode) : Prop := {
  added_wf : forest_wf cs';
  added_new : ~ clash cs p;
  added_leaf : leaf_at p cs' = Some (new_leaf (last p []));
  added_other : forall q, q <> p -> leaf_at q cs' = leaf_at q cs;
  added_adds : existsb adds cs' = true -> existsb adds cs = true \/ hasField = true;
  added_put : exists n, field n = hd [] p /\ cs' = put_child cs (hd [] p) n
}.

Lemma clash_cons cs k p i gcs : child_named cs k = Some (IntermediateNode i gcs) -> clash cs (k :: p) <-> clash gcs p \/ (p = [] /\ exists q l, leaf_at q gcs = Some l).
Proof.
  intros E. split.
  - intros ([|k' q] & l & H & C); [discriminate|]. cbn [overlaps] in C. apply andb_true_iff in C as [K C].
    apply same_key_iff in K. subst k'. cbn [leaf_at] in H. rewrite E in H. left. exists q, l. now destruct q.
  - intros [(q & l & H & C)|(-> & q & l & H)]; exists (k :: q), l; cbn [leaf_at overlaps]; rewrite E, same_key_refl;
      (split; [now destruct q|]); [exact C|now destruct q].
Qed.

Lemma clash_none cs k p : child_named cs k = None -> ~ clash cs (k :: p).
Proof.
  intros E ([|k' q] & l & H & C); [discriminate|]. cbn [overlaps] in C. apply andb_true_iff in C as [K _].
  apply same_key_iff in K. subst k'. cbn [leaf_at] in H. now rewrite E in H.
Qed.

(** The child the path goes through: it is there, or it is created. *)
Definition entered (cs : list BsonPathNode) (k : bytes) (i : BsonUpdateIntermediatePathNode) (gcs : list BsonPathNode) : Prop :=
  child_named cs k = Some (IntermediateNode i gcs) \/ child_named cs k = None /\ i = new_node k /\ gcs = [].

Lemma entered_wf cs k i gcs : segment k = true -> forest_wf cs -> entered cs k i gcs ->
  plain_node i /\ node_field i = k /\ (existsb adds gcs = true -> hasExpressionFieldsInChildren i = true /\ existsb adds cs = true) /\
  forest_wf gcs /\ (forall q, leaf_at (k :: q) cs = leaf_at q gcs).
Proof.
  intros Sk [_ W] [E|(E & -> & ->)].
  - pose proof E as E'. apply child_named_Some in E as [Hin E]. rewrite Forall_forall in W. pose proof (W _ Hin) as Wn.
    apply tree_wf_node in Wn as (_ & Pi & _ & Fi & Wg). repeat split; try apply Pi; try apply Wg; auto.
    + apply existsb_exists. now exists (IntermediateNode i gcs).
    + intros q. cbn [leaf_at]. rewrite E'. now destruct q.
  - repeat split; try constructor; try discriminate. intros q. cbn [leaf_at]. rewrite E. now destruct q.
Qed.

Lemma added_below k p cs i gcs gcs' : segment k = true -> forest_wf cs -> entered cs k i gcs -> p <> [] ->
  added p gcs gcs' ->
  added (k :: p) cs (put_child cs k (IntermediateNode (TrySetIntermediateNodeData i hasField) gcs')).
Proof.
  intros Sk W En Hp [A1 A2 A3 A4 A5 (n & A6 & A7)].
  destruct (entered_wf cs k i gcs Sk W En) as (Pi & Ei & Fi & _ & L).
  set (i' := TrySetIntermediateNodeData i hasField).
  assert (Ei' : node_field i' = k) by (unfold i'; now destruct hasField).
  assert (W' : tree_wf (IntermediateNode i' gcs')).
  { apply tree_wf_node. rewrite Ei'. split; [exact Sk|]. split; [unfold i'; now destruct hasField|]. split; [|split; [|exact A1]].
    - rewrite A7. destruct gcs as [|g gcs0]; cbn; [discriminate|]. now destruct (same_key _ _).
    - intros H. unfold i'. destruct hasField eqn:HF; [reflexivity|]. cbn. destruct (A5 H) as [H'|H']; [now apply Fi|congruence]. }
  assert (Cn : child_named (put_child cs k (IntermediateNode i' gcs')) k = Some (IntermediateNode i' gcs'))
    by (rewrite child_named_put by exact Ei'; now rewrite same_key_refl).
  assert (L' : forall q, leaf_at (k :: q) (put_child cs k (IntermediateNode i' gcs')) = leaf_at q gcs')
    by (intros q; cbn [leaf_at]; rewrite Cn; now destruct q).
  constructor.
  - now apply forest_wf_put.
  - intros C. destruct En as [E|(E & _ & _)]; [|now apply clash_none in C].
    apply (clash_cons cs k p i gcs E) in C as [C|[C _]]; [now apply A2|now apply Hp].
  - rewrite L', A3. now destruct p.
  - intros [|k' q] Hq; [reflexivity|]. destruct (same_key k k') eqn:K.
    + apply same_key_iff in K. subst k'. rewrite L, L'. apply A4. congruence.
    + apply leaf_at_put_other; [exact Ei'|]. now intros ? ? [= <- <-].
  - intros H. apply existsb_put in H; [|exact Ei'|apply W]. destruct H as [H|H]; [now left|].
    destruct (A5 H) as [H'|H']; [left; now apply Fi|now right].
  - now exists (IntermediateNode i' gcs').
Qed.

Lemma added_here k cs : segment k = true -> forest_wf cs -> child_named cs k = None ->
  added [k] cs (put_child cs k (LeafNode (new_leaf k))).
Proof.
  intros Sk W E. assert (Cn : child_named (put_child cs k (LeafNode (new_leaf k))) k = Some (LeafNode (new_leaf k)))
    by (rewrite child_named_put by reflexivity; now rewrite same_key_refl).
  constructor.
  - apply forest_wf_put; [exact W|reflexivity|]. now split.
  - now apply clash_none.
  - cbn [leaf_at]. now rewrite Cn.
  - intros [|k' q] Hq; [reflexivity|]. destruct (same_key k k') eqn:K.
    + apply same_key_iff in K. subst k'. cbn [leaf_at]. rewrite Cn, E. destruct q; [congruence|reflexivity].
    + apply leaf_at_put_other; [reflexivity|]. now intros ? ? [= <- <-].
  - intros H. apply existsb_put in H; [|reflexivity|apply W]. destruct H as [H|H]; [now left|right].
    unfold hasField. cbn in H. destruct ty; [easy|discriminate|reflexivity].
  - now exists (LeafNode (new_leaf k)).
Qed.

Lemma TraverseDottedPathAndGetNode_adds spec : forall p fuel cs, p <> [] -> forallb segment p = true -> forest_wf cs ->
  (List.length p <= fuel)%nat ->
  exists cs' found,
    TraverseDottedPathAndGetNode fuel (join_path p) path hasField ty value state cs spec = Ok (cs', spec, found) /\
    (alreadyExists found = true /\ clash cs p \/
     found = {| alreadyExists := false; located_node := LeafNode (new_leaf (last p [])); located_path := p |} /\ added p cs cs').
Proof.
  induction p as [|k p IH]; intros fuel cs Hne Sp W Hf; [easy|]. destruct fuel as [|fuel]; [cbn in Hf; lia|].
  cbn [forallb] in Sp. apply andb_true_iff in Sp as [Sk Sp]. cbn [TraverseDottedPathAndGetNode].
  rewrite next_segment_join by assumption. cbn [res_bind]. rewrite GetOrAddChildNode_eq by exact W. cbv zeta.
  destruct p as [|k' p].
  - change (blen (join_path []) =? 0) with true. cbv iota. destruct (child_named cs k) as [[l|i gcs]|] eqn:E.
    + do 2 eexists. split; [reflexivity|]. left. split; [reflexivity|]. exists [k], l. cbn. now rewrite E, same_key_refl.
    + do 2 eexists. split; [reflexivity|]. left. split; [reflexivity|]. apply (clash_cons cs k [] i gcs E).
      right. split; [reflexivity|]. destruct W as [_ W]. rewrite Forall_forall in W. apply child_named_Some in E as [Hin _].
      exact (tree_has_leaf _ (W _ Hin)).
    + rewrite CreateUpdateLeafNode_segment by exact Sk. do 2 eexists. split; [reflexivity|]. right. split; [reflexivity|].
      now apply added_here.
  - assert (Z0 : (blen (join_path (k' :: p)) =? 0) = false).
    { apply Z.eqb_neq. intros D. assert (N : join_path (k' :: p) = []) by (destruct (join_path (k' :: p)); [reflexivity|discriminate]).
      now apply join_nil in N. }
    rewrite Z0. assert (Below : forall i gcs, entered cs k i gcs -> exists cs' found,
      res_bind (TraverseDottedPathAndGetNode fuel (join_path (k' :: p)) path hasField ty value state gcs spec)
        (fun '(gcs, spec, found) => Ok (put_child cs k (IntermediateNode (TrySetIntermediateNodeData i hasField) gcs), spec,
          {| alreadyExists := alreadyExists found; located_node := located_node found; located_path := k :: located_path found |})) =
      Ok (cs', spec, found) /\
      (alreadyExists found = true /\ clash cs (k :: k' :: p) \/
       found = {| alreadyExists := false; located_node := LeafNode (new_leaf (last (k :: k' :: p) [])); located_path := k :: k' :: p |} /\
       added (k :: k' :: p) cs cs')).
    { intros i gcs En. destruct (entered_wf cs k i gcs Sk W En) as (_ & _ & _ & Wg & _).
      destruct (IH fuel gcs) as (gcs' & found & -> & H); [discriminate|exact Sp|exact Wg|cbn in *; lia|].
      do 2 eexists. split; [reflexivity|]. destruct H as [[H1 H2]|[-> H]].
      - left. split; [exact H1|]. destruct En as [E|(_ & _ & ->)]; [apply (clash_cons cs k _ i gcs E); now left|].
        destruct H2 as ([|q1 q] & l & H2 & _); discriminate.
      - right. split; [reflexivity|]. eapply added_below; eauto. discriminate. }
    destruct (child_named cs k) as [[l|i gcs]|] eqn:E.
    + do 2 eexists. split; [reflexivity|]. left. split; [reflexivity|]. exists [k], l. cbn. now rewrite E, same_key_refl.
    + apply Below. now left.
    + rewrite CreateUpdateIntermediateNode_segment by exact Sk. apply Below. right. now rewrite E.
Qed.
End Add.

(** ** The ancestors of a new leaf *)

Lemma find_child_named cs k : forest_wf cs -> find_child cs k = child_named cs k.
Proof.
  intros [_ W]. induction W as [|c cs Wc _ IH]; [reflexivity|]. cbn [find_child child_named find].
  apply tree_wf_field in Wc as [Wc _]. rewrite view_same_key by now apply segment_no_nul. now rewrite IH.
Qed.

Lemma ReplaceTreeInNodeCore_same cs k c : forest_wf cs -> child_named cs k = Some c -> ReplaceTreeInNodeCore cs k c = cs.
Proof.
  intros [_ W]. induction W as [|c' cs Wc _ IH]; [discriminate|]. cbn [ReplaceTreeInNodeCore child_named find].
  apply tree_wf_field in Wc as [Wc _]. rewrite view_same_key by now apply segment_no_nul. destruct (same_key (field c') k); [now intros [= ->]|].
  intros H. now rewrite IH.
Qed.

Lemma mark_parent_plain i : plain_node i -> mark_parent i false false None = i.
Proof. destruct i. intros (_ & H1 & H2). cbn in *. subst. unfold mark_parent. cbn. now rewrite orb_false_r. Qed.

Lemma UpdateParentDataInTree_plain p : forall i cs l, plain_node i -> forest_wf cs -> leaf_at p cs = Some l ->
  UpdateParentDataInTree p false None i cs = Ok (i, cs, false).
Proof.
  induction p as [|k p IH]; intros i cs l Pi W L; [discriminate|]. cbn [UpdateParentDataInTree leaf_at] in *.
  rewrite find_child_named by exact W. destruct (child_named cs k) as [c|] eqn:E; [|discriminate].
  assert (Wc : tree_wf c) by (destruct W as [_ W]; rewrite Forall_forall in W; apply W; now apply child_named_Some in E).
  pose proof (tree_wf_field c Wc) as [_ Pc].
  assert (R : forall r, r = Ok (c, false) -> (let* '(child, hasPositionalInAncestors) := r in
      let positional := is_positional (GetPositionalData child) in
      let children := ReplaceTreeInNodeCore cs k child in
      let i := mark_parent i positional false None in
      if hasPositionalChildren i && negb (forallb (fun c => is_positional (GetPositionalData c)) children)
      then Err ERRCODE_DOCUMENTDB_CONFLICTINGUPDATEOPERATORS
      else Ok (i, children, hasPositionalInAncestors || positional))%res = Ok (i, cs, false)).
  { intros r ->. cbn [res_bind]. rewrite Pc. cbn [is_positional]. rewrite mark_parent_plain by exact Pi.
    destruct Pi as (_ & -> & _). cbn [andb]. now rewrite ReplaceTreeInNodeCore_same. }
  apply R. destruct c as [m|j gcs]; [reflexivity|]. apply tree_wf_node in Wc as (_ & Pj & _ & _ & Wg).
  rewrite (IH j gcs l Pj Wg); [reflexivity|]. now destruct p.
Qed.

(** ** Building the tree *)

Definition entries : Set := list (list bytes * BsonUpdateLeafNode).

(** The leaves of [cs'] are those of [cs] and the new ones. *)
Record built (es : entries) (cs cs' : list BsonPathNode) : Prop := {
  built_wf : forest_wf cs';
  built_leaves : forall q l, leaf_at q cs' = Some l <-> In (q, l) es \/ leaf_at q cs = Some l;
  built_first : forall l rest, cs = LeafNode l :: rest -> exists rest', cs' = LeafNode l :: rest'
}.

Definition free (ps : list (list bytes)) (cs : list BsonPathNode) : Prop :=
  conflict_free ps = true /\ Forall (fun p => ~ clash cs p) ps.
Definition conflicts (ps : list (list bytes)) (cs : list BsonPathNode) : Prop :=
  conflict_free ps = false \/ Exists (clash cs) ps.

Lemma built_nil cs : forest_wf cs -> built [] cs cs.
Proof. intros W. constructor; [exact W|intros; cbn; tauto|eauto]. Qed.

Lemma built_clash es cs cs' q : built es cs cs' ->
  clash cs' q <-> clash cs q \/ exists p, In p (map fst es) /\ overlaps p q = true.
Proof.
  intros [_ B _]. unfold clash. split.
  - intros (p & l & H & C). apply B in H as [H|H]; [right|left; now exists p, l].
    exists p. split; [|exact C]. now apply (in_map fst) in H.
  - intros [(p & l & H & C)|(p & H & C)].
    + exists p, l. split; [|exact C]. apply B. now right.
    + apply in_map_iff in H as ([p' l] & E & H). cbn in E. subst p'. exists p, l. split; [|exact C]. apply B. now left.
Qed.

Lemma built_app es1 es2 cs c1 c2 : built es1 cs c1 -> built es2 c1 c2 -> built (es1 ++ es2) cs c2.
Proof.
  intros [_ L1 F1] [W2 L2 F2]. constructor; [exact W2| |].
  - intros q l. rewrite L2, L1, in_app_iff. tauto.
  - intros l rest E. destruct (F1 l rest E) as [r1 E1]. now apply F2 with r1.
Qed.

Lemma conflict_free_app ps qs : conflict_free (ps ++ qs) =
  conflict_free ps && conflict_free qs && forallb (fun p => forallb (fun q => negb (overlaps p q)) qs) ps.
Proof.
  induction ps as [|p ps IH]; cbn; [now rewrite andb_true_r|]. rewrite IH, forallb_app.
  btauto.
Qed.

Lemma free_app es1 es2 cs c1 : built es1 cs c1 -> free (map fst es1) cs -> free (map fst es2) c1 ->
  free (map fst (es1 ++ es2)) cs.
Proof.
  intros B [C1 N1] [C2 N2]. rewrite map_app. split.
  - rewrite conflict_free_app, C1, C2. apply forallb_forall. intros p Hp. apply forallb_forall. intros q Hq.
    rewrite Forall_forall in N2. specialize (N2 q Hq). rewrite (built_clash es1 cs c1 q B) in N2.
    destruct (overlaps p q) eqn:E; [|reflexivity]. elim N2. right. eauto.
  - apply Forall_app. split; [exact N1|]. apply (Forall_impl _) with (2 := N2). intros q Hq C. apply Hq.
    rewrite (built_clash es1 cs c1 q B). now left.
Qed.

Lemma conflicts_app es1 es2 cs c1 : built es1 cs c1 -> conflicts (map fst es2) c1 -> conflicts (map fst (es1 ++ es2)) cs.
Proof.
  intros B. unfold conflicts. rewrite map_app, conflict_free_app. intros [->|E]; [left; now rewrite andb_false_r|].
  apply Exists_exists in E as (q & Hq & C). apply (built_clash es1 cs c1 q B) in C as [C|(p & Hp & C)].
  - right. apply Exists_exists. exists q. split; [apply in_or_app; now right|exact C].
  - left. apply andb_false_iff. right. apply not_true_iff_false. intros F. rewrite forallb_forall in F.
    specialize (F p Hp). rewrite forallb_forall in F. specialize (F q Hq). now rewrite C in F.
Qed.

Lemma conflicts_left (es1 es2 : entries) cs : conflicts (map fst es1) cs -> conflicts (map fst (es1 ++ es2)) cs.
Proof.
  unfold conflicts. rewrite map_app, conflict_free_app. intros [->|E]; [now left|right].
  apply Exists_app. now left.
Qed.

(** What reading some entries does to the tree. *)
Definition reads (es : entries) (root : BsonUpdateIntermediatePathNode) (cs : list BsonPathNode) (spec : PositionalUpdateSpec)
  (r : res UpdateTree) : Prop :=
  (exists cs', r = Ok (root, cs', spec) /\ built es cs cs' /\ free (map fst es) cs) \/
  (r = Err ERRCODE_DOCUMENTDB_CONFLICTINGUPDATEOPERATORS /\ conflicts (map fst es) cs).

Lemma reads_app es1 es2 root cs spec r (k : UpdateTree -> res UpdateTree) :
  reads es1 root cs spec r -> (forall c1, built es1 cs c1 -> reads es2 root c1 spec (k (root, c1, spec))) ->
  reads (es1 ++ es2) root cs spec (res_bind r k).
Proof.
  intros [(c1 & -> & B & F)|[-> C]] H; [|right; split; [reflexivity|now apply conflicts_left]]. cbn [res_bind].
  destruct (H c1 B) as [(c2 & -> & B2 & F2)|[-> C]].
  - left. exists c2. split; [reflexivity|split; [eapply built_app; eauto|eapply free_app; eauto]].
  - right. split; [reflexivity|eapply conflicts_app; eauto].
Qed.

Lemma join_last p : p <> [] -> forallb segment p = true -> exists a c, join_path p = a ++ [c] /\ c <> dot.
Proof.
  induction p as [|k p IH]; [easy|]. cbn [forallb]. rewrite andb_true_iff. intros _ [Sk Sp]. destruct p as [|k' p].
  - cbn [join_path]. destruct (exists_last (l := k)) as (a & c & E). { now intros ->. }
    exists a, c. split; [exact E|]. intros ->. apply (segment_no_dot k Sk). rewrite E. apply in_or_app. right. now left.
  - destruct IH as (a & c & E & D); [discriminate|exact Sp|]. exists (k ++ dot :: a), c. split; [|exact D].
    change (join_path (k :: k' :: p)) with (k ++ dot :: join_path (k' :: p)). rewrite E. now rewrite <- app_assoc.
Qed.

Lemma update_path_inv p : update_path p = true -> p <> [] /\ forallb segment p = true /\
  exists k r, p = k :: r /\ segment k = true /\ same_key k id_field = false.
Proof.
  destruct p as [|k r]; [discriminate|]. unfold update_path. rewrite andb_true_iff, negb_true_iff. intros [S K].
  split; [discriminate|]. split; [exact S|]. exists k, r. cbn [forallb] in S. apply andb_true_iff in S. tauto.
Qed.

Lemma join_head k r : segment k = true -> exists c x, join_path (k :: r) = c :: x /\ byte_eqb c "$"%byte = false.
Proof. intros S. apply segment_dollar in S as (c & x & -> & D). destruct r; cbn; eauto. Qed.

Lemma ValidateSpecPathForUpdateTree_ok p : update_path p = true -> ValidateSpecPathForUpdateTree (join_path p) = Ok tt.
Proof.
  intros H. apply update_path_inv in H as (Hne & S & k & r & -> & Sk & _). unfold ValidateSpecPathForUpdateTree.
  destruct (join_last _ Hne S) as (a & c & E & D). destruct (join_head k r Sk) as (c' & x & E' & D').
  assert (L : char_at (join_path (k :: r)) (List.length (join_path (k :: r)) - 1) = c).
  { rewrite E. unfold char_at. rewrite length_app. cbn [List.length]. rewrite Nat.add_sub. apply nth_middle. }
  rewrite L, E'. cbn [char_at nth]. rewrite D'. change (blen (c' :: x) =? 0) with false. cbv iota.
  destruct (byte_eqb c "."%byte) eqn:B; [|reflexivity]. now apply byte_eqb_eq in B.
Qed.

Lemma forallb_no_nul p : forallb segment p = true -> no_nul (join_path p).
Proof.
  induction p as [|k p IH]; [constructor|]. cbn [forallb]. rewrite andb_true_iff. intros [Sk Sp].
  apply segment_no_nul in Sk. destruct p as [|k' p]; [exact Sk|].
  change (join_path (k :: k' :: p)) with (k ++ dot :: join_path (k' :: p)). apply Forall_app. split; [exact Sk|].
  constructor; [easy|now apply IH].
Qed.

Lemma join_not_id p : update_path p = true -> (strcmp (join_path p) (str "_id") =? 0) = false.
Proof.
  intros H. apply update_path_inv in H as (_ & S & k & r & -> & Sk & K). apply not_true_iff_false. intros E.
  apply strcmp_0 in E; [|now apply forallb_no_nul|now apply no_nulb_ok].
  destruct r as [|k' r]; cbn [join_path] in E; [subst k; rewrite same_key_refl in K; discriminate|].
  assert (In dot (str "_id")). { rewrite <- E. apply in_or_app. right. now left. }
  cbn in H. decompose [or] H; try discriminate; assumption.
Qed.

Lemma overlaps_refl p : overlaps p p = true.
Proof. induction p as [|k p IH]; cbn; [reflexivity|]. now rewrite same_key_refl. Qed.

Lemma path_eq_dec (p q : list bytes) : {p = q} + {p <> q}.
Proof. apply list_eq_dec, list_eq_dec, Byte.byte_eq_dec. Qed.

Lemma added_built path ty value state p cs cs' : p <> [] -> added path ty value state p cs cs' ->
  built [(p, new_leaf path ty value state (last p []))] cs cs'.
Proof.
  intros Hp [W N L O _ (n & En & Put)]. constructor; [exact W| |].
  - intros q l. cbn [In]. destruct (path_eq_dec q p) as [->|D].
    + rewrite L. split; [intros [= <-]; left; now left|]. intros [[[= ->]|[]]|H]; [reflexivity|].
      elim N. exists p, l. split; [exact H|apply overlaps_refl].
    + rewrite (O q D). split; [now right|]. intros [[[= H _]|[]]|H]; [now elim D|exact H].
  - intros l rest ->. destruct p as [|k p]; [easy|]. cbn [hd] in Put. cbn [put_child field] in Put.
    destruct (same_key (leaf_field l) k) eqn:K; [|eauto].
    elim N. apply same_key_iff in K. exists [k], l. cbn. now rewrite K, same_key_refl.
Qed.

(** One path: a conflict, or a new leaf. *)
Lemma add_path_spec p value force ty state ev est cs spec : update_path p = true -> forest_wf cs ->
  DetermineChildNodeType value force = Ok ty -> ty <> NodeType_LeafIncluded ->
  let l := new_leaf (join_path p) ty value state (last p []) in
  (add_path (join_path p) value force state ev est cs spec = Err ERRCODE_DOCUMENTDB_CONFLICTINGUPDATEOPERATORS /\ clash cs p) \/
  exists cs', add_path (join_path p) value force state ev est cs spec =
      Ok (cs', spec, {| alreadyExists := false; located_node := LeafNode l; located_path := p |}) /\
    built [(p, l)] cs cs' /\ ~ clash cs p.
Proof.
  intros Hp W T Hty l. pose proof (update_path_inv p Hp) as (Hne & S & _).
  unfold add_path, TraverseDottedPathAndGetOrAddNodeCore. rewrite T. cbn [res_bind].
  destruct (TraverseDottedPathAndGetNode_adds (join_path p) ty value state Hty spec p (Datatypes.S (List.length (join_path p))) cs Hne S W)
    as (cs' & found & -> & [[A C]|[-> A]]); [now apply length_join|..]; cbn [res_bind].
  - left. rewrite A. unfold HandleNodeExistsInTree. now rewrite join_not_id.
  - right. exists cs'. cbn [alreadyExists]. split; [reflexivity|]. split; [now apply added_built|apply A].
Qed.

Lemma reads_cons p l les root cs spec r (k : UpdateTree -> res UpdateTree) :
  (r = Err ERRCODE_DOCUMENTDB_CONFLICTINGUPDATEOPERATORS /\ clash cs p \/
   exists cs', r = k (root, cs', spec) /\ built [(p, l)] cs cs' /\ ~ clash cs p) ->
  (forall cs', forest_wf cs' -> reads les root cs' spec (k (root, cs', spec))) ->
  reads ((p, l) :: les) root cs spec r.
Proof.
  intros [[-> C]|(cs' & -> & B & N)] H.
  - right. split; [reflexivity|]. right. now constructor.
  - apply (reads_app [(p, l)] les root cs spec (Ok (root, cs', spec)) k).
    + left. exists cs'. split; [reflexivity|split; [exact B|]]. split; [reflexivity|now repeat constructor].
    + intros c1 B1. apply H, B1.
Qed.

(** ** The operators *)

Variables (skip : bool) (clock : CurrentDocumentState -> UpdateSetValueState -> Z * Z).

Definition operator_named (name : bytes) : option MongoUpdateOperatorSpec :=
  find (fun op => strcmp (operatorName op) name =? 0) (MongoUpdateOperators skip clock).

Definition operator_leaf (op : MongoUpdateOperatorSpec) (p : list bytes) (v : bson_value) : option BsonUpdateLeafNode :=
  match treeFunc op with
  | UseHandleBasicUpdateTree =>
    match match updateWriterGetState op with Some f => f v | None => Ok NoContext end with
    | Ok c => Some (new_leaf (join_path p) NodeType_LeafField v
                      {| updateFunc := Some (updateWriterFunc op); updateFuncState := c |} (last p []))
    | Err _ => None
    end
  | UseHandleUnsetUpdateTree =>
    Some (new_leaf (join_path p) NodeType_LeafExcluded (VInt32 0)
            {| updateFunc := Some (updateWriterFunc op); updateFuncState := NoContext |} (last p []))
  | _ => None
  end.

(** The leaf an operator makes for a path and its argument; none for [$rename] and
    [$setOnInsert], and when the argument is refused. *)
Definition entry_leaf (name : bytes) (p : list bytes) (v : bson_value) : option BsonUpdateLeafNode :=
  match operator_named name with Some op => operator_leaf op p v | None => None end.

Definition spec_fields (es : list (list bytes * bson_value)) : fields := map (fun '(p, v) => (join_path p, v)) es.

(** One operator with paths and arguments, and its leaves. *)
Inductive op_entries (op : MongoUpdateOperatorSpec) : list (list bytes * bson_value) -> entries -> Prop :=
| op_entries_nil : op_entries op [] []
| op_entries_cons p v l es les : update_path p = true -> operator_leaf op p v = Some l -> op_entries op es les ->
    op_entries op ((p, v) :: es) ((p, l) :: les).

Lemma run_tree_func_reads op isUpsert root spec es les : plain_node root -> op_entries op es les -> forall cs, forest_wf cs ->
  reads les root cs spec (run_tree_func op (spec_fields es) isUpsert (root, cs, spec)).
Proof.
  intros Pr. induction 1 as [|p v l es les Hp L _ IH]; intros cs W.
  { left. exists cs. unfold run_tree_func. split; [|split; [now apply built_nil|now split]].
    now destruct (treeFunc op), isUpsert. }
  apply reads_cons with (2 := IH). unfold operator_leaf in L. unfold run_tree_func.
  destruct (treeFunc op) eqn:T; try discriminate; cbn [spec_fields map HandleBasicUpdateTree HandleUnsetUpdateTree];
    fold (spec_fields es).
  - destruct (match updateWriterGetState op with Some f => f v | None => Ok NoContext end) as [c|]; [|discriminate].
    injection L as <-. rewrite ValidateSpecPathForUpdateTree_ok by exact Hp. cbn [res_bind].
    set (st := {| updateFunc := _; updateFuncState := _ |}).
    destruct (add_path_spec p v true NodeType_LeafField st v st cs spec Hp W eq_refl ltac:(discriminate))
      as [[-> Cl]|(cs' & -> & B & Nc)]; cbn [res_bind]; [now left|right]. exists cs'. split; [|now split].
    cbn [located_path]. rewrite (UpdateParentDataInTree_plain p root cs' (new_leaf (join_path p) NodeType_LeafField v st (last p [])));
      [reflexivity|exact Pr|apply B|]. apply B. left. now left.
  - injection L as <-. set (st := {| updateFunc := _; updateFuncState := _ |}).
    destruct (add_path_spec p (VInt32 0) false NodeType_LeafExcluded st v st cs spec Hp W eq_refl ltac:(discriminate))
      as [[-> Cl]|(cs' & -> & B & Nc)]; cbn [res_bind]; [now left|right]. now exists cs'.
Qed.

(** An update specification: operators with paths and arguments. *)
Definition update_spec : Set := list (bytes * list (list bytes * bson_value)).

Definition spec_document (ops : update_spec) : fields := map (fun '(name, es) => (name, VDocument (spec_fields es))) ops.

Definition spec_paths (ops : update_spec) : list (list bytes) := flat_map (fun '(_, es) => map fst es) ops.

(** All operators are known, all paths are well-formed and all arguments accepted. *)
Definition spec_ok (ops : update_spec) : bool :=
  forallb (fun '(name, es) => match operator_named name with Some _ => true | None => false end &&
    forallb (fun '(p, v) => update_path p && match entry_leaf name p v with Some _ => true | None => false end) es) ops.

Definition spec_leaves (ops : update_spec) : entries :=
  flat_map (fun '(name, es) =>
    flat_map (fun '(p, v) => match entry_leaf name p v with Some l => [(p, l)] | None => [] end) es) ops.

Lemma op_entries_leaves name op es : operator_named name = Some op ->
  forallb (fun '(p, v) => update_path p && match entry_leaf name p v with Some _ => true | None => false end) es = true ->
  op_entries op es (flat_map (fun '(p, v) => match entry_leaf name p v with Some l => [(p, l)] | None => [] end) es).
Proof.
  intros O. induction es as [|[p v] es IH]; cbn [forallb flat_map]; [constructor|]. unfold entry_leaf at 1 3. rewrite O.
  rewrite !andb_true_iff. intros [[Hp L] Hs]. destruct (operator_leaf op p v) eqn:E; [|discriminate]. cbn [app].
  constructor; auto.
Qed.

Lemma read_operators_reads isUpsert root spec ops : plain_node root -> spec_ok ops = true -> forall cs, forest_wf cs ->
  reads (spec_leaves ops) root cs spec (read_operators skip clock (spec_document ops) isUpsert (root, cs, spec)).
Proof.
  intros Pr. unfold spec_ok, spec_leaves, spec_document.
  induction ops as [|[name es] ops IH]; cbn [forallb flat_map map read_operators]; intros S cs W.
  { left. exists cs. split; [reflexivity|split; [now apply built_nil|now split]]. }
  rewrite !andb_true_iff in S. destruct S as [[S1 S2] S3].
  destruct (operator_named name) as [op|] eqn:O; [|discriminate]. unfold operator_named in O. rewrite O.
  apply reads_app.
  - apply run_tree_func_reads; [exact Pr| |exact W]. now apply op_entries_leaves.
  - intros c1 B. apply IH; [exact S3|apply B].
Qed.

Definition id_node : BsonUpdateLeafNode :=
  {| leaf_nodeType := NodeType_LeafExcluded; leaf_field := id_field; leaf_relativePath := id_field; writeFunc := None;
     updateNodeContext := NoContext; leaf_positionalData := PositionalType_None; fieldData := VInt32 0 |}.

Lemma id_node_wf : forest_wf [LeafNode id_node].
Proof. split; [repeat constructor; easy|]. constructor; [now split|constructor]. Qed.

Lemma spec_leaves_paths ops : spec_ok ops = true -> map fst (spec_leaves ops) = spec_paths ops.
Proof.
  unfold spec_ok, spec_leaves, spec_paths. induction ops as [|[name es] ops IH]; [reflexivity|].
  cbn [forallb flat_map]. rewrite !andb_true_iff. intros [[_ S] S3]. rewrite map_app, IH by exact S3. f_equal.
  clear -S. induction es as [|[p v] es IH]; [reflexivity|]. cbn [forallb flat_map map fst] in *.
  apply andb_true_iff in S as [S1 S2]. apply andb_true_iff in S1 as [_ S1].
  destruct (entry_leaf name p v); [|discriminate]. cbn. now rewrite IH.
Qed.

Lemma spec_paths_ok ops : spec_ok ops = true -> forallb update_path (spec_paths ops) = true.
Proof.
  unfold spec_ok, spec_paths. induction ops as [|[name es] ops IH]; [reflexivity|]. cbn [forallb flat_map].
  rewrite !andb_true_iff, forallb_app. intros [[_ S] S3]. rewrite IH, andb_true_r by exact S3. clear -S.
  induction es as [|[p v] es IH]; [reflexivity|]. cbn [forallb map fst] in *.
  apply andb_true_iff in S as [S1 S2]. apply andb_true_iff in S1 as [-> _]. now apply IH.
Qed.

Lemma id_node_no_clash p : update_path p = true -> ~ clash [LeafNode id_node] p.
Proof.
  intros H ([|k q] & l & L & C); [discriminate|]. cbn [leaf_at child_named find field] in L.
  apply update_path_inv in H as (_ & _ & k' & r & -> & _ & K). destruct (same_key (leaf_field id_node) k) eqn:E; [|discriminate].
  apply same_key_iff in E. cbn [overlaps] in C. apply andb_true_iff in C as [C _]. apply same_key_iff in C. subst k'.
  rewrite <- E in K. cbn [leaf_field id_node] in K. rewrite same_key_refl in K. discriminate.
Qed.

Lemma GetOperatorUpdateState_cases ops query isUpsert : spec_ok ops = true ->
  let r := GetOperatorUpdateState skip clock (VDocument (spec_document ops)) query None isUpsert in
  (conflict_free (spec_paths ops) = true /\
    exists cs, r = Ok (MakeRootNode, LeafNode id_node :: cs) /\ built (spec_leaves ops) [LeafNode id_node] (LeafNode id_node :: cs)) \/
  (conflict_free (spec_paths ops) = false /\ r = Err ERRCODE_DOCUMENTDB_CONFLICTINGUPDATEOPERATORS).
Proof.
  intros Hs r. subst r. unfold GetOperatorUpdateState. cbn [BuildExpressionForArrayFilters res_bind].
  set (spec := {| querySpec := query; arrayFilters := None |}).
  assert (E : ReadUpdateSpecAndUpdateTree skip clock (spec_document ops) spec isUpsert =
    read_operators skip clock (spec_document ops) isUpsert (MakeRootNode, [LeafNode id_node], spec)) by reflexivity.
  rewrite E. destruct (read_operators_reads isUpsert MakeRootNode spec ops) with (cs := [LeafNode id_node])
    as [(cs & -> & B & F & _)|[-> C]]; [easy|exact Hs|apply id_node_wf|..]; rewrite spec_leaves_paths in * by exact Hs.
  - left. split; [exact F|]. destruct (built_first _ _ _ B id_node []) as [rest ->]; [reflexivity|]. now exists rest.
  - right. split; [|reflexivity]. destruct C as [C|C]; [exact C|]. apply Exists_exists in C as (p & Hp & C).
    pose proof (spec_paths_ok ops Hs) as P. rewrite forallb_forall in P. now apply id_node_no_clash in C; [|apply P].
Qed.

(** C18: For an update specification without array filters whose operators are known and
    not [$rename] or [$setOnInsert], whose arguments they accept and whose paths are made of
    non-empty names that have no NUL and do not start with a dollar, not at or below [_id]
    ([spec_ok]): the specification is refused, with the conflict error, exactly when one of
    its paths is a prefix of (or the same as) another, and otherwise its tree has a leaf for
    the [_id] and one for each path, with the operator and the argument of that path, and no
    other leaf. *)
Theorem GetOperatorUpdateState_builds (ops : update_spec) (query : bson_value) (isUpsert : bool) : spec_ok ops = true ->
  let r := GetOperatorUpdateState skip clock (VDocument (spec_document ops)) query None isUpsert in
  if conflict_free (spec_paths ops) then
    exists cs, r = Ok (MakeRootNode, LeafNode id_node :: cs) /\
      forall i p l, node_at p (IntermediateNode i (LeafNode id_node :: cs)) = Some (LeafNode l) <->
        In (p, l) (([id_field], id_node) :: spec_leaves ops)
  else r = Err ERRCODE_DOCUMENTDB_CONFLICTINGUPDATEOPERATORS.
Proof.
  intros Hs r. destruct (GetOperatorUpdateState_cases ops query isUpsert Hs) as [[-> (cs & E & B)]|[-> E]]; [|exact E].
  exists cs. split; [exact E|]. intros i p l. rewrite leaf_at_node, (built_leaves _ _ _ B). cbn [In].
  rewrite or_comm. apply or_iff_compat_r. cbn [leaf_at child_named find field leaf_field id_node].
  destruct p as [|k [|k' p]]; [split; [discriminate|intros [=]]|..]; cbn [leaf_at child_named find field leaf_field id_node];
    destruct (same_key id_field k) eqn:K; try (split; congruence).
  - apply same_key_iff in K. subst k. split; congruence.
  - split; [discriminate|]. intros [= <- _]. rewrite same_key_refl in K. discriminate.
Qed.
End Forest.
