(* ===== verification/UpdateApply.v ===== *)
(** * Updates from the specification to the new document

    The tree of a specification and its application together: every operator is given
    the value its path has in the document, every path ends up with what its operator
    makes of that value, and the rest of the document is kept. *)

From Stdlib Require Import ZArith Lia Bool String List SpecFloat Sorted Permutation.
From Stdlib Require Import Strings.Byte.
From S2P Require Import Prelude SoftFloat BsonTypes StringView Decimal128 BsonCompare BsonOrder RefBid BsonRefine.
From S2P Require Import BsonArith Traversal PgbsonElement DollarOperators BsonWriter SortUtils ExprEval.
From S2P Require Import UpdateOperators UpdateTree UpdateWorkflow UpdateRef UpdatePaths UpdateBuild.
Import ListNotations.
Local Open Scope Z_scope.

(** Documents, or nothing, on the way to a path. *)
Fixpoint open_path (p : list bytes) (v : bson_value) : Prop :=
  match p with
  | [] => True
  | k :: p => match v with VDocument d => document_ok d /\ open_path p (value_in d k) | VEod => True | _ => False end
  end.

Section Apply.
Context {BL : BidLib} {BLaws : BidLaws BL} {LB : LibBson} {LBLaws : LibBsonLaws LB} {UV : UnionView}
  {LD : LibBsonDoc} {LDL : LibBsonDocLaws LD} {EE : ExprEngine} {PS : PgSort} {PQ : PositionalQuery} {LN : LibBsonNew}.
Variables (skip : bool) (clock : CurrentDocumentState -> UpdateSetValueState -> Z * Z).

(** The operator of a leaf, applied to a field with this value, or without one, writes at
    most one value. *)
Definition leaf_outcome (st : CurrentDocumentState) (l : BsonUpdateLeafNode) (v : bson_value) (o : outcome) : Prop :=
  forall w, WriteCurrentNode l v (ObjectElementWriter w (leaf_field l)) st false false (leaf_field l) =
    Ok (ObjectElementWriter (w ++ opt_field (leaf_field l) (fst o)) (leaf_field l), snd o).

(** The outcome, read off a run on an empty document. *)
Definition run_leaf (st : CurrentDocumentState) (l : BsonUpdateLeafNode) (v : bson_value) : outcome :=
  match WriteCurrentNode l v (ObjectElementWriter [] (leaf_field l)) st false false (leaf_field l) with
  | Ok (ObjectElementWriter w _, m) => (match w with [(_, x)] => Some x | _ => None end, m)
  | _ => (None, false)
  end.

Lemma leaf_outcome_run st l v o : leaf_outcome st l v o -> run_leaf st l v = o.
Proof. intros H. unfold run_leaf. rewrite (H []). destruct o as [[x|] m]; reflexivity. Qed.

Lemma leaf_outcome_writes st l v o : leaf_outcome st l v o -> leaf_writes (run_leaf st) st l v.
Proof. intros H w. rewrite (leaf_outcome_run st l v o H). apply H. Qed.

Lemma fits_outcomes st n : tree_wf n -> forall v,
  (forall p l, node_at p n = Some (LeafNode l) -> open_path p v /\ exists o, leaf_outcome st l (lookup_path p v) o) ->
  fits (run_leaf st) st n v.
Proof.
  induction n as [l|i cs IH] using node_ind; intros W v H.
  { destruct (H [] l eq_refl) as (_ & o & O). apply leaf_outcome_writes in O. cbn [fits lookup_path] in *.
    destruct v, (leaf_nodeType l); trivial. }
  pose proof (tree_has_leaf _ W) as (q & l & L). apply tree_wf_node in W as (_ & (_ & Hp & _) & _ & _ & N & W).
  assert (Hc : children_ok cs).
  { split; [exact N|]. apply (Forall_impl _) with (2 := W). intros c Wc. apply tree_wf_field in Wc as [Sc Pc].
    split; [now apply segment_no_nul|exact Pc]. }
  assert (Sub : forall inner, (forall k p, lookup_path (k :: p) v = lookup_path p (inner k)) ->
    (forall k p, open_path (k :: p) v -> open_path p (inner k)) ->
    Forall (fun c => fits (run_leaf st) st c (inner (field c))) cs).
  { intros inner E O. rewrite Forall_forall in *. intros c Hin. apply (IH c Hin (W c Hin)). intros p l' Np.
    destruct (child_at_In cs 0 c N Hin) as [j Cj].
    destruct (H (field c :: p) l') as [Op (o & Ho)]; [cbn [node_at]; now rewrite Cj|].
    split; [now apply O|]. exists o. now rewrite <- E. }
  apply (leaf_at_node q i) in L. destruct (H q l L) as [Op _]. destruct q as [|k q]; [discriminate|].
  destruct v; try now destruct Op.
  - specialize (Sub (fun _ => VEod)). cbn [fits]. split; [exact Hp|split; [exact Hc|]].
    assert (F : Forall (fun c => fits (run_leaf st) st c VEod) cs)
      by (apply Sub; intros k' [|k2 p]; reflexivity || trivial). clear -F.
    induction F; [exact I|now split].
  - specialize (Sub (value_in d)). cbn [fits]. split; [exact Hp|split; [exact Hc|]]. split; [apply Op|].
    assert (F : Forall (fun c => fits (run_leaf st) st c (value_in d (field c))) cs)
      by (apply Sub; [reflexivity|]; now intros k' p [_ H']). clear -F.
    induction F; [exact I|now split].
Qed.

Lemma tree_flags_ok n : tree_wf n -> flags_ok n.
Proof.
  induction n as [l|i cs IH] using node_ind; intros W; [exact I|]. apply tree_wf_node in W as (_ & _ & _ & F & _ & W).
  cbn [flags_ok]. split; [intros A; now rewrite F|]. clear F. induction IH as [|c cs Hc _ IH']; [exact I|].
  inversion_clear W as [|? ? Wc W']. split; [now apply Hc|now apply IH'].
Qed.

(** A path ends outside the tree, or it is overlaps with that of a leaf. *)
Lemma leaves_tree q : forall i cs, forest_wf cs -> q <> [] ->
  (exists q1 k rest j gcs, q = q1 ++ k :: rest /\ node_at q1 (IntermediateNode i cs) = Some (IntermediateNode j gcs) /\
    child_at gcs 0 k = None) \/
  exists p l, leaf_at p cs = Some l /\ overlaps p q = true.
Proof.
  induction q as [|k q IH]; intros i cs W Hq; [easy|]. destruct (child_at cs 0 k) as [[m c]|] eqn:E.
  2: { left. exists [], k, q, i, cs. now repeat split. }
  assert (Cn : child_named cs k = Some c) by (rewrite (child_named_at cs k 0), E; reflexivity).
  destruct c as [l|j gcs].
  { right. exists [k], l. cbn. now rewrite Cn, same_key_refl. }
  assert (Wn : tree_wf (IntermediateNode j gcs))
    by (destruct W as [_ W]; rewrite Forall_forall in W; apply W; now apply child_named_Some in Cn).
  destruct q as [|k' q].
  - destruct (tree_has_leaf _ Wn) as (p & l & L). right. exists (k :: p), l. cbn [leaf_at overlaps].
    rewrite Cn, same_key_refl. now destruct p.
  - apply tree_wf_node in Wn as (_ & _ & _ & _ & Wg).
    destruct (IH j gcs Wg) as [(q1 & k1 & rest & j1 & g1 & Eq & Nq & Cq)|(p & l & L & C)]; [discriminate|left|right].
    + exists (k :: q1), k1, rest, j1, g1. rewrite Eq. repeat split; [|exact Cq]. cbn [node_at]. now rewrite E.
    + exists (k :: p), l. cbn [leaf_at]. rewrite Cn. destruct p; [discriminate|]. split; [exact L|].
      cbn [overlaps]. now rewrite same_key_refl.
Qed.

Lemma lookup_path_app p q v : lookup_path (p ++ q) v = lookup_path q (lookup_path p v).
Proof.
  revert v. induction p as [|k p IH]; intros v; [reflexivity|]. cbn [app lookup_path].
  destruct v; rewrite ?lookup_path_eod; trivial.
Qed.

(** What is stored is what was there, for values libbson copies. *)
Lemma stored_kept rest v : copied (lookup_path rest v) = true \/ lookup_path rest v = VEod ->
  lookup_path rest (stored v) = lookup_path rest v.
Proof.
  destruct rest as [|k rest].
  - cbn [lookup_path]. unfold stored. intros [H| ->]; [now rewrite append_copied|now rewrite append_eod].
  - intros _. destruct v; try (rewrite lookup_stored by discriminate; reflexivity).
    unfold stored. now rewrite append_copied.
Qed.

Record updatable_document (d : fields) (id : bson_value) : Prop := {
  ud_ok : document_ok d;
  ud_id : lookup d id_field = Some id;
  ud_copied : copied id = true;
  ud_value : value_ok id;
  ud_valid : ValidateIdField id = Ok tt
}.

Lemma spec_head ops p l : spec_ok skip clock ops = true -> In (p, l) (spec_leaves skip clock ops) ->
  exists k q, p = k :: q /\ same_key id_field k = false.
Proof.
  intros Hs Hin. pose proof (spec_paths_ok skip clock ops Hs) as P. rewrite forallb_forall in P.
  apply (in_map fst) in Hin. rewrite (spec_leaves_paths skip clock ops Hs) in Hin. apply P in Hin.
  apply update_path_inv in Hin as (_ & _ & k & q & E & _ & K). exists k, q. split; [exact E|]. now rewrite same_key_sym.
Qed.

(** The leaves below the root, the node of the [_id] apart, are those of the paths. *)
Lemma spec_tree_leaves ops cs p l : spec_ok skip clock ops = true ->
  built (spec_leaves skip clock ops) [LeafNode id_node] (LeafNode id_node :: cs) ->
  leaf_at p cs = Some l <-> In (p, l) (spec_leaves skip clock ops).
Proof.
  intros Hs B. assert (Tail : forall k q, same_key id_field k = false ->
    leaf_at (k :: q) (LeafNode id_node :: cs) = leaf_at (k :: q) cs /\ leaf_at (k :: q) [LeafNode id_node] = None).
  { intros k q K. cbn [leaf_at child_named find field leaf_field id_node]. now rewrite K. }
  split.
  - intros L. destruct p as [|k q]; [discriminate|]. assert (K : same_key id_field k = false).
    { destruct (built_wf _ _ _ B) as [N _]. inversion_clear N as [|? ? Nid _].
      destruct (same_key id_field k) eqn:K; [|reflexivity]. apply same_key_iff in K. subst k.
      cbn [leaf_at] in L. destruct (child_named cs id_field) as [c|] eqn:C; [|discriminate].
      apply child_named_Some in C as [Hin C]. elim Nid. cbn [field leaf_field id_node]. rewrite <- C. now apply in_map. }
    destruct (Tail k q K) as [T1 T2]. rewrite <- T1 in L. apply (built_leaves _ _ _ B) in L as [L|L]; [exact L|congruence].
  - intros Hin. destruct (spec_head ops p l Hs Hin) as (k & q & -> & K). destruct (Tail k q K) as [T1 _].
    rewrite <- T1. apply (built_leaves _ _ _ B). now left.
Qed.

(** Only [$unset] makes leaves that add nothing. *)
Lemma excluded_leaf ops p l st : In (p, l) (spec_leaves skip clock ops) -> leaf_nodeType l = NodeType_LeafExcluded ->
  leaf_outcome st l VEod (None, false).
Proof.
  unfold spec_leaves. rewrite in_flat_map. intros ([name es] & _ & Hin). apply in_flat_map in Hin as ([p' v] & _ & Hin).
  unfold entry_leaf, operator_named in Hin. destruct (find _ _) as [op|] eqn:F; [|easy]. apply find_some in F as [F _].
  unfold operator_leaf in Hin. destruct (treeFunc op) eqn:T; try easy.
  - destruct (match updateWriterGetState op with Some f => f v | None => Ok NoContext end); [|easy].
    destruct Hin as [[= _ <-]|[]]. discriminate.
  - destruct Hin as [[= _ <-]|[]]. intros _ w. cbn in F.
    repeat (destruct F as [<-|F]; [try discriminate T|]); [|now elim F]. cbn. now rewrite app_nil_r.
Qed.

Lemma built_updatable ops cs d id isUpsert :
  spec_ok skip clock ops = true -> built (spec_leaves skip clock ops) [LeafNode id_node] (LeafNode id_node :: cs) ->
  updatable_document d id -> let st := document_state d id isUpsert in
  (forall p l, In (p, l) (spec_leaves skip clock ops) ->
     open_path p (VDocument d) /\ exists o, leaf_outcome st l (lookup_path p (VDocument d)) o) ->
  updatable (run_leaf st) d id isUpsert MakeRootNode id_node cs.
Proof.
  intros Hs B [D1 D2 D3 D4 D5] st H. pose proof (built_wf _ _ _ B) as [N W]. inversion_clear W as [|? ? _ W'].
  inversion_clear N as [|? ? Nid N'].
  assert (Hc : children_ok (LeafNode id_node :: cs)).
  { split; [now constructor|]. constructor; [split; [apply id_field_no_nul|reflexivity]|].
    apply (Forall_impl _) with (2 := W'). intros c Wc. apply tree_wf_field in Wc as [Sc Pc].
    split; [now apply segment_no_nul|exact Pc]. }
  assert (Nk : forall c, In c cs -> same_key id_field (field c) = false).
  { intros c Hin. destruct (same_key id_field (field c)) eqn:K; [|reflexivity]. apply same_key_iff in K. elim Nid.
    cbn [field leaf_field id_node]. rewrite K. now apply in_map. }
  constructor; auto; [now repeat split|apply (Forall_impl _ tree_flags_ok W')| |].
  - rewrite Forall_forall in *. intros c Hin _. rewrite same_key_sym. split; [now apply Nk|right].
    pose proof (tree_wf_field c (W' c Hin)) as [Sc _]. apply segment_dollar in Sc as (x & r & -> & E). exact E.
  - cbn [fits]. split; [reflexivity|]. split; [split; [exact N'|destruct Hc as [_ Hc]; now inversion Hc]|].
    split; [now apply without_id_ok|].
    assert (F : Forall (fun c => fits (run_leaf st) st c (value_in (without_id d) (field c))) cs).
    { rewrite Forall_forall in *. intros c Hin. apply fits_outcomes; [now apply W'|]. intros p l Np.
      unfold value_in. rewrite lookup_without_id by now apply Nk. fold (value_in d (field c)).
      assert (L : leaf_at (field c :: p) cs = Some l).
      { apply (leaf_at_node _ MakeRootNode). cbn [node_at]. now destruct (child_at_In cs 0 c N' Hin) as [j ->]. }
      apply (spec_tree_leaves ops cs _ l Hs B) in L. destruct (H _ _ L) as [[_ Op] Ho]. now split. }
    clear -F. induction F; [exact I|now split].
Qed.

(** C9: An update by operators without array filters whose specification is accepted
    ([spec_ok]: known operators other than [$rename] and [$setOnInsert], arguments that they
    take, paths of non-empty names that have no NUL and do not start with a dollar, not at
    or below [_id]), no path a prefix of another, on a document with unique keys and a valid
    [_id] in which the paths lead through documents and not arrays, where every operator
    writes at most one value ([leaf_outcome]): every operator is given the value of its own
    path, that path then has what the operator makes of it, and the [_id] and every path
    that is neither above nor below an updated one (with a value that libbson copies) are
    kept. There is no new document exactly when nothing is modified and the update is no
    upsert; a new document is returned if libbson finds it valid and is an error if not. *)
Theorem update_applies (ops : update_spec) (query : bson_value) (d : fields) (id : bson_value) (isUpsert : bool)
  (out : list bytes -> outcome) :
  spec_ok skip clock ops = true -> conflict_free (spec_paths ops) = true -> updatable_document d id ->
  (forall p l, In (p, l) (spec_leaves skip clock ops) ->
     open_path p (VDocument d) /\ leaf_outcome (document_state d id isUpsert) l (lookup_path p (VDocument d)) (out p)) ->
  exists tree r, GetOperatorUpdateState skip clock (VDocument (spec_document ops)) query None isUpsert = Ok tree /\
  ProcessUpdateOperatorWithState d tree isUpsert = checked r /\
  (r = None <-> isUpsert = false /\ forall p, In p (spec_paths ops) -> snd (out p) = false) /\
  forall d', r = Some d' ->
    lookup d' id_field = Some id /\
    (forall p, In p (spec_paths ops) -> lookup_path p (VDocument d') = or_eod (fst (out p))) /\
    (forall q, q <> [] -> (forall p, In p ([id_field] :: spec_paths ops) -> overlaps p q = false) ->
      copied (lookup_path q (VDocument d)) = true \/ lookup_path q (VDocument d) = VEod ->
      lookup_path q (VDocument d') = lookup_path q (VDocument d)).
Proof.
  intros Hs Hf U H. destruct (GetOperatorUpdateState_cases skip clock ops query isUpsert Hs) as [[_ (cs & E & B)]|[Hf' _]]; [|congruence].
  set (st := document_state d id isUpsert) in *.
  assert (Up : updatable (run_leaf st) d id isUpsert MakeRootNode id_node cs).
  { apply (built_updatable ops); auto. intros p l Hin. destruct (H p l Hin). eauto. }
  destruct (ProcessUpdateOperatorWithState_paths _ _ _ _ _ _ _ Up) as (r & R & Rn & Rs).
  exists (MakeRootNode, LeafNode id_node :: cs), r. split; [exact E|split; [exact R|]].
  assert (Paths : forall p, In p (spec_paths ops) <-> exists l, In (p, l) (spec_leaves skip clock ops)).
  { intros p. rewrite <- (spec_leaves_paths skip clock ops Hs), in_map_iff. split.
    - intros ([p' l] & <- & Hin). now exists l.
    - intros [l Hin]. now exists (p, l). }
  assert (Leaf : forall p l, node_at p (IntermediateNode MakeRootNode cs) = Some (LeafNode l) <-> In (p, l) (spec_leaves skip clock ops))
    by (intros p l; rewrite leaf_at_node; now apply spec_tree_leaves).
  assert (After : forall p l, In (p, l) (spec_leaves skip clock ops) ->
    update_node (run_leaf st) (LeafNode l) (lookup_path p (VDocument d)) = out p).
  { intros p l Hin. destruct (H p l Hin) as [_ O]. apply leaf_outcome_run in O as R'. cbn [update_node].
    destruct (lookup_path p (VDocument d)) eqn:E'; try exact R'. destruct (leaf_nodeType l) eqn:T; try exact R'.
    rewrite <- R'. symmetry. apply leaf_outcome_run. now apply (excluded_leaf ops p). }
  split; [rewrite Rn; apply and_iff_compat_l; split|].
  - intros A p Hp. apply Paths in Hp as [l Hin]. rewrite <- (After p l Hin). apply A. now apply Leaf.
  - intros A p l N. apply Leaf in N. rewrite (After p l N). apply A, Paths. eauto.
  - intros d' Ed. destruct (Rs d' Ed) as (R1 & R2 & R3). split; [exact R1|split].
    + intros p Hp. apply Paths in Hp as [l Hin]. rewrite (R2 p l) by now apply Leaf. now rewrite (After p l Hin).
    + intros q Hq Hc Hk. assert (W : forest_wf cs).
      { destruct (built_wf _ _ _ B) as [N W]. inversion_clear N. inversion_clear W. now split. }
      destruct (leaves_tree q MakeRootNode cs W Hq) as [(q1 & k & rest & j & gcs & -> & Nq & Ck)|(p & l & L & C)].
      * replace (q1 ++ k :: rest) with ((q1 ++ [k]) ++ rest) in * by now rewrite <- app_assoc.
        rewrite !lookup_path_app with (p := q1 ++ [k]) in *. rewrite (R3 q1 j gcs k Nq Ck); [now apply stored_kept|].
        intros E'. rewrite E' in Hc. specialize (Hc [id_field] (or_introl eq_refl)). cbn [app overlaps] in Hc.
        rewrite same_key_refl in Hc. discriminate.
      * apply (spec_tree_leaves ops cs p l Hs B) in L. rewrite (Hc p) in C; [discriminate|]. right. apply Paths. eauto.
Qed.
End Apply.
