(* ===== verification/UpdateOutcomes.v ===== *)
(** * What the update operators make of a value

    The outcome of an operator on a field: the value it leaves there, and whether the
    field counts as modified.  Arrays are given by the list of their elements. *)

From Stdlib Require Import ZArith Lia Bool String List SpecFloat Sorted Permutation.
From Stdlib Require Import Strings.Byte.
From S2P Require Import Prelude SoftFloat BsonTypes StringView Decimal128 BsonCompare BsonOrder RefBid BsonRefine.
From S2P Require Import BsonArith Traversal PgbsonElement DollarMatch DollarOperators BsonWriter SortUtils ExprEval.
From S2P Require Import UpdateOperators UpdateTree UpdateWorkflow UpdateRef UpdatePaths UpdateBuild UpdateApply.
Import ListNotations.
Local Open Scope Z_scope.

Section Outcomes.
Context {BL : BidLib} {BLaws : BidLaws BL} {LB : LibBson} {LBLaws : LibBsonLaws LB} {UV : UnionView}
  {LD : LibBsonDoc} {LDL : LibBsonDocLaws LD} {EE : ExprEngine} {PS : PgSort} {PQ : PositionalQuery} {LN : LibBsonNew}.
Variables (skip : bool) (clock : CurrentDocumentState -> UpdateSetValueState -> Z * Z).

(** The writer and the state a leaf is run with. *)
Definition fresh_writer (ew : pgbson_element_writer) : UpdateOperatorWriter :=
  {| writer := ew; modified := false;
     updateArrayWriter := {| arrayWriter := ArrayWriter [] 0; isValid := false; array_modified := false |} |}.
Definition leaf_state (l : BsonUpdateLeafNode) : UpdateSetValueState :=
  {| fieldPath := leaf_field l; relativePath := leaf_relativePath l; isArray := false; hasArrayAncestors := false |}.

Definition is_missing (v : bson_value) : bool := type_eqb (value_type v) BSON_TYPE_EOD.

Lemma is_missing_true v : is_missing v = true <-> v = VEod.
Proof. destruct v; cbn; split; congruence. Qed.

(** The field is left as it is. *)
Definition unchanged (old : bson_value) : outcome := (if is_missing old then None else Some (stored old), false).
Definition replaced (v : bson_value) : outcome := (Some (stored v), true).

Lemma outcome_replaced st l f old v : writeFunc l = Some f -> v <> VEod ->
  (forall ew, f old (fresh_writer ew) (fieldData l) (updateNodeContext l) (leaf_state l) st =
     UpdateWriterWriteModifiedValue (fresh_writer ew) v) ->
  leaf_outcome st l old (replaced v).
Proof.
  intros Hf Hv H w. unfold WriteCurrentNode. rewrite Hf. fold (fresh_writer (ObjectElementWriter w (leaf_field l))).
  fold (leaf_state l). rewrite H. unfold UpdateWriterWriteModifiedValue. cbn [writer fresh_writer].
  rewrite write_object by exact Hv. reflexivity.
Qed.

Lemma outcome_unchanged st l f old : writeFunc l = Some f ->
  (forall ew, f old (fresh_writer ew) (fieldData l) (updateNodeContext l) (leaf_state l) st = Ok (fresh_writer ew)) ->
  leaf_outcome st l old (unchanged old).
Proof.
  intros Hf H w. unfold WriteCurrentNode. rewrite Hf. fold (fresh_writer (ObjectElementWriter w (leaf_field l))).
  fold (leaf_state l). rewrite H. cbn [res_bind modified negb writer fresh_writer andb]. unfold unchanged, is_missing.
  destruct (type_eqb (value_type old) BSON_TYPE_EOD) eqn:E; cbn [negb fst snd opt_field]; [now rewrite app_nil_r|].
  rewrite write_object; [reflexivity|]. intros ->. discriminate.
Qed.

(** A leaf of one of the operators that keep no context. *)
Definition basic_leaf (f : WriteUpdatedValuesFunc) (p : list bytes) (v : bson_value) : BsonUpdateLeafNode :=
  new_leaf (join_path p) NodeType_LeafField v {| updateFunc := Some f; updateFuncState := NoContext |} (last p []).

(** The operator [name] with the argument [v] has this outcome at the path [p]. *)
Definition operator_outcome (name : string) (p : list bytes) (v : bson_value) (st : CurrentDocumentState)
  (old : bson_value) (o : outcome) : Prop :=
  exists l, entry_leaf skip clock (str name) p v = Some l /\ leaf_outcome st l old o.

(** The comparison of [$min] and [$max]. *)
Definition ranked (v old : bson_value) : bool := negb (CompareBsonSortOrderType v old =? 0) || comparable v old.

Lemma compare_answer v old : value_ok v -> value_ok old ->
  exists c, CompareBsonValueAndType v old = Ok (c, ranked v old) /\ same_sign c (value_order None v old).
Proof.
  intros Hv Ho. change (CompareBsonValueAndType v old) with (CompareBsonValueAndTypeWithCollation v old None).
  destruct (CompareBsonValueAndType_answers None no_collation v old Hv Ho) as (c & valid & A & S & _).
  exists c. split; [|exact S]. rewrite A. do 2 f_equal. unfold ranked.
  destruct (CompareLogicalOperator_order None v old no_collation Hv Ho) as (x & L & _).
  unfold CompareLogicalOperatorWithCollation in L. destruct (Z.eqb_spec (CompareBsonSortOrderType v old) 0) as [E|N].
  - rewrite A in L. now injection L as _ ->.
  - unfold CompareBsonValueAndTypeWithCollation in A. destruct (Z.eqb_spec (CompareBsonSortOrderType v old) 0); [easy|].
    now injection A as _ <-.
Qed.

(** [$set] replaces the value unless the new one has the same type and is equal to it; an
    upsert always writes.  [$min] and [$max] replace a value when the new one comes before
    or after it in the order of values, a NaN and another number apart, which are not
    ranked.  A missing field is set.  [$unset] removes a field. *)
Theorem field_operators_outcome (p : list bytes) (v old : bson_value) (st : CurrentDocumentState) :
  value_ok v -> value_ok old -> v <> VEod ->
  operator_outcome "$set" p v st old
    (if negb (isUpsert st) && type_eqb (value_type v) (value_type old) && (value_order None v old =? 0)
     then unchanged old else replaced v) /\
  operator_outcome "$min" p v st old
    (if is_missing old || (value_order None v old <? 0) && ranked v old then replaced v else unchanged old) /\
  operator_outcome "$max" p v st old
    (if is_missing old || (value_order None v old >? 0) && ranked v old then replaced v else unchanged old) /\
  operator_outcome "$unset" p v st old (None, negb (is_missing old)).
Proof.
  intros Hv Ho Hn. destruct (compare_answer v old Hv Ho) as (c & A & S).
  assert (Lt : (c <? 0) = (value_order None v old <? 0)) by (unfold same_sign in S; lia).
  assert (Gt : (c >? 0) = (value_order None v old >? 0)) by (unfold same_sign in S; lia).
  repeat split.
  - exists (basic_leaf HandleUpdateDollarSet p v). split; [reflexivity|].
    destruct (negb (isUpsert st) && _ && _) eqn:E.
    + apply andb_true_iff in E as [E E3]. apply andb_true_iff in E as [E1 E2].
      eapply outcome_unchanged; [reflexivity|]. intros ew. unfold HandleUpdateDollarSet.
      rewrite E1, BsonValueEqualsStrict_spec by assumption. cbn [fieldData basic_leaf new_leaf res_bind]. now rewrite E2, E3.
    + eapply outcome_replaced; [reflexivity|exact Hn|]. intros ew. unfold HandleUpdateDollarSet.
      destruct (negb (isUpsert st)); [|reflexivity]. rewrite BsonValueEqualsStrict_spec by assumption.
      cbn [andb] in E. cbn [fieldData basic_leaf new_leaf res_bind]. now rewrite E.
  - exists (basic_leaf HandleUpdateDollarMin p v). split; [reflexivity|]. unfold is_missing.
    destruct (_ || _) eqn:E; [eapply outcome_replaced|eapply outcome_unchanged]; try reflexivity; try exact Hn;
      intros ew; unfold HandleUpdateDollarMin; cbn [fieldData basic_leaf new_leaf];
      destruct (type_eqb (value_type old) BSON_TYPE_EOD); try reflexivity; try discriminate E;
      cbn [orb] in E; rewrite A; cbn [res_bind]; now rewrite Lt, E.
  - exists (basic_leaf HandleUpdateDollarMax p v). split; [reflexivity|]. unfold is_missing.
    destruct (_ || _) eqn:E; [eapply outcome_replaced|eapply outcome_unchanged]; try reflexivity; try exact Hn;
      intros ew; unfold HandleUpdateDollarMax; cbn [fieldData basic_leaf new_leaf];
      destruct (type_eqb (value_type old) BSON_TYPE_EOD); try reflexivity; try discriminate E;
      cbn [orb] in E; rewrite A; cbn [res_bind]; now rewrite Gt, E.
  - eexists. split; [reflexivity|]. intros w. unfold is_missing.
    destruct old; cbn; now rewrite app_nil_r.
Qed.

(** C36: [$inc] by an integer on an integer (or a boolean): the exact sum, in the wider of the
    two types and wider than that when needed, or an error when it leaves the range of
    64-bit integers; never a wrapped sum.  A missing field is set to the increment. *)
Theorem HandleUpdateDollarInc_integers (p : list bytes) (v old : bson_value) (n : Z) (st : CurrentDocumentState) :
  value_ok v -> value_ok old -> int_value v = Some n -> BsonValueIsNumber v = true ->
  let l := basic_leaf HandleUpdateDollarInc p v in
  entry_leaf skip clock (str "$inc") p v = Some l /\
  (old = VEod -> leaf_outcome st l old (replaced v)) /\
  (forall s, int_value old = Some s ->
    if (INT64_MIN <=? s + n) && (s + n <=? INT64_MAX) then
      leaf_outcome st l old (replaced (if wide old v || negb ((INT32_MIN <=? s + n) && (s + n <=? INT32_MAX))
                                       then VInt64 (s + n) else VInt32 (s + n)))
    else forall ew, WriteCurrentNode l old ew st false false (leaf_field l) = Err ERRCODE_DOCUMENTDB_BADVALUE).
Proof.
  intros Hv Ho En Nv l. split; [reflexivity|].
  assert (Nb : BsonTypeIsNumber (value_type v) = true /\ BsonValueIsNumberOrBool v = true) by (destruct v; easy).
  assert (H0 : forall ew, HandleUpdateDollarInc old (fresh_writer ew) (fieldData l) (updateNodeContext l) (leaf_state l) st =
    if type_eqb (value_type old) BSON_TYPE_EOD then UpdateWriterWriteModifiedValue (fresh_writer ew) v
    else res_bind (AddNumberToBsonValue old v false) (fun sum =>
      if negb (returned sum) then Err ERRCODE_DOCUMENTDB_TYPEMISMATCH
      else res_bind (UpdateWriterWriteModifiedValue (fresh_writer ew) (updated sum))
        (fun w => if overflow sum then Err ERRCODE_DOCUMENTDB_BADVALUE else Ok w))).
  { intros ew. unfold HandleUpdateDollarInc. destruct Nb as [N1 N2]. unfold l. cbn [fieldData basic_leaf new_leaf].
    now rewrite N1, N2. }
  split.
  - intros ->. eapply outcome_replaced; [reflexivity|destruct v; discriminate|exact H0].
  - intros s Es. assert (T : type_eqb (value_type old) BSON_TYPE_EOD = false) by (destruct old; easy).
    pose proof (AddNumberToBsonValue_integers old v s n false Ho Hv Es En Nv) as Add.
    assert (Range : wide old v = false -> (INT64_MIN <=? s + n) && (s + n <=? INT64_MAX) = true).
    { unfold wide. intros W. apply orb_false_iff in W as [W1 W2]. pose proof (narrow_ok old s Ho Es W1).
      pose proof (narrow_ok v n Hv En W2). zbounds. lia. }
    unfold integer_sum in Add. destruct ((INT64_MIN <=? s + n) && (s + n <=? INT64_MAX)) eqn:R.
    + set (sum := if _ || _ then _ else _). assert (Add' : AddNumberToBsonValue old v false = Ok (Update true sum false)).
      { rewrite Add. unfold sum. destruct (wide old v); [reflexivity|]. cbn [orb]. now destruct ((INT32_MIN <=? s + n) && (s + n <=? INT32_MAX)). }
      eapply outcome_replaced; [reflexivity|unfold sum; now destruct (_ || _)|].
      intros ew. rewrite H0, T, Add'. cbn [res_bind returned negb updated overflow].
      now destruct (UpdateWriterWriteModifiedValue _ _).
    + assert (W : wide old v = true) by (destruct (wide old v); [reflexivity|now discriminate Range]). rewrite W in Add.
      intros ew. unfold WriteCurrentNode. cbn [writeFunc l basic_leaf new_leaf updateFunc].
      fold (fresh_writer ew). fold (leaf_state l). fold l. rewrite H0, T, Add. cbn [res_bind returned negb updated overflow].
      unfold UpdateWriterWriteModifiedValue. cbn [writer fresh_writer].
      destruct ew; cbn [PgbsonElementWriterWriteValue]; unfold PgbsonArrayWriterWriteValue, PgbsonWriterAppendValue, append;
        now rewrite append_copied.
Qed.

(** ** Arrays *)

(** An open array writer with these values. *)
Definition array_open (vs : list bson_value) (m : bool) : UpdateArrayWriter :=
  {| arrayWriter := array_written (map stored vs); isValid := true; array_modified := m |}.

Lemma get_array_writer ew : UpdateWriterGetArrayWriter (fresh_writer ew) = array_open [] false.
Proof. destruct ew; reflexivity. Qed.

Lemma write_array vs v : v <> VEod ->
  PgbsonArrayWriterWriteValue (array_written (map stored vs)) v = Ok (array_written (map stored (vs ++ [v]))).
Proof.
  intros Hv. rewrite write_written, map_app. destruct (append_type v Hv) as (v' & E & _).
  replace (map stored [v]) with [v'] by (cbn; unfold stored; now rewrite E). now rewrite E.
Qed.

Lemma write_original vs m v : v <> VEod ->
  UpdateArrayWriterWriteOriginalValue (array_open vs m) v = Ok (array_open (vs ++ [v]) m).
Proof. intros Hv. unfold UpdateArrayWriterWriteOriginalValue. cbn [arrayWriter array_open]. now rewrite write_array. Qed.

Lemma write_modified vs m v : v <> VEod ->
  UpdateArrayWriterWriteModifiedValue (array_open vs m) v = Ok (array_open (vs ++ [v]) true).
Proof. intros Hv. unfold UpdateArrayWriterWriteModifiedValue. cbn [arrayWriter array_open]. now rewrite write_array. Qed.

(** Well-formed elements. *)
Definition element_ok (v : bson_value) : Prop := value_ok v /\ v <> VEod.

Lemma write_originals_open d : Forall element_ok (map snd d) -> forall vs m,
  write_originals d (array_open vs m) = Ok (array_open (vs ++ map snd d) m).
Proof.
  induction d as [|[k v] d IH]; cbn [map snd write_originals]; intros F vs m; [now rewrite app_nil_r|].
  inversion_clear F as [|? ? [_ Hv] F']. rewrite write_original by exact Hv. cbn [res_bind]. rewrite IH by exact F'.
  now rewrite <- app_assoc.
Qed.

(** The operator writes an array.  When it is not modified, [WriteCurrentNode] writes the
    old value too, under the same key. *)
Definition array_outcome (st : CurrentDocumentState) (l : BsonUpdateLeafNode) (old : bson_value) (vs : list bson_value)
  (changed : bool) : Prop :=
  forall w, WriteCurrentNode l old (ObjectElementWriter w (leaf_field l)) st false false (leaf_field l) =
    Ok (ObjectElementWriter (w ++ (leaf_field l, VArray (array_of (map stored vs))) ::
          (if changed || is_missing old then [] else [(leaf_field l, stored old)])) (leaf_field l), changed).

Lemma array_outcome_changed st l old vs : array_outcome st l old vs true ->
  leaf_outcome st l old (Some (VArray (array_of (map stored vs))), true).
Proof. intros H w. apply H. Qed.

Lemma array_outcome_intro st l f old vs changed : writeFunc l = Some f ->
  (forall ew, f old (fresh_writer ew) (fieldData l) (updateNodeContext l) (leaf_state l) st =
     Ok (UpdateArrayWriterFinalize (fresh_writer ew) (array_open vs changed))) ->
  array_outcome st l old vs changed.
Proof.
  intros Hf H w. unfold WriteCurrentNode. rewrite Hf. fold (fresh_writer (ObjectElementWriter w (leaf_field l))).
  fold (leaf_state l). rewrite H. cbn [res_bind modified UpdateArrayWriterFinalize fresh_writer orb array_modified array_open writer
    PgbsonElementWriterEndArray arrayWriter PgbsonWriterEndArray innerBson array_written].
  destruct changed; cbn [negb andb orb]; [reflexivity|]. unfold is_missing.
  destruct (type_eqb (value_type old) BSON_TYPE_EOD) eqn:E; cbn [negb]; [reflexivity|].
  rewrite write_object by (intros ->; discriminate). cbn [res_bind]. unfold PgbsonWriterEndArray. now rewrite <- app_assoc.
Qed.

Definition equal_value (a b : bson_value) : bool := value_order None a b =? 0.

Lemma found_in_existsb l eq (f : bson_value -> bool) : (forall x, In x l -> eq x = Ok (f x)) -> found_in l eq = Ok (existsb f l).
Proof.
  induction l as [|x l IH]; cbn; intros H; [reflexivity|]. rewrite H by now left. cbn [res_bind].
  destruct (f x); [reflexivity|]. apply IH. intros; apply H; now right.
Qed.

(** [$addToSet]: a value is added unless an equal one is there. *)
Definition add_new (vs : list bson_value) (v : bson_value) : list bson_value :=
  if existsb (fun x => equal_value x v) vs then vs else vs ++ [v].

Lemma Forall_add_new P vs v : Forall P vs -> P v -> Forall P (add_new vs v).
Proof. intros F H. unfold add_new. destruct (existsb _ _); [exact F|]. apply Forall_app. now repeat constructor. Qed.

Lemma add_to_set_new vs m v : Forall element_ok vs -> element_ok v ->
  add_to_set v (vs, array_open vs m) =
  Ok (add_new vs v, array_open (add_new vs v) (m || negb (existsb (fun x => equal_value x v) vs))).
Proof.
  intros F [Hv Hn]. unfold add_to_set, add_new.
  rewrite (found_in_existsb vs _ (fun x => equal_value x v)).
  2: { intros x Hx. rewrite Forall_forall in F. destruct (F x Hx). now apply BsonValueEquals_order. }
  cbn [res_bind]. destruct (existsb _ vs); cbn [negb]; [now rewrite orb_false_r|].
  rewrite write_modified by exact Hn. now rewrite orb_true_r.
Qed.

Lemma length_add_new vs v : List.length (add_new vs v) =
  (List.length vs + if existsb (fun x => equal_value x v) vs then 0 else 1)%nat.
Proof. unfold add_new. destruct (existsb _ _); [lia|]. rewrite length_app. reflexivity. Qed.

Lemma length_add_all ws : forall vs, (List.length vs <= List.length (fold_left add_new ws vs))%nat.
Proof. induction ws as [|v ws IH]; intros vs; cbn; [lia|]. specialize (IH (add_new vs v)). rewrite length_add_new in IH. lia. Qed.

(** Whether a list has grown. *)
Definition grown (vs vs' : list bson_value) : bool := negb (Nat.eqb (List.length vs) (List.length vs')).

Lemma add_each_to_set_new d : Forall element_ok (map snd d) -> forall vs m, Forall element_ok vs ->
  add_each_to_set d (vs, array_open vs m) =
  let vs' := fold_left add_new (map snd d) vs in Ok (vs', array_open vs' (m || grown vs vs')).
Proof.
  induction d as [|[k v] d IH]; cbn [map snd add_each_to_set fold_left]; intros F vs m Fv.
  { unfold grown. now rewrite Nat.eqb_refl, orb_false_r. }
  inversion_clear F as [|? ? Hv F']. rewrite add_to_set_new by assumption. cbn [res_bind].
  rewrite IH by (try assumption; now apply Forall_add_new). cbv zeta. do 3 f_equal.
  pose proof (length_add_new vs v) as L. pose proof (length_add_all (map snd d) (add_new vs v)) as G.
  unfold grown. rewrite <- orb_assoc. f_equal. destruct (existsb _ vs); cbn [negb orb];
    [|symmetry]; rewrite ?negb_true_iff, ?Nat.eqb_neq; [|lia].
  do 2 f_equal. lia.
Qed.

Definition array_values (v : bson_value) : list bson_value := match v with VArray d => map snd d | _ => [] end.
Definition is_array_or_missing (v : bson_value) : bool := match v with VArray _ | VEod => true | _ => false end.

(** The values [$addToSet] is asked to add, unless its [$each] is not an array. *)
Definition to_add (v : bson_value) : option (list bson_value) :=
  match v with
  | VDocument ((k, e) :: _) =>
    if strcmp k (str "$each") =? 0 then match e with VArray d => Some (map snd d) | _ => None end else Some [v]
  | _ => Some [v]
  end.

(** C34: [$addToSet] appends, in their order, the values that are equal to no element of the
    array and to no value added before.  A missing field becomes an array.  When nothing
    is added the code writes the field twice: the array, and the old value again. *)
Theorem HandleUpdateDollarAddToSet_outcome (p : list bytes) (v old : bson_value) (ws : list bson_value)
  (st : CurrentDocumentState) :
  is_array_or_missing old = true -> Forall element_ok (array_values old) -> to_add v = Some ws -> Forall element_ok ws ->
  let vs := array_values old in
  let vs' := fold_left add_new ws vs in
  exists l, entry_leaf skip clock (str "$addToSet") p v = Some l /\ array_outcome st l old vs' (grown vs vs').
Proof.
  intros Ho Fo Ha Fw vs vs'. exists (basic_leaf HandleUpdateDollarAddToSet p v). split; [reflexivity|].
  eapply array_outcome_intro; [reflexivity|]. intros ew. cbn [fieldData basic_leaf new_leaf].
  assert (Final : forall (isEach : bool) toAdd, (if isEach then map snd (elements toAdd) else [toAdd]) = ws ->
    AddToSetWriteFinalArray (fresh_writer ew) old toAdd isEach =
    Ok (UpdateArrayWriterFinalize (fresh_writer ew) (array_open vs' (grown vs vs')))).
  { intros isEach toAdd E. unfold AddToSetWriteFinalArray. rewrite get_array_writer.
    replace (match old with VEod => [] | _ => elements old end) with (match old with VArray d => d | _ => [] end)
      by (destruct old; easy).
    assert (M : map snd (match old with VArray d => d | _ => [] end) = vs) by (destruct old; easy).
    rewrite write_originals_open by (rewrite M; exact Fo). cbn [res_bind app]. rewrite M.
    destruct isEach.
    - rewrite <- E in Fw. rewrite add_each_to_set_new by assumption. cbn [res_bind orb]. unfold vs'. now rewrite E.
    - subst ws. inversion_clear Fw as [|? ? Hv _]. rewrite add_to_set_new by assumption. cbn [res_bind orb].
      unfold vs'. cbn [fold_left]. do 2 f_equal. unfold grown. rewrite length_add_new.
      destruct (existsb _ vs); cbn [negb]; [rewrite Nat.add_0_r, Nat.eqb_refl; reflexivity|].
      f_equal. symmetry. apply negb_true_iff, Nat.eqb_neq. lia. }
  assert (Split : HandleUpdateDollarAddToSet old (fresh_writer ew) v NoContext (leaf_state (basic_leaf HandleUpdateDollarAddToSet p v)) st =
    res_bind (match v with VDocument [] => Ok (false, VEod) | VDocument d => ValidateAddToSetWithDollarEach d | _ => Ok (false, VEod) end)
      (fun '(isEach, toAdd) => AddToSetWriteFinalArray (fresh_writer ew) old (if isEach : bool then toAdd else v) isEach))
    by (destruct old; try discriminate Ho; reflexivity).
  cbn [updateNodeContext basic_leaf new_leaf updateFuncState]. rewrite Split.
  unfold to_add in Ha. destruct v as [| | |d| | | | | | | | | | | | | | | | | |]; try (injection Ha as Ha; apply (Final false); exact Ha).
  destruct d as [|[k e] d]; [injection Ha as Ha; apply (Final false); exact Ha|].
  unfold ValidateAddToSetWithDollarEach. cbn [TryGetBsonValueToPgbsonElement].
  destruct (strcmp k (str "$each") =? 0); [|injection Ha as Ha; apply (Final false); exact Ha].
  destruct e; try discriminate. injection Ha as Ha. apply (Final true). exact Ha.
Qed.

(** ** Removal of elements *)

(** The values that are equal to none of [ws]. *)
Definition differs (ws : list bson_value) (v : bson_value) : bool := negb (existsb (equal_value v) ws).

Lemma grown_filter (f : bson_value -> bool) v vs :
  grown (v :: vs) (filter f (v :: vs)) = negb (f v) || grown vs (filter f vs).
Proof.
  unfold grown. cbn [filter]. pose proof (filter_length_le f vs). destruct (f v); cbn [List.length negb orb]; [reflexivity|].
  apply negb_true_iff, Nat.eqb_neq. lia.
Qed.

Lemma pull_all_open e d : Forall element_ok (map snd e) -> Forall element_ok (map snd d) -> forall vs m,
  let kept := filter (differs (map snd e)) (map snd d) in
  pull_all_loop d e (array_open vs m) = Ok (array_open (vs ++ kept) (m || grown (map snd d) kept)).
Proof.
  intros Fe. induction d as [|[k v] d IH]; intros F vs m kept; subst kept.
  { cbn. now rewrite app_nil_r, orb_false_r. }
  inversion_clear F as [|? ? [Hv Hn] F']. cbn [map snd pull_all_loop]. rewrite grown_filter. cbn [filter snd] in *.
  rewrite (found_in_existsb _ _ (equal_value v)).
  2: { intros y Hy. rewrite Forall_forall in Fe. destruct (Fe y Hy). now apply BsonValueEquals_order. }
  assert (D : differs (map snd e) v = negb (existsb (equal_value v) (map snd e))) by reflexivity. rewrite D. cbn [res_bind].
  destruct (existsb (equal_value v) (map snd e)); cbn [negb orb].
  - change (UpdateArrayWriterSkipValue (array_open vs m)) with (array_open vs true). cbn [res_bind].
    rewrite IH by exact F'. cbv zeta. now rewrite orb_true_r.
  - rewrite write_original by exact Hn. cbn [res_bind]. rewrite IH by exact F'. cbv zeta. now rewrite <- app_assoc.
Qed.

(** [$pop]: the first element (-1) or the last one (1) is dropped. *)
Lemma pop_rest d isFirst : Forall element_ok (map snd d) -> forall x vs, element_ok x ->
  pop_loop d isFirst (Some x) (array_open vs true) =
  Ok (array_open (vs ++ (if isFirst then map snd d else removelast (x :: map snd d))) true).
Proof.
  induction d as [|[k v] d IH]; intros F x vs [_ Hx]; cbn [pop_loop map snd] in *.
  { destruct isFirst; now rewrite app_nil_r. }
  inversion_clear F as [|? ? Hv F'].
  rewrite write_modified by (destruct isFirst; [apply Hv|exact Hx]). cbn [res_bind]. rewrite IH by assumption.
  rewrite <- app_assoc. now destruct isFirst.
Qed.

Lemma pop_open d isFirst : Forall element_ok (map snd d) ->
  let vs := map snd d in
  let vs' := if isFirst : bool then tl vs else removelast vs in
  pop_loop d isFirst None (array_open [] false) = Ok (array_open vs' (grown vs vs')).
Proof.
  destruct d as [|[k v] d]; intros F vs vs'; subst vs vs'; [now destruct isFirst|]. cbn [pop_loop map snd] in *.
  inversion_clear F as [|? ? Hv F']. change (UpdateArrayWriterSkipValue (array_open [] false)) with (array_open [] true).
  cbn [res_bind]. rewrite pop_rest by assumption. cbn [app tl]. do 2 f_equal. unfold grown.
  symmetry. apply negb_true_iff, Nat.eqb_neq. destruct isFirst; [cbn; lia|].
  rewrite (app_removelast_last VEod (l := v :: map snd d)) at 1 by discriminate. rewrite length_app. cbn [List.length]. lia.
Qed.

(** [$pull]: the elements at the indices that match are dropped. *)
Fixpoint true_indices (ms : list bool) (i : Z) : list Z :=
  match ms with [] => [] | m :: ms => if m then i :: true_indices ms (i + 1) else true_indices ms (i + 1) end.

Lemma matching_indices_true evalState recurse d : forall (ms : list bool) i,
  Forall2 (fun e m => eval_element evalState recurse e = Ok m) d ms ->
  0 <= i -> i + Z.of_nat (List.length d) <= INT32_MAX ->
  matching_indices evalState recurse d i = Ok (true_indices ms i).
Proof.
  induction d as [|e d IH]; intros ms i F Hi Hl; inversion_clear F as [|? m ? ms' E F']; [reflexivity|].
  cbn [matching_indices true_indices List.length] in *. rewrite E. cbn [res_bind]. rewrite wrap_s32_id by (zbounds; lia).
  rewrite (IH ms' (i + 1) F') by lia. cbn [res_bind]. now destruct m.
Qed.

Fixpoint unmarked (vs : list bson_value) (ms : list bool) : list bson_value :=
  match vs, ms with
  | v :: vs, m :: ms => if m then unmarked vs ms else v :: unmarked vs ms
  | _, _ => []
  end.

Lemma true_indices_bound ms : forall i j, In j (true_indices ms i) -> i <= j.
Proof.
  induction ms as [|[] ms IH]; cbn; intros i j H; [easy|destruct H as [->|H]; [lia|]|]; apply IH in H; lia.
Qed.

(** The index that is matched next: the head of what is left of the indices. *)
Definition next_index (rest : list Z) (i cur : Z) : Prop := match rest with [] => cur < i | j :: _ => cur = j end.

Lemma pull_open mi d : Forall element_ok (map snd d) -> forall ms i k cur vs m,
  List.length ms = List.length d -> skipn k mi = true_indices ms i -> next_index (skipn k mi) i cur ->
  0 <= i -> i + Z.of_nat (List.length d) <= INT32_MAX -> Z.of_nat (List.length mi) <= INT32_MAX ->
  pull_loop d mi i (Z.of_nat k) cur (array_open vs m) =
  Ok (array_open (vs ++ unmarked (map snd d) ms) (m || existsb (fun b => b) ms)).
Proof.
  induction d as [|[key v] d IH]; intros F ms i k cur vs m Hl Hs Hc Hi Hb Hm; destruct ms as [|b ms]; try discriminate Hl.
  { cbn. now rewrite app_nil_r, orb_false_r. }
  inversion_clear F as [|? ? [_ Hv] F']. cbn [pull_loop map snd unmarked existsb true_indices List.length] in *.
  injection Hl as Hl. assert (Wi : wrap_s 32 (i + 1) = i + 1) by (apply wrap_s32_id; zbounds; lia). rewrite Wi.
  destruct b; cbn [orb].
  - rewrite Hs in Hc. cbn [next_index] in Hc. subst cur. rewrite Z.eqb_refl.
    assert (Hs' : skipn (S k) mi = true_indices ms (i + 1))
      by (replace (S k) with (1 + k)%nat by lia; rewrite <- skipn_skipn, Hs; reflexivity).
    assert (Lk : (k < List.length mi)%nat).
    { destruct (Nat.ltb_spec k (List.length mi)); [assumption|]. rewrite skipn_all2 in Hs by lia. discriminate. }
    rewrite wrap_s32_id by (zbounds; lia). replace (Z.of_nat k + 1) with (Z.of_nat (S k)) by lia.
    change (UpdateArrayWriterSkipValue (array_open vs m)) with (array_open vs true).
    rewrite (IH F' ms (i + 1) (S k)); try assumption; try lia.
    + now rewrite orb_true_r.
    + destruct (Z.ltb_spec (Z.of_nat (S k)) (Z.of_nat (List.length mi))) as [L|L].
      * unfold next_index. rewrite Nat2Z.id. destruct (skipn (S k) mi) as [|j r] eqn:E.
        { apply (f_equal (@List.length Z)) in E. rewrite length_skipn in E. cbn in E. lia. }
        rewrite <- (firstn_skipn (S k) mi), E. rewrite app_nth2; rewrite length_firstn, Nat.min_l by lia; [|lia].
        now rewrite Nat.sub_diag.
      * rewrite skipn_all2 by lia. cbn. lia.
  - assert (N : (i =? cur) = false).
    { apply Z.eqb_neq. intros <-. unfold next_index in Hc. destruct (skipn k mi) as [|j r] eqn:E; [lia|]. subst j.
      assert (B : i + 1 <= i) by (apply (true_indices_bound ms (i + 1)); rewrite <- Hs; now left). lia. }
    rewrite N, write_original by exact Hv. cbn [res_bind]. rewrite (IH F' ms (i + 1) k); try assumption; try lia.
    + now rewrite <- app_assoc.
    + unfold next_index in *. destruct (skipn k mi); [lia|exact Hc].
Qed.

Lemma true_indices_length ms : forall i, (List.length (true_indices ms i) <= List.length ms)%nat.
Proof. induction ms as [|[] ms IH]; intros i; cbn; [lia|..]; specialize (IH (i + 1)); lia. Qed.

Lemma true_indices_any ms : forall i, existsb (fun b => b) ms = match true_indices ms i with [] => false | _ => true end.
Proof. induction ms as [|[] ms IH]; intros i; cbn; [reflexivity..|]. apply IH. Qed.

Lemma pull_outcome p v d st evalState isValue ms :
  Forall element_ok (map snd d) -> Forall2 (fun e m => eval_element evalState (negb isValue) e = Ok m) d ms ->
  Z.of_nat (List.length d) <= INT32_MAX ->
  leaf_outcome st (new_leaf (join_path p) NodeType_LeafField v
      {| updateFunc := Some HandleUpdateDollarPull; updateFuncState := BsonUpdateDollarPullState evalState isValue |} (last p []))
    (VArray d) (if existsb (fun b => b) ms then (Some (VArray (array_of (map stored (unmarked (map snd d) ms)))), true)
                else unchanged (VArray d)).
Proof.
  intros F Hm Hl. set (l := new_leaf _ _ _ _ _).
  assert (M : EvalExpressionAgainstArrayGetAllMatchingIndices evalState (VArray d) (negb isValue) = Ok (true_indices ms 0))
    by (cbn [EvalExpressionAgainstArrayGetAllMatchingIndices]; apply matching_indices_true; [exact Hm|lia..]).
  pose proof (Forall2_length Hm) as L. pose proof (true_indices_length ms 0) as Lt.
  rewrite (true_indices_any ms 0). destruct (true_indices ms 0) as [|first rest] eqn:T.
  - eapply outcome_unchanged; [reflexivity|]. intros ew.
    cbn [HandleUpdateDollarPull updateNodeContext l new_leaf updateFuncState]. unfold HandleUpdateDollarPull.
    rewrite M. reflexivity.
  - apply array_outcome_changed. eapply array_outcome_intro; [reflexivity|]. intros ew.
    cbn [updateNodeContext l new_leaf updateFuncState]. unfold HandleUpdateDollarPull. rewrite M. cbn [res_bind].
    rewrite get_array_writer. change 0 with (Z.of_nat 0) at 2. rewrite (pull_open (first :: rest) d F ms 0 0 first [] false).
    + cbn [res_bind app orb]. now rewrite (true_indices_any ms 0), T.
    + lia.
    + cbn [skipn]. now rewrite T.
    + reflexivity.
    + lia.
    + lia.
    + cbn [List.length] in *. lia.
Qed.

(** C35: [$pullAll] drops the elements that are equal to one of its values, [$pop] the first or
    the last element, and [$pull] the elements its expression accepts; the others keep
    their order.  A [$pull] that matches nothing leaves the field as it is; the other two
    then write it twice. *)
Theorem removal_operators_outcome (p : list bytes) (v : bson_value) (d : fields) (st : CurrentDocumentState) :
  Forall element_ok (map snd d) ->
  let vs := map snd d in
  (forall e, v = VArray e -> Forall element_ok (map snd e) ->
    let vs' := filter (differs (map snd e)) vs in
    exists l, entry_leaf skip clock (str "$pullAll") p v = Some l /\ array_outcome st l (VArray d) vs' (grown vs vs')) /\
  (v = VInt32 1 -> exists l, entry_leaf skip clock (str "$pop") p v = Some l /\
    array_outcome st l (VArray d) (removelast vs) (grown vs (removelast vs))) /\
  (v = VInt32 (-1) -> exists l, entry_leaf skip clock (str "$pop") p v = Some l /\
    array_outcome st l (VArray d) (tl vs) (grown vs (tl vs))) /\
  (forall evalState isValue ms, HandlePullWriterGetState v = Ok (BsonUpdateDollarPullState evalState isValue) ->
    Forall2 (fun e m => eval_element evalState (negb isValue) e = Ok m) d ms -> Z.of_nat (List.length d) <= INT32_MAX ->
    exists l, entry_leaf skip clock (str "$pull") p v = Some l /\
      leaf_outcome st l (VArray d) (if existsb (fun b => b) ms then (Some (VArray (array_of (map stored (unmarked vs ms)))), true)
                                    else unchanged (VArray d))).
Proof.
  intros F vs. split; [|split; [|split]].
  - intros e -> Fe vs'. exists (basic_leaf HandleUpdateDollarPullAll p (VArray e)). split; [reflexivity|].
    eapply array_outcome_intro; [reflexivity|]. intros ew. cbn [HandleUpdateDollarPullAll fieldData basic_leaf new_leaf].
    unfold HandleUpdateDollarPullAll. rewrite get_array_writer, pull_all_open by assumption. reflexivity.
  - intros ->. exists (basic_leaf HandleUpdateDollarPop p (VInt32 1)). split; [reflexivity|].
    eapply array_outcome_intro; [reflexivity|]. intros ew.
    change (HandleUpdateDollarPop (VArray d) (fresh_writer ew) _ _ _ _) with
      (res_bind (pop_loop d false None (UpdateWriterGetArrayWriter (fresh_writer ew)))
        (fun aw => Ok (UpdateArrayWriterFinalize (fresh_writer ew) aw))).
    rewrite get_array_writer, pop_open by assumption. reflexivity.
  - intros ->. exists (basic_leaf HandleUpdateDollarPop p (VInt32 (-1))). split; [reflexivity|].
    eapply array_outcome_intro; [reflexivity|]. intros ew.
    change (HandleUpdateDollarPop (VArray d) (fresh_writer ew) _ _ _ _) with
      (res_bind (pop_loop d true None (UpdateWriterGetArrayWriter (fresh_writer ew)))
        (fun aw => Ok (UpdateArrayWriterFinalize (fresh_writer ew) aw))).
    rewrite get_array_writer, pop_open by assumption. reflexivity.
  - intros evalState isValue ms Hs Hm Hl. eexists. split; [|apply (pull_outcome p v d st evalState isValue ms F Hm Hl)].
    unfold entry_leaf.
    change (operator_named skip clock (str "$pull")) with
      (Some {| operatorName := str "$pull"; treeFunc := UseHandleBasicUpdateTree; updateWriterFunc := HandleUpdateDollarPull;
               updateWriterGetState := Some HandlePullWriterGetState |}).
    unfold operator_leaf. cbn [treeFunc updateWriterGetState updateWriterFunc]. now rewrite Hs.
Qed.
End Outcomes.
