(* ===== verification/UpdatePush.v ===== *)
(** * [$push] with its modifiers

    The array [$push] makes of an array and the values of [$each]: the values are
    inserted at [$position], the whole is sorted by [$sort], where equal elements keep
    their order, and [$slice] keeps the first or the last elements. *)

From Stdlib Require Import ZArith Lia Bool String List SpecFloat Sorted Permutation.
From Stdlib Require Import Strings.Byte.
From S2P Require Import Prelude SoftFloat BsonTypes StringView Decimal128 BsonCompare BsonOrder RefBid BsonRefine.
From S2P Require Import BsonArith Traversal PgbsonElement DollarMatch DollarOperators BsonWriter SortUtils ExprEval.
From S2P Require Import UpdateOperators UpdateTree UpdateWorkflow UpdateRef UpdatePaths UpdateBuild UpdateApply UpdateOutcomes.
Import ListNotations.
Local Open Scope Z_scope.

Section Push.
Context {BL : BidLib} {BLaws : BidLaws BL} {LB : LibBson} {LBLaws : LibBsonLaws LB} {UV : UnionView}
  {LD : LibBsonDoc} {LDL : LibBsonDocLaws LD} {EE : ExprEngine} {PS : PgSort} {PSL : PgSortLaws PS}
  {PQ : PositionalQuery} {LN : LibBsonNew}.
Variables (skip : bool) (clock : CurrentDocumentState -> UpdateSetValueState -> Z * Z).

(** ** The order of [$sort] *)

Definition directed (dir : SortDirection) (z : Z) : Z :=
  match dir with SortDirection_Ascending => z | SortDirection_Descending => - z end.

(** The keys one after the other, each in its direction. *)
Fixpoint keys_order (specs : list SortSpecData) (a b : bson_value) : Z :=
  match specs with
  | [] => 0
  | s :: specs =>
    lexz (directed (direction s) (value_order None (sort_field a (key s)) (sort_field b (key s)))) (keys_order specs a b)
  end.

Definition sort_order (ctx : SortContext) (a b : bson_value) : Z :=
  match sortType ctx with
  | SortType_WholeElementSort => directed (sortDirection ctx) (value_order None a b)
  | _ => keys_order (sortSpecList ctx) a b
  end.

(** Ties are broken by the position in the array. *)
Definition stable_order (ctx : SortContext) (a b : ElementWithIndex) : Z :=
  lexz (sort_order ctx (bsonValue a) (bsonValue b)) (element_index a - element_index b).

Definition sortable (ctx : SortContext) (v : bson_value) : Prop :=
  element_ok v /\ Forall (fun s => value_ok (sort_field v (key s))) (sortSpecList ctx).

Lemma directed_same_sign dir x y : same_sign x y -> same_sign (directed dir x) (directed dir y).
Proof. destruct dir; cbn; unfold same_sign; lia. Qed.

Lemma directed_anti2 dir x y : anti2 x y -> anti2 (directed dir x) (directed dir y).
Proof. destruct dir; cbn; unfold anti2; lia. Qed.

Lemma directed_trans3 dir x y z : trans3 x y z -> trans3 (directed dir x) (directed dir y) (directed dir z).
Proof. destruct dir; cbn; unfold trans3; lia. Qed.

Lemma keys_anti2 specs a b : anti2 (keys_order specs a b) (keys_order specs b a).
Proof.
  induction specs as [|s specs IH]; cbn; [reflexivity|]. apply anti2_lexz; [|auto].
  apply directed_anti2, anti2_value_order, no_collation.
Qed.

Lemma keys_trans3 specs a b c : trans3 (keys_order specs a b) (keys_order specs b c) (keys_order specs a c).
Proof.
  induction specs as [|s specs IH]; cbn; [apply trans3_zero|]. apply trans3_lexz; [|auto].
  apply directed_trans3, trans3_value_order, no_collation.
Qed.

Lemma stable_anti2 ctx a b : anti2 (stable_order ctx a b) (stable_order ctx b a).
Proof.
  apply anti2_lexz; [|intros; apply anti2_sub]. unfold sort_order. destruct (sortType ctx); try apply keys_anti2.
  apply directed_anti2, anti2_value_order, no_collation.
Qed.

Lemma stable_trans3 ctx a b c : trans3 (stable_order ctx a b) (stable_order ctx b c) (stable_order ctx a c).
Proof.
  apply trans3_lexz; [|intros; apply trans3_sub]. unfold sort_order. destruct (sortType ctx); try apply keys_trans3.
  apply directed_trans3, trans3_value_order, no_collation.
Qed.

Lemma compare_sign a b : value_ok a -> value_ok b ->
  exists c valid, CompareBsonValueAndType a b = Ok (c, valid) /\ same_sign c (value_order None a b).
Proof. intros Ha Hb. destruct (compare_answer a b Ha Hb) as (c & E & S). eauto. Qed.

(** The first difference, in the direction of its key. *)
Lemma compare_sort_fields_order a b : forall specs dir,
  Forall (fun s => value_ok (sort_field a (key s)) /\ value_ok (sort_field b (key s))) specs ->
  exists r d, compare_sort_fields a b specs 0 dir = Ok (r, d) /\ same_sign (directed d r) (keys_order specs a b).
Proof.
  induction specs as [|s specs IH]; intros dir F; cbn [compare_sort_fields keys_order].
  { exists 0, dir. split; [reflexivity|]. now destruct dir. }
  inversion_clear F as [|? ? [Ha Hb] F']. destruct (compare_sign _ _ Ha Hb) as (c & valid & -> & S). cbn [res_bind].
  destruct (Z.eqb_spec c 0) as [->|N]; cbn [negb].
  - destruct (IH (direction s) F') as (r & d & E & S'). exists r, d. split; [exact E|].
    unfold lexz. replace (directed _ _ =? 0) with true; [exact S'|]. symmetry. apply Z.eqb_eq.
    unfold same_sign in S. destruct (direction s); cbn; lia.
  - exists c, (direction s). split; [reflexivity|]. unfold lexz. apply (directed_same_sign (direction s)) in S.
    destruct (Z.eqb_spec (directed (direction s) (value_order None (sort_field a (key s)) (sort_field b (key s)))) 0) as [E|_]; [|exact S].
    exfalso. unfold same_sign in S. rewrite E in S. destruct (direction s); cbn in S; lia.
Qed.

Lemma CompareBsonValuesForSort_order ctx a b : sortable ctx (bsonValue a) -> sortable ctx (bsonValue b) ->
  0 <= element_index a <= INT32_MAX -> 0 <= element_index b <= INT32_MAX ->
  exists c, CompareBsonValuesForSort ctx a b = Ok c /\ same_sign c (stable_order ctx a b).
Proof.
  intros [[Ha _] Fa] [[Hb _] Fb] Ia Ib.
  assert (K : exists r d, (match sortType ctx with
      | SortType_WholeElementSort => res_bind (CompareBsonValueAndType (bsonValue a) (bsonValue b))
          (fun '(result, _) => Ok (result, sortDirection ctx))
      | _ => compare_sort_fields (bsonValue a) (bsonValue b) (sortSpecList ctx) 0 SortDirection_Ascending
      end) = Ok (r, d) /\ same_sign (directed d r) (sort_order ctx (bsonValue a) (bsonValue b))).
  { unfold sort_order. assert (Keys := fun dir => compare_sort_fields_order (bsonValue a) (bsonValue b) (sortSpecList ctx) dir).
    destruct (sortType ctx); try (apply Keys; rewrite Forall_forall in *; intros s Hs; split; [now apply Fa|now apply Fb]).
    destruct (compare_sign _ _ Ha Hb) as (c & valid & -> & S). exists c, (sortDirection ctx).
    split; [reflexivity|now apply directed_same_sign]. }
  destruct K as (r & d & E & S). unfold CompareBsonValuesForSort. rewrite E. cbn [res_bind]. unfold stable_order, lexz.
  destruct (Z.eqb_spec r 0) as [->|N].
  - replace (sort_order ctx (bsonValue a) (bsonValue b) =? 0) with true
      by (symmetry; apply Z.eqb_eq; unfold same_sign in S; destruct d; cbn in S; lia).
    eexists. split; [reflexivity|]. rewrite wrap_s32_id by (zbounds; lia). reflexivity.
  - replace (sort_order ctx (bsonValue a) (bsonValue b) =? 0) with false
      by (symmetry; apply Z.eqb_neq; unfold same_sign in S; destruct d; cbn in S; lia).
    eexists. split; [reflexivity|]. now destruct d.
Qed.

(** ** The arranged elements *)

Lemma with_indexes_spec vs : forall i, 0 <= i -> i + Z.of_nat (List.length vs) <= INT32_MAX ->
  map bsonValue (with_indexes vs i) = vs /\
  Forall (fun e => i <= element_index e <= INT32_MAX) (with_indexes vs i).
Proof.
  induction vs as [|v vs IH]; intros i Hi Hl; cbn [with_indexes map List.length] in *; [split; constructor|].
  assert (W : wrap_u 32 (i + 1) = i + 1) by (unfold wrap_u; rewrite Z.mod_small; zbounds; lia). rewrite W.
  destruct (IH (i + 1)) as [M F]; [lia|lia|]. split; [cbn; now rewrite M|]. constructor; [cbn; zbounds; lia|].
  apply (Forall_impl _) with (2 := F). cbn. lia.
Qed.

(** The values of [l] sorted, equal ones in their order; unsorted without [$sort]. *)
Definition arranged (ctx : SortContext) (l l' : list bson_value) : Prop :=
  match sortType ctx with
  | SortType_No_Sort => l' = l
  | _ => exists sorted, Permutation (with_indexes l 0) sorted /\
      StronglySorted (fun a b => stable_order ctx a b <= 0) sorted /\ l' = map bsonValue sorted
  end.

Definition sorted_elements (ctx : SortContext) (es : list ElementWithIndex) : res (list ElementWithIndex) :=
  match sortType ctx with
  | SortType_No_Sort => Ok es
  | _ => qsort_arg (CompareBsonValuesForSort ctx) es
  end.

Lemma sorted_elements_arranged ctx l : Forall (sortable ctx) l -> Z.of_nat (List.length l) <= INT32_MAX ->
  exists es, sorted_elements ctx (with_indexes l 0) = Ok es /\ arranged ctx l (map bsonValue es) /\
    Permutation l (map bsonValue es).
Proof.
  intros F Hl. destruct (with_indexes_spec l 0) as [M I]; [lia|lia|].
  assert (Sorting : exists es, qsort_arg (CompareBsonValuesForSort ctx) (with_indexes l 0) = Ok es /\
    Permutation (with_indexes l 0) es /\ StronglySorted (fun a b => stable_order ctx a b <= 0) es).
  { set (cmp := CompareBsonValuesForSort ctx). set (f a b := match cmp a b with Ok c => c | Err _ => 0 end).
    assert (C : forall a b, In a (with_indexes l 0) -> In b (with_indexes l 0) ->
      cmp a b = Ok (f a b) /\ same_sign (f a b) (stable_order ctx a b)).
    { intros a b Ha Hb. rewrite Forall_forall in F, I. unfold f.
      assert (Sv : forall x, In x (with_indexes l 0) -> sortable ctx (bsonValue x))
        by (intros x Hx; apply F; rewrite <- M; now apply in_map).
      destruct (CompareBsonValuesForSort_order ctx a b) as (c & E & S); auto. unfold cmp. now rewrite E. }
    destruct (qsort_arg_sorts cmp f (with_indexes l 0)) as (es & E & P & S).
    - split; [|split].
      + intros a b Ha Hb. now apply C.
      + intros a b Ha Hb. eapply anti2_same_sign; [now apply C|now apply C|apply stable_anti2].
      + intros a b c Ha Hb Hc. eapply trans3_same_sign; [now apply C..|apply stable_trans3].
    - exists es. split; [exact E|split; [exact P|]].
      assert (Sub : Forall (fun x => In x (with_indexes l 0)) es)
        by (apply Forall_forall; intros x Hx; apply (Permutation_in _ (Permutation_sym P) Hx)).
      clear -S Sub C. induction S as [|a es S IH H]; constructor; inversion_clear Sub; [now apply IH|].
      rewrite Forall_forall in *. intros b Hb. specialize (H b Hb). destruct (C a b) as [_ Sg]; auto.
      unfold same_sign in Sg. lia. }
  unfold sorted_elements, arranged. destruct Sorting as (es & E & P & S).
  assert (Pe : Permutation l (map bsonValue es)) by (rewrite <- M at 1; now apply Permutation_map).
  destruct (sortType ctx); [exists (with_indexes l 0); rewrite M; auto|..];
    exists es; (split; [exact E|]); (split; [now exists es|exact Pe]).
Qed.

(** ** Position and slice *)

Definition insert_at (position : Z) (vs ws : list bson_value) : list bson_value :=
  let k := Z.to_nat (if position <? 0 then Z.of_nat (List.length vs) + position else position) in
  firstn k vs ++ ws ++ skipn k vs.

Definition slice_of (slice : Z) (l : list bson_value) : list bson_value :=
  if slice <? 0 then skipn (Z.to_nat (Z.of_nat (List.length l) + slice)) l else firstn (Z.to_nat slice) l.

Lemma until_position_split position vs : forall i, 0 <= i -> i + Z.of_nat (List.length vs) <= INT32_MAX ->
  until_position i position vs = (firstn (Z.to_nat (position - i)) vs, skipn (Z.to_nat (position - i)) vs).
Proof.
  induction vs as [|v vs IH]; intros i Hi Hl; cbn [until_position List.length] in *; [now rewrite firstn_nil, skipn_nil|].
  destruct (Z.ltb_spec i position) as [L|L].
  - assert (W : wrap_u 32 (i + 1) = i + 1) by (unfold wrap_u; rewrite Z.mod_small; zbounds; lia). rewrite W, IH by lia.
    replace (Z.to_nat (position - i)) with (S (Z.to_nat (position - (i + 1)))) by lia. reflexivity.
  - replace (Z.to_nat (position - i)) with O by lia. reflexivity.
Qed.

Lemma write_slice_open es : Forall (fun e => element_ok (bsonValue e)) es -> forall count start vs m, 0 <= start ->
  start + Z.of_nat count <= Z.of_nat (List.length es) ->
  write_slice es start count (array_open vs m) =
  Ok (array_open (vs ++ firstn count (skipn (Z.to_nat start) (map bsonValue es))) (m || negb (Nat.eqb count 0))).
Proof.
  intros F. induction count as [|count IH]; intros start vs m Hs Hc; cbn [write_slice].
  { cbn. now rewrite app_nil_r, orb_false_r. }
  destruct (Z.ltb_spec start 0); [lia|]. destruct (nth_error es (Z.to_nat start)) as [e|] eqn:E.
  2: { apply nth_error_None in E. lia. }
  rewrite Forall_forall in F. destruct (F e (nth_error_In _ _ E)) as [_ He].
  rewrite write_modified by exact He. cbn [res_bind]. rewrite IH by lia. rewrite orb_true_r.
  replace (Z.to_nat (start + 1)) with (S (Z.to_nat start)) by lia. do 2 f_equal. rewrite <- app_assoc. f_equal.
  assert (N : nth_error (map bsonValue es) (Z.to_nat start) = Some (bsonValue e)) by (now rewrite nth_error_map, E).
  apply nth_error_split in N as (l1 & l2 & -> & L). rewrite <- L.
  rewrite (skipn_app (S (List.length l1))), skipn_all2 by lia. rewrite skipn_app, skipn_all, Nat.sub_diag.
  replace (S (List.length l1) - List.length l1)%nat with 1%nat by lia. reflexivity.
Qed.

(** ** The operator *)

Lemma push_state_each v ps : ValidateUpdateSpecAndSetPushUpdateState v = Ok ps -> modifiersExist ps = true ->
  exists e, dollarEachArray ps = VArray e /\ dollarEachElementCount ps = Z.of_nat (List.length e).
Proof.
  destruct v; cbn [ValidateUpdateSpecAndSetPushUpdateState]; try (intros [= <-]; discriminate).
  destruct (push_clause_loop _ _) as [c|]; [|discriminate]. cbn [res_bind].
  destruct (eachBsonValue c) eqn:E; try discriminate; [intros [= <-]; discriminate|].
  destruct (integral_modifier (sliceBsonValue c)); [|discriminate]. cbn [res_bind].
  destruct (integral_modifier (positionBsonValue c)); [|discriminate]. cbn [res_bind].
  destruct (ValidateSortSpecAndSetSortContext (sortBsonValue c)); [|discriminate].
  intros [= <-] _. now exists d0.
Qed.

(** The bounds within which the 32-bit and 64-bit arithmetic of the code is exact. *)
Record push_bounds (vs ws : list bson_value) (ps : DollarPushUpdateState) : Prop := {
  push_length : Z.of_nat (List.length vs + List.length ws) <= INT32_MAX;
  push_position : INT64_MIN < position ps <= UINT32_MAX;
  push_slice : INT64_MIN < slice ps <= INT64_MAX
}.

Lemma ApplyDollarPushModifiers_spec d e ps :
  let vs := map snd d in let ws := map snd e in
  let n := Z.of_nat (List.length vs + List.length ws) in
  push_bounds vs ws ps -> dollarEachArray ps = VArray e -> dollarEachElementCount ps = Z.of_nat (List.length e) ->
  ApplyDollarPushModifiers (VArray d) ps n =
  res_bind (sorted_elements (sortContext ps) (with_indexes (insert_at (position ps) vs ws) 0)) (fun es =>
    Ok (es, if slice ps <? 0 then Z.max 0 (n + slice ps) else 0, if slice ps <? 0 then n else Z.min (slice ps) n)).
Proof.
  intros vs ws n [Bl Bp Bs] Ee Ec. unfold ApplyDollarPushModifiers. rewrite Ee, Ec. fold vs ws.
  assert (Lw : List.length e = List.length ws) by (unfold ws; now rewrite length_map).
  assert (U : UINT32_MAX = 4294967295) by reflexivity.
  rewrite (wrap_s64_id (n - Z.of_nat (List.length e))) by (zbounds; lia).
  assert (Hn : n - Z.of_nat (List.length e) = Z.of_nat (List.length vs)) by lia. rewrite Hn.
  set (k := if position ps <? 0 then Z.of_nat (List.length vs) + position ps else position ps).
  assert (K : (if position ps <? 0 then if wrap_s 64 (- position ps) >=? Z.of_nat (List.length vs) then 0
                 else wrap_s 64 (Z.of_nat (List.length vs) - wrap_s 64 (- position ps)) else position ps) = Z.max 0 k).
  { unfold k. destruct (Z.ltb_spec (position ps) 0) as [L|L]; [|lia]. rewrite (wrap_s64_id (- position ps)) by (zbounds; lia).
    destruct (Z.geb_spec (- position ps) (Z.of_nat (List.length vs))); [lia|]. rewrite wrap_s64_id by (zbounds; lia). lia. }
  cbv zeta. rewrite K. replace (wrap_u 32 (Z.max 0 k)) with (Z.max 0 k)
    by (unfold wrap_u; rewrite Z.mod_small; [reflexivity|]; unfold k; destruct (position ps <? 0) eqn:P; zbounds; lia).
  rewrite until_position_split by (zbounds; lia). rewrite Z.sub_0_r.
  replace (Z.to_nat (Z.max 0 k)) with (Z.to_nat k) by lia. fold (insert_at (position ps) vs ws).
  change (firstn (Z.to_nat k) vs ++ ws ++ skipn (Z.to_nat k) vs) with (insert_at (position ps) vs ws).
  unfold sorted_elements.
  destruct (match sortType (sortContext ps) with SortType_No_Sort => _ | _ => _ end) as [es|]; [|reflexivity]. cbn [res_bind].
  destruct (Z.ltb_spec (slice ps) 0) as [L|L].
  - rewrite (wrap_s64_id (- slice ps)) by (zbounds; lia). do 3 f_equal.
    destruct (Z.gtb_spec (- slice ps) n); [lia|]. rewrite wrap_s64_id by (zbounds; lia). lia.
  - do 2 f_equal. destruct (Z.gtb_spec (slice ps) n); lia.
Qed.

Lemma insert_at_perm pos vs ws : Permutation (vs ++ ws) (insert_at pos vs ws).
Proof.
  unfold insert_at. set (k := Z.to_nat _). rewrite <- (firstn_skipn k vs) at 1. rewrite <- app_assoc.
  apply Permutation_app_head, Permutation_app_comm.
Qed.

Lemma slice_written s l : let n := Z.of_nat (List.length l) in
  let start := if s <? 0 then Z.max 0 (n + s) else 0 in
  let stop := if s <? 0 then n else Z.min s n in
  let count := Z.to_nat (stop - start) in
  0 <= start /\ start + Z.of_nat count <= n /\
  firstn count (skipn (Z.to_nat start) l) = slice_of s l /\ negb (Nat.eqb count 0) = grown [] (slice_of s l).
Proof.
  intros n start stop count. assert (E : firstn count (skipn (Z.to_nat start) l) = slice_of s l).
  { unfold slice_of, count, stop, start. destruct (Z.ltb_spec s 0).
    - replace (Z.to_nat (Z.max 0 (n + s))) with (Z.to_nat (n + s)) by lia. apply firstn_all2. rewrite length_skipn. lia.
    - rewrite Z.sub_0_r. cbn [skipn Z.to_nat]. destruct (Z.min_spec s n) as [[_ ->]|[L ->]]; [reflexivity|].
      rewrite !firstn_all2 by lia. reflexivity. }
  assert (B : 0 <= start /\ start + Z.of_nat count <= n) by (unfold count, stop, start; destruct (Z.ltb_spec s 0); lia).
  repeat split; try apply B; [exact E|]. rewrite <- E. unfold grown. cbn [List.length].
  rewrite length_firstn, length_skipn, Nat.min_l by (destruct B; lia). now rewrite Nat.eqb_sym.
Qed.

(** C33: [$push] of an accepted argument on an array of well-formed elements or a
    missing field. Without modifiers it appends its value. With [$each] it inserts the
    values of [$each] at [$position], counted from the end when negative, sorts by [$sort]
    so that equal elements keep their order, and keeps the first elements, or for a negative
    [$slice] the last ones, as long as [$position] is above INT64_MIN and at most
    UINT32_MAX, [$slice] is above INT64_MIN, there are at most INT32_MAX elements and the
    sort keys are well-formed. The field is modified whenever an element is left; when none
    is left (as for [$slice] 0) it counts as unmodified, and the code writes the empty array
    and then the old value, if there is one. *)
Theorem HandleUpdateDollarPush_outcome (p : list bytes) (v old : bson_value) (st : CurrentDocumentState)
  (ps : DollarPushUpdateState) :
  let vs := array_values old in
  let ws := array_values (dollarEachArray ps) in
  is_array_or_missing old = true -> ValidateUpdateSpecAndSetPushUpdateState v = Ok ps ->
  Forall element_ok vs -> element_ok v ->
  exists l, entry_leaf skip clock (str "$push") p v = Some l /\
  if modifiersExist ps then
    push_bounds vs ws ps -> Forall (sortable (sortContext ps)) (vs ++ ws) ->
    exists vs', arranged (sortContext ps) (insert_at (position ps) vs ws) vs' /\
      array_outcome st l old (slice_of (slice ps) vs') (grown [] (slice_of (slice ps) vs'))
  else array_outcome st l old (vs ++ [v]) true.
Proof.
  intros vs ws Ho Hps Fv Hv. exists (basic_leaf HandleUpdateDollarPush p v). split; [reflexivity|].
  set (l := basic_leaf HandleUpdateDollarPush p v).
  assert (Split : forall ew, exists d, map snd d = vs /\
    HandleUpdateDollarPush old (fresh_writer ew) v NoContext (leaf_state l) st =
    res_bind (if negb (modifiersExist ps) then
         res_bind (write_originals d (array_open [] false)) (fun aw => UpdateArrayWriterWriteModifiedValue aw v)
       else res_bind (ApplyDollarPushModifiers (VArray d) ps (wrap_u 32 (Z.of_nat (List.length d) + dollarEachElementCount ps)))
         (fun '(elementsArr, sliceStart, sliceEnd) =>
            write_slice elementsArr sliceStart (Z.to_nat (sliceEnd - sliceStart)) (array_open [] false)))
      (fun aw => Ok (UpdateArrayWriterFinalize (fresh_writer ew) aw))).
  { intros ew. unfold HandleUpdateDollarPush. rewrite Hps, get_array_writer. cbn [res_bind].
    destruct old; try discriminate Ho; eexists; (split; [|reflexivity]); reflexivity. }
  destruct (modifiersExist ps) eqn:Me; cbn [negb] in Split.
  - intros B Fs. destruct (push_state_each v ps Hps Me) as (e & Ee & Ec). unfold ws in *. rewrite Ee in *. cbn [array_values] in *.
    set (ins := insert_at (position ps) vs (map snd e)).
    assert (P : Permutation (vs ++ map snd e) ins) by apply insert_at_perm.
    assert (Fi : Forall (sortable (sortContext ps)) ins) by (eapply Permutation_Forall; eauto).
    assert (Li : List.length ins = (List.length vs + List.length (map snd e))%nat)
      by (rewrite <- (Permutation_length P); apply length_app).
    destruct (sorted_elements_arranged (sortContext ps) ins Fi) as (es & E & A & Pe); [rewrite Li; apply B|].
    exists (map bsonValue es). split; [exact A|]. eapply array_outcome_intro; [reflexivity|]. intros ew.
    destruct (Split ew) as (d & M & Ed). cbn [fieldData updateNodeContext l basic_leaf new_leaf updateFuncState]. fold l.
    rewrite Ed, Ec. assert (Ld : List.length d = List.length vs) by (rewrite <- M; now rewrite length_map).
    pose proof (push_length _ _ _ B) as Bl. rewrite length_map in Bl, Li.
    assert (W : wrap_u 32 (Z.of_nat (List.length d) + Z.of_nat (List.length e)) = Z.of_nat (List.length vs + List.length e))
      by (unfold wrap_u; rewrite Z.mod_small; zbounds; lia).
    rewrite W. pose proof (ApplyDollarPushModifiers_spec d e ps) as Ap. cbv zeta in Ap. rewrite M, length_map in Ap.
    rewrite Ap by assumption. fold ins. rewrite E. cbn [res_bind].
    assert (Fe : Forall element_ok (map bsonValue es))
      by (apply (Permutation_Forall Pe), (Forall_impl _) with (2 := Fi); now intros x [H _]).
    destruct (slice_written (slice ps) (map bsonValue es)) as (S1 & S2 & S3 & S4).
    assert (Le : List.length (map bsonValue es) = (List.length vs + List.length e)%nat)
      by (rewrite <- (Permutation_length Pe); exact Li).
    rewrite Le in S1, S2, S3, S4. rewrite length_map in Le.
    rewrite write_slice_open; [|rewrite Forall_map in Fe; exact Fe|exact S1|rewrite Le; exact S2]. cbn [res_bind app orb]. now rewrite S3, S4.
  - eapply array_outcome_intro; [reflexivity|]. intros ew. destruct (Split ew) as (d & M & E). cbn [fieldData updateNodeContext l basic_leaf new_leaf updateFuncState].
    fold l. rewrite E. rewrite write_originals_open by (rewrite M; exact Fv). cbn [res_bind app]. rewrite M.
    rewrite write_modified by apply Hv. reflexivity.
Qed.
End Push.
