(* ===== verification/UpdateExamples.v ===== *)
(** * Updates of concrete documents

    The theorems on updates at concrete inputs, with the reference instances, and what
    the code does with some inputs against its intention. *)

From Stdlib Require Import ZArith Lia Bool String List SpecFloat Sorted Permutation.
From Stdlib Require Import Strings.Byte.
From S2P Require Import Prelude SoftFloat BsonTypes StringView Decimal128 BsonCompare BsonOrder RefBid BsonRefine.
From S2P Require Import BsonArith Traversal PgbsonElement DollarMatch DollarOperators BsonWriter SortUtils ExprEval.
From S2P Require Import UpdateOperators UpdateTree UpdateWorkflow UpdateRef UpdatePaths UpdateBuild UpdateApply UpdateOutcomes UpdatePush.
Import ListNotations.
Local Open Scope Z_scope.

(** Distinct field names and values. *)
Ltac by_fields :=
  split;
  [ repeat (constructor; [cbn; intros H; decompose [or] H; (discriminate || assumption)|]); constructor
  | repeat (constructor; [split; [now apply no_nulb_ok|discriminate]|]); constructor ].

Section Examples.
#[local] Existing Instance RefBidLib.
#[local] Existing Instance RefBidLaws.
#[local] Existing Instance RefLibBson.
#[local] Existing Instance RefLibBsonLaws.
#[local] Existing Instance RefLibBsonDoc.
#[local] Existing Instance RefLibBsonDocLaws.
#[local] Existing Instance RefPgSort.
#[local] Existing Instance RefPgSortLaws.
#[local] Existing Instance RefExprEngine.
#[local] Existing Instance RefPositionalQuery.
#[local] Existing Instance RefLibBsonNew.
#[local] Existing Instance RefUnionView.

Definition no_clock (st : CurrentDocumentState) (sv : UpdateSetValueState) : Z * Z := (0, 0).
Definition int (z : Z) : bson_value := VInt32 z.
Definition arr (vs : list bson_value) : bson_value := VArray (array_of vs).
Definition op (name : string) (es : list (string * bson_value)) : bytes * bson_value :=
  (str name, VDocument (map (fun '(k, v) => (str k, v)) es)).
Definition document (es : list (string * bson_value)) : fields := map (fun '(k, v) => (str k, v)) (("_id"%string, int 1) :: es).

(** ** The theorems at concrete inputs *)

(** [{$set: {a.x: 5}, $inc: {c: 1}, $unset: {a.b: 1}}]. *)
Definition three_operators : update_spec :=
  [(str "$set", [([str "a"; str "x"], int 5)]); (str "$inc", [([str "c"], int 1)]); (str "$unset", [([str "a"; str "b"], int 1)])].
Definition source : fields := document [("a"%string, VDocument [(str "b", int 1); (str "d", int 4)]); ("c"%string, int 2)].
Definition outcomes (p : list bytes) : outcome :=
  if overlaps p [str "c"] then (Some (int 3), true) else if overlaps p [str "a"; str "x"] then (Some (int 5), true) else (None, true).

Lemma GetOperatorUpdateState_builds_witness :
  exists cs, GetOperatorUpdateState false no_clock (VDocument (spec_document three_operators)) VNull None false =
    Ok (MakeRootNode, LeafNode id_node :: cs) /\
  forall i p l, node_at p (IntermediateNode i (LeafNode id_node :: cs)) = Some (LeafNode l) <->
    In (p, l) (([id_field], id_node) :: spec_leaves false no_clock three_operators).
Proof. exact (GetOperatorUpdateState_builds false no_clock three_operators VNull false eq_refl). Defined.

Lemma update_applies_witness :
  exists tree r, GetOperatorUpdateState false no_clock (VDocument (spec_document three_operators)) VNull None false = Ok tree /\
  ProcessUpdateOperatorWithState source tree false = checked r /\
  (r = None <-> false = false /\ forall p, In p (spec_paths three_operators) -> snd (outcomes p) = false) /\
  forall d', r = Some d' ->
    lookup d' id_field = Some (int 1) /\
    (forall p, In p (spec_paths three_operators) -> lookup_path p (VDocument d') = or_eod (fst (outcomes p))) /\
    (forall q, q <> [] -> (forall p, In p ([id_field] :: spec_paths three_operators) -> overlaps p q = false) ->
      copied (lookup_path q (VDocument source)) = true \/ lookup_path q (VDocument source) = VEod ->
      lookup_path q (VDocument d') = lookup_path q (VDocument source)).
Proof.
  apply (update_applies false no_clock three_operators VNull source (int 1) false outcomes eq_refl eq_refl).
  - constructor; try reflexivity; [|easy]. by_fields.
  - assert (Inner : document_ok [(str "b", int 1); (str "d", int 4)]) by by_fields.
    assert (Outer : document_ok source) by by_fields.
    intros p l H. cbn in H. decompose [or] H; try contradiction;
      match goal with E : (_, _) = (_, _) |- _ => injection E as <- <- end; (split; [|intros w; first [reflexivity|cbn; now rewrite app_nil_r]]).
    + split; [exact Outer|]. split; [exact Inner|exact I].
    + now split.
    + split; [exact Outer|]. split; [exact Inner|exact I].
Defined.

Definition no_upsert : CurrentDocumentState := document_state source (int 1) false.

Lemma field_operators_outcome_witness :
  operator_outcome false no_clock "$set" [str "a"] (int 5) no_upsert (int 5) (unchanged (int 5)) /\
  operator_outcome false no_clock "$min" [str "a"] (int 5) no_upsert (int 5) (unchanged (int 5)) /\
  operator_outcome false no_clock "$max" [str "a"] (int 5) no_upsert (int 5) (unchanged (int 5)) /\
  operator_outcome false no_clock "$unset" [str "a"] (int 5) no_upsert (int 5) (None, true).
Proof.
  destruct (field_operators_outcome false no_clock [str "a"] (int 5) (int 5) no_upsert) as (H1 & H2 & H3 & H4); [easy..|].
  rewrite value_order_self in H1, H2, H3. exact (conj H1 (conj H2 (conj H3 H4))).
Defined.

Lemma HandleUpdateDollarInc_integers_witness :
  let l := basic_leaf HandleUpdateDollarInc [str "a"] (VInt64 1) in
  entry_leaf false no_clock (str "$inc") [str "a"] (VInt64 1) = Some l /\
  (VInt64 INT64_MAX = VEod -> leaf_outcome no_upsert l (VInt64 INT64_MAX) (replaced (VInt64 1))) /\
  (forall s, int_value (VInt64 INT64_MAX) = Some s ->
    if (INT64_MIN <=? s + 1) && (s + 1 <=? INT64_MAX) then
      leaf_outcome no_upsert l (VInt64 INT64_MAX)
        (replaced (if wide (VInt64 INT64_MAX) (VInt64 1) || negb ((INT32_MIN <=? s + 1) && (s + 1 <=? INT32_MAX))
                   then VInt64 (s + 1) else VInt32 (s + 1)))
    else forall ew, WriteCurrentNode l (VInt64 INT64_MAX) ew no_upsert false false (leaf_field l) = Err ERRCODE_DOCUMENTDB_BADVALUE).
Proof. apply (HandleUpdateDollarInc_integers false no_clock [str "a"] (VInt64 1) (VInt64 INT64_MAX) 1 no_upsert); easy. Defined.

Lemma elements_ok vs : forallb (fun v => match v with VInt32 z => (INT32_MIN <=? z) && (z <=? INT32_MAX) | _ => false end) vs = true ->
  Forall element_ok vs.
Proof.
  rewrite forallb_forall, Forall_forall. intros H v Hv. specialize (H v Hv). destruct v; try discriminate.
  apply andb_true_iff in H. split; [cbn; zbounds; lia|discriminate].
Qed.

Lemma HandleUpdateDollarAddToSet_outcome_witness :
  exists l, entry_leaf false no_clock (str "$addToSet") [str "a"] (VDocument [(str "$each", arr [int 2; int 1; int 2])]) = Some l /\
    array_outcome no_upsert l (arr [int 1]) [int 1; int 2] true.
Proof.
  replace [int 1; int 2] with (fold_left add_new [int 2; int 1; int 2] [int 1]) by (vm_compute; reflexivity).
  replace true with (grown [int 1] (fold_left add_new [int 2; int 1; int 2] [int 1])) by (vm_compute; reflexivity).
  apply (HandleUpdateDollarAddToSet_outcome false no_clock [str "a"] (VDocument [(str "$each", arr [int 2; int 1; int 2])])
    (arr [int 1]) [int 2; int 1; int 2] no_upsert); try reflexivity; now apply elements_ok.
Defined.

Lemma removal_operators_outcome_witness :
  let d := array_of [int 1; int 2; int 1] in
  exists l, entry_leaf false no_clock (str "$pull") [str "a"] (int 1) = Some l /\
    leaf_outcome no_upsert l (VArray d) (Some (VArray (array_of [int 2])), true).
Proof.
  intros d. destruct (removal_operators_outcome false no_clock [str "a"] (int 1) d no_upsert) as (_ & _ & _ & H);
    [now apply elements_ok|].
  apply (H (VDocument [(str "$eq", int 1)]) true [true; false; true]); [reflexivity| |vm_compute; discriminate].
  repeat constructor.
Defined.

(** [{$push: {a: {$each: [3, 1], $position: 0, $sort: 1, $slice: -3}}}]. *)
Definition push_argument : bson_value :=
  VDocument [(str "$each", arr [int 3; int 1]); (str "$position", int 0); (str "$sort", int 1); (str "$slice", int (-3))].
Definition push_state : DollarPushUpdateState :=
  {| dollarEachArray := arr [int 3; int 1]; dollarEachElementCount := 2; position := 0; slice := -3;
     sortContext := {| sortSpecList := []; sortDirection := SortDirection_Ascending; sortType := SortType_WholeElementSort |};
     modifiersExist := true |}.

Lemma HandleUpdateDollarPush_outcome_witness :
  exists l, entry_leaf false no_clock (str "$push") [str "a"] push_argument = Some l /\
    exists vs', arranged (sortContext push_state) [int 3; int 1; int 2; int 4] vs' /\
      array_outcome no_upsert l (arr [int 2; int 4]) (slice_of (-3) vs') (grown [] (slice_of (-3) vs')).
Proof.
  destruct (HandleUpdateDollarPush_outcome false no_clock [str "a"] push_argument (arr [int 2; int 4]) no_upsert push_state)
    as (l & E & H); [reflexivity|vm_compute; reflexivity|now apply elements_ok| |].
  { split; [|discriminate]. vm_compute. repeat constructor; discriminate. }
  exists l. split; [exact E|]. apply H.
  - constructor; vm_compute; repeat split; discriminate.
  - assert (F : Forall element_ok [int 2; int 4; int 3; int 1]) by now apply elements_ok.
    apply (Forall_impl _) with (2 := F). intros v Hv. split; [exact Hv|constructor].
Defined.

(** ** Where the code departs from its intention *)

(** An [$addToSet] that adds nothing leaves the field twice when another field changes. *)
Example addToSet_duplicates_field :
  ref_update (document [("a"%string, arr [int 1]); ("b"%string, int 0)])
    [op "$addToSet" [("a"%string, int 1)]; op "$set" [("b"%string, int 2)]] None false =
  Ok (Some (document [("a"%string, arr [int 1]); ("a"%string, arr [int 1]); ("b"%string, int 2)])).
Proof. vm_compute. reflexivity. Qed.

(** [$slice: 0], which is to empty the array, changes nothing. *)
Example push_slice_zero :
  ref_update (document [("a"%string, arr [int 1])])
    [op "$push" [("a"%string, VDocument [(str "$each", arr [int 2]); (str "$slice", int 0)])]] None false = Ok None.
Proof. vm_compute. reflexivity. Qed.

(** The negation of the least 64-bit [$slice] overflows: the slice starts far before the array. *)
Example push_slice_min :
  ApplyDollarPushModifiers (arr [int 1])
    {| dollarEachArray := arr [int 2]; dollarEachElementCount := 1; position := UINT32_MAX; slice := INT64_MIN;
       sortContext := {| sortSpecList := []; sortDirection := SortDirection_Ascending; sortType := SortType_No_Sort |};
       modifiersExist := true |} 2 =
  Ok ([GetElementWithIndex (int 1) 0; GetElementWithIndex (int 2) 1], INT64_MIN + 2, 2).
Proof. vm_compute. reflexivity. Qed.

(** A [$position] of 2^32, behind the end of any array, is the front. *)
Example push_position_truncated :
  ref_update (document [("a"%string, arr [int 1])])
    [op "$push" [("a"%string, VDocument [(str "$each", arr [int 2]); (str "$position", VInt64 4294967296)])]] None false =
  Ok (Some (document [("a"%string, arr [int 2; int 1])])).
Proof. vm_compute. reflexivity. Qed.

(** An update of all elements of an empty array, or of an element it does not have, adds a null. *)
Example positional_all_empty_array :
  ref_update (document [("a"%string, arr [])]) [op "$set" [("a.$[]"%string, int 2)]] None false =
    Ok (Some (document [("a"%string, arr [VNull])])) /\
  ref_update (document [("a"%string, arr [])]) [op "$unset" [("a.5"%string, int 1)]] None false =
    Ok (Some (document [("a"%string, arr [VNull])])).
Proof. split; vm_compute; reflexivity. Qed.

(** An [$unset] of all elements hides another update of one of them; with [$set] in its
    place the two are a conflict. *)
Example unset_positional_conflict :
  let d := document [("a"%string, arr [int 7])] in
  ref_update d [op "$unset" [("a.$[]"%string, int 1)]; op "$set" [("a.0"%string, int 5)]] None false =
    Ok (Some (document [("a"%string, arr [VNull])])) /\
  ref_update d [op "$set" [("a.$[]"%string, int 1); ("a.0"%string, int 5)]] None false =
    Err ERRCODE_DOCUMENTDB_CONFLICTINGUPDATEOPERATORS.
Proof. split; vm_compute; reflexivity. Qed.

(** The paths of [$unset] are not validated: a trailing dot is ignored. *)
Example unset_trailing_dot :
  let d := document [("a"%string, int 7)] in
  ref_update d [op "$unset" [("a."%string, int 1)]] None false = Ok (Some (document [])) /\
  ref_update d [op "$set" [("a."%string, int 1)]] None false = Err ERRCODE_DOCUMENTDB_EMPTYFIELDNAME.
Proof. split; vm_compute; reflexivity. Qed.

(** [$inc] takes a boolean for a number. *)
Example inc_boolean :
  ref_update (document [("a"%string, VBool true)]) [op "$inc" [("a"%string, int 2)]] None false =
  Ok (Some (document [("a"%string, int 3)])).
Proof. vm_compute. reflexivity. Qed.
End Examples.
