(* ===== verification/QuerySound.v ===== *)
(** * Values that a query determines: theorems

    What the traversal calls back with does not depend on the callbacks: it is a list of
    events, and processing a query is processing its events.  The [_id] of a query is
    the value that all its conditions on [_id] agree on. *)

From Stdlib Require Import ZArith Lia Bool String List.
From Stdlib Require Import Strings.Byte.
From S2P Require Import Prelude SoftFloat BsonTypes StringView Decimal128 BsonCompare BsonOrder BsonRefine Traversal PgbsonElement BsonWriter DollarSets.
From S2P Require Import AggData AggRows ProjApply Unwind QueryValues UpdatePaths.
Import ListNotations.
Local Open Scope Z_scope.

(** ** Events *)

Inductive query_event : Set := QueryValue (path : bytes) (v : bson_value) | QueryFilter.

Definition record_value (events : list query_event) (path : bytes) (v : bson_value) : M (list query_event) :=
  ret (events ++ [QueryValue path v]).

Definition query_events (isUpsert : bool) (queryDocument : fields) : M (list query_event) :=
  TraverseQueryDocumentAndProcess record_value (Some (fun events => events ++ [QueryFilter])) isUpsert queryDocument [].

Create HintDb query discriminated.

Section Events.
Context {St : Type}.
Variable processValueFunc : St -> bytes -> bson_value -> M St.
Variable processFilterFunc : option (St -> St).
Variable isUpsert : bool.

Fixpoint process_events (events : list query_event) (context : St) : M St :=
  match events with
  | [] => ret context
  | QueryValue path v :: events => bind (processValueFunc context path v) (process_events events)
  | QueryFilter :: events => process_events events (process_filter processFilterFunc context)
  end.

Definition stop_with (error : option errcode) (context : St) : M St :=
  match error with None => ret context | Some e => raise e end.

(** The recorded traversal adds events and may end with an error; the traversal with other
    callbacks processes the same events and then ends with the same error. *)
Definition emits (recorded : list query_event -> M (list query_event)) (processed : St -> M St) : Prop :=
  exists events error,
    (forall before t, recorded before t = match error with None => Ok (before ++ events, t) | Some e => Err e end) /\
    forall context t, processed context t = bind (process_events events context) (stop_with error) t.

Lemma process_events_app xs ys context t :
  process_events (xs ++ ys) context t = bind (process_events xs context) (process_events ys) t.
Proof.
  revert context t. induction xs as [|[path v|] xs IH]; intros context t; cbn [app process_events]; [reflexivity| |apply IH].
  unfold bind. destruct (processValueFunc context path v t) as [[c t1]|]; [|reflexivity]. exact (IH c t1).
Qed.

Lemma emits_ret : emits ret ret.
Proof. exists [], None. split; intros; [now rewrite app_nil_r|reflexivity]. Qed.

Lemma emits_raise e : emits (fun _ => raise e) (fun _ => raise e).
Proof. exists [], (Some e). now split. Qed.

Lemma emits_value path v : emits (fun events => record_value events path v) (fun context => processValueFunc context path v).
Proof.
  exists [QueryValue path v], None. split; [reflexivity|]. intros context t. cbn [process_events]. unfold bind, ret, stop_with.
  now destruct (processValueFunc context path v t) as [[]|].
Qed.

Lemma emits_bind r1 p1 r2 p2 : emits r1 p1 -> emits r2 p2 -> emits (fun x => bind (r1 x) r2) (fun x => bind (p1 x) p2).
Proof.
  intros (xs & [e|] & R1 & P1) (ys & err & R2 & P2).
  - exists xs, (Some e). split; intros; unfold bind; [now rewrite R1|]. rewrite P1. unfold bind.
    now destruct (process_events xs context t) as [[]|].
  - exists (xs ++ ys), err. split.
    + intros before t. unfold bind. rewrite R1, R2, app_assoc. reflexivity.
    + intros context t. unfold bind at 1. rewrite P1. unfold bind at 2. rewrite process_events_app. unfold bind.
      destruct (process_events xs context t) as [[c t1]|]; [|reflexivity]. cbn [stop_with ret]. now rewrite P2.
Qed.

Lemma emits_filter r p : emits r p ->
  emits (fun events => r (process_filter (Some (fun events => events ++ [QueryFilter])) events))
        (fun context => p (process_filter processFilterFunc context)).
Proof.
  intros (events & err & R & P). exists (QueryFilter :: events), err. split; intros; cbn [process_filter process_events].
  - rewrite R, <- app_assoc. reflexivity.
  - apply P.
Qed.

Lemma emits_then_filter r p : emits r p ->
  emits (fun events => bind (r events) (fun events => ret (process_filter (Some (fun events => events ++ [QueryFilter])) events)))
        (fun context => bind (p context) (fun context => ret (process_filter processFilterFunc context))).
Proof. intros H. apply (emits_bind r p _ _ H), (emits_filter _ _ emits_ret). Qed.

Hint Resolve emits_ret emits_raise emits_value emits_bind emits_filter emits_then_filter : query.

Lemma process_all_emits key items :
  emits (process_all record_value key items) (process_all processValueFunc key items).
Proof. induction items as [|[k v] items IH]; cbn [process_all]; auto with query. Qed.

Abbreviation filter_event := (Some (fun events : list query_event => events ++ [QueryFilter])).

Lemma process_operators_emits key document operators :
  emits (process_operators record_value filter_event isUpsert key document operators)
        (process_operators processValueFunc processFilterFunc isUpsert key document operators).
Proof.
  induction operators as [|[op opValue] operators IH]; cbn [process_operators]; auto with query.
  destruct (is_key op "$eq"); auto with query.
  destruct (is_key op "$all").
  { destruct opValue; auto using process_all_emits with query. }
  destruct (is_key op "$in").
  { destruct opValue as [| | | |items| | | | | | | | | | | | | | | | |]; auto with query.
    apply (emits_bind (fun events => match items with [(_, inValue)] => record_value events key inValue | _ => ret events end)
      (fun context => match items with [(_, inValue)] => processValueFunc context key inValue | _ => ret context end)).
    - destruct items as [|[k v] []]; auto with query.
    - apply (emits_filter _ _ IH). }
  destruct (_ && _); auto with query.
  destruct (isUpsert && _).
  { destruct operators as [|[next w] operators]; auto with query. destruct (_ || _); auto with query. }
  apply (emits_filter _ _ IH).
Qed.

Lemma process_field_emits key v :
  emits (process_field record_value filter_event isUpsert key v) (process_field processValueFunc processFilterFunc isUpsert key v).
Proof.
  destruct v as [| | |[|kv d]| | | | | | | | | | | | | | | | | |]; try apply emits_value;
    [apply process_operators_emits|apply (emits_filter _ _ emits_ret)].
Qed.

Section Nested.
Variable nested_record : bson_value -> list query_event -> M (list query_event).
Variable nested : bson_value -> St -> M St.
Abbreviation nested_emits := (fun v => emits (nested_record v) (nested v)).

Lemma process_and_emits items : Forall nested_emits (map snd items) ->
  emits (process_and nested_record items) (process_and nested items).
Proof.
  induction items as [|[k v] items IH]; intros H; cbn [process_and]; auto with query. inversion_clear H.
  destruct v; auto with query.
Qed.

Lemma process_or_emits items : Forall nested_emits (map snd items) ->
  emits (process_or filter_event isUpsert nested_record items) (process_or processFilterFunc isUpsert nested items).
Proof.
  intros H. unfold process_or. apply emits_then_filter.
  assert (Ignored : forall b : bool, emits (fun events => if b then raise ERRCODE_DOCUMENTDB_QUERYFEATURENOTALLOWED else ret events)
    (fun context => if b then raise ERRCODE_DOCUMENTDB_QUERYFEATURENOTALLOWED else ret context)) by (intros []; auto with query).
  destruct items as [|[k v] [|]]; try apply Ignored. inversion_clear H. destruct v; try apply Ignored. assumption.
Qed.

Lemma process_query_emits d :
  Forall (fun v => match v with VArray items => Forall nested_emits (map snd items) | _ => True end) (map snd d) ->
  emits (process_query record_value filter_event isUpsert nested_record d)
        (process_query processValueFunc processFilterFunc isUpsert nested d).
Proof.
  induction d as [|[key v] d IH]; intros H; cbn [process_query]; auto with query. inversion_clear H as [|? ? Hv Hd].
  match goal with |- emits (fun x => bind (@?r x) _) (fun y => bind (@?p y) _) => apply (emits_bind r p) end; [|auto].
  destruct (is_key key "$nor"); [apply (emits_filter _ _ emits_ret)|].
  destruct (is_key key "$and"); [destruct v; auto using process_and_emits with query|].
  destruct (is_key key "$or"); [destruct v; auto using process_or_emits with query|].
  destruct (is_key key "$expr"); [|apply process_field_emits].
  destruct isUpsert; auto with query.
Qed.
End Nested.

Lemma process_nested_emits v :
  emits (process_nested record_value filter_event isUpsert v) (process_nested processValueFunc processFilterFunc isUpsert v) /\
  match v with
  | VArray items => Forall (fun v => emits (process_nested record_value filter_event isUpsert v)
                                           (process_nested processValueFunc processFilterFunc isUpsert v)) (map snd items)
  | _ => True
  end.
Proof.
  induction v as [d IH|d IH|v H1 H2] using value_nested_induction.
  - split; [|exact I]. apply process_query_emits. apply Forall_map. revert IH. apply Forall_impl. now intros kv [_ H].
  - split; [apply emits_ret|]. apply Forall_map. revert IH. apply Forall_impl. now intros kv [H _].
  - destruct v; try (split; [apply emits_ret|exact I]); [now elim (H1 _ eq_refl)|now elim (H2 _ eq_refl)].
Qed.

Lemma traversal_emits d :
  emits (TraverseQueryDocumentAndProcess record_value filter_event isUpsert d)
        (TraverseQueryDocumentAndProcess processValueFunc processFilterFunc isUpsert d).
Proof. exact (proj1 (process_nested_emits (VDocument d))). Qed.

(** Processing a query is processing its events, in their order: the callbacks are called
    for each of them, and then an error of the query itself is raised. *)
Theorem query_processed_by_events queryDocument context t :
  match query_events isUpsert queryDocument t with
  | Ok (events, _) =>
    TraverseQueryDocumentAndProcess processValueFunc processFilterFunc isUpsert queryDocument context t = process_events events context t
  | Err e => exists e', TraverseQueryDocumentAndProcess processValueFunc processFilterFunc isUpsert queryDocument context t = Err e'
  end.
Proof.
  destruct (traversal_emits queryDocument) as (events & [e|] & R & P); unfold query_events; rewrite R, P; unfold bind, stop_with;
    destruct (process_events events context t) as [[]|] eqn:E; cbn; rewrite ?E; eauto. now exists e.
Qed.
End Events.

(** ** The [_id] *)

Section Id.
Context {BL : BidLib} {BLaws : BidLaws BL} {LB : LibBson} {LBLaws : LibBsonLaws LB}.

(** The values that the conditions on [_id] ask for. *)
Definition id_values (events : list query_event) : list bson_value :=
  flat_map (fun e => match e with QueryValue path v => if is_key path "_id" then [v] else [] | QueryFilter => [] end) events.

Definition agree (ids : list bson_value) : bool :=
  match ids with [] => true | id :: ids => forallb (fun v => value_order None v id =? 0) ids end.

Definition other_condition (e : query_event) : bool :=
  match e with QueryValue path _ => negb (is_key path "_id") | QueryFilter => true end.

Definition some_value (ids : list bson_value) : bool := match ids with [] => false | _ => true end.

Lemma agree_last id ids : agree (id :: ids) = true -> value_order None (last (id :: ids) VEod) id = 0.
Proof.
  intros H. destruct ids as [|v ids] using rev_ind; [apply value_order_self|]. rewrite app_comm_cons, last_last.
  cbn [agree] in H. rewrite forallb_app in H. cbn in H. lia.
Qed.

Lemma agree_snoc ids v : agree ids = true ->
  agree (ids ++ [v]) = negb (some_value ids) || (value_order None v (last ids VEod) =? 0).
Proof.
  destruct ids as [|id ids]; [reflexivity|]. intros H. cbn [some_value negb orb]. assert (L := agree_last _ _ H).
  cbn [app agree] in *. rewrite forallb_app, H. cbn [forallb andb]. rewrite andb_true_r.
  destruct (Z.eqb_spec (value_order None v id) 0) as [E|N], (Z.eqb_spec (value_order None v (last (id :: ids) VEod)) 0) as [E'|N'];
    try reflexivity; exfalso.
  - apply N'. apply (order_trans v id); [exact E|]. now apply order_sym.
  - apply N. now apply (order_trans v (last (id :: ids) VEod)).
Qed.

Lemma agree_app ids ids' : agree (ids ++ ids') = true -> agree ids = true.
Proof. destruct ids as [|id ids]; [reflexivity|]. cbn [app agree]. rewrite forallb_app. now intros [H _]%andb_true_iff. Qed.

(** What is known behind events with these values and possibly other conditions. *)
Definition id_state (onConflict : bool) (ids : list bson_value) (other : bool) (c : QueryIdContext) : Prop :=
  errorOnConflict c = onConflict /\ foundId c = some_value ids /\ foundMultipleIds c = negb (agree ids) /\
  (agree ids = true -> idValue c = last ids VEod) /\
  queryHasNonIdFilters c = (other || negb (agree ids)) /\
  (onConflict = true -> agree ids = true).

Lemma same_id_compared v w : value_ok v -> value_ok w -> exists c valid,
  CompareBsonValueAndType v w = Ok (c, valid) /\ Z.eqb c 0 = Z.eqb (value_order None v w) 0.
Proof.
  intros Hv Hw. destruct (CompareBsonValueAndType_answers None no_collation v w Hv Hw) as (c & valid & E & S & _).
  exists c, valid. split; [exact E|]. unfold same_sign in S. destruct (Z.eqb_spec c 0), (Z.eqb_spec (value_order None v w) 0); lia.
Qed.

Lemma last_ok ids : ids <> [] -> Forall value_ok ids -> value_ok (last ids VEod).
Proof.
  intros H F. destruct ids as [|v ids] using rev_ind; [easy|]. rewrite last_last. apply Forall_app in F. apply proj2 in F. now inversion_clear F.
Qed.

Lemma some_snoc ids (v : bson_value) : some_value (ids ++ [v]) = true.
Proof. now destruct ids. Qed.

Lemma id_condition onConflict ids other v c t : id_state onConflict ids other c -> Forall value_ok (ids ++ [v]) ->
  match ProcessIdInQuery c (str "_id") v t with
  | Ok (c', t') => t' = t /\ id_state onConflict (ids ++ [v]) other c'
  | Err err => err = ERRCODE_DOCUMENTDB_NOTSINGLEVALUEFIELD /\ onConflict = true /\ agree (ids ++ [v]) = false
  end.
Proof.
  intros (Hc & Hf & Hm & Hi & Hq & Ha) Hok. unfold ProcessIdInQuery, id_state. change (is_key (str "_id") "_id") with true.
  cbn [negb]. rewrite Hm, some_snoc. destruct (agree ids) eqn:A; cbn [negb].
  - rewrite (agree_snoc _ v A), Hf. specialize (Hi eq_refl). destruct (some_value ids) eqn:E; cbn [negb orb].
    + rewrite Hi. apply Forall_app in Hok as [Hids Hv]. inversion_clear Hv as [|? ? Hv1 _].
      destruct (same_id_compared v (last ids VEod)) as (cmp & valid & Ec & Es); [exact Hv1|apply last_ok; [now destruct ids|exact Hids]|].
      unfold bind, lift. rewrite Ec. cbn [ret]. rewrite Es. destruct (value_order None v (last ids VEod) =? 0); cbn [negb].
      * cbn. repeat split; try assumption. intros _. now rewrite last_last.
      * rewrite Hc. destruct onConflict; [now repeat split|]. cbn. repeat split; try assumption; try discriminate; now rewrite orb_true_r.
    + cbn. repeat split; try assumption. intros _. now rewrite last_last.
  - assert (B : agree (ids ++ [v]) = false) by (apply not_true_iff_false; intros H%agree_app; congruence).
    rewrite B. cbn. repeat split; try assumption; try discriminate; try (now rewrite orb_true_r); try (intros H; now apply Ha in H).
    rewrite Hf. destruct ids; [discriminate|reflexivity].
Qed.

Lemma with_filters_state onConflict ids other c : id_state onConflict ids other c -> id_state onConflict ids true (with_filters c).
Proof. intros (Hc & Hf & Hm & Hi & Hq & Ha). now repeat split. Qed.

Lemma id_events onConflict events : forall ids other c t, id_state onConflict ids other c -> Forall value_ok (ids ++ id_values events) ->
  match process_events ProcessIdInQuery (Some SetQueryHasNonIdFilters) events c t with
  | Ok (c', t') => t' = t /\ id_state onConflict (ids ++ id_values events) (other || existsb other_condition events) c'
  | Err err => err = ERRCODE_DOCUMENTDB_NOTSINGLEVALUEFIELD /\ onConflict = true /\ agree (ids ++ id_values events) = false
  end.
Proof.
  induction events as [|[path v|] events IH]; intros ids other c t H Hok; cbn [process_events].
  - cbn. now rewrite app_nil_r, orb_false_r.
  - unfold id_values in *. cbn [flat_map existsb other_condition] in *. fold (id_values events) in *. destruct (is_key path "_id") eqn:K; cbn [negb orb app] in *.
    + assert (C : ProcessIdInQuery c path v t = ProcessIdInQuery c (str "_id") v t) by (unfold ProcessIdInQuery; now rewrite K).
      change (v :: id_values events) with ([v] ++ id_values events) in *. rewrite app_assoc in *. unfold bind. rewrite C.
      assert (Hok1 := proj1 (proj1 (Forall_app _ _ _) Hok)). pose proof (id_condition onConflict ids other v c t H Hok1) as S.
      destruct (ProcessIdInQuery c (str "_id") v t) as [[c1 t1]|]; [destruct S as [-> S]; now apply IH|].
      destruct S as (-> & -> & A). repeat split. apply not_true_iff_false. intros B%agree_app. congruence.
    + unfold bind, ProcessIdInQuery. rewrite K. cbn [negb ret]. rewrite orb_true_r. change true with (true || existsb other_condition events).
      apply IH; [now apply with_filters_state with (1 := H)|exact Hok].
  - cbn [id_values flat_map existsb other_condition app orb process_filter] in *. rewrite orb_true_r. change true with (true || existsb other_condition events).
    apply IH; [now apply with_filters_state with (1 := H)|exact Hok].
Qed.

(** The [_id] that a query asks for: a query without errors has one when there are
    conditions on [_id] and they agree; it then is the value of the last of them.  With
    conflicting conditions there is none, or an error when the caller wants one.  The
    query has other conditions when a condition is not of the form [_id = value], or the
    ones on [_id] are in conflict. *)
Theorem query_id_agreed (queryDocument : fields) (onConflict : bool) t events t'
  (Hevents : query_events false queryDocument t = Ok (events, t')) (Hok : Forall value_ok (id_values events)) :
  result_of (TraverseQueryDocumentAndGetId queryDocument onConflict t) =
  let ids := id_values events in
  if agree ids then Ok (if some_value ids then Some (last ids VEod) else None, existsb other_condition events)
  else if onConflict then Err ERRCODE_DOCUMENTDB_NOTSINGLEVALUEFIELD
  else Ok (None, true).
Proof.
  cbn zeta. unfold TraverseQueryDocumentAndGetId, bind.
  set (c0 := {| foundId := false |}).
  pose proof (query_processed_by_events ProcessIdInQuery (Some SetQueryHasNonIdFilters) false queryDocument c0 t) as E. rewrite Hevents in E. rewrite E.
  assert (S0 : id_state onConflict [] false c0) by now repeat split.
  pose proof (id_events onConflict events [] false c0 t S0 Hok) as S. cbn [app orb] in S.
  destruct (process_events _ _ events c0 t) as [[c t1]|].
  - destruct S as (-> & Hc & Hf & Hm & Hi & Hq & Ha). cbn. rewrite Hf, Hm, Hq. destruct (agree (id_values events)) eqn:A; cbn.
    + rewrite Hi, orb_false_r, andb_true_r by reflexivity. reflexivity.
    + rewrite andb_false_r, orb_true_r. destruct onConflict; [now specialize (Ha eq_refl)|reflexivity].
  - destruct S as (-> & -> & ->). reflexivity.
Qed.
End Id.
