(* ===== verification/QueryAsks.v ===== *)
(** * Values that a query determines: the conditions of a query

    What a query asks for, independently of its traversal: a field equal to a value, by
    itself or with [$eq], also inside [$and] and inside a [$or] with one element.  The
    traversal calls back with every such field and value. *)

From Stdlib Require Import ZArith Lia Bool String Ascii List.
From Stdlib Require Import Strings.Byte.
From S2P Require Import Prelude BsonTypes StringView Traversal PgbsonElement AggData QueryValues QuerySound.
Import ListNotations.
Local Open Scope Z_scope.

(** Operators on a field that do not end the list of them. *)
Definition operator_name (k : bytes) : bool :=
  negb ((blen k >? 0) && negb (byte_eqb (nth 0 k x00) "$"%byte)) && negb (is_key k "$ref") && negb (is_key k "$id").

Definition is_logical (k : bytes) : bool := is_key k "$nor" || is_key k "$and" || is_key k "$or" || is_key k "$expr".

(** A document that is a value: it has no fields, or the first is no operator. *)
Definition plain_fields (d : fields) : bool :=
  match d with [] => true | (name, _) :: _ => (blen name >? 0) && negb (byte_eqb (nth 0 name x00) "$"%byte) end.

Inductive asks : fields -> bytes -> bson_value -> Prop :=
| asks_value q k v : In (k, v) q -> is_logical k = false -> (forall d, v <> VDocument d) -> (forall r o, v <> VRegex r o) -> asks q k v
| asks_document q k d : In (k, VDocument d) q -> is_logical k = false -> plain_fields d = true -> asks q k (VDocument d)
| asks_eq q k before name v after : In (k, VDocument (before ++ (name, v) :: after)) q -> is_logical k = false ->
    Forall (fun kv => operator_name (fst kv) = true) before -> is_key name "$eq" = true -> asks q k v
| asks_and q name items i q' k v : In (name, VArray items) q -> is_key name "$nor" = false -> is_key name "$and" = true ->
    In (i, VDocument q') items -> asks q' k v -> asks q k v
| asks_or q name i q' k v : In (name, VArray [(i, VDocument q')]) q -> is_key name "$nor" = false -> is_key name "$and" = false -> is_key name "$or" = true ->
    asks q' k v -> asks q k v.

Lemma field_not_operator name rest : (blen name >? 0) && negb (byte_eqb (nth 0 name x00) "$"%byte) = true -> is_key name (String "$"%char rest) = false.
Proof.
  intros H. apply andb_true_iff in H as [H1 H2]. destruct name as [|c name]; [discriminate|]. cbn [nth] in H2. unfold is_key, strcmp.
  change (str (String "$"%char rest)) with ("$"%byte :: str rest). cbn [strncmp]. unfold byte_eqb in H2. apply negb_true_iff in H2.
  apply Z.eqb_neq in H2. apply Z.eqb_neq. unfold lexz. destruct (Z.eqb_spec (cmpz (byte_z c) (byte_z "$"%byte)) 0) as [E|E]; [|exact E].
  apply (proj1 (cmpz_0 _ _)) in E. contradiction.
Qed.

Section Asked.
Variable isUpsert : bool.
Abbreviation filter_event := (Some (fun events : list query_event => events ++ [QueryFilter])).
Abbreviation Recorder := (list query_event -> M (list query_event)).

(** Events that were recorded stay, and this one is recorded. *)
Definition extends (r : Recorder) : Prop := forall before t after t', r before t = Ok (after, t') -> incl before after.
Definition records (r : Recorder) (k : bytes) (v : bson_value) : Prop :=
  forall before t after t', r before t = Ok (after, t') -> In (QueryValue k v) after.

Lemma emits_extends {St} f g (r : Recorder) (p : St -> M St) : emits f g r p -> extends r.
Proof.
  intros (events & [e|] & R & _) before t after t'; rewrite R; [discriminate|]. intros [= <- _]. apply incl_appl, incl_refl.
Qed.

Lemma records_first r1 r2 k v : records r1 k v -> extends r2 -> records (fun x => bind (r1 x) r2) k v.
Proof.
  intros H1 H2 before t after t'. unfold bind. destruct (r1 before t) as [[mid t1]|] eqn:E; [|discriminate]. intros E2.
  exact (H2 _ _ _ _ E2 _ (H1 _ _ _ _ E)).
Qed.

Lemma records_second (r1 : Recorder) r2 k v : records r2 k v -> records (fun x => bind (r1 x) r2) k v.
Proof. intros H before t after t'. unfold bind. destruct (r1 before t) as [[mid t1]|]; [|discriminate]. apply H. Qed.

Lemma records_filter r k v : records r k v -> records (fun x => r (process_filter filter_event x)) k v.
Proof. intros H before t after t'. apply H. Qed.

Lemma records_value k v : records (fun x => record_value x k v) k v.
Proof. intros before t after t' [= <- _]. apply in_or_app. right. now left. Qed.

Lemma operators_extend key document operators : extends (process_operators record_value filter_event isUpsert key document operators).
Proof. apply (emits_extends record_value filter_event _ (process_operators record_value filter_event isUpsert key document operators)), process_operators_emits. Qed.

Lemma operators_record key document before name v after : Forall (fun kv => operator_name (fst kv) = true) before -> is_key name "$eq" = true ->
  records (process_operators record_value filter_event isUpsert key document (before ++ (name, v) :: after)) key v.
Proof.
  intros H Hn. induction H as [|[op opValue] before Hop _ IH]; cbn [app process_operators].
  - rewrite Hn. apply (records_first (fun x => record_value x key v)); [apply records_value|apply operators_extend].
  - unfold operator_name in Hop. cbn [fst] in Hop. rewrite !andb_true_iff, !negb_true_iff in Hop. destruct Hop as [[Hd Hr] Hi]. rewrite Hd, Hr, Hi, andb_false_r.
    destruct (is_key op "$eq"); [now apply (records_second (fun x => record_value x key opValue))|].
    destruct (is_key op "$all"); [destruct opValue; try (intros ? ? ? ? E; discriminate E); now apply (records_second (process_all record_value key _))|].
    destruct (is_key op "$in").
    + destruct opValue as [| | | |items| | | | | | | | | | | | | | | | |]; try (intros ? ? ? ? E; discriminate E).
      apply (records_second (fun x => match items with [(_, inValue)] => record_value x key inValue | _ => ret x end)). now apply records_filter.
    + now apply records_filter.
Qed.

Abbreviation nested := (process_nested record_value filter_event isUpsert).

Lemma nested_extends v : extends (nested v).
Proof. apply (emits_extends record_value filter_event _ (nested v)), process_nested_emits. Qed.

Lemma query_extends q : extends (process_query record_value filter_event isUpsert nested q).
Proof. exact (nested_extends (VDocument q)). Qed.

Lemma and_records items i q' k v : In (i, VDocument q') items -> records (nested (VDocument q')) k v -> records (process_and nested items) k v.
Proof.
  intros Hin H. induction items as [|[j x] items IH]; [easy|]. cbn [process_and].
  assert (Rest : extends (process_and nested items)).
  { apply (emits_extends record_value filter_event _ (process_and nested items)), process_and_emits. apply Forall_forall. intros w _. apply process_nested_emits. }
  destruct Hin as [[= -> ->]|Hin].
  - apply (records_first (nested (VDocument q'))); assumption.
  - destruct x; try (intros ? ? ? ? E; discriminate E). apply (records_second (nested _)). now apply IH.
Qed.

(** One condition of the query. *)
Definition condition (key : bytes) (v : bson_value) : Recorder := fun context =>
  if is_key key "$nor" then ret (process_filter filter_event context)
  else if is_key key "$and" then
    match v with VArray items => process_and nested items context | _ => raise ERRCODE_DOCUMENTDB_BADVALUE end
  else if is_key key "$or" then
    match v with VArray items => process_or filter_event isUpsert nested items context | _ => raise ERRCODE_DOCUMENTDB_BADVALUE end
  else if is_key key "$expr" then
    if isUpsert then raise ERRCODE_DOCUMENTDB_QUERYFEATURENOTALLOWED else ret (process_filter filter_event context)
  else process_field record_value filter_event isUpsert key v context.

Lemma query_records q key x k v : In (key, x) q -> records (condition key x) k v ->
  records (process_query record_value filter_event isUpsert nested q) k v.
Proof.
  intros Hin H. induction q as [|[key' x'] q IH]; [easy|]. cbn [process_query]. fold (condition key' x'). destruct Hin as [[= -> ->]|Hin].
  - apply (records_first (condition key x)); [exact H|apply query_extends].
  - apply (records_second (condition key' x')). now apply IH.
Qed.

Lemma logical_false k : is_logical k = false -> is_key k "$nor" = false /\ is_key k "$and" = false /\ is_key k "$or" = false /\ is_key k "$expr" = false.
Proof. unfold is_logical. rewrite !orb_false_iff. tauto. Qed.

Lemma asks_recorded q k v : asks q k v -> records (process_query record_value filter_event isUpsert nested q) k v.
Proof.
  induction 1 as [q k v Hin Hl Hd Hr|q k d Hin Hl Hd|q k before name v after Hin Hl Hb Hn|q name items i q' k v Hin H1 H2 Hi _ IH|q name i q' k v Hin H1 H2 H3 _ IH];
    apply (query_records q) with (1 := Hin); unfold condition.
  - destruct (logical_false k Hl) as (-> & -> & -> & ->). destruct v; try (apply records_value); [now elim (Hd _ eq_refl)|now elim (Hr _ _ eq_refl)].
  - destruct (logical_false k Hl) as (-> & -> & -> & ->). destruct d as [|[name x] d]; [apply records_value|]. cbn [plain_fields] in Hd.
    unfold process_field. cbn [process_operators]. rewrite !field_not_operator by exact Hd. rewrite Hd. apply records_value.
  - destruct (logical_false k Hl) as (-> & -> & -> & ->). unfold process_field.
    destruct (before ++ (name, v) :: after) as [|kv ops] eqn:E; [now destruct before|]. rewrite <- E. now apply operators_record.
  - rewrite H1, H2. now apply (and_records items i q').
  - rewrite H1, H2, H3. unfold process_or. apply (records_first (nested (VDocument q'))); [exact IH|].
    intros b t a t' [= <- _]. apply incl_appl, incl_refl.
Qed.

(** Whatever the query asks for in these ways is among its events. *)
Theorem asked_values_visited (q : fields) (k : bytes) (v : bson_value) t events t'
  (Hevents : query_events isUpsert q t = Ok (events, t')) : asks q k v -> In (QueryValue k v) events.
Proof. intros H. exact (asks_recorded q k v H _ _ _ _ Hevents). Qed.
End Asked.
