(* ===== verification/UpdateDocSound.v ===== *)
(** * Updates of documents: theorems

    The kind of an update; the document that a replacement gives; the [_id] as the first
    field; and that an update of any kind keeps the [_id] of the document. *)

From Stdlib Require Import ZArith Lia Bool String List.
From Stdlib Require Import Strings.Byte.
From S2P Require Import Prelude SoftFloat BsonTypes StringView Decimal128 BsonCompare BsonOrder BsonRefine BsonArith Traversal PgbsonElement BsonWire BsonWriter DollarSets.
From S2P Require Import SortUtils ExprEval UpdateOperators UpdateTree UpdateWorkflow UpdatePaths.
From S2P Require Import AggData AggOperators AggEval AggParse AggGet AggMeaning AggRows ProjTree Project ProjectStages QueryValues UpdateDocument.
Import ListNotations.
Local Open Scope Z_scope.

(** ** The kind of an update *)

Definition is_operator_name (key : bytes) : bool := (blen key >? 1) && byte_eqb (nth 0 key x00) "$"%byte.

Lemma fields_determined d replacement :
  determine_fields d replacement =
  if existsb (fun kv => is_operator_name (fst kv)) d
  then match d with
       | (key, _) :: _ => if is_operator_name key && negb replacement then Ok UpdateType_Operator
                          else Err ERRCODE_DOCUMENTDB_DOLLARPREFIXEDFIELDNAME
       | [] => Ok UpdateType_ReplaceDocument
       end
  else Ok UpdateType_ReplaceDocument.
Proof.
  assert (G : forall d, determine_fields d true =
    if existsb (fun kv => is_operator_name (fst kv)) d then Err ERRCODE_DOCUMENTDB_DOLLARPREFIXEDFIELDNAME else Ok UpdateType_ReplaceDocument).
  { clear. induction d as [|[key v] d IH]; [reflexivity|]. cbn [determine_fields existsb fst]. fold (is_operator_name key).
    destruct (is_operator_name key); [reflexivity|exact IH]. }
  destruct d as [|[key v] d]; [reflexivity|]. cbn [determine_fields existsb fst]. fold (is_operator_name key).
  destruct (is_operator_name key); cbn [andb orb negb]; [now destruct replacement|apply G].
Qed.

(** The kind of an update: a document is an update by operators when its first field is
    an operator, a replacement when none is, and refused when another one is. *)
Theorem DetermineUpdateType_first (d : fields) :
  DetermineUpdateType (VDocument d) =
  match d with
  | (key, _) :: rest =>
    if is_operator_name key then Ok UpdateType_Operator
    else if existsb (fun kv => is_operator_name (fst kv)) rest then Err ERRCODE_DOCUMENTDB_DOLLARPREFIXEDFIELDNAME
    else Ok UpdateType_ReplaceDocument
  | [] => Ok UpdateType_ReplaceDocument
  end.
Proof.
  cbn [DetermineUpdateType]. rewrite fields_determined. destruct d as [|[key v] d]; [reflexivity|]. cbn [existsb fst].
  destruct (is_operator_name key); reflexivity.
Qed.

(** ** Fields copied but for the [_id] *)

Definition keys_ok (d : fields) : Prop := Forall (fun kv => no_nul (fst kv)) d.

Section Copied.
Context {LD : LibBsonDoc} {LDL : LibBsonDocLaws LD}.

Lemma id_key key : no_nul key -> (strcmp key (str "_id") =? 0) = same_key key id_field.
Proof. intros H. apply eq_iff_eq_true. rewrite same_key_iff. apply strcmp_0; [exact H|apply id_field_no_nul]. Qed.

Lemma append_copy w key v : copied v = true -> PgbsonWriterAppendValue w key v = Ok (w ++ [(key, v)]).
Proof. intros H. unfold PgbsonWriterAppendValue, append. now rewrite append_copied. Qed.

Lemma write_id_copied id : copied id = true -> write_id id = Ok [(id_field, id)].
Proof. intros H. unfold write_id. now rewrite append_copy. Qed.

Lemma find_id_lookup d : UpdateDocument.find_id d = lookup d id_field.
Proof.
  unfold UpdateDocument.find_id. rewrite find_field; [reflexivity|apply id_field_no_nul|discriminate|].
  cbn. intros H. decompose [or] H; try discriminate; assumption.
Qed.

Lemma copy_without_id_plain d : keys_ok d -> plain_doc d = true -> forall w, copy_without_id d w = Ok (w ++ without_id d).
Proof.
  induction d as [|[key v] d IH]; intros Hk Hp w; [cbn; now rewrite app_nil_r|]. inversion_clear Hk as [|? ? Hk1 Hk2].
  cbn [plain_doc forallb snd] in Hp. apply andb_true_iff in Hp as [Hv Hp]. cbn [copy_without_id]. unfold without_id. cbn [filter fst].
  rewrite id_key by exact Hk1. destruct (same_key key id_field); cbn [negb]; [now apply IH|].
  rewrite append_copy by now apply plain_copied. cbn [res_bind]. rewrite IH by assumption. now rewrite <- app_assoc.
Qed.

(** ** The [_id] as the first field *)

Lemma search_id_lookup d : keys_ok d -> forall first,
  search_id d first =
  match lookup d id_field with
  | Some v => Some (v, first && match d with (key, _) :: _ => same_key key id_field | [] => false end)
  | None => None
  end.
Proof.
  induction d as [|[key v] d IH]; intros Hk first; [reflexivity|]. inversion_clear Hk as [|? ? Hk1 Hk2]. cbn [search_id]. unfold lookup. cbn [find fst].
  rewrite AggOutcome.same_name_iff by exact Hk1. fold (same_key (str "_id") key). change (str "_id") with id_field. rewrite same_key_sym.
  fold (same_key key id_field). destruct (same_key key id_field); [cbn; now rewrite andb_true_r|].
  rewrite IH by exact Hk2. unfold lookup. destruct (find _ d) as [[k x]|]; cbn [option_map]; [|reflexivity]. cbn. now rewrite andb_false_r.
Qed.

Definition id_first (d : fields) : bool := match d with (key, _) :: _ => same_key key id_field | [] => false end.

Section New.
Context {LN : LibBsonNew}.

Lemma core_rewritten d objectId : keys_ok d -> plain_doc d = true -> match objectId with Some id => copied id = true | None => True end ->
  RewriteDocumentAddObjectIdCore d objectId =
  match lookup d id_field with
  | None => Ok (Some ((id_field, match objectId with Some id => id | None => VOid bson_oid_init end) :: d))
  | Some id => res_bind (ValidateIdField id) (fun _ => Ok (if id_first d then None else Some ((id_field, id) :: without_id d)))
  end.
Proof.
  intros Hk Hp Ho. unfold RewriteDocumentAddObjectIdCore. rewrite search_id_lookup by exact Hk. cbn [andb]. fold (id_first d).
  destruct (lookup d id_field) as [id|] eqn:L.
  - destruct (ValidateIdField id); [|reflexivity]. cbn [res_bind]. destruct (id_first d); [reflexivity|].
    rewrite write_id_copied by exact (plain_copied _ (plain_lookup _ _ _ Hp L)). cbn [res_bind]. now rewrite copy_without_id_plain.
  - rewrite write_id_copied; [reflexivity|]. now destruct objectId.
Qed.

(** A document that is written has an [_id] as its first field: its own, which must be
    allowed, moved to the front, with the other fields in their order; or a new one. *)
Theorem RewriteDocumentAddObjectId_first (d : fields) (Hkeys : keys_ok d) (Hplain : plain_doc d = true) :
  RewriteDocumentAddObjectId d =
  match lookup d id_field with
  | None => Ok ((id_field, VOid bson_oid_init) :: d)
  | Some id => res_bind (ValidateIdField id) (fun _ => Ok (if id_first d then d else (id_field, id) :: without_id d))
  end.
Proof.
  unfold RewriteDocumentAddObjectId. rewrite core_rewritten by (assumption || exact I). destruct (lookup d id_field) as [id|]; [|reflexivity].
  destruct (ValidateIdField id); [|reflexivity]. cbn [res_bind]. now destruct (id_first d).
Qed.

Lemma without_id_plain d : plain_doc d = true -> plain_doc (without_id d) = true.
Proof.
  unfold plain_doc, without_id. induction d as [|kv d IH]; [reflexivity|]. cbn [forallb filter]. intros [H1 H2]%andb_true_iff.
  destruct (negb _); [|now apply IH]. cbn [forallb]. now rewrite H1, IH.
Qed.

Lemma without_id_keys d : keys_ok d -> keys_ok (without_id d).
Proof. unfold keys_ok, without_id. intros H. apply Forall_forall. intros kv [Hin _]%filter_In. rewrite Forall_forall in H. now apply H. Qed.

(** Once is enough. *)
Theorem RewriteDocumentAddObjectId_idempotent (d d' : fields) (Hkeys : keys_ok d) (Hplain : plain_doc d = true) :
  RewriteDocumentAddObjectId d = Ok d' -> RewriteDocumentAddObjectId d' = Ok d'.
Proof.
  assert (New : forall id rest, ValidateIdField id = Ok tt -> plain id = true -> keys_ok rest -> plain_doc rest = true ->
    RewriteDocumentAddObjectId ((id_field, id) :: rest) = Ok ((id_field, id) :: rest)).
  { intros id rest Hv Hi Hk Hr. rewrite RewriteDocumentAddObjectId_first; [|constructor; [apply id_field_no_nul|exact Hk]|cbn; now rewrite Hi].
    cbn [lookup find fst]. unfold lookup. cbn [find fst]. fold (same_key id_field id_field). rewrite same_key_refl. cbn. now rewrite Hv. }
  intros H. pose proof H as R. rewrite RewriteDocumentAddObjectId_first in R by assumption. destruct (lookup d id_field) as [id|] eqn:L.
  - destruct (ValidateIdField id) as [[]|] eqn:V; [|discriminate]. cbn [res_bind] in R. destruct (id_first d); injection R as <-; [exact H|].
    apply New; [exact V|exact (plain_lookup _ _ _ Hplain L)|now apply without_id_keys|now apply without_id_plain].
  - injection R as <-. now apply New.
Qed.
End New.
End Copied.

(** ** Replacements *)

Section Replace.
Context {BL : BidLib} {BLaws : BidLaws BL} {LB : LibBson} {LBLaws : LibBsonLaws LB} {LD : LibBsonDoc} {LDL : LibBsonDocLaws LD} {LN : LibBsonNew}.

(** The values of the fields [_id]. *)
Definition ids_of (d : fields) : list bson_value := map snd (filter (fun kv => same_key (fst kv) id_field) d).

Definition same_ids (id : bson_value) (d : fields) : bool := forallb (fun v => value_order None id v =? 0) (ids_of d).

Lemma fields_replaced r : keys_ok r -> plain_doc r = true -> Forall (fun kv => value_ok (snd kv)) r -> forall sourceId w,
  match sourceId with Some id => value_ok id | None => True end ->
  replace_fields r sourceId w =
  if match sourceId with Some id => same_ids id r | None => true end then Ok (w ++ without_id r) else Err ERRCODE_DOCUMENTDB_IMMUTABLEFIELD.
Proof.
  intros Hk Hp Hv sourceId w Hid. revert w. induction r as [|[key v] r IH]; intros w; [destruct sourceId; cbn; now rewrite app_nil_r|].
  inversion_clear Hk as [|? ? Hk1 Hk2]. inversion_clear Hv as [|? ? Hv1 Hv2]. cbn [fst snd plain_doc forallb] in *. apply andb_true_iff in Hp as [Hp1 Hp2].
  cbn [replace_fields]. rewrite id_key by exact Hk1. unfold without_id, same_ids, ids_of in *. cbn [filter fst].
  destruct (same_key key id_field); cbn [negb map snd forallb].
  - destruct sourceId as [id|]; cbn [res_bind]; [|now rewrite IH]. rewrite BsonValueEquals_order by assumption. cbn [res_bind].
    destruct (value_order None id v =? 0); [|reflexivity]. now rewrite IH.
  - rewrite append_copy by now apply plain_copied. cbn [res_bind]. rewrite IH by assumption. now rewrite <- app_assoc.
Qed.

(** C40: A replacement that is no upsert, of a document whose [_id] is a well-formed
    value that libbson copies, by a valid document of well-formed values that libbson
    copies, under keys without NUL bytes: the result has the [_id] of the document as its
    first field and then the other fields of the new document in their order; when an [_id]
    of the new document is not equal to that of the document, the update is refused as a
    change of an immutable field. *)
Theorem replacement_keeps_id (source r : fields) (id : bson_value)
  (Hid : lookup source id_field = Some id) (Hcopied : copied id = true) (Hok : value_ok id)
  (Hkeys : keys_ok r) (Hplain : plain_doc r = true) (Hvalues : Forall (fun kv => value_ok (snd kv)) r) (Hvalid : bson_validate r = true) :
  ProcessReplaceDocument source (VDocument r) false =
  if same_ids id r then Ok ((id_field, id) :: without_id r) else Err ERRCODE_DOCUMENTDB_IMMUTABLEFIELD.
Proof.
  unfold ProcessReplaceDocument. rewrite Hvalid, find_id_lookup, Hid. cbn [negb]. rewrite write_id_copied by exact Hcopied. cbn [res_bind].
  now rewrite fields_replaced.
Qed.

(** The [_id] of an upsert. *)
Definition new_id (source r : fields) : res bson_value :=
  match lookup r id_field, lookup source id_field with
  | Some id, Some asked => if value_order None id asked =? 0 then Ok id else Err ERRCODE_DOCUMENTDB_IMMUTABLEFIELD
  | Some id, None => Ok id
  | None, Some asked => Ok asked
  | None, None => Ok (VOid bson_oid_init)
  end.

Definition allowed_id (id : bson_value) : res bson_value :=
  match id with
  | VArray _ => Err ERRCODE_DOCUMENTDB_NOTSINGLEVALUEFIELD
  | _ => res_bind (ValidateIdField id) (fun _ => Ok id)
  end.

Lemma values_lookup d key v : Forall (fun kv => value_ok (snd kv)) d -> lookup d key = Some v -> value_ok v.
Proof.
  unfold lookup. intros H. destruct (find _ d) as [[k x]|] eqn:F; [|discriminate]. intros [= <-]. apply find_some in F as [Hin _].
  rewrite Forall_forall in H. exact (H _ Hin).
Qed.

(** The document of an upsert by a replacement: its [_id] is that of the new document, or
    else that which the query asks for, which must not differ, or else a new one; the
    other fields are those of the new document. *)
Theorem upsert_by_replacement (source r : fields)
  (Hsource : forall id, lookup source id_field = Some id -> value_ok id /\ copied id = true)
  (Hkeys : keys_ok r) (Hplain : plain_doc r = true) (Hvalues : Forall (fun kv => value_ok (snd kv)) r) (Hvalid : bson_validate r = true) :
  ProcessReplaceDocument source (VDocument r) true =
  res_bind (new_id source r) (fun id => res_bind (allowed_id id) (fun id => Ok ((id_field, id) :: without_id r))).
Proof.
  assert (W : forall id, copied id = true ->
    res_bind (res_bind (ValidateIdForUpdateTypeReplacement id) (fun _ => write_id id)) (fun w => replace_fields r None w) =
    res_bind (allowed_id id) (fun id => Ok ((id_field, id) :: without_id r))).
  { intros id Hc. assert (E : ValidateIdForUpdateTypeReplacement id = res_bind (allowed_id id) (fun _ => Ok tt))
      by (unfold ValidateIdForUpdateTypeReplacement, allowed_id; destruct id; try reflexivity; now destruct (ValidateIdField _) as [[]|]).
    assert (A : forall x, allowed_id id = Ok x -> x = id)
      by (unfold allowed_id; destruct id; try discriminate; destruct (ValidateIdField _); cbn; congruence).
    rewrite E. destruct (allowed_id id) as [x|]; [|reflexivity]. rewrite (A x eq_refl). cbn [res_bind]. rewrite write_id_copied by exact Hc. cbn [res_bind].
    now rewrite fields_replaced. }
  unfold ProcessReplaceDocument, upsert_id, new_id. rewrite Hvalid, find_id_lookup. cbn [negb]. change (str "_id") with id_field.
  destruct (lookup r id_field) as [id|] eqn:Lr; destruct (lookup source id_field) as [asked|] eqn:Ls; cbn [res_bind].
  - destruct (Hsource _ eq_refl) as [Ho _]. rewrite BsonValueEquals_order by (exact Ho || exact (values_lookup _ _ _ Hvalues Lr)). cbn [res_bind].
    destruct (value_order None id asked =? 0); cbn [negb]; [|reflexivity]. apply W. exact (plain_copied _ (plain_lookup _ _ _ Hplain Lr)).
  - apply W. exact (plain_copied _ (plain_lookup _ _ _ Hplain Lr)).
  - apply W. apply (Hsource _ eq_refl).
  - rewrite write_id_copied by reflexivity. cbn [res_bind]. now rewrite fields_replaced.
Qed.
End Replace.

(** ** The [_id] is kept *)

Section Keeps.
Context {BL : BidLib} {BLaws : BidLaws BL} {LB : LibBson} {LBLaws : LibBsonLaws LB} {LM : LibM} {LD : LibBsonDoc} {LDL : LibBsonDocLaws LD}
  {LN : LibBsonNew} {UV : UnionView} {EE : ExprEngine} {PS : PgSort} {PQ : PositionalQuery} {OtherArguments : Set}.
Variable handle_other : OtherArguments -> fields -> @ExpressionResult OtherArguments -> M (@ExpressionResult OtherArguments).
Variable depth : nat.

(** The document has an [_id] that the code found equal to this one. *)
Definition keeps_id (id : bson_value) (d : fields) : Prop :=
  exists id', lookup d id_field = Some id' /\ (BsonValueEquals id' id = Ok true \/ BsonValueEquals id id' = Ok true).

Lemma keeps_id_first id rest : value_ok id -> keeps_id id ((id_field, id) :: rest).
Proof.
  intros H. exists id. unfold lookup. cbn [find fst]. fold (same_key id_field id_field). rewrite same_key_refl. split; [reflexivity|].
  left. now rewrite BsonValueEquals_order, value_order_self.
Qed.

Lemma replace_fields_after r sourceId : forall w w', replace_fields r sourceId w = Ok w' -> exists rest, w' = w ++ rest.
Proof.
  induction r as [|[key v] r IH]; intros w w' H; cbn [replace_fields] in H; [injection H as <-; exists []; now rewrite app_nil_r|].
  destruct (strcmp key (str "_id") =? 0).
  - destruct (match sourceId with Some id => _ | None => _ end) as [[]|]; try discriminate. now apply IH.
  - unfold PgbsonWriterAppendValue, append in H. destruct (bson_append_value v); [|discriminate]. apply IH in H as [rest ->].
    rewrite <- app_assoc. now eexists.
Qed.

Lemma replacement_keeps source spec id d : lookup source id_field = Some id -> copied id = true -> value_ok id ->
  ProcessReplaceDocument source spec false = Ok d -> keeps_id id d.
Proof.
  intros Hid Hc Ho. unfold ProcessReplaceDocument. destruct spec; try discriminate. destruct (bson_validate _); [|discriminate]. cbn [negb].
  rewrite find_id_lookup, Hid, write_id_copied by exact Hc. cbn [res_bind]. intros [rest ->]%replace_fields_after. now apply keeps_id_first.
Qed.

Lemma type_of_copied id : copied id = true -> type_eqb (value_type id) BSON_TYPE_EOD = false.
Proof. now destruct id. Qed.

Lemma operators_keep source tree id d : lookup source id_field = Some id -> copied id = true ->
  ProcessUpdateOperatorWithState source tree false = Ok (Some d) -> keeps_id id d.
Proof.
  intros Hid Hc. unfold ProcessUpdateOperatorWithState. destruct tree as [tree children].
  rewrite id_at_path. unfold value_in. rewrite Hid. cbv zeta.
  destruct (HandleUpdateDocumentId _ _ _) as [[w updated]|]; [|discriminate]. cbn [res_bind].
  destruct (TraverseDocumentAndApplyUpdate _ _ _ _ _ _ _ _) as [[[final x] modified]|]; [|discriminate]. cbn [res_bind documentId].
  destruct (negb _ && _); [discriminate|]. rewrite id_at_path, (type_of_copied id Hc). unfold value_in.
  destruct (lookup final id_field) as [id'|] eqn:L; [|discriminate].
  destruct (type_eqb (value_type id') BSON_TYPE_EOD); [discriminate|]. destruct (BsonValueEquals id' id) as [[]|] eqn:E; try discriminate. cbn [res_bind negb].
  destruct (bson_validate final); [|discriminate]. cbn [negb]. destruct (ValidateIdField id'); [|discriminate]. intros [= <-].
  exists id'. auto.
Qed.

Lemma pipeline_keeps source stages id d t t' : lookup source id_field = Some id ->
  ProcessAggregationPipelineUpdate (OtherArguments := OtherArguments) handle_other depth source stages false t = Ok (d, t') -> keeps_id id d.
Proof.
  intros Hid. unfold ProcessAggregationPipelineUpdate. rewrite find_id_lookup, Hid. unfold bind, lift, validated.
  destruct (run_stages _ _ stages source t) as [[final t1]|]; [|discriminate]. rewrite find_id_lookup.
  destruct (lookup final id_field) as [id'|] eqn:L; [|discriminate]. destruct (BsonValueEquals id id') as [[]|] eqn:E; try discriminate. cbn [negb].
  destruct (ValidateIdField id'); [|discriminate]. destruct (bson_validate final); [|discriminate]. intros [= <- _]. exists id'. auto.
Qed.

(** C10: An update that is no upsert, by operators, a replacement or a pipeline, gives a
    document whose [_id] is equal to that of the document that is updated, and whose
    size is within the limit. *)
Theorem update_keeps_id (source : fields) (updateSpec : bson_value) (metadata : BsonUpdateMetadata (OtherArguments := OtherArguments)) (id : bson_value) d' t t'
  (Hid : lookup source id_field = Some id) (Hcopied : copied id = true) (Hok : value_ok id)
  (Hupdate : BsonUpdateDocumentCore handle_other depth source updateSpec metadata t = Ok (Some d', t')) :
  keeps_id id d' /\ doc_size d' <= BSON_MAX_ALLOWED_SIZE.
Proof.
  destruct source as [|kv source]; [discriminate|]. unfold BsonUpdateDocumentCore, bind in Hupdate. cbn [ret] in Hupdate.
  assert (K : forall o t1, update_document handle_other depth (kv :: source) updateSpec (updateState metadata) false t = Ok (o, t1) ->
    forall d, o = Some d -> keeps_id id d).
  { intros o t1 H d ->. unfold update_document, bind, lift in H. cbn [negb] in H. destruct (updateState metadata) as [|tree|stages].
    - destruct (ProcessReplaceDocument _ updateSpec false) as [x|] eqn:E; [|discriminate]. rewrite andb_true_r in H. cbn in H.
      destruct (same_document _ x); [discriminate|]. injection H as -> _. now apply replacement_keeps with (4 := E).
    - destruct (ProcessUpdateOperatorWithState _ tree false) as [x|] eqn:E; [|discriminate]. injection H as -> _. now apply operators_keep with (3 := E).
    - destruct (ProcessAggregationPipelineUpdate _ _ _ stages false t) as [[x t2]|] eqn:E; [|discriminate]. rewrite andb_true_r in H. cbn in H.
      destruct (same_document _ x); [discriminate|]. injection H as -> _. now apply pipeline_keeps with (2 := E). }
  destruct (update_document _ _ _ _ _ _ t) as [[[d|] t1]|] eqn:E; try discriminate. specialize (K _ _ eq_refl d eq_refl).
  destruct (doc_size d >? BSON_MAX_ALLOWED_SIZE) eqn:S; [discriminate|]. injection Hupdate as <- _. split; [exact K|]. rewrite Z.gtb_ltb in S. lia.
Qed.
End Keeps.
