(* ===== verification/UpdatePipeline.v ===== *)
(** * Updates by a pipeline: the stages run in order

    A pipeline that was read applies to a document the meaning of its stages, each to the
    document that the one before it gives, and then checks the [_id]. *)

From Stdlib Require Import ZArith Lia Bool String List.
From Stdlib Require Import Strings.Byte.
From S2P Require Import Prelude SoftFloat BsonTypes StringView Decimal128 BsonCompare BsonOrder BsonRefine BsonArith Traversal PgbsonElement BsonWire BsonWriter DollarSets.
From S2P Require Import SortUtils ExprEval UpdateOperators UpdateTree UpdateWorkflow UpdatePaths.
From S2P Require Import AggData AggOperators AggEval AggParse AggGet AggMeaning AggOutcome AggTrees AggSound AggRows.
From S2P Require Import ProjTree Project ProjMeaning ProjPlans ProjApply ProjPlain ProjBuild ProjSound ProjectStages QueryValues UpdateDocument UpdateDocSound.
Import ListNotations.
Local Open Scope Z_scope.

Section Pipeline.
Context {BL : BidLib} {LB : LibBson} {LM : LibM} {LD : LibBsonDoc} {LDL : LibBsonDocLaws LD} {LN : LibBsonNew} {OtherArguments : Set}.
Variable EnableCollation : bool.
Variable EnableNowSystemVariable : bool.
Variable null_string : bson_value.
Variable handle_other : OtherArguments -> fields -> @ExpressionResult OtherArguments -> M (@ExpressionResult OtherArguments).
Variable parse_other : bytes -> bson_value -> ParseContext -> M (bson_value + OtherArguments).
Local Open Scope res_scope.

Abbreviation value_of := (expression_value EnableCollation EnableNowSystemVariable None None).

(** ** The meaning of a stage *)

(** The new root, behind the [_id] of the document; an [_id] of its own must be the same. *)
Definition replace_root_meaning (d : fields) (v : bson_value) : res fields :=
  let* value := value_of d v in
  match value with
  | VDocument newRoot =>
    match lookup d id_field, lookup newRoot id_field with
    | Some id, Some own =>
      let* same := BsonValueEqualsStrict (Some id) (Some own) in
      if same then Ok ((id_field, id) :: newRoot) else Err ERRCODE_INVALID_TEXT_REPRESENTATION
    | Some id, None => Ok ((id_field, id) :: newRoot)
    | None, _ => Ok newRoot
    end
  | _ => Err ERRCODE_DOCUMENTDB_LOCATION40228
  end.

Definition stage_meaning (stage : bytes * bson_value) (d : fields) : res fields :=
  let '(name, argument) := stage in
  let spec := match argument with VDocument spec => spec | _ => [] end in
  if is_key name "$project" then
    project (value_of d) (keeps_others (spec_plan false spec)) false d (with_id true (spec_plan false spec))
  else if is_key name "$unset" then project (value_of d) true false d (with_id true (unset_plan argument))
  else if is_key name "$addFields" || is_key name "$set" then project (value_of d) true false d (spec_plan true spec)
  else if is_key name "$replaceRoot" then
    let* v := GetBsonValueForReplaceRoot spec in replace_root_meaning d v
  else replace_root_meaning d argument.

(** The expressions are among the supported ones. *)
Definition stage_supported (stage : bytes * bson_value) : bool :=
  let '(name, argument) := stage in
  let spec := match argument with VDocument spec => spec | _ => [] end in
  if is_key name "$project" then spec_ok (supported false) spec
  else if is_key name "$unset" then forallb no_nulb (unset_strings argument)
  else if is_key name "$addFields" || is_key name "$set" then spec_ok (supported false) spec
  else if is_key name "$replaceRoot" then match GetBsonValueForReplaceRoot spec with Ok v => supported false v | Err _ => true end
  else supported false argument.

Fixpoint pipeline_meaning (stages : list (bytes * bson_value)) (d : fields) : res fields :=
  match stages with
  | [] => Ok d
  | stage :: stages => let* d := stage_meaning stage d in pipeline_meaning stages d
  end.

(** The stages of an array of documents with one field each. *)
Definition stages_of (array : fields) : list (bytes * bson_value) :=
  flat_map (fun kv => match snd kv with VDocument d => d | _ => [] end) array.

(** ** The stages that were read *)

Abbreviation Stage := (UpdateAggregationStageData (OtherArguments := OtherArguments)).

Definition run_stage (k : nat) (stage : Stage) (document : fields) : M fields :=
  match stage with
  | ProjectionStage state => HandleUpdateProjectionState handle_other k document state
  | ReplaceRootStage data => HandleUpdateReplaceRoot handle_other k document data
  end.

Lemma no_variables : spec_supported EnableNowSystemVariable false None = true.
Proof. now destruct EnableNowSystemVariable. Qed.

Lemma no_collation_used collation : (if IsCollationApplicable EnableCollation collation then None else None) = @None bytes.
Proof. now destruct (IsCollationApplicable _ _). Qed.

(** The expression of the new root writes its value. *)
Lemma root_expression depth v t data t' d :
  ParseAggregationExpressionData EnableCollation null_string handle_other parse_other depth v empty_context t = Ok (data, t') ->
  supported false v = true -> plain_doc d = true ->
  good_res (value_of d v) /\ eventually (fun k => data_writes false (evaluator handle_other k) d [] (value_of d) data v).
Proof.
  intros E Hs Hd.
  assert (Hc : context_ok (spec_now EnableNowSystemVariable None) None empty_context) by (split; [now left|reflexivity]).
  assert (Hnow : good (spec_now EnableNowSystemVariable None) = true) by now destruct EnableNowSystemVariable.
  pose proof (parser_sound EnableCollation null_string handle_other parse_other false d Hd _ Hnow None (no_collation_used None)
    depth v _ t data t' E Hc Hs (S (vdepth v)) ltac:(lia)) as [G _].
  assert (He := variables_set EnableCollation EnableNowSystemVariable null_string handle_other parse_other false depth None t [] t d eq_refl no_variables Hd).
  destruct (G [] _ false He) as (Gg & _ & W). unfold data_writes, expression_value, used_collation. rewrite no_collation_used. now split.
Qed.

Lemma replace_root_plain d v fs : good_res (value_of d v) -> plain_doc d = true -> replace_root_meaning d v = Ok fs -> plain_doc fs = true.
Proof.
  unfold replace_root_meaning. intros Gg Hd. destruct (value_of d v) as [u|]; [|discriminate]. cbn [res_bind].
  destruct u as [| | |newRoot| | | | | | | | | | | | | | | | | |]; try discriminate. change (plain_doc newRoot = true) in Gg.
  destruct (lookup d id_field) as [id|] eqn:L; [|now intros [= <-]]. assert (Hid := plain_lookup _ _ _ Hd L).
  assert (P : plain_doc ((id_field, id) :: newRoot) = true) by (cbn [plain_doc forallb snd]; rewrite Hid; exact Gg).
  destruct (lookup newRoot id_field) as [own|]; [|now intros [= <-]].
  destruct (BsonValueEqualsStrict _ _) as [[]|]; try discriminate. now intros [= <-].
Qed.

Lemma replace_root_outcome k data v d t : plain_doc d = true -> data_writes false (evaluator handle_other k) d [] (value_of d) data v ->
  outcome false (run_stage k (ReplaceRootStage data) d t) (replace_root_meaning d v) (fun fs w => w = fs).
Proof.
  intros Hd W. specialize (W [] PgbsonWriterInit). unfold run_stage, HandleUpdateReplaceRoot, ProjectReplaceRootDocument, replace_root_meaning.
  change (bson_iter_find_descendant d (str "_id")) with (UpdateDocument.find_id d). rewrite find_id_lookup. change (str "_id") with id_field.
  assert (First : (if missing_value (match lookup d id_field with Some id => id | None => VEod end) then ret PgbsonWriterInit
    else lift (PgbsonWriterAppendValue PgbsonWriterInit id_field (match lookup d id_field with Some id => id | None => VEod end))) t =
    Ok (match lookup d id_field with Some id => [(id_field, id)] | None => [] end, t) /\
    missing_value (match lookup d id_field with Some id => id | None => VEod end) = match lookup d id_field with Some _ => false | None => true end).
  { destruct (lookup d id_field) as [id|] eqn:L; [|now split]. assert (Hid := plain_lookup _ _ _ Hd L).
    assert (M : missing_value id = false) by (apply plain_not_missing in Hid; now destruct id). rewrite M. split; [|reflexivity].
    unfold lift. now rewrite append_copy by now apply plain_copied. }
  destruct First as [First M]. unfold bind at 1. rewrite First, M. unfold bind at 1. specialize (W t). unfold outcome in W |- *.
  destruct (evaluate_to_writer _ data d [] PgbsonWriterInit [] false t) as [[w t3]|e]; [|destruct W as [[W _]| ->]; [discriminate|now right]].
  destruct W as (u & -> & ->). cbn [res_bind]. unfold written. destruct u as [| | |newRoot| | | | | | | | | | | | | | | | | |]; try (cbn; now right).
  cbn [missing PgbsonWriterInit app andb]. unfold bind, lift. destruct (lookup d id_field) as [id|]; destruct (lookup newRoot id_field) as [own|]; cbn [negb];
    try (cbn; now eexists).
  destruct (BsonValueEqualsStrict (Some id) (Some own)) as [[]|]; cbn; [now eexists|now right|now right].
Qed.

Lemma replace_root_sound depth v t data t' :
  ParseAggregationExpressionData EnableCollation null_string handle_other parse_other depth v empty_context t = Ok (data, t') ->
  supported false v = true -> forall d, plain_doc d = true ->
  eventually (fun k => forall t, outcome false (run_stage k (ReplaceRootStage data) d t) (replace_root_meaning d v) (fun fs w => w = fs)) /\
  forall fs, replace_root_meaning d v = Ok fs -> plain_doc fs = true.
Proof.
  intros E Hs d Hd. destruct (root_expression depth v t data t' d E Hs Hd) as [Gg W]. split; [|intros fs; now apply replace_root_plain].
  revert W. apply eventually_mono. intros k W t2. now apply replace_root_outcome.
Qed.

(** *** Reading the stages *)

Abbreviation populate := (populate_stage EnableCollation EnableNowSystemVariable null_string handle_other parse_other).

(** A stage that was read, and what it makes of a document. *)
Definition applies (data : Stage) (means : fields -> res fields) : Prop :=
  forall d, plain_doc d = true ->
  eventually (fun k => forall t, outcome false (run_stage k data d t) (means d) (fun fs w => w = fs)) /\
  forall fs, means d = Ok fs -> plain_doc fs = true.

Lemma project_populated depth spec t data t' :
  PopulateDollarProjectState EnableCollation EnableNowSystemVariable null_string handle_other parse_other depth (VDocument spec) t = Ok (data, t') ->
  spec_ok (supported false) spec = true ->
  applies data (fun d => project (value_of d) (keeps_others (spec_plan false spec)) false d (with_id true (spec_plan false spec))).
Proof.
  intros H Hs d Hd. unfold PopulateDollarProjectState, bind in H.
  destruct (GetProjectionStateForBsonProject _ _ _ _ _ _ _ _ _ t) as [[state t1]|] eqn:E; [|discriminate]. injection H as <- _.
  exact (proj2 (project_state_sound EnableCollation EnableNowSystemVariable null_string handle_other parse_other false depth _ true false None None
    t state t1 d E Hs no_variables Hd)).
Qed.

Lemma unset_populated argument t data t' : PopulateDollarUnsetState (OtherArguments := OtherArguments) argument t = Ok (data, t') ->
  forallb no_nulb (unset_strings argument) = true -> applies data (fun d => project (value_of d) true false d (with_id true (unset_plan argument))).
Proof.
  intros H Hs d Hd. unfold PopulateDollarUnsetState, bind in H.
  destruct (GetProjectionStateForBsonUnset argument true t) as [[state t1]|] eqn:E; [|discriminate]. injection H as <- _.
  exact (unset_state_sound handle_other false (value_of d) argument true t state t1 d E Hs Hd).
Qed.

Lemma add_fields_populated depth spec t data t' :
  PopulateDollarAddFieldsState EnableCollation EnableNowSystemVariable null_string handle_other parse_other depth (VDocument spec) t = Ok (data, t') ->
  spec_ok (supported false) spec = true -> applies data (fun d => project (value_of d) true false d (spec_plan true spec)).
Proof.
  intros H Hs d Hd. unfold PopulateDollarAddFieldsState, bind in H.
  destruct (GetProjectionStateForBsonAddFields _ _ _ _ _ _ _ t) as [[state t1]|] eqn:E; [|discriminate]. injection H as <- _.
  exact (add_fields_state_sound EnableCollation EnableNowSystemVariable null_string handle_other parse_other false depth _ None None t state t1 d E Hs
    no_variables Hd).
Qed.

Lemma replace_with_populated depth v t data t' :
  PopulateDollarReplaceWithState EnableCollation null_string handle_other parse_other depth v t = Ok (data, t') ->
  supported false v = true -> applies data (fun d => replace_root_meaning d v).
Proof.
  intros H Hs. unfold PopulateDollarReplaceWithState, bind, lift in H. destruct (ValidateReplaceRootElement v); [|discriminate].
  destruct (ParseAggregationExpressionData _ _ _ _ depth v empty_context t) as [[x t1]|] eqn:E; [|discriminate]. injection H as <- _.
  exact (replace_root_sound depth v t x t1 E Hs).
Qed.

Lemma stage_populated depth name argument t data t' : populate depth (VDocument [(name, argument)]) t = Ok (data, t') ->
  stage_supported (name, argument) = true -> applies data (stage_meaning (name, argument)).
Proof.
  intros H Hs. unfold populate_stage, TryGetSinglePgbsonElementFromBsonIterator, AggregationOperators in H. cbn [find fst] in H.
  unfold stage_supported in Hs. unfold stage_meaning.
  destruct (is_key name "$project"); [destruct argument; try discriminate; exact (project_populated depth _ t data t' H Hs)|].
  destruct (is_key name "$unset"); [exact (unset_populated argument t data t' H Hs)|].
  destruct (is_key name "$addFields"); [destruct argument; try discriminate; exact (add_fields_populated depth _ t data t' H Hs)|]. cbn [orb] in *.
  destruct (is_key name "$set"); [destruct argument; try discriminate; exact (add_fields_populated depth _ t data t' H Hs)|].
  destruct (is_key name "$replaceRoot").
  - destruct argument; try discriminate. unfold PopulateDollarReplaceRootState, bind, lift in H.
    destruct (GetBsonValueForReplaceRoot d) as [v|]; [|discriminate]. exact (replace_with_populated depth v t data t' H Hs).
  - destruct (is_key name "$replaceWith"); [|discriminate]. exact (replace_with_populated depth argument t data t' H Hs).
Qed.

Lemma stages_populated depth array : forall t data t',
  populate_stages EnableCollation EnableNowSystemVariable null_string handle_other parse_other depth array t = Ok (data, t') ->
  forallb stage_supported (stages_of array) = true -> Forall2 (fun x stage => applies x (stage_meaning stage)) data (stages_of array).
Proof.
  induction array as [|[k stage] array IH]; intros t data t' H Hs; cbn [populate_stages] in H; [injection H as <- _; constructor|].
  unfold bind in H. destruct (populate depth stage t) as [[x t1]|] eqn:E; [|discriminate].
  destruct (populate_stages _ _ _ _ _ depth array t1) as [[rest t2]|] eqn:Er; [|discriminate]. injection H as <- _.
  assert (S : exists name argument, stage = VDocument [(name, argument)])
    by (destruct stage as [| | |[|[name argument] []]| | | | | | | | | | | | | | | | | |]; try discriminate; eauto).
  destruct S as (name & argument & ->). unfold stages_of in *. cbn [flat_map snd app forallb] in *. apply andb_true_iff in Hs as [H1 H2].
  constructor; [now apply (stage_populated depth name argument t x t1)|now apply (IH t1 rest t2)].
Qed.

(** *** Running the stages *)

Lemma stages_run data stages : Forall2 (fun x stage => applies x (stage_meaning stage)) data stages -> forall d, plain_doc d = true ->
  eventually (fun k => forall t, outcome false (run_stages handle_other k data d t) (pipeline_meaning stages d) (fun fs w => w = fs)).
Proof.
  induction 1 as [|x stage data stages Hx _ IH]; intros d Hd.
  - apply eventually_true. intros k t. now exists d.
  - destruct (Hx d Hd) as [O P]. cbn [pipeline_meaning]. destruct (stage_meaning stage d) as [d1|e].
    + generalize (eventually_and _ _ O (IH d1 (P d1 eq_refl))). apply eventually_mono. intros k [O1 O2] t. cbn [run_stages].
      fold (run_stage k x d). unfold bind. specialize (O1 t). unfold outcome in O1.
      destruct (run_stage k x d t) as [[a t1]|e]; [|destruct O1 as [[O1 _]|O1]; discriminate]. destruct O1 as (v & [= <-] & ->). apply O2.
    + revert O. apply eventually_mono. intros k O t. cbn [run_stages]. fold (run_stage k x d). unfold bind. specialize (O t). unfold outcome in O |- *.
      destruct (run_stage k x d t) as [[a t1]|e']; [destruct O as (v & O & _); discriminate|exact O].
Qed.

(** The document at the end: an upsert gets an [_id] as its first field, and another update
    must have kept it. *)
Definition finished (isUpsert : bool) (id : option bson_value) (final : fields) : res fields :=
  let* final :=
    if isUpsert then RewriteDocumentAddObjectId final
    else match id, lookup final id_field with
         | Some id, Some id' =>
           let* same := BsonValueEquals id id' in
           if same then let* _ := ValidateIdField id' in Ok final else Err ERRCODE_DOCUMENTDB_IMMUTABLEFIELD
         | _, _ => Err ERRCODE_DOCUMENTDB_IMMUTABLEFIELD
         end in
  if bson_validate final then Ok final else Err ERRCODE_DOCUMENTDB_BADVALUE.

(** C11: An update by a pipeline whose stages were read, on a document with values that
    libbson copies and with an [_id] unless it is an upsert, gives with enough stack the
    meaning of its stages in order, each applied to the document that the one before it
    gives; an error of a stage is the error of the update, the final document must have kept
    the [_id], and an upsert gets one as its first field. In the stages the expressions are
    in the supported fragment: literals, field paths and variables (without NUL bytes,
    [$$NOW] without a path), arrays, documents with distinct keys that are not empty and
    have no dot, NUL or leading dollar, and the modelled operators ([$literal], boolean,
    comparison, conditional, arithmetic and [$let]), where a [$let] binds at most one
    variable, does not rebind [CURRENT] and has no constant to be computed as its [in], a
    [$add] of constants only adds numbers, and the constants and the documents the
    expressions are applied to hold only values that libbson copies as they are (no code,
    regular expression, database pointer or code with scope); nested specifications are not
    empty and names have no NUL byte. *)
Theorem pipeline_update_meaning depth (array : fields) t data t' (source : fields) (isUpsert : bool)
  (Hstages : GetAggregationPipelineUpdateState EnableCollation EnableNowSystemVariable null_string handle_other parse_other depth
     (VArray array) t = Ok (data, t'))
  (Hsupported : forallb stage_supported (stages_of array) = true) (Hplain : plain_doc source = true)
  (Hid : isUpsert = true \/ lookup source id_field <> None) :
  exists n, forall k t2, (n <= k)%nat ->
  result_of (ProcessAggregationPipelineUpdate handle_other k source data isUpsert t2) =
  res_bind (pipeline_meaning (stages_of array) source) (finished isUpsert (lookup source id_field)).
Proof.
  destruct (stages_run data (stages_of array) (stages_populated depth array t data t' Hstages Hsupported) source Hplain) as [n Hn]. exists n.
  intros k t2 Hk. specialize (Hn k Hk t2). unfold outcome in Hn. unfold ProcessAggregationPipelineUpdate, finished, bind, lift, validated.
  destruct isUpsert.
  - destruct (run_stages handle_other k data source t2) as [[final t3]|e]; [|destruct Hn as [[Hn _]| ->]; [discriminate|reflexivity]].
    destruct Hn as (fs & -> & ->). cbn [res_bind]. destruct (RewriteDocumentAddObjectId fs) as [d|]; [|reflexivity]. cbn [res_bind].
    now destruct (bson_validate d).
  - destruct Hid as [Hid|Hid]; [discriminate|]. rewrite find_id_lookup. destruct (lookup source id_field) as [id|]; [|easy].
    destruct (run_stages handle_other k data source t2) as [[final t3]|e]; [|destruct Hn as [[Hn _]| ->]; [discriminate|reflexivity]].
    destruct Hn as (fs & -> & ->). cbn [res_bind]. rewrite find_id_lookup. destruct (lookup fs id_field) as [id'|]; [|reflexivity].
    destruct (BsonValueEquals id id') as [[]|]; try reflexivity. cbn [negb res_bind]. destruct (ValidateIdField id'); [|reflexivity]. cbn [res_bind].
    now destruct (bson_validate fs).
Qed.
End Pipeline.
