(* ===== verification/UpsertQuery.v ===== *)
(** * The document of an upsert

    The document that an upsert starts from has every value that the query asks for at
    its path; it can be made when no path of the query leads to another one. *)

From Stdlib Require Import ZArith Lia Bool String List.
From Stdlib Require Import Strings.Byte.
From S2P Require Import Prelude SoftFloat BsonTypes StringView Decimal128 BsonCompare BsonArith Traversal PgbsonElement BsonWriter DollarSets.
From S2P Require Import AggData AggOperators AggEval AggParse AggGet AggMeaning AggOutcome AggRows.
From S2P Require Import ProjTree Project ProjMeaning ProjPlans ProjApply ProjBuild ProjSound ProjLens Unwind UnwindSound QueryValues QuerySound QueryAsks UpdateDocument.
Import ListNotations.
Local Open Scope Z_scope.

Section Entries.
Context {E : Type}.
Implicit Types (p : plan E).

Definition fits_plan (segments : list bytes) p : bool := forallb (fun entry => apart segments (fst entry)) p.

Lemma fits_below s segments p : proper p -> fits_plan (s :: segments) p = fits_plan segments (below s p).
Proof.
  unfold fits_plan, below. induction 1 as [|[path a] p Hp _ IH]; [reflexivity|]. cbn [forallb flat_map fst] in *. rewrite IH, forallb_app. f_equal.
  destruct path as [|s' path]; [easy|]. unfold below_entry. cbn [fst snd apart]. destruct (key_eqb s s') eqn:K.
  - apply key_eqb_eq in K as ->. rewrite key_eqb_refl. cbn. now rewrite andb_true_r.
  - replace (key_eqb s' s) with false; [reflexivity|]. symmetry. apply key_eqb_neq. apply key_eqb_neq in K. congruence.
Qed.

Lemma fits_nil p : fits_plan [] p = match p with [] => true | _ => false end.
Proof. now destruct p as [|[[] a] p]. Qed.
End Entries.

Section Created.
Context {BL : BidLib} {LB : LibBson} {LM : LibM} {LD : LibBsonDoc} {Laws : LibBsonDocLaws LD} {OtherArguments : Set} {E : Type}.
Variable writes : @AggregationExpressionData OtherArguments -> E -> Prop.
Variable writes_array : list (@AggregationExpressionData OtherArguments) -> E -> Prop.
Abbreviation Node := (@ProjectionNode OtherArguments).
Abbreviation rep_tree := (tree_represents writes writes_array).

Lemma get_or_add_result {B} field (tree : list Node) (f : option Node -> M (Node * B)) b t :
  (exists node, f (find (fun child => same_name (field_of child) field) tree) t = Ok ((node, b), t)) ->
  exists tree', GetOrAddChildNode field tree f t = Ok ((tree', b), t).
Proof.
  induction tree as [|child tree IH]; cbn [GetOrAddChildNode find]; intros [node Hf].
  - unfold bind. rewrite Hf. eexists. reflexivity.
  - destruct (same_name (field_of child) field).
    + unfold bind. rewrite Hf. eexists. reflexivity.
    + destruct IH as [tree' Hg]; [now exists node|]. unfold bind. rewrite Hg. eexists. reflexivity.
Qed.

Variable v : bson_value.

Definition add_constant (field : bytes) (existing : option Node) : M (Node * bool) :=
  match existing with
  | Some node => ret (node, false)
  | None => ret (LeafField field (ConstantExpr v), true)
  end.

Lemma no_child field (tree : list Node) (p : plan E) : plan_ok p -> rep_tree tree p ->
  find (fun child => same_name (field_of child) field) tree = None -> below field p = [].
Proof.
  intros Hp [Hh _] F. apply heads_not_in. rewrite Hh. intros Hin. assert (Hn := plan_ok_heads p Hp). rewrite Hh, Forall_forall in Hn.
  apply in_map_iff in Hin as (node & <- & Hin). specialize (Hn _ (in_map field_of _ _ Hin)).
  pose proof (find_none _ _ F node Hin) as N. cbn beta in N. rewrite same_name_key, key_eqb_refl in N by exact Hn. discriminate.
Qed.

Lemma represented_not_nil node (q : plan E) : represents writes writes_array node q -> q <> [].
Proof.
  intros H ->. destruct node; cbn [represents] in H; try discriminate; [destruct H as (e & H & _); discriminate..|].
  destruct H as (_ & H & _). now apply H.
Qed.

(** The leaf is created when the path fits, and something is found on the way if not. *)
Lemma path_created segments : forall (tree : list Node) (p : plan E) t, segments <> [] -> plan_ok p -> proper p -> rep_tree tree p ->
  exists tree', TraverseDottedPathAndGetNode segments tree true (fun _ => true) (fun _ => ret false) add_constant t =
    Ok ((tree', fits_plan segments p), t).
Proof.
  induction segments as [|s segments IH]; intros tree p t Hne Hp Hpr Hr; [easy|]. rewrite fits_below by exact Hpr.
  assert (Hpb := plan_ok_below s p Hp). destruct segments as [|s' segments].
  - cbn [TraverseDottedPathAndGetNode]. apply get_or_add_result. rewrite fits_nil.
    destruct (find _ tree) as [node|] eqn:F; cbn [add_constant].
    + destruct (child_represents writes writes_array s tree p node Hp Hr F) as [_ Hrep]. apply represented_not_nil in Hrep.
      destruct (below s p); [easy|]. eexists. reflexivity.
    + rewrite (no_child s tree p Hp Hr F). eexists. reflexivity.
  - change (TraverseDottedPathAndGetNode (s :: s' :: segments) tree true (fun _ => true) (fun _ => ret false) add_constant) with
      (GetOrAddChildNode s tree (fun existing =>
        match existing with
        | Some (Intermediate _ flag children) =>
          bind (TraverseDottedPathAndGetNode (s' :: segments) children true (fun _ => true) (fun _ => ret false) add_constant) (fun '(children, b) =>
          ret (Intermediate s (flag || true || true) children, b))
        | Some leaf => bind (ret false) (fun b => ret (leaf, b))
        | None =>
          bind (TraverseDottedPathAndGetNode (s' :: segments) [] true (fun _ => true) (fun _ => ret false) add_constant) (fun '(children, b) =>
          ret (Intermediate s (true || true) children, b))
        end)).
    apply get_or_add_result. destruct (find _ tree) as [node|] eqn:F.
    + destruct (child_represents writes writes_array s tree p node Hp Hr F) as [_ Hrep].
      assert (Blocked : leaf (below s p) <> None -> fits_plan (s' :: segments) (below s p) = false).
      { intros L. apply not_true_iff_false. intros Hf. apply L, proper_leaf, (entries_apart_proper _ (s' :: segments)). apply Forall_forall.
        unfold fits_plan in Hf. rewrite forallb_forall in Hf. exact Hf. }
      destruct node as [f|f|f d|f d|f flag children]; cbn [represents] in Hrep;
        try (rewrite Blocked by congruence; eexists; reflexivity);
        try (destruct Hrep as (e & He & _); rewrite Blocked by congruence; eexists; reflexivity).
      change (represents writes writes_array (Intermediate f flag children) (below s p)) in Hrep.
      apply represents_intermediate in Hrep as (Hl & _ & _ & Hrep).
      destruct (IH children _ t ltac:(discriminate) Hpb (leaf_proper _ Hl) Hrep) as (children' & Hc).
      unfold bind. rewrite Hc. eexists. reflexivity.
    + destruct (IH [] [] t ltac:(discriminate) ltac:(constructor) ltac:(constructor) (tree_represents_nil _ _)) as (children' & Hc).
      rewrite (no_child s tree p Hp Hr F). unfold bind. rewrite Hc. eexists. reflexivity.
Qed.

Lemma field_created path e (tree : list Node) (p : plan E) t : no_nul path -> plan_ok p -> proper p -> rep_tree tree p ->
  writes (ConstantExpr v) e ->
  exists tree', TraverseDottedPathAndGetOrAddField path v tree t = Ok ((tree', fits_plan (path_segments path) p), t) /\
  (fits_plan (path_segments path) p = true ->
   rep_tree tree' (p ++ [(path_segments path, Put e)]) /\ plan_ok (p ++ [(path_segments path, Put e)]) /\ proper (p ++ [(path_segments path, Put e)])).
Proof.
  intros Hn Hp Hpr Hr Hw. destruct (segments_cons path) as (s & rest & Es).
  destruct (path_created (path_segments path) tree p t ltac:(rewrite Es; discriminate) Hp Hpr Hr) as [tree' Ht]. exists tree'. split; [exact Ht|].
  intros Hf. rewrite Hf in Ht. split; [|split].
  - set (ext := [([] : list bytes, Put e)]).
    replace [(path_segments path, Put e)] with (prefixed (path_segments path) ext)
      by (unfold ext, prefixed; cbn [map fst snd app]; now rewrite app_nil_r).
    refine (proj1 (add_path_when writes writes_array ext true (fun _ : bool => true) (fun _ => ret false) add_constant (fun b => b = true) (fun _ => True)
      ltac:(discriminate) _ _ (path_segments path) tree t tree' true t p Ht eq_refl Hp Hr)).
    + intros field t1 b t2 [= <- _]. discriminate.
    + intros field existing node b t1 t2 q El -> Hq Hs. destruct existing as [x|]; [discriminate|]. injection El as <- _. cbn [state_of] in Hs. subst q.
      split; [reflexivity|]. split; [|now split]. exists e. split; [reflexivity|exact Hw].
  - apply plan_ok_app. split; [exact Hp|]. constructor; [|constructor]. now apply segments_no_nul.
  - apply Forall_app. split; [exact Hpr|]. repeat constructor. cbn [fst]. rewrite Es. discriminate.
Qed.
End Created.

(** ** The values of a query *)

Definition query_values (events : list query_event) : list (bytes * bson_value) :=
  flat_map (fun e => match e with QueryValue path v => [(path, v)] | QueryFilter => [] end) events.

Definition values_plan (values : list (bytes * bson_value)) : plan bson_value :=
  map (fun kv => (path_segments (fst kv), Put (snd kv))) values.

(** No path leads to another one. *)
Fixpoint pairwise_apart (paths : list (list bytes)) : bool :=
  match paths with
  | [] => true
  | path :: paths => forallb (apart path) paths && pairwise_apart paths
  end.

Definition paths_of (values : list (bytes * bson_value)) : list (list bytes) := map (fun kv => path_segments (fst kv)) values.

Lemma fits_more {E} (p : plan E) path a paths :
  forallb (fun q => fits_plan q (p ++ [(path, a)])) paths = forallb (fun q => fits_plan q p) paths && forallb (apart path) paths.
Proof.
  induction paths as [|q paths IH]; [reflexivity|]. cbn [forallb]. rewrite IH. unfold fits_plan at 1. rewrite forallb_app. cbn [forallb fst].
  fold (fits_plan q p). rewrite (apart_sym q), andb_true_r.
  destruct (fits_plan q p), (apart path q), (forallb (fun q => fits_plan q p) paths); reflexivity.
Qed.

(** Each value of the plan is set. *)
Lemma values_set values before path v after : values = before ++ (path, v) :: after -> pairwise_apart (paths_of values) = true ->
  sets (values_plan values) (path_segments path) v.
Proof.
  intros ->. unfold paths_of, values_plan. rewrite !map_app. cbn [map fst snd]. intros H.
  assert (G : (forall q, In q (map (fun kv : bytes * bson_value => path_segments (fst kv)) before) -> apart q (path_segments path) = true) /\
    (forall q, In q (map (fun kv : bytes * bson_value => path_segments (fst kv)) after) -> apart (path_segments path) q = true)).
  { revert H. generalize (map (fun kv : bytes * bson_value => path_segments (fst kv)) before).
    generalize (map (fun kv : bytes * bson_value => path_segments (fst kv)) after). clear. intros after before H.
    induction before as [|x before IH]; cbn [app pairwise_apart] in H; apply andb_true_iff in H as [H1 H2].
    - rewrite forallb_forall in H1. now split.
    - destruct (IH H2) as [B A]. split; [|exact A]. intros q [<-|Hq]; [|now apply B]. rewrite forallb_forall in H1. apply H1, in_or_app. right. now left. }
  destruct G as [B A]. change (?x :: map ?f after) with ([x] ++ map f after). rewrite app_assoc.
  assert (S : sets (map (fun kv => (path_segments (fst kv), Put (snd kv))) before ++ [(path_segments path, Put v)]) (path_segments path) v).
  { apply sets_last. apply Forall_forall. intros entry Hin. apply in_map_iff in Hin as (kv & <- & Hin). cbn [fst]. rewrite apart_sym. apply B.
    now apply (in_map (fun kv => path_segments (fst kv))). }
  clear B H. revert S. generalize (map (fun kv : bytes * bson_value => (path_segments (fst kv), Put (snd kv))) before ++ [(path_segments path, Put v)]).
  induction after as [|kv after IH]; intros p S; cbn [map]; [now rewrite app_nil_r|].
  change (?x :: map ?f after) with ([x] ++ map f after). rewrite app_assoc. apply IH; [intros q Hq; apply A; now right|].
  apply sets_more; [exact S|]. apply A. now left.
Qed.

Section Upsert.
Context {BL : BidLib} {LB : LibBson} {LM : LibM} {LD : LibBsonDoc} {Laws : LibBsonDocLaws LD} {OtherArguments : Set}.
Variable handle_other : OtherArguments -> fields -> @ExpressionResult OtherArguments -> M (@ExpressionResult OtherArguments).
Variable depth : nat.
Abbreviation self := (evaluator handle_other (S depth)).
Abbreviation constant := (@Ok bson_value).
Abbreviation writes := (data_writes false self [] [] constant).
Abbreviation writes_array := (array_writes false self [] [] constant).
Abbreviation rep_tree := (tree_represents writes writes_array).

Definition value_fits (kv : bytes * bson_value) : Prop := no_nul (fst kv) /\ plain (snd kv) = true.

(** The tree of the values. *)
Lemma values_added updateType events : is_replacement updateType = false -> Forall value_fits (query_values events) ->
  forall (tree : list (@ProjectionNode OtherArguments)) p t, plan_ok p -> proper p -> rep_tree tree p ->
  let values := query_values events in
  if forallb (fun path => fits_plan path p) (paths_of values) && pairwise_apart (paths_of values)
  then exists tree', process_events (ProcessQueryProjectionValue updateType) None events tree t = Ok (tree', t) /\
         rep_tree tree' (p ++ values_plan values) /\ plan_ok (p ++ values_plan values)
  else process_events (ProcessQueryProjectionValue updateType) None events tree t = Err ERRCODE_DOCUMENTDB_NOTSINGLEVALUEFIELD.
Proof.
  intros Hu. induction events as [|[path v|] events IH]; intros Hv tree p t Hp Hpr Hr; cbn [process_events query_values flat_map app].
  - cbn. exists tree. rewrite app_nil_r. now split.
  - fold (query_values events). unfold query_values in Hv. cbn [flat_map app] in Hv. fold (query_values events) in Hv.
    inversion_clear Hv as [|? ? [Hn Hpl] Hv']. cbn [fst snd] in *. cbn [paths_of map fst forallb pairwise_apart].
    destruct (field_created writes writes_array v path v tree p t Hn Hp Hpr Hr (constant_written handle_other [] depth v Hpl)) as (tree' & Ht & Hc).
    assert (P : ProcessQueryProjectionValue updateType tree path v t =
      if fits_plan (path_segments path) p then Ok (tree', t) else Err ERRCODE_DOCUMENTDB_NOTSINGLEVALUEFIELD)
      by (unfold ProcessQueryProjectionValue, bind; rewrite Ht, Hu; now destruct (fits_plan _ p)).
    unfold bind. rewrite P. destruct (fits_plan (path_segments path) p); cbn [andb]; [|reflexivity].
    destruct (Hc eq_refl) as (Hr' & Hp' & Hpr'). specialize (IH Hv' tree' _ t Hp' Hpr' Hr'). cbv zeta in IH. fold (paths_of (query_values events)).
    replace (forallb (fun q => fits_plan q p) (paths_of (query_values events)) &&
             (forallb (apart (path_segments path)) (paths_of (query_values events)) && pairwise_apart (paths_of (query_values events))))
      with (forallb (fun q => fits_plan q (p ++ [(path_segments path, Put v)])) (paths_of (query_values events)) &&
            pairwise_apart (paths_of (query_values events))).
    2: { rewrite andb_assoc. f_equal. apply fits_more. }
    destruct (_ && _); [|exact IH]. destruct IH as (tree2 & Ht2 & Hr2 & Hp2). exists tree2. rewrite <- app_assoc in Hr2, Hp2. auto.
  - cbn [process_filter]. now apply IH.
Qed.

(** C12: The document that an upsert by operators or a pipeline starts from: when no path of
    the query leads to another, it has at every path the value that the query asks for;
    otherwise the upsert is refused. *)
Theorem upsert_document_values (query : fields) (updateType : UpdateType) t events t'
  (Hevents : query_events true query t = Ok (events, t')) (Htype : is_replacement updateType = false)
  (Hvalues : Forall value_fits (query_values events)) :
  if pairwise_apart (paths_of (query_values events))
  then exists d t2, BuildBsonDocumentFromQuery handle_other (S depth) [] (VDocument query) updateType t = Ok (d, t2) /\
       forall path v, asks query path v \/ In (path, v) (query_values events) -> value_at (path_segments path) (VDocument d) = Some v
  else BuildBsonDocumentFromQuery handle_other (S depth) [] (VDocument query) updateType t = Err ERRCODE_DOCUMENTDB_NOTSINGLEVALUEFIELD.
Proof.
  pose proof (values_added updateType events Htype Hvalues [] [] t ltac:(constructor) ltac:(constructor) (tree_represents_nil _ _)) as V. cbv zeta in V.
  assert (N : forallb (fun path => fits_plan path ([] : plan bson_value)) (paths_of (query_values events)) = true) by (apply forallb_forall; reflexivity).
  rewrite N in V. cbn [andb app] in V. unfold BuildBsonDocumentFromQuery, bind. cbn [query_fields].
  pose proof (query_processed_by_events (ProcessQueryProjectionValue updateType) None true query ([] : list (@ProjectionNode OtherArguments)) t) as Q.
  rewrite Hevents in Q. rewrite Q. clear Q. destruct (pairwise_apart (paths_of (query_values events))) eqn:A; [|now rewrite V].
  destruct V as (tree & -> & Hr & Hp).
  pose proof (traverse_outcome false self [] [] constant true false tree _ [] Hp Hr eq_refl PgbsonWriterInit t) as O.
  destruct (project_total constant ltac:(eauto) true false [] (values_plan (query_values events))) as [row Hrow]. rewrite Hrow in O. unfold outcome in O.
  destruct (TraverseObjectAndAppendToWriter _ _ _ _ _ _ _ _ t) as [[w t2]|]; [|destruct O as [[O _]|O]; discriminate].
  destruct O as (fs & Hfs & ->). injection Hfs as ->. exists fs, t2. split; [reflexivity|]. intros path v Ask.
  assert (Hin : In (path, v) (query_values events)).
  { destruct Ask as [Ask|Hin]; [|exact Hin]. apply in_flat_map. exists (QueryValue path v). split; [|now left].
    exact (asked_values_visited true query path v t events t' Hevents Ask). }
  destruct (in_split _ _ Hin) as (before & after & Es). destruct (segments_cons path) as (s & rest & Ep).
  assert (Hv : plain v = true) by (rewrite Forall_forall in Hvalues; exact (proj2 (Hvalues _ Hin))).
  apply (project_sets constant (path_segments path) [] _ fs v v Hrow); try reflexivity; [|rewrite Ep; discriminate| | |now apply plain_not_missing].
  - now apply (values_set _ before path v after).
  - apply unique_document. split; constructor.
  - now rewrite Ep.
Qed.
End Upsert.
