(* ===== verification/UpdateDocExamples.v ===== *)
(** * Updates of documents: examples *)

From Stdlib Require Import ZArith Lia Bool String List.
From Stdlib Require Import Strings.Byte.
From S2P Require Import Prelude SoftFloat BsonTypes StringView Decimal128 BsonCompare BsonOrder RefBid BsonRefine BsonArith Traversal PgbsonElement BsonWire BsonWriter DollarSets.
From S2P Require Import SortUtils ExprEval UpdateOperators UpdateTree UpdateWorkflow UpdateRef UpdatePaths.
From S2P Require Import AggData AggOperators AggEval AggParse AggGet AggMeaning AggOutcome AggTrees AggSound AggRows AggExamples.
From S2P Require Import ProjTree Project ProjMeaning ProjPlans ProjApply ProjBuild ProjSound ProjLens Unwind UnwindSound ProjectStages.
From S2P Require Import QueryValues QuerySound QueryAsks UpdateDocument UpdateDocSound UpdatePipeline UpsertQuery.
Import ListNotations.
Local Open Scope Z_scope.

#[local] Existing Instance RefBidLib.
#[local] Existing Instance RefBidLaws.
#[local] Existing Instance RefLibBson.
#[local] Existing Instance RefLibBsonLaws.
#[local] Existing Instance RefLibBsonDoc.
#[local] Existing Instance RefLibBsonDocLaws.
#[local] Existing Instance RefLibM.
#[local] Existing Instance RefPgSort.
#[local] Existing Instance RefExprEngine.
#[local] Existing Instance RefPositionalQuery.
#[local] Existing Instance RefLibBsonNew.
#[local] Existing Instance RefUnionView.
Local Open Scope string_scope.

(** ** Updates with the reference instances *)

Definition update (source : fields) (spec : bson_value) (query : fields) : res (option fields) :=
  result_of (BsonUpdateDocument false true VEod no_handler no_parser 20 false (fun _ _ => (0, 0)) source spec (VDocument query) None no_tables).

Definition stored : fields := fields_of [("_id", VInt32 1); ("a", VInt32 2); ("b", document_of [("c", VInt32 3)])].

Definition pipeline : fields :=
  [(str "0", document_of [("$set", document_of [("b.d", document_of [("$add", list_of [string_of "$a"; string_of "$b.c"])])])]);
   (str "1", document_of [("$unset", string_of "a")]);
   (str "2", document_of [("$set", document_of [("e", string_of "$b.d")])])].

Example update_by_operators : update stored (document_of [("$set", document_of [("b.c", VInt32 7)])]) [] =
  Ok (Some (fields_of [("_id", VInt32 1); ("a", VInt32 2); ("b", document_of [("c", VInt32 7)])])).
Proof. vm_compute. reflexivity. Qed.

Example update_by_replacement : update stored (document_of [("x", VInt32 1); ("_id", VInt64 1)]) [] =
  Ok (Some (fields_of [("_id", VInt32 1); ("x", VInt32 1)])) /\
  update stored (document_of [("x", VInt32 1); ("_id", VInt32 2)]) [] = Err ERRCODE_DOCUMENTDB_IMMUTABLEFIELD /\
  update stored (VDocument stored) [] = Ok None.
Proof. repeat split; vm_compute; reflexivity. Qed.

(** A later stage sees what an earlier one has set. *)
Example update_by_pipeline : update stored (VArray pipeline) [] =
  Ok (Some (fields_of [("_id", VInt32 1); ("b", document_of [("c", VInt32 3); ("d", VInt32 5)]); ("e", VInt32 5)])).
Proof. vm_compute. reflexivity. Qed.

Definition query : fields :=
  fields_of [("a.b", VInt32 1); ("$and", list_of [document_of [("c", document_of [("$eq", VInt32 2); ("$ne", VInt32 3)])]; document_of [("_id", VInt32 7)]]);
             ("d", document_of [("$gt", VInt32 4)])].

Example upserts : update [] (document_of [("$set", document_of [("x", VInt32 1)])]) query =
  Ok (Some (fields_of [("_id", VInt32 7); ("a", document_of [("b", VInt32 1)]); ("c", VInt32 2); ("x", VInt32 1)])) /\
  update [] (document_of [("x", VInt32 1)]) query = Ok (Some (fields_of [("_id", VInt32 7); ("x", VInt32 1)])) /\
  update [] (document_of [("$set", document_of [("x", VInt32 1)])]) (fields_of [("a", VInt32 1); ("a.b", VInt32 1)]) =
    Err ERRCODE_DOCUMENTDB_NOTSINGLEVALUEFIELD.
Proof. repeat split; vm_compute; reflexivity. Qed.

(** ** The theorems at concrete inputs *)

Definition updated : fields := fields_of [("_id", VInt32 1); ("b", document_of [("c", VInt32 3); ("d", VInt32 5)]); ("e", VInt32 5)].

Abbreviation metadata_of spec :=
  (BuildBsonUpdateMetadata false true VEod no_handler no_parser 20 false (fun _ _ => (0, 0)) spec (VDocument []) None false).

Lemma update_keeps_id_witness :
  exists metadata t, metadata_of (VArray pipeline) no_tables = Ok (metadata, t) /\
  keeps_id (VInt32 1) updated /\ doc_size updated <= BSON_MAX_ALLOWED_SIZE.
Proof.
  assert (R : bind (metadata_of (VArray pipeline)) (BsonUpdateDocumentCore no_handler 20 stored (VArray pipeline)) no_tables = Ok (Some updated, no_tables))
    by (vm_compute; reflexivity).
  unfold bind in R. destruct (metadata_of (VArray pipeline) no_tables) as [[metadata t]|] eqn:E; [|discriminate]. exists metadata, t.
  split; [reflexivity|]. apply (update_keeps_id no_handler 20 stored (VArray pipeline) metadata (VInt32 1) updated t no_tables).
  - reflexivity.
  - reflexivity.
  - now vm_compute.
  - exact R.
Defined.

Lemma pipeline_update_meaning_witness :
  exists data t', GetAggregationPipelineUpdateState false true VEod no_handler no_parser 20 (VArray pipeline) no_tables = Ok (data, t') /\
  exists n, forall k t2, (n <= k)%nat ->
  result_of (ProcessAggregationPipelineUpdate no_handler k stored data false t2) =
  res_bind (pipeline_meaning false true (stages_of pipeline) stored) (finished false (lookup stored id_field)).
Proof.
  eexists. eexists. split; [vm_compute; reflexivity|].
  eapply (pipeline_update_meaning false true VEod no_handler no_parser 20 pipeline no_tables).
  - vm_compute. reflexivity.
  - vm_compute. reflexivity.
  - reflexivity.
  - right. vm_compute. discriminate.
Defined.

Definition replacement : fields := fields_of [("x", VInt32 1); ("_id", VInt64 1)].

Lemma replacement_ok : keys_ok replacement /\ Forall (fun kv => BsonTypes.value_ok (snd kv)) replacement.
Proof. split; repeat constructor; try (now apply no_nulb_ok); vm_compute; intuition discriminate. Qed.

Lemma replacement_keeps_id_witness :
  ProcessReplaceDocument stored (VDocument replacement) false = Ok (fields_of [("_id", VInt32 1); ("x", VInt32 1)]).
Proof.
  etransitivity; [apply (replacement_keeps_id stored replacement (VInt32 1)); try reflexivity; try apply replacement_ok; now vm_compute|].
  vm_compute. reflexivity.
Defined.

Lemma upsert_by_replacement_witness :
  ProcessReplaceDocument [] (VDocument replacement) true = Ok (fields_of [("_id", VInt64 1); ("x", VInt32 1)]).
Proof.
  etransitivity; [apply (upsert_by_replacement [] replacement); try reflexivity; try apply replacement_ok; discriminate|].
  vm_compute. reflexivity.
Defined.

Lemma RewriteDocumentAddObjectId_first_witness :
  RewriteDocumentAddObjectId replacement = Ok (fields_of [("_id", VInt64 1); ("x", VInt32 1)]).
Proof.
  etransitivity; [apply (RewriteDocumentAddObjectId_first replacement); [apply replacement_ok|reflexivity]|]. vm_compute. reflexivity.
Defined.

Definition events : list query_event :=
  [QueryValue (str "a.b") (VInt32 1); QueryValue (str "c") (VInt32 2); QueryFilter; QueryValue (str "_id") (VInt32 7); QueryFilter].

Example query_asks : asks query (str "c") (VInt32 2) /\ asks query (str "_id") (VInt32 7) /\ asks query (str "a.b") (VInt32 1).
Proof.
  repeat split.
  - eapply asks_and; [right; left; reflexivity|reflexivity|reflexivity|left; reflexivity|].
    apply (asks_eq _ _ [] (str "$eq") _ [(str "$ne", VInt32 3)]); [now left|reflexivity|constructor|reflexivity].
  - eapply asks_and; [right; left; reflexivity|reflexivity|reflexivity|right; left; reflexivity|].
    apply asks_value; [now left|reflexivity|discriminate|discriminate].
  - apply asks_value; [now left|reflexivity|discriminate|discriminate].
Qed.

Lemma upsert_document_values_witness :
  exists d t2, BuildBsonDocumentFromQuery no_handler 1 [] (VDocument query) UpdateType_Operator no_tables = Ok (d, t2) /\
  forall path v, asks query path v \/ In (path, v) [(str "a.b", VInt32 1); (str "c", VInt32 2); (str "_id", VInt32 7)] ->
  value_at (path_segments path) (VDocument d) = Some v.
Proof.
  apply (upsert_document_values no_handler 0 query UpdateType_Operator no_tables events no_tables); [vm_compute; reflexivity|reflexivity|].
  repeat apply Forall_cons; try apply Forall_nil; (split; [now apply no_nulb_ok|reflexivity]).
Defined.

Lemma query_id_agreed_witness :
  result_of (TraverseQueryDocumentAndGetId query false no_tables) = Ok (Some (VInt32 7), true).
Proof.
  etransitivity; [apply (query_id_agreed query false no_tables events no_tables); [vm_compute; reflexivity|]|vm_compute; reflexivity].
  repeat constructor; now vm_compute.
Defined.

(** ** Where the code departs from what it means to do *)

(** A regular expression in [$in] is taken for the [_id] that the query asks for, and not
    for a pattern; alone it is a pattern. *)
Example regex_in_taken_for_id :
  let pattern := VRegex (Some (str "^a")) (Some []) in
  result_of (TraverseQueryDocumentAndGetId (fields_of [("_id", document_of [("$in", list_of [pattern])])]) false no_tables) = Ok (Some pattern, true) /\
  result_of (TraverseQueryDocumentAndGetId (fields_of [("_id", pattern)]) false no_tables) = Ok (None, true).
Proof. split; vm_compute; reflexivity. Qed.

(** An operator behind another field makes no update by operators; it is refused. *)
Example operator_behind_field :
  DetermineUpdateType (document_of [("a", VInt32 1); ("$set", document_of [("b", VInt32 1)])]) = Err ERRCODE_DOCUMENTDB_DOLLARPREFIXEDFIELDNAME.
Proof. vm_compute. reflexivity. Qed.
